(* ===== verification/_CoqProject ===== *)
-Q . S2P
Prelude.v
Hweight.v
Csum.v
FastCsum.v
ListHead.v
Klist.v
Hashtab.v
Notifier.v
Rcu.v
SeqFile.v
Devres.v
AtaTf.v
AtaSim.v
AtaXfer.v
Mempool.v
Idr.v
IpmiSm.v
Kcs.v
KcsTime.v
Smi.v
SmiInv.v
SmiSpec.v
SmiKcs.v
Smic.v
Workqueue.v
WqInv.v
WqFlush.v
WqLive.v
WqSpec.v
Sort.v
Task.v
Waitq.v
Semaphore.v
Completion.v
WaitEvent.v
Ctype.v
Strings.v
Strtoull.v
Lro.v
LroSpec.v
LroHdr.v
Tasklet.v
TaskletInv.v
TaskletLive.v
TaskletSpec.v
Jiffies.v
ScsiCmd.v
ScsiLife.v
ScsiInv.v
ScsiStep.v
ScsiRun.v
ScsiSpec.v
