(* ===== verification/Prelude.v ===== *)
(** * vmklinux: a verification library

    The program is the Linux compatibility layer of a hypervisor and the Linux
    device drivers that run on it (below [vmkdrivers/src26]): [vmklinux26] holds
    the kernel services the drivers expect, partly imported from Linux
    ([vmklinux26/linux]), partly written for the hypervisor
    ([vmklinux26/vmware]); [include/linux] holds the data structures defined in
    headers; [drivers] holds the drivers. This library models the services whose
    behaviour is decided by their own code, and the parts of the driver
    libraries that are computations over their own data.

    ** Files, and the code they model

    - [Prelude]: machine integers as [Z] with explicit wrap-around ([wrap],
      [sext]), the C bit operators, tactics ([arith], [unbool], [case_test]),
      the rewrite database [cint], lemmas on words and lists.
    - [Hweight]: [linux/lib/hweight.c].
    - [Csum], [FastCsum]: [linux/arch/x86_64/lib/csum-partial.c] and
      [asm/checksum.h], the inline assembly instruction by instruction with its
      carry flag.
    - [ListHead]: the circular lists of [include/linux/list.h] as a heap of
      cells; a load or a store through a bad pointer fails.
    - [Klist]: [linux/lib/kref.c] (module [Kref]) and [linux/lib/klist.c], over
      the heap of [ListHead].
    - [Hashtab]: [include/linux/hash.h] and [vmware/linux_hashtab.c].
    - [Notifier]: [vmware/linux_notifier.c].
    - [Rcu]: [vmware/linux_rcu.c] and [include/linux/rcupdate.h], as a step
      relation of any number of concurrent threads.
    - [SeqFile]: [linux/fs/seq_file.c], with the record iterator and the
      allocator as parameters.
    - [Devres]: [linux/drivers/base/devres.c].
    - [AtaTf], [AtaSim], [AtaXfer]: [include/linux/ata.h],
      [drivers/ata/libata-core.c] and [drivers/ata/libata-scsi.c]: taskfiles and
      the translation of SCSI commands; the commands libata answers itself;
      transfer modes, link speed and timing.
    - [Mempool]: [linux/mm/mempool.c], as a step relation of concurrent threads.
    - [Idr]: [linux/lib/idr.c].
    - [Workqueue] (the model), [WqInv], [WqFlush], [WqLive] (its invariants),
      [WqSpec] (its theorems): [vmware/linux_workqueue.c].
    - [Sort]: [linux/lib/sort.c], on a byte memory.
    - [Task]: sleeping, waking and signals of [vmware/linux_task.c] and
      [linux_signal.c]; [Waitq]: wait queues ([include/linux/wait.h],
      [linux/kernel/wait.c], [vmware/linux_waitqueue.c]) and what their users
      have in common; on them [WaitEvent] (the [wait_event] macros),
      [Completion] ([include/linux/completion.h], [vmware/linux_waitqueue.c])
      and [Semaphore] ([linux/lib/semaphore-sleepers.c], [asm/semaphore.h]).
    - [Tasklet] (the model), [TaskletInv] (its invariant), [TaskletLive],
      [TaskletSpec] (its theorems): tasklets, softirqs and the bottom half they
      run in ([linux/kernel/softirq.c], [include/linux/interrupt.h],
      [vmware/linux_stubs.c]).
    - [Jiffies]: the conversions of [include/linux/jiffies.h], and the timeouts and
      rounding of [vmware/linux_time.c].
    - [IpmiSm], [Kcs], [KcsTime], [Smic]: the state machines of the IPMI driver
      ([drivers/char/openipmi/ipmi_si_drv]): the interface of [ipmi_si_sm.h] as a
      class with its laws, the KCS machine [ipmi_kcs_sm.c] and its timeouts, the
      SMIC machine [ipmi_smic_sm.c].
    - [Smi] (the model), [SmiInv], [SmiSpec], [SmiKcs] (its theorems): their user
      [ipmi_si_intf.c], which queues messages, starts them, polls the machine from
      a timer, a thread and an interrupt, and hands the answers to the upper layer.
    - [Ctype], [Strings], [Strtoull]: [vmware/linux_ctype.c],
      [include/linux/ctype.h], [linux/lib/string.c] and the parsing of numbers of
      [linux/lib/vsprintf.c], on a memory of bytes.
    - [Lro] (the model), [LroSpec], [LroHdr] (its theorems): large receive offload,
      [linux/net/inet_lro.c].
    - [ScsiCmd] (commands and their statuses), [ScsiLife] (the model), [ScsiInv],
      [ScsiStep], [ScsiRun] (its invariant), [ScsiSpec] (its theorems): the way of a
      SCSI command between the VMkernel and a driver, [vmware/linux_scsi.c] and the
      commands of [vmware/linux_scsi_lld_if.c], with the timers of
      [linux/drivers/scsi/scsi_error.c].

    ** How a component is modelled

    The state of a component is a [Record] with the fields of the C structure,
    and an operation is a function from states to states with the name it has in
    the code, with the guards and early returns of the code. A fault (an access
    outside an array, a bad pointer, a [BUG_ON]) is [None]; an error code is the
    integer the code returns. A [w]-bit integer is a [Z] and the conversions are
    written out. Callbacks, allocators and hardware are arguments of the
    definitions; where a theorem needs more than that they return, what they
    are documented to do is a hypothesis of it.

    Code that runs under concurrency ([Rcu], [Mempool], [Workqueue], [Task],
    [WaitEvent], [Completion], [Semaphore], [Tasklet], [Smi], [ScsiLife]) is a step relation in which a step
    is what the code does without another thread being able to observe a state
    in between: a section under a lock, or one access outside locks. Its
    theorems are about every reachable state. Code that runs under its caller's
    lock, or under its own throughout, is a sequence of operations, and its
    theorems are about every sequence. Where a theorem speaks of the past (what
    was accepted or delivered, how often, by whom), the state carries a trace or
    a count that the code does not have; the comment of the state says which.

    Loops whose recursion is not structural have fuel, and running out of it is
    a fault, so that a theorem that says there is no fault also says that the
    fuel is enough. It is the number of blocks plus one for the walks of
    [Notifier], the number of cells for those of [ListHead], the length of the
    list for [Devres], the number of elements for [Mempool], the number of
    layers in reserve for [Idr], whose bit scan takes 64 steps and whose search
    13 steps in each of at most 2 rounds (two for each of six layers, and one),
    four steps for each queued callback and eight more in [Rcu], and two levels
    of recursion in the timing computation of [AtaXfer]. In [Sort] it is the
    number of bytes for a sift and of elements for the outer loops. In
    [SeqFile] it is an argument, and the theorems say how much is enough. The
    loops of [Strings] take the number of bytes of the memory, printing a number
    64 digits, and the two rounds of handle_flags in [Smi] have fuel 2. Step
    relations need none.

    ** The components together

    [Klist] runs on the heap of [ListHead] and uses its refinement; [AtaSim] and
    [AtaXfer] share the registers, CDBs and device records of [AtaTf]. The others are
    independent services that the drivers call. [WaitEvent], [Completion] and
    [Semaphore] are step relations over the tasks of [Task] and the queues of
    [Waitq]: a thread in [schedule] takes the steps of [Task.schedule], a
    wake-up is [Waitq.__wake_up_common], and the invariant of the queue and its
    threads ([Waitq.queue_ok]) is proved once for any program with a
    [position] for each of its program points. [Sort] takes the comparison and
    the swap routine through the classes [Comparison] and [SwapLaw], of which
    the routines of the file are instances. The state machines of IPMI are
    instances of the class [si_sm_handlers], and [Smi] is proved for every machine
    that obeys the laws [SiSm]; [SmiKcs] and [Smic] discharge them, so that its
    theorems hold of the driver with either interface. [Lro] puts the header
    checksum of [FastCsum] into the aggregate, which [Csum] relates to the
    standard's sum, and [Strtoull] reads the memory of [Strings] with the
    classes of characters of [Ctype].

    ** What the theorems show

    - Refinement of an abstract specification, for every sequence of
      operations: lists of [ListHead], klists, notifier chains, hash tables and
      identifier trees behave as lists, priority lists and finite maps, errors
      included (identifier trees as long as a start lies in the same block as the
      identifier found); the SCSI read and write commands become taskfiles that
      transfer exactly the blocks asked for, but for the upper bits that the
      translation of six-byte commands drops.
    - Safety and liveness under every interleaving: the grace period of [Rcu]
      and that no callback is lost; the guarantee and the conservation of
      [Mempool]; iteration of a [Klist] that is changed meanwhile; work queues
      start every entry once and in order, forget none, and keep what flush and
      cancel promise; semaphores give no permit twice and forget no waiter, a
      condition that is set before its queue is woken leaves no waiter of
      [wait_event] asleep, and every completion is taken once; a tasklet runs at
      one place at a time, not while it is disabled, and is called once it is
      scheduled.
    - Protocols with hardware: whatever the device answers (a read is a
      function of the whole history of the ports), an IPMI transaction sends
      exactly the request and returns exactly the answer, or reports an error,
      and it ends unless the device sends without end or its caller reports that no
      time passes. Above it, the system
      interface keeps every message it accepted until it is answered once, in
      order within each queue.
    - SCSI commands, on hosts without time-outs: under every interleaving of
      queueing, completion, aborts and bottom halves no command is used after it was
      freed or completed twice, every request is completed at most once and not if it
      was refused, and when nobody can go on all of them have been and no count is
      left, if no bottom half stops at the very moment its time is over.
    - Data that passes through: what large receive offload hands on is for TCP the
      stream that came in, and every header it makes up is that of the
      packet it stands for, but for the echo of a time stamp that the last segment
      does not have.
    - Functional correctness and round trips: checksums against the one's complement sum of the
      standard, the heap sort against "sorted and a permutation, in place",
      population counts against the count bit by bit, what a sequence
      of reads of a [SeqFile] returns while memory is available, timing that covers every interval, the
      least free identifier, the tokens of strsep against splitting, and numbers
      that are printed and parsed.
    - Resources: [Devres] frees every block once (but for what [devres_get] does);
      [Mempool] frees what is left.
    - Bounds and faults: no simulated SCSI command stores outside a response
      buffer of four bytes or more, and shorter ones are overrun; times become
      jiffies rounded up and without overflow.
    - Errors of the code are lemmas and examples next to the component ([SmiKcs],
      where the IPMI interface loses a message, [Completion], [WaitEvent], [Task], [SeqFile], [Devres], [AtaTf], [Mempool],
      [Idr], [AtaXfer], [Kcs], [LroHdr], [TaskletSpec], [Jiffies],
      [ScsiCmd]).

    ** Not modelled

    - The block and network layers over the hypervisor, the registration of SCSI
      adapters and paths, PCI, DMA, heaps and /proc: mostly calls of the VMkernel's
      interface, whose implementation is not in the repository.
    - The network and storage drivers, USB host controllers and input devices:
      programming of hardware registers, firmware images and tables.
    - zlib ([linux/lib/zlib_inflate]): third-party code carried along.
    - Of the components above: the RCU variants of the lists and [hlist]s, the
      formatted output of [SeqFile] beyond its bytes, worlds of [Task], exclusive
      waiters of [WaitEvent], internal SCSI commands, resets and the options that drop
      commands, the error handling and the PIO state machine of
      libata, the BT machine of IPMI (its result codes go beyond the laws its user
      relies on for the other two), the detection and registration of IPMI
      interfaces and the message handler above them, and formatted output, which
      is the VMkernel's.
    - Kernel threads, the recovery of [scsi_error.c], the driver model over
      [kobject.c], the report descriptors of [hid-core.c] and the pool of [random.c]
      are computations of their own that a further development could take up; they
      are parts of Linux that the drivers of this repository reach
      through registration with the VMkernel. *)

From Stdlib Require Export ZArith Lia.
From stdpp Require Export base tactics numbers option list gmap.
From Stdlib Require Import Btauto.

#[global] Set Default Goal Selector "!".

(** ** Machine integers

    A C integer is a [Z]; the conversion to an unsigned type of width [w]
    is [x mod 2^w] and the conversion to a signed type is the two's
    complement reinterpretation of that residue. *)

Declare Scope cint_scope.
Delimit Scope cint_scope with cint.

Definition wrap (w x : Z) : Z := x mod 2 ^ w.
Definition sext (w x : Z) : Z := (x + 2 ^ (w - 1)) mod 2 ^ w - 2 ^ (w - 1).

Abbreviation u8 := (wrap 8).
Abbreviation u16 := (wrap 16).
Abbreviation u32 := (wrap 32).
Abbreviation u64 := (wrap 64).
Abbreviation s32 := (sext 32).
Abbreviation s64 := (sext 64).

Infix "&" := Z.land (at level 40, left associativity) : cint_scope.
Infix "|'" := Z.lor (at level 50, left associativity) : cint_scope.
Infix ">>" := Z.shiftr (at level 45, left associativity) : cint_scope.
Infix "<<" := Z.shiftl (at level 45, left associativity) : cint_scope.

(** [arith] closes linear goals after turning division and remainder by
    constants into equations. *)
Ltac arith := Z.div_mod_to_equations; lia.

(** Turns the boolean comparisons of the hypotheses into propositions. *)
Ltac unbool :=
  repeat match goal with
  | H : (_ && _)%bool = true |- _ => apply andb_prop in H; destruct H
  | H : (_ || _)%bool = false |- _ => apply orb_false_iff in H; destruct H
  | H : negb _ = true |- _ => apply negb_true_iff in H
  | H : negb _ = false |- _ => apply negb_false_iff in H
  | H : (_ <? _)%Z = true |- _ => apply Z.ltb_lt in H
  | H : (_ <? _)%Z = false |- _ => apply Z.ltb_ge in H
  | H : (_ <=? _)%Z = true |- _ => apply Z.leb_le in H
  | H : (_ <=? _)%Z = false |- _ => apply Z.leb_gt in H
  | H : (_ =? _)%Z = true |- _ => apply Z.eqb_eq in H
  | H : (_ =? _)%Z = false |- _ => apply Z.eqb_neq in H
  end.

(** Case split on the boolean test of the goal or of a hypothesis, with the
    test turned into a proposition. *)
Ltac case_test :=
  match goal with
  | |- context [if ?b then _ else _] => let E := fresh "E" in destruct b eqn:E
  | H : context [if ?b then _ else _] |- _ => let E := fresh "E" in destruct b eqn:E
  end; unbool.

Section words.
Local Open Scope Z_scope.

Lemma wrap_range w x : 0 <= w -> 0 <= wrap w x < 2 ^ w.
Proof. intros Hw. apply Z.mod_pos_bound, Z.pow_pos_nonneg; lia. Qed.

Lemma wrap_small w x : 0 <= x < 2 ^ w -> wrap w x = x.
Proof. apply Z.mod_small. Qed.

Lemma wrap_wrap w x : wrap w (wrap w x) = wrap w x.
Proof. apply Zmod_mod. Qed.

Lemma wrap_add_l w x y : wrap w (wrap w x + y) = wrap w (x + y).
Proof. apply Zplus_mod_idemp_l. Qed.

Lemma wrap_add_r w x y : wrap w (x + wrap w y) = wrap w (x + y).
Proof. apply Zplus_mod_idemp_r. Qed.

Lemma wrap_sub_l w x y : wrap w (wrap w x - y) = wrap w (x - y).
Proof. apply Zminus_mod_idemp_l. Qed.

Lemma wrap_sub_r w x y : wrap w (x - wrap w y) = wrap w (x - y).
Proof. apply Zminus_mod_idemp_r. Qed.

Lemma wrap_mul_l w x y : wrap w (wrap w x * y) = wrap w (x * y).
Proof. apply Zmult_mod_idemp_l. Qed.

Lemma sext_small w x : 0 < w -> - 2 ^ (w - 1) <= x < 2 ^ (w - 1) -> sext w x = x.
Proof.
  intros Hw Hx. unfold sext.
  assert (2 ^ w = 2 * 2 ^ (w - 1)) as E
    by (rewrite <- Z.pow_succ_r by lia; f_equal; lia).
  rewrite Z.mod_small; lia.
Qed.

(** Masking and shifting act on the two halves of a split word
    independently; the [SWAR] and byte-order lemmas rest on this. *)
Lemma testbit_split k b w i :
  0 <= k -> 0 <= b < 2 ^ k -> 0 <= i ->
  Z.testbit (b + 2 ^ k * w) i
  = if i <? k then Z.testbit b i else Z.testbit w (i - k).
Proof.
  intros Hk Hb Hi. rewrite Z.mul_comm, <- Z.shiftl_mul_pow2 by lia.
  rewrite Z.add_nocarry_lxor.
  - rewrite Z.lxor_spec, Z.shiftl_spec by lia.
    destruct (Z.ltb_spec i k).
    + rewrite (Z.testbit_neg_r w) by lia. apply xorb_false_r.
    + rewrite <- (Z.mod_small b (2 ^ k)), Z.mod_pow2_bits_high by lia.
      apply xorb_false_l.
  - apply Z.bits_inj'; intros j Hj. rewrite Z.land_spec, Z.shiftl_spec, Z.bits_0 by lia.
    destruct (Z.ltb_spec j k).
    + rewrite (Z.testbit_neg_r w) by lia. apply andb_false_r.
    + rewrite <- (Z.mod_small b (2 ^ k)), Z.mod_pow2_bits_high by lia. done.
Qed.

Lemma land_split k b w m mm :
  0 <= k -> 0 <= b < 2 ^ k -> 0 <= m < 2 ^ k ->
  Z.land (b + 2 ^ k * w) (m + 2 ^ k * mm) = Z.land b m + 2 ^ k * Z.land w mm.
Proof.
  intros Hk Hb Hm. apply Z.bits_inj'; intros i Hi.
  assert (0 <= Z.land b m < 2 ^ k) as Hl.
  { rewrite <- (Z.mod_small b (2 ^ k)), <- Z.land_ones by lia.
    rewrite <- Z.land_assoc, (Z.land_comm _ m), Z.land_assoc, Z.land_ones by lia.
    apply Z.mod_pos_bound; lia. }
  rewrite Z.land_spec, !testbit_split by lia.
  destruct (i <? k); by rewrite Z.land_spec.
Qed.

Lemma lor_split k b w : 0 <= k -> 0 <= b < 2 ^ k -> Z.lor b (w * 2 ^ k) = b + 2 ^ k * w.
Proof.
  intros Hk Hb. apply Z.bits_inj'; intros i Hi.
  rewrite testbit_split, Z.lor_spec by lia. rewrite <- Z.shiftl_mul_pow2, Z.shiftl_spec by lia.
  destruct (Z.ltb_spec i k).
  - rewrite (Z.testbit_neg_r w) by lia. apply orb_false_r.
  - rewrite <- (Z.mod_small b (2 ^ k)), Z.mod_pow2_bits_high by lia. done.
Qed.

Lemma land_pow2 x k : 0 <= k -> Z.land x (2 ^ k) = 2 ^ k * ((x / 2 ^ k) mod 2).
Proof.
  intros Hk. assert (0 < 2 ^ k) by (apply Z.pow_pos_nonneg; lia).
  pose proof (land_split k (x mod 2 ^ k) (x / 2 ^ k) 0 1 Hk
    ltac:(apply Z.mod_pos_bound; lia) ltac:(lia)) as E.
  rewrite Z.add_0_l, Z.mul_1_r, Z.land_0_r, Z.add_0_l in E.
  change 1 with (Z.ones 1) in E at 1. rewrite Z.land_ones in E by lia. change (2 ^ 1) with 2 in E.
  rewrite Z.add_comm, <- Z.div_mod in E by lia. done.
Qed.

Lemma land_le_l x y : 0 <= x -> 0 <= Z.land x y <= x.
Proof.
  intros Hx. split; [apply Z.land_nonneg; by left|].
  assert (0 <= Z.ldiff x y) by (apply Z.ldiff_nonneg; by left).
  enough (x - Z.land x y = Z.ldiff x y) by lia.
  rewrite Z.sub_nocarry_ldiff.
  - apply Z.bits_inj'; intros i _. rewrite !Z.ldiff_spec, Z.land_spec. btauto.
  - apply Z.bits_inj'; intros i _. rewrite Z.ldiff_spec, Z.land_spec, Z.bits_0. btauto.
Qed.

Lemma land_ones_mod x k : 0 <= k -> Z.land x (Z.ones k) = x mod 2 ^ k.
Proof. apply Z.land_ones. Qed.

Lemma shiftr_div x k : 0 <= k -> Z.shiftr x k = x / 2 ^ k.
Proof. apply Z.shiftr_div_pow2. Qed.

Lemma shiftl_mul x k : 0 <= k -> Z.shiftl x k = x * 2 ^ k.
Proof. apply Z.shiftl_mul_pow2. Qed.

(** A decidable fact about all the values below a bound is checked by
    evaluation. *)
Lemma forall_below (n : Z) (P : Z -> bool) :
  forallb P (seqZ 0 n) = true -> forall x, 0 <= x < n -> P x = true.
Proof.
  intros H x Hx. rewrite forallb_forall in H. apply H.
  apply list_elem_of_In, elem_of_seqZ. lia.
Qed.
End words.

Create Rewrite HintDb cint.
#[export] Hint Rewrite wrap_wrap wrap_add_l wrap_add_r wrap_sub_l wrap_sub_r wrap_mul_l : cint.
#[export] Hint Rewrite land_ones_mod shiftr_div shiftl_mul using lia : cint.

(** ** Lists *)

Lemma elem_of_insert_inv {A} (l : list A) i x y : x ∈ <[i := y]> l -> x = y \/ x ∈ l.
Proof.
  intros [j Hj]%list_elem_of_lookup. destruct (decide (i = j)) as [->|Hne].
  - left. destruct (decide (j < length l)%nat).
    + rewrite list_lookup_insert_eq in Hj by done. congruence.
    + rewrite lookup_ge_None_2 in Hj by (rewrite length_insert; lia). done.
  - right. rewrite list_lookup_insert_ne in Hj by done. by apply list_elem_of_lookup_2 in Hj.
Qed.

Lemma filter_ne_id (n : Z) (l : list Z) : n ∉ l -> filter (λ x, x <> n) l = l.
Proof.
  induction l as [|x l IH]; [done|]. intros [? ?]%not_elem_of_cons.
  rewrite filter_cons_True by auto. by rewrite IH.
Qed.

(** ** Arrays and memory

    An access out of range is a fault. *)

Section arrays.
Local Open Scope Z_scope.

Definition read_at (l : list Z) (i : Z) : option Z := if i <? 0 then None else l !! Z.to_nat i.
Definition write_at (l : list Z) (i v : Z) : option (list Z) :=
  if (0 <=? i) && (i <? Z.of_nat (length l)) then Some (<[Z.to_nat i := v]> l) else None.

Lemma read_at_Some l i : 0 <= i < Z.of_nat (length l) -> exists v, read_at l i = Some v /\ l !! Z.to_nat i = Some v.
Proof.
  intros Hi. unfold read_at. destruct (Z.ltb_spec i 0); [lia|].
  destruct (lookup_lt_is_Some_2 l (Z.to_nat i)) as [v E]; [lia|]. eauto.
Qed.

Lemma write_at_Some l i v : 0 <= i < Z.of_nat (length l) -> write_at l i v = Some (<[Z.to_nat i := v]> l).
Proof.
  intros Hi. unfold write_at. destruct (Z.leb_spec 0 i); [|lia]. by destruct (Z.ltb_spec i (Z.of_nat (length l))); [|lia].
Qed.

Lemma length_write_at l i v l' : write_at l i v = Some l' -> length l' = length l.
Proof. unfold write_at. destruct (_ && _); [|done]. intros [= <-]. apply length_insert. Qed.

Lemma read_at_lookup l i : 0 <= i -> read_at l i = l !! Z.to_nat i.
Proof. intros Hi. unfold read_at. by destruct (Z.ltb_spec i 0); [lia|]. Qed.
End arrays.
