(* ===== verification/Hweight.v ===== *)
(** Population count: [linux/lib/hweight.c]. *)

From S2P Require Import Prelude.
Local Open Scope Z_scope.
Local Open Scope cint_scope.

(** ** The code *)

Definition hweight32 (w : Z) : Z :=
  let res := u32 (w - ((w >> 1) & 0x55555555)) in
  let res := u32 ((res & 0x33333333) + ((res >> 2) & 0x33333333)) in
  let res := u32 (res + (res >> 4)) & 0x0F0F0F0F in
  let res := u32 (res + (res >> 8)) in
  u32 (res + (res >> 16)) & 0x000000FF.

Definition hweight16 (w : Z) : Z :=
  let res := u32 (w - ((w >> 1) & 0x5555)) in
  let res := u32 ((res & 0x3333) + ((res >> 2) & 0x3333)) in
  let res := u32 (res + (res >> 4)) & 0x0F0F in
  u32 (res + (res >> 8)) & 0x00FF.

Definition hweight8 (w : Z) : Z :=
  let res := u32 (w - ((w >> 1) & 0x55)) in
  let res := u32 ((res & 0x33) + ((res >> 2) & 0x33)) in
  u32 (res + (res >> 4)) & 0x0F.

(** The [BITS_PER_LONG == 64] branch, the one compiled for x86_64. *)
Definition hweight64 (w : Z) : Z :=
  let res := u64 (w - ((w >> 1) & 0x5555555555555555)) in
  let res := u64 ((res & 0x3333333333333333) + ((res >> 2) & 0x3333333333333333)) in
  let res := u64 (res + (res >> 4)) & 0x0F0F0F0F0F0F0F0F in
  let res := u64 (res + (res >> 8)) in
  let res := u64 (res + (res >> 16)) in
  u64 (res + (res >> 32)) & 0x00000000000000FF.

(** ** Reference: the number of set bits among the low [n] bits *)

Fixpoint popcount (n : nat) (w : Z) : Z :=
  match n with
  | O => 0
  | S n' => (w mod 2) + popcount n' (w / 2)
  end.

(** ** Lane-wise view of the three masking steps *)

(** [rep n m] repeats the byte [m] on [n] byte lanes. *)
Fixpoint rep (n : nat) (m : Z) : Z :=
  match n with O => 0 | S n' => m + 256 * rep n' m end.

(** The three masked steps over [n] byte lanes, in unbounded arithmetic. *)
Definition lanes (n : nat) (w : Z) : Z :=
  let r1 := w - ((w >> 1) & rep n 0x55) in
  let r2 := (r1 & rep n 0x33) + ((r1 >> 2) & rep n 0x33) in
  (r2 + (r2 >> 4)) & rep n 0x0F.

(** The sum of the byte lanes of [w], each replaced by its weight. *)
Fixpoint lane_sum (n : nat) (w : Z) : Z :=
  match n with
  | O => 0
  | S n' => popcount 8 (w mod 256) + 256 * lane_sum n' (w / 256)
  end.

(** The weight of the two-bit and four-bit fields of one byte. *)
Definition nibbles (b : Z) : Z :=
  let r1 := b - ((b >> 1) & 0x55) in (r1 & 0x33) + ((r1 >> 2) & 0x33).

Definition half (n : nat) (w : Z) : Z :=
  let r1 := w - ((w >> 1) & rep n 0x55) in
  (r1 & rep n 0x33) + ((r1 >> 2) & rep n 0x33).

Lemma shiftr_lane k b w :
  0 <= k <= 8 -> 0 <= b < 256 ->
  (b + 256 * w) >> k = ((b >> k) + 2 ^ (8 - k) * (w mod 2 ^ k)) + 256 * (w >> k).
Proof.
  intros Hk Hb. rewrite !shiftr_div by lia.
  assert (256 = 2 ^ k * 2 ^ (8 - k)) as E.
  { rewrite <- Z.pow_add_r by lia. by replace (k + (8 - k)) with 8 by lia. }
  assert (0 < 2 ^ k) by (apply Z.pow_pos_nonneg; lia).
  replace (b + 256 * w) with (b + (2 ^ (8 - k) * w) * 2 ^ k) by (rewrite E; ring).
  rewrite Z.div_add by lia.
  pose proof (Z.div_mod w (2 ^ k)). rewrite E. nia.
Qed.

Lemma byte_step1 b e : 0 <= b < 256 -> 0 <= e < 2 ->
  ((b >> 1) + 2 ^ (8 - 1) * e) & 0x55 = (b >> 1) & 0x55 /\
  0 <= b - ((b >> 1) & 0x55) < 256.
Proof.
  intros Hb He.
  assert (H := forall_below 256 (fun b => (((b >> 1) + 128) & 0x55 =? (b >> 1) & 0x55)
     && (0 <=? b - ((b >> 1) & 0x55)) && (b - ((b >> 1) & 0x55) <? 256))%bool
     ltac:(vm_compute; reflexivity) b Hb). cbv beta in H. unbool.
  assert (e = 0 \/ e = 1) as [-> | ->] by lia; [rewrite Z.mul_0_r, Z.add_0_r|]; done.
Qed.

Lemma byte_step2 c e : 0 <= c < 256 -> 0 <= e < 4 ->
  ((c >> 2) + 2 ^ (8 - 2) * e) & 0x33 = (c >> 2) & 0x33.
Proof.
  intros Hc He.
  assert (H := forall_below 1024 (fun x => (((x / 4) >> 2) + 64 * (x mod 4)) & 0x33
     =? ((x / 4) >> 2) & 0x33) ltac:(vm_compute; reflexivity) (4 * c + e) ltac:(lia)).
  cbv beta in H. unbool.
  replace ((4 * c + e) / 4) with c in H by arith.
  replace ((4 * c + e) mod 4) with e in H by arith. done.
Qed.

Lemma byte_step3 b e : 0 <= b < 256 -> 0 <= e <= 4 ->
  (nibbles b + ((nibbles b >> 4) + 16 * e)) & 0x0F = popcount 8 b /\
  0 <= nibbles b + ((nibbles b >> 4) + 16 * e) < 256 /\
  nibbles b mod 16 <= 4 /\ 0 <= nibbles b <= 68.
Proof.
  intros Hb He.
  assert (H := forall_below 1280 (fun x => let b := x / 5 in let e := x mod 5 in
     ((nibbles b + ((nibbles b >> 4) + 16 * e)) & 0x0F =? popcount 8 b)
     && (0 <=? nibbles b + ((nibbles b >> 4) + 16 * e))
     && (nibbles b + ((nibbles b >> 4) + 16 * e) <? 256)
     && (nibbles b mod 16 <=? 4) && (0 <=? nibbles b) && (nibbles b <=? 68))%bool
     ltac:(vm_compute; reflexivity) (5 * b + e) ltac:(lia)).
  cbv beta zeta in H.
  replace ((5 * b + e) / 5) with b in H by arith.
  replace ((5 * b + e) mod 5) with e in H by arith. unbool. lia.
Qed.

Lemma half_step n b w :
  0 <= b < 256 -> half (S n) (b + 256 * w) = nibbles b + 256 * half n w.
Proof.
  intros Hb. unfold half, nibbles. cbn [rep].
  destruct (byte_step1 b (w mod 2) Hb ltac:(arith)) as [E1 B1].
  rewrite (shiftr_lane 1) by lia. change 256 with (2 ^ 8).
  assert (0 <= (b >> 1) + 2 ^ (8 - 1) * (w mod 2 ^ 1) < 2 ^ 8)
    by (rewrite shiftr_div by lia; change (2 ^ 1) with 2; arith).
  rewrite (land_split 8) by lia.
  change (2 ^ 1) with 2 in *. rewrite E1.
  set (c := b - ((b >> 1) & 0x55)) in *. set (r := w - ((w >> 1) & rep n 0x55)).
  replace (b + 2 ^ 8 * w - (((b >> 1) & 0x55) + 2 ^ 8 * ((w >> 1) & rep n 0x55)))
    with (c + 2 ^ 8 * r) by (unfold c, r; ring).
  rewrite land_split by lia.
  change (2 ^ 8) with 256. rewrite (shiftr_lane 2) by lia.
  assert (0 <= (c >> 2) + 2 ^ (8 - 2) * (r mod 2 ^ 2) < 2 ^ 8)
    by (rewrite shiftr_div by lia; change (2 ^ 2) with 4; arith).
  change 256 with (2 ^ 8). rewrite (land_split 8) by lia.
  rewrite byte_step2 by (try change (2 ^ 2) with 4; arith). ring.
Qed.

Lemma half_low n w : half n w mod 16 <= 4 /\ 0 <= half n w /\
  half n w <= 68 * rep n 1.
Proof.
  revert w; induction n as [|n IH]; intros w.
  - unfold half; cbn [rep]. rewrite !Z.land_0_r. done.
  - rewrite (Z.div_mod w 256), (Z.add_comm (256 * _)) by lia.
    rewrite half_step by arith. cbn [rep].
    destruct (IH (w / 256)) as (? & ? & ?).
    destruct (byte_step3 (w mod 256) 0 ltac:(arith) ltac:(lia)) as (_ & _ & ? & ?).
    arith.
Qed.

Lemma lanes_step n b w :
  0 <= b < 256 -> lanes (S n) (b + 256 * w) = popcount 8 b + 256 * lanes n w.
Proof.
  intros Hb. change (lanes (S n) (b + 256 * w)) with
    ((half (S n) (b + 256 * w) + (half (S n) (b + 256 * w) >> 4)) & rep (S n) 0x0F).
  change (lanes n w) with ((half n w + (half n w >> 4)) & rep n 0x0F).
  rewrite half_step by done. destruct (half_low n w) as (Hl & H0 & _).
  destruct (byte_step3 b (half n w mod 16) Hb ltac:(arith)) as (E & R & _ & R').
  rewrite (shiftr_lane 4) by lia. change (2 ^ (8 - 4)) with 16. change (2 ^ 4) with 16.
  cbn [rep]. change 256 with (2 ^ 8).
  replace (nibbles b + 2 ^ 8 * half n w
           + ((nibbles b >> 4) + 16 * (half n w mod 16) + 2 ^ 8 * (half n w >> 4)))
    with (nibbles b + ((nibbles b >> 4) + 16 * (half n w mod 16))
          + 2 ^ 8 * (half n w + (half n w >> 4))) by ring.
  rewrite (land_split 8) by lia. by rewrite E.
Qed.

(** After the masked steps every byte lane holds the weight of its byte. *)
Lemma lanes_sum n w : lanes n w = lane_sum n w.
Proof.
  revert w; induction n as [|n IH]; intros w.
  - unfold lanes; cbn [rep]. by rewrite !Z.land_0_r.
  - rewrite (Z.div_mod w 256), (Z.add_comm (256 * _)) at 1 by lia.
    rewrite lanes_step by arith. by rewrite IH.
Qed.

Lemma popcount_add n m w :
  popcount (n + m) w
  = popcount n (w mod 2 ^ Z.of_nat n) + popcount m (w / 2 ^ Z.of_nat n).
Proof.
  revert w; induction n as [|n IH]; intros w.
  - cbn [popcount Nat.add]. by rewrite Z.div_1_r.
  - cbn [popcount Nat.add]. rewrite IH, Nat2Z.inj_succ, Z.pow_succ_r by lia.
    assert (0 < 2 ^ Z.of_nat n) by (apply Z.pow_pos_nonneg; lia).
    rewrite Z.div_div by lia. rewrite Z.rem_mul_r by lia.
    rewrite (Z.mul_comm 2 (_ mod _)), Z.div_add, Z_mod_plus_full by lia.
    pose proof (Z.mod_pos_bound w 2 ltac:(lia)).
    rewrite (Z.div_small (w mod 2)), Zmod_mod, Z.add_0_l by lia. lia.
Qed.

Lemma popcount_split m w : popcount (8 + m) w = popcount 8 (w mod 256) + popcount m (w / 256).
Proof. apply (popcount_add 8). Qed.

Lemma popcount_bounds n w : 0 <= popcount n w <= Z.of_nat n.
Proof.
  revert w; induction n as [|n IH]; intros w; cbn [popcount]; [lia|].
  specialize (IH (w / 2)). arith.
Qed.

(** The part of the code before the horizontal sum, with the wrap-around of
    the word: no step leaves the range of [n] byte lanes. *)
Lemma swar_no_wrap n k w :
  8 * Z.of_nat n <= k -> 0 <= w < 2 ^ (8 * Z.of_nat n) ->
  (let r1 := wrap k (w - ((w >> 1) & rep n 0x55)) in
   let r2 := wrap k ((r1 & rep n 0x33) + ((r1 >> 2) & rep n 0x33)) in
   wrap k (r2 + (r2 >> 4)) & rep n 0x0F) = lane_sum n w.
Proof.
  intros Hk Hw. assert (R : 255 * rep n 1 = 2 ^ (8 * Z.of_nat n) - 1).
  { clear. induction n as [|n IH]; [done|]. cbn [rep].
    rewrite Nat2Z.inj_succ, Z.mul_succ_r, Z.pow_add_r by lia. lia. }
  pose proof (Z.pow_le_mono_r 2 _ _ ltac:(lia) Hk).
  assert (0 <= (w >> 1) & rep n 0x55 <= w).
  { assert (0 <= w >> 1 <= w) by (rewrite shiftr_div by lia; change (2 ^ 1) with 2; arith).
    pose proof (land_le_l (w >> 1) (rep n 0x55) ltac:(lia)). lia. }
  cbv zeta. rewrite (wrap_small _ (w - _)) by lia.
  destruct (half_low n w) as (_ & L0 & L1).
  rewrite <- lanes_sum. unfold lanes. cbv zeta. unfold half in L0, L1. cbv zeta in L0, L1.
  set (r2 := _ + _) in L0, L1. fold r2.
  rewrite (wrap_small _ r2) by lia. f_equal. apply wrap_small.
  rewrite shiftr_div by lia. change (2 ^ 4) with 16. arith.
Qed.

(** The horizontal sums: no partial sum of at most eight lanes, each at most
    eight, leaves its byte. *)
Lemma sum_lanes4 p0 p1 p2 p3 :
  0 <= p0 <= 8 -> 0 <= p1 <= 8 -> 0 <= p2 <= 8 -> 0 <= p3 <= 8 ->
  (let res := p0 + 256 * (p1 + 256 * (p2 + 256 * (p3 + 256 * 0))) in
   let res := u32 (res + (res >> 8)) in
   u32 (res + (res >> 16)) & 0xFF) = p0 + (p1 + (p2 + (p3 + 0))).
Proof.
  intros. cbv zeta. change 0xFF with (Z.ones 8). unfold wrap.
  rewrite land_ones_mod, !shiftr_div by lia.
  change (2 ^ 8) with 256. change (2 ^ 16) with 65536. change (2 ^ 32) with 4294967296.
  arith.
Qed.

Lemma sum_lanes2 p0 p1 :
  0 <= p0 <= 8 -> 0 <= p1 <= 8 ->
  (let res := p0 + 256 * (p1 + 256 * 0) in u32 (res + (res >> 8)) & 0xFF) = p0 + (p1 + 0).
Proof.
  intros. cbv zeta. change 0xFF with (Z.ones 8). unfold wrap.
  rewrite land_ones_mod, !shiftr_div by lia.
  change (2 ^ 8) with 256. change (2 ^ 32) with 4294967296. arith.
Qed.

Lemma shiftr_byte p q : 0 <= p < 256 -> (p + 256 * q) >> 8 = q.
Proof. intros Hp. rewrite shiftr_div by lia. change (2 ^ 8) with 256. arith. Qed.

Lemma sum_lanes8 p0 p1 p2 p3 p4 p5 p6 p7 :
  0 <= p0 <= 8 -> 0 <= p1 <= 8 -> 0 <= p2 <= 8 -> 0 <= p3 <= 8 ->
  0 <= p4 <= 8 -> 0 <= p5 <= 8 -> 0 <= p6 <= 8 -> 0 <= p7 <= 8 ->
  (let res := p0 + 256 * (p1 + 256 * (p2 + 256 * (p3 + 256 * (p4 + 256 *
                (p5 + 256 * (p6 + 256 * (p7 + 256 * 0))))))) in
   let res := u64 (res + (res >> 8)) in
   let res := u64 (res + (res >> 16)) in
   u64 (res + (res >> 32)) & 0xFF)
  = p0 + (p1 + (p2 + (p3 + (p4 + (p5 + (p6 + (p7 + 0))))))).
Proof.
  intros. cbv zeta.
  assert (E16 : forall x, x >> 16 = (x >> 8) >> 8) by (intros; by rewrite Z.shiftr_shiftr).
  assert (E32 : forall x, x >> 32 = (x >> 16) >> 16) by (intros; by rewrite Z.shiftr_shiftr).
  rewrite shiftr_byte by lia.
  match goal with |- context [u64 ?e] => replace (u64 e) with
    (p0 + p1 + 256 * (p1 + p2 + 256 * (p2 + p3 + 256 * (p3 + p4 + 256 * (p4 + p5 + 256 *
      (p5 + p6 + 256 * (p6 + p7 + 256 * (p7 + 256 * 0))))))))
    by (rewrite wrap_small by lia; ring) end.
  rewrite E16, !shiftr_byte by lia.
  match goal with |- context [u64 ?e] => replace (u64 e) with
    (p0 + p1 + (p2 + p3) + 256 * (p1 + p2 + (p3 + p4) + 256 * (p2 + p3 + (p4 + p5) + 256 *
     (p3 + p4 + (p5 + p6) + 256 * (p4 + p5 + (p6 + p7) + 256 * (p5 + p6 + p7 + 256 *
      (p6 + p7 + 256 * (p7 + 256 * 0))))))))
    by (rewrite wrap_small by lia; ring) end.
  rewrite E32, !E16, !shiftr_byte by lia.
  rewrite wrap_small by lia.
  change 0xFF with (Z.ones 8). rewrite land_ones_mod by lia. change (2 ^ 8) with 256. arith.
Qed.

Lemma hweight8_popcount w : 0 <= w < 2 ^ 8 -> hweight8 w = popcount 8 w.
Proof.
  intros Hw. pose proof (swar_no_wrap 1 32 w ltac:(lia) Hw) as E. cbv zeta in E.
  change (rep 1 0x55) with 0x55 in E. change (rep 1 0x33) with 0x33 in E.
  change (rep 1 0x0F) with 0x0F in E. unfold hweight8. cbv zeta. rewrite E.
  cbn [lane_sum]. rewrite Z.mod_small by lia. lia.
Qed.

Lemma hweight16_popcount w : 0 <= w < 2 ^ 16 -> hweight16 w = popcount 16 w.
Proof.
  intros Hw. pose proof (swar_no_wrap 2 32 w ltac:(lia) Hw) as E. cbv zeta in E.
  change (rep 2 0x55) with 0x5555 in E. change (rep 2 0x33) with 0x3333 in E.
  change (rep 2 0x0F) with 0x0F0F in E. unfold hweight16. cbv zeta. rewrite E.
  change 16%nat with (8 + (8 + 0))%nat. rewrite !popcount_split. cbn [lane_sum].
  apply sum_lanes2; apply (popcount_bounds 8).
Qed.

Lemma hweight32_popcount w : 0 <= w < 2 ^ 32 -> hweight32 w = popcount 32 w.
Proof.
  intros Hw. pose proof (swar_no_wrap 4 32 w ltac:(lia) Hw) as E. cbv zeta in E.
  change (rep 4 0x55) with 0x55555555 in E. change (rep 4 0x33) with 0x33333333 in E.
  change (rep 4 0x0F) with 0x0F0F0F0F in E. unfold hweight32. cbv zeta. rewrite E.
  change 32%nat with (8 + (8 + (8 + (8 + 0))))%nat. rewrite !popcount_split. cbn [lane_sum].
  apply sum_lanes4; apply (popcount_bounds 8).
Qed.

Lemma hweight64_popcount w : 0 <= w < 2 ^ 64 -> hweight64 w = popcount 64 w.
Proof.
  intros Hw. pose proof (swar_no_wrap 8 64 w ltac:(lia) Hw) as E. cbv zeta in E.
  change (rep 8 0x55) with 0x5555555555555555 in E.
  change (rep 8 0x33) with 0x3333333333333333 in E.
  change (rep 8 0x0F) with 0x0F0F0F0F0F0F0F0F in E. unfold hweight64. cbv zeta. rewrite E.
  change 64%nat with (8 + (8 + (8 + (8 + (8 + (8 + (8 + (8 + 0))))))))%nat.
  rewrite !popcount_split. cbn [lane_sum].
  apply sum_lanes8; apply (popcount_bounds 8).
Qed.

(** each of the four Hamming-weight routines returns the number of set
    bits of every word of its width, with the wrap-around of its unsigned
    arithmetic taken into account. *)
Theorem hweight_correct w :
  (0 <= w < 2 ^ 8 -> hweight8 w = popcount 8 w) /\
  (0 <= w < 2 ^ 16 -> hweight16 w = popcount 16 w) /\
  (0 <= w < 2 ^ 32 -> hweight32 w = popcount 32 w) /\
  (0 <= w < 2 ^ 64 -> hweight64 w = popcount 64 w).
Proof.
  auto 10 using hweight8_popcount, hweight16_popcount, hweight32_popcount, hweight64_popcount.
Qed.

Lemma hweight_witness :
  hweight32 0xF0F0 = popcount 32 0xF0F0 /\ hweight64 (2 ^ 64 - 1) = 64.
Proof.
  split; [apply (hweight_correct 0xF0F0); lia|].
  apply (hweight_correct (2 ^ 64 - 1)); lia.
Defined.
