(* ===== verification/Csum.v ===== *)
(** Internet checksum: [linux/arch/x86_64/lib/csum-partial.c], with the two
    inline helpers of the x86_64 [asm/checksum.h].

    Memory is a function from addresses to bytes; the inline assembly is
    modelled instruction by instruction with its carry flag. *)

From Stdlib Require Import Setoid Morphisms.
From S2P Require Import Prelude.
Local Open Scope Z_scope.
Local Open Scope cint_scope.

(** ** The code *)

Section code.
Context (mem : Z -> Z).

(** Little-endian loads. *)
Definition ld16 (a : Z) : Z := mem a + 256 * mem (a + 1).
Definition ld32 (a : Z) : Z := ld16 a + 2 ^ 16 * ld16 (a + 2).
Definition ld64 (a : Z) : Z := ld32 a + 2 ^ 32 * ld32 (a + 4).

(** [addq]/[adcq]: the sum modulo 2^64 and the carry flag. *)
Definition adcq (m : Z) (rc : Z * Z) : Z * Z :=
  let s := rc.1 + m + rc.2 in (u64 s, s >> 64).

(** [addl %2,%0; adcl $0,%0] *)
Definition add32_with_carry (a b : Z) : Z :=
  let s := a + b in u32 (u32 s + (s >> 32)).

(** [addw %w2,%w0; adcw $0,%w0] on [b = a >> 16]. *)
Definition from32to16 (a : Z) : Z :=
  let b := u16 (a >> 16) in
  let s := b + u16 a in
  u16 (u16 s + (s >> 16)).

(** The 64-byte loop body: one [addq], seven [adcq], and the final
    [adcq zero]. *)
Definition csum_block (buff result : Z) : Z :=
  fst (adcq 0 (adcq (ld64 (buff + 56)) (adcq (ld64 (buff + 48)) (adcq (ld64 (buff + 40))
      (adcq (ld64 (buff + 32)) (adcq (ld64 (buff + 24)) (adcq (ld64 (buff + 16))
      (adcq (ld64 (buff + 8)) (adcq (ld64 buff) (result, 0)))))))))).

Fixpoint csum_blocks (buff result : Z) (count64 : nat) {struct count64} : Z * Z :=
  match count64 with
  | O => (result, buff)
  | S n => csum_blocks (buff + 64) (csum_block buff result) n
  end.

(** The 8-byte loop body. *)
Definition csum_word (buff result : Z) : Z :=
  fst (adcq 0 (adcq (ld64 buff) (result, 0))).

Fixpoint csum_words (buff result : Z) (count : nat) {struct count} : Z * Z :=
  match count with
  | O => (result, buff)
  | S n => csum_words (buff + 8) (csum_word buff result) n
  end.

(** The part of [do_csum] that runs when there are 32-bit words left. *)
Definition do_csum_quads (result count len buff : Z) : Z * Z * Z :=
  let '(result, count, len, buff) :=
    if negb (4 & buff =? 0)
    then (u64 (result + ld32 buff), u32 (count - 1), u32 (len - 4), buff + 4)
    else (result, count, len, buff) in
  let count := count >> 1 in
  let count64 := count >> 3 in
  let '(result, buff) := csum_blocks buff result (Z.to_nat count64) in
  let count := count mod 8 in
  let '(result, buff) := csum_words buff result (Z.to_nat count) in
  let result := add32_with_carry (result >> 32) (result & 0xffffffff) in
  if negb (len & 4 =? 0) then (u64 (result + ld32 buff), len, buff + 4)
  else (result, len, buff).

(** The part of [do_csum] that runs when there are 16-bit words left. *)
Definition do_csum_words (result count len buff : Z) : Z * Z * Z :=
  let '(result, count, len, buff) :=
    if negb (2 & buff =? 0)
    then (u64 (result + ld16 buff), u32 (count - 1), u32 (len - 2), buff + 2)
    else (result, count, len, buff) in
  let count := count >> 1 in
  let '(result, len, buff) :=
    if count =? 0 then (result, len, buff) else do_csum_quads result count len buff in
  if negb (len & 2 =? 0) then (u64 (result + ld16 buff), len, buff + 2)
  else (result, len, buff).

Definition do_csum (buff len : Z) : Z :=
  if len =? 0 then 0 else
  let odd := 1 & buff in
  let '(result, len, buff) :=
    if negb (odd =? 0) then (mem buff << 8, u32 (len - 1), buff + 1) else (0, len, buff) in
  let count := len >> 1 in
  let '(result, len, buff) :=
    if count =? 0 then (result, len, buff) else do_csum_words result count len buff in
  let result := if negb (len & 1 =? 0) then u64 (result + mem buff) else result in
  let result := add32_with_carry (result >> 32) (result & 0xffffffff) in
  if negb (odd =? 0) then
    let result := from32to16 result in
    u32 (((result >> 8) & 0xff) |' ((result & 0xff) << 8))
  else u32 result.

Definition csum_partial (buff len sum : Z) : Z := add32_with_carry (do_csum buff len) sum.

(** [addl %1,%0; adcl $0xffff,%0] *)
Definition csum_fold (sum : Z) : Z :=
  let a := sum & 0xffff0000 in
  let s := a + u32 (sum << 16) in
  let r := u32 (u32 s + 0xffff + (s >> 32)) in
  u32 (Z.lnot r) >> 16.

Definition ip_compute_csum (buff len : Z) : Z := u16 (csum_fold (csum_partial buff len 0)).

(** ** Reference: the RFC 1071 sum of the 16-bit little-endian words of the
    buffer, an odd last byte padded with zero. *)
Fixpoint rfc_sum (n : nat) (a : Z) : Z :=
  match n with
  | O => 0
  | S O => mem a
  | S (S n') => ld16 a + rfc_sum n' (a + 2)
  end.
End code.

(** ** One's complement arithmetic *)

(** Congruence modulo 65535. *)
Definition eqm (a b : Z) : Prop := a mod 65535 = b mod 65535.

#[export] Instance eqm_equiv : Equivalence eqm.
Proof. split; red; unfold eqm; congruence. Qed.

#[export] Instance eqm_add : Proper (eqm ==> eqm ==> eqm) Z.add.
Proof.
  intros a a' Ha b b' Hb. unfold eqm in *.
  by rewrite Zplus_mod, Ha, Hb, <- Zplus_mod.
Qed.

#[export] Instance eqm_mul : Proper (eqm ==> eqm ==> eqm) Z.mul.
Proof.
  intros a a' Ha b b' Hb. unfold eqm in *.
  by rewrite Zmult_mod, Ha, Hb, <- Zmult_mod.
Qed.

Lemma eqm_of a b k : a = b + k * 65535 -> eqm a b.
Proof. intros ->. apply Z_mod_plus_full. Qed.

(** [r] is a one's complement representative of the sum [V]: congruent to it,
    and zero only when the sum is zero. *)
Record oc (r V : Z) : Prop := {
  oc_eqm : eqm r V;
  oc_zero : r = 0 <-> V = 0;
  oc_nonneg : 0 <= r;
}.

Lemma oc_refl r : 0 <= r -> oc r r.
Proof. by split. Qed.

Lemma oc_add r V m : oc r V -> 0 <= V -> 0 <= m -> oc (r + m) (V + m).
Proof. intros [E Z0 N] HV Hm. split; [by rewrite E|lia|lia]. Qed.

(** End-around carry: a carry out of 16, 32 or 64 bits is added back. *)
Lemma oc_carry k a b V :
  eqm (2 ^ k) 1 -> 0 < 2 ^ k -> 0 <= a -> 0 <= b ->
  oc (a + 2 ^ k * b) V -> oc (a + b) V.
Proof.
  intros Hk Hp Ha Hb [E Z0 N]. split; [|nia|lia].
  rewrite <- E, Hk. by rewrite Z.mul_1_l.
Qed.

Lemma eqm_pow k : (k = 16 \/ k = 32 \/ k = 48 \/ k = 64) -> eqm (2 ^ k) 1.
Proof. intros [-> | [-> | [-> | ->]]]; reflexivity. Qed.

(** Folding the 32-bit halves of the accumulator. *)
Lemma oc_add32 a b V :
  0 <= a < 2 ^ 32 -> 0 <= b < 2 ^ 32 -> oc (a + b) V ->
  oc (add32_with_carry a b) V /\ 0 <= add32_with_carry a b < 2 ^ 32.
Proof.
  intros Ha Hb H. unfold add32_with_carry. cbv zeta. rewrite shiftr_div by lia.
  unfold wrap. change (2 ^ 32) with 4294967296 in *.
  rewrite (Z.mod_small (_ + _)) by arith.
  split; [|arith]. apply (oc_carry 32); [by apply eqm_pow; auto|done|arith|arith|].
  change (2 ^ 32) with 4294967296.
  by replace (_ + _) with (a + b) by arith.
Qed.

Lemma oc_fold64 r V :
  0 <= r < 2 ^ 64 -> oc r V ->
  oc (add32_with_carry (r >> 32) (r & 0xffffffff)) V /\
  0 <= add32_with_carry (r >> 32) (r & 0xffffffff) < 2 ^ 32.
Proof.
  intros Hr H. change 0xffffffff with (Z.ones 32).
  rewrite shiftr_div, land_ones_mod by lia.
  change (2 ^ 64) with 18446744073709551616 in *. change (2 ^ 32) with 4294967296 in *.
  apply oc_add32; [change (2 ^ 32) with 4294967296; arith..|].
  rewrite Z.add_comm. apply (oc_carry 32); [by apply eqm_pow; auto|done|arith|arith|].
  change (2 ^ 32) with 4294967296. by replace (_ + _) with r by arith.
Qed.

Lemma oc_from32to16 a V :
  0 <= a < 2 ^ 32 -> oc a V -> oc (from32to16 a) V /\ 0 <= from32to16 a < 2 ^ 16.
Proof.
  intros Ha H. unfold from32to16. cbv zeta. rewrite !shiftr_div by lia. unfold wrap.
  change (2 ^ 32) with 4294967296 in *. change (2 ^ 16) with 65536.
  rewrite (Z.mod_small (a / 65536)) by arith.
  rewrite (Z.mod_small (_ + _ / 65536)) by arith.
  split; [|arith]. apply (oc_carry 16); [by apply eqm_pow; auto|done|arith|arith|].
  change (2 ^ 16) with 65536.
  replace (_ + _) with (a mod 65536 + a / 65536) by arith.
  apply (oc_carry 16); [by apply eqm_pow; auto|done|arith|arith|].
  change (2 ^ 16) with 65536. by replace (_ + _) with a by arith.
Qed.

(** The accumulator with its pending carry, during an [adcq] chain: a pending
    carry leaves room for one more increment. *)
Definition oca (rc : Z * Z) (V : Z) : Prop :=
  oc (rc.1 + rc.2) V /\ 0 <= rc.1 < 2 ^ 64 /\ (rc.2 = 0 \/ rc.2 = 1 /\ rc.1 <= 2 ^ 64 - 2).

Lemma oca_adcq m rc V :
  0 <= m < 2 ^ 64 -> 0 <= V -> oca rc V -> oca (adcq m rc) (V + m).
Proof.
  intros Hm HV (H & R & C). destruct rc as [r c]. unfold adcq; cbn [fst snd] in *.
  cbv zeta. rewrite shiftr_div by lia. unfold oca, wrap; cbn [fst snd].
  change (2 ^ 64) with 18446744073709551616 in *.
  split_and!; [|arith|arith|arith].
  apply (oc_carry 64); [by apply eqm_pow; auto|done|arith|arith|].
  change (2 ^ 64) with 18446744073709551616.
  replace (_ + _) with (r + c + m) by arith. apply oc_add; [done|done|lia].
Qed.

Lemma oca_done rc V : oca rc V -> oc (fst (adcq 0 rc)) V /\ 0 <= fst (adcq 0 rc) < 2 ^ 64.
Proof.
  intros (H & R & C). destruct rc as [r c]. unfold adcq; cbn [fst snd] in *. cbv zeta.
  rewrite Z.add_0_r, wrap_small by lia. split; [done|lia].
Qed.

Lemma oca_start r V : oc r V -> 0 <= r < 2 ^ 64 -> oca (r, 0) V.
Proof. intros H R. unfold oca; cbn [fst snd]. rewrite Z.add_0_r. auto with lia. Qed.

(** ** Words of the buffer *)
Section words.
Context (mem : Z -> Z) (Hmem : forall a, 0 <= mem a < 256).

Lemma ld16_range a : 0 <= ld16 mem a < 2 ^ 16.
Proof. unfold ld16. pose proof (Hmem a). pose proof (Hmem (a + 1)). lia. Qed.

Lemma ld32_range a : 0 <= ld32 mem a < 2 ^ 32.
Proof. unfold ld32. pose proof (ld16_range a). pose proof (ld16_range (a + 2)). lia. Qed.

Lemma ld64_range a : 0 <= ld64 mem a < 2 ^ 64.
Proof. unfold ld64. pose proof (ld32_range a). pose proof (ld32_range (a + 4)). lia. Qed.

(** The sum of [n] 16-bit words. *)
Fixpoint wsum (n : nat) (a : Z) : Z :=
  match n with O => 0 | S n' => ld16 mem a + wsum n' (a + 2) end.

Lemma wsum_add n m a : wsum (n + m) a = wsum n a + wsum m (a + 2 * Z.of_nat n).
Proof.
  revert a; induction n as [|n IH]; intros a; cbn [wsum Nat.add].
  - by replace (a + 2 * Z.of_nat 0) with a by lia.
  - rewrite IH. replace (a + 2 * Z.of_nat (S n)) with (a + 2 + 2 * Z.of_nat n) by lia. lia.
Qed.

Lemma wsum_nonneg n a : 0 <= wsum n a.
Proof.
  revert a; induction n as [|n IH]; intros a; cbn [wsum]; [lia|].
  pose proof (ld16_range a). specialize (IH (a + 2)). lia.
Qed.

Lemma oc_ld32 r V a : oc r V -> 0 <= V -> oc (r + ld32 mem a) (V + wsum 2 a).
Proof.
  intros [E Z0 N] HV. unfold ld32; cbn [wsum].
  pose proof (ld16_range a). pose proof (ld16_range (a + 2)).
  split; [|lia|lia]. rewrite E, (eqm_pow 16) by auto.
  apply (eqm_of _ _ 0). lia.
Qed.

Lemma oca_ld64 rc V a :
  oca rc V -> 0 <= V -> oca (adcq (ld64 mem a) rc) (V + wsum 4 a).
Proof.
  intros H HV. destruct (oca_adcq (ld64 mem a) rc V (ld64_range a) HV H) as ([E Z0 N] & R & C).
  split_and!; [|lia..]. pose proof (ld64_range a). pose proof (wsum_nonneg 4 a).
  unfold ld64, ld32 in *; cbn [wsum] in *.
  replace (a + 4 + 2) with (a + 2 + 2 + 2) in * by lia. replace (a + 4) with (a + 2 + 2) in * by lia.
  pose proof (ld16_range a). pose proof (ld16_range (a + 2)).
  pose proof (ld16_range (a + 2 + 2)). pose proof (ld16_range (a + 2 + 2 + 2)).
  split; [|lia|lia]. rewrite E, (eqm_pow 32), (eqm_pow 16) by auto.
  apply (eqm_of _ _ 0). lia.
Qed.

Lemma csum_block_oc buff r V :
  oc r V -> 0 <= V -> 0 <= r < 2 ^ 64 ->
  oc (csum_block mem buff r) (V + wsum 32 buff) /\ 0 <= csum_block mem buff r < 2 ^ 64.
Proof.
  intros H HV R. unfold csum_block. apply oca_done.
  replace (V + wsum 32 buff) with
    (V + wsum 4 buff + wsum 4 (buff + 8) + wsum 4 (buff + 16) + wsum 4 (buff + 24)
     + wsum 4 (buff + 32) + wsum 4 (buff + 40) + wsum 4 (buff + 48) + wsum 4 (buff + 56))
    by (change 32%nat with (4 + (4 + (4 + (4 + (4 + (4 + (4 + 4)))))))%nat;
        rewrite !wsum_add; change (2 * Z.of_nat 4) with 8;
        replace (buff + 8 + 8) with (buff + 16) by lia;
        replace (buff + 16 + 8) with (buff + 24) by lia;
        replace (buff + 24 + 8) with (buff + 32) by lia;
        replace (buff + 32 + 8) with (buff + 40) by lia;
        replace (buff + 40 + 8) with (buff + 48) by lia;
        replace (buff + 48 + 8) with (buff + 56) by lia; lia).
  pose proof (wsum_nonneg 4) as N.
  pose proof (N buff); pose proof (N (buff + 8)); pose proof (N (buff + 16));
  pose proof (N (buff + 24)); pose proof (N (buff + 32)); pose proof (N (buff + 40));
  pose proof (N (buff + 48)).
  repeat (apply oca_ld64; [|lia]). by apply oca_start.
Qed.

Lemma csum_blocks_oc n buff r V :
  oc r V -> 0 <= V -> 0 <= r < 2 ^ 64 ->
  let '(r', b') := csum_blocks mem buff r n in
  oc r' (V + wsum (32 * n) buff) /\ 0 <= r' < 2 ^ 64 /\ b' = buff + 64 * Z.of_nat n.
Proof.
  revert buff r V; induction n as [|n IH]; intros buff r V H HV R; cbn [csum_blocks].
  - rewrite Nat.mul_0_r; cbn [wsum]. rewrite Z.add_0_r. split_and!; [done|lia..].
  - destruct (csum_block_oc buff r V H HV R) as [H' R'].
    pose proof (wsum_nonneg 32 buff).
    specialize (IH (buff + 64) _ _ H' ltac:(lia) R').
    destruct (csum_blocks mem (buff + 64) (csum_block mem buff r) n) as [r' b'].
    destruct IH as (H'' & R'' & ->). split_and!; [|lia..].
    replace (32 * S n)%nat with (32 + 32 * n)%nat by lia. rewrite wsum_add, Z.add_assoc.
    by change (2 * Z.of_nat 32) with 64.
Qed.

Lemma csum_word_oc buff r V :
  oc r V -> 0 <= V -> 0 <= r < 2 ^ 64 ->
  oc (csum_word mem buff r) (V + wsum 4 buff) /\ 0 <= csum_word mem buff r < 2 ^ 64.
Proof.
  intros H HV R. unfold csum_word. apply oca_done. apply oca_ld64; [|done]. by apply oca_start.
Qed.

Lemma csum_words_oc n buff r V :
  oc r V -> 0 <= V -> 0 <= r < 2 ^ 64 ->
  let '(r', b') := csum_words mem buff r n in
  oc r' (V + wsum (4 * n) buff) /\ 0 <= r' < 2 ^ 64 /\ b' = buff + 8 * Z.of_nat n.
Proof.
  revert buff r V; induction n as [|n IH]; intros buff r V H HV R; cbn [csum_words].
  - rewrite Nat.mul_0_r; cbn [wsum]. rewrite Z.add_0_r. split_and!; [done|lia..].
  - destruct (csum_word_oc buff r V H HV R) as [H' R'].
    pose proof (wsum_nonneg 4 buff).
    specialize (IH (buff + 8) _ _ H' ltac:(lia) R').
    destruct (csum_words mem (buff + 8) (csum_word mem buff r) n) as [r' b'].
    destruct IH as (H'' & R'' & ->). split_and!; [|lia..].
    replace (4 * S n)%nat with (4 + 4 * n)%nat by lia. rewrite wsum_add, Z.add_assoc.
    by change (2 * Z.of_nat 4) with 8.
Qed.

(** One phase of [do_csum] has consumed [2 n] bytes from [buff]: the new
    accumulator, remaining length and pointer. *)
Definition consumed (V buff : Z) (n : nat) (len mask bound : Z) (st : Z * Z * Z) : Prop :=
  let '(r, len', b') := st in
  oc r (V + wsum n buff) /\ 0 <= r < bound /\ b' = buff + 2 * Z.of_nat n /\
  0 <= len' < 2 ^ 32 /\ len' mod mask = len mod mask.

Lemma bit_test x k : 0 <= k ->
  negb (x & 2 ^ k =? 0) = negb ((x / 2 ^ k) mod 2 =? 0).
Proof.
  intros Hk. rewrite land_pow2 by done. assert (0 < 2 ^ k) by (apply Z.pow_pos_nonneg; lia).
  destruct (Z.eqb_spec (2 ^ k * ((x / 2 ^ k) mod 2)) 0), (Z.eqb_spec ((x / 2 ^ k) mod 2) 0);
    try done; nia.
Qed.

(** The two middle loops and the fold, once the buffer is 8-byte aligned. *)
Lemma do_csum_core r V c len buff :
  oc r V -> 0 <= V -> 0 <= r < 2 ^ 40 -> 0 <= len < 2 ^ 32 -> c = len / 4 ->
  consumed V buff (2 * Z.to_nat (len / 4)) len 4 (2 ^ 33)
    (let count := c >> 1 in
     let count64 := count >> 3 in
     let '(result, buff) := csum_blocks mem buff r (Z.to_nat count64) in
     let count := count mod 8 in
     let '(result, buff) := csum_words mem buff result (Z.to_nat count) in
     let result := add32_with_carry (result >> 32) (result & 0xffffffff) in
     if negb (len & 4 =? 0) then (u64 (result + ld32 mem buff), len, buff + 4)
     else (result, len, buff)).
Proof.
  intros H HV R Hl ->. cbv zeta. rewrite !shiftr_div by lia.
  change (2 ^ 1) with 2. change (2 ^ 3) with 8.
  pose proof (csum_blocks_oc (Z.to_nat (len / 4 / 2 / 8)) buff r V H HV ltac:(lia)) as B.
  destruct (csum_blocks mem buff r _) as [r1 b1]. destruct B as (H1 & R1 & ->).
  pose proof (csum_words_oc (Z.to_nat ((len / 4 / 2) mod 8)) (buff + 64 * Z.of_nat
    (Z.to_nat (len / 4 / 2 / 8))) r1 _ H1 ltac:(pose proof (wsum_nonneg
    (32 * Z.to_nat (len / 4 / 2 / 8)) buff); lia) R1) as B.
  destruct (csum_words mem _ r1 _) as [r2 b2]. destruct B as (H2 & R2 & ->).
  destruct (oc_fold64 r2 _ R2 H2) as [H3 R3]. revert H3 R3.
  generalize (add32_with_carry (r2 >> 32) (r2 & 0xffffffff)). intros r3 H3 R3.
  assert (EW : wsum (32 * Z.to_nat (len / 4 / 2 / 8)) buff
     + wsum (4 * Z.to_nat ((len / 4 / 2) mod 8))
         (buff + 64 * Z.of_nat (Z.to_nat (len / 4 / 2 / 8)))
     = wsum (4 * Z.to_nat (len / 8)) buff).
  { replace (4 * Z.to_nat (len / 8))%nat with (32 * Z.to_nat (len / 4 / 2 / 8)
      + 4 * Z.to_nat ((len / 4 / 2) mod 8))%nat by arith.
    rewrite wsum_add. do 2 f_equal. lia. }
  rewrite <- Z.add_assoc, EW in H3.
  rewrite (bit_test len 2 ltac:(lia) : negb (len & 4 =? 0) = negb ((len / 4) mod 2 =? 0)).
  case_test; unfold consumed.
  - replace (2 * Z.to_nat (len / 4))%nat with (4 * Z.to_nat (len / 8) + 2)%nat by arith.
    rewrite wsum_add, Z.add_assoc.
    set (b := buff + _ + _). set (b' := buff + _).
    assert (b = b') as -> by (unfold b, b'; arith).
    pose proof (ld32_range b'). pose proof (wsum_nonneg (4 * Z.to_nat (len / 8)) buff).
    rewrite wrap_small by lia.
    split_and!; [apply oc_ld32; [done|lia]|lia|lia|unfold b'; arith|lia|lia|lia].
  - replace (2 * Z.to_nat (len / 4))%nat with (4 * Z.to_nat (len / 8))%nat by arith.
    split_and!; [done|lia|lia|arith|lia|lia|lia].
Qed.

(** A phase after a phase. *)
Lemma consumed_trans V buff k n len len0 mask bound b0 st :
  len mod mask = len0 mod mask -> b0 = buff + 2 * Z.of_nat k ->
  consumed (V + wsum k buff) b0 n len mask bound st ->
  consumed V buff (k + n) len0 mask bound st.
Proof.
  intros Hm -> H. destruct st as [[r l] b]. destruct H as (H & R & -> & L & M).
  unfold consumed. rewrite wsum_add, Z.add_assoc. split_and!; [done|lia|lia|lia|lia|lia|congruence].
Qed.

Lemma do_csum_quads_oc r V len buff :
  oc r V -> 0 <= V -> 0 <= r < 2 ^ 32 -> 0 <= len < 2 ^ 32 -> len / 4 <> 0 ->
  consumed V buff (2 * Z.to_nat (len / 4)) len 4 (2 ^ 33)
    (do_csum_quads mem r (len / 4) len buff).
Proof.
  intros H HV R Hl Hc. unfold do_csum_quads. case_test.
  - pose proof (ld32_range buff). pose proof (wsum_nonneg 2 buff).
    rewrite (wrap_small 64 (r + _)), (wrap_small 32 (len / 4 - 1)), (wrap_small 32 (len - 4))
      by arith.
    replace (2 * Z.to_nat (len / 4))%nat with (2 + 2 * Z.to_nat ((len - 4) / 4))%nat by arith.
    eapply consumed_trans with (len := len - 4) (b0 := buff + 4); [arith|lia|].
    apply do_csum_core; [by apply oc_ld32|lia|lia|arith|arith].
  - apply do_csum_core; [done|done|lia|done|done].
Qed.

Lemma do_csum_words_oc r V len buff :
  oc r V -> 0 <= V -> 0 <= r < 2 ^ 17 -> 0 <= len < 2 ^ 32 -> len / 2 <> 0 ->
  consumed V buff (Z.to_nat (len / 2)) len 2 (2 ^ 34)
    (do_csum_words mem r (len / 2) len buff).
Proof.
  intros H HV R Hl Hc. unfold do_csum_words.
  assert (Tail : forall r1 V1 l1 b1, oc r1 V1 -> 0 <= V1 -> 0 <= r1 < 2 ^ 18 -> 0 <= l1 < 2 ^ 32 ->
    consumed V1 b1 (Z.to_nat (l1 / 2)) l1 2 (2 ^ 34)
     (let count := l1 / 2 >> 1 in
      let '(result, len, buff) :=
        if count =? 0 then (r1, l1, b1) else do_csum_quads mem r1 count l1 b1 in
      if negb (len & 2 =? 0) then (u64 (result + ld16 mem buff), len, buff + 2)
      else (result, len, buff))).
  { clear -Hmem. intros r V len buff H HV R Hl. cbv zeta. rewrite shiftr_div by lia.
    change (2 ^ 1) with 2. replace (len / 2 / 2) with (len / 4) by arith.
    assert (Q : consumed V buff (2 * Z.to_nat (len / 4)) len 4 (2 ^ 33)
      (if len / 4 =? 0 then (r, len, buff) else do_csum_quads mem r (len / 4) len buff)).
    { case_test; [|by apply do_csum_quads_oc; [| |lia| |]].
      rewrite E. unfold consumed; cbn [wsum Z.to_nat Nat.mul]. rewrite Z.add_0_r.
      split_and!; [done|lia..]. }
    destruct (if len / 4 =? 0 then _ else _) as [[r' l'] b'].
    destruct Q as (H' & R' & -> & L' & M').
    rewrite (bit_test l' 1 ltac:(lia) : negb (l' & 2 =? 0) = negb ((l' / 2) mod 2 =? 0)).
    case_test; unfold consumed.
    - replace (Z.to_nat (len / 2)) with (2 * Z.to_nat (len / 4) + 1)%nat by arith.
      rewrite wsum_add; cbn [wsum].
      set (b := buff + _). pose proof (ld16_range b).
      pose proof (wsum_nonneg (2 * Z.to_nat (len / 4)) buff).
      rewrite Z.add_0_r, Z.add_assoc, wrap_small by lia.
      split_and!; [by apply oc_add; [| |lia]; [|lia]|lia|lia|unfold b; arith|lia|lia|arith].
    - replace (Z.to_nat (len / 2)) with (2 * Z.to_nat (len / 4))%nat by arith.
      split_and!; [done|lia|lia|arith|lia|lia|arith]. }
  case_test.
  - pose proof (ld16_range buff). pose proof (wsum_nonneg 1 buff).
    rewrite (wrap_small 64 (r + _)), (wrap_small 32 (len / 2 - 1)), (wrap_small 32 (len - 2))
      by arith.
    replace (Z.to_nat (len / 2)) with (1 + Z.to_nat ((len - 2) / 2))%nat by arith.
    eapply consumed_trans with (len := len - 2) (b0 := buff + 2); [arith|lia|].
    replace (len / 2 - 1) with ((len - 2) / 2) by arith.
    apply (Tail (r + ld16 mem buff)); [|lia|lia|arith]. cbn [wsum]. rewrite Z.add_0_r. apply oc_add; [done|done|lia].
  - apply Tail; [done|done|lia|done].
Qed.

(** ** The reference sum *)

(** Induction two bytes at a time. *)
Lemma pair_ind (P : nat -> Prop) :
  P 0%nat -> P 1%nat -> (forall n, P n -> P (S (S n))) -> forall n, P n.
Proof.
  intros H0 H1 HS n. enough (P n /\ P (S n)) by tauto.
  induction n as [|n [IH IH']]; auto.
Qed.

Lemma rfc_wsum n a :
  rfc_sum mem n a
  = wsum (n / 2) a + (if Nat.odd n then mem (a + 2 * Z.of_nat (n / 2)) else 0).
Proof.
  revert a; induction n as [| |n IH] using pair_ind; intros a; [done| |].
  - change (1 / 2)%nat with 0%nat. change (2 * Z.of_nat 0) with 0. cbn [rfc_sum wsum].
    change (Nat.odd 1) with true. cbv iota. rewrite Z.add_0_r. lia.
  - cbn [rfc_sum]. rewrite IH. replace (S (S n) / 2)%nat with (S (n / 2)) by
      (replace (S (S n)) with (n + 1 * 2)%nat by lia; rewrite Nat.div_add by lia; lia).
    cbn [wsum]. replace (Nat.odd (S (S n))) with (Nat.odd n) by done.
    replace (a + 2 + 2 * Z.of_nat (n / 2)) with (a + 2 * Z.of_nat (S (n / 2))) by lia. lia.
Qed.

Lemma rfc_nonneg n a : 0 <= rfc_sum mem n a.
Proof.
  rewrite rfc_wsum. pose proof (wsum_nonneg (n / 2) a).
  pose proof (Hmem (a + 2 * Z.of_nat (n / 2))). case_test; lia.
Qed.

(** The buffer as one little-endian integer. *)
Fixpoint le_val (n : nat) (a : Z) : Z :=
  match n with O => 0 | S n' => mem a + 256 * le_val n' (a + 1) end.

Lemma rfc_le_val n a :
  eqm (rfc_sum mem n a) (le_val n a) /\ (rfc_sum mem n a = 0 <-> le_val n a = 0) /\
  0 <= le_val n a.
Proof.
  revert a; induction n as [| |n IH] using pair_ind; intros a; [done| |].
  - cbn. pose proof (Hmem a). split_and!; [by apply (eqm_of _ _ 0); lia|lia|lia].
  - destruct (IH (a + 2)) as (E & Z0 & N). cbn [rfc_sum le_val].
    replace (a + 1 + 1) with (a + 2) by lia. unfold ld16.
    pose proof (Hmem a). pose proof (Hmem (a + 1)). pose proof (rfc_nonneg n (a + 2)).
    split_and!; [|lia|lia]. rewrite E.
    apply (eqm_of _ _ (- le_val n (a + 2))). lia.
Qed.

(** Starting one byte later exchanges the two byte lanes. *)
Lemma rfc_shift n a :
  eqm (256 * (256 * mem a + rfc_sum mem n (a + 1))) (rfc_sum mem (S n) a) /\
  (256 * mem a + rfc_sum mem n (a + 1) = 0 <-> rfc_sum mem (S n) a = 0).
Proof.
  destruct (rfc_le_val n (a + 1)) as (E & Z0 & N).
  destruct (rfc_le_val (S n) a) as (E' & Z0' & N'). cbn [le_val] in E', Z0', N'.
  pose proof (Hmem a). pose proof (rfc_nonneg n (a + 1)).
  split; [|lia]. rewrite E, E'. apply (eqm_of _ _ (mem a)). lia.
Qed.

(** ** The routine *)

Lemma do_csum_mid r V len buff :
  oc r V -> 0 <= V -> 0 <= r < 2 ^ 17 -> 0 <= len < 2 ^ 32 ->
  let '(result, len', buff') :=
    (let count := len >> 1 in
     if count =? 0 then (r, len, buff) else do_csum_words mem r count len buff) in
  let result := if negb (len' & 1 =? 0) then u64 (result + mem buff') else result in
  oc result (V + rfc_sum mem (Z.to_nat len) buff) /\ 0 <= result < 2 ^ 35.
Proof.
  intros H HV R Hl. cbv zeta. rewrite shiftr_div by lia. change (2 ^ 1) with 2.
  assert (Q : consumed V buff (Z.to_nat (len / 2)) len 2 (2 ^ 34)
    (if len / 2 =? 0 then (r, len, buff) else do_csum_words mem r (len / 2) len buff)).
  { case_test; [|by apply do_csum_words_oc].
    rewrite E. unfold consumed; cbn [wsum Z.to_nat]. rewrite Z.add_0_r.
    split_and!; [done|lia..]. }
  destruct (if len / 2 =? 0 then _ else _) as [[r' l'] b'].
  destruct Q as (H' & R' & -> & L' & M').
  rewrite (bit_test l' 0 ltac:(lia) : negb (l' & 1 =? 0) = negb ((l' / 1) mod 2 =? 0)).
  rewrite Z.div_1_r, M', rfc_wsum.
  replace (Z.to_nat len / 2)%nat with (Z.to_nat (len / 2)) by (rewrite Z2Nat.inj_div by lia; done).
  pose proof (Hmem (buff + 2 * Z.of_nat (Z.to_nat (len / 2)))) as B.
  pose proof (wsum_nonneg (Z.to_nat (len / 2)) buff).
  assert (O : Nat.odd (Z.to_nat len) = negb (len mod 2 =? 0)).
  { pose proof (Nat.div2_odd (Z.to_nat len)) as D.
    destruct (Nat.odd _), (Z.eqb_spec (len mod 2) 0); cbn [Nat.b2n] in D; try done; arith. }
  rewrite O, Z.add_assoc. case_test.
  - rewrite wrap_small by lia. split; [|lia]. apply oc_add; [done|lia|lia].
  - rewrite Z.add_0_r. split; [done|lia].
Qed.

Lemma swap_bytes x :
  0 <= x < 2 ^ 16 ->
  u32 (((x >> 8) & 0xff) |' ((x & 0xff) << 8)) = x / 256 + 256 * (x mod 256).
Proof.
  intros Hx. change 0xff with (Z.ones 8).
  rewrite !land_ones_mod, shiftr_div, shiftl_mul by lia. change (2 ^ 8) with 256.
  rewrite (Z.mod_small (x / 256)) by arith.
  change 256 with (2 ^ 8) at 3. rewrite lor_split by arith. change (2 ^ 8) with 256.
  apply wrap_small. arith.
Qed.

Lemma do_csum_oc buff len :
  0 <= len < 2 ^ 32 ->
  oc (do_csum mem buff len) (rfc_sum mem (Z.to_nat len) buff) /\
  0 <= do_csum mem buff len < 2 ^ 32.
Proof.
  intros Hl. unfold do_csum. destruct (Z.eqb_spec len 0) as [->|Hne]; [done|].
  cbv zeta. destruct (negb (1 & buff =? 0)) eqn:Odd.
  - rewrite (wrap_small 32 (len - 1)) by lia. rewrite shiftl_mul by lia. change (2 ^ 8) with 256.
    pose proof (Hmem buff) as B.
    pose proof (do_csum_mid (mem buff * 256) (256 * mem buff) (len - 1) (buff + 1)
      ltac:(rewrite Z.mul_comm; apply oc_refl; lia) ltac:(lia) ltac:(lia) ltac:(lia)) as Q.
    cbv zeta in Q. destruct (if _ =? 0 then _ else _) as [[r l] b]. destruct Q as [H R].
    match type of H with oc ?e _ => revert H R; generalize e end. intros res H R.
    destruct (oc_fold64 res _ ltac:(lia) H) as [H1 R1].
    destruct (oc_from32to16 _ _ R1 H1) as [H2 R2]. revert H2 R2.
    generalize (from32to16 (add32_with_carry (res >> 32) (res & 0xffffffff))).
    intros x [E Z0 N] Rx.
    rewrite swap_bytes by done.
    destruct (rfc_shift (Z.to_nat (len - 1)) buff) as [S0 S1].
    replace (S (Z.to_nat (len - 1))) with (Z.to_nat len) in S0, S1 by lia.
    split; [|arith]. split; [|arith|arith].
    rewrite <- S0, <- E. apply (eqm_of _ _ (- (x / 256))). arith.
  - pose proof (do_csum_mid 0 0 len buff (oc_refl 0 ltac:(lia)) ltac:(lia) ltac:(lia) Hl) as Q.
    cbv zeta in Q. destruct (if _ =? 0 then _ else _) as [[r l] b]. destruct Q as [H R].
    match type of H with oc ?e _ => revert H R; generalize e end. intros res H R.
    destruct (oc_fold64 res _ ltac:(lia) H) as [H1 R1].
    rewrite wrap_small by lia. done.
Qed.

Lemma csum_partial_oc buff len sum :
  0 <= len < 2 ^ 32 -> 0 <= sum < 2 ^ 32 ->
  oc (csum_partial mem buff len sum) (sum + rfc_sum mem (Z.to_nat len) buff) /\
  0 <= csum_partial mem buff len sum < 2 ^ 32.
Proof.
  intros Hl Hs. destruct (do_csum_oc buff len Hl) as [H R].
  unfold csum_partial. apply oc_add32; [done|done|].
  rewrite (Z.add_comm sum). apply oc_add; [done|apply rfc_nonneg|lia].
Qed.

(** C21: the unrolled, alignment-dependent loops with their carry chains
    compute the RFC 1071 sum: for every buffer address, alignment, length and
    initial sum, [csum_partial] is a 32-bit one's complement representative of
    [sum] plus the sum of the 16-bit words of the buffer. *)
Theorem csum_partial_correct buff len sum :
  0 <= len < 2 ^ 32 -> 0 <= sum < 2 ^ 32 ->
  oc (csum_partial mem buff len sum) (sum + rfc_sum mem (Z.to_nat len) buff) /\
  0 <= csum_partial mem buff len sum < 2 ^ 32.
Proof.
  apply csum_partial_oc.
Qed.
End words.

(** The one's complement sum in its canonical 16-bit form: zero only for the
    zero sum, otherwise between 1 and 65535. *)
Definition ones16 (V : Z) : Z := if V =? 0 then 0 else (V - 1) mod 65535 + 1.

Lemma oc_ones16 r V : oc r V -> 0 <= r < 2 ^ 16 -> r = ones16 V.
Proof.
  intros [E Z0 N] R. unfold ones16, eqm in *. case_test; [by apply Z0|]. arith.
Qed.

Lemma csum_fold_spec s V :
  oc s V -> 0 <= s < 2 ^ 32 -> csum_fold s = 0xffff - ones16 V.
Proof.
  intros H R. enough (E : oc (0xffff - csum_fold s) V /\ 0 <= 0xffff - csum_fold s < 2 ^ 16)
    by (destruct E as [E1 E2]; rewrite <- (oc_ones16 _ _ E1 E2); lia).
  unfold csum_fold. cbv zeta.
  assert (M : s & 0xffff0000 = 2 ^ 16 * (s / 2 ^ 16)).
  { rewrite (Z.div_mod s (2 ^ 16)) at 1 by lia. rewrite Z.add_comm.
    change 0xffff0000 with (0 + 2 ^ 16 * Z.ones 16).
    rewrite land_split by (try apply Z.mod_pos_bound; lia).
    rewrite Z.land_0_r, land_ones_mod by lia. rewrite Z.mod_small; arith. }
  rewrite M. rewrite !shiftr_div, shiftl_mul by lia. unfold wrap, Z.lnot.
  change (2 ^ 16) with 65536. change (2 ^ 32) with 4294967296 in *.
  set (x := s / 65536 + s mod 65536).
  match goal with |- context [Z.pred (- ?r)] =>
    assert (EX : 65535 - (Z.pred (- r) mod 4294967296) / 65536
                 = x mod 65536 + x / 65536) by (unfold x; arith) end.
  rewrite EX. split; [|unfold x; arith].
  apply (oc_carry 16); [by apply eqm_pow; auto|done|unfold x; arith|unfold x; arith|].
  change (2 ^ 16) with 65536. replace (_ + _) with x by (unfold x; arith). unfold x.
  rewrite Z.add_comm.
  apply (oc_carry 16); [by apply eqm_pow; auto|done|arith|arith|].
  change (2 ^ 16) with 65536. by replace (_ + _) with s by arith.
Qed.

Lemma ones16_range V : 0 <= V -> 0 <= ones16 V <= 65535.
Proof. intros HV. unfold ones16. case_test; arith. Qed.

Lemma ip_compute_csum_eq mem buff len :
  (forall a, 0 <= mem a < 256) -> 0 <= len < 2 ^ 31 ->
  ip_compute_csum mem buff len = 0xffff - ones16 (rfc_sum mem (Z.to_nat len) buff).
Proof.
  intros Hmem Hl. unfold ip_compute_csum.
  destruct (csum_partial_oc mem Hmem buff len 0) as [H R]; [lia|lia|].
  rewrite Z.add_0_l in H. rewrite (csum_fold_spec _ _ H R).
  pose proof (ones16_range _ (rfc_nonneg mem Hmem (Z.to_nat len) buff)).
  apply wrap_small. lia.
Qed.

(** the checksum put into a header is exactly the 16-bit complement of
    the one's complement sum of the buffer. *)
Theorem ip_compute_csum_correct mem buff len :
  (forall a, 0 <= mem a < 256) -> 0 <= len < 2 ^ 31 ->
  ip_compute_csum mem buff len = 0xffff - ones16 (rfc_sum mem (Z.to_nat len) buff).
Proof.
  apply ip_compute_csum_eq.
Qed.

(** Storing a 16-bit little-endian value. *)
Definition store16 (mem : Z -> Z) (a v : Z) : Z -> Z :=
  fun x => if x =? a then v mod 256 else if x =? a + 1 then v / 256 else mem x.

Lemma rfc_sum_frame mem mem' n a :
  (forall x, a <= x < a + Z.of_nat n -> mem' x = mem x) ->
  rfc_sum mem' n a = rfc_sum mem n a.
Proof.
  revert a; induction n as [| |n IH] using pair_ind; intros a Heq; [done| |].
  - cbn. apply Heq. lia.
  - cbn [rfc_sum]. unfold ld16. rewrite !Heq, IH by (intros; rewrite ?Heq; done || lia). done.
Qed.

Lemma rfc_sum_store mem n a off v :
  0 <= v < 2 ^ 16 -> 0 <= off -> 2 * off + 2 <= Z.of_nat n ->
  mem (a + 2 * off) = 0 -> mem (a + 2 * off + 1) = 0 ->
  rfc_sum (store16 mem (a + 2 * off) v) n a = rfc_sum mem n a + v.
Proof.
  intros Hv. revert a off; induction n as [| |n IH] using pair_ind; intros a off Ho Hn M0 M1; [lia|lia|].
  cbn [rfc_sum]. unfold ld16. destruct (Z.eq_dec off 0) as [->|].
  - rewrite (rfc_sum_frame mem); unfold store16.
    + rewrite Z.mul_0_r, Z.add_0_r in *. rewrite Z.eqb_refl, M0, M1.
      replace (a + 1 =? a) with false by (symmetry; apply Z.eqb_neq; lia).
      rewrite Z.eqb_refl. arith.
    + intros x Hx. replace (x =? a + 2 * 0) with false by (symmetry; apply Z.eqb_neq; lia).
      by replace (x =? a + 2 * 0 + 1) with false by (symmetry; apply Z.eqb_neq; lia).
  - replace (a + 2 * off) with (a + 2 + 2 * (off - 1)) in * by lia.
    rewrite IH by (done || lia). unfold store16.
    repeat match goal with |- context [?x =? ?y] =>
      replace (x =? y) with false by (symmetry; apply Z.eqb_neq; lia) end. lia.
Qed.

(** a packet whose checksum field was zero, and into which the computed
    checksum was stored, verifies: its checksum is zero. *)
Theorem ip_csum_verifies mem buff len off :
  (forall a, 0 <= mem a < 256) -> 0 <= len < 2 ^ 31 ->
  0 <= off -> 2 * off + 2 <= len ->
  mem (buff + 2 * off) = 0 -> mem (buff + 2 * off + 1) = 0 ->
  let c := ip_compute_csum mem buff len in
  ip_compute_csum (store16 mem (buff + 2 * off) c) buff len = 0.
Proof.
  intros Hmem Hl Ho Hn M0 M1 c.
  assert (Ec : c = 0xffff - ones16 (rfc_sum mem (Z.to_nat len) buff))
    by (by apply ip_compute_csum_eq).
  pose proof (rfc_nonneg mem Hmem (Z.to_nat len) buff) as N.
  pose proof (ones16_range _ N) as R.
  rewrite ip_compute_csum_eq; [|intros a; unfold store16; repeat case_test; try apply Hmem; arith|done].
  rewrite rfc_sum_store by (lia || done). rewrite Ec. unfold ones16 in *. repeat case_test; arith.
Qed.

(** A twelve-byte buffer at an odd address, used by the witnesses. *)
Definition sample_mem (a : Z) : Z :=
  if (101 <=? a) && (a <? 113) && negb (a =? 103) && negb (a =? 104) then (a * 37) mod 256 else 0.

Lemma sample_mem_bytes a : 0 <= sample_mem a < 256.
Proof. unfold sample_mem. case_test; [arith|lia]. Qed.

Lemma csum_partial_witness :
  oc (csum_partial sample_mem 101 12 7) (7 + rfc_sum sample_mem 12 101).
Proof. apply (csum_partial_correct sample_mem sample_mem_bytes 101 12 7); lia. Defined.

Lemma ip_compute_csum_witness :
  ip_compute_csum sample_mem 101 12 = 0xffff - ones16 (rfc_sum sample_mem 12 101).
Proof. apply (ip_compute_csum_correct sample_mem 101 12); [apply sample_mem_bytes|lia]. Defined.

Lemma ip_csum_verifies_witness :
  ip_compute_csum (store16 sample_mem 103 (ip_compute_csum sample_mem 101 12)) 101 12 = 0.
Proof.
  apply (ip_csum_verifies sample_mem 101 12 1); [apply sample_mem_bytes|lia|lia|lia|done|done].
Defined.
