(* ===== verification/FastCsum.v ===== *)
(** The checksum of an IPv4 header: [ip_fast_csum] of the x86_64
    [asm/checksum.h], instruction by instruction with its carry flag. *)

From S2P Require Import Prelude Csum.
Local Open Scope Z_scope.
Local Open Scope cint_scope.

Section code.
Context (mem : Z -> Z).

(** [addl]/[adcl]: the sum modulo 2^32 and the carry flag. *)
Definition adcl (m : Z) (rc : Z * Z) : Z * Z :=
  let s := rc.1 + m + rc.2 in (u32 s, s >> 32).

(** The loop at label 1, [n] times; [lea] and [decl] leave the carry flag. *)
Fixpoint fast_loop (n : nat) (iph : Z) (rc : Z * Z) : Z * Z :=
  match n with
  | O => rc
  | S n => fast_loop n (iph + 4) (adcl (ld32 mem (iph + 16)) rc)
  end.

Definition ip_fast_csum (iph ihl : Z) : Z :=
  let sum := ld32 mem iph in
  if ihl <=? 4 then u16 sum
  else
    let rc := adcl (ld32 mem (iph + 12)) (adcl (ld32 mem (iph + 8)) (adcl (ld32 mem (iph + 4)) (sum, 0))) in
    let sum := fst (adcl 0 (fast_loop (Z.to_nat (ihl - 4)) iph rc)) in
    let w := u16 sum in
    let s := (sum >> 16) + w in
    let sum := u32 (u16 s + (s >> 16)) in
    u16 (u32 (Z.lnot sum)).
End code.

(** ** The carry chain *)

(** As [Csum.oca], for 32 bits. *)
Definition ocl (rc : Z * Z) (V : Z) : Prop :=
  oc (rc.1 + rc.2) V /\ 0 <= rc.1 < 2 ^ 32 /\ (rc.2 = 0 \/ rc.2 = 1 /\ rc.1 <= 2 ^ 32 - 2).

Lemma ocl_adcl m rc V : 0 <= m < 2 ^ 32 -> 0 <= V -> ocl rc V -> ocl (adcl m rc) (V + m).
Proof.
  intros Hm HV (H & R & C). destruct rc as [r c]. unfold adcl; cbn [fst snd] in *.
  cbv zeta. rewrite shiftr_div by lia. unfold ocl, wrap; cbn [fst snd].
  change (2 ^ 32) with 4294967296 in *.
  split_and!; [|arith|arith|arith].
  apply (oc_carry 32); [by apply eqm_pow; auto|done|arith|arith|].
  change (2 ^ 32) with 4294967296.
  replace (_ + _) with (r + c + m) by arith. apply oc_add; [done|done|lia].
Qed.

Section words.
Context (mem : Z -> Z) (Hmem : forall a, 0 <= mem a < 256).

Lemma ocl_ld32 rc V a : 0 <= V -> ocl rc V -> ocl (adcl (ld32 mem a) rc) (V + wsum mem 2 a).
Proof.
  intros HV H. pose proof (ld32_range mem Hmem a) as R. pose proof (ocl_adcl _ _ _ R HV H) as [[E Z0 N] R'].
  pose proof (ld16_range mem Hmem a). pose proof (ld16_range mem Hmem (a + 2)).
  split; [|done]. cbn [wsum]. unfold ld32 in *. split; [|lia|done].
  rewrite E, (eqm_pow 16) by auto. apply (eqm_of _ _ 0). lia.
Qed.

Lemma fast_loop_ocl n iph rc V : 0 <= V -> ocl rc V ->
  ocl (fast_loop mem n iph rc) (V + wsum mem (2 * n) (iph + 16)).
Proof.
  revert iph rc V. induction n as [|n IH]; intros iph rc V HV H; cbn [fast_loop].
  - cbn. by rewrite Z.add_0_r.
  - replace (2 * S n)%nat with (2 + 2 * n)%nat by lia. rewrite wsum_add, Z.add_assoc.
    replace (iph + 16 + 2 * Z.of_nat 2) with (iph + 4 + 16) by lia.
    pose proof (wsum_nonneg mem Hmem 2 (iph + 16)). apply IH; [by apply Z.add_nonneg_nonneg|]. by apply ocl_ld32.
Qed.

(** The sum of the words of a header of [ihl] quadruples of bytes. *)
Lemma rfc_header n a : rfc_sum mem (4 * n) a = wsum mem (2 * n) a.
Proof.
  rewrite rfc_wsum. replace (4 * n)%nat with (2 * n * 2)%nat by lia. rewrite Nat.div_mul by done.
  replace (Nat.odd (2 * n * 2)) with false; [lia|]. by rewrite Nat.odd_mul, andb_false_r.
Qed.

Lemma fast_chain iph ihl : 5 <= ihl ->
  let rc := adcl (ld32 mem (iph + 12)) (adcl (ld32 mem (iph + 8)) (adcl (ld32 mem (iph + 4)) (ld32 mem iph, 0))) in
  ocl (fast_loop mem (Z.to_nat (ihl - 4)) iph rc) (rfc_sum mem (Z.to_nat (4 * ihl)) iph).
Proof.
  intros Hi rc. replace (Z.to_nat (4 * ihl)) with (4 * Z.to_nat ihl)%nat by lia. rewrite rfc_header.
  replace (2 * Z.to_nat ihl)%nat with (2 + (2 + (2 + (2 + 2 * Z.to_nat (ihl - 4)))))%nat by lia. rewrite !wsum_add.
  pose proof (ld32_range mem Hmem iph).
  replace (iph + 2 * Z.of_nat 2) with (iph + 4) by lia.
  replace (iph + 4 + 2 * Z.of_nat 2) with (iph + 8) by lia.
  replace (iph + 8 + 2 * Z.of_nat 2) with (iph + 12) by lia.
  replace (iph + 12 + 2 * Z.of_nat 2) with (iph + 16) by lia.
  rewrite !Z.add_assoc. apply fast_loop_ocl; [repeat first [apply (wsum_nonneg mem Hmem)|apply Z.add_nonneg_nonneg]|].
  do 3 (apply ocl_ld32; [repeat first [apply (wsum_nonneg mem Hmem)|apply Z.add_nonneg_nonneg]|]).
  rewrite <- (Z.add_0_l (wsum mem 2 iph)).
  replace (ld32 mem iph, 0) with (adcl (ld32 mem iph) (0, 0)).
  - apply ocl_ld32; [done|]. split; [by apply oc_refl|]. cbn. lia.
  - unfold adcl. cbn [fst snd]. rewrite Z.add_0_r, Z.add_0_l, wrap_small by done. f_equal.
    rewrite shiftr_div by lia. by apply Z.div_small.
Qed.

(** What the last instructions make of the sum. *)
Lemma fold_ones sum V : oc sum V -> 0 <= sum < 2 ^ 32 ->
  (let s := (sum >> 16) + u16 sum in u16 (u32 (Z.lnot (u32 (u16 s + (s >> 16)))))) = 0xffff - ones16 V.
Proof.
  intros H R. cbv zeta. rewrite !shiftr_div by lia. unfold wrap, Z.lnot.
  change (2 ^ 32) with 4294967296 in *. change (2 ^ 16) with 65536 in *.
  set (x := sum / 65536 + sum mod 65536).
  assert (0 <= x <= 131070) as Hx by (unfold x; arith).
  assert (oc (x mod 65536 + x / 65536) V) as Hr.
  { apply (oc_carry 16); [by apply eqm_pow; auto|done|arith|arith|]. change (2 ^ 16) with 65536.
    replace (_ + _) with x by arith. unfold x. rewrite Z.add_comm.
    apply (oc_carry 16); [by apply eqm_pow; auto|done|arith|arith|]. change (2 ^ 16) with 65536.
    by replace (_ + _) with sum by arith. }
  rewrite <- (oc_ones16 _ _ Hr) by (change (2 ^ 16) with 65536; arith). arith.
Qed.

Lemma ip_fast_csum_ones iph ihl : 5 <= ihl ->
  ip_fast_csum mem iph ihl = 0xffff - ones16 (rfc_sum mem (Z.to_nat (4 * ihl)) iph).
Proof.
  intros Hi. unfold ip_fast_csum. cbv zeta. rewrite (proj2 (Z.leb_gt ihl 4)) by lia.
  destruct (fast_chain iph ihl Hi) as (H & R & C).
  cbv zeta in H, R, C. destruct (fast_loop mem (Z.to_nat (ihl - 4)) iph _) as [r c]. cbn [fst snd] in *.
  assert (fst (adcl 0 (r, c)) = r + c) as -> by (unfold adcl; cbn [fst snd]; rewrite Z.add_0_r; apply wrap_small; lia).
  apply fold_ones; [done|lia].
Qed.
End words.

(** A header whose checksum field was zero when the checksum was computed, and
    into which it was then stored, verifies. *)
Lemma ip_fast_csum_verifies mem iph ihl off : (forall a, 0 <= mem a < 256) -> 5 <= ihl ->
  0 <= off -> 2 * off + 2 <= 4 * ihl -> mem (iph + 2 * off) = 0 -> mem (iph + 2 * off + 1) = 0 ->
  ip_fast_csum (store16 mem (iph + 2 * off) (ip_fast_csum mem iph ihl)) iph ihl = 0.
Proof.
  intros Hmem Hi Ho Hn M0 M1. rewrite (ip_fast_csum_ones mem Hmem iph ihl Hi).
  pose proof (rfc_nonneg mem Hmem (Z.to_nat (4 * ihl)) iph) as N. pose proof (ones16_range _ N) as R.
  rewrite ip_fast_csum_ones; [|intros a; unfold store16; repeat case_test; try apply Hmem; arith|done].
  rewrite rfc_sum_store by (lia || done). unfold ones16 in *. repeat case_test; arith.
Qed.
