(* ===== verification/ListHead.v ===== *)
(** Circular doubly linked lists: [include/linux/list.h].

    The memory is a finite map from the addresses of [struct list_head]
    cells to their two pointers; a load or a store through a pointer that
    addresses no cell makes the operation fail ([None]). *)

From S2P Require Import Prelude.
Local Open Scope Z_scope.

(** ** The code *)

Record list_head := LH { next : Z; prev : Z }.

Abbreviation lheap := (gmap Z list_head).

Definition LIST_POISON1 : Z := 0x00100100.
Definition LIST_POISON2 : Z := 0x00200200.

(** [p->next] and [p->prev], as loads and as stores. *)
Definition get_next (h : lheap) (p : Z) : option Z := next <$> h !! p.
Definition get_prev (h : lheap) (p : Z) : option Z := prev <$> h !! p.
Definition set_next (p v : Z) (h : lheap) : option lheap :=
  c ← h !! p; Some (<[p := LH v (prev c)]> h).
Definition set_prev (p v : Z) (h : lheap) : option lheap :=
  c ← h !! p; Some (<[p := LH (next c) v]> h).

Definition INIT_LIST_HEAD (l : Z) (h : lheap) : option lheap :=
  h ← set_next l l h; set_prev l l h.

Definition __list_add (new prev next : Z) (h : lheap) : option lheap :=
  h ← set_prev next new h;
  h ← set_next new next h;
  h ← set_prev new prev h;
  set_next prev new h.

Definition list_add (new head : Z) (h : lheap) : option lheap :=
  n ← get_next h head; __list_add new head n h.

Definition list_add_tail (new head : Z) (h : lheap) : option lheap :=
  p ← get_prev h head; __list_add new p head h.

Definition __list_del (prev next : Z) (h : lheap) : option lheap :=
  h ← set_prev next prev h; set_next prev next h.

Definition list_del (entry : Z) (h : lheap) : option lheap :=
  p ← get_prev h entry; n ← get_next h entry;
  h ← __list_del p n h;
  h ← set_next entry LIST_POISON1 h;
  set_prev entry LIST_POISON2 h.

Definition list_del_init (entry : Z) (h : lheap) : option lheap :=
  p ← get_prev h entry; n ← get_next h entry;
  h ← __list_del p n h;
  INIT_LIST_HEAD entry h.

Definition list_move (l head : Z) (h : lheap) : option lheap :=
  p ← get_prev h l; n ← get_next h l;
  h ← __list_del p n h;
  list_add l head h.

Definition list_move_tail (l head : Z) (h : lheap) : option lheap :=
  p ← get_prev h l; n ← get_next h l;
  h ← __list_del p n h;
  list_add_tail l head h.

Definition list_empty (head : Z) (h : lheap) : option bool :=
  n ← get_next h head; Some (n =? head).

Definition __list_splice (l head : Z) (h : lheap) : option lheap :=
  first ← get_next h l; last ← get_prev h l; at_ ← get_next h head;
  h ← set_prev first head h;
  h ← set_next head first h;
  h ← set_next last at_ h;
  set_prev at_ last h.

Definition list_splice_init (l head : Z) (h : lheap) : option lheap :=
  e ← list_empty l h;
  if (e : bool) then Some h else
  h ← __list_splice l head h;
  INIT_LIST_HEAD l h.

(** [list_for_each]: the cells visited from [pos] up to [head]. *)
Fixpoint list_for_each (fuel : nat) (pos head : Z) (h : lheap) : option (list Z) :=
  match fuel with
  | O => None
  | S f =>
      if pos =? head then Some [] else
      n ← get_next h pos; t ← list_for_each f n head h; Some (pos :: t)
  end.

(** ** The ring *)

(** [x] points forward to [y] and [y] points back to [x]. *)
Definition link (h : lheap) (x y : Z) : Prop :=
  get_next h x = Some y /\ get_prev h y = Some x.

Fixpoint chain (h : lheap) (L : list Z) : Prop :=
  match L with
  | x :: ((y :: _) as t) => link h x y /\ chain h t
  | _ => True
  end.

(** [hd] is the head of a well-formed circular list with elements [l]. *)
Definition ring (h : lheap) (hd : Z) (l : list Z) : Prop :=
  chain h (hd :: l ++ [hd]) /\ NoDup (hd :: l).

Lemma chain_app h A x B :
  chain h (A ++ x :: B) <-> chain h (A ++ [x]) /\ chain h (x :: B).
Proof.
  induction A as [|a A IH]; [cbn; tauto|].
  destruct A as [|b A]; [cbn; tauto|]. cbn [app chain] in *. tauto.
Qed.

Section stores.
Implicit Types (h : lheap) (p v x y : Z).

Lemma set_next_Some p v h : is_Some (h !! p) -> exists h', set_next p v h = Some h' /\
  get_next h' p = Some v /\ (forall x, x <> p -> get_next h' x = get_next h x) /\
  (forall x, get_prev h' x = get_prev h x) /\ dom h' = dom h /\
  (forall x, x <> p -> h' !! x = h !! x).
Proof.
  intros [c Hc]. unfold set_next. rewrite Hc. eexists; split; [done|].
  unfold get_next, get_prev. split_and!.
  - by rewrite lookup_insert_eq.
  - intros x Hx. by rewrite lookup_insert_ne.
  - intros x. destruct (decide (x = p)) as [->|]; [by rewrite lookup_insert_eq, Hc|].
    by rewrite lookup_insert_ne.
  - rewrite dom_insert_lookup_L; eauto.
  - intros x Hx. by rewrite lookup_insert_ne.
Qed.

Lemma set_prev_Some p v h : is_Some (h !! p) -> exists h', set_prev p v h = Some h' /\
  get_prev h' p = Some v /\ (forall x, x <> p -> get_prev h' x = get_prev h x) /\
  (forall x, get_next h' x = get_next h x) /\ dom h' = dom h /\
  (forall x, x <> p -> h' !! x = h !! x).
Proof.
  intros [c Hc]. unfold set_prev. rewrite Hc. eexists; split; [done|].
  unfold get_next, get_prev. split_and!.
  - by rewrite lookup_insert_eq.
  - intros x Hx. by rewrite lookup_insert_ne.
  - intros x. destruct (decide (x = p)) as [->|]; [by rewrite lookup_insert_eq, Hc|].
    by rewrite lookup_insert_ne.
  - rewrite dom_insert_lookup_L; eauto.
  - intros x Hx. by rewrite lookup_insert_ne.
Qed.

(** A chain only depends on the [next] of its initial cells and on the
    [prev] of its later ones. *)
Lemma chain_ext h h' L :
  (forall x, x ∈ removelast L -> get_next h' x = get_next h x) ->
  (forall x, x ∈ tail L -> get_prev h' x = get_prev h x) ->
  chain h L -> chain h' L.
Proof.
  induction L as [|x [|y L] IH]; [done|done|]. cbn [chain tail]. intros Hn Hp [[N P] C].
  change (removelast (x :: y :: L)) with (x :: removelast (y :: L)) in Hn.
  split; [split|].
  - rewrite Hn; [done|]. apply elem_of_cons; auto.
  - rewrite Hp; [done|]. apply elem_of_cons; auto.
  - apply IH; [| |done]; intros z Hz; [apply Hn|apply Hp]; by apply elem_of_cons; right.
Qed.

Lemma elem_of_removelast (L : list Z) x : x ∈ removelast L -> x ∈ L.
Proof.
  induction L as [|a [|b L] IH]; [done|by intros ?%elem_of_nil|].
  change (removelast (a :: b :: L)) with (a :: removelast (b :: L)). set_solver.
Qed.

Lemma elem_of_tail (L : list Z) x : x ∈ tail L -> x ∈ L.
Proof. destruct L; [done|]. cbn. by right. Qed.

Lemma chain_next_dom h L x : chain h L -> x ∈ removelast L -> is_Some (h !! x).
Proof.
  induction L as [|a [|b L] IH]; [by intros _ ?%elem_of_nil|by intros _ ?%elem_of_nil|].
  change (removelast (a :: b :: L)) with (a :: removelast (b :: L)). cbn [chain].
  intros [[N _] C] [->|]%elem_of_cons; [|auto].
  unfold get_next in N. destruct (h !! a); [eauto|done].
Qed.
End stores.

(** ** The two primitive updates *)

(** Equal outside [ps], and with the same cells. *)
Definition frame (ps : list Z) (h h' : lheap) : Prop :=
  dom h' = dom h /\ forall x, x ∉ ps -> h' !! x = h !! x.

Lemma frame_trans ps qs h1 h2 h3 : frame ps h1 h2 -> frame qs h2 h3 -> frame (ps ++ qs) h1 h3.
Proof.
  intros [D1 F1] [D2 F2]. split; [congruence|]. intros x Hx.
  rewrite elem_of_app in Hx. rewrite F2, F1 by tauto. done.
Qed.

Lemma frame_mono ps qs h h' : ps ⊆ qs -> frame ps h h' -> frame qs h h'.
Proof. intros Hs [D F]. split; [done|]. intros x Hx. apply F. set_solver. Qed.

Lemma chain_cons2 h x y B : chain h (x :: y :: B) <-> link h x y /\ chain h (y :: B).
Proof. done. Qed.

Lemma link_dom h x y : link h x y -> is_Some (h !! x) /\ is_Some (h !! y).
Proof.
  unfold link, get_next, get_prev. intros [N P].
  destruct (h !! x), (h !! y); try done; eauto.
Qed.

Lemma dom_Some {h h' : lheap} {x} : dom h' = dom h -> is_Some (h !! x) -> is_Some (h' !! x).
Proof. intros D. by rewrite <- !elem_of_dom, D. Qed.

Lemma list_add_between h A p n B new :
  chain h (A ++ p :: n :: B) -> is_Some (h !! new) ->
  p ∉ A -> p ∉ removelast (n :: B) -> n ∉ tail (A ++ [p]) -> n ∉ B ->
  new ∉ A ++ p :: n :: B ->
  exists h', __list_add new p n h = Some h' /\
    chain h' (A ++ p :: new :: n :: B) /\ frame [p; new; n] h h'.
Proof.
  intros C Hnew HpA HpB HnA HnB Hfr. apply chain_app in C as [CA CB].
  apply chain_cons2 in CB as [L CB]. destruct (link_dom _ _ _ L) as [Dp Dn].
  assert (Hnp : new <> p /\ new <> n) by (split; intros ->; apply Hfr; set_solver).
  unfold __list_add.
  destruct (set_prev_Some n new h Dn) as (h1 & E1 & P1 & F1 & N1 & D1 & U1).
  destruct (set_next_Some new n h1 (dom_Some D1 Hnew)) as (h2 & E2 & N2 & F2 & P2 & D2 & U2).
  assert (D21 : dom h2 = dom h) by congruence.
  destruct (set_prev_Some new p h2 (dom_Some D21 Hnew)) as (h3 & E3 & P3 & F3 & N3 & D3 & U3).
  assert (D31 : dom h3 = dom h) by congruence.
  destruct (set_next_Some p new h3 (dom_Some D31 Dp)) as (h4 & E4 & N4 & F4 & P4 & D4 & U4).
  exists h4. rewrite E1; cbn. rewrite E2; cbn. rewrite E3; cbn. split; [done|].
  assert (Gn : forall x, x <> p -> x <> new -> get_next h4 x = get_next h x).
  { intros x ??. by rewrite F4, N3, F2, N1. }
  assert (Gp : forall x, x <> n -> x <> new -> get_prev h4 x = get_prev h x).
  { intros x ??. by rewrite P4, F3, P2, F1. }
  split.
  - apply chain_app. split; [|apply chain_cons2; split; [|apply chain_cons2; split]].
    + eapply chain_ext; [| |exact CA]; intros x Hx.
      * rewrite removelast_last in Hx. apply Gn; set_solver.
      * apply Gp; [set_solver|]. intros ->. apply Hfr.
        apply elem_of_tail in Hx. set_solver.
    + split; [done|]. by rewrite P4.
    + split; [|by rewrite P4, F3, P2 by (intros ->; tauto)].
      by rewrite F4, N3 by tauto.
    + eapply chain_ext; [| |exact CB]; intros x Hx.
      * apply Gn; [set_solver|]. intros ->. apply Hfr.
        apply elem_of_removelast in Hx. set_solver.
      * apply Gp; set_solver.
  - split; [congruence|]. intros x Hx. rewrite U4, U3, U2, U1 by set_solver. done.
Qed.

Lemma list_del_between h A p e n B :
  chain h (A ++ p :: e :: n :: B) ->
  p ∉ A -> p ∉ removelast (n :: B) -> n ∉ tail (A ++ [p]) -> n ∉ B ->
  exists h', __list_del p n h = Some h' /\
    chain h' (A ++ p :: n :: B) /\ frame [p; n] h h'.
Proof.
  intros C HpA HpB HnA HnB. apply chain_app in C as [CA CB].
  apply chain_cons2 in CB as [L1 CB]. apply chain_cons2 in CB as [L2 CB].
  destruct (link_dom _ _ _ L1) as [Dp _]. destruct (link_dom _ _ _ L2) as [_ Dn].
  unfold __list_del.
  destruct (set_prev_Some n p h Dn) as (h1 & E1 & P1 & F1 & N1 & D1 & U1).
  destruct (set_next_Some p n h1 (dom_Some D1 Dp)) as (h2 & E2 & N2 & F2 & P2 & D2 & U2).
  exists h2. rewrite E1; cbn. split; [done|]. split.
  - apply chain_app. split; [|apply chain_cons2; split].
    + eapply chain_ext; [| |exact CA]; intros x Hx.
      * rewrite removelast_last in Hx. rewrite F2, N1; [done|set_solver].
      * rewrite P2, F1; [done|set_solver].
    + split; [done|]. by rewrite P2.
    + eapply chain_ext; [| |exact CB]; intros x Hx.
      * rewrite F2, N1; [done|set_solver].
      * rewrite P2, F1; [done|set_solver].
  - split; [congruence|]. intros x Hx. rewrite U2, U1 by set_solver. done.
Qed.

(** ** Rings *)

(** The neighbours of the position between [l1] and [l2] in the ring. *)
Lemma ring_neighbours (hd : Z) (l1 l2 : list Z) :
  NoDup (hd :: l1 ++ l2) -> exists A p n B,
    hd :: l1 = A ++ [p] /\ l2 ++ [hd] = n :: B /\
    p ∉ A /\ p ∉ removelast (n :: B) /\ n ∉ tail (A ++ [p]) /\ n ∉ B /\
    (p ∈ hd :: l1) /\ (n ∈ hd :: l2).
Proof.
  intros ND. destruct (exists_last (l := hd :: l1)) as (A & p & EA); [done|].
  destruct (l2 ++ [hd]) as [|n B] eqn:EB; [by destruct l2|].
  exists A, p, n, B. rewrite app_comm_cons, NoDup_app in ND. destruct ND as (N1 & Dj & N2).
  assert (Hp : p ∈ hd :: l1) by (rewrite EA; set_solver).
  assert (Hn : n ∈ l2 ++ [hd]) by (rewrite EB; set_solver).
  split_and!; [done|done| | | | |done|set_solver].
  - rewrite EA in N1. apply NoDup_app in N1. set_solver.
  - rewrite <- EB, removelast_last. auto.
  - rewrite <- EA. cbn [tail]. apply NoDup_cons in N1 as [N1 _]. set_solver.
  - assert (NB : NoDup (n :: B)).
    { rewrite <- EB. apply NoDup_app. split_and!; [done| |apply NoDup_singleton].
      intros x Hx ->%list_elem_of_singleton. apply (Dj hd); set_solver. }
    by apply NoDup_cons in NB as [? _].
Qed.

Lemma ring_split (h : lheap) hd l1 l2 (A B : list Z) p n :
  hd :: l1 = A ++ [p] -> l2 ++ [hd] = n :: B ->
  forall M, hd :: (l1 ++ M ++ l2) ++ [hd] = A ++ p :: M ++ n :: B.
Proof.
  intros EA EB M. rewrite <- !app_assoc, EB, app_comm_cons, EA, <- app_assoc. done.
Qed.

Lemma ring_add_between h hd l1 l2 A p n B new :
  hd :: l1 = A ++ [p] -> l2 ++ [hd] = n :: B ->
  p ∉ A -> p ∉ removelast (n :: B) -> n ∉ tail (A ++ [p]) -> n ∉ B ->
  ring h hd (l1 ++ l2) -> is_Some (h !! new) -> new ∉ hd :: l1 ++ l2 ->
  exists h', __list_add new p n h = Some h' /\ ring h' hd (l1 ++ new :: l2) /\
    frame (new :: hd :: l1 ++ l2) h h'.
Proof.
  intros EA EB ???? [C ND] Hnew Hfr.
  pose proof (ring_split h hd l1 l2 A B p n EA EB []) as E0.
  pose proof (ring_split h hd l1 l2 A B p n EA EB [new]) as E1. cbn [app] in E0, E1.
  rewrite E0 in C.
  assert (Hp : p ∈ hd :: l1 /\ n ∈ l2 ++ [hd]) by (rewrite EA, EB; set_solver).
  destruct (list_add_between h A p n B new) as (h' & -> & C' & F); try done.
  { rewrite <- E0. set_solver. }
  exists h'. split_and!; [done| |eapply frame_mono; [|done]; set_solver].
  split; [by rewrite E1|]. rewrite app_comm_cons, <- Permutation_middle.
  apply NoDup_cons. done.
Qed.

Lemma ring_list_add h hd l new :
  ring h hd l -> is_Some (h !! new) -> new ∉ hd :: l ->
  exists h', list_add new hd h = Some h' /\ ring h' hd (new :: l) /\ frame (new :: hd :: l) h h'.
Proof.
  intros R Hnew Hfr. destruct (ring_neighbours hd [] l (proj2 R)) as (A & p & n & B & EA & EB & H).
  destruct H as (?&?&?&?&_).
  assert (p = hd /\ A = []) as [-> ->] by (destruct A as [|? [|]]; naive_solver).
  destruct (ring_add_between h hd [] l [] hd n B new) as (h' & E & R'); try done.
  exists h'. split; [|done]. unfold list_add. destruct R as [C _].
  rewrite EB in C. destruct C as [[-> _] _]. done.
Qed.

Lemma ring_list_add_tail h hd l new :
  ring h hd l -> is_Some (h !! new) -> new ∉ hd :: l ->
  exists h', list_add_tail new hd h = Some h' /\ ring h' hd (l ++ [new]) /\
    frame (new :: hd :: l) h h'.
Proof.
  intros R Hnew Hfr. pose proof (proj2 R) as ND. rewrite <- (app_nil_r l) in ND.
  destruct (ring_neighbours hd l [] ND) as (A & p & n & B & EA & EB & H).
  destruct H as (?&?&?&?&_). cbn in EB. injection EB as <- <-.
  destruct (ring_add_between h hd l [] A p hd [] new) as (h' & E & R'); rewrite ?app_nil_r; try done.
  exists h'. rewrite app_nil_r in R'. split; [|done]. unfold list_add_tail.
  destruct R as [C _]. rewrite app_comm_cons, EA, <- app_assoc in C.
  apply chain_app in C as [_ [[_ ->] _]]. done.
Qed.

Lemma ring_del_between h hd l1 e l2 :
  ring h hd (l1 ++ e :: l2) -> exists h' p n,
    get_prev h e = Some p /\ get_next h e = Some n /\
    __list_del p n h = Some h' /\ ring h' hd (l1 ++ l2) /\ frame (hd :: l1 ++ l2) h h'.
Proof.
  intros [C ND].
  assert (ND' : NoDup (hd :: l1 ++ l2)).
  { rewrite app_comm_cons, <- Permutation_middle in ND. by apply NoDup_cons in ND as [_ ?]. }
  destruct (ring_neighbours hd l1 l2 ND') as (A & p & n & B & EA & EB & H).
  destruct H as (?&?&?&?&?&?).
  pose proof (ring_split h hd l1 l2 A B p n EA EB []) as E0.
  pose proof (ring_split h hd l1 l2 A B p n EA EB [e]) as E1. cbn [app] in E0, E1.
  rewrite E1 in C. destruct (list_del_between h A p e n B) as (h' & E & C' & F); try done.
  exists h', p, n. apply chain_app in C as [_ [[_ Pe] [[Ne _] _]]].
  split_and!; [done|done|done|by split; [rewrite E0|]|].
  eapply frame_mono; [|done]. set_solver.
Qed.

(** Cells outside a ring do not matter to it. *)
Lemma ring_frame ps h h' hd l :
  frame ps h h' -> (forall x, x ∈ hd :: l -> x ∉ ps) -> ring h hd l -> ring h' hd l.
Proof.
  intros [_ F] Dj [C ND]. split; [|done].
  assert (Hl : forall x, x ∈ hd :: l ++ [hd] -> h' !! x = h !! x)
    by (intros x Hx; apply F, Dj; set_solver).
  eapply chain_ext; [| |exact C]; intros x Hx; unfold get_next, get_prev.
  - rewrite Hl by (by apply elem_of_removelast). done.
  - rewrite Hl by (by apply elem_of_tail). done.
Qed.

Lemma init_list_head_Some h p :
  is_Some (h !! p) -> exists h', INIT_LIST_HEAD p h = Some h' /\
    h' !! p = Some (LH p p) /\ frame [p] h h'.
Proof.
  intros Hp. unfold INIT_LIST_HEAD.
  destruct (set_next_Some p p h Hp) as (h1 & E1 & N1 & F1 & P1 & D1 & U1).
  destruct (set_prev_Some p p h1 (dom_Some D1 Hp)) as (h2 & E2 & P2 & F2 & N2 & D2 & U2).
  exists h2. rewrite E1; cbn. split_and!; [done| |split; [congruence|]].
  - rewrite <- N2 in N1. unfold get_next, get_prev in *.
    destruct (h2 !! p) as [[a b]|]; [|done]. cbn in *. congruence.
  - intros x Hx. rewrite U2, U1 by set_solver. done.
Qed.

Lemma ring_init h p : h !! p = Some (LH p p) -> ring h p [].
Proof.
  intros E. split; [|apply NoDup_singleton]. cbn. unfold link, get_next, get_prev.
  by rewrite E.
Qed.

Lemma ring_dom h hd l x : ring h hd l -> x ∈ hd :: l -> is_Some (h !! x).
Proof.
  intros [C _] Hx. eapply chain_next_dom; [exact C|].
  by rewrite app_comm_cons, removelast_last.
Qed.

Lemma ring_splice h l xs hd ys :
  ring h l xs -> ring h hd ys -> xs <> [] ->
  (forall x, x ∈ l :: xs -> x ∈ hd :: ys -> False) ->
  exists h', __list_splice l hd h = Some h' /\ ring h' hd (xs ++ ys) /\
    frame (hd :: xs ++ ys) h h' /\ h' !! l = h !! l.
Proof.
  intros [C1 ND1] [C2 ND2] Hne Dj.
  destruct xs as [|first X'] eqn:Ex; [done|].
  destruct (exists_last (l := xs)) as (X & lst & EX); [by rewrite Ex|]. rewrite <- Ex in *.
  destruct (ys ++ [hd]) as [|at_ B] eqn:EB; [by destruct ys|].
  apply chain_cons2 in C2 as [[Nhd Pat] C2].
  assert (Cx : chain h xs /\ get_next h l = Some first /\ get_prev h l = Some lst).
  { rewrite EX, <- app_assoc, app_comm_cons in C1. apply chain_app in C1 as [Ca Cb].
    split_and!.
    - rewrite <- app_comm_cons, <- EX, Ex in Ca. rewrite Ex. by apply chain_cons2 in Ca as [_ ?].
    - rewrite <- app_comm_cons, <- EX, Ex in Ca. by destruct Ca as [[? _] _].
    - by destruct Cb as [[_ ?] _]. }
  destruct Cx as (Cx & Nl & Pl).
  assert (Din : forall x, x ∈ xs -> is_Some (h !! x)).
  { intros x Hx. apply (ring_dom h l xs); [by split|by right]. }
  assert (Dout : forall x, x ∈ hd :: ys -> is_Some (h !! x)).
  { intros x Hx. apply (ring_dom h hd ys); [|done]. split; [|done].
    rewrite EB. by split. }
  assert (Hat : at_ ∈ hd :: ys) by (assert (at_ ∈ ys ++ [hd]) by (rewrite EB; by left); set_solver).
  assert (Hf : first ∈ xs) by (rewrite Ex; by left).
  assert (Hl : lst ∈ xs) by (rewrite EX; set_solver +).
  assert (Nx : NoDup xs /\ l ∉ xs) by (apply NoDup_cons in ND1; tauto).
  assert (Hdx : forall x, x ∈ xs -> x <> hd /\ x <> at_).
  { intros x Hx. split; intros ->; [apply (Dj hd)|apply (Dj at_)]; [by right|by left|by right|done]. }
  destruct (set_prev_Some first hd h (Din _ Hf)) as (h1 & E1 & P1 & F1 & N1 & D1 & U1).
  destruct (set_next_Some hd first h1) as (h2 & E2 & N2 & F2 & P2 & D2 & U2);
    [rewrite <- elem_of_dom, D1, elem_of_dom; apply Dout; by left|].
  assert (D21 : dom h2 = dom h) by congruence.
  destruct (set_next_Some lst at_ h2 (dom_Some D21 (Din _ Hl))) as (h3 & E3 & N3 & F3 & P3 & D3 & U3).
  assert (D31 : dom h3 = dom h) by congruence.
  destruct (set_prev_Some at_ lst h3 (dom_Some D31 (Dout _ Hat))) as (h4 & E4 & P4 & F4 & N4 & D4 & U4).
  destruct (Hdx _ Hf) as [Hf1 Hf2]. destruct (Hdx _ Hl) as [Hl1 Hl2].
  exists h4. unfold __list_splice. rewrite Nl, Pl, Nhd; cbn. rewrite E1; cbn. rewrite E2; cbn.
  rewrite E3; cbn. split; [done|]. split; [split|split].
  - rewrite <- app_assoc, EB, Ex. cbn [app]. apply chain_cons2. split.
    + split; [by rewrite N4, F3, N2 by congruence|]. by rewrite F4, P3, P2 by congruence.
    + rewrite app_comm_cons, <- Ex, EX, <- app_assoc. cbn [app]. apply chain_app.
      rewrite <- EX. split; [|apply chain_cons2; split].
      * eapply chain_ext; [| |exact Cx]; intros x Hx.
        -- assert (x ∈ xs) by (by apply elem_of_removelast).
           rewrite EX, removelast_last in Hx. destruct Nx as [Nx _]. rewrite EX in Nx.
           apply NoDup_app in Nx as (_ & Nx & _).
           rewrite N4, F3, F2, N1; [done|by apply Hdx|].
           intros ->. by apply (Nx lst); [|left].
        -- assert (x ∈ xs) by (by apply elem_of_tail).
           rewrite F4, P3, P2, F1; [done| |by apply Hdx].
           intros ->. rewrite Ex in Hx. cbn in Hx. destruct Nx as [Nx _].
           rewrite Ex in Nx. by apply NoDup_cons in Nx as [? _].
      * split; [by rewrite N4, N3|done].
      * assert (NB : NoDup (at_ :: B)).
        { rewrite <- EB. apply NoDup_app. apply NoDup_cons in ND2 as [? ?].
          split_and!; [done| |apply NoDup_singleton].
          intros x Hx ->%list_elem_of_singleton. done. }
        assert (HB : forall x, x ∈ at_ :: B -> x ∈ hd :: ys).
        { intros x. rewrite <- EB. set_solver +. }
        eapply chain_ext; [| |exact C2]; intros x Hx.
        -- assert (Hx' : x ∈ ys) by (by rewrite <- EB, removelast_last in Hx).
           apply NoDup_cons in ND2 as [N0 _].
           rewrite N4, F3, F2, N1; [done|congruence|].
           intros ->. apply (Dj lst); by right.
        -- cbn in Hx. apply NoDup_cons in NB as [NB _].
           rewrite F4, P3, P2, F1; [done| |congruence].
           intros ->. apply (Dj first); [by right|]. apply HB. by right.
  - apply NoDup_cons in ND2 as [N0 ND2]. apply NoDup_cons. split.
    + intros [Hx|Hx]%elem_of_app; [|done]. by destruct (Hdx hd Hx).
    + apply NoDup_app. split_and!; [tauto| |done]. intros x Hx Hy. apply (Dj x); by right.
  - split; [congruence|]. intros x Hx.
    assert (x <> at_ /\ x <> lst /\ x <> hd /\ x <> first) as (?&?&?&?)
      by (split_and!; intros ->; apply Hx; set_solver +Hat Hl Hf).
    by rewrite U4, U3, U2, U1.
  - assert (forall x, x ∈ hd :: ys -> l <> x) as Hly by (intros x Hx E; apply (Dj x); [rewrite <- E; by left|done]).
    destruct Nx as [_ Nx].
    rewrite U4 by (by apply Hly). rewrite U3 by (by intros ->).
    rewrite U2 by (apply Hly; by left). by rewrite U1 by (by intros ->).
Qed.

(** ** Refinement: rings implement lists

    The abstract state maps each head to the list of its elements; the
    relation asks for well-formed, pairwise disjoint rings. *)

Definition rings (h : lheap) (A : gmap Z (list Z)) : Prop :=
  (forall hd l, A !! hd = Some l -> ring h hd l) /\
  (forall hd1 hd2 l1 l2 x, A !! hd1 = Some l1 -> A !! hd2 = Some l2 ->
     x ∈ hd1 :: l1 -> x ∈ hd2 :: l2 -> hd1 = hd2).

Inductive lop :=
| Add (new head : Z)
| AddTail (new head : Z)
| Del (entry : Z)
| DelInit (entry : Z)
| Move (entry head : Z)
| MoveTail (entry head : Z)
| SpliceInit (src head : Z).

Definition run_lop (op : lop) : lheap -> option lheap :=
  match op with
  | Add new hd => list_add new hd
  | AddTail new hd => list_add_tail new hd
  | Del e => list_del e
  | DelInit e => list_del_init e
  | Move e hd => list_move e hd
  | MoveTail e hd => list_move_tail e hd
  | SpliceInit l hd => list_splice_init l hd
  end.

(** Removing an element from whichever list holds it. *)
Definition lremove (e : Z) (A : gmap Z (list Z)) : gmap Z (list Z) :=
  filter (λ x, x <> e) <$> A.

Definition abs_lop (op : lop) (A : gmap Z (list Z)) : gmap Z (list Z) :=
  match op with
  | Add new hd => alter (cons new) hd A
  | AddTail new hd => alter (λ l, l ++ [new]) hd A
  | Del e | DelInit e => lremove e A
  | Move e hd => alter (cons e) hd (lremove e A)
  | MoveTail e hd => alter (λ l, l ++ [e]) hd (lremove e A)
  | SpliceInit l hd => <[l := []]> (alter (app (default [] (A !! l))) hd A)
  end.

(** [x] belongs to no ring. *)
Definition unused (A : gmap Z (list Z)) (x : Z) : Prop :=
  forall hd l, A !! hd = Some l -> x ∉ hd :: l.

(** The caller's obligations, as the comments of the header state them: a new
    entry is on no list, a removed entry is on one. *)
Definition lop_pre (op : lop) (h : lheap) (A : gmap Z (list Z)) : Prop :=
  match op with
  | Add new hd | AddTail new hd => is_Some (A !! hd) /\ is_Some (h !! new) /\ unused A new
  | Del e | DelInit e => exists hd l, A !! hd = Some l /\ e ∈ l
  | Move e hd | MoveTail e hd => is_Some (A !! hd) /\ exists hd' l, A !! hd' = Some l /\ e ∈ l
  | SpliceInit l hd => is_Some (A !! l) /\ is_Some (A !! hd) /\ l <> hd
  end.

(** One ring changes, the others are untouched. *)
Lemma rings_update h h' A hd l l' ps :
  rings h A -> A !! hd = Some l -> ring h' hd l' -> frame ps h h' ->
  (forall x, x ∈ ps -> x ∈ hd :: l \/ unused A x) ->
  (forall x, x ∈ l' -> x ∈ hd :: l \/ unused A x) ->
  rings h' (<[hd := l']> A).
Proof.
  intros [R Dj] Hhd R' F Hps Hl'. split.
  - intros hd0 l0. rewrite lookup_insert. case_decide as E; [by intros [= <-]; subst|].
    intros H0. apply (ring_frame ps h); [done| |by apply R].
    intros x Hx Hxp. destruct (Hps x Hxp) as [Hin|Hun]; [|by apply (Hun hd0 l0)].
    apply E. by apply (Dj hd hd0 l l0 x).
  - assert (Hx : forall hd0 l0 x, hd0 <> hd -> A !! hd0 = Some l0 -> x ∈ hd0 :: l0 ->
      x ∈ hd :: l' -> False).
    { intros hd0 l0 x Hne H0 Hx0 Hx.
      assert (x ∈ hd :: l \/ unused A x) as [Hin|Hun]
        by (apply elem_of_cons in Hx as [->|Hx]; [left; by left|by apply Hl']).
      - apply Hne. by apply (Dj hd0 hd l0 l x).
      - by apply (Hun hd0 l0). }
    intros hd1 hd2 l1 l2 x. rewrite !lookup_insert.
    case_decide as E1; case_decide as E2; [congruence| | |by apply Dj]; subst.
    + intros [= <-] H2 Hx1 Hx2. destruct (Hx hd2 l2 x); auto.
    + intros H1 [= <-] Hx1 Hx2. destruct (Hx hd1 l1 x); auto.
Qed.

Lemma filter_ne_notin (e : Z) (l : list Z) : e ∉ l -> filter (λ x, x <> e) l = l.
Proof.
  induction l as [|x l IH]; [done|]. intros [Hx Hl]%not_elem_of_cons.
  rewrite filter_cons_True by congruence. by rewrite IH.
Qed.

(** Removing an element rewrites the one list that holds it. *)
Lemma lremove_insert h A hd l1 e l2 :
  rings h A -> A !! hd = Some (l1 ++ e :: l2) ->
  lremove e A = <[hd := l1 ++ l2]> A.
Proof.
  intros [R Dj] Hhd. apply map_eq. intros hd'. unfold lremove. rewrite lookup_fmap, lookup_insert.
  case_decide as E; [subst hd'|].
  - rewrite Hhd. cbn. destruct (R _ _ Hhd) as [_ ND].
    rewrite app_comm_cons, <- Permutation_middle in ND.
    apply NoDup_cons in ND as [Ne _].
    rewrite filter_app, filter_cons_False by auto.
    rewrite !filter_ne_notin; [done| |]; intros ?; apply Ne; set_solver.
  - destruct (A !! hd') as [l|] eqn:Hl; [|done]. cbn. rewrite filter_ne_notin; [done|].
    intros He. apply E. apply (Dj hd hd' _ _ e Hhd Hl); set_solver.
Qed.

(** The outcome of an operation: it does not fault, keeps the set of cells
    and leads to the rings of the abstract operation. *)
Definition refines (r : option lheap) (h : lheap) (A' : gmap Z (list Z)) : Prop :=
  exists h', r = Some h' /\ rings h' A' /\ dom h' = dom h.

Lemma alter_insert (f : list Z -> list Z) hd l (A : gmap Z (list Z)) :
  A !! hd = Some l -> alter f hd A = <[hd := f l]> A.
Proof.
  intros H. apply map_eq. intros i. rewrite lookup_alter, lookup_insert.
  case_decide; [|done]. subst. by rewrite H.
Qed.

Lemma list_add_refines h A hd new :
  rings h A -> is_Some (A !! hd) -> is_Some (h !! new) -> unused A new ->
  refines (list_add new hd h) h (alter (cons new) hd A) /\
  refines (list_add_tail new hd h) h (alter (λ l, l ++ [new]) hd A).
Proof.
  intros Rs [l Hhd] Hnew Hun. pose proof (proj1 Rs _ _ Hhd) as R.
  rewrite !(alter_insert _ hd l A Hhd). split.
  - destruct (ring_list_add h hd l new R Hnew (Hun _ _ Hhd)) as (h' & E & R' & F).
    exists h'. split_and!; [done| |apply F].
    eapply rings_update; [done..|exact R'|exact F| |]; intros x.
    + intros Hx; apply elem_of_cons in Hx as [->|Hx]; auto.
    + intros Hx; apply elem_of_cons in Hx as [->|Hx]; [auto|]. left. by right.
  - destruct (ring_list_add_tail h hd l new R Hnew (Hun _ _ Hhd)) as (h' & E & R' & F).
    exists h'. split_and!; [done| |apply F].
    eapply rings_update; [done..|exact R'|exact F| |]; intros x.
    + intros Hx; apply elem_of_cons in Hx as [->|Hx]; auto.
    + intros Hx; apply elem_of_app in Hx as [Hx|Hx%list_elem_of_singleton]; [left; by right|subst; auto].
Qed.

(** The common first half of the removals: [__list_del] on the neighbours of
    an entry takes it off its list and leaves its cell alone. *)
Lemma del_rings h A e hd l :
  rings h A -> A !! hd = Some l -> e ∈ l -> exists h' p n,
    get_prev h e = Some p /\ get_next h e = Some n /\ __list_del p n h = Some h' /\
    rings h' (lremove e A) /\ dom h' = dom h /\ unused (lremove e A) e /\
    is_Some (h !! e) /\ (forall hd', is_Some (A !! hd') -> is_Some (lremove e A !! hd')).
Proof.
  intros Rs Hhd He. pose proof (proj1 Rs _ _ Hhd) as R.
  assert (De : is_Some (h !! e)) by (apply (ring_dom h hd l); [done|by right]).
  apply list_elem_of_split in He as (l1 & l2 & ->).
  destruct (ring_del_between h hd l1 e l2 R) as (h' & p & n & Ep & En & Ed & R' & F).
  exists h', p, n. pose proof (lremove_insert h A hd l1 e l2 Rs Hhd) as EL.
  assert (Un : unused (lremove e A) e).
  { intros hd' l' Hl' Hx. rewrite EL in Hl'. destruct R as [_ ND].
    rewrite app_comm_cons, <- Permutation_middle in ND. apply NoDup_cons in ND as [Ne _].
    rewrite lookup_insert in Hl'. case_decide as Eh; [subst; by injection Hl' as <-|].
    apply Eh. apply (proj2 Rs hd hd' _ _ e Hhd Hl'); set_solver +Hx. }
  split_and!; try done.
  - rewrite EL. eapply rings_update; [done..|exact F| |]; intros x Hx; left; set_solver +Hx.
  - apply F.
  - intros hd' [l' Hl']. unfold lremove. rewrite lookup_fmap, Hl'. cbn. eauto.
Qed.

(** A cell on no ring may be rewritten freely. *)
Lemma rings_frame_unused h h' A e : rings h A -> unused A e -> frame [e] h h' -> rings h' A.
Proof.
  intros [R Dj] Hun F. split; [|done]. intros hd l Hl. eapply ring_frame; [done| |by apply R].
  intros x Hx ->%list_elem_of_singleton. by apply (Hun hd l).
Qed.

Lemma list_del_refines h A e hd l :
  rings h A -> A !! hd = Some l -> e ∈ l ->
  refines (list_del e h) h (lremove e A) /\ refines (list_del_init e h) h (lremove e A).
Proof.
  intros Rs Hhd He.
  destruct (del_rings h A e hd l Rs Hhd He) as (h1 & p & n & Ep & En & Ed & R1 & D1 & Un & De & _).
  pose proof (dom_Some D1 De) as De1. split.
  - destruct (set_next_Some e LIST_POISON1 h1 De1) as (h2 & E2 & _ & _ & _ & D2 & U2).
    destruct (set_prev_Some e LIST_POISON2 h2 (dom_Some D2 De1)) as (h3 & E3 & _ & _ & _ & D3 & U3).
    exists h3. unfold list_del. rewrite Ep, En; cbn. rewrite Ed; cbn. rewrite E2; cbn.
    split_and!; [done| |congruence]. apply (rings_frame_unused h1 _ _ e R1 Un).
    split; [congruence|]. intros x Hx. rewrite U3, U2 by set_solver +Hx. done.
  - destruct (init_list_head_Some h1 e De1) as (h2 & E2 & _ & F2).
    exists h2. unfold list_del_init. rewrite Ep, En; cbn. rewrite Ed; cbn.
    split_and!; [done| |destruct F2; congruence]. by apply (rings_frame_unused h1 _ _ e R1 Un).
Qed.

Lemma list_move_refines h A e hd hd' l :
  rings h A -> is_Some (A !! hd) -> A !! hd' = Some l -> e ∈ l ->
  refines (list_move e hd h) h (alter (cons e) hd (lremove e A)) /\
  refines (list_move_tail e hd h) h (alter (λ l, l ++ [e]) hd (lremove e A)).
Proof.
  intros Rs Hhd Hhd' He.
  destruct (del_rings h A e hd' l Rs Hhd' He) as (h1 & p & n & Ep & En & Ed & R1 & D1 & Un & De & Hs).
  destruct (list_add_refines h1 _ hd e R1 (Hs _ Hhd) (dom_Some D1 De) Un)
    as [(h2 & E2 & R2 & D2) (h3 & E3 & R3 & D3)].
  split; [exists h2; unfold list_move|exists h3; unfold list_move_tail];
    rewrite Ep, En; cbn; rewrite Ed; cbn; (split_and!; [done|done|congruence]).
Qed.

Lemma list_empty_ring h hd l : ring h hd l -> list_empty hd h = Some (match l with [] => true | _ => false end).
Proof.
  intros [C ND]. unfold list_empty. apply NoDup_cons in ND as [N _].
  destruct l as [|x l]; cbn in C; destruct C as [[-> _] _]; cbn.
  - by rewrite Z.eqb_refl.
  - f_equal. apply Z.eqb_neq.
    intros ->. apply N. by left.
Qed.

Lemma list_splice_init_refines h A l hd :
  rings h A -> is_Some (A !! l) -> is_Some (A !! hd) -> l <> hd ->
  refines (list_splice_init l hd h) h
    (<[l := []]> (alter (app (default [] (A !! l))) hd A)).
Proof.
  intros Rs [xs Hl] [ys Hhd] Hne. pose proof (proj1 Rs _ _ Hl) as R1.
  pose proof (proj1 Rs _ _ Hhd) as R2. rewrite (alter_insert _ hd ys A Hhd), Hl. cbn [default].
  unfold list_splice_init. rewrite (list_empty_ring h l xs R1); cbn.
  destruct (decide (xs = [])) as [->|Ex]; cbn.
  - exists h. split_and!; [done| |done].
    rewrite !insert_id by (rewrite ?lookup_insert_ne; done). done.
  - replace (match xs with [] => true | _ => false end) with false by (by destruct xs).
    assert (Dj : forall x, x ∈ l :: xs -> x ∈ hd :: ys -> False)
      by (intros x H1 H2; apply Hne; by apply (proj2 Rs l hd xs ys x)).
    destruct (ring_splice h l xs hd ys R1 R2 Ex Dj) as (h1 & E1 & R1' & F1 & U1).
    rewrite E1; cbn.
    assert (Dl : is_Some (h1 !! l)) by (rewrite U1; apply (ring_dom h l xs); [done|by left]).
    destruct (init_list_head_Some h1 l Dl) as (h2 & E2 & Hl2 & F2).
    exists h2. split_and!; [done| |destruct F1, F2; congruence].
    assert (Hk : forall hd0 l0, A !! hd0 = Some l0 -> hd0 <> hd -> hd0 <> l ->
      forall x, x ∈ hd0 :: l0 -> x ∉ l :: hd :: xs ++ ys).
    { intros hd0 l0 H0 Hn1 Hn2 x Hx0 Hx.
      assert (x ∈ l :: xs \/ x ∈ hd :: ys) as [H|H] by set_solver +Hx.
      - apply Hn2. by apply (proj2 Rs hd0 l l0 xs x).
      - apply Hn1. by apply (proj2 Rs hd0 hd l0 ys x). }
    assert (Hlx : l ∉ hd :: xs ++ ys).
    { intros Hx. destruct R1 as [_ ND]. apply NoDup_cons in ND as [ND _].
      assert (l ∈ xs \/ l ∈ hd :: ys) as [?|?] by set_solver +Hx; [done|].
      apply (Dj l); [by left|done]. }
    split.
    + intros hd0 l0. rewrite !lookup_insert. repeat case_decide; subst.
      * intros [= <-]. by apply ring_init.
      * intros [= <-]. eapply ring_frame; [exact F2| |exact R1'].
        intros x Hx ->%list_elem_of_singleton. done.
      * intros Hd0. pose proof (Hk _ _ Hd0 ltac:(congruence) ltac:(congruence)) as K.
        eapply ring_frame; [exact F2| |eapply ring_frame; [exact F1| |by apply Rs]];
          intros x Hx; specialize (K x Hx); set_solver +K.
    + assert (Hout : forall hd0 l0 x, A !! hd0 = Some l0 -> hd0 <> hd -> hd0 <> l ->
        x ∈ hd0 :: l0 -> x ∈ hd :: xs ++ ys \/ x ∈ [l] -> False).
      { intros hd0 l0 x Hd0 Hn1 Hn2 Hx0 Hx. apply (Hk hd0 l0 Hd0 Hn1 Hn2 x Hx0). set_solver +Hx. }
      intros hd1 hd2 l1 l2 x. rewrite !lookup_insert.
      repeat case_decide; subst; try congruence; try (by apply (proj2 Rs)).
      * intros [= <-] [= <-] ->%list_elem_of_singleton ?. done.
      * intros [= <-] Hd2 Hx1 Hx2. destruct (Hout hd2 l2 x); auto.
      * intros [= <-] [= <-] ? ->%list_elem_of_singleton. done.
      * intros [= <-] Hd2 Hx1 Hx2. destruct (Hout hd2 l2 x); auto.
      * intros Hd1 [= <-] Hx1 Hx2. destruct (Hout hd1 l1 x); auto.
      * intros Hd1 [= <-] Hx1 Hx2. destruct (Hout hd1 l1 x); auto.
Qed.

(** C24: every operation of [list.h] implements the list operation of its
    name. From pairwise disjoint, well-formed rings and under the caller's
    obligations, no load or store faults, the cells are the same and the
    rings are those of the abstract operation; every other list is unchanged. *)
Theorem list_ops_refine op h A :
  rings h A -> lop_pre op h A -> refines (run_lop op h) h (abs_lop op A).
Proof.
  intros R P. destruct op; cbn [run_lop abs_lop lop_pre] in *.
  - destruct P as (?&?&?). by apply list_add_refines.
  - destruct P as (?&?&?). by apply list_add_refines.
  - destruct P as (hd & l & ? & ?). by eapply list_del_refines.
  - destruct P as (hd & l & ? & ?). by eapply list_del_refines.
  - destruct P as (? & hd' & l & ? & ?). by eapply list_move_refines.
  - destruct P as (? & hd' & l & ? & ?). by eapply list_move_refines.
  - destruct P as (?&?&?). by apply list_splice_init_refines.
Qed.

(** Iteration visits exactly the elements, in order, with one unit of fuel
    more than there are elements. *)
Lemma list_for_each_chain h l x hd fuel :
  chain h (x :: l ++ [hd]) -> hd ∉ x :: l -> (length l < fuel - 1)%nat ->
  list_for_each fuel x hd h = Some (x :: l).
Proof.
  revert x fuel; induction l as [|y l IH]; intros x [|fuel] C Hhd Hf; cbn in Hf; try lia;
    cbn [list_for_each]; apply not_elem_of_cons in Hhd as [Hx Hl].
  - rewrite (proj2 (Z.eqb_neq x hd)) by congruence. destruct C as [[-> _] _]; cbn.
    destruct fuel; [lia|]. cbn [list_for_each]. by rewrite Z.eqb_refl.
  - rewrite (proj2 (Z.eqb_neq x hd)) by congruence. destruct C as [[-> _] C]; cbn.
    by rewrite (IH y fuel) by (done || lia).
Qed.

Lemma list_for_each_ring h hd l fuel :
  ring h hd l -> (length l < fuel)%nat ->
  exists first, get_next h hd = Some first /\ list_for_each fuel first hd h = Some l.
Proof.
  intros [C ND] Hf. apply NoDup_cons in ND as [Hhd _]. destruct l as [|x l].
  - destruct C as [[E _] _]. exists hd. split; [done|]. destruct fuel; [cbn in Hf; lia|].
    cbn. by rewrite Z.eqb_refl.
  - destruct C as [[E _] C]. exists x. split; [done|]. apply list_for_each_chain; [done..|].
    cbn in Hf. lia.
Qed.

Definition sample_heap : lheap := {[1 := LH 1 1; 10 := LH 0 0]}.

Lemma list_ops_refine_witness :
  refines (list_add_tail 10 1 sample_heap) sample_heap (alter (λ l, l ++ [10]) 1 {[1 := []]}).
Proof.
  apply (list_ops_refine (AddTail 10 1) sample_heap {[1 := []]}).
  - split.
    + intros hd l [<- <-]%lookup_singleton_Some. by apply ring_init.
    + intros hd1 hd2 l1 l2 x [<- <-]%lookup_singleton_Some [<- <-]%lookup_singleton_Some. done.
  - split; [by eexists|]. split; [by eexists|].
    intros hd l [<- <-]%lookup_singleton_Some. by intros [?|?%elem_of_nil]%elem_of_cons.
Defined.
