(* ===== verification/Klist.v ===== *)
(** Reference-counted lists that can be changed while they are iterated:
    [linux/lib/kref.c] and [linux/lib/klist.c].

    A [klist_node] is named by the address of its [n_node] list cell, so the
    list part of the state is the pointer-level heap of [ListHead]. *)

From S2P Require Import Prelude ListHead.
Local Open Scope Z_scope.

(** ** Reference counts *)
Module Kref.
Definition kref_init : Z := 1.
Definition kref_get (refcount : Z) : Z := s32 (refcount + 1).
(** The new count, and whether the caller dropped the last reference (in
    which case [release] runs). *)
Definition kref_put (refcount : Z) : Z * bool :=
  let r := s32 (refcount - 1) in (r, r =? 0).
End Kref.
Import Kref.

(** ** State *)

Record klist_node := KN {
  n_ref : Z;          (* n_ref.refcount *)
  n_klist : Z;        (* the owning klist, 0 for NULL *)
  n_removed : bool;   (* completion n_removed done *)
}.

(** The callbacks of the embedding object that were run, in order. *)
Inductive callback := Get (n : Z) | Put (n : Z).

(** One klist: the address of [k_list], and which callbacks are non-NULL. *)
Record klist := KL { k_list : Z; k_get : bool; k_put : bool }.

Record kstate := KS {
  heap : lheap;
  nodes : gmap Z klist_node;
  iters : list (option Z);    (* i_cur of each iterator *)
  calls : list callback;
}.

Definition with_heap (h : lheap) (s : kstate) := KS h (nodes s) (iters s) (calls s).
Definition with_node (n : Z) (x : klist_node) (s : kstate) :=
  KS (heap s) (<[n := x]> (nodes s)) (iters s) (calls s).
Definition with_iter (i : nat) (c : option Z) (s : kstate) :=
  KS (heap s) (nodes s) (<[i := c]> (iters s)) (calls s).
Definition with_call (c : callback) (s : kstate) :=
  KS (heap s) (nodes s) (iters s) (calls s ++ [c]).

(** ** The code *)

Definition klist_init (addr : Z) (get put : bool) (s : kstate) : option (klist * kstate) :=
  h ← INIT_LIST_HEAD addr (heap s); Some (KL addr get put, with_heap h s).

Section code.
Context (k : klist).

Definition klist_node_init (n : Z) (s : kstate) : option kstate :=
  h ← INIT_LIST_HEAD n (heap s);
  let s := with_node n (KN kref_init (k_list k) false) (with_heap h s) in
  Some (if k_get k then with_call (Get n) s else s).

Definition klist_add_head (n : Z) (s : kstate) : option kstate :=
  s ← klist_node_init n s;
  h ← list_add n (k_list k) (heap s); Some (with_heap h s).

Definition klist_add_tail (n : Z) (s : kstate) : option kstate :=
  s ← klist_node_init n s;
  h ← list_add_tail n (k_list k) (heap s); Some (with_heap h s).

Definition klist_release (n : Z) (s : kstate) : option kstate :=
  h ← list_del n (heap s);
  x ← nodes s !! n;
  Some (with_node n (KN (n_ref x) 0 true) (with_heap h s)).

(** The state and the value of [kref_put]. *)
Definition klist_dec_and_del (n : Z) (s : kstate) : option (kstate * bool) :=
  x ← nodes s !! n;
  let '(r, last) := kref_put (n_ref x) in
  let s := with_node n (KN r (n_klist x) (n_removed x)) s in
  if last then s ← klist_release n s; Some (s, true) else Some (s, false).

(** Fails when the node is on no list: the code dereferences [n_klist]. *)
Definition klist_del (n : Z) (s : kstate) : option kstate :=
  x ← nodes s !! n;
  if n_klist x =? 0 then None else
  '(s, dead) ← klist_dec_and_del n s;
  Some (if (dead && k_put k)%bool then with_call (Put n) s else s).

(** [klist_del] and then [wait_for_completion]: the state it waits in, and
    whether the wait is over. *)
Definition klist_remove (n : Z) (s : kstate) : option (kstate * bool) :=
  s ← klist_del n s; x ← nodes s !! n; Some (s, n_removed x).

Definition klist_node_attached (n : Z) (s : kstate) : option bool :=
  x ← nodes s !! n; Some (negb (n_klist x =? 0)).

Definition klist_iter_init_node (i : nat) (n : option Z) (s : kstate) : option kstate :=
  let s := with_iter i n s in
  match n with
  | None => Some s
  | Some n =>
      x ← nodes s !! n;
      Some (with_node n (KN (kref_get (n_ref x)) (n_klist x) (n_removed x)) s)
  end.

Definition klist_iter_init (i : nat) (s : kstate) : option kstate :=
  klist_iter_init_node i None s.

Definition klist_iter_exit (i : nat) (s : kstate) : option kstate :=
  c ← iters s !! i;
  match c with
  | None => Some s
  | Some n => s ← klist_del n s; Some (with_iter i None s)
  end.

Definition klist_next (i : nat) (s : kstate) : option (kstate * option Z) :=
  lnode ← iters s !! i;
  '(next, s, put) ←
    match lnode with
    | Some l =>
        next ← get_next (heap s) l;
        '(s, dead) ← klist_dec_and_del l s;
        Some (next, s, (dead && k_put k)%bool)
    | None => next ← get_next (heap s) (k_list k); Some (next, s, k_put k)
    end;
  '(s, knode) ←
    (if next =? k_list k then Some (s, @None Z) else
     x ← nodes s !! next;
     Some (with_node next (KN (kref_get (n_ref x)) (n_klist x) (n_removed x)) s, Some next));
  let s := with_iter i knode s in
  Some (match lnode with
        | Some l => if (put : bool) then with_call (Put l) s else s
        | None => s
        end, knode).
End code.

(** ** Specification

    What the list promises to its users: an ordered list of nodes, the set of
    nodes whose owner has dropped its reference ([klist_del]) but on which an
    iterator still stands, and the position of each iterator. *)

Record aklist := AK {
  alist : list Z;
  adead : gset Z;
  aiters : list (option Z);
  acalls : list callback;
}.

(** The iterators standing on [n]. *)
Definition cnt (n : Z) (its : list (option Z)) : nat :=
  length (filter (λ c, c = Some n) its).
Arguments cnt : simpl never.

(** The element after [c]. *)
Fixpoint succ (c : Z) (l : list Z) : option Z :=
  match l with
  | [] => None
  | x :: t => if x =? c then head t else succ c t
  end.

Section spec.
Context (k : klist).

(** A node leaves the list, and its [put] callback runs, when its owner and
    every iterator are gone. *)
Definition acollect (n : Z) (a : aklist) : aklist :=
  if bool_decide (n ∈ adead a) && (cnt n (aiters a) =? 0)%nat then
    AK (filter (λ x, x <> n) (alist a)) (adead a ∖ {[n]}) (aiters a)
       (acalls a ++ if k_put k then [Put n] else [])
  else a.

Definition aget (n : Z) : list callback := if k_get k then [Get n] else [].

Definition amove (i : nat) (c : option Z) (a : aklist) : aklist :=
  AK (alist a) (adead a) (<[i := c]> (aiters a)) (acalls a).

Definition anext (i : nat) (a : aklist) : option Z :=
  match aiters a !! i with
  | Some (Some c) => succ c (alist a)
  | _ => head (alist a)
  end.

Definition aleave (i : nat) (c : option Z) (a : aklist) : aklist :=
  match aiters a !! i with
  | Some (Some o) => acollect o (amove i c a)
  | _ => amove i c a
  end.

Inductive kop :=
| KAddHead (n : Z) | KAddTail (n : Z) | KDel (n : Z)
| KIterInit (i : nat) | KIterInitNode (i : nat) (n : Z) | KIterExit (i : nat) | KNext (i : nat).

Definition abs_kop (op : kop) (a : aklist) : aklist :=
  match op with
  | KAddHead n => AK (n :: alist a) (adead a) (aiters a) (acalls a ++ aget n)
  | KAddTail n => AK (alist a ++ [n]) (adead a) (aiters a) (acalls a ++ aget n)
  | KDel n => acollect n (AK (alist a) ({[n]} ∪ adead a) (aiters a) (acalls a))
  | KIterInit i => amove i None a
  | KIterInitNode i n => amove i (Some n) a
  | KIterExit i => aleave i None a
  | KNext i => aleave i (anext i a) a
  end.

Definition abs_ret (op : kop) (a : aklist) : option Z :=
  match op with KNext i => anext i a | _ => None end.

Definition run_kop (op : kop) (s : kstate) : option (kstate * option Z) :=
  match op with
  | KAddHead n => s ← klist_add_head k n s; Some (s, None)
  | KAddTail n => s ← klist_add_tail k n s; Some (s, None)
  | KDel n => s ← klist_del k n s; Some (s, None)
  | KIterInit i => s ← klist_iter_init i s; Some (s, None)
  | KIterInitNode i n => s ← klist_iter_init_node i (Some n) s; Some (s, None)
  | KIterExit i => s ← klist_iter_exit k i s; Some (s, None)
  | KNext i => klist_next k i s
  end.

(** The callers' obligations: [cells] is the set of addresses that hold
    [klist_node]s (or the list head). *)
Definition kop_pre (cells : gset Z) (op : kop) (a : aklist) : Prop :=
  match op with
  | KAddHead n | KAddTail n => n ∈ cells /\ n ∉ alist a /\ n <> k_list k
  | KDel n => n ∈ alist a /\ n ∉ adead a
  | KIterInit i => aiters a !! i = Some None
  | KIterInitNode i n => aiters a !! i = Some None /\ n ∈ alist a
  | KIterExit i | KNext i => (i < length (aiters a))%nat
  end.

(** The references of a listed node: the owner's, unless dropped, and one for
    each iterator. *)
Definition refs (n : Z) (a : aklist) : Z :=
  (if bool_decide (n ∈ adead a) then 0 else 1) + Z.of_nat (cnt n (aiters a)).

Record inv (cells : gset Z) (s : kstate) (a : aklist) : Prop := {
  inv_head : k_list k <> 0;
  inv_cells : dom (heap s) = cells;
  inv_ring : ring (heap s) (k_list k) (alist a);
  inv_iters : iters s = aiters a;
  inv_calls : calls s = acalls a;
  inv_nodes : forall n, n ∈ alist a ->
    nodes s !! n = Some (KN (refs n a) (k_list k) false) /\ 0 < refs n a;
  inv_cur : forall c, Some c ∈ aiters a -> c ∈ alist a;
  inv_dead : forall n, n ∈ adead a -> n ∈ alist a;
  inv_few : Z.of_nat (length (aiters a)) < 2 ^ 30;
}.
End spec.

(** ** Counting iterators *)

Lemma cnt_insert n i o c its :
  its !! i = Some o ->
  (cnt n (<[i := c]> its) + (if decide (o = Some n) then 1 else 0)
   = cnt n its + (if decide (c = Some n) then 1 else 0))%nat.
Proof.
  intros H. unfold cnt. pose proof (list_elem_of_split_length its i o H) as (l1 & l2 & -> & ->).
  replace (length l1) with (length l1 + 0)%nat by lia. rewrite insert_app_r. cbn [insert list_insert].
  rewrite !filter_app, !filter_cons, !length_app. repeat case_decide; cbn [length]; lia.
Qed.

Lemma cnt_pos n its : Some n ∈ its -> (0 < cnt n its)%nat.
Proof.
  intros H. unfold cnt. destruct (filter _ its) eqn:E; [|cbn; lia].
  assert (Some n ∈ filter (λ c, c = Some n) its) as Hn by (by apply list_elem_of_filter).
  rewrite E in Hn. by apply elem_of_nil in Hn.
Qed.

Lemma cnt_zero n its : Some n ∉ its -> cnt n its = 0%nat.
Proof.
  intros H. unfold cnt. destruct (filter _ its) as [|c f] eqn:E; [done|].
  assert (c ∈ filter (λ c, c = Some n) its) as Hc by (rewrite E; by left).
  by apply list_elem_of_filter in Hc as [-> Hc].
Qed.

Lemma cnt_le n its : (cnt n its <= length its)%nat.
Proof. apply length_filter. Qed.

Lemma succ_in c l x : succ c l = Some x -> x ∈ l.
Proof.
  induction l as [|y l IH]; [done|]. cbn. case_test.
  - destruct l; cbn; [done|]. intros [= ->]. set_solver +.
  - intros H%IH. by right.
Qed.

Lemma succ_split l1 c l2 : NoDup (l1 ++ c :: l2) -> succ c (l1 ++ c :: l2) = head l2.
Proof.
  induction l1 as [|x l1 IH]; cbn [app succ].
  - intros _. by rewrite Z.eqb_refl.
  - intros [Hx ND]%NoDup_cons. rewrite (proj2 (Z.eqb_neq x c)) by set_solver. auto.
Qed.

(** Following the [next] pointer of a listed cell. *)
Lemma ring_next_succ h hd l c :
  ring h hd l -> c ∈ l -> get_next h c = Some (default hd (succ c l)).
Proof.
  intros [C ND] Hc. apply list_elem_of_split in Hc as (l1 & l2 & ->).
  apply NoDup_cons in ND as [_ ND]. rewrite succ_split by done.
  rewrite <- app_assoc, app_comm_cons in C. apply chain_app in C as [_ C].
  destruct l2; cbn in C; by destruct C as [[-> _] _].
Qed.

Lemma ring_next_head h hd l : ring h hd l -> get_next h hd = Some (default hd (head l)).
Proof. intros [C ND]. destruct l; cbn in C; by destruct C as [[-> _] _]. Qed.

(** ** Reference drops and gets

    [core d] is the invariant on the list and the nodes while the counts are
    off by [d] from what the abstract state says. *)
Section proofs.
Context (k : klist) (cells : gset Z).

Record core (d : Z -> Z) (s : kstate) (a : aklist) : Prop := {
  core_cells : dom (heap s) = cells;
  core_ring : ring (heap s) (k_list k) (alist a);
  core_nodes : forall n, n ∈ alist a ->
    nodes s !! n = Some (KN (refs n a + d n) (k_list k) false) /\ 0 < refs n a + d n < 2 ^ 31 - 1;
  core_cur : forall c, Some c ∈ aiters a -> c ∈ alist a;
  core_dead : forall n, n ∈ adead a -> n ∈ alist a;
}.

Definition none (_ : Z) : Z := 0.
Definition off (n v : Z) (d : Z -> Z) : Z -> Z := fun m => if m =? n then v else d m.

Lemma refs_le n a : 0 <= refs n a <= 1 + Z.of_nat (length (aiters a)).
Proof. unfold refs. pose proof (cnt_le n (aiters a)). case_bool_decide; lia. Qed.

Lemma inv_core s a : inv k cells s a <-> core none s a /\ k_list k <> 0 /\
  iters s = aiters a /\ calls s = acalls a /\ Z.of_nat (length (aiters a)) < 2 ^ 30.
Proof.
  split.
  - intros [H1 H2 H3 H4 H5 H6 H7 H8 H9]. split_and!; try done. split; try done.
    intros n Hn. destruct (H6 n Hn) as [-> ?]. pose proof (refs_le n a). unfold none.
    rewrite Z.add_0_r. split; [done|lia].
  - intros ([H1 H2 H3 H4 H5] & H6 & H7 & H8 & H9). split; try done.
    intros n Hn. destruct (H3 n Hn) as [-> ?]. unfold none in *. rewrite Z.add_0_r in *. auto with lia.
Qed.

Lemma core_ext d d' s a : (forall n, n ∈ alist a -> d n = d' n) -> core d s a -> core d' s a.
Proof.
  intros E [H1 H2 H3 H4 H5]. split; try done. intros n Hn. rewrite <- E by done. auto.
Qed.

Lemma core_frame d s s' a :
  core d s a -> heap s' = heap s -> nodes s' = nodes s -> core d s' a.
Proof. intros [H1 H2 H3 H4 H5] Eh En. split; rewrite ?Eh, ?En; auto. Qed.

(** [kref_get] on a listed node. *)
Lemma core_get d s a n :
  core d s a -> n ∈ alist a -> d n = -1 -> refs n a < 2 ^ 31 - 1 ->
  exists x, nodes s !! n = Some x /\
  core (off n 0 d) (with_node n (KN (kref_get (n_ref x)) (n_klist x) (n_removed x)) s) a.
Proof.
  intros [H1 H2 H3 H4 H5] Hn Hd Hb. destruct (H3 n Hn) as [E P]. eexists; split; [exact E|].
  cbn [n_ref n_klist n_removed]. split; try done. intros m Hm. cbn [nodes with_node].
  unfold off. destruct (Z.eqb_spec m n) as [->|Hne].
  - rewrite lookup_insert_eq. unfold kref_get. rewrite sext_small by lia.
    split; [do 2 f_equal; lia|lia].
  - rewrite lookup_insert_ne by done. auto.
Qed.

(** The list, the dead set and the iterators after the last reference of [n]. *)
Lemma acollect_dead n a :
  n ∈ adead a -> cnt n (aiters a) = 0%nat ->
  acollect k n a = AK (filter (λ x, x <> n) (alist a)) (adead a ∖ {[n]}) (aiters a)
    (acalls a ++ if k_put k then [Put n] else []).
Proof. intros H1 H2. unfold acollect. rewrite bool_decide_eq_true_2 by done. by rewrite H2. Qed.

Lemma acollect_live n a : 0 < refs n a -> acollect k n a = a.
Proof.
  unfold refs, acollect. case_bool_decide; cbn; [|done].
  intros H0. by rewrite (proj2 (Nat.eqb_neq (cnt n (aiters a)) 0)) by lia.
Qed.

Lemma refs_zero n a : refs n a = 0 -> n ∈ adead a /\ cnt n (aiters a) = 0%nat.
Proof. unfold refs. case_bool_decide; [split; [done|lia]|lia]. Qed.

(** [kref_put] on a listed node, with the release of the last reference. *)
Lemma core_dec d s a n :
  core d s a -> n ∈ alist a -> d n = 1 ->
  exists s', klist_dec_and_del n s = Some (s', refs n a =? 0) /\
    core (off n 0 d) s' (acollect k n a) /\ iters s' = iters s /\ calls s' = calls s.
Proof.
  intros [H1 H2 H3 H4 H5] Hn Hd. destruct (H3 n Hn) as [E P].
  unfold klist_dec_and_del, kref_put. rewrite E; cbn [mbind option_bind n_ref n_klist n_removed].
  rewrite sext_small by lia. replace (refs n a + d n - 1) with (refs n a) by lia.
  pose proof (refs_le n a). destruct (Z.eqb_spec (refs n a) 0) as [Z0|Z0].
  - destruct (refs_zero _ _ Z0) as [Hdead Hcnt]. unfold klist_release. cbn [heap with_node nodes].
    assert (Rs : rings (heap s) {[k_list k := alist a]}).
    { split.
      - intros hd l [<- <-]%lookup_singleton_Some. done.
      - intros hd1 hd2 l1 l2 x [<- _]%lookup_singleton_Some [<- _]%lookup_singleton_Some. done. }
    destruct (list_del_refines (heap s) {[k_list k := alist a]} n (k_list k) (alist a) Rs
      (lookup_singleton_eq _ _) Hn) as [(h' & E' & [R' _] & D') _].
    rewrite E'; cbn. rewrite lookup_insert_eq; cbn. eexists; split; [done|].
    rewrite acollect_dead by done. split; [|done]. split; cbn.
    + congruence.
    + apply R'. unfold lremove. by rewrite map_fmap_singleton, lookup_singleton_eq.
    + intros m [Hne Hm]%list_elem_of_filter. rewrite !lookup_insert_ne by done.
      destruct (H3 m Hm) as [-> Pm]. unfold off, refs in *. cbn.
      rewrite (proj2 (Z.eqb_neq m n)) by done.
      replace (bool_decide (m ∈ adead a ∖ {[n]})) with (bool_decide (m ∈ adead a));
        [done|apply bool_decide_ext; set_solver +Hne].
    + intros c Hc. apply list_elem_of_filter. split; [|auto]. intros ->.
      apply cnt_pos in Hc. lia.
    + intros m Hm. apply list_elem_of_filter. split; [set_solver +Hm|].
      apply H5. set_solver +Hm.
  - eexists; split; [done|]. rewrite acollect_live by lia. split; [|done].
    split; cbn; try done. intros m Hm. unfold off. destruct (Z.eqb_spec m n) as [->|Hne].
    + rewrite lookup_insert_eq, Z.add_0_r. split; [done|lia].
    + rewrite lookup_insert_ne by done. auto.
Qed.

(** The callbacks run when the count of [n] has reached its abstract value. *)
Definition put_calls (n : Z) (a : aklist) : list callback :=
  if (refs n a =? 0) && k_put k then [Put n] else [].

Lemma acollect_calls n a : acalls (acollect k n a) = acalls a ++ put_calls n a.
Proof.
  unfold put_calls. pose proof (refs_le n a). destruct (Z.eqb_spec (refs n a) 0) as [E|E].
  - destruct (refs_zero _ _ E). by rewrite acollect_dead.
  - rewrite acollect_live by lia. cbn. by rewrite app_nil_r.
Qed.

Lemma acollect_iters n a : aiters (acollect k n a) = aiters a.
Proof. unfold acollect. by case_match. Qed.

Lemma core_del d s a n :
  k_list k <> 0 -> core d s a -> n ∈ alist a -> d n = 1 ->
  exists s', klist_del k n s = Some s' /\ core (off n 0 d) s' (acollect k n a) /\
    iters s' = iters s /\ calls s' = calls s ++ put_calls n a.
Proof.
  intros Hk C Hn Hd. destruct (core_nodes _ _ _ C n Hn) as [E _].
  destruct (core_dec d s a n C Hn Hd) as (s' & Ed & C' & Ei & Ec).
  unfold klist_del. rewrite E; cbn [mbind option_bind n_klist].
  rewrite (proj2 (Z.eqb_neq _ _) Hk), Ed; cbn [mbind option_bind]. unfold put_calls.
  case_match; eexists; (split; [done|]).
  - cbn. rewrite Ec. split_and!; [by eapply core_frame|done|done].
  - rewrite app_nil_r. done.
Qed.

(** Moving an iterator changes the counts of the nodes it leaves and enters. *)
Definition moved (o c : option Z) (d : Z -> Z) : Z -> Z := fun m =>
  d m + (if decide (o = Some m) then 1 else 0) - (if decide (c = Some m) then 1 else 0).

Ltac offs :=
  unfold off, moved, none; repeat case_decide;
  repeat match goal with |- context [?x =? ?y] => destruct (Z.eqb_spec x y) end;
  (lia || congruence).

Lemma core_move d s a i o c :
  core d s a -> aiters a !! i = Some o -> (forall n, c = Some n -> n ∈ alist a) ->
  core (moved o c d) s (amove i c a).
Proof.
  intros [H1 H2 H3 H4 H5] Hi Hc. split; try done.
  - intros m Hm. destruct (H3 m Hm) as [-> P].
    assert (refs m (amove i c a) + moved o c d m = refs m a + d m) as ->; [|done].
    unfold refs, moved, amove. cbn [adead aiters].
    pose proof (cnt_insert m i o c (aiters a) Hi). repeat case_decide; lia.
  - intros m [Hm|Hm]%elem_of_insert_inv; [|by apply H4]. by apply Hc.
Qed.

Lemma core_add_init s a n :
  core none s a -> n ∈ cells -> n ∉ alist a -> n <> k_list k ->
  exists s', klist_node_init k n s = Some s' /\ is_Some (heap s' !! n) /\
    dom (heap s') = cells /\ ring (heap s') (k_list k) (alist a) /\
    nodes s' = <[n := KN 1 (k_list k) false]> (nodes s) /\
    iters s' = iters s /\ calls s' = calls s ++ aget k n.
Proof.
  intros [H1 H2 H3 H4 H5] Hn Hnl Hne.
  destruct (init_list_head_Some (heap s) n) as (h & E & Hh & F); [by rewrite <- elem_of_dom, H1|].
  unfold klist_node_init, aget. rewrite E; cbn.
  assert (R : ring h (k_list k) (alist a)).
  { eapply ring_frame; [exact F| |done]. intros x Hx ->%list_elem_of_singleton.
    by apply elem_of_cons in Hx as [?|?]. }
  destruct F as [D _].
  destruct (k_get k); eexists; (split; [done|]); cbn; rewrite ?app_nil_r;
    (split_and!; [by eexists|congruence|done..]).
Qed.

(** A fresh node at one end of the list, with one reference. *)
Lemma core_added s a n h l' ns its cs :
  core none s a -> n ∉ alist a -> dom h = cells -> ring h (k_list k) l' ->
  (forall m, m ∈ l' <-> m = n \/ m ∈ alist a) ->
  ns = <[n := KN 1 (k_list k) false]> (nodes s) ->
  core none (KS h ns its cs) (AK l' (adead a) (aiters a) (acalls a ++ aget k n)).
Proof.
  intros [H1 H2 H3 H4 H5] Hn D R Hl ->. split; cbn; try done.
  - intros m [->|Hm]%Hl.
    + rewrite lookup_insert_eq. unfold refs, none. cbn [adead aiters].
      rewrite bool_decide_eq_false_2, cnt_zero by auto. split; [done|lia].
    + rewrite lookup_insert_ne by (by intros ->). auto.
  - intros c Hc. apply Hl. auto.
  - intros m Hm. apply Hl. auto.
Qed.

(** ** Each operation *)
Hypothesis Hk : k_list k <> 0.

Lemma inv_intro s a :
  core none s a -> iters s = aiters a -> calls s = acalls a ->
  Z.of_nat (length (aiters a)) < 2 ^ 30 -> inv k cells s a.
Proof. intros. by apply inv_core. Qed.

Lemma add_refines s a n :
  inv k cells s a -> n ∈ cells -> n ∉ alist a -> n <> k_list k ->
  (exists s', klist_add_head k n s = Some s' /\ inv k cells s' (abs_kop k (KAddHead n) a)) /\
  (exists s', klist_add_tail k n s = Some s' /\ inv k cells s' (abs_kop k (KAddTail n) a)).
Proof.
  intros (C & _ & Ei & Ec & Hf)%inv_core Hn Hl Hne.
  destruct (core_add_init s a n C Hn Hl Hne) as (s1 & E1 & N1 & D1 & R1 & Ns & I1 & C1).
  unfold klist_add_head, klist_add_tail. rewrite E1; cbn [mbind option_bind].
  assert (Hfr : n ∉ k_list k :: alist a) by (apply not_elem_of_cons; auto).
  destruct (ring_list_add _ _ _ n R1 N1 Hfr) as (h2 & -> & R2 & D2 & _).
  destruct (ring_list_add_tail _ _ _ n R1 N1 Hfr) as (h3 & -> & R3 & D3 & _).
  split; eexists; (split; [done|]); (apply inv_intro; cbn; [|congruence|congruence|done]);
    (eapply core_added; [done|done|congruence|done| |done]); intros m; set_solver +.
Qed.

Lemma del_refines s a n :
  inv k cells s a -> n ∈ alist a -> n ∉ adead a ->
  exists s', klist_del k n s = Some s' /\ inv k cells s' (abs_kop k (KDel n) a).
Proof.
  intros (C & _ & Ei & Ec & Hf)%inv_core Hn Hd.
  set (a1 := AK (alist a) ({[n]} ∪ adead a) (aiters a) (acalls a)).
  assert (C1 : core (off n 1 none) s a1).
  { destruct C as [H1 H2 H3 H4 H5]. split; try done.
    - intros m Hm. destruct (H3 m Hm) as [-> P]. unfold off, none, refs in *; cbn in *.
      destruct (Z.eqb_spec m n) as [->|Hne].
      + rewrite (bool_decide_eq_false_2 (n ∈ adead a)) in * by done.
        rewrite bool_decide_eq_true_2 by set_solver +. split; [do 2 f_equal; lia|lia].
      + rewrite (bool_decide_ext (m ∈ {[n]} ∪ adead a) (m ∈ adead a)) by set_solver +Hne. done.
    - intros m [->%elem_of_singleton|Hm]%elem_of_union; [done|]. auto. }
  destruct (core_del _ s a1 n Hk C1 Hn) as (s' & E & C' & Ei' & Ec');
    [unfold off; by rewrite Z.eqb_refl|].
  exists s'. split; [done|]. cbn [abs_kop]. fold a1. apply inv_intro.
  - eapply core_ext; [|exact C']. intros m _. unfold off, none. by case_match.
  - rewrite acollect_iters; cbn. congruence.
  - rewrite acollect_calls. rewrite Ec', Ec. done.
  - by rewrite acollect_iters.
Qed.

Lemma iter_init_refines s a i n :
  inv k cells s a -> aiters a !! i = Some None -> (forall m, n = Some m -> m ∈ alist a) ->
  exists s', klist_iter_init_node i n s = Some s' /\ inv k cells s' (amove i n a).
Proof.
  intros (C & _ & Ei & Ec & Hf)%inv_core Hi Hn.
  pose proof (core_move none s a i None n C Hi Hn) as C1. unfold klist_iter_init_node.
  destruct n as [n|].
  - destruct (core_get _ s _ n C1 (Hn n eq_refl)) as (x & Ex & C2).
    { unfold moved, none. rewrite decide_False, decide_True by done. lia. }
    { pose proof (refs_le n (amove i (Some n) a)). cbn in *. rewrite length_insert in *. lia. }
    cbn [with_iter nodes]. rewrite Ex; cbn [mbind option_bind]. eexists; split; [done|].
    apply inv_intro; cbn; rewrite ?length_insert; [|congruence|done..].
    eapply core_frame; [eapply core_ext; [|exact C2]|done..]. intros m _. offs.
  - eexists; split; [done|].
    apply inv_intro; cbn; rewrite ?length_insert; [|congruence|done..].
    eapply core_frame; [eapply core_ext; [|exact C1]|done..]. done.
Qed.

Lemma iter_exit_refines s a i :
  inv k cells s a -> (i < length (aiters a))%nat ->
  exists s', klist_iter_exit k i s = Some s' /\ inv k cells s' (aleave k i None a).
Proof.
  intros Hinv [c Hi]%lookup_lt_is_Some. pose proof Hinv as (C & _ & Ei & Ec & Hf)%inv_core.
  unfold klist_iter_exit, aleave. rewrite Ei, Hi; cbn [mbind option_bind].
  destruct c as [n|].
  - assert (Hn : n ∈ alist a) by (apply (core_cur _ _ _ C); by eapply list_elem_of_lookup_2).
    pose proof (core_move none s a i (Some n) None C Hi ltac:(done)) as C1.
    destruct (core_del _ s _ n Hk C1 Hn) as (s' & -> & C' & Ei' & Ec').
    { unfold moved, none. rewrite decide_True, decide_False by done. done. }
    cbn [mbind option_bind]. eexists; split; [done|]. apply inv_intro; cbn.
    + eapply core_frame; [eapply core_ext; [|exact C']|done..]. intros m _. offs.
    + rewrite acollect_iters. cbn. congruence.
    + rewrite acollect_calls, Ec', Ec. done.
    + by rewrite acollect_iters; cbn; rewrite length_insert.
  - eexists; split; [done|]. unfold amove. rewrite list_insert_id by done. by destruct a.
Qed.

Lemma succ_ne l c x : NoDup l -> succ c l = Some x -> x <> c.
Proof.
  intros ND H. pose proof (succ_in _ _ _ H) as Hx.
  assert (Hc : c ∈ l).
  { clear -H. induction l as [|y l IH]; [done|]. cbn in H. case_test; [set_solver|]. right; auto. }
  apply list_elem_of_split in Hc as (l1 & l2 & ->). rewrite succ_split in H by done.
  apply NoDup_app in ND as (_ & _ & ND). apply NoDup_cons in ND as [ND _].
  destruct l2; [done|]. injection H as ->. intros ->. apply ND. by left.
Qed.

(** The reference [klist_next] takes on the node it returns. *)
Lemma next_get s a d c :
  core d s a -> (forall m, c = Some m -> m ∈ alist a /\ d m = -1) ->
  (forall m, c <> Some m -> d m = 0) ->
  Z.of_nat (length (aiters a)) < 2 ^ 30 -> exists s',
  (if default (k_list k) c =? k_list k then Some (s, @None Z) else
   x ← nodes s !! default (k_list k) c;
   Some (with_node (default (k_list k) c) (KN (kref_get (n_ref x)) (n_klist x) (n_removed x)) s,
         Some (default (k_list k) c))) = Some (s', c) /\
  core none s' a /\ iters s' = iters s /\ calls s' = calls s.
Proof.
  intros C Hc Hz Hf. destruct c as [m|]; cbn.
  - destruct (Hc m eq_refl) as [Hm Hd].
    rewrite (proj2 (Z.eqb_neq m (k_list k))).
    2: { intros ->. destruct (core_ring _ _ _ C) as [_ [N _]%NoDup_cons]. done. }
    destruct (core_get d s a m C Hm Hd) as (x & -> & C').
    { pose proof (refs_le m a). lia. }
    cbn [mbind option_bind]. eexists; split; [done|]. split; [|done].
    eapply core_ext; [|exact C']. intros p _. unfold off, none.
    destruct (Z.eqb_spec p m); [done|]. apply Hz. congruence.
  - rewrite Z.eqb_refl. eexists; split; [done|]. split; [|done].
    eapply core_ext; [|exact C]. intros p _. by apply Hz.
Qed.

Lemma next_refines s a i :
  inv k cells s a -> (i < length (aiters a))%nat ->
  exists s', klist_next k i s = Some (s', anext i a) /\ inv k cells s' (aleave k i (anext i a) a).
Proof.
  intros Hinv [o Hi]%lookup_lt_is_Some. pose proof Hinv as (C & _ & Ei & Ec & Hf)%inv_core.
  unfold klist_next, aleave. rewrite Ei, Hi; cbn [mbind option_bind].
  pose proof (core_ring _ _ _ C) as R. pose proof (proj2 R) as [_ ND]%NoDup_cons.
  destruct o as [l|].
  - assert (Hl : l ∈ alist a) by (apply (core_cur _ _ _ C); by eapply list_elem_of_lookup_2).
    rewrite (ring_next_succ _ _ _ _ R Hl); cbn [mbind option_bind].
    assert (Ea : anext i a = succ l (alist a)) by (unfold anext; by rewrite Hi).
    rewrite Ea. set (c := succ l (alist a)) in *.
    assert (Hc : forall m, c = Some m -> m ∈ alist a /\ m <> l)
      by (intros m Hm; split; [by eapply succ_in|by eapply succ_ne]).
    pose proof (core_move none s a i (Some l) c C Hi (fun m H => proj1 (Hc m H))) as C1.
    assert (Dl : moved (Some l) c none l = 1).
    { unfold moved, none. rewrite decide_True by done. rewrite decide_False; [done|].
      intros H%Hc. naive_solver. }
    destruct (core_dec _ s _ l C1 Hl Dl) as (s1 & -> & C2 & Ei1 & Ec1). cbn [mbind option_bind].
    assert (Hrest : forall m, c = Some m ->
      m ∈ alist (acollect k l (amove i c a)) /\ off l 0 (moved (Some l) c none) m = -1).
    { intros m Hm. destruct (Hc m Hm) as [Hm1 Hm2]. split.
      - unfold acollect. case_match; [|done]. apply list_elem_of_filter. auto.
      - offs. }
    destruct (next_get s1 _ _ c C2 Hrest) as (s2 & -> & C3 & Ei2 & Ec2).
    { intros m Hm. offs. }
    { rewrite acollect_iters; cbn. by rewrite length_insert. }
    cbn [mbind option_bind]. eexists; split; [done|].
    assert (Hlen : Z.of_nat (length (aiters (acollect k l (amove i c a)))) < 2 ^ 30)
      by (rewrite acollect_iters; cbn; by rewrite length_insert).
    assert (El : <[i:=c]> (iters s2) = aiters (acollect k l (amove i c a)))
      by (rewrite acollect_iters; cbn; congruence).
    pose proof (acollect_calls l (amove i c a)) as Eput. unfold put_calls in Eput. cbn in Eput.
    destruct ((_ =? 0) && k_put k)%bool; cbn in Eput |- *;
      (apply inv_intro; [by eapply core_frame|done|cbn; rewrite Eput, ?app_nil_r; congruence|done]).
  - rewrite (ring_next_head _ _ _ R); cbn [mbind option_bind].
    assert (Ea : anext i a = head (alist a)) by (unfold anext; by rewrite Hi). rewrite Ea.
    set (c := head (alist a)) in *.
    assert (Hc : forall m, c = Some m -> m ∈ alist a).
    { unfold c. intros m Hm. destruct (alist a); [done|]. injection Hm as ->. by left. }
    pose proof (core_move none s a i None c C Hi Hc) as C1.
    destruct (next_get s _ _ c C1) as (s2 & -> & C3 & Ei2 & Ec2).
    { intros m Hm. split; [by apply Hc|]. unfold moved, none.
      rewrite decide_False, decide_True by done. done. }
    { intros m Hm. unfold moved, none. rewrite !decide_False by done. done. }
    { cbn. by rewrite length_insert. }
    cbn [mbind option_bind]. eexists; split; [done|].
    apply inv_intro; cbn; rewrite ?length_insert; [by eapply core_frame|congruence|congruence|done].
Qed.

Lemma kop_refines s a op :
  inv k cells s a -> kop_pre k cells op a ->
  exists s', run_kop k op s = Some (s', abs_ret op a) /\ inv k cells s' (abs_kop k op a).
Proof.
  intros I P. destruct op; cbn [run_kop kop_pre] in *.
  - destruct P as (?&?&?). destruct (add_refines s a n) as [(s' & -> & I') _]; eauto.
  - destruct P as (?&?&?). destruct (add_refines s a n) as [_ (s' & -> & I')]; eauto.
  - destruct P. destruct (del_refines s a n) as (s' & -> & I'); eauto.
  - unfold klist_iter_init. destruct (iter_init_refines s a i None) as (s' & -> & I'); eauto.
    done.
  - destruct P as [? Hn]. destruct (iter_init_refines s a i (Some n)) as (s' & -> & I'); eauto.
    by intros ? [= <-].
  - destruct (iter_exit_refines s a i) as (s' & -> & I'); eauto.
  - destruct (next_refines s a i) as (s' & -> & I'); eauto.
Qed.
End proofs.

(** A new klist represents the empty list. *)
Lemma klist_init_inv cells s addr get put :
  addr <> 0 -> addr ∈ cells -> dom (heap s) = cells -> (forall c, c ∈ iters s -> c = None) ->
  Z.of_nat (length (iters s)) < 2 ^ 30 ->
  exists s', klist_init addr get put s = Some (KL addr get put, s') /\
    inv (KL addr get put) cells s' (AK [] ∅ (iters s) (calls s)).
Proof.
  intros Ha Hin D Hi Hf.
  destruct (init_list_head_Some (heap s) addr) as (h & E & Hh & F); [by rewrite <- elem_of_dom, D|].
  exists (with_heap h s). unfold klist_init. rewrite E; cbn. split; [done|].
  split; cbn; try done.
  - destruct F. congruence.
  - by apply ring_init.
  - by intros n ?%elem_of_nil.
  - intros c Hc%Hi. done.
Qed.

(** ** Runs *)
Section runs.
Context (k : klist).

Fixpoint run_kops (ops : list kop) (s : kstate) : option (kstate * list (option Z)) :=
  match ops with
  | [] => Some (s, [])
  | op :: ops =>
      '(s, r) ← run_kop k op s; '(s, rs) ← run_kops ops s; Some (s, r :: rs)
  end.

Fixpoint abs_kops (ops : list kop) (a : aklist) : aklist :=
  match ops with [] => a | op :: ops => abs_kops ops (abs_kop k op a) end.

Fixpoint abs_rets (ops : list kop) (a : aklist) : list (option Z) :=
  match ops with [] => [] | op :: ops => abs_ret op a :: abs_rets ops (abs_kop k op a) end.

Fixpoint kops_pre (cells : gset Z) (ops : list kop) (a : aklist) : Prop :=
  match ops with
  | [] => True
  | op :: ops => kop_pre k cells op a /\ kops_pre cells ops (abs_kop k op a)
  end.

Lemma kops_refine cells ops s a :
  inv k cells s a -> kops_pre cells ops a ->
  exists s', run_kops ops s = Some (s', abs_rets ops a) /\ inv k cells s' (abs_kops ops a).
Proof.
  revert s a; induction ops as [|op ops IH]; intros s a I P; cbn; [eauto|].
  destruct P as [P Ps]. destruct (kop_refines k cells (inv_head _ _ _ _ I) s a op I P) as (s1 & -> & I1).
  destruct (IH s1 _ I1 Ps) as (s2 & E & I2). cbn. rewrite E; cbn. eauto.
Qed.

(** C8: the klist implements its specification. For every sequence of
    additions, deletions and iterator operations that respects the callers'
    obligations, no access faults, the values returned by [klist_next] are
    those of the specification, and the final list, reference counts, iterator
    positions and [get]/[put] calls represent the specification's state: a node
    is unlinked (and [put] runs, once) exactly when it has been deleted and no
    iterator stands on it any more. *)
Theorem klist_refine cells ops s a :
  inv k cells s a -> kops_pre cells ops a ->
  exists s', run_kops ops s = Some (s', abs_rets ops a) /\ inv k cells s' (abs_kops ops a).
Proof. apply kops_refine. Qed.

(** ** Iteration visits every node that stays *)

Fixpoint after (c : Z) (l : list Z) : list Z :=
  match l with
  | [] => []
  | x :: t => if x =? c then t else after c t
  end.

(** The nodes that iterator [i] has still to visit. *)
Definition ahead (i : nat) (a : aklist) : list Z :=
  match aiters a !! i with Some (Some c) => after c (alist a) | _ => alist a end.

Definition pending (i : nat) (n : Z) (a : aklist) : Prop := n ∈ ahead i a /\ n ∉ adead a.

(** The operations that neither delete [n] nor restart iterator [i]. *)
Definition keeps (i : nat) (n : Z) (op : kop) : Prop :=
  match op with
  | KDel m => m <> n
  | KIterInit j | KIterInitNode j _ | KIterExit j => j <> i
  | _ => True
  end.

(** What the [klist_next] calls on iterator [i] returned. *)
Fixpoint visits (i : nat) (ops : list kop) (rs : list (option Z)) : list (option Z) :=
  match ops, rs with
  | KNext j :: ops, r :: rs => (if (j =? i)%nat then [r] else []) ++ visits i ops rs
  | _ :: ops, _ :: rs => visits i ops rs
  | _, _ => []
  end.

Lemma succ_after c l : succ c l = head (after c l).
Proof. induction l as [|x l IH]; cbn; [done|]. by case_match. Qed.

Lemma anext_ahead i a : anext i a = head (ahead i a).
Proof. unfold anext, ahead. repeat case_match; try done. apply succ_after. Qed.

Lemma after_filter c n o l : n ∈ after c l -> n <> o -> c <> o -> n ∈ after c (filter (λ x, x <> o) l).
Proof.
  induction l as [|x l IH]; [done|]. cbn [after]. intros Hn Hno Hco. rewrite filter_cons.
  destruct (Z.eqb_spec x c) as [->|Hx].
  - rewrite decide_True by done. cbn [after]. rewrite Z.eqb_refl. by apply list_elem_of_filter.
  - case_decide; [|auto]. cbn [after]. rewrite (proj2 (Z.eqb_neq x c)) by done. auto.
Qed.

Lemma after_next c m t l : NoDup l -> after c l = m :: t -> after m l = t.
Proof.
  induction l as [|x l IH]; [done|]. cbn. intros [Hx ND]%NoDup_cons.
  destruct (Z.eqb_spec x c) as [->|Hne].
  - intros ->. rewrite (proj2 (Z.eqb_neq c m)) by (intros ->; apply Hx; by left).
    cbn. by rewrite Z.eqb_refl.
  - intros E. rewrite (proj2 (Z.eqb_neq x m)); [auto|]. intros ->. apply Hx.
    assert (Ha : forall l', m ∈ after c l' -> m ∈ l').
    { clear. induction l' as [|y l' IH]; cbn; [done|]. case_test; intros; right; auto. }
    apply Ha. rewrite E. by left.
Qed.

Lemma collect_pending i n o a : pending i n a -> pending i n (acollect k o a).
Proof.
  unfold pending, acollect, ahead. intros [Hn Hd].
  destruct (bool_decide (o ∈ adead a)) eqn:Ho; [|done]. apply bool_decide_eq_true in Ho.
  destruct (Nat.eqb_spec (cnt o (aiters a)) 0) as [Hc|Hc]; cbn; [|done].
  assert (n <> o) by congruence. split; [|set_solver].
  destruct (aiters a !! i) as [[c|]|] eqn:Hi; try (by apply list_elem_of_filter).
  apply after_filter; [done..|]. intros ->.
  apply list_elem_of_lookup_2, cnt_pos in Hi. lia.
Qed.

Lemma move_pending i j c n a : j <> i -> pending i n a -> pending i n (amove j c a).
Proof. unfold pending, ahead, amove; cbn. intros. by rewrite list_lookup_insert_ne. Qed.

Lemma leave_pending i j c n a :
  pending i n (amove j c a) -> pending i n (aleave k j c a).
Proof. unfold aleave. repeat case_match; auto using collect_pending. Qed.

Lemma next_pending i n a :
  NoDup (alist a) -> (i < length (aiters a))%nat -> pending i n a ->
  anext i a = Some n \/ pending i n (amove i (anext i a) a).
Proof.
  intros ND Hi [Hn Hd]. rewrite anext_ahead. destruct (ahead i a) as [|m t] eqn:E; [by apply elem_of_nil in Hn|].
  cbn. apply elem_of_cons in Hn as [->|Hn]; [by left|]. right. split; [|done].
  unfold ahead, amove in *; cbn. rewrite list_lookup_insert_eq by done.
  enough (after m (alist a) = t) as -> by done.
  destruct (aiters a !! i) as [[c|]|].
  - by eapply after_next.
  - rewrite E. cbn. by rewrite Z.eqb_refl.
  - rewrite E. cbn. by rewrite Z.eqb_refl.
Qed.

Lemma step_pending cells s i n op a :
  inv k cells s a -> kop_pre k cells op a -> (i < length (aiters a))%nat -> keeps i n op ->
  pending i n a -> (op = KNext i /\ abs_ret op a = Some n) \/ pending i n (abs_kop k op a).
Proof.
  intros I P Hi K Pn. pose proof (proj2 (inv_ring _ _ _ _ I)) as [_ ND]%NoDup_cons.
  destruct op as [m|m|m|j|j m|j|j]; cbn in *.
  - right. destruct Pn as [Hn Hd], P as (_ & P & _). split; [|done]. unfold ahead in *; cbn.
    destruct (aiters a !! i) as [[c|]|] eqn:Ei; [|by right..]. cbn.
    rewrite (proj2 (Z.eqb_neq m c)); [done|]. intros ->. apply P, (inv_cur _ _ _ _ I).
    by eapply list_elem_of_lookup_2.
  - right. destruct Pn as [Hn Hd], P as (_ & P & _). split; [|done]. unfold ahead in *; cbn.
    destruct (aiters a !! i) as [[c|]|] eqn:Ei; [|apply elem_of_app; by left..].
    revert Hn. generalize (alist a). induction l as [|x l IH]; cbn; [by intros ?%elem_of_nil|].
    case_test; [|exact IH]. intros. apply elem_of_app; by left.
  - right. apply collect_pending. destruct Pn. split; [done|]. cbn. set_solver.
  - right. by apply move_pending.
  - right. by apply move_pending.
  - right. by apply leave_pending, move_pending.
  - destruct (decide (j = i)) as [->|Hj].
    + destruct (next_pending i n a ND Hi Pn); [by left|right]. by apply leave_pending.
    + right. by apply leave_pending, move_pending.
Qed.

Lemma abs_iters_length op a : length (aiters (abs_kop k op a)) = length (aiters a).
Proof.
  destruct op; cbn; try done; rewrite ?acollect_iters; cbn; rewrite ?length_insert; try done;
    unfold aleave; repeat case_match; rewrite ?acollect_iters; cbn; by rewrite length_insert.
Qed.

Lemma visits_complete cells ops s a i n :
  inv k cells s a -> kops_pre cells ops a -> (i < length (aiters a))%nat ->
  pending i n a -> Forall (keeps i n) ops ->
  None ∈ visits i ops (abs_rets ops a) -> Some n ∈ visits i ops (abs_rets ops a).
Proof.
  revert s a; induction ops as [|op ops IH]; intros s a I P Hi Pn K; cbn; [by intros ?%elem_of_nil|].
  destruct P as [P Ps]. apply Forall_cons in K as [K Ks].
  destruct (kop_refines k cells (inv_head _ _ _ _ I) s a op I P) as (s1 & _ & I1).
  destruct (step_pending cells s i n op a I P Hi K Pn) as [[-> E]|Pn'].
  { rewrite Nat.eqb_refl, E. intros _. by left. }
  assert (None ∈ visits i ops (abs_rets ops (abs_kop k op a)) ->
    Some n ∈ visits i ops (abs_rets ops (abs_kop k op a))) as IH'.
  { apply (IH s1); try done. by rewrite abs_iters_length. }
  destruct op as [m|m|m|j|j m|j|j]; try done.
  destruct (Nat.eqb_spec j i) as [->|]; [|done]. cbn [app abs_ret].
  intros [Hx|Hx]%elem_of_cons; [|right; by apply IH'].
  rewrite anext_ahead in Hx. destruct Pn as [Hn _]. destruct (ahead i a); [|done].
  by apply elem_of_nil in Hn.
Qed.

(** C35: iteration is complete under concurrent changes. A node that iterator
    [i] has still to visit, and that nobody deletes, is returned by some
    [klist_next] on [i] before [klist_next] reports the end of the list,
    whatever additions, deletions of other nodes (the current one included)
    and other iterations happen in between. *)
Theorem klist_iteration_complete cells ops s a i n :
  inv k cells s a -> kops_pre cells ops a -> (i < length (aiters a))%nat ->
  pending i n a -> Forall (keeps i n) ops ->
  exists s' rs, run_kops ops s = Some (s', rs) /\
    (None ∈ visits i ops rs -> Some n ∈ visits i ops rs).
Proof.
  intros I P Hi Pn K. destruct (kops_refine cells ops s a I P) as (s' & E & _).
  exists s', (abs_rets ops a). split; [done|]. by eapply visits_complete.
Qed.

(** [klist_remove] returns from its wait at once when no iterator stands
    on the node, which is then attached to no list, and waits otherwise, with
    the node still attached. *)
Theorem klist_remove_waits cells s a n :
  inv k cells s a -> n ∈ alist a -> n ∉ adead a ->
  let free := (cnt n (aiters a) =? 0)%nat in
  exists s', klist_remove k n s = Some (s', free) /\
    klist_node_attached n s' = Some (negb free) /\ inv k cells s' (abs_kop k (KDel n) a).
Proof.
  intros I Hn Hd. pose proof (inv_head _ _ _ _ I) as Hk.
  destruct (del_refines k cells Hk s a n I Hn Hd) as (s' & E & I').
  unfold klist_remove, klist_node_attached. rewrite E; cbn [mbind option_bind].
  destruct (inv_nodes _ _ _ _ I n Hn) as [En _].
  assert (Er : refs n a = 1 + Z.of_nat (cnt n (aiters a)))
    by (unfold refs; by rewrite bool_decide_eq_false_2).
  revert E. unfold klist_del, klist_dec_and_del. rewrite En; cbn [mbind option_bind n_klist n_ref].
  rewrite (proj2 (Z.eqb_neq _ _) Hk). unfold kref_put.
  pose proof (cnt_le n (aiters a)). pose proof (inv_few _ _ _ _ I).
  rewrite sext_small by lia. destruct (Nat.eqb_spec (cnt n (aiters a)) 0) as [Z0|Z0].
  - rewrite (proj2 (Z.eqb_eq _ _)) by lia. unfold klist_release. cbn [with_node nodes heap].
    destruct (list_del n (heap s)) as [h|]; cbn; [|done]. rewrite lookup_insert_eq. cbn.
    intros [= <-]. exists (if k_put k then with_call (Put n)
      (with_node n (KN (refs n a - 1) 0 true) (with_heap h
        (with_node n (KN (refs n a - 1) (k_list k) false) s)))
      else with_node n (KN (refs n a - 1) 0 true) (with_heap h
        (with_node n (KN (refs n a - 1) (k_list k) false) s))).
    destruct (k_put k); cbn in *; rewrite lookup_insert_eq; cbn; auto.
  - rewrite (proj2 (Z.eqb_neq _ _)) by lia. cbn. intros [= <-].
    cbn in *. rewrite lookup_insert_eq; cbn. eexists; split; [done|]. split; [|done].
    cbn [nodes with_node]. rewrite lookup_insert_eq; cbn [mbind option_bind n_klist].
    by rewrite (proj2 (Z.eqb_neq _ _) Hk).
Qed.
End runs.

(** ** Witnesses *)
Definition sample_k : klist := KL 1 true true.
Definition sample_s : kstate := KS {[1 := LH 1 1; 10 := LH 0 0; 20 := LH 0 0]} ∅ [None] [].
Definition sample_a : aklist := AK [] ∅ [None] [].
Definition sample_ops : list kop :=
  [KAddTail 10; KAddTail 20; KNext 0; KDel 10; KNext 0; KNext 0].

Lemma sample_inv : inv sample_k {[1; 10; 20]} sample_s sample_a.
Proof.
  split; cbn; try done; try set_solver.
  - by apply ring_init.
Qed.

Lemma sample_pre : kops_pre sample_k {[1; 10; 20]} sample_ops sample_a.
Proof. cbn. repeat split; try done; try lia; set_solver. Qed.

Lemma klist_refine_witness :
  exists s', run_kops sample_k sample_ops sample_s =
    Some (s', [None; None; Some 10; None; Some 20; None]) /\
    inv sample_k {[1; 10; 20]} s' (AK [20] ∅ [None] [Get 10; Get 20; Put 10]).
Proof. exact (klist_refine sample_k {[1; 10; 20]} sample_ops sample_s sample_a sample_inv sample_pre). Defined.

Lemma klist_iteration_complete_witness :
  exists s' rs, run_kops sample_k sample_ops sample_s = Some (s', rs) /\
    (None ∈ visits 0 sample_ops rs -> Some 20 ∈ visits 0 sample_ops rs).
Proof.
  destruct (kops_refine sample_k {[1; 10; 20]} [KAddTail 10; KAddTail 20] sample_s sample_a sample_inv)
    as (s1 & E1 & I1); [cbn; repeat split; try done; set_solver|].
  assert (E : run_kops sample_k sample_ops sample_s =
    '(s', rs) ← run_kops sample_k [KNext 0; KDel 10; KNext 0; KNext 0] s1;
    Some (s', None :: None :: rs)).
  { change sample_ops with ([KAddTail 10; KAddTail 20] ++ [KNext 0; KDel 10; KNext 0; KNext 0]).
    vm_compute in E1. injection E1 as <-. vm_compute. done. }
  assert (I2 : inv sample_k {[1; 10; 20]} s1 (AK [10; 20] ∅ [None] [Get 10; Get 20])) by exact I1.
  destruct (klist_iteration_complete sample_k {[1; 10; 20]} [KNext 0; KDel 10; KNext 0; KNext 0]
    s1 _ 0%nat 20 I2) as (s' & rs & E2 & H).
  - cbn. repeat split; try lia; try set_solver +.
  - cbn. lia.
  - split; cbn; set_solver +.
  - repeat constructor; done.
  - exists s', (None :: None :: rs). rewrite E, E2. split; [done|].
    cbn [visits sample_ops]. exact H.
Defined.

Lemma klist_remove_waits_witness :
  exists s' s'', run_kops sample_k [KAddTail 10; KAddTail 20; KNext 0] sample_s =
    Some (s', [None; None; Some 10]) /\ klist_remove sample_k 10 s' = Some (s'', false) /\
    klist_node_attached 10 s'' = Some true.
Proof.
  destruct (kops_refine sample_k {[1; 10; 20]} [KAddTail 10; KAddTail 20; KNext 0] sample_s sample_a
    sample_inv) as (s1 & E1 & I1); [cbn; repeat split; try done; try lia; set_solver|].
  destruct (klist_remove_waits sample_k _ s1 _ 10 I1) as (s' & E2 & E3 & _);
    [cbn; set_solver|cbn; set_solver|].
  exists s1, s'. split; [exact E1|]. split; [exact E2|exact E3].
Defined.
