(* ===== verification/Hashtab.v ===== *)
(** The vmklinux hash table: [vmware/linux_hashtab.c] over the multiplicative
    hash of [include/linux/hash.h].

    A bucket ([hlist_head]) is the list of its items in chain order; a node of
    a chain is named by its position. *)

From S2P Require Import Prelude.
From Stdlib Require Import Sorted.
Local Open Scope Z_scope.

(** ** The hash *)

Definition GOLDEN_RATIO_PRIME : Z := 0x9e37fffffffc0001.

(** The shifts and subtractions of the 64-bit branch. The last shift is
    undefined when the amount reaches the width. *)
Definition hash_long (val bits : Z) : option Z :=
  let hash := val in let n := hash in
  let n := u64 (Z.shiftl n 18) in let hash := u64 (hash - n) in
  let n := u64 (Z.shiftl n 33) in let hash := u64 (hash - n) in
  let n := u64 (Z.shiftl n 3) in let hash := u64 (hash + n) in
  let n := u64 (Z.shiftl n 3) in let hash := u64 (hash - n) in
  let n := u64 (Z.shiftl n 4) in let hash := u64 (hash + n) in
  let n := u64 (Z.shiftl n 2) in let hash := u64 (hash + n) in
  let amount := u32 (64 - bits) in
  if 64 <=? amount then None else Some (Z.shiftr hash amount).

(** Drops the conversions of an addition or subtraction both of whose
    operands are converted, from the inside out. *)
Ltac wrap_free a := lazymatch a with context [wrap] => fail | _ => idtac end.
Ltac wrap_innermost :=
  match goal with
  | |- context [wrap ?w (wrap ?w ?a - wrap ?w ?b)] =>
      wrap_free a; rewrite (wrap_sub_l w a), (wrap_sub_r w a b)
  | |- context [wrap ?w (wrap ?w ?a + wrap ?w ?b)] =>
      wrap_free a; rewrite (wrap_add_l w a), (wrap_add_r w a b)
  end.

Lemma hash_long_eq val bits :
  0 <= val < 2 ^ 64 -> 1 <= bits <= 64 ->
  hash_long val bits = Some (u64 (val * GOLDEN_RATIO_PRIME) / 2 ^ (64 - bits)).
Proof.
  intros Hv Hb. unfold hash_long. rewrite (wrap_small 32) by lia.
  rewrite (proj2 (Z.leb_gt _ _)), shiftr_div by lia. do 2 f_equal.
  rewrite !shiftl_mul by lia. rewrite !wrap_mul_l, (wrap_sub_r 64 val).
  repeat wrap_innermost. f_equal. unfold GOLDEN_RATIO_PRIME. lia.
Qed.

Lemma hash_long_lt val bits :
  0 <= val < 2 ^ 64 -> 1 <= bits <= 64 ->
  exists h, hash_long val bits = Some h /\ 0 <= h < 2 ^ bits.
Proof.
  intros Hv Hb. rewrite hash_long_eq by done. eexists; split; [done|].
  pose proof (wrap_range 64 (val * GOLDEN_RATIO_PRIME) ltac:(lia)) as R.
  assert (0 < 2 ^ (64 - bits)) by (apply Z.pow_pos_nonneg; lia).
  split; [apply Z.div_pos; lia|]. apply Z.div_lt_upper_bound; [done|].
  rewrite <- Z.pow_add_r by lia. replace (64 - bits + bits) with 64 by lia. apply R.
Qed.

(** the shift-and-add sequence is multiplication by the golden-ratio prime
    modulo 2^64, of which the top [bits] bits are kept: the hash of every key
    is a valid index into a table of 2^[bits] buckets. *)
Theorem hash_long_golden val bits :
  0 <= val < 2 ^ 64 -> 1 <= bits <= 64 ->
  exists h, hash_long val bits = Some h /\ 0 <= h < 2 ^ bits /\
    h = (val * GOLDEN_RATIO_PRIME) mod 2 ^ 64 / 2 ^ (64 - bits).
Proof.
  intros Hv Hb. destruct (hash_long_lt val bits Hv Hb) as (h & E & Hh).
  exists h. split; [exact E|]. split; [exact Hh|].
  rewrite hash_long_eq in E by done. unfold wrap in E. congruence.
Qed.

Lemma hash_long_golden_witness : exists h, hash_long 12345 8 = Some h /\ 0 <= h < 2 ^ 8 /\
    h = (12345 * GOLDEN_RATIO_PRIME) mod 2 ^ 64 / 2 ^ (64 - 8).
Proof. apply (hash_long_golden 12345 8); lia. Defined.

(** ** The table *)

Definition EINVAL : Z := 22.
Definition ENOMEM : Z := 12.

Record item := Item { iaddr : Z; ikey : Z }.
#[global] Instance item_eq_dec : EqDecision item.
Proof. solve_decision. Defined.

Record hashtab := HT { size : Z; count : Z; order : Z; table : list (list item) }.

(** [create] with the outcome of [kmalloc]; the result code and the table. *)
Definition vmklnx_hashtab_create (order : Z) (alloc : bool) : Z * option hashtab :=
  let size := u32 (Z.shiftl 1 order) in
  if alloc then (0, Some (HT size 0 order (replicate (Z.to_nat size) []))) else (- ENOMEM, None).

(** The walk of [find_key]: it stops at the first key that is not smaller. *)
Fixpoint find_walk (key : Z) (l : list item) (pos : nat) : option nat :=
  match l with
  | [] => None
  | entry :: l =>
      if ikey entry =? key then Some pos else
      if key <? ikey entry then None else find_walk key l (S pos)
  end.

(** The bucket and the position of the node of [key]. *)
Definition vmklnx_hashtab_find_key (key : Z) (ht : hashtab) : option (nat * option nat) :=
  hashed_key ← hash_long key (order ht);
  let i := Z.to_nat (u32 hashed_key) in
  h_list ← table ht !! i;
  Some (i, find_walk key h_list 0).

Definition hlist_entry (i pos : nat) (ht : hashtab) : option item :=
  l ← table ht !! i; l !! pos.

Definition vmklnx_hashtab_find_item (key : Z) (ht : hashtab) : option (Z * option item) :=
  '(i, list) ← vmklnx_hashtab_find_key key ht;
  match list with
  | None => Some (- EINVAL, @None item)
  | Some p => e ← hlist_entry i p ht; Some (0, Some e)
  end.

(** The walk of [insert_item]: [None] when the key is present, else the last
    node with a smaller key. *)
Fixpoint insert_walk (key : Z) (l : list item) (pos : nat) (parent : option nat)
    : option (option nat) :=
  match l with
  | [] => Some parent
  | entry :: l =>
      if ikey entry =? key then None else
      if key <? ikey entry then Some parent else insert_walk key l (S pos) (Some pos)
  end.

Definition hlist_add_head (x : item) (l : list item) : list item := x :: l.
Definition hlist_add_after (p : nat) (x : item) (l : list item) : list item :=
  take (S p) l ++ x :: drop (S p) l.
Definition hlist_del (p : nat) (l : list item) : list item := take p l ++ drop (S p) l.

Definition set_bucket (i : nat) (l : list item) (n : Z) (ht : hashtab) : hashtab :=
  HT (size ht) n (order ht) (<[i := l]> (table ht)).

Definition vmklnx_hashtab_insert_item (x : item) (ht : hashtab) : option (Z * hashtab) :=
  hashed_key ← hash_long (ikey x) (order ht);
  let i := Z.to_nat (u32 hashed_key) in
  h_list ← table ht !! i;
  match insert_walk (ikey x) h_list 0 None with
  | None => Some (- EINVAL, ht)
  | Some parent =>
      let l := match parent with
               | Some p => hlist_add_after p x h_list
               | None => hlist_add_head x h_list
               end in
      Some (0, set_bucket i l (u32 (count ht + 1)) ht)
  end.

(** The result code, the item stored through [item] and the table. *)
Definition vmklnx_hashtab_remove_key (key : Z) (ht : hashtab)
    : option (Z * option item * hashtab) :=
  '(i, list) ← vmklnx_hashtab_find_key key ht;
  match list with
  | None => Some (- EINVAL, @None item, ht)
  | Some p =>
      l ← table ht !! i; e ← hlist_entry i p ht;
      Some (0, Some e, set_bucket i (hlist_del p l) (u32 (count ht - 1)) ht)
  end.

Definition vmklnx_hashtab_remove_item (x : item) (ht : hashtab) : option (Z * hashtab) :=
  '(r, _, ht) ← vmklnx_hashtab_remove_key (ikey x) ht; Some (r, ht).

(** The table of a destroyed hash table is NULL: no bucket can be read. *)
Definition vmklnx_hashtab_remove (ht : hashtab) : hashtab :=
  if decide (table ht = []) then ht else HT (size ht) 0 (order ht) [].

(** ** Sorted buckets *)

Abbreviation klt := (λ x y : item, ikey x < ikey y).

Lemma ss_app (l1 l2 : list item) : StronglySorted klt (l1 ++ l2) <->
  StronglySorted klt l1 /\ StronglySorted klt l2 /\ forall x y, x ∈ l1 -> y ∈ l2 -> ikey x < ikey y.
Proof.
  induction l1 as [|a l1 IH]; cbn [app].
  - split; [|tauto]. intros H. split_and!; [constructor|done|by intros ?? ?%elem_of_nil].
  - split.
    + intros [H1 H2]%StronglySorted_inv. apply IH in H1 as (H11 & H12 & H13).
      rewrite Forall_forall in H2. split_and!; [|done|].
      * constructor; [done|]. apply Forall_forall. intros x Hx. apply H2, elem_of_app; auto.
      * intros x y [->|Hx]%elem_of_cons Hy; [apply H2, elem_of_app; auto|auto].
    + intros (H1 & H2 & H3). apply StronglySorted_inv in H1 as [H11 H12].
      constructor; [apply IH; split_and!; [done..|]; intros; apply H3; [by right|done]|].
      rewrite Forall_forall in *. intros x [Hx|Hx]%elem_of_app; [auto|].
      apply H3; [by left|done].
Qed.

Lemma find_walk_spec key l pos : StronglySorted klt l ->
  match find_walk key l pos with
  | Some q => exists l1 e l2, l = l1 ++ e :: l2 /\ ikey e = key /\ q = (pos + length l1)%nat
  | None => forall e, e ∈ l -> ikey e <> key
  end.
Proof.
  revert pos; induction l as [|a l IH]; intros pos; cbn; [by intros _ ? ?%elem_of_nil|].
  intros [S H]%StronglySorted_inv. rewrite Forall_forall in H. specialize (IH (Datatypes.S pos) S).
  destruct (Z.eqb_spec (ikey a) key) as [E|E]; [exists [], a, l; repeat split; [done|cbn; lia]|].
  destruct (Z.ltb_spec key (ikey a)) as [Hl|Hl].
  - intros e [->|He]%elem_of_cons; [lia|]. specialize (H e He). lia.
  - destruct (find_walk key l _).
    + destruct IH as (l1 & e & l2 & -> & Ek & ->). exists (a :: l1), e, l2. cbn.
      repeat split; [done|lia].
    + intros e [->|He]%elem_of_cons; auto.
Qed.

Lemma insert_walk_spec key l pos parent : StronglySorted klt l ->
  match insert_walk key l pos parent with
  | None => exists e, e ∈ l /\ ikey e = key
  | Some r => exists l1 l2, l = l1 ++ l2 /\
      (forall e, e ∈ l1 -> ikey e < key) /\ (forall e, e ∈ l2 -> key < ikey e) /\
      r = match l1 with [] => parent | _ => Some (pos + length l1 - 1)%nat end
  end.
Proof.
  revert pos parent; induction l as [|a l IH]; intros pos parent; cbn.
  { intros _. exists [], []. split_and!; [done|by intros ? ?%elem_of_nil..|done]. }
  intros [S H]%StronglySorted_inv. rewrite Forall_forall in H.
  specialize (IH (Datatypes.S pos) (Some pos) S).
  destruct (Z.eqb_spec (ikey a) key) as [E|E]; [exists a; split; [by left|done]|].
  destruct (Z.ltb_spec key (ikey a)) as [Hl|Hl].
  - exists [], (a :: l). split_and!; [done|by intros ? ?%elem_of_nil| |done].
    intros e [->|He]%elem_of_cons; [done|]. specialize (H e He). lia.
  - destruct (insert_walk key l _ _) as [r|].
    + destruct IH as (l1 & l2 & -> & H1 & H2 & ->). exists (a :: l1), l2.
      split_and!; [done| |done|destruct l1; cbn; f_equal; lia].
      intros e [->|He]%elem_of_cons; [lia|auto].
    + destruct IH as (e & He & Ee). exists e. split; [by right|done].
Qed.

(** The chain after the insertion that follows the walk. *)
Lemma insert_place x (l1 l2 : list item) :
  match (match l1 with [] => None | _ => Some (0 + length l1 - 1)%nat end) with
  | Some p => hlist_add_after p x (l1 ++ l2)
  | None => hlist_add_head x (l1 ++ l2)
  end = l1 ++ x :: l2.
Proof.
  destruct l1 as [|a l1]; [done|]. unfold hlist_add_after.
  replace (S (0 + length (a :: l1) - 1)) with (length (a :: l1)) by (cbn; lia).
  by rewrite take_app_length, drop_app_length.
Qed.

Lemma hlist_del_place x (l1 l2 : list item) :
  hlist_del (0 + length l1) (l1 ++ x :: l2) = l1 ++ l2.
Proof.
  unfold hlist_del. cbn [Nat.add]. rewrite take_app_length. f_equal.
  rewrite drop_app_ge by lia. by replace (S (length l1) - length l1)%nat with 1%nat by lia.
Qed.

(** ** Specification: a finite map from keys to items *)

Inductive hop := Find (key : Z) | Insert (x : item) | RemoveKey (key : Z) | RemoveItem (x : item).

Definition hkey (op : hop) : Z :=
  match op with Find k | RemoveKey k => k | Insert x | RemoveItem x => ikey x end.

Definition run_hop (op : hop) (ht : hashtab) : option (Z * option item * hashtab) :=
  match op with
  | Find k => '(r, x) ← vmklnx_hashtab_find_item k ht; Some (r, x, ht)
  | Insert x => '(r, ht) ← vmklnx_hashtab_insert_item x ht; Some (r, None, ht)
  | RemoveKey k => vmklnx_hashtab_remove_key k ht
  | RemoveItem x => '(r, ht) ← vmklnx_hashtab_remove_item x ht; Some (r, None, ht)
  end.

Definition code_of (o : option item) : Z := match o with Some _ => 0 | None => - EINVAL end.

Definition abs_hop (op : hop) (m : gmap Z item) : Z * option item * gmap Z item :=
  match op with
  | Find k => (code_of (m !! k), m !! k, m)
  | Insert x =>
      match m !! ikey x with
      | Some _ => (- EINVAL, None, m)
      | None => (0, None, <[ikey x := x]> m)
      end
  | RemoveKey k => (code_of (m !! k), m !! k, delete k m)
  | RemoveItem x => (code_of (m !! ikey x), None, delete (ikey x) m)
  end.

(** A bucket holds the items that hash to it, in strictly increasing key
    order; [count] counts the items (modulo 2^32). *)
Record rep (ht : hashtab) (m : gmap Z item) : Prop := {
  rep_order : 1 <= order ht <= 31;
  rep_length : Z.of_nat (length (table ht)) = 2 ^ order ht;
  rep_count : count ht = u32 (Z.of_nat (base.size m));
  rep_sorted : forall i l, table ht !! i = Some l -> StronglySorted klt l;
  rep_hash : forall i l x, table ht !! i = Some l -> x ∈ l ->
    hash_long (ikey x) (order ht) = Some (Z.of_nat i) /\ m !! ikey x = Some x;
  rep_in : forall k x, m !! k = Some x -> ikey x = k /\
    exists i l, table ht !! i = Some l /\ x ∈ l;
}.

Section refine.
Context (ht : hashtab) (m : gmap Z item) (R : rep ht m).

(** The bucket of a key. *)
Lemma bucket key : 0 <= key < 2 ^ 64 -> exists h l,
  hash_long key (order ht) = Some h /\ 0 <= h < 2 ^ 32 /\ table ht !! Z.to_nat h = Some l /\
  StronglySorted klt l /\ forall x, m !! key = Some x <-> x ∈ l /\ ikey x = key.
Proof.
  intros Hk. pose proof (rep_order _ _ R). pose proof (rep_length _ _ R) as HL.
  destruct (hash_long_lt key (order ht) Hk ltac:(lia)) as (h & E & Hh).
  assert (2 ^ order ht < 2 ^ 32) by (apply Z.pow_lt_mono_r; lia).
  destruct (lookup_lt_is_Some_2 (table ht) (Z.to_nat h)) as [l Hl]; [lia|].
  exists h, l. split_and!; try done; try lia; [by eapply rep_sorted|].
  intros x; split.
  - intros Hx. destruct (rep_in _ _ R key x Hx) as (Ek & i & l' & Hi & Hx').
    destruct (rep_hash _ _ R i l' x Hi Hx') as [E' _]. rewrite Ek, E in E'. injection E' as E'.
    assert (i = Z.to_nat h) as -> by lia. rewrite Hl in Hi. by injection Hi as ->.
  - intros [Hx <-]. by destruct (rep_hash _ _ R _ _ x Hl Hx).
Qed.

(** Replacing the bucket of [key], with the map changed at [key] only. *)
Lemma rep_set key h l l' m' :
  hash_long key (order ht) = Some h -> 0 <= h -> table ht !! Z.to_nat h = Some l ->
  StronglySorted klt l' ->
  (forall x, x ∈ l' -> ikey x <> key -> x ∈ l) ->
  (forall x, x ∈ l -> ikey x <> key -> x ∈ l') ->
  (forall x, x ∈ l' /\ ikey x = key <-> m' !! key = Some x) ->
  (forall k, k <> key -> m' !! k = m !! k) ->
  rep (set_bucket (Z.to_nat h) l' (u32 (Z.of_nat (base.size m'))) ht) m'.
Proof.
  intros E Hh Hl S H1 H2 H3 Hm. pose proof (lookup_lt_Some _ _ _ Hl) as Hlen.
  split; cbn.
  - apply R.
  - rewrite length_insert. apply R.
  - done.
  - intros i b. rewrite list_lookup_insert. case_decide; [by intros [= <-]|]. apply R.
  - intros i b x. rewrite list_lookup_insert. case_decide as Hi.
    + destruct Hi as [<- _]. intros [= <-] Hx. rewrite Z2Nat.id by done.
      destruct (decide (ikey x = key)) as [Ek|Ek]; [rewrite Ek; split; [done|by apply H3]|].
      destruct (rep_hash _ _ R _ _ x Hl (H1 x Hx Ek)) as [Ex Emx].
      rewrite Hm, Emx, Ex by done. split; [f_equal; lia|done].
    + intros Hb Hx. destruct (rep_hash _ _ R _ _ x Hb Hx) as [Ex Emx]. split; [done|].
      rewrite Hm; [done|]. intros Ek. rewrite Ek, E in Ex. injection Ex as Ex.
      apply Hi. split; [lia|done].
  - intros k x Hx. destruct (decide (k = key)) as [->|Hk].
    + apply H3 in Hx as [Hx Ek]. split; [done|]. exists (Z.to_nat h), l'.
      by rewrite list_lookup_insert_eq.
    + rewrite Hm in Hx by done. destruct (rep_in _ _ R k x Hx) as (<- & i & b & Hb & Hxb).
      split; [done|]. destruct (decide (i = Z.to_nat h)) as [->|Hi].
      * exists (Z.to_nat h), l'. rewrite list_lookup_insert_eq by done. split; [done|].
        rewrite Hl in Hb. injection Hb as ->. by apply H2.
      * exists i, b. by rewrite list_lookup_insert_ne.
Qed.

Lemma ss_key_unique l1 (x : item) l2 y :
  StronglySorted klt (l1 ++ x :: l2) -> y ∈ l1 ++ x :: l2 -> ikey y = ikey x -> y = x.
Proof.
  intros (S1 & S2 & S3)%ss_app [Hy|[->|Hy]%elem_of_cons]%elem_of_app E; [|done|].
  - specialize (S3 y x Hy ltac:(by left)). lia.
  - apply StronglySorted_inv in S2 as [_ S2]. rewrite Forall_forall in S2. specialize (S2 y Hy). lia.
Qed.

(** [find_key] locates the item the map has under the key. *)
Lemma find_key_spec key : 0 <= key < 2 ^ 64 -> exists h l,
  hash_long key (order ht) = Some h /\ 0 <= h /\ table ht !! Z.to_nat h = Some l /\
  StronglySorted klt l /\
  match m !! key with
  | Some x => exists l1 l2, l = l1 ++ x :: l2 /\ ikey x = key /\
      vmklnx_hashtab_find_key key ht = Some (Z.to_nat h, Some (0 + length l1)%nat)
  | None => (forall x, x ∈ l -> ikey x <> key) /\
      vmklnx_hashtab_find_key key ht = Some (Z.to_nat h, None)
  end.
Proof.
  intros Hk. destruct (bucket key Hk) as (h & l & E & Hh & Hl & S & B).
  exists h, l. split_and!; try done; [lia|].
  unfold vmklnx_hashtab_find_key. rewrite E; cbn [mbind option_bind].
  rewrite wrap_small, Hl by lia. cbn [mbind option_bind].
  pose proof (find_walk_spec key l 0 S) as W. destruct (find_walk key l 0) as [q|].
  - destruct W as (l1 & e & l2 & -> & Ek & ->).
    assert (m !! key = Some e) as ->.
    { apply B. split; [|done]. apply elem_of_app. right. by left. }
    by exists l1, l2.
  - destruct (m !! key) as [x|] eqn:Ex; [|done].
    destruct (proj1 (B x) eq_refl) as [Hx Ek]. by apply W in Hx.
Qed.

Lemma find_refines key : 0 <= key < 2 ^ 64 ->
  vmklnx_hashtab_find_item key ht = Some (code_of (m !! key), m !! key).
Proof.
  intros Hk. destruct (find_key_spec key Hk) as (h & l & E & Hh & Hl & S & F).
  unfold vmklnx_hashtab_find_item. destruct (m !! key) as [x|].
  - destruct F as (l1 & l2 & -> & Ek & ->). cbn. unfold hlist_entry. rewrite Hl; cbn.
    rewrite lookup_app_r, Nat.sub_diag by lia. done.
  - by destruct F as [_ ->].
Qed.

Lemma insert_refines x : 0 <= ikey x < 2 ^ 64 -> exists ht',
  vmklnx_hashtab_insert_item x ht =
    Some (match m !! ikey x with Some _ => - EINVAL | None => 0 end, ht') /\
  rep ht' (match m !! ikey x with Some _ => m | None => <[ikey x := x]> m end).
Proof.
  intros Hk. destruct (bucket _ Hk) as (h & l & E & Hh & Hl & S & B).
  unfold vmklnx_hashtab_insert_item. rewrite E; cbn [mbind option_bind].
  rewrite wrap_small, Hl by lia. cbn [mbind option_bind].
  pose proof (insert_walk_spec (ikey x) l 0 None S) as W.
  destruct (insert_walk (ikey x) l 0 None) as [r|].
  - destruct W as (l1 & l2 & -> & H1 & H2 & ->). rewrite insert_place.
    destruct (m !! ikey x) as [y|] eqn:Ey.
    { destruct (proj1 (B y) eq_refl) as [[Hy|Hy]%elem_of_app Ek];
        [apply H1 in Hy|apply H2 in Hy]; lia. }
    eexists; split; [done|]. rewrite (rep_count _ _ R), wrap_add_l.
    replace (Z.of_nat (base.size m) + 1) with (Z.of_nat (base.size (<[ikey x := x]> m)))
      by (rewrite map_size_insert_None by done; lia).
    apply (rep_set (ikey x) h (l1 ++ l2)); try done.
    + lia.
    + apply ss_app in S as (S1 & S2 & S3). apply ss_app. split_and!; [done| |].
      * constructor; [done|]. apply Forall_forall. auto.
      * intros a b Ha [->|Hb]%elem_of_cons; auto.
    + intros y [?|[->|?]%elem_of_cons]%elem_of_app Hn; [apply elem_of_app; auto|done|apply elem_of_app; auto].
    + intros y [?|?]%elem_of_app _; apply elem_of_app; [by left|right; by right].
    + intros y. rewrite lookup_insert_eq. split.
      * intros [[Hy|[->|Hy]%elem_of_cons]%elem_of_app Ek]; [apply H1 in Hy; lia|done|apply H2 in Hy; lia].
      * intros [= ->]. split; [|done]. apply elem_of_app. right. by left.
    + intros k Hne. by rewrite lookup_insert_ne.
  - destruct W as (e & He & Ek). assert (m !! ikey x = Some e) as -> by (by apply B).
    by exists ht.
Qed.

Lemma remove_refines key : 0 <= key < 2 ^ 64 -> exists ht',
  vmklnx_hashtab_remove_key key ht = Some (code_of (m !! key), m !! key, ht') /\
  rep ht' (delete key m).
Proof.
  intros Hk. destruct (find_key_spec key Hk) as (h & l & E & Hh & Hl & S & F).
  unfold vmklnx_hashtab_remove_key. destruct (m !! key) as [x|] eqn:Ex.
  - destruct F as (l1 & l2 & -> & Ek & ->). cbn [mbind option_bind].
    unfold hlist_entry. rewrite Hl; cbn [mbind option_bind].
    rewrite lookup_app_r, hlist_del_place by lia.
    replace (0 + length l1 - length l1)%nat with 0%nat by lia. cbn [lookup list_lookup mbind option_bind].
    eexists; split; [done|]. rewrite (rep_count _ _ R), wrap_sub_l.
    assert (Hs : base.size m = Datatypes.S (base.size (delete key m))).
    { rewrite <- (insert_delete_id m key x) at 1 by done.
      apply map_size_insert_None. apply lookup_delete_eq. }
    replace (Z.of_nat (base.size m) - 1) with (Z.of_nat (base.size (delete key m))) by lia.
    apply (rep_set key h (l1 ++ x :: l2)); try done.
    + apply ss_app in S as (S1 & S2 & S3). apply ss_app. apply StronglySorted_inv in S2 as [S2 _].
      split_and!; [done..|]. intros; apply S3; [done|by right].
    + intros y [?|?]%elem_of_app _; apply elem_of_app; [by left|right; by right].
    + intros y [?|[->|?]%elem_of_cons]%elem_of_app Hn; [apply elem_of_app; auto|done|apply elem_of_app; auto].
    + intros y. rewrite lookup_delete_eq. split; [|done]. intros [Hy Ey].
      assert (y = x) as ->.
      { apply (ss_key_unique l1 x l2); [done| |congruence].
        apply elem_of_app in Hy as [?|?]; apply elem_of_app; [by left|right; by right]. }
      exfalso. apply ss_app in S as (S1 & S2 & S3).
      apply elem_of_app in Hy as [Hy|Hy]; [specialize (S3 x x Hy ltac:(by left)); lia|].
      apply StronglySorted_inv in S2 as [_ S2]. rewrite Forall_forall in S2. specialize (S2 x Hy). lia.
    + intros k Hne. by rewrite lookup_delete_ne.
  - destruct F as [_ ->]. cbn. exists ht. split; [done|]. by rewrite delete_id.
Qed.
End refine.

Lemma hop_refines op ht m : rep ht m -> 0 <= hkey op < 2 ^ 64 ->
  let '(r, x, m') := abs_hop op m in
  exists ht', run_hop op ht = Some (r, x, ht') /\ rep ht' m'.
Proof.
  intros R Hk. destruct op as [k|x|k|x]; cbn [hkey abs_hop run_hop] in *.
  - rewrite (find_refines ht m R k Hk). cbn. eauto.
  - destruct (insert_refines ht m R x Hk) as (ht' & -> & R'). cbn.
    destruct (m !! ikey x); eauto.
  - destruct (remove_refines ht m R k Hk) as (ht' & -> & R'). eauto.
  - unfold vmklnx_hashtab_remove_item. destruct (remove_refines ht m R _ Hk) as (ht' & -> & R').
    cbn. eauto.
Qed.

Fixpoint run_hops (ops : list hop) (ht : hashtab) : option (list (Z * option item) * hashtab) :=
  match ops with
  | [] => Some ([], ht)
  | op :: ops =>
      '(r, x, ht) ← run_hop op ht; '(rs, ht) ← run_hops ops ht; Some ((r, x) :: rs, ht)
  end.

Fixpoint abs_hops (ops : list hop) (m : gmap Z item) : list (Z * option item) * gmap Z item :=
  match ops with
  | [] => ([], m)
  | op :: ops =>
      let '(r, x, m) := abs_hop op m in
      let '(rs, m) := abs_hops ops m in ((r, x) :: rs, m)
  end.

Lemma create_rep order : 1 <= order <= 31 -> exists ht,
  vmklnx_hashtab_create order true = (0, Some ht) /\ rep ht ∅.
Proof.
  intros Ho. unfold vmklnx_hashtab_create. rewrite shiftl_mul, Z.mul_1_l by lia.
  assert (0 < 2 ^ order) by (apply Z.pow_pos_nonneg; lia).
  assert (2 ^ order < 2 ^ 32) by (apply Z.pow_lt_mono_r; lia).
  rewrite wrap_small by lia. eexists; split; [done|]. split; cbn; try done.
  - rewrite length_replicate. lia.
  - intros i l [-> _]%lookup_replicate. constructor.
  - intros i l x [-> _]%lookup_replicate. by intros ?%elem_of_nil.
Qed.

(** C20: the hash table implements a finite map from keys to items. After
    [create] with an order from 1 to 31, every sequence of look-ups, insertions
    and removals accesses only buckets and nodes that exist and returns the
    codes and items of the map operations: a duplicate insertion and an absent
    key give [-EINVAL] and change nothing, and [count] is the number of items. *)
Theorem hashtab_refine order ops :
  1 <= order <= 31 -> (forall op, op ∈ ops -> 0 <= hkey op < 2 ^ 64) ->
  exists ht ht', vmklnx_hashtab_create order true = (0, Some ht) /\
    run_hops ops ht = Some ((abs_hops ops ∅).1, ht') /\ rep ht' (abs_hops ops ∅).2.
Proof.
  intros Ho Hk. destruct (create_rep order Ho) as (ht & E & R). exists ht.
  assert (exists ht', run_hops ops ht = Some ((abs_hops ops ∅).1, ht') /\ rep ht' (abs_hops ops ∅).2)
    as (ht' & ? & ?); [|by exists ht'].
  clear E. revert ht R Hk. generalize (∅ : gmap Z item).
  induction ops as [|op ops IH]; intros m ht R Hk; cbn; [by exists ht|].
  pose proof (hop_refines op ht m R (Hk op ltac:(by left))) as H.
  destruct (abs_hop op m) as [[r x] m']. destruct H as (ht1 & -> & R1). cbn.
  destruct (IH m' ht1 R1) as (ht2 & -> & R2); [intros; apply Hk; by right|]. cbn.
  destruct (abs_hops ops m'). eauto.
Qed.

Lemma hashtab_refine_witness :
  exists ht ht', vmklnx_hashtab_create 4 true = (0, Some ht) /\
    run_hops [Insert (Item 1 7); Insert (Item 2 7); Find 7; RemoveKey 9; RemoveKey 7] ht =
      Some ([(0, None); (-22, None); (0, Some (Item 1 7)); (-22, None); (0, Some (Item 1 7))], ht') /\
    rep ht' ∅.
Proof.
  apply (hashtab_refine 4 [Insert (Item 1 7); Insert (Item 2 7); Find 7; RemoveKey 9; RemoveKey 7]);
    [lia|].
  intros op. rewrite !elem_of_cons, elem_of_nil. intros Hop.
  decompose [or] Hop; subst; cbn; lia || done.
Defined.
