(* ===== verification/Notifier.v ===== *)
(** Notifier chains: [vmware/linux_notifier.c].

    A chain is a singly linked list of [notifier_block]s in memory; the
    [struct notifier_block **] cursor of the loops is either the chain's head
    or the [next] field of a block. A pointer to no block makes the operation
    fail, and the loops have as many steps as there are blocks, plus one. *)

From S2P Require Import Prelude.
Local Open Scope Z_scope.

Definition NOTIFY_DONE : Z := 0x0000.
Definition NOTIFY_OK : Z := 0x0001.
Definition NOTIFY_STOP_MASK : Z := 0x8000.
Definition ENOENT : Z := 2.

Record notifier_block := NB { priority : Z; nnext : Z; modID : Z }.
Record chain := CH { nhead : Z; blocks : gmap Z notifier_block }.

(** ** The code *)

Inductive link := Head | NextOf (a : Z).

(** [*nl] and [*nl = v]. *)
Definition load (nl : link) (c : chain) : option Z :=
  match nl with Head => Some (nhead c) | NextOf a => nnext <$> blocks c !! a end.
Definition set_nnext (a v : Z) (c : chain) : option chain :=
  b ← blocks c !! a; Some (CH (nhead c) (<[a := NB (priority b) v (modID b)]> (blocks c))).
Definition store (nl : link) (v : Z) (c : chain) : option chain :=
  match nl with Head => Some (CH v (blocks c)) | NextOf a => set_nnext a v c end.

Definition fuel_of (c : chain) : nat := S (base.size (blocks c)).

Fixpoint register_loop (fuel : nat) (nl : link) (n : Z) (c : chain) : option link :=
  match fuel with
  | O => None
  | S fuel =>
      p ← load nl c;
      if p =? 0 then Some nl else
      bn ← blocks c !! n; bp ← blocks c !! p;
      if priority bp <? priority bn then Some nl else register_loop fuel (NextOf p) n c
  end.

(** [mod_] is what [vmk_ModuleStackTop()] returns. *)
Definition notifier_chain_register (n mod_ : Z) (c : chain) : option (Z * chain) :=
  nl ← register_loop (fuel_of c) Head n c;
  p ← load nl c;
  c ← set_nnext n p c;
  b ← blocks c !! n;
  let c := CH (nhead c) (<[n := NB (priority b) (nnext b) mod_]> (blocks c)) in
  c ← store nl n c;
  Some (0, c).

Fixpoint unregister_loop (fuel : nat) (nl : link) (n : Z) (c : chain) : option (Z * chain) :=
  match fuel with
  | O => None
  | S fuel =>
      p ← load nl c;
      if p =? 0 then Some (- ENOENT, c) else
      if p =? n then b ← blocks c !! n; c ← store nl (nnext b) c; Some (0, c)
      else unregister_loop fuel (NextOf p) n c
  end.

Definition notifier_chain_unregister (n : Z) (c : chain) : option (Z * chain) :=
  unregister_loop (fuel_of c) Head n c.

(** [call nb] is what the callback of [nb] returns; the blocks called are
    listed in order. *)
Fixpoint call_loop (call : Z -> Z) (fuel : nat) (nb ret : Z) (c : chain)
    : option (Z * list Z) :=
  match fuel with
  | O => None
  | S fuel =>
      if nb =? 0 then Some (ret, []) else
      b ← blocks c !! nb;
      let next_nb := nnext b in
      let ret := call nb in
      if Z.land ret NOTIFY_STOP_MASK =? NOTIFY_STOP_MASK then Some (ret, [nb])
      else '(ret, l) ← call_loop call fuel next_nb ret c; Some (ret, nb :: l)
  end.

Definition notifier_call_chain (call : Z -> Z) (c : chain) : option (Z * list Z) :=
  call_loop call (fuel_of c) (nhead c) NOTIFY_DONE c.

(** The locked variants: a chain with its lock is only used through them. *)
Definition atomic_notifier_chain_register := notifier_chain_register.
Definition __atomic_notifier_call_chain (call : Z -> Z) (nr_to_call : Z) := notifier_call_chain call.
Definition atomic_notifier_call_chain (call : Z -> Z) := __atomic_notifier_call_chain call (-1).
Definition blocking_notifier_chain_register := notifier_chain_register.
Definition blocking_notifier_chain_unregister := notifier_chain_unregister.
Definition blocking_notifier_call_chain := notifier_call_chain.

(** ** The list a chain represents *)

(** The blocks from pointer [p] up to the NULL pointer. *)
Fixpoint seg (bs : gmap Z notifier_block) (p : Z) (l : list Z) : Prop :=
  match l with
  | [] => p = 0
  | a :: l => p = a /\ a <> 0 /\ exists b, bs !! a = Some b /\ seg bs (nnext b) l
  end.

Definition chain_is (c : chain) (l : list Z) : Prop := seg (blocks c) (nhead c) l /\ NoDup l.

Definition prio (bs : gmap Z notifier_block) (a : Z) : Z := default 0 (priority <$> bs !! a).

Lemma seg_ext bs bs' p l :
  (forall a, a ∈ l -> nnext <$> bs' !! a = nnext <$> bs !! a) -> seg bs p l -> seg bs' p l.
Proof.
  revert p; induction l as [|a l IH]; intros p E; cbn; [done|].
  intros (-> & Ha & b & Hb & S). split_and!; [done..|].
  specialize (E a ltac:(by left)) as Ea. rewrite Hb in Ea. destruct (bs' !! a) as [b'|]; [|done].
  injection Ea as Ea. exists b'. split; [done|]. rewrite Ea. apply IH; [|done]. intros; apply E; by right.
Qed.

Lemma seg_dom bs p l a : seg bs p l -> a ∈ l -> is_Some (bs !! a) /\ a <> 0.
Proof.
  revert p; induction l as [|x l IH]; intros p; cbn; [by intros _ ?%elem_of_nil|].
  intros (-> & Ha & b & Hb & S) [->|Hl]%elem_of_cons; eauto.
Qed.

Lemma seg_fuel c p l : seg (blocks c) p l -> NoDup l -> (length l < fuel_of c)%nat.
Proof.
  intros S ND. unfold fuel_of. rewrite <- size_dom.
  enough (length l <= base.size (dom (blocks c)))%nat by lia.
  rewrite <- (size_list_to_set (C := gset Z) l ND). apply subseteq_size.
  intros a Ha%elem_of_list_to_set. apply elem_of_dom. by eapply seg_dom.
Qed.

(** The list after pointer cell [nl], and the cells before it. *)
Definition at_link (nl : link) (l1 : list Z) : Prop :=
  match nl with Head => l1 = [] | NextOf a => exists l0, l1 = l0 ++ [a] end.

(** A store to the cell at [nl] replaces the rest of the list. *)
Lemma seg_store c nl l1 l2 v l2' :
  at_link nl l1 -> seg (blocks c) (nhead c) (l1 ++ l2) -> NoDup l1 ->
  (forall a, a ∈ l1 -> a ∉ l2') -> seg (blocks c) v l2' ->
  exists c', store nl v c = Some c' /\ seg (blocks c') (nhead c') (l1 ++ l2') /\
    (forall a, priority <$> blocks c' !! a = priority <$> blocks c !! a).
Proof.
  destruct nl as [|a]; cbn [at_link store].
  - intros -> _ _ _ S. eexists; split; [done|]. done.
  - intros (l0 & ->) S ND Hd Sv. unfold set_nnext.
    assert (exists b, blocks c !! a = Some b) as [b Hb].
    { apply (seg_dom _ _ _ a) in S; [apply S|]. rewrite !elem_of_app, elem_of_cons. tauto. }
    rewrite Hb. eexists; split; [done|]. cbn [blocks nhead]. split.
    + revert S. rewrite <- !app_assoc. cbn [app].
      apply NoDup_app in ND as (_ & ND & _).
      assert (Hl0 : a ∉ l0) by (intros H; apply (ND a H); by left). clear ND.
      assert (Sv' : seg (<[a:=NB (priority b) v (modID b)]> (blocks c)) v l2').
      { eapply seg_ext; [|exact Sv]. intros x Hx. rewrite lookup_insert_ne; [done|].
        intros <-. apply (Hd a); [apply elem_of_app; right; by left|done]. }
      generalize (nhead c). induction l0 as [|x l0 IH]; intros p; cbn [app seg].
      * intros (-> & Ha & _). split_and!; [done..|]. rewrite lookup_insert_eq. eauto.
      * intros (-> & Hx & bx & Hbx & S). split_and!; [done..|].
        apply not_elem_of_cons in Hl0 as [Hne Hl0].
        rewrite lookup_insert_ne by done. exists bx. split; [done|]. apply IH; [|done|done].
        intros y Hy. apply Hd. by right.
    + intros x. rewrite lookup_insert. case_decide; [|done]. subst. by rewrite Hb.
Qed.

Lemma load_link c nl l1 l2 : at_link nl l1 -> seg (blocks c) (nhead c) (l1 ++ l2) ->
  exists p, load nl c = Some p /\ seg (blocks c) p l2.
Proof.
  destruct nl as [|a]; cbn [at_link load]; [intros ->; eauto|]. intros (l0 & ->).
  generalize (nhead c). induction l0 as [|x l0 IH]; intros p; cbn.
  - intros (-> & _ & b & -> & S). eauto.
  - intros (_ & _ & b & _ & S). eauto.
Qed.

Lemma at_link_snoc l1 a : at_link (NextOf a) (l1 ++ [a]).
Proof. by exists l1. Qed.

(** Inserts [n] after the blocks of no smaller priority. *)
Fixpoint insert_prio (pr : Z -> Z) (n : Z) (l : list Z) : list Z :=
  match l with
  | [] => [n]
  | a :: l => if pr a <? pr n then n :: a :: l else a :: insert_prio pr n l
  end.

(** The values returned by the callbacks decide where the chain stops. *)
Fixpoint called (call : Z -> Z) (l : list Z) (ret : Z) : Z * list Z :=
  match l with
  | [] => (ret, [])
  | a :: l =>
      if Z.land (call a) NOTIFY_STOP_MASK =? NOTIFY_STOP_MASK then (call a, [a])
      else let '(r, t) := called call l (call a) in (r, a :: t)
  end.

Section ops.
Context (c : chain).

Lemma register_loop_spec n bn fuel nl l1 l2 :
  blocks c !! n = Some bn -> at_link nl l1 -> seg (blocks c) (nhead c) (l1 ++ l2) ->
  (length l2 < fuel)%nat ->
  exists nl' l21 l22, register_loop fuel nl n c = Some nl' /\ l2 = l21 ++ l22 /\
    at_link nl' (l1 ++ l21) /\ insert_prio (prio (blocks c)) n l2 = l21 ++ n :: l22.
Proof.
  intros Hn. revert nl l1 l2; induction fuel as [|fuel IH]; [lia|]. intros nl l1 l2 Hnl S Hf.
  destruct (load_link c nl l1 l2 Hnl S) as (p & E & Sp). cbn [register_loop].
  rewrite E; cbn [mbind option_bind]. destruct l2 as [|a l2].
  - cbn in Sp. subst. exists nl, [], []. cbn. by rewrite app_nil_r.
  - destruct Sp as (-> & Ha & b & Hb & Sp). rewrite (proj2 (Z.eqb_neq a 0)) by done.
    rewrite Hn, Hb; cbn [mbind option_bind insert_prio].
    assert (prio (blocks c) a = priority b /\ prio (blocks c) n = priority bn) as [-> ->]
      by (unfold prio; by rewrite Hn, Hb).
    destruct (Z.ltb_spec (priority b) (priority bn)).
    + exists nl, [], (a :: l2). cbn. by rewrite app_nil_r.
    + destruct (IH (NextOf a) (l1 ++ [a]) l2) as (nl' & l21 & l22 & E' & -> & L & EI).
      { apply at_link_snoc. }
      { by rewrite <- app_assoc. }
      { cbn in Hf. lia. }
      exists nl', (a :: l21), l22. rewrite <- app_assoc in L. cbn in *. rewrite E', EI. done.
Qed.

Lemma insert_prio_perm pr n l : insert_prio pr n l ≡ₚ n :: l.
Proof.
  induction l as [|a l IH]; cbn; [done|]. case_match; [done|]. rewrite IH. apply Permutation_swap.
Qed.

Lemma register_spec l n m :
  chain_is c l -> is_Some (blocks c !! n) -> n <> 0 -> n ∉ l ->
  exists c', notifier_chain_register n m c = Some (0, c') /\
    chain_is c' (insert_prio (prio (blocks c)) n l) /\
    (forall a, priority <$> blocks c' !! a = priority <$> blocks c !! a).
Proof.
  intros [S ND] [bn Hn] Hn0 Hnl. unfold notifier_chain_register.
  destruct (register_loop_spec n bn (fuel_of c) Head [] l Hn eq_refl S (seg_fuel c _ l S ND))
    as (nl & l1 & l2 & -> & -> & L & EI). cbn [app] in L. cbn [mbind option_bind].
  destruct (load_link c nl l1 l2 L S) as (p & -> & Sp). cbn [mbind option_bind].
  unfold set_nnext. rewrite Hn; cbn [mbind option_bind blocks]. rewrite lookup_insert_eq.
  cbn [mbind option_bind nhead priority nnext modID]. rewrite insert_insert_eq.
  set (c1 := CH (nhead c) _).
  assert (Hc1 : forall a, a <> n -> blocks c1 !! a = blocks c !! a)
    by (intros a Ha; cbn; by rewrite lookup_insert_ne).
  assert (Hout : forall a, a ∈ l1 ++ l2 -> a <> n) by (intros a Ha ->; done).
  destruct (seg_store c1 nl l1 l2 n (n :: l2)) as (c' & E & S' & P).
  - done.
  - eapply seg_ext; [|exact S]. intros a Ha. by rewrite Hc1 by auto.
  - by apply NoDup_app in ND as [? _].
  - intros a Ha [->|Hb]%elem_of_cons; [apply (Hout n); [|done]; by apply elem_of_app; left|].
    apply NoDup_app in ND as (_ & ND & _). by apply (ND a).
  - cbn [seg]. split_and!; [done..|]. cbn. rewrite lookup_insert_eq. eexists; split; [done|]. cbn.
    eapply seg_ext; [|exact Sp]. intros a Ha. rewrite lookup_insert_ne; [done|].
    intros <-. by apply (Hout n); [apply elem_of_app; right|].
  - rewrite E; cbn. eexists; split; [done|]. split; [split|].
    + by rewrite EI.
    + rewrite insert_prio_perm. by apply NoDup_cons.
    + intros a. rewrite P. cbn. destruct (decide (a = n)) as [->|]; [by rewrite lookup_insert_eq, Hn|].
      by rewrite lookup_insert_ne.
Qed.

Lemma unregister_loop_spec n fuel nl l1 l2 :
  at_link nl l1 -> seg (blocks c) (nhead c) (l1 ++ l2) -> NoDup (l1 ++ l2) -> (length l2 < fuel)%nat ->
  n ∉ l1 ->
  exists c', unregister_loop fuel nl n c = Some (if decide (n ∈ l2) then 0 else - ENOENT, c') /\
    seg (blocks c') (nhead c') (l1 ++ filter (λ a, a <> n) l2) /\
    (forall a, priority <$> blocks c' !! a = priority <$> blocks c !! a).
Proof.
  revert nl l1 l2; induction fuel as [|fuel IH]; [lia|]. intros nl l1 l2 Hnl S ND Hf Hn1.
  destruct (load_link c nl l1 l2 Hnl S) as (p & E & Sp). cbn [unregister_loop].
  rewrite E; cbn [mbind option_bind]. destruct l2 as [|a l2].
  - cbn in Sp. subst. cbn. exists c. rewrite decide_False by apply not_elem_of_nil. done.
  - destruct Sp as (-> & Ha & b & Hb & Sp). rewrite (proj2 (Z.eqb_neq a 0)) by done.
    rewrite filter_cons. destruct (Z.eqb_spec a n) as [->|Hne].
    + rewrite Hb; cbn [mbind option_bind]. rewrite (decide_False (P := n <> n)) by auto.
      rewrite decide_True by (by left).
      assert (Hn2 : n ∉ l2).
      { apply NoDup_app in ND as (_ & _ & ND). by apply NoDup_cons in ND as [? _]. }
      rewrite (filter_ne_id n l2) by done.
      destruct (seg_store c nl l1 (n :: l2) (nnext b) l2) as (c' & -> & S' & P); try done.
      * by apply NoDup_app in ND as [? _].
      * intros x Hx Hx2. apply NoDup_app in ND as (_ & ND & _). apply (ND x Hx). by right.
      * cbn. eauto.
    + rewrite (decide_True (P := a <> n)) by done.
      destruct (IH (NextOf a) (l1 ++ [a]) l2) as (c' & -> & S' & P).
      { apply at_link_snoc. }
      { by rewrite <- app_assoc. }
      { by rewrite <- app_assoc. }
      { cbn in Hf. lia. }
      { rewrite elem_of_app, list_elem_of_singleton. intros [?|?]; [done|congruence]. }
      exists c'. rewrite <- app_assoc in S'. split_and!; [|done..].
      do 2 f_equal. apply decide_ext. rewrite elem_of_cons. split; [auto|]. intros [?|?]; congruence.
Qed.

Lemma unregister_spec l n :
  chain_is c l -> exists c',
    notifier_chain_unregister n c = Some (if decide (n ∈ l) then 0 else - ENOENT, c') /\
    chain_is c' (filter (λ a, a <> n) l) /\
    (forall a, priority <$> blocks c' !! a = priority <$> blocks c !! a).
Proof.
  intros [S ND]. unfold notifier_chain_unregister.
  destruct (unregister_loop_spec n (fuel_of c) Head [] l eq_refl S ND (seg_fuel c _ l S ND))
    as (c' & -> & S' & P); [apply not_elem_of_nil|].
  exists c'. split_and!; [done| |done]. split; [done|]. by apply NoDup_filter.
Qed.

Lemma call_loop_spec call fuel p l ret :
  seg (blocks c) p l -> (length l < fuel)%nat ->
  call_loop call fuel p ret c = Some (called call l ret).
Proof.
  revert fuel p ret; induction l as [|a l IH]; intros [|fuel] p ret S Hf; cbn in Hf; try lia.
  - cbn in S. by subst.
  - destruct S as (-> & Ha & b & Hb & S). cbn [call_loop called].
    rewrite (proj2 (Z.eqb_neq a 0)), Hb by done. cbn [mbind option_bind]. case_match; [done|].
    rewrite (IH fuel (nnext b) (call a) S) by lia. cbn. by destruct (called call l (call a)).
Qed.

Lemma call_chain_spec call l :
  chain_is c l -> notifier_call_chain call c = Some (called call l NOTIFY_DONE).
Proof. intros [S ND]. apply call_loop_spec; [done|by eapply seg_fuel]. Qed.
End ops.

(** ** Specification

    The registered blocks are kept in the order of their registration; the
    chain lists them by decreasing priority, and blocks of one priority in
    the order of their registration. *)

Inductive nop := Register (n m : Z) | Unregister (n : Z) | Call (call : Z -> Z).

Definition run_nop (op : nop) (c : chain) : option (Z * list Z * chain) :=
  match op with
  | Register n m => '(r, c) ← blocking_notifier_chain_register n m c; Some (r, [], c)
  | Unregister n => '(r, c) ← blocking_notifier_chain_unregister n c; Some (r, [], c)
  | Call f => '(r, l) ← blocking_notifier_call_chain f c; Some (r, l, c)
  end.

Section spec.
Context (pr : Z -> Z).

(** The chain of the blocks [regs], by priority and registration order. *)
Definition by_priority (regs l : list Z) : Prop :=
  (forall p, filter (λ a, pr a = p) l = filter (λ a, pr a = p) regs) /\
  forall i j a b, l !! i = Some a -> l !! j = Some b -> (i < j)%nat -> pr b <= pr a.

Definition nop_pre (dom : gset Z) (op : nop) (regs : list Z) : Prop :=
  match op with Register n _ => n ∈ dom /\ n <> 0 /\ n ∉ regs | _ => True end.

Definition abs_nop (op : nop) (regs : list Z) : list Z :=
  match op with
  | Register n _ => regs ++ [n]
  | Unregister n => filter (λ a, a <> n) regs
  | Call _ => regs
  end.

(** The result: a call runs some chain of the registered blocks in priority
    order, up to the first callback that stops it. *)
Definition nop_ret (op : nop) (regs : list Z) (r : Z) (l : list Z) : Prop :=
  match op with
  | Register _ _ => r = 0 /\ l = []
  | Unregister n => r = (if decide (n ∈ regs) then 0 else - ENOENT) /\ l = []
  | Call f => exists ch, by_priority regs ch /\ (r, l) = called f ch NOTIFY_DONE
  end.

Lemma by_priority_in regs l a : by_priority regs l -> a ∈ l <-> a ∈ regs.
Proof.
  intros [F _]. specialize (F (pr a)).
  assert (forall l', a ∈ l' <-> a ∈ filter (λ x, pr x = pr a) l') as H
    by (intros; rewrite list_elem_of_filter; tauto).
  by rewrite (H l), (H regs), F.
Qed.

Lemma filter_insert_prio p n l :
  filter (λ a, pr a = p) (insert_prio pr n l) =
  filter (λ a, pr a = p) l ++ (if decide (pr n = p) then [n] else []) \/
  exists i a, l !! i = Some a /\ exists j b, (i < j)%nat /\ l !! j = Some b /\ pr a < pr b.
Proof.
  induction l as [|a l IH]; cbn [insert_prio].
  - left. rewrite filter_cons. done.
  - destruct (Z.ltb_spec (pr a) (pr n)) as [Hlt|Hge].
    + rewrite filter_cons. case_decide as E; [|left; by rewrite app_nil_r].
      destruct (filter (λ a, pr a = p) (a :: l)) as [|b t] eqn:Ef; [by left|right].
      assert (Hb : b ∈ filter (λ a, pr a = p) (a :: l)) by (rewrite Ef; by left).
      apply list_elem_of_filter in Hb as [Eb [->|Hb]%elem_of_cons]; [lia|].
      exists 0%nat, a. split; [done|]. apply list_elem_of_lookup in Hb as [j Hj].
      exists (S j), b. split; [lia|]. split; [done|lia].
    + destruct IH as [IH|(i & x & Hi & j & y & Hij & Hj & Hxy)].
      * left. rewrite !filter_cons, IH. by destruct (decide (pr a = p)).
      * right. exists (S i), x. split; [done|]. exists (S j), y. split; [lia|done].
Qed.

Lemma insert_prio_head n l a :
  insert_prio pr n l !! 0%nat = Some a -> a = n \/ l !! 0%nat = Some a /\ pr n <= pr a.
Proof.
  destruct l as [|x l]; cbn; [intros [= ->]; by left|].
  destruct (Z.ltb_spec (pr x) (pr n)); cbn; intros [= ->]; [by left|by right].
Qed.

Lemma sorted_insert_prio n l :
  (forall i j a b, l !! i = Some a -> l !! j = Some b -> (i < j)%nat -> pr b <= pr a) ->
  forall i j a b, insert_prio pr n l !! i = Some a -> insert_prio pr n l !! j = Some b ->
  (i < j)%nat -> pr b <= pr a.
Proof.
  induction l as [|x l IH]; intros Hs; cbn [insert_prio].
  - intros [|i] [|j] a b; cbn; try lia; done.
  - destruct (Z.ltb_spec (pr x) (pr n)) as [Hlt|Hge].
    + intros [|i] [|j] a b; cbn; try lia.
      * intros [= <-] Hj _. destruct j as [|j]; [injection Hj as <-; lia|].
        specialize (Hs 0%nat (S j) x b eq_refl Hj ltac:(lia)). lia.
      * intros Hi Hj Hij. apply (Hs i j); [done..|lia].
    + intros [|i] [|j] a b; cbn; try lia.
      * intros [= <-] Hj _. apply list_elem_of_lookup_2 in Hj.
        rewrite insert_prio_perm in Hj. apply elem_of_cons in Hj as [->|Hj]; [done|].
        apply list_elem_of_lookup in Hj as [k Hk].
        by apply (Hs 0%nat (S k) x b eq_refl Hk ltac:(lia)).
      * intros Hi Hj Hij. apply (IH ltac:(intros i' j' ?? Hi' Hj' ?;
          by apply (Hs (S i') (S j') _ _ Hi' Hj' ltac:(lia))) i j); [done..|lia].
Qed.

Lemma by_priority_insert regs l n :
  by_priority regs l -> by_priority (regs ++ [n]) (insert_prio pr n l).
Proof.
  intros [F S]. split; [|by apply sorted_insert_prio]. intros p.
  destruct (filter_insert_prio p n l) as [->|(i & a & Hi & j & b & Hij & Hj & Hab)].
  - rewrite filter_app, F, filter_cons. done.
  - specialize (S i j a b Hi Hj Hij). lia.
Qed.

Lemma filter_lookup_pairs (n : Z) (l : list Z) i j a b :
  filter (λ x, x <> n) l !! i = Some a -> filter (λ x, x <> n) l !! j = Some b -> (i < j)%nat ->
  exists i' j', l !! i' = Some a /\ l !! j' = Some b /\ (i' < j')%nat.
Proof.
  revert i j; induction l as [|x l IH]; intros i j; [done|]. rewrite filter_cons. case_decide.
  - destruct i as [|i], j as [|j]; cbn; try lia.
    + intros [= <-] Hj _. apply list_elem_of_lookup_2, list_elem_of_filter in Hj as [_ Hj].
      apply list_elem_of_lookup in Hj as [k Hk]. exists 0%nat, (S k). split_and!; [done..|lia].
    + intros Hi Hj Hij. destruct (IH i j Hi Hj ltac:(lia)) as (i' & j' & ? & ? & ?).
      exists (S i'), (S j'). split_and!; [done..|lia].
  - intros Hi Hj Hij. destruct (IH i j Hi Hj Hij) as (i' & j' & ? & ? & ?).
    exists (S i'), (S j'). split_and!; [done..|lia].
Qed.

Lemma filter_comm_ne p n (l : list Z) :
  filter (λ a, pr a = p) (filter (λ a, a <> n) l) = filter (λ a, a <> n) (filter (λ a, pr a = p) l).
Proof. rewrite !list_filter_filter. apply list_filter_iff. tauto. Qed.

Lemma by_priority_remove regs l n :
  by_priority regs l -> by_priority (filter (λ a, a <> n) regs) (filter (λ a, a <> n) l).
Proof.
  intros [F S]. split.
  - intros p. by rewrite (filter_comm_ne p n l), F, <- filter_comm_ne.
  - intros i j a b Hi Hj Hij. destruct (filter_lookup_pairs n l i j a b Hi Hj Hij) as (i' & j' & ? & ? & ?).
    by apply (S i' j').
Qed.

Context (dom : gset Z).

(** [c] holds the blocks of [dom], with priorities [pr], and the chain of [regs]. *)
Definition chain_rep (c : chain) (regs : list Z) : Prop :=
  (forall a, a ∈ dom <-> is_Some (blocks c !! a)) /\
  (forall a, prio (blocks c) a = pr a) /\
  exists l, chain_is c l /\ by_priority regs l.

Lemma insert_prio_ext pr' n l : (forall a, pr' a = pr a) -> insert_prio pr' n l = insert_prio pr n l.
Proof. intros E. induction l as [|a l IH]; cbn; [done|]. by rewrite !E, IH. Qed.

Lemma chain_rep_step c c' regs' l' :
  (forall a, priority <$> blocks c' !! a = priority <$> blocks c !! a) ->
  (forall a, a ∈ dom <-> is_Some (blocks c !! a)) -> (forall a, prio (blocks c) a = pr a) ->
  chain_is c' l' -> by_priority regs' l' -> chain_rep c' regs'.
Proof.
  intros E D P C B. split_and!; [|intros a; unfold prio; rewrite E; apply P|by exists l'].
  intros a. rewrite D, <- (fmap_is_Some priority), <- E, fmap_is_Some. done.
Qed.

Lemma nop_refines op c regs :
  chain_rep c regs -> nop_pre dom op regs ->
  exists r l c', run_nop op c = Some (r, l, c') /\ nop_ret op regs r l /\ chain_rep c' (abs_nop op regs).
Proof.
  intros (D & P & l & C & B) Pre. destruct op as [n m|n|f]; cbn [nop_pre run_nop nop_ret abs_nop] in *.
  - destruct Pre as (Hn & Hn0 & Hnr).
    destruct (register_spec c l n m C) as (c' & E & C' & EP); [by apply D|done|by rewrite (by_priority_in regs)|].
    unfold blocking_notifier_chain_register. rewrite E; cbn. do 3 eexists; split; [done|]. split; [done|].
    rewrite (insert_prio_ext (prio (blocks c))) in C' by done.
    eapply chain_rep_step; [done..|]. by apply by_priority_insert.
  - destruct (unregister_spec c l n C) as (c' & E & C' & EP).
    unfold blocking_notifier_chain_unregister. rewrite E; cbn. do 3 eexists; split; [done|].
    split; [split; [|done]; apply decide_ext; by apply by_priority_in|].
    eapply chain_rep_step; [done..|]. by apply by_priority_remove.
  - unfold blocking_notifier_call_chain. rewrite (call_chain_spec c f l C); cbn.
    destruct (called f l NOTIFY_DONE) as [r ls] eqn:Ec. do 3 eexists; split; [done|].
    split; [by exists l|]. split_and!; [done..|by exists l].
Qed.

Fixpoint run_nops (ops : list nop) (c : chain) : option (list (Z * list Z) * chain) :=
  match ops with
  | [] => Some ([], c)
  | op :: ops => '(r, l, c) ← run_nop op c; '(rs, c) ← run_nops ops c; Some ((r, l) :: rs, c)
  end.

Fixpoint nops_ok (ops : list nop) (regs : list Z) (rs : list (Z * list Z)) (final : list Z) : Prop :=
  match ops, rs with
  | [], [] => final = regs
  | op :: ops, (r, l) :: rs => nop_ret op regs r l /\ nops_ok ops (abs_nop op regs) rs final
  | _, _ => False
  end.

Fixpoint nops_pre (ops : list nop) (regs : list Z) : Prop :=
  match ops with
  | [] => True
  | op :: ops => nop_pre dom op regs /\ nops_pre ops (abs_nop op regs)
  end.

(** C34: notifier chains run their blocks by priority. Registrations,
    removals and calls on a chain never fault and terminate; a call runs the
    registered blocks in order of decreasing priority, those of one priority in
    the order of their registration, passes every block exactly once until one
    returns a value with [NOTIFY_STOP_MASK], and returns the last value;
    removing a block that is not registered gives [-ENOENT] and changes nothing. *)
Theorem notifier_refine ops c regs :
  chain_rep c regs -> nops_pre ops regs ->
  exists rs c' final, run_nops ops c = Some (rs, c') /\ nops_ok ops regs rs final /\ chain_rep c' final.
Proof.
  revert c regs; induction ops as [|op ops IH]; intros c regs R P; cbn.
  - by exists [], c, regs.
  - destruct P as [P Ps]. destruct (nop_refines op c regs R P) as (r & l & c1 & -> & Hr & R1).
    destruct (IH c1 _ R1 Ps) as (rs & c2 & final & E & Hrs & R2). cbn. rewrite E. cbn.
    exists ((r, l) :: rs), c2, final. done.
Qed.
End spec.

Definition sample_blocks : gmap Z notifier_block := {[10 := NB 0 0 0; 20 := NB 5 0 0; 30 := NB 0 0 0]}.

Lemma notifier_refine_witness : exists rs c' final,
  run_nops [Register 10 1; Register 20 1; Register 30 1; Call (fun a => if a =? 10 then 0x8001 else 1);
            Unregister 10; Unregister 10] (CH 0 sample_blocks) = Some (rs, c') /\
  rs = [(0, []); (0, []); (0, []); (0x8001, [20; 10]); (0, []); (-2, [])] /\
  chain_rep (prio sample_blocks) {[10; 20; 30]} c' final.
Proof.
  destruct (notifier_refine (prio sample_blocks) {[10; 20; 30]}
    [Register 10 1; Register 20 1; Register 30 1; Call (fun a => if a =? 10 then 0x8001 else 1);
     Unregister 10; Unregister 10] (CH 0 sample_blocks) []) as (rs & c' & final & E & Hrs & R).
  - split_and!; [|done|exists []; split; [by split; [|constructor]|by split]].
    intros a. cbn. rewrite <- elem_of_dom. unfold sample_blocks. set_solver.
  - cbn. repeat split; try done; set_solver.
  - exists rs, c', final. split; [done|]. split; [|done]. vm_compute in E. by injection E as <- _.
Defined.
