(* ===== verification/Rcu.v ===== *)
(** Per-module read-copy update: [vmware/linux_rcu.c] and the read-side
    functions of [include/linux/rcupdate.h].

    Any number of threads run the code concurrently. A thread's program
    counter is the instruction it executes next; the instructions that touch
    shared state one after the other under no lock are separate steps. Readers
    and callbacks are named by numbers. *)

From S2P Require Import Prelude.
Local Open Scope Z_scope.

Definition rcu_batch_before (a b : Z) : bool := s64 (a - b) <? 0.

(** ** Program counters *)

Inductive pc :=
| Idle
| Acquire (k : pc)        (* spin_lock_irqsave(&rdp->lock), then [k] *)
| Release (k : pc)        (* spin_unlock_irqrestore(&rdp->lock), then [k] *)
| Inc (k : pc)            (* atomic64_inc(&rdp->generation) *)
| Enqueue (a : Z)         (* call_rcu: sample the generation, append, ++qLen *)
| CallTest                (* call_rcu: the test of nestingLevel *)
| Sched                   (* tasklet_schedule(rdp->callback) *)
| Arm                     (* mod_timer(rdp->delayTimer, ...) *)
| ReadLen                 (* rcu_read_unlock: the test of qLen *)
| ReadTest                (* rcu_read_unlock: nestingLevel again, locked *)
| TimerTest               (* vmklnx_rcu_delay_timer: the test of nestingLevel *)
| LoopCheck               (* vmklnx_rcu_callback: the head of the list *)
| LoopCall (a : Z)        (* first->func(first) *)
| LoopDone.               (* ++rdp->completed *)

Definition call_rcu_entry (a : Z) : pc := Acquire (Enqueue a).
Definition delay_timer_entry : pc := Acquire TimerTest.
Definition callback_entry : pc := Acquire LoopCheck.

Record rcu := RCU {
  nestingLevel : Z;
  generation : Z;
  nxtlist : list (Z * Z);       (* callback and its generation *)
  qLen : Z;
  completed : Z;
  tasklet : bool;               (* the tasklet is scheduled *)
  timer : bool;                 (* the delay timer is pending *)
  lock : option nat;
  pcs : nat -> pc;
  (* history *)
  active : gset Z;              (* readers in a critical section *)
  seen : gset Z;                (* readers that ever entered one *)
  waits : gmap Z (gset Z);      (* readers active when call_rcu was called *)
  queued : list Z;              (* callbacks in the order of their queueing *)
  popped : list Z;
  invoked : list Z;
}.

Definition set_pc (t : nat) (p : pc) (s : rcu) : rcu :=
  RCU (nestingLevel s) (generation s) (nxtlist s) (qLen s) (completed s) (tasklet s) (timer s)
    (lock s) (fun u => if decide (u = t) then p else pcs s u)
    (active s) (seen s) (waits s) (queued s) (popped s) (invoked s).
Definition set_lock (l : option nat) (s : rcu) : rcu :=
  RCU (nestingLevel s) (generation s) (nxtlist s) (qLen s) (completed s) (tasklet s) (timer s)
    l (pcs s) (active s) (seen s) (waits s) (queued s) (popped s) (invoked s).
Definition set_work (k r : bool) (s : rcu) : rcu :=
  RCU (nestingLevel s) (generation s) (nxtlist s) (qLen s) (completed s) k r
    (lock s) (pcs s) (active s) (seen s) (waits s) (queued s) (popped s) (invoked s).
Definition set_generation (g : Z) (s : rcu) : rcu :=
  RCU (nestingLevel s) g (nxtlist s) (qLen s) (completed s) (tasklet s) (timer s)
    (lock s) (pcs s) (active s) (seen s) (waits s) (queued s) (popped s) (invoked s).
Definition set_readers (n : Z) (a z : gset Z) (s : rcu) : rcu :=
  RCU n (generation s) (nxtlist s) (qLen s) (completed s) (tasklet s) (timer s)
    (lock s) (pcs s) a z (waits s) (queued s) (popped s) (invoked s).
Definition set_waits (w : gmap Z (gset Z)) (s : rcu) : rcu :=
  RCU (nestingLevel s) (generation s) (nxtlist s) (qLen s) (completed s) (tasklet s) (timer s)
    (lock s) (pcs s) (active s) (seen s) w (queued s) (popped s) (invoked s).
Definition set_queue (l : list (Z * Z)) (n : Z) (q p : list Z) (s : rcu) : rcu :=
  RCU (nestingLevel s) (generation s) l n (completed s) (tasklet s) (timer s)
    (lock s) (pcs s) (active s) (seen s) (waits s) q p (invoked s).
Definition set_invoked (i : list Z) (s : rcu) : rcu :=
  RCU (nestingLevel s) (generation s) (nxtlist s) (qLen s) (completed s) (tasklet s) (timer s)
    (lock s) (pcs s) (active s) (seen s) (waits s) (queued s) (popped s) i.
Definition set_completed (c : Z) (s : rcu) : rcu :=
  RCU (nestingLevel s) (generation s) (nxtlist s) (qLen s) c (tasklet s) (timer s)
    (lock s) (pcs s) (active s) (seen s) (waits s) (queued s) (popped s) (invoked s).

(** The state of [vmklnx_rcu_init]. *)
Definition vmklnx_rcu_init : rcu :=
  RCU 0 0 [] 0 0 false false None (fun _ => Idle) ∅ ∅ ∅ [] [] [].

(** ** One instruction of thread [t] *)

Definition vmklnx_call_rcu (t : nat) (p : pc) (s : rcu) : option rcu :=
  match p with
  | Enqueue a =>
      Some (set_pc t CallTest
        (set_queue (nxtlist s ++ [(a, generation s)]) (s64 (qLen s + 1)) (queued s ++ [a]) (popped s) s))
  | CallTest =>
      Some (set_pc t (if nestingLevel s =? 0 then Inc (Release Sched) else Release Arm) s)
  | _ => None
  end.

Definition vmklnx_rcu_delay_timer (t : nat) (p : pc) (s : rcu) : option rcu :=
  match p with
  | TimerTest =>
      Some (set_pc t (if nestingLevel s =? 0 then Inc (Release callback_entry) else Release Arm) s)
  | _ => None
  end.

Definition vmklnx_rcu_callback (t : nat) (p : pc) (s : rcu) : option rcu :=
  match p with
  | LoopCheck =>
      match nxtlist s with
      | [] => Some (set_pc t LoopDone s)
      | (a, g) :: rest =>
          if rcu_batch_before g (generation s) then
            Some (set_pc t (Release (LoopCall a))
              (set_queue rest (s64 (qLen s - 1)) (queued s) (popped s ++ [a]) s))
          else Some (set_pc t LoopDone s)
      end
  | LoopCall a => Some (set_pc t callback_entry (set_invoked (invoked s ++ [a]) s))
  | LoopDone => Some (set_pc t (Release Idle) (set_completed (s64 (completed s + 1)) s))
  | _ => None
  end.

Definition vmklnx_rcu_read_unlock (t : nat) (p : pc) (s : rcu) : option rcu :=
  match p with
  | ReadLen => Some (set_pc t (if 0 <? qLen s then Acquire ReadTest else Idle) s)
  | ReadTest =>
      Some (set_pc t (if nestingLevel s =? 0 then Inc (Release Idle) else Release Idle) s)
  | _ => None
  end.

Definition run (t : nat) (s : rcu) : option rcu :=
  match pcs s t with
  | Idle => None
  | Acquire k => match lock s with None => Some (set_pc t k (set_lock (Some t) s)) | Some _ => None end
  | Release k => Some (set_pc t k (set_lock None s))
  | Inc k => Some (set_pc t k (set_generation (s64 (generation s + 1)) s))
  | Sched => Some (set_pc t Idle (set_work true (timer s) s))
  | Arm => Some (set_pc t Idle (set_work (tasklet s) true s))
  | (Enqueue _ | CallTest) as p => vmklnx_call_rcu t p s
  | TimerTest => vmklnx_rcu_delay_timer t TimerTest s
  | (LoopCheck | LoopCall _ | LoopDone) as p => vmklnx_rcu_callback t p s
  | (ReadLen | ReadTest) as p => vmklnx_rcu_read_unlock t p s
  end.

(** ** The actions of the system *)

Inductive act :=
| ReadLock (r : Z)                (* rcu_read_lock *)
| ReadUnlock (t : nat) (r : Z)    (* rcu_read_unlock: the atomic decrement *)
| CallRcu (t : nat) (a : Z)
| FireTasklet (t : nat)
| FireTimer (t : nat)
| Run (t : nat).

Definition is_idle (p : pc) : bool := match p with Idle => true | _ => false end.

Definition vmklnx_rcu_read_lock (r : Z) (s : rcu) : rcu :=
  set_readers (s64 (nestingLevel s + 1)) ({[r]} ∪ active s) ({[r]} ∪ seen s) s.

(** A reader has a fresh name; a callback is queued once; handlers run on a
    free thread. *)
Definition step (x : act) (s : rcu) : option rcu :=
  match x with
  | ReadLock r => if bool_decide (r ∈ seen s) then None else Some (vmklnx_rcu_read_lock r s)
  | ReadUnlock t r =>
      if is_idle (pcs s t) && bool_decide (r ∈ active s) then
        let n := s64 (nestingLevel s - 1) in
        Some (set_pc t (if n =? 0 then ReadLen else Idle)
          (set_readers n (active s ∖ {[r]}) (seen s) s))
      else None
  | CallRcu t a =>
      if is_idle (pcs s t) && negb (bool_decide (a ∈ dom (waits s))) then
        Some (set_pc t (call_rcu_entry a) (set_waits (<[a := active s]> (waits s)) s))
      else None
  | FireTasklet t =>
      if is_idle (pcs s t) && tasklet s then
        Some (set_pc t callback_entry (set_work false (timer s) s))
      else None
  | FireTimer t =>
      if is_idle (pcs s t) && timer s then
        Some (set_pc t delay_timer_entry (set_work (tasklet s) false s))
      else None
  | Run t => run t s
  end.

Fixpoint steps (xs : list act) (s : rcu) : option rcu :=
  match xs with
  | [] => Some s
  | x :: xs => s ← step x s; steps xs s
  end.

(** [vmklnx_rcu_cleanup], which runs alone: the generation is pushed forward
    and the callback routine is called when the queue is not empty. *)
Fixpoint run_alone (fuel : nat) (t : nat) (s : rcu) : option rcu :=
  if is_idle (pcs s t) then Some s else
  match fuel with
  | O => None
  | S fuel => s ← run t s; run_alone fuel t s
  end.

Definition vmklnx_rcu_cleanup (fuel t : nat) (s : rcu) : option rcu :=
  let s := set_generation (s64 (generation s + 1)) s in
  s ← (if 0 <? qLen s then run_alone fuel t (set_pc t callback_entry s) else Some s);
  Some (set_work false false s).

(** ** Invariant *)

(** The program counters the code reaches. *)
Definition wfpc (p : pc) : Prop :=
  match p with
  | Idle | Enqueue _ | CallTest | Sched | Arm | ReadLen | ReadTest | TimerTest
  | LoopCheck | LoopCall _ | LoopDone => True
  | Acquire (Enqueue _ | ReadTest | TimerTest | LoopCheck) => True
  | Release (Sched | Idle | Arm | Acquire LoopCheck | LoopCall _) => True
  | Inc (Release (Sched | Idle | Acquire LoopCheck)) => True
  | _ => False
  end.

Definition holds (p : pc) : bool :=
  match p with
  | Release _ | Inc _ | Enqueue _ | CallTest | ReadTest | TimerTest | LoopCheck | LoopDone => true
  | _ => false
  end.

Definition is_inc (p : pc) : bool := match p with Inc _ => true | _ => false end.

(** The callback a thread has taken off the list and not yet called. *)
Definition in_flight (p : pc) : option Z :=
  match p with Release (LoopCall a) | LoopCall a => Some a | _ => None end.

(** The callback a thread is about to queue. *)
Definition incoming (p : pc) : option Z :=
  match p with Acquire (Enqueue a) | Enqueue a => Some a | _ => None end.

(** The program counters that lead to another look at the queue, and those
    that do so after the generation is pushed or the timer armed. *)
Definition late_trigger (p : pc) : bool :=
  match p with
  | CallTest | Inc (Release Sched) | Inc (Release (Acquire LoopCheck))
  | Release Arm | Arm | Acquire TimerTest | TimerTest => true
  | _ => false
  end.
Definition trigger (p : pc) : bool :=
  late_trigger p ||
  match p with
  | Release Sched | Sched | Release (Acquire LoopCheck) | Acquire LoopCheck | LoopCheck
  | Release (LoopCall _) | LoopCall _ => true
  | _ => false
  end.

Record inv (n : Z) (s : rcu) : Prop := {
  inv_gen : 0 <= generation s <= n;
  inv_nest : nestingLevel s = Z.of_nat (size (active s)) /\ nestingLevel s <= n;
  inv_qlen : qLen s = Z.of_nat (length (nxtlist s)) /\ qLen s <= n;
  inv_wf : forall t, wfpc (pcs s t);
  inv_lock : forall t, holds (pcs s t) = true <-> lock s = Some t;
  inv_seen : active s ⊆ seen s /\ forall a w, waits s !! a = Some w -> w ⊆ seen s;
  inv_ages : forall a g, (a, g) ∈ nxtlist s -> 0 <= g <= generation s /\
    exists w, waits s !! a = Some w /\ (g < generation s -> w ## active s);
  inv_inc : forall t a g, is_inc (pcs s t) = true -> (a, g) ∈ nxtlist s ->
    forall w, waits s !! a = Some w -> w ## active s;
  inv_popped : forall a, a ∈ popped s -> exists w, waits s !! a = Some w /\ w ## active s;
  inv_order : queued s = popped s ++ (nxtlist s).*1 /\ NoDup (queued s);
  inv_incoming : forall t a, incoming (pcs s t) = Some a ->
    is_Some (waits s !! a) /\ a ∉ queued s;
  inv_incoming_one : forall t u a, incoming (pcs s t) = Some a -> incoming (pcs s u) = Some a -> t = u;
  inv_flight : forall t a, in_flight (pcs s t) = Some a -> a ∈ popped s /\ a ∉ invoked s;
  inv_flight_one : forall t u a, in_flight (pcs s t) = Some a -> in_flight (pcs s u) = Some a -> t = u;
  inv_invoked : NoDup (invoked s) /\ forall a, a ∈ popped s <->
    a ∈ invoked s \/ exists t, in_flight (pcs s t) = Some a;
  inv_late : forall a, (a, generation s) ∈ nxtlist s ->
    timer s = true \/ exists t, late_trigger (pcs s t) = true;
  inv_work : nxtlist s <> [] ->
    timer s = true \/ tasklet s = true \/ exists t, trigger (pcs s t) = true;
}.

(** ** Changing one thread's program counter *)

Abbreviation upd t p f := (fun u : nat => if decide (u = t) then p else f u).

Ltac upd_case := cbv beta in *; case_decide.

Section upd.
Context (f : nat -> pc) (t : nat) (p : pc).
Implicit Type P : pc -> bool.

Lemma upd_all (P : pc -> Prop) : (forall u, P (f u)) -> P p -> forall u, P (upd t p f u).
Proof. intros H Hp u. by upd_case. Qed.

Lemma upd_ex P : (exists u, P (f u) = true) -> (P (f t) = true -> P p = true) ->
  exists u, P (upd t p f u) = true.
Proof.
  intros [u Hu] Hp. exists u. upd_case; [subst; auto|done].
Qed.

Lemma upd_at P : P p = true -> exists u, P (upd t p f u) = true.
Proof. intros E. exists t. cbv beta. by rewrite decide_True. Qed.

Lemma upd_lock_keep l : (forall u, holds (f u) = true <-> l = Some u) -> holds p = holds (f t) ->
  forall u, holds (upd t p f u) = true <-> l = Some u.
Proof. intros H E u. upd_case; [subst; rewrite E|]; apply H. Qed.

Lemma upd_lock_take l : (forall u, holds (f u) = true <-> l = Some u) -> l = None -> holds p = true ->
  forall u, holds (upd t p f u) = true <-> Some t = Some u.
Proof.
  intros H -> E u. upd_case; [by subst|]. rewrite H. split; [done|]. intros [= ->]. done.
Qed.

Lemma upd_lock_drop l : (forall u, holds (f u) = true <-> l = Some u) -> holds (f t) = true ->
  holds p = false -> forall u, holds (upd t p f u) = true <-> None = Some u.
Proof.
  intros H Ht E u. upd_case; [subst; rewrite E; by split|]. rewrite H.
  apply H in Ht. rewrite Ht. split; [intros [= ->]|]; done.
Qed.

Lemma upd_view {A} (g : pc -> option A) (Q : A -> Prop) :
  (forall u a, g (f u) = Some a -> Q a) -> (forall a, g p = Some a -> Q a) ->
  forall u a, g (upd t p f u) = Some a -> Q a.
Proof. intros H Hp u a. upd_case; eauto. Qed.

Lemma upd_one {A} (g : pc -> option A) :
  (forall u v a, g (f u) = Some a -> g (f v) = Some a -> u = v) ->
  (forall a u, g p = Some a -> g (f u) = Some a -> u = t) ->
  forall u v a, g (upd t p f u) = Some a -> g (upd t p f v) = Some a -> u = v.
Proof. intros H Hp u v a. repeat upd_case; subst; eauto. intros. symmetry. eauto. Qed.

(** The callbacks in flight, as a set. *)
Lemma upd_flight_same a : in_flight p = in_flight (f t) ->
  (exists u, in_flight (upd t p f u) = Some a) <-> (exists u, in_flight (f u) = Some a).
Proof.
  intros E. split; intros [u Hu]; exists u; upd_case; subst; congruence.
Qed.
End upd.

(** A change of the program counter of [t] alone, and of the trigger flags. *)
Section moves.
Context (n : Z) (s : rcu) (I : inv n s) (t : nat) (p : pc) (l : option nat) (k r : bool).

Lemma inv_move :
  wfpc p -> (forall u, holds (upd t p (pcs s) u) = true <-> l = Some u) ->
  in_flight p = in_flight (pcs s t) ->
  incoming p = incoming (pcs s t) ->
  (is_inc p = true -> forall a g w, (a, g) ∈ nxtlist s -> waits s !! a = Some w -> w ## active s) ->
  (forall a, (a, generation s) ∈ nxtlist s -> timer s = true \/ late_trigger (pcs s t) = true ->
     r = true \/ late_trigger p = true) ->
  (nxtlist s <> [] -> timer s = true \/ tasklet s = true \/ trigger (pcs s t) = true ->
     (r = true \/ k = true \/ trigger p = true) \/
     (exists a, (a, generation s) ∈ nxtlist s)) ->
  inv n (set_pc t p (set_work k r (set_lock l s))).
Proof.
  intros Hw Hh Hf Hi Hinc Hl Ht. destruct I.
  assert (late : forall a, (a, generation s) ∈ nxtlist s ->
    r = true \/ exists u, late_trigger (upd t p (pcs s) u) = true).
  { intros a Ha. destruct (inv_late0 a Ha) as [E|[u E]].
    - destruct (Hl a Ha) as [?|?]; [by left|by left|right; by apply upd_at].
    - destruct (decide (u = t)) as [->|Hne].
      + destruct (Hl a Ha) as [?|?]; [by right|by left|right; by apply upd_at].
      + right. exists u. cbv beta. by rewrite decide_False. }
  split; cbn; try done.
  - by apply (upd_all _ _ _ wfpc).
  - intros u a g. upd_case; [intros Hp Ha w Hw'|]; eauto.
  - intros u a. upd_case; [rewrite Hi|]; eauto.
  - apply (upd_one _ _ _ incoming); [done|]. intros a u. rewrite Hi. eauto.
  - intros u a. upd_case; [rewrite Hf|]; eauto.
  - apply (upd_one _ _ _ in_flight); [done|]. intros a u. rewrite Hf. eauto.
  - destruct inv_invoked0 as [ND H]. split; [done|]. intros a. rewrite H.
    by rewrite (upd_flight_same (pcs s) t p a Hf).
  - intros Hne.
    assert ((r = true \/ k = true \/ exists u, trigger (upd t p (pcs s) u) = true) \/
      exists a, (a, generation s) ∈ nxtlist s) as [H|[a Ha]]; [|done|].
    + assert (case : timer s = true \/ tasklet s = true \/ trigger (pcs s t) = true ->
        (r = true \/ k = true \/ exists u, trigger (upd t p (pcs s) u) = true) \/
        exists a, (a, generation s) ∈ nxtlist s).
      { intros H. destruct (Ht Hne H) as [[?|[?|?]]|?]; [by left; left|by left; right; left| |by right].
        left; right; right. by apply upd_at. }
      destruct (inv_work0 Hne) as [E|[E|[u E]]];
        [apply case; by left|apply case; by right; left|].
      destruct (decide (u = t)) as [->|Hd]; [apply case; by right; right|].
      left; right; right. exists u. cbv beta. by rewrite decide_False.
    + destruct (late a Ha) as [?|[u E]]; [by left|]. right; right. exists u.
      unfold trigger. by rewrite E.
Qed.
End moves.

Lemma inv_mono n m s : inv n s -> n <= m -> inv m s.
Proof. intros [] Hm. split; try done; lia. Qed.

Lemma s64_small x : - 2 ^ 62 <= x <= 2 ^ 62 -> s64 x = x.
Proof. intros. apply sext_small; lia. Qed.

(** Nothing holds the lock twice. *)
Lemma inv_holder n s t u :
  inv n s -> holds (pcs s t) = true -> holds (pcs s u) = true -> t = u.
Proof. intros I Ht Hu. apply (inv_lock _ _ I) in Ht, Hu. congruence. Qed.

Section runs.
Context (n : Z) (s : rcu) (I : inv n s) (Hn : n < 2 ^ 62) (t : nat).

(** The list when the nesting level was read as zero. *)
Lemma no_readers : nestingLevel s = 0 -> active s = ∅.
Proof. intros E. apply leibniz_equiv, size_empty_inv. destruct (inv_nest _ _ I). lia. Qed.

Lemma quiescent_inc a g w :
  nestingLevel s = 0 -> (a, g) ∈ nxtlist s -> waits s !! a = Some w -> w ## active s.
Proof. intros ->%no_readers _ _. set_solver +. Qed.

Lemma acquire_inv k : pcs s t = Acquire k -> lock s = None -> inv n (set_pc t k (set_lock (Some t) s)).
Proof.
  intros E El. pose proof (inv_wf _ _ I t) as W. rewrite E in W.
  assert (Hl : holds k = true -> forall u, holds (upd t k (pcs s) u) = true <-> Some t = Some u)
    by (intros; eapply upd_lock_take; [apply I|done|done]).
  destruct k; try done;
    apply (inv_move n s I t _ (Some t) (tasklet s) (timer s)); rewrite ?E; cbn; try done; auto; tauto.
Qed.

Lemma release_inv k : pcs s t = Release k -> inv n (set_pc t k (set_lock None s)).
Proof.
  intros E. pose proof (inv_wf _ _ I t) as W. rewrite E in W.
  assert (Hl : holds k = false -> forall u, holds (upd t k (pcs s) u) = true <-> None = Some u)
    by (intros; eapply upd_lock_drop; [apply I|by rewrite E|done]).
  destruct k as [|k| | | | | | | | | | | |]; try done; try destruct k; try done;
    apply (inv_move n s I t _ None (tasklet s) (timer s)); rewrite ?E; cbn; try done; auto; tauto.
Qed.

Lemma keep_lock p : holds p = holds (pcs s t) ->
  forall u, holds (upd t p (pcs s) u) = true <-> lock s = Some u.
Proof. apply upd_lock_keep, I. Qed.

Lemma test_inv p k :
  pcs s t = p -> (p = CallTest /\ k = Release Sched \/ p = TimerTest /\ k = Release callback_entry \/
    p = ReadTest /\ k = Release Idle) ->
  inv n (set_pc t (if nestingLevel s =? 0 then Inc k else
    match p with ReadTest => Release Idle | _ => Release Arm end) s).
Proof.
  intros E Hp.
  destruct Hp as [[-> ->]|[[-> ->]|[-> ->]]]; destruct (Z.eqb_spec (nestingLevel s) 0) as [Z0|Z0];
    apply (inv_move n s I t _ (lock s) (tasklet s) (timer s));
    (done || (apply keep_lock; by rewrite E) || (by rewrite E) || (rewrite E; cbn; tauto) ||
     (intros _ a g w; by apply quiescent_inc)).
Qed.

(** The moves that only set a flag or go on. *)
Lemma plain_inv p l k r :
  wfpc p -> (forall u, holds (upd t p (pcs s) u) = true <-> l = Some u) -> in_flight p = in_flight (pcs s t) ->
  incoming p = incoming (pcs s t) -> is_inc p = false ->
  (timer s = true \/ late_trigger (pcs s t) = true -> r = true \/ late_trigger p = true) ->
  (timer s = true \/ tasklet s = true \/ trigger (pcs s t) = true ->
     r = true \/ k = true \/ trigger p = true) ->
  inv n (set_pc t p (set_work k r (set_lock l s))).
Proof. intros ????? L W. apply inv_move; auto; intros; try congruence; tauto. Qed.

Lemma inc_inv k : pcs s t = Inc k -> inv (n + 1) (set_pc t k (set_generation (s64 (generation s + 1)) s)).
Proof.
  intros E. pose proof (inv_gen _ _ I). rewrite s64_small by lia.
  assert (Hk : k = Release Sched \/ k = Release Idle \/ k = Release callback_entry).
  { pose proof (inv_wf _ _ I t) as W. rewrite E in W. destruct k as [|k|k| | | | | | | | | | |]; try done.
    destruct k as [|[]| | | | | | | | | | | |]; try done; auto. }
  assert (Hview : holds k = true /\ in_flight k = None /\ incoming k = None /\ is_inc k = false /\ wfpc k)
    by (destruct Hk as [->|[->| ->]]; done).
  destruct Hview as (Hh & Hf & Hi & Hc & Hw).
  assert (D : forall a g w, (a, g) ∈ nxtlist s -> waits s !! a = Some w -> w ## active s)
    by (intros a g w ??; eapply (inv_inc _ _ I t); [by rewrite E|done..]).
  destruct I. split; cbn; try done.
  - lia.
  - split; [apply inv_nest0|lia].
  - split; [apply inv_qlen0|lia].
  - by apply (upd_all _ _ _ wfpc).
  - apply upd_lock_keep; [done|]. by rewrite E.
  - intros a g Ha. destruct (inv_ages0 a g Ha) as (? & w & Hww & _). split; [lia|].
    exists w. split; [done|]. eauto.
  - intros u a g. upd_case; [by rewrite Hc|eauto].
  - intros u a. upd_case; [by rewrite Hi|eauto].
  - apply (upd_one _ _ _ incoming); [done|]. intros a u. by rewrite Hi.
  - intros u a. upd_case; [by rewrite Hf|eauto].
  - apply (upd_one _ _ _ in_flight); [done|]. intros a u. by rewrite Hf.
  - destruct inv_invoked0 as [ND H']. split; [done|]. intros a. rewrite H'.
    rewrite (upd_flight_same (pcs s) t k a); [done|]. by rewrite E, Hf.
  - intros a Ha. destruct (inv_ages0 _ _ Ha). lia.
  - intros Hne. destruct (inv_work0 Hne) as [?|[?|Hu]]; [tauto..|]. right; right.
    apply upd_ex; [done|]. rewrite E. by destruct Hk as [->|[->| ->]].
Qed.

Lemma enqueue_inv a : pcs s t = Enqueue a ->
  inv (n + 1) (set_pc t CallTest
    (set_queue (nxtlist s ++ [(a, generation s)]) (s64 (qLen s + 1)) (queued s ++ [a]) (popped s) s)).
Proof.
  intros E. pose proof (inv_qlen _ _ I). pose proof (inv_gen _ _ I).
  rewrite s64_small by lia.
  destruct (inv_incoming _ _ I t a) as [[w Hw] Hq]; [by rewrite E|].
  assert (Hlock : forall u, holds (pcs s u) = true -> u = t)
    by (intros u Hu; eapply inv_holder; [done|done|by rewrite E]).
  destruct I. split; cbn; try done.
  - lia.
  - split; [apply inv_nest0|lia].
  - rewrite length_app; cbn. lia.
  - by apply (upd_all _ _ _ wfpc).
  - apply upd_lock_keep; [done|]. by rewrite E.
  - intros b g [Hb|[= -> ->]%list_elem_of_singleton]%elem_of_app; [eauto|].
    split; [lia|]. exists w. split; [done|lia].
  - intros u b g. upd_case; [done|]. intros Hu. exfalso.
    assert (u = t); [|done]. apply Hlock. by destruct (pcs s u).
  - destruct inv_order0 as [Eo ND]. split; [by rewrite fmap_app, app_assoc, <- Eo|].
    apply NoDup_app. split_and!; [done| |apply NoDup_singleton].
    by intros x Hx ->%list_elem_of_singleton.
  - intros u b. upd_case; [done|]. intros Hu. destruct (inv_incoming0 u b Hu) as [? Hb].
    split; [done|]. intros [?| ->%list_elem_of_singleton]%elem_of_app; [done|].
    assert (u = t); [|done]. eapply inv_incoming_one0; [done|by rewrite E].
  - by apply (upd_one _ _ _ incoming).
  - intros u b. upd_case; [done|eauto].
  - by apply (upd_one _ _ _ in_flight).
  - destruct inv_invoked0 as [ND H']. split; [done|]. intros b. rewrite H'.
    rewrite (upd_flight_same (pcs s) t CallTest b); [done|]. by rewrite E.
  - intros b _. right. by apply upd_at.
  - intros _. right; right. by apply upd_at.
Qed.

Lemma batch_before g : 0 <= g <= generation s -> rcu_batch_before g (generation s) = (g <? generation s).
Proof.
  intros Hg. unfold rcu_batch_before. pose proof (inv_gen _ _ I).
  rewrite s64_small by lia. destruct (Z.ltb_spec g (generation s)); [apply Z.ltb_lt|apply Z.ltb_ge]; lia.
Qed.

Lemma pop_inv a g rest : pcs s t = LoopCheck -> nxtlist s = (a, g) :: rest -> g < generation s ->
  inv n (set_pc t (Release (LoopCall a))
    (set_queue rest (s64 (qLen s - 1)) (queued s) (popped s ++ [a]) s)).
Proof.
  intros E El Hg. pose proof (inv_qlen _ _ I) as [Eq Hq]. rewrite El in Eq; cbn in Eq.
  rewrite s64_small by lia.
  assert (Hin : (a, g) ∈ nxtlist s) by (rewrite El; by left).
  assert (Hsub : forall x, x ∈ rest -> x ∈ nxtlist s) by (intros; rewrite El; by right).
  destruct (inv_ages _ _ I a g Hin) as (_ & w & Hw & Hd). specialize (Hd Hg).
  destruct (inv_order _ _ I) as [Ho ND]. rewrite El in Ho; cbn in Ho.
  assert (Hap : a ∉ popped s).
  { intros Ha. rewrite Ho in ND. apply NoDup_app in ND as (_ & ND & _). apply (ND a Ha). by left. }
  destruct I. destruct inv_invoked0 as [NDi Hi].
  split; cbn; try done.
  - lia.
  - by apply (upd_all _ _ _ wfpc).
  - apply upd_lock_keep; [done|]. by rewrite E.
  - intros b h Hb. eauto.
  - intros u b h. upd_case; [done|]. intros Hu Hb. exact (inv_inc0 u b h Hu (Hsub _ Hb)).
  - intros b [Hb| ->%list_elem_of_singleton]%elem_of_app; [eauto|by exists w].
  - by rewrite <- app_assoc.
  - intros u b. upd_case; [done|eauto].
  - by apply (upd_one _ _ _ incoming).
  - intros u b. upd_case.
    + intros [= <-]. split; [apply elem_of_app; right; by left|].
      intros Hx. apply Hap, Hi. by left.
    + intros [? ?]%inv_flight0. split; [apply elem_of_app; by left|done].
  - apply (upd_one _ _ _ in_flight); [done|]. intros b u [= <-] Hu.
    apply inv_flight0 in Hu as [? _]. done.
  - split; [done|]. intros b. rewrite elem_of_app, Hi, list_elem_of_singleton. split.
    + intros [[?|[u Hu]]| ->]; [by left|right|right; exists t; cbv beta; by rewrite decide_True].
      exists u. cbv beta. rewrite decide_False; [done|]. intros ->. by rewrite E in Hu.
    + intros [?|[u Hu]]; [tauto|]. upd_case; [by right; injection Hu|left; right; by exists u].
  - intros b Hb. destruct (inv_late0 b (Hsub _ Hb)) as [?|Hu]; [by left|right].
    apply upd_ex; [done|]. by rewrite E.
  - intros _. right; right. by apply upd_at.
Qed.

Lemma call_inv a : pcs s t = LoopCall a ->
  inv n (set_pc t callback_entry (set_invoked (invoked s ++ [a]) s)).
Proof.
  intros E. destruct (inv_flight _ _ I t a) as [Hp Hni]; [by rewrite E|].
  destruct I. destruct inv_invoked0 as [NDi Hi]. split; cbn; try done.
  - by apply (upd_all _ _ _ wfpc).
  - apply upd_lock_keep; [done|]. by rewrite E.
  - intros u b g. upd_case; [done|eauto].
  - intros u b. upd_case; [done|eauto].
  - by apply (upd_one _ _ _ incoming).
  - intros u b. upd_case; [done|]. intros Hu. destruct (inv_flight0 u b Hu) as [? ?]. split; [done|].
    intros [?| ->%list_elem_of_singleton]%elem_of_app; [done|].
    assert (u = t); [|done]. eapply inv_flight_one0; [done|by rewrite E].
  - by apply (upd_one _ _ _ in_flight).
  - split.
    + apply NoDup_app. split_and!; [done| |apply NoDup_singleton].
      by intros x Hx ->%list_elem_of_singleton.
    + intros b. rewrite Hi, elem_of_app, list_elem_of_singleton. split.
      * intros [?|[u Hu]]; [tauto|]. destruct (decide (u = t)) as [->|Hne].
        { left; right. rewrite E in Hu. by injection Hu. }
        right. exists u. cbv beta. by rewrite decide_False.
      * intros [[?| ->]|[u Hu]]; [by left|right; exists t; by rewrite E|].
        upd_case; [done|]. right. by exists u.
  - intros b Hb. destruct (inv_late0 b Hb) as [?|Hu]; [by left|right].
    apply upd_ex; [done|]. by rewrite E.
  - intros _. right; right. by apply upd_at.
Qed.

Lemma completed_inv c : inv n s -> inv n (set_completed c s).
Proof. by intros []. Qed.

Lemma run_inv s' : run t s = Some s' -> inv (n + 1) s'.
Proof.
  unfold run. destruct (pcs s t) as [|k|k|k|a| | | | | | | |a|] eqn:E; cbn.
  - done.
  - destruct (lock s) eqn:El; [done|]. intros [= <-].
    apply (inv_mono n); [by apply acquire_inv|lia].
  - intros [= <-]. apply (inv_mono n); [by apply release_inv|lia].
  - intros [= <-]. by apply inc_inv.
  - intros [= <-]. by apply enqueue_inv.
  - intros [= <-]. apply (inv_mono n); [|lia]. apply (test_inv CallTest); [done|by left].
  - intros [= <-]. apply (inv_mono n); [|lia].
    apply (plain_inv Idle (lock s) true (timer s)); rewrite ?E; try done; [|cbn; tauto..].
    apply keep_lock. by rewrite E.
  - intros [= <-]. apply (inv_mono n); [|lia].
    apply (plain_inv Idle (lock s) (tasklet s) true); rewrite ?E; try done; [|cbn; tauto..].
    apply keep_lock. by rewrite E.
  - intros [= <-]. apply (inv_mono n); [|lia].
    apply (plain_inv _ (lock s) (tasklet s) (timer s)); case_match; rewrite ?E; try done; cbn; try tauto;
      apply keep_lock; by rewrite E.
  - intros [= <-]. apply (inv_mono n); [|lia]. apply (test_inv ReadTest); [done|by right; right].
  - intros [= <-]. apply (inv_mono n); [|lia]. apply (test_inv TimerTest); [done|by right; left].
  - assert (Hdone : forall b, (nxtlist s <> [] -> (b, generation s) ∈ nxtlist s) ->
      inv n (set_pc t LoopDone s)).
    { intros b Hb. apply (inv_move n s I t _ (lock s) (tasklet s) (timer s)); rewrite ?E; try done.
      - apply keep_lock. by rewrite E.
      - intros Hne _. right. exists b. auto. }
    destruct (nxtlist s) as [|[a g] rest] eqn:El.
    + intros [= <-]. apply (inv_mono n); [by apply (Hdone 0)|lia].
    + destruct (inv_ages _ _ I a g) as [Hag _]; [rewrite El; by left|].
      rewrite batch_before by done. destruct (Z.ltb_spec g (generation s)); intros [= <-].
      * apply (inv_mono n); [by eapply pop_inv|lia].
      * apply (inv_mono n); [|lia]. apply (Hdone a). intros _.
        assert (g = generation s) as <- by lia. by left.
  - intros [= <-]. apply (inv_mono n); [by apply call_inv|lia].
  - intros [= <-]. apply (inv_mono n); [|lia].
    assert (inv n (set_pc t (Release Idle) s)) as I'; [|by destruct I'].
    apply (plain_inv _ (lock s) (tasklet s) (timer s)); rewrite ?E; try done; [|cbn; tauto..].
    apply keep_lock. by rewrite E.
Qed.
End runs.

(** ** The other actions *)
Section acts.
Context (n : Z) (s : rcu) (I : inv n s) (Hn : n < 2 ^ 62).

Lemma read_lock_inv r : r ∉ seen s -> inv (n + 1) (vmklnx_rcu_read_lock r s).
Proof.
  intros Hr. unfold vmklnx_rcu_read_lock. pose proof (inv_nest _ _ I) as [En Hnn].
  rewrite s64_small by lia. destruct (inv_seen _ _ I) as [Ha Hw].
  assert (Hra : r ∉ active s) by (intros H; by apply Hr, Ha).
  assert (D : forall a w, waits s !! a = Some w -> w ## active s -> w ## {[r]} ∪ active s).
  { intros a w Hww Hd. specialize (Hw a w Hww). set_solver. }
  destruct I. split; cbn; try done.
  - lia.
  - rewrite size_union by set_solver. rewrite size_singleton. lia.
  - lia.
  - split; [set_solver|]. intros a w Haw. specialize (Hw a w Haw). set_solver.
  - intros a g HH. destruct (inv_ages0 a g HH) as (? & w & Hww & Hd). split; [done|].
    exists w. split; [done|]. eauto.
  - intros t a g Hi H w Hww. eapply D; [done|]. by eapply inv_inc0.
  - intros a H. destruct (inv_popped0 a H) as (w & ? & ?). eauto.
Qed.

Lemma read_unlock_inv t r : pcs s t = Idle -> r ∈ active s ->
  inv (n + 1) (set_pc t (if s64 (nestingLevel s - 1) =? 0 then ReadLen else Idle)
    (set_readers (s64 (nestingLevel s - 1)) (active s ∖ {[r]}) (seen s) s)).
Proof.
  intros E Hr. set (p := if _ =? 0 then ReadLen else Idle).
  assert (Hp : p = ReadLen \/ p = Idle) by (unfold p; case_match; auto).
  assert (I1 : inv n (set_pc t p s)).
  { apply (inv_move n s I t p (lock s) (tasklet s) (timer s)); destruct Hp as [->| ->]; rewrite ?E;
      try done; cbn; try tauto; apply (keep_lock n s I t); by rewrite E. }
  pose proof (inv_nest _ _ I) as [En Hnn]. rewrite s64_small by lia.
  clearbody p. clear Hp. destruct I1. cbn in *.
  split; cbn; try done; try lia.
  - assert (size (active s) = S (size (active s ∖ {[r]}))); [|lia].
    rewrite (union_difference_L {[r]} (active s)) at 1 by set_solver.
    rewrite size_union, size_singleton by set_solver. done.
  - destruct inv_seen0. split; [set_solver|done].
  - intros a g HH. destruct (inv_ages0 a g HH) as (? & w & Hww & Hd). split; [done|].
    exists w. split; [done|]. set_solver.
  - intros u a g Hi H w Hww. specialize (inv_inc0 u a g Hi H w Hww). set_solver.
  - intros a H. destruct (inv_popped0 a H) as (w & ? & ?). exists w. set_solver.
Qed.

Lemma queued_waits a : a ∈ queued s -> is_Some (waits s !! a).
Proof.
  destruct I. destruct inv_order0 as [-> _]. intros [H|H]%elem_of_app.
  - destruct (inv_popped0 a H) as (w & -> & _). eauto.
  - apply list_elem_of_fmap in H as ([b g] & -> & H).
    destruct (inv_ages0 b g H) as (_ & w & Hw & _). cbn. eauto.
Qed.

Lemma call_rcu_inv t a : pcs s t = Idle -> a ∉ dom (waits s) ->
  inv n (set_pc t (call_rcu_entry a) (set_waits (<[a := active s]> (waits s)) s)).
Proof.
  intros E Ha.
  assert (Hna : forall b w, waits s !! b = Some w -> <[a := active s]> (waits s) !! b = Some w).
  { intros b w Hb. rewrite lookup_insert_ne; [done|]. intros ->. apply Ha, elem_of_dom. eauto. }
  assert (Hq : a ∉ queued s) by (intros [w Hw]%queued_waits; by apply Ha, elem_of_dom).
  assert (Hin : forall u b, incoming (pcs s u) = Some b -> b <> a).
  { intros u b Hu ->. destruct (inv_incoming _ _ I u a Hu) as [? _]. by apply Ha, elem_of_dom. }
  destruct I. split; cbn; try done.
  - by apply (upd_all _ _ _ wfpc).
  - apply upd_lock_keep; [done|]. by rewrite E.
  - destruct inv_seen0 as [? Hw]. split; [done|]. intros b w. rewrite lookup_insert.
    case_decide; [intros [= <-]; done|]. apply Hw.
  - intros b g H. destruct (inv_ages0 b g H) as (? & w & Hww & Hd). split; [done|]. eauto.
  - intros u b g. upd_case; [done|]. intros Hu Hm w Hw.
    destruct (inv_ages0 b g Hm) as (_ & w' & Hww & _). rewrite (Hna b w' Hww) in Hw.
    injection Hw as <-. by eapply inv_inc0.
  - intros b H. destruct (inv_popped0 b H) as (w & ? & ?). eauto.
  - intros u b. upd_case.
    + intros [= <-]. rewrite lookup_insert_eq. eauto.
    + intros Hu. destruct (inv_incoming0 u b Hu) as [[w Hw] ?]. eauto.
  - apply (upd_one _ _ _ incoming); [done|]. intros b u [= <-] Hu. by apply Hin in Hu.
  - intros u b. upd_case; [done|eauto].
  - by apply (upd_one _ _ _ in_flight).
  - destruct inv_invoked0 as [ND H']. split; [done|]. intros b. rewrite H'.
    rewrite (upd_flight_same (pcs s) t _ b); [done|]. by rewrite E.
  - intros b Hb. destruct (inv_late0 b Hb) as [?|Hu]; [by left|right].
    apply upd_ex; [done|]. by rewrite E.
  - intros Hne. destruct (inv_work0 Hne) as [?|[?|Hu]]; [tauto..|]. right; right.
    apply upd_ex; [done|]. by rewrite E.
Qed.

Lemma idle_true p : is_idle p = true -> p = Idle.
Proof. by destruct p. Qed.

Lemma step_inv x s' : step x s = Some s' -> inv (n + 1) s'.
Proof.
  destruct x as [r|t r|t a|t|t|t]; cbn.
  - case_bool_decide; [done|]. intros [= <-]. by apply read_lock_inv.
  - destruct (is_idle (pcs s t)) eqn:E; cbn; [|done]. apply idle_true in E.
    case_bool_decide; [|done]. intros [= <-]. by apply read_unlock_inv.
  - destruct (is_idle (pcs s t)) eqn:E; cbn; [|done]. apply idle_true in E.
    case_bool_decide; [done|]. intros [= <-]. apply (inv_mono n); [by apply call_rcu_inv|lia].
  - destruct (is_idle (pcs s t)) eqn:E; cbn; [|done]. apply idle_true in E.
    destruct (tasklet s); [|done]. intros [= <-]. apply (inv_mono n); [|lia].
    apply (inv_move n s I t _ (lock s) false (timer s)); rewrite ?E; try done; cbn; try tauto.
    apply (keep_lock n s I t). by rewrite E.
  - destruct (is_idle (pcs s t)) eqn:E; cbn; [|done]. apply idle_true in E.
    destruct (timer s); [|done]. intros [= <-]. apply (inv_mono n); [|lia].
    apply (inv_move n s I t _ (lock s) (tasklet s) false); rewrite ?E; try done; cbn; try tauto.
    apply (keep_lock n s I t). by rewrite E.
  - by apply run_inv.
Qed.
End acts.

Lemma init_inv : inv 0 vmklnx_rcu_init.
Proof.
  split; cbn; try done; try lia.
  - intros a g ?%elem_of_nil. done.
  - intros a ?%elem_of_nil. done.
  - split; [done|constructor].
  - split; [constructor|]. intros a. rewrite !elem_of_nil. split; [done|]. by intros [?|[? ?]].
  - intros a ?%elem_of_nil. done.
Qed.

Lemma steps_inv xs n s s' :
  inv n s -> n + Z.of_nat (length xs) <= 2 ^ 62 -> steps xs s = Some s' -> inv (n + Z.of_nat (length xs)) s'.
Proof.
  revert n s; induction xs as [|x xs IH]; intros n s I Hn; cbn [steps length] in *.
  - intros [= <-]. apply (inv_mono n); [done|lia].
  - destruct (step x s) as [s1|] eqn:E; cbn; [|done]. intros Hs.
    apply (inv_mono (n + 1 + Z.of_nat (length xs))); [|lia]. apply (IH _ s1); [|lia|done].
    eapply step_inv; [done|lia|done].
Qed.

Lemma reachable_inv xs s : Z.of_nat (length xs) <= 2 ^ 62 -> steps xs vmklnx_rcu_init = Some s -> inv (2 ^ 62) s.
Proof.
  intros Hx Hs. apply (inv_mono (0 + Z.of_nat (length xs))); [|lia].
  eapply steps_inv; [apply init_inv|lia|done].
Qed.

(** C9: RCU gives grace periods. In every interleaving of readers, updaters,
    timer and tasklet handlers (fewer than 2^62 steps), when a callback has
    been invoked no reader that was inside a critical section when its
    [call_rcu] was called is still inside that section. *)
Theorem rcu_grace_period xs s a w :
  Z.of_nat (length xs) <= 2 ^ 62 -> steps xs vmklnx_rcu_init = Some s ->
  a ∈ invoked s -> waits s !! a = Some w -> w ## active s.
Proof.
  intros Hx Hs Ha Hw. destruct (reachable_inv xs s Hx Hs).
  assert (a ∈ popped s) as Hp by (apply inv_invoked0; by left).
  destruct (inv_popped0 a Hp) as (w' & Hw' & Hd). rewrite Hw in Hw'. by injection Hw' as <-.
Qed.

(** the callbacks leave the queue in the order of their [call_rcu] and
    each is invoked at most once; [qLen] is the number of queued callbacks, and
    a callback that was taken off the queue has been invoked or is about to be. *)
Theorem rcu_fifo_once xs s :
  Z.of_nat (length xs) <= 2 ^ 62 -> steps xs vmklnx_rcu_init = Some s ->
  queued s = popped s ++ (nxtlist s).*1 /\ NoDup (queued s) /\ NoDup (invoked s) /\
  qLen s = Z.of_nat (length (nxtlist s)) /\
  forall a, a ∈ popped s <-> a ∈ invoked s \/ exists t, in_flight (pcs s t) = Some a.
Proof.
  intros Hx Hs. destruct (reachable_inv xs s Hx Hs). destruct inv_order0, inv_invoked0, inv_qlen0.
  split_and!; done.
Qed.

(** ** Draining the queue *)

Lemma run_alone_step f t s s' :
  is_idle (pcs s t) = false -> run t s = Some s' -> run_alone (S f) t s = run_alone f t s'.
Proof. intros E R. cbn. by rewrite E, R. Qed.

Lemma run_alone_idle f t s : pcs s t = Idle -> run_alone f t s = Some s.
Proof. intros E. destruct f; cbn; by rewrite E. Qed.

Lemma pcs_set t p s : pcs (set_pc t p s) t = p.
Proof. cbn. by rewrite decide_True. Qed.

Ltac alone s1 :=
  rewrite (run_alone_step _ _ _ s1);
  [|by rewrite ?pcs_set|unfold run; rewrite pcs_set; cbn; reflexivity].

(** One turn of the loop that finds an aged callback. *)
Lemma loop_turn f t s a g rest :
  pcs s t = callback_entry -> lock s = None -> nxtlist s = (a, g) :: rest ->
  rcu_batch_before g (generation s) = true ->
  exists s', run_alone (4 + f) t s = run_alone f t s' /\ pcs s' t = callback_entry /\ lock s' = None /\
    nxtlist s' = rest /\ generation s' = generation s /\ invoked s' = invoked s ++ [a].
Proof.
  intros E El Eq Hg. cbn [Nat.add].
  rewrite (run_alone_step _ t s (set_pc t LoopCheck (set_lock (Some t) s)));
    [|by rewrite E|unfold run; by rewrite E, El].
  rewrite (run_alone_step _ t _ (set_pc t (Release (LoopCall a))
    (set_queue rest (s64 (qLen s - 1)) (queued s) (popped s ++ [a])
       (set_pc t LoopCheck (set_lock (Some t) s)))));
    [|by rewrite pcs_set|unfold run; rewrite pcs_set; cbn; by rewrite Eq, Hg].
  set (s2 := set_pc t (Release _) _). assert (E2 : pcs s2 t = Release (LoopCall a)) by apply pcs_set.
  rewrite (run_alone_step _ t _ (set_pc t (LoopCall a) (set_lock None s2)));
    [|by rewrite E2|unfold run; by rewrite E2].
  rewrite (run_alone_step _ t _ (set_pc t callback_entry (set_invoked (invoked s ++ [a])
    (set_pc t (LoopCall a) (set_lock None s2)))));
    [|by rewrite pcs_set|unfold run; by rewrite pcs_set].
  eexists; split; [done|]. split; [by rewrite pcs_set|]. done.
Qed.

(** The last turn, on an empty queue. *)
Lemma loop_last t s :
  pcs s t = callback_entry -> lock s = None -> nxtlist s = [] ->
  exists s', run_alone 4 t s = Some s' /\ nxtlist s' = [] /\ invoked s' = invoked s /\
    pcs s' t = Idle /\ lock s' = None.
Proof.
  intros E El Eq.
  rewrite (run_alone_step _ t s (set_pc t LoopCheck (set_lock (Some t) s)));
    [|by rewrite E|unfold run; by rewrite E, El].
  rewrite (run_alone_step _ t _ (set_pc t LoopDone (set_pc t LoopCheck (set_lock (Some t) s))));
    [|by rewrite pcs_set|unfold run; rewrite pcs_set; cbn; by rewrite Eq].
  set (s2 := set_pc t LoopDone _). assert (E2 : pcs s2 t = LoopDone) by apply pcs_set.
  rewrite (run_alone_step _ t _ (set_pc t (Release Idle) (set_completed (s64 (completed s2 + 1)) s2)));
    [|by rewrite E2|unfold run; by rewrite E2].
  set (s3 := set_pc t (Release Idle) _). assert (E3 : pcs s3 t = Release Idle) by apply pcs_set.
  rewrite (run_alone_step _ t _ (set_pc t Idle (set_lock None s3)));
    [|by rewrite E3|unfold run; by rewrite E3].
  rewrite run_alone_idle by apply pcs_set. eexists; split; [done|].
  split; [done|]. split; [done|]. by split; [apply pcs_set|].
Qed.

Lemma loop_drains t s :
  pcs s t = callback_entry -> lock s = None ->
  (forall a g, (a, g) ∈ nxtlist s -> rcu_batch_before g (generation s) = true) ->
  exists s', run_alone (4 * length (nxtlist s) + 4) t s = Some s' /\ nxtlist s' = [] /\
    invoked s' = invoked s ++ (nxtlist s).*1 /\ pcs s' t = Idle /\ lock s' = None.
Proof.
  remember (nxtlist s) as l eqn:Eq. symmetry in Eq. revert s Eq.
  induction l as [|[a g] rest IH]; intros s Eq E El Hg.
  - destruct (loop_last t s E El Eq) as (s' & ? & ? & Ei & ?). exists s'. cbn.
    by rewrite app_nil_r, Ei.
  - replace (4 * length ((a, g) :: rest) + 4)%nat with (4 + (4 * length rest + 4))%nat by (cbn; lia).
    destruct (loop_turn (4 * length rest + 4) t s a g rest E El Eq) as (s1 & -> & E1 & El1 & Eq1 & Eg & Ei).
    { apply (Hg a g). by left. }
    destruct (IH s1 Eq1 E1 El1) as (s' & ? & ? & Ei' & ?).
    { intros b h Hb. rewrite Eg. apply (Hg b h). by right. }
    exists s'. rewrite Ei', Ei, <- app_assoc. done.
Qed.

Definition all_idle (s : rcu) : Prop := forall t, pcs s t = Idle.

Lemma idle_unlocked n s : inv n s -> all_idle s -> lock s = None.
Proof.
  intros I Hi. destruct (lock s) as [u|] eqn:E; [|done].
  apply (inv_lock _ _ I) in E. by rewrite Hi in E.
Qed.

Lemma aged n s : inv n s -> n <= 2 ^ 62 -> forall a g, (a, g) ∈ nxtlist s ->
  rcu_batch_before g (s64 (generation s + 1)) = true.
Proof.
  intros I Hn a g H. destruct (inv_ages _ _ I a g H) as [Hg _]. pose proof (inv_gen _ _ I).
  unfold rcu_batch_before. rewrite !sext_small by (rewrite ?sext_small by lia; lia).
  apply Z.ltb_lt. lia.
Qed.

Lemma timer_drains n s t :
  inv n s -> n <= 2 ^ 62 -> all_idle s -> active s = ∅ -> timer s = true ->
  exists s1 s', step (FireTimer t) s = Some s1 /\
    run_alone (4 * length (nxtlist s) + 8) t s1 = Some s' /\
    nxtlist s' = [] /\ invoked s' = invoked s ++ (nxtlist s).*1.
Proof.
  intros I Hn Hi Ha Ht. pose proof (idle_unlocked n s I Hi) as El.
  assert (Hz : nestingLevel s = 0).
  { destruct (inv_nest _ _ I) as [-> _]. rewrite Ha, size_empty. done. }
  set (s1 := set_pc t delay_timer_entry (set_work (tasklet s) false s)).
  cut (exists s', run_alone (4 * length (nxtlist s) + 8) t s1 = Some s' /\
    nxtlist s' = [] /\ invoked s' = invoked s ++ (nxtlist s).*1).
  { intros (s' & H). exists s1, s'. cbn [step]. by rewrite (Hi t), Ht. } assert (E1 : pcs s1 t = Acquire TimerTest) by apply pcs_set.
  replace (4 * length (nxtlist s) + 8)%nat with (4 + (4 * length (nxtlist s) + 4))%nat by lia. cbn [Nat.add].
  rewrite (run_alone_step _ t s1 (set_pc t TimerTest (set_lock (Some t) s1)));
    [|by rewrite E1|unfold run; rewrite E1; cbn; by rewrite El].
  set (s2 := set_pc t TimerTest _). assert (E2 : pcs s2 t = TimerTest) by apply pcs_set.
  rewrite (run_alone_step _ t s2 (set_pc t (Inc (Release callback_entry)) s2));
    [|by rewrite E2|unfold run; rewrite E2; cbn; by rewrite Hz].
  set (s3 := set_pc t (Inc _) s2). assert (E3 : pcs s3 t = Inc (Release callback_entry)) by apply pcs_set.
  rewrite (run_alone_step _ t s3 (set_pc t (Release callback_entry)
    (set_generation (s64 (generation s3 + 1)) s3))); [|by rewrite E3|unfold run; by rewrite E3].
  set (s4 := set_pc t (Release _) _). assert (E4 : pcs s4 t = Release callback_entry) by apply pcs_set.
  rewrite (run_alone_step _ t s4 (set_pc t callback_entry (set_lock None s4)));
    [|by rewrite E4|unfold run; by rewrite E4].
  destruct (loop_drains t (set_pc t callback_entry (set_lock None s4))) as (s' & E & ? & ? & _).
  - apply pcs_set.
  - done.
  - exact (aged n s I Hn).
  - exists s'. split; [exact E|done].
Qed.

Lemma tasklet_drains n s t :
  inv n s -> n <= 2 ^ 62 -> all_idle s -> timer s = false -> nxtlist s <> [] ->
  exists s1 s', step (FireTasklet t) s = Some s1 /\
    run_alone (4 * length (nxtlist s) + 4) t s1 = Some s' /\
    nxtlist s' = [] /\ invoked s' = invoked s ++ (nxtlist s).*1.
Proof.
  intros I Hn Hi Ht Hne. pose proof (idle_unlocked n s I Hi) as El.
  assert (Hk : tasklet s = true).
  { destruct (inv_work _ _ I Hne) as [?|[?|[u Hu]]]; [congruence|done|by rewrite Hi in Hu]. }
  cut (exists s', run_alone (4 * length (nxtlist s) + 4) t
      (set_pc t callback_entry (set_work false (timer s) s)) = Some s' /\
    nxtlist s' = [] /\ invoked s' = invoked s ++ (nxtlist s).*1).
  { intros (s' & H). do 2 eexists. split; [cbn [step]; by rewrite (Hi t), Hk|exact H]. }
  destruct (loop_drains t (set_pc t callback_entry (set_work false (timer s) s))) as (s' & E & ? & ? & _).
  - apply pcs_set.
  - done.
  - intros a g H. cbn in *. destruct (inv_ages _ _ I a g H) as [Hg _].
    destruct (decide (g = generation s)) as [->|Hgne].
    + destruct (inv_late _ _ I a H) as [?|[u Hu]]; [congruence|by rewrite Hi in Hu].
    + pose proof (inv_gen _ _ I). unfold rcu_batch_before. rewrite sext_small by lia. apply Z.ltb_lt. lia.
  - exists s'. split; [exact E|done].
Qed.

(** C37: no callback is forgotten. Whenever callbacks are queued, the tasklet
    is scheduled, the delay timer is pending, or a running thread is about to
    process the queue, schedule the tasklet or arm the timer; and once no
    reader and no thread is active, the handler that is due runs to its end,
    invokes every queued callback in order and empties the queue. *)
Theorem rcu_no_lost_callback xs s t :
  Z.of_nat (length xs) <= 2 ^ 62 -> steps xs vmklnx_rcu_init = Some s -> nxtlist s <> [] ->
  (timer s = true \/ tasklet s = true \/ exists t, trigger (pcs s t) = true) /\
  (all_idle s -> active s = ∅ ->
   exists x fuel s1 s', (x = FireTimer t \/ x = FireTasklet t) /\ step x s = Some s1 /\
     run_alone fuel t s1 = Some s' /\ nxtlist s' = [] /\ invoked s' = invoked s ++ (nxtlist s).*1).
Proof.
  intros Hx Hs Hne. pose proof (reachable_inv xs s Hx Hs) as I. split; [by apply I|].
  intros Hi Ha. destruct (timer s) eqn:Ht.
  - destruct (timer_drains _ s t I ltac:(lia) Hi Ha Ht) as (s1 & s' & ? & ? & ?). eauto 10.
  - destruct (tasklet_drains _ s t I ltac:(lia) Hi Ht Hne) as (s1 & s' & ? & ? & ?). eauto 10.
Qed.

(** [vmklnx_rcu_cleanup], run alone at module unload, invokes every
    callback still queued, in order, and leaves no callback, tasklet or timer
    behind. *)
Theorem rcu_cleanup_drains xs s t :
  Z.of_nat (length xs) <= 2 ^ 62 -> steps xs vmklnx_rcu_init = Some s -> all_idle s ->
  exists s', vmklnx_rcu_cleanup (4 * length (nxtlist s) + 4) t s = Some s' /\ nxtlist s' = [] /\
    invoked s' = invoked s ++ (nxtlist s).*1 /\ tasklet s' = false /\ timer s' = false.
Proof.
  intros Hx Hs Hi. pose proof (reachable_inv xs s Hx Hs) as I.
  pose proof (idle_unlocked _ s I Hi) as El. destruct (inv_qlen _ _ I) as [Eq _].
  unfold vmklnx_rcu_cleanup. cbn [qLen set_generation]. destruct (Z.ltb_spec 0 (qLen s)).
  - set (s1 := set_pc t callback_entry _).
    destruct (loop_drains t s1) as (s' & E & ? & ? & _).
    + apply pcs_set.
    + done.
    + exact (aged _ s I ltac:(lia)).
    + change (4 * length (nxtlist s) + 4)%nat with (4 * length (nxtlist s1) + 4)%nat.
      rewrite E; cbn. eexists; split; [done|]. done.
  - assert (nxtlist s = []) as Hnil by (destruct (nxtlist s); [done|cbn in Eq; lia]).
    eexists; split; [done|]. cbn. rewrite Hnil, app_nil_r. done.
Qed.

(** ** Witnesses: reader 1 is active when callback 7 is queued *)
Definition sample_run : list act :=
  [ReadLock 1; CallRcu 1 7; Run 1; Run 1; Run 1; Run 1; Run 1; ReadLock 2;
   ReadUnlock 2 1; ReadUnlock 2 2; Run 2; Run 2; Run 2; Run 2; Run 2].
Definition sample_fire : list act :=
  sample_run ++ [ReadLock 3; ReadUnlock 3 3; Run 3; Run 3; Run 3; Run 3; Run 3; FireTimer 1;
    Run 1; Run 1; Run 1; Run 1; Run 1; Run 1; Run 1; Run 1].

Definition dead : rcu := vmklnx_rcu_init.
Definition sample_s : rcu := default dead (steps sample_run vmklnx_rcu_init).
Definition sample_f : rcu := default dead (steps sample_fire vmklnx_rcu_init).

Lemma steps_sample xs s : is_Some (steps xs s) -> steps xs s = Some (default dead (steps xs s)).
Proof. by intros [s' ->]. Qed.

Lemma rcu_grace_period_witness :
  7 ∈ invoked sample_f /\ waits sample_f !! 7 = Some {[1]} /\ {[1]} ## active sample_f.
Proof.
  assert (7 ∈ invoked sample_f) as H by (vm_compute; by left).
  split; [exact H|]. split; [vm_compute; reflexivity|].
  apply (rcu_grace_period sample_fire sample_f 7 {[1]}); [cbn; lia|apply steps_sample; vm_compute; eauto|exact H|vm_compute; reflexivity].
Defined.

Lemma rcu_fifo_once_witness :
  queued sample_f = popped sample_f ++ (nxtlist sample_f).*1 /\ popped sample_f = [7].
Proof.
  split; [|vm_compute; reflexivity].
  apply (rcu_fifo_once sample_fire sample_f); [cbn; lia|apply steps_sample; vm_compute; eauto].
Defined.

Lemma sample_idle : all_idle sample_s.
Proof. intros t. destruct t as [|[|[|[|t]]]]; vm_compute; reflexivity. Qed.

Lemma rcu_no_lost_callback_witness :
  nxtlist sample_s = [(7, 0)] /\
  exists x fuel s1 s', (x = FireTimer 5 \/ x = FireTasklet 5) /\ step x sample_s = Some s1 /\
     run_alone fuel 5 s1 = Some s' /\ nxtlist s' = [] /\ invoked s' = [7].
Proof.
  split; [vm_compute; reflexivity|].
  destruct (rcu_no_lost_callback sample_run sample_s 5) as [_ H]; [cbn; lia|apply steps_sample; vm_compute; eauto|vm_compute; discriminate|].
  assert (active sample_s = ∅) as Ha by (vm_compute; reflexivity).
  assert (E : invoked sample_s ++ (nxtlist sample_s).*1 = [7]) by (vm_compute; reflexivity).
  rewrite <- E. exact (H sample_idle Ha).
Defined.

Lemma rcu_cleanup_drains_witness :
  exists s', vmklnx_rcu_cleanup 8 5 sample_s = Some s' /\ nxtlist s' = [] /\ invoked s' = [7] /\
    tasklet s' = false /\ timer s' = false.
Proof.
  assert (E : invoked sample_s ++ (nxtlist sample_s).*1 = [7]) by (vm_compute; reflexivity).
  assert (F : (4 * length (nxtlist sample_s) + 4)%nat = 8%nat) by (vm_compute; reflexivity).
  rewrite <- E, <- F.
  apply (rcu_cleanup_drains sample_run sample_s 5); [cbn; lia|apply steps_sample; vm_compute; eauto|exact sample_idle].
Defined.
