(* ===== verification/SeqFile.v ===== *)
(** Sequential files: [linux/fs/seq_file.c].

    The record iterator ([struct seq_operations]) and the allocator are
    parameters. A buffer is the list of its bytes, whatever their meaning, so
    that reading past the valid part is visible; an access outside a buffer
    makes the operation fail ([None]). *)

From S2P Require Import Prelude.
Local Open Scope Z_scope.

Definition PAGE_SIZE : Z := 4096.
Definition ENOMEM : Z := 12.
Definition EINVAL : Z := 22.
Definition EAGAIN : Z := 11.

Record seq_file := SF {
  buf : option (list Z);
  size : Z;
  from : Z;
  count : Z;
  index : Z;
  version : Z;
  allocs : nat;        (* how many times the allocator was called *)
}.

(** [f_pos] and [f_version] of the [struct file]. *)
Record file := File { f_pos : Z; f_version : Z; private_data : seq_file }.

Definition with_buf (b : option (list Z)) (n c : Z) (k : nat) (m : seq_file) :=
  SF b n (from m) c (index m) (version m) k.
Definition with_count (c : Z) (m : seq_file) :=
  SF (buf m) (size m) (from m) c (index m) (version m) (allocs m).
Definition with_from (f c : Z) (m : seq_file) :=
  SF (buf m) (size m) f c (index m) (version m) (allocs m).
Definition with_index (i : Z) (m : seq_file) :=
  SF (buf m) (size m) (from m) (count m) i (version m) (allocs m).
Definition with_version (v : Z) (m : seq_file) :=
  SF (buf m) (size m) (from m) (count m) (index m) v (allocs m).

(** [memcpy] out of and into the buffer. *)
Definition load_bytes (m : seq_file) (off n : Z) : option (list Z) :=
  b ← buf m;
  if (0 <=? off) && (0 <=? n) && (off + n <=? Z.of_nat (length b))
  then Some (take (Z.to_nat n) (drop (Z.to_nat off) b)) else None.
Definition store_bytes (off : Z) (l : list Z) (m : seq_file) : option seq_file :=
  b ← buf m;
  if (0 <=? off) && (off + Z.of_nat (length l) <=? Z.of_nat (length b))
  then Some (SF (Some (take (Z.to_nat off) b ++ l ++ drop (Z.to_nat off + length l) b))
               (size m) (from m) (count m) (index m) (version m) (allocs m))
  else None.

(** ** Printing into the buffer *)

Definition seq_putc (c : Z) (m : seq_file) : option (Z * seq_file) :=
  if count m <? size m then
    m ← store_bytes (count m) [c] m; Some (0, with_count (count m + 1) m)
  else Some (-1, m).

Definition seq_puts (s : list Z) (m : seq_file) : option (Z * seq_file) :=
  let len := Z.of_nat (length s) in
  if count m + len <? size m then
    m ← store_bytes (count m) s m; Some (0, with_count (count m + len) m)
  else Some (-1, with_count (size m) m).

(** [text] is what the format and its arguments expand to; [vsnprintf] stores
    as much of it as fits, and a NUL. *)
Definition seq_printf (text : list Z) (m : seq_file) : option (Z * seq_file) :=
  if count m <? size m then
    let len := Z.of_nat (length text) in
    m ← store_bytes (count m) (take (Z.to_nat (size m - count m - 1)) text ++ [0]) m;
    if count m + len <? size m then Some (0, with_count (count m + len) m)
    else Some (-1, with_count (size m) m)
  else Some (-1, with_count (size m) m).

(** The octal escape of a character. *)
Definition octal (c : Z) : list Z :=
  [92; 48 + Z.shiftr (Z.land c 0xc0) 6; 48 + Z.shiftr (Z.land c 0x38) 3; 48 + Z.land c 7].

Fixpoint escape_loop (s esc : list Z) (p : Z) (m : seq_file) : option (Z * seq_file) :=
  match s with
  | [] => Some (0, with_count p m)
  | c :: s =>
      if p <? size m then
        if bool_decide (c ∈ esc) then
          if p + 3 <? size m then
            m ← store_bytes p (octal c) m; escape_loop s esc (p + 4) m
          else Some (-1, with_count (size m) m)
        else m ← store_bytes p [c] m; escape_loop s esc (p + 1) m
      else Some (0, with_count p m)
  end.

Definition seq_escape (s esc : list Z) (m : seq_file) : option (Z * seq_file) :=
  escape_loop s esc (count m) m.

(** What a [show] method prints, in order. *)
Inductive piece :=
| Putc (c : Z) | Puts (s : list Z) | Printf (text : list Z) | Escape (s esc : list Z).

Definition print (q : piece) (m : seq_file) : option (Z * seq_file) :=
  match q with
  | Putc c => seq_putc c m
  | Puts s => seq_puts s m
  | Printf s => seq_printf s m
  | Escape s esc => seq_escape s esc m
  end.

Fixpoint print_all (qs : list piece) (m : seq_file) : option seq_file :=
  match qs with
  | [] => Some m
  | q :: qs => '(_, m) ← print q m; print_all qs m
  end.

(** ** Reading *)

(** A result of [start] or [next]. *)
Inductive iptr := INull | IErr (e : Z) | IPtr (v : Z).

Section code.
(** [kmalloc n size] is the outcome of the [n]-th allocation; [show] gives what
    is printed and the result. *)
Context (kmalloc : nat -> Z -> option (list Z)).
Context (start : Z -> Z * iptr) (next : Z -> Z -> Z * iptr) (show : Z -> list piece * Z).

Definition grab (n : Z) (m : seq_file) : seq_file :=
  with_buf (kmalloc (allocs m) n) n (count m) (S (allocs m)) m.

Definition run_show (v : Z) (m : seq_file) : option (seq_file * Z) :=
  let '(qs, err) := show v in m ← print_all qs m; Some (m, err).

(** How the loop that fetches the first record ends. *)
Inductive first := FDone (m : seq_file) (err : Z) | FFill (m : seq_file) (pos v : Z) | FNomem (m : seq_file).

Fixpoint first_loop (fuel : nat) (m : seq_file) : option first :=
  match fuel with
  | O => None
  | S fuel =>
      let '(pos, p) := start (index m) in
      match p with
      | INull => Some (FDone (with_count 0 m) 0)
      | IErr e => Some (FDone (with_count 0 m) e)
      | IPtr v =>
          '(m, err) ← run_show v m;
          if negb (err =? 0) then Some (FDone (with_count 0 m) err) else
          if count m <? size m then Some (FFill m pos v) else
          let m := grab (u64 (Z.shiftl (size m) 1)) m in
          match buf m with
          | None => Some (FNomem m)
          | Some _ => first_loop fuel (with_version 0 (with_count 0 m))
          end
      end
  end.

Fixpoint fill_loop (fuel : nat) (want pos v : Z) (m : seq_file) : option (seq_file * Z * Z) :=
  if negb (count m <? want) then Some (m, pos, 0) else
  match fuel with
  | O => None
  | S fuel =>
      let offs := count m in
      let '(nxt, p) := next v pos in
      match p with
      | INull => Some (m, pos, 0)
      | IErr e => Some (m, pos, e)
      | IPtr v =>
          '(m, err) ← run_show v m;
          if negb (err =? 0) || (count m =? size m) then Some (with_count offs m, pos, err)
          else fill_loop fuel want nxt v m
      end
  end.

(** The bytes copied to the user, the return value, [*ppos] and the file. *)
Definition seq_done (copied : list Z) (err ppos : Z) (m : seq_file) : list Z * Z * Z * seq_file :=
  let n := Z.of_nat (length copied) in
  if n =? 0 then (copied, err, ppos, m) else (copied, n, ppos + n, m).

Definition seq_fill (fuel : nat) (copied : list Z) (want ppos : Z) (m : seq_file)
    : option (list Z * Z * Z * seq_file) :=
  r ← first_loop fuel m;
  match r with
  | FDone m err => Some (seq_done copied err ppos m)
  | FNomem m => Some (seq_done copied (- ENOMEM) ppos m)
  | FFill m pos v =>
      '(m, pos, err) ← fill_loop fuel want pos v m;
      let n := Z.min (count m) want in
      bs ← load_bytes m 0 n;
      let m := with_count (count m - n) m in
      let '(m, pos) := if count m =? 0 then (m, pos + 1) else (with_from n (count m) m, pos) in
      Some (seq_done (copied ++ bs) err ppos (with_index pos m))
  end.

Definition seq_read_m (fuel : nat) (want ppos : Z) (m : seq_file)
    : option (list Z * Z * Z * seq_file) :=
  let m := match buf m with None => grab PAGE_SIZE m | Some _ => m end in
  match buf m with
  | None => Some (seq_done [] (- ENOMEM) ppos m)
  | Some _ =>
      if negb (count m =? 0) then
        let n := Z.min (count m) want in
        bs ← load_bytes m (from m) n;
        let m := with_from (from m + n) (count m - n) m in
        let m := if count m =? 0 then with_index (index m + 1) m else m in
        if want - n =? 0 then Some (seq_done bs 0 ppos m)
        else seq_fill fuel bs (want - n) ppos m
      else seq_fill fuel [] want ppos m
  end.

Definition seq_read (fuel : nat) (want : Z) (f : file) : option (list Z * Z * file) :=
  '(bs, r, ppos, m) ← seq_read_m fuel want (f_pos f) (with_version (f_version f) (private_data f));
  Some (bs, r, File ppos (version m) m).

(** ** Seeking *)

Fixpoint traverse_loop (fuel : nat) (pos offset : Z) (p : iptr) (error : Z) (m : seq_file)
    : option (Z * seq_file) :=
  match fuel with
  | O => None
  | S fuel =>
      match p with
      | INull => Some (error, m)
      | IErr e => Some (e, m)
      | IPtr v =>
          '(m, error) ← run_show v m;
          if negb (error =? 0) then Some (error, m) else
          if count m =? size m then
            let m := grab (u64 (Z.shiftl (size m) 1)) m in
            Some (match buf m with None => - ENOMEM | Some _ => - EAGAIN end, m)
          else if offset <? pos + count m then
            let f := offset - pos in Some (error, with_from f (count m - f) m)
          else
            let pos := pos + count m in
            let m := with_count 0 m in
            if pos =? offset then Some (error, with_index (index m + 1) m) else
            let '(i, p) := next v (index m) in
            traverse_loop fuel pos offset p error (with_index i m)
      end
  end.

Definition traverse (fuel : nat) (offset : Z) (m : seq_file) : option (Z * seq_file) :=
  let m := with_version 0 (with_index 0 (with_from 0 0 m)) in
  if offset =? 0 then Some (0, m) else
  let m := match buf m with None => grab PAGE_SIZE m | Some _ => m end in
  match buf m with
  | None => Some (- ENOMEM, m)
  | Some _ =>
      let '(i, p) := start (index m) in
      traverse_loop fuel 0 offset p 0 (with_index i m)
  end.

(** [while ((retval = traverse(m, offset)) == -EAGAIN) ;] *)
Fixpoint traverse_again (again fuel : nat) (offset : Z) (m : seq_file) : option (Z * seq_file) :=
  match again with
  | O => None
  | S again =>
      '(r, m) ← traverse fuel offset m;
      if r =? - EAGAIN then traverse_again again fuel offset m else Some (r, m)
  end.

Definition seq_lseek (again fuel : nat) (offset origin : Z) (f : file) : option (Z * file) :=
  let m := with_version (f_version f) (private_data f) in
  let offset := if origin =? 1 then offset + f_pos f else offset in
  let bad := negb ((origin =? 0) || (origin =? 1)) || (offset <? 0) in
  if bad then Some (- EINVAL, File (f_pos f) (version m) m) else
  if offset =? f_pos f then Some (offset, File (f_pos f) (version m) m) else
  '(r, m) ← traverse_again again fuel offset m;
  if negb (r =? 0) then
    let m := with_version 0 (with_count 0 (with_index 0 m)) in
    Some (r, File 0 (version m) m)
  else Some (offset, File offset (version m) m).
End code.

(** The file after [seq_open]. *)
Definition seq_open : file := File 0 0 (SF None 0 0 0 0 0 0).

(** ** What is in the buffer *)

Abbreviation len l := (Z.of_nat (length l)).

Definition text_of (q : piece) : list Z :=
  match q with
  | Putc c => [c]
  | Puts s | Printf s => s
  | Escape s esc => s ≫= (λ c, if bool_decide (c ∈ esc) then octal c else [c])
  end.

Definition text (qs : list piece) : list Z := qs ≫= text_of.

(** The text [l] was printed from the beginning of the buffer: it is there as
    long as it is shorter than the buffer, and the buffer counts as full otherwise. *)
Definition printed (m : seq_file) (l : list Z) : Prop :=
  exists b, buf m = Some b /\ len b = size m /\ count m = Z.min (len l) (size m) /\
    (len l < size m -> take (length l) b = l).

Definition same_meta (m m' : seq_file) : Prop :=
  size m' = size m /\ from m' = from m /\ index m' = index m /\ version m' = version m /\
  allocs m' = allocs m.

Lemma same_meta_refl m : same_meta m m.
Proof. by split_and!. Qed.

Lemma same_meta_trans m1 m2 m3 : same_meta m1 m2 -> same_meta m2 m3 -> same_meta m1 m3.
Proof. unfold same_meta. intuition congruence. Qed.

(** A store that extends the printed text. *)
Lemma store_text m l s b :
  buf m = Some b -> len b = size m -> take (length l) b = l -> len l + len s <= size m ->
  exists m' b', store_bytes (len l) s m = Some m' /\ same_meta m m' /\ count m' = count m /\
    buf m' = Some b' /\ len b' = size m /\ take (length (l ++ s)) b' = l ++ s.
Proof.
  intros Hb Hl Ht Hs. unfold store_bytes. rewrite Hb; cbn [mbind option_bind].
  rewrite (proj2 (Z.leb_le _ _)), (proj2 (Z.leb_le _ _)) by lia. cbn [andb].
  do 2 eexists; split; [done|]. split; [by split_and!|]. split; [done|]. split; [done|].
  rewrite Nat2Z.id, Ht, !length_app, length_drop. split; [lia|].
  rewrite app_assoc, take_app_le by (rewrite length_app; lia).
  by rewrite take_ge by (rewrite length_app; lia).
Qed.

Lemma store_printed m l s b :
  buf m = Some b -> len b = size m -> take (length l) b = l -> count m = len l ->
  len l + len s <= size m ->
  exists m', store_bytes (len l) s m = Some m' /\ same_meta m m' /\ count m' = len l /\
    printed (with_count (len l + len s) m') (l ++ s).
Proof.
  intros Hb Hl Ht Hc Hs. destruct (store_text m l s b Hb Hl Ht Hs) as (m' & b' & E & S & C & B & L & T).
  exists m'. split_and!; [done|done|congruence|]. exists b'. destruct S as (Es & _). cbn. rewrite Es.
  split_and!; [done|done|rewrite length_app; lia|done].
Qed.

Lemma printed_full m l b : buf m = Some b -> len b = size m -> size m <= len l ->
  printed (with_count (size m) m) l.
Proof. intros Hb Hl H. exists b. cbn. split_and!; [done|done|lia|lia]. Qed.

Lemma printed_split m l : printed m l ->
  exists b, buf m = Some b /\ len b = size m /\
    ((count m = len l /\ len l < size m /\ take (length l) b = l) \/
     (count m = size m /\ size m <= len l)).
Proof.
  intros (b & Hb & Hl & Hc & Ht). exists b. split; [done|]. split; [done|].
  destruct (Z.lt_ge_cases (len l) (size m)); [left|right]; (split_and!; auto; lia).
Qed.

Lemma store_at p m l s b :
  buf m = Some b -> len b = size m -> take (length l) b = l -> p = len l -> p + len s <= size m ->
  exists m', store_bytes p s m = Some m' /\ same_meta m m' /\ printed (with_count (p + len s) m') (l ++ s).
Proof.
  intros Hb Hl Ht -> Hs. destruct (store_text m l s b Hb Hl Ht Hs) as (m' & b' & E & S & C & B & L & T).
  exists m'. split_and!; [done|done|]. exists b'. destruct S as (Es & _). cbn. rewrite Es.
  split_and!; [done|done|rewrite length_app; lia|done].
Qed.

Lemma escape_loop_printed s esc p m l :
  printed (with_count p m) l ->
  exists r m', escape_loop s esc p m = Some (r, m') /\ same_meta m m' /\
    printed m' (l ++ text_of (Escape s esc)).
Proof.
  revert p m l; induction s as [|c s IH]; intros p m l Hp; cbn [escape_loop text_of].
  { do 2 eexists; split; [done|]. split; [by split_and!|]. cbn. by rewrite app_nil_r. }
  destruct (printed_split _ _ Hp) as (b & Hb & Hl & [(Hc & Hlt & Ht)|(Hc & Hge)]); cbn in Hb, Hl, Hc.
  - cbn in Hlt. rewrite (proj2 (Z.ltb_lt _ _)) by lia. cbn [mbind list_bind]. case_bool_decide as He.
    + destruct (Z.ltb_spec (p + 3) (size m)).
      * destruct (store_at p m l (octal c) b Hb Hl Ht Hc) as (m1 & -> & S1 & P1); [cbn; lia|].
        cbn [mbind option_bind].
        destruct (IH (p + 4) m1 (l ++ octal c) P1) as (r & m' & -> & S' & P').
        do 2 eexists; split; [done|]. split; [by eapply same_meta_trans|].
        by rewrite <- app_assoc in P'.
      * do 2 eexists; split; [done|]. split; [by split_and!|].
        eapply printed_full; [done|done|]. rewrite !length_app. cbn [length octal]. lia.
    + destruct (store_at p m l [c] b Hb Hl Ht Hc) as (m1 & -> & S1 & P1); [cbn; lia|].
      cbn [mbind option_bind].
      destruct (IH (p + 1) m1 (l ++ [c]) P1) as (r & m' & -> & S' & P').
      do 2 eexists; split; [done|]. split; [by eapply same_meta_trans|].
      by rewrite <- app_assoc in P'.
  - cbn in Hge. rewrite (proj2 (Z.ltb_ge _ _)) by lia. do 2 eexists; split; [done|].
    split; [by split_and!|]. rewrite Hc. eapply printed_full; [done|done|]. rewrite length_app. lia.
Qed.

Lemma print_printed q m l : printed m l ->
  exists r m', print q m = Some (r, m') /\ same_meta m m' /\ printed m' (l ++ text_of q).
Proof.
  intros Hp. destruct q as [c|s|s|s esc]; cbn [print text_of].
  4: { apply escape_loop_printed. by destruct m. }
  all: destruct (printed_split _ _ Hp) as (b & Hb & Hl & [(Hc & Hlt & Ht)|(Hc & Hge)]).
  - unfold seq_putc. rewrite Hc, (proj2 (Z.ltb_lt _ _)) by done.
    destruct (store_printed m l [c] b Hb Hl Ht Hc) as (m1 & -> & S1 & C1 & P1); [cbn; lia|].
    cbn [mbind option_bind]. rewrite C1. do 2 eexists; split; [done|]. by split.
  - unfold seq_putc. rewrite Hc, Z.ltb_irrefl. do 2 eexists; split; [done|]. split; [apply same_meta_refl|].
    exists b. rewrite length_app. split_and!; [done|done|lia|lia].
  - unfold seq_puts. destruct (Z.ltb_spec (count m + len s) (size m)).
    + rewrite Hc in *. destruct (store_printed m l s b Hb Hl Ht Hc) as (m1 & -> & S1 & C1 & P1); [lia|].
      cbn [mbind option_bind]. rewrite C1. do 2 eexists; split; [done|]. by split.
    + do 2 eexists; split; [done|]. split; [by split_and!|].
      eapply printed_full; [done|done|]. rewrite length_app. lia.
  - unfold seq_puts. rewrite (proj2 (Z.ltb_ge _ _)) by lia. do 2 eexists; split; [done|].
    split; [by split_and!|]. eapply printed_full; [done|done|]. rewrite length_app. lia.
  - unfold seq_printf. rewrite Hc, (proj2 (Z.ltb_lt _ _)) by done.
    set (t := take _ s ++ [0]).
    assert (Hlen : len t <= size m - len l).
    { unfold t. rewrite length_app, length_take. cbn. lia. }
    destruct (store_text m l t b Hb Hl Ht) as (m1 & b1 & -> & S1 & C1 & Hb1 & Hl1 & Ht1); [lia|].
    cbn [mbind option_bind]. pose proof (proj1 S1) as Es. rewrite C1, Es, Hc.
    destruct (Z.ltb_spec (len l + len s) (size m)).
    + do 2 eexists; split; [done|]. split; [done|]. exists b1. cbn. rewrite Es, length_app.
      assert (t = s ++ [0]) as Et by (unfold t; by rewrite take_ge by lia).
      split_and!; [done|done|lia|]. intros _. rewrite <- length_app.
      rewrite Et, app_assoc in Ht1. apply (f_equal (take (length (l ++ s)))) in Ht1.
      rewrite take_take, take_app_length in Ht1.
      rewrite Nat.min_l in Ht1 by (rewrite !length_app; lia). done.
    + do 2 eexists; split; [done|]. split; [destruct S1 as (?&?&?&?&?); split_and!; done|].
      rewrite <- Es. eapply printed_full; [done|lia|]. rewrite length_app. lia.
  - unfold seq_printf. rewrite Hc, Z.ltb_irrefl. do 2 eexists; split; [done|].
    split; [by split_and!|]. eapply printed_full; [done|done|]. rewrite length_app. lia.
Qed.

Lemma print_all_printed qs m l : printed m l ->
  exists m', print_all qs m = Some m' /\ same_meta m m' /\ printed m' (l ++ text qs).
Proof.
  revert m l; induction qs as [|q qs IH]; intros m l Hp; cbn.
  - exists m. rewrite app_nil_r. split_and!; [done|apply same_meta_refl|done].
  - destruct (print_printed q m l Hp) as (r & m1 & -> & S1 & P1). cbn.
    destruct (IH m1 _ P1) as (m' & -> & S' & P'). exists m'. split; [done|].
    split; [by eapply same_meta_trans|]. by rewrite app_assoc.
Qed.

(** Printing never changes what was printed before. *)
Definition keeps (k : Z) (m m' : seq_file) : Prop :=
  forall b, buf m = Some b -> exists b', buf m' = Some b' /\ take (Z.to_nat k) b' = take (Z.to_nat k) b.

Lemma keeps_refl k m : keeps k m m.
Proof. intros b Hb. eauto. Qed.

Lemma keeps_trans k m1 m2 m3 : keeps k m1 m2 -> keeps k m2 m3 -> keeps k m1 m3.
Proof. intros H1 H2 b Hb. destruct (H1 b Hb) as (b' & Hb' & E). destruct (H2 b' Hb') as (b'' & ? & ?).
  exists b''. split; congruence. Qed.

Lemma store_keeps k off s m m' c : store_bytes off s m = Some m' -> 0 <= k <= off -> keeps k m (with_count c m').
Proof.
  unfold store_bytes. intros E Hk b Hb. rewrite Hb in E; cbn in E. case_test; [|done].
  injection E as <-. cbn. eexists; split; [done|]. unbool.
  rewrite take_app_le by (rewrite length_take; lia). rewrite take_take. f_equal. lia.
Qed.

Lemma escape_keeps k s esc p m r m' :
  escape_loop s esc p m = Some (r, m') -> 0 <= k <= p -> keeps k m m'.
Proof.
  revert p m; induction s as [|c s IH]; intros p m; cbn; [intros [= _ <-] _ b Hb; eauto|].
  intros E Hk. case_test; [|injection E as _ <-; intros b Hb; eauto].
  case_bool_decide; [case_test; [|injection E as _ <-; intros b Hb; eauto]|].
  - destruct (store_bytes p (octal c) m) as [m1|] eqn:Est; [|done]. cbn in E.
    eapply (keeps_trans k m m1); [|eapply IH; [exact E|lia]].
    replace m1 with (with_count (count m1) m1) by (by destruct m1). by eapply store_keeps.
  - destruct (store_bytes p [c] m) as [m1|] eqn:Est; [|done]. cbn in E.
    eapply (keeps_trans k m m1); [|eapply IH; [exact E|lia]].
    replace m1 with (with_count (count m1) m1) by (by destruct m1). by eapply store_keeps.
Qed.

Lemma print_keeps k q m r m' : print q m = Some (r, m') -> 0 <= k <= count m -> keeps k m m'.
Proof.
  destruct q as [c|s|s|s esc]; cbn.
  - unfold seq_putc. intros E Hk. case_test; [|injection E as _ <-; apply keeps_refl].
    destruct (store_bytes _ _ _) as [m1|] eqn:Est; [|done]. injection E as _ <-. by eapply store_keeps.
  - unfold seq_puts. intros E Hk. case_test; [|injection E as _ <-; intros b Hb; eauto].
    destruct (store_bytes _ _ _) as [m1|] eqn:Est; [|done]. injection E as _ <-. by eapply store_keeps.
  - unfold seq_printf. intros E Hk. case_test; [|injection E as _ <-; intros b Hb; eauto].
    destruct (store_bytes _ _ _) as [m1|] eqn:Est; [|done]. cbn in E.
    case_test; injection E as _ <-; by eapply store_keeps.
  - apply escape_keeps.
Qed.

Lemma print_all_keeps k qs m m' l :
  print_all qs m = Some m' -> printed m l -> 0 <= k <= count m -> keeps k m m'.
Proof.
  revert m l; induction qs as [|q qs IH]; intros m l; cbn; [intros [= <-] _ _; apply keeps_refl|].
  intros E Hp Hk. destruct (print_printed q m l Hp) as (r & m1 & E1 & S1 & P1). rewrite E1 in E; cbn in E.
  eapply keeps_trans; [by eapply print_keeps|]. eapply (IH m1 _ E P1).
  destruct Hp as (b & _ & _ & C & _), P1 as (b1 & _ & _ & C1 & _). destruct S1 as (Es & _).
  rewrite length_app in C1. lia.
Qed.

(** ** The stream *)
Section stream.
Context (kmalloc : nat -> Z -> option (list Z)).
Context (start : Z -> Z * iptr) (next : Z -> Z -> Z * iptr) (show : Z -> list piece * Z).
(** The records of the file. *)
Context (R : list (list piece)).

Definition item (i : Z) : iptr := if i <? len R then IPtr i else INull.

(** Memory is available, the iterator walks over [R], and no record is empty
    or as long as the address space. *)
Hypothesis kmalloc_ok : forall n z, 0 <= z -> exists b, kmalloc n z = Some b /\ len b = z.
Hypothesis start_ok : forall i, 0 <= i -> start i = (i, item i).
Hypothesis next_ok : forall v i, 0 <= i -> next v i = (i + 1, item (i + 1)).
Hypothesis show_ok : forall i qs, 0 <= i -> R !! Z.to_nat i = Some qs -> show i = (qs, 0).
Hypothesis texts_ok : forall qs, qs ∈ R -> 0 < len (text qs) < 2 ^ 62.

Definition content : list Z := R ≫= text.

(** The text of the first [i] records. *)
Definition pre (i : Z) : list Z := take (Z.to_nat i) R ≫= text.

Lemma pre_0 : pre 0 = [].
Proof. done. Qed.

Lemma pre_S i qs : 0 <= i -> R !! Z.to_nat i = Some qs -> pre (i + 1) = pre i ++ text qs.
Proof.
  intros Hi Hq. unfold pre. replace (Z.to_nat (i + 1)) with (S (Z.to_nat i)) by lia.
  rewrite (take_S_r _ _ _ Hq), bind_app. cbn. by rewrite app_nil_r.
Qed.

Lemma pre_all i : len R <= i -> pre i = content.
Proof. intros Hi. unfold pre. by rewrite take_ge by lia. Qed.

Lemma pre_content i : exists rest, content = pre i ++ rest.
Proof.
  exists (drop (Z.to_nat i) R ≫= text). unfold content, pre. rewrite <- bind_app. by rewrite take_drop.
Qed.

Lemma rec_Some i : 0 <= i < len R -> exists qs, R !! Z.to_nat i = Some qs /\ item i = IPtr i /\
  show i = (qs, 0) /\ 0 < len (text qs) < 2 ^ 62.
Proof.
  intros Hi. destruct (lookup_lt_is_Some_2 R (Z.to_nat i)) as [qs Hq]; [lia|]. exists qs.
  split; [done|]. split; [unfold item; by rewrite (proj2 (Z.ltb_lt _ _)) by lia|].
  split; [apply show_ok; [lia|done]|]. apply texts_ok. by eapply list_elem_of_lookup_2.
Qed.

Lemma item_end i : len R <= i -> item i = INull.
Proof. intros Hi. unfold item. by rewrite (proj2 (Z.ltb_ge _ _)) by lia. Qed.

(** The buffer exists and has a sane size. *)
Definition wf (m : seq_file) : Prop :=
  exists b, buf m = Some b /\ len b = size m /\ PAGE_SIZE <= size m < 2 ^ 63.

(** The next byte that a read returns is the one at offset [P]. *)
Definition at_pos (m : seq_file) (P : Z) : Prop :=
  (buf m = None \/ wf m) /\ 0 <= index m <= len R /\
  (count m = 0 /\ P = len (pre (index m)) \/
   0 < count m /\ index m < len R /\ 0 <= from m /\ 0 <= P /\
   P + count m = len (pre (index m + 1)) /\
   exists b, buf m = Some b /\ from m + count m <= len b /\
     take (Z.to_nat (count m)) (drop (Z.to_nat (from m)) b)
     = take (Z.to_nat (count m)) (drop (Z.to_nat P) content)).

Lemma printed_empty m : wf m -> count m = 0 -> printed m [].
Proof. intros (b & Hb & Hl & Hs) Hc. exists b. cbn. unfold PAGE_SIZE in *. split_and!; [done|done|lia|done]. Qed.

Lemma grab_wf n m : PAGE_SIZE <= n < 2 ^ 63 -> wf (grab kmalloc n m) /\
  index (grab kmalloc n m) = index m /\ from (grab kmalloc n m) = from m /\
  count (grab kmalloc n m) = count m /\ size (grab kmalloc n m) = n.
Proof.
  intros Hn. unfold grab, PAGE_SIZE in *.
  destruct (kmalloc_ok (allocs m) n) as (b & -> & Hl); [lia|]. split; [|done].
  exists b. cbn. split; [done|]. split; [done|]. unfold PAGE_SIZE. lia.
Qed.

Lemma printed_wf m l : printed m l -> PAGE_SIZE <= size m < 2 ^ 63 -> wf m.
Proof. intros (b & ? & ? & _) ?. by exists b. Qed.

Lemma wf_bounds m : wf m -> 4096 <= size m < 2 ^ 63.
Proof. unfold wf, PAGE_SIZE. intros (b & _ & _ & H). exact H. Qed.

(** Showing record [i] on top of the text [l]. *)
Lemma show_step m i l :
  wf m -> printed m l -> 0 <= i < len R ->
  exists m' qs, R !! Z.to_nat i = Some qs /\ run_show show i m = Some (m', 0) /\
    printed m' (l ++ text qs) /\ wf m' /\ same_meta m m' /\ keeps (count m) m m'.
Proof.
  intros W P Hi. destruct (rec_Some i Hi) as (qs & Hq & _ & Es & _).
  destruct (print_all_printed qs m l P) as (m1 & Ep & S1 & P1). exists m1, qs.
  unfold run_show. rewrite Es, Ep. split_and!; try done.
  - eapply printed_wf; [done|]. rewrite (proj1 S1). by apply wf_bounds.
  - eapply print_all_keeps; [done|done|]. destruct P as (b & _ & _ & -> & _).
    apply wf_bounds in W. lia.
Qed.

(** One turn of the loop for the first record. *)
Lemma first_turn f m :
  wf m -> count m = 0 -> 0 <= index m < len R ->
  exists m1 qs, R !! Z.to_nat (index m) = Some qs /\ printed m1 (text qs) /\ wf m1 /\ same_meta m m1 /\
    first_loop kmalloc start show (S f) m =
      if count m1 <? size m1 then Some (FFill m1 (index m) (index m)) else
      let m2 := grab kmalloc (u64 (Z.shiftl (size m1) 1)) m1 in
      match buf m2 with
      | None => Some (FNomem m2)
      | Some _ => first_loop kmalloc start show f (with_version 0 (with_count 0 m2))
      end.
Proof.
  intros W C Hi. destruct (rec_Some _ Hi) as (qs' & _ & Ei & _ & _).
  destruct (show_step m (index m) [] W (printed_empty m W C) Hi)
    as (m1 & qs & Hq & E1 & P1 & W1 & S1 & _).
  exists m1, qs. split_and!; [done..|]. cbn [first_loop]. rewrite start_ok, Ei, E1 by lia. done.
Qed.

Lemma printed_count m l : printed m l -> count m = Z.min (len l) (size m).
Proof. by intros (b & _ & _ & H & _). Qed.

Lemma double_size m l : printed m l -> wf m -> len l < 2 ^ 62 -> ~ count m < size m ->
  u64 (Z.shiftl (size m) 1) = 2 * size m /\ 2 * size m < 2 ^ 63.
Proof.
  intros P W Hl Hc. apply printed_count in P. apply wf_bounds in W.
  rewrite shiftl_mul, wrap_small by lia. lia.
Qed.

(** The first record is shown after as many doublings as it needs. *)
Lemma first_loop_ok fuel m :
  wf m -> count m = 0 -> 0 <= index m < len R ->
  (forall qs, qs ∈ R -> len (text qs) < size m * 2 ^ Z.of_nat fuel) ->
  exists m' qs, first_loop kmalloc start show (S fuel) m = Some (FFill m' (index m) (index m)) /\
    R !! Z.to_nat (index m) = Some qs /\ printed m' (text qs) /\ count m' < size m' /\ wf m' /\
    index m' = index m.
Proof.
  revert m; induction fuel as [|fuel IH]; intros m W C Hi Hf.
  - destruct (first_turn 0 m W C Hi) as (m1 & qs & Hq & P1 & W1 & S1 & E).
    specialize (Hf qs ltac:(by eapply list_elem_of_lookup_2)). pose proof (printed_count _ _ P1).
    destruct S1 as (Es & _ & Ei & _). assert (count m1 < size m1) by lia.
    rewrite (proj2 (Z.ltb_lt _ _)) in E by done. exists m1, qs. split_and!; done.
  - destruct (first_turn (S fuel) m W C Hi) as (m1 & qs & Hq & P1 & W1 & S1 & E).
    pose proof S1 as (Es & _ & Ei & _). destruct (Z.ltb_spec (count m1) (size m1)) as [Hlt|Hge].
    + exists m1, qs. split_and!; done.
    + destruct (double_size m1 _ P1 W1) as [Ed Hd]; [apply texts_ok; by eapply list_elem_of_lookup_2|lia|].
      rewrite Ed in E. pose proof (wf_bounds _ W1).
      destruct (grab_wf (2 * size m1) m1) as (W2 & Ei2 & _ & _ & Es2); [unfold PAGE_SIZE; lia|].
      rewrite E. cbv zeta. pose proof W2 as (b2 & Hb2 & _). rewrite Hb2.
      set (m3 := with_version 0 (with_count 0 (grab kmalloc (2 * size m1) m1))).
      destruct (IH m3) as (m' & qs' & E' & Hq' & R').
      * exact W2.
      * done.
      * change (index m3) with (index m1). lia.
      * intros q Hqr. change (size m3) with (size (grab kmalloc (2 * size m1) m1)). rewrite Es2, Es.
        specialize (Hf q Hqr). rewrite Nat2Z.inj_succ, Z.pow_succ_r in Hf by lia. lia.
      * exists m', qs'. change (index m3) with (index m1) in *. rewrite Ei in *. done.
Qed.

Lemma fill_loop_ok fuel want m i pos l :
  wf m -> printed m l -> count m < size m -> 0 <= i <= pos -> pos < len R ->
  pre i ++ l = pre (pos + 1) -> len R - pos <= Z.of_nat fuel ->
  exists m' pos' l' b', fill_loop next show fuel want pos pos m = Some (m', pos', 0) /\
    wf m' /\ count m' = len l' /\ buf m' = Some b' /\ take (length l') b' = l' /\
    pre i ++ l' = pre (pos' + 1) /\ pos <= pos' < len R /\ len l <= len l'.
Proof.
  revert m pos l; induction fuel as [|fuel IH]; [lia|]. intros m pos l W P Hc Hi Hp Hpre Hf.
  assert (Hstop : forall e, e = 0 -> exists m' pos' l' b', Some (m, pos, e) = Some (m', pos', 0) /\
    wf m' /\ count m' = len l' /\ buf m' = Some b' /\ take (length l') b' = l' /\
    pre i ++ l' = pre (pos' + 1) /\ pos <= pos' < len R /\ len l <= len l').
  { intros e ->. destruct P as (b & Hb & Hl & HC & Ht). exists m, pos, l, b.
    split_and!; try done; try lia; apply Ht; lia. }
  cbn [fill_loop]. destruct (Z.ltb_spec (count m) want) as [Hlt|Hge]; cbn [negb]; [|by apply Hstop].
  rewrite next_ok by lia. destruct (Z.lt_ge_cases (pos + 1) (len R)) as [Hn|Hn].
  2: { rewrite item_end by done. by apply Hstop. }
  destruct (rec_Some (pos + 1)) as (qs' & _ & -> & _ & _); [lia|].
  destruct (show_step m (pos + 1) l W P ltac:(lia)) as (m1 & qs & Hq & -> & P1 & W1 & S1 & K).
  cbn [mbind option_bind]. rewrite Z.eqb_refl; cbn [negb orb].
  destruct (Z.eqb_spec (count m1) (size m1)) as [Hfull|Hroom].
  - destruct P as (b & Hb & Hl & HC & Ht). destruct (K b Hb) as (b1 & Hb1 & Hk).
    assert (count m = len l) as Ec by lia. rewrite Ec, Nat2Z.id, Ht in Hk by lia.
    exists (with_count (count m) m1), pos, l, b1. rewrite Ec. split_and!; try done; lia.
  - assert (Hpre' : pre i ++ (l ++ text qs) = pre (pos + 1 + 1)).
    { rewrite (pre_S (pos + 1) qs) by (done || lia). by rewrite app_assoc, Hpre. }
    assert (Hc' : count m1 < size m1).
    { apply printed_count in P1. lia. }
    destruct (IH m1 (pos + 1) (l ++ text qs) W1 P1 Hc' ltac:(lia) Hn Hpre' ltac:(lia))
      as (m' & pos' & l' & b' & E & ? & ? & ? & ? & ? & ? & Hll).
    exists m', pos', l', b'. rewrite length_app in Hll. split_and!; try done; lia.
Qed.

(** The fuel that every read and seek of the file needs. *)
Definition enough (fuel : nat) : Prop :=
  len R < Z.of_nat fuel /\
  forall qs, qs ∈ R -> len (text qs) < PAGE_SIZE * 2 ^ (Z.of_nat fuel - 1).

Lemma enough_first fuel m : enough fuel -> wf m ->
  exists f, fuel = S f /\ forall qs, qs ∈ R -> len (text qs) < size m * 2 ^ Z.of_nat f.
Proof.
  intros [Hl He] W%wf_bounds. destruct fuel as [|f]; [lia|]. exists f. split; [done|]. intros qs Hq.
  specialize (He qs Hq). replace (Z.of_nat (S f) - 1) with (Z.of_nat f) in He by lia.
  assert (0 < 2 ^ Z.of_nat f) by (apply Z.pow_pos_nonneg; lia). unfold PAGE_SIZE in *. nia.
Qed.

Lemma seq_done_eq bs ppos m : seq_done bs 0 ppos m = (bs, len bs, ppos + len bs, m).
Proof. unfold seq_done. destruct (Z.eqb_spec (len bs) 0) as [->|]; [by rewrite Z.add_0_r|done]. Qed.

(** [l] is what the stream has at offset [P]. *)
Definition sub_at (P : Z) (l : list Z) : Prop := l = take (length l) (drop (Z.to_nat P) content).

Lemma sub_at_intro p l : (exists rest, content = p ++ l ++ rest) -> sub_at (len p) l.
Proof.
  intros [rest E]. unfold sub_at. by rewrite E, Nat2Z.id, drop_app_length, take_app_length.
Qed.

Lemma sub_at_split P a b : 0 <= P -> sub_at P (a ++ b) -> sub_at P a /\ sub_at (P + len a) b.
Proof.
  unfold sub_at. intros HP E. rewrite length_app in E. split.
  - apply (f_equal (take (length a))) in E. rewrite take_app_length, take_take in E.
    by rewrite Nat.min_l in E by lia.
  - apply (f_equal (drop (length a))) in E. rewrite drop_app_length, <- take_drop_commute, drop_drop in E.
    by replace (Z.to_nat P + length a)%nat with (Z.to_nat (P + len a)) in E by lia.
Qed.

Lemma pre_app_sub i l k : pre i ++ l = pre k -> sub_at (len (pre i)) l.
Proof.
  intros E. apply sub_at_intro. destruct (pre_content k) as [rest Er]. exists rest.
  by rewrite app_assoc, E.
Qed.

Lemma load_prefix m b l n : buf m = Some b -> take (length l) b = l -> 0 <= n <= len l ->
  load_bytes m 0 n = Some (take (Z.to_nat n) l).
Proof.
  intros Hb Ht Hn. unfold load_bytes. rewrite Hb; cbn [mbind option_bind].
  assert (length l <= length b)%nat by (rewrite <- Ht, length_take; lia).
  rewrite !(proj2 (Z.leb_le _ _)) by lia. cbn [andb]. rewrite drop_0, <- Ht, take_take.
  do 2 f_equal. lia.
Qed.

Lemma seq_fill_ok fuel copied want ppos m :
  enough fuel -> wf m -> count m = 0 -> 0 <= index m <= len R -> 0 < want ->
  let P := len (pre (index m)) in
  exists bs m', seq_fill kmalloc start next show fuel copied want ppos m
      = Some (copied ++ bs, len (copied ++ bs), ppos + len (copied ++ bs), m') /\
    sub_at P bs /\ len bs <= want /\ (index m < len R -> 0 < len bs) /\ at_pos m' (P + len bs).
Proof.
  intros Hfuel W C Hi Hw P. unfold seq_fill.
  destruct (enough_first fuel m Hfuel W) as (f & -> & Hf).
  destruct (Z.lt_ge_cases (index m) (len R)) as [Hlt|Hge].
  - destruct (first_loop_ok f m W C ltac:(lia) Hf) as (m1 & qs & -> & Hq & P1 & Hc1 & W1 & Ei1).
    cbn [mbind option_bind].
    assert (Hpre : pre (index m) ++ text qs = pre (index m + 1)) by (symmetry; apply pre_S; [lia|done]).
    destruct (fill_loop_ok (S f) want m1 (index m) (index m) (text qs) W1 P1 Hc1 ltac:(lia) Hlt Hpre)
      as (m2 & pos & l & b & -> & W2 & C2 & Hb & Ht & Hpl & Hpos & Hll); [destruct Hfuel; lia|].
    cbn [mbind option_bind].
    assert (0 < len (text qs)) by (apply texts_ok; by eapply list_elem_of_lookup_2).
    set (n := Z.min (count m2) want).
    rewrite (load_prefix m2 b l n Hb Ht) by lia. cbn [mbind option_bind].
    pose proof (pre_app_sub _ _ _ Hpl) as Hsub. fold P in Hsub.
    rewrite <- (take_drop (Z.to_nat n) l) in Hsub.
    apply sub_at_split in Hsub as [Hs1 Hs2]; [|lia].
    assert (Hlen : len (take (Z.to_nat n) l) = n) by (rewrite length_take; lia).
    rewrite Hlen in Hs2.
    assert (Hpl' : P + len l = len (pre (pos + 1))) by (rewrite <- Hpl, length_app; lia).
    cbn [count with_count]. destruct (Z.eqb_spec (count m2 - n) 0) as [Hz|Hz];
      rewrite seq_done_eq; do 2 eexists; (split; [done|]); rewrite Hlen;
      (split; [exact Hs1|split; [lia|split; [lia|]]]).
    + split; [by right|]. split; [cbn; lia|]. left. cbn. split; [lia|]. lia.
    + split; [by right|]. split; [cbn; lia|]. right. cbn [index with_index count with_from from buf with_count].
      split_and!; try lia. exists b. split; [done|].
      assert (length l <= length b)%nat by (rewrite <- Ht, length_take; lia).
      split; [lia|]. unfold sub_at in Hs2. rewrite length_drop in Hs2.
      replace (Z.to_nat (count m2 - n)) with (length l - Z.to_nat n)%nat by lia.
      rewrite <- Hs2, take_drop_commute.
      replace (Z.to_nat n + (length l - Z.to_nat n))%nat with (length l) by lia. by rewrite Ht.
  - cbn [first_loop]. rewrite start_ok, item_end by lia. cbn [mbind option_bind].
    rewrite seq_done_eq. exists [], (with_count 0 m). rewrite app_nil_r. split; [done|].
    split; [done|]. split; [cbn; lia|]. split; [lia|]. cbn [length]. rewrite Z.add_0_r.
    split; [by right|]. split; [cbn; lia|]. left. done.
Qed.

Lemma at_pos_content m P : at_pos m P -> 0 <= P <= len content /\ (P < len content -> index m < len R).
Proof.
  intros (_ & Hi & [[_ ->]|(? & ? & _ & ? & E & _)]).
  - split.
    + destruct (pre_content (index m)) as [rest E]. rewrite E, length_app. lia.
    + intros H. destruct (Z.lt_ge_cases (index m) (len R)) as [?|Hge]; [done|].
      rewrite (pre_all (index m)) in H by done. lia.
  - destruct (pre_content (index m + 1)) as [rest Er]. rewrite Er, length_app. split; [lia|done].
Qed.

(** Taking [n] of the bytes that wait in the buffer. *)
Lemma at_pos_load m P n :
  at_pos m P -> count m <> 0 -> 0 <= n <= count m ->
  exists bs, load_bytes m (from m) n = Some bs /\ len bs = n /\ sub_at P bs.
Proof.
  intros (_ & _ & [[? _]|(Hc & Hi & Hfr & HP & E & b & Hb & Hl & Ht)]) Hne Hn; [done|].
  unfold load_bytes. rewrite Hb; cbn [mbind option_bind].
  rewrite !(proj2 (Z.leb_le _ _)) by lia. cbn [andb]. eexists; split; [done|].
  assert (Hlen : len (take (Z.to_nat n) (drop (Z.to_nat (from m)) b)) = n)
    by (rewrite length_take, length_drop; lia).
  split; [done|]. unfold sub_at. replace (length _) with (Z.to_nat n) by lia.
  apply (f_equal (take (Z.to_nat n))) in Ht. rewrite !take_take in Ht.
  by rewrite !Nat.min_l in Ht by lia.
Qed.

Lemma at_pos_advance m P n :
  at_pos m P -> 0 <= n < count m -> at_pos (with_from (from m + n) (count m - n) m) (P + n).
Proof.
  intros (W & Hi & [[? _]|(Hc & Hlt & Hfr & HP & E & b & Hb & Hl & Ht)]) Hn; [lia|].
  split; [done|]. split; [done|]. right. cbn. split_and!; try lia. exists b. split; [done|]. split; [lia|].
  apply (f_equal (drop (Z.to_nat n))) in Ht.
  replace (Z.to_nat (count m)) with (Z.to_nat n + Z.to_nat (count m - n))%nat in Ht by lia.
  rewrite <- !take_drop_commute, !drop_drop in Ht.
  by rewrite !Z2Nat.inj_add by lia.
Qed.

(** One read returns the bytes that follow, at least one before the end. *)
Lemma seq_read_m_ok fuel want ppos m P :
  enough fuel -> at_pos m P -> 0 < want ->
  exists bs m', seq_read_m kmalloc start next show fuel want ppos m
      = Some (bs, len bs, ppos + len bs, m') /\
    sub_at P bs /\ len bs <= want /\ (P < len content -> 0 < len bs) /\ at_pos m' (P + len bs).
Proof.
  intros Hfuel A Hw. unfold seq_read_m.
  set (m1 := match buf m with None => grab kmalloc PAGE_SIZE m | Some _ => m end).
  assert (Hm1 : wf m1 /\ at_pos m1 P).
  { unfold m1. pose proof A as ([E|W] & Hi & HC).
    - rewrite E. destruct (grab_wf PAGE_SIZE m) as (W & Ei & Ef & Ec & Es); [unfold PAGE_SIZE; lia|].
      split; [done|]. split; [by right|]. rewrite Ei. split; [done|].
      destruct HC as [[? ?]|(_ & _ & _ & _ & _ & b & Hb & _)]; [left|congruence]. by rewrite Ec.
    - pose proof W as (b & Hb & _). rewrite Hb. done. }
  destruct Hm1 as [W1 A1]. clearbody m1. clear A m. rename m1 into m.
  pose proof W1 as (b & Hb & Hlb & Hsz). rewrite Hb.
  destruct (at_pos_content m P A1) as [HP Hidx].
  destruct (Z.eqb_spec (count m) 0) as [Hc|Hc]; cbn [negb].
  - pose proof A1 as (_ & Hi & [[_ HPe]|(? & _)]); [|lia].
    destruct (seq_fill_ok fuel [] want ppos m Hfuel W1 Hc Hi Hw) as (bs & m' & -> & Hs & Hl & Hpos & A').
    rewrite <- HPe in Hs, A'. exists bs, m'. split_and!; try done. auto.
  - set (n := Z.min (count m) want).
    assert (Hn0 : 0 < count m) by (destruct A1 as (_ & _ & [[? _]|(? & _)]); lia).
    destruct (at_pos_load m P n A1 Hc ltac:(lia)) as (bs & -> & Hlen & Hsub). cbn [mbind option_bind].
    cbn [count with_from]. destruct (Z.eqb_spec (want - n) 0) as [Hz|Hz].
    + rewrite seq_done_eq. do 2 eexists; split; [done|]. rewrite Hlen.
      split; [done|]. split; [lia|]. split; [lia|].
      destruct (Z.eqb_spec (count m - n) 0) as [Hz2|Hz2].
      * destruct A1 as (_ & Hi & [[? _]|(_ & Hlt & _ & _ & E & _)]); [lia|].
        split; [by right|]. cbn. split; [lia|]. left. split; [done|]. lia.
      * apply at_pos_advance; [done|lia].
    + assert (Hcn : count m - n = 0) by lia. rewrite (proj2 (Z.eqb_eq _ _) Hcn).
      destruct A1 as (_ & Hi & [[? _]|(_ & Hlt & _ & _ & E & _)]); [lia|].
      match goal with |- context [seq_fill _ _ _ _ _ _ _ _ ?x] => set (m2 := x) end.
      assert (W2 : wf m2) by (by exists b).
      destruct (seq_fill_ok fuel bs (want - n) ppos m2 Hfuel W2 Hcn) as (bs2 & m' & -> & Hs & Hl & Hpos & A');
        [cbn; lia|lia|].
      change (index m2) with (index m + 1) in *.
      assert (HP2 : P + n = len (pre (index m + 1))) by lia. rewrite <- HP2 in Hs, A'.
      exists (bs ++ bs2), m'. split; [done|]. rewrite !length_app, Nat2Z.inj_add, Hlen.
      split.
      * unfold sub_at in *. rewrite length_app.
        replace (length bs + length bs2)%nat with (length bs2 + length bs)%nat by lia.
        rewrite Hsub at 1. rewrite Hs at 1. rewrite Nat.add_comm.
        rewrite <- (take_drop (length bs) (take (length bs + length bs2) _)).
        rewrite take_take, Nat.min_l by lia. f_equal.
        rewrite <- take_drop_commute, drop_drop. do 2 f_equal. lia.
      * split; [lia|]. split; [lia|]. by rewrite Z.add_assoc.
Qed.

(** ** Seeking *)

Lemma traverse_loop_ok fuel m pos offset :
  wf m -> count m = 0 -> 0 <= index m <= len R -> pos = len (pre (index m)) -> pos < offset ->
  len R - index m < Z.of_nat fuel ->
  (exists m', traverse_loop kmalloc next show fuel pos offset (item (index m)) 0 m = Some (0, m') /\
     at_pos m' (Z.min offset (len content))) \/
  (exists m' qs, traverse_loop kmalloc next show fuel pos offset (item (index m)) 0 m = Some (- EAGAIN, m') /\
     wf m' /\ size m' = 2 * size m /\ qs ∈ R /\ size m <= len (text qs)).
Proof.
  revert m pos; induction fuel as [|fuel IH]; [lia|]. intros m pos W C Hi -> Ho Hf.
  destruct (Z.lt_ge_cases (index m) (len R)) as [Hlt|Hge].
  2: { left. rewrite item_end by done. cbn. exists m. split; [done|].
       rewrite pre_all in Ho by done. rewrite Z.min_r by lia.
       split; [by right|]. split; [done|]. left. by rewrite pre_all. }
  destruct (rec_Some (index m)) as (qs' & Hq' & -> & _ & Ht'); [lia|]. cbn [traverse_loop].
  destruct (show_step m (index m) [] W (printed_empty m W C)) as (m1 & qs & Hq & -> & P1 & W1 & S1 & _); [lia|].
  cbn [mbind option_bind app] in *. rewrite Z.eqb_refl; cbn [negb].
  assert (qs' = qs) as -> by congruence.
  pose proof S1 as (Es & _ & Ei & _). pose proof (printed_count _ _ P1) as Ec.
  assert (Hqr : qs ∈ R) by (by eapply list_elem_of_lookup_2).
  destruct (Z.eqb_spec (count m1) (size m1)) as [Hfull|Hroom].
  - right. destruct (double_size m1 _ P1 W1) as [Ed Hd]; [lia..|].
    pose proof (wf_bounds _ W1). rewrite Ed.
    destruct (grab_wf (2 * size m1) m1) as (W2 & _ & _ & _ & Es2); [unfold PAGE_SIZE; lia|].
    pose proof W2 as (b2 & -> & _). do 2 eexists; split; [done|]. split_and!; [done|lia|done|lia].
  - destruct P1 as (b1 & Hb1 & Hl1 & _ & Ht1). specialize (Ht1 ltac:(lia)).
    pose proof (pre_S (index m) qs ltac:(lia) Hq) as Hpre.
    destruct (pre_content (index m + 1)) as [rest Er].
    destruct (Z.ltb_spec offset (len (pre (index m)) + count m1)) as [Hin|Hout].
    + left. eexists; split; [done|].
      assert (offset <= len content) by (rewrite Er, Hpre, !length_app; lia).
      rewrite Z.min_l by done. split; [by right|]. cbn. rewrite Ei. split; [lia|]. right.
      rewrite Hpre, length_app. split_and!; try lia. exists b1. split; [done|].
      assert (length (text qs) <= length b1)%nat by (rewrite <- Ht1, length_take; lia).
      split; [lia|].
      assert (Hs : sub_at (len (pre (index m))) (text qs)) by (by eapply pre_app_sub).
      set (k := offset - len (pre (index m))) in *.
      rewrite <- (take_drop (Z.to_nat k) (text qs)) in Hs. apply sub_at_split in Hs as [_ Hs]; [|lia].
      unfold sub_at in Hs. rewrite length_drop, length_take in Hs.
      replace (len (pre (index m)) + Z.of_nat (Z.to_nat k `min` length (text qs))) with offset in Hs by lia.
      replace (Z.to_nat (count m1 - k)) with (length (text qs) - Z.to_nat k)%nat by lia.
      rewrite <- Hs, take_drop_commute.
      replace (Z.to_nat k + (length (text qs) - Z.to_nat k))%nat with (length (text qs)) by lia.
      by rewrite Ht1.
    + assert (Hpos : len (pre (index m)) + count m1 = len (pre (index m + 1)))
        by (rewrite Hpre, length_app; lia).
      destruct (Z.eqb_spec (len (pre (index m)) + count m1) offset) as [Heq|Hne].
      * left. eexists; split; [done|].
        assert (offset <= len content) by (rewrite <- Heq, Hpos, Er, length_app; lia).
        rewrite Z.min_l by done. split; [by right|]. cbn. rewrite Ei. split; [lia|].
        left. split; [done|lia].
      * cbn [index with_count]. rewrite Ei, next_ok by lia.
        set (m2 := with_index (index m + 1) (with_count 0 m1)).
        assert (W2 : wf m2) by exact W1.
        destruct (IH m2 (len (pre (index m)) + count m1)) as [(m' & E & A)|(m' & q & E & W' & S' & Q' & L')];
          try done; try (cbn; lia).
        -- left. exists m'. split; [exact E|done].
        -- right. exists m', q. split; [exact E|]. split; [done|].
           change (size m2) with (size m1) in *. rewrite <- Es. done.
Qed.

Lemma traverse_ok fuel offset m :
  enough fuel -> (buf m = None \/ wf m) -> 0 <= offset ->
  let s := match buf m with None => PAGE_SIZE | Some _ => size m end in
  (exists m', traverse kmalloc start next show fuel offset m = Some (0, m') /\
     at_pos m' (Z.min offset (len content))) \/
  (exists m' qs, traverse kmalloc start next show fuel offset m = Some (- EAGAIN, m') /\
     wf m' /\ size m' = 2 * s /\ qs ∈ R /\ s <= len (text qs)).
Proof.
  intros [Hf _] HW Ho s. unfold traverse.
  set (m0 := with_version 0 _). destruct (Z.eqb_spec offset 0) as [->|Hne].
  { left. eexists; split; [done|]. rewrite Z.min_l by lia. split; [exact HW|]. cbn. split; [lia|].
    by left. }
  set (m1 := match buf m0 with None => grab kmalloc PAGE_SIZE m0 | Some _ => m0 end).
  assert (Hm1 : wf m1 /\ index m1 = 0 /\ count m1 = 0 /\ size m1 = s).
  { unfold m1, s. change (buf m0) with (buf m). destruct HW as [->|W].
    - destruct (grab_wf PAGE_SIZE m0) as (W & Ei & _ & Ec & Es); [unfold PAGE_SIZE; lia|].
      rewrite Ei, Ec, Es. done.
    - pose proof W as (b & Hb & _). rewrite Hb. done. }
  destruct Hm1 as (W1 & Ei & Ec & Es). pose proof W1 as (b & -> & _).
  rewrite Ei, start_ok by lia.
  set (m2 := with_index 0 m1). change (item 0) with (item (index m2)).
  destruct (traverse_loop_ok fuel m2 0 offset) as [?|(m' & qs & ?)]; try done; try (cbn; lia).
  - by left.
  - right. exists m', qs. rewrite <- Es. done.
Qed.

Lemma traverse_again_ok again fuel offset m :
  enough fuel -> (buf m = None \/ wf m) -> 0 <= offset ->
  (forall qs, qs ∈ R -> len (text qs) <
     match buf m with None => PAGE_SIZE | Some _ => size m end * 2 ^ Z.of_nat again) ->
  exists m', traverse_again kmalloc start next show (S again) fuel offset m = Some (0, m') /\
    at_pos m' (Z.min offset (len content)).
Proof.
  intros Hf. revert m; induction again as [|again IH]; intros m HW Ho Hl;
    cbn [traverse_again] in *;
    destruct (traverse_ok fuel offset m Hf HW Ho) as [(m1 & -> & A)|(m1 & qs & -> & W1 & S1 & Q1 & L1)];
    cbn [mbind option_bind].
  - by exists m1.
  - specialize (Hl qs Q1). cbn in Hl. lia.
  - by exists m1.
  - rewrite Z.eqb_refl. apply IH; [by right|done|]. intros q Hq. specialize (Hl q Hq).
    pose proof W1 as (b & -> & _). rewrite S1. rewrite Nat2Z.inj_succ, Z.pow_succ_r in Hl by lia. lia.
Qed.

(** ** The file *)

(** The file stands at offset [f_pos] of the stream, or beyond its end. *)
Definition file_at (f : file) : Prop :=
  0 <= f_pos f /\ at_pos (private_data f) (Z.min (f_pos f) (len content)).

Lemma at_pos_version m P v : at_pos m P -> at_pos (with_version v m) P.
Proof. done. Qed.

Lemma seq_open_at : file_at seq_open.
Proof. split; [done|]. cbn. rewrite Z.min_l by lia. split; [by left|]. cbn. split; [lia|]. by left. Qed.

Lemma sub_at_end l P : len content <= P -> sub_at P l -> l = [].
Proof.
  unfold sub_at. intros HP E. rewrite drop_ge in E by lia. by rewrite take_nil in E.
Qed.

Lemma sub_at_bound P l : 0 <= P <= len content -> sub_at P l -> P + len l <= len content.
Proof.
  unfold sub_at. intros HP E. apply (f_equal length) in E. rewrite length_take, length_drop in E. lia.
Qed.

Lemma seq_read_ok fuel want f :
  enough fuel -> file_at f -> 0 < want ->
  exists bs f', seq_read kmalloc start next show fuel want f = Some (bs, len bs, f') /\
    sub_at (f_pos f) bs /\ len bs <= want /\ (f_pos f < len content -> 0 < len bs) /\
    f_pos f' = f_pos f + len bs /\ file_at f'.
Proof.
  intros Hf [Hp A] Hw. unfold seq_read.
  destruct (seq_read_m_ok fuel want (f_pos f) _ _ Hf (at_pos_version _ _ (f_version f) A) Hw)
    as (bs & m' & -> & Hs & Hl & Hpos & A'). cbn [mbind option_bind].
  assert (Hc : 0 <= len content) by lia.
  do 2 eexists; split; [done|]. destruct (Z.lt_ge_cases (f_pos f) (len content)) as [Hlt|Hge].
  - rewrite Z.min_l in * by lia. pose proof (sub_at_bound (f_pos f) bs ltac:(lia) Hs).
    split; [done|]. split; [done|]. split; [auto|]. split; [done|].
    split; cbn; [lia|]. by rewrite Z.min_l by lia.
  - rewrite Z.min_r in * by lia. apply sub_at_end in Hs; [|lia]. subst bs. cbn [length] in *.
    rewrite !Z.add_0_r in *. split; [done|]. split; [lia|]. split; [lia|]. split; [done|].
    split; cbn; [lia|]. by rewrite Z.min_r by lia.
Qed.

Lemma seq_lseek_ok fuel offset origin f :
  enough fuel -> file_at f ->
  let target := if origin =? 1 then offset + f_pos f else offset in
  let valid := ((origin =? 0) || (origin =? 1)) && (0 <=? target) in
  exists f', seq_lseek kmalloc start next show fuel fuel offset origin f
      = Some (if valid then target else - EINVAL, f') /\
    f_pos f' = (if valid then target else f_pos f) /\ file_at f'.
Proof.
  intros Hf [Hp A] target valid. unfold seq_lseek. fold target.
  assert (Ev : negb ((origin =? 0) || (origin =? 1)) || (target <? 0) = negb valid).
  { unfold valid. rewrite negb_andb. f_equal. apply Z.ltb_antisym. }
  rewrite Ev. destruct valid eqn:Hv; cbn [negb].
  2: { eexists; split; [done|]. split; [done|]. by split. }
  apply andb_prop in Hv as [_ Ht%Z.leb_le].
  destruct (Z.eqb_spec target (f_pos f)) as [He|He].
  { rewrite He. eexists; split; [done|]. split; [done|]. by split. }
  destruct fuel as [|again] eqn:Efu; [destruct Hf; lia|]. rewrite <- Efu in *.
  destruct (traverse_again_ok again fuel target (with_version (f_version f) (private_data f)) Hf)
    as (m' & E & A').
  - destruct A as [HW _]. exact HW.
  - done.
  - intros qs Hq. destruct Hf as [_ He']. specialize (He' qs Hq).
    rewrite Efu in He'. replace (Z.of_nat (S again) - 1) with (Z.of_nat again) in He' by lia.
    assert (0 < 2 ^ Z.of_nat again) by (apply Z.pow_pos_nonneg; lia).
    destruct A as [[HW|HW%wf_bounds] _]; cbn; [by rewrite HW|].
    case_match; unfold PAGE_SIZE in *; nia.
  - rewrite <- Efu in E. rewrite E; cbn. eexists; split; [done|]. split; [done|]. by split.
Qed.

(** A sequence of reads, of the given sizes. *)
Fixpoint reads (fuel : nat) (wants : list Z) (f : file) : option (list Z * file) :=
  match wants with
  | [] => Some ([], f)
  | w :: ws =>
      '(bs, _, f) ← seq_read kmalloc start next show fuel w f;
      '(rest, f) ← reads fuel ws f; Some (bs ++ rest, f)
  end.

Lemma sub_at_app P a b : 0 <= P -> sub_at P a -> sub_at (P + len a) b -> sub_at P (a ++ b).
Proof.
  unfold sub_at. intros HP Ha Hb. rewrite length_app.
  replace (Z.to_nat (P + len a)) with (Z.to_nat P + length a)%nat in Hb by lia. rewrite <- drop_drop in Hb.
  rewrite <- (take_drop (length a) (take (length a + length b) _)).
  rewrite take_take, Nat.min_l, <- Ha, <- take_drop_commute, <- Hb by lia. done.
Qed.

Lemma reads_ok fuel wants f :
  enough fuel -> file_at f -> Forall (Z.lt 0) wants ->
  exists bs f', reads fuel wants f = Some (bs, f') /\ sub_at (f_pos f) bs /\ file_at f' /\
    f_pos f' = f_pos f + len bs /\
    (len content <= f_pos f' \/ f_pos f + len wants <= f_pos f').
Proof.
  intros Hf. revert f; induction wants as [|w ws IH]; intros f A Hw; cbn [reads].
  - exists [], f. cbn. rewrite !Z.add_0_r. split_and!; try done. right. lia.
  - apply Forall_cons in Hw as [Hw Hws].
    destruct (seq_read_ok fuel w f Hf A Hw) as (bs & f1 & -> & Hs & _ & Hpos & E1 & A1).
    cbn [mbind option_bind]. destruct (IH f1 A1 Hws) as (bs2 & f2 & -> & Hs2 & A2 & E2 & Hend).
    cbn [mbind option_bind]. do 2 eexists; split; [done|]. rewrite length_app. pose proof (proj1 A).
    split; [apply sub_at_app; [done|done|by rewrite <- E1]|]. split; [done|]. split; [lia|].
    cbn [length]. destruct Hend as [?|?]; [by left|].
    destruct (Z.lt_ge_cases (f_pos f) (len content)) as [Hlt|?]; [specialize (Hpos Hlt); lia|lia].
Qed.

(** C18: while memory is available, a sequential file is the concatenation of its
    records. If [kmalloc] never fails, the iterator walks over the records, [show]
    prints them without an error and no record is empty (or of 2^62 bytes), then a
    read of a positive size at offset [f_pos] never faults, returns the bytes of
    that concatenation that start there, at most as many as asked for and at least
    one before the end, and advances [f_pos] by their number: no byte is lost,
    repeated or read from outside the printed text, however records and reads
    are sized. What a read returns after a failed allocation is
    [seq_read_stale_page]. *)
Theorem seq_read_stream fuel want f :
  enough fuel -> file_at f -> 0 < want ->
  exists bs f', seq_read kmalloc start next show fuel want f = Some (bs, len bs, f') /\
    sub_at (f_pos f) bs /\ len bs <= want /\ (f_pos f < len content -> 0 < len bs) /\
    f_pos f' = f_pos f + len bs /\ file_at f'.
Proof. apply seq_read_ok. Qed.

(** reading an opened file until nothing more comes gives exactly the text
    of all its records, in order. *)
Theorem seq_read_all fuel wants :
  enough fuel -> Forall (Z.lt 0) wants -> len content <= len wants ->
  exists f', reads fuel wants seq_open = Some (content, f').
Proof.
  intros Hf Hw Hl. destruct (reads_ok fuel wants seq_open Hf seq_open_at Hw)
    as (bs & f' & E & Hs & _ & Ep & Hend). exists f'. rewrite E. do 2 f_equal.
  change (f_pos seq_open) with 0 in *.
  unfold sub_at in Hs. rewrite drop_0 in Hs. rewrite Hs, take_ge by lia. done.
Qed.

(** [seq_lseek] to a valid offset, absolute or relative, re-shows the
    records with as large a buffer as they need and leaves the file at that
    offset (or its end); a negative offset or another origin gives [-EINVAL]
    and does not move the file. *)
Theorem seq_lseek_moves fuel offset origin f :
  enough fuel -> file_at f ->
  let target := if origin =? 1 then offset + f_pos f else offset in
  let valid := ((origin =? 0) || (origin =? 1)) && (0 <=? target) in
  exists f', seq_lseek kmalloc start next show fuel fuel offset origin f
      = Some (if valid then target else - EINVAL, f') /\
    f_pos f' = (if valid then target else f_pos f) /\ file_at f'.
Proof. apply seq_lseek_ok. Qed.
End stream.

(** ** A failed allocation

    When the buffer cannot be doubled, [seq_read] returns [-ENOMEM] with no
    buffer but with [count] still set to the old size; the next [seq_read]
    allocates a fresh buffer and flushes [count] bytes of it. *)

(** after a read that failed with [-ENOMEM] because the buffer for a long
    record could not be doubled, the next read succeeds and returns the bytes
    that happen to be in the newly allocated page, none of which was printed. *)
Theorem seq_read_stale_page first_page stale s want kmalloc start next show fuel :
  len first_page = PAGE_SIZE -> len stale = PAGE_SIZE -> PAGE_SIZE <= len s -> 0 < want ->
  kmalloc 0%nat PAGE_SIZE = Some first_page -> kmalloc 1%nat (2 * PAGE_SIZE) = None ->
  kmalloc 2%nat PAGE_SIZE = Some stale ->
  start 0 = (0, IPtr 0) -> show 0 = ([Puts s], 0) ->
  exists f f', seq_read kmalloc start next show (S fuel) want seq_open = Some ([], - ENOMEM, f) /\
    (want <= PAGE_SIZE -> seq_read kmalloc start next show (S fuel) want f =
       Some (take (Z.to_nat want) stale, want, f')).
Proof.
  unfold PAGE_SIZE. intros Hf Hs Hl Hw K0 K1 K2 Es Eshow.
  set (m0 := SF (Some first_page) 4096 0 0 0 0 1).
  set (m1 := SF None 8192 0 4096 0 0 2).
  set (m2 := SF (Some stale) 4096 want (4096 - want) (if 4096 - want =? 0 then 1 else 0) 0 3).
  exists (File 0 0 m1), (File (0 + want) 0 m2). split.
  - unfold seq_read, seq_read_m, seq_fill, grab, PAGE_SIZE. cbn -[Z.shiftl Z.of_nat Z.ltb].
    rewrite K0. cbn -[Z.shiftl Z.of_nat Z.ltb]. rewrite Es. unfold run_show. rewrite Eshow.
    cbn -[Z.shiftl Z.of_nat Z.ltb seq_puts]. unfold seq_puts; cbn [count size with_buf with_version].
    rewrite (proj2 (Z.ltb_ge (0 + len s) 4096)) by lia.
    cbn -[Z.shiftl Z.of_nat Z.ltb]. rewrite Z.ltb_irrefl. unfold grab.
    cbn -[Z.shiftl Z.of_nat Z.ltb wrap]. change (u64 (Z.shiftl 4096 1)) with (2 * 4096). by rewrite K1.
  - intros Hwant. unfold seq_read, seq_read_m. cbn. unfold grab; cbn. unfold PAGE_SIZE. rewrite K2.
    cbn [buf with_buf]. rewrite Z.min_r by lia. unfold load_bytes. cbn [buf with_buf mbind option_bind from].
    rewrite !(proj2 (Z.leb_le _ _)) by lia. cbn [andb]. rewrite Z.sub_diag. cbn [Z.eqb].
    rewrite drop_0. unfold seq_done.
    assert (El : len (take (Z.to_nat want) stale) = want) by (rewrite length_take; lia).
    cbn [mbind option_bind]. rewrite El, (proj2 (Z.eqb_neq want 0)) by lia. cbn [mbind option_bind].
    unfold m2. by destruct (4096 - want =? 0).
Qed.

(** ** Witnesses *)
Definition sample_R : list (list piece) := [[Puts [97; 98]; Putc 10]; [Escape [97; 9] [9]; Putc 10]].
Definition sample_kmalloc (n : nat) (z : Z) : option (list Z) := Some (replicate (Z.to_nat z) 0).
Definition sample_start (i : Z) : Z * iptr := (i, item sample_R i).
Definition sample_next (v i : Z) : Z * iptr := (i + 1, item sample_R (i + 1)).
Definition sample_show (i : Z) : list piece * Z := (default [] (sample_R !! Z.to_nat i), 0).

Lemma sample_kmalloc_ok n z : 0 <= z -> exists b, sample_kmalloc n z = Some b /\ len b = z.
Proof. intros Hz. eexists; split; [done|]. rewrite length_replicate. lia. Qed.
Lemma sample_show_ok i qs : 0 <= i -> sample_R !! Z.to_nat i = Some qs -> sample_show i = (qs, 0).
Proof. intros _ E. unfold sample_show. by rewrite E. Qed.
Lemma sample_texts_ok qs : qs ∈ sample_R -> 0 < len (text qs) < 2 ^ 62.
Proof. intros [->|[->|?%elem_of_nil]%elem_of_cons]%elem_of_cons; [..|done]; vm_compute; done. Qed.
Lemma sample_enough : enough sample_R 5.
Proof.
  split; [vm_compute; done|]. intros qs [->|[->|?%elem_of_nil]%elem_of_cons]%elem_of_cons; [..|done];
    vm_compute; done.
Qed.

Lemma seq_read_stream_witness :
  exists bs f', seq_read sample_kmalloc sample_start sample_next sample_show 5 4 seq_open
      = Some (bs, len bs, f') /\ sub_at sample_R 0 bs /\ len bs <= 4 /\ 0 < len bs.
Proof.
  destruct (seq_read_stream sample_kmalloc sample_start sample_next sample_show sample_R
    sample_kmalloc_ok (fun _ _ => eq_refl) (fun _ _ _ => eq_refl) sample_show_ok sample_texts_ok
    5 4 seq_open sample_enough (seq_open_at sample_R) eq_refl) as (bs & f' & ? & ? & ? & H & _).
  exists bs, f'. split; [assumption|]. split; [assumption|]. split; [assumption|]. apply H. reflexivity.
Defined.

Lemma seq_read_all_witness :
  exists f', reads sample_kmalloc sample_start sample_next sample_show 5 (replicate 9 1) seq_open
    = Some ([97; 98; 10; 97; 92; 48; 49; 49; 10], f').
Proof.
  apply (seq_read_all sample_kmalloc sample_start sample_next sample_show sample_R
    sample_kmalloc_ok (fun _ _ => eq_refl) (fun _ _ _ => eq_refl) sample_show_ok sample_texts_ok
    5 (replicate 9 1) sample_enough); [repeat constructor|vm_compute; done].
Defined.

Lemma seq_lseek_moves_witness :
  exists f', seq_lseek sample_kmalloc sample_start sample_next sample_show 5 5 4 0 seq_open = Some (4, f') /\
    f_pos f' = 4 /\ file_at sample_R f'.
Proof.
  exact (seq_lseek_moves sample_kmalloc sample_start sample_next sample_show sample_R
    sample_kmalloc_ok (fun _ _ => eq_refl) (fun _ _ _ => eq_refl) sample_show_ok sample_texts_ok
    5 4 0 seq_open sample_enough (seq_open_at sample_R)).
Defined.

Definition failing_kmalloc (n : nat) (z : Z) : option (list Z) :=
  if (n =? 1)%nat then None else Some (replicate (Z.to_nat z) (Z.of_nat n)).

Lemma seq_read_stale_page_witness :
  exists f f', seq_read failing_kmalloc (fun i => (i, IPtr i)) (fun _ i => (i, INull))
      (fun _ => ([Puts (replicate 5000 65)], 0)) 1 3 seq_open = Some ([], -12, f) /\
    seq_read failing_kmalloc (fun i => (i, IPtr i)) (fun _ i => (i, INull))
      (fun _ => ([Puts (replicate 5000 65)], 0)) 1 3 f = Some ([2; 2; 2], 3, f').
Proof.
  destruct (seq_read_stale_page (replicate 4096 0) (replicate 4096 2) (replicate 5000 65) 3
    failing_kmalloc (fun i => (i, IPtr i)) (fun _ i => (i, INull))
    (fun _ => ([Puts (replicate 5000 65)], 0)) 0) as (f & f' & E1 & E2);
    [vm_compute; done..|].
  exists f, f'. split; [exact E1|]. apply E2. vm_compute. discriminate.
Defined.
