(* ===== verification/Devres.v ===== *)
(** Managed device resources: [linux/drivers/base/devres.c].

    A [devres] and a [devres_group] are named by their address. The list of a
    device is the list of its nodes; a cursor is the node it stands on, or
    [None] on the list head, and following [next] looks the node up in the
    list as it is at that moment. *)

From S2P Require Import Prelude.
Local Open Scope Z_scope.

Definition ENOENT : Z := 2.
(** The offset of [data] in [struct devres]: an entry and a release function. *)
Definition DATA_OFFSET : Z := 24.

(** A node: of the resource at [a] with its release function, or one of the
    two markers of the group at [g]. *)
Inductive node := Res (a release : Z) | Open (g : Z) | Close (g : Z).
#[global] Instance node_eq_dec : EqDecision node.
Proof. solve_decision. Defined.

Record group := Grp { gid : Z; color : Z }.

Record device := Dev {
  devres_head : list node;
  groups : gmap Z group;
  released : list Z;      (* the resources whose release function ran *)
  freed : list Z;         (* the addresses given to kfree *)
}.

Definition with_head (l : list node) (d : device) := Dev l (groups d) (released d) (freed d).
Definition with_groups (g : gmap Z group) (d : device) := Dev (devres_head d) g (released d) (freed d).
Definition kfree (a : Z) (d : device) :=
  if a =? 0 then d else Dev (devres_head d) (groups d) (released d) (freed d ++ [a]).
Definition call_release (a : Z) (d : device) := Dev (devres_head d) (groups d) (released d ++ [a]) (freed d).

(** [list_empty(&node->entry)] of a node that is initialised. *)
Definition unlinked (e : node) (d : device) : bool := bool_decide (e ∉ devres_head d).
Definition list_del_init (e : node) (d : device) : device :=
  with_head (filter (λ x, x <> e) (devres_head d)) d.

(** ** Resources *)

(** Fails on the [BUG_ON]. *)
Definition add_dr (e : node) (d : device) : option device :=
  if unlinked e d then Some (with_head (devres_head d ++ [e]) d) else None.

(** The address from [kmalloc], 0 on failure. *)
Definition alloc_dr (release a : Z) : option node := if a =? 0 then None else Some (Res a release).
Definition devres_alloc (release a : Z) : Z :=
  match alloc_dr release a with None => 0 | Some _ => a + DATA_OFFSET end.

Definition res_at (a : Z) (l : list node) : bool :=
  existsb (fun e => match e with Res b _ => b =? a | _ => false end) l.

(** Fails on the [BUG_ON]: the resource is still on the list. *)
Definition devres_free (res : Z) (d : device) : option device :=
  if res =? 0 then Some d else
  let dr := res - DATA_OFFSET in
  if res_at dr (devres_head d) then None else Some (kfree dr d).

Definition devres_add (res release : Z) (d : device) : option device :=
  add_dr (Res (res - DATA_OFFSET) release) d.

(** [list_for_each_entry_reverse]: the latest match. *)
Fixpoint find_last (p : node -> bool) (l : list node) : option node :=
  match l with
  | [] => None
  | e :: l => match find_last p l with Some x => Some x | None => if p e then Some e else None end
  end.

Definition dr_matches (release : Z) (mt : option (Z -> bool)) (e : node) : bool :=
  match e with
  | Res a r =>
      if negb (r =? release) then false else
      match mt with Some f => f (a + DATA_OFFSET) | None => true end
  | _ => false
  end.

Definition find_dr (release : Z) (mt : option (Z -> bool)) (d : device) : option node :=
  find_last (dr_matches release mt) (devres_head d).

Definition data_of (e : option node) : Z :=
  match e with Some (Res a _) => a + DATA_OFFSET | _ => 0 end.

Definition devres_find (release : Z) (mt : option (Z -> bool)) (d : device) : Z :=
  data_of (find_dr release mt d).

(** [new_res] was allocated with [release]. The last call frees what the code
    frees: [new_dr] itself is passed where a data pointer is expected. *)
Definition devres_get (new_res release : Z) (mt : option (Z -> bool)) (d : device)
    : option (Z * device) :=
  let new_dr := new_res - DATA_OFFSET in
  match find_dr release mt d with
  | None => d ← add_dr (Res new_dr release) d; d ← devres_free 0 d; Some (new_dr + DATA_OFFSET, d)
  | Some e => d ← devres_free new_dr d; Some (data_of (Some e), d)
  end.

Definition devres_remove (release : Z) (mt : option (Z -> bool)) (d : device) : Z * device :=
  match find_dr release mt d with
  | Some e => (data_of (Some e), list_del_init e d)
  | None => (0, d)
  end.

Definition devres_destroy (release : Z) (mt : option (Z -> bool)) (d : device) : option (Z * device) :=
  let '(res, d) := devres_remove release mt d in
  if res =? 0 then Some (- ENOENT, d) else d ← devres_free res d; Some (0, d).

Definition DEVM_KZALLOC_RELEASE : Z := 1.
Definition devm_kzalloc (a : Z) (d : device) : option (Z * device) :=
  match alloc_dr DEVM_KZALLOC_RELEASE a with
  | None => Some (0, d)
  | Some _ => d ← devres_add (a + DATA_OFFSET) DEVM_KZALLOC_RELEASE d; Some (a + DATA_OFFSET, d)
  end.
Definition devm_kfree (p : Z) (d : device) : option device :=
  '(_, d) ← devres_destroy DEVM_KZALLOC_RELEASE (Some (fun res => res =? p)) d; Some d.

(** ** Releasing a range *)

Fixpoint next_of (e : node) (l : list node) : option node :=
  match l with
  | [] => None
  | x :: t => if decide (x = e) then head t else next_of e t
  end.

Definition node_to_group (e : node) : option Z :=
  match e with Res _ _ => None | Open g | Close g => Some g end.

Definition set_color (g c : Z) (d : device) : option device :=
  x ← groups d !! g; Some (with_groups (<[g := Grp (gid x) c]> (groups d)) d).

(** First pass: [first], the counts and the list [todo]; a cursor that runs
    over the list head fails. *)
Fixpoint pass1 (fuel : nat) (first cur end_ : option node) (todo : list node) (cnt nr : Z) (d : device)
    : option (option node * list node * Z * Z * device) :=
  if decide (cur = end_) then Some (first, todo, cnt, nr, d) else
  match fuel with
  | O => None
  | S fuel =>
      e ← cur;
      let cur := next_of e (devres_head d) in
      match node_to_group e with
      | Some g => d ← set_color g 0 d; pass1 fuel first cur end_ todo cnt (nr + 1) d
      | None =>
          let first := if decide (first = Some e) then next_of e (devres_head d) else first in
          pass1 fuel first cur end_ (todo ++ [e]) (cnt + 1) nr (list_del_init e d)
      end
  end.

Fixpoint pass2 (fuel : nat) (cur end_ : option node) (todo : list node) (d : device)
    : option (list node * device) :=
  if decide (cur = end_) then Some (todo, d) else
  match fuel with
  | O => None
  | S fuel =>
      e ← cur;
      let cur := next_of e (devres_head d) in
      g ← node_to_group e;
      if unlinked (Open g) d then None else
      x ← groups d !! g;
      let c := color x + 1 in
      let c := if unlinked (Close g) d then c + 1 else c in
      d ← set_color g c d;
      if (c <=? 0) || (2 <? c) then None else
      if c =? 2 then
        pass2 fuel cur end_ (todo ++ [Open g]) (list_del_init (Close g) (list_del_init (Open g) d))
      else pass2 fuel cur end_ todo d
  end.

Definition remove_nodes (first end_ : option node) (d : device) : option (Z * list node * device) :=
  let fuel := length (devres_head d) in
  '(first, todo, cnt, nr, d) ← pass1 fuel first first end_ [] 0 0 d;
  if nr =? 0 then Some (cnt, todo, d) else
  '(todo, d) ← pass2 fuel first end_ todo d;
  Some (cnt, todo, d).

(** The release functions of group markers do nothing. *)
Definition release_one (e : node) (d : device) : device :=
  match e with
  | Res a _ => kfree a (call_release a d)
  | Open g | Close g => kfree g d
  end.

Definition release_nodes (first end_ : option node) (d : device) : option (Z * device) :=
  '(cnt, todo, d) ← remove_nodes first end_ d;
  Some (cnt, foldl (fun d e => release_one e d) d (rev todo)).

Definition devres_release_all (d : device) : option (Z * device) :=
  release_nodes (head (devres_head d)) None d.

(** ** Groups *)

(** [a] is the address from [kmalloc], 0 on failure. *)
Definition devres_open_group (id a : Z) (d : device) : option (Z * device) :=
  if a =? 0 then Some (0, d) else
  let id := if id =? 0 then a else id in
  d ← add_dr (Open a) (with_groups (<[a := Grp id 0]> (groups d)) d);
  Some (id, d).

Definition group_matches (id : Z) (d : device) (e : node) : bool :=
  match e with
  | Open g =>
      if negb (id =? 0) then
        match groups d !! g with Some x => gid x =? id | None => false end
      else unlinked (Close g) d
  | _ => false
  end.

Definition find_group (id : Z) (d : device) : option Z :=
  e ← find_last (group_matches id d) (devres_head d); node_to_group e.

Definition devres_close_group (id : Z) (d : device) : option device :=
  match find_group id d with Some g => add_dr (Close g) d | None => Some d end.

Definition devres_remove_group (id : Z) (d : device) : device :=
  match find_group id d with
  | Some g => kfree g (list_del_init (Close g) (list_del_init (Open g) d))
  | None => kfree 0 d
  end.

Definition devres_release_group (id : Z) (d : device) : option (Z * device) :=
  match find_group id d with
  | Some g =>
      let end_ := if unlinked (Close g) d then None else next_of (Close g) (devres_head d) in
      release_nodes (Some (Open g)) end_ d
  | None => Some (0, d)
  end.

(** ** Lists of nodes *)

Definition is_res (e : node) : bool := match e with Res _ _ => true | _ => false end.
Definition resources (l : list node) : list node := List.filter is_res l.
Definition markers (l : list node) : list node := List.filter (fun e => negb (is_res e)) l.
Definition addr (e : node) : Z := match e with Res a _ => a | Open g | Close g => g end.

Lemma next_of_split l1 e l2 : NoDup (l1 ++ e :: l2) -> next_of e (l1 ++ e :: l2) = head l2.
Proof.
  induction l1 as [|x l1 IH]; cbn [app next_of].
  - intros _. by rewrite decide_True.
  - intros [Hx ND]%NoDup_cons. rewrite decide_False; [auto|]. intros ->. apply Hx, elem_of_app. right. by left.
Qed.

Lemma filter_ne_split e (l1 l2 : list node) :
  NoDup (l1 ++ e :: l2) -> filter (λ x, x <> e) (l1 ++ e :: l2) = l1 ++ l2.
Proof.
  intros ND. assert (H : e ∉ l1 /\ e ∉ l2).
  { rewrite <- Permutation_middle in ND. apply NoDup_cons in ND as [H _]. rewrite elem_of_app in H. tauto. }
  rewrite filter_app, filter_cons_False by auto.
  assert (forall l : list node, e ∉ l -> filter (λ x, x <> e) l = l) as F; [|by rewrite !F by tauto].
  induction l as [|x l IH]; [done|]. intros [??]%not_elem_of_cons. by rewrite filter_cons_True, IH by auto.
Qed.

Lemma head_app_ne (e : node) l1 l2 : NoDup ((e :: l1) ++ l2) -> Some e <> head l2.
Proof.
  intros [H _]%NoDup_cons. destruct l2; [done|]. intros [= ->]. apply H, elem_of_app. right. by left.
Qed.

(** ** First pass *)
Section pass1.
Context (A B : list node).

(** The first marker, or what follows the range. *)
Definition firstof (P M : list node) : option node := head (P ++ M ++ B).

(** The groups with a marker among [M]. *)
Definition marked (M : list node) (g : Z) : bool :=
  existsb (fun e => match node_to_group e with Some h => h =? g | None => false end) M.

Lemma marked_cons e M g : marked (e :: M) g =
  match node_to_group e with Some h => h =? g | None => false end || marked M g.
Proof. done. Qed.

Lemma marked_spec M g : marked M g = true <-> Open g ∈ M \/ Close g ∈ M.
Proof.
  unfold marked. rewrite existsb_exists. split.
  - intros (e & He%list_elem_of_In & H). destruct e as [|h|h]; cbn in H; [done|..];
      apply Z.eqb_eq in H as ->; auto.
  - intros [H|H]; [exists (Open g)|exists (Close g)]; (split; [by apply list_elem_of_In|]); cbn;
      apply Z.eqb_refl.
Qed.

Definition cleared (M : list node) (gs gs' : gmap Z group) : Prop :=
  forall g, gs' !! g = if marked M g then (λ x, Grp (gid x) 0) <$> gs !! g else gs !! g.

Lemma pass1_ok fuel P M todo cnt nr d :
  devres_head d = A ++ P ++ M ++ B -> NoDup (devres_head d) -> (length M <= fuel)%nat ->
  (forall g, marked M g = true -> is_Some (groups d !! g)) ->
  exists d', pass1 fuel (firstof P M) (head (M ++ B)) (head B) todo cnt nr d =
      Some (firstof (P ++ markers M) [], todo ++ resources M,
            cnt + Z.of_nat (length (resources M)), nr + Z.of_nat (length (markers M)), d') /\
    devres_head d' = A ++ P ++ markers M ++ B /\ released d' = released d /\ freed d' = freed d /\
    cleared M (groups d) (groups d').
Proof.
  revert fuel P todo cnt nr d; induction M as [|e M IH]; intros fuel P todo cnt nr d E ND Hf Hg.
  - exists d. split; [|by split_and!]. destruct fuel; cbn [pass1 app]; rewrite decide_True by done;
      cbn; by rewrite !app_nil_r, !Z.add_0_r.
  - destruct fuel as [|fuel]; [cbn in Hf; lia|].
    assert (E' : devres_head d = (A ++ P) ++ e :: M ++ B) by (by rewrite E, <- app_assoc).
    rewrite E' in ND.
    cbn [pass1]. rewrite decide_False.
    2: { apply (head_app_ne e M B). by apply NoDup_app in ND as (_ & _ & ND). }
    cbn [app head mbind option_bind]. rewrite E', next_of_split by done.
    destruct (node_to_group e) as [g|] eqn:Eg.
    + assert (is_res e = false) as Er by (by destruct e).
      destruct (Hg g) as [x Hx]; [by rewrite marked_cons, Eg, Z.eqb_refl|].
      unfold set_color. rewrite Hx; cbn [mbind option_bind].
      set (d1 := with_groups _ d).
      assert (Ef : firstof P (e :: M) = firstof (P ++ [e]) M) by (unfold firstof; by rewrite <- app_assoc).
      rewrite Ef. destruct (IH fuel (P ++ [e]) todo cnt (nr + 1) d1) as (d' & -> & H1 & H2 & H3 & H4).
      * cbn. by rewrite E, <- !app_assoc.
      * cbn. by rewrite E'.
      * cbn in Hf. lia.
      * intros h Hh. cbn. destruct (decide (h = g)) as [->|]; [rewrite lookup_insert_eq; eauto|].
        rewrite lookup_insert_ne by done. apply Hg. by rewrite marked_cons, Hh, orb_true_r.
      * exists d'. unfold resources, markers. cbn [List.filter]. rewrite !Er. cbn [negb].
        split_and!; try done.
        -- rewrite <- app_assoc. cbn [length app]. repeat first [lia | f_equal].
        -- rewrite H1. by rewrite <- !app_assoc.
        -- intros h. rewrite H4, marked_cons, Eg. cbn [groups d1 with_groups].
           destruct (Z.eqb_spec g h) as [->|Hne]; cbn [orb].
           ++ rewrite lookup_insert_eq, Hx. by destruct (marked M h).
           ++ by rewrite lookup_insert_ne.
    + assert (is_res e = true) as Er by (by destruct e).
      set (d1 := list_del_init e d).
      assert (E1 : devres_head d1 = A ++ P ++ M ++ B).
      { unfold d1. cbn. by rewrite E', filter_ne_split, <- app_assoc by done. }
      assert (Ef : (if decide (firstof P (e :: M) = Some e) then head (M ++ B) else firstof P (e :: M))
        = firstof P M).
      { unfold firstof. destruct P as [|h P]; cbn; [by rewrite decide_True|].
        rewrite decide_False; [done|]. intros [= ->].
        rewrite <- app_assoc in ND. apply NoDup_app in ND as (_ & _ & ND). cbn in ND.
        apply NoDup_cons in ND as [ND _]. apply ND, elem_of_app. right. by left. }
      rewrite Ef. destruct (IH fuel P (todo ++ [e]) (cnt + 1) nr d1) as (d' & -> & H1 & H2 & H3 & H4).
      * done.
      * rewrite E1. rewrite <- app_assoc in ND. rewrite app_assoc, Permutation_app_comm in ND. 
        rewrite app_assoc. rewrite Permutation_app_comm. cbn in ND. by apply NoDup_cons in ND as [_ ?].
      * cbn in Hf. lia.
      * intros h Hh. apply Hg. by rewrite marked_cons, Hh, orb_true_r.
      * exists d'. unfold resources, markers. cbn [List.filter]. rewrite !Er. cbn [negb].
        split_and!; try done.
        -- rewrite <- app_assoc. cbn [length app]. repeat first [lia | f_equal].
        -- intros h. by rewrite H4, marked_cons, Eg.
Qed.
End pass1.

(** ** Second pass

    [E] is the list after the first pass: [A], the markers of the range and
    [B]. A group is complete for the markers [P] when its opening marker is
    among them, and its closing one too if the group is closed. *)
Section pass2.
Context (A B E : list node) (ND : NoDup E).

Definition comp (P : list node) (g : Z) : bool :=
  bool_decide (Open g ∈ P) && (bool_decide (Close g ∈ P) || bool_decide (Close g ∉ E)).

Definition gone (P : list node) (e : node) : bool :=
  match node_to_group e with Some g => comp P g | None => false end.

Definition live (P : list node) : list node := filter (λ e, gone P e = false) E.

Lemma comp_true P g : comp P g = true <-> Open g ∈ P /\ (Close g ∈ P \/ Close g ∉ E).
Proof. unfold comp. by rewrite andb_true_iff, orb_true_iff, !bool_decide_eq_true. Qed.

Lemma comp_false_of P g e :
  e ∉ P -> e ∈ E -> node_to_group e = Some g -> comp P g = false.
Proof.
  intros HP HE Eg. apply not_true_is_false. rewrite comp_true. intros [H1 H2].
  destruct e as [|h|h]; cbn in Eg; [done|..]; injection Eg as ->; tauto.
Qed.

Lemma gone_false_of P e : e ∉ P -> e ∈ E -> gone P e = false.
Proof.
  intros HP HE. unfold gone. destruct (node_to_group e) as [g|] eqn:Eg; [|done]. by eapply comp_false_of.
Qed.

Lemma comp_other P e g h : node_to_group e = Some g -> h <> g -> comp (P ++ [e]) h = comp P h.
Proof.
  intros Eg Hne. apply eq_true_iff_eq. rewrite !comp_true, !elem_of_app, !list_elem_of_singleton.
  assert (Open h <> e /\ Close h <> e) by (split; intros <-; injection Eg; congruence). naive_solver.
Qed.

Lemma live_complete P e g :
  node_to_group e = Some g -> comp P g = false -> comp (P ++ [e]) g = true ->
  filter (λ x, x <> Close g) (filter (λ x, x <> Open g) (live P)) = live (P ++ [e]).
Proof.
  intros Eg H0 H1. unfold live. rewrite !list_filter_filter. apply list_filter_iff. intros x.
  unfold gone. destruct x as [a r|h|h]; cbn; [naive_solver|..];
    (destruct (decide (h = g)) as [->|Hne]; [rewrite H1; naive_solver|]);
    rewrite (comp_other P e g h Eg Hne); naive_solver.
Qed.

Lemma live_same P e g :
  node_to_group e = Some g -> comp P g = false -> comp (P ++ [e]) g = false -> live P = live (P ++ [e]).
Proof.
  intros Eg H0 H1. unfold live. apply list_filter_iff. intros x. unfold gone.
  destruct x as [a r|h|h]; cbn; [done|..];
    (destruct (decide (h = g)) as [->|Hne]; [by rewrite H0, H1|by rewrite (comp_other P e g h Eg Hne)]).
Qed.

Lemma filter_all (p : node -> bool) (l : list node) :
  (forall x, x ∈ l -> p x = false) -> filter (λ e, p e = false) l = l.
Proof.
  induction l as [|x l IH]; intros H; [done|]. rewrite filter_cons_True by (apply H; by left).
  f_equal. apply IH. intros; apply H; by right.
Qed.

Lemma live_split P e M : E = A ++ P ++ e :: M ++ B ->
  live P = filter (λ e, gone P e = false) (A ++ P) ++ e :: M ++ B.
Proof.
  intros EE. unfold live. rewrite EE, app_assoc, filter_app. f_equal. apply filter_all.
  intros x Hx. apply gone_false_of.
  - intros HP. rewrite EE, app_assoc in ND. apply NoDup_app in ND as (_ & Hd & _).
    apply (Hd x); [by apply elem_of_app; right|done].
  - rewrite EE, app_assoc. apply elem_of_app. by right.
Qed.

Lemma unlinked_live P d e : devres_head d = live P -> e ∈ E -> gone P e = false -> unlinked e d = false.
Proof.
  intros Hd HE Hg. unfold unlinked. apply bool_decide_eq_false. rewrite Hd. intros H. apply H.
  by apply list_elem_of_filter.
Qed.

Lemma unlinked_out P d e : devres_head d = live P -> e ∉ E -> unlinked e d = true.
Proof.
  intros Hd HE. unfold unlinked. apply bool_decide_eq_true. rewrite Hd. by intros [_ H]%list_elem_of_filter.
Qed.

Definition coloured (P M : list node) (d : device) : Prop :=
  forall g, marked M g = true -> exists x, groups d !! g = Some x /\
    color x = if marked P g then 1 else 0.

(** The colour a marker gives its group is two exactly when it completes it. *)
Lemma next_color P e M d g x :
  E = A ++ P ++ e :: M ++ B -> devres_head d = live P -> node_to_group e = Some g ->
  (Close g ∈ E -> Open g ∈ E) -> color x = (if marked P g then 1 else 0) ->
  unlinked (Open g) d = false /\ comp P g = false /\
  (if unlinked (Close g) d then color x + 1 + 1 else color x + 1)
  = if comp (P ++ [e]) g then 2 else 1.
Proof.
  intros EE Hd Eg Hw Hx.
  assert (HeE : e ∈ E) by (rewrite EE, app_assoc; apply elem_of_app; right; by left).
  assert (HeP : e ∉ P).
  { intros HP. rewrite EE, app_assoc in ND. apply NoDup_app in ND as (_ & Hn & _).
    apply (Hn e); [by apply elem_of_app; right|by left]. }
  pose proof (comp_false_of P g e HeP HeE Eg) as Hc0.
  assert (HO : Open g ∈ E).
  { destruct e as [|h|h]; cbn in Eg; [done|..]; injection Eg as ->; auto. }
  split; [by apply (unlinked_live P)|]. split; [done|].
  assert (HP : forall y, node_to_group y = Some g -> y <> e -> y ∈ P <-> marked P g = true).
  { intros y Ey Hne. rewrite marked_spec. destruct y as [|h|h]; cbn in Ey; [done|..]; injection Ey as ->;
      (destruct e as [|h|h]; cbn in Eg; [done|..]; injection Eg as ->); naive_solver. }
  destruct (decide (Close g ∈ E)) as [HC|HC].
  - rewrite (unlinked_live P) by done. rewrite Hx.
    assert (Hcomp : comp (P ++ [e]) g = marked P g).
    { apply eq_true_iff_eq. rewrite comp_true, !elem_of_app, !list_elem_of_singleton.
      destruct e as [|h|h]; cbn in Eg; [done|..]; injection Eg as ->;
        [rewrite <- (HP (Close g)) by done|rewrite <- (HP (Open g)) by done]; naive_solver. }
    rewrite Hcomp. by destruct (marked P g).
  - rewrite (unlinked_out P) by done. rewrite Hx.
    assert (e = Open g) as -> by (destruct e as [|h|h]; cbn in Eg; [done|..]; injection Eg as ->; done).
    assert (marked P g = false) as ->.
    { apply not_true_is_false. rewrite <- (HP (Close g)) by done. intros H. apply HC.
      rewrite EE, !elem_of_app. tauto. }
    assert (comp (P ++ [Open g]) g = true) as ->; [|done].
    apply comp_true. split; [|by right]. apply elem_of_app. right. by left.
Qed.

(** A group has two markers. *)
Lemma three_markers P M e g :
  E = A ++ P ++ e :: M ++ B -> node_to_group e = Some g -> marked M g = true -> marked P g = true -> False.
Proof.
  intros EE Eg HM%marked_spec HP%marked_spec.
  rewrite EE in ND. apply NoDup_app in ND as (_ & _ & N1). apply NoDup_app in N1 as (_ & Hd & N2).
  apply NoDup_cons in N2 as [He _].
  assert (Hd' : forall y, y ∈ P -> y ∈ M -> False).
  { intros y H1 H2. apply (Hd y H1). right. by apply elem_of_app; left. }
  assert (HeP : e ∉ P) by (intros H; apply (Hd e H); by left).
  assert (HeM : e ∉ M) by (intros H; apply He, elem_of_app; by left).
  destruct e as [|h|h]; cbn in Eg; [done|..]; injection Eg as ->; naive_solver.
Qed.

Lemma coloured_step P M d e g x c :
  coloured P (e :: M) d -> node_to_group e = Some g -> (marked M g = true -> marked P g = false /\ c = 1) ->
  coloured (P ++ [e]) M (with_groups (<[g := Grp (gid x) c]> (groups d)) d).
Proof.
  intros HC Eg H1 h Hh. cbn. unfold marked. rewrite existsb_app. cbn. rewrite Eg, orb_false_r.
  destruct (decide (h = g)) as [->|Hne].
  - rewrite lookup_insert_eq, Z.eqb_refl, orb_true_r. eexists; split; [done|]. cbn. by apply H1.
  - rewrite lookup_insert_ne, (proj2 (Z.eqb_neq g h)), orb_false_r by done. apply HC.
    by rewrite marked_cons, Hh, orb_true_r.
Qed.

Lemma gid_insert (gs : gmap Z group) g x c h :
  gs !! g = Some x -> gid <$> <[g := Grp (gid x) c]> gs !! h = gid <$> gs !! h.
Proof.
  intros Hx. rewrite lookup_insert. case_decide; [subst; by rewrite Hx|done].
Qed.

Lemma pass2_ok fuel P M todo d :
  E = A ++ P ++ M ++ B -> devres_head d = live P -> (length M <= fuel)%nat ->
  (forall e, e ∈ M -> is_res e = false) -> (forall g, Close g ∈ E -> Open g ∈ E) -> coloured P M d ->
  exists d' gs, pass2 fuel (head (M ++ B)) (head B) todo d = Some (todo ++ (Open <$> gs), d') /\
    devres_head d' = live (P ++ M) /\ released d' = released d /\ freed d' = freed d /\
    (forall g, gid <$> groups d' !! g = gid <$> groups d !! g) /\
    NoDup gs /\ forall g, g ∈ gs <-> comp (P ++ M) g = true /\ comp P g = false.
Proof.
  revert fuel P todo d; induction M as [|e M IH]; intros fuel P todo d EE Hd Hf Hr Hw HC.
  - exists d, []. cbn [fmap list_fmap]. rewrite !app_nil_r. split; [|split_and!; try done; [constructor|]].
    + destruct fuel; cbn [pass2 app]; by rewrite decide_True, ?app_nil_r.
    + intros g. rewrite elem_of_nil. split; [done|]. intros [-> ?]. done.
  - destruct fuel as [|fuel]; [cbn in Hf; lia|]. cbn [pass2]. rewrite decide_False.
    2: { apply (head_app_ne e M B). rewrite EE, app_assoc in ND. by apply NoDup_app in ND as (_ & _ & ?). }
    cbn [app head mbind option_bind].
    assert (HN : next_of e (devres_head d) = head (M ++ B)).
    { rewrite Hd, (live_split P e M EE). apply next_of_split. rewrite <- (live_split P e M EE).
      by apply NoDup_filter. }
    rewrite HN. destruct (node_to_group e) as [g|] eqn:Eg.
    2: { specialize (Hr e ltac:(by left)). by destruct e. }
    cbn [mbind option_bind]. destruct (HC g) as (x & Hx & Hcol); [by rewrite marked_cons, Eg, Z.eqb_refl|].
    destruct (next_color P e M d g x EE Hd Eg (Hw g) Hcol) as (Hu & Hc0 & Hcolor).
    rewrite Hu, Hx. cbn [mbind option_bind]. unfold set_color. rewrite Hx; cbn [mbind option_bind].
    rewrite Hcolor.
    assert (EE' : E = A ++ (P ++ [e]) ++ M ++ B) by (by rewrite <- app_assoc).
    assert (HPe : forall h, comp ((P ++ [e]) ++ M) h = comp (P ++ e :: M) h) by (intros; by rewrite <- app_assoc).
    destruct (comp (P ++ [e]) g) eqn:Hc1; cbn [Z.leb Z.ltb Z.compare orb Z.eqb Pos.eqb Pos.compare Pos.compare_cont].
    + set (d1 := list_del_init (Close g) (list_del_init (Open g) _)).
      assert (HnM : marked M g = false).
      { apply not_true_is_false. rewrite marked_spec. apply comp_true in Hc1 as [HO HCl].
        assert (ND2 : NoDup ((A ++ (P ++ [e])) ++ (M ++ B))) by (by rewrite <- app_assoc, <- EE').
        apply NoDup_app in ND2 as (_ & Hd2 & _). intros [H|H].
        - apply (Hd2 (Open g)); [apply elem_of_app; by right|apply elem_of_app; by left].
        - destruct HCl as [H'|H']; [apply (Hd2 (Close g)); [apply elem_of_app; by right|apply elem_of_app; by left]|].
          apply H'. rewrite EE', !elem_of_app. tauto. }
      destruct (IH fuel (P ++ [e]) (todo ++ [Open g]) d1 EE') as (d' & gs & -> & H1 & H2 & H3 & HG & H4 & H5).
      * unfold d1. cbn. rewrite Hd. by apply live_complete.
      * cbn in Hf. lia.
      * intros; apply Hr; by right.
      * done.
      * unfold d1. apply (coloured_step P M d e g x 2 HC Eg). by rewrite HnM.
      * exists d', (g :: gs). rewrite <- app_assoc in H1. split; [by rewrite <- app_assoc|].
        split; [done|]. split; [done|]. split; [done|].
        split; [intros h; rewrite HG; by apply gid_insert|]. split.
        -- apply NoDup_cons. split; [|done]. rewrite H5, Hc1. intros [_ ?]; done.
        -- intros h. rewrite elem_of_cons, H5, HPe. destruct (decide (h = g)) as [->|Hne].
           ++ split; [|by left]. intros _. split; [|done]. apply comp_true in Hc1 as [HO HCl]. apply comp_true.
              clear -HO HCl. set_solver.
           ++ rewrite (comp_other P e g h Eg Hne). naive_solver.
    + destruct (IH fuel (P ++ [e]) todo (with_groups (<[g := Grp (gid x) 1]> (groups d)) d) EE')
        as (d' & gs & -> & H1 & H2 & H3 & HG & H4 & H5).
      * cbn. rewrite Hd. by eapply live_same.
      * cbn in Hf. lia.
      * intros; apply Hr; by right.
      * done.
      * apply (coloured_step P M d e g x 1 HC Eg). intros HM. split; [|done].
        destruct (marked P g) eqn:HPg; [|done]. exfalso. exact (three_markers P M e g EE Eg HM HPg).
      * exists d', gs. rewrite <- app_assoc in H1. split; [done|]. split; [done|]. split; [done|].
        split; [done|]. split; [intros h; rewrite HG; by apply gid_insert|]. split; [done|]. intros h. rewrite H5, HPe.
        destruct (decide (h = g)) as [->|Hne]; [by rewrite Hc1, Hc0|by rewrite (comp_other P e g h Eg Hne)].
Qed.
End pass2.

(** ** The list of a device *)

(** The memory a device owns: a group is one block with two nodes. *)
Definition blocks (l : list node) : list node :=
  List.filter (fun e => match e with Close _ => false | _ => true end) l.
Definition owned (d : device) : list Z := addr <$> blocks (devres_head d).

Record wf (d : device) : Prop := {
  wf_nodup : NoDup (devres_head d);
  wf_owned : NoDup (owned d);
  wf_pos : forall e, e ∈ devres_head d -> 0 < addr e;
  (** a group is closed after it was opened *)
  wf_order : forall g l1 l2, devres_head d = l1 ++ Close g :: l2 -> Open g ∈ l1;
  wf_groups : forall g, Open g ∈ devres_head d -> is_Some (groups d !! g);
}.

Lemma wf_close d g : wf d -> Close g ∈ devres_head d -> Open g ∈ devres_head d.
Proof.
  intros W H. apply list_elem_of_split in H as (l1 & l2 & E). pose proof (wf_order d W g l1 l2 E).
  rewrite E. apply elem_of_app. by left.
Qed.

(** The nodes that releasing the range [M] takes off the list: its resources,
    and the groups it wholly contains. *)
Definition dropped (d : device) (M : list node) (e : node) : bool :=
  if is_res e then bool_decide (e ∈ M) else gone (devres_head d) M e.

Lemma markers_in M e : e ∈ markers M <-> e ∈ M /\ is_res e = false.
Proof.
  unfold markers. rewrite !list_elem_of_In, List.filter_In, negb_true_iff. done.
Qed.

Lemma resources_in M e : e ∈ resources M <-> e ∈ M /\ is_res e = true.
Proof. unfold resources. by rewrite !list_elem_of_In, List.filter_In. Qed.

Lemma NoDup_list_filter (p : node -> bool) (l : list node) : NoDup l -> NoDup (List.filter p l).
Proof.
  induction 1 as [|x l Hx ND IH]; cbn; [constructor|]. destruct (p x); [|done].
  apply NoDup_cons. split; [|done]. intros H%list_elem_of_In.
  apply List.filter_In in H as [H _]. by apply Hx, list_elem_of_In.
Qed.

Lemma filter_none (p : node -> bool) (l : list node) :
  (forall x, x ∈ l -> p x = true) -> filter (λ e, p e = false) l = [].
Proof.
  induction l as [|x l IH]; intros H; [done|]. rewrite filter_cons_False.
  - apply IH. intros; apply H; by right.
  - rewrite H by (by left). done.
Qed.

Lemma filter_ext_in (p q : node -> bool) (l : list node) :
  (forall x, x ∈ l -> p x = q x) -> filter (λ e, p e = false) l = filter (λ e, q e = false) l.
Proof.
  induction l as [|x l IH]; intros H; [done|]. rewrite !filter_cons, (H x), IH by (by left || (intros; apply H; by right)).
  done.
Qed.

Lemma filter_markers (p q : node -> bool) (l : list node) :
  (forall e, is_res e = false -> p e = q e) -> (forall e, e ∈ l -> is_res e = true -> q e = true) ->
  filter (λ e, p e = false) (markers l) = filter (λ e, q e = false) l.
Proof.
  intros E Hq. induction l as [|x l IH]; [done|].
  assert (IH' : filter (λ e, p e = false) (markers l) = filter (λ e, q e = false) l)
    by (apply IH; intros; apply Hq; [by right|done]).
  unfold markers in *. cbn [List.filter]. destruct (is_res x) eqn:Er; cbn [negb].
  - rewrite filter_cons_False; [done|]. rewrite Hq by (done || by left). done.
  - rewrite !filter_cons, (E x Er), IH'. done.
Qed.

Lemma comp_head d A M B g : NoDup (devres_head d) -> devres_head d = A ++ M ++ B ->
  comp (A ++ markers M ++ B) (markers M) g = comp (devres_head d) M g.
Proof.
  intros ND E. apply eq_true_iff_eq. rewrite !comp_true, !markers_in, E, !elem_of_app, markers_in.
  cbn. tauto.
Qed.

Lemma remove_nodes_ok d A M B :
  wf d -> devres_head d = A ++ M ++ B ->
  exists d' gs, remove_nodes (head (M ++ B)) (head B) d =
      Some (Z.of_nat (length (resources M)), resources M ++ (Open <$> gs), d') /\
    devres_head d' = filter (λ e, dropped d M e = false) (devres_head d) /\
    released d' = released d /\ freed d' = freed d /\
    (forall g, gid <$> groups d' !! g = gid <$> groups d !! g) /\
    NoDup gs /\ forall g, g ∈ gs <-> comp (devres_head d) M g = true.
Proof.
  intros W E. pose proof (wf_nodup d W) as ND.
  assert (HG : forall g, marked M g = true -> is_Some (groups d !! g)).
  { intros g [H|H]%marked_spec; apply (wf_groups d W); [|apply (wf_close d g W)];
      rewrite E, !elem_of_app; tauto. }
  unfold remove_nodes.
  assert (Hlen : (length M <= length (devres_head d))%nat) by (rewrite E, !length_app; lia).
  destruct (pass1_ok A B (length (devres_head d)) [] M [] 0 0 d E ND Hlen HG)
    as (d1 & E1 & H1 & H2 & H3 & H4). unfold firstof in E1. cbn [app] in E1, H1.
  rewrite !Z.add_0_l in E1. rewrite E1. cbn [mbind option_bind].
  assert (Hgid : forall g, gid <$> groups d1 !! g = gid <$> groups d !! g).
  { intros g. rewrite H4. destruct (marked M g); [|done]. by destruct (groups d !! g). }
  set (E0 := A ++ markers M ++ B) in *.
  assert (ND0 : NoDup E0).
  { rewrite E in ND. apply NoDup_app in ND as (N1 & D1 & N2). apply NoDup_app in N2 as (N2 & D2 & N3).
    apply NoDup_app. split; [done|]. split.
    - intros x Hx [[? _]%markers_in|?]%elem_of_app; apply (D1 x Hx), elem_of_app; auto.
    - apply NoDup_app. split; [by apply NoDup_list_filter|]. split; [|done].
      intros x [Hx _]%markers_in. by apply D2. }
  assert (Hdrop : filter (λ e, gone E0 (markers M) e = false) E0 =
    filter (λ e, dropped d M e = false) (devres_head d)).
  { assert (HAB : forall l : list node, (forall e, e ∈ l -> e ∉ M) ->
      filter (λ e, gone E0 (markers M) e = false) l = filter (λ e, dropped d M e = false) l).
    { intros l Hl. apply filter_ext_in. intros e He. unfold dropped, gone.
      destruct (is_res e) eqn:Er.
      - destruct e; [|done..]. cbn. rewrite bool_decide_eq_false_2 by auto. done.
      - destruct (node_to_group e) as [g|]; [|done]. by rewrite (comp_head d A M B). }
    change (filter (λ e, gone E0 (markers M) e = false) (A ++ markers M ++ B) =
      filter (λ e, dropped d M e = false) (devres_head d)). rewrite E, !filter_app.
    pose proof ND as ND'. rewrite E in ND.
    apply NoDup_app in ND as (N1 & D1 & N2). apply NoDup_app in N2 as (N2 & D2 & N3).
    f_equal; [apply HAB; intros e He HM; apply (D1 e He), elem_of_app; by left|]. f_equal.
    - apply filter_markers.
      + intros e Er. unfold dropped, gone. rewrite Er. destruct (node_to_group e) as [g|]; [|done].
        exact (comp_head d A M B g ND' E).
      + intros e He Er. unfold dropped. rewrite Er. by apply bool_decide_eq_true.
    - apply HAB. intros e He HM. by apply (D2 e HM). }
  destruct (Z.eqb_spec (Z.of_nat (length (markers M))) 0) as [Hz|Hz].
  - assert (Hnil : markers M = []) by (destruct (markers M); [done|cbn in Hz; lia]).
    exists d1, []. split; [by rewrite app_nil_r|]. split.
    + rewrite H1, <- Hdrop. symmetry. apply filter_all. intros x _. rewrite Hnil. unfold gone.
      destruct (node_to_group x) as [g|]; [|done]. apply not_true_is_false. rewrite comp_true.
      by intros [?%elem_of_nil _].
    + split; [done|]. split; [done|]. split; [done|]. split; [constructor|]. intros g.
      rewrite elem_of_nil, <- (comp_head d A M B g ND E), Hnil, comp_true.
      split; [done|]. by intros [?%elem_of_nil _].
  - destruct (pass2_ok A B E0 ND0 (length (devres_head d)) [] (markers M) (resources M) d1 eq_refl)
      as (d2 & gs & E2 & K1 & K2 & K3 & K4 & K5 & K6).
    + rewrite H1. symmetry. apply filter_all. intros x _. unfold gone.
      destruct (node_to_group x) as [g|]; [|done]. apply not_true_is_false. rewrite comp_true.
      by intros [?%elem_of_nil _].
    + unfold markers. pose proof (List.filter_length_le (fun e => negb (is_res e)) M). lia.
    + by intros e [_ ?]%markers_in.
    + intros g Hg. assert (Close g ∈ devres_head d) as Hc.
      { rewrite E. unfold E0 in Hg. rewrite !elem_of_app in *. rewrite markers_in in Hg. tauto. }
      apply (wf_close d g W) in Hc. rewrite E in Hc. unfold E0. rewrite !elem_of_app in *.
      rewrite markers_in. tauto.
    + intros g Hg. assert (marked M g = true) as Hm.
      { apply marked_spec in Hg as [[? _]%markers_in|[? _]%markers_in]; apply marked_spec; auto. }
      destruct (HG g Hm) as [x Hx]. exists (Grp (gid x) 0). by rewrite H4, Hm, Hx.
    + cbn [app] in *. exists d2, gs. rewrite E2. cbn [mbind option_bind]. split; [done|].
      split; [by rewrite K1|]. split; [congruence|]. split; [congruence|].
      split; [intros g; by rewrite K4|]. split; [done|]. intros g. rewrite K6.
      rewrite <- (comp_head d A M B g ND E). split; [by intros [? _]|]. intros H. split; [done|].
      apply not_true_is_false. rewrite comp_true. by intros [?%elem_of_nil _].
Qed.

(** ** Releasing *)

Lemma release_ok d l :
  (forall e, e ∈ l -> 0 < addr e) ->
  let d' := foldl (fun d e => release_one e d) d l in
  devres_head d' = devres_head d /\ groups d' = groups d /\
  released d' = released d ++ (addr <$> resources l) /\ freed d' = freed d ++ (addr <$> l).
Proof.
  revert d; induction l as [|e l IH]; intros d H; cbn [foldl].
  - cbn. by rewrite !app_nil_r.
  - assert (He : addr e =? 0 = false) by (apply Z.eqb_neq; pose proof (H e ltac:(by left)); lia).
    destruct (IH (release_one e d)) as (-> & -> & -> & ->); [intros; apply H; by right|].
    destruct e; cbn in He; cbn; unfold kfree; rewrite He; cbn; by rewrite <- ?app_assoc.
Qed.

Lemma resources_app l1 l2 : resources (l1 ++ l2) = resources l1 ++ resources l2.
Proof. apply List.filter_app. Qed.

Lemma resources_rev l : resources (rev l) = rev (resources l).
Proof. apply List.filter_rev. Qed.

Lemma resources_idem M : resources (resources M) = resources M.
Proof.
  induction M as [|e M IH]; [done|]. unfold resources in *. cbn. destruct (is_res e) eqn:E; [|done].
  cbn. by rewrite E, IH.
Qed.

Lemma resources_opens gs : resources (Open <$> gs) = [].
Proof. by induction gs. Qed.

Lemma fmap_addr_rev l : addr <$> rev l = rev (addr <$> l).
Proof. apply List.map_rev. Qed.

(** What releasing a range does. *)
Definition range_released (d : device) (M : list node) (d' : device) : Prop :=
  devres_head d' = filter (λ e, dropped d M e = false) (devres_head d) /\
  released d' = released d ++ rev (addr <$> resources M) /\
  (exists gs, NoDup gs /\ (forall g, g ∈ gs <-> comp (devres_head d) M g = true) /\
    freed d' = freed d ++ rev (addr <$> (resources M ++ (Open <$> gs)))) /\
  forall g, gid <$> groups d' !! g = gid <$> groups d !! g.

Lemma release_nodes_ok d A M B :
  wf d -> devres_head d = A ++ M ++ B ->
  exists d', release_nodes (head (M ++ B)) (head B) d = Some (Z.of_nat (length (resources M)), d') /\
    range_released d M d'.
Proof.
  intros W E. destruct (remove_nodes_ok d A M B W E) as (d1 & gs & E1 & H1 & H2 & H3 & H4 & H5 & H6).
  unfold release_nodes. rewrite E1. cbn [mbind option_bind]. eexists. split; [done|].
  assert (Hin : forall e, e ∈ rev (resources M ++ (Open <$> gs)) -> 0 < addr e).
  { intros e He. apply (wf_pos d W). rewrite E, !elem_of_app. right; left.
    rewrite list_elem_of_In, <- in_rev, <- list_elem_of_In, elem_of_app, resources_in, list_elem_of_fmap in He.
    destruct He as [[? _]|(g & -> & Hg)]; [done|]. apply H6, comp_true in Hg. tauto. }
  pose proof (release_ok d1 _ Hin) as HR; cbv zeta in HR.
  destruct HR as (R1 & R2 & R3 & R4). unfold range_released. rewrite R1, R2, R3, R4.
  split; [done|]. split; [|split; [|done]].
  - rewrite H2, resources_rev, resources_app, resources_idem, resources_opens, app_nil_r, fmap_addr_rev. done.
  - exists gs. rewrite H3, fmap_addr_rev. done.
Qed.

(** ** Well-formedness *)

Lemma filter_split {A} (P : A -> Prop) `{forall x, Decision (P x)} (l l1 l2 : list A) x :
  filter P l = l1 ++ x :: l2 -> exists k1 k2, l = k1 ++ x :: k2 /\ filter P k1 = l1.
Proof.
  revert l1; induction l as [|y l IH]; intros l1 E; [by destruct l1|]. rewrite filter_cons in E.
  destruct (decide (P y)) as [Hy|Hy].
  - destruct l1 as [|z l1]; injection E as -> E.
    + by exists [], l.
    + destruct (IH _ E) as (k1 & k2 & -> & <-). exists (z :: k1), k2. by rewrite filter_cons_True.
  - destruct (IH _ E) as (k1 & k2 & -> & <-). exists (y :: k1), k2. by rewrite filter_cons_False.
Qed.

Lemma blocks_filter (p : node -> bool) l :
  blocks (filter (λ e, p e = false) l) = filter (λ e, p e = false) (blocks l).
Proof.
  unfold blocks. induction l as [|e l IH]; [done|]. cbn [List.filter].
  destruct (p e) eqn:Ep.
  - rewrite filter_cons_False by congruence. rewrite IH. destruct e; [|..|done];
      by rewrite filter_cons_False by congruence.
  - rewrite filter_cons_True by done. cbn [List.filter]. rewrite IH. destruct e; [|..|done];
      by rewrite filter_cons_True by done.
Qed.

(** Taking nodes off the list, both markers of a group or none. *)
Lemma wf_filter p d d' :
  wf d -> devres_head d' = filter (λ e, p e = false) (devres_head d) ->
  (forall g, p (Open g) = p (Close g)) ->
  (forall g, is_Some (groups d !! g) -> is_Some (groups d' !! g)) -> wf d'.
Proof.
  intros W E Hp Hg. split.
  - rewrite E. apply NoDup_filter, (wf_nodup d W).
  - unfold owned. rewrite E, blocks_filter. eapply sublist_NoDup; [apply (wf_owned d W)|].
    apply fmap_sublist, sublist_filter.
  - intros e. rewrite E, list_elem_of_filter. intros [_ H]. by apply (wf_pos d W).
  - intros g l1 l2 El. rewrite E in El. pose proof El as El'. apply filter_split in El as (k1 & k2 & Ek & <-).
    apply list_elem_of_filter. split; [|by apply (wf_order d W g k1 k2)].
    rewrite Hp. assert (Close g ∈ filter (λ e, p e = false) (devres_head d)) as H
      by (rewrite El'; apply elem_of_app; right; by left).
    by apply list_elem_of_filter in H as [? _].
  - intros g. rewrite E, list_elem_of_filter. intros [_ H]. apply Hg. by apply (wf_groups d W).
Qed.

Lemma dropped_pair d M g : dropped d M (Open g) = dropped d M (Close g).
Proof. done. Qed.

Lemma gid_some (d d' : device) g :
  gid <$> groups d' !! g = gid <$> groups d !! g -> is_Some (groups d !! g) -> is_Some (groups d' !! g).
Proof. destruct (groups d' !! g); [eauto|]. intros E [x Hx]. by rewrite Hx in E. Qed.

Lemma range_wf d M d' : wf d -> range_released d M d' -> wf d'.
Proof.
  intros W (H1 & _ & _ & H4). apply (wf_filter (dropped d M) d d' W H1); [done|].
  intros g. apply gid_some, H4.
Qed.

Lemma elem_of_blocks e l : e ∈ blocks l <-> e ∈ l /\ match e with Close _ => False | _ => True end.
Proof. unfold blocks. rewrite !list_elem_of_In, List.filter_In. destruct e; naive_solver. Qed.

Lemma NoDup_blocks d : wf d -> NoDup (blocks (devres_head d)).
Proof. intros W. eapply NoDup_fmap_1, (wf_owned d W). Qed.

(** Releasing moves the blocks of the range from the device to the freed. *)
Lemma range_conserves d M d' :
  wf d -> (forall e, e ∈ M -> e ∈ devres_head d) -> NoDup M -> range_released d M d' ->
  owned d' ++ freed d' ≡ₚ owned d ++ freed d.
Proof.
  intros W HM ND (H1 & _ & (gs & Hgs & Hin & H3) & _).
  assert (Hb : blocks (devres_head d) ≡ₚ blocks (devres_head d') ++ (resources M ++ (Open <$> gs))).
  { apply NoDup_Permutation; [by apply NoDup_blocks| |].
    - rewrite H1, blocks_filter. apply NoDup_app. split; [by apply NoDup_filter, NoDup_blocks|]. split.
      + intros e [Hd He]%list_elem_of_filter. rewrite elem_of_app, resources_in, list_elem_of_fmap.
        unfold dropped in Hd. intros [[HeM Er]|(g & -> & Hg)].
        * rewrite Er in Hd. by apply bool_decide_eq_false in Hd.
        * cbn in Hd. apply Hin in Hg. unfold gone in Hd. cbn in Hd. congruence.
      + apply NoDup_app. split; [by apply NoDup_list_filter|]. split; [|by apply NoDup_fmap_2; [intros ?? [=]|]].
        intros e [_ Er]%resources_in (g & -> & _)%list_elem_of_fmap. done.
    - intros e. rewrite H1, blocks_filter, !elem_of_app, list_elem_of_filter, resources_in, list_elem_of_fmap,
        elem_of_blocks. unfold dropped. split.
      + intros [He Hc]. destruct (is_res e) eqn:Er.
        * destruct (decide (e ∈ M)); [auto|]. left. rewrite bool_decide_eq_false. auto.
        * destruct e as [|g|]; [done| |done]. unfold gone; cbn.
          destruct (comp (devres_head d) M g) eqn:Ec; [|auto]. right. right. exists g. by rewrite Hin.
      + intros [[_ H]|[[HeM Er]|(g & -> & Hg)]]; [done|split; [auto|by destruct e]|].
        apply Hin, comp_true in Hg as [Hg _]. auto. }
  unfold owned. rewrite H3, Hb, fmap_app, <- Permutation_rev, !fmap_app, <- !app_assoc.
  apply Permutation_app_head. rewrite (Permutation_app_comm (freed d)). by rewrite <- app_assoc.
Qed.

(** ** The operations *)

Lemma find_last_Some p l e : find_last p l = Some e -> e ∈ l /\ p e = true.
Proof.
  induction l as [|x l IH]; cbn; [done|]. destruct (find_last p l) as [y|].
  - intros [= ->]. destruct IH as [? ?]; [done|]. split; [by right|done].
  - destruct (p x) eqn:Ep; [|done]. intros [= ->]. split; [by left|done].
Qed.

Lemma find_dr_res release mt d e : find_dr release mt d = Some e -> exists a, e = Res a release /\ e ∈ devres_head d.
Proof.
  intros [H1 H2]%find_last_Some. destruct e as [a r| |]; [|done..]. cbn in H2.
  destruct (r =? release) eqn:Er; [|done]. apply Z.eqb_eq in Er as ->. eauto.
Qed.

Lemma filter_ne_bool (e : node) (l : list node) :
  filter (λ x, x <> e) l = filter (λ x, bool_decide (x = e) = false) l.
Proof. apply list_filter_iff. intros x. by rewrite bool_decide_eq_false. Qed.

Lemma wf_add e d d' :
  wf d -> devres_head d' = devres_head d ++ [e] -> 0 < addr e -> e ∉ devres_head d ->
  (forall g, is_Some (groups d !! g) -> is_Some (groups d' !! g)) ->
  match e with
  | Res a _ => a ∉ owned d
  | Open g => g ∉ owned d /\ is_Some (groups d' !! g)
  | Close g => Open g ∈ devres_head d
  end -> wf d'.
Proof.
  intros W E Hpos Hni Hg He. split.
  - rewrite E. apply NoDup_app. split; [apply (wf_nodup d W)|]. split; [|apply NoDup_singleton].
    by intros x Hx ->%list_elem_of_singleton.
  - unfold owned, blocks. rewrite E, List.filter_app, fmap_app. pose proof (wf_owned d W) as HO.
    unfold owned, blocks in HO. apply NoDup_app. split; [done|].
    destruct e as [a r|g|g]; cbn [List.filter fmap list_fmap addr]; (split; [|by repeat constructor; set_solver]).
    + by intros x Hx ->%list_elem_of_singleton.
    + intros x Hx ->%list_elem_of_singleton. by destruct He.
    + by intros x _ ?%elem_of_nil.
  - intros x. rewrite E, elem_of_app, list_elem_of_singleton. intros [H| ->]; [by apply (wf_pos d W)|done].
  - intros g l1 l2. rewrite E. destruct l2 as [|y l2 _] using rev_ind.
    + intros [<- ->]%app_inj_tail. exact He.
    + rewrite app_comm_cons, app_assoc. intros [El _]%app_inj_tail. by apply (wf_order d W g l1 l2).
  - intros g. rewrite E, elem_of_app, list_elem_of_singleton. intros [H| <-]; [apply Hg; by apply (wf_groups d W)|].
    by destruct He.
Qed.

Lemma owned_add e d d' : devres_head d' = devres_head d ++ [e] ->
  owned d' = owned d ++ match e with Close _ => [] | _ => [addr e] end.
Proof. unfold owned, blocks. intros ->. rewrite List.filter_app, fmap_app. by destruct e. Qed.

Lemma not_owned e d : addr e ∉ owned d -> match e with Close _ => False | _ => True end -> e ∉ devres_head d.
Proof.
  intros H He Hin. apply H, list_elem_of_fmap. exists e. split; [done|]. by apply elem_of_blocks.
Qed.

Lemma unlinked_true e d : unlinked e d = true <-> e ∉ devres_head d.
Proof. apply bool_decide_eq_true. Qed.

Inductive op :=
| AddOp (a release : Z)               (** [devres_alloc], then [devres_add] *)
| DestroyOp (release : Z) (mt : option (Z -> bool))
| KzallocOp (a : Z) | KfreeOp (p : Z)
| OpenOp (id a : Z) | CloseOp (id : Z) | RemoveGroupOp (id : Z) | ReleaseGroupOp (id : Z)
| ReleaseAllOp.

Definition exec (o : op) (d : device) : option device :=
  match o with
  | AddOp a r => let res := devres_alloc r a in if res =? 0 then Some d else devres_add res r d
  | DestroyOp r mt => snd <$> devres_destroy r mt d
  | KzallocOp a => snd <$> devm_kzalloc a d
  | KfreeOp p => devm_kfree p d
  | OpenOp id a => snd <$> devres_open_group id a d
  | CloseOp id => devres_close_group id d
  | RemoveGroupOp id => Some (devres_remove_group id d)
  | ReleaseGroupOp id => snd <$> devres_release_group id d
  | ReleaseAllOp => snd <$> devres_release_all d
  end.

(** The block [kmalloc] returned to the operation, if it returned one. *)
Definition allocated (o : op) : list Z :=
  match o with
  | AddOp a _ | KzallocOp a | OpenOp _ a => if a =? 0 then [] else [a]
  | _ => []
  end.

(** [kmalloc] returns memory that is not in use, and a group is closed once. *)
Definition allowed (o : op) (d : device) : Prop :=
  match o with
  | AddOp a _ | KzallocOp a | OpenOp _ a => 0 <= a /\ (a <> 0 -> a ∉ owned d)
  | CloseOp id => match find_group id d with Some g => Close g ∉ devres_head d | None => True end
  | _ => True
  end.

#[global] Instance allowed_dec o d : Decision (allowed o d).
Proof. destruct o; cbn; try apply _. destruct (find_group id d); apply _. Defined.

Fixpoint run (ops : list op) (d : device) : option device :=
  match ops with [] => Some d | o :: ops => d ← exec o d; run ops d end.
Fixpoint legal (ops : list op) (d : device) : Prop :=
  match ops with
  | [] => True
  | o :: ops => allowed o d /\ match exec o d with Some d => legal ops d | None => True end
  end.

#[global] Instance legal_dec ops d : Decision (legal ops d).
Proof.
  revert d; induction ops as [|o ops IH]; intros d; cbn; [apply _|].
  destruct (exec o d); apply _.
Defined.

Definition ok (news : list Z) (d : device) (r : option device) : Prop :=
  exists d', r = Some d' /\ wf d' /\ owned d' ++ freed d' ≡ₚ news ++ owned d ++ freed d.

Lemma ok_same d : wf d -> ok [] d (Some d).
Proof. intros W. by exists d. Qed.

Lemma add_res_ok a r d : wf d -> 0 < a -> a ∉ owned d -> ok [a] d (add_dr (Res a r) d).
Proof.
  intros W Ha Ho. pose proof (not_owned (Res a r) d Ho I) as Hni. unfold add_dr.
  rewrite (proj2 (unlinked_true _ _) Hni). eexists; split; [done|]. split.
  - by apply (wf_add (Res a r) d).
  - rewrite (owned_add (Res a r) d) by done. cbn. by rewrite (Permutation_app_comm (owned d)).
Qed.

Lemma open_ok id a d : wf d -> 0 <= a -> (a <> 0 -> a ∉ owned d) ->
  ok (if a =? 0 then [] else [a]) d (snd <$> devres_open_group id a d).
Proof.
  intros W Ha Ho. unfold devres_open_group. destruct (Z.eqb_spec a 0) as [->|Hz]; [by apply ok_same|].
  pose proof (not_owned (Open a) d (Ho Hz) I) as Hni. unfold add_dr.
  change (unlinked (Open a) (with_groups _ d)) with (unlinked (Open a) d).
  rewrite (proj2 (unlinked_true _ _) Hni). eexists; split; [done|]. split.
  - apply (wf_add (Open a) d); cbn; [done|done|lia|done| |].
    + intros g [x Hx]. destruct (decide (g = a)) as [->|]; [rewrite lookup_insert_eq|rewrite lookup_insert_ne by done]; eauto.
    + split; [auto|]. rewrite lookup_insert_eq. eauto.
  - rewrite (owned_add (Open a) d) by done. cbn. by rewrite (Permutation_app_comm (owned d)).
Qed.

Lemma find_group_Some id d g : find_group id d = Some g -> Open g ∈ devres_head d.
Proof.
  unfold find_group. destruct (find_last _ _) as [e|] eqn:E; [|done]. cbn. intros Hg.
  apply find_last_Some in E as [H1 H2]. destruct e as [|h|]; [done| |done]. by injection Hg as ->.
Qed.

Lemma close_ok id d : wf d -> (forall g, find_group id d = Some g -> Close g ∉ devres_head d) ->
  ok [] d (devres_close_group id d).
Proof.
  intros W H. unfold devres_close_group. destruct (find_group id d) as [g|] eqn:E; [|by apply ok_same].
  specialize (H g eq_refl). apply find_group_Some in E. unfold add_dr.
  rewrite (proj2 (unlinked_true _ _) H). eexists; split; [done|]. split.
  - apply (wf_add (Close g) d); try done. cbn. by apply (wf_pos d W (Open g)).
  - by rewrite (owned_add (Close g) d), app_nil_r.
Qed.

Lemma owned_remove e d :
  wf d -> e ∈ devres_head d -> match e with Close _ => False | _ => True end ->
  owned d ≡ₚ addr e :: (addr <$> filter (λ x, bool_decide (x = e) = false) (blocks (devres_head d))).
Proof.
  intros W He Hc. unfold owned. rewrite <- filter_ne_bool.
  apply (Permutation_map addr (l' := e :: filter (λ x, x <> e) (blocks (devres_head d)))).
  apply NoDup_Permutation; [by apply NoDup_blocks| |].
  - apply NoDup_cons. split; [by intros [? _]%list_elem_of_filter|]. by apply NoDup_filter, NoDup_blocks.
  - intros x. rewrite elem_of_cons, list_elem_of_filter. split.
    + intros Hx. destruct (decide (x = e)); auto.
    + intros [->|[_ H]]; [by apply elem_of_blocks|done].
Qed.

Lemma res_at_removed a r d : wf d -> Res a r ∈ devres_head d ->
  res_at a (devres_head (list_del_init (Res a r) d)) = false.
Proof.
  intros W He. apply not_true_is_false. unfold res_at. rewrite existsb_exists.
  intros (x & Hx%list_elem_of_In & Hxa). destruct x as [b r'| |]; [|done..]. apply Z.eqb_eq in Hxa as ->.
  cbn in Hx. apply list_elem_of_filter in Hx as [Hne Hx].
  pose proof (wf_owned d W) as HO. rewrite (owned_remove (Res a r) d W He I) in HO.
  apply NoDup_cons in HO as [HO _]. apply HO, list_elem_of_fmap. exists (Res a r'). split; [done|].
  apply list_elem_of_filter. split; [by apply bool_decide_eq_false|]. by apply elem_of_blocks.
Qed.

Lemma kfree_pos a d : 0 < a -> kfree a d = Dev (devres_head d) (groups d) (released d) (freed d ++ [a]).
Proof. intros. unfold kfree. by rewrite (proj2 (Z.eqb_neq a 0)) by lia. Qed.

Lemma destroy_ok r mt d : wf d -> ok [] d (snd <$> devres_destroy r mt d).
Proof.
  intros W. unfold devres_destroy, devres_remove. destruct (find_dr r mt d) as [e|] eqn:E; [|by apply ok_same].
  apply find_dr_res in E as (a & -> & He). pose proof (wf_pos d W _ He) as Ha. cbn [addr] in Ha.
  cbn [data_of]. rewrite (proj2 (Z.eqb_neq (a + DATA_OFFSET) 0)) by (unfold DATA_OFFSET; lia).
  unfold devres_free. rewrite (proj2 (Z.eqb_neq (a + DATA_OFFSET) 0)) by (unfold DATA_OFFSET; lia).
  replace (a + DATA_OFFSET - DATA_OFFSET) with a by lia. rewrite (res_at_removed a r d W He), (kfree_pos a) by done.
  eexists; split; [done|]. split.
  - apply (wf_filter (λ x, bool_decide (x = Res a r)) d); [done| |done|done]. cbn. apply filter_ne_bool.
  - cbn [app]. rewrite (owned_remove (Res a r) d W He I). unfold owned. cbn [devres_head freed list_del_init with_head snd].
    rewrite filter_ne_bool, blocks_filter. cbn [addr app]. rewrite app_assoc. by rewrite Permutation_app_comm.
Qed.

Lemma remove_group_ok id d : wf d -> ok [] d (Some (devres_remove_group id d)).
Proof.
  intros W. unfold devres_remove_group. destruct (find_group id d) as [g|] eqn:E; [|by apply ok_same].
  apply find_group_Some in E. pose proof (wf_pos d W _ E) as Hg. cbn [addr] in Hg. rewrite (kfree_pos g) by done.
  set (p := λ x, bool_decide (node_to_group x = Some g)).
  assert (HF : forall l : list node, filter (λ x, x <> Close g) (filter (λ x, x <> Open g) l) = filter (λ x, p x = false) l).
  { intros l. rewrite list_filter_filter. apply list_filter_iff. intros x. unfold p. rewrite bool_decide_eq_false.
    destruct x; cbn; naive_solver. }
  eexists; split; [done|]. split.
  - apply (wf_filter p d); [done| |done|done]. cbn. apply HF.
  - cbn [app]. rewrite (owned_remove (Open g) d W E I). unfold owned. cbn [devres_head freed list_del_init with_head snd].
    rewrite HF, blocks_filter. cbn [addr app].
    replace (filter (λ x, p x = false) (blocks (devres_head d)))
      with (filter (λ x, bool_decide (x = Open g) = false) (blocks (devres_head d))).
    { rewrite app_assoc. by rewrite Permutation_app_comm. }
    apply filter_ext_in. intros x [_ Hx]%elem_of_blocks. unfold p. apply bool_decide_ext.
    destruct x; cbn; naive_solver.
Qed.

Lemma range_split A M B : NoDup (A ++ M ++ B) -> NoDup M /\ forall e : node, e ∈ M -> e ∈ A ++ M ++ B.
Proof.
  intros (_ & _ & (? & _)%NoDup_app)%NoDup_app. split; [done|]. intros e. rewrite !elem_of_app. tauto.
Qed.

Lemma range_ok d A M B n d' : wf d -> devres_head d = A ++ M ++ B -> range_released d M d' ->
  ok [] d (snd <$> Some (n : Z, d')).
Proof.
  intros W E R. exists d'. split; [done|]. split; [by eapply range_wf|].
  pose proof (wf_nodup d W) as ND. rewrite E in ND. apply range_split in ND as [ND HM].
  cbn [app]. apply (range_conserves d M); [done| |done|done]. by rewrite E.
Qed.

Lemma release_all_ok d : wf d ->
  exists d', devres_release_all d = Some (Z.of_nat (length (resources (devres_head d))), d') /\
    range_released d (devres_head d) d'.
Proof.
  intros W. pose proof (release_nodes_ok d [] (devres_head d) [] W) as H. rewrite app_nil_r in H. by apply H.
Qed.

(** The nodes from the opening marker of a group to its closing one, or to the
    end of the list. *)
Definition group_range (d : device) (g : Z) (A M B : list node) : Prop :=
  devres_head d = A ++ M ++ B /\ head M = Some (Open g) /\
  (last M = Some (Close g) \/ (Close g ∉ devres_head d /\ B = [])).

Lemma group_range_ex d g : wf d -> Open g ∈ devres_head d -> exists A M B, group_range d g A M B.
Proof.
  intros W HO. destruct (decide (Close g ∈ devres_head d)) as [HC|HC].
  - apply list_elem_of_split in HC as (l1 & B & E).
    pose proof (wf_order d W g l1 B E) as HO'. apply list_elem_of_split in HO' as (A & C & ->).
    exists A, (Open g :: C ++ [Close g]), B. split; [rewrite E, <- app_assoc; cbn; by rewrite <- app_assoc|]. split; [done|]. left.
    by rewrite app_comm_cons, last_snoc.
  - apply list_elem_of_split in HO as (A & M & E). exists A, (Open g :: M), [].
    split; [by rewrite app_nil_r|]. auto.
Qed.

Lemma release_group_ok id d g A M B :
  wf d -> find_group id d = Some g -> group_range d g A M B ->
  exists d', devres_release_group id d = Some (Z.of_nat (length (resources M)), d') /\ range_released d M d'.
Proof.
  intros W Hf (E & HM & HB). unfold devres_release_group. rewrite Hf.
  pose proof (wf_nodup d W) as ND.
  assert (Hend : (if unlinked (Close g) d then None else next_of (Close g) (devres_head d)) = head B).
  { destruct HB as [HB|[HC ->]]; [|by rewrite (proj2 (unlinked_true _ _) HC)].
    assert (exists C, M = C ++ [Close g]) as [C ->].
    { destruct M as [|x M _] using rev_ind; [done|]. rewrite last_snoc in HB. injection HB as ->. by exists M. }
    assert (E' : devres_head d = (A ++ C) ++ Close g :: B) by (rewrite E, <- !app_assoc; done).
    unfold unlinked. rewrite bool_decide_eq_false_2.
    - rewrite E'. apply next_of_split. by rewrite <- E'.
    - rewrite E'. intros H; apply H. apply elem_of_app. right. by left. }
  rewrite Hend. destruct (release_nodes_ok d A M B W E) as (d' & Ed & HR). exists d'. split; [|done].
  rewrite <- Ed. destruct M; [done|]. cbn in HM. by injection HM as ->.
Qed.

Lemma exec_ok o d : wf d -> allowed o d -> ok (allocated o) d (exec o d).
Proof.
  intros W H. destruct o as [a r|r mt|a|p|id a|id|id|id|]; cbn [exec allocated].
  - destruct H as [Ha Ho]. unfold devres_alloc, alloc_dr. destruct (Z.eqb_spec a 0) as [->|Hz]; [by apply ok_same|].
    rewrite (proj2 (Z.eqb_neq (a + DATA_OFFSET) 0)) by (unfold DATA_OFFSET; lia). unfold devres_add.
    replace (a + DATA_OFFSET - DATA_OFFSET) with a by lia. apply add_res_ok; [done|lia|auto].
  - by apply destroy_ok.
  - destruct H as [Ha Ho]. unfold devm_kzalloc, alloc_dr. destruct (Z.eqb_spec a 0) as [->|Hz]; [by apply ok_same|].
    unfold devres_add. replace (a + DATA_OFFSET - DATA_OFFSET) with a by lia.
    destruct (add_res_ok a DEVM_KZALLOC_RELEASE d W) as (d' & -> & ?); [lia|auto|]. by exists d'.
  - destruct (destroy_ok DEVM_KZALLOC_RELEASE (Some (fun res => res =? p)) d W) as (d' & E & ?).
    unfold devm_kfree. destruct (devres_destroy _ _ d) as [[v d1]|]; [|done]. injection E as ->. by exists d'.
  - destruct H. by apply open_ok.
  - apply close_ok; [done|]. intros g E. cbn in H. by rewrite E in H.
  - by apply remove_group_ok.
  - destruct (find_group id d) as [g|] eqn:Hf.
    + destruct (group_range_ex d g W (find_group_Some id d g Hf)) as (A & M & B & HR).
      destruct (release_group_ok id d g A M B W Hf HR) as (d' & -> & Hd'). eapply range_ok; [done|apply HR|done].
    + unfold devres_release_group. rewrite Hf. by apply ok_same.
  - destruct (release_all_ok d W) as (d' & -> & Hd').
    apply (range_ok d [] (devres_head d) []); [done|by rewrite app_nil_r|done].
Qed.

Lemma run_app ops1 ops2 d : run (ops1 ++ ops2) d = d ← run ops1 d; run ops2 d.
Proof.
  revert d; induction ops1 as [|o ops1 IH]; intros d; [done|]. cbn. destruct (exec o d); [apply IH|done].
Qed.

Lemma run_ok ops d : wf d -> legal ops d -> ok (ops ≫= allocated) d (run ops d).
Proof.
  revert d; induction ops as [|o ops IH]; intros d W H; [by apply ok_same|].
  destruct H as [Ho Hl]. destruct (exec_ok o d W Ho) as (d1 & E1 & W1 & P1). rewrite E1 in Hl.
  destruct (IH d1 W1 Hl) as (d2 & E2 & W2 & P2). exists d2. cbn [run]. rewrite E1. cbn [mbind option_bind].
  split; [done|]. split; [done|]. rewrite P2, P1.
  change ((o :: ops) ≫= allocated) with (allocated o ++ (ops ≫= allocated)).
  by rewrite (app_assoc (ops ≫= allocated)), (Permutation_app_comm (ops ≫= allocated)).
Qed.

Definition device0 : device := Dev [] ∅ [] [].
Lemma wf_device0 : wf device0.
Proof. split; [constructor|constructor|by intros e ?%elem_of_nil|by intros g [|? l1] l2|by intros g ?%elem_of_nil]. Qed.

(** C17: Nothing leaks and nothing is freed twice: after any sequence of
    allocating and adding a resource, destroying one, [devm_kzalloc] and
    [devm_kfree], and opening, closing, removing and releasing groups, in which
    [kmalloc] returns memory that is not in use and no group is closed a second time
    ([legal]), no [BUG_ON] is met, and when the resources of the device are released
    at the end its list is empty and the blocks given to [kfree] are exactly, each
    once, those the operations allocated. [devres_get] is not among the operations:
    what it does when the resource exists already is [devres_get_frees_wrong]. *)
Theorem devres_no_leak ops : legal ops device0 ->
  exists d', run (ops ++ [ReleaseAllOp]) device0 = Some d' /\
    devres_head d' = [] /\ freed d' ≡ₚ (ops ≫= allocated).
Proof.
  intros Hl. destruct (run_ok ops device0 wf_device0 Hl) as (d & E & W & P).
  destruct (release_all_ok d W) as (d' & E' & HR). exists d'. rewrite run_app, E. cbn [mbind option_bind run exec].
  rewrite E'. split; [done|].
  assert (Hnil : devres_head d' = []).
  { destruct HR as [-> _]. apply filter_none. intros e He. unfold dropped.
    destruct e as [a r|g|g]; cbn; [by apply bool_decide_eq_true|..]; apply comp_true; (split; [|destruct (decide (Close g ∈ devres_head d)); auto]);
      [done|by apply wf_close]. }
  split; [done|]. pose proof (range_conserves d _ d' W (λ _ H, H) (wf_nodup d W) HR) as PC.
  unfold owned in PC at 1. rewrite Hnil in PC. cbn in PC, P. rewrite PC, P. cbn. by rewrite app_nil_r.
Qed.

(** Releasing a group runs the release functions of exactly the
    resources between its opening and closing markers (or to the end of the
    list when it is still open), in the reverse of the order they were added,
    and takes off the list just these and the markers of the groups the range
    wholly contains: a group that overlaps the range only partly stays. *)
Theorem devres_release_group_range id d g A M B :
  wf d -> find_group id d = Some g -> group_range d g A M B ->
  exists d', devres_release_group id d = Some (Z.of_nat (length (resources M)), d') /\
    released d' = released d ++ rev (addr <$> resources M) /\ wf d' /\
    forall e, e ∈ devres_head d' <-> e ∈ devres_head d /\
      match e with
      | Res _ _ => e ∉ M
      | Open h | Close h => ~ (Open h ∈ M /\ (Close h ∈ M \/ Close h ∉ devres_head d))
      end.
Proof.
  intros W Hf HR. destruct (release_group_ok id d g A M B W Hf HR) as (d' & E & Hd').
  exists d'. split; [done|]. split; [apply Hd'|]. split; [by eapply range_wf|].
  intros e. destruct Hd' as [-> _]. rewrite list_elem_of_filter. unfold dropped.
  destruct e as [a r|h|h]; cbn.
  - rewrite bool_decide_eq_false. tauto.
  - unfold gone; cbn. rewrite <- comp_true, not_true_iff_false. tauto.
  - unfold gone; cbn. rewrite <- comp_true, not_true_iff_false. tauto.
Qed.

(** Detaching a device runs the release function of each of its
    resources once, in the reverse of the order they were added. *)
Theorem devres_release_all_reverse d : wf d ->
  exists d', devres_release_all d = Some (Z.of_nat (length (resources (devres_head d))), d') /\
    released d' = released d ++ rev (addr <$> resources (devres_head d)).
Proof. intros W. destruct (release_all_ok d W) as (d' & ? & HR). exists d'. split; [done|apply HR]. Qed.

(** [devres_get] hands the entry, not the data, of the redundant resource
    to [devres_free]: an address before the block is freed, and the block
    itself is lost. *)
Theorem devres_get_frees_wrong a release mt d e :
  wf d -> find_dr release mt d = Some e -> 2 * DATA_OFFSET < a -> a - DATA_OFFSET ∉ owned d ->
  exists d', devres_get (a + DATA_OFFSET) release mt d = Some (data_of (Some e), d') /\
    freed d' = freed d ++ [a - DATA_OFFSET] /\ owned d' = owned d.
Proof.
  intros W Hf Ha Ho. unfold devres_get. rewrite Hf. replace (a + DATA_OFFSET - DATA_OFFSET) with a by lia.
  unfold devres_free. rewrite (proj2 (Z.eqb_neq a 0)) by (unfold DATA_OFFSET in Ha; lia).
  replace (res_at (a - DATA_OFFSET) (devres_head d)) with false.
  - rewrite kfree_pos by (unfold DATA_OFFSET in *; lia). cbn. eexists; split; [done|]. done.
  - symmetry. apply not_true_is_false. unfold res_at. rewrite existsb_exists.
    intros (x & Hx%list_elem_of_In & Hxa). destruct x as [b r'| |]; [|done..]. apply Z.eqb_eq in Hxa.
    apply Ho, list_elem_of_fmap. exists (Res b r'). split; [done|]. by apply elem_of_blocks.
Qed.

(** ** Witnesses *)

Definition ops1 : list op :=
  [AddOp 100 7; OpenOp 5 200; KzallocOp 300; OpenOp 0 400; AddOp 500 7; CloseOp 5; KzallocOp 600;
   CloseOp 0; KfreeOp 624; ReleaseGroupOp 5].
Definition d1 : device := default device0 (run (take 8 ops1) device0).

Lemma devres_no_leak_witness :
  exists d', run (ops1 ++ [ReleaseAllOp]) device0 = Some d' /\
    devres_head d' = [] /\ freed d' ≡ₚ [100; 200; 300; 400; 500; 600].
Proof. apply (devres_no_leak ops1). apply (bool_decide_unpack _). vm_compute. exact I. Defined.

Lemma wf_run ops : legal ops device0 -> wf (default device0 (run ops device0)).
Proof. intros Hl. by destruct (run_ok ops device0 wf_device0 Hl) as (d & -> & ? & _). Qed.
Lemma wf_d1 : wf d1.
Proof. apply wf_run, (bool_decide_unpack _). vm_compute. exact I. Qed.

(** Releasing group 5, closed while the group at 400 is open: the markers of
    the latter stay. *)
Definition M1 : list node := [Open 200; Res 300 1; Open 400; Res 500 7; Close 200].
Lemma devres_release_group_range_witness :
  group_range d1 200 [Res 100 7] M1 [Res 600 1; Close 400] /\
  exists d', devres_release_group 5 d1 = Some (2, d') /\ released d' = released d1 ++ [500; 300] /\ wf d' /\
    forall e, e ∈ devres_head d' <-> e ∈ devres_head d1 /\
      match e with
      | Res _ _ => e ∉ M1
      | Open h | Close h => ~ (Open h ∈ M1 /\ (Close h ∈ M1 \/ Close h ∉ devres_head d1))
      end.
Proof.
  assert (HR : group_range d1 200 [Res 100 7] M1 [Res 600 1; Close 400]).
  { split; [vm_compute; reflexivity|]. split; [vm_compute; reflexivity|]. left. vm_compute. reflexivity. }
  split; [exact HR|].
  apply (devres_release_group_range 5 d1 200 [Res 100 7] M1 [Res 600 1; Close 400] wf_d1); [|exact HR].
  vm_compute. reflexivity.
Defined.

Lemma devres_release_all_reverse_witness :
  exists d', devres_release_all d1 = Some (4, d') /\ released d' = released d1 ++ [600; 500; 300; 100].
Proof. apply (devres_release_all_reverse d1 wf_d1). Defined.

Lemma devres_get_frees_wrong_witness :
  exists d', devres_get (700 + DATA_OFFSET) 7 None d1 = Some (500 + DATA_OFFSET, d') /\
    freed d' = freed d1 ++ [676] /\ owned d' = owned d1.
Proof.
  apply (devres_get_frees_wrong 700 7 None d1 (Res 500 7) wf_d1).
  - vm_compute. reflexivity.
  - vm_compute. reflexivity.
  - apply (bool_decide_unpack _). vm_compute. exact I.
Defined.
