(* ===== verification/AtaTf.v ===== *)
(** ATA taskfiles and the SCSI/ATA translation: [include/linux/ata.h],
    [drivers/ata/libata-core.c] and [drivers/ata/libata-scsi.c].

    A taskfile is the register block of an ATA command. A CDB and a FIS are
    lists of bytes. A translation function ends at one of the labels of the
    code; [finish] is what follows these labels. *)

From S2P Require Import Prelude.
Local Open Scope Z_scope.
Local Open Scope cint_scope.

Local Notation "x |> f" := (f x) (at level 62, left associativity, only parsing).

(** ** Constants *)

Definition ATA_TFLAG_LBA48 : Z := 1.
Definition ATA_TFLAG_ISADDR : Z := 2.
Definition ATA_TFLAG_DEVICE : Z := 4.
Definition ATA_TFLAG_WRITE : Z := 8.
Definition ATA_TFLAG_LBA : Z := 16.
Definition ATA_TFLAG_FUA : Z := 32.

Definition ATA_PROT_UNKNOWN : Z := 0.
Definition ATA_PROT_NODATA : Z := 1.
Definition ATA_PROT_PIO : Z := 2.
Definition ATA_PROT_DMA : Z := 3.
Definition ATA_PROT_NCQ : Z := 4.

Definition ATA_DFLAG_LBA : Z := 1.
Definition ATA_DFLAG_LBA48 : Z := 2.
Definition ATA_DFLAG_NCQ : Z := 8.
Definition ATA_DFLAG_PIO : Z := 256.
Definition ATA_DFLAG_NCQ_OFF : Z := 512.
Definition ATA_FLAG_SLAVE_POSS : Z := 1.
Definition ATA_FLAG_PIO_LBA48 : Z := 256.
Definition ATA_QCFLAG_IO : Z := 8.
Definition ATA_QCFLAG_RESULT_TF : Z := 16.

Definition ATA_LBA : Z := 64.
Definition ATA_DEV1 : Z := 16.
Definition ATA_BUSY : Z := 128.
Definition ATA_DF : Z := 32.
Definition ATA_DRQ : Z := 8.
Definition ATA_ERR : Z := 1.

Definition ATA_CMD_FLUSH : Z := 0xE7.
Definition ATA_CMD_FLUSH_EXT : Z := 0xEA.
Definition ATA_CMD_STANDBY : Z := 0xE2.
Definition ATA_CMD_READ : Z := 0xC8.
Definition ATA_CMD_READ_EXT : Z := 0x25.
Definition ATA_CMD_WRITE : Z := 0xCA.
Definition ATA_CMD_WRITE_EXT : Z := 0x35.
Definition ATA_CMD_WRITE_FUA_EXT : Z := 0x3D.
Definition ATA_CMD_FPDMA_READ : Z := 0x60.
Definition ATA_CMD_FPDMA_WRITE : Z := 0x61.
Definition ATA_CMD_PIO_READ : Z := 0x20.
Definition ATA_CMD_PIO_READ_EXT : Z := 0x24.
Definition ATA_CMD_PIO_WRITE : Z := 0x30.
Definition ATA_CMD_PIO_WRITE_EXT : Z := 0x34.
Definition ATA_CMD_READ_MULTI : Z := 0xC4.
Definition ATA_CMD_READ_MULTI_EXT : Z := 0x29.
Definition ATA_CMD_WRITE_MULTI : Z := 0xC5.
Definition ATA_CMD_WRITE_MULTI_EXT : Z := 0x39.
Definition ATA_CMD_WRITE_MULTI_FUA_EXT : Z := 0xCE.
Definition ATA_CMD_SET_FEATURES : Z := 0xEF.
Definition ATA_CMD_VERIFY : Z := 0x40.
Definition ATA_CMD_VERIFY_EXT : Z := 0x42.
Definition SETFEATURES_XFER : Z := 0x03.

Definition READ_6 : Z := 0x08.
Definition WRITE_6 : Z := 0x0a.
Definition START_STOP : Z := 0x1b.
Definition READ_10 : Z := 0x28.
Definition WRITE_10 : Z := 0x2a.
Definition VERIFY : Z := 0x2f.
Definition SYNCHRONIZE_CACHE : Z := 0x35.
Definition ATA_16 : Z := 0x85.
Definition READ_16 : Z := 0x88.
Definition WRITE_16 : Z := 0x8a.
Definition VERIFY_16 : Z := 0x8f.
Definition ATA_12 : Z := 0xa1.

Definition RECOVERED_ERROR : Z := 1.
Definition NOT_READY : Z := 2.
Definition MEDIUM_ERROR : Z := 3.
Definition HARDWARE_ERROR : Z := 4.
Definition ILLEGAL_REQUEST : Z := 5.
Definition ABORTED_COMMAND : Z := 0xb.
Definition SAM_STAT_GOOD : Z := 0.
Definition SAM_STAT_CHECK_CONDITION : Z := 2.
Definition DRIVER_SENSE : Z := 8.
Definition SCSI_SENSE_BUFFERSIZE : nat := 96.
Definition DMA_TO_DEVICE : Z := 1.
Definition ATA_SECT_SIZE : Z := 512.

(** A flag test [x & m]. *)
Definition has (x m : Z) : bool := negb (x & m =? 0).

(** ** Data *)

Record ata_taskfile := Tf {
  tf_flags : Z; tf_protocol : Z; tf_ctl : Z; tf_hob_feature : Z; tf_hob_nsect : Z;
  tf_hob_lbal : Z; tf_hob_lbam : Z; tf_hob_lbah : Z; tf_feature : Z; tf_nsect : Z;
  tf_lbal : Z; tf_lbam : Z; tf_lbah : Z; tf_device : Z; tf_command : Z }.
Definition set_flags (v : Z) (t : ata_taskfile) :=
  Tf v (tf_protocol t) (tf_ctl t) (tf_hob_feature t) (tf_hob_nsect t) (tf_hob_lbal t) (tf_hob_lbam t) (tf_hob_lbah t) (tf_feature t) (tf_nsect t) (tf_lbal t) (tf_lbam t) (tf_lbah t) (tf_device t) (tf_command t).
Definition set_protocol (v : Z) (t : ata_taskfile) :=
  Tf (tf_flags t) v (tf_ctl t) (tf_hob_feature t) (tf_hob_nsect t) (tf_hob_lbal t) (tf_hob_lbam t) (tf_hob_lbah t) (tf_feature t) (tf_nsect t) (tf_lbal t) (tf_lbam t) (tf_lbah t) (tf_device t) (tf_command t).
Definition set_ctl (v : Z) (t : ata_taskfile) :=
  Tf (tf_flags t) (tf_protocol t) v (tf_hob_feature t) (tf_hob_nsect t) (tf_hob_lbal t) (tf_hob_lbam t) (tf_hob_lbah t) (tf_feature t) (tf_nsect t) (tf_lbal t) (tf_lbam t) (tf_lbah t) (tf_device t) (tf_command t).
Definition set_hob_feature (v : Z) (t : ata_taskfile) :=
  Tf (tf_flags t) (tf_protocol t) (tf_ctl t) v (tf_hob_nsect t) (tf_hob_lbal t) (tf_hob_lbam t) (tf_hob_lbah t) (tf_feature t) (tf_nsect t) (tf_lbal t) (tf_lbam t) (tf_lbah t) (tf_device t) (tf_command t).
Definition set_hob_nsect (v : Z) (t : ata_taskfile) :=
  Tf (tf_flags t) (tf_protocol t) (tf_ctl t) (tf_hob_feature t) v (tf_hob_lbal t) (tf_hob_lbam t) (tf_hob_lbah t) (tf_feature t) (tf_nsect t) (tf_lbal t) (tf_lbam t) (tf_lbah t) (tf_device t) (tf_command t).
Definition set_hob_lbal (v : Z) (t : ata_taskfile) :=
  Tf (tf_flags t) (tf_protocol t) (tf_ctl t) (tf_hob_feature t) (tf_hob_nsect t) v (tf_hob_lbam t) (tf_hob_lbah t) (tf_feature t) (tf_nsect t) (tf_lbal t) (tf_lbam t) (tf_lbah t) (tf_device t) (tf_command t).
Definition set_hob_lbam (v : Z) (t : ata_taskfile) :=
  Tf (tf_flags t) (tf_protocol t) (tf_ctl t) (tf_hob_feature t) (tf_hob_nsect t) (tf_hob_lbal t) v (tf_hob_lbah t) (tf_feature t) (tf_nsect t) (tf_lbal t) (tf_lbam t) (tf_lbah t) (tf_device t) (tf_command t).
Definition set_hob_lbah (v : Z) (t : ata_taskfile) :=
  Tf (tf_flags t) (tf_protocol t) (tf_ctl t) (tf_hob_feature t) (tf_hob_nsect t) (tf_hob_lbal t) (tf_hob_lbam t) v (tf_feature t) (tf_nsect t) (tf_lbal t) (tf_lbam t) (tf_lbah t) (tf_device t) (tf_command t).
Definition set_feature (v : Z) (t : ata_taskfile) :=
  Tf (tf_flags t) (tf_protocol t) (tf_ctl t) (tf_hob_feature t) (tf_hob_nsect t) (tf_hob_lbal t) (tf_hob_lbam t) (tf_hob_lbah t) v (tf_nsect t) (tf_lbal t) (tf_lbam t) (tf_lbah t) (tf_device t) (tf_command t).
Definition set_nsect (v : Z) (t : ata_taskfile) :=
  Tf (tf_flags t) (tf_protocol t) (tf_ctl t) (tf_hob_feature t) (tf_hob_nsect t) (tf_hob_lbal t) (tf_hob_lbam t) (tf_hob_lbah t) (tf_feature t) v (tf_lbal t) (tf_lbam t) (tf_lbah t) (tf_device t) (tf_command t).
Definition set_lbal (v : Z) (t : ata_taskfile) :=
  Tf (tf_flags t) (tf_protocol t) (tf_ctl t) (tf_hob_feature t) (tf_hob_nsect t) (tf_hob_lbal t) (tf_hob_lbam t) (tf_hob_lbah t) (tf_feature t) (tf_nsect t) v (tf_lbam t) (tf_lbah t) (tf_device t) (tf_command t).
Definition set_lbam (v : Z) (t : ata_taskfile) :=
  Tf (tf_flags t) (tf_protocol t) (tf_ctl t) (tf_hob_feature t) (tf_hob_nsect t) (tf_hob_lbal t) (tf_hob_lbam t) (tf_hob_lbah t) (tf_feature t) (tf_nsect t) (tf_lbal t) v (tf_lbah t) (tf_device t) (tf_command t).
Definition set_lbah (v : Z) (t : ata_taskfile) :=
  Tf (tf_flags t) (tf_protocol t) (tf_ctl t) (tf_hob_feature t) (tf_hob_nsect t) (tf_hob_lbal t) (tf_hob_lbam t) (tf_hob_lbah t) (tf_feature t) (tf_nsect t) (tf_lbal t) (tf_lbam t) v (tf_device t) (tf_command t).
Definition set_device (v : Z) (t : ata_taskfile) :=
  Tf (tf_flags t) (tf_protocol t) (tf_ctl t) (tf_hob_feature t) (tf_hob_nsect t) (tf_hob_lbal t) (tf_hob_lbam t) (tf_hob_lbah t) (tf_feature t) (tf_nsect t) (tf_lbal t) (tf_lbam t) (tf_lbah t) v (tf_command t).
Definition set_command (v : Z) (t : ata_taskfile) :=
  Tf (tf_flags t) (tf_protocol t) (tf_ctl t) (tf_hob_feature t) (tf_hob_nsect t) (tf_hob_lbal t) (tf_hob_lbam t) (tf_hob_lbah t) (tf_feature t) (tf_nsect t) (tf_lbal t) (tf_lbam t) (tf_lbah t) (tf_device t) v.

(** The fields of [struct ata_device] and of its port that the translation
    reads; [d_id] is the IDENTIFY page, [d_ap_flags] the flags of the port. *)
Record ata_device := Dev {
  d_flags : Z; d_n_sectors : Z; d_sectors : Z; d_heads : Z; d_multi_count : Z;
  d_dma_mode : Z; d_devno : Z; d_id : list Z; d_ap_flags : Z }.

Record ata_queued_cmd := Qc { qc_tf : ata_taskfile; qc_flags : Z; qc_nsect : Z; qc_tag : Z }.
Definition with_tf (tf : ata_taskfile) (qc : ata_queued_cmd) := Qc tf (qc_flags qc) (qc_nsect qc) (qc_tag qc).
Definition with_qflags (f : Z) (qc : ata_queued_cmd) := Qc (qc_tf qc) f (qc_nsect qc) (qc_tag qc).
Definition with_nsect (n : Z) (qc : ata_queued_cmd) := Qc (qc_tf qc) (qc_flags qc) n (qc_tag qc).

Record scsi_cmnd := Cmd {
  sc_result : Z; sc_sense : list Z; sc_resid : Z; sc_request_bufflen : Z; sc_data_direction : Z }.

Definition byte (l : list Z) (i : nat) : Z := nth i l 0.
Definition id_word (id : list Z) (i : nat) : Z := nth i id 0.

(** ** Frame information structures *)

Definition ata_tf_to_fis (tf : ata_taskfile) (pmp : Z) : list Z :=
  [0x27; (pmp & 0xf) |' 128; tf_command tf; tf_feature tf;
   tf_lbal tf; tf_lbam tf; tf_lbah tf; tf_device tf;
   tf_hob_lbal tf; tf_hob_lbam tf; tf_hob_lbah tf; tf_hob_feature tf;
   tf_nsect tf; tf_hob_nsect tf; 0; tf_ctl tf;
   0; 0; 0; 0].

Definition ata_tf_from_fis (fis : list Z) (tf : ata_taskfile) : ata_taskfile :=
  tf |> set_command (byte fis 2) |> set_feature (byte fis 3)
     |> set_lbal (byte fis 4) |> set_lbam (byte fis 5) |> set_lbah (byte fis 6) |> set_device (byte fis 7)
     |> set_hob_lbal (byte fis 8) |> set_hob_lbam (byte fis 9) |> set_hob_lbah (byte fis 10)
     |> set_nsect (byte fis 12) |> set_hob_nsect (byte fis 13).

(** ** Choice of the command *)

Definition ata_rw_cmds : list Z := [
  ATA_CMD_READ_MULTI; ATA_CMD_WRITE_MULTI; ATA_CMD_READ_MULTI_EXT; ATA_CMD_WRITE_MULTI_EXT;
  0; 0; 0; ATA_CMD_WRITE_MULTI_FUA_EXT;
  ATA_CMD_PIO_READ; ATA_CMD_PIO_WRITE; ATA_CMD_PIO_READ_EXT; ATA_CMD_PIO_WRITE_EXT;
  0; 0; 0; 0;
  ATA_CMD_READ; ATA_CMD_WRITE; ATA_CMD_READ_EXT; ATA_CMD_WRITE_EXT;
  0; 0; 0; ATA_CMD_WRITE_FUA_EXT].

Definition ata_rwcmd_protocol (dev : ata_device) (tf : ata_taskfile) : Z * ata_taskfile :=
  let fua := if has (tf_flags tf) ATA_TFLAG_FUA then 4 else 0 in
  let lba48 := if has (tf_flags tf) ATA_TFLAG_LBA48 then 2 else 0 in
  let write := if has (tf_flags tf) ATA_TFLAG_WRITE then 1 else 0 in
  let '(tf, index) :=
    if has (d_flags dev) ATA_DFLAG_PIO then
      (tf |> set_protocol ATA_PROT_PIO, if d_multi_count dev =? 0 then 8 else 0)
    else if negb (lba48 =? 0) && has (d_ap_flags dev) ATA_FLAG_PIO_LBA48 then
      (tf |> set_protocol ATA_PROT_PIO, if d_multi_count dev =? 0 then 8 else 0)
    else (tf |> set_protocol ATA_PROT_DMA, 16) in
  let cmd := byte ata_rw_cmds (Z.to_nat (index + fua + lba48 + write)) in
  if negb (cmd =? 0) then (0, tf |> set_command cmd) else (-1, tf).

Definition lba_28_ok (block n_block : Z) : bool :=
  (u64 (block + n_block - 1) <? 2 ^ 28) && (n_block <=? 256).
Definition lba_48_ok (block n_block : Z) : bool :=
  (u64 (block + n_block - 1) <? 2 ^ 48) && (n_block <=? 65536).

(** ** Sense data *)

Definition ata_scsi_set_sense (cmd : scsi_cmnd) (sk asc ascq : Z) : scsi_cmnd :=
  Cmd ((DRIVER_SENSE << 24) |' SAM_STAT_CHECK_CONDITION)
    (<[13%nat := ascq]> (<[12%nat := asc]> (<[7%nat := 18 - 8]> (<[2%nat := sk]> (<[0%nat := 0x70]> (sc_sense cmd))))))
    (sc_request_bufflen cmd) (sc_request_bufflen cmd) (sc_data_direction cmd).

(** ** Translation *)

(** The labels a translation ends at. *)
Inductive label := success | invalid_fld | out_of_range | nothing_to_do.
#[global] Instance label_eq_dec : EqDecision label.
Proof. solve_decision. Defined.

Definition finish (r : label * ata_queued_cmd) (cmd : scsi_cmnd) : Z * ata_queued_cmd * scsi_cmnd :=
  match r with
  | (success, qc) => (0, qc, cmd)
  | (invalid_fld, qc) => (1, qc, ata_scsi_set_sense cmd ILLEGAL_REQUEST 0x24 0)
  | (out_of_range, qc) => (1, qc, ata_scsi_set_sense cmd ILLEGAL_REQUEST 0x21 0)
  | (nothing_to_do, qc) =>
      (1, qc, Cmd SAM_STAT_GOOD (sc_sense cmd) (sc_resid cmd) (sc_request_bufflen cmd) (sc_data_direction cmd))
  end.

Definition scsi_6_lba_len (c : list Z) : Z * Z :=
  let lba := 0 in
  let lba := lba |' (byte c 2 << 8) in
  let lba := lba |' byte c 3 in
  let len := 0 |' byte c 4 in
  (lba, len).

Definition scsi_10_lba_len (c : list Z) : Z * Z :=
  let lba := 0 in
  let lba := lba |' (byte c 2 << 24) in
  let lba := lba |' (byte c 3 << 16) in
  let lba := lba |' (byte c 4 << 8) in
  let lba := lba |' byte c 5 in
  let len := 0 |' (byte c 7 << 8) in
  let len := len |' byte c 8 in
  (lba, len).

Definition scsi_16_lba_len (c : list Z) : Z * Z :=
  let lba := 0 in
  let lba := lba |' (byte c 2 << 56) in
  let lba := lba |' (byte c 3 << 48) in
  let lba := lba |' (byte c 4 << 40) in
  let lba := lba |' (byte c 5 << 32) in
  let lba := lba |' (byte c 6 << 24) in
  let lba := lba |' (byte c 7 << 16) in
  let lba := lba |' (byte c 8 << 8) in
  let lba := lba |' byte c 9 in
  let len := 0 |' (byte c 10 << 24) in
  let len := len |' (byte c 11 << 16) in
  let len := len |' (byte c 12 << 8) in
  let len := len |' byte c 13 in
  (lba, len).

(** The 24 low bits of the address and its high bits. *)
Definition put_low (block : Z) (tf : ata_taskfile) : ata_taskfile :=
  tf |> set_lbah ((block >> 16) & 0xff) |> set_lbam ((block >> 8) & 0xff) |> set_lbal (block & 0xff).
Definition put_hob (block : Z) (tf : ata_taskfile) : ata_taskfile :=
  tf |> set_hob_lbah ((block >> 40) & 0xff) |> set_hob_lbam ((block >> 32) & 0xff)
     |> set_hob_lbal ((block >> 24) & 0xff).

(** Cylinder, head and sector, or [None] when they do not fit. *)
Definition lba_to_chs (dev : ata_device) (block : Z) : option (Z * Z * Z) :=
  let track := u32 block / d_sectors dev in
  let cyl := track / d_heads dev in
  let head := track mod d_heads dev in
  let sect := u32 (u32 block mod d_sectors dev + 1) in
  if negb (cyl >> 16 =? 0) || negb (head >> 4 =? 0) || negb (sect >> 8 =? 0) || (sect =? 0) then None
  else Some (cyl, head, sect).

Definition put_chs (n_block cyl head sect : Z) (tf : ata_taskfile) : ata_taskfile :=
  tf |> set_nsect (n_block & 0xff) |> set_lbal (u8 sect) |> set_lbam (u8 cyl) |> set_lbah (u8 (cyl >> 8))
     |> set_device (tf_device tf |' head).

Definition ata_scsi_verify_xlat (dev : ata_device) (qc : ata_queued_cmd) (cmd : scsi_cmnd) (c : list Z)
    : Z * ata_queued_cmd * scsi_cmnd :=
  let tf := qc_tf qc in
  let tf := tf |> set_flags (tf_flags tf |' (ATA_TFLAG_ISADDR |' ATA_TFLAG_DEVICE))
               |> set_protocol ATA_PROT_NODATA in
  let goto l tf := finish (l, with_tf tf qc) cmd in
  match (if byte c 0 =? VERIFY then Some (scsi_10_lba_len c)
         else if byte c 0 =? VERIFY_16 then Some (scsi_16_lba_len c) else None) with
  | None => goto invalid_fld tf
  | Some (block, n_block) =>
    if n_block =? 0 then goto nothing_to_do tf else
    if d_n_sectors dev <=? block then goto out_of_range tf else
    if d_n_sectors dev <? u64 (block + n_block) then goto out_of_range tf else
    if has (d_flags dev) ATA_DFLAG_LBA then
      let tf := tf |> set_flags (tf_flags tf |' ATA_TFLAG_LBA) in
      let rest tf :=
        let tf := tf |> set_nsect (n_block & 0xff) |> put_low block in
        goto success (tf |> set_device (tf_device tf |' ATA_LBA)) in
      if lba_28_ok block n_block then
        rest (tf |> set_command ATA_CMD_VERIFY |> set_device (tf_device tf |' ((block >> 24) & 0xf)))
      else if lba_48_ok block n_block then
        if negb (has (d_flags dev) ATA_DFLAG_LBA48) then goto out_of_range tf else
        rest (tf |> set_flags (tf_flags tf |' ATA_TFLAG_LBA48) |> set_command ATA_CMD_VERIFY_EXT
                 |> set_hob_nsect ((n_block >> 8) & 0xff) |> put_hob block)
      else goto out_of_range tf
    else if negb (lba_28_ok block n_block) then goto out_of_range tf else
    match lba_to_chs dev block with
    | None => goto out_of_range tf
    | Some (cyl, head, sect) => goto success (tf |> set_command ATA_CMD_VERIFY |> put_chs n_block cyl head sect)
    end
  end.

(** The switch on the operation code: address and length, and the flags. *)
Definition rw_decode (c : list Z) (tf : ata_taskfile) : option (Z * Z * ata_taskfile) :=
  let op := byte c 0 in
  let fua tf := if has (byte c 1) 8 then tf |> set_flags (tf_flags tf |' ATA_TFLAG_FUA) else tf in
  if (op =? READ_10) || (op =? WRITE_10) then let '(block, n) := scsi_10_lba_len c in Some (block, n, fua tf)
  else if (op =? READ_6) || (op =? WRITE_6) then
    let '(block, n) := scsi_6_lba_len c in Some (block, if n =? 0 then 256 else n, tf)
  else if (op =? READ_16) || (op =? WRITE_16) then let '(block, n) := scsi_16_lba_len c in Some (block, n, fua tf)
  else None.

Definition rw_ncq (block n_block : Z) (qc : ata_queued_cmd) : label * ata_queued_cmd :=
  let tf := qc_tf qc in
  if negb (lba_48_ok block n_block) then (out_of_range, qc) else
  let tf := tf |> set_protocol ATA_PROT_NCQ |> set_flags (tf_flags tf |' (ATA_TFLAG_LBA |' ATA_TFLAG_LBA48)) in
  let tf := tf |> set_command (if has (tf_flags tf) ATA_TFLAG_WRITE then ATA_CMD_FPDMA_WRITE else ATA_CMD_FPDMA_READ) in
  let tf := tf |> set_nsect (u8 (qc_tag qc << 3)) |> set_hob_feature ((n_block >> 8) & 0xff)
               |> set_feature (n_block & 0xff) |> put_hob block |> put_low block
               |> set_device 64 in
  let tf := if has (tf_flags tf) ATA_TFLAG_FUA then tf |> set_device (tf_device tf |' 128) else tf in
  (success, qc |> with_nsect n_block |> with_tf tf).

(** From the choice of the command on. *)
Definition rw_lba_finish (dev : ata_device) (block n_block : Z) (qc : ata_queued_cmd) (tf : ata_taskfile)
    : label * ata_queued_cmd :=
  let '(r, tf) := ata_rwcmd_protocol dev tf in
  if r <? 0 then (invalid_fld, qc |> with_tf tf) else
  let tf := tf |> set_nsect (n_block & 0xff) |> put_low block in
  let tf := tf |> set_device (tf_device tf |' ATA_LBA) in
  (success, qc |> with_nsect n_block |> with_tf tf).

Definition rw_lba (dev : ata_device) (block n_block : Z) (qc : ata_queued_cmd) : label * ata_queued_cmd :=
  let tf := qc_tf qc in
  let tf := tf |> set_flags (tf_flags tf |' ATA_TFLAG_LBA) in
  if lba_28_ok block n_block then
    rw_lba_finish dev block n_block qc (tf |> set_device (tf_device tf |' ((block >> 24) & 0xf)))
  else if lba_48_ok block n_block then
    if negb (has (d_flags dev) ATA_DFLAG_LBA48) then (out_of_range, qc |> with_tf tf) else
    rw_lba_finish dev block n_block qc
      (tf |> set_flags (tf_flags tf |' ATA_TFLAG_LBA48) |> set_hob_nsect ((n_block >> 8) & 0xff) |> put_hob block)
  else (out_of_range, qc |> with_tf tf).

Definition rw_chs (dev : ata_device) (block n_block : Z) (qc : ata_queued_cmd) : label * ata_queued_cmd :=
  if negb (lba_28_ok block n_block) then (out_of_range, qc) else
  let '(r, tf) := ata_rwcmd_protocol dev (qc_tf qc) in
  if r <? 0 then (invalid_fld, qc |> with_tf tf) else
  match lba_to_chs dev block with
  | None => (out_of_range, qc |> with_tf tf)
  | Some (cyl, head, sect) => (success, qc |> with_nsect n_block |> with_tf (tf |> put_chs n_block cyl head sect))
  end.

Definition ata_scsi_rw_xlat (dev : ata_device) (qc : ata_queued_cmd) (cmd : scsi_cmnd) (c : list Z)
    : Z * ata_queued_cmd * scsi_cmnd :=
  let qc := qc |> with_qflags (qc_flags qc |' ATA_QCFLAG_IO) in
  let tf := qc_tf qc in
  let tf := tf |> set_flags (tf_flags tf |' (ATA_TFLAG_ISADDR |' ATA_TFLAG_DEVICE)) in
  let op := byte c 0 in
  let tf := if (op =? WRITE_10) || (op =? WRITE_6) || (op =? WRITE_16)
            then tf |> set_flags (tf_flags tf |' ATA_TFLAG_WRITE) else tf in
  match rw_decode c tf with
  | None => finish (invalid_fld, qc |> with_tf tf) cmd
  | Some (block, n_block, tf) =>
      let qc := qc |> with_tf tf in
      if n_block =? 0 then finish (nothing_to_do, qc) cmd else
      finish
        (if d_flags dev & (ATA_DFLAG_PIO |' ATA_DFLAG_NCQ_OFF |' ATA_DFLAG_NCQ) =? ATA_DFLAG_NCQ
         then rw_ncq block n_block qc
         else if has (d_flags dev) ATA_DFLAG_LBA then rw_lba dev block n_block qc
         else rw_chs dev block n_block qc) cmd
  end.

Definition ata_scsi_start_stop_xlat (dev : ata_device) (qc : ata_queued_cmd) (cmd : scsi_cmnd) (c : list Z)
    : Z * ata_queued_cmd * scsi_cmnd :=
  let tf := qc_tf qc in
  let tf := tf |> set_flags (tf_flags tf |' (ATA_TFLAG_DEVICE |' ATA_TFLAG_ISADDR))
               |> set_protocol ATA_PROT_NODATA in
  let goto l tf := finish (l, with_tf tf qc) cmd in
  if has (byte c 4) 2 then goto invalid_fld tf else
  if negb ((byte c 4 >> 4) & 0xf =? 0) then goto invalid_fld tf else
  if has (byte c 4) 1 then
    let tf := tf |> set_nsect 1 in
    let tf :=
      if has (d_flags dev) ATA_DFLAG_LBA then
        tf |> set_flags (tf_flags tf |' ATA_TFLAG_LBA) |> set_lbah 0 |> set_lbam 0 |> set_lbal 0
           |> set_device (tf_device tf |' ATA_LBA)
      else tf |> set_lbal 1 |> set_lbam 0 |> set_lbah 0 in
    goto success (tf |> set_command ATA_CMD_VERIFY)
  else goto success (tf |> set_nsect 0 |> set_command ATA_CMD_STANDBY).

Definition ata_id_wcache_enabled (id : list Z) : bool := has (id_word id 85) 32.
Definition ata_id_has_flush (id : list Z) : bool := has (id_word id 83) 4096.
Definition ata_id_has_flush_ext (id : list Z) : bool := has (id_word id 83) 8192.
Definition ata_try_flush_cache (dev : ata_device) : bool :=
  ata_id_wcache_enabled (d_id dev) || ata_id_has_flush (d_id dev) || ata_id_has_flush_ext (d_id dev).

Definition ata_scsi_flush_xlat (dev : ata_device) (qc : ata_queued_cmd) (cmd : scsi_cmnd) (c : list Z)
    : Z * ata_queued_cmd * scsi_cmnd :=
  let tf := qc_tf qc in
  let tf := tf |> set_flags (tf_flags tf |' ATA_TFLAG_DEVICE) |> set_protocol ATA_PROT_NODATA in
  let tf := tf |> set_command
    (if has (d_flags dev) ATA_DFLAG_LBA48 && ata_id_has_flush_ext (d_id dev)
     then ATA_CMD_FLUSH_EXT else ATA_CMD_FLUSH) in
  finish (success, with_tf tf qc) cmd.

Definition ata_scsi_map_proto (byte1 : Z) : Z :=
  let p := (byte1 & 0x1e) >> 1 in
  if p =? 3 then ATA_PROT_NODATA
  else if p =? 6 then ATA_PROT_DMA
  else if (p =? 4) || (p =? 5) then ATA_PROT_PIO
  else ATA_PROT_UNKNOWN.

(** [x & ~m] of a [w]-bit [x]. *)
Definition clear (w x m : Z) : Z := x & (2 ^ w - 1 - m).

(** The registers of a pass-through CDB. *)
Definition pass_thru_regs (c : list Z) (tf : ata_taskfile) : ata_taskfile :=
  if byte c 0 =? ATA_16 then
    let tf :=
      if has (byte c 1) 1 then
        tf |> set_hob_feature (byte c 3) |> set_hob_nsect (byte c 5) |> set_hob_lbal (byte c 7)
           |> set_hob_lbam (byte c 9) |> set_hob_lbah (byte c 11)
           |> set_flags (tf_flags tf |' ATA_TFLAG_LBA48)
      else tf |> set_flags (clear 64 (tf_flags tf) ATA_TFLAG_LBA48) in
    tf |> set_feature (byte c 4) |> set_nsect (byte c 6) |> set_lbal (byte c 8) |> set_lbam (byte c 10)
       |> set_lbah (byte c 12) |> set_device (byte c 13) |> set_command (byte c 14)
  else
    tf |> set_flags (clear 64 (tf_flags tf) ATA_TFLAG_LBA48)
       |> set_feature (byte c 3) |> set_nsect (byte c 4) |> set_lbal (byte c 5) |> set_lbam (byte c 6)
       |> set_lbah (byte c 7) |> set_device (byte c 8) |> set_command (byte c 9).

Definition ata_scsi_pass_thru (dev : ata_device) (qc : ata_queued_cmd) (cmd : scsi_cmnd) (c : list Z)
    : Z * ata_queued_cmd * scsi_cmnd :=
  let tf := qc_tf qc in
  let invalid tf :=
    (1, with_tf tf qc, ata_scsi_set_sense cmd ILLEGAL_REQUEST 0x24 0) in
  let tf := tf |> set_protocol (ata_scsi_map_proto (byte c 1)) in
  if tf_protocol tf =? ATA_PROT_UNKNOWN then invalid tf else
  if (tf_protocol tf =? ATA_PROT_DMA) && (d_dma_mode dev =? 0) then invalid tf else
  if has (byte c 1) 0xe0 then invalid tf else
  let tf := pass_thru_regs c tf in
  let tf :=
    if has (d_ap_flags dev) ATA_FLAG_SLAVE_POSS then
      tf |> set_device (if negb (d_devno dev =? 0) then tf_device tf |' ATA_DEV1 else clear 8 (tf_device tf) ATA_DEV1)
    else tf in
  if (tf_command tf =? ATA_CMD_SET_FEATURES) && (tf_feature tf =? SETFEATURES_XFER) then invalid tf else
  let tf := tf |> set_flags (tf_flags tf |' (ATA_TFLAG_ISADDR |' ATA_TFLAG_DEVICE)) in
  let tf := if sc_data_direction cmd =? DMA_TO_DEVICE then tf |> set_flags (tf_flags tf |' ATA_TFLAG_WRITE) else tf in
  let qc := qc |> with_tf tf |> with_nsect (sc_request_bufflen cmd / ATA_SECT_SIZE) in
  (0, qc |> with_qflags (qc_flags qc |' ATA_QCFLAG_RESULT_TF), cmd).

Definition ata_get_xlat_func (dev : ata_device) (cmd : Z)
    : option (ata_device -> ata_queued_cmd -> scsi_cmnd -> list Z -> Z * ata_queued_cmd * scsi_cmnd) :=
  if (cmd =? READ_6) || (cmd =? READ_10) || (cmd =? READ_16) ||
     (cmd =? WRITE_6) || (cmd =? WRITE_10) || (cmd =? WRITE_16) then Some ata_scsi_rw_xlat
  else if cmd =? SYNCHRONIZE_CACHE then
    if ata_try_flush_cache dev then Some ata_scsi_flush_xlat else None
  else if (cmd =? VERIFY) || (cmd =? VERIFY_16) then Some ata_scsi_verify_xlat
  else if (cmd =? ATA_12) || (cmd =? ATA_16) then Some ata_scsi_pass_thru
  else if cmd =? START_STOP then Some ata_scsi_start_stop_xlat
  else None.

(** ** Errors *)

(** Rows of a mask and the sense key, code and qualifier. *)
Definition sense_table : list (Z * (Z * Z * Z)) := [
  (0xd1, (ABORTED_COMMAND, 0x00, 0x00)); (0xd0, (ABORTED_COMMAND, 0x00, 0x00));
  (0x61, (HARDWARE_ERROR, 0x00, 0x00)); (0x84, (ABORTED_COMMAND, 0x47, 0x00));
  (0x37, (NOT_READY, 0x04, 0x00)); (0x09, (NOT_READY, 0x04, 0x00));
  (0x01, (MEDIUM_ERROR, 0x13, 0x00)); (0x02, (HARDWARE_ERROR, 0x00, 0x00));
  (0x04, (ABORTED_COMMAND, 0x00, 0x00)); (0x08, (NOT_READY, 0x04, 0x00));
  (0x10, (ABORTED_COMMAND, 0x14, 0x00)); (0x08, (NOT_READY, 0x04, 0x00));
  (0x40, (MEDIUM_ERROR, 0x11, 0x04)); (0x80, (MEDIUM_ERROR, 0x11, 0x04))].
Definition stat_table : list (Z * (Z * Z * Z)) := [
  (0x80, (ABORTED_COMMAND, 0x47, 0x00)); (0x20, (HARDWARE_ERROR, 0x00, 0x00));
  (0x08, (ABORTED_COMMAND, 0x47, 0x00)); (0x04, (RECOVERED_ERROR, 0x11, 0x00))].

Definition ata_to_sense_error (drv_stat drv_err : Z) : Z * Z * Z :=
  let drv_err := if has drv_stat ATA_BUSY then 0 else drv_err in
  let status :=
    match List.find (fun r => has (fst r) drv_stat) stat_table with
    | Some r => snd r
    | None => (ABORTED_COMMAND, 0, 0)
    end in
  if negb (drv_err =? 0) then
    match List.find (fun r => fst r & drv_err =? fst r) sense_table with
    | Some r => snd r
    | None => status
    end
  else status.

Definition check_condition : Z := (DRIVER_SENSE << 24) |' SAM_STAT_CHECK_CONDITION.
Definition failed_status (err_mask : Z) (tf : ata_taskfile) : bool :=
  negb (err_mask =? 0) || has (tf_command tf) (ATA_BUSY |' ATA_DF |' ATA_ERR |' ATA_DRQ).

(** Assignments [sb[i] = v], in order. *)
Definition put (l : list (nat * Z)) (sb : list Z) : list Z := foldl (fun sb '(i, v) => <[i := v]> sb) sb l.

(** [tf] is the result taskfile. *)
Definition ata_gen_ata_desc_sense (err_mask : Z) (tf : ata_taskfile) (cmd : scsi_cmnd) : scsi_cmnd :=
  let sb := replicate SCSI_SENSE_BUFFERSIZE 0 in
  let sb :=
    if failed_status err_mask tf then
      let '(sk, asc, ascq) := ata_to_sense_error (tf_command tf) (tf_feature tf) in
      put [(1%nat, sk); (2%nat, asc); (3%nat, ascq); (1%nat, sk & 0x0f)] sb
    else sb in
  let sb := put [(0%nat, 0x72); (8%nat, 0x09); (7%nat, 14); (9%nat, 14); (10%nat, 0);
    (11%nat, tf_feature tf); (13%nat, tf_nsect tf); (15%nat, tf_lbal tf); (17%nat, tf_lbam tf);
    (19%nat, tf_lbah tf); (20%nat, tf_device tf); (21%nat, tf_command tf)] sb in
  let sb :=
    if has (tf_flags tf) ATA_TFLAG_LBA48 then
      put [(10%nat, byte sb 10 |' 1); (12%nat, tf_hob_nsect tf); (14%nat, tf_hob_lbal tf);
        (16%nat, tf_hob_lbam tf); (18%nat, tf_hob_lbah tf)] sb
    else sb in
  Cmd check_condition sb (sc_resid cmd) (sc_request_bufflen cmd) (sc_data_direction cmd).

Definition ata_gen_fixed_sense (err_mask : Z) (tf : ata_taskfile) (cmd : scsi_cmnd) : scsi_cmnd :=
  let sb := replicate SCSI_SENSE_BUFFERSIZE 0 in
  let sb :=
    if failed_status err_mask tf then
      let '(sk, asc, ascq) := ata_to_sense_error (tf_command tf) (tf_feature tf) in
      put [(2%nat, sk); (12%nat, asc); (13%nat, ascq); (2%nat, sk & 0x0f)] sb
    else sb in
  let sb := put [(0%nat, 0x70); (7%nat, 0x0a)] sb in
  let sb :=
    if has (tf_flags tf) ATA_TFLAG_LBA48 then sb
    else if has (tf_flags tf) ATA_TFLAG_LBA then
      put [(0%nat, byte sb 0 |' 0x80); (3%nat, tf_device tf & 0x0f); (4%nat, tf_lbah tf);
        (5%nat, tf_lbam tf); (6%nat, tf_lbal tf)] sb
    else sb in
  Cmd check_condition sb (sc_resid cmd) (sc_request_bufflen cmd) (sc_data_direction cmd).

(** The last step of [ata_scsi_qc_complete]. *)
Definition qc_sense (c : list Z) (need_sense : bool) (err_mask : Z) (tf : ata_taskfile) (cmd : scsi_cmnd) : scsi_cmnd :=
  if ((byte c 0 =? ATA_16) || (byte c 0 =? ATA_12)) && (has (byte c 2) 0x20 || need_sense)
  then ata_gen_ata_desc_sense err_mask tf cmd
  else if negb need_sense
  then Cmd SAM_STAT_GOOD (sc_sense cmd) (sc_resid cmd) (sc_request_bufflen cmd) (sc_data_direction cmd)
  else ata_gen_fixed_sense err_mask tf cmd.

Definition ATA_DEVICE_OBS : Z := 0xa0.
Definition ata_tf_init (dev : ata_device) (ctl : Z) : ata_taskfile :=
  Tf 0 0 ctl 0 0 0 0 0 0 0 0 0 0 (if d_devno dev =? 0 then ATA_DEVICE_OBS else ATA_DEVICE_OBS |' ATA_DEV1) 0.

(** ** What the device and the initiator mean

    The request a SCSI CDB makes and the one the registers of an ATA command
    make, after the SBC and ATA standards. *)

Definition b8 (l : list Z) : Z := foldl (fun x b => 256 * x + b) 0 l.

(** Direction, first block and number of blocks. *)
Definition scsi_request (c : list Z) : option (bool * Z * Z) :=
  let op := byte c 0 in
  if (op =? READ_6) || (op =? WRITE_6) then
    let n := byte c 4 in
    Some (op =? WRITE_6, b8 [byte c 1 mod 32; byte c 2; byte c 3], if n =? 0 then 256 else n)
  else if (op =? READ_10) || (op =? WRITE_10) then
    Some (op =? WRITE_10, b8 [byte c 2; byte c 3; byte c 4; byte c 5], b8 [byte c 7; byte c 8])
  else if (op =? READ_16) || (op =? WRITE_16) then
    Some (op =? WRITE_16, b8 [byte c 2; byte c 3; byte c 4; byte c 5; byte c 6; byte c 7; byte c 8; byte c 9],
      b8 [byte c 10; byte c 11; byte c 12; byte c 13])
  else None.

(** Direction, 48-bit addressing and protocol of a command. *)
Definition command_info (cmd : Z) : option (bool * bool * Z) :=
  let one := fun l => existsb (Z.eqb cmd) l in
  if one [0xC8] then Some (false, false, ATA_PROT_DMA) else if one [0xCA] then Some (true, false, ATA_PROT_DMA)
  else if one [0x25] then Some (false, true, ATA_PROT_DMA) else if one [0x35; 0x3D] then Some (true, true, ATA_PROT_DMA)
  else if one [0x20; 0xC4] then Some (false, false, ATA_PROT_PIO) else if one [0x30; 0xC5] then Some (true, false, ATA_PROT_PIO)
  else if one [0x24; 0x29] then Some (false, true, ATA_PROT_PIO)
  else if one [0x34; 0x39; 0xCE] then Some (true, true, ATA_PROT_PIO)
  else if one [0x60] then Some (false, true, ATA_PROT_NCQ) else if one [0x61] then Some (true, true, ATA_PROT_NCQ)
  else if one [0x40] then Some (false, false, ATA_PROT_NODATA) else if one [0x42] then Some (false, true, ATA_PROT_NODATA)
  else None.

Definition lba24 (tf : ata_taskfile) : Z := b8 [tf_lbah tf; tf_lbam tf; tf_lbal tf].
Definition lba48 (tf : ata_taskfile) : Z := b8 [tf_hob_lbah tf; tf_hob_lbam tf; tf_hob_lbal tf] * 2 ^ 24 + lba24 tf.
Definition count (max n : Z) : Z := if n =? 0 then max else n.
Definition chs (heads sectors : Z) (tf : ata_taskfile) : Z :=
  (b8 [tf_lbah tf; tf_lbam tf] * heads + tf_device tf mod 16) * sectors + tf_lbal tf - 1.

(** Direction, protocol, first block and number of blocks. *)
Definition device_request (dev : ata_device) (tf : ata_taskfile) : option (bool * Z * Z * Z) :=
  '(w, ext, prot) ← command_info (tf_command tf);
  if prot =? ATA_PROT_NCQ then Some (w, prot, lba48 tf, count 65536 (b8 [tf_hob_feature tf; tf_feature tf]))
  else if ext : bool then Some (w, prot, lba48 tf, count 65536 (b8 [tf_hob_nsect tf; tf_nsect tf]))
  else if Z.testbit (tf_device tf) 6 then
    Some (w, prot, (tf_device tf mod 16) * 2 ^ 24 + lba24 tf, count 256 (tf_nsect tf))
  else Some (w, prot, chs (d_heads dev) (d_sectors dev) tf, count 256 (tf_nsect tf)).

(** ** Lemmas *)

Lemma byte_of x k : 0 <= k -> (x >> k) & 0xff = x / 2 ^ k mod 256.
Proof. intros Hk. change 0xff with (Z.ones 8). by rewrite Z.land_ones, shiftr_div. Qed.
Lemma byte_0 x : x & 0xff = x mod 256.
Proof. change 0xff with (Z.ones 8). by rewrite Z.land_ones. Qed.

(** The address registers hold the bytes of [block]. *)
Definition low_bytes (block : Z) (tf : ata_taskfile) : Prop :=
  tf_lbah tf = (block >> 16) & 0xff /\ tf_lbam tf = (block >> 8) & 0xff /\ tf_lbal tf = block & 0xff.
Definition hob_bytes (block : Z) (tf : ata_taskfile) : Prop :=
  tf_hob_lbah tf = (block >> 40) & 0xff /\ tf_hob_lbam tf = (block >> 32) & 0xff /\
  tf_hob_lbal tf = (block >> 24) & 0xff.

Lemma lba24_low block tf : low_bytes block tf -> lba24 tf = block mod 2 ^ 24.
Proof.
  unfold lba24. intros (-> & -> & ->). cbn -[Z.land Z.shiftr Z.pow]. rewrite !byte_of, byte_0 by lia.
  cbn [Z.pow Z.pow_pos Pos.iter Z.mul]. arith.
Qed.

Lemma lba48_put block tf : 0 <= block < 2 ^ 48 -> low_bytes block tf -> hob_bytes block tf -> lba48 tf = block.
Proof.
  intros H Hl (H1 & H2 & H3). unfold lba48. rewrite (lba24_low block) by done. rewrite H1, H2, H3.
  cbn -[Z.land Z.shiftr Z.pow].
  rewrite !byte_of by lia. change (2 ^ 40) with (2 ^ 24 * 65536) . change (2 ^ 32) with (2 ^ 24 * 256).
  rewrite <- !Z.div_div by lia. assert (0 <= block / 2 ^ 24 < 2 ^ 24) by arith.
  pose proof (Z.div_mod block (2 ^ 24) ltac:(lia)) as E.
  generalize dependent (block mod 2 ^ 24); generalize dependent (block / 2 ^ 24). intros q Hq r ->.
  rewrite Z.mul_comm. f_equal. f_equal. arith.
Qed.

Lemma rwcmd_ok dev tf r tf' :
  ata_rwcmd_protocol dev tf = (r, tf') -> 0 <= r -> exists cmd prot,
    tf' = (tf |> set_protocol prot |> set_command cmd) /\ prot <> ATA_PROT_NCQ /\
    command_info cmd = Some (has (tf_flags tf) ATA_TFLAG_WRITE, has (tf_flags tf) ATA_TFLAG_LBA48, prot).
Proof.
  unfold ata_rwcmd_protocol. intros E Hr.
  destruct (has (tf_flags tf) ATA_TFLAG_FUA), (has (tf_flags tf) ATA_TFLAG_LBA48), (has (tf_flags tf) ATA_TFLAG_WRITE),
    (has (d_flags dev) ATA_DFLAG_PIO), (has (d_ap_flags dev) ATA_FLAG_PIO_LBA48), (d_multi_count dev =? 0);
    cbn in E; injection E as <- <-; try lia; by eexists _, _.
Qed.

Lemma rwcmd_fails dev tf r tf' :
  ata_rwcmd_protocol dev tf = (r, tf') -> r < 0 -> has (tf_flags tf) ATA_TFLAG_FUA = true.
Proof.
  unfold ata_rwcmd_protocol. intros E Hr. destruct (has (tf_flags tf) ATA_TFLAG_FUA); [done|].
  destruct (has (tf_flags tf) ATA_TFLAG_LBA48), (has (tf_flags tf) ATA_TFLAG_WRITE),
    (has (d_flags dev) ATA_DFLAG_PIO), (has (d_ap_flags dev) ATA_FLAG_PIO_LBA48), (d_multi_count dev =? 0);
    cbn in E; injection E as <- <-; lia.
Qed.

Lemma device_bits d x : d = 0xa0 \/ d = 0xb0 -> 0 <= x < 16 ->
  (d |' x) mod 16 = x /\ Z.testbit (d |' x) 6 = false /\
  ((d |' x) |' ATA_LBA) mod 16 = x /\ Z.testbit ((d |' x) |' ATA_LBA) 6 = true.
Proof.
  intros Hd Hx.
  assert (forallb (fun x => ((d |' x) mod 16 =? x) && negb (Z.testbit (d |' x) 6) &&
    (((d |' x) |' ATA_LBA) mod 16 =? x) && Z.testbit ((d |' x) |' ATA_LBA) 6) (seqZ 0 16) = true) as HF.
  { destruct Hd as [-> | ->]; vm_compute; reflexivity. }
  apply (forall_below _ _ HF) in Hx. unbool. done.
Qed.

Lemma lba_28_true block n : 0 <= block -> 0 < n -> block + n <= 2 ^ 64 ->
  lba_28_ok block n = true <-> block + n <= 2 ^ 28 /\ n <= 256.
Proof. intros. unfold lba_28_ok. rewrite wrap_small, andb_true_iff, Z.ltb_lt, Z.leb_le by lia. lia. Qed.
Lemma lba_48_true block n : 0 <= block -> 0 < n -> block + n <= 2 ^ 64 ->
  lba_48_ok block n = true <-> block + n <= 2 ^ 48 /\ n <= 65536.
Proof. intros. unfold lba_48_ok. rewrite wrap_small, andb_true_iff, Z.ltb_lt, Z.leb_le by lia. lia. Qed.

Lemma count_256 n : 0 < n <= 256 -> count 256 (n & 0xff) = n.
Proof. intros. rewrite byte_0. unfold count. case_test; arith. Qed.
Lemma count_65536 n : 0 < n <= 65536 -> count 65536 (b8 [(n >> 8) & 0xff; n & 0xff]) = n.
Proof. intros. rewrite byte_of, byte_0 by lia. unfold count, b8. cbn [foldl]. change (2 ^ 8) with 256. case_test; arith. Qed.

(** A request as the translation finds it: the command's direction and FUA
    bit in the flags, the device register from [ata_tf_init]. *)
Definition started (w fua : bool) (tf : ata_taskfile) : Prop :=
  tf_flags tf = 6 + (if w then 8 else 0) + (if fua then 32 else 0) /\ (tf_device tf = 0xa0 \/ tf_device tf = 0xb0).

Definition ncq (dev : ata_device) : bool :=
  d_flags dev & (ATA_DFLAG_PIO |' ATA_DFLAG_NCQ_OFF |' ATA_DFLAG_NCQ) =? ATA_DFLAG_NCQ.

(** The device has an address for each block of the request. *)
Definition addressable1 (dev : ata_device) (block n : Z) : Prop :=
  if has (d_flags dev) ATA_DFLAG_LBA then
    (block + n <= 2 ^ 28 /\ n <= 256) \/
    (has (d_flags dev) ATA_DFLAG_LBA48 = true /\ block + n <= 2 ^ 48 /\ n <= 65536)
  else block + n <= 2 ^ 28 /\ n <= 256 /\
    exists cyl head sect, 0 <= cyl < 2 ^ 16 /\ 0 <= head < d_heads dev /\ head < 16 /\
      0 < sect <= d_sectors dev /\ sect < 256 /\ (cyl * d_heads dev + head) * d_sectors dev + sect - 1 = block.
Definition addressable (dev : ata_device) (block n : Z) : Prop :=
  if ncq dev then block + n <= 2 ^ 48 /\ n <= 65536 else addressable1 dev block n.

Definition translated (dev : ata_device) (w fua : bool) (block n : Z) (r : label * ata_queued_cmd) : Prop :=
  match r with
  | (success, qc) => qc_nsect qc = n /\
      device_request dev (qc_tf qc) = Some (w, tf_protocol (qc_tf qc), block, n)
  | (out_of_range, _) => ~ addressable dev block n
  | (invalid_fld, _) => fua = true
  | (nothing_to_do, _) => False
  end.

Section translation.
Context (dev : ata_device) (w fua : bool) (block n : Z) (qc : ata_queued_cmd).
Context (Hb : 0 <= block) (Hn : 0 < n) (Hbn : block + n <= 2 ^ 64) (HS : started w fua (qc_tf qc)).

Lemma rw_ncq_ok : ncq dev = true -> translated dev w fua block n (rw_ncq block n qc).
Proof.
  intros Hq. destruct HS as [Hf Hd]. unfold rw_ncq. destruct (lba_48_ok block n) eqn:E.
  2: { apply not_true_iff_false in E. rewrite lba_48_true in E by done. cbn. unfold addressable. by rewrite Hq. }
  apply lba_48_true in E; try done. cbn [negb]. rewrite Hf. clear Hf.
  cbn -[Z.land Z.shiftr Z.lor Z.pow has device_request Z.shiftl].
  replace (has _ ATA_TFLAG_WRITE) with w by (destruct w, fua; reflexivity).
  replace (has _ ATA_TFLAG_FUA) with fua by (destruct w, fua; reflexivity).
  assert (HR : forall tf, tf_command tf = (if w then ATA_CMD_FPDMA_WRITE else ATA_CMD_FPDMA_READ) ->
    lba48 tf = block -> count 65536 (b8 [tf_hob_feature tf; tf_feature tf]) = n ->
    device_request dev tf = Some (w, ATA_PROT_NCQ, block, n)).
  { intros tf Hc <- <-. unfold device_request. rewrite Hc. by destruct w. }
  destruct fua; (split; [reflexivity|]; apply HR; cbn [tf_hob_feature tf_feature];
    [reflexivity|apply (lba48_put block); [lia|by split_and!..]|apply (count_65536 n); lia]).
Qed.

End translation.

Section requests.
Context (dev : ata_device) (tf : ata_taskfile) (w : bool) (prot block n : Z).
Context (Hp : prot <> ATA_PROT_NCQ) (Hb : 0 <= block).

Lemma request_28 :
  command_info (tf_command tf) = Some (w, false, prot) -> block < 2 ^ 28 -> 0 < n <= 256 ->
  Z.testbit (tf_device tf) 6 = true -> tf_device tf mod 16 = (block >> 24) & 0xf ->
  low_bytes block tf -> tf_nsect tf = n & 0xff ->
  device_request dev tf = Some (w, prot, block, n).
Proof.
  intros Hc H1 H2 H3 H4 H5 H6. unfold device_request. rewrite Hc. cbn [mbind option_bind].
  rewrite (proj2 (Z.eqb_neq _ _) Hp), H3, H4, H6, count_256, (lba24_low block) by done.
  do 2 f_equal. change 0xf with (Z.ones 4). rewrite Z.land_ones, shiftr_div by lia. f_equal. arith.
Qed.

Lemma request_48 :
  command_info (tf_command tf) = Some (w, true, prot) -> block < 2 ^ 48 -> 0 < n <= 65536 ->
  low_bytes block tf -> hob_bytes block tf -> tf_nsect tf = n & 0xff -> tf_hob_nsect tf = (n >> 8) & 0xff ->
  device_request dev tf = Some (w, prot, block, n).
Proof.
  intros Hc H1 H2 H3 H4 H5 H6. unfold device_request. rewrite Hc. cbn [mbind option_bind].
  rewrite (proj2 (Z.eqb_neq _ _) Hp), H5, H6, count_65536, (lba48_put block) by done. done.
Qed.

Lemma request_chs cyl head sect :
  command_info (tf_command tf) = Some (w, false, prot) -> 0 < n <= 256 ->
  Z.testbit (tf_device tf) 6 = false -> tf_device tf mod 16 = head ->
  tf_lbah tf = cyl / 256 -> tf_lbam tf = cyl mod 256 -> tf_lbal tf = sect -> tf_nsect tf = n & 0xff ->
  (cyl * d_heads dev + head) * d_sectors dev + sect - 1 = block ->
  device_request dev tf = Some (w, prot, block, n).
Proof.
  intros Hc H2 H3 H4 H5 H6 H7 H8 H9. unfold device_request. rewrite Hc. cbn [mbind option_bind].
  rewrite (proj2 (Z.eqb_neq _ _) Hp), H3, H8, count_256 by done. unfold chs. rewrite H4, H5, H6, H7.
  rewrite <- H9. do 5 f_equal. unfold b8. cbn [foldl]. arith.
Qed.
End requests.

Section translation2.
Context (dev : ata_device) (w fua : bool) (block n : Z) (qc : ata_queued_cmd).
Context (Hb : 0 <= block) (Hn : 0 < n) (Hbn : block + n <= 2 ^ 64) (HS : started w fua (qc_tf qc)).

(** What [ata_rwcmd_protocol] chose agrees with the address format. *)
Lemma rw_finish_ok ext tf :
  has (tf_flags tf) ATA_TFLAG_FUA = fua -> has (tf_flags tf) ATA_TFLAG_WRITE = w -> has (tf_flags tf) ATA_TFLAG_LBA48 = ext ->
  (if ext then block < 2 ^ 48 /\ n <= 65536 /\ hob_bytes block tf /\ tf_hob_nsect tf = (n >> 8) & 0xff
   else block < 2 ^ 28 /\ n <= 256 /\ exists d, (d = 0xa0 \/ d = 0xb0) /\ tf_device tf = d |' ((block >> 24) & 0xf)) ->
  translated dev w fua block n (rw_lba_finish dev block n qc tf).
Proof.
  intros Hfua Hw Hext Ha. unfold rw_lba_finish.
  destruct (ata_rwcmd_protocol dev tf) as [r tf'] eqn:ER.
  destruct (Z.ltb_spec r 0); [rewrite <- Hfua; by eapply rwcmd_fails|].
  destruct (rwcmd_ok _ _ _ _ ER) as (cmd & prot & -> & Hp & Hc); [lia|]. rewrite Hw, Hext in Hc.
  split; [reflexivity|]. destruct ext.
  - destruct Ha as (H1 & H2 & H3 & H4). apply request_48; [done|done|exact Hc|done|lia| |exact H3|done|exact H4].
    split_and!; reflexivity.
  - destruct Ha as (H1 & H2 & d & Hd & H3).
    assert (Hx : 0 <= (block >> 24) & 0xf < 16).
    { change 0xf with (Z.ones 4). rewrite Z.land_ones by lia. arith. }
    destruct (device_bits _ _ Hd Hx) as (_ & _ & K1 & K2). rewrite <- H3 in K1, K2.
    apply request_28; [done|done|exact Hc|done|lia|exact K2|exact K1| |reflexivity]. split_and!; reflexivity.
Qed.

Lemma rw_lba_ok : ncq dev = false -> has (d_flags dev) ATA_DFLAG_LBA = true -> translated dev w fua block n (rw_lba dev block n qc).
Proof.
  intros Hq Hlba. destruct HS as [Hf Hd]. unfold rw_lba.
  assert (Hno : addressable dev block n -> lba_28_ok block n = true \/
    has (d_flags dev) ATA_DFLAG_LBA48 = true /\ lba_48_ok block n = true).
  { unfold addressable, addressable1. rewrite Hq, Hlba. by rewrite lba_28_true, lba_48_true. }
  destruct (lba_28_ok block n) eqn:E.
  - apply lba_28_true in E; try done. apply (rw_finish_ok false);
      cbn [tf_flags set_flags set_device]; try (rewrite Hf; clear; by destruct w, fua).
    split; [lia|]. split; [lia|]. by exists (tf_device (qc_tf qc)).
  - destruct (lba_48_ok block n) eqn:E4; [|cbn; naive_solver]. apply lba_48_true in E4; try done.
    destruct (has (d_flags dev) ATA_DFLAG_LBA48); cbn [negb]; [|cbn; naive_solver]. apply (rw_finish_ok true);
      cbn [tf_flags set_flags set_hob_nsect set_hob_lbah set_hob_lbam set_hob_lbal put_hob];
      try (rewrite Hf; clear; by destruct w, fua).
    split; [lia|]. split; [lia|]. split; [split_and!; reflexivity|reflexivity].
Qed.

Lemma lba_to_chs_ok :
  0 < d_sectors dev < 2 ^ 16 -> 0 < d_heads dev -> block < 2 ^ 28 ->
  match lba_to_chs dev block with
  | Some (cyl, head, sect) =>
      0 <= cyl < 2 ^ 16 /\ 0 <= head < 16 /\ 0 < sect < 256 /\
      (cyl * d_heads dev + head) * d_sectors dev + sect - 1 = block
  | None => forall cyl head sect, 0 <= cyl < 2 ^ 16 -> 0 <= head < d_heads dev -> head < 16 ->
      0 < sect <= d_sectors dev -> sect < 256 -> (cyl * d_heads dev + head) * d_sectors dev + sect - 1 <> block
  end.
Proof.
  intros Hs Hh H28. unfold lba_to_chs. rewrite (wrap_small 32 block) by lia.
  pose proof (Z.mod_pos_bound block (d_sectors dev) ltac:(lia)).
  rewrite (wrap_small 32) by lia. set (track := block / d_sectors dev).
  assert (0 <= track) by (apply Z.div_pos; lia).
  pose proof (Z.mod_pos_bound track (d_heads dev) Hh). pose proof (Z.div_pos track (d_heads dev) ltac:(lia) Hh).
  pose proof (Z.div_mod track (d_heads dev) ltac:(lia)).
  pose proof (Z.div_mod block (d_sectors dev) ltac:(lia)) as Hbl. fold track in Hbl. rewrite !shiftr_div by lia.
  case_test.
  - intros cyl head sect Hc Hd Hd' Hse Hse' Eb.
    assert (track = cyl * d_heads dev + head /\ block mod d_sectors dev = sect - 1) as [Et Em].
    { apply (Z.div_mod_unique (d_sectors dev)); lia. }
    assert (track / d_heads dev = cyl /\ track mod d_heads dev = head) as [E1 E2].
    { apply (Z.div_mod_unique (d_heads dev)); lia. }
    rewrite E1, E2, Em in E. rewrite !orb_true_iff, !negb_true_iff, !Z.eqb_neq, Z.eqb_eq in E. arith.
  - split_and!; [lia|arith|lia|arith|lia|arith|]. rewrite (Z.mul_comm (track / _)). lia.
Qed.

Lemma rw_chs_ok : ncq dev = false -> has (d_flags dev) ATA_DFLAG_LBA = false ->
  0 < d_sectors dev < 2 ^ 16 -> 0 < d_heads dev -> translated dev w fua block n (rw_chs dev block n qc).
Proof.
  intros Hq Hlba Hs Hh. destruct HS as [Hf Hd]. unfold rw_chs.
  destruct (lba_28_ok block n) eqn:E.
  2: { apply not_true_iff_false in E. rewrite lba_28_true in E by done. cbn. unfold addressable, addressable1. rewrite Hq, Hlba. tauto. }
  apply lba_28_true in E; try done. cbn [negb].
  destruct (ata_rwcmd_protocol dev _) as [r tf'] eqn:ER. destruct (Z.ltb_spec r 0).
  { assert (has (tf_flags (qc_tf qc)) ATA_TFLAG_FUA = true) as Hx by (by eapply rwcmd_fails).
    rewrite Hf in Hx. clear -Hx. by destruct w, fua. }
  destruct (rwcmd_ok _ _ _ _ ER) as (cmd & prot & -> & Hp & Hc); [lia|]. clear ER. rewrite Hf in Hc.
  pose proof (lba_to_chs_ok Hs Hh ltac:(lia)) as HC.
  destruct (lba_to_chs dev block) as [[[cyl head] sect]|].
  2: { cbn. unfold addressable, addressable1. rewrite Hq, Hlba. intros (_ & _ & cyl & head & sect & A1 & A2 & A3 & A4 & A5 & A6). exact (HC _ _ _ A1 A2 A3 A4 A5 A6). }
  destruct HC as (H1 & H2 & H3 & H4).
  destruct (device_bits _ _ Hd H2) as (K1 & K2 & _ & _).
  assert (Hc' : command_info cmd = Some (w, false, prot)) by (rewrite Hc; clear; by destruct w, fua).
  split; [reflexivity|]. apply (request_chs _ _ _ _ _ _ Hp cyl head sect);
    [exact Hc'|lia|exact K2|exact K1| | | |reflexivity|exact H4];
    cbn [qc_tf with_tf tf_lbah tf_lbam tf_lbal put_chs set_device set_lbah set_lbam set_lbal].
  - rewrite shiftr_div, wrap_small by arith. done.
  - done.
  - apply wrap_small. lia.
Qed.
End translation2.

(** ** The CDB *)

Lemma lor_step x b j k : 0 <= k -> j = k + 8 -> 0 <= b < 256 -> (x << j) |' (b << k) = (256 * x + b) << k.
Proof.
  intros Hk -> Hb. rewrite Z.lor_comm, !shiftl_mul by lia.
  rewrite lor_split; [rewrite Z.pow_add_r by lia; change (2 ^ 8) with 256; ring|lia|].
  rewrite Z.pow_add_r by lia. change (2 ^ 8) with 256. assert (0 < 2 ^ k) by lia. nia.
Qed.

Lemma lor_last x b : 0 <= b < 256 -> (x << 8) |' b = 256 * x + b.
Proof. intros Hb. rewrite <- (Z.shiftl_0_r b) at 1. rewrite (lor_step x b 8 0) by lia. apply Z.shiftl_0_r. Qed.

Definition bytes (c : list Z) : Prop := Forall (λ b, 0 <= b < 256) c.

Lemma bytes_check c : forallb (fun b => (0 <=? b) && (b <? 256)) c = true -> bytes c.
Proof.
  intros H. apply Forall_forall. intros b Hb%list_elem_of_In. rewrite forallb_forall in H. specialize (H b Hb). unbool. lia.
Qed.

Lemma byte_range c i : bytes c -> 0 <= byte c i < 256.
Proof.
  intros H. unfold byte. destruct (nth_lookup_or_length c i 0) as [E|E].
  - by eapply (Forall_lookup_1 _ _ i _ H).
  - rewrite nth_overflow; lia.
Qed.

Section cdb.
Context (c : list Z) (Hc : bytes c).

Lemma lba_len_10 : scsi_10_lba_len c = (b8 [byte c 2; byte c 3; byte c 4; byte c 5], b8 [byte c 7; byte c 8]).
Proof.
  pose proof (fun i => byte_range c i Hc) as R. unfold scsi_10_lba_len, b8. cbn [foldl]. rewrite !Z.lor_0_l.
  rewrite (lor_step (byte c 2) (byte c 3) 24 16), (lor_step _ (byte c 4) 16 8), !lor_last by auto with lia.
  f_equal; ring.
Qed.

Lemma lba_len_16 : scsi_16_lba_len c =
  (b8 [byte c 2; byte c 3; byte c 4; byte c 5; byte c 6; byte c 7; byte c 8; byte c 9],
   b8 [byte c 10; byte c 11; byte c 12; byte c 13]).
Proof.
  pose proof (fun i => byte_range c i Hc) as R. unfold scsi_16_lba_len, b8. cbn [foldl]. rewrite !Z.lor_0_l.
  rewrite (lor_step (byte c 2) (byte c 3) 56 48), (lor_step _ (byte c 4) 48 40), (lor_step _ (byte c 5) 40 32),
    (lor_step _ (byte c 6) 32 24), (lor_step _ (byte c 7) 24 16), (lor_step _ (byte c 8) 16 8), lor_last by auto with lia.
  rewrite (lor_step (byte c 10) (byte c 11) 24 16), (lor_step _ (byte c 12) 16 8), lor_last by auto with lia.
  f_equal; ring.
Qed.

Lemma lba_len_6 : scsi_6_lba_len c = (b8 [byte c 2; byte c 3], byte c 4).
Proof.
  pose proof (fun i => byte_range c i Hc) as R. unfold scsi_6_lba_len, b8. cbn [foldl]. rewrite !Z.lor_0_l.
  rewrite lor_last by auto. done.
Qed.

Lemma b8_nonneg l : Forall (λ b, 0 <= b) l -> 0 <= b8 l.
Proof.
  unfold b8. enough (forall x, 0 <= x -> Forall (λ b, 0 <= b) l -> 0 <= foldl (fun x b => 256 * x + b) x l) by auto with lia.
  induction l as [|b l IH]; intros x Hx H; [done|]. apply Forall_cons in H as [? ?]. apply IH; [lia|done].
Qed.

Definition six (c : list Z) : bool := (byte c 0 =? READ_6) || (byte c 0 =? WRITE_6).
Definition writes (c : list Z) : bool := (byte c 0 =? WRITE_10) || (byte c 0 =? WRITE_6) || (byte c 0 =? WRITE_16).
Definition fua_bit (c : list Z) : bool := has (byte c 1) 8.

(** The operation code as the four tests see it. *)
Lemma scsi_request_inv w block n : scsi_request c = Some (w, block, n) ->
  w = writes c /\ 0 <= block /\ 0 <= n /\ forall tf, exists fua, (fua = true -> fua_bit c = true) /\
    rw_decode c tf = Some (if six c then block mod 65536 else block, n,
      if fua then tf |> set_flags (tf_flags tf |' ATA_TFLAG_FUA) else tf).
Proof.
  pose proof (fun i => byte_range c i Hc) as R.
  unfold scsi_request, rw_decode, six, writes, fua_bit. rewrite lba_len_10, lba_len_16, lba_len_6.
  generalize (byte c 0). intros op.
  destruct (Z.eqb_spec op READ_6) as [->|]; [|destruct (Z.eqb_spec op WRITE_6) as [->|];
    [|destruct (Z.eqb_spec op READ_10) as [->|]; [|destruct (Z.eqb_spec op WRITE_10) as [->|];
    [|destruct (Z.eqb_spec op READ_16) as [->|]; [|destruct (Z.eqb_spec op WRITE_16) as [->|]; [|done]]]]]];
    cbn -[b8 has]; intros [= <- <- <-].
  1,2: (split; [done|]; split; [apply b8_nonneg; repeat constructor; try apply R; arith|];
    split; [case_test; [lia|apply R]|]; intros tf; exists false; split; [done|]; do 3 f_equal;
    unfold b8; cbn [foldl]; pose proof (R 2%nat); pose proof (R 3%nat); arith).
  all: (split; [done|]; split; [apply b8_nonneg; repeat constructor; apply R|];
    split; [apply b8_nonneg; repeat constructor; apply R|]; intros tf; exists (has (byte c 1) 8);
    split; [done|]; by destruct (has (byte c 1) 8)).
Qed.
End cdb.

(** A queued command as the translation gets it, and the sense data it
    leaves when it refuses. *)
Definition new_qc (dev : ata_device) (ctl tag : Z) : ata_queued_cmd := Qc (ata_tf_init dev ctl) 0 0 tag.
Definition refused (asc : Z) (cmd cmd' : scsi_cmnd) : Prop := cmd' = ata_scsi_set_sense cmd ILLEGAL_REQUEST asc 0.
Definition geometry (dev : ata_device) : Prop := 0 < d_sectors dev < 2 ^ 16 /\ 0 < d_heads dev.

Lemma rw_xlat_steps dev ctl tag cmd c w block n :
  bytes c -> geometry dev -> scsi_request c = Some (w, block, n) ->
  let block' := if six c then block mod 65536 else block in
  block' + n <= 2 ^ 64 ->
  exists fua qc, (fua = true -> fua_bit c = true) /\ 0 <= n /\
    if n =? 0 then ata_scsi_rw_xlat dev (new_qc dev ctl tag) cmd c = finish (nothing_to_do, qc) cmd
    else exists r, ata_scsi_rw_xlat dev (new_qc dev ctl tag) cmd c = finish r cmd /\ translated dev w fua block' n r.
Proof.
  intros Hc [Hs Hh] Hr block' H64. destruct (scsi_request_inv c Hc _ _ _ Hr) as (-> & Hb & Hn & Hdec).
  assert (Hb' : 0 <= block') by (unfold block'; destruct (six c); [arith|lia]).
  unfold ata_scsi_rw_xlat. fold (writes c).
  set (tf := if writes c then _ else _). destruct (Hdec tf) as (fua & Hfua & ->). fold block'.
  set (tf' := if fua then _ else _). set (qc := with_qflags _ _). exists fua, (with_tf tf' qc).
  split; [done|]. split; [done|]. destruct (Z.eqb_spec n 0) as [->|Hn0]; [done|]. eexists; split; [reflexivity|].
  assert (HS : started (writes c) fua (qc_tf (with_tf tf' qc))).
  { unfold started, tf', tf. cbn -[Z.lor]. destruct (writes c), fua; cbn -[Z.lor];
      (split; [reflexivity|]); destruct (d_devno dev =? 0); auto. }
  clearbody tf'. fold (ncq dev). destruct (ncq dev) eqn:Eq.
  - apply (rw_ncq_ok dev _ fua); try done. lia.
  - destruct (has (d_flags dev) ATA_DFLAG_LBA) eqn:El.
    + apply rw_lba_ok; try done. lia.
    + apply rw_chs_ok; try done. lia.
Qed.


(** The six-byte commands lose the upper five bits of their 21-bit block
    address: the command sent for a block from 65536 on transfers the block
    with these bits cleared. *)
Theorem ata_rw6_wrong_block dev ctl tag cmd c w block n r qc cmd' :
  bytes c -> geometry dev -> scsi_request c = Some (w, block, n) -> six c = true -> 65536 <= block ->
  ata_scsi_rw_xlat dev (new_qc dev ctl tag) cmd c = (r, qc, cmd') -> r = 0 ->
  device_request dev (qc_tf qc) = Some (w, tf_protocol (qc_tf qc), block mod 65536, n) /\ block mod 65536 <> block.
Proof.
  intros Hc Hg Hr H6 Hb E ->. split; [|arith].
  destruct (rw_xlat_steps dev ctl tag cmd c w block n Hc Hg Hr) as (fua & qc0 & Hfua & Hn & H).
  { rewrite H6. unfold scsi_request in Hr. unfold six in H6. rewrite H6 in Hr. injection Hr as <- <- <-.
    pose proof (byte_range c 4 Hc). case_match; unbool; arith. }
  rewrite H6 in H. destruct (n =? 0); [by rewrite E in H|].
  destruct H as ([l qc'] & E' & HT). rewrite E in E'. destruct l; cbn in E', HT; try done.
  injection E' as <- _. apply HT.
Qed.

(** ** Addresses that wrap *)

Lemma low_28 block tf : put_low block tf = put_low (block mod 2 ^ 28) tf.
Proof.
  unfold put_low. rewrite !byte_of, !byte_0 by lia.
  assert (block mod 2 ^ 28 / 2 ^ 16 mod 256 = block / 2 ^ 16 mod 256) as -> by arith.
  assert (block mod 2 ^ 28 / 2 ^ 8 mod 256 = block / 2 ^ 8 mod 256) as -> by arith.
  assert ((block mod 2 ^ 28) mod 256 = block mod 256) as -> by arith. done.
Qed.

Lemma nibble_28 block : (block >> 24) & 0xf = (block mod 2 ^ 28 >> 24) & 0xf.
Proof. change 0xf with (Z.ones 4). rewrite !Z.land_ones, !shiftr_div by lia. arith. Qed.

(** The range check of the translation computes the last block in 64 bits
    and does not see it wrap: a READ(16) or WRITE(16) of blocks that end past
    2^64 is accepted by a device with LBA addressing, and transfers from the
    block given by the low 28 bits of the address. *)
Theorem ata_rw16_wraps dev ctl tag cmd c w block n :
  bytes c -> scsi_request c = Some (w, block, n) -> (byte c 0 = READ_16 \/ byte c 0 = WRITE_16) ->
  fua_bit c = false -> ncq dev = false -> has (d_flags dev) ATA_DFLAG_LBA = true ->
  2 ^ 64 < block + n -> n <= 256 ->
  exists qc, ata_scsi_rw_xlat dev (new_qc dev ctl tag) cmd c = (0, qc, cmd) /\
    device_request dev (qc_tf qc) = Some (w, tf_protocol (qc_tf qc), block mod 2 ^ 28, n).
Proof.
  intros Hc Hr H16 Hfua Hq Hl Hw Hn. destruct (scsi_request_inv c Hc _ _ _ Hr) as (-> & Hb & Hn0 & Hdec).
  assert (Hb64 : block < 2 ^ 64).
  { unfold scsi_request in Hr. destruct H16 as [E | E]; rewrite E in Hr; cbn -[b8] in Hr; injection Hr as _ <- _;
      unfold b8; cbn [foldl]; pose proof (fun i => byte_range c i Hc) as R;
      pose proof (R 2%nat); pose proof (R 3%nat); pose proof (R 4%nat); pose proof (R 5%nat);
      pose proof (R 6%nat); pose proof (R 7%nat); pose proof (R 8%nat); pose proof (R 9%nat); lia. }
  assert (H6 : six c = false) by (unfold six; destruct H16 as [-> | ->]; done).
  unfold ata_scsi_rw_xlat. fold (writes c).
  set (tf := if writes c then _ else _). destruct (Hdec tf) as ([] & Hf & ->); [rewrite Hfua in Hf; by discriminate Hf|].
  rewrite H6, (proj2 (Z.eqb_neq n 0)) by lia. fold (ncq dev). rewrite Hq, Hl.
  unfold rw_lba. assert (lba_28_ok block n = true) as ->.
  { unfold lba_28_ok. rewrite andb_true_iff, Z.ltb_lt, Z.leb_le. unfold wrap. arith. }
  rewrite nibble_28. set (tf2 := set_device _ _).
  match goal with |- context [rw_lba_finish dev block n ?q tf2] =>
    assert (rw_lba_finish dev block n q tf2 = rw_lba_finish dev (block mod 2 ^ 28) n q tf2) as -> end.
  { unfold rw_lba_finish. destruct (ata_rwcmd_protocol dev tf2). by rewrite low_28. }
  assert (HT : translated dev (writes c) false (block mod 2 ^ 28) n (rw_lba_finish dev (block mod 2 ^ 28) n
    (with_tf tf (with_qflags (qc_flags (new_qc dev ctl tag) |' ATA_QCFLAG_IO) (new_qc dev ctl tag))) tf2)).
  { apply (rw_finish_ok dev _ false (block mod 2 ^ 28) n _ ltac:(arith) ltac:(lia) false); unfold tf2, tf.
    - cbn -[Z.lor has]. by destruct (writes c).
    - cbn -[Z.lor has]. by destruct (writes c).
    - cbn -[Z.lor has]. by destruct (writes c).
    - split; [arith|]. split; [lia|]. exists (if d_devno dev =? 0 then 0xa0 else 0xb0).
      split; [destruct (d_devno dev =? 0); auto|].
      unfold set_device at 1. cbn [tf_device]. f_equal. unfold new_qc, ata_tf_init.
      destruct (writes c), (d_devno dev =? 0); reflexivity. }
  destruct (rw_lba_finish _ _ _ _ _) as [l qc'] eqn:EF. destruct l; cbn in HT.
  - exists qc'. split; [done|]. apply HT.
  - done.
  - unfold rw_lba_finish in EF. destruct (ata_rwcmd_protocol dev tf2). by case_match.
  - done.
Qed.

(** ** VERIFY *)

Definition verify_request (c : list Z) : option (Z * Z) :=
  if byte c 0 =? VERIFY then Some (b8 [byte c 2; byte c 3; byte c 4; byte c 5], b8 [byte c 7; byte c 8])
  else if byte c 0 =? VERIFY_16 then
    Some (b8 [byte c 2; byte c 3; byte c 4; byte c 5; byte c 6; byte c 7; byte c 8; byte c 9],
      b8 [byte c 10; byte c 11; byte c 12; byte c 13])
  else None.

Lemma verify_request_range c block n : bytes c -> verify_request c = Some (block, n) ->
  0 <= block /\ 0 <= n < 2 ^ 32.
Proof.
  intros Hc. unfold verify_request. pose proof (fun i => byte_range c i Hc) as R.
  destruct (byte c 0 =? VERIFY); [|destruct (byte c 0 =? VERIFY_16); [|done]]; intros [= <- <-];
    (split; [apply b8_nonneg; repeat constructor; apply R|]); unfold b8; cbn [foldl];
    pose proof (R 7%nat); pose proof (R 8%nat); pose proof (R 10%nat); pose proof (R 11%nat);
    pose proof (R 12%nat); pose proof (R 13%nat); lia.
Qed.

(** VERIFY becomes a READ VERIFY of exactly the blocks of the CDB, all of
    them on the device; anything else is refused as out of range, and only when
    a block is past the end of the device or has no address. *)
Theorem ata_verify_xlat_correct dev ctl tag cmd c block n :
  bytes c -> geometry dev -> 0 <= d_n_sectors dev <= 2 ^ 63 -> verify_request c = Some (block, n) ->
  exists r qc cmd', ata_scsi_verify_xlat dev (new_qc dev ctl tag) cmd c = (r, qc, cmd') /\
  if n =? 0 then r = 1 /\ sc_result cmd' = SAM_STAT_GOOD
  else if r =? 0 then cmd' = cmd /\ block + n <= d_n_sectors dev /\
    device_request dev (qc_tf qc) = Some (false, ATA_PROT_NODATA, block, n)
  else refused 0x21 cmd cmd' /\ (d_n_sectors dev < block + n \/ ~ addressable1 dev block n).
Proof.
  intros Hc [Hs Hh] Hsec Hr. destruct (verify_request_range c block n Hc Hr) as [Hb Hn].
  unfold ata_scsi_verify_xlat. rewrite lba_len_10, lba_len_16 by done. fold (verify_request c). rewrite Hr.
  destruct (Z.eqb_spec n 0); [by eexists _, _, _|].
  destruct (Z.leb_spec (d_n_sectors dev) block).
  { eexists _, _, _. split; [reflexivity|]. split; [done|]. left. lia. }
  rewrite wrap_small by lia. destruct (Z.ltb_spec (d_n_sectors dev) (block + n)).
  { eexists _, _, _. split; [reflexivity|]. split; [done|]. by left. }
  pose proof (lba_28_true block n Hb ltac:(lia) ltac:(lia)) as E28.
  pose proof (lba_48_true block n Hb ltac:(lia) ltac:(lia)) as E48.
  assert (Hd : tf_device (ata_tf_init dev ctl) = 0xa0 \/ tf_device (ata_tf_init dev ctl) = 0xb0)
    by (cbn; destruct (d_devno dev =? 0); auto).
  assert (Hx : 0 <= (block >> 24) & 0xf < 16).
  { change 0xf with (Z.ones 4). rewrite Z.land_ones by lia. arith. }
  destruct (has (d_flags dev) ATA_DFLAG_LBA) eqn:El.
  - destruct (lba_28_ok block n).
    + destruct E28 as [E28 _]. destruct (E28 eq_refl). eexists _, _, _. split; [reflexivity|]. split; [done|]. split; [done|].
      destruct (device_bits _ _ Hd Hx) as (_ & _ & K1 & K2).
      apply request_28; [done|done|reflexivity|lia|lia|exact K2|exact K1|split_and!; reflexivity|reflexivity].
    + destruct (lba_48_ok block n).
      * destruct E48 as [E48 _]. destruct (E48 eq_refl). destruct (has (d_flags dev) ATA_DFLAG_LBA48) eqn:El48; cbn [negb].
        -- eexists _, _, _. split; [reflexivity|]. split; [done|]. split; [done|].
           apply request_48; [done|done|reflexivity|lia|lia|split_and!; reflexivity|split_and!; reflexivity|reflexivity|reflexivity].
        -- eexists _, _, _. split; [reflexivity|]. split; [done|]. right. unfold addressable1. rewrite El, El48.
           rewrite <- E28. naive_solver.
      * eexists _, _, _. split; [reflexivity|]. split; [done|]. right. unfold addressable1. rewrite El.
        rewrite <- E28, <- E48. naive_solver.
  - destruct (lba_28_ok block n); cbn [negb].
    + destruct E28 as [E28 _]. destruct (E28 eq_refl).
      pose proof (lba_to_chs_ok dev block Hb Hs Hh ltac:(lia)) as HC.
      destruct (lba_to_chs dev block) as [[[cyl head] sect]|].
      * destruct HC as (J1 & J2 & J3 & J4). destruct (device_bits _ _ Hd J2) as (K1 & K2 & _ & _).
        eexists _, _, _. split; [reflexivity|]. split; [done|]. split; [done|].
        apply (request_chs dev _ false ATA_PROT_NODATA block n ltac:(done) cyl head sect);
          [reflexivity|lia|exact K2|exact K1| |reflexivity| |reflexivity|exact J4];
          cbn [qc_tf with_tf tf_lbah tf_lbal put_chs set_device set_lbah set_lbam set_lbal].
        -- rewrite shiftr_div, wrap_small by arith. done.
        -- apply wrap_small. lia.
      * eexists _, _, _. split; [reflexivity|]. split; [done|]. right. unfold addressable1. rewrite El.
        intros (_ & _ & cyl & head & sect & A1 & A2 & A3 & A4 & A5 & A6). exact (HC _ _ _ A1 A2 A3 A4 A5 A6).
    + eexists _, _, _. split; [reflexivity|]. split; [done|]. right. unfold addressable1. rewrite El.
      destruct E28 as [_ E28]. intros (A1 & A2 & _). by specialize (E28 (conj A1 A2)).
Qed.

(** ** Pass-through commands and results *)

Lemma map_proto_cases b : ata_scsi_map_proto b = ATA_PROT_NODATA \/ ata_scsi_map_proto b = ATA_PROT_DMA \/
  ata_scsi_map_proto b = ATA_PROT_PIO \/ ata_scsi_map_proto b = ATA_PROT_UNKNOWN.
Proof. unfold ata_scsi_map_proto. repeat case_match; auto. Qed.

Lemma slave_bit d b : 0 <= d < 256 -> Z.testbit (if b : bool then d |' ATA_DEV1 else clear 8 d ATA_DEV1) 4 = b.
Proof.
  intros Hd.
  assert (forallb (fun d => Z.testbit (d |' ATA_DEV1) 4 && negb (Z.testbit (clear 8 d ATA_DEV1) 4)) (seqZ 0 256) = true) as HF
    by (vm_compute; reflexivity).
  apply (forall_below _ _ HF) in Hd. unbool. by destruct b.
Qed.

Lemma set_device_id t : t = set_device (tf_device t) t.
Proof. by destruct t. Qed.

(** The flags and the registers [ata_scsi_pass_thru] leaves. *)
Lemma pass_thru_inv dev ctl tag cmd c r qc cmd' :
  ata_scsi_pass_thru dev (new_qc dev ctl tag) cmd c = (r, qc, cmd') ->
  r = 1 /\ refused 0x24 cmd cmd' \/
  r = 0 /\ cmd' = cmd /\ exists flags device,
    let tf1 := pass_thru_regs c (set_protocol (ata_scsi_map_proto (byte c 1)) (ata_tf_init dev ctl)) in
    qc_tf qc = (tf1 |> set_device device |> set_flags flags) /\
    (device = if has (d_ap_flags dev) ATA_FLAG_SLAVE_POSS then
      if negb (d_devno dev =? 0) then tf_device tf1 |' ATA_DEV1 else clear 8 (tf_device tf1) ATA_DEV1
      else tf_device tf1) /\
    has flags ATA_TFLAG_LBA48 = (byte c 0 =? ATA_16) && has (byte c 1) 1 /\
    has flags ATA_TFLAG_WRITE = (sc_data_direction cmd =? DMA_TO_DEVICE) /\
    (tf_command tf1 =? ATA_CMD_SET_FEATURES) && (tf_feature tf1 =? SETFEATURES_XFER) = false /\
    ata_scsi_map_proto (byte c 1) <> ATA_PROT_UNKNOWN /\
    (ata_scsi_map_proto (byte c 1) = ATA_PROT_DMA -> d_dma_mode dev <> 0).
Proof.
  unfold ata_scsi_pass_thru. cbn [tf_protocol set_protocol].
  destruct (Z.eqb_spec (ata_scsi_map_proto (byte c 1)) ATA_PROT_UNKNOWN) as [|Hp]; [intros [= <- <- <-]; by left|].
  destruct ((ata_scsi_map_proto (byte c 1) =? ATA_PROT_DMA) && (d_dma_mode dev =? 0)) eqn:Edma; [intros [= <- <- <-]; by left|].
  destruct (has (byte c 1) 0xe0); [intros [= <- <- <-]; by left|].
  set (tf1 := pass_thru_regs c _).
  assert (Hf : tf_flags tf1 = if (byte c 0 =? ATA_16) && has (byte c 1) 1 then 1 else 0)
    by (unfold tf1, pass_thru_regs; destruct (byte c 0 =? ATA_16); [destruct (has (byte c 1) 1)|]; reflexivity).
  set (tf2 := if has (d_ap_flags dev) _ then _ else _).
  assert (E2 : tf2 = set_device (tf_device tf2) tf1).
  { unfold tf2. destruct (has (d_ap_flags dev) ATA_FLAG_SLAVE_POSS); [reflexivity|]. apply set_device_id. }
  rewrite E2. cbn [tf_command tf_feature set_device].
  destruct ((tf_command tf1 =? ATA_CMD_SET_FEATURES) && (tf_feature tf1 =? SETFEATURES_XFER)) eqn:Ex;
    [intros [= <- <- <-]; by left|]. intros [= <- <- <-]. right. split; [done|]. split; [done|].
  exists ((tf_flags tf1 |' (ATA_TFLAG_ISADDR |' ATA_TFLAG_DEVICE)) |'
    (if sc_data_direction cmd =? DMA_TO_DEVICE then ATA_TFLAG_WRITE else 0)), (tf_device tf2).
  cbv zeta. cbn [qc_tf with_qflags with_nsect with_tf].
  split; [|split].
  - destruct (sc_data_direction cmd =? DMA_TO_DEVICE); [done|]. by rewrite Z.lor_0_r.
  - unfold tf2. by destruct (has (d_ap_flags dev) ATA_FLAG_SLAVE_POSS).
  - rewrite Hf. split_and!; try done.
    + by destruct ((byte c 0 =? ATA_16) && has (byte c 1) 1), (sc_data_direction cmd =? DMA_TO_DEVICE).
    + by destruct ((byte c 0 =? ATA_16) && has (byte c 1) 1), (sc_data_direction cmd =? DMA_TO_DEVICE).
    + intros Hd Hm. by rewrite Hd, Hm in Edma.
Qed.

(** A pass-through command reaches the device only with a protocol the
    driver handles, DMA only when a DMA mode is set, addressed to its own
    device when two can share the cable, and never as the SET FEATURES that
    changes the transfer mode behind the driver's back; it is an LBA48 command
    exactly when its CDB is the 16-byte one with the extend bit. Anything else is
    refused as an invalid field. *)
Theorem ata_pass_thru_guards dev ctl tag cmd c r qc cmd' :
  bytes c -> ata_scsi_pass_thru dev (new_qc dev ctl tag) cmd c = (r, qc, cmd') ->
  let tf := qc_tf qc in
  (r = 1 /\ refused 0x24 cmd cmd') \/
  (r = 0 /\ cmd' = cmd /\
   (tf_protocol tf = ATA_PROT_NODATA \/ tf_protocol tf = ATA_PROT_PIO \/
    tf_protocol tf = ATA_PROT_DMA /\ d_dma_mode dev <> 0) /\
   ~ (tf_command tf = ATA_CMD_SET_FEATURES /\ tf_feature tf = SETFEATURES_XFER) /\
   (has (d_ap_flags dev) ATA_FLAG_SLAVE_POSS = true -> Z.testbit (tf_device tf) 4 = negb (d_devno dev =? 0)) /\
   has (tf_flags tf) ATA_TFLAG_LBA48 = (byte c 0 =? ATA_16) && has (byte c 1) 1 /\
   has (tf_flags tf) ATA_TFLAG_WRITE = (sc_data_direction cmd =? DMA_TO_DEVICE)).
Proof.
  intros Hc E. apply pass_thru_inv in E as [?|(-> & -> & flags & device & E)]; [by left|right]. cbv zeta in *.
  destruct E as (-> & Hdev & H48 & Hw & Hx & Hp & Hdma).
  assert (Hpr : tf_protocol (pass_thru_regs c (set_protocol (ata_scsi_map_proto (byte c 1)) (ata_tf_init dev ctl)))
    = ata_scsi_map_proto (byte c 1)) by (unfold pass_thru_regs; by repeat case_match).
  assert (Hdv : 0 <= tf_device (pass_thru_regs c (set_protocol (ata_scsi_map_proto (byte c 1)) (ata_tf_init dev ctl))) < 256)
    by (unfold pass_thru_regs; repeat case_match; by apply byte_range).
  cbn [tf_protocol tf_command tf_feature tf_device tf_flags set_device set_flags]. rewrite Hpr.
  split; [done|]. split; [done|]. split; [|split; [|split; [|by split]]].
  - destruct (map_proto_cases (byte c 1)) as [?|[?|[?|?]]]; auto. done.
  - intros [E1 E2]. by rewrite E1, E2 in Hx.
  - intros Hs. rewrite Hs in Hdev. subst device. by apply slave_bit.
Qed.

(** The FIS that answers a command and the descriptor sense data made of it. *)
Definition result_regs (fis sb : list Z) (ext : bool) : Prop :=
  [byte sb 21; byte sb 11; byte sb 13; byte sb 15; byte sb 17; byte sb 19; byte sb 20]
  = [byte fis 2; byte fis 3; byte fis 12; byte fis 4; byte fis 5; byte fis 6; byte fis 7] /\
  [byte sb 12; byte sb 14; byte sb 16; byte sb 18]
  = (if ext then [byte fis 13; byte fis 8; byte fis 9; byte fis 10] else [0; 0; 0; 0]) /\
  byte sb 10 = (if ext then 1 else 0).

(** Pass-through commands carry the registers unchanged both ways: the
    command FIS has the registers of a 16-byte extended CDB, and the registers
    the device answers with come back in the descriptor sense data. *)
Theorem ata_pass_thru_registers dev ctl tag cmd c r qc cmd' pmp fis t err_mask :
  ata_scsi_pass_thru dev (new_qc dev ctl tag) cmd c = (r, qc, cmd') -> r = 0 ->
  byte c 0 = ATA_16 -> has (byte c 1) 1 = true ->
  (let f := ata_tf_to_fis (qc_tf qc) pmp in
   [byte f 2; byte f 3; byte f 4; byte f 5; byte f 6] = [byte c 14; byte c 4; byte c 8; byte c 10; byte c 12] /\
   [byte f 8; byte f 9; byte f 10; byte f 11; byte f 12; byte f 13]
   = [byte c 7; byte c 9; byte c 11; byte c 3; byte c 6; byte c 5]) /\
  result_regs fis
    (sc_sense (qc_sense c true err_mask (ata_tf_from_fis fis (set_flags (tf_flags (qc_tf qc)) t)) cmd)) true.
Proof.
  intros E -> H16 Hext. apply pass_thru_inv in E as [[? _]|(_ & -> & flags & device & E)]; [done|]. cbv zeta in *.
  destruct E as (-> & Hdev & H48 & _). unfold pass_thru_regs. rewrite H16, Hext in *. cbn [Z.eqb Pos.eqb ATA_16 andb] in *.
  split; [by split|]. unfold qc_sense. rewrite H16.
  change ((ATA_16 =? ATA_16) || (ATA_16 =? ATA_12)) with true. rewrite orb_true_r. cbn [andb].
  unfold ata_gen_ata_desc_sense. cbn [tf_flags set_flags]. 
  match goal with |- context [has ?f ATA_TFLAG_LBA48] => change f with flags end. rewrite H48.
  destruct (failed_status _ _); [destruct (ata_to_sense_error _ _) as [[sk asc] ascq]|]; by split.
Qed.

Lemma sense_key_cases stat err sk asc ascq : ata_to_sense_error stat err = (sk, asc, ascq) -> sk & 0x0f <> 0.
Proof.
  unfold ata_to_sense_error. set (e := if has stat ATA_BUSY then 0 else err).
  assert (HS : forall r, List.find (fun r => has (fst r) stat) stat_table = Some r -> (snd r).1.1 & 0x0f <> 0).
  { intros r [H _]%find_some. cbn in H. by repeat destruct H as [<-|H]. }
  assert (HE : forall r, List.find (fun r => fst r & e =? fst r) sense_table = Some r -> (snd r).1.1 & 0x0f <> 0).
  { intros r [H _]%find_some. cbn in H. by repeat destruct H as [<-|H]. }
  destruct (List.find _ stat_table) as [r|]; destruct (negb (e =? 0));
    try destruct (List.find _ sense_table) as [r'|]; intros E;
    try (specialize (HS _ eq_refl); by rewrite E in HS); try (specialize (HE _ eq_refl); by rewrite E in HE);
    by injection E as <- <- <-.
Qed.

(** A failed command never reports the sense key "no sense", and for a
    28-bit command the fixed-format sense data give the address of the failed
    block. *)
Theorem ata_fixed_sense_reports err_mask tf cmd :
  let sb := sc_sense (ata_gen_fixed_sense err_mask tf cmd) in
  sc_result (ata_gen_fixed_sense err_mask tf cmd) = check_condition /\
  (failed_status err_mask tf = true <-> byte sb 2 <> 0) /\
  if has (tf_flags tf) ATA_TFLAG_LBA && negb (has (tf_flags tf) ATA_TFLAG_LBA48)
  then byte sb 0 = 0xf0 /\ b8 [byte sb 3; byte sb 4; byte sb 5; byte sb 6] = (tf_device tf mod 16) * 2 ^ 24 + lba24 tf
  else byte sb 0 = 0x70.
Proof.
  cbv zeta. split; [done|]. unfold ata_gen_fixed_sense.
  set (sb1 := if failed_status _ _ then _ else _).
  assert (H : byte sb1 2 <> 0 <-> failed_status err_mask tf = true).
  { unfold sb1. destruct (failed_status err_mask tf); [|split; [by intros []|done]].
    destruct (ata_to_sense_error _ _) as [[sk asc] ascq] eqn:E. apply sense_key_cases in E. done. }
  assert (HL : length sb1 = SCSI_SENSE_BUFFERSIZE).
  { unfold sb1. destruct (failed_status err_mask tf); [|done]. by destruct (ata_to_sense_error _ _) as [[sk asc] ascq]. }
  clearbody sb1. rewrite <- H. clear H.
  do 14 (destruct sb1 as [|? sb1]; [done|]). cbn [sc_sense].
  destruct (has (tf_flags tf) ATA_TFLAG_LBA48), (has (tf_flags tf) ATA_TFLAG_LBA); cbn [andb negb]; try done.
  split; [done|]. split; [done|]. unfold lba24, b8. cbn [put foldl byte nth insert list_insert Datatypes.uncurry].
  change 0x0f with (Z.ones 4). rewrite Z.land_ones by lia. change (2 ^ 4) with 16. ring.
Qed.

(** ** Registers are bytes *)

Definition reg_ok (t : ata_taskfile) : Prop := Forall (λ x, 0 <= x < 256)
  [tf_protocol t; tf_ctl t; tf_hob_feature t; tf_hob_nsect t; tf_hob_lbal t; tf_hob_lbam t; tf_hob_lbah t;
   tf_feature t; tf_nsect t; tf_lbal t; tf_lbam t; tf_lbah t; tf_device t; tf_command t].

Ltac set_ok := unfold reg_ok; intros; cbn -[Z.le Z.lt] in *; rewrite !Forall_cons in *; naive_solver.

Lemma ok_flags v t : reg_ok t -> reg_ok (set_flags v t).
Proof. done. Qed.
Lemma ok_protocol v t : 0 <= v < 256 -> reg_ok t -> reg_ok (set_protocol v t).
Proof. set_ok. Qed.
Lemma ok_ctl v t : 0 <= v < 256 -> reg_ok t -> reg_ok (set_ctl v t).
Proof. set_ok. Qed.
Lemma ok_hob_feature v t : 0 <= v < 256 -> reg_ok t -> reg_ok (set_hob_feature v t).
Proof. set_ok. Qed.
Lemma ok_hob_nsect v t : 0 <= v < 256 -> reg_ok t -> reg_ok (set_hob_nsect v t).
Proof. set_ok. Qed.
Lemma ok_hob_lbal v t : 0 <= v < 256 -> reg_ok t -> reg_ok (set_hob_lbal v t).
Proof. set_ok. Qed.
Lemma ok_hob_lbam v t : 0 <= v < 256 -> reg_ok t -> reg_ok (set_hob_lbam v t).
Proof. set_ok. Qed.
Lemma ok_hob_lbah v t : 0 <= v < 256 -> reg_ok t -> reg_ok (set_hob_lbah v t).
Proof. set_ok. Qed.
Lemma ok_feature v t : 0 <= v < 256 -> reg_ok t -> reg_ok (set_feature v t).
Proof. set_ok. Qed.
Lemma ok_nsect v t : 0 <= v < 256 -> reg_ok t -> reg_ok (set_nsect v t).
Proof. set_ok. Qed.
Lemma ok_lbal v t : 0 <= v < 256 -> reg_ok t -> reg_ok (set_lbal v t).
Proof. set_ok. Qed.
Lemma ok_lbam v t : 0 <= v < 256 -> reg_ok t -> reg_ok (set_lbam v t).
Proof. set_ok. Qed.
Lemma ok_lbah v t : 0 <= v < 256 -> reg_ok t -> reg_ok (set_lbah v t).
Proof. set_ok. Qed.
Lemma ok_device v t : 0 <= v < 256 -> reg_ok t -> reg_ok (set_device v t).
Proof. set_ok. Qed.
Lemma ok_command v t : 0 <= v < 256 -> reg_ok t -> reg_ok (set_command v t).
Proof. set_ok. Qed.

Lemma byte_lor x y : 0 <= x < 256 -> 0 <= y < 256 -> 0 <= x |' y < 256.
Proof.
  intros Hx Hy. split; [apply Z.lor_nonneg; lia|].
  destruct (Z.eq_dec (x |' y) 0) as [->|]; [lia|]. change 256 with (2 ^ 8). apply Z.log2_lt_pow2.
  - assert (0 <= x |' y) by (apply Z.lor_nonneg; lia). lia.
  - rewrite Z.log2_lor by lia. assert (forall z, 0 <= z < 256 -> Z.log2 z < 8) as H.
    { intros z Hz. destruct (Z.eq_dec z 0) as [->|]; [done|]. apply Z.log2_lt_pow2; lia. }
    pose proof (H x Hx). pose proof (H y Hy). lia.
Qed.
Lemma byte_land x : 0 <= x & 0xff < 256.
Proof. rewrite byte_0. apply Z.mod_pos_bound. lia. Qed.
Lemma byte_nibble x : 0 <= x & 0xf < 256.
Proof. change 0xf with (Z.ones 4). rewrite Z.land_ones by lia. arith. Qed.
Lemma byte_u8 x : 0 <= u8 x < 256.
Proof. by apply (wrap_range 8). Qed.
Lemma byte_clear x m : 0 <= x < 256 -> 0 <= clear 8 x m < 256.
Proof. intros H. unfold clear. pose proof (land_le_l x (2 ^ 8 - 1 - m)). lia. Qed.
Lemma byte_device t : reg_ok t -> 0 <= tf_device t < 256.
Proof. unfold reg_ok. rewrite !Forall_cons. tauto. Qed.

Create HintDb tf.
#[export] Hint Resolve ok_flags ok_protocol ok_ctl ok_hob_feature ok_hob_nsect ok_hob_lbal ok_hob_lbam ok_hob_lbah ok_feature ok_nsect ok_lbal ok_lbam ok_lbah ok_device ok_command
  byte_lor byte_land byte_nibble byte_u8 byte_clear byte_device : tf.
#[export] Hint Extern 5 (0 <= _ < 256) => (split; [vm_compute; discriminate|reflexivity]) : tf.

Lemma init_ok dev ctl : 0 <= ctl < 256 -> reg_ok (ata_tf_init dev ctl).
Proof. intros H. unfold reg_ok, ata_tf_init. cbn. repeat (apply Forall_cons; split; [try done|]); [by destruct (d_devno dev =? 0)|constructor]. Qed.

Lemma put_low_ok block t : reg_ok t -> reg_ok (put_low block t).
Proof. unfold put_low. auto 10 with tf. Qed.
Lemma put_hob_ok block t : reg_ok t -> reg_ok (put_hob block t).
Proof. unfold put_hob. auto 10 with tf. Qed.
#[export] Hint Resolve put_low_ok put_hob_ok : tf.

Lemma rwcmd_reg_ok dev t r t' : reg_ok t -> ata_rwcmd_protocol dev t = (r, t') -> reg_ok t'.
Proof.
  intros H. unfold ata_rwcmd_protocol.
  assert (forall i, 0 <= byte ata_rw_cmds i < 256) as HB.
  { intros i. apply byte_range, bytes_check. reflexivity. }
  match goal with |- context [let '(_, _) := ?p in _] => assert (reg_ok p.1) as Ha end.
  { repeat case_match; cbn [fst]; auto 10 with tf. }
  revert Ha. match goal with |- context [let '(_, _) := ?p in _] => generalize p end. intros [a z] Ha. cbn in Ha.
  case_match; intros [= <- <-]; auto 10 with tf.
Qed.

Lemma chs_reg_ok dev block n cyl head sect t : 0 < d_heads dev ->
  lba_to_chs dev block = Some (cyl, head, sect) -> reg_ok t -> reg_ok (put_chs n cyl head sect t).
Proof.
  intros Hh E H. assert (0 <= head < 256).
  { unfold lba_to_chs in E. case_match; [done|]. injection E as <- <- <-. unbool.
    pose proof (Z.mod_pos_bound (u32 block / d_sectors dev) (d_heads dev) Hh).
    match goal with H : _ >> 4 = 0 |- _ => rewrite shiftr_div in H by lia end. arith. }
  unfold put_chs. auto 10 with tf.
Qed.

Lemma with_tf_ok tf qc : reg_ok tf -> reg_ok (qc_tf (with_tf tf qc)).
Proof. done. Qed.

Lemma finish_ok_tf r cmd : reg_ok (qc_tf r.2) -> forall n qc cmd', finish r cmd = (n, qc, cmd') -> (n = 0 \/ n = 1) /\ reg_ok (qc_tf qc).
Proof. destruct r as [[] q]; cbn; intros H n qc cmd' [= <- <- <-]; auto. Qed.

Section registers.
Context (dev : ata_device) (cmd : scsi_cmnd) (c : list Z) (Hc : bytes c) (Hh : 0 < d_heads dev).

Lemma rw_regs qc : reg_ok (qc_tf qc) -> forall n qc' cmd', ata_scsi_rw_xlat dev qc cmd c = (n, qc', cmd') ->
  (n = 0 \/ n = 1) /\ reg_ok (qc_tf qc').
Proof.
  intros H n qc' cmd'. unfold ata_scsi_rw_xlat. set (tf := if _ || _ || _ then _ else _).
  assert (Htf : reg_ok tf) by (unfold tf; case_match; auto 10 with tf).
  destruct (rw_decode c tf) as [[[block n_block] tf1]|] eqn:Ed; [|by apply finish_ok_tf].
  assert (H1 : reg_ok tf1).
  { unfold rw_decode in Ed. repeat case_match; simplify_eq; auto with tf. }
  case_match; [by apply finish_ok_tf|]. apply finish_ok_tf.
  case_match; [|case_match].
  - unfold rw_ncq. case_match; [done|]. cbn [fst snd]. apply with_tf_ok. repeat case_match; auto 20 with tf.
  - unfold rw_lba. assert (HF : forall t, reg_ok t -> reg_ok (qc_tf (rw_lba_finish dev block n_block (with_tf tf1
      (with_qflags (qc_flags qc |' ATA_QCFLAG_IO) qc)) t).2)).
    { intros t Ht. unfold rw_lba_finish. destruct (ata_rwcmd_protocol dev t) as [r t'] eqn:E.
      apply rwcmd_reg_ok in E; [|done]. case_match; [done|]. cbn [fst snd]. apply with_tf_ok. auto 20 with tf. }
    repeat case_match; try (apply HF; auto 20 with tf); cbn [fst snd]; apply with_tf_ok; auto 10 with tf.
  - unfold rw_chs. case_match; [done|]. destruct (ata_rwcmd_protocol dev _) as [r t'] eqn:E.
    apply rwcmd_reg_ok in E; [|done]. case_match; [done|].
    destruct (lba_to_chs dev block) as [[[cyl head] sect]|] eqn:El; [|done]. cbn [fst snd]. apply with_tf_ok.
    by eapply chs_reg_ok.
Qed.

Lemma verify_regs qc : reg_ok (qc_tf qc) -> forall n qc' cmd', ata_scsi_verify_xlat dev qc cmd c = (n, qc', cmd') ->
  (n = 0 \/ n = 1) /\ reg_ok (qc_tf qc').
Proof.
  intros H n qc' cmd'. unfold ata_scsi_verify_xlat.
  set (tf := set_protocol _ _). assert (Htf : reg_ok tf) by (unfold tf; auto 10 with tf).
  destruct (if byte c 0 =? VERIFY then _ else _) as [[block n_block]|]; [|by apply finish_ok_tf].
  destruct (n_block =? 0); [by apply finish_ok_tf|].
  destruct (d_n_sectors dev <=? block); [by apply finish_ok_tf|].
  destruct (d_n_sectors dev <? _); [by apply finish_ok_tf|].
  destruct (has (d_flags dev) ATA_DFLAG_LBA).
  - repeat case_match; apply finish_ok_tf; cbn [fst snd]; apply with_tf_ok; auto 20 with tf.
  - case_match; [by apply finish_ok_tf|].
    destruct (lba_to_chs dev block) as [[[cyl head] sect]|] eqn:El; [|by apply finish_ok_tf].
    apply finish_ok_tf. cbn [fst snd]. apply with_tf_ok. eapply chs_reg_ok; [done|done|]. auto with tf.
Qed.

Lemma start_stop_regs qc : reg_ok (qc_tf qc) -> forall n qc' cmd', ata_scsi_start_stop_xlat dev qc cmd c = (n, qc', cmd') ->
  (n = 0 \/ n = 1) /\ reg_ok (qc_tf qc').
Proof.
  intros H n qc' cmd'. unfold ata_scsi_start_stop_xlat.
  repeat case_match; apply finish_ok_tf; cbn [fst snd]; apply with_tf_ok; auto 20 with tf.
Qed.

Lemma flush_regs qc : reg_ok (qc_tf qc) -> forall n qc' cmd', ata_scsi_flush_xlat dev qc cmd c = (n, qc', cmd') ->
  (n = 0 \/ n = 1) /\ reg_ok (qc_tf qc').
Proof.
  intros H n qc' cmd'. unfold ata_scsi_flush_xlat. apply finish_ok_tf. cbn [fst snd]. apply with_tf_ok.
  case_match; auto 20 with tf.
Qed.

Lemma pass_regs qc : reg_ok (qc_tf qc) -> forall n qc' cmd', ata_scsi_pass_thru dev qc cmd c = (n, qc', cmd') ->
  (n = 0 \/ n = 1) /\ reg_ok (qc_tf qc').
Proof.
  intros H n qc' cmd'. unfold ata_scsi_pass_thru. cbn [tf_protocol set_protocol].
  assert (HB : forall i, 0 <= byte c i < 256) by (intros; by apply byte_range).
  assert (HP : 0 <= ata_scsi_map_proto (byte c 1) < 256).
  { destruct (map_proto_cases (byte c 1)) as [->|[->|[->| ->]]]; done. }
  set (tf := set_protocol _ _). assert (Htf : reg_ok tf) by (unfold tf; auto with tf).
  assert (HR : reg_ok (pass_thru_regs c tf)) by (unfold pass_thru_regs; repeat case_match; auto 20 with tf).
  set (tf2 := if has (d_ap_flags dev) _ then _ else _).
  assert (H2 : reg_ok tf2) by (unfold tf2; repeat case_match; auto 20 with tf).
  repeat (case_match; [intros [= <- <- <-]; by auto|]); intros [= <- <- <-]; (split; [auto|]);
    cbn [qc_tf with_qflags with_nsect with_tf]; repeat case_match; auto with tf.
Qed.
End registers.

(** Whatever the CDB, a translation returns 0 or 1 and leaves bytes in the
    registers, so the FIS that carries the command is 20 bytes. *)
Theorem ata_xlat_registers dev ctl tag cmd c func r qc cmd' pmp :
  bytes c -> 0 < d_heads dev -> 0 <= ctl < 256 -> ata_get_xlat_func dev (byte c 0) = Some func ->
  func dev (new_qc dev ctl tag) cmd c = (r, qc, cmd') ->
  (r = 0 \/ r = 1) /\ reg_ok (qc_tf qc) /\
  bytes (ata_tf_to_fis (qc_tf qc) pmp) /\ length (ata_tf_to_fis (qc_tf qc) pmp) = 20%nat.
Proof.
  intros Hc Hh Hctl Hf E.
  assert (HI : reg_ok (qc_tf (new_qc dev ctl tag))) by (by apply init_ok).
  assert ((r = 0 \/ r = 1) /\ reg_ok (qc_tf qc)) as [Hr Hq].
  { unfold ata_get_xlat_func in Hf.
    repeat match type of Hf with context [if ?b then _ else _] => destruct b end; try discriminate Hf; injection Hf as <-.
    - exact (rw_regs dev cmd c Hh _ HI _ _ _ E).
    - exact (flush_regs dev cmd c _ HI _ _ _ E).
    - exact (verify_regs dev cmd c Hh _ HI _ _ _ E).
    - exact (pass_regs dev cmd c Hc _ HI _ _ _ E).
    - exact (start_stop_regs dev cmd c _ HI _ _ _ E). }
  split; [done|]. split; [done|]. split; [|done]. unfold reg_ok in Hq. rewrite !Forall_cons in Hq.
  unfold bytes, ata_tf_to_fis. assert (0 <= (pmp & 0xf) |' 128 < 256) by auto with tf.
  rewrite !Forall_cons, Forall_nil. split_and!; try done; tauto.
Qed.

(** ** Witnesses *)

Definition disk (flags : Z) : ata_device := Dev flags (2 ^ 40) 63 16 0 0x45 1 (replicate 256 0) ATA_FLAG_SLAVE_POSS.
Definition cmd0 : scsi_cmnd := Cmd 0 (replicate SCSI_SENSE_BUFFERSIZE 0) 0 512 2.


Definition read6 : list Z := [READ_6; 1; 0x23; 0x45; 1; 0].

Lemma ata_rw6_wrong_block_witness : exists qc,
  ata_scsi_rw_xlat (disk 1) (new_qc (disk 1) 8 0) cmd0 read6 = (0, qc, cmd0) /\
  device_request (disk 1) (qc_tf qc) = Some (false, tf_protocol (qc_tf qc), 0x2345, 1).
Proof.
  eexists. split; [vm_compute; reflexivity|].
  refine (proj1 (ata_rw6_wrong_block (disk 1) 8 0 cmd0 read6 false 0x12345 1 0 _ cmd0 _ _ _ _ _ _ _)).
  - apply bytes_check. reflexivity.
  - split; cbn; lia.
  - vm_compute. reflexivity.
  - reflexivity.
  - lia.
  - vm_compute. reflexivity.
  - reflexivity.
Defined.

(** WRITE(16) of two blocks from the last 64-bit block. *)
Definition write16 : list Z := [WRITE_16; 0; 255; 255; 255; 255; 255; 255; 255; 255; 0; 0; 0; 2; 0; 0].
Lemma ata_rw16_wraps_witness : exists qc,
  ata_scsi_rw_xlat (disk 1) (new_qc (disk 1) 8 0) cmd0 write16 = (0, qc, cmd0) /\
  device_request (disk 1) (qc_tf qc) = Some (true, tf_protocol (qc_tf qc), 0xfffffff, 2).
Proof.
  apply (ata_rw16_wraps (disk 1) 8 0 cmd0 write16 true 0xffffffffffffffff 2).
  - apply bytes_check. reflexivity.
  - vm_compute. reflexivity.
  - right. reflexivity.
  - reflexivity.
  - reflexivity.
  - reflexivity.
  - lia.
  - lia.
Defined.

(** VERIFY(10) of five blocks from 1000 of a disk without LBA. *)
Definition verify10 : list Z := [VERIFY; 0; 0; 0; 3; 0xe8; 0; 0; 5; 0].
Lemma ata_verify_xlat_correct_witness : exists qc,
  ata_scsi_verify_xlat (disk 0) (new_qc (disk 0) 8 0) cmd0 verify10 = (0, qc, cmd0) /\
  device_request (disk 0) (qc_tf qc) = Some (false, ATA_PROT_NODATA, 1000, 5).
Proof.
  destruct (ata_verify_xlat_correct (disk 0) 8 0 cmd0 verify10 1000 5) as (r & qc & cmd' & E & H).
  - apply bytes_check. reflexivity.
  - split; cbn; lia.
  - cbn. lia.
  - vm_compute. reflexivity.
  - assert (r = 0) as -> by (vm_compute in E; by injection E as <- _ _).
    exists qc. destruct H as (-> & _ & H). done.
Defined.

(** READ DMA EXT through the 16-byte pass-through CDB. *)
Definition pass16 : list Z := [ATA_16; 0x0d; 0; 0x11; 0x22; 0x33; 0x44; 0x55; 0x66; 0x77; 0x88; 0x99; 0xaa; 0x40; 0x25; 0].
Definition pass_result := ata_scsi_pass_thru (disk 3) (new_qc (disk 3) 8 0) cmd0 pass16.

Lemma ata_pass_thru_guards_witness :
  pass_result.1.1 = 0 /\ Z.testbit (tf_device (qc_tf pass_result.1.2)) 4 = true.
Proof.
  split; [vm_compute; reflexivity|].
  destruct (ata_pass_thru_guards (disk 3) 8 0 cmd0 pass16 pass_result.1.1 pass_result.1.2 pass_result.2) as [[H _]|H].
  - apply bytes_check. reflexivity.
  - vm_compute. reflexivity.
  - vm_compute in H. discriminate H.
  - destruct H as (_ & _ & _ & _ & H & _). exact (H eq_refl).
Defined.

Definition fis1 : list Z := [0x34; 0; 0x50; 0; 1; 2; 3; 0x40; 4; 5; 6; 0; 7; 8; 0; 0; 0; 0; 0; 0].
Lemma ata_pass_thru_registers_witness :
  byte (ata_tf_to_fis (qc_tf pass_result.1.2) 0) 4 = 0x66 /\
  result_regs fis1 (sc_sense (qc_sense pass16 true 0
    (ata_tf_from_fis fis1 (set_flags (tf_flags (qc_tf pass_result.1.2)) (ata_tf_init (disk 3) 8))) cmd0)) true.
Proof.
  split; [vm_compute; reflexivity|].
  refine (proj2 (ata_pass_thru_registers (disk 3) 8 0 cmd0 pass16 pass_result.1.1 pass_result.1.2 pass_result.2
    0 fis1 (ata_tf_init (disk 3) 8) 0 _ _ _ _)); vm_compute; reflexivity.
Defined.

Lemma ata_xlat_registers_witness :
  bytes (ata_tf_to_fis (qc_tf pass_result.1.2) 0) /\ length (ata_tf_to_fis (qc_tf pass_result.1.2) 0) = 20%nat.
Proof.
  refine (proj2 (proj2 (ata_xlat_registers (disk 3) 8 0 cmd0 pass16 ata_scsi_pass_thru pass_result.1.1 pass_result.1.2
    pass_result.2 0 _ _ _ _ _))).
  - apply bytes_check. reflexivity.
  - cbn. lia.
  - lia.
  - reflexivity.
  - vm_compute. reflexivity.
Defined.
