(* ===== verification/AtaSim.v ===== *)
(** SCSI commands libata answers itself: the simulator of
    [drivers/ata/libata-scsi.c].

    The response buffer is the list of its bytes; a store outside it makes the
    computation fail, as the code would overwrite other memory or fault. *)

From S2P Require Import Prelude AtaTf.
Local Open Scope Z_scope.
Local Open Scope cint_scope.

(** ** Constants *)

Definition TEST_UNIT_READY : Z := 0x00.
Definition REZERO_UNIT : Z := 0x01.
Definition FORMAT_UNIT : Z := 0x04.
Definition SEEK_6 : Z := 0x0b.
Definition INQUIRY : Z := 0x12.
Definition MODE_SELECT : Z := 0x15.
Definition RESERVE : Z := 0x16.
Definition RELEASE : Z := 0x17.
Definition MODE_SENSE : Z := 0x1a.
Definition SEND_DIAGNOSTIC : Z := 0x1d.
Definition READ_CAPACITY : Z := 0x25.
Definition SEEK_10 : Z := 0x2b.
Definition MODE_SELECT_10 : Z := 0x55.
Definition RESERVE_10 : Z := 0x56.
Definition RELEASE_10 : Z := 0x57.
Definition MODE_SENSE_10 : Z := 0x5a.
Definition PERSISTENT_RESERVE_IN : Z := 0x5e.
Definition PERSISTENT_RESERVE_OUT : Z := 0x5f.
Definition REPORT_LUNS : Z := 0xa0.
Definition SERVICE_ACTION_IN : Z := 0x9e.
Definition SAI_READ_CAPACITY_16 : Z := 0x10.
Definition TYPE_DISK : Z := 0x00.

Definition RW_RECOVERY_MPAGE : Z := 0x1.
Definition CACHE_MPAGE : Z := 0x8.
Definition CONTROL_MPAGE : Z := 0xa.
Definition ALL_MPAGES : Z := 0x3f.
Definition ALL_SUB_MPAGES : Z := 0xff.

Definition ATA_ID_SERNO_OFS : nat := 10.
Definition ATA_ID_FW_REV_OFS : nat := 23.
Definition ATA_ID_PROD_OFS : nat := 27.
Definition ATA_SERNO_LEN : nat := 20.

Definition def_rw_recovery_mpage : list Z := [RW_RECOVERY_MPAGE; 10; 128 |' 64; 0; 0; 0; 0; 0; 0; 0; 0; 0].
Definition def_cache_mpage : list Z := [CACHE_MPAGE; 18; 0; 0; 0; 0; 0; 0; 0; 0; 0; 0; 0; 0; 0; 0; 0; 0; 0; 0].
Definition def_control_mpage : list Z := [CONTROL_MPAGE; 10; 2; 0; 0; 0; 0; 0; 0xff; 0xff; 0; 30].

(** ** Buffers *)

Definition wr (i : nat) (v : Z) (b : list Z) : option (list Z) :=
  if decide (i < length b)%nat then Some (<[i := v]> b) else None.
Definition rd (i : nat) (b : list Z) : option Z := b !! i.

(** [memcpy(b + i, src, sizeof src)] *)
Fixpoint memcpy (i : nat) (src : list Z) (b : list Z) : option (list Z) :=
  match src with
  | [] => Some b
  | v :: src => b ← wr i v b; memcpy (S i) src b
  end.

(** [if (len > n) ...], on the response buffer. *)
Definition when (c : bool) (f : list Z -> option (list Z)) (b : list Z) : option (list Z) :=
  if c then f b else Some b.
Definition longer (b : list Z) (n : nat) : bool := (n <? length b)%nat.

(** ** Strings of the IDENTIFY page *)

Definition ata_id_removeable (id : list Z) : bool := has (id_word id 0) 128.
Definition ata_id_rahead_enabled (id : list Z) : bool := has (id_word id 85) 64.
Definition ata_id_has_fua (id : list Z) : bool := has (id_word id 84) 64.

(** The [len] bytes it outputs; [len] is even. *)
Fixpoint ata_id_string (id : list Z) (ofs len : nat) : list Z :=
  match len with
  | S (S len) => u8 (id_word id ofs >> 8) :: u8 (id_word id ofs & 0xff) :: ata_id_string id (S ofs) len
  | _ => []
  end.

Fixpoint strnlen (s : list Z) (max : nat) : nat :=
  match s, max with
  | c :: s, S max => if c =? 0 then 0 else S (strnlen s max)
  | _, _ => 0
  end.

(** [while (p > s && p[-1] == ' ') p--;] *)
Fixpoint trim_spaces (s : list Z) (p : nat) : nat :=
  match p with
  | S q => if byte s q =? 32 then trim_spaces s q else p
  | O => 0
  end.

(** The string up to its terminator. *)
Definition ata_id_c_string (id : list Z) (ofs len : nat) : list Z :=
  let s := ata_id_string id ofs (len - 1) in
  take (trim_spaces s (strnlen s (len - 1))) s.

Definition Maxtor : list Z := [77; 97; 120; 116; 111; 114].
Definition BANC1G10 : list Z := [66; 65; 78; 67; 49; 71; 49; 48].

Definition ata_dev_supports_fua (libata_fua : bool) (id : list Z) : bool :=
  if negb libata_fua then false else
  if negb (ata_id_has_fua id) then false else
  let model := ata_id_c_string id ATA_ID_PROD_OFS 41 in
  let fw := ata_id_c_string id ATA_ID_FW_REV_OFS 9 in
  if negb (bool_decide (model = Maxtor)) then true else
  if negb (bool_decide (fw = BANC1G10)) then true else false.

(** ** Simulators

    Each returns its value, the response buffer and the command. *)

Definition with_resid (r : Z) (cmd : scsi_cmnd) : scsi_cmnd :=
  Cmd (sc_result cmd) (sc_sense cmd) r (sc_request_bufflen cmd) (sc_data_direction cmd).
Definition with_result (r : Z) (cmd : scsi_cmnd) : scsi_cmnd :=
  Cmd r (sc_sense cmd) (sc_resid cmd) (sc_request_bufflen cmd) (sc_data_direction cmd).

Definition answer : Type := option (Z * list Z * scsi_cmnd).
Definition len (b : list Z) : Z := Z.of_nat (length b).

Definition ATA_vendor : list Z := [65; 84; 65; 32; 32; 32; 32; 32].

Section actors.
Context (libata_fua : bool) (dev : ata_device) (c : list Z).

Definition ata_scsiop_inq_std (rbuf : list Z) (cmd : scsi_cmnd) : answer :=
  let hdr := [TYPE_DISK; if ata_id_removeable (d_id dev) then 128 else 0; 0x5; 2; 95 - 4] in
  let buflen := len rbuf in
  if buflen <? 5 then Some (0, rbuf, with_resid buflen cmd) else
  rbuf ← memcpy 0 hdr rbuf;
  rbuf ← when (longer rbuf 35) (fun rbuf =>
    rbuf ← memcpy 8 ATA_vendor rbuf;
    rbuf ← memcpy 16 (ata_id_string (d_id dev) ATA_ID_PROD_OFS 16) rbuf;
    rbuf ← memcpy 32 (ata_id_string (d_id dev) ATA_ID_FW_REV_OFS 4) rbuf;
    x ← rd 32 rbuf;
    if (x =? 0) || (x =? 32) then memcpy 32 [110; 47; 97; 32] rbuf else Some rbuf) rbuf;
  rbuf ← when (longer rbuf 63) (memcpy 59 [0x60; 0x03; 0x20; 0x02; 0x60]) rbuf;
  Some (0, rbuf, with_resid
    (if 95 <? buflen then buflen - 96 else if 63 <? buflen then buflen - 64
     else if 35 <? buflen then buflen - 36 else buflen - 5) cmd).

Definition ata_scsiop_inq_00 (rbuf : list Z) (cmd : scsi_cmnd) : answer :=
  let pages := [0x00; 0x80; 0x83] in
  rbuf ← wr 3 3 rbuf;
  rbuf ← when (longer rbuf 6) (memcpy 4 pages) rbuf;
  Some (0, rbuf, with_resid (if 6 <? len rbuf then len rbuf - 7 else len rbuf) cmd).

Definition ata_scsiop_inq_80 (rbuf : list Z) (cmd : scsi_cmnd) : answer :=
  let hdr := [0; 0x80; 0; Z.of_nat ATA_SERNO_LEN] in
  rbuf ← memcpy 0 hdr rbuf;
  rbuf ← when (longer rbuf (ATA_SERNO_LEN + 4 - 1))
    (memcpy 4 (ata_id_string (d_id dev) ATA_ID_SERNO_OFS ATA_SERNO_LEN)) rbuf;
  Some (0, rbuf, with_resid (if 23 <? len rbuf then len rbuf - 24 else len rbuf) cmd).

Definition ata_scsiop_inq_83 (rbuf : list Z) (cmd : scsi_cmnd) : answer :=
  rbuf ← wr 1 0x83 rbuf;
  let num := 4%nat in
  '(num, rbuf) ←
    (if longer rbuf (ATA_SERNO_LEN + num + 3) then
       rbuf ← wr (num + 0) 2 rbuf;
       rbuf ← wr (num + 3) (Z.of_nat ATA_SERNO_LEN) rbuf;
       let num := (num + 4)%nat in
       rbuf ← memcpy num (ata_id_string (d_id dev) ATA_ID_SERNO_OFS ATA_SERNO_LEN) rbuf;
       Some ((num + ATA_SERNO_LEN)%nat, rbuf)
     else Some (num, rbuf));
  '(num, rbuf) ←
    (if longer rbuf (68 + num + 3) then
       rbuf ← wr (num + 0) 2 rbuf;
       rbuf ← wr (num + 1) 1 rbuf;
       rbuf ← wr (num + 3) 68 rbuf;
       let num := (num + 4)%nat in
       rbuf ← memcpy num ATA_vendor rbuf;
       let num := (num + 8)%nat in
       rbuf ← memcpy num (ata_id_string (d_id dev) ATA_ID_PROD_OFS 40) rbuf;
       let num := (num + 40)%nat in
       rbuf ← memcpy num (ata_id_string (d_id dev) ATA_ID_SERNO_OFS ATA_SERNO_LEN) rbuf;
       Some ((num + ATA_SERNO_LEN)%nat, rbuf)
     else Some (num, rbuf));
  rbuf ← wr 3 (Z.of_nat num - 4) rbuf;
  Some (0, rbuf, with_resid (if Z.of_nat num <=? len rbuf then len rbuf - Z.of_nat num else len rbuf) cmd).

Definition ata_scsiop_noop (rbuf : list Z) (cmd : scsi_cmnd) : answer := Some (0, rbuf, cmd).

(** [last] is the index of the last byte that may be written. *)
Definition ata_msense_push (p : nat) (last : Z) (page : list Z) (rbuf : list Z) : option (nat * list Z) :=
  if last <? Z.of_nat p + len page - 1 then Some (p, rbuf) else
  rbuf ← memcpy p page rbuf; Some ((p + length page)%nat, rbuf).

Definition caching_page (id : list Z) : list Z :=
  let page := def_cache_mpage in
  let page := if ata_id_wcache_enabled id then <[2%nat := byte page 2 |' 4]> page else page in
  if negb (ata_id_rahead_enabled id) then <[12%nat := byte page 12 |' 32]> page else page.

(** Each returns the length of its page, the place after it and the buffer. *)
Definition ata_msense_caching (p : nat) (last : Z) (rbuf : list Z) : option (Z * nat * list Z) :=
  '(p, rbuf) ← ata_msense_push p last (caching_page (d_id dev)) rbuf; Some (20, p, rbuf).
Definition ata_msense_ctl_mode (p : nat) (last : Z) (rbuf : list Z) : option (Z * nat * list Z) :=
  '(p, rbuf) ← ata_msense_push p last def_control_mpage rbuf; Some (12, p, rbuf).
Definition ata_msense_rw_recovery (p : nat) (last : Z) (rbuf : list Z) : option (Z * nat * list Z) :=
  '(p, rbuf) ← ata_msense_push p last def_rw_recovery_mpage rbuf; Some (12, p, rbuf).

(** The switch on the page code; [None] inside is the invalid page. *)
Definition mode_pages (pg : Z) (output_len : Z) (p : nat) (last : Z) (rbuf : list Z) : option (option (Z * list Z)) :=
  if pg =? RW_RECOVERY_MPAGE then
    '(n, p, rbuf) ← ata_msense_rw_recovery p last rbuf; Some (Some (output_len + n, rbuf))
  else if pg =? CACHE_MPAGE then
    '(n, p, rbuf) ← ata_msense_caching p last rbuf; Some (Some (output_len + n, rbuf))
  else if pg =? CONTROL_MPAGE then
    '(n, p, rbuf) ← ata_msense_ctl_mode p last rbuf; Some (Some (output_len + n, rbuf))
  else if pg =? ALL_MPAGES then
    '(n1, p, rbuf) ← ata_msense_rw_recovery p last rbuf;
    '(n2, p, rbuf) ← ata_msense_caching p last rbuf;
    '(n3, p, rbuf) ← ata_msense_ctl_mode p last rbuf;
    Some (Some (output_len + n1 + n2 + n3, rbuf))
  else Some None.

Definition sat_blk_desc : list Z := [0; 0; 0; 0; 0; 0; 0x2; 0x0].

(** [rbuf[i] |= v] *)
Definition or_at (i : nat) (v : Z) (b : list Z) : option (list Z) := x ← rd i b; wr i (x |' v) b.

Definition ata_scsiop_mode_sense (rbuf : list Z) (cmd : scsi_cmnd) : answer :=
  let buflen := len rbuf in
  let six_byte := byte c 0 =? MODE_SENSE in
  let ebd := negb (has (byte c 1) 8) in
  let invalid_fld rbuf := Some (1, rbuf, ata_scsi_set_sense cmd ILLEGAL_REQUEST 0x24 0) in
  let page_control := byte c 2 >> 6 in
  if page_control =? 3 then Some (1, rbuf, ata_scsi_set_sense cmd ILLEGAL_REQUEST 0x39 0) else
  if negb (page_control =? 0) then invalid_fld rbuf else
  let output_len := (if six_byte then 4 else 8) + (if ebd then 8 else 0) in
  let alloc_len := if six_byte then byte c 4 else (byte c 7 << 8) + byte c 8 in
  let minlen := if alloc_len <? buflen then alloc_len else buflen in
  let pg := byte c 2 & 0x3f in
  let spg := byte c 3 in
  if negb (spg =? 0) && negb (spg =? ALL_SUB_MPAGES) then invalid_fld rbuf else
  r ← mode_pages pg output_len (Z.to_nat output_len) (minlen - 1) rbuf;
  match r with
  | None => invalid_fld rbuf
  | Some (output_len, rbuf) =>
    if minlen <? 1 then Some (0, rbuf, with_resid buflen cmd) else
    let cmd := with_resid (if output_len <? minlen then buflen - output_len else buflen - minlen) cmd in
    let dpofua :=
      if ata_dev_supports_fua libata_fua (d_id dev) && has (d_flags dev) ATA_DFLAG_LBA48 &&
        (negb (has (d_flags dev) ATA_DFLAG_PIO) || negb (d_multi_count dev =? 0)) then 16 else 0 in
    rbuf ←
      (if six_byte then
         let output_len := output_len - 1 in
         rbuf ← wr 0 (u8 output_len) rbuf;
         rbuf ← when (2 <? minlen) (or_at 2 dpofua) rbuf;
         when ebd (fun rbuf =>
           rbuf ← when (3 <? minlen) (wr 3 8) rbuf;
           when (11 <? minlen) (memcpy 4 sat_blk_desc) rbuf) rbuf
       else
         let output_len := output_len - 2 in
         rbuf ← wr 0 (u8 (output_len >> 8)) rbuf;
         rbuf ← when (1 <? minlen) (wr 1 (u8 output_len)) rbuf;
         rbuf ← when (3 <? minlen) (or_at 3 dpofua) rbuf;
         when ebd (fun rbuf =>
           rbuf ← when (7 <? minlen) (wr 7 8) rbuf;
           when (15 <? minlen) (memcpy 8 sat_blk_desc) rbuf) rbuf);
    Some (0, rbuf, cmd)
  end.

(** [ATA_SCSI_RBUF_SET(idx, val)] *)
Definition ATA_SCSI_RBUF_SET (idx : nat) (v : Z) (rbuf : list Z) : option (list Z) :=
  when (longer rbuf idx) (wr idx (u8 v)) rbuf.
Fixpoint rbuf_sets (l : list (nat * Z)) (rbuf : list Z) : option (list Z) :=
  match l with [] => Some rbuf | (i, v) :: l => rbuf ← ATA_SCSI_RBUF_SET i v rbuf; rbuf_sets l rbuf end.

Definition ata_scsiop_read_cap (rbuf : list Z) (cmd : scsi_cmnd) : answer :=
  let last_lba := u64 (d_n_sectors dev - 1) in
  let buflen := len rbuf in
  let need := if byte c 0 =? READ_CAPACITY then 8 else 32 in
  if buflen <? need then Some (0, rbuf, with_resid buflen cmd) else
  let cmd := with_resid (buflen - need) cmd in
  if byte c 0 =? READ_CAPACITY then
    let last_lba := if 0xffffffff <=? last_lba then 0xffffffff else last_lba in
    rbuf ← rbuf_sets [(0%nat, last_lba >> 24); (1%nat, last_lba >> 16); (2%nat, last_lba >> 8); (3%nat, last_lba);
      (6%nat, ATA_SECT_SIZE >> 8); (7%nat, ATA_SECT_SIZE)] rbuf;
    Some (0, rbuf, cmd)
  else
    rbuf ← rbuf_sets [(0%nat, last_lba >> 56); (1%nat, last_lba >> 48); (2%nat, last_lba >> 40); (3%nat, last_lba >> 32);
      (4%nat, last_lba >> 24); (5%nat, last_lba >> 16); (6%nat, last_lba >> 8); (7%nat, last_lba);
      (10%nat, ATA_SECT_SIZE >> 8); (11%nat, ATA_SECT_SIZE)] rbuf;
    Some (0, rbuf, cmd).

Definition ata_scsiop_report_luns (rbuf : list Z) (cmd : scsi_cmnd) : answer :=
  let cmd := with_resid (if len rbuf <? 16 then len rbuf else len rbuf - 16) cmd in
  rbuf ← wr 3 8 rbuf;
  Some (0, rbuf, cmd).

(** ** The simulator *)

(** The memory of the request: one buffer ([use_sg] is 0), or the elements of a
    scatter-gather list. *)
Inductive request := Buffer (mem : list Z) | Scattered (sg : list (list Z)).

(** The command, the memory of its request, and how often the completion function
    was called. *)
Record sim := Sim { s_cmd : scsi_cmnd; s_data : request; s_done : nat }.

(** The copies between the elements of a scatter-gather list and a block of
    memory, from byte [i] of the block on. *)
Fixpoint sg_gather (sg : list (list Z)) (i : nat) (buf : list Z) : option (list Z) :=
  match sg with
  | [] => Some buf
  | seg :: sg => buf ← memcpy i seg buf; sg_gather sg (i + length seg) buf
  end.
Fixpoint sg_scatter (sg : list (list Z)) (i : nat) (buf : list Z) : option (list (list Z)) :=
  match sg with
  | [] => Some []
  | seg :: sg =>
      if decide (i + length seg <= length buf)%nat
      then rest ← sg_scatter sg (i + length seg) buf; Some (take (length seg) (drop i buf) :: rest)
      else None
  end.

(** A scattered request is copied through a block from [kmalloc] (what the block
    holds is overwritten, by the copy or by the caller); with no block the response
    buffer is NULL and its length 0. *)
Definition ata_scsi_rbuf_get (kmalloc_ok : bool) (s : sim) : option (list Z) :=
  let buflen := Z.to_nat (sc_request_bufflen (s_cmd s)) in
  match s_data s with
  | Scattered sg => if kmalloc_ok then sg_gather sg 0 (replicate buflen 0) else Some []
  | Buffer mem => if decide (buflen <= length mem)%nat then Some (take buflen mem) else None
  end.
Definition ata_scsi_rbuf_put (kmalloc_ok : bool) (s : sim) (rbuf : list Z) : option request :=
  match s_data s with
  | Scattered sg => if kmalloc_ok then Scattered <$> sg_scatter sg 0 rbuf else Some (Scattered sg)
  | Buffer mem => Some (Buffer (rbuf ++ drop (length rbuf) mem))
  end.

Definition ata_scsi_rbuf_fill (kmalloc_ok : bool)
    (actor : list Z -> scsi_cmnd -> answer) (s : sim) : option sim :=
  rbuf ← ata_scsi_rbuf_get kmalloc_ok s;
  let rbuf := replicate (length rbuf) 0 in
  '(rc, rbuf, cmd) ← actor rbuf (s_cmd s);
  data ← ata_scsi_rbuf_put kmalloc_ok s rbuf;
  let cmd := if rc =? 0 then with_result SAM_STAT_GOOD cmd else cmd in
  Some (Sim cmd data (S (s_done s))).

Definition complete (cmd : scsi_cmnd) (s : sim) : option sim := Some (Sim cmd (s_data s) (S (s_done s))).
Definition ata_scsi_invalid_field (s : sim) : option sim :=
  complete (ata_scsi_set_sense (s_cmd s) ILLEGAL_REQUEST 0x24 0) s.

Definition ata_scsi_simulate (kmalloc_ok : bool) (s : sim) : option sim :=
  let fill := ata_scsi_rbuf_fill kmalloc_ok in
  let op := byte c 0 in
  if existsb (Z.eqb op) [SYNCHRONIZE_CACHE; REZERO_UNIT; SEEK_6; SEEK_10; TEST_UNIT_READY; FORMAT_UNIT; SEND_DIAGNOSTIC]
  then fill ata_scsiop_noop s
  else if op =? INQUIRY then
    if has (byte c 1) 2 then ata_scsi_invalid_field s
    else if byte c 1 & 1 =? 0 then fill ata_scsiop_inq_std s
    else if byte c 2 =? 0x00 then fill ata_scsiop_inq_00 s
    else if byte c 2 =? 0x80 then fill ata_scsiop_inq_80 s
    else if byte c 2 =? 0x83 then fill ata_scsiop_inq_83 s
    else ata_scsi_invalid_field s
  else if (op =? MODE_SENSE) || (op =? MODE_SENSE_10) then fill ata_scsiop_mode_sense s
  else if (op =? MODE_SELECT) || (op =? MODE_SELECT_10) then ata_scsi_invalid_field s
  else if op =? READ_CAPACITY then fill ata_scsiop_read_cap s
  else if op =? SERVICE_ACTION_IN then
    if byte c 1 & 0x1f =? SAI_READ_CAPACITY_16 then fill ata_scsiop_read_cap s else ata_scsi_invalid_field s
  else if op =? REPORT_LUNS then fill ata_scsiop_report_luns s
  else if op =? PERSISTENT_RESERVE_IN then
    complete (with_result SAM_STAT_GOOD (with_resid (sc_request_bufflen (s_cmd s)) (s_cmd s))) s
  else if existsb (Z.eqb op) [PERSISTENT_RESERVE_OUT; RESERVE; RESERVE_10; RELEASE; RELEASE_10] then
    complete (with_result SAM_STAT_GOOD (s_cmd s)) s
  else complete (ata_scsi_set_sense (s_cmd s) ILLEGAL_REQUEST 0x20 0) s.
End actors.

(** ** Stores inside the buffer *)

(** A step that succeeds and keeps the length of the buffer. *)
Definition fits (b : list Z) (r : option (list Z)) : Prop := exists b', r = Some b' /\ length b' = length b.

Lemma wr_fits i v b : (i < length b)%nat -> fits b (wr i v b).
Proof. intros H. exists (<[i:=v]> b). unfold wr. rewrite decide_True by done. by rewrite length_insert. Qed.

Lemma memcpy_fits i src b : (i + length src <= length b)%nat -> fits b (memcpy i src b).
Proof.
  revert i b; induction src as [|v src IH]; intros i b H; [by exists b|]. cbn in H |- *.
  destruct (wr_fits i v b) as (b1 & -> & L1); [lia|]. cbn [mbind option_bind].
  destruct (IH (S i) b1) as (b2 & -> & L2); [lia|]. exists b2. by rewrite L2.
Qed.

Lemma when_fits c f b : (c = true -> fits b (f b)) -> fits b (when c f b).
Proof. destruct c; cbn; [auto|]. intros _. by exists b. Qed.

Lemma or_at_fits i v b : (i < length b)%nat -> fits b (or_at i v b).
Proof.
  intros H. unfold or_at, rd. destruct (lookup_lt_is_Some_2 b i H) as [x ->]. by apply wr_fits.
Qed.

Lemma fits_bind b r f : fits b r -> (forall b', length b' = length b -> fits b (f b')) -> fits b (r ≫= f).
Proof. intros (b' & -> & L) H. cbn. by apply H. Qed.

Lemma fits_len b b' r : length b' = length b -> fits b' r -> fits b r.
Proof. intros L (x & -> & Hx). exists x. split; [done|]. congruence. Qed.

Lemma longer_true b n : longer b n = true <-> (n < length b)%nat.
Proof. apply Nat.ltb_lt. Qed.

Lemma length_id_string id ofs n m : (m = 2 * n)%nat -> length (ata_id_string id ofs m) = m.
Proof.
  intros ->. revert ofs; induction n as [|n IH]; intros ofs; [done|]. replace (2 * S n)%nat with (S (S (2 * n))) by lia.
  cbn [ata_id_string length]. by rewrite IH.
Qed.

Lemma fits_some b b' : length b' = length b -> fits b (Some b').
Proof. intros L. by exists b'. Qed.

Definition answered (b : list Z) (r : answer) : Prop :=
  exists rc b' cmd, r = Some (rc, b', cmd) /\ length b' = length b /\ (rc = 0 \/ sc_result cmd = check_condition).

Lemma answered_now b b' cmd : length b' = length b -> answered b (Some (0, b', cmd)).
Proof. intros L. exists 0, b', cmd. auto. Qed.

Lemma answered_refusal b b' cmd sk asc ascq : length b' = length b ->
  answered b (Some (1, b', ata_scsi_set_sense cmd sk asc ascq)).
Proof. intros L. eexists 1, b', _. split; [reflexivity|]. split; [done|]. by right. Qed.

Lemma answered_bind b (r : option (list Z)) f :
  fits b r -> (forall b', length b' = length b -> answered b (f b')) -> answered b (r ≫= f).
Proof. intros (b' & -> & L) H. cbn. by apply H. Qed.

(** The same for steps that return more than the buffer. *)
Definition fits_pair {A} (b : list Z) (r : option (A * list Z)) : Prop :=
  exists x b', r = Some (x, b') /\ length b' = length b.

Lemma fits_pair_now {A} (x : A) b b' : length b' = length b -> fits_pair b (Some (x, b')).
Proof. intros L. by exists x, b'. Qed.

Lemma fits_pair_bind {A} b (r : option (list Z)) (f : list Z -> option (A * list Z)) :
  fits b r -> (forall b', length b' = length b -> fits_pair b (f b')) -> fits_pair b (r ≫= f).
Proof. intros (b' & -> & L) H. cbn. by apply H. Qed.

Lemma answered_pair_bind {A} b (r : option (A * list Z)) f :
  fits_pair b r -> (forall x b', length b' = length b -> answered b (f (x, b'))) -> answered b (r ≫= f).
Proof. intros (x & b' & -> & L) H. cbn. by apply H. Qed.

(** What a store may assume about the buffer. *)
Ltac room := unfold longer, len, ATA_SERNO_LEN in *; cbn [length ATA_vendor sat_blk_desc] in *; unbool;
  rewrite ?Nat.ltb_lt in *; try lia.

(** Chains of stores are inside when each is. *)
Ltac stores := repeat match goal with
  | |- answered ?b (Some (0, _, _)) => apply answered_now; congruence
  | |- answered ?b (_ ≫= _) => apply answered_bind; [|intros ? ?]
  | |- fits_pair ?b (Some (_, _)) => apply fits_pair_now; congruence
  | |- fits_pair ?b (_ ≫= _) => apply fits_pair_bind; [|intros ? ?]
  | |- fits ?b (when _ _ ?b') => apply (fits_len b b'); [congruence|]; apply when_fits; intros ?
  | |- fits ?b (Some _) => apply fits_some; congruence
  | |- fits ?b (wr _ _ ?b') => apply (fits_len b b'); [congruence|]; apply wr_fits; try solve [room]
  | |- fits ?b (or_at _ _ ?b') => apply (fits_len b b'); [congruence|]; apply or_at_fits; try solve [room]
  | |- fits ?b (memcpy _ _ ?b') => apply (fits_len b b'); [congruence|]; apply memcpy_fits; try solve [room]
  | |- fits ?b (_ ≫= _) => apply fits_bind; [|intros ? ?; eapply fits_len; [eassumption|]]
  end.

Section answers.
Context (libata_fua : bool) (dev : ata_device) (c : list Z) (rbuf : list Z) (cmd : scsi_cmnd).

Lemma rd_bind {A} i (b : list Z) (f : Z -> option A) : (i < length b)%nat -> rd i b ≫= f = f (byte b i).
Proof.
  intros H. unfold rd. destruct (lookup_lt_is_Some_2 b i H) as [x Hx]. rewrite Hx. cbn. f_equal.
  symmetry. by apply nth_lookup_Some.
Qed.

Lemma inq_std_answers : answered rbuf (ata_scsiop_inq_std dev rbuf cmd).
Proof.
  unfold ata_scsiop_inq_std. destruct (Z.ltb_spec (len rbuf) 5) as [|H5]; [by apply answered_now|].
  stores.
  - rewrite (length_id_string _ _ 8) by done. room.
  - rewrite (length_id_string _ _ 2) by done. room.
  - rewrite rd_bind by room. case_match; stores.
Qed.

Lemma inq_00_answers : (4 <= length rbuf)%nat -> answered rbuf (ata_scsiop_inq_00 rbuf cmd).
Proof. intros H. unfold ata_scsiop_inq_00. stores. Qed.

Lemma inq_80_answers : (4 <= length rbuf)%nat -> answered rbuf (ata_scsiop_inq_80 dev rbuf cmd).
Proof. intros H. unfold ata_scsiop_inq_80. stores. rewrite (length_id_string _ _ 10) by done. room. Qed.

Lemma luns_answers : (4 <= length rbuf)%nat -> answered rbuf (ata_scsiop_report_luns rbuf cmd).
Proof. intros H. unfold ata_scsiop_report_luns. stores. Qed.

Lemma rbuf_sets_fits l b : fits b (rbuf_sets l b).
Proof.
  revert b; induction l as [|[i v] l IH]; intros b; [by exists b|]. cbn [rbuf_sets]. unfold ATA_SCSI_RBUF_SET.
  apply fits_bind; [stores|]. intros b' L. apply (fits_len _ b'); [done|apply IH].
Qed.

Lemma read_cap_answers : answered rbuf (ata_scsiop_read_cap dev c rbuf cmd).
Proof.
  unfold ata_scsiop_read_cap. case_match; [by apply answered_now|].
  case_match; (apply answered_bind; [apply rbuf_sets_fits|]; intros; by apply answered_now).
Qed.

Lemma inq_83_answers : (4 <= length rbuf)%nat -> answered rbuf (ata_scsiop_inq_83 dev rbuf cmd).
Proof.
  intros H. unfold ata_scsiop_inq_83. apply answered_bind; [stores|]. intros b1 L1. cbv zeta.
  apply answered_pair_bind.
  { destruct (longer b1 _) eqn:E1; stores. rewrite (length_id_string _ _ 10) by done. room. }
  intros num b2 L2. apply answered_pair_bind.
  { destruct (longer b2 _) eqn:E2; stores.
    - rewrite (length_id_string _ _ 20) by done. room.
    - rewrite (length_id_string _ _ 10) by done. room. }
  intros num' b3 L3. stores.
Qed.

Lemma msense_push_fits p last page b :
  last < len b -> fits_pair b (ata_msense_push p last page b).
Proof.
  intros Hl. unfold ata_msense_push. destruct (Z.ltb_spec last (Z.of_nat p + len page - 1)); [by apply fits_pair_now|].
  apply fits_pair_bind; [apply memcpy_fits; unfold len in *; lia|]. intros b' L. by apply fits_pair_now.
Qed.

Lemma mode_pages_fit pg output_len p last b : last < len b ->
  exists r b', mode_pages dev pg output_len p last b = Some (if r : option Z then (λ n, (n, b')) <$> r else None) /\ length b' = length b.
Proof.
  intros Hl. unfold mode_pages.
  assert (HP : forall page p b', length b' = length b -> exists q b'', ata_msense_push p last page b' = Some (q, b'') /\ length b'' = length b).
  { intros page p' b' L. destruct (msense_push_fits p' last page b') as (q & b'' & -> & L''); [unfold len in *; by rewrite L|].
    exists q, b''. by rewrite L''. }
  unfold ata_msense_rw_recovery, ata_msense_caching, ata_msense_ctl_mode.
  destruct (pg =? RW_RECOVERY_MPAGE); [|destruct (pg =? CACHE_MPAGE); [|destruct (pg =? CONTROL_MPAGE);
    [|destruct (pg =? ALL_MPAGES); [|by exists None, b]]]].
  - destruct (HP def_rw_recovery_mpage p b eq_refl) as (q & b1 & -> & L1). cbn. eexists (Some _), b1. by split.
  - destruct (HP (caching_page (d_id dev)) p b eq_refl) as (q & b1 & -> & L1). cbn. eexists (Some _), b1. by split.
  - destruct (HP def_control_mpage p b eq_refl) as (q & b1 & -> & L1). cbn. eexists (Some _), b1. by split.
  - destruct (HP def_rw_recovery_mpage p b eq_refl) as (q & b1 & -> & L1); cbn.
    destruct (HP (caching_page (d_id dev)) q b1 L1) as (q2 & b2 & -> & L2); cbn.
    destruct (HP def_control_mpage q2 b2 L2) as (q3 & b3 & -> & L3); cbn. eexists (Some _), b3. by split.
Qed.

Lemma mode_sense_answers : answered rbuf (ata_scsiop_mode_sense libata_fua dev c rbuf cmd).
Proof.
  unfold ata_scsiop_mode_sense. set (ebd := negb (has (byte c 1) 8)). set (six_byte := byte c 0 =? MODE_SENSE).
  destruct (byte c 2 >> 6 =? 3); [by apply answered_refusal|].
  destruct (negb (byte c 2 >> 6 =? 0)); [by apply answered_refusal|].
  destruct (negb (byte c 3 =? 0) && _); [by apply answered_refusal|].
  set (out := (if six_byte then 4 else 8) + (if ebd then 8 else 0)). set (minlen := if _ <? len rbuf then _ else _).
  assert (Hm : minlen <= len rbuf) by (unfold minlen; case_match; unbool; lia). clearbody minlen.
  destruct (mode_pages_fit (byte c 2 & 0x3f) out (Z.to_nat out) (minlen - 1) rbuf) as (r & b1 & -> & L1); [lia|].
  destruct r as [n|]; cbn [fmap option_fmap option_map mbind option_bind]; [|by apply answered_refusal].
  destruct (Z.ltb_spec minlen 1); [by apply answered_now|].
  apply answered_bind; [|intros; by apply answered_now].
  destruct six_byte; stores.
Qed.
End answers.

(** ** Theorems *)

Section simulate.
Context (libata_fua : bool) (dev : ata_device) (c : list Z) (kmalloc_ok : bool).

(** The length of the response buffer, and a request whose memory is as long as the
    command says. *)
Definition room (s : sim) : nat :=
  match s_data s with
  | Scattered _ => if kmalloc_ok then Z.to_nat (sc_request_bufflen (s_cmd s)) else 0
  | Buffer _ => Z.to_nat (sc_request_bufflen (s_cmd s))
  end.
Definition described (s : sim) : Prop :=
  match s_data s with
  | Scattered sg => len (concat sg) <= sc_request_bufflen (s_cmd s)
  | Buffer mem => sc_request_bufflen (s_cmd s) <= len mem
  end.

Definition same_shape (d d' : request) : Prop :=
  match d, d' with
  | Scattered sg, Scattered sg' => length <$> sg' = length <$> sg
  | Buffer mem, Buffer mem' => length mem' = length mem
  | _, _ => False
  end.

Definition completed (s s' : sim) : Prop :=
  s_done s' = S (s_done s) /\ same_shape (s_data s) (s_data s') /\
  (sc_result (s_cmd s') = SAM_STAT_GOOD \/ sc_result (s_cmd s') = check_condition).

Lemma gather_fits sg i buf : (i + length (concat sg) <= length buf)%nat -> fits buf (sg_gather sg i buf).
Proof.
  revert i buf; induction sg as [|seg sg IH]; intros i buf H; cbn; [by exists buf|].
  cbn in H. rewrite length_app in H. apply fits_bind; [apply memcpy_fits; lia|].
  intros b' L. eapply fits_len; [exact L|]. apply IH. lia.
Qed.

Lemma scatter_fits sg i buf : (i + length (concat sg) <= length buf)%nat ->
  exists sg', sg_scatter sg i buf = Some sg' /\ length <$> sg' = length <$> sg.
Proof.
  revert i; induction sg as [|seg sg IH]; intros i H; cbn; [by exists []|].
  cbn in H. rewrite length_app in H. rewrite decide_True by lia.
  destruct (IH (i + length seg)%nat) as (sg' & -> & E); [lia|]. cbn. eexists. split; [done|].
  cbn. rewrite length_take, length_drop, E. f_equal. lia.
Qed.

Lemma get_ok s : described s -> exists b, ata_scsi_rbuf_get kmalloc_ok s = Some b /\ length b = room s.
Proof.
  unfold described, ata_scsi_rbuf_get, room, len. destruct (s_data s) as [mem|sg]; intros H.
  - rewrite decide_True by lia. eexists. split; [done|]. rewrite length_take. lia.
  - destruct kmalloc_ok; [|by exists []].
    destruct (gather_fits sg 0 (replicate (Z.to_nat (sc_request_bufflen (s_cmd s))) 0)) as (b & -> & L); [rewrite length_replicate; lia|].
    exists b. by rewrite L, length_replicate.
Qed.

Lemma put_ok s rbuf : described s -> length rbuf = room s ->
  exists d, ata_scsi_rbuf_put kmalloc_ok s rbuf = Some d /\ same_shape (s_data s) d.
Proof.
  unfold described, ata_scsi_rbuf_put, room, len. destruct (s_data s) as [mem|sg]; intros H L.
  - eexists. split; [done|]. cbn. rewrite length_app, length_drop. lia.
  - destruct kmalloc_ok; [|by eexists]. destruct (scatter_fits sg 0 rbuf) as (sg' & -> & E); [lia|]. by eexists.
Qed.

Lemma fill_ok actor s : described s ->
  (forall rbuf cmd, length rbuf = room s -> answered rbuf (actor rbuf cmd)) ->
  exists s', ata_scsi_rbuf_fill kmalloc_ok actor s = Some s' /\ completed s s'.
Proof.
  intros Hd H. unfold ata_scsi_rbuf_fill. destruct (get_ok s Hd) as (b0 & -> & L0). cbn [mbind option_bind].
  destruct (H (replicate (length b0) 0) (s_cmd s)) as (rc & b & cmd & -> & L & R); [by rewrite length_replicate|].
  rewrite length_replicate in L. cbn [mbind option_bind].
  destruct (put_ok s b Hd ltac:(congruence)) as (d & -> & Hs). cbn [mbind option_bind]. eexists; split; [reflexivity|].
  split; [done|]. split; [exact Hs|]. cbn. destruct (Z.eqb_spec rc 0); [by left|]. destruct R; [done|]. by right.
Qed.

Lemma complete_ok cmd s : sc_result cmd = SAM_STAT_GOOD \/ sc_result cmd = check_condition ->
  exists s', complete cmd s = Some s' /\ completed s s'.
Proof. intros H. eexists. split; [done|]. split; [done|]. split; [by destruct (s_data s)|done]. Qed.

(** C38: Every simulated command whose response buffer has at least four bytes
    is completed, once, with GOOD status or a check condition, and no byte
    outside the buffer is written, nor one outside the memory of the request when a
    scatter-gather list is copied, whatever the CDB, its allocation length and
    the IDENTIFY page of the device hold. The memory of the request is as long as
    the command says; a scattered one for which there is no block has no response
    buffer ([room]). *)
Theorem ata_simulate_in_bounds s :
  described s -> (4 <= room s)%nat ->
  exists s', ata_scsi_simulate libata_fua dev c kmalloc_ok s = Some s' /\ completed s s'.
Proof.
  intros Hd H4. unfold ata_scsi_simulate, ata_scsi_invalid_field.
  repeat match goal with |- context [if ?b then _ else _] => destruct b end;
    try (apply complete_ok; auto); apply fill_ok; try exact Hd; intros rbuf cmd L.
  - by apply answered_now.
  - apply inq_std_answers.
  - apply inq_00_answers. lia.
  - apply inq_80_answers. lia.
  - apply inq_83_answers. lia.
  - apply mode_sense_answers.
  - apply read_cap_answers.
  - apply read_cap_answers.
  - apply luns_answers. lia.
Qed.

Lemma wr_out i v b : (length b <= i)%nat -> wr i v b = None.
Proof. intros H. unfold wr. by rewrite decide_False by lia. Qed.

Lemma memcpy_out i src b : (length b < i + length src)%nat -> (0 < length src)%nat -> memcpy i src b = None.
Proof.
  revert i b; induction src as [|v src IH]; intros i b H H0; [cbn in H0; lia|]. cbn in *.
  destruct (decide (i < length b)%nat) as [Hi|Hi]; [|by rewrite wr_out by lia].
  destruct (wr_fits i v b Hi) as (b1 & -> & L). cbn. apply IH; [lia|]. destruct src; cbn in *; lia.
Qed.

(** REPORT LUNS and the INQUIRY pages 0x00, 0x80 and 0x83 store into the
    first four bytes of the response without looking at its length: a shorter
    buffer, or none when a scattered request finds no memory, is overrun. *)
Theorem ata_simulate_overruns s :
  described s -> (room s < 4)%nat ->
  byte c 0 = REPORT_LUNS \/
  (byte c 0 = INQUIRY /\ byte c 1 = 1 /\ (byte c 2 = 0x00 \/ byte c 2 = 0x80 \/ byte c 2 = 0x83)) ->
  ata_scsi_simulate libata_fua dev c kmalloc_ok s = None.
Proof.
  intros Hd H4 Hop. destruct (get_ok s Hd) as (b0 & Eg & L0).
  assert (HN : forall actor, (forall b cmd, (length b < 4)%nat -> actor b cmd = None) ->
    ata_scsi_rbuf_fill kmalloc_ok actor s = None).
  { intros actor H. unfold ata_scsi_rbuf_fill. rewrite Eg. cbn [mbind option_bind]. rewrite H; [done|]. rewrite length_replicate. lia. }
  unfold ata_scsi_simulate. destruct Hop as [->|(-> & -> & [->|[-> | ->]])]; cbn -[ata_scsi_rbuf_fill]; apply HN; intros b cmd Hb.
  - unfold ata_scsiop_report_luns. by rewrite wr_out by lia.
  - unfold ata_scsiop_inq_00. by rewrite wr_out by lia.
  - unfold ata_scsiop_inq_80. by rewrite memcpy_out by (cbn; lia).
  - unfold ata_scsiop_inq_83. destruct (wr 1 0x83 b) as [b1|] eqn:E; [|done]. cbn [mbind option_bind].
    assert (length b1 = length b) as L.
    { unfold wr in E. destruct (decide _); [|done]. injection E as <-. apply length_insert. }
    unfold longer. rewrite (proj2 (Nat.ltb_ge _ _)) by (cbn; lia). cbn [mbind option_bind].
    rewrite (proj2 (Nat.ltb_ge _ _)) by (cbn; lia). cbn [mbind option_bind]. by rewrite wr_out by lia.
Qed.
End simulate.

Lemma rbuf_sets_in l b : Forall (λ x, (x.1 < length b)%nat) l ->
  rbuf_sets l b = Some (foldl (fun b '(i, v) => <[i := u8 v]> b) b l).
Proof.
  revert b; induction l as [|[i v] l IH]; intros b H; [done|]. apply Forall_cons in H as [Hi H]. cbn in Hi.
  cbn [rbuf_sets foldl]. unfold ATA_SCSI_RBUF_SET, longer, when. rewrite (proj2 (Nat.ltb_lt _ _)) by done.
  unfold wr. rewrite decide_True by done. cbn [mbind option_bind]. apply IH.
  eapply Forall_impl; [exact H|]. intros x Hx. by rewrite length_insert.
Qed.

Lemma u8_byte x k : 0 <= k -> u8 (x >> k) = x / 2 ^ k mod 256.
Proof. intros. by rewrite shiftr_div. Qed.

Lemma read_cap_10 dev c m cmd :
  byte c 0 = READ_CAPACITY -> 1 <= d_n_sectors dev <= 2 ^ 64 -> exists b,
  ata_scsiop_read_cap dev c (replicate (8 + m) 0) cmd = Some (0, b, with_resid (Z.of_nat m) cmd) /\
  b8 (take 4 b) = Z.min (d_n_sectors dev - 1) 0xffffffff /\ b8 (take 4 (drop 4 b)) = 512.
Proof.
  intros E Hn. unfold ata_scsiop_read_cap. rewrite E, wrap_small by lia. set (last := d_n_sectors dev - 1).
  change (READ_CAPACITY =? READ_CAPACITY) with true. cbv iota. unfold len at 1. rewrite length_replicate.
  rewrite (proj2 (Z.ltb_ge _ _)) by lia. set (v := if _ <=? last then _ else last).
  assert (Hv : v = Z.min last 0xffffffff) by (unfold v; case_match; unbool; lia). 
  rewrite rbuf_sets_in by (rewrite length_replicate; repeat (apply Forall_cons; split; [cbn; lia|]); by apply Forall_nil). cbn [mbind option_bind]. eexists. split.
  { do 2 f_equal. unfold len. rewrite length_replicate. f_equal. lia. }
  rewrite <- Hv. assert (0 <= v < 2 ^ 32) by lia. clearbody v. clear Hv.
  cbn [replicate Nat.add foldl insert list_insert take drop]. unfold b8. cbn [foldl].
  rewrite !u8_byte by lia. unfold wrap. cbn [Z.pow Z.pow_pos Pos.iter Z.mul]. split; [arith|reflexivity].
Qed.

Lemma read_cap_16 dev c m cmd :
  byte c 0 <> READ_CAPACITY -> 1 <= d_n_sectors dev <= 2 ^ 64 -> exists b,
  ata_scsiop_read_cap dev c (replicate (32 + m) 0) cmd = Some (0, b, with_resid (Z.of_nat m) cmd) /\
  b8 (take 8 b) = d_n_sectors dev - 1 /\ b8 (take 4 (drop 8 b)) = 512.
Proof.
  intros E Hn. unfold ata_scsiop_read_cap. rewrite (proj2 (Z.eqb_neq _ _) E), wrap_small by lia.
  set (v := d_n_sectors dev - 1). unfold len at 1. rewrite length_replicate.
  rewrite (proj2 (Z.ltb_ge _ _)) by lia. assert (0 <= v < 2 ^ 64) by lia. clearbody v.
  rewrite rbuf_sets_in by (rewrite length_replicate; repeat (apply Forall_cons; split; [cbn; lia|]); by apply Forall_nil). cbn [mbind option_bind]. eexists. split.
  { do 2 f_equal. unfold len. rewrite length_replicate. f_equal. lia. }
  cbn [replicate Nat.add foldl insert list_insert take drop]. unfold b8. cbn [foldl].
  rewrite !u8_byte by lia. unfold wrap. split; [|reflexivity].
  change (2 ^ 56) with (2 ^ 32 * 2 ^ 24). change (2 ^ 48) with (2 ^ 32 * 2 ^ 16). change (2 ^ 40) with (2 ^ 32 * 2 ^ 8).
  rewrite <- !Z.div_div by lia. assert (0 <= v / 2 ^ 32 < 2 ^ 32) as Hq by arith.
  pose proof (Z.div_mod v (2 ^ 32) ltac:(lia)) as Ev. pose proof (Z.mod_pos_bound v (2 ^ 32) ltac:(lia)) as Hr.
  assert (forall k, 0 <= k <= 24 -> v / 2 ^ k mod 256 = (v mod 2 ^ 32) / 2 ^ k mod 256) as Hk.
  { intros k Hk. rewrite <- !(Z.land_ones _ 8), <- (Z.land_ones v 32), <- !Z.shiftr_div_pow2 by lia.
    apply Z.bits_inj'; intros j Hj. rewrite !Z.land_spec, !Z.shiftr_spec, !Z.land_spec, !Z.testbit_ones by lia.
    repeat match goal with |- context [?a <=? ?b] => destruct (Z.leb_spec a b)
      | |- context [?a <? ?b] => destruct (Z.ltb_spec a b) end; cbn; rewrite ?andb_true_r, ?andb_false_r; try done; lia. }
  rewrite (Hk 24), (Hk 16), (Hk 8) by lia. assert (v mod 2 ^ 8 = (v mod 2 ^ 32) mod 256) as -> by (change (2 ^ 8) with 256; arith).
  generalize dependent (v mod 2 ^ 32); generalize dependent (v / 2 ^ 32). intros q Hq r -> Hr _.
  cbn [Z.pow Z.pow_pos Pos.iter Z.mul]. arith.
Qed.

(** READ CAPACITY(10) and (16) answer with the address of the last block
    of the device, the former with 0xffffffff when it needs more than 32 bits,
    and a block size of 512 bytes. *)
Theorem ata_read_capacity_correct fua dev c s mem :
  1 <= d_n_sectors dev <= 2 ^ 64 -> s_data s = Buffer mem -> sc_request_bufflen (s_cmd s) = len mem ->
  (byte c 0 = READ_CAPACITY /\ 8 <= len mem \/
   byte c 0 = SERVICE_ACTION_IN /\ byte c 1 & 0x1f = SAI_READ_CAPACITY_16 /\ 32 <= len mem) ->
  exists s' mem', ata_scsi_simulate fua dev c true s = Some s' /\ sc_result (s_cmd s') = SAM_STAT_GOOD /\
  s_data s' = Buffer mem' /\
  let last := d_n_sectors dev - 1 in
  if byte c 0 =? READ_CAPACITY
  then b8 (take 4 mem') = Z.min last 0xffffffff /\ b8 (take 4 (drop 4 mem')) = 512
  else b8 (take 8 mem') = last /\ b8 (take 4 (drop 8 mem')) = 512.
Proof.
  intros Hn Em El Hc.
  assert (Hfill : forall b cmd, ata_scsiop_read_cap dev c (replicate (length mem) 0) (s_cmd s) = Some (0, b, cmd) ->
    ata_scsi_rbuf_fill true (ata_scsiop_read_cap dev c) s = Some (Sim (with_result SAM_STAT_GOOD cmd) (Buffer b) (S (s_done s)))).
  { intros b cmd Ha. destruct (read_cap_answers dev c (replicate (length mem) 0) (s_cmd s)) as (rc & b' & cmd' & Ha' & Lb & _).
    rewrite Ha in Ha'. injection Ha' as <- <- <-. rewrite length_replicate in Lb.
    unfold ata_scsi_rbuf_fill, ata_scsi_rbuf_get, ata_scsi_rbuf_put. rewrite Em, El. unfold len. rewrite Nat2Z.id.
    rewrite decide_True by done. cbn [mbind option_bind]. rewrite take_ge by done. rewrite Ha. cbn [mbind option_bind].
    by rewrite drop_ge, app_nil_r by lia. }
  unfold ata_scsi_simulate. cbv zeta.
  assert (Hlen : forall need, (need <= length mem)%nat -> (need + (length mem - need))%nat = length mem) by lia.
  destruct Hc as [[E H8]|(E & E1 & H32)]; rewrite ?E1, !E; cbn -[ata_scsi_rbuf_fill Z.min drop take b8].
  - destruct (read_cap_10 dev c (length mem - 8) (s_cmd s) E Hn) as (b & Hb & H). rewrite (Hlen 8%nat) in Hb by (unfold len in *; lia).
    rewrite (Hfill _ _ Hb). by eexists _, b.
  - destruct (read_cap_16 dev c (length mem - 32) (s_cmd s)) as (b & Hb & H); [by rewrite E|done|].
    rewrite (Hlen 32%nat) in Hb by (unfold len in *; lia). rewrite (Hfill _ _ Hb). by eexists _, b.
Qed.

(** ** Mode pages that do not fit *)

Definition all_pages (alloc : Z) : list Z := [MODE_SENSE; 8; ALL_MPAGES; 0; alloc; 0].

(** A mode page that does not fit in the allocation length is skipped
    but a later, shorter one is still stored in its place: MODE SENSE(6) for all
    pages with an allocation length from 28 to 35 returns the control page where
    the complete answer has the caching page, under the same header. *)
Theorem ata_msense_misplaces dev n cmd :
  28 <= n < 36 -> exists b1 b2 cmd1 cmd2,
  ata_scsiop_mode_sense false dev (all_pages n) (replicate 64 0) cmd = Some (0, b1, cmd1) /\
  ata_scsiop_mode_sense false dev (all_pages 64) (replicate 64 0) cmd = Some (0, b2, cmd2) /\
  take 4 b1 = take 4 b2 /\
  take 12 (drop 16 b1) = def_control_mpage /\ take 20 (drop 16 b2) = caching_page (d_id dev).
Proof.
  intros Hn. assert (HB : exists w r, caching_page (d_id dev) = <[2%nat := w]> (<[12%nat := r]> def_cache_mpage)).
  { unfold caching_page. destruct (ata_id_wcache_enabled (d_id dev)), (negb (ata_id_rahead_enabled (d_id dev)));
      [exists 4, 32|exists 4, 0|exists 0, 32|exists 0, 0]; reflexivity. }
  assert (n = 28 \/ n = 29 \/ n = 30 \/ n = 31 \/ n = 32 \/ n = 33 \/ n = 34 \/ n = 35) as Hc by lia.
  destruct HB as (w & r & HB). unfold ata_scsiop_mode_sense, mode_pages, ata_msense_caching. rewrite HB.
  repeat destruct Hc as [->|Hc]; try subst n; eexists _, _, _, _;
    (split; [cbn; reflexivity|]; split; [cbn; reflexivity|]; split_and!; reflexivity).
Qed.

(** ** Witnesses *)

(** A request for [n] bytes: one buffer, or two elements of a scatter-gather list. *)
Definition cmd1 (n : Z) : scsi_cmnd := Cmd 0 (replicate SCSI_SENSE_BUFFERSIZE 0) 0 n 2.
Definition sim1 (n : nat) : sim := Sim (cmd1 (Z.of_nat n)) (Buffer (replicate n 0xaa)) 0.
Definition scattered (n k : nat) : sim :=
  Sim (cmd1 (Z.of_nat (n + k))) (Scattered [replicate n 0xaa; replicate k 0xbb]) 0.
Definition inquiry80 : list Z := [INQUIRY; 1; 0x80; 0; 255; 0].

(** The answer goes over the elements: the page's header and the first two bytes
    of the serial number are in the first of them. *)
Lemma ata_simulate_in_bounds_witness : exists s',
  ata_scsi_simulate false (disk 3) inquiry80 true (scattered 6 249) = Some s' /\ completed (scattered 6 249) s'.
Proof. apply (ata_simulate_in_bounds false (disk 3) inquiry80 true (scattered 6 249)); vm_compute; [discriminate|lia]. Defined.

(** A scattered INQUIRY without memory. *)
Lemma ata_simulate_overruns_witness : ata_scsi_simulate false (disk 3) inquiry80 false (scattered 6 249) = None.
Proof.
  apply (ata_simulate_overruns false (disk 3) inquiry80 false (scattered 6 249)); [vm_compute; discriminate|cbn; lia|].
  right. split; [reflexivity|]. split; [reflexivity|]. right. left. reflexivity.
Defined.

Definition read_capacity16 : list Z := [SERVICE_ACTION_IN; SAI_READ_CAPACITY_16; 0; 0; 0; 0; 0; 0; 0; 0; 0; 0; 0; 32; 0; 0].
Lemma ata_read_capacity_correct_witness : exists s' mem,
  ata_scsi_simulate false (disk 3) read_capacity16 true (sim1 32) = Some s' /\
  sc_result (s_cmd s') = SAM_STAT_GOOD /\ s_data s' = Buffer mem /\
  b8 (take 8 mem) = 2 ^ 40 - 1 /\ b8 (take 4 (drop 8 mem)) = 512.
Proof.
  apply (ata_read_capacity_correct false (disk 3) read_capacity16 (sim1 32) (replicate 32 0xaa)).
  - cbn. lia.
  - reflexivity.
  - reflexivity.
  - right. split; [reflexivity|]. split; [reflexivity|]. vm_compute. discriminate.
Defined.

Lemma ata_msense_misplaces_witness : exists b1 b2 cmd1 cmd2,
  ata_scsiop_mode_sense false (disk 3) (all_pages 30) (replicate 64 0) cmd0 = Some (0, b1, cmd1) /\
  ata_scsiop_mode_sense false (disk 3) (all_pages 64) (replicate 64 0) cmd0 = Some (0, b2, cmd2) /\
  take 4 b1 = take 4 b2 /\
  take 12 (drop 16 b1) = def_control_mpage /\ take 20 (drop 16 b2) = caching_page (d_id (disk 3)).
Proof. apply (ata_msense_misplaces (disk 3) 30 cmd0). lia. Defined.
