(* ===== verification/AtaXfer.v ===== *)
(** Transfer modes, link speed and timing of ATA devices:
    [drivers/ata/libata-core.c] and [include/linux/ata.h].

    The IDENTIFY page is the list of its 16-bit words. Reads of the SATA status
    and control registers are arguments. *)

From S2P Require Import Prelude AtaTf.
Local Open Scope Z_scope.
Local Open Scope cint_scope.

(** ** Constants *)

Definition ATA_BITS_PIO : Z := 7.
Definition ATA_BITS_MWDMA : Z := 5.
Definition ATA_BITS_UDMA : Z := 8.
Definition ATA_SHIFT_PIO : Z := 0.
Definition ATA_SHIFT_MWDMA : Z := ATA_SHIFT_PIO + ATA_BITS_PIO.
Definition ATA_SHIFT_UDMA : Z := ATA_SHIFT_MWDMA + ATA_BITS_MWDMA.
Definition ATA_MASK_PIO : Z := ((1 << ATA_BITS_PIO) - 1) << ATA_SHIFT_PIO.
Definition ATA_MASK_MWDMA : Z := ((1 << ATA_BITS_MWDMA) - 1) << ATA_SHIFT_MWDMA.
Definition ATA_MASK_UDMA : Z := ((1 << ATA_BITS_UDMA) - 1) << ATA_SHIFT_UDMA.

Definition XFER_UDMA_0 : Z := 0x40.
Definition XFER_MW_DMA_0 : Z := 0x20.
Definition XFER_MW_DMA_2 : Z := 0x22.
Definition XFER_SW_DMA_0 : Z := 0x10.
Definition XFER_PIO_0 : Z := 0x08.
Definition XFER_PIO_2 : Z := 0x0A.
Definition XFER_PIO_4 : Z := 0x0C.
Definition XFER_PIO_5 : Z := 0x0D.

Definition ATA_ID_OLD_PIO_MODES : nat := 51.
Definition ATA_ID_FIELD_VALID : nat := 53.
Definition ATA_ID_MWDMA_MODES : nat := 63.
Definition ATA_ID_PIO_MODES : nat := 64.
Definition ATA_ID_EIDE_DMA_MIN : nat := 65.
Definition ATA_ID_EIDE_PIO : nat := 67.
Definition ATA_ID_EIDE_PIO_IORDY : nat := 68.
Definition ATA_ID_MAJOR_VER : nat := 80.
Definition ATA_ID_UDMA_MODES : nat := 88.

Definition ATA_DEV_UNKNOWN : Z := 0.
Definition ATA_DEV_ATA : Z := 1.
Definition ATA_DEV_ATAPI : Z := 3.
Definition ATA_DEV_NONE : Z := 5.

Definition EINVAL : Z := 22.
Definition UINT_MAX : Z := 2 ^ 32 - 1.

(** The position of the highest set bit, from 1; 0 when there is none. *)
Definition fls (x : Z) : Z := if x =? 0 then 0 else Z.log2 x + 1.

(** ** Transfer masks *)

Definition ata_pack_xfermask (pio_mask mwdma_mask udma_mask : Z) : Z :=
  ((u32 (pio_mask << ATA_SHIFT_PIO) & ATA_MASK_PIO) |'
   (u32 (mwdma_mask << ATA_SHIFT_MWDMA) & ATA_MASK_MWDMA)) |'
  (u32 (udma_mask << ATA_SHIFT_UDMA) & ATA_MASK_UDMA).

(** The three masks. *)
Definition ata_unpack_xfermask (xfer_mask : Z) : Z * Z * Z :=
  ((xfer_mask & ATA_MASK_PIO) >> ATA_SHIFT_PIO,
   (xfer_mask & ATA_MASK_MWDMA) >> ATA_SHIFT_MWDMA,
   (xfer_mask & ATA_MASK_UDMA) >> ATA_SHIFT_UDMA).

(** Rows: shift, bits, base. *)
Definition ata_xfer_tbl : list (Z * Z * Z) := [
  (ATA_SHIFT_PIO, ATA_BITS_PIO, XFER_PIO_0);
  (ATA_SHIFT_MWDMA, ATA_BITS_MWDMA, XFER_MW_DMA_0);
  (ATA_SHIFT_UDMA, ATA_BITS_UDMA, XFER_UDMA_0)].

Definition ata_xfer_mask2mode (xfer_mask : Z) : Z :=
  let highbit := fls xfer_mask - 1 in
  match List.find (fun '(shift, bits, _) => (shift <=? highbit) && (highbit <? shift + bits)) ata_xfer_tbl with
  | Some (shift, _, base) => base + highbit - shift
  | None => 0
  end.

Definition in_row (xfer_mode : Z) (row : Z * Z * Z) : bool :=
  let '(shift, bits, base) := row in (base <=? xfer_mode) && (xfer_mode <? base + bits).

Definition ata_xfer_mode2mask (xfer_mode : Z) : Z :=
  match List.find (in_row xfer_mode) ata_xfer_tbl with
  | Some (shift, _, base) => 1 << (shift + xfer_mode - base)
  | None => 0
  end.

Definition ata_xfer_mode2shift (xfer_mode : Z) : Z :=
  match List.find (in_row xfer_mode) ata_xfer_tbl with Some (shift, _, _) => shift | None => -1 end.

(** ** The modes a device supports *)

(** [for (mver = 14; mver >= 1; mver--)] *)
Fixpoint major_version_from (v : Z) (mver : nat) : Z :=
  match mver with
  | O => 0
  | S m => if has v (1 << Z.of_nat mver) then Z.of_nat mver else major_version_from v m
  end.
Definition ata_id_major_version (id : list Z) : Z :=
  if id_word id ATA_ID_MAJOR_VER =? 0xFFFF then 0 else major_version_from (id_word id ATA_ID_MAJOR_VER) 14.

Definition ata_id_is_cfa (id : list Z) : bool :=
  if id_word id 0 =? 0x848A then true
  else (3 <=? ata_id_major_version id) && negb (id_word id 82 =? 0xFFFF) && has (id_word id 82) 4.

Definition ata_id_xfermask (id : list Z) : Z :=
  let pio_mask :=
    if has (id_word id ATA_ID_FIELD_VALID) 2 then ((id_word id ATA_ID_PIO_MODES & 0x03) << 3) |' 0x7
    else
      let mode := id_word id ATA_ID_OLD_PIO_MODES & 0xFF in
      if mode <? 5 then (2 << mode) - 1 else 1 in
  let mwdma_mask := id_word id ATA_ID_MWDMA_MODES & 0x07 in
  let '(pio_mask, mwdma_mask) :=
    if ata_id_is_cfa id then
      let pio := id_word id 163 & 0x7 in
      let dma := (id_word id 163 >> 3) & 7 in
      let pio_mask := if negb (pio =? 0) then pio_mask |' (1 << 5) else pio_mask in
      let pio_mask := if 1 <? pio then pio_mask |' (1 << 6) else pio_mask in
      let mwdma_mask := if negb (dma =? 0) then mwdma_mask |' (1 << 3) else mwdma_mask in
      let mwdma_mask := if 1 <? dma then mwdma_mask |' (1 << 4) else mwdma_mask in
      (pio_mask, mwdma_mask)
    else (pio_mask, mwdma_mask) in
  let udma_mask := if has (id_word id ATA_ID_FIELD_VALID) 4 then id_word id ATA_ID_UDMA_MODES & 0xff else 0 in
  ata_pack_xfermask pio_mask mwdma_mask udma_mask.

Definition ata_pio_need_iordy (id : list Z) (pio_mode : Z) : Z :=
  let speed := pio_mode - XFER_PIO_0 in
  if speed <? 2 then 0 else
  if 2 <? speed then 1 else
  if has (id_word id ATA_ID_FIELD_VALID) 2 then
    let pio := id_word id ATA_ID_EIDE_PIO in
    if negb (pio =? 0) then if 240 <? pio then 1 else 0 else 0
  else 0.

(** The masks of a device and the result. *)
Definition ata_down_xfermask_limit (masks : Z * Z * Z) (force_pio0 : bool) : Z * (Z * Z * Z) :=
  let '(pio, mwdma, udma) := masks in
  let fail := (- EINVAL, masks) in
  let xfer_mask := ata_pack_xfermask pio mwdma udma in
  if xfer_mask =? 0 then fail else
  let xfer_mask := if has xfer_mask ATA_MASK_UDMA then clear 64 xfer_mask ATA_MASK_MWDMA else xfer_mask in
  let highbit := fls xfer_mask - 1 in
  let xfer_mask := clear 64 xfer_mask (1 << highbit) in
  let xfer_mask := if force_pio0 then xfer_mask & (1 << ATA_SHIFT_PIO) else xfer_mask in
  if xfer_mask =? 0 then fail else (0, ata_unpack_xfermask xfer_mask).

(** ** Link speed *)

(** [scr] is what [sata_scr_read] of the register returns: 0 and its value, or
    an error. The new speed limit and the result. *)
Definition sata_down_spd_limit (scr : Z * Z) (sata_spd_limit : Z) : Z * Z :=
  let '(rc, sstatus) := scr in
  if negb (rc =? 0) then (rc, sata_spd_limit) else
  let mask := sata_spd_limit in
  if mask <=? 1 then (- EINVAL, sata_spd_limit) else
  let highbit := fls mask - 1 in
  let mask := clear 32 mask (u32 (1 << highbit)) in
  let spd := (sstatus >> 4) & 0xf in
  if spd <=? 1 then (- EINVAL, sata_spd_limit) else
  let spd := spd - 1 in
  let mask := mask & ((1 << spd) - 1) in
  if mask =? 0 then (- EINVAL, sata_spd_limit) else (0, mask).

(** Whether a change is needed, and the new control register. *)
Definition __sata_set_spd_needed (sata_spd_limit scontrol : Z) : bool * Z :=
  let limit := if sata_spd_limit =? UINT_MAX then 0 else fls sata_spd_limit in
  let spd := (scontrol >> 4) & 0xf in
  (negb (spd =? limit), clear 32 scontrol 0xf0 |' ((limit & 0xf) << 4)).

Definition sata_set_spd_needed (scr : Z * Z) (sata_spd_limit : Z) : bool :=
  if negb (scr.1 =? 0) then false else fst (__sata_set_spd_needed sata_spd_limit scr.2).

(** The result and the value written to the control register; [write_rc] is
    what [sata_scr_write] returns. *)
Definition sata_set_spd (scr : Z * Z) (sata_spd_limit write_rc : Z) : Z * option Z :=
  if negb (scr.1 =? 0) then (scr.1, None) else
  let '(needed, scontrol) := __sata_set_spd_needed sata_spd_limit scr.2 in
  if negb needed then (0, None) else
  if negb (write_rc =? 0) then (write_rc, Some scontrol) else (1, Some scontrol).

(** ** Timing *)

Record ata_timing := Timing {
  t_mode : Z; t_setup : Z; t_act8b : Z; t_rec8b : Z; t_cyc8b : Z; t_active : Z; t_recover : Z; t_cycle : Z; t_udma : Z }.

Definition ata_timing_table : list ata_timing := [
  Timing 0x46 0 0 0 0 0 0 0 15; Timing 0x45 0 0 0 0 0 0 0 20;
  Timing 0x44 0 0 0 0 0 0 0 30; Timing 0x43 0 0 0 0 0 0 0 45;
  Timing 0x24 25 0 0 0 55 20 80 0; Timing 0x23 25 0 0 0 65 25 100 0;
  Timing 0x42 0 0 0 0 0 0 0 60; Timing 0x41 0 0 0 0 0 0 0 80; Timing 0x40 0 0 0 0 0 0 0 120;
  Timing 0x22 25 0 0 0 70 25 120 0; Timing 0x21 45 0 0 0 80 50 150 0; Timing 0x20 60 0 0 0 215 215 480 0;
  Timing 0x12 60 0 0 0 120 120 240 0; Timing 0x11 90 0 0 0 240 240 480 0; Timing 0x10 120 0 0 0 480 480 960 0;
  Timing 0x0E 10 55 20 80 55 20 80 0; Timing 0x0D 15 65 25 100 65 25 100 0;
  Timing 0x0C 25 70 25 120 70 25 120 0; Timing 0x0B 30 80 70 180 80 70 180 0;
  Timing 0x0A 30 290 40 330 100 90 240 0; Timing 0x09 50 290 93 383 125 100 383 0;
  Timing 0x08 70 290 240 600 165 150 600 0].

(** The fields are unsigned short; the macros compute in [int]. *)
Definition ENOUGH (v unit : Z) : Z := Z.quot (v - 1) unit + 1.
Definition EZ (v unit : Z) : Z := if v =? 0 then 0 else ENOUGH v unit.

Definition ata_timing_quantize (t : ata_timing) (T UT : Z) : ata_timing :=
  Timing (t_mode t) (u16 (EZ (t_setup t * 1000) T)) (u16 (EZ (t_act8b t * 1000) T)) (u16 (EZ (t_rec8b t * 1000) T))
    (u16 (EZ (t_cyc8b t * 1000) T)) (u16 (EZ (t_active t * 1000) T)) (u16 (EZ (t_recover t * 1000) T))
    (u16 (EZ (t_cycle t * 1000) T)) (u16 (EZ (t_udma t * 1000) UT)).

Definition ATA_TIMING_SETUP : Z := 1.
Definition ATA_TIMING_ACT8B : Z := 2.
Definition ATA_TIMING_REC8B : Z := 4.
Definition ATA_TIMING_CYC8B : Z := 8.
Definition ATA_TIMING_ACTIVE : Z := 16.
Definition ATA_TIMING_RECOVER : Z := 32.
Definition ATA_TIMING_CYCLE : Z := 64.
Definition ATA_TIMING_UDMA : Z := 128.
Definition ATA_TIMING_ALL : Z := 255.

Definition ata_timing_merge (a b m : ata_timing) (what : Z) : ata_timing :=
  let pick flag f := if has what flag then Z.max (f a) (f b) else f m in
  Timing (t_mode m) (pick ATA_TIMING_SETUP t_setup) (pick ATA_TIMING_ACT8B t_act8b)
    (pick ATA_TIMING_REC8B t_rec8b) (pick ATA_TIMING_CYC8B t_cyc8b) (pick ATA_TIMING_ACTIVE t_active)
    (pick ATA_TIMING_RECOVER t_recover) (pick ATA_TIMING_CYCLE t_cycle) (pick ATA_TIMING_UDMA t_udma).

Definition ata_timing_find_mode (speed : Z) : option ata_timing :=
  List.find (fun t => t_mode t =? speed) ata_timing_table.

(** What the drive asks for. *)
Definition eide_timing (id : list Z) (speed : Z) : ata_timing :=
  if (XFER_PIO_0 <=? speed) && (speed <=? XFER_SW_DMA_0) then
    let c := if speed <=? XFER_PIO_2 then id_word id ATA_ID_EIDE_PIO else id_word id ATA_ID_EIDE_PIO_IORDY in
    Timing 0 0 0 0 c 0 0 c 0
  else if (XFER_MW_DMA_0 <=? speed) && (speed <=? XFER_MW_DMA_2) then
    Timing 0 0 0 0 0 0 0 (id_word id ATA_ID_EIDE_DMA_MIN) 0
  else Timing 0 0 0 0 0 0 0 0 0.

(** Lengthens active and recovery time to the cycle time. *)
Definition lengthen (t : ata_timing) : ata_timing :=
  let t :=
    if t_act8b t + t_rec8b t <? t_cyc8b t then
      let act8b := u16 (t_act8b t + Z.quot (t_cyc8b t - (t_act8b t + t_rec8b t)) 2) in
      Timing (t_mode t) (t_setup t) act8b (u16 (t_cyc8b t - act8b)) (t_cyc8b t) (t_active t) (t_recover t) (t_cycle t) (t_udma t)
    else t in
  if t_active t + t_recover t <? t_cycle t then
    let active := u16 (t_active t + Z.quot (t_cycle t - (t_active t + t_recover t)) 2) in
    Timing (t_mode t) (t_setup t) (t_act8b t) (t_rec8b t) (t_cyc8b t) active (u16 (t_cycle t - active)) (t_cycle t) (t_udma t)
  else t.

Definition adjust (id : list Z) (speed : Z) (s : ata_timing) : ata_timing :=
  if has (id_word id ATA_ID_FIELD_VALID) 2 then
    ata_timing_merge (eide_timing id speed) s s (ATA_TIMING_CYCLE |' ATA_TIMING_CYC8B)
  else s.

(** The result and the timing. The recursion goes through the PIO mode of the
    device; [None] is a run out of [fuel]. [t0] is what [*t] holds on entry, and
    [garbage] what the local [p] holds when nothing was stored in it. *)
Fixpoint ata_timing_compute (fuel : nat) (id : list Z) (pio_mode : Z) (garbage t0 : ata_timing) (speed T UT : Z)
    : option (Z * ata_timing) :=
  match fuel with
  | O => None
  | S fuel =>
    match ata_timing_find_mode speed with
    | None => Some (- EINVAL, t0)
    | Some s =>
      let t := ata_timing_quantize (adjust id speed s) T UT in
      if XFER_PIO_4 <? speed then
        let p := if has (id_word id ATA_ID_FIELD_VALID) 2 then eide_timing id speed else garbage in
        '(_, p) ← ata_timing_compute fuel id pio_mode garbage p pio_mode T UT;
        Some (0, lengthen (ata_timing_merge p t t ATA_TIMING_ALL))
      else Some (0, lengthen t)
    end
  end.

(** ** Classification *)

Definition ata_dev_classify (tf : ata_taskfile) : Z :=
  if ((tf_lbam tf =? 0) && (tf_lbah tf =? 0)) || ((tf_lbam tf =? 0x3c) && (tf_lbah tf =? 0xc3)) then ATA_DEV_ATA
  else if ((tf_lbam tf =? 0x14) && (tf_lbah tf =? 0xeb)) || ((tf_lbam tf =? 0x69) && (tf_lbah tf =? 0x96))
  then ATA_DEV_ATAPI
  else ATA_DEV_UNKNOWN.

(** [tf] is what [tf_read] returns and [status] the status register; the class,
    the error register and whether the diagnostic horkage is set. *)
Definition ata_dev_try_classify (device : Z) (tf : ata_taskfile) (status : Z) : Z * Z * bool :=
  let err := tf_feature tf in
  let horkage := (err =? 0) && (device =? 0) in
  if negb (horkage || (err =? 1) || ((device =? 0) && (err =? 0x81))) then (ATA_DEV_NONE, err, horkage) else
  let class := ata_dev_classify tf in
  if class =? ATA_DEV_UNKNOWN then (ATA_DEV_NONE, err, horkage)
  else if (class =? ATA_DEV_ATA) && (status =? 0) then (ATA_DEV_NONE, err, horkage)
  else (class, err, horkage).

Definition ata_class_enabled (class : Z) : bool := (class =? ATA_DEV_ATA) || (class =? ATA_DEV_ATAPI).

(** The new class; [msg_drv] is whether driver messages are on. *)
Definition ata_dev_disable (class : Z) (msg_drv : bool) : Z :=
  if ata_class_enabled class && msg_drv then class + 1 else class.

Definition ata_id_u32 (id : list Z) (n : nat) : Z := (id_word id (n + 1) << 16) |' id_word id n.
Definition ata_id_u64 (id : list Z) (n : nat) : Z :=
  (((id_word id (n + 3) << 48) |' (id_word id (n + 2) << 32)) |' (id_word id (n + 1) << 16)) |' id_word id n.
Definition ata_id_has_lba (id : list Z) : bool := has (id_word id 49) 512.
Definition ata_id_has_lba48 (id : list Z) : bool := has (id_word id 83) 1024.
Definition ata_id_current_chs_valid (id : list Z) : bool :=
  has (id_word id 53) 1 && negb (id_word id 54 =? 0) && negb (id_word id 55 =? 0) &&
  (id_word id 55 <=? 16) && negb (id_word id 56 =? 0).

(** The product of the default geometry is computed in [int]. *)
Definition ata_id_n_sectors (id : list Z) : Z :=
  if ata_id_has_lba id then
    if ata_id_has_lba48 id then ata_id_u64 id 100 else ata_id_u32 id 60
  else if ata_id_current_chs_valid id then ata_id_u32 id 57
  else u64 (s32 (s32 (id_word id 1 * id_word id 3) * id_word id 6)).

(** ** Masks *)

Lemma testbit_high w x i : 0 <= x < 2 ^ w -> w <= i -> Z.testbit x i = false.
Proof. intros Hx Hi. rewrite <- (Z.mod_small x (2 ^ w)) by done. apply Z.mod_pow2_bits_high. destruct (Z.ltb_spec w 0); [|lia].
  rewrite Z.pow_neg_r in Hx by done. lia. Qed.

Lemma clear_ldiff w x m : 0 <= w -> 0 <= x < 2 ^ w -> clear w x m = Z.ldiff x m.
Proof.
  intros Hw Hx. unfold clear. apply Z.bits_inj'; intros i Hi. rewrite Z.ldiff_spec, Z.land_spec.
  destruct (Z.ltb_spec i w); [|by rewrite (testbit_high w x i)].
  f_equal. rewrite <- (Z.mod_pow2_bits_low (2 ^ w - 1 - m) w), <- Z.lnot_spec, <- (Z.mod_pow2_bits_low (Z.lnot m) w) by done.
  f_equal. replace (2 ^ w - 1 - m) with (Z.lnot m + 1 * 2 ^ w) by (rewrite Z.lnot_eq_pred_opp; lia).
  apply Z.mod_add. lia.
Qed.

Lemma clear_highbit w x : 0 <= w -> 0 < x < 2 ^ w ->
  clear w x (1 << (fls x - 1)) = x - 2 ^ Z.log2 x /\ 0 <= x - 2 ^ Z.log2 x < 2 ^ Z.log2 x.
Proof.
  intros Hw Hx. unfold fls. rewrite (proj2 (Z.eqb_neq x 0)) by lia. rewrite Z.add_simpl_r, clear_ldiff by lia.
  rewrite Z.shiftl_1_l. pose proof (Z.log2_spec x ltac:(lia)) as HL. rewrite Z.pow_succ_r in HL by apply Z.log2_nonneg.
  split; [|lia]. rewrite <- Z.sub_nocarry_ldiff; [done|].
  apply Z.bits_inj'; intros i Hi. rewrite Z.ldiff_spec, Z.bits_0, Z.pow2_bits_eqb by apply Z.log2_nonneg.
  destruct (Z.eqb_spec (Z.log2 x) i) as [<-|]; [|done]. by rewrite Z.bit_log2 by lia.
Qed.

Definition submask (a b : Z) : Prop := a & b = a.

Lemma submask_ldiff x m : submask (Z.ldiff x m) x.
Proof.
  apply Z.bits_inj'; intros i Hi. rewrite Z.land_spec, Z.ldiff_spec. by destruct (Z.testbit x i), (Z.testbit m i).
Qed.

Lemma submask_land a b : submask (a & b) a.
Proof.
  apply Z.bits_inj'; intros i Hi. rewrite !Z.land_spec. by destruct (Z.testbit a i), (Z.testbit b i).
Qed.

Lemma submask_trans a b c : submask a b -> submask b c -> submask a c.
Proof. unfold submask. intros <- H2. by rewrite <- Z.land_assoc, H2. Qed.

Lemma submask_le a b : 0 <= b -> submask a b -> 0 <= a <= b.
Proof. intros Hb <-. rewrite Z.land_comm. by apply land_le_l. Qed.

(** Packing is the inverse of unpacking. *)
Lemma pack_unpack x : 0 <= x < 2 ^ 20 ->
  let '(p, m, u) := ata_unpack_xfermask x in ata_pack_xfermask p m u = x.
Proof.
  intros Hx. unfold ata_unpack_xfermask, ata_pack_xfermask.
  change ATA_MASK_PIO with (Z.ones 7 << 0). change ATA_MASK_MWDMA with (Z.ones 5 << 7).
  change ATA_MASK_UDMA with (Z.ones 8 << 12). change ATA_SHIFT_PIO with 0. change ATA_SHIFT_MWDMA with 7.
  change ATA_SHIFT_UDMA with 12.
  apply Z.bits_inj'; intros i Hi. unfold wrap. rewrite !Z.lor_spec, !Z.land_spec.
  rewrite !Z.shiftl_spec by lia.
  assert (HB : forall y, Z.testbit (y mod 2 ^ 32) i = (i <? 32) && Z.testbit y i).
  { intros y. destruct (Z.ltb_spec i 32); [apply Z.mod_pow2_bits_low|apply Z.mod_pow2_bits_high]; lia. }
  rewrite !HB, !Z.shiftl_spec by lia.
  destruct (Z.ltb_spec i 20); [|rewrite (testbit_high 20 x i) by lia;
    rewrite !Z.testbit_ones by lia; 
    rewrite (proj2 (Z.ltb_ge (i - 0) 7)), (proj2 (Z.ltb_ge (i - 7) 5)), (proj2 (Z.ltb_ge (i - 12) 8)) by lia;
    by rewrite !andb_false_r].
  assert (i = 0 \/ i = 1 \/ i = 2 \/ i = 3 \/ i = 4 \/ i = 5 \/ i = 6 \/ i = 7 \/ i = 8 \/ i = 9 \/ i = 10 \/
    i = 11 \/ i = 12 \/ i = 13 \/ i = 14 \/ i = 15 \/ i = 16 \/ i = 17 \/ i = 18 \/ i = 19) as Hc by lia.
  repeat destruct Hc as [->|Hc]; try subst i; cbn [Z.ltb Z.compare Pos.compare Pos.compare_cont andb];
    rewrite ?Z.testbit_neg_r, ?orb_false_r by lia; rewrite ?Z.shiftr_spec, ?Z.land_spec, ?Z.shiftl_spec by lia;
    cbn; rewrite ?andb_true_r, ?andb_false_r, ?orb_false_r; done.
Qed.

Definition pack (masks : Z * Z * Z) : Z := let '(p, m, u) := masks in ata_pack_xfermask p m u.

Lemma pack_range masks : 0 <= pack masks < 2 ^ 20.
Proof.
  destruct masks as [[p m] u]. cbn [pack]. enough (ata_pack_xfermask p m u & Z.ones 20 = ata_pack_xfermask p m u) as <-.
  { rewrite Z.land_ones by lia. apply Z.mod_pos_bound. lia. }
  unfold ata_pack_xfermask. rewrite !Z.land_lor_distr_l, <- !Z.land_assoc. done.
Qed.

(** How often the limit can be lowered in a row. *)
Fixpoint gear_down (fuel : nat) (masks : Z * Z * Z) : option nat :=
  let '(rc, masks') := ata_down_xfermask_limit masks false in
  if rc =? 0 then match fuel with O => None | S fuel => S <$> gear_down fuel masks' end else Some 0%nat.

Lemma down_step masks force :
  let '(rc, masks') := ata_down_xfermask_limit masks force in
  if rc =? 0 then 0 < pack masks' /\ submask (pack masks') (pack masks) /\ Z.log2 (pack masks') < Z.log2 (pack masks)
  else rc = - EINVAL /\ masks' = masks.
Proof.
  pose proof (pack_range masks) as HR. destruct masks as [[p m] u] eqn:Em. unfold ata_down_xfermask_limit.
  cbn [pack] in HR. set (x := ata_pack_xfermask p m u) in *. change (pack (p, m, u)) with x.
  destruct (Z.eqb_spec x 0) as [|Hx]; [done|].
  set (y := if has x ATA_MASK_UDMA then clear 64 x ATA_MASK_MWDMA else x).
  assert (Hy : submask y x /\ 0 < y).
  { unfold y. destruct (has x ATA_MASK_UDMA) eqn:Eu; [|split; [apply Z.land_diag|lia]].
    rewrite clear_ldiff by lia. split; [apply submask_ldiff|].
    assert (0 <= Z.ldiff x ATA_MASK_MWDMA) by (apply Z.ldiff_nonneg; lia).
    destruct (Z.eq_dec (Z.ldiff x ATA_MASK_MWDMA) 0) as [E0|]; [|lia]. exfalso.
    unfold has in Eu. apply negb_true_iff, Z.eqb_neq in Eu. apply Eu. apply Z.bits_inj'; intros i Hi.
    assert (Z.testbit (Z.ldiff x ATA_MASK_MWDMA) i = false) as Hb by (rewrite E0; apply Z.bits_0).
    assert (Z.testbit (ATA_MASK_UDMA & ATA_MASK_MWDMA) i = false) as Hd by (change (ATA_MASK_UDMA & ATA_MASK_MWDMA) with 0; apply Z.bits_0).
    rewrite Z.ldiff_spec in Hb. rewrite Z.land_spec in *. rewrite Z.bits_0.
    destruct (Z.testbit x i), (Z.testbit ATA_MASK_UDMA i), (Z.testbit ATA_MASK_MWDMA i); done. }
  destruct Hy as [Hyx Hy0]. pose proof (submask_le y x ltac:(lia) Hyx) as Hyle.
  destruct (clear_highbit 64 y) as [Ec Hc]; [lia|lia|]. 
  assert (Hz : submask (clear 64 y (1 << (fls y - 1))) y) by (rewrite clear_ldiff by lia; apply submask_ldiff).
  set (z := clear 64 y (1 << (fls y - 1))) in *. clearbody y.
  set (z' := if force then z & (1 << ATA_SHIFT_PIO) else z).
  assert (Hz' : submask z' z) by (unfold z'; destruct force; [apply submask_land|apply Z.land_diag]).
  rewrite <- Ec in Hc. pose proof (submask_le z' z ltac:(lia) Hz') as Hzle. clearbody z'.
  destruct (Z.eqb_spec z' 0) as [|Hn]; [done|]. pose proof (pack_unpack z' ltac:(lia)) as HP.
  destruct (ata_unpack_xfermask z') as [[p' m'] u']. cbn [Z.eqb pack]. rewrite HP.
  split; [lia|]. split; [by eapply submask_trans, submask_trans|].
  apply Z.lt_le_trans with (Z.log2 y); [apply Z.log2_lt_pow2; lia|apply Z.log2_le_mono; lia].
Qed.

(** Gearing down a device ends: each successful call leaves at least one
    mode, only modes that were allowed before, and a lower fastest mode; a
    failing call changes nothing; and from any masks the limit can be lowered
    at most 19 times in a row. *)
Theorem ata_down_xfermask_terminates masks :
  (forall force, let '(rc, masks') := ata_down_xfermask_limit masks force in
   if rc =? 0 then 0 < pack masks' /\ submask (pack masks') (pack masks) /\ Z.log2 (pack masks') < Z.log2 (pack masks)
   else rc = - EINVAL /\ masks' = masks) /\
  exists n, gear_down 19 masks = Some n.
Proof.
  split; [intros force; apply down_step|].
  assert (Z.log2 (pack masks) <= Z.of_nat 19) as H.
  { pose proof (pack_range masks). destruct (Z.eq_dec (pack masks) 0) as [->|]; [cbn; lia|].
    enough (Z.log2 (pack masks) < 20) by lia. apply Z.log2_lt_pow2; lia. }
  revert masks H. generalize 19%nat. induction n as [|n IH]; intros masks H; cbn [gear_down];
    pose proof (down_step masks false) as HD; destruct (ata_down_xfermask_limit masks false) as [rc masks'];
    destruct (rc =? 0); try by exists 0%nat.
  - pose proof (Z.log2_nonneg (pack masks')). lia.
  - destruct (IH masks') as [k ->]; [lia|]. by exists (S k).
Qed.

(** ** Timing *)

(** The eight intervals. *)
Definition intervals (t : ata_timing) : list Z :=
  [t_setup t; t_act8b t; t_rec8b t; t_cyc8b t; t_active t; t_recover t; t_cycle t; t_udma t].
Definition wf_timing (t : ata_timing) : Prop := Forall (λ x, 0 <= x < 2 ^ 16) (intervals t).

(** Clock counts [t] are at least the intervals [s] in nanoseconds; the clock
    periods are in picoseconds. *)
Definition covers (T UT : Z) (s t : ata_timing) : Prop :=
  Forall2 (λ x n, x * 1000 <= n * T) (take 7 (intervals s)) (take 7 (intervals t)) /\ t_udma s * 1000 <= t_udma t * UT.
Definition longer_than (s t : ata_timing) : Prop := Forall2 Z.le (intervals s) (intervals t).

Ltac fields H := unfold wf_timing, covers, longer_than, intervals in H; cbn [take] in H; 
  repeat match type of H with
  | Forall _ (_ :: _) => let H1 := fresh in apply Forall_cons in H as [H1 H]
  | Forall2 _ (_ :: _) (_ :: _) => let H1 := fresh in apply Forall2_cons in H as [H1 H]
  end.

Lemma covers_longer T UT s t t' : 0 < T -> 0 < UT -> covers T UT s t -> longer_than t t' -> covers T UT s t'.
Proof.
  intros HT HU [H1 H2] H3. fields H1. fields H3. unfold covers, intervals. cbn [take].
  split; [|nia]. repeat (apply Forall2_cons; split; [nia|]). constructor.
Qed.

Lemma EZ_spec v unit : 0 <= v < 2 ^ 16 -> 1000 <= unit ->
  v * 1000 <= EZ (v * 1000) unit * unit /\ 0 <= EZ (v * 1000) unit < 2 ^ 16.
Proof.
  intros Hv Hu. unfold EZ, ENOUGH. destruct (Z.eqb_spec (v * 1000) 0); [lia|].
  rewrite Z.quot_div_nonneg by lia. pose proof (Z.div_mod (v * 1000 - 1) unit ltac:(lia)).
  pose proof (Z.mod_pos_bound (v * 1000 - 1) unit ltac:(lia)).
  assert ((v * 1000 - 1) / unit <= (v * 1000 - 1) / 1000) by (apply Z.div_le_compat_l; lia).
  assert ((v * 1000 - 1) / 1000 < v) by (apply Z.div_lt_upper_bound; lia).
  assert (0 <= (v * 1000 - 1) / unit) by (apply Z.div_pos; lia). split; [lia|lia].
Qed.

Lemma quantize_covers T UT s : wf_timing s -> 1000 <= T -> 1000 <= UT ->
  covers T UT s (ata_timing_quantize s T UT) /\ wf_timing (ata_timing_quantize s T UT).
Proof.
  intros W HT HU. fields W.
  repeat match goal with H : 0 <= ?f s < _ |- _ =>
    lazymatch f with
    | t_udma => pose proof (EZ_spec (f s) UT H HU)
    | _ => pose proof (EZ_spec (f s) T H HT)
    end; revert H end; intros.
  unfold covers, wf_timing, intervals, ata_timing_quantize. cbn [take t_setup t_act8b t_rec8b t_cyc8b t_active t_recover t_cycle t_udma].
  rewrite !wrap_small by (try apply EZ_spec; lia).
  split; [split; [|lia]; repeat (apply Forall2_cons; split; [lia|]); constructor|].
  repeat (apply Forall_cons; split; [lia|]). constructor.
Qed.

Lemma lengthen_ok t : wf_timing t -> longer_than t (lengthen t) /\ wf_timing (lengthen t) /\
  t_cyc8b (lengthen t) <= t_act8b (lengthen t) + t_rec8b (lengthen t) /\
  t_cycle (lengthen t) <= t_active (lengthen t) + t_recover (lengthen t).
Proof.
  intros W. fields W. unfold longer_than, wf_timing, lengthen, intervals.
  destruct (Z.ltb_spec (t_act8b t + t_rec8b t) (t_cyc8b t)) as [H8|H8];
    cbn [t_setup t_act8b t_rec8b t_cyc8b t_active t_recover t_cycle t_udma];
    destruct (Z.ltb_spec (t_active t + t_recover t) (t_cycle t)) as [Hc|Hc];
    cbn [t_setup t_act8b t_rec8b t_cyc8b t_active t_recover t_cycle t_udma];
    rewrite ?Z.quot_div_nonneg by lia;
    repeat match goal with |- context [u16 ?x] => rewrite (wrap_small 16 x) by arith end;
    (split; [repeat (apply Forall2_cons; split; [arith|]); constructor|]);
    (split; [repeat (apply Forall_cons; split; [arith|]); constructor|]); split; arith.
Qed.

Lemma table_wf s speed : ata_timing_find_mode speed = Some s -> wf_timing s.
Proof.
  intros [H _]%find_some. assert (Forall wf_timing ata_timing_table) as HF.
  { unfold ata_timing_table. repeat (apply Forall_cons; split; [repeat (apply Forall_cons; split; [cbn; lia|]); constructor|]). constructor. }
  rewrite Forall_forall in HF. by apply HF, list_elem_of_In.
Qed.

Definition words (id : list Z) : Prop := Forall (λ x, 0 <= x < 2 ^ 16) id.
Lemma word_range id i : words id -> 0 <= id_word id i < 2 ^ 16.
Proof.
  intros H. unfold id_word. destruct (nth_lookup_or_length id i 0) as [E|E].
  - by eapply (Forall_lookup_1 _ _ i _ H).
  - rewrite nth_overflow; lia.
Qed.

(** What the drive's own page asks the cycle to be, 0 if nothing. *)
Definition asked (id : list Z) (speed : Z) : Z :=
  if has (id_word id ATA_ID_FIELD_VALID) 2 then t_cycle (eide_timing id speed) else 0.

Lemma eide_wf id speed : words id -> wf_timing (eide_timing id speed).
Proof.
  intros H. unfold eide_timing. repeat case_match; repeat (apply Forall_cons; split; [cbn; try apply (word_range _ _ H); lia|]); constructor.
Qed.

Lemma merge_cycles e s : ata_timing_merge e s s (ATA_TIMING_CYCLE |' ATA_TIMING_CYC8B) =
  Timing (t_mode s) (t_setup s) (t_act8b s) (t_rec8b s) (Z.max (t_cyc8b e) (t_cyc8b s))
    (t_active s) (t_recover s) (Z.max (t_cycle e) (t_cycle s)) (t_udma s).
Proof. reflexivity. Qed.

Lemma merge_all p t : ata_timing_merge p t t ATA_TIMING_ALL =
  Timing (t_mode t) (Z.max (t_setup p) (t_setup t)) (Z.max (t_act8b p) (t_act8b t)) (Z.max (t_rec8b p) (t_rec8b t))
    (Z.max (t_cyc8b p) (t_cyc8b t)) (Z.max (t_active p) (t_active t)) (Z.max (t_recover p) (t_recover t))
    (Z.max (t_cycle p) (t_cycle t)) (Z.max (t_udma p) (t_udma t)).
Proof. reflexivity. Qed.

Lemma adjust_ok id speed s : words id -> wf_timing s ->
  wf_timing (adjust id speed s) /\ longer_than s (adjust id speed s) /\ asked id speed <= t_cycle (adjust id speed s).
Proof.
  intros Hid W. pose proof (eide_wf id speed Hid) as We. fields W. unfold adjust, asked.
  destruct (has (id_word id ATA_ID_FIELD_VALID) 2).
  - generalize dependent (eide_timing id speed). intros e We. fields We. rewrite merge_cycles.
    unfold wf_timing, longer_than, intervals. cbn -[Z.max Z.le Z.lt Z.pow].
    split; [repeat (apply Forall_cons; split; [lia|]); constructor|].
    split; [repeat (apply Forall2_cons; split; [lia|]); constructor|lia].
  - split; [repeat (apply Forall_cons; split; [lia|]); constructor|].
    split; [repeat (apply Forall2_cons; split; [lia|]); constructor|cbn; lia].
Qed.

Lemma merge_all_ok p t : wf_timing p -> wf_timing t ->
  wf_timing (ata_timing_merge p t t ATA_TIMING_ALL) /\
  longer_than p (ata_timing_merge p t t ATA_TIMING_ALL) /\ longer_than t (ata_timing_merge p t t ATA_TIMING_ALL).
Proof.
  intros Wp Wt. fields Wp. fields Wt. rewrite merge_all. unfold wf_timing, longer_than, intervals. cbn -[Z.max Z.le Z.lt Z.pow].
  split; [repeat (apply Forall_cons; split; [lia|]); constructor|].
  split; repeat (apply Forall2_cons; split; [lia|]); constructor.
Qed.

Section timing.
Context (id : list Z) (T UT : Z) (Hid : words id) (HT : 1000 <= T) (HU : 1000 <= UT).

(** The clock counts of one mode. *)
Lemma quantized speed s : ata_timing_find_mode speed = Some s ->
  let t := ata_timing_quantize (adjust id speed s) T UT in
  wf_timing t /\ covers T UT s t /\ asked id speed * 1000 <= t_cycle t * T.
Proof.
  intros Hs. pose proof (table_wf s speed Hs) as Ws. destruct (adjust_ok id speed s Hid Ws) as (Wa & La & Ha).
  destruct (quantize_covers T UT _ Wa HT HU) as [Hc Wq]. cbv zeta. split; [done|].
  generalize dependent (ata_timing_quantize (adjust id speed s) T UT). intros t [C1 C2] Wt.
  generalize dependent (adjust id speed s). intros a Wa La Ha C1 C2. fields C1. fields La. unfold covers, intervals. cbn [take].
  split; [split; [|lia]|lia]. repeat (apply Forall2_cons; split; [lia|]). constructor.
Qed.

Lemma longer_cycle t t' c : longer_than t t' -> c <= t_cycle t * T -> c <= t_cycle t' * T.
Proof. intros L H. fields L. nia. Qed.

Lemma pio_timing pio_mode g t0 s fuel : (1 <= fuel)%nat -> pio_mode <= XFER_PIO_4 -> ata_timing_find_mode pio_mode = Some s ->
  ata_timing_compute fuel id pio_mode g t0 pio_mode T UT
  = Some (0, lengthen (ata_timing_quantize (adjust id pio_mode s) T UT)).
Proof.
  intros Hf Hp Hs. destruct fuel as [|fuel]; [lia|]. cbn [ata_timing_compute]. rewrite Hs.
  by rewrite (proj2 (Z.ltb_ge _ _)).
Qed.
End timing.

(** C39: For every mode of the table and a PIO mode up to 4, the timing is
    found with one level of recursion, and the clock counts are long enough:
    each interval of the mode, the cycle time the drive asks for, and cycle times
    within active plus recovery time; for a DMA mode they also cover the PIO mode
    that IDENTIFY and other commands still use. *)
Theorem ata_timing_covers id pio_mode garbage t0 speed s T UT :
  words id -> 1000 <= T -> 1000 <= UT -> XFER_PIO_0 <= pio_mode <= XFER_PIO_4 ->
  ata_timing_find_mode speed = Some s ->
  exists t, (forall fuel, (2 <= fuel)%nat -> ata_timing_compute fuel id pio_mode garbage t0 speed T UT = Some (0, t)) /\
    covers T UT s t /\ asked id speed * 1000 <= t_cycle t * T /\
    t_cyc8b t <= t_act8b t + t_rec8b t /\ t_cycle t <= t_active t + t_recover t /\
    (XFER_PIO_4 < speed -> exists sp, ata_timing_find_mode pio_mode = Some sp /\
      covers T UT sp t /\ asked id pio_mode * 1000 <= t_cycle t * T).
Proof.
  intros Hid HT HU Hp Hs. destruct (quantized id T UT Hid HT HU speed s Hs) as (Wq & Cq & Aq).
  destruct (Z.ltb_spec XFER_PIO_4 speed) as [Hsp|Hsp].
  - assert (exists sp, ata_timing_find_mode pio_mode = Some sp) as [sp Hpm].
    { assert (pio_mode = 8 \/ pio_mode = 9 \/ pio_mode = 10 \/ pio_mode = 11 \/ pio_mode = 12) as Hc
        by (unfold XFER_PIO_0, XFER_PIO_4 in Hp; lia).
      repeat destruct Hc as [->|Hc]; try subst pio_mode; eexists; reflexivity. }
    destruct (quantized id T UT Hid HT HU pio_mode sp Hpm) as (Wp & Cp & Ap).
    destruct (lengthen_ok _ Wp) as (Lp & Wp' & _).
    set (p := lengthen (ata_timing_quantize (adjust id pio_mode sp) T UT)) in *.
    set (q := ata_timing_quantize (adjust id speed s) T UT) in *.
    destruct (merge_all_ok p q Wp' Wq) as (Wm & Lm1 & Lm2). destruct (lengthen_ok _ Wm) as (Ll & Wl & H1 & H2).
    exists (lengthen (ata_timing_merge p q q ATA_TIMING_ALL)). split.
    + intros fuel Hf. destruct fuel as [|fuel]; [lia|]. cbn [ata_timing_compute]. rewrite Hs.
      rewrite (proj2 (Z.ltb_lt _ _)) by done. cbv zeta. rewrite (pio_timing id T UT pio_mode _ _ sp fuel) by (done || lia). done.
    + assert (0 < T /\ 0 < UT) as [HT0 HU0] by lia.
      split; [by eapply covers_longer; [| |eapply covers_longer; [| |exact Cq|exact Lm2]|exact Ll]|].
      split; [by eapply longer_cycle; [|exact Ll|eapply longer_cycle; [|exact Lm2|exact Aq]]|].
      split; [done|]. split; [done|]. intros _. exists sp. split; [done|].
      split; [by eapply covers_longer; [| |eapply covers_longer; [| |eapply covers_longer; [| |exact Cp|exact Lp]|exact Lm1]|exact Ll]|].
      by eapply longer_cycle; [|exact Ll|eapply longer_cycle; [|exact Lm1|eapply longer_cycle; [|exact Lp|exact Ap]]].
  - destruct (lengthen_ok _ Wq) as (Ll & Wl & H1 & H2). exists (lengthen (ata_timing_quantize (adjust id speed s) T UT)).
    split.
    + intros fuel Hf. destruct fuel as [|fuel]; [lia|]. cbn [ata_timing_compute]. rewrite Hs.
      by rewrite (proj2 (Z.ltb_ge _ _)).
    + assert (0 < T /\ 0 < UT) as [HT0 HU0] by lia.
      split; [by eapply covers_longer|]. split; [by eapply longer_cycle|]. split; [done|]. split; [done|]. lia.
Qed.

(** With a CompactFlash PIO mode 5 or 6 the recursion meets itself: the
    timing of any mode above PIO 4 is computed for ever. *)
Theorem ata_timing_diverges id pio_mode garbage t0 speed s T UT fuel :
  pio_mode = XFER_PIO_5 \/ pio_mode = 0x0E -> ata_timing_find_mode speed = Some s -> XFER_PIO_4 < speed ->
  ata_timing_compute fuel id pio_mode garbage t0 speed T UT = None.
Proof.
  intros Hp. assert (exists sp, ata_timing_find_mode pio_mode = Some sp /\ XFER_PIO_4 < pio_mode) as (sp & Hsp & H4).
  { destruct Hp as [-> | ->]; eexists; (split; [reflexivity|done]). }
  revert garbage t0 speed s. induction fuel as [|fuel IH]; intros garbage t0 speed s Hs Hsp4; [done|].
  cbn [ata_timing_compute]. rewrite Hs, (proj2 (Z.ltb_lt _ _)) by done. cbv zeta.
  by rewrite (IH _ _ pio_mode sp).
Qed.

(** ** Modes and masks, link speed *)

(** The bit of a mode is the highest bit of its mask. *)
Lemma mode_mask_roundtrip mode : existsb (in_row mode) ata_xfer_tbl = true ->
  ata_xfer_mask2mode (ata_xfer_mode2mask mode) = mode.
Proof.
  intros H. assert (0 <= mode < 0x48) as Hr.
  { cbn in H. unfold XFER_UDMA_0, XFER_MW_DMA_0, XFER_PIO_0, ATA_BITS_PIO, ATA_BITS_MWDMA, ATA_BITS_UDMA in H.
    rewrite !orb_true_iff, !andb_true_iff, !Z.leb_le, !Z.ltb_lt in H. lia. }
  assert (forallb (fun m => negb (existsb (in_row m) ata_xfer_tbl) ||
    (ata_xfer_mask2mode (ata_xfer_mode2mask m) =? m)) (seqZ 0 0x48) = true) as HF by (vm_compute; reflexivity).
  apply (forall_below _ _ HF) in Hr. rewrite H in Hr. by apply Z.eqb_eq.
Qed.

(** Once written, the control register asks for no further change, and only
    its speed field differs. *)
Lemma sata_set_spd_settles scontrol limit v : 0 <= scontrol < 2 ^ 32 -> 0 <= limit < 2 ^ 15 ->
  sata_set_spd (0, scontrol) limit 0 = (1, Some v) -> sata_set_spd_needed (0, v) limit = false /\
  clear 32 v 0xf0 = clear 32 scontrol 0xf0.
Proof.
  intros Hs Hl. unfold sata_set_spd, sata_set_spd_needed, __sata_set_spd_needed. cbn [fst snd negb Z.eqb].
  rewrite (proj2 (Z.eqb_neq limit UINT_MAX)) by (unfold UINT_MAX; lia).
  assert (Hf : 0 <= fls limit < 16).
  { unfold fls. destruct (Z.eqb_spec limit 0); [lia|]. pose proof (Z.log2_nonneg limit).
    assert (Z.log2 limit < 15) by (apply Z.log2_lt_pow2; lia). lia. }
  generalize dependent (fls limit). intros f Hf. case_match; [done|]. intros [= <-].
  assert (E : f & 0xf = f) by (change 0xf with (Z.ones 4); rewrite Z.land_ones by lia; apply Z.mod_small; lia).
  rewrite E. assert (Hv : 0 <= clear 32 scontrol 0xf0 |' (f << 4) < 2 ^ 32).
  { split; [apply Z.lor_nonneg; split; [apply Z.land_nonneg; left; lia|rewrite Z.shiftl_nonneg; lia]|].
    rewrite clear_ldiff by lia. destruct (Z.eq_dec (Z.ldiff scontrol 0xf0 |' (f << 4)) 0) as [->|Hn]; [lia|].
    apply Z.log2_lt_cancel. rewrite Z.log2_lor; [|apply Z.ldiff_nonneg; lia|rewrite Z.shiftl_nonneg; lia].
    change (Z.log2 (2 ^ 32)) with 32. assert (Z.log2 (Z.ldiff scontrol 0xf0) < 32).
    { destruct (submask_le (Z.ldiff scontrol 0xf0) scontrol ltac:(lia) (submask_ldiff _ _)).
      apply Z.le_lt_trans with (Z.log2 scontrol); [apply Z.log2_le_mono; lia|].
      destruct (Z.eq_dec scontrol 0) as [->|]; [cbn; lia|]. apply Z.log2_lt_pow2; lia. }
    assert (f << 4 < 2 ^ 8) by (rewrite Z.shiftl_mul_pow2 by lia; lia).
    assert (Z.log2 (f << 4) < 32); [|lia]. apply Z.le_lt_trans with (Z.log2 (2 ^ 8)); [apply Z.log2_le_mono; apply Z.lt_le_incl; done|done]. }
  split.
  - apply negb_false_iff, Z.eqb_eq. rewrite clear_ldiff by lia.
    apply Z.bits_inj'; intros i Hi. rewrite Z.land_spec, Z.shiftr_spec, Z.lor_spec, Z.ldiff_spec, Z.shiftl_spec by lia.
    change 0xf with (Z.ones 4). change 0xf0 with (Z.ones 4 << 4). rewrite Z.shiftl_spec, Z.testbit_ones by lia.
    rewrite Z.add_simpl_r. destruct (Z.ltb_spec i 4).
    + rewrite (proj2 (Z.leb_le 0 i)) by lia. rewrite Z.testbit_ones, (proj2 (Z.leb_le 0 i)), (proj2 (Z.ltb_lt i 4)) by lia. cbn.
      by destruct (Z.testbit scontrol (i + 4)), (Z.testbit f i).
    + rewrite (testbit_high 4 f i), (Z.testbit_ones 4 i), (proj2 (Z.ltb_ge i 4)) by lia. by rewrite !andb_false_r.
  - rewrite clear_ldiff, clear_ldiff by (done || lia). rewrite clear_ldiff in Hv by lia.
    apply Z.bits_inj'; intros i Hi. rewrite !Z.ldiff_spec, Z.lor_spec, Z.ldiff_spec.
    change 0xf0 with (Z.ones 4 << 4). rewrite !Z.shiftl_spec, Z.testbit_ones by lia.
    destruct (Z.leb_spec 0 (i - 4)), (Z.ltb_spec (i - 4) 4); cbn; rewrite ?andb_false_r, ?andb_true_r, ?orb_false_r; try done; try lia.
    + rewrite (testbit_high 4 f) by lia. by repeat match goal with |- context [Z.testbit ?a ?b] => destruct (Z.testbit a b) end.
    + rewrite (Z.testbit_neg_r f) by lia. by repeat match goal with |- context [Z.testbit ?a ?b] => destruct (Z.testbit a b) end.
Qed.

(** ** Witnesses *)

Definition id1 : list Z := <[53%nat := 6]> (<[67%nat := 240]> (<[65%nat := 150]> (replicate 256 0))).
Lemma id1_words : words id1.
Proof.
  apply Forall_forall. intros x Hx%list_elem_of_In.
  assert (forallb (fun x => (0 <=? x) && (x <? 2 ^ 16)) id1 = true) as HF by (vm_compute; reflexivity).
  rewrite forallb_forall in HF. specialize (HF x Hx). unbool. lia.
Qed.

(** MWDMA 2 of an EIDE drive in PIO mode 2 on a 33 MHz bus. *)
Lemma ata_timing_covers_witness : exists t,
  (forall fuel, (2 <= fuel)%nat ->
    ata_timing_compute fuel id1 0x0A (Timing 0 0 0 0 0 0 0 0 0) (Timing 0 0 0 0 0 0 0 0 0) 0x22 30000 30000 = Some (0, t)) /\
  covers 30000 30000 (Timing 0x22 25 0 0 0 70 25 120 0) t /\ 150 * 1000 <= t_cycle t * 30000.
Proof.
  destruct (ata_timing_covers id1 0x0A (Timing 0 0 0 0 0 0 0 0 0) (Timing 0 0 0 0 0 0 0 0 0) 0x22
    (Timing 0x22 25 0 0 0 70 25 120 0) 30000 30000) as (t & H1 & H2 & H3 & _).
  - exact id1_words.
  - lia.
  - lia.
  - vm_compute. split; discriminate.
  - reflexivity.
  - exists t. split; [exact H1|]. split; [exact H2|exact H3].
Defined.
