(* ===== verification/Mempool.v ===== *)
(** Guaranteed memory pools: [mm/mempool.c].

    Any number of threads run [mempool_alloc], [mempool_free] and
    [mempool_resize] on one pool. A thread's program counter is the point where
    it continues next; what a thread does under [pool->lock] is one step, and so
    is a test outside the lock and a call of the owner's [alloc] or [free]
    function, during which the other threads run. Elements are addresses, the
    answer of an allocator is [None] for NULL. *)

From stdpp Require Import list_tactics.
From S2P Require Import Prelude.
Local Open Scope Z_scope.

(** ** The pool *)

(** [elements] is the whole array, the cells from [curr_nr] on hold garbage. *)
Record mempool_t := Pool {
  min_nr : Z;
  curr_nr : Z;
  elements : list Z;
}.

(** A critical section ends with a result, meets a BUG_ON or touches memory
    outside the array. *)
Inductive outcome (A : Type) :=
| Done (a : A)
| Bug
| Overrun.
Arguments Done {A} _.
Arguments Bug {A}.
Arguments Overrun {A}.

Definition bind {A B} (m : outcome A) (k : A -> outcome B) : outcome B :=
  match m with
  | Done a => k a
  | Bug => Bug
  | Overrun => Overrun
  end.
Local Notation "x <- m ; k" := (bind m (fun x => k)) (at level 100, m at next level, right associativity).

Definition add_element (pool : mempool_t) (element : Z) : outcome mempool_t :=
  if min_nr pool <=? curr_nr pool then Bug
  else if (0 <=? curr_nr pool) && (curr_nr pool <? Z.of_nat (length (elements pool))) then
    Done (Pool (min_nr pool) (curr_nr pool + 1) (<[Z.to_nat (curr_nr pool) := element]> (elements pool)))
  else Overrun.

Definition remove_element (pool : mempool_t) : outcome (Z * mempool_t) :=
  if curr_nr pool <=? 0 then Bug
  else match elements pool !! Z.to_nat (curr_nr pool - 1) with
  | Some element => Done (element, Pool (min_nr pool) (curr_nr pool - 1) (elements pool))
  | None => Overrun
  end.

(** The elements given to [pool->free], in order. The loop runs [curr_nr]
    times, which is the fuel. *)
Fixpoint free_pool_loop (fuel : nat) (pool : mempool_t) : outcome (list Z) :=
  if curr_nr pool =? 0 then Done []
  else match fuel with
  | O => Overrun
  | S fuel =>
      r <- remove_element pool;
      freed <- free_pool_loop fuel r.2;
      Done (r.1 :: freed)
  end.

Definition free_pool (pool : mempool_t) : outcome (list Z) :=
  free_pool_loop (Z.to_nat (curr_nr pool)) pool.

Definition mempool_destroy (pool : mempool_t) : outcome (list Z) :=
  if curr_nr pool =? min_nr pool then free_pool pool else Bug.

(** The loop that fills a new pool: [alloc] answers the calls in order. The
    left component is NULL with the elements freed again, the right one the
    pool. *)
Fixpoint fill (fuel : nat) (alloc : nat -> option Z) (pool : mempool_t) : outcome (list Z + mempool_t) :=
  if curr_nr pool <? min_nr pool then
    match fuel with
    | O => Overrun
    | S fuel =>
        match alloc O with
        | None => freed <- free_pool pool; Done (inl freed)
        | Some element =>
            pool <- add_element pool element;
            fill fuel (fun k => alloc (S k)) pool
        end
    end
  else Done (inr pool).

(** [descriptor] and [array] are the answers of the two [kmalloc_node] calls,
    the second with what the memory holds. *)
Definition mempool_create_node (min : Z) (descriptor : bool) (array : option (list Z))
    (alloc : nat -> option Z) : outcome (list Z + mempool_t) :=
  if descriptor then
    match array with
    | None => Done (inl [])
    | Some array => fill (Z.to_nat min) alloc (Pool min 0 array)
    end
  else Done (inl []).

Definition mempool_create := mempool_create_node.

(** ** The threads *)

Definition __GFP_WAIT : Z := 16.
Definition __GFP_IO : Z := 64.
Definition __GFP_NOWARN : Z := 512.
Definition __GFP_NORETRY : Z := 4096.
Definition __GFP_NOMEMALLOC : Z := 65536.

Inductive pc :=
| Idle
| AllocCall (gfp_temp : Z)        (* mempool_alloc: before pool->alloc *)
| AllocLock                       (* after it failed *)
| FreeTest (element : Z)          (* mempool_free: the test outside the lock *)
| FreeLock (element : Z)          (* the test inside *)
| FreeCall (element : Z)          (* before pool->free *)
| ResizeStart (n gfp : Z)         (* mempool_resize: takes the lock *)
| ShrinkFree (element n : Z)      (* lock dropped to free [element] *)
| ShrinkLoop (n : Z)              (* lock taken again *)
| GrowArray (n gfp : Z)           (* before kmalloc of the new array *)
| GrowLock (n gfp : Z) (array : list Z)
| GrowCall (gfp : Z)              (* lock dropped to allocate *)
| GrowAdd (element gfp : Z)       (* lock taken again *)
| GrowFree (element : Z).         (* raced: before pool->free *)

(** What a step shows: calls of the owner's functions, of the allocator of the
    array and returns to the caller. *)
Inductive event :=
| Alloc (gfp : Z) (element : option Z)
| Free (element : Z)
| ReturnElement (element : option Z)
| ReturnVoid
| ReturnInt (r : Z).

(** The environment's answer to a call: an element, an array or NULL. *)
Inductive answer :=
| Element (e : Z)
| Array (a : list Z)
| Null.

Definition ENOMEM : Z := 12.

Definition mempool_alloc_entry (gfp_mask : Z) : pc :=
  let gfp_mask := Z.lor (Z.lor (Z.lor gfp_mask __GFP_NOMEMALLOC) __GFP_NORETRY) __GFP_NOWARN in
  AllocCall (Z.ldiff gfp_mask (Z.lor __GFP_WAIT __GFP_IO)).
Definition mempool_free_entry (element : Z) : pc := FreeTest element.
(** [BUG_ON(new_min_nr <= 0)] comes first. *)
Definition mempool_resize_entry (new_min_nr gfp_mask : Z) : outcome pc :=
  if new_min_nr <=? 0 then Bug else Done (ResizeStart new_min_nr gfp_mask).

(** [None] where the counter is not in the function or the answer is of the
    wrong kind. *)
Definition mempool_alloc (pool : mempool_t) (p : pc) (a : answer)
    : option (outcome (mempool_t * pc * list event)) :=
  match p, a with
  | AllocCall gfp, Element e => Some (Done (pool, Idle, [Alloc gfp (Some e); ReturnElement (Some e)]))
  | AllocCall gfp, Null => Some (Done (pool, AllocLock, [Alloc gfp None]))
  | AllocLock, _ =>
      Some (if curr_nr pool =? 0 then Done (pool, Idle, [ReturnElement None])
            else r <- remove_element pool; Done (r.2, Idle, [ReturnElement (Some r.1)]))
  | _, _ => None
  end.

Definition mempool_free (pool : mempool_t) (p : pc) : option (outcome (mempool_t * pc * list event)) :=
  match p with
  | FreeTest e =>
      Some (Done (pool, if curr_nr pool <? min_nr pool then FreeLock e else FreeCall e, []))
  | FreeLock e =>
      Some (if curr_nr pool <? min_nr pool then
              pool <- add_element pool e; Done (pool, Idle, [ReturnVoid])
            else Done (pool, FreeCall e, []))
  | FreeCall e => Some (Done (pool, Idle, [Free e; ReturnVoid]))
  | _ => None
  end.

(** The head of the shrinking loop and what follows it, with the lock held. *)
Definition shrink (pool : mempool_t) (n : Z) : outcome (mempool_t * pc * list event) :=
  if n <? curr_nr pool then
    r <- remove_element pool; Done (r.2, ShrinkFree r.1 n, [])
  else Done (Pool n (curr_nr pool) (elements pool), Idle, [ReturnInt 0]).

(** The head of the growing loop. *)
Definition grow (pool : mempool_t) (gfp : Z) : mempool_t * pc * list event :=
  if curr_nr pool <? min_nr pool then (pool, GrowCall gfp, [])
  else (pool, Idle, [ReturnInt 0]).

Definition mempool_resize (pool : mempool_t) (p : pc) (a : answer)
    : option (outcome (mempool_t * pc * list event)) :=
  match p, a with
  | ResizeStart n gfp, _ =>
      Some (if n <=? min_nr pool then shrink pool n else Done (pool, GrowArray n gfp, []))
  | ShrinkFree e n, _ => Some (Done (pool, ShrinkLoop n, [Free e]))
  | ShrinkLoop n, _ => Some (shrink pool n)
  | GrowArray n gfp, Array array =>
      if bool_decide (length array = Z.to_nat n) then Some (Done (pool, GrowLock n gfp array, [])) else None
  | GrowArray n gfp, Null => Some (Done (pool, Idle, [ReturnInt (- ENOMEM)]))
  | GrowLock n gfp array, _ =>
      Some (if n <=? min_nr pool then Done (pool, Idle, [ReturnInt 0])
            else if Z.of_nat (length (elements pool)) <? curr_nr pool then Overrun
            else
              let copied := take (Z.to_nat (curr_nr pool)) (elements pool) in
              Done (grow (Pool n (curr_nr pool) (copied ++ drop (length copied) array)) gfp))
  | GrowCall gfp, Element e => Some (Done (pool, GrowAdd e gfp, [Alloc gfp (Some e)]))
  | GrowCall gfp, Null => Some (Done (pool, Idle, [Alloc gfp None; ReturnInt 0]))
  | GrowAdd e gfp, _ =>
      Some (if curr_nr pool <? min_nr pool then
              pool <- add_element pool e; Done (grow pool gfp)
            else Done (pool, GrowFree e, []))
  | GrowFree e, _ => Some (Done (pool, Idle, [Free e; ReturnInt 0]))
  | _, _ => None
  end.

(** One step of a thread. *)
Definition thread_step (pool : mempool_t) (p : pc) (a : answer)
    : option (outcome (mempool_t * pc * list event)) :=
  match p with
  | Idle => None
  | AllocCall _ | AllocLock => mempool_alloc pool p a
  | FreeTest _ | FreeLock _ | FreeCall _ => mempool_free pool p
  | _ => mempool_resize pool p a
  end.

(** ** The system *)

Record sys := Sys {
  pool : mempool_t;
  threads : list pc;
  (* history *)
  out : list Z;             (* elements the callers hold *)
  got : list Z;             (* elements [alloc] returned *)
  freed : list Z;           (* elements given to [free] *)
  guarantee : Z;            (* the least size asked for so far *)
}.

Definition is_resize (p : pc) : bool :=
  match p with
  | Idle | AllocCall _ | AllocLock | FreeTest _ | FreeLock _ | FreeCall _ => false
  | _ => true
  end.

Definition alloced (e : event) : list Z :=
  match e with Alloc _ (Some x) => [x] | _ => [] end.
Definition given_back (e : event) : list Z :=
  match e with Free x => [x] | _ => [] end.
Definition returned (e : event) : list Z :=
  match e with ReturnElement (Some x) => [x] | _ => [] end.

Definition collect (f : event -> list Z) (es : list event) : list Z := mjoin (f <$> es).

(** A shrinking resize lowers what the pool guarantees when it starts; a
    growing one promises nothing new. *)
Definition guarantee_after (p : pc) (pool : mempool_t) (g : Z) : Z :=
  match p with
  | ResizeStart n _ => if n <=? min_nr pool then Z.min g n else g
  | _ => g
  end.

(** The calls a caller can make. *)
Inductive call :=
| CallAlloc (gfp : Z)
| CallFree (element : Z)
| CallResize (n gfp : Z).

Inductive label :=
| Start (t : nat) (c : call)
| Run (t : nat) (a : answer).

Arguments Start t%_nat c.
Arguments Run t%_nat a.

Fixpoint remove_one (x : Z) (l : list Z) : option (list Z) :=
  match l with
  | [] => None
  | y :: l => if x =? y then Some l else cons y <$> remove_one x l
  end.

(** [None] for a step the callers or the environment do not make: an element
    is freed only by a caller that holds it, and with [alone] a resize starts
    only while no other one is in progress. *)
Definition sys_step (alone : bool) (s : sys) (l : label) : option (outcome sys) :=
  match l with
  | Start t c =>
      match threads s !! t, c with
      | Some Idle, CallAlloc gfp =>
          Some (Done (Sys (pool s) (<[t := mempool_alloc_entry gfp]> (threads s))
            (out s) (got s) (freed s) (guarantee s)))
      | Some Idle, CallFree e =>
          out ← remove_one e (out s);
          Some (Done (Sys (pool s) (<[t := mempool_free_entry e]> (threads s))
            out (got s) (freed s) (guarantee s)))
      | Some Idle, CallResize n gfp =>
          if (n <=? 0) || (alone && existsb is_resize (threads s)) then None
          else Some (p <- mempool_resize_entry n gfp;
            Done (Sys (pool s) (<[t := p]> (threads s)) (out s) (got s) (freed s) (guarantee s)))
      | _, _ => None
      end
  | Run t a =>
      p ← threads s !! t;
      r ← thread_step (pool s) p a;
      Some (r <- r;
        let '(pool', p', es) := r in
        Done (Sys pool' (<[t := p']> (threads s))
          (collect returned es ++ out s) (got s ++ collect alloced es) (freed s ++ collect given_back es)
          (guarantee_after p (pool s) (guarantee s))))
  end.

Inductive reachable (alone : bool) (s0 : sys) : sys -> Prop :=
| reach_refl : reachable alone s0 s0
| reach_step s l s' :
    reachable alone s0 s -> sys_step alone s l = Some (Done s') -> reachable alone s0 s'.

(** The system around a pool that was just created with [got] from its
    owner. *)
Definition sys_init (pool : mempool_t) (n : nat) : sys :=
  Sys pool (replicate n Idle) [] (take (Z.to_nat (curr_nr pool)) (elements pool)) [] (min_nr pool).

(** ** Invariants *)

(** The elements in the pool. *)
Definition contents (p : mempool_t) : list Z := take (Z.to_nat (curr_nr p)) (elements p).

(** The element a thread is moving, and the one it may still return to the
    pool. *)
Definition transit (p : pc) : list Z :=
  match p with
  | FreeTest e | FreeLock e | FreeCall e | ShrinkFree e _ | GrowAdd e _ | GrowFree e => [e]
  | _ => []
  end.
Definition returning (p : pc) : list Z :=
  match p with FreeTest e | FreeLock e => [e] | _ => [] end.

Definition over {A} (f : pc -> list A) (ps : list pc) : list A := mjoin (f <$> ps).
Arguments over : simpl never.

Definition capacity (p : mempool_t) : Z := Z.of_nat (length (elements p)).
Definition pool_ok (p : mempool_t) : Prop := 0 <= curr_nr p <= min_nr p /\ curr_nr p <= capacity p.

(** What a thread in the middle of a resize relies on. *)
Definition pc_ok (g : Z) (p : pc) : Prop :=
  match p with
  | ResizeStart n _ => 0 < n
  | ShrinkFree _ n | ShrinkLoop n => 0 < n /\ g <= n
  | GrowArray n _ => 0 < n
  | GrowLock n _ array => 0 < n /\ Z.of_nat (length array) = n
  | _ => True
  end.

(** The array is large enough for the size, and for the one a shrinking resize
    is about to set. *)
Definition roomy (p : mempool_t) (q : pc) : Prop :=
  match q with
  | ShrinkFree _ n | ShrinkLoop n => n <= capacity p
  | _ => True
  end.

Lemma add_element_spec p e :
  pool_ok p -> curr_nr p < min_nr p ->
  add_element p e
  = if curr_nr p <? capacity p then
      Done (Pool (min_nr p) (curr_nr p + 1) (<[Z.to_nat (curr_nr p) := e]> (elements p)))
    else Overrun.
Proof.
  intros [? ?] ?. unfold add_element, capacity in *.
  destruct (Z.leb_spec (min_nr p) (curr_nr p)); [lia|].
  destruct (Z.leb_spec 0 (curr_nr p)); [done|lia].
Qed.

Lemma contents_add m c l e :
  0 <= c < Z.of_nat (length l) ->
  contents (Pool m (c + 1) (<[Z.to_nat c := e]> l)) = contents (Pool m c l) ++ [e].
Proof.
  intros Hc. unfold contents; cbn.
  replace (Z.to_nat (c + 1)) with (S (Z.to_nat c)) by lia.
  rewrite (take_S_r _ _ e) by (apply list_lookup_insert_eq; lia).
  by rewrite take_insert_ge by lia.
Qed.

Lemma remove_element_spec p :
  pool_ok p -> 0 < curr_nr p ->
  exists e, remove_element p = Done (e, Pool (min_nr p) (curr_nr p - 1) (elements p))
    /\ contents p = contents (Pool (min_nr p) (curr_nr p - 1) (elements p)) ++ [e].
Proof.
  intros [? Hcap] ?. unfold remove_element, capacity in *.
  destruct (Z.leb_spec (curr_nr p) 0); [lia|].
  destruct (lookup_lt_is_Some_2 (elements p) (Z.to_nat (curr_nr p - 1))) as [e He]; [lia|].
  rewrite He. exists e. split; [done|]. unfold contents; cbn.
  replace (Z.to_nat (curr_nr p)) with (S (Z.to_nat (curr_nr p - 1))) by lia.
  by apply take_S_r.
Qed.

(** What one step of a thread may do to the pool and what it owes the rest of
    the system. *)
Record step_ok (g : Z) (p p' : mempool_t) (q q' : pc) (es : list event) : Prop := StepOk {
  so_pool : pool_ok p';
  so_pc : pc_ok (guarantee_after q p g) q';
  so_g : guarantee_after q p g <= min_nr p';
  so_count :
    curr_nr p + Z.of_nat (length (returning q))
      <= curr_nr p' + Z.of_nat (length (returning q')) + Z.of_nat (length (collect returned es))
    \/ guarantee_after q p g <= curr_nr p';
  so_moves :
    contents p ++ transit q ++ collect alloced es
    ≡ₚ contents p' ++ transit q' ++ collect given_back es ++ collect returned es;
  so_resize : is_resize q' = true -> is_resize q = true;
  so_same : is_resize q = false -> min_nr p' = min_nr p /\ length (elements p') = length (elements p);
  so_roomy : min_nr p <= capacity p -> roomy p q -> min_nr p' <= capacity p' /\ roomy p' q';
}.

(** A critical section that keeps the pool. *)
Lemma step_ok_same g p q q' es :
  pool_ok p -> g <= min_nr p -> guarantee_after q p g <= g ->
  pc_ok (guarantee_after q p g) q' ->
  (length (returning q) <= length (returning q') + length (collect returned es))%nat \/ g <= curr_nr p ->
  transit q ++ collect alloced es ≡ₚ transit q' ++ collect given_back es ++ collect returned es ->
  (is_resize q' = true -> is_resize q = true) ->
  (min_nr p <= capacity p -> roomy p q -> roomy p q') ->
  step_ok g p p q q' es.
Proof.
  intros. split; try done.
  - lia.
  - lia.
  - by f_equiv.
  - tauto.
Qed.

Lemma shrink_ok g p q n :
  pool_ok p -> 0 < n -> guarantee_after q p g <= n -> guarantee_after q p g <= min_nr p ->
  is_resize q = true -> returning q = [] -> transit q = [] ->
  (min_nr p <= capacity p -> roomy p q -> n <= capacity p) ->
  exists p' q' es, shrink p n = Done (p', q', es) /\ step_ok g p p' q q' es.
Proof.
  intros Hp Hn Hg Hgm Hq Hr Ht Hroom. unfold shrink.
  destruct (Z.ltb_spec n (curr_nr p)).
  - destruct (remove_element_spec p Hp ltac:(lia)) as (e & -> & E).
    destruct p as [m c l]. cbn in *. destruct Hp as [? ?]. unfold pool_ok, capacity in *; cbn in *.
    eexists _, _, _. split; [done|].
    split; cbn; try done; try lia.
    + unfold pool_ok, capacity; cbn. lia.
    + rewrite E, Ht. by rewrite !app_nil_r.
    + intros. split; [done|]. unfold capacity; cbn. by apply Hroom.
  - destruct p as [m c l]. destruct Hp as [? ?]. unfold capacity in *; cbn in *.
    eexists _, _, _. split; [done|].
    split; cbn; try done; try lia.
    + unfold pool_ok, capacity; cbn. lia.
    + rewrite Hr. cbn. lia.
    + by rewrite Ht.
    + by rewrite Hq.
    + intros. split; [|done]. unfold capacity; cbn. by apply Hroom.
Qed.

(** Adding an element under the lock. *)
Lemma added_ok g p q q' es e :
  pool_ok p -> curr_nr p < min_nr p -> curr_nr p < capacity p ->
  g <= min_nr p -> guarantee_after q p g = g -> pc_ok g q' ->
  transit q = [e] -> transit q' = [] -> (length (returning q) <= 1)%nat ->
  collect alloced es = [] -> collect given_back es = [] -> collect returned es = [] ->
  (is_resize q' = true -> is_resize q = true) -> (forall p', roomy p' q') ->
  step_ok g p (Pool (min_nr p) (curr_nr p + 1) (<[Z.to_nat (curr_nr p) := e]> (elements p))) q q' es.
Proof.
  intros [? ?] ? ? ? Hg ? Ht Ht' ? Ea Eg Er ? Hroom. unfold capacity in *.
  split; rewrite ?Hg, ?Ht, ?Ht', ?Ea, ?Eg, ?Er; cbn; try done; try lia.
  - unfold pool_ok, capacity; cbn. rewrite length_insert. lia.
  - rewrite contents_add by lia. rewrite !app_nil_r. by destruct p.
  - intros _. by rewrite length_insert.
  - unfold capacity; cbn. rewrite length_insert. auto.
Qed.

Definition fits (alone : bool) (p : mempool_t) (q : pc) : Prop :=
  alone = true -> min_nr p <= capacity p /\ roomy p q.

Lemma alloc_ok g p q a r :
  pool_ok p -> g <= min_nr p -> mempool_alloc p q a = Some r ->
  exists p' q' es, r = Done (p', q', es) /\ step_ok g p p' q q' es.
Proof.
  intros Hp Hg Hr. destruct q; cbn in Hr; try done.
  - destruct a; simplify_eq; eexists _, _, _; (split; [done|]); apply step_ok_same; cbn; auto; lia.
  - injection Hr as <-. destruct (Z.eqb_spec (curr_nr p) 0).
    + eexists _, _, _; (split; [done|]). apply step_ok_same; cbn; auto; lia.
    + destruct (remove_element_spec p Hp) as (e & -> & E); [destruct Hp; lia|].
      eexists _, _, _; (split; [done|]). destruct Hp as [? ?]. unfold capacity in *.
      split; cbn; try done; try lia.
      * unfold pool_ok, capacity; cbn. lia.
      * rewrite E. by rewrite !app_nil_r.
Qed.

Lemma free_ok alone g p q r :
  pool_ok p -> g <= min_nr p -> fits alone p q -> mempool_free p q = Some r ->
  (alone = false /\ r = Overrun) \/ exists p' q' es, r = Done (p', q', es) /\ step_ok g p p' q q' es.
Proof.
  intros Hp Hg Hfit Hr. destruct q; cbn in Hr; try done; injection Hr as <-.
  - right. eexists _, _, _; (split; [done|]). pose proof (proj1 Hp).
    destruct (Z.ltb_spec (curr_nr p) (min_nr p)); apply step_ok_same; cbn; auto; lia.
  - pose proof (proj1 Hp). destruct (Z.ltb_spec (curr_nr p) (min_nr p)).
    + rewrite add_element_spec by done. destruct (Z.ltb_spec (curr_nr p) (capacity p)).
      * right. eexists _, _, _; (split; [done|]). by apply added_ok.
      * left. destruct alone; [|done]. destruct Hfit; [done|]. lia.
    + right. eexists _, _, _; (split; [done|]). apply step_ok_same; cbn; auto; lia.
  - right. eexists _, _, _; (split; [done|]). apply step_ok_same; cbn; auto; lia.
Qed.

Lemma grow_ok g p q e p1 gfp :
  is_resize q = true -> guarantee_after q p g = g -> returning q = [] -> transit q = e ->
  pool_ok p1 -> g <= min_nr p1 ->
  curr_nr p <= curr_nr p1 -> contents p ++ e ≡ₚ contents p1 -> min_nr p1 <= capacity p1 \/ (min_nr p <= capacity p -> min_nr p1 <= capacity p1) ->
  let '(p', q', es) := grow p1 gfp in step_ok g p p' q q' es.
Proof.
  intros Hq Hg Hr Ht Hp1 Hg1 Hc E Hroom. unfold grow.
  destruct (Z.ltb_spec (curr_nr p1) (min_nr p1));
    (split; rewrite ?Hg, ?Ht, ?Hr; cbn; rewrite ?app_nil_r; try done; try tauto; try lia; by rewrite Hq).
Qed.

Lemma resize_ok alone g p q a r :
  pool_ok p -> g <= min_nr p -> pc_ok g q -> fits alone p q -> mempool_resize p q a = Some r ->
  (alone = false /\ r = Overrun) \/ exists p' q' es, r = Done (p', q', es) /\ step_ok g p p' q q' es.
Proof.
  intros Hp Hg Hpc Hfit Hr. pose proof (proj1 Hp) as Hc.
  destruct q as [| | | | | |n gfp|e n|n|n gfp|n gfp array|gfp|e gfp|e]; cbn in Hr; try done.
  - right. injection Hr as <-. cbn in Hpc. destruct (Z.leb_spec n (min_nr p)) as [Hle|?].
    + apply (shrink_ok g p (ResizeStart n gfp) n); cbn; auto;
        destruct (Z.leb_spec n (min_nr p)); try lia.
    + eexists _, _, _; (split; [done|]). apply step_ok_same; cbn; auto;
        destruct (Z.leb_spec n (min_nr p)); lia || auto.
  - right. injection Hr as <-. eexists _, _, _; (split; [done|]).
    apply step_ok_same; cbn; auto; lia.
  - right. injection Hr as <-. destruct Hpc. by apply shrink_ok; cbn; auto; lia.
  - right. destruct a as [e|array|]; try done; [destruct (bool_decide_reflect (length array = Z.to_nat n)); [|done]|];
      injection Hr as <-; (eexists _, _, _; (split; [done|])); apply step_ok_same; cbn in *; auto; lia.
  - right. injection Hr as <-. destruct Hpc as [Hn Ha]. destruct (Z.leb_spec n (min_nr p)).
    + eexists _, _, _; (split; [done|]). apply step_ok_same; cbn; auto; lia.
    + pose proof (proj2 Hp) as Hcap. unfold capacity in Hcap.
      destruct (Z.ltb_spec (Z.of_nat (length (elements p))) (curr_nr p)); [lia|].
      set (c := take (Z.to_nat (curr_nr p)) (elements p)).
      assert (length c = Z.to_nat (curr_nr p)) as Hlc by (subst c; rewrite length_take; lia).
      assert (length (c ++ drop (length c) array) = Z.to_nat n) as Hln
        by (rewrite length_app, length_drop; lia).
      pose proof (grow_ok g p (GrowLock n gfp array) [] (Pool n (curr_nr p) (c ++ drop (length c) array)) gfp) as K.
      destruct (grow _ gfp) as [[p' q'] es]. eexists _, _, _. split; [done|].
      apply K; unfold pool_ok, capacity; cbn; rewrite ?Hln; auto; try lia.
      unfold contents; cbn. rewrite app_nil_r, <- Hlc, take_app_length. by fold c; rewrite Hlc.
  - right. destruct a as [e|array|]; try done; injection Hr as <-;
      (eexists _, _, _; (split; [done|])); apply step_ok_same; cbn; auto; lia.
  - injection Hr as <-. destruct (Z.ltb_spec (curr_nr p) (min_nr p)).
    + rewrite add_element_spec by done. destruct (Z.ltb_spec (curr_nr p) (capacity p)).
      * right. cbn [bind].
        set (p1 := Pool _ _ _).
        pose proof (grow_ok g p (GrowAdd e gfp) [e] p1 gfp) as K.
        destruct (grow p1 gfp) as [[p' q'] es]. eexists _, _, _. split; [done|].
        unfold capacity in *. apply K; unfold pool_ok, capacity; subst p1; cbn; rewrite ?length_insert; auto; try lia.
        rewrite contents_add by lia. by destruct p.
      * left. destruct alone; [|done]. destruct Hfit; [done|]. lia.
    + right. eexists _, _, _; (split; [done|]). apply step_ok_same; cbn; auto; lia.
  - right. injection Hr as <-. eexists _, _, _; (split; [done|]). apply step_ok_same; cbn; auto; lia.
Qed.

Lemma thread_step_ok alone g p q a r :
  pool_ok p -> g <= min_nr p -> pc_ok g q -> fits alone p q -> thread_step p q a = Some r ->
  (alone = false /\ r = Overrun) \/ exists p' q' es, r = Done (p', q', es) /\ step_ok g p p' q q' es.
Proof.
  intros Hp Hg Hpc Hfit Hr.
  destruct q; try done; cbn [thread_step] in Hr;
    solve [ right; by eapply alloc_ok | by eapply free_ok | by eapply resize_ok ].
Qed.

Lemma over_insert {A} (f : pc -> list A) ps t p p' :
  ps !! t = Some p -> over f (<[t := p']> ps) ++ f p ≡ₚ over f ps ++ f p'.
Proof.
  unfold over. revert t. induction ps as [|q ps IH]; intros [|t] Ht; simplify_eq/=.
  - solve_Permutation.
  - rewrite <- !(assoc_L (++)). f_equiv. by apply IH.
Qed.

Lemma over_insert_length {A} (f : pc -> list A) ps t p p' :
  ps !! t = Some p ->
  (length (over f (<[t := p']> ps)) + length (f p) = length (over f ps) + length (f p'))%nat.
Proof.
  intros Ht. rewrite <- !length_app. by apply Permutation_length, over_insert.
Qed.

Record inv (alone : bool) (s : sys) : Prop := Inv {
  inv_pool : pool_ok (pool s);
  inv_g : guarantee s <= min_nr (pool s);
  inv_pc : forall t p, threads s !! t = Some p -> pc_ok (guarantee s) p;
  inv_fits : forall t p, threads s !! t = Some p -> fits alone (pool s) p;
  inv_alone : alone = true -> forall t u p q,
    threads s !! t = Some p -> threads s !! u = Some q ->
    is_resize p = true -> is_resize q = true -> t = u;
  inv_count :
    guarantee s <= curr_nr (pool s) + Z.of_nat (length (out s) + length (over returning (threads s)));
  inv_moves : got s ≡ₚ freed s ++ contents (pool s) ++ over transit (threads s) ++ out s;
}.

Lemma pc_ok_le g g' p : g' <= g -> pc_ok g p -> pc_ok g' p.
Proof. destruct p; cbn; intuition lia. Qed.

Lemma guarantee_after_le q p g : guarantee_after q p g <= g.
Proof. unfold guarantee_after. destruct q; try lia. destruct (_ <=? _); lia. Qed.

Lemma lookup_insert_cases {A} (l : list A) i j x y :
  <[i := x]> l !! j = Some y -> (j = i /\ y = x) \/ (j <> i /\ l !! j = Some y).
Proof. intros H%list_lookup_insert_Some. naive_solver. Qed.

Lemma existsb_lookup {A} (f : A -> bool) l i x : existsb f l = false -> l !! i = Some x -> f x = false.
Proof.
  intros H Hi. destruct (f x) eqn:E; [|done].
  rewrite <- H. symmetry. apply existsb_exists. exists x. split; [|done].
  by apply list_elem_of_In, (list_elem_of_lookup_2 _ i).
Qed.

Lemma fits_other alone g p p' q q' es u :
  step_ok g p p' q q' es -> fits alone p q -> fits alone p u ->
  (alone = true -> is_resize q = true -> is_resize u = false) -> fits alone p' u.
Proof.
  intros Hs Hq Hu Hex Ha. specialize (Hq Ha) as [Hcap Hq]. specialize (Hu Ha) as [_ Hu].
  destruct (so_roomy _ _ _ _ _ _ Hs Hcap Hq) as [Hcap' _]. split; [done|].
  destruct (is_resize q) eqn:Er.
  - specialize (Hex Ha eq_refl). destruct u; try done.
  - destruct (so_same _ _ _ _ _ _ Hs Er) as [_ El]. unfold roomy, capacity in *. by rewrite El.
Qed.

Lemma remove_one_perm x l l' : remove_one x l = Some l' -> l ≡ₚ x :: l'.
Proof.
  revert l'. induction l as [|y l IH]; intros l' H; [done|]. cbn in H.
  destruct (Z.eqb_spec x y); simplify_eq; [done|].
  destruct (remove_one x l) as [l1|]; simplify_eq/=. rewrite (IH l1) by done. constructor.
Qed.

(** A thread that starts a call. *)
Lemma inv_start alone s t p o :
  inv alone s -> threads s !! t = Some Idle ->
  pc_ok (guarantee s) p -> (forall q, roomy q p) ->
  (is_resize p = true -> alone = true -> existsb is_resize (threads s) = false) ->
  out s ≡ₚ transit p ++ o -> returning p = transit p ->
  inv alone (Sys (pool s) (<[t := p]> (threads s)) o (got s) (freed s) (guarantee s)).
Proof.
  intros [] Ht Hpc Hroom Hex Ho Hr. split; cbn; try done.
  - intros u q [[-> ->]|[? ?]]%lookup_insert_cases; eauto.
  - intros u q [[-> ->]|[? ?]]%lookup_insert_cases; [|eauto].
    intros Ha. split; [|done]. by apply (inv_fits0 t Idle).
  - intros Ha u v p1 p2 [[-> ->]|[? ?]]%lookup_insert_cases [[-> ->]|[? ?]]%lookup_insert_cases; eauto; intros.
    + by rewrite (existsb_lookup is_resize _ v p2) in * by auto.
    + by rewrite (existsb_lookup is_resize _ u p1) in * by auto.
  - pose proof (over_insert_length returning _ _ _ p Ht) as E. change (length (returning Idle)) with O in E.
    rewrite Ho, length_app in inv_count0. rewrite Hr in E. lia.
  - rewrite inv_moves0. do 2 f_equiv.
    pose proof (over_insert transit _ _ _ p Ht) as E. change (transit Idle) with (@nil Z) in E. rewrite app_nil_r in E.
    rewrite E, Ho. by rewrite (assoc_L (++)).
Qed.

(** A thread that continues. *)
Lemma inv_run alone s t q p' q' es :
  inv alone s -> threads s !! t = Some q ->
  step_ok (guarantee s) (pool s) p' q q' es ->
  inv alone (Sys p' (<[t := q']> (threads s)) (collect returned es ++ out s)
    (got s ++ collect alloced es) (freed s ++ collect given_back es)
    (guarantee_after q (pool s) (guarantee s))).
Proof.
  intros [] Ht Hs. pose proof (guarantee_after_le q (pool s) (guarantee s)) as Hle.
  split; cbn; try apply Hs.
  - intros u p [[-> ->]|[? ?]]%lookup_insert_cases; [apply Hs|]. eauto using pc_ok_le.
  - intros u p [[-> ->]|[? Hu]]%lookup_insert_cases.
    + intros Ha. destruct (inv_fits0 _ _ Ht Ha). by apply Hs.
    + eapply fits_other; eauto. intros Ha Hq. destruct (is_resize p) eqn:Hp; [|done].
      by destruct (inv_alone0 Ha _ _ _ _ Hu Ht).
  - intros Ha u v p1 p2 [[-> ->]|[? ?]]%lookup_insert_cases [[-> ->]|[? ?]]%lookup_insert_cases; eauto; intros;
      pose proof (so_resize _ _ _ _ _ _ Hs); eauto.
  - pose proof (over_insert_length returning _ _ _ q' Ht) as E. rewrite length_app.
    destruct (so_count _ _ _ _ _ _ Hs); lia.
  - pose proof (over_insert transit _ _ _ q' Ht) as E.
    pose proof (so_moves _ _ _ _ _ _ Hs) as M.
    rewrite inv_moves0.
    apply (Permutation_app_inv_r (transit q)). 
    transitivity (freed s ++ (contents (pool s) ++ transit q ++ collect alloced es) ++ over transit (threads s) ++ out s);
      [solve_Permutation|].
    rewrite M.
    transitivity (freed s ++ contents p' ++ collect given_back es ++ collect returned es ++ (over transit (threads s) ++ transit q') ++ out s);
      [solve_Permutation|].
    rewrite <- E. solve_Permutation.
Qed.

Lemma inv_step alone s l :
  inv alone s ->
  match sys_step alone s l with
  | Some (Done s') => inv alone s'
  | Some Bug => False
  | Some Overrun => alone = false
  | None => True
  end.
Proof.
  intros Hi. destruct l as [t c|t a]; cbn.
  - destruct (threads s !! t) as [[]|] eqn:Ht; try done. destruct c as [gfp|e|n gfp].
    + by apply inv_start.
    + destruct (remove_one e (out s)) as [o|] eqn:E; [|done]. cbn.
      apply remove_one_perm in E. by apply inv_start.
    + unfold mempool_resize_entry. destruct (Z.leb_spec n 0); [done|]. cbn.
      destruct (alone && existsb is_resize (threads s)) eqn:E; [done|]. cbn.
      apply inv_start; try done. cbn. intros _ ->. done.
  - destruct (threads s !! t) as [q|] eqn:Ht; [|done]. cbn.
    destruct (thread_step (pool s) q a) as [r|] eqn:E; [|done]. cbn.
    destruct (thread_step_ok alone (guarantee s) _ _ _ _ (inv_pool _ _ Hi) (inv_g _ _ Hi)
      (inv_pc _ _ Hi _ _ Ht) (inv_fits _ _ Hi _ _ Ht) E) as [[? ->]|(p' & q' & es & -> & Hs)]; [done|].
    cbn. by apply inv_run.
Qed.

Lemma pool_reachable_inv alone s0 s : inv alone s0 -> reachable alone s0 s -> inv alone s.
Proof.
  intros H0. induction 1 as [|s l s' ? IH Hl]; [done|].
  pose proof (inv_step alone s l IH) as K. by rewrite Hl in K.
Qed.

(** ** Creation and destruction *)

Lemma free_pool_correct p : pool_ok p -> free_pool p = Done (reverse (contents p)).
Proof.
  unfold free_pool. remember (Z.to_nat (curr_nr p)) as fuel eqn:Ef. revert p Ef.
  induction fuel as [|fuel IH]; intros p Ef Hp; pose proof (proj1 Hp); cbn.
  - destruct (Z.eqb_spec (curr_nr p) 0); [|lia]. unfold contents. by rewrite <- Ef.
  - destruct (Z.eqb_spec (curr_nr p) 0); [lia|].
    destruct (remove_element_spec p Hp ltac:(lia)) as (e & -> & E). cbn.
    rewrite IH; cbn; [|lia|].
    + by rewrite E, reverse_snoc.
    + destruct Hp as [? Hc]. unfold pool_ok, capacity in *; cbn. lia.
Qed.

Lemma seq_fmap_shift {A} (f : nat -> A) k n : f <$> seq k n = (fun i => f (k + i)%nat) <$> seq 0 n.
Proof. rewrite <- (Nat.add_0_r k) at 1. by rewrite <- fmap_add_seq, <- list_fmap_compose. Qed.

Lemma seq_fmap_S {A} (f : nat -> A) n : f <$> seq 0 (S n) = [f O] ++ ((fun i => f (S i)) <$> seq 0 n).
Proof. cbn [seq]. by rewrite fmap_cons, (seq_fmap_shift f 1). Qed.

Lemma fill_correct fuel alloc p :
  pool_ok p -> min_nr p <= capacity p -> fuel = Z.to_nat (min_nr p - curr_nr p) ->
  match fill fuel alloc p with
  | Done (inr p') =>
      min_nr p' = min_nr p /\ curr_nr p' = min_nr p /\ length (elements p') = length (elements p)
      /\ Some <$> contents p' = (Some <$> contents p) ++ (alloc <$> seq 0 fuel)
  | Done (inl freed) =>
      exists k, (k < fuel)%nat /\ alloc k = None
        /\ Some <$> reverse freed = (Some <$> contents p) ++ (alloc <$> seq 0 k)
  | _ => False
  end.
Proof.
  revert alloc p. induction fuel as [|fuel IH]; intros alloc p Hp Hcap Ef; pose proof (proj1 Hp); cbn [fill].
  - destruct (Z.ltb_spec (curr_nr p) (min_nr p)); [lia|]. cbn. rewrite app_nil_r. split_and!; try done; lia.
  - destruct (Z.ltb_spec (curr_nr p) (min_nr p)); [|lia].
    destruct (alloc 0%nat) as [e|] eqn:E0.
    + rewrite add_element_spec by done. destruct (Z.ltb_spec (curr_nr p) (capacity p)); [|lia]. cbn [bind].
      set (p1 := Pool _ _ _). unfold capacity in *.
      assert (Some <$> contents p1 = (Some <$> contents p) ++ [Some e]) as Ec.
      { subst p1. rewrite contents_add, fmap_app by lia. by destruct p. }
      specialize (IH (fun k => alloc (S k)) p1). unfold pool_ok, capacity in IH. subst p1. cbn in IH.
      rewrite length_insert in IH. specialize (IH ltac:(lia) ltac:(lia) ltac:(lia)).
      rewrite Ec in IH.
      destruct (fill fuel _ _) as [[freed|p']| |]; try done.
      * destruct IH as (k & ? & ? & Er). exists (S k). split_and!; try done; [lia|].
        by rewrite Er, seq_fmap_S, E0, <- (assoc_L (++)).
      * destruct IH as (? & ? & ? & Er). split_and!; try done.
        by rewrite Er, seq_fmap_S, E0, <- (assoc_L (++)).
    + rewrite free_pool_correct by done. cbn. exists O. rewrite reverse_involutive, app_nil_r.
      split_and!; try done. lia.
Qed.

Lemma create_correct min array alloc :
  0 <= min -> length array = Z.to_nat min ->
  match mempool_create min true (Some array) alloc with
  | Done (inr p) =>
      pool_ok p /\ min_nr p = min /\ curr_nr p = min /\ length (elements p) = Z.to_nat min
      /\ Some <$> contents p = alloc <$> seq 0 (Z.to_nat min)
  | Done (inl freed) =>
      exists k, (k < Z.to_nat min)%nat /\ alloc k = None /\ Some <$> reverse freed = alloc <$> seq 0 k
  | _ => False
  end.
Proof.
  intros Hm Hl. unfold mempool_create, mempool_create_node.
  pose proof (fill_correct (Z.to_nat min) alloc (Pool min 0 array)) as K.
  unfold pool_ok, capacity in K; cbn in K.
  specialize (K ltac:(lia) ltac:(lia) ltac:(lia)).
  destruct (fill _ _ _) as [[freed|p]| |]; try done.
  destruct K as (? & ? & El & ?). split_and!; try done; unfold pool_ok, capacity; rewrite ?El; lia.
Qed.

Lemma over_idle {A} (f : pc -> list A) n : f Idle = [] -> over f (replicate n Idle) = [].
Proof. intros H. unfold over. induction n as [|n IH]; [done|]. cbn. by rewrite H. Qed.

Lemma pool_init_inv alone p n :
  pool_ok p -> curr_nr p = min_nr p -> min_nr p <= capacity p -> inv alone (sys_init p n).
Proof.
  intros Hp Hc Hcap. split; cbn; try done.
  - intros t q Ht. apply lookup_replicate_1 in Ht as [-> _]. done.
  - intros t q Ht. apply lookup_replicate_1 in Ht as [-> _]. done.
  - intros _ t u q q' Ht _ Hr. apply lookup_replicate_1 in Ht as [-> _]. done.
  - rewrite over_idle by done. cbn. lia.
  - by rewrite over_idle, app_nil_r by done.
Qed.

Lemma created_inv alone min array alloc p n s :
  0 <= min -> length array = Z.to_nat min ->
  mempool_create min true (Some array) alloc = Done (inr p) ->
  reachable alone (sys_init p n) s -> inv alone s.
Proof.
  intros Hm Hl Hc. pose proof (create_correct min array alloc Hm Hl) as K. rewrite Hc in K.
  destruct K as (? & ? & ? & El & _). apply pool_reachable_inv, pool_init_inv; unfold capacity; rewrite ?El; (done || lia).
Qed.

(** A schedule, step by step. *)
Fixpoint sys_run (alone : bool) (s : sys) (ls : list label) : option (outcome sys) :=
  match ls with
  | [] => Some (Done s)
  | l :: ls =>
      match sys_step alone s l with
      | Some (Done s') => sys_run alone s' ls
      | r => r
      end
  end.

Lemma run_reachable alone s0 ls s s' :
  reachable alone s0 s -> sys_run alone s ls = Some (Done s') -> reachable alone s0 s'.
Proof.
  revert s. induction ls as [|l ls IH]; intros s Hs Hr; cbn in Hr; [by simplify_eq|].
  destruct (sys_step alone s l) as [[s1| |]|] eqn:E; try done. eauto using reach_step.
Qed.

(** ** Properties *)

(** Whatever the threads do, no step meets a BUG_ON or leaves the array of
    elements, as long as one resize runs at a time; even when several do, no
    BUG_ON is met. The pool never holds more than [min_nr] elements. *)
Theorem mempool_safe alone min array alloc p n s l :
  0 <= min -> length array = Z.to_nat min ->
  mempool_create min true (Some array) alloc = Done (inr p) ->
  reachable alone (sys_init p n) s ->
  0 <= curr_nr (pool s) <= min_nr (pool s)
  /\ sys_step alone s l <> Some Bug
  /\ (alone = true -> sys_step alone s l <> Some Overrun).
Proof.
  intros Hm Hl Hc Hr. pose proof (created_inv _ _ _ _ _ _ _ Hm Hl Hc Hr) as Hi.
  split; [apply Hi|]. pose proof (inv_step alone s l Hi) as K.
  split; [|intros ->]; intros E; by rewrite E in K.
Qed.

(** C3: While callers hold fewer elements than the pool guarantees, counting
    those on their way back into it, an allocation gets an element even when
    the owner's allocator fails. The guarantee is the size at creation, lowered
    by every shrinking resize to its size from the moment it starts. *)
Theorem mempool_guarantee alone min array alloc p n s t a :
  0 <= min -> length array = Z.to_nat min ->
  mempool_create min true (Some array) alloc = Done (inr p) ->
  reachable alone (sys_init p n) s ->
  threads s !! t = Some AllocLock ->
  Z.of_nat (length (out s) + length (over returning (threads s))) < guarantee s ->
  exists e s', sys_step alone s (Run t a) = Some (Done s')
    /\ out s' = e :: out s /\ threads s' !! t = Some Idle /\ contents (pool s) = contents (pool s') ++ [e].
Proof.
  intros Hm Hl Hc Hr Ht Hout. pose proof (created_inv _ _ _ _ _ _ _ Hm Hl Hc Hr) as Hi.
  pose proof (inv_count _ _ Hi). pose proof (inv_pool _ _ Hi) as Hp.
  cbn. rewrite Ht. cbn. destruct (Z.eqb_spec (curr_nr (pool s)) 0); [lia|].
  destruct (remove_element_spec _ Hp ltac:(destruct Hp; lia)) as (e & -> & E). cbn.
  eexists e, _. split_and!; [done|done| |done].
  apply list_lookup_insert_eq. by apply lookup_lt_Some in Ht.
Qed.

(** C31: No element is lost, duplicated or freed while in use: what [alloc] ever
    returned is at every moment what was freed, what the pool holds, what the
    callers hold and what the threads are moving. Once the callers have given
    back everything, destroying the pool frees exactly the rest; it meets no
    BUG_ON when no resize has grown the pool since. *)
Theorem mempool_conserves alone min array alloc p n s :
  0 <= min -> length array = Z.to_nat min ->
  mempool_create min true (Some array) alloc = Done (inr p) ->
  reachable alone (sys_init p n) s ->
  got s ≡ₚ freed s ++ contents (pool s) ++ over transit (threads s) ++ out s
  /\ (out s = [] -> threads s = replicate n Idle ->
      (guarantee s = min_nr (pool s) -> mempool_destroy (pool s) = Done (reverse (contents (pool s))))
      /\ forall l, mempool_destroy (pool s) = Done l -> freed s ++ l ≡ₚ got s).
Proof.
  intros Hm Hl Hc Hr. pose proof (created_inv _ _ _ _ _ _ _ Hm Hl Hc Hr) as Hi.
  split; [apply Hi|]. intros Ho Ht.
  pose proof (inv_count _ _ Hi) as Hcount. pose proof (inv_pool _ _ Hi) as Hp.
  pose proof (inv_moves _ _ Hi) as M. rewrite Ho, Ht, over_idle in Hcount, M by done. cbn in Hcount.
  pose proof (proj1 Hp). unfold mempool_destroy. split.
  - intros ?. destruct (Z.eqb_spec (curr_nr (pool s)) (min_nr (pool s))); [|lia]. by apply free_pool_correct.
  - intros l. destruct (_ =? _); [|done]. rewrite free_pool_correct by done. intros [= <-].
    rewrite M. cbn. rewrite app_nil_r. by rewrite reverse_Permutation.
Qed.

(** A shrinking resize drops the lock while it frees an element. When other
    resizes meanwhile make the pool smaller and then larger again, it sets a
    size for which the new array is too small, and the next [mempool_free]
    stores behind the array. *)
Lemma mempool_resize_overruns :
  exists p ls, mempool_create 5 true (Some [0; 0; 0; 0; 0]) (fun k => Some (Z.of_nat k + 100)) = Done (inr p)
    /\ sys_run false (sys_init p 2) ls = Some Overrun.
Proof.
  eexists _, ([Start 0 (CallResize 4 0); Run 0 Null]
    ++ [Start 1 (CallResize 1 0); Run 1 Null] ++ mjoin (replicate 3%nat [Run 1 Null; Run 1 Null])
    ++ [Start 1 (CallResize 2 0); Run 1 Null; Run 1 (Array [0; 0]); Run 1 Null; Run 1 (Element 200); Run 1 Null]
    ++ [Run 0 Null; Run 0 Null]
    ++ [Start 1 (CallAlloc 16); Run 1 (Element 201); Start 1 (CallFree 201); Run 1 Null; Run 1 Null]).
  split; [reflexivity|]. reflexivity.
Qed.

(** ** Witnesses *)

Definition example_alloc (k : nat) : option Z := Some (Z.of_nat k + 100).
Definition example_pool : mempool_t := Pool 2 2 [100; 101].

Definition after (ls : list label) : sys :=
  match sys_run true (sys_init example_pool 2) ls with
  | Some (Done s) => s
  | _ => sys_init example_pool 2
  end.

Lemma after_reachable ls : reachable true (sys_init example_pool 2) (after ls).
Proof.
  unfold after. destruct (sys_run _ _ ls) as [[s| |]|] eqn:E; try apply reach_refl.
  eapply run_reachable, E. apply reach_refl.
Qed.

(** A grown pool that is being shrunk while an element comes back. *)
Definition example_busy : sys := after
  [Start 0 (CallAlloc 16); Run 0 (Element 102); Start 0 (CallResize 3 0); Run 0 Null; Run 0 (Array [7; 7; 7]);
   Run 0 Null; Run 0 Null; Start 0 (CallFree 102); Start 1 (CallResize 1 0); Run 0 Null; Run 1 Null].
(** One element is out, and the allocator failed again. *)
Definition example_low : sys := after
  [Start 0 (CallAlloc 16); Run 0 Null; Run 0 Null; Start 0 (CallAlloc 16); Run 0 Null].
(** Everything came back. *)
Definition example_quiet : sys := after
  [Start 0 (CallAlloc 16); Run 0 Null; Run 0 Null; Start 1 (CallAlloc 16); Run 1 (Element 102);
   Start 0 (CallFree 101); Start 1 (CallFree 102); Run 0 Null; Run 1 Null; Run 0 Null; Run 1 Null; Run 1 Null].

Lemma mempool_safe_witness :
  threads example_busy = [FreeLock 102; ShrinkFree 101 1]
  /\ 0 <= curr_nr (pool example_busy) <= min_nr (pool example_busy)
  /\ sys_step true example_busy (Run 0 Null) <> Some Bug
  /\ (true = true -> sys_step true example_busy (Run 0 Null) <> Some Overrun).
Proof.
  split; [reflexivity|].
  apply (mempool_safe true 2 [0; 0] example_alloc example_pool 2); [lia|reflexivity|reflexivity|].
  apply after_reachable.
Defined.

Lemma mempool_guarantee_witness :
  out example_low = [101]
  /\ exists e s', sys_step true example_low (Run 0 Null) = Some (Done s')
    /\ out s' = e :: out example_low /\ threads s' !! 0%nat = Some Idle
    /\ contents (pool example_low) = contents (pool s') ++ [e].
Proof.
  split; [reflexivity|].
  apply (mempool_guarantee true 2 [0; 0] example_alloc example_pool 2); [lia|reflexivity|reflexivity| | |].
  - apply after_reachable.
  - reflexivity.
  - reflexivity.
Defined.

Lemma mempool_conserves_witness :
  out example_quiet = [] /\ threads example_quiet = replicate 2 Idle /\ freed example_quiet = [102]
  /\ got example_quiet
    ≡ₚ freed example_quiet ++ contents (pool example_quiet) ++ over transit (threads example_quiet) ++ out example_quiet.
Proof.
  split; [reflexivity|]. split; [reflexivity|]. split; [reflexivity|].
  refine (proj1 (mempool_conserves true 2 [0; 0] example_alloc example_pool 2 example_quiet _ _ _ _));
    [lia|reflexivity|reflexivity|].
  apply after_reachable.
Defined.
