(* ===== verification/Idr.v ===== *)
(** Small-integer identifiers: [lib/idr.c], a radix tree of layers with 64
    slots each that maps identifiers to pointers.

    The tree is a value. A walk that keeps pointers to the layers above in the
    array [pa] keeps them here in a list of frames, a layer with the slot taken,
    and every return to a layer puts the layer below back into its slot. The
    layers in reserve are the list [id_free]; the link in [ary[0]] is the list
    structure. *)

From S2P Require Import Prelude.
Local Open Scope Z_scope.
Local Open Scope cint_scope.

Definition IDR_BITS : Z := 6.
Definition IDR_FULL : Z := 2 ^ 64 - 1.
Definition IDR_SIZE : Z := 1 << IDR_BITS.
Definition IDR_MASK : Z := (1 << IDR_BITS) - 1.
Definition MAX_ID_SHIFT : Z := 4 * 8 - 1.
Definition MAX_ID_BIT : Z := u32 (1 << MAX_ID_SHIFT).
Definition MAX_ID_MASK : Z := MAX_ID_BIT - 1.
Definition MAX_LEVEL : Z := (MAX_ID_SHIFT + IDR_BITS - 1) / IDR_BITS.
Definition IDR_FREE_MAX : Z := MAX_LEVEL + MAX_LEVEL.

(** ** Bit operations *)

(** The index of the least bit set: the [bsfq] instruction on a word that is
    not 0. *)
Fixpoint bsf (fuel : nat) (val : Z) : Z :=
  match fuel with
  | O => 0
  | S fuel => if Z.odd val then 0 else 1 + bsf fuel (val >> 1)
  end.

Definition __scanbit (val max : Z) : Z := if val =? 0 then max else bsf 64 val.

(** The macro for a constant size of at most 64. *)
Definition find_next_bit (word size off : Z) : Z := off + __scanbit (word >> off) (size - off).

Definition __set_bit (nr word : Z) : Z := Z.setbit word nr.
Definition __clear_bit (nr word : Z) : Z := Z.clearbit word nr.

(** ** Layers *)

(** A slot holds NULL, a pointer of the user or a layer. *)
Inductive idr_layer := Layer (bitmap : Z) (ary : list cell) (count : Z)
with cell := Null | Ptr (p : Z) | Sub (l : idr_layer).

Definition bitmap (p : idr_layer) : Z := let 'Layer b _ _ := p in b.
Definition ary (p : idr_layer) : list cell := let 'Layer _ a _ := p in a.
Definition count (p : idr_layer) : Z := let 'Layer _ _ c := p in c.

Definition slot (p : idr_layer) (n : Z) : cell := default Null (ary p !! Z.to_nat n).
Definition set_slot (p : idr_layer) (n : Z) (c : cell) : idr_layer :=
  Layer (bitmap p) (<[Z.to_nat n := c]> (ary p)) (count p).
Definition set_bitmap (p : idr_layer) (b : Z) : idr_layer := Layer b (ary p) (count p).
Definition set_count (p : idr_layer) (c : Z) : idr_layer := Layer (bitmap p) (ary p) c.

(** A new layer from the cache is cleared by [idr_cache_ctor]. *)
Definition idr_cache_ctor : idr_layer := Layer 0 (replicate 64 Null) 0.

Definition user (ptr : Z) : cell := if ptr =? 0 then Null else Ptr ptr.

Record reserve := Reserve {
  id_free : list idr_layer;
  id_free_cnt : Z;
}.

Record idr := Idr {
  top : option idr_layer;
  layers : nat;
  free : reserve;
}.

Definition idr_init : idr := Idr None 0 (Reserve [] 0).

Definition alloc_layer (f : reserve) : option (idr_layer * reserve) :=
  match id_free f with
  | [] => None
  | p :: rest => Some (set_slot p 0 Null, Reserve rest (id_free_cnt f - 1))
  end.

Definition __free_layer (f : reserve) (p : idr_layer) : reserve :=
  Reserve (p :: id_free f) (id_free_cnt f + 1).
Definition free_layer := __free_layer.

(** [cache] answers the calls of [kmem_cache_alloc] in order. The loop runs
    until the reserve holds [IDR_FREE_MAX] layers: that many rounds suffice. *)
Fixpoint idr_pre_get_loop (fuel : nat) (cache : nat -> bool) (f : reserve) : option (reserve * Z) :=
  if id_free_cnt f <? IDR_FREE_MAX then
    match fuel with
    | O => None
    | S fuel =>
        if cache O then idr_pre_get_loop fuel (fun k => cache (S k)) (free_layer f idr_cache_ctor)
        else Some (f, 0)
    end
  else Some (f, 1).

Definition idr_pre_get (s : idr) (cache : nat -> bool) : option (idr * Z) :=
  r ← idr_pre_get_loop (Z.to_nat IDR_FREE_MAX) cache (free s);
  Some (Idr (top s) (layers s) r.1, r.2).

(** ** Allocation *)

Definition frame : Type := idr_layer * Z.

Definition put (p : idr_layer) (f : frame) : idr_layer := set_slot f.1 f.2 (Sub p).

Fixpoint rebuild (p : idr_layer) (pa : list frame) : idr_layer :=
  match pa with
  | [] => p
  | f :: pa => rebuild (put p f) pa
  end.

(** Marks the full layers from the leaf upwards. *)
Fixpoint mark (n : Z) (p : idr_layer) (pa : list frame) : idr_layer :=
  if bitmap p =? IDR_FULL then
    match pa with
    | [] => p
    | f :: pa =>
        let n := n >> IDR_BITS in
        let p := put p f in
        mark n (set_bitmap p (__set_bit (n & IDR_MASK) (bitmap p))) pa
    end
  else rebuild p pa.

(** The result is the value returned, [*starting_id], the tree and the
    reserve. [l] is the level of [p]; [pa] starts with the layer above. [None]
    is a run out of [fuel], or a slot that holds no layer where one is
    needed. *)
Fixpoint sub_alloc_loop (fuel : nat) (ptr : Z) (starting_id : Z) (l : nat) (id : Z) (p : idr_layer)
    (pa : list frame) (f : reserve) : option (Z * Z * idr_layer * reserve) :=
  match fuel with
  | O => None
  | S fuel =>
    let sh := IDR_BITS * Z.of_nat l in
    let n := (id >> sh) & IDR_MASK in
    let bm := Z.lxor (bitmap p) IDR_FULL in
    let m := find_next_bit bm IDR_SIZE n in
    if m =? IDR_SIZE then
      let l := S l in
      let id := s32 ((id |' ((1 << (IDR_BITS * Z.of_nat l)) - 1)) + 1) in
      match pa with
      | [] => Some (-2, id, p, f)
      | fr :: pa => sub_alloc_loop fuel ptr starting_id l id (put p fr) pa f
      end
    else
      let id := if m =? n then id else s32 ((Z.lxor (Z.lxor (id >> sh) n) m) << sh) in
      if (MAX_ID_BIT <=? u32 id) || (id <? 0) then Some (-3, starting_id, rebuild p pa, f)
      else match l with
      | O =>
          let p := set_slot p m (user ptr) in
          let p := set_bitmap p (__set_bit m (bitmap p)) in
          let p := set_count p (count p + 1) in
          Some (id, starting_id, mark id p pa, f)
      | S l =>
          match slot p m with
          | Sub c => sub_alloc_loop fuel ptr starting_id l id c ((p, m) :: pa) f
          | Null =>
              match alloc_layer f with
              | None => Some (-1, starting_id, rebuild p pa, f)
              | Some (new, f) =>
                  let p := set_slot p m (Sub new) in
                  let p := set_count p (count p + 1) in
                  sub_alloc_loop fuel ptr starting_id l id new ((p, m) :: pa) f
              end
          | Ptr _ => None
          end
      end
  end.

Definition sub_alloc (fuel : nat) (ptr : Z) (starting_id : Z) (p : idr_layer) (layers : nat) (f : reserve)
    : option (Z * Z * idr_layer * reserve) :=
  sub_alloc_loop fuel ptr starting_id (layers - 1) starting_id p [] f.

(** Takes down the [built] layers that were put on top of [idp->top]. *)
Fixpoint tear_down (built : nat) (p : idr_layer) (f : reserve) : reserve :=
  match built with
  | O => f
  | S built =>
      match slot p 0 with
      | Sub q => tear_down built q (__free_layer f (set_count (set_bitmap (set_slot p 0 Null) 0) 0))
      | _ => f
      end
  end.

(** Adds layers until [id] fits: the left result is the reserve after a failed
    allocation. At most [MAX_LEVEL - 1] layers exist, which bounds the loop. *)
Fixpoint build_up (fuel : nat) (id : Z) (built : nat) (p : idr_layer) (layers : nat) (f : reserve)
    : option (reserve + idr_layer * nat * reserve) :=
  if (Z.of_nat layers <? MAX_LEVEL - 1) && (1 << (Z.of_nat layers * IDR_BITS) <=? id) then
    match fuel with
    | O => None
    | S fuel =>
        if count p =? 0 then build_up fuel id built p (S layers) f
        else match alloc_layer f with
        | None => Some (inl (tear_down built p f))
        | Some (new, f) =>
            let new := set_count (set_slot new 0 (Sub p)) 1 in
            let new := if bitmap p =? IDR_FULL then set_bitmap new (__set_bit 0 (bitmap new)) else new in
            build_up fuel id (S built) new (S layers) f
        end
    end
  else Some (inr (p, layers, f)).

(** [rounds] bounds the jumps back to [build_up]. *)
Fixpoint idr_get_new_above_int (rounds fuel : nat) (s : idr) (ptr : Z) (id : Z) : option (Z * idr) :=
  match rounds with
  | O => None
  | S rounds =>
      match (match top s with
             | Some p => Some (p, layers s, free s)
             | None => r ← alloc_layer (free s); Some (r.1, 1%nat, r.2)
             end) with
      | None => Some (-1, s)
      | Some (p, ls, f) =>
          g ← build_up (Z.to_nat MAX_LEVEL) id 0 p ls f;
          match g with
          | inl f => Some (-1, Idr (top s) (layers s) f)
          | inr (p, ls, f) =>
              r ← sub_alloc fuel ptr id p ls f;
              let '(v, id, p, f) := r in
              let s := Idr (Some p) ls f in
              if v =? -2 then idr_get_new_above_int rounds fuel s ptr id else Some (v, s)
          end
      end
  end.

Definition EAGAIN : Z := 11.
Definition ENOSPC : Z := 28.
Definition ENOENT : Z := 2.
Definition EINVAL : Z := 22.

(** The results are the value returned and [*id] where it is stored. *)
Definition idr_get_new_above (rounds fuel : nat) (s : idr) (ptr starting_id : Z) : option (Z * option Z * idr) :=
  r ← idr_get_new_above_int rounds fuel s ptr starting_id;
  let '(rv, s) := r in
  Some (if rv <? 0 then if rv =? -1 then (- EAGAIN, None, s) else (- ENOSPC, None, s)
        else (0, Some rv, s)).

Definition idr_get_new (rounds fuel : nat) (s : idr) (ptr : Z) : option (Z * option Z * idr) :=
  r ← idr_get_new_above_int rounds fuel s ptr 0;
  let '(rv, s) := r in
  Some (if rv <? 0 then if rv =? -1 then (- EAGAIN, None, s) else (- ENOSPC, None, s)
        else (0, Some rv, s)).

(** ** Removal *)

(** Counts the removal of one slot of [p], and of every layer that becomes
    empty by it: NULL with the layers freed, or the tree. *)
Fixpoint release (p : idr_layer) (pa : list frame) (f : reserve) : option idr_layer * reserve :=
  let p := set_count p (count p - 1) in
  if count p =? 0 then
    let f := free_layer f p in
    match pa with
    | [] => (None, f)
    | (q, n) :: pa => release (set_slot q n Null) pa f
    end
  else (Some (rebuild p pa), f).

(** The walk to the leaf, and what it does there; [l] is the level of [p] and
    the first result whether the warning is printed. *)
Fixpoint sub_remove_walk (l : nat) (id : Z) (p : idr_layer) (pa : list frame) (f : reserve)
    : bool * option idr_layer * reserve :=
  match l with
  | O =>
      let n := id & IDR_MASK in
      if Z.testbit (bitmap p) n then
        let p := set_slot (set_bitmap p (__clear_bit n (bitmap p))) n Null in
        let r := release p pa f in
        (false, r.1, r.2)
      else (true, Some (rebuild p pa), f)
  | S l' =>
      let n := (id >> (IDR_BITS * Z.of_nat l)) & IDR_MASK in
      let p := set_bitmap p (__clear_bit n (bitmap p)) in
      match slot p n with
      | Sub c => sub_remove_walk l' id c ((p, n) :: pa) f
      | _ => (true, Some (rebuild p pa), f)
      end
  end.

Definition sub_remove (s : idr) (id : Z) : bool * idr :=
  match top s with
  | None => (true, s)
  | Some p =>
      let '(warned, t, f) := sub_remove_walk (layers s - 1) id p [] (free s) in
      (warned, Idr t (if t then layers s else O) f)
  end.

(** Drops the top layer when only its first slot is in use. *)
Definition drop_layer (s : idr) : idr :=
  match top s with
  | Some p =>
      if (count p =? 1) && (1 <? Z.of_nat (layers s)) then
        match slot p 0 with
        | Sub q => Idr (Some q) (layers s - 1) (free_layer (free s) (set_count (set_bitmap p 0) 0))
        | _ => s
        end
      else s
  | None => s
  end.

(** Gives one layer back to the cache when the reserve is large. *)
Definition trim (f : reserve) : reserve :=
  if IDR_FREE_MAX <=? id_free_cnt f then
    match alloc_layer f with
    | Some (_, f) => f
    | None => f
    end
  else f.

Definition idr_remove (s : idr) (id : Z) : bool * idr :=
  let id := id & MAX_ID_MASK in
  let '(warned, s) := sub_remove s id in
  let s := drop_layer s in
  (warned, Idr (top s) (layers s) (trim (free s))).

Fixpoint idr_destroy_loop (fuel : nat) (f : reserve) : option reserve :=
  if id_free_cnt f =? 0 then Some f
  else match fuel with
  | O => None
  | S fuel =>
      match alloc_layer f with
      | Some (_, f) => idr_destroy_loop fuel f
      | None => None
      end
  end.

Definition idr_destroy (s : idr) : option idr :=
  f ← idr_destroy_loop (length (id_free (free s))) (free s);
  Some (Idr (top s) (layers s) f).

(** ** Look-up *)

(** The walk of [idr_find]: [l] layers are still to be passed. *)
Fixpoint find_walk (l : nat) (id : Z) (c : cell) : cell :=
  match l, c with
  | S l, Sub p => find_walk l id (slot p ((id >> (IDR_BITS * Z.of_nat l)) & IDR_MASK))
  | _, _ => c
  end.

Definition idr_find (s : idr) (id : Z) : cell :=
  let n := Z.of_nat (layers s) * IDR_BITS in
  let id := id & MAX_ID_MASK in
  if 1 << n <=? id then Null
  else find_walk (layers s) id (match top s with Some p => Sub p | None => Null end).

(** The walk of [idr_replace] stops at the leaf. The result is an error number
    or the pointer replaced, with the tree. *)
Fixpoint replace_walk (l : nat) (id ptr : Z) (p : idr_layer) : (Z + cell) * idr_layer :=
  match l with
  | O =>
      let n := id & IDR_MASK in
      if Z.testbit (bitmap p) n then (inr (slot p n), set_slot p n (user ptr))
      else (inl (- ENOENT), p)
  | S l' =>
      let n := (id >> (IDR_BITS * Z.of_nat l)) & IDR_MASK in
      match slot p n with
      | Sub c => let r := replace_walk l' id ptr c in (r.1, set_slot p n (Sub r.2))
      | _ => (inl (- ENOENT), p)
      end
  end.

Definition idr_replace (s : idr) (ptr id : Z) : (Z + cell) * idr :=
  let n := Z.of_nat (layers s) * IDR_BITS in
  let id := id & MAX_ID_MASK in
  if 1 << n <=? id then (inl (- EINVAL), s)
  else match top s with
  | None => (inl (- ENOENT), s)
  | Some p =>
      let r := replace_walk (layers s - 1) id ptr p in
      (r.1, Idr (Some r.2) (layers s) (free s))
  end.


(** ** Digits *)

(** The number of identifiers below [l] layers. *)
Definition W (l : nat) : Z := 64 ^ Z.of_nat l.

Lemma W_0 : W 0 = 1.
Proof. done. Qed.
Lemma W_S l : W (S l) = 64 * W l.
Proof. unfold W. rewrite Nat2Z.inj_succ, Z.pow_succ_r by lia. done. Qed.
Lemma W_pos l : 0 < W l.
Proof. apply Z.pow_pos_nonneg; lia. Qed.
Lemma W_shift l : W l = 2 ^ (IDR_BITS * Z.of_nat l).
Proof. unfold W. change 64 with (2 ^ 6). rewrite <- Z.pow_mul_r by lia. done. Qed.
Lemma W_add k l : W (k + l) = W k * W l.
Proof. unfold W. rewrite Nat2Z.inj_add, Z.pow_add_r by lia. done. Qed.
Lemma W_le k l : (k <= l)%nat -> W k <= W l.
Proof. intros. apply Z.pow_le_mono_r; lia. Qed.

#[local] Hint Resolve W_pos : core.

Definition digit (l : nat) (id : Z) : Z := (id mod W (S l)) / W l.

Lemma shift_mask l id : (id >> (IDR_BITS * Z.of_nat l)) & IDR_MASK = digit l id.
Proof.
  unfold digit. change IDR_MASK with (Z.ones 6).
  rewrite Z.land_ones, Z.shiftr_div_pow2, <- W_shift, W_S by (unfold IDR_BITS; lia).
  change (2 ^ 6) with 64. pose proof (W_pos l).
  rewrite (Z.mul_comm 64), Z.rem_mul_r by lia.
  rewrite Z.mul_comm, Z.div_add by lia. rewrite (Z.div_small (id mod _)) by (apply Z.mod_pos_bound; lia). lia.
Qed.

Lemma mask_digit id : id & IDR_MASK = digit 0 id.
Proof. rewrite <- shift_mask. cbn. by rewrite Z.shiftr_0_r. Qed.

Lemma digit_range l id : 0 <= digit l id < 64.
Proof.
  pose proof (W_pos l). unfold digit. rewrite W_S.
  pose proof (Z.mod_pos_bound id (64 * W l)). split; [apply Z.div_pos; lia|].
  apply Z.div_lt_upper_bound; lia.
Qed.

(** The position below [l + 1] layers. *)
Definition loc (l : nat) (id : Z) : Z := id mod W (S l).

Lemma loc_range l id : 0 <= loc l id < W (S l).
Proof. apply Z.mod_pos_bound, W_pos. Qed.

Lemma digit_loc l id : digit l id = loc l id / W l.
Proof. done. Qed.

Lemma loc_loc l id : loc (S l) id mod W (S l) = loc l id.
Proof.
  unfold loc. rewrite (W_S (S l)). pose proof (W_pos (S l)).
  rewrite (Z.mul_comm 64), Z.rem_mul_r by lia.
  rewrite Z.mul_comm, Z_mod_plus by lia. by rewrite Z.mod_mod by lia.
Qed.

Lemma loc_split l id : loc (S l) id = W (S l) * digit (S l) id + loc l id.
Proof. rewrite digit_loc, <- (loc_loc l). apply Z.div_mod. pose proof (W_pos (S l)). lia. Qed.

Lemma loc_0 id : loc 0 id = digit 0 id.
Proof. rewrite digit_loc, W_0. by rewrite Z.div_1_r. Qed.

(** ** Words *)

Lemma full_word b : 0 <= b < 2 ^ 64 -> (b = IDR_FULL <-> forall i, 0 <= i < 64 -> Z.testbit b i = true).
Proof.
  intros Hb. unfold IDR_FULL. change (2 ^ 64 - 1) with (Z.ones 64). split.
  - intros -> i Hi. apply Z.ones_spec_low. lia.
  - intros H. apply Z.bits_inj'; intros i Hi. destruct (Z.ltb_spec i 64).
    + rewrite H by lia. symmetry. apply Z.ones_spec_low. lia.
    + rewrite Z.ones_spec_high by lia. rewrite <- (Z.mod_small b (2 ^ 64)) by lia.
      apply Z.mod_pow2_bits_high. lia.
Qed.

Lemma testbit_set_bit nr b i : 0 <= nr -> Z.testbit (__set_bit nr b) i = (i =? nr) || Z.testbit b i.
Proof. intros. unfold __set_bit. rewrite Z.setbit_eqb by done. by rewrite Z.eqb_sym. Qed.

Lemma testbit_clear_bit nr b i : Z.testbit (__clear_bit nr b) i = negb (i =? nr) && Z.testbit b i.
Proof. unfold __clear_bit. rewrite Z.clearbit_eqb. rewrite Z.eqb_sym. by rewrite andb_comm. Qed.

Lemma word_of_bits b : 0 <= b -> (forall i, 64 <= i -> Z.testbit b i = false) -> 0 <= b < 2 ^ 64.
Proof.
  intros Hb H. split; [done|]. destruct (Z.ltb_spec b (2 ^ 64)); [done|exfalso].
  pose proof (Z.bit_log2 b ltac:(lia)) as E. rewrite H in E; [done|].
  by apply (Z.log2_le_pow2 b 64); lia.
Qed.

Lemma high_bit b i : 0 <= b < 2 ^ 64 -> 64 <= i -> Z.testbit b i = false.
Proof. intros Hb Hi. rewrite <- (Z.mod_small b (2 ^ 64)) by lia. apply Z.mod_pow2_bits_high. lia. Qed.

Lemma set_bit_range nr b : 0 <= nr < 64 -> 0 <= b < 2 ^ 64 -> 0 <= __set_bit nr b < 2 ^ 64.
Proof.
  intros Hn Hb. apply word_of_bits.
  - unfold __set_bit. rewrite Z.setbit_spec'. apply Z.lor_nonneg. split; [lia|]. by apply Z.pow_nonneg.
  - intros i Hi. rewrite testbit_set_bit by lia. rewrite high_bit by done.
    destruct (Z.eqb_spec i nr); [lia|done].
Qed.

Lemma clear_bit_range nr b : 0 <= nr < 64 -> 0 <= b < 2 ^ 64 -> 0 <= __clear_bit nr b < 2 ^ 64.
Proof.
  intros Hn Hb. apply word_of_bits.
  - unfold __clear_bit. rewrite Z.clearbit_spec'. apply Z.ldiff_nonneg. lia.
  - intros i Hi. rewrite testbit_clear_bit. rewrite (high_bit b) by done. apply andb_false_r.
Qed.

Lemma div2_bit v i : 0 <= i -> Z.testbit (Z.div2 v) i = Z.testbit v (i + 1).
Proof. intros. by rewrite Z.div2_spec, Z.shiftr_spec. Qed.

Lemma bsf_spec fuel v :
  0 < v < 2 ^ Z.of_nat fuel ->
  0 <= bsf fuel v < Z.of_nat fuel /\ Z.testbit v (bsf fuel v) = true
  /\ forall i, 0 <= i < bsf fuel v -> Z.testbit v i = false.
Proof.
  revert v. induction fuel as [|fuel IH]; intros v Hv; cbn [bsf].
  - change (2 ^ Z.of_nat 0) with 1 in Hv. lia.
  - destruct (Z.odd v) eqn:Eo.
    + rewrite Z.bit0_odd. split_and!; try done; lia.
    + rewrite Nat2Z.inj_succ, Z.pow_succ_r in Hv by lia.
      pose proof (Z.div2_odd v) as Ed. rewrite Eo in Ed. rewrite <- Z.div2_spec. cbn [Z.b2z] in Ed.
      destruct (IH (Z.div2 v) ltac:(lia)) as (? & Hb & Hlow). split; [lia|]. split.
      * rewrite div2_bit in Hb by lia. by rewrite Z.add_comm.
      * intros i Hi. destruct (Z.eqb_spec i 0) as [->|]; [by rewrite Z.bit0_odd|].
        specialize (Hlow (i - 1) ltac:(lia)). rewrite div2_bit in Hlow by lia.
        by replace (i - 1 + 1) with i in Hlow by lia.
Qed.

(** The search for a slot with space. *)
Lemma find_space b n m :
  0 <= b < 2 ^ 64 -> 0 <= n < 64 ->
  m = find_next_bit (Z.lxor b IDR_FULL) IDR_SIZE n ->
  (m = IDR_SIZE /\ forall i, n <= i < 64 -> Z.testbit b i = true)
  \/ (n <= m < 64 /\ Z.testbit b m = false /\ forall i, n <= i < m -> Z.testbit b i = true).
Proof.
  intros Hb Hn ->. unfold find_next_bit, __scanbit. change IDR_SIZE with 64.
  set (v := Z.lxor b IDR_FULL >> n).
  assert (0 <= Z.lxor b IDR_FULL) as Hx by (apply Z.lxor_nonneg; unfold IDR_FULL; lia).
  assert (forall i, 0 <= i -> Z.testbit v i = negb (Z.testbit b (n + i)) && (n + i <? 64)) as Hv.
  { intros i Hi. subst v. rewrite Z.shiftr_spec, Z.lxor_spec by lia.
    unfold IDR_FULL. change (2 ^ 64 - 1) with (Z.ones 64). rewrite (Z.add_comm i).
    destruct (Z.ltb_spec (n + i) 64).
    - rewrite Z.ones_spec_low by lia. by rewrite xorb_true_r, andb_true_r.
    - rewrite Z.ones_spec_high, high_bit by lia. done. }
  assert (0 <= v) as Hv0 by (subst v; by apply Z.shiftr_nonneg).
  destruct (Z.eqb_spec v 0) as [E|E].
  - left. split; [lia|]. intros i Hi. specialize (Hv (i - n) ltac:(lia)).
    rewrite E, Z.bits_0 in Hv. replace (n + (i - n)) with i in Hv by lia.
    destruct (Z.ltb_spec i 64); [|lia]. destruct (Z.testbit b i); done.
  - right. assert (0 <= v < 2 ^ 64) as Hr.
    { apply word_of_bits; [done|]. intros i Hi. rewrite Hv by lia.
      destruct (Z.ltb_spec (n + i) 64); [lia|]. apply andb_false_r. }
    destruct (bsf_spec 64 v ltac:(change (Z.of_nat 64) with 64; lia)) as (Hk & Hb1 & Hlow).
    set (k := bsf 64 v) in *. rewrite Hv in Hb1 by lia. apply andb_prop in Hb1 as [Hb1 Hlt].
    apply Z.ltb_lt in Hlt. apply negb_true_iff in Hb1. split_and!; [lia|lia|done|].
    intros i Hi. specialize (Hlow (i - n) ltac:(lia)). rewrite Hv in Hlow by lia.
    replace (n + (i - n)) with i in Hlow by lia. destruct (Z.ltb_spec i 64); [|lia].
    by destruct (Z.testbit b i).
Qed.

(** ** Counting slots *)

Definition indices : list Z := seqZ 0 64.
Definition cnt (f : Z -> bool) : Z := Z.of_nat (length (List.filter f indices)).

Lemma elem_of_indices i : i ∈ indices <-> 0 <= i < 64.
Proof. unfold indices. rewrite elem_of_seqZ. lia. Qed.
Lemma NoDup_indices : NoDup indices.
Proof. apply NoDup_seqZ. Qed.
#[local] Opaque indices.

Lemma cnt_ext_on (f g : Z -> bool) l :
  (forall i, i ∈ l -> f i = g i) -> List.filter f l = List.filter g l.
Proof.
  intros H. induction l as [|x l IH]; [done|]. cbn.
  rewrite H by left. rewrite IH; [done|]. intros. apply H. by right.
Qed.

Lemma cnt_ext f g : (forall i, 0 <= i < 64 -> f i = g i) -> cnt f = cnt g.
Proof. intros H. unfold cnt. rewrite (cnt_ext_on f g); [done|]. intros i Hi%elem_of_indices. by apply H. Qed.

Lemma filter_length_add (f g : Z -> bool) n l :
  NoDup l -> n ∈ l -> f n = false -> g n = true -> (forall i, i <> n -> f i = g i) ->
  length (List.filter g l) = S (length (List.filter f l)).
Proof.
  intros Hl Hn Hf Hg H. induction Hl as [|x l Hx Hl IH]; [by apply not_elem_of_nil in Hn|].
  cbn. apply elem_of_cons in Hn as [<-|Hn].
  - rewrite Hf, Hg. cbn. f_equal. f_equal. apply cnt_ext_on. intros i Hi. symmetry. apply H. by intros ->.
  - rewrite (H x) by (by intros ->). destruct (g x); cbn; by rewrite IH.
Qed.

Lemma cnt_add f g n :
  0 <= n < 64 -> f n = false -> g n = true -> (forall i, i <> n -> f i = g i) -> cnt g = cnt f + 1.
Proof.
  intros Hn Hf Hg H. unfold cnt. rewrite (filter_length_add f g n); try done; [lia|apply NoDup_indices|].
  by apply elem_of_indices.
Qed.

Lemma cnt_0 f : cnt f = 0 -> forall i, 0 <= i < 64 -> f i = false.
Proof.
  intros H i Hi. destruct (f i) eqn:E; [|done].
  assert (i ∈ List.filter f indices) as K.
  { apply list_elem_of_In, List.filter_In. split; [|done]. by apply list_elem_of_In, elem_of_indices. }
  unfold cnt in H. destruct (List.filter f indices); [by apply not_elem_of_nil in K|done].
Qed.

Lemma cnt_1 f n : cnt f = 1 -> 0 <= n < 64 -> f n = true -> forall i, 0 <= i < 64 -> i <> n -> f i = false.
Proof.
  intros H Hn Hf i Hi Hne.
  pose proof (cnt_add (fun j => if j =? n then false else f j) f n Hn) as K.
  cbv beta in K. rewrite Z.eqb_refl in K. specialize (K eq_refl Hf).
  rewrite K in H.
  - pose proof (cnt_0 (fun j => if j =? n then false else f j) ltac:(lia) i Hi) as E. cbn in E.
    destruct (Z.eqb_spec i n); done.
  - intros j Hj. destruct (Z.eqb_spec j n); done.
Qed.

(** ** Well-formed trees *)

Definition occupied (l : nat) (p : idr_layer) (n : Z) : bool :=
  match l with
  | O => Z.testbit (bitmap p) n
  | S _ => match slot p n with Null => false | _ => true end
  end.

Fixpoint wf (l : nat) (p : idr_layer) : Prop :=
  length (ary p) = 64%nat /\ 0 <= bitmap p < 2 ^ 64 /\ count p = cnt (occupied l p)
  /\ match l with
     | O => forall n, 0 <= n < 64 -> match slot p n with
                                     | Null => True
                                     | Ptr _ => Z.testbit (bitmap p) n = true
                                     | Sub _ => False
                                     end
     | S l => forall n, 0 <= n < 64 -> match slot p n with
                                       | Null => Z.testbit (bitmap p) n = false
                                       | Ptr _ => False
                                       | Sub c => wf l c /\ Z.testbit (bitmap p) n = (bitmap c =? IDR_FULL)
                                       end
     end.

(** What position [j] below [p] holds: [None] when it is free. *)
Fixpoint get (l : nat) (p : idr_layer) (j : Z) : option cell :=
  match l with
  | O => if Z.testbit (bitmap p) j then Some (slot p j) else None
  | S l => match slot p (j / W (S l)) with
           | Sub c => get l c (j mod W (S l))
           | _ => None
           end
  end.

Lemma slot_set_eq p n c : (Z.to_nat n < length (ary p))%nat -> slot (set_slot p n c) n = c.
Proof. intros. unfold slot, set_slot; cbn. by rewrite list_lookup_insert_eq. Qed.

Lemma slot_set_ne p n m c : 0 <= n -> 0 <= m -> n <> m -> slot (set_slot p n c) m = slot p m.
Proof. intros. unfold slot, set_slot; cbn. by rewrite list_lookup_insert_ne by lia. Qed.

Lemma set_slot_id p n c : slot p n = c -> (Z.to_nat n < length (ary p))%nat -> set_slot p n c = p.
Proof.
  intros Hs Hn. unfold slot, set_slot in *. destruct (lookup_lt_is_Some_2 _ _ Hn) as [x E].
  rewrite E in Hs. cbn in Hs. subst x. rewrite list_insert_id by done. by destruct p.
Qed.

Lemma slot_bitmap p b n : slot (set_bitmap p b) n = slot p n.
Proof. done. Qed.
Lemma slot_count p c n : slot (set_count p c) n = slot p n.
Proof. done. Qed.

Lemma wf_length l p : wf l p -> length (ary p) = 64%nat.
Proof. destruct l; by intros (? & _). Qed.
Lemma wf_bitmap l p : wf l p -> 0 <= bitmap p < 2 ^ 64.
Proof. destruct l; by intros (_ & ? & _). Qed.
Lemma wf_count l p : wf l p -> count p = cnt (occupied l p).
Proof. destruct l; by intros (_ & _ & ? & _). Qed.

(** A bitmap is full when every position is taken. *)
Lemma full_iff l p :
  wf l p -> (bitmap p = IDR_FULL <-> forall j, 0 <= j < W (S l) -> get l p j <> None).
Proof.
  revert p. induction l as [|l IH]; intros p Hp; rewrite full_word by (by eapply wf_bitmap).
  - cbn [get]. change (W 1) with 64. split; intros H j Hj; specialize (H j Hj); destruct (Z.testbit _ _); done.
  - destruct Hp as (_ & _ & _ & Hs). pose proof (W_pos (S l)) as Hw. rewrite (W_S (S l)). split.
    + intros H j Hj. cbn [get].
      assert (0 <= j / W (S l) < 64) as Hd by (split; [apply Z.div_pos; lia|apply Z.div_lt_upper_bound; lia]).
      specialize (H _ Hd). specialize (Hs _ Hd).
      destruct (slot p (j / W (S l))) as [|?|c]; [congruence|done|]. destruct Hs as [Hc Hb].
      rewrite H in Hb. symmetry in Hb. apply Z.eqb_eq in Hb. apply (IH c Hc); [done|]. by apply Z.mod_pos_bound.
    + intros H n Hn. specialize (Hs n Hn).
      assert (forall j, 0 <= j < W (S l) -> get (S l) p (n * W (S l) + j) = match slot p n with Sub c => get l c j | _ => None end) as Hg.
      { intros j Hj. cbn [get]. rewrite Z.div_add_l, Z.div_small, Z.add_0_r by lia.
        by rewrite Z.add_comm, Z_mod_plus, Z.mod_small by lia. }
      destruct (slot p n) as [|?|c]; [|done|].
      * destruct (H (n * W (S l)) ltac:(nia)). rewrite <- (Z.add_0_r (n * _)). by rewrite Hg by lia.
      * destruct Hs as [Hc ->]. apply Z.eqb_eq, (IH c Hc). intros j Hj. rewrite <- Hg by done.
        apply H. nia.
Qed.


(** ** Changing one slot *)

Definition in_use (c : cell) : Z := match c with Null => 0 | _ => 1 end.

Lemma slot_layer_eq b a k n c :
  0 <= n < 64 -> length a = 64%nat -> slot (Layer b (<[Z.to_nat n := c]> a) k) n = c.
Proof. intros. unfold slot; cbn. by rewrite list_lookup_insert_eq by lia. Qed.

Lemma slot_layer_ne b b' a k k' n m c :
  0 <= n -> 0 <= m -> m <> n -> slot (Layer b (<[Z.to_nat n := c]> a) k) m = slot (Layer b' a k') m.
Proof. intros. unfold slot; cbn. by rewrite list_lookup_insert_ne by lia. Qed.

Lemma layer_eta p : Layer (bitmap p) (ary p) (count p) = p.
Proof. by destruct p. Qed.

Lemma wf_update l p n x b :
  wf (S l) p -> 0 <= n < 64 -> 0 <= b < 2 ^ 64 ->
  (forall i, 0 <= i < 64 -> i <> n -> Z.testbit b i = Z.testbit (bitmap p) i) ->
  match x with
  | Null => Z.testbit b n = false
  | Ptr _ => False
  | Sub c => wf l c /\ Z.testbit b n = (bitmap c =? IDR_FULL)
  end ->
  wf (S l) (Layer b (<[Z.to_nat n := x]> (ary p)) (count p + in_use x - in_use (slot p n))).
Proof.
  intros (Hlen & Hb & Hc & Hs) Hn Hb' Hbits Hx. refine (conj _ (conj _ (conj _ _))); cbn [ary bitmap count].
  - by rewrite length_insert.
  - done.
  - rewrite Hc. set (q := Layer b _ _).
    assert (occupied (S l) q n = match x with Null => false | _ => true end) as Eq
      by (cbn; subst q; by rewrite slot_layer_eq).
    assert (forall i, 0 <= i < 64 -> i <> n -> occupied (S l) p i = occupied (S l) q i) as Ene.
    { intros i Hi Hne. cbn. subst q. rewrite (slot_layer_ne b (bitmap p) (ary p) _ (count p)) by lia. by rewrite layer_eta. }
    set (fp := occupied (S l) p) in *. set (fq := occupied (S l) q) in *.
    assert (fp n = match slot p n with Null => false | _ => true end) as Ep by done.
    set (g := fun i => if decide (0 <= i < 64) then fq i else fp i).
    assert (cnt fq = cnt g) as -> by (apply cnt_ext; intros i Hi; unfold g; by rewrite decide_True).
    assert (g n = fq n) as Egn by (unfold g; by rewrite decide_True).
    assert (forall i, i <> n -> fp i = g i) as Eg.
    { intros i Hne. unfold g. destruct (decide _); [by apply Ene|done]. }
    rewrite <- Egn in Eq.
    destruct (slot p n); destruct x; cbn [in_use]; try done;
      solve [ rewrite <- (cnt_ext fp g); [lia|]; intros i _; destruct (Z.eqb_spec i n) as [->|]; [congruence|by apply Eg]
            | rewrite (cnt_add fp g n Hn Ep Eq Eg); lia
            | rewrite (cnt_add g fp n Hn Eq Ep); [lia|]; intros; symmetry; by apply Eg ].
  - intros i Hi. destruct (Z.eqb_spec i n) as [->|Hne].
    + rewrite slot_layer_eq by done. by destruct x.
    + rewrite (slot_layer_ne _ (bitmap p) _ _ (count p)), layer_eta, Hbits by lia. by apply Hs.
Qed.

Lemma get_update l p n x b k j :
  length (ary p) = 64%nat -> 0 <= n < 64 -> 0 <= j < W (S (S l)) ->
  get (S l) (Layer b (<[Z.to_nat n := x]> (ary p)) k) j
  = if j / W (S l) =? n then match x with Sub c => get l c (j mod W (S l)) | _ => None end
    else get (S l) p j.
Proof.
  intros Hl Hn Hj. cbn [get]. pose proof (W_pos (S l)).
  assert (0 <= j / W (S l)) by (apply Z.div_pos; lia).
  destruct (Z.eqb_spec (j / W (S l)) n) as [->|Hne].
  - by rewrite slot_layer_eq.
  - by rewrite (slot_layer_ne _ (bitmap p) _ _ (count p)), layer_eta by lia.
Qed.

Lemma wf_update_leaf p n x b :
  wf 0 p -> 0 <= n < 64 -> 0 <= b < 2 ^ 64 ->
  (forall i, 0 <= i < 64 -> i <> n -> Z.testbit b i = Z.testbit (bitmap p) i) ->
  match x with Null => True | Ptr _ => Z.testbit b n = true | Sub _ => False end ->
  wf 0 (Layer b (<[Z.to_nat n := x]> (ary p))
    (count p + Z.b2z (Z.testbit b n) - Z.b2z (Z.testbit (bitmap p) n))).
Proof.
  intros (Hlen & Hb & Hc & Hs) Hn Hb' Hbits Hx. refine (conj _ (conj _ (conj _ _))); cbn [ary bitmap count].
  - by rewrite length_insert.
  - done.
  - rewrite Hc. set (q := Layer b _ _). change (cnt (occupied 0 q)) with (cnt (Z.testbit b)).
    change (cnt (occupied 0 p)) with (cnt (Z.testbit (bitmap p))).
    set (fp := Z.testbit (bitmap p)) in *. set (fq := Z.testbit b) in *.
    set (g := fun i => if decide (0 <= i < 64) then fq i else fp i).
    assert (cnt fq = cnt g) as E by (apply cnt_ext; intros i Hi; unfold g; by rewrite decide_True).
    assert (g n = fq n) as Egn by (unfold g; by rewrite decide_True).
    assert (forall i, i <> n -> fp i = g i) as Eg.
    { intros i Hne. unfold g. destruct (decide _); [symmetry; by apply Hbits|done]. }
    rewrite E. rewrite <- Egn.
    destruct (fp n) eqn:Ep; destruct (g n) eqn:Eq; cbn [Z.b2z];
      solve [ rewrite <- (cnt_ext fp g); [lia|]; intros i _; destruct (Z.eqb_spec i n) as [->|]; [congruence|by apply Eg]
            | rewrite (cnt_add fp g n Hn Ep Eq Eg); lia
            | rewrite (cnt_add g fp n Hn Eq Ep); [lia|]; intros; symmetry; by apply Eg ].
  - intros i Hi. destruct (Z.eqb_spec i n) as [->|Hne].
    + rewrite slot_layer_eq by done. by destruct x.
    + rewrite (slot_layer_ne _ (bitmap p) _ _ (count p)), layer_eta, Hbits by lia. by apply Hs.
Qed.

Lemma get_update_leaf p n x b k j :
  length (ary p) = 64%nat -> 0 <= n < 64 -> 0 <= j < 64 ->
  (forall i, 0 <= i < 64 -> i <> n -> Z.testbit b i = Z.testbit (bitmap p) i) ->
  get 0 (Layer b (<[Z.to_nat n := x]> (ary p)) k) j
  = if j =? n then if Z.testbit b n then Some x else None else get 0 p j.
Proof.
  intros Hl Hn Hj Hbits. cbn [get bitmap]. destruct (Z.eqb_spec j n) as [->|Hne].
  - by rewrite slot_layer_eq.
  - rewrite Hbits by done. by rewrite (slot_layer_ne _ (bitmap p) _ _ (count p)), layer_eta by lia.
Qed.

(** ** The reserve *)

Definition zeroed (q : idr_layer) : Prop :=
  bitmap q = 0 /\ count q = 0 /\ length (ary q) = 64%nat /\ forall n, 0 < n < 64 -> slot q n = Null.

Definition reserve_ok (f : reserve) : Prop :=
  Forall zeroed (id_free f) /\ id_free_cnt f = Z.of_nat (length (id_free f)).

Lemma zeroed_clear q : zeroed q -> set_slot q 0 Null = idr_cache_ctor.
Proof.
  intros (Hb & Hc & Hl & Hs). unfold set_slot, idr_cache_ctor. rewrite Hb, Hc. f_equal.
  apply (list_eq_same_length _ _ 64); [by rewrite length_replicate|by rewrite length_insert|].
  intros i x y Hi Hx Hy. apply lookup_replicate_1 in Hy as [-> _].
  destruct i as [|i].
  - rewrite list_lookup_insert_eq in Hx by lia. congruence.
  - rewrite list_lookup_insert_ne in Hx by done. specialize (Hs (Z.of_nat (S i)) ltac:(lia)).
    unfold slot in Hs. rewrite Nat2Z.id, Hx in Hs. done.
Qed.

Lemma alloc_layer_ok f new f' :
  reserve_ok f -> alloc_layer f = Some (new, f') ->
  new = idr_cache_ctor /\ reserve_ok f' /\ length (id_free f) = S (length (id_free f')).
Proof.
  intros [Hz Hc] H. unfold alloc_layer in H. destruct (id_free f) as [|q rest]; [done|].
  injection H as <- <-. apply Forall_cons in Hz as [Hq Hz]. split_and!.
  - by apply zeroed_clear.
  - split; [done|]. cbn in *. lia.
  - done.
Qed.

Lemma alloc_layer_none f : alloc_layer f = None -> id_free f = [].
Proof. unfold alloc_layer. by destruct (id_free f). Qed.

Lemma free_layer_ok f q : reserve_ok f -> zeroed q -> reserve_ok (__free_layer f q).
Proof. intros [Hz Hc] Hq. split; cbn; [by constructor|]. rewrite Hc. lia. Qed.

Lemma ctor_slot n : slot idr_cache_ctor n = Null.
Proof.
  unfold slot, idr_cache_ctor; cbn [ary]. destruct (replicate 64 Null !! Z.to_nat n) as [c|] eqn:E; [|done].
  by apply lookup_replicate_1 in E as [-> _].
Qed.

Lemma ctor_zeroed : zeroed idr_cache_ctor.
Proof. split_and!; try done. intros. apply ctor_slot. Qed.

Lemma cnt_false f : (forall i, 0 <= i < 64 -> f i = false) -> cnt f = 0.
Proof.
  intros H. unfold cnt. rewrite (cnt_ext_on f (fun _ => false)).
  - induction indices; done.
  - intros i Hi%elem_of_indices. by apply H.
Qed.

Lemma ctor_wf l : wf l idr_cache_ctor.
Proof.
  destruct l; refine (conj _ (conj _ (conj _ _))); try done; try by split.
  - intros n _. by rewrite ctor_slot.
  - intros n _. rewrite ctor_slot. apply Z.bits_0.
Qed.

Lemma ctor_get l j : get l idr_cache_ctor j = None.
Proof. destruct l; cbn [get]; [by rewrite Z.bits_0|by rewrite ctor_slot]. Qed.

(** ** Planting a pointer *)

(** What a walk that finds the free identifier [id] does to the tree below
    [p]: the first result is whether the layers in reserve sufficed. *)
Fixpoint plant (l : nat) (ptr id : Z) (p : idr_layer) (f : reserve) : bool * idr_layer * reserve :=
  let m := digit l id in
  match l with
  | O => (true, Layer (__set_bit m (bitmap p)) (<[Z.to_nat m := user ptr]> (ary p)) (count p + 1), f)
  | S l =>
      let into c p f :=
        let '(ok, c, f) := plant l ptr id c f in
        let p := set_slot p m (Sub c) in
        (ok, if ok && (bitmap c =? IDR_FULL) then set_bitmap p (__set_bit m (bitmap p)) else p, f) in
      match slot p m with
      | Sub c => into c p f
      | _ =>
          match alloc_layer f with
          | None => (false, p, f)
          | Some (new, f) => into new (set_count (set_slot p m (Sub new)) (count p + 1)) f
          end
      end
  end.

Definition user_slot (ptr : Z) : match user ptr with Null => True | Ptr _ => True | Sub _ => False end.
Proof. unfold user. by destruct (ptr =? 0). Defined.

(** A free position has a free bit above it. *)
Lemma free_bit l p j :
  wf (S l) p -> 0 <= j < W (S (S l)) -> get (S l) p j = None -> Z.testbit (bitmap p) (j / W (S l)) = false.
Proof.
  intros (_ & _ & _ & Hs) Hj Hg. pose proof (W_pos (S l)). rewrite (W_S (S l)) in Hj.
  assert (0 <= j / W (S l) < 64) as Hd by (split; [apply Z.div_pos; lia|apply Z.div_lt_upper_bound; lia]).
  specialize (Hs _ Hd). cbn [get] in Hg. destruct (slot p (j / W (S l))) as [|?|c]; [done|done|].
  destruct Hs as [Hc ->]. apply Z.eqb_neq. rewrite (full_iff l c Hc). intros K.
  by destruct (K (j mod W (S l)) ltac:(by apply Z.mod_pos_bound)).
Qed.

(** The child at a free slot: a layer, or none yet, which is as good as an
    empty one. *)
Definition child (p : idr_layer) (n : Z) : idr_layer :=
  match slot p n with Sub c => c | _ => idr_cache_ctor end.

Lemma child_wf l p n : wf (S l) p -> 0 <= n < 64 -> wf l (child p n).
Proof.
  intros (_ & _ & _ & Hs) Hn. specialize (Hs n Hn). unfold child.
  destruct (slot p n); [apply ctor_wf|done|by destruct Hs].
Qed.

Lemma get_child l p j : get (S l) p j = get l (child p (j / W (S l))) (j mod W (S l)).
Proof. cbn [get]. unfold child. destruct (slot p _); by rewrite ?ctor_get. Qed.

Lemma bit_full l p n : wf (S l) p -> 0 <= n < 64 -> Z.testbit (bitmap p) n = (bitmap (child p n) =? IDR_FULL).
Proof.
  intros (_ & _ & _ & Hs) Hn. specialize (Hs n Hn). unfold child.
  destruct (slot p n); [by rewrite Hs|done|by destruct Hs].
Qed.

Record planted (l : nat) (ptr id : Z) (p : idr_layer) (f : reserve) (r : bool * idr_layer * reserve) : Prop := Planted {
  pl_wf : wf l r.1.2;
  pl_reserve : reserve_ok r.2;
  pl_get : forall j, 0 <= j < W (S l) ->
    get l r.1.2 j = if r.1.1 && (j =? loc l id) then Some (user ptr) else get l p j;
  pl_enough : (l <= length (id_free f))%nat -> r.1.1 = true;
  pl_used : (length (id_free f) <= length (id_free r.2) + l)%nat;
  pl_space : r.1.1 = false -> bitmap r.1.2 = bitmap p;
}.

(** The step of [plant] into a child, whether the child was there or is new. *)
Lemma planted_into l ptr id p c f f0 r :
  wf (S l) p -> child p (digit (S l) id) = c -> get (S l) p (loc (S l) id) = None ->
  planted l ptr id c f r ->
  (length (id_free f0) <= length (id_free f) + 1)%nat ->
  let m := digit (S l) id in
  let q := set_count (set_slot p m (Sub r.1.2)) (count p + 1 - in_use (slot p m)) in
  ((S l <= length (id_free f0))%nat -> r.1.1 = true) ->
  planted (S l) ptr id p f0
    (r.1.1, if r.1.1 && (bitmap r.1.2 =? IDR_FULL) then set_bitmap q (__set_bit m (bitmap q)) else q, r.2).
Proof.
  intros Hp Hc Hfree [Hwf Hres Hget Hen Hused Hsp] Hf0 m q Henough. destruct r as [[ok c'] f']; cbn [fst snd] in *.
  pose proof (digit_range (S l) id) as Hm. fold m in Hm, Hc.
  pose proof (W_pos (S l)) as Hw. pose proof (loc_range (S l) id) as Hloc.
  pose proof (wf_bitmap _ _ Hp) as Hb.
  assert (Z.testbit (bitmap p) m = false) as Hbit by (by apply (free_bit l p (loc (S l) id))).
  assert (exists b, (if ok && (bitmap c' =? IDR_FULL) then set_bitmap q (__set_bit m (bitmap q)) else q)
     = Layer b (<[Z.to_nat m := Sub c']> (ary p)) (count p + in_use (Sub c') - in_use (slot p m))
     /\ 0 <= b < 2 ^ 64
     /\ (forall i, 0 <= i < 64 -> i <> m -> Z.testbit b i = Z.testbit (bitmap p) i)
     /\ Z.testbit b m = (bitmap c' =? IDR_FULL)
     /\ (ok = false -> b = bitmap p)) as (b & -> & Hb' & Hne & Hm' & Hf).
  { destruct ok; [destruct (bitmap c' =? IDR_FULL) eqn:E|]; cbn [andb].
    - exists (__set_bit m (bitmap p)). split; [reflexivity|]. split_and!; try done; try (apply set_bit_range; done).
      + intros i Hi Hne. rewrite testbit_set_bit by lia. destruct (Z.eqb_spec i m); [done|]. done.
      + rewrite testbit_set_bit by lia. by rewrite Z.eqb_refl.
    - exists (bitmap p). split; [reflexivity|]. split_and!; try done; apply Hb.
    - exists (bitmap p). split; [reflexivity|]. split_and!; try done; try apply Hb.
      rewrite Hsp, Hbit by done. rewrite (bit_full l p m Hp Hm), Hc in Hbit. by rewrite <- Hbit. }
  split; cbn [fst snd]; try done.
  - apply wf_update; try done.
  - intros j Hj. rewrite get_update by (try done; by eapply wf_length).
    assert (0 <= j mod W (S l) < W (S l)) as Hjm by (by apply Z.mod_pos_bound).
    pose proof (loc_split l id) as El. fold m in El. pose proof (Z.div_mod j (W (S l)) ltac:(lia)) as Ej.
    destruct (Z.eqb_spec (j / W (S l)) m) as [E|E].
    + rewrite Hget by done. rewrite get_child, E, Hc.
      replace (j =? loc (S l) id) with (j mod W (S l) =? loc l id); [done|].
      apply eq_true_iff_eq. rewrite !Z.eqb_eq. rewrite E in Ej. lia.
    + destruct (Z.eqb_spec j (loc (S l) id)) as [->|]; [|by rewrite andb_false_r].
      destruct E. unfold m. by rewrite digit_loc.
  - lia.
Qed.

Lemma plant_ok l ptr id p f :
  wf l p -> reserve_ok f -> get l p (loc l id) = None -> planted l ptr id p f (plant l ptr id p f).
Proof.
  revert p f. induction l as [|l IH]; intros p f Hp Hf Hfree.
  - cbn [plant]. pose proof (digit_range 0 id) as Hm. set (m := digit 0 id) in *.
    pose proof (wf_bitmap _ _ Hp) as Hb.
    assert (Z.testbit (bitmap p) m = false) as Hbit.
    { rewrite loc_0 in Hfree. fold m in Hfree. cbn [get] in Hfree. by destruct (Z.testbit (bitmap p) m). }
    assert (forall i, 0 <= i < 64 -> i <> m -> Z.testbit (__set_bit m (bitmap p)) i = Z.testbit (bitmap p) i) as Hne.
    { intros i Hi Hne. rewrite testbit_set_bit by lia. by destruct (Z.eqb_spec i m). }
    assert (Z.testbit (__set_bit m (bitmap p)) m = true) as Hmm by (rewrite testbit_set_bit by lia; by rewrite Z.eqb_refl).
    split; cbn [fst snd]; try done; try lia.
    + pose proof (wf_update_leaf p m (user ptr) (__set_bit m (bitmap p)) Hp Hm (set_bit_range _ _ Hm Hb) Hne) as K.
      rewrite Hmm, Hbit in K. cbn [Z.b2z] in K. rewrite Z.sub_0_r in K. apply K.
      pose proof (user_slot ptr). by destruct (user ptr).
    + intros j Hj. rewrite get_update_leaf by (try done; by eapply wf_length).
      rewrite loc_0. fold m. by rewrite Hmm.
  - pose proof (digit_range (S l) id) as Hm. cbn [plant]. set (m := digit (S l) id) in *.
    assert (get l (child p m) (loc l id) = None) as Hc.
    { rewrite get_child in Hfree. rewrite loc_loc in Hfree. unfold m. by rewrite digit_loc. }
    pose proof (child_wf l p m Hp Hm) as Hcw.
    destruct (slot p m) as [|q|c] eqn:Es.
    + destruct (alloc_layer f) as [[new f1]|] eqn:Ea.
      * apply alloc_layer_ok in Ea as (-> & Hf1 & Hlen); [|done].
        assert (child p m = idr_cache_ctor) as Ec by (unfold child; by rewrite Es).
        rewrite Ec in Hc, Hcw. specialize (IH _ f1 Hcw Hf1 Hc).
        pose proof (planted_into l ptr id p _ f1 f _ Hp Ec Hfree IH ltac:(lia)) as K. cbv zeta in K. fold m in K.
        rewrite Es in K. cbn [in_use] in K. rewrite Z.sub_0_r in K.
        destruct (plant l ptr id idr_cache_ctor f1) as [[ok c'] f']. cbn [fst snd] in K.
        assert (set_slot (set_count (set_slot p m (Sub idr_cache_ctor)) (count p + 1)) m (Sub c')
          = set_count (set_slot p m (Sub c')) (count p + 1)) as ->.
        { unfold set_slot, set_count; cbn. by rewrite list_insert_insert_eq. }
        apply K. intros. apply IH. lia.
      * apply alloc_layer_none in Ea. split; cbn [fst snd]; try done; rewrite Ea; cbn; lia.
    + exfalso. destruct Hp as (_ & _ & _ & Hs). specialize (Hs m Hm). by rewrite Es in Hs.
    + assert (child p m = c) as Ec by (unfold child; by rewrite Es).
      rewrite Ec in Hc, Hcw. specialize (IH _ f Hcw Hf Hc).
      pose proof (planted_into l ptr id p _ f f _ Hp Ec Hfree IH ltac:(lia)) as K. cbv zeta in K. fold m in K.
      rewrite Es in K. cbn [in_use] in K. rewrite Z.add_simpl_r in K.
      destruct (plant l ptr id c f) as [[ok c'] f']. cbn [fst snd] in K.
      assert (set_count (set_slot p m (Sub c')) (count p) = set_slot p m (Sub c')) as E by done.
      rewrite E in K. apply K. intros. apply IH. lia.
Qed.

(** ** Identifiers on the way *)

Lemma xor_digit q n m : 0 <= n < 64 -> 0 <= m < 64 -> Z.lxor (Z.lxor (n + 64 * q) n) m = m + 64 * q.
Proof.
  intros Hn Hm. change 64 with (2 ^ 6). apply Z.bits_inj'; intros i Hi.
  rewrite !Z.lxor_spec, !testbit_split by (change (2 ^ 6) with 64; lia).
  destruct (Z.ltb_spec i 6).
  - by rewrite xorb_nilpotent, xorb_false_l.
  - rewrite <- (Z.mod_small n (2 ^ 6)), <- (Z.mod_small m (2 ^ 6)) by (change (2 ^ 6) with 64; lia).
    rewrite !Z.mod_pow2_bits_high by lia. by rewrite !xorb_false_r.
Qed.

Lemma id_split l id : id = loc l id + W (S l) * (id / W (S l)).
Proof. unfold loc. pose proof (W_pos (S l)). pose proof (Z.div_mod id (W (S l)) ltac:(lia)). lia. Qed.

Lemma shift_id l id : id >> (IDR_BITS * Z.of_nat l) = digit l id + 64 * (id / W (S l)).
Proof.
  rewrite Z.shiftr_div_pow2, <- W_shift by (unfold IDR_BITS; lia). pose proof (W_pos l).
  rewrite (id_split l id) at 1. rewrite W_S at 1.
  replace (64 * W l * _) with (64 * (id / W (S l)) * W l) by lia.
  by rewrite Z.div_add by lia.
Qed.

Lemma replace_digit l id n m :
  n = digit l id -> 0 <= m < 64 ->
  (Z.lxor (Z.lxor (id >> (IDR_BITS * Z.of_nat l)) n) m) << (IDR_BITS * Z.of_nat l)
  = id - loc l id + m * W l.
Proof.
  intros -> Hm. rewrite shift_id, xor_digit by (done || apply digit_range).
  rewrite Z.shiftl_mul_pow2, <- W_shift by (unfold IDR_BITS; lia).
  rewrite (id_split l id) at 2. rewrite (W_S l) at 2. lia.
Qed.

Lemma round_up l id :
  (id |' ((1 << (IDR_BITS * Z.of_nat (S l))) - 1)) + 1 = id - loc l id + W (S l).
Proof.
  set (k := IDR_BITS * Z.of_nat (S l)). assert (0 <= k) as Hk by (unfold k, IDR_BITS; lia).
  rewrite Z.shiftl_1_l. change (2 ^ k - 1) with (Z.pred (2 ^ k)). rewrite <- Z.ones_equiv.
  assert (W (S l) = 2 ^ k) as Ew by apply W_shift. pose proof (loc_range l id) as Hl.
  pose proof (id_split l id) as E. rewrite Ew in *.
  set (q := id / 2 ^ k) in *. set (r := loc l id) in *.
  enough (Z.lor id (Z.ones k) = Z.ones k + 2 ^ k * q) as -> by (rewrite Z.ones_equiv; lia).
  rewrite E. apply Z.bits_inj'; intros i Hi.
  rewrite Z.lor_spec, !testbit_split by (try done; rewrite Z.ones_equiv; lia).
  destruct (Z.ltb_spec i k).
  - rewrite Z.ones_spec_low by lia. by rewrite orb_true_r.
  - rewrite Z.ones_spec_high by lia. by rewrite orb_false_r.
Qed.

Lemma loc_plus l id j : 0 <= j < W (S l) -> loc l (id - loc l id + j) = j.
Proof.
  intros Hj. rewrite (id_split l id) at 1. unfold loc.
  replace (_ + _ - _ + j) with (j + id / W (S l) * W (S l)).
  - by rewrite Z_mod_plus, Z.mod_small by (done || (pose proof (W_pos (S l)); lia)).
  - fold (loc l id). lia.
Qed.

Lemma id_bound l id : (l <= 4)%nat -> 0 <= id < W 5 -> 0 <= id - loc l id /\ id - loc l id + W (S l) <= W 5.
Proof.
  intros Hl Hid. pose proof (id_split l id) as E. pose proof (W_pos (S l)).
  assert (W 5 = W (5 - S l) * W (S l)) as E5.
  { rewrite <- W_add. f_equal. lia. }
  assert (0 <= id / W (S l) < W (5 - S l)).
  { split; [apply Z.div_pos; lia|]. apply Z.div_lt_upper_bound; lia. }
  nia.
Qed.

Lemma W_5 : W 5 = 2 ^ 30.
Proof. done. Qed.

Lemma id_in_range id : 0 <= id < W 5 -> s32 id = id /\ (MAX_ID_BIT <=? u32 id) || (id <? 0) = false.
Proof.
  rewrite W_5. intros Hid. split.
  - apply sext_small; [lia|]. change (2 ^ (32 - 1)) with (2 * 2 ^ 30). lia.
  - rewrite wrap_small by (change (2 ^ 32) with (4 * 2 ^ 30); lia).
    apply orb_false_iff. rewrite Z.leb_gt, Z.ltb_ge. change MAX_ID_BIT with (2 * 2 ^ 30). lia.
Qed.

(** ** The search *)

Definition least_free (l : nat) (p : idr_layer) (r j : Z) : Prop :=
  r <= j < W (S l) /\ get l p j = None /\ forall i, r <= i < j -> get l p i <> None.

(** The result of a search that plants below [p]. *)
Definition found (l : nat) (ptr start id : Z) (p : idr_layer) (pa : list frame) (f : reserve)
    : option (Z * Z * idr_layer * reserve) :=
  let '(ok, p', f') := plant l ptr id p f in
  Some (if ok then (id, start, mark (id >> (IDR_BITS * Z.of_nat l)) p' pa, f')
        else (-1, start, rebuild p' pa, f')).

Lemma mark_not_full n p pa : bitmap p <> IDR_FULL -> mark n p pa = rebuild p pa.
Proof. intros H%Z.eqb_neq. destruct pa; cbn; by rewrite H. Qed.

Lemma mark_into l ptr start id p1 c f m pa :
  m = digit (S l) id -> bitmap p1 <> IDR_FULL ->
  found l ptr start id c ((p1, m) :: pa) f
  = let '(ok, c', f') := plant l ptr id c f in
    let q := set_slot p1 m (Sub c') in
    Some (if ok then
        (id, start, mark (id >> (IDR_BITS * Z.of_nat (S l)))
          (if bitmap c' =? IDR_FULL then set_bitmap q (__set_bit m (bitmap q)) else q) pa, f')
      else (-1, start, rebuild q pa, f')).
Proof.
  intros Hm Hb. unfold found. destruct (plant l ptr id c f) as [[[] c'] f']; [|done].
  cbv zeta. do 3 f_equal. cbn [mark]. destruct (bitmap c' =? IDR_FULL) eqn:E.
  - rewrite Z.shiftr_shiftr by (unfold IDR_BITS; lia).
    replace (IDR_BITS * Z.of_nat l + IDR_BITS) with (IDR_BITS * Z.of_nat (S l)) by (unfold IDR_BITS; lia).
    rewrite shift_mask, <- Hm. done.
  - cbn [rebuild]. by rewrite mark_not_full.
Qed.

Lemma sub_alloc_loop_S fuel ptr start l id p pa f :
  sub_alloc_loop (S fuel) ptr start l id p pa f =
  let n := digit l id in
  let m := find_next_bit (Z.lxor (bitmap p) IDR_FULL) IDR_SIZE n in
  if m =? IDR_SIZE then
    let id := s32 (id - loc l id + W (S l)) in
    match pa with
    | [] => Some (-2, id, p, f)
    | fr :: pa => sub_alloc_loop fuel ptr start (S l) id (put p fr) pa f
    end
  else
    let id := if m =? n then id
      else s32 ((Z.lxor (Z.lxor (id >> (IDR_BITS * Z.of_nat l)) n) m) << (IDR_BITS * Z.of_nat l)) in
    if (MAX_ID_BIT <=? u32 id) || (id <? 0) then Some (-3, start, rebuild p pa, f)
    else match l with
    | O => Some (id, start, mark id (set_count (set_bitmap (set_slot p m (user ptr)) (__set_bit m (bitmap p))) (count p + 1)) pa, f)
    | S l =>
        match slot p m with
        | Sub c => sub_alloc_loop fuel ptr start l id c ((p, m) :: pa) f
        | Null =>
            match alloc_layer f with
            | None => Some (-1, start, rebuild p pa, f)
            | Some (new, f) =>
                sub_alloc_loop fuel ptr start l id new ((set_count (set_slot p m (Sub new)) (count p + 1), m) :: pa) f
            end
        | Ptr _ => None
        end
    end.
Proof. cbn [sub_alloc_loop]. rewrite shift_mask, <- round_up. reflexivity. Qed.

(** The identifier a layer goes on with. *)
Lemma next_id l id m :
  (l <= 4)%nat -> 0 <= id < W 5 -> 0 <= m < 64 ->
  let id' := if m =? digit l id then id else id - loc l id + m * W l in
  (if m =? digit l id then id
   else s32 ((Z.lxor (Z.lxor (id >> (IDR_BITS * Z.of_nat l)) (digit l id)) m) << (IDR_BITS * Z.of_nat l))) = id'
  /\ 0 <= id' < W 5 /\ (MAX_ID_BIT <=? u32 id') || (id' <? 0) = false.
Proof.
  intros Hl Hid Hm id'. pose proof (id_bound l id Hl Hid) as Hb. pose proof (W_pos l).
  assert (0 <= id' < W 5) as Hr.
  { unfold id'. destruct (_ =? _); [done|]. rewrite W_S in Hb. nia. }
  split_and!; try apply Hr; [|by apply id_in_range].
  unfold id' in *. destruct (m =? digit l id); [done|].
  rewrite replace_digit by done. by apply id_in_range.
Qed.

Lemma fuel_S (n fuel : nat) : (S n <= fuel)%nat -> exists fuel', fuel = S fuel' /\ (n <= fuel')%nat.
Proof. destruct fuel as [|fuel]; [lia|]. exists fuel. split; [done|lia]. Qed.

(** The leaf: the search succeeds there or goes back. *)
Lemma leaf_found ptr start id p pa f fuel j :
  wf 0 p -> 0 <= id < W 5 -> least_free 0 p (loc 0 id) j -> (1 <= fuel)%nat ->
  sub_alloc_loop fuel ptr start 0 id p pa f = found 0 ptr start (id - loc 0 id + j) p pa f.
Proof.
  intros Hp Hid (Hj & Hfree & Hleast) Hfuel. destruct (fuel_S 0 fuel Hfuel) as (fuel' & -> & _).
  rewrite sub_alloc_loop_S. cbv zeta. pose proof (digit_range 0 id) as Hn.
  set (m := find_next_bit _ _ _). change (W 1) with 64 in Hj. rewrite loc_0 in Hj, Hleast.
  cbn [get] in Hfree. assert (Z.testbit (bitmap p) j = false) as Hbj by (by destruct (Z.testbit _ _)).
  destruct (find_space (bitmap p) (digit 0 id) m (wf_bitmap _ _ Hp) Hn eq_refl) as [[_ Hall]|(Hm & Hbm & Hlow)].
  { rewrite Hall in Hbj; [done|lia]. }
  assert (m = j) as Em.
  { destruct (Z.lt_trichotomy m j) as [?|[?|?]]; [|done|].
    - destruct (Hleast m ltac:(lia)). cbn [get]. by rewrite Hbm.
    - rewrite Hlow in Hbj; [done|lia]. }
  destruct (Z.eqb_spec m IDR_SIZE) as [E|_]; [change IDR_SIZE with 64 in E; lia|].
  destruct (next_id 0 id m ltac:(lia) Hid ltac:(lia)) as (-> & Hr & ->). rewrite Em in *.
  set (id' := if _ =? _ then _ else _) in *.
  assert (id' = id - loc 0 id + j) as ->.
  { subst id'. rewrite loc_0, W_0. destruct (Z.eqb_spec j (digit 0 id)); lia. }
  unfold found. cbn [plant]. rewrite digit_loc, loc_plus, W_0, Z.div_1_r by (change (W 1) with 64; lia).
  by rewrite Z.shiftr_0_r.
Qed.

Lemma loc_block l id m : loc l (id - loc (S l) id + m * W (S l)) = 0.
Proof.
  unfold loc at 1. rewrite (id_split (S l) id) at 1. rewrite (W_S (S l)). pose proof (W_pos (S l)).
  replace (_ + _ - _ + _) with (0 + (64 * (id / (64 * W (S l))) + m) * W (S l)) by (unfold loc; rewrite (W_S (S l)); lia).
  by rewrite Z_mod_plus, Z.mod_0_l by lia.
Qed.

Section enter.
Context (l : nat) (ptr start : Z).
Hypothesis IH : forall id p pa f fuel j,
  (l <= 4)%nat -> wf l p -> reserve_ok f -> 0 <= id < W 5 -> least_free l p (loc l id) j ->
  loc l id = 0 \/ j / W 2 = loc l id / W 2 -> (3 * l + 1 <= fuel)%nat ->
  sub_alloc_loop fuel ptr start l id p pa f = found l ptr start (id - loc l id + j) p pa f.

(** The search chooses the slot that holds the identifier. *)
Lemma loop_enter id p pa f fuel j :
  (S l <= 4)%nat -> wf (S l) p -> reserve_ok f -> 0 <= id < W 5 ->
  0 <= j < W (S (S l)) -> get (S l) p j = None ->
  let m := j / W (S l) in
  let id' := if m =? digit (S l) id then id else id - loc (S l) id + m * W (S l) in
  find_next_bit (Z.lxor (bitmap p) IDR_FULL) IDR_SIZE (digit (S l) id) = m ->
  least_free l (child p m) (loc l id') (j mod W (S l)) ->
  loc l id' = 0 \/ (j mod W (S l)) / W 2 = loc l id' / W 2 ->
  (3 * l + 1 <= fuel)%nat ->
  sub_alloc_loop (S fuel) ptr start (S l) id p pa f = found (S l) ptr start (id - loc (S l) id + j) p pa f.
Proof.
  intros Hl Hp Hf Hid Hj Hfree m id' Hm Hleast Hblock Hfuel.
  pose proof (W_pos (S l)) as Hw. rewrite (W_S (S l)) in Hj.
  assert (0 <= m < 64) as Hm64 by (unfold m; split; [apply Z.div_pos; lia|apply Z.div_lt_upper_bound; lia]).
  pose proof (Z.div_mod j (W (S l)) ltac:(lia)) as Ej. fold m in Ej.
  pose proof (Z.mod_pos_bound j (W (S l)) ltac:(lia)) as Hjm.
  assert (id' - loc l id' + j mod W (S l) = id - loc (S l) id + j) as Eid.
  { pose proof (loc_split l id) as E1. subst id'. destruct (Z.eqb_spec m (digit (S l) id)) as [E|E].
    - rewrite E1, <- E. lia.
    - rewrite loc_block. lia. }
  assert (m = digit (S l) (id - loc (S l) id + j)) as Ed.
  { rewrite digit_loc, loc_plus by (rewrite (W_S (S l)); lia). done. }
  rewrite sub_alloc_loop_S. cbv zeta. rewrite Hm.
  destruct (Z.eqb_spec m IDR_SIZE) as [E|_]; [change IDR_SIZE with 64 in E; lia|].
  destruct (next_id (S l) id m Hl Hid Hm64) as (-> & Hr & ->). fold id'.
  assert (Z.testbit (bitmap p) m = false) as Hbit.
  { apply (free_bit l p j Hp); [rewrite (W_S (S l)); lia|done]. }
  assert (bitmap p <> IDR_FULL) as Hnf.
  { intros E. rewrite (proj1 (full_word _ (wf_bitmap _ _ Hp)) E m Hm64) in Hbit. done. }
  pose proof (child_wf l p m Hp Hm64) as Hcw.
  unfold found at 1. cbn [plant]. rewrite <- Ed.
  destruct (slot p m) as [|q|c] eqn:Es.
  - assert (child p m = idr_cache_ctor) as Ec by (unfold child; by rewrite Es). rewrite Ec in *.
    destruct (alloc_layer f) as [[new f1]|] eqn:Ea; [|done].
    apply alloc_layer_ok in Ea as (-> & Hf1 & _); [|done].
    rewrite (IH id' _ _ f1 fuel (j mod W (S l))) by (done || lia). rewrite Eid.
    rewrite mark_into by done.
    destruct (plant l ptr _ idr_cache_ctor f1) as [[[] c'] f']; done.
  - exfalso. destruct Hp as (_ & _ & _ & Hs). specialize (Hs m Hm64). by rewrite Es in Hs.
  - assert (child p m = c) as Ec by (unfold child; by rewrite Es). rewrite Ec in *.
    rewrite (IH id' _ _ f fuel (j mod W (S l))) by (done || lia). rewrite Eid.
    rewrite mark_into by done.
    destruct (plant l ptr _ c f) as [[[] c'] f']; done.
Qed.
End enter.

Lemma leaf_search ptr start id p pa f fuel j :
  (0 <= 4)%nat -> wf 0 p -> reserve_ok f -> 0 <= id < W 5 -> least_free 0 p (loc 0 id) j ->
  loc 0 id = 0 \/ j / W 2 = loc 0 id / W 2 -> (3 * 0 + 1 <= fuel)%nat ->
  sub_alloc_loop fuel ptr start 0 id p pa f = found 0 ptr start (id - loc 0 id + j) p pa f.
Proof. intros. apply leaf_found; (done || lia). Qed.

(** Where all positions of a child are taken its bit is set. *)
Lemma child_full l p m :
  wf (S l) p -> 0 <= m < 64 ->
  (forall i, 0 <= i < W (S l) -> get (S l) p (m * W (S l) + i) <> None) -> Z.testbit (bitmap p) m = true.
Proof.
  intros Hp Hm H. rewrite (bit_full l p m Hp Hm). apply Z.eqb_eq, (full_iff l _ (child_wf l p m Hp Hm)).
  intros i Hi. specialize (H i Hi). pose proof (W_pos (S l)).
  rewrite get_child, Z.div_add_l, Z.div_small, Z.add_0_r in H by lia.
  by rewrite Z.add_comm, Z_mod_plus, Z.mod_small in H by lia.
Qed.

Section least.
Context (l : nat) (p : idr_layer) (id j : Z).
Hypothesis Hp : wf (S l) p.
Hypothesis Hleast : least_free (S l) p (loc (S l) id) j.
Let m : Z := j / W (S l).

Lemma least_digit : digit (S l) id <= m < 64.
Proof.
  destruct Hleast as (Hj & _). pose proof (W_pos (S l)) as Hw. pose proof (loc_range (S l) id).
  rewrite digit_loc. rewrite (W_S (S l)) in Hj. split; [apply Z.div_le_mono; lia|apply Z.div_lt_upper_bound; lia].
Qed.

Lemma least_child :
  let id' := if m =? digit (S l) id then id else id - loc (S l) id + m * W (S l) in
  least_free l (child p m) (loc l id') (j mod W (S l))
  /\ (loc (S l) id = 0 \/ j / W 2 = loc (S l) id / W 2 ->
      loc l id' = 0 \/ (j mod W (S l)) / W 2 = loc l id' / W 2).
Proof.
  intros id'. destruct Hleast as (Hj & Hfree & Hused). pose proof (W_pos (S l)) as Hw.
  pose proof least_digit as Hd. pose proof (loc_split l id) as El. pose proof (loc_range l id) as Hlr.
  pose proof (Z.div_mod j (W (S l)) ltac:(lia)) as Ej. fold m in Ej.
  pose proof (Z.mod_pos_bound j (W (S l)) ltac:(lia)) as Hjm.
  assert (forall i, 0 <= i < W (S l) -> get l (child p m) i = get (S l) p (W (S l) * m + i)) as Hg.
  { intros i Hi. rewrite get_child, (Z.mul_comm (W (S l))), Z.div_add_l, (Z.div_small i), Z.add_0_r by lia.
    by rewrite Z.add_comm, Z_mod_plus, Z.mod_small by lia. }
  split.
  - assert (W (S l) * m + loc l id' >= loc (S l) id /\ 0 <= loc l id' <= j mod W (S l)) as [Hge Hle].
    { unfold id'. destruct (Z.eqb_spec m (digit (S l) id)) as [E|E].
      - rewrite <- E in El. lia.
      - rewrite loc_block. nia. }
    split; [lia|]. split; [by rewrite Hg, <- Ej by lia|].
    intros i Hi. rewrite Hg by lia. apply Hused. lia.
  - unfold id'. intros Hb. destruct (Z.eqb_spec m (digit (S l) id)) as [E|E]; [|left; apply loc_block].
    destruct Hb as [Hb|Hb].
    + left. pose proof (digit_range (S l) id). nia.
    + right. destruct l as [|k].
      * change (W 1) with 64 in *. change (W 2) with 4096. rewrite !Z.div_small by lia. done.
      * assert (W (S (S k)) = W k * W 2) as Ew by (rewrite <- W_add; f_equal; lia).
        rewrite <- E in El. rewrite El, Ej, Ew in Hb.
        replace (W k * W 2 * m) with (W k * m * W 2) in Hb by lia.
        rewrite !Z.div_add_l in Hb by (pose proof (W_pos 2); lia). rewrite Ew. lia.
Qed.

Lemma least_found :
  find_next_bit (Z.lxor (bitmap p) IDR_FULL) IDR_SIZE (digit (S l) id) = m
  \/ (find_next_bit (Z.lxor (bitmap p) IDR_FULL) IDR_SIZE (digit (S l) id) = digit (S l) id
      /\ digit (S l) id < m /\ loc l id <> 0).
Proof.
  destruct Hleast as (Hj & Hfree & Hused). pose proof (W_pos (S l)) as Hw. pose proof least_digit as Hd.
  pose proof (digit_range (S l) id) as Hn. pose proof (loc_split l id) as El. pose proof (loc_range l id) as Hlr.
  pose proof (Z.div_mod j (W (S l)) ltac:(lia)) as Ej. fold m in Ej.
  pose proof (Z.mod_pos_bound j (W (S l)) ltac:(lia)) as Hjm.
  assert (Z.testbit (bitmap p) m = false) as Hbit.
  { apply (free_bit l p j Hp); [|done]. pose proof (loc_range (S l) id). lia. }
  set (k := find_next_bit _ _ _).
  destruct (find_space (bitmap p) _ k (wf_bitmap _ _ Hp) Hn eq_refl) as [[_ Hall]|(Hk & Hbk & Hlow)].
  { rewrite Hall in Hbit by lia. done. }
  destruct (Z.lt_trichotomy k m) as [Hlt|[?|Hgt]]; [|by left|by rewrite Hlow in Hbit by lia].
  right. destruct (decide (digit (S l) id < k \/ loc l id = 0)) as [Hc|Hc].
  - rewrite (child_full l p k) in Hbk; [done|done|lia|].
    intros i Hi. apply Hused. nia.
  - lia.
Qed.
End least.

(** The step back from a leaf without space to the layer above it, which goes
    on with the next leaf. *)
Lemma leaf_back ptr start id p pa f fuel c :
  wf 1 p -> 0 <= id < W 5 -> id - loc 0 id + 64 < W 5 ->
  slot p (digit 1 id) = Sub c ->
  find_next_bit (Z.lxor (bitmap p) IDR_FULL) IDR_SIZE (digit 1 id) = digit 1 id ->
  (forall k, digit 0 id <= k < 64 -> get 0 c k <> None) ->
  sub_alloc_loop (S (S fuel)) ptr start 1 id p pa f
  = sub_alloc_loop fuel ptr start 1 (id - loc 0 id + 64) p pa f.
Proof.
  intros Hp Hid Hnext Es E Hused. pose proof (digit_range 1 id) as Hn. pose proof (digit_range 0 id) as Hd0.
  assert (wf 0 c) as Hcw.
  { pose proof (child_wf 0 p _ Hp Hn) as K. unfold child in K. by rewrite Es in K. }
  rewrite sub_alloc_loop_S. cbv zeta. rewrite E. set (n := digit 1 id) in *.
  destruct (Z.eqb_spec n IDR_SIZE) as [E1|_]; [change IDR_SIZE with 64 in E1; lia|].
  rewrite Z.eqb_refl. destruct (id_in_range id Hid) as [_ ->]. rewrite Es.
  rewrite sub_alloc_loop_S. cbv zeta. set (k := find_next_bit _ _ _).
  destruct (find_space (bitmap c) (digit 0 id) k (wf_bitmap _ _ Hcw) Hd0 eq_refl) as [[-> _]|(Hk & Hbk & _)].
  2: { destruct (Hused k Hk). cbn [get]. by rewrite Hbk. }
  rewrite Z.eqb_refl. unfold put; cbn [fst snd].
  rewrite (set_slot_id p n) by (rewrite ?(wf_length _ _ Hp); (done || lia)).
  change (W 1) with 64. pose proof (id_bound 0 id ltac:(lia) Hid).
  by destruct (id_in_range (id - loc 0 id + 64) ltac:(lia)) as [-> _].
Qed.

(** The search goes on in the layer above the leaves. *)
Lemma next_leaf ptr start id p pa f fuel j :
  wf 1 p -> reserve_ok f -> 0 <= id < W 5 -> 0 <= j < W 2 -> get 1 p j = None -> (2 <= fuel)%nat ->
  digit 1 id < j / 64 -> (forall i, loc 1 id <= i < j -> get 1 p i <> None) ->
  sub_alloc_loop fuel ptr start 1 (id - loc 0 id + 64) p pa f = found 1 ptr start (id - loc 1 id + j) p pa f.
Proof.
  intros Hp Hf Hid Hj Hfree Hfuel Hlt Hused. set (n := digit 1 id) in *. set (id2 := id - loc 0 id + 64).
  pose proof (digit_range 1 id) as Hn. fold n in Hn. pose proof (loc_split 0 id) as El. fold n in El.
  change (W 1) with 64 in *. change (W 2) with 4096 in *. pose proof (loc_range 0 id) as Hl0. change (W 1) with 64 in Hl0.
  pose proof (Z.div_mod j 64 ltac:(lia)) as Ej. pose proof (Z.mod_pos_bound j 64 ltac:(lia)) as Hjm.
  pose proof (id_bound 1 id ltac:(lia) Hid) as Hb2. change (W 2) with 4096 in Hb2.
  assert (loc 1 id2 = 64 * (n + 1)) as Eloc.
  { replace id2 with (id - loc 1 id + 64 * (n + 1)) by (unfold id2; lia). apply loc_plus. change (W 2) with 4096. lia. }
  assert (least_free 1 p (loc 1 id2) j) as Hleast.
  { rewrite Eloc. split; [change (W 2) with 4096; lia|]. split; [done|]. intros i Hi. apply Hused. lia. }
  assert (0 <= id2 < W 5) as Hid2 by (unfold id2; lia).
  replace (id - loc 1 id + j) with (id2 - loc 1 id2 + j) by (rewrite Eloc; unfold id2; lia).
  destruct (fuel_S 1 fuel ltac:(lia)) as (fuel3 & -> & Hf3).
  destruct (least_child 0 p id2 j Hp Hleast) as [Hch Hbl].
  destruct (least_found 0 p id2 j Hp Hleast) as [E|(_ & _ & Hne)].
  - apply (loop_enter 0 ptr start (leaf_search ptr start)); try done; try lia. apply Hbl. right.
    rewrite Eloc. change (W 2) with 4096. rewrite !Z.div_small by lia. done.
  - exfalso. apply Hne. rewrite <- (loc_loc 0), Eloc. change (W 1) with 64. by rewrite Z.mul_comm, Z.mod_mul.
Qed.

(** A search from [id] below a layer that has the identifier: at most one step
    back, from a leaf to the layer above, is needed when it lies in the block of
    4096 of [id], and none from the start of a block. *)
Lemma loop_found l ptr start : forall id p pa f fuel j,
  (l <= 4)%nat -> wf l p -> reserve_ok f -> 0 <= id < W 5 -> least_free l p (loc l id) j ->
  loc l id = 0 \/ j / W 2 = loc l id / W 2 -> (3 * l + 1 <= fuel)%nat ->
  sub_alloc_loop fuel ptr start l id p pa f = found l ptr start (id - loc l id + j) p pa f.
Proof.
  induction l as [|l IH]; intros id p pa f fuel j Hl Hp Hf Hid Hleast Hblock Hfuel.
  { apply leaf_found; (done || lia). }
  pose proof (least_digit l p id j Hleast) as Hd. pose proof (W_pos (S l)) as Hw.
  pose proof (loc_range (S l) id) as Hlr.
  destruct (fuel_S (3 * l + 3) fuel ltac:(lia)) as (fuel1 & -> & Hf1).
  destruct (least_child l p id j Hp Hleast) as [Hch Hbl]. specialize (Hbl Hblock).
  assert (0 <= j < W (S (S l)) /\ get (S l) p j = None) as [Hj Hfree] by (destruct Hleast; split; [lia|naive_solver]).
  destruct (least_found l p id j Hp Hleast) as [E|(E & Hlt & Hne)].
  { apply (loop_enter l ptr start IH); (done || lia). }
  pose proof (loc_split l id) as El. pose proof (digit_range (S l) id) as Hn. pose proof (loc_range l id) as Hl0.
  destruct Hblock as [Hb|Hb]; [nia|].
  destruct l as [|l].
  2: { exfalso. assert (W (S (S l)) = W 2 * W l) as Ew by (rewrite <- W_add; f_equal; lia).
    rewrite digit_loc, Ew, <- !Z.div_div, Hb in Hlt by (pose proof (W_pos 2); pose proof (W_pos l); lia). lia. }
  change (W 1) with 64 in *. change (W 2) with 4096 in *.
  pose proof (Z.div_mod j 64 ltac:(lia)) as Ej. pose proof (Z.mod_pos_bound j 64 ltac:(lia)) as Hjm.
  destruct Hleast as (Hrj & _ & Hused). set (n := digit 1 id) in *.
  assert (forall k, digit 0 id <= k < 64 -> get 0 (child p n) k <> None) as Hleaf.
  { intros k Hk. rewrite <- loc_0 in Hk. specialize (Hused (64 * n + k) ltac:(lia)). rewrite get_child in Hused.
    change (W 1) with 64 in Hused. rewrite Z.mul_comm, Z.div_add_l, (Z.div_small k), Z.add_0_r in Hused by lia.
    by rewrite Z.add_comm, Z_mod_plus, Z.mod_small in Hused by lia. }
  assert (exists c, slot p n = Sub c /\ child p n = c) as (c & Es & Ec).
  { unfold child in *. pose proof (digit_range 0 id). destruct Hp as (_ & _ & _ & Hs). specialize (Hs n Hn).
    destruct (slot p n) as [|?|c]; [|done|by exists c].
    destruct (Hleaf 63 ltac:(lia)). apply ctor_get. }
  rewrite Ec in Hleaf. destruct (fuel_S 2 fuel1 ltac:(lia)) as (fuel2 & -> & Hf2).
  pose proof (id_bound 1 id ltac:(lia) Hid) as Hb2. change (W 2) with 4096 in Hb2.
  rewrite (leaf_back ptr start id p pa f fuel2 c) by (done || lia).
  apply (next_leaf ptr start id p pa f fuel2 j); (done || lia || idtac).
Qed.

(** ** The whole tree *)

Definition lookup_in (ls : nat) (p : idr_layer) (id : Z) : option cell :=
  if (0 <=? id) && (id <? W ls) then get (ls - 1) p id else None.

Definition lookup (s : idr) (id : Z) : option cell :=
  match top s with Some p => lookup_in (layers s) p id | None => None end.

Definition idr_ok (s : idr) : Prop :=
  reserve_ok (free s)
  /\ match top s with
     | Some p => (1 <= layers s <= 5)%nat /\ wf (layers s - 1) p
     | None => layers s = O
     end.

Lemma idr_ok_some p ls f : reserve_ok f -> (1 <= ls <= 5)%nat -> wf (ls - 1) p -> idr_ok (Idr (Some p) ls f).
Proof. by split. Qed.

Lemma lookup_in_at ls p id : 0 <= id < W ls -> lookup_in ls p id = get (ls - 1) p id.
Proof. intros. unfold lookup_in. destruct (Z.leb_spec 0 id); [|lia]. destruct (Z.ltb_spec id (W ls)); [done|lia]. Qed.

Lemma lookup_in_out ls p id : ~ (0 <= id < W ls) -> lookup_in ls p id = None.
Proof. intros. unfold lookup_in. destruct (Z.leb_spec 0 id); [|done]. destruct (Z.ltb_spec id (W ls)); [lia|done]. Qed.

Lemma lookup_in_range ls p id : lookup_in ls p id <> None -> 0 <= id < W ls.
Proof. unfold lookup_in. destruct (Z.leb_spec 0 id); [|done]. by destruct (Z.ltb_spec id (W ls)). Qed.

Lemma lookup_in_eq ls p q :
  (forall id, 0 <= id < W ls -> get (ls - 1) p id = get (ls - 1) q id) -> forall id, lookup_in ls p id = lookup_in ls q id.
Proof.
  intros H id. unfold lookup_in. destruct (Z.leb_spec 0 id); [|done].
  destruct (Z.ltb_spec id (W ls)); [by apply H|done].
Qed.

(** The layers built on top of the tree hold nothing but the layer below. *)
Fixpoint chain (k : nat) (p : idr_layer) : Prop :=
  match k with
  | O => True
  | S k => exists q, slot p 0 = Sub q /\ length (ary p) = 64%nat
      /\ (forall n, 0 < n < 64 -> slot p n = Null) /\ chain k q
  end.

Lemma tear_down_ok k p f :
  chain k p -> reserve_ok f ->
  reserve_ok (tear_down k p f) /\ length (id_free (tear_down k p f)) = (length (id_free f) + k)%nat.
Proof.
  revert p f. induction k as [|k IH]; intros p f Hc Hf; cbn [tear_down]; [by rewrite Nat.add_0_r|].
  destruct Hc as (q & -> & Hl & Hs & Hc). destruct (IH q (__free_layer f (set_count (set_bitmap (set_slot p 0 Null) 0) 0)) Hc) as [H1 H2].
  - apply free_layer_ok; [done|]. split_and!; try done; cbn [ary set_count set_bitmap set_slot].
    + by rewrite length_insert.
    + intros n Hn. rewrite slot_count, slot_bitmap, slot_set_ne by lia. by apply Hs.
  - split; [done|]. rewrite H2. cbn. lia.
Qed.

Lemma empty_layer l p : wf l p -> count p = 0 -> bitmap p = 0 /\ forall n, 0 <= n < 64 -> slot p n = Null.
Proof.
  intros Hp Hc. rewrite (wf_count _ _ Hp) in Hc. pose proof (cnt_0 _ Hc) as H0.
  assert (forall n, 0 <= n < 64 -> slot p n = Null /\ Z.testbit (bitmap p) n = false) as H.
  { intros n Hn. specialize (H0 n Hn). pose proof (wf_bitmap _ _ Hp). destruct l as [|l].
    - destruct Hp as (_ & _ & _ & Hs). specialize (Hs n Hn). cbn in H0. rewrite H0 in Hs.
      destruct (slot p n); done.
    - destruct Hp as (_ & _ & _ & Hs). specialize (Hs n Hn). cbn in H0. destruct (slot p n); done. }
  split; [|intros; by apply H]. apply Z.bits_inj'; intros i Hi. rewrite Z.bits_0.
  destruct (decide (i < 64)); [by apply H|]. apply high_bit; [by eapply wf_bitmap|lia].
Qed.

Lemma empty_get l p j : bitmap p = 0 -> (forall n, 0 <= n < 64 -> slot p n = Null) -> 0 <= j < W (S l) -> get l p j = None.
Proof.
  intros Hb Hs Hj. destruct l as [|l]; cbn [get]; [by rewrite Hb, Z.bits_0|].
  pose proof (W_pos (S l)). rewrite (W_S (S l)) in Hj.
  rewrite Hs; [done|]. split; [apply Z.div_pos; lia|apply Z.div_lt_upper_bound; lia].
Qed.

(** An empty layer is well formed at the level above too. *)
Lemma wf_lift l p : wf l p -> count p = 0 ->
  wf (S l) p /\ (forall j, lookup_in (S (S l)) p j = lookup_in (S l) p j).
Proof.
  intros Hp Hc. destruct (empty_layer l p Hp Hc) as [Hb Hs]. split.
  - refine (conj _ (conj _ (conj _ _))).
    + by eapply wf_length.
    + by eapply wf_bitmap.
    + rewrite Hc. symmetry. apply cnt_false. intros i Hi. cbn. by rewrite Hs.
    + intros n Hn. rewrite Hs by done. by rewrite Hb, Z.bits_0.
  - intros j. assert (forall k, lookup_in (S k) p j = None) as E; [|by rewrite !E].
    intros k. destruct (decide (0 <= j < W (S k))); [|by apply lookup_in_out].
    rewrite lookup_in_at by done. cbn. rewrite Nat.sub_0_r. by apply empty_get.
Qed.

(** A layer put on top. *)
Definition on_top (p : idr_layer) : idr_layer :=
  let new := set_count (set_slot idr_cache_ctor 0 (Sub p)) 1 in
  if bitmap p =? IDR_FULL then set_bitmap new (__set_bit 0 (bitmap new)) else new.

Lemma on_top_ok l p : wf l p ->
  wf (S l) (on_top p) /\ (forall j, lookup_in (S (S l)) (on_top p) j = lookup_in (S l) p j)
  /\ forall k, chain k p -> chain (S k) (on_top p).
Proof.
  intros Hp.
  assert (exists b, on_top p = Layer b (<[Z.to_nat 0 := Sub p]> (ary idr_cache_ctor))
      (count idr_cache_ctor + in_use (Sub p) - in_use (slot idr_cache_ctor 0))
    /\ 0 <= b < 2 ^ 64
    /\ (forall i, 0 <= i < 64 -> i <> 0 -> Z.testbit b i = Z.testbit (bitmap idr_cache_ctor) i)
    /\ Z.testbit b 0 = (bitmap p =? IDR_FULL)) as (b & -> & Hb & Hne & H0).
  { unfold on_top. destruct (bitmap p =? IDR_FULL).
    - exists (__set_bit 0 0). split; [reflexivity|]. split_and!; try done.
      intros i Hi Hne. rewrite testbit_set_bit by lia. by destruct (Z.eqb_spec i 0).
    - exists 0. split; [reflexivity|]. by split_and!. }
  split_and!.
  - apply wf_update; try done. apply ctor_wf.
  - intros j. pose proof (W_pos (S l)) as Hw. destruct (decide (0 <= j < W (S (S l)))) as [Hj|Hj].
    + rewrite lookup_in_at by done. change (S (S l) - 1)%nat with (S l). rewrite get_update by done.
      rewrite (W_S (S l)) in Hj. destruct (Z.eqb_spec (j / W (S l)) 0) as [E|E].
      * apply Z.div_small_iff in E; [|lia]. rewrite Z.mod_small, lookup_in_at by lia. cbn [Nat.sub]. by rewrite Nat.sub_0_r.
      * rewrite ctor_get, lookup_in_out; [done|]. intros ?. destruct E. by apply Z.div_small.
    + rewrite !lookup_in_out; [done| |done]. rewrite (W_S (S l)) in Hj. lia.
  - intros k Hk. exists p. split_and!; [by apply slot_layer_eq|cbn [ary]; by rewrite length_insert| |done].
    intros n Hn. rewrite (slot_layer_ne b 0 (ary idr_cache_ctor) _ 0) by lia. apply ctor_slot.
Qed.

Lemma build_up_ok id fuel : forall ls built p f,
  (1 <= ls <= 5)%nat -> wf (ls - 1) p -> chain built p -> reserve_ok f -> 0 <= id < W 5 -> (5 - ls < fuel)%nat ->
  match build_up fuel id built p ls f with
  | Some (inr (p', ls', f')) =>
      (ls <= ls' <= 5)%nat /\ wf (ls' - 1) p' /\ reserve_ok f' /\ id < W ls'
      /\ (forall j, lookup_in ls' p' j = lookup_in ls p j)
      /\ (length (id_free f) + ls <= length (id_free f') + ls')%nat
  | Some (inl f') => reserve_ok f' /\ (length (id_free f) + ls < 5)%nat
  | None => False
  end.
Proof.
  induction fuel as [|fuel IH]; intros ls built p f Hls Hp Hch Hf Hid Hfuel; [lia|]. cbn [build_up].
  change (MAX_LEVEL - 1) with 5. rewrite Z.shiftl_1_l, (Z.mul_comm _ IDR_BITS), <- W_shift.
  destruct (Z.ltb_spec (Z.of_nat ls) 5) as [Hlt|Hge]; cbn [andb].
  2: { assert (ls = 5)%nat as -> by lia. split_and!; try done; lia. }
  destruct (Z.leb_spec (W ls) id) as [Hle|]; [|split_and!; try done; lia].
  destruct ls as [|l]; [lia|]. cbn [Nat.sub] in Hp. rewrite Nat.sub_0_r in Hp.
  destruct (Z.eqb_spec (count p) 0) as [E|_].
  - destruct (wf_lift l p Hp E) as [Hp' Hlk].
    specialize (IH (S (S l)) built p f ltac:(lia) Hp' Hch Hf Hid ltac:(lia)).
    destruct (build_up _ _ _ _ _ _) as [[f'|[[p' ls'] f']]|]; [split; [apply IH|destruct IH; lia]| |done].
    destruct IH as (? & ? & ? & ? & Hl' & ?). split_and!; try done; try lia. intros j. by rewrite Hl', Hlk.
  - destruct (alloc_layer f) as [[new f1]|] eqn:Ea.
    + apply alloc_layer_ok in Ea as (-> & Hf1 & Hlen); [|done]. fold (on_top p).
      destruct (on_top_ok l p Hp) as (Hp' & Hlk & Hch').
      specialize (IH (S (S l)) (S built) (on_top p) f1 ltac:(lia) Hp' (Hch' _ Hch) Hf1 Hid ltac:(lia)).
      destruct (build_up _ _ _ _ _ _) as [[f'|[[p' ls'] f']]|]; [| |done].
      * destruct IH. split; [done|]. lia.
      * destruct IH as (? & ? & ? & ? & Hl' & ?). split_and!; try done; try lia. intros j. by rewrite Hl', Hlk.
    + apply alloc_layer_none in Ea. destruct (tear_down_ok built p f Hch Hf) as [H1 H2]. split; [done|].
      rewrite Ea. cbn. lia.
Qed.

(** ** Allocation of an identifier *)

Definition block_ok (start j : Z) : Prop := start = 0 \/ j / W 2 = start / W 2.

(** One search of the tree, with the identifier in it. *)
Lemma sub_alloc_found fuel ptr p ls f id j :
  (1 <= ls <= 5)%nat -> wf (ls - 1) p -> reserve_ok f -> 0 <= id < W ls -> (13 <= fuel)%nat ->
  id <= j < W ls -> lookup_in ls p j = None -> (forall i, id <= i < j -> lookup_in ls p i <> None) ->
  block_ok id j ->
  exists v p' f', sub_alloc fuel ptr id p ls f = Some (v, id, p', f') /\ wf (ls - 1) p' /\ reserve_ok f'
    /\ ((v = j /\ forall i, lookup_in ls p' i = if i =? j then Some (user ptr) else lookup_in ls p i)
        \/ (v = -1 /\ (forall i, lookup_in ls p' i = lookup_in ls p i) /\ (length (id_free f) < ls - 1)%nat)).
Proof.
  intros Hls Hp Hf Hid Hfuel Hj Hfree Hused Hblock. unfold sub_alloc.
  destruct ls as [|l]; [lia|]. cbn [Nat.sub] in *. rewrite Nat.sub_0_r in *.
  assert (W (S l) <= W 5) by (apply W_le; lia).
  assert (loc l id = id) as Eid by (by apply Z.mod_small).
  assert (loc l j = j) as Ej by (apply Z.mod_small; lia).
  assert (forall i, 0 <= i < W (S l) -> lookup_in (S l) p i = get l p i) as Hlk.
  { intros i Hi. rewrite lookup_in_at by done. cbn. by rewrite Nat.sub_0_r. }
  rewrite Hlk in Hfree by lia.
  rewrite (loop_found l ptr id id p [] f fuel j); [|lia|done|done|lia| | |lia].
  2: { rewrite Eid. split; [lia|]. split; [done|]. intros i Hi. rewrite <- Hlk by lia. by apply Hused. }
  2: by rewrite Eid.
  rewrite Eid. replace (id - id + j) with j by lia. unfold found.
  pose proof (plant_ok l ptr j p f Hp Hf ltac:(by rewrite Ej)) as [Hwf Hres Hget Hen _ _].
  destruct (plant l ptr j p f) as [[ok p'] f']. cbn [fst snd] in *. rewrite Ej in Hget.
  assert (mark (j >> (IDR_BITS * Z.of_nat l)) p' [] = p') as Em by (cbn; by destruct (_ =? _)).
  destruct ok.
  - eexists _, _, _. split; [by rewrite Em|]. split_and!; [done|done|]. left. split; [done|]. intros i.
    destruct (decide (0 <= i < W (S l))) as [Hi|Hi].
    + rewrite !lookup_in_at by done. cbn [Nat.sub]. rewrite Nat.sub_0_r. by apply Hget.
    + rewrite !lookup_in_out by done. destruct (Z.eqb_spec i j); [lia|done].
  - eexists _, _, _. split; [done|]. split_and!; [done|done|]. right. split; [done|]. split.
    + apply lookup_in_eq. intros i Hi. cbn [Nat.sub]. rewrite Nat.sub_0_r. by apply Hget.
    + destruct (decide (l <= length (id_free f))%nat); [by specialize (Hen ltac:(done))|lia].
Qed.

(** One search of a tree that has no space from [id] on: the identifier comes
    back as the first one above the tree. *)
Lemma sub_alloc_above fuel ptr p ls f id j :
  (1 <= ls < 5)%nat -> wf (ls - 1) p -> 0 <= id < W ls -> (1 <= fuel)%nat -> W ls <= j ->
  (forall i, id <= i < W ls -> lookup_in ls p i <> None) -> block_ok id j ->
  sub_alloc fuel ptr id p ls f = Some (-2, W ls, p, f).
Proof.
  intros Hls Hp Hid Hfuel Hj Hused Hblock. unfold sub_alloc.
  destruct ls as [|l]; [lia|]. cbn [Nat.sub] in *. rewrite Nat.sub_0_r in *.
  assert (W (S l) < W 5) by (unfold W; apply Z.pow_lt_mono_r; lia).
  assert (loc l id = id) as Eid by (by apply Z.mod_small).
  assert (forall i, 0 <= i < W (S l) -> lookup_in (S l) p i = get l p i) as Hlk.
  { intros i Hi. rewrite lookup_in_at by done. cbn. by rewrite Nat.sub_0_r. }
  destruct (fuel_S 0 fuel Hfuel) as (fuel' & -> & _). rewrite sub_alloc_loop_S. cbv zeta.
  pose proof (digit_range l id) as Hn. set (m := find_next_bit _ _ _).
  assert (forall i, digit l id <= i < 64 -> Z.testbit (bitmap p) i = true) as Hall.
  { destruct Hblock as [->|Hb].
    - intros i Hi. apply full_word; [by eapply wf_bitmap| |lia].
      apply (full_iff l p Hp). intros k Hk. rewrite <- Hlk by done. apply Hused. lia.
    - assert (l = 0)%nat as ->.
      { destruct l as [|l]; [done|exfalso].
        assert (W (S (S l)) = W l * W 2) as Ew by (rewrite <- W_add; f_equal; lia).
        pose proof (W_pos 2). assert (id / W 2 < W l) by (apply Z.div_lt_upper_bound; lia).
        assert (W l <= j / W 2) by (apply Z.div_le_lower_bound; lia). lia. }
      intros i Hi. rewrite <- loc_0, Eid in Hi. specialize (Hused i ltac:(change (W 1) with 64 in *; lia)).
      rewrite Hlk in Hused by (change (W 1) with 64; lia). cbn [get] in Hused.
      by destruct (Z.testbit (bitmap p) i). }
  destruct (find_space (bitmap p) _ m (wf_bitmap _ _ Hp) Hn eq_refl) as [[-> _]|(Hm & Hbm & _)].
  - rewrite Z.eqb_refl, Eid. do 4 f_equal. replace (id - id + W (S l)) with (W (S l)) by lia.
    pose proof (W_pos (S l)). by destruct (id_in_range (W (S l)) ltac:(lia)).
  - rewrite Hall in Hbm by lia. done.
Qed.

(** The result of an allocation that is to take [j]. *)
Definition got (s : idr) (ptr j v : Z) (s' : idr) : Prop :=
  idr_ok s'
  /\ ((v = j /\ forall i, lookup s' i = if i =? j then Some (user ptr) else lookup s i)
      \/ (v = -1 /\ (forall i, lookup s' i = lookup s i) /\ (length (id_free (free s)) < 9)%nat)).

(** The search that ends an allocation. *)
Lemma search_done s fuel ptr p ls f id j again :
  (1 <= ls <= 5)%nat -> wf (ls - 1) p -> reserve_ok f -> 0 <= id -> (13 <= fuel)%nat ->
  id <= j < W ls -> (forall i, lookup_in ls p i = lookup s i) ->
  lookup s j = None -> (forall i, id <= i < j -> lookup s i <> None) -> block_ok id j ->
  (length (id_free (free s)) <= length (id_free f) + ls)%nat ->
  exists v s',
    (r ← sub_alloc fuel ptr id p ls f;
     let '(v, id, p, f) := r in
     let s := Idr (Some p) ls f in
     if v =? -2 then again s id else Some (v, s)) = Some (v, s')
    /\ got s ptr j v s'.
Proof.
  intros Hls Hp Hf Hid Hfuel Hj Hlk Hfree Hused Hb Hn.
  destruct (sub_alloc_found fuel ptr p ls f id j) as (v & p' & f' & E & Hp' & Hf' & Hv); try done; try lia.
  { by rewrite Hlk. } { intros i Hi. rewrite Hlk. by apply Hused. }
  rewrite E. cbn. destruct Hv as [[-> Hv]|(-> & Hv & ?)].
  - destruct (Z.eqb_spec j (-2)); [lia|]. eexists _, _. split; [done|]. split; [by apply idr_ok_some|].
    left. split; [done|]. intros i. unfold lookup at 1. cbn. by rewrite Hv, Hlk.
  - cbn [Z.eqb]. eexists _, _. split; [done|]. split; [by apply idr_ok_some|].
    right. split_and!; [done| |lia]. intros i. unfold lookup at 1. cbn. by rewrite Hv, Hlk.
Qed.

(** The tree an allocation starts from. *)
Lemma first_tree s :
  idr_ok s ->
  match (match top s with
         | Some p => Some (p, layers s, free s)
         | None => r ← alloc_layer (free s); Some (r.1, 1%nat, r.2)
         end) with
  | None => id_free (free s) = []
  | Some (p, ls, f) => (1 <= ls <= 5)%nat /\ wf (ls - 1) p /\ reserve_ok f /\ (forall i, lookup_in ls p i = lookup s i)
      /\ (length (id_free (free s)) <= length (id_free f) + 1)%nat
  end.
Proof.
  intros [Hf Ht]. unfold lookup. destruct (top s) as [p|]; [split_and!; try done; try apply Ht; lia|].
  destruct (alloc_layer (free s)) as [[new f]|] eqn:Ea; cbn; [|by apply alloc_layer_none].
  apply alloc_layer_ok in Ea as (-> & Hf1 & Hlen); [|done]. cbn [Nat.sub].
  split_and!; try done; try apply (ctor_wf 0); try lia.
  intros i. unfold lookup_in. destruct (_ && _); [apply ctor_get|done].
Qed.

Lemma got_nomem s f :
  idr_ok s -> reserve_ok f -> (length (id_free (free s)) < 9)%nat ->
  forall ptr j, got s ptr j (-1) (Idr (top s) (layers s) f).
Proof. intros [Hf Ht] Hf' Hn ptr j. split; [by split|]. right. by split_and!. Qed.

Lemma get_int_ok rounds fuel s ptr start j :
  idr_ok s -> (2 <= rounds)%nat -> (13 <= fuel)%nat -> 0 <= start <= j -> j < W 5 ->
  lookup s j = None -> (forall i, start <= i < j -> lookup s i <> None) -> block_ok start j ->
  exists v s', idr_get_new_above_int rounds fuel s ptr start = Some (v, s') /\ got s ptr j v s'.
Proof.
  intros Hs Hrounds Hfuel Hstart Hj Hfree Hused Hblock.
  destruct (fuel_S 1 rounds Hrounds) as (rounds1 & -> & Hr1). cbn [idr_get_new_above_int].
  pose proof (first_tree s Hs) as Hfirst. destruct (match top s with Some p => _ | None => _ end) as [[[p ls] f]|].
  2: { exists (-1), s. split; [done|]. split; [done|]. right. split_and!; try done. rewrite Hfirst. cbn. lia. }
  destruct Hfirst as (Hls & Hp & Hf0 & Hlk & Hlen).
  pose proof (build_up_ok start (Z.to_nat MAX_LEVEL) ls 0 p f Hls Hp I Hf0 ltac:(lia)
    ltac:(change (Z.to_nat MAX_LEVEL) with 6%nat; lia)) as Hb.
  destruct (build_up (Z.to_nat MAX_LEVEL) start 0 p ls f) as [[f1|[[p1 ls1] f1]]|]; [| |done]; cbn [mbind option_bind].
  { destruct Hb as [Hf1 Hl1]. eexists _, _. split; [done|]. apply got_nomem; (done || lia). }
  destruct Hb as (Hls1 & Hp1 & Hf1 & Hid & Hlk1 & Hlen1).
  assert (forall i, lookup_in ls1 p1 i = lookup s i) as Hlk' by (intros i; by rewrite Hlk1, Hlk).
  destruct (Z.ltb_spec j (W ls1)) as [Hjt|Hjt]; [apply (search_done s fuel ptr p1 ls1 f1 start j (fun s => idr_get_new_above_int rounds1 fuel s ptr)); (done || lia)|].
  assert (ls1 < 5)%nat as Hl5.
  { destruct (decide (ls1 < 5)%nat); [done|]. assert (ls1 = 5)%nat as -> by lia. lia. }
  rewrite (sub_alloc_above fuel ptr p1 ls1 f1 start j); try done; try lia.
  2: { intros i Hi. rewrite Hlk'. apply Hused. lia. }
  cbn [mbind option_bind]. rewrite Z.eqb_refl.
  assert (j = W ls1) as ->.
  { destruct (Z.lt_trichotomy j (W ls1)) as [?|[?|?]]; [lia|done|].
    destruct (Hused (W ls1) ltac:(lia)). rewrite <- Hlk'. apply lookup_in_out. lia. }
  destruct (fuel_S 0 rounds1 Hr1) as (rounds2 & -> & _). cbn [idr_get_new_above_int top layers free].
  pose proof (W_pos ls1).
  pose proof (build_up_ok (W ls1) (Z.to_nat MAX_LEVEL) ls1 0 p1 f1 ltac:(lia) Hp1 I Hf1 ltac:(lia)
    ltac:(change (Z.to_nat MAX_LEVEL) with 6%nat; lia)) as Hb.
  destruct (build_up (Z.to_nat MAX_LEVEL) (W ls1) 0 p1 ls1 f1) as [[f2|[[p2 ls2] f2]]|]; [| |done]; cbn [mbind option_bind].
  { destruct Hb as [Hf2 Hl2]. eexists _, _. split; [done|].
    split; [by apply idr_ok_some; (done || lia)|]. right. split_and!; try done; lia. }
  destruct Hb as (Hls2 & Hp2 & Hf2 & Hid2 & Hlk2 & Hlen2).
  apply (search_done s fuel ptr p2 ls2 f2 (W ls1) (W ls1) (fun s => idr_get_new_above_int rounds2 fuel s ptr));
    try done; try lia; [by intros i; rewrite Hlk2, Hlk'|by right].
Qed.

(** ** Removal *)

(** The effect of the walk below one layer, and of the counting on the way
    back: NULL when the layer became empty. *)
Fixpoint removal (l : nat) (id : Z) (p : idr_layer) (f : reserve) : bool * option idr_layer * reserve :=
  let n := digit l id in
  let leave p f :=
    if count p =? 0 then (false, None, free_layer f p) else (false, Some p, f) in
  match l with
  | O =>
      if Z.testbit (bitmap p) n then
        leave (Layer (__clear_bit n (bitmap p)) (<[Z.to_nat n := Null]> (ary p)) (count p - 1)) f
      else (true, Some p, f)
  | S l =>
      match slot p n with
      | Sub c =>
          let '(w, c, f) := removal l id c f in
          match c with
          | Some c => (w, Some (set_slot (set_bitmap p (__clear_bit n (bitmap p))) n (Sub c)), f)
          | None => leave (Layer (__clear_bit n (bitmap p)) (<[Z.to_nat n := Null]> (ary p)) (count p - 1)) f
          end
      | _ => (true, Some (set_bitmap p (__clear_bit n (bitmap p))), f)
      end
  end.

Lemma walk_removal l : forall id p pa f,
  wf l p ->
  sub_remove_walk l id p pa f
  = match removal l id p f with
    | (w, Some p', f') => (w, Some (rebuild p' pa), f')
    | (_, None, f') =>
        match pa with
        | [] => (false, None, f')
        | (q, n) :: pa => let r := release (set_slot q n Null) pa f' in (false, r.1, r.2)
        end
    end.
Proof.
  induction l as [|l IH]; intros id p pa f Hp; cbn [sub_remove_walk removal].
  - rewrite mask_digit. destruct (Z.testbit (bitmap p) (digit 0 id)); [|done].
    set (p1 := Layer _ _ _).
    change (set_slot (set_bitmap p (__clear_bit (digit 0 id) (bitmap p))) (digit 0 id) Null)
      with (Layer (__clear_bit (digit 0 id) (bitmap p)) (<[Z.to_nat (digit 0 id) := Null]> (ary p)) (count p)).
    destruct pa as [|[q n] pa]; cbn [release]; change (set_count (Layer (__clear_bit (digit 0 id) (bitmap p))
      (<[Z.to_nat (digit 0 id) := Null]> (ary p)) (count p)) _) with p1; by destruct (count p1 =? 0).
  - rewrite shift_mask. set (n := digit (S l) id).
    change (slot (set_bitmap p (__clear_bit n (bitmap p))) n) with (slot p n).
    destruct (slot p n) as [|?|c] eqn:Es; [done|done|].
    assert (wf l c) as Hc.
    { destruct Hp as (_ & _ & _ & Hs). specialize (Hs n (digit_range (S l) id)). rewrite Es in Hs. by destruct Hs. }
    rewrite (IH id c _ f Hc). destruct (removal l id c f) as [[w [c'|]] f']; [done|].
    set (p1 := Layer _ _ _).
    destruct pa as [|[q m] pa]; cbn [release]; change (set_count (set_slot (set_bitmap p (__clear_bit n (bitmap p))) n Null) _) with p1;
      by destruct (count p1 =? 0).
Qed.

Lemma clear_bit_noop n b : Z.testbit b n = false -> __clear_bit n b = b.
Proof.
  intros H. apply Z.bits_inj'; intros i Hi. rewrite testbit_clear_bit.
  destruct (Z.eqb_spec i n) as [->|]; [by rewrite H|done].
Qed.

Definition removed (l : nat) (id : Z) (p : idr_layer) (r : bool * option idr_layer * reserve) : Prop :=
  let '(w, t, f) := r in
  reserve_ok f /\ w = bool_decide (get l p (loc l id) = None)
  /\ match t with
     | Some p' => wf l p' /\ forall j, 0 <= j < W (S l) -> get l p' j = if j =? loc l id then None else get l p j
     | None => w = false /\ forall j, 0 <= j < W (S l) -> j <> loc l id -> get l p j = None
     end.

(** A layer whose slot was just vacated stays in the tree or goes back to the
    reserve. *)
Lemma leave_ok l id p p1 f :
  wf l p1 -> reserve_ok f -> get l p (loc l id) <> None ->
  (forall j, 0 <= j < W (S l) -> get l p1 j = if j =? loc l id then None else get l p j) ->
  removed l id p (if count p1 =? 0 then (false, None, free_layer f p1) else (false, Some p1, f)).
Proof.
  intros Hp1 Hf Hin Hg. destruct (Z.eqb_spec (count p1) 0) as [E|_].
  - destruct (empty_layer l p1 Hp1 E) as [Hb Hs]. split_and!.
    + apply free_layer_ok; [done|]. split_and!; try done; [by eapply wf_length|]. intros. apply Hs. lia.
    + symmetry. by apply bool_decide_eq_false.
    + done.
    + intros j Hj Hne. specialize (Hg j Hj). rewrite (empty_get l p1 j Hb Hs Hj) in Hg.
      by destruct (Z.eqb_spec j (loc l id)).
  - split_and!; try done. symmetry. by apply bool_decide_eq_false.
Qed.

Lemma removal_leaf id p f : wf 0 p -> reserve_ok f -> removed 0 id p (removal 0 id p f).
Proof.
  intros Hp Hf. cbn [removal].
  pose proof (digit_range 0 id) as Hn. set (n := digit 0 id) in *. pose proof (wf_bitmap _ _ Hp) as Hb.
  assert (get 0 p (loc 0 id) = if Z.testbit (bitmap p) n then Some (slot p n) else None) as Hg by (rewrite loc_0; done).
  destruct (Z.testbit (bitmap p) n) eqn:Et.
  - assert (forall i, 0 <= i < 64 -> i <> n -> Z.testbit (__clear_bit n (bitmap p)) i = Z.testbit (bitmap p) i) as Hne.
    { intros i Hi Hne. rewrite testbit_clear_bit. by destruct (Z.eqb_spec i n). }
    assert (Z.testbit (__clear_bit n (bitmap p)) n = false) as Hcl by (rewrite testbit_clear_bit, Z.eqb_refl; done).
    apply leave_ok; [|done|by rewrite Hg|].
    + pose proof (wf_update_leaf p n Null _ Hp Hn (clear_bit_range _ _ Hn Hb) Hne I) as K.
      rewrite Hcl, Et in K. cbn [Z.b2z] in K. by rewrite Z.add_0_r in K.
    + intros j Hj. rewrite get_update_leaf by (try done; by eapply wf_length).
      rewrite Hcl, loc_0. fold n. by destruct (j =? n).
  - split_and!; [done|symmetry; by apply bool_decide_eq_true|done|].
    intros j Hj. destruct (Z.eqb_spec j (loc 0 id)) as [->|]; [by rewrite Hg|done].
Qed.

(** What the slot on the way to [id] may be replaced by when [id] is taken
    out below it. *)
Lemma removal_update l id p x k b c :
  wf (S l) p -> slot p (digit (S l) id) = Sub c ->
  match x with
  | Sub q => forall i, 0 <= i < W (S l) -> get l q i = (if i =? loc l id then None else get l c i)
  | _ => forall i, 0 <= i < W (S l) -> i <> loc l id -> get l c i = None
  end ->
  forall j, 0 <= j < W (S (S l)) ->
  get (S l) (Layer b (<[Z.to_nat (digit (S l) id) := x]> (ary p)) k) j
  = if j =? loc (S l) id then None else get (S l) p j.
Proof.
  intros Hp Es Hx j Hj. pose proof (digit_range (S l) id) as Hn. pose proof (W_pos (S l)) as Hw.
  pose proof (loc_split l id) as El. set (n := digit (S l) id) in *.
  assert (child p n = c) as Ec by (unfold child; by rewrite Es).
  rewrite get_update by (try done; by eapply wf_length).
  pose proof (Z.div_mod j (W (S l)) ltac:(lia)) as Ej. pose proof (Z.mod_pos_bound j (W (S l)) ltac:(lia)) as Hjm.
  destruct (Z.eqb_spec (j / W (S l)) n) as [E|E].
  - assert ((j =? loc (S l) id) = (j mod W (S l) =? loc l id)) as ->
      by (apply eq_true_iff_eq; rewrite !Z.eqb_eq; nia).
    rewrite get_child, E, Ec.
    destruct x; [|..]; try (destruct (Z.eqb_spec (j mod W (S l)) (loc l id)); [done|symmetry; by apply Hx]).
    by apply Hx.
  - destruct (Z.eqb_spec j (loc (S l) id)) as [->|]; [|done]. destruct E. unfold n. by rewrite digit_loc.
Qed.

Lemma removal_ok l : forall id p f, wf l p -> reserve_ok f -> removed l id p (removal l id p f).
Proof.
  induction l as [|l IH]; intros id p f Hp Hf.
  - by apply removal_leaf.
  - cbn [removal]. pose proof (digit_range (S l) id) as Hn. set (n := digit (S l) id) in *. pose proof (wf_bitmap _ _ Hp) as Hb.
    pose proof (W_pos (S l)) as Hw. pose proof (loc_split l id) as El. fold n in El.
    assert (get (S l) p (loc (S l) id) = get l (child p n) (loc l id)) as Hg.
    { rewrite get_child, loc_loc. unfold n. by rewrite digit_loc. }
    assert (forall i, 0 <= i < 64 -> i <> n -> Z.testbit (__clear_bit n (bitmap p)) i = Z.testbit (bitmap p) i) as Hne.
    { intros i Hi Hne. rewrite testbit_clear_bit. by destruct (Z.eqb_spec i n). }
    assert (Z.testbit (__clear_bit n (bitmap p)) n = false) as Hcl by (rewrite testbit_clear_bit, Z.eqb_refl; done).
    pose proof (clear_bit_range _ _ Hn Hb) as Hcr.
    pose proof (child_wf l p n Hp Hn) as Hcw.
    destruct (slot p n) as [|?|c] eqn:Es.
    + assert (child p n = idr_cache_ctor) as Ec by (unfold child; by rewrite Es). rewrite Ec, ctor_get in Hg.
      rewrite clear_bit_noop; [|destruct Hp as (_ & _ & _ & Hs); specialize (Hs n Hn); by rewrite Es in Hs].
      replace (set_bitmap p (bitmap p)) with p by (by destruct p).
      split_and!; [done|symmetry; by apply bool_decide_eq_true|done|].
      intros j Hj. destruct (Z.eqb_spec j (loc (S l) id)) as [->|]; done.
    + exfalso. destruct Hp as (_ & _ & _ & Hs). specialize (Hs n Hn). by rewrite Es in Hs.
    + assert (child p n = c) as Ec by (unfold child; by rewrite Es). rewrite Ec in Hg, Hcw.
      specialize (IH id c f Hcw Hf). destruct (removal l id c f) as [[w [c'|]] f'].
      * destruct IH as (Hf' & Hwr & Hc' & Hgc). split_and!; [done|by rewrite Hg| |].
        -- pose proof (wf_update l p n (Sub c') _ Hp Hn Hcr Hne) as K. rewrite Es in K. cbn [in_use] in K.
           rewrite Z.add_simpl_r in K. apply K. split; [done|]. rewrite Hcl. symmetry. apply Z.eqb_neq.
           rewrite (full_iff l c' Hc'). intros A. apply (A (loc l id) (loc_range l id)).
           rewrite Hgc by apply loc_range. by rewrite Z.eqb_refl.
        -- intros j Hj. by apply (removal_update l id p (Sub c') (count p) _ c).
      * destruct IH as (Hf' & Hwr & -> & Hgc). symmetry in Hwr. apply bool_decide_eq_false in Hwr.
        apply leave_ok; [|done|by rewrite Hg|].
        -- pose proof (wf_update l p n Null _ Hp Hn Hcr Hne Hcl) as K. rewrite Es in K. cbn [in_use] in K.
           by rewrite Z.add_0_r in K.
        -- intros j Hj. by apply (removal_update l id p Null (count p - 1) _ c).
Qed.

Lemma mask_id id : id & MAX_ID_MASK = id mod 2 ^ 31.
Proof. change MAX_ID_MASK with (Z.ones 31). by rewrite Z.land_ones by lia. Qed.

Lemma sub_remove_ok s id :
  idr_ok s ->
  let '(w, s') := sub_remove s id in
  let e := id mod W (layers s) in
  idr_ok s' /\ w = bool_decide (lookup s e = None)
  /\ forall i, lookup s' i = if i =? e then None else lookup s i.
Proof.
  intros [Hf Ht]. unfold sub_remove. destruct (top s) as [p|] eqn:Etop.
  2: { split_and!; [by split; rewrite ?Etop|by unfold lookup; rewrite Etop|].
    intros i. unfold lookup. rewrite Etop. by destruct (_ =? _). }
  destruct Ht as [Hl Hp]. unfold lookup. rewrite Etop.
  destruct (layers s) as [|l] eqn:El; [lia|]. cbn [Nat.sub] in *. rewrite Nat.sub_0_r in *.
  rewrite (walk_removal l id p [] (free s) Hp).
  pose proof (removal_ok l id p (free s) Hp Hf) as K. fold (loc l id).
  destruct (removal l id p (free s)) as [[w [p'|]] f']; cbn [rebuild].
  - destruct K as (Hf' & -> & Hp' & Hg). split_and!.
    + apply idr_ok_some; try done. cbn. by rewrite Nat.sub_0_r.
    + rewrite lookup_in_at by apply loc_range. cbn. by rewrite Nat.sub_0_r.
    + intros i. cbn [top layers]. destruct (decide (0 <= i < W (S l))) as [Hi|Hi].
      * rewrite !lookup_in_at by done. cbn [Nat.sub]. rewrite Nat.sub_0_r. by apply Hg.
      * rewrite !lookup_in_out by done. by destruct (_ =? _).
  - destruct K as (Hf' & Hw & -> & Hg). split_and!.
    + by split.
    + rewrite lookup_in_at by apply loc_range. cbn. by rewrite Nat.sub_0_r.
    + intros i. cbn [top]. destruct (Z.eqb_spec i (loc l id)) as [->|Hne]; [done|].
      destruct (decide (0 <= i < W (S l))) as [Hi|Hi].
      * rewrite lookup_in_at by done. cbn [Nat.sub]. rewrite Nat.sub_0_r. by rewrite Hg.
      * by rewrite lookup_in_out.
Qed.

Lemma drop_layer_ok s : idr_ok s -> idr_ok (drop_layer s) /\ forall i, lookup (drop_layer s) i = lookup s i.
Proof.
  intros Hs. unfold drop_layer. pose proof Hs as [Hf Ht]. destruct (top s) as [p|] eqn:Etop; [|done].
  destruct (Z.eqb_spec (count p) 1) as [E|_]; cbn [andb]; [|done].
  destruct (Z.ltb_spec 1 (Z.of_nat (layers s))); [|done].
  destruct Ht as [Hl Hp]. destruct (layers s) as [|[|l]] eqn:El; [lia|lia|]. cbn [Nat.sub] in Hp.
  pose proof Hp as (Hlen & _ & Hc & Hs'). specialize (Hs' 0 ltac:(lia)) as H0.
  destruct (slot p 0) as [|?|q] eqn:E0; [done|done|]. destruct H0 as [Hq _].
  assert (forall n, 0 < n < 64 -> slot p n = Null) as Hnull.
  { intros n Hn. pose proof (cnt_1 _ 0 (eq_trans (eq_sym Hc) E) ltac:(lia)) as K. cbn [occupied] in K.
    rewrite E0 in K. specialize (K eq_refl n ltac:(lia) ltac:(lia)). by destruct (slot p n). }
  split.
  - apply idr_ok_some; [|lia|cbn [Nat.sub]; rewrite ?Nat.sub_0_r; done].
    apply free_layer_ok; [done|]. split_and!; try done.
  - intros i. unfold lookup. rewrite Etop. cbn [top layers Nat.sub]. pose proof (W_pos (S l)) as Hw. rewrite El.
    destruct (decide (0 <= i < W (S (S l)))) as [Hi|Hi].
    + rewrite (lookup_in_at (S (S l))) by done. cbn [Nat.sub get].
      rewrite (W_S (S l)) in Hi. destruct (Z.eqb_spec (i / W (S l)) 0) as [Ei|Ei].
      * rewrite Ei, E0. apply Z.div_small_iff in Ei; [|lia].
        rewrite lookup_in_at, Z.mod_small by lia. cbn [Nat.sub]. by rewrite Nat.sub_0_r.
      * rewrite Hnull; [apply lookup_in_out; intros ?; destruct Ei; by apply Z.div_small|].
        assert (0 <= i / W (S l) < 64) by (split; [apply Z.div_pos; lia|apply Z.div_lt_upper_bound; lia]). lia.
    + rewrite !lookup_in_out; [done|done|]. rewrite (W_S (S l)) in Hi. lia.
Qed.

Lemma trim_ok f : reserve_ok f -> reserve_ok (trim f).
Proof.
  intros Hf. unfold trim. destruct (_ <=? _); [|done].
  destruct (alloc_layer f) as [[new f']|] eqn:E; [|done]. by apply alloc_layer_ok in E as (_ & ? & _).
Qed.

Lemma idr_remove_ok s id :
  idr_ok s ->
  let '(w, s') := idr_remove s id in
  let e := (id mod 2 ^ 31) mod W (layers s) in
  idr_ok s' /\ w = bool_decide (lookup s e = None)
  /\ forall i, lookup s' i = if i =? e then None else lookup s i.
Proof.
  intros Hs. unfold idr_remove. rewrite mask_id. pose proof (sub_remove_ok s (id mod 2 ^ 31) Hs) as K.
  destruct (sub_remove s (id mod 2 ^ 31)) as [w s1]. destruct K as (Hs1 & Hw & Hl).
  destruct (drop_layer_ok s1 Hs1) as [[Hf Ht] Hl2]. split_and!; [|done|].
  - split; [by apply trim_ok|]. done.
  - intros i. rewrite <- Hl, <- Hl2. done.
Qed.

(** ** Look-up *)

Lemma find_walk_ok l : forall id p, wf l p -> find_walk (S l) id (Sub p) = default Null (get l p (loc l id)).
Proof.
  induction l as [|l IH]; intros id p Hp; cbn [find_walk]; rewrite shift_mask.
  - pose proof (digit_range 0 id) as Hn. rewrite loc_0. set (n := digit 0 id) in *. cbn [get].
    destruct Hp as (_ & _ & _ & Hs). specialize (Hs n Hn).
    destruct (slot p n) eqn:Es; destruct (Z.testbit (bitmap p) n); done.
  - pose proof (digit_range (S l) id) as Hn. rewrite get_child, loc_loc, <- digit_loc.
    set (n := digit (S l) id) in *. pose proof (child_wf l p n Hp Hn) as Hc. unfold child in *.
    destruct (slot p n) as [|?|c] eqn:Es.
    + by rewrite ctor_get.
    + destruct Hp as (_ & _ & _ & Hs). specialize (Hs n Hn). by rewrite Es in Hs.
    + by apply IH.
Qed.

Lemma shift_W n : 1 << (Z.of_nat n * IDR_BITS) = W n.
Proof. rewrite Z.shiftl_1_l, Z.mul_comm. by rewrite <- W_shift. Qed.

Lemma idr_find_ok s id : idr_ok s -> idr_find s id = default Null (lookup s (id mod 2 ^ 31)).
Proof.
  intros [Hf Ht]. unfold idr_find. rewrite mask_id, shift_W. set (e := id mod 2 ^ 31).
  assert (0 <= e) by (apply Z.mod_pos_bound; lia). unfold lookup.
  destruct (Z.leb_spec (W (layers s)) e) as [|Hlt].
  - destruct (top s); [|done]. rewrite lookup_in_out by lia. done.
  - destruct (top s) as [p|]; [|by destruct (layers s)]. destruct Ht as [Hl Hp].
    rewrite lookup_in_at by lia. destruct (layers s) as [|l]; [lia|]. cbn [Nat.sub] in *. rewrite Nat.sub_0_r in *.
    rewrite find_walk_ok by done. unfold loc. by rewrite Z.mod_small by lia.
Qed.

Definition replaced (l : nat) (id ptr : Z) (p : idr_layer) (r : (Z + cell) * idr_layer) : Prop :=
  wf l r.2 /\ bitmap r.2 = bitmap p
  /\ match get l p (loc l id) with
     | Some c => r.1 = inr c /\ forall j, 0 <= j < W (S l) -> get l r.2 j = if j =? loc l id then Some (user ptr) else get l p j
     | None => r.1 = inl (- ENOENT) /\ forall j, 0 <= j < W (S l) -> get l r.2 j = get l p j
     end.

Lemma replace_walk_ok l : forall id ptr p, wf l p -> replaced l id ptr p (replace_walk l id ptr p).
Proof.
  induction l as [|l IH]; intros id ptr p Hp; cbn [replace_walk].
  - rewrite mask_digit. pose proof (digit_range 0 id) as Hn. unfold replaced. rewrite loc_0.
    set (n := digit 0 id) in *. cbn [get]. destruct (Z.testbit (bitmap p) n) eqn:Et; [|by split_and!].
    cbn [fst snd]. split_and!; try done.
    + pose proof (wf_update_leaf p n (user ptr) (bitmap p) Hp Hn (wf_bitmap _ _ Hp) ltac:(done)) as K.
      rewrite Z.add_simpl_r in K. apply K. pose proof (user_slot ptr). by destruct (user ptr).
    + intros j Hj. pose proof (get_update_leaf p n (user ptr) (bitmap p) (count p) j (wf_length _ _ Hp) Hn Hj ltac:(done)) as K.
      rewrite Et in K. exact K.
  - rewrite shift_mask. pose proof (digit_range (S l) id) as Hn. unfold replaced.
    rewrite get_child, loc_loc, <- digit_loc. set (n := digit (S l) id) in *.
    pose proof (child_wf l p n Hp Hn) as Hcw. pose proof (W_pos (S l)) as Hw. pose proof (loc_split l id) as El. fold n in El.
    destruct (slot p n) as [|?|c] eqn:Es.
    + assert (child p n = idr_cache_ctor) as -> by (unfold child; by rewrite Es). rewrite ctor_get. by split_and!.
    + exfalso. destruct Hp as (_ & _ & _ & Hs). specialize (Hs n Hn). by rewrite Es in Hs.
    + assert (child p n = c) as Ec by (unfold child; by rewrite Es). rewrite Ec in *.
      destruct (IH id ptr c Hcw) as (Hc' & Hb & Hg). destruct (replace_walk l id ptr c) as [r c']. cbn [fst snd] in *.
      assert (Z.testbit (bitmap p) n = (bitmap c' =? IDR_FULL)) as Hbit by (rewrite Hb, (bit_full l p n Hp Hn), Ec; done).
      assert (forall j, 0 <= j < W (S (S l)) ->
        get (S l) (set_slot p n (Sub c')) j = if j / W (S l) =? n then get l c' (j mod W (S l)) else get (S l) p j) as Hup.
      { intros j Hj. by apply (get_update l p n (Sub c') (bitmap p) (count p) j (wf_length _ _ Hp) Hn Hj). }
      split_and!; [|done|].
      * pose proof (wf_update l p n (Sub c') (bitmap p) Hp Hn (wf_bitmap _ _ Hp) ltac:(done) (conj Hc' Hbit)) as K.
        rewrite Es in K. cbn [in_use] in K. by rewrite Z.add_simpl_r in K.
      * destruct (get l c (loc l id)) as [x|]; destruct Hg as [-> Hg]; (split; [done|]); intros j Hj; rewrite Hup by done;
          pose proof (Z.div_mod j (W (S l)) ltac:(lia)) as Ej; pose proof (Z.mod_pos_bound j (W (S l)) ltac:(lia)) as Hjm;
          destruct (Z.eqb_spec (j / W (S l)) n) as [E|E]; rewrite ?Hg by done.
        -- assert ((j =? loc (S l) id) = (j mod W (S l) =? loc l id)) as ->
             by (apply eq_true_iff_eq; rewrite !Z.eqb_eq; nia).
           by rewrite get_child, E, Ec.
        -- destruct (Z.eqb_spec j (loc (S l) id)) as [->|]; [|done]. destruct E. unfold n. by rewrite digit_loc.
        -- by rewrite get_child, E, Ec.
        -- done.
Qed.

Lemma idr_replace_ok s ptr id :
  idr_ok s ->
  let e := id mod 2 ^ 31 in
  let '(r, s') := idr_replace s ptr id in
  idr_ok s' /\ free s' = free s
  /\ match lookup s e with
     | Some c => r = inr c /\ forall i, lookup s' i = if i =? e then Some (user ptr) else lookup s i
     | None => (r = inl (- ENOENT) \/ r = inl (- EINVAL)) /\ forall i, lookup s' i = lookup s i
     end.
Proof.
  intros Hs e. pose proof Hs as [Hf Ht]. unfold idr_replace. rewrite mask_id, shift_W. fold e.
  assert (0 <= e) by (apply Z.mod_pos_bound; lia).
  destruct (Z.leb_spec (W (layers s)) e) as [Hle|Hlt].
  { assert (lookup s e = None) as ->.
    { unfold lookup. destruct (top s); [|done]. apply lookup_in_out. lia. }
    split_and!; try done. by right. }
  destruct (top s) as [p|] eqn:Etop.
  2: { unfold lookup. rewrite Etop. split_and!; try done. by left. }
  destruct Ht as [Hl Hp]. unfold lookup. rewrite Etop. rewrite lookup_in_at by lia.
  destruct (layers s) as [|l] eqn:El; [lia|]. cbn [Nat.sub] in *. rewrite Nat.sub_0_r in *.
  assert (loc l e = e) as Ee by (apply Z.mod_small; lia).
  destruct (replace_walk_ok l e ptr p Hp) as (Hp' & _ & Hg). rewrite Ee in Hg.
  destruct (replace_walk l e ptr p) as [r p']. cbn [fst snd] in *. cbn [top layers free].
  split_and!; [apply idr_ok_some; try done; cbn; by rewrite Nat.sub_0_r|done|].
  destruct (get l p e) as [c|]; destruct Hg as [-> Hg].
  - split; [done|]. intros i. destruct (decide (0 <= i < W (S l))) as [Hi|Hi].
    + rewrite !lookup_in_at by done. cbn [Nat.sub]. rewrite Nat.sub_0_r. by apply Hg.
    + rewrite !lookup_in_out by done. destruct (Z.eqb_spec i e); [lia|done].
  - split; [by left|]. apply lookup_in_eq. intros i Hi. cbn [Nat.sub]. rewrite Nat.sub_0_r. by apply Hg.
Qed.

(** ** The reserve over the operations *)

Lemma idr_pre_get_ok s cache :
  idr_ok s ->
  exists s' r, idr_pre_get s cache = Some (s', r) /\ idr_ok s' /\ (forall i, lookup s' i = lookup s i)
    /\ (length (id_free (free s)) <= length (id_free (free s')))%nat
    /\ (r = 0 \/ r = 1 /\ (12 <= length (id_free (free s')))%nat).
Proof.
  intros [Hf Ht]. unfold idr_pre_get.
  assert (forall fuel cache f, reserve_ok f -> (12 <= length (id_free f) + fuel)%nat ->
    exists f' r, idr_pre_get_loop fuel cache f = Some (f', r) /\ reserve_ok f'
      /\ (length (id_free f) <= length (id_free f'))%nat /\ (r = 0 \/ r = 1 /\ (12 <= length (id_free f'))%nat)) as Hloop.
  { clear. intros fuel. induction fuel as [|fuel IH]; intros cache f Hf Hn; cbn [idr_pre_get_loop];
      change IDR_FREE_MAX with 12; rewrite (proj2 Hf); destruct (Z.ltb_spec (Z.of_nat (length (id_free f))) 12); try lia.
    1, 3: eexists _, _; split_and!; [done|done|done|right; split; [done|lia]].
    destruct (cache 0%nat).
    - destruct (IH (fun k => cache (S k)) (free_layer f idr_cache_ctor)) as (f' & r & E & ? & Hl & ?);
        [by apply free_layer_ok, ctor_zeroed|cbn; lia|]. cbn in Hl. exists f', r. split_and!; (done || lia).
    - eexists _, _. split_and!; [done|done|done|by left]. }
  destruct (Hloop (Z.to_nat IDR_FREE_MAX) cache (free s) Hf) as (f' & r & E & Hf' & Hl & Hr).
  { change (Z.to_nat IDR_FREE_MAX) with 12%nat. lia. }
  rewrite E. cbn. eexists _, _. split; [done|]. split_and!; try done.
Qed.

Lemma idr_destroy_ok s :
  idr_ok s -> exists s', idr_destroy s = Some s' /\ idr_ok s' /\ (forall i, lookup s' i = lookup s i) /\ id_free (free s') = [].
Proof.
  intros [Hf Ht]. unfold idr_destroy.
  assert (forall n f, reserve_ok f -> length (id_free f) = n ->
    exists f', idr_destroy_loop n f = Some f' /\ reserve_ok f' /\ id_free f' = []) as Hloop.
  { clear. intros n. induction n as [|n IH]; intros f Hf Hn; cbn [idr_destroy_loop]; rewrite (proj2 Hf), Hn.
    - exists f. split; [done|]. split; [done|]. by destruct (id_free f).
    - destruct (Z.eqb_spec (Z.of_nat (S n)) 0); [lia|].
      destruct (alloc_layer f) as [[new f1]|] eqn:E.
      + apply alloc_layer_ok in E as (_ & Hf1 & Hl); [|done]. apply IH; [done|lia].
      + apply alloc_layer_none in E. by rewrite E in Hn. }
  destruct (Hloop _ (free s) Hf eq_refl) as (f' & E & Hf' & Hn). rewrite E. cbn. eexists. split_and!; done.
Qed.

Lemma removal_grows l : forall id p f, (length (id_free f) <= length (id_free (removal l id p f).2))%nat.
Proof.
  induction l as [|l IH]; intros id p f; cbn [removal].
  - destruct (Z.testbit _ _); [|done]. destruct (_ =? 0); cbn; lia.
  - destruct (slot p _) as [|?|c]; [done|done|]. specialize (IH id c f).
    destruct (removal l id c f) as [[w [c'|]] f']; [done|]. cbn in *. destruct (_ =? 0); cbn; lia.
Qed.

(** Removing keeps at least 11 of the layers in reserve. *)
Lemma idr_remove_reserve s id :
  idr_ok s -> (11 <= length (id_free (free s)))%nat -> (11 <= length (id_free (free (idr_remove s id).2)))%nat.
Proof.
  intros Hs Hn. unfold idr_remove. pose proof Hs as [Hf Ht].
  pose proof (sub_remove_ok s (id & MAX_ID_MASK) Hs) as K.
  assert (11 <= length (id_free (free (sub_remove s (id & MAX_ID_MASK)).2)))%nat as H1.
  { unfold sub_remove. destruct (top s) as [p|]; [|done]. destruct Ht as [_ Hp]. rewrite (walk_removal _ _ _ [] _ Hp).
    pose proof (removal_grows (layers s - 1) (id & MAX_ID_MASK) p (free s)) as G.
    destruct (removal _ _ _ _) as [[w [p'|]] f']; cbn in *; lia. }
  destruct (sub_remove s (id & MAX_ID_MASK)) as [w s1]. destruct K as (Hs1 & _ & _). cbn [fst snd free] in *.
  pose proof (drop_layer_ok s1 Hs1) as [[Hf2 _] _].
  assert (11 <= length (id_free (free (drop_layer s1))))%nat as H2.
  { unfold drop_layer. destruct (top s1) as [p|]; [|done]. destruct (_ && _); [|done].
    destruct (slot p 0); [done|done|]. cbn. lia. }
  unfold trim. rewrite (proj2 Hf2). change IDR_FREE_MAX with 12.
  destruct (Z.leb_spec 12 (Z.of_nat (length (id_free (free (drop_layer s1)))))); [|done].
  destruct (alloc_layer _) as [[new f]|] eqn:E; [|done]. apply alloc_layer_ok in E as (_ & _ & E); [|done]. lia.
Qed.

(** ** Refinement of a finite map *)

Inductive op :=
| PreGet (cache : nat -> bool)
| GetNew (ptr : Z)
| GetNewAbove (ptr start : Z)
| Find (id : Z)
| Replace (ptr id : Z)
| Remove (id : Z)
| Destroy.

Inductive result :=
| RInt (r : Z)
| RGet (r : Z) (id : option Z)
| RFind (c : cell)
| RReplace (r : Z + cell)
| RRemove (warned : bool)
| RVoid.

Definition exec (s : idr) (o : op) : option (result * idr) :=
  match o with
  | PreGet cache => r ← idr_pre_get s cache; Some (RInt r.2, r.1)
  | GetNew ptr => r ← idr_get_new 2 13 s ptr; Some (RGet r.1.1 r.1.2, r.2)
  | GetNewAbove ptr start => r ← idr_get_new_above 2 13 s ptr start; Some (RGet r.1.1 r.1.2, r.2)
  | Find id => Some (RFind (idr_find s id), s)
  | Replace ptr id => let r := idr_replace s ptr id in Some (RReplace r.1, r.2)
  | Remove id => let r := idr_remove s id in Some (RRemove r.1, r.2)
  | Destroy => s ← idr_destroy s; Some (RVoid, s)
  end.

Fixpoint exec_all (s : idr) (ops : list op) : option (list result * idr) :=
  match ops with
  | [] => Some ([], s)
  | o :: ops =>
      r ← exec s o;
      rs ← exec_all r.2 ops;
      Some (r.1 :: rs.1, rs.2)
  end.

(** The map from identifiers to pointers, and whether enough layers are in
    reserve for an allocation. *)
Definition spec_state : Type := gmap Z Z * bool.

Definition next_free (m : gmap Z Z) (start j : Z) : Prop :=
  0 <= start <= j /\ j < 2 ^ 30 /\ m !! j = None /\ forall i, start <= i < j -> is_Some (m !! i).

Definition spec_get (a : spec_state) (ptr start : Z) (r : result) (a' : spec_state) : Prop :=
  (exists j, next_free a.1 start j /\ r = RGet 0 (Some j) /\ a' = (<[j := ptr]> a.1, false))
  \/ (a.2 = false /\ r = RGet (- EAGAIN) None /\ a' = (a.1, false)).

Definition spec (a : spec_state) (o : op) (r : result) (a' : spec_state) : Prop :=
  match o with
  | PreGet _ => a'.1 = a.1 /\ (r = RInt 0 /\ a'.2 = a.2 \/ r = RInt 1 /\ a'.2 = true)
  | GetNew ptr => spec_get a ptr 0 r a'
  | GetNewAbove ptr start => spec_get a ptr start r a'
  | Find id => r = RFind (default Null (user <$> a.1 !! (id mod 2 ^ 31))) /\ a' = a
  | Replace ptr id =>
      let e := id mod 2 ^ 31 in
      match a.1 !! e with
      | Some old => r = RReplace (inr (user old)) /\ a' = (<[e := ptr]> a.1, a.2)
      | None => (r = RReplace (inl (- ENOENT)) \/ r = RReplace (inl (- EINVAL))) /\ a' = a
      end
  | Remove id =>
      let e := id mod 2 ^ 31 in
      r = RRemove (bool_decide (a.1 !! e = None)) /\ a' = (delete e a.1, a.2)
  | Destroy => r = RVoid /\ a' = (a.1, false)
  end.

(** What a caller must respect: an identifier is left and, with a start given,
    it lies in the block of 4096 of the start; an identifier removed is not
    beyond all allocated ones. *)
Definition allowed (m : gmap Z Z) (o : op) : Prop :=
  match o with
  | GetNew _ => exists j, next_free m 0 j
  | GetNewAbove _ start => exists j, next_free m start j /\ block_ok start j
  | Remove id => m = ∅ \/ exists k, is_Some (m !! k) /\ id mod 2 ^ 31 <= k
  | _ => True
  end.

Fixpoint safe (a : spec_state) (ops : list op) : Prop :=
  match ops with
  | [] => True
  | o :: ops => allowed a.1 o /\ forall r a', spec a o r a' -> safe a' ops
  end.

Inductive spec_run : spec_state -> list op -> list result -> spec_state -> Prop :=
| spec_nil a : spec_run a [] [] a
| spec_cons a o r a1 ops rs a2 :
    spec a o r a1 -> spec_run a1 ops rs a2 -> spec_run a (o :: ops) (r :: rs) a2.

Definition repr (s : idr) (a : spec_state) : Prop :=
  idr_ok s /\ (forall id, lookup s id = user <$> a.1 !! id)
  /\ (a.2 = true -> (11 <= length (id_free (free s)))%nat).

Lemma repr_init : repr idr_init (∅, false).
Proof. split; [by split; [split; [constructor|]|]|]. split; [|done]. intros id. cbn. by rewrite lookup_empty. Qed.

Lemma repr_is_Some s a id : repr s a -> lookup s id <> None <-> is_Some (a.1 !! id).
Proof. intros (_ & -> & _). destruct (a.1 !! id); cbn; split; naive_solver. Qed.

Lemma get_refines s a ptr start j :
  repr s a -> next_free a.1 start j -> block_ok start j ->
  exists rv s', idr_get_new_above_int 2 13 s ptr start = Some (rv, s')
    /\ ((rv = j /\ repr s' (<[j := ptr]> a.1, false)) \/ (rv = -1 /\ a.2 = false /\ repr s' (a.1, false))).
Proof.
  intros Hr (Hj & Hmax & Hfree & Hused) Hblock. pose proof Hr as (Hs & Hl & Hres).
  destruct (get_int_ok 2 13 s ptr start j Hs ltac:(lia) ltac:(lia) ltac:(lia)) as (v & s' & E & Hs' & Hv); try done.
  - by rewrite Hl, Hfree.
  - intros i Hi. rewrite (repr_is_Some s a) by done. by apply Hused.
  - exists v, s'. split; [done|]. destruct Hv as [[-> Hv]|(-> & Hv & Hn)]; [left|right].
    + split; [done|]. split; [done|]. split; [|done]. cbn. intros i. rewrite Hv.
      destruct (Z.eqb_spec i j) as [->|]; [by rewrite lookup_insert_eq|by rewrite lookup_insert_ne].
    + split; [done|]. split.
      * destruct (a.2); [specialize (Hres eq_refl); lia|done].
      * split; [done|]. split; [|done]. cbn. intros i. by rewrite Hv.
Qed.

Lemma exec_get s a ptr start j :
  repr s a -> next_free a.1 start j -> block_ok start j ->
  exists r id s', idr_get_new_above 2 13 s ptr start = Some (r, id, s')
    /\ exists a', spec_get a ptr start (RGet r id) a' /\ repr s' a'.
Proof.
  intros Hr Hj Hb. destruct (get_refines s a ptr start j Hr Hj Hb) as (rv & s' & E & Hv).
  unfold idr_get_new_above. rewrite E. cbn [mbind option_bind]. pose proof Hj as ((? & ?) & _).
  destruct Hv as [[-> Hr']|(-> & Ha & Hr')].
  - destruct (Z.ltb_spec j 0); [lia|]. eexists _, _, _. split; [done|]. eexists. split; [|done]. left. eauto.
  - eexists _, _, _. split; [done|]. eexists. split; [|done]. by right.
Qed.

Lemma exec_refines s a o :
  repr s a -> allowed a.1 o -> exists r s' a', exec s o = Some (r, s') /\ spec a o r a' /\ repr s' a'.
Proof.
  intros Hr Ha. pose proof Hr as (Hs & Hl & Hres). destruct o as [cache|ptr|ptr start|id|ptr id|id|]; cbn [exec spec allowed] in *.
  - destruct (idr_pre_get_ok s cache Hs) as (s' & r & -> & Hs' & Hl' & Hn & Hr'). cbn.
    destruct Hr' as [->|[-> Hn']].
    + exists (RInt 0), s', a. split; [done|]. split; [split; [done|by left]|].
      split; [done|]. split; [intros i; by rewrite Hl'|]. intros Ht. specialize (Hres Ht). lia.
    + exists (RInt 1), s', (a.1, true). split; [done|]. split; [split; [done|by right]|].
      split; [done|]. split; [intros i; by rewrite Hl'|]. cbn. lia.
  - destruct Ha as [j Hj]. destruct (exec_get s a ptr 0 j Hr Hj ltac:(by left)) as (r & id & s' & E & a' & ? & ?).
    change (idr_get_new 2 13 s ptr) with (idr_get_new_above 2 13 s ptr 0). rewrite E. eexists _, _, a'. split; [reflexivity|]. by split.
  - destruct Ha as (j & Hj & Hb). destruct (exec_get s a ptr start j Hr Hj Hb) as (r & id & s' & E & a' & ? & ?).
    rewrite E. eexists _, _, a'. split; [reflexivity|]. by split.
  - eexists _, _, a. split; [done|]. split; [|done]. by rewrite idr_find_ok, Hl.
  - pose proof (idr_replace_ok s ptr id Hs) as K. destruct (idr_replace s ptr id) as [r s'].
    destruct K as (Hs' & Ef & K). rewrite Hl in K. cbn [fst snd].
    destruct (a.1 !! (id mod 2 ^ 31)) as [old|] eqn:E; cbn in K.
    + destruct K as [-> K]. eexists _, _, _. split; [done|]. split; [done|]. split; [done|]. cbn. rewrite Ef. split; [|done].
      intros i. rewrite K. destruct (Z.eqb_spec i (id mod 2 ^ 31)) as [->|]; [by rewrite lookup_insert_eq|by rewrite lookup_insert_ne].
    + destruct K as [Hcases K]. exists (RReplace r), s', a. split; [done|]. split.
      * split; [|done]. destruct Hcases as [->| ->]; [by left|by right].
      * split; [done|]. rewrite Ef. split; [|done]. intros i. by rewrite K.
  - pose proof (idr_remove_ok s id Hs) as K. pose proof (idr_remove_reserve s id Hs) as Kn.
    destruct (idr_remove s id) as [w s']. cbn [fst snd] in *. destruct K as (Hs' & Hw & K).
    set (e := id mod 2 ^ 31) in *.
    assert (lookup s (e mod W (layers s)) = lookup s e /\ forall i, (if i =? e mod W (layers s) then None else lookup s i) = if i =? e then None else lookup s i) as [E1 E2].
    { destruct Ha as [Ha|(k & Hk & Hek)].
      - assert (forall i, lookup s i = None) as Hn by (intros i; by rewrite Hl, Ha, lookup_empty).
        split; [by rewrite !Hn|]. intros i. rewrite Hn. by destruct (_ =? _), (_ =? _).
      - apply (repr_is_Some s a k Hr) in Hk. assert (0 <= e) by (apply Z.mod_pos_bound; lia).
        unfold lookup in Hk. destruct (top s); [|done]. apply lookup_in_range in Hk.
        by rewrite Z.mod_small by lia. }
    eexists _, _, _. split; [done|]. split; [split; [|done]|].
    + rewrite Hw, E1, Hl. f_equal. apply bool_decide_ext. by destruct (a.1 !! e).
    + split; [done|]. cbn. split; [|intros Ht; by apply Kn, Hres].
      intros i. rewrite K, E2. destruct (Z.eqb_spec i e) as [->|]; [by rewrite lookup_delete_eq|by rewrite lookup_delete_ne].
  - destruct (idr_destroy_ok s Hs) as (s' & -> & Hs' & Hl' & _). cbn. eexists _, _, _. split; [done|]. split; [done|].
    split; [done|]. split; [|done]. intros i. by rewrite Hl'.
Qed.

(** ** Properties *)

(** C1: From an empty tree on, every sequence of operations within the conditions
    [safe] behaves as on a finite map. The conditions: when an identifier is
    allocated one is left from the start on, and the least of them lies in the same
    block of 4096 as the start (or the start is 0); and no identifier is removed
    that is beyond all allocated ones. An allocation then gives the least free
    identifier from the start on and cannot fail after a successful [idr_pre_get]; a
    look-up gives the pointer stored last, removing takes out exactly the
    identifier, and every loop ends. Outside the conditions the code may do
    otherwise: see [idr_get_new_above_misplaces]. *)
Theorem idr_refine ops :
  safe (∅, false) ops ->
  exists rs s a, exec_all idr_init ops = Some (rs, s) /\ spec_run (∅, false) ops rs a /\ repr s a.
Proof.
  pose proof repr_init as Hr. revert Hr. generalize idr_init (∅ : gmap Z Z, false).
  induction ops as [|o ops IH]; intros s a Hr Hsafe; cbn [exec_all].
  - eexists _, _, _. split; [done|]. split; [constructor|done].
  - destruct Hsafe as [Ha Hnext]. destruct (exec_refines s a o Hr Ha) as (r & s1 & a1 & -> & Hspec & Hr1). cbn.
    destruct (IH s1 a1 Hr1 (Hnext _ _ Hspec)) as (rs & s2 & a2 & -> & Hrun & Hr2). cbn.
    eexists _, _, _. split; [done|]. split; [by econstructor|done].
Qed.

(** In every well-formed tree, [idr_get_new_above] returns the least free
    identifier from the start on when it lies in the same block of 4096 or the
    start is 0, stores the pointer there and changes nothing else; it asks for
    memory, without a change, only when fewer than nine layers are in reserve. *)
Theorem idr_get_new_above_least rounds fuel s ptr start j :
  idr_ok s -> (2 <= rounds)%nat -> (13 <= fuel)%nat -> 0 <= start <= j -> j < 2 ^ 30 ->
  lookup s j = None -> (forall i, start <= i < j -> lookup s i <> None) -> block_ok start j ->
  exists r id s', idr_get_new_above rounds fuel s ptr start = Some (r, id, s') /\ idr_ok s'
    /\ ((r = 0 /\ id = Some j /\ idr_find s' j = user ptr
         /\ forall i, lookup s' i = if i =? j then Some (user ptr) else lookup s i)
        \/ (r = - EAGAIN /\ id = None /\ id_free_cnt (free s) < 9 /\ forall i, lookup s' i = lookup s i)).
Proof.
  intros Hs Hrd Hf Hstart Hj Hfree Hused Hb.
  destruct (get_int_ok rounds fuel s ptr start j Hs Hrd Hf Hstart Hj Hfree Hused Hb) as (v & s' & E & Hs' & Hv).
  unfold idr_get_new_above. rewrite E. cbn [mbind option_bind]. destruct Hv as [[-> Hv]|(-> & Hv & Hn)].
  - destruct (Z.ltb_spec j 0); [lia|]. eexists _, _, _. split; [done|]. split; [done|]. left. split_and!; try done.
    rewrite idr_find_ok, Z.mod_small by (done || lia). by rewrite Hv, Z.eqb_refl.
  - eexists _, _, _. split; [done|]. split; [done|]. right. split_and!; try done.
    rewrite (proj2 (proj1 Hs)). lia.
Qed.


(** From the last leaf below a layer the search goes on with the first one:
    two allocations from 4095 on give 4095 and 4096, but the second pointer is
    stored under 0, and 4096 finds nothing. *)
Lemma idr_get_new_above_misplaces :
  (r ← idr_pre_get idr_init (fun _ => true);
   r1 ← idr_get_new_above 2 13 r.1 77 4095;
   r2 ← idr_get_new_above 2 13 r1.2 78 4095;
   Some (r1.1, r2.1, idr_find r2.2 4096, idr_find r2.2 0))
  = Some ((0, Some 4095), (0, Some 4096), Null, Ptr 78).
Proof. vm_compute. reflexivity. Qed.

(** ** Witnesses *)

Definition example_ops : list op := [PreGet (fun _ => true); GetNewAbove 77 5; Find 5; Remove 5].

Lemma idr_refine_witness :
  safe (∅, false) example_ops
  /\ exists rs s a, exec_all idr_init example_ops = Some (rs, s) /\ spec_run (∅, false) example_ops rs a /\ repr s a.
Proof.
  assert (safe (∅, false) example_ops) as Hsafe.
  { split; [done|]. intros r1 [m1 b1] [Hm1 _]. cbn in Hm1. subst m1.
    split.
    { exists 5. split; [|by right]. split_and!; try lia. apply lookup_empty. }
    intros r2 [m2 b2] Hm2. split; [done|]. intros r3 a3 [_ ->]. split; [|done]. cbn.
    destruct Hm2 as [(j & (Hj & _) & _ & [= -> _])|(_ & _ & [= -> _])]; [|by left].
    right. exists j. split; [|change (5 mod 2 ^ 31) with 5; lia]. rewrite lookup_insert_eq. by eexists. }
  split; [exact Hsafe|]. exact (idr_refine example_ops Hsafe).
Defined.

Definition example_layer : idr_layer := Layer 7 ([Ptr 70; Ptr 71; Ptr 72] ++ replicate 61 Null) 3.
Definition example_idr : idr := Idr (Some example_layer) 1 (Reserve [] 0).

Lemma example_idr_ok : idr_ok example_idr.
Proof.
  split; [split; [constructor|done]|]. split; [cbn; lia|].
  refine (conj eq_refl (conj _ (conj _ _))); [by split|vm_compute; reflexivity|].
  intros n Hn. assert (forallb (fun n => match slot example_layer n with Null => true | Ptr _ => Z.testbit 7 n | Sub _ => false end) (seqZ 0 64) = true) as H
    by (vm_compute; reflexivity).
  pose proof (forall_below 64 _ H n Hn) as K. cbv beta in K. by destruct (slot example_layer n).
Qed.

Lemma idr_get_new_above_least_witness :
  exists r id s', idr_get_new_above 2 13 example_idr 99 1 = Some (r, id, s') /\ idr_ok s'
    /\ ((r = 0 /\ id = Some 3 /\ idr_find s' 3 = user 99
         /\ forall i, lookup s' i = if i =? 3 then Some (user 99) else lookup example_idr i)
        \/ (r = - EAGAIN /\ id = None /\ id_free_cnt (free example_idr) < 9
            /\ forall i, lookup s' i = lookup example_idr i)).
Proof.
  apply (idr_get_new_above_least 2 13 example_idr 99 1 3); [apply example_idr_ok|lia|lia|lia|lia|reflexivity| |right; reflexivity].
  intros i Hi. assert (i = 1 \/ i = 2) as [-> | ->] by lia; discriminate.
Defined.
