(* ===== verification/IpmiSm.v ===== *)
(** What the IPMI system-interface state machines share
    ([char/openipmi/ipmi_si_drv], [ipmi_si_sm.h]): port input and output, the
    results of an event and the reading of clocks.

    The hardware is a function of the whole history of the ports: what a read
    returns may depend on everything read and written before. *)

From S2P Require Import Prelude.
Local Open Scope Z_scope.

Definition IPMI_MAX_MSG_LENGTH : Z := 272.
Definition IPMI_ERR_MSG_TRUNCATED : Z := 0xc6.
Definition IPMI_REQ_LEN_INVALID_ERR : Z := 0xc7.
Definition IPMI_REQ_LEN_EXCEEDED_ERR : Z := 0xc8.
Definition IPMI_NOT_IN_MY_STATE_ERR : Z := 0xd5.
Definition IPMI_ERR_UNSPECIFIED : Z := 0xff.
Definition HZ : Z := 100.

Inductive si_sm_result :=
| SI_SM_CALL_WITHOUT_DELAY
| SI_SM_CALL_WITH_DELAY
| SI_SM_CALL_WITH_TICK_DELAY
| SI_SM_TRANSACTION_COMPLETE
| SI_SM_IDLE
| SI_SM_HOSED
| SI_SM_ATTN.

(** Whether the caller goes on with the transaction after the result. *)
Definition goes_on (r : si_sm_result) : bool :=
  match r with
  | SI_SM_CALL_WITHOUT_DELAY | SI_SM_CALL_WITH_DELAY | SI_SM_CALL_WITH_TICK_DELAY => true
  | _ => false
  end.

(** ** Ports *)

Inductive act :=
| In (port v : Z)
| Out (port v : Z).

Definition history : Type := list act.
Definition hardware : Type := history -> Z -> Z.

(** [io->inputb], with the history afterwards; the result is an unsigned
    char. *)
Definition inputb (hw : hardware) (port : Z) (h : history) : Z * history :=
  let v := u8 (hw h port) in (v, h ++ [In port v]).
Definition outputb (port b : Z) (h : history) : history := h ++ [Out port (u8 b)].

(** The bytes written. *)
Fixpoint outs (h : history) : list (Z * Z) :=
  match h with
  | [] => []
  | Out p v :: h => (p, v) :: outs h
  | In _ _ :: h => outs h
  end.

(** The bytes read from [port] that are acknowledged at once by writing
    [ack] to port 0. *)
Fixpoint acked (port ack : Z) (h : history) : list Z :=
  match h with
  | In p v :: (Out q w :: _) as t =>
      if (p =? port) && (q =? 0) && (w =? ack) then v :: acked port ack t else acked port ack t
  | _ :: t => acked port ack t
  | [] => []
  end.

Lemma outs_app h h' : outs (h ++ h') = outs h ++ outs h'.
Proof. induction h as [|[]]; cbn; congruence. Qed.

(** ** Arrays *)

Definition memcpy (dst src : list Z) (n : Z) : option (list Z) :=
  if (0 <=? n) && (n <=? Z.of_nat (length src)) && (n <=? Z.of_nat (length dst)) then
    Some (take (Z.to_nat n) src ++ drop (Z.to_nat n) dst)
  else None.

Lemma memcpy_Some dst src n :
  0 <= n <= Z.of_nat (length src) -> n <= Z.of_nat (length dst) ->
  memcpy dst src n = Some (take (Z.to_nat n) src ++ drop (Z.to_nat n) dst).
Proof.
  intros Hs Hd. unfold memcpy. destruct (Z.leb_spec 0 n); [|lia].
  destruct (Z.leb_spec n (Z.of_nat (length src))); [|lia]. by destruct (Z.leb_spec n (Z.of_nat (length dst))); [|lia].
Qed.

(** ** Clocks *)

(** [time_before(a, b)] on unsigned longs. *)
Definition time_before (a b : Z) : bool := s64 (s64 a - s64 b) <? 0.

Lemma acked_app port ack h p v t :
  acked port ack (h ++ In p v :: t) = acked port ack h ++ acked port ack (In p v :: t).
Proof.
  induction h as [|a h IH]; [done|]. cbn [app acked]. destruct a as [q w|q w].
  - destruct h as [|[] h]; cbn [app] in *; [done|by rewrite IH|].
    destruct (_ && _); by rewrite IH.
  - by rewrite IH.
Qed.

Definition byte (b : Z) : Prop := 0 <= b < 256.

Lemma u8_of_byte b : byte b -> u8 b = b.
Proof. intros H. by apply wrap_small. Qed.

Lemma byte_of_u8 b : byte (u8 b).
Proof. apply wrap_range. lia. Qed.

Lemma take_write {A} (l : list A) (i : Z) v n :
  Z.of_nat n = i -> (n < length l)%nat -> take (S n) (<[Z.to_nat i := v]> l) = take n l ++ [v].
Proof.
  intros <- Hn. rewrite Nat2Z.id. rewrite (take_S_r _ _ v) by (by apply list_lookup_insert_eq).
  by rewrite take_insert_ge.
Qed.

(** ** Results

    The [get_result] functions copy the answer into the caller's buffer in the
    same way: the number of bytes, the buffer, and the position in [read_data]
    afterwards. *)
Definition copy_result (data read_data : list Z) (read_pos : Z) (truncated : bool) (length : Z) : option (Z * list Z * Z) :=
  let pos := if length <? read_pos then length else read_pos in
  let truncated := if length <? read_pos then true else truncated in
  data ← memcpy data read_data pos;
  r ← (if (3 <=? length) && (pos <? 3) then
         data ← write_at data 2 IPMI_ERR_UNSPECIFIED; Some (data, 3)
       else Some (data, pos));
  data ← (if truncated then write_at r.1 2 IPMI_ERR_MSG_TRUNCATED else Some r.1);
  Some (r.2, data, r.2).

(** What that makes of the bytes received, of which [max] fit into [read_data],
    [cut] if not all of them are there: the number of bytes, and the caller's
    buffer. *)
Definition response (max : Z) (bytes : list Z) (cut : bool) (len : Z) (buf : list Z) : Z * list Z :=
  let m := Z.min (Z.of_nat (length bytes)) max in
  let n := Z.min m len in
  let b := take (Z.to_nat n) bytes ++ drop (Z.to_nat n) buf in
  (Z.max 3 n,
   if cut || (len <? m) then <[2%nat := IPMI_ERR_MSG_TRUNCATED]> b
   else if n <? 3 then <[2%nat := IPMI_ERR_UNSPECIFIED]> b else b).

Lemma write_2 (l : list Z) v : 3 <= Z.of_nat (length l) -> write_at l 2 v = Some (<[2%nat := v]> l).
Proof. intros H. by rewrite write_at_Some by lia. Qed.

Lemma copy_result_ok max bytes buf read pos cut len : Z.of_nat (length read) = max -> 0 <= pos <= max ->
  3 <= len <= Z.of_nat (length buf) -> pos = Z.min (Z.of_nat (length bytes)) max ->
  take (Z.to_nat pos) read = take (Z.to_nat pos) bytes -> 3 <= max ->
  exists p, copy_result buf read pos cut len = Some ((response max bytes cut len buf).1, (response max bytes cut len buf).2, p)
    /\ 0 <= p <= max.
Proof.
  intros Hr Hp Hl Hpos Htake Hmax. unfold response, copy_result. cbv zeta. rewrite <- Hpos.
  set (n := Z.min pos len).
  assert (take (Z.to_nat n) read = take (Z.to_nat n) bytes) as Hn.
  { replace (Z.to_nat n) with (Z.to_nat n `min` Z.to_nat pos)%nat by lia. by rewrite <- !take_take, Htake. }
  replace (if len <? pos then len else pos) with n by (unfold n; destruct (Z.ltb_spec len pos); lia).
  replace (if len <? pos then true else cut) with (cut || (len <? pos)) by (destruct (len <? pos); [by rewrite orb_true_r|by rewrite orb_false_r]).
  rewrite memcpy_Some by lia. cbn [mbind option_bind]. rewrite Hn. set (b := take _ _ ++ drop _ _).
  assert (3 <= Z.of_nat (length b)) as Hb by (unfold b; rewrite length_app, length_take, length_drop; lia).
  rewrite (proj2 (Z.leb_le 3 len)) by lia. cbn [andb]. destruct (Z.ltb_spec n 3) as [H3|H3].
  - rewrite write_2 by done. cbn [mbind option_bind fst snd]. replace (Z.max 3 n) with 3 by lia.
    destruct (cut || (len <? pos)); cbn [fst snd].
    + rewrite write_2 by (by rewrite length_insert). cbn. rewrite list_insert_insert_eq. by exists 3.
    + by exists 3.
  - cbn [mbind option_bind fst snd]. replace (Z.max 3 n) with n by lia. destruct (cut || (len <? pos)); cbn [fst snd].
    + rewrite write_2 by done. cbn. exists n. split; [done|lia].
    + exists n. split; [done|lia].
Qed.

Lemma response_range max bytes cut len buf : 3 <= len <= Z.of_nat (length buf) ->
  3 <= (response max bytes cut len buf).1 <= len /\ length (response max bytes cut len buf).2 = length buf.
Proof.
  intros Hl. unfold response. cbv zeta. cbn [fst snd]. split; [lia|].
  repeat case_test; rewrite ?length_insert, length_app, length_take, length_drop; lia.
Qed.

(** ** The handlers *)

(** [struct si_sm_handlers]: the operations of a state machine. The fields
    that hold no code of the machine ([version], [cleanup], [size]) are left out;
    [event] gets the elapsed time and the clock [jiffies] as arguments. *)
Class si_sm_handlers (D : Type) := SiSmHandlers {
  init_data : D -> Z * D;
  start_transaction : list Z -> D -> option (Z * D);
  get_result : list Z -> Z -> D -> option (Z * list Z * D);
  event : hardware -> Z -> Z -> D -> option (si_sm_result * D);
  detect : hardware -> D -> Z * D;
}.

(** What a state machine promises to its user: with hardware it can work
    with, none of its operations leaves an array or fails to return. A machine
    at rest ([sm_idle]) takes every request of a size it allows, and none right
    after that. A request is under way from its start until an event that does not
    ask for another one, which leaves the machine at rest; only a machine that
    was at rest says that it is idle or that the device wants attention. A
    response that fits the caller's buffer has three bytes at least. *)
Class SiSm (D : Type) `{si_sm_handlers D} := {
  sm_hardware : hardware -> Prop;
  sm_fits : list Z -> Prop;
  sm_size : Z;
  sm_inv : option (list Z) -> D -> Prop;
  sm_idle : D -> Prop;
  sm_size_3 : 3 <= sm_size;
  sm_fits_small data : Forall byte data -> (length data <= 3)%nat -> sm_fits data;
  sm_idle_inv d : sm_idle d -> sm_inv None d;
  sm_init req d : sm_inv req d -> sm_idle (init_data d).2;
  sm_start req data d :
    sm_inv req d -> sm_fits data ->
    exists rv d', start_transaction data d = Some (rv, d')
      /\ (rv = 0 -> sm_inv (Some data) d' /\ ~ sm_idle d') /\ (rv <> 0 -> d' = d)
      /\ (sm_idle d -> 2 <= Z.of_nat (length data) <= sm_size -> rv = 0);
  sm_again data data' d d' rv d'' :
    start_transaction data d = Some (0, d') -> start_transaction data' d' = Some (rv, d'') -> rv <> 0;
  sm_event hw time jiffies req d :
    sm_hardware hw -> sm_inv req d ->
    exists r d', event hw time jiffies d = Some (r, d')
      /\ sm_inv (if goes_on r then req else None) d'
      /\ (sm_idle d' -> goes_on r = true -> sm_idle d)
      /\ (goes_on r = false -> sm_idle d')
      /\ (r = SI_SM_IDLE \/ r = SI_SM_ATTN -> sm_idle d);
  sm_result buf len d :
    sm_idle d -> 3 <= len <= Z.of_nat (length buf) ->
    exists n buf' d', get_result buf len d = Some (n, buf', d')
      /\ 3 <= n <= len /\ length buf' = length buf /\ sm_idle d';
}.

(** ** Polling *)

(** A caller that polls the machine: the result of the last event, the time of
    the clock, the machine. *)
Record caller (D : Type) := Caller { last : si_sm_result; now : Z; machine : D }.
Arguments Caller {_} _ _ _.
Arguments last {_} _.
Arguments now {_} _.
Arguments machine {_} _.

(** What a caller does about time, given the result of the last event, its clock
    then, and the time it reports and its clock now: anything at all, or
    ([paced]) it reports at most [MAX_TIME] microseconds (about seventy minutes),
    lets time pass where it was told to wait, and its clock does not go back. *)
Definition MAX_TIME : Z := 2 ^ 32.
Definition pacing : Type := si_sm_result -> Z -> Z -> Z -> Prop.
Definition any_pace : pacing := fun _ _ _ _ => True.
Definition paced : pacing := fun r now time jiffies =>
  0 <= time <= MAX_TIME /\ now <= jiffies < 2 ^ 62
  /\ (r = SI_SM_CALL_WITH_DELAY -> 0 < time)
  /\ (r = SI_SM_CALL_WITH_TICK_DELAY -> 0 < time /\ now < jiffies).

(** [polls pace hw n c c']: [n] events, each but the last of which asked for
    another one. *)
Inductive polls {D} `{si_sm_handlers D} (pace : pacing) (hw : hardware) : nat -> caller D -> caller D -> Prop :=
| polls_0 c : polls pace hw 0 c c
| polls_S n c c' r time jiffies d :
    polls pace hw n c c' -> goes_on (last c') = true -> pace (last c') (now c') time jiffies ->
    event hw time jiffies (machine c') = Some (r, d) -> polls pace hw (S n) c (Caller r jiffies d).

Lemma polls_any {D} `{si_sm_handlers D} pace hw n (c c' : caller D) : polls pace hw n c c' -> polls any_pace hw n c c'.
Proof. induction 1; [constructor|by eapply polls_S]. Qed.

(** A caller that reports the given times and clocks. *)
Fixpoint poll_run {D} `{si_sm_handlers D} (hw : hardware) (clock : list (Z * Z)) (c : caller D) : option (caller D) :=
  match clock with
  | [] => Some c
  | (time, jiffies) :: clock =>
      if goes_on (last c) && (0 <=? time) && (time <=? MAX_TIME) && (now c <=? jiffies) && (jiffies <? 2 ^ 62)
        && match last c with
           | SI_SM_CALL_WITH_DELAY => 0 <? time
           | SI_SM_CALL_WITH_TICK_DELAY => (0 <? time) && (now c <? jiffies)
           | _ => true
           end
      then r ← event hw time jiffies (machine c); poll_run hw clock (Caller r.1 jiffies r.2)
      else None
  end.

Lemma polls_front {D} `{si_sm_handlers D} hw n (c c1 c2 : caller D) :
  polls paced hw 1 c c1 -> polls paced hw n c1 c2 -> polls paced hw (S n) c c2.
Proof. intros H1 H2. induction H2; [done|]. eapply polls_S; eauto. Qed.

Lemma poll_run_polls {D} `{si_sm_handlers D} hw clock (c c' : caller D) :
  poll_run hw clock c = Some c' -> polls paced hw (length clock) c c'.
Proof.
  revert c. induction clock as [|[time jiffies] clock IH]; intros c; cbn; [intros [= ->]; constructor|].
  case_test; [|done]. destruct (event hw time jiffies (machine c)) as [[r d]|] eqn:Ev; [|done]. cbn. intros Hrun.
  eapply polls_front; [|by apply IH]. eapply polls_S; [constructor|done| |done].
  split; [lia|]. split; [lia|]. destruct (last c); unbool; (split; [done || lia|done || lia]).
Qed.
