(* ===== verification/Kcs.v ===== *)
(** The KCS state machine of the IPMI driver:
    [char/openipmi/ipmi_si_drv/ipmi_kcs_sm.c]. Debug output is left out. *)

From S2P Require Import Prelude IpmiSm.
Local Open Scope Z_scope.

Inductive kcs_states :=
| KCS_IDLE
| KCS_START_OP
| KCS_WAIT_WRITE_START
| KCS_WAIT_WRITE
| KCS_WAIT_WRITE_END
| KCS_WAIT_READ
| KCS_ERROR0
| KCS_ERROR1
| KCS_ERROR2
| KCS_ERROR3
| KCS_HOSED.

Definition MAX_KCS_READ_SIZE : Z := IPMI_MAX_MSG_LENGTH.
Definition MAX_KCS_WRITE_SIZE : Z := IPMI_MAX_MSG_LENGTH.
Definition IBF_RETRY_TIMEOUT : Z := 1000000.
Definition OBF_RETRY_TIMEOUT : Z := 1000000.
Definition MAX_ERROR_RETRIES : Z := 10.
Definition ERROR0_OBF_WAIT_JIFFIES : Z := 2 * HZ.

Definition KCS_GET_STATUS_ABORT : Z := 0x60.
Definition KCS_WRITE_START : Z := 0x61.
Definition KCS_WRITE_END : Z := 0x62.
Definition KCS_READ_BYTE : Z := 0x68.

Definition GET_STATUS_STATE (status : Z) : Z := Z.land (Z.shiftr status 6) 3.
Definition KCS_IDLE_STATE : Z := 0.
Definition KCS_READ_STATE : Z := 1.
Definition KCS_WRITE_STATE : Z := 2.
Definition GET_STATUS_ATN (status : Z) : bool := negb (Z.land status 4 =? 0).
Definition GET_STATUS_IBF (status : Z) : bool := negb (Z.land status 2 =? 0).
Definition GET_STATUS_OBF (status : Z) : bool := negb (Z.land status 1 =? 0).

(** [kcs->io] is the history of the ports; [KCS_IDLE] is 0, which one test
    compares with the state in the status register. *)
Record si_sm_data := Kcs {
  state : kcs_states;
  io : history;
  write_data : list Z;
  write_pos : Z;
  write_count : Z;
  orig_write_count : Z;
  read_data : list Z;
  read_pos : Z;
  truncated : bool;
  error_retries : Z;
  ibf_timeout : Z;
  obf_timeout : Z;
  error0_timeout : Z;
}.

Definition set_state (st : kcs_states) (k : si_sm_data) : si_sm_data :=
  Kcs st (io k) (write_data k) (write_pos k) (write_count k) (orig_write_count k) (read_data k) (read_pos k)
    (truncated k) (error_retries k) (ibf_timeout k) (obf_timeout k) (error0_timeout k).
Definition set_io (h : history) (k : si_sm_data) : si_sm_data :=
  Kcs (state k) h (write_data k) (write_pos k) (write_count k) (orig_write_count k) (read_data k) (read_pos k)
    (truncated k) (error_retries k) (ibf_timeout k) (obf_timeout k) (error0_timeout k).
Definition set_write (d : list Z) (p c o : Z) (k : si_sm_data) : si_sm_data :=
  Kcs (state k) (io k) d p c o (read_data k) (read_pos k)
    (truncated k) (error_retries k) (ibf_timeout k) (obf_timeout k) (error0_timeout k).
Definition set_read (d : list Z) (p : Z) (t : bool) (k : si_sm_data) : si_sm_data :=
  Kcs (state k) (io k) (write_data k) (write_pos k) (write_count k) (orig_write_count k) d p
    t (error_retries k) (ibf_timeout k) (obf_timeout k) (error0_timeout k).
Definition set_error (n t : Z) (k : si_sm_data) : si_sm_data :=
  Kcs (state k) (io k) (write_data k) (write_pos k) (write_count k) (orig_write_count k) (read_data k) (read_pos k)
    (truncated k) n (ibf_timeout k) (obf_timeout k) t.
Definition set_timeouts (i o : Z) (k : si_sm_data) : si_sm_data :=
  Kcs (state k) (io k) (write_data k) (write_pos k) (write_count k) (orig_write_count k) (read_data k) (read_pos k)
    (truncated k) (error_retries k) i o (error0_timeout k).

Definition init_kcs_data (k : si_sm_data) : si_sm_data :=
  Kcs KCS_IDLE (io k) (write_data k) 0 0 0 (read_data k) 0 false 0 IBF_RETRY_TIMEOUT OBF_RETRY_TIMEOUT (error0_timeout k).

Section code.
Context (hw : hardware).

Definition read_status (k : si_sm_data) : Z * si_sm_data :=
  let r := inputb hw 1 (io k) in (r.1, set_io r.2 k).
Definition read_data_reg (k : si_sm_data) : Z * si_sm_data :=
  let r := inputb hw 0 (io k) in (r.1, set_io r.2 k).
Definition write_cmd (data : Z) (k : si_sm_data) : si_sm_data := set_io (outputb 1 data (io k)) k.
Definition write_data_reg (data : Z) (k : si_sm_data) : si_sm_data := set_io (outputb 0 data (io k)) k.

(** [None] outside the array. *)
Definition write_next_byte (k : si_sm_data) : option si_sm_data :=
  b ← read_at (write_data k) (write_pos k);
  Some (set_write (write_data k) (write_pos k + 1) (write_count k - 1) (orig_write_count k) (write_data_reg b k)).

Definition start_error_recovery (jiffies : Z) (k : si_sm_data) : si_sm_data :=
  let n := u32 (error_retries k + 1) in
  if MAX_ERROR_RETRIES <? n then set_state KCS_HOSED (set_error n (error0_timeout k) k)
  else set_state KCS_ERROR0 (set_error n (u64 (jiffies + ERROR0_OBF_WAIT_JIFFIES)) k).

Definition read_next_byte (k : si_sm_data) : option si_sm_data :=
  k ← (if MAX_KCS_READ_SIZE <=? read_pos k then
         let k := (read_data_reg k).2 in Some (set_read (read_data k) (read_pos k) true k)
       else
         let r := read_data_reg k in
         d ← write_at (read_data r.2) (read_pos r.2) r.1;
         Some (set_read d (read_pos r.2 + 1) (truncated r.2) r.2));
  Some (write_data_reg KCS_READ_BYTE k).

Definition check_ibf (status time jiffies : Z) (k : si_sm_data) : bool * si_sm_data :=
  if GET_STATUS_IBF status then
    let k := set_timeouts (s64 (ibf_timeout k - time)) (obf_timeout k) k in
    if ibf_timeout k <? 0 then
      (true, set_timeouts IBF_RETRY_TIMEOUT (obf_timeout k) (start_error_recovery jiffies k))
    else (false, k)
  else (true, set_timeouts IBF_RETRY_TIMEOUT (obf_timeout k) k).

Definition check_obf (status time jiffies : Z) (k : si_sm_data) : bool * si_sm_data :=
  if negb (GET_STATUS_OBF status) then
    let k := set_timeouts (ibf_timeout k) (s64 (obf_timeout k - time)) k in
    if obf_timeout k <? 0 then (true, start_error_recovery jiffies k) else (false, k)
  else (true, set_timeouts (ibf_timeout k) OBF_RETRY_TIMEOUT k).

Definition clear_obf (status : Z) (k : si_sm_data) : si_sm_data :=
  if GET_STATUS_OBF status then (read_data_reg k).2 else k.

Definition restart_kcs_transaction (k : si_sm_data) : si_sm_data :=
  write_cmd KCS_WRITE_START
    (set_timeouts IBF_RETRY_TIMEOUT OBF_RETRY_TIMEOUT
      (set_state KCS_WAIT_WRITE_START
        (set_read (read_data k) 0 (truncated k)
          (set_write (write_data k) 0 (orig_write_count k) (orig_write_count k) k)))).

(** [size] is the length of [data]. *)
Definition start_kcs_transaction (data : list Z) (k : si_sm_data) : option (Z * si_sm_data) :=
  let size := Z.of_nat (length data) in
  if size <? 2 then Some (IPMI_REQ_LEN_INVALID_ERR, k)
  else if MAX_KCS_WRITE_SIZE <? size then Some (IPMI_REQ_LEN_EXCEEDED_ERR, k)
  else match state k with
  | KCS_IDLE | KCS_HOSED =>
      d ← memcpy (write_data k) data size;
      Some (0, set_timeouts IBF_RETRY_TIMEOUT OBF_RETRY_TIMEOUT
        (set_state KCS_START_OP
          (set_read (read_data k) 0 (truncated k)
            (set_write d 0 size size (set_error 0 (error0_timeout k) k)))))
  | _ => Some (IPMI_NOT_IN_MY_STATE_ERR, k)
  end.

(** [data] is the caller's buffer, of which [length] bytes may be used. *)
Definition get_kcs_result (data : list Z) (length : Z) (k : si_sm_data) : option (Z * list Z * si_sm_data) :=
  let k := if length <? read_pos k then set_read (read_data k) length true k else k in
  data ← memcpy data (read_data k) (read_pos k);
  r ← (if (3 <=? length) && (read_pos k <? 3) then
         data ← write_at data 2 IPMI_ERR_UNSPECIFIED;
         Some (data, set_read (read_data k) 3 (truncated k) k)
       else Some (data, k));
  r ← (if truncated r.2 then
         data ← write_at r.1 2 IPMI_ERR_MSG_TRUNCATED;
         Some (data, set_read (read_data r.2) (read_pos r.2) false r.2)
       else Some r);
  Some (read_pos r.2, r.1, r.2).

(** The cases of [kcs_event]: a result that is returned at once, or none for a
    [break]. *)
Definition kcs_case (status time jiffies : Z) (k : si_sm_data) : option (option si_sm_result * si_sm_data) :=
  let st := GET_STATUS_STATE status in
  let break k := Some (None, k) in
  let return_ r k := Some (Some r, k) in
  match state k with
  | KCS_IDLE =>
      return_ (if GET_STATUS_ATN status then SI_SM_ATTN else SI_SM_IDLE) (clear_obf status k)
  | KCS_START_OP =>
      if negb (st =? 0) then break (start_error_recovery jiffies k)
      else break (set_state KCS_WAIT_WRITE_START (write_cmd KCS_WRITE_START (clear_obf status k)))
  | KCS_WAIT_WRITE_START =>
      if negb (st =? KCS_WRITE_STATE) then break (start_error_recovery jiffies k)
      else
        let k := (read_data_reg k).2 in
        if write_count k =? 1 then break (set_state KCS_WAIT_WRITE_END (write_cmd KCS_WRITE_END k))
        else k ← write_next_byte k; break (set_state KCS_WAIT_WRITE k)
  | KCS_WAIT_WRITE =>
      if negb (st =? KCS_WRITE_STATE) then break (start_error_recovery jiffies k)
      else
        let k := clear_obf status k in
        if write_count k =? 1 then break (set_state KCS_WAIT_WRITE_END (write_cmd KCS_WRITE_END k))
        else k ← write_next_byte k; break k
  | KCS_WAIT_WRITE_END =>
      if negb (st =? KCS_WRITE_STATE) then break (start_error_recovery jiffies k)
      else
        k ← write_next_byte (clear_obf status k);
        break (set_state KCS_WAIT_READ k)
  | KCS_WAIT_READ =>
      if negb (st =? KCS_READ_STATE) && negb (st =? KCS_IDLE_STATE) then break (start_error_recovery jiffies k)
      else if st =? KCS_READ_STATE then
        let '(ok, k) := check_obf status time jiffies k in
        if negb ok then return_ SI_SM_CALL_WITH_DELAY k
        else k ← read_next_byte k; break k
      else
        let k := clear_obf status k in
        return_ SI_SM_TRANSACTION_COMPLETE
          (set_state KCS_IDLE (set_write (write_data k) (write_pos k) (write_count k) 0 k))
  | KCS_ERROR0 =>
      let k := clear_obf status k in
      let '(status, k) := read_status k in
      if GET_STATUS_OBF status && time_before jiffies (error0_timeout k) then return_ SI_SM_CALL_WITH_TICK_DELAY k
      else break (set_state KCS_ERROR1 (write_cmd KCS_GET_STATUS_ABORT k))
  | KCS_ERROR1 => break (set_state KCS_ERROR2 (write_data_reg 0 (clear_obf status k)))
  | KCS_ERROR2 =>
      if negb (st =? KCS_READ_STATE) then break (start_error_recovery jiffies k)
      else
        let '(ok, k) := check_obf status time jiffies k in
        if negb ok then return_ SI_SM_CALL_WITH_DELAY k
        else break (set_state KCS_ERROR3 (write_data_reg KCS_READ_BYTE (clear_obf status k)))
  | KCS_ERROR3 =>
      if negb (st =? KCS_IDLE_STATE) then break (start_error_recovery jiffies k)
      else
        let '(ok, k) := check_obf status time jiffies k in
        if negb ok then return_ SI_SM_CALL_WITH_DELAY k
        else
          let k := clear_obf status k in
          if negb (orig_write_count k =? 0) then break (restart_kcs_transaction k)
          else return_ SI_SM_TRANSACTION_COMPLETE (set_state KCS_IDLE k)
  | KCS_HOSED => break k
  end.

Definition kcs_event (time jiffies : Z) (k : si_sm_data) : option (si_sm_result * si_sm_data) :=
  let '(status, k) := read_status k in
  let '(ok, k) := check_ibf status time jiffies k in
  if negb ok then Some (SI_SM_CALL_WITH_DELAY, k)
  else
    r ← kcs_case status time jiffies k;
    match r.1 with
    | Some res => Some (res, r.2)
    | None =>
        match state r.2 with
        | KCS_HOSED => Some (SI_SM_HOSED, init_kcs_data r.2)
        | _ => Some (SI_SM_CALL_WITHOUT_DELAY, r.2)
        end
    end.

Definition kcs_detect (k : si_sm_data) : Z * si_sm_data :=
  let '(status, k) := read_status k in (if status =? 0xff then 1 else 0, k).
End code.


#[export] Instance kcs_smi_handlers : si_sm_handlers si_sm_data := {
  init_data k := (2, init_kcs_data k);
  start_transaction := start_kcs_transaction;
  get_result := get_kcs_result;
  event := kcs_event;
  detect := kcs_detect;
}.

(** ** The invariant *)

(** What goes over the wire for a request after the start command. *)
Definition data_outs (l : list Z) : list (Z * Z) := (fun b => (0, b)) <$> l.
Definition frame (req : list Z) : list (Z * Z) :=
  data_outs (take (length req - 1) req) ++ [(1, KCS_WRITE_END); (0, List.last req 0)].

(** [r] is the part of the history [h] after some start command. *)
Definition since_start (h r : history) : Prop := exists h0, h = h0 ++ Out 1 KCS_WRITE_START :: r.

(** Every byte received was acknowledged, and the bytes are in [read_data] as far
    as they fit; a byte too many sets [truncated]. *)
Definition received (k : si_sm_data) (r : history) (bytes : list Z) : Prop :=
  outs r = replicate (length bytes) (0, KCS_READ_BYTE)
  /\ acked 0 KCS_READ_BYTE r = bytes
  /\ read_pos k = Z.min (Z.of_nat (length bytes)) MAX_KCS_READ_SIZE
  /\ take (Z.to_nat (read_pos k)) (read_data k) = take (Z.to_nat (read_pos k)) bytes
  /\ (MAX_KCS_READ_SIZE < Z.of_nat (length bytes) -> truncated k = true).

(** The device was given exactly the request, and the machine holds exactly its
    answer. *)
Definition answered (req : list Z) (k : si_sm_data) : Prop :=
  exists w r bytes, since_start (io k) (w ++ r) /\ outs w = frame req /\ received k r bytes.

Definition written (req : list Z) (k : si_sm_data) : Prop :=
  0 <= write_pos k /\ 1 <= write_count k /\ write_pos k + write_count k = Z.of_nat (length req) /\ read_pos k = 0.

Definition on_wire (k : si_sm_data) (l : list (Z * Z)) : Prop := exists r, since_start (io k) r /\ outs r = l.

Definition phase (req : list Z) (k : si_sm_data) : Prop :=
  match state k with
  | KCS_IDLE => False
  | KCS_START_OP => written req k /\ write_pos k = 0
  | KCS_WAIT_WRITE_START => written req k /\ write_pos k = 0 /\ on_wire k []
  | KCS_WAIT_WRITE => written req k /\ on_wire k (data_outs (take (Z.to_nat (write_pos k)) req))
  | KCS_WAIT_WRITE_END =>
      written req k /\ write_count k = 1
      /\ on_wire k (data_outs (take (Z.to_nat (write_pos k)) req) ++ [(1, KCS_WRITE_END)])
  | KCS_WAIT_READ => answered req k
  | _ => True
  end.

Definition held (req : option (list Z)) (k : si_sm_data) : Prop :=
  match req with
  | None => orig_write_count k = 0 /\ match state k with
      | KCS_IDLE | KCS_ERROR0 | KCS_ERROR1 | KCS_ERROR2 | KCS_ERROR3 | KCS_HOSED => True | _ => False end
  | Some req =>
      orig_write_count k = Z.of_nat (length req) /\ 2 <= Z.of_nat (length req) <= MAX_KCS_WRITE_SIZE
      /\ Forall byte req /\ take (length req) (write_data k) = req /\ phase req k
  end.

Definition arrays (k : si_sm_data) : Prop :=
  Z.of_nat (length (write_data k)) = MAX_KCS_WRITE_SIZE /\ Z.of_nat (length (read_data k)) = MAX_KCS_READ_SIZE
  /\ 0 <= read_pos k <= MAX_KCS_READ_SIZE.

Definition kcs_inv (req : option (list Z)) (k : si_sm_data) : Prop := arrays k /\ held req k /\ state k <> KCS_HOSED.

(** What [kcs_case] leaves, before a hosed machine is initialised. *)
Definition kcs_left (req : option (list Z)) (k : si_sm_data) : Prop := arrays k /\ (state k = KCS_HOSED \/ held req k).

Arguments read_at : simpl never.
Arguments write_at : simpl never.
Arguments memcpy : simpl never.
Arguments Z.land : simpl never.
Arguments Z.shiftr : simpl never.
Arguments wrap : simpl never.
Arguments sext : simpl never.

Lemma on_wire_in p v k l : on_wire k l -> on_wire (set_io (io k ++ [In p v]) k) l.
Proof.
  intros (r & (h0 & E) & <-). exists (r ++ [In p v]). split; [|by rewrite outs_app, app_nil_r].
  exists h0. cbn. by rewrite E, <- app_assoc.
Qed.

Lemma on_wire_out p b k l :
  on_wire k l -> on_wire (set_io (outputb p b (io k)) k) (l ++ [(p, u8 b)]).
Proof.
  intros (r & (h0 & E) & <-). exists (r ++ [Out p (u8 b)]). split; [|by rewrite outs_app].
  exists h0. cbn. unfold outputb. by rewrite E, <- app_assoc.
Qed.

Lemma on_wire_start k : on_wire (set_io (outputb 1 KCS_WRITE_START (io k)) k) [].
Proof. exists []. split; [by exists (io k)|done]. Qed.

Lemma answered_in p v req k : answered req k -> answered req (set_io (io k ++ [In p v]) k).
Proof.
  intros (w & r & bytes & (h0 & E) & Hw & Ho & Ha & Hr). exists w, (r ++ [In p v]), bytes. split; [|split; [done|]].
  - exists h0. cbn. rewrite E, <- app_assoc. cbn. by rewrite <- app_assoc.
  - split; [by rewrite outs_app, app_nil_r|]. split; [|done]. by rewrite acked_app, app_nil_r.
Qed.

(** The fields the invariant looks at. *)
Lemma on_wire_io k k' l : io k' = io k -> on_wire k l -> on_wire k' l.
Proof. unfold on_wire. by intros ->. Qed.

Lemma answered_fields req k k' :
  io k' = io k -> read_data k' = read_data k -> read_pos k' = read_pos k -> truncated k' = truncated k ->
  answered req k -> answered req k'.
Proof. unfold answered, received. by intros -> -> -> ->. Qed.

Lemma held_in p v req k : held req k -> held req (set_io (io k ++ [In p v]) k).
Proof.
  destruct req as [req|]; [|done]. intros (? & ? & ? & ? & Hp). do 4 (split; [done|]). unfold phase in *. cbn.
  destruct (state k); try done; destruct_and?; split_and?; eauto using on_wire_in, answered_in.
Qed.

(** Nothing, or one more read. *)
Definition quiet (h h' : history) : Prop := h' = h \/ exists p v, h' = h ++ [In p v].

Lemma set_io_same k : set_io (io k) k = k.
Proof. by destruct k. Qed.

Lemma held_quiet h req k : quiet (io k) h -> held req k -> held req (set_io h k).
Proof. intros [->|(p & v & ->)]; [by rewrite set_io_same|apply held_in]. Qed.

Lemma answered_quiet h req k : quiet (io k) h -> answered req k -> answered req (set_io h k).
Proof. intros [->|(p & v & ->)]; [by rewrite set_io_same|apply answered_in]. Qed.

Lemma on_wire_quiet h l k : quiet (io k) h -> on_wire k l -> on_wire (set_io h k) l.
Proof. intros [->|(p & v & ->)]; [by rewrite set_io_same|apply on_wire_in]. Qed.

Lemma held_some req k : held (Some req) k ->
  orig_write_count k = Z.of_nat (length req) /\ 2 <= Z.of_nat (length req) <= MAX_KCS_WRITE_SIZE
  /\ Forall byte req /\ take (length req) (write_data k) = req /\ phase req k.
Proof. done. Qed.

(** The part of [held] that no step changes. *)
Lemma held_fields req k k' :
  orig_write_count k' = orig_write_count k -> write_data k' = write_data k ->
  held (Some req) k -> phase req k' -> held (Some req) k'.
Proof. intros Eo Ed (H1 & H2 & H3 & H4 & _) Hp. unfold held. by rewrite Eo, Ed. Qed.

(** Any field of a request in error recovery. *)
Lemma held_error req k k' :
  orig_write_count k' = orig_write_count k -> write_data k' = write_data k ->
  match state k' with KCS_ERROR0 | KCS_ERROR1 | KCS_ERROR2 | KCS_ERROR3 => True | _ => False end ->
  held req k -> held req k'.
Proof.
  intros Eo Ed Hs. destruct req as [req|].
  - intros H. apply (held_fields req k); [done..|]. unfold phase. by destruct (state k').
  - intros [H _]. unfold held. rewrite Eo. split; [done|]. by destruct (state k').
Qed.

Section proofs.
Context (hw : hardware).

Lemma clear_obf_quiet status k : exists h, quiet (io k) h /\ clear_obf hw status k = set_io h k.
Proof.
  unfold clear_obf. case_test.
  - eexists. split; [right; do 2 eexists; reflexivity|done].
  - exists (io k). split; [by left|]. by rewrite set_io_same.
Qed.

Lemma read_quiet p k : exists v h, quiet (io k) h /\ inputb hw p (io k) = (v, h).
Proof. eexists _, _. split; [right; do 2 eexists; reflexivity|reflexivity]. Qed.

Lemma recovery_left req jiffies k : arrays k -> held req k -> kcs_left req (start_error_recovery jiffies k).
Proof.
  intros Ha Hh. unfold start_error_recovery. split.
  - by case_test.
  - case_test; [by left|right]. by apply (held_error req k).
Qed.

Lemma recovery_state jiffies k :
  let k' := start_error_recovery jiffies k in
  (state k' = KCS_ERROR0 \/ state k' = KCS_HOSED) /\ io k' = io k.
Proof. unfold start_error_recovery. case_test; cbn; auto 10. Qed.

(** The invariants do not look at the timeouts. *)
Lemma left_timeouts i o req k : kcs_left req k -> kcs_left req (set_timeouts i o k).
Proof. done. Qed.

Lemma inv_timeouts i o req k : kcs_inv req k -> kcs_inv req (set_timeouts i o k).
Proof. done. Qed.

Lemma inv_left req k : kcs_inv req k -> kcs_left req k.
Proof. intros (? & ? & ?). split; [done|by right]. Qed.

Lemma check_ibf_ok status time jiffies req k : kcs_inv req k ->
  exists ok k', check_ibf status time jiffies k = (ok, k') /\ kcs_left req k' /\ (ok = false -> kcs_inv req k').
Proof.
  intros H. unfold check_ibf. set (k0 := set_timeouts (s64 _) _ k).
  assert (H0 : kcs_inv req k0) by done. clearbody k0.
  repeat case_test; eexists _, _; (split; [reflexivity|]); (split; [|done]).
  - apply left_timeouts, recovery_left; apply H0.
  - by apply inv_left.
  - by apply inv_left.
Qed.

(** A timeout leaves the machine in error recovery, and the event goes on. *)
Lemma check_obf_ok status time jiffies req k : arrays k -> held req k ->
  exists ok k', check_obf status time jiffies k = (ok, k') /\ arrays k' /\ kcs_left req k'
    /\ orig_write_count k' = orig_write_count k
    /\ (state k' = state k \/ ok = true /\ (state k' = KCS_ERROR0 \/ state k' = KCS_HOSED)).
Proof.
  intros Ha Hh. unfold check_obf. set (k0 := set_timeouts _ (s64 _) k).
  pose proof (recovery_left req jiffies k0 Ha Hh) as Hl. unfold start_error_recovery in *.
  repeat case_test; eexists _, _; (split; [reflexivity|]); cbn; (split; [done|]); split_and!; auto.
  all: split; [done|by right].
Qed.

Lemma byte_at req k : 0 <= write_pos k < Z.of_nat (length req) ->
  take (length req) (write_data k) = req -> Forall byte req ->
  exists b, read_at (write_data k) (write_pos k) = Some b /\ u8 b = b /\ req !! Z.to_nat (write_pos k) = Some b.
Proof.
  intros Hp Ht Hb. destruct (lookup_lt_is_Some_2 req (Z.to_nat (write_pos k))) as [b E]; [lia|].
  exists b. split; [|split; [|done]].
  - unfold read_at. destruct (Z.ltb_spec (write_pos k) 0); [lia|].
    rewrite <- Ht in E. by apply lookup_take_Some in E as [? _].
  - apply u8_of_byte. by apply (Forall_lookup_1 _ _ _ _ Hb E).
Qed.

Definition byte_sent (h : history) (k : si_sm_data) : si_sm_data :=
  set_write (write_data k) (write_pos k + 1) (write_count k - 1) (orig_write_count k) (set_io h k).

Lemma write_next_byte_ok l req k : 0 <= write_pos k < Z.of_nat (length req) ->
  take (length req) (write_data k) = req -> Forall byte req -> on_wire k l ->
  exists b h, write_next_byte k = Some (byte_sent h k) /\ req !! Z.to_nat (write_pos k) = Some b
    /\ on_wire (byte_sent h k) (l ++ [(0, b)]).
Proof.
  intros Hp Ht Hb Hw. destruct (byte_at req k Hp Ht Hb) as (b & E & Eb & El).
  exists b, (outputb 0 b (io k)). unfold write_next_byte. rewrite E. split; [done|]. split; [done|].
  pose proof (on_wire_out 0 b k l Hw) as H. rewrite Eb in H. exact H.
Qed.

Lemma data_outs_S req n b : req !! n = Some b -> data_outs (take (S n) req) = data_outs (take n req) ++ [(0, b)].
Proof. intros E. unfold data_outs. by rewrite (take_S_r _ _ _ E), fmap_app. Qed.

Lemma read_next_byte_ok k : arrays k -> exists h d p t, read_next_byte hw k = Some (set_io h (set_read d p t k))
  /\ arrays (set_read d p t k)
  /\ forall req, answered req k -> answered req (set_io h (set_read d p t k)).
Proof.
  intros (Hw & Hr & Hp). unfold read_next_byte. set (v := u8 (hw (io k) 0)).
  assert (forall l, outs (l ++ [In 0 v; Out 0 (u8 KCS_READ_BYTE)]) = outs l ++ [(0, KCS_READ_BYTE)]) as Eo by (intros l; by rewrite outs_app).
  assert (forall l, acked 0 KCS_READ_BYTE (l ++ [In 0 v; Out 0 (u8 KCS_READ_BYTE)]) = acked 0 KCS_READ_BYTE l ++ [v]) as Ea
    by (intros l; by rewrite acked_app).
  destruct (Z.leb_spec MAX_KCS_READ_SIZE (read_pos k)) as [Hf|Hf]; cbn.
  - exists (outputb 0 KCS_READ_BYTE (io k ++ [In 0 v])), (read_data k), (read_pos k), true. split; [done|]. split; [done|].
    intros req (w & r & bytes & (h0 & E) & Ho & Hor & Har & Hpos & Htake & _).
    exists w, (r ++ [In 0 v; Out 0 (u8 KCS_READ_BYTE)]), (bytes ++ [v]). split; [|split; [done|]].
    + exists h0. cbn. unfold outputb. rewrite E. rewrite <- !app_assoc. cbn. by rewrite <- !app_assoc.
    + unfold received. cbn. rewrite Eo, Ea, Hor, Har, length_app, replicate_add. cbn. split_and!; try done.
      * rewrite Nat2Z.inj_add. lia.
      * rewrite take_app_le by lia. done.
  - rewrite write_at_Some by (cbn; lia). cbn.
    exists (outputb 0 KCS_READ_BYTE (io k ++ [In 0 v])), (<[Z.to_nat (read_pos k) := v]> (read_data k)), (read_pos k + 1), (truncated k).
    split; [done|]. split; [unfold arrays; cbn; rewrite length_insert; lia|].
    intros req (w & r & bytes & (h0 & E) & Ho & Hor & Har & Hpos & Htake & _).
    exists w, (r ++ [In 0 v; Out 0 (u8 KCS_READ_BYTE)]), (bytes ++ [v]). split; [|split; [done|]].
    + exists h0. cbn. unfold outputb. rewrite E. rewrite <- !app_assoc. cbn. by rewrite <- !app_assoc.
    + unfold received. cbn. rewrite Eo, Ea, Hor, Har, length_app, replicate_add. cbn. split_and!; try done; try lia.
      rewrite Z2Nat.inj_add, Nat.add_1_r by lia.
      rewrite take_write by lia. rewrite Htake.
      assert (length bytes = Z.to_nat (read_pos k)) as <- by lia.
      by rewrite !take_ge by (rewrite ?length_app; cbn; lia).
Qed.

(** What an event may return: a transaction ends with the whole answer or with
    a hosed machine, and nothing else happens while one is under way. *)
Definition result_ok (req : option (list Z)) (r : si_sm_result) (k : si_sm_data) : Prop :=
  match r with
  | SI_SM_TRANSACTION_COMPLETE =>
      kcs_inv None k /\ state k = KCS_IDLE /\ forall l, req = Some l -> answered l k
  | SI_SM_HOSED => kcs_inv None k /\ state k = KCS_IDLE
  | SI_SM_IDLE | SI_SM_ATTN => kcs_inv None k /\ req = None
  | SI_SM_CALL_WITHOUT_DELAY | SI_SM_CALL_WITH_DELAY | SI_SM_CALL_WITH_TICK_DELAY => kcs_inv req k
  end.

Definition case_ok (req : option (list Z)) (c : option (option si_sm_result * si_sm_data)) : Prop :=
  exists o k, c = Some (o, k) /\ match o with Some r => result_ok req r k | None => kcs_left req k end.

Lemma case_break req k : arrays k -> held req k -> case_ok req (Some (None, k)).
Proof. intros ??. exists None, k. split; [done|]. split; [done|by right]. Qed.

Lemma case_return req r k : result_ok req r k -> case_ok req (Some (Some r, k)).
Proof. intros ?. by exists (Some r), k. Qed.

Lemma case_recovery req jiffies k : arrays k -> held req k -> case_ok req (Some (None, start_error_recovery jiffies k)).
Proof. intros ??. eexists _, _. split; [reflexivity|]. by apply recovery_left. Qed.

Ltac clear_obf k :=
  let h := fresh "h" in let Hq := fresh "Hq" in let E := fresh "E" in
  match goal with |- context [clear_obf hw ?s k] =>
    destruct (clear_obf_quiet s k) as (h & Hq & E); rewrite !E; clear E end.

Lemma case_idle status time jiffies req k : arrays k -> held req k -> state k = KCS_IDLE ->
  case_ok req (kcs_case hw status time jiffies k).
Proof.
  intros Ha Hh Es. unfold kcs_case. rewrite Es. clear_obf k. cbv zeta. apply case_return.
  destruct req as [req|]; [destruct Hh as (_ & _ & _ & _ & Hp); unfold phase in Hp; by rewrite Es in Hp|].
  assert (kcs_inv None (set_io h k)) by (split; [done|]; split; [done|]; cbn; by rewrite Es).
  by case_test.
Qed.

Lemma case_start_op status time jiffies req k : arrays k -> held req k -> state k = KCS_START_OP ->
  case_ok req (kcs_case hw status time jiffies k).
Proof.
  intros Ha Hh Es. unfold kcs_case. rewrite Es. cbv zeta. case_test; [by apply case_recovery|]. clear_obf k.
  destruct req as [req|]; [|by destruct Hh as [_ Hh]; rewrite Es in Hh].
  apply case_break; [done|]. apply (held_fields req k); [done..|].
  destruct Hh as (_ & _ & _ & _ & Hp). unfold phase in *. rewrite Es in Hp. cbn. destruct Hp as [Hw Hp].
  split; [done|]. split; [done|]. exact (on_wire_start (set_io h k)).
Qed.

(** The next byte of the request, or the end command. *)
Definition next_out (st : kcs_states) (k : si_sm_data) : option (option si_sm_result * si_sm_data) :=
  if write_count k =? 1 then Some (None, set_state KCS_WAIT_WRITE_END (write_cmd KCS_WRITE_END k))
  else k ← write_next_byte k; Some (None, set_state st k).

Lemma next_out_ok req k : arrays k -> held (Some req) k -> written req k ->
  on_wire k (data_outs (take (Z.to_nat (write_pos k)) req)) -> case_ok (Some req) (next_out KCS_WAIT_WRITE k).
Proof.
  intros Ha Hh Hw Ho. unfold next_out. pose proof Hh as (_ & _ & Hb & Ht & _). destruct (Z.eqb_spec (write_count k) 1) as [E1|E1].
  - apply case_break; [done|]. apply (held_fields req k); [done..|]. split; [done|]. split; [done|].
    exact (on_wire_out 1 KCS_WRITE_END k _ Ho).
  - destruct Hw as (? & ? & ? & ?). destruct (write_next_byte_ok _ req k ltac:(lia) Ht Hb Ho) as (b & h & -> & El & Ho').
    apply case_break; [done|]. apply (held_fields req k); [done..|].
    unfold phase. cbn. unfold written. cbn. split; [lia|].
    rewrite Z2Nat.inj_add, Nat.add_1_r, (data_outs_S _ _ _ El) by lia. exact Ho'.
Qed.

Lemma case_wait_write_start status time jiffies req k : arrays k -> held req k -> state k = KCS_WAIT_WRITE_START ->
  case_ok req (kcs_case hw status time jiffies k).
Proof.
  intros Ha Hh Es. unfold kcs_case. rewrite Es. cbv zeta. case_test; [by apply case_recovery|].
  destruct req as [req|]; [|by destruct Hh as [_ Hh]; rewrite Es in Hh].
  set (k1 := (read_data_reg hw k).2).
  assert (H1 : held (Some req) k1) by (apply held_in, Hh).
  pose proof (held_some _ _ H1) as (_ & _ & _ & _ & Hp). unfold phase in Hp.
  rewrite (Es : state k1 = _) in Hp. destruct Hp as (Hw & Hz & Ho).
  apply (next_out_ok req k1); [done..|]. rewrite Hz. exact Ho.
Qed.

Lemma case_wait_write status time jiffies req k : arrays k -> held req k -> state k = KCS_WAIT_WRITE ->
  case_ok req (kcs_case hw status time jiffies k).
Proof.
  intros Ha Hh Es. unfold kcs_case. rewrite Es. cbv zeta. case_test; [by apply case_recovery|].
  destruct req as [req|]; [|by destruct Hh as [_ Hh]; rewrite Es in Hh].
  clear_obf k. set (k1 := set_io h k). assert (H1 : held (Some req) k1) by (by apply held_quiet).
  pose proof (held_some _ _ H1) as (_ & _ & _ & _ & Hp). unfold phase in Hp.
  rewrite (Es : state k1 = _) in Hp. destruct Hp as (Hw & Ho).
  pose proof (next_out_ok req k1 Ha H1 Hw Ho) as Hn. unfold next_out in Hn.
  destruct (write_count k1 =? 1); [done|].
  unfold write_next_byte in *. destruct (read_at _ _); [|done]. cbn in Hn |- *.
  unfold set_write in *. cbn in *. by rewrite Es.
Qed.

Lemma frame_last req b n : req !! n = Some b -> S n = length req ->
  data_outs (take n req) ++ [(1, KCS_WRITE_END)] ++ [(0, b)] = frame req.
Proof.
  intros E Hn. unfold frame. replace (length req - 1)%nat with n by lia. do 3 f_equal.
  rewrite <- (take_drop n req) at 1. rewrite (drop_S _ _ _ E), drop_ge by lia. by rewrite List.last_last.
Qed.

Lemma case_wait_write_end status time jiffies req k : arrays k -> held req k -> state k = KCS_WAIT_WRITE_END ->
  case_ok req (kcs_case hw status time jiffies k).
Proof.
  intros Ha Hh Es. unfold kcs_case. rewrite Es. cbv zeta. case_test; [by apply case_recovery|].
  destruct req as [req|]; [|by destruct Hh as [_ Hh]; rewrite Es in Hh].
  clear_obf k. set (k1 := set_io h k). assert (H1 : held (Some req) k1) by (by apply held_quiet).
  pose proof (held_some _ _ H1) as (_ & _ & Hb & Ht & Hp). unfold phase in Hp.
  rewrite (Es : state k1 = _) in Hp. destruct Hp as ((Hw1 & Hw2 & Hw3 & Hw4) & Hc & Ho).
  destruct (write_next_byte_ok _ req k1 ltac:(lia) Ht Hb Ho) as (b & h' & -> & El & Ho').
  apply case_break; [done|]. apply (held_fields req k1); [done..|].
  unfold phase. cbn. rewrite <- app_assoc, (frame_last _ _ _ El) in Ho' by lia.
  destruct Ho' as (r & [h0 Eh] & Hr). exists r, [], []. rewrite app_nil_r. split; [by exists h0|]. split; [done|].
  unfold received. cbn. rewrite (Hw4 : read_pos k = 0). unfold MAX_KCS_READ_SIZE, IPMI_MAX_MSG_LENGTH.
  split_and!; done || lia.
Qed.

Lemma held_read k2 req k : held req k -> match state k with KCS_WAIT_READ | KCS_ERROR0 => True | _ => False end ->
  state k2 = state k -> orig_write_count k2 = orig_write_count k -> write_data k2 = write_data k ->
  (forall l, answered l k -> answered l k2) -> held req k2.
Proof.
  intros Hh Hs Es Eo Ed Hr. destruct req as [req|].
  - apply (held_fields req k); [done..|]. destruct Hh as (_ & _ & _ & _ & Hp). unfold phase in *. rewrite Es.
    destruct (state k); try done. by apply Hr.
  - destruct Hh as [Ho Hm]. split; [congruence|]. by rewrite Es.
Qed.

Lemma case_wait_read status time jiffies req k : arrays k -> held req k -> state k = KCS_WAIT_READ ->
  case_ok req (kcs_case hw status time jiffies k).
Proof.
  intros Ha Hh Es. unfold kcs_case. rewrite Es. cbv zeta. case_test; [by apply case_recovery|]. case_test.
  - destruct (check_obf_ok status time jiffies req k Ha Hh) as (ok & k' & -> & Ha' & Hl & _ & Hst).
    destruct ok; cbn [negb].
    + destruct (read_next_byte_ok k' Ha') as (h & d & p & t & -> & Ha2 & Hr). cbn.
      eexists None, _. split; [reflexivity|]. split; [done|]. destruct Hl as [_ [Hl|Hl]]; [by left|].
      destruct Hst as [Hst|[_ [Hst|Hst]]]; [right|right|by left]; (apply (held_read _ req k'); [done| |done..|exact Hr]);
        by rewrite Hst, ?Es.
    + apply case_return. destruct Hst as [Hst|[? _]]; [|done]. split; [done|]. split; [|by rewrite Hst, Es].
      destruct Hl as [_ [Hl|Hl]]; [|done]. by rewrite Hst, Es in Hl.
  - clear_obf k. apply case_return. split; [done|]. split; [done|]. intros l ->.
    destruct Hh as (_ & _ & _ & _ & Hp). unfold phase in Hp. rewrite Es in Hp.
    exact (answered_quiet h l k Hq Hp).
Qed.

Lemma case_error0 status time jiffies req k : arrays k -> held req k -> state k = KCS_ERROR0 ->
  case_ok req (kcs_case hw status time jiffies k).
Proof.
  intros Ha Hh Es. unfold kcs_case. rewrite Es. cbv zeta. clear_obf k. set (k1 := set_io h k).
  assert (H1 : held req k1) by (by apply held_quiet). unfold read_status.
  destruct (inputb hw 1 (io k1)) as [v h1] eqn:E. cbn [fst snd]. case_test.
  - apply case_return. split; [done|]. split; [|cbn; by rewrite Es]. by apply (held_error req k1); [..|cbn; rewrite Es|].
  - apply case_break; [done|]. by apply (held_error req k1).
Qed.

Lemma case_error1 status time jiffies req k : arrays k -> held req k -> state k = KCS_ERROR1 ->
  case_ok req (kcs_case hw status time jiffies k).
Proof.
  intros Ha Hh Es. unfold kcs_case. rewrite Es. cbv zeta. clear_obf k.
  apply case_break; [done|]. by apply (held_error req k).
Qed.

Lemma case_error2 status time jiffies req k : arrays k -> held req k -> state k = KCS_ERROR2 ->
  case_ok req (kcs_case hw status time jiffies k).
Proof.
  intros Ha Hh Es. unfold kcs_case. rewrite Es. cbv zeta. case_test; [by apply case_recovery|].
  destruct (check_obf_ok status time jiffies req k Ha Hh) as (ok & k' & E' & Ha' & Hl & Ho & Hst). rewrite E'.
  destruct ok; cbn [negb].
  - clear_obf k'. apply case_break; [done|].
    apply (held_error req k); [done| |done|done]. unfold check_obf, start_error_recovery in E'. repeat case_test; by simplify_eq.
  - apply case_return. destruct Hst as [Hst|[? _]]; [|done]. split; [done|]. rewrite Hst, Es. split; [|done].
    destruct Hl as [_ [Hl|Hl]]; [|done]. by rewrite Hst, Es in Hl.
Qed.

Lemma restart_ok req k0 k : arrays k -> held (Some req) k0 ->
  orig_write_count k = orig_write_count k0 -> write_data k = write_data k0 ->
  case_ok (Some req) (Some (None, restart_kcs_transaction k)).
Proof.
  intros Ha Hh Eo Ed. apply case_break.
  - destruct Ha as (? & ? & ?). split; [done|]. split; [done|]. cbn. unfold MAX_KCS_READ_SIZE, IPMI_MAX_MSG_LENGTH. lia.
  - apply (held_fields req k0); [done..|]. destruct Hh as (Ho & Hs & _). unfold phase, written. cbn. rewrite Eo.
    split; [lia|]. split; [done|]. exact (on_wire_start k).
Qed.

Lemma case_error3 status time jiffies req k : arrays k -> held req k -> state k = KCS_ERROR3 ->
  case_ok req (kcs_case hw status time jiffies k).
Proof.
  intros Ha Hh Es. unfold kcs_case. rewrite Es. cbv zeta. case_test; [by apply case_recovery|].
  destruct (check_obf_ok status time jiffies req k Ha Hh) as (ok & k' & E' & Ha' & Hl & Ho & Hst). rewrite E'.
  assert (write_data k' = write_data k) as Ed
    by (unfold check_obf, start_error_recovery in E'; repeat case_test; by simplify_eq).
  destruct ok; cbn [negb].
  - clear_obf k'. cbn. rewrite Ho. destruct req as [req|].
    + pose proof Hh as (Ho' & Hs & _). destruct (Z.eqb_spec (orig_write_count k) 0); [lia|].
      by apply (restart_ok req k).
    + destruct Hh as [Ho' _]. rewrite Ho'. cbn. apply case_return.
      split; [|done]. split; [done|]. split; [|done]. split; [cbn; congruence|done].
  - apply case_return. destruct Hst as [Hst|[? _]]; [|done]. split; [done|]. rewrite Hst, Es. split; [|done].
    destruct Hl as [_ [Hl|Hl]]; [|done]. by rewrite Hst, Es in Hl.
Qed.

Lemma kcs_case_ok status time jiffies req k : kcs_left req k -> case_ok req (kcs_case hw status time jiffies k).
Proof.
  intros [Ha [Hs|Hh]].
  - unfold kcs_case. rewrite Hs. eexists None, k. split; [done|]. split; [done|by left].
  - destruct (state k) eqn:Es; [eauto using case_idle, case_start_op, case_wait_write_start, case_wait_write,
      case_wait_write_end, case_wait_read, case_error0, case_error1, case_error2, case_error3..|].
    unfold kcs_case. rewrite Es. eexists None, k. split; [done|]. split; [done|by left].
Qed.

Lemma kcs_init_inv k : arrays k -> kcs_inv None (init_kcs_data k).
Proof.
  intros (? & ? & ?). split; [|done]. split; [done|]. split; [done|]. cbn. unfold MAX_KCS_READ_SIZE, IPMI_MAX_MSG_LENGTH. lia.
Qed.

Lemma kcs_event_ok time jiffies req k : kcs_inv req k ->
  exists r k', kcs_event hw time jiffies k = Some (r, k') /\ result_ok req r k'.
Proof.
  intros Hk. unfold kcs_event, read_status. destruct (inputb hw 1 (io k)) as [v h] eqn:Ei. cbn [fst snd].
  assert (Hq : quiet (io k) h) by (right; exists 1, (u8 (hw (io k) 1)); unfold inputb in Ei; congruence).
  assert (H1 : kcs_inv req (set_io h k)) by (split; [apply Hk|]; split; [by apply held_quiet; [|apply Hk]|apply Hk]).
  destruct (check_ibf_ok v time jiffies req _ H1) as (ok & k1 & -> & Hl & Hi).
  destruct ok; cbn [negb]; [|eexists _, _; split; [reflexivity|by apply Hi]].
  destruct (kcs_case_ok v time jiffies req k1 Hl) as (o & k2 & -> & Ho). cbn.
  destruct o as [r|]; [by exists r, k2|]. destruct Ho as [Ha Ho]. destruct (state k2) eqn:Es.
  all: try (eexists _, _; split; [reflexivity|]; split; [done|]; destruct Ho as [Ho|Ho]; [by rewrite Ho in Es|]; split; [done|congruence]).
  eexists _, _. split; [reflexivity|]. by split; [apply kcs_init_inv|].
Qed.
End proofs.

(** ** Bytes received *)

(** The acknowledged bytes of a history. *)
Definition acks (h : history) : Z := Z.of_nat (length (acked 0 KCS_READ_BYTE h)).

Lemma acked_mono h a : (length (acked 0 KCS_READ_BYTE h) <= length (acked 0 KCS_READ_BYTE (h ++ [a])))%nat.
Proof.
  induction h as [|[p v|p v] h IH]; [cbn; lia| |exact IH]. cbn [app acked].
  destruct h as [|[q w|q w] h]; cbn [app] in *; [destruct a; [cbn; lia|case_test; cbn; lia]|exact IH|].
  case_test; cbn [length] in *; lia.
Qed.

Lemma acks_in p v h : acks (h ++ [In p v]) = acks h.
Proof. unfold acks. by rewrite acked_app, app_nil_r. Qed.

Lemma acks_out p b h : acks h <= acks (outputb p b h).
Proof. unfold acks, outputb. pose proof (acked_mono h (Out p (u8 b))). lia. Qed.

Lemma acks_read v h : acks (outputb 0 KCS_READ_BYTE (h ++ [In 0 v])) = acks h + 1.
Proof.
  unfold acks, outputb. rewrite <- app_assoc. cbn [app]. rewrite acked_app, length_app. cbn.
  change (u8 KCS_READ_BYTE =? KCS_READ_BYTE) with true. cbn. lia.
Qed.

Lemma acks_suffix h t : acks t <= acks (h ++ t).
Proof.
  unfold acks. induction h as [|a h IH]; [done|]. cbn [app].
  enough (length (acked 0 KCS_READ_BYTE (h ++ t)) <= length (acked 0 KCS_READ_BYTE (a :: h ++ t)))%nat by lia.
  cbn [acked]. destruct a; [|done]. destruct (h ++ t) as [|[]]; [done..|]. case_test; cbn [length]; lia.
Qed.

Arguments outputb : simpl never.
Arguments inputb : simpl never.

Section received.
Context (hw : hardware).

Lemma acks_inputb p h : acks (inputb hw p h).2 = acks h.
Proof. apply acks_in. Qed.


Lemma acks_read_byte h : acks (outputb 0 KCS_READ_BYTE (inputb hw 0 h).2) = acks h + 1.
Proof. apply acks_read. Qed.

(** What every case does to the history, to the first timeout and to the
    truncation flag. *)
Lemma case_io status time jiffies k o k' : kcs_case hw status time jiffies k = Some (o, k') ->
  acks (io k) <= acks (io k') /\ (ibf_timeout k' = ibf_timeout k \/ ibf_timeout k' = IBF_RETRY_TIMEOUT)
  /\ (truncated k' = truncated k
      \/ state k = KCS_WAIT_READ /\ MAX_KCS_READ_SIZE <= read_pos k /\ acks (io k) + 1 <= acks (io k')).
Proof.
  unfold kcs_case, check_obf, read_next_byte, write_next_byte, start_error_recovery, clear_obf, read_status, mbind, option_bind.
  destruct (state k); repeat case_match; intros; simplify_eq; (split; [cbn|split; [by auto|first [by left|right; cbn in *; unbool; (split; [done|split; [done|]])]]]).
  all: repeat first [rewrite acks_inputb | rewrite acks_read_byte|eapply Z.le_trans; [|apply acks_out]]; lia.
Qed.


(** A flag that an event sets means that too many bytes were read. *)
Lemma event_truncated time jiffies req k r k' : kcs_inv (Some req) k -> kcs_event hw time jiffies k = Some (r, k') ->
  acks (io k) <= acks (io k') /\ (truncated k' = true -> truncated k = true \/ MAX_KCS_READ_SIZE < acks (io k')).
Proof.
  intros (_ & Hh & _) Ev. unfold kcs_event, read_status in Ev. cbn [fst snd] in Ev.
  set (h := (inputb hw 1 (io k)).2) in Ev. assert (Hio : acks h = acks (io k)) by apply acks_inputb. clearbody h.
  set (k0 := set_io h k) in Ev. destruct (check_ibf _ time jiffies k0) as [ok k1] eqn:Ei.
  assert (io k1 = h /\ truncated k1 = truncated k /\ (state k1 = KCS_WAIT_READ -> state k = KCS_WAIT_READ) /\ read_pos k1 = read_pos k)
    as (Eio & Et & Es & Er) by (unfold check_ibf, start_error_recovery in Ei; repeat case_match; by simplify_eq).
  destruct ok; cbn [negb] in Ev; [|injection Ev as <- <-; rewrite Eio, Et; split; [lia|auto]].
  destruct (kcs_case _ _ _ _ _) as [[o k2]|] eqn:Ec; [|done]. cbn in Ev.
  assert (k' = k2 \/ k' = init_kcs_data k2) as Hk by (destruct o; [|destruct (state k2)]; simplify_eq; auto).
  destruct (case_io _ _ _ _ _ _ Ec) as (H1 & _ & H2). rewrite Eio in *.
  assert (io k' = io k2) as -> by (by destruct Hk as [->| ->]). split; [lia|]. intros Htr.
  assert (truncated k2 = true) as Htr2 by (by destruct Hk as [->| ->]).
  destruct H2 as [H2|(H2 & H3 & H4)]; [left; congruence|right].
  destruct Hh as (_ & _ & _ & _ & Hp). unfold phase in Hp. rewrite (Es H2) in Hp.
  destruct Hp as (w & rd & bytes & (h0 & Eh) & _ & _ & Ha & Hpos & _). pose proof (acks_suffix (h0 ++ Out 1 KCS_WRITE_START :: w) rd) as Hsuf.
  rewrite <- app_assoc in Hsuf. cbn in Hsuf. rewrite <- Eh in Hsuf. unfold acks in Hsuf at 1. rewrite Ha in Hsuf. lia.
Qed.

Lemma polls_inv pace req n c c' : result_ok (Some req) (last c) (machine c) -> polls pace hw n c c' ->
  result_ok (Some req) (last c') (machine c') /\ acks (io (machine c)) <= acks (io (machine c'))
  /\ (truncated (machine c') = true -> truncated (machine c) = true \/ MAX_KCS_READ_SIZE < acks (io (machine c'))).
Proof.
  intros Hc Hn. induction Hn as [c|n c c' r time jiffies k' Hn IH Hgo Hp Ev]; [split; [done|split; [lia|auto]]|].
  destruct (IH Hc) as (H1 & H2 & H3). assert (kcs_inv (Some req) (machine c')) as Hk by (by destruct (last c')).
  destruct (kcs_event_ok hw time jiffies _ _ Hk) as (r1 & k1 & Ev1 & Hr). change (kcs_event hw time jiffies (machine c') = Some (r, k')) in Ev. rewrite Ev in Ev1. injection Ev1 as <- <-.
  destruct (event_truncated _ _ _ _ _ _ Hk Ev) as [H4 H5]. cbn. split; [done|]. split; [lia|]. intros Ht.
  destruct (H5 Ht) as [Ht'|]; [|auto]. destruct (H3 Ht'); [auto|right; lia].
Qed.
End received.

(** ** The handlers *)

Lemma start_ok req data k : kcs_inv req k -> Forall byte data ->
  exists rv k', start_kcs_transaction data k = Some (rv, k')
    /\ (rv = 0 -> req = None /\ kcs_inv (Some data) k' /\ truncated k' = truncated k) /\ (rv <> 0 -> k' = k).
Proof.
  intros ((Hw & Hr & Hp) & Hh & Hn) Hb. unfold start_kcs_transaction. cbv zeta.
  destruct (Z.ltb_spec (Z.of_nat (length data)) 2); [by exists IPMI_REQ_LEN_INVALID_ERR, k|].
  destruct (Z.ltb_spec MAX_KCS_WRITE_SIZE (Z.of_nat (length data))); [by exists IPMI_REQ_LEN_EXCEEDED_ERR, k|].
  destruct (state k) eqn:Es; try by exists IPMI_NOT_IN_MY_STATE_ERR, k.
  rewrite memcpy_Some by lia. cbn. eexists _, _. split; [reflexivity|]. split; [|done]. intros _.
  assert (req = None) as ->.
  { destruct req; [|done]. destruct Hh as (_ & _ & _ & _ & Hph). unfold phase in Hph. by rewrite Es in Hph. }
  rewrite Nat2Z.id, take_ge by lia. split; [done|]. split; [|done]. split; [|split; [|done]].
  - unfold arrays, MAX_KCS_READ_SIZE, IPMI_MAX_MSG_LENGTH in *. cbn. rewrite length_app, length_drop. lia.
  - split; [done|]. split; [done|]. split; [done|]. cbn. split; [by rewrite take_app_length|].
    unfold phase, written. cbn. lia.
Qed.

Lemma start_state data k k' : start_kcs_transaction data k = Some (0, k') -> state k' = KCS_START_OP.
Proof.
  unfold start_kcs_transaction. cbv zeta. repeat case_test; [done..|].
  destruct (state k); try done; (destruct (memcpy _ _ _); cbn; [by intros [= <-]|done]).
Qed.

Lemma kcs_copies data len k :
  get_kcs_result data len k
  = r ← copy_result data (read_data k) (read_pos k) (truncated k) len;
    Some (r.1.1, r.1.2, set_read (read_data k) r.2 false k).
Proof.
  unfold get_kcs_result, copy_result, mbind, option_bind. destruct k as [st h wd wp wc ow rdata rp tr er it ot e0]. cbn.
  destruct (len <? rp); cbn; (destruct (memcpy data rdata _) as [d|]; cbn; [|done]); destruct (_ && _); cbn;
    try (destruct (write_at d 2 IPMI_ERR_UNSPECIFIED) as [d'|]; cbn; [|done]); try destruct tr; cbn; try done;
    by destruct (write_at _ 2 IPMI_ERR_MSG_TRUNCATED).
Qed.

Lemma get_result_ok bytes buf len k : arrays k -> 3 <= len <= Z.of_nat (length buf) ->
  read_pos k = Z.min (Z.of_nat (length bytes)) MAX_KCS_READ_SIZE ->
  take (Z.to_nat (read_pos k)) (read_data k) = take (Z.to_nat (read_pos k)) bytes ->
  exists p, get_kcs_result buf len k
      = Some ((response MAX_KCS_READ_SIZE bytes (truncated k) len buf).1, (response MAX_KCS_READ_SIZE bytes (truncated k) len buf).2,
          set_read (read_data k) p false k)
    /\ 0 <= p <= MAX_KCS_READ_SIZE.
Proof.
  intros (_ & Hr & Hp) Hl Hpos Htake. rewrite kcs_copies.
  destruct (copy_result_ok MAX_KCS_READ_SIZE bytes buf (read_data k) (read_pos k) (truncated k) len) as (p & E & Hp');
    [done..|unfold MAX_KCS_READ_SIZE, IPMI_MAX_MSG_LENGTH; lia|].
  rewrite E. by exists p.
Qed.

Lemma inv_result d p t k : kcs_inv None k -> 0 <= p <= MAX_KCS_READ_SIZE -> d = read_data k ->
  kcs_inv None (set_read d p t k).
Proof. intros ((? & ? & ?) & Hh & Hn) Hp ->. split; [done|]. by split. Qed.

Definition kcs_idle (k : si_sm_data) : Prop := kcs_inv None k /\ state k = KCS_IDLE.

Lemma case_at_rest hw status time jiffies k o k' : kcs_case hw status time jiffies k = Some (o, k') ->
  (state k' = KCS_IDLE -> state k = KCS_IDLE \/ o = Some SI_SM_TRANSACTION_COMPLETE) /\
  (o = Some SI_SM_IDLE \/ o = Some SI_SM_ATTN -> state k = KCS_IDLE /\ state k' = KCS_IDLE).
Proof.
  unfold kcs_case, check_obf, read_next_byte, write_next_byte, start_error_recovery, clear_obf, read_status, mbind, option_bind.
  destruct (state k) eqn:Es; intros H; (split; [intros Hs|]); revert H; repeat case_match;
    intros; simplify_eq; cbn in *; try congruence; try (by auto); match goal with H : _ \/ _ |- _ => by destruct H end.
Qed.

Lemma inv_at_rest req k : kcs_inv req k -> state k = KCS_IDLE -> kcs_idle k.
Proof.
  intros Hk Hs. split; [|done]. destruct req; [|done]. destruct Hk as (_ & (_ & _ & _ & _ & Hp) & _).
  unfold phase in Hp. by rewrite Hs in Hp.
Qed.

(** A machine is idle after an event only if it was, or if a transaction has
    ended. *)
Lemma event_at_rest hw time jiffies k r k' : kcs_event hw time jiffies k = Some (r, k') ->
  (state k' = KCS_IDLE -> goes_on r = true -> state k = KCS_IDLE) /\
  (r = SI_SM_IDLE \/ r = SI_SM_ATTN -> state k = KCS_IDLE /\ state k' = KCS_IDLE).
Proof.
  unfold kcs_event, read_status. cbn [fst snd]. set (k0 := set_io _ k). destruct (check_ibf _ _ _ k0) as [ok k1] eqn:Ei.
  assert (state k1 = KCS_IDLE -> state k = KCS_IDLE) as Hk
    by (unfold check_ibf, start_error_recovery in Ei; repeat case_match; by simplify_eq).
  destruct ok; cbn [negb]; [|intros [= <- <-]; split; [auto|intros []; done]].
  destruct (kcs_case _ _ _ _ k1) as [[o k2]|] eqn:Ec; [|done]. cbn. destruct (case_at_rest _ _ _ _ _ _ _ Ec) as [H1 H2].
  destruct o as [o|].
  - intros [= <- <-]. split; [|intros Hr; destruct H2; [destruct Hr; subst; auto|auto]].
    intros Hs Hg. destruct (H1 Hs) as [|[= ->]]; [auto|done].
  - destruct (state k2) eqn:Es; intros [= <- <-]; (split; [|intros []; done]); try done; cbn; try congruence.
    intros _ _. destruct (H1 eq_refl); [auto|done].
Qed.

#[export] Program Instance kcs_si_sm : SiSm si_sm_data := {
  sm_hardware _ := True;
  sm_fits := Forall byte;
  sm_size := MAX_KCS_WRITE_SIZE;
  sm_inv := kcs_inv;
  sm_idle := kcs_idle;
}.
Next Obligation. done. Qed.
Next Obligation. done. Qed.
Next Obligation. by intros d [? _]. Qed.
Next Obligation. intros req d [Ha _]. split; [by apply kcs_init_inv|done]. Qed.
Next Obligation.
  intros req data d Hd Hb. destruct (start_ok req data d Hd Hb) as (rv & k' & E & H1 & H2).
  exists rv, k'. split; [done|]. split; [|split; [done|]].
  - intros Hz. destruct (H1 Hz) as (-> & Hk & _). split; [done|]. intros [_ Hs]. destruct Hk as (_ & (_ & _ & _ & _ & Hp) & _). unfold phase in Hp. by rewrite Hs in Hp.
  - intros [_ Hi] Hl. unfold start_kcs_transaction in E. cbv zeta in E. rewrite Hi in E. repeat case_test; [lia|lia|].
    destruct (memcpy _ _ _); cbn in E; [|done]. congruence.
Qed.
Next Obligation.
  intros data data' d d' rv d'' E E'. apply start_state in E. cbn in E'. unfold start_kcs_transaction in E'. cbv zeta in E'.
  rewrite E in E'. repeat case_test; by simplify_eq.
Qed.
Next Obligation.
  intros hw time jiffies req d _ Hd. destruct (kcs_event_ok hw time jiffies req d Hd) as (r & k' & E & Hr).
  destruct (event_at_rest _ _ _ _ _ _ E) as [H1 H2].
  exists r, k'. split; [done|]. split; [by destruct r; try apply Hr|]. split; [|split].
  - intros [_ Hs] Hg. eapply inv_at_rest; [done|auto].
  - intros Hg. destruct r; try done; try (by destruct Hr as (? & ? & _)); (split; [apply Hr|apply H2; auto]).
  - intros Ho. eapply inv_at_rest; [done|by apply H2].
Qed.
Next Obligation.
  intros buf len d [Hd Hi] Hl. pose proof Hd as ((Hw & Hrd & Hp) & _).
  destruct (get_result_ok (take (Z.to_nat (read_pos d)) (read_data d)) buf len d) as (p & E & Hp'); [apply Hd|done|..].
  - rewrite length_take. lia.
  - by rewrite take_take, Nat.min_id.
  - eexists _, _, _. split; [exact E|]. destruct (response_range MAX_KCS_READ_SIZE (take (Z.to_nat (read_pos d)) (read_data d)) (truncated d) len buf Hl).
    split; [done|]. split; [done|]. split; [by apply inv_result|done].
Qed.

(** ** A transaction *)

(** C11: For every device, every request and whatever the caller reports of the time: while a
    transaction is under way, no event fails or leaves an array, and the machine
    is neither idle nor reports attention. When the transaction is complete, the
    device has been given exactly the request since the last start command (all
    bytes but the last as data, the end command, the last byte), every byte
    read since then was acknowledged, and [get_result] returns exactly these
    bytes, as far as 272 of them and the caller's buffer go; the completion code
    tells when bytes are missing, which, unless a flag was left over, is the case
    only when more bytes than that were read. When the device has failed too
    often, the machine is initialised and idle. *)
Theorem kcs_transaction_correct hw jiffies req k0 k1 n c :
  kcs_inv None k0 -> Forall byte req -> start_kcs_transaction req k0 = Some (0, k1) ->
  polls any_pace hw n (Caller SI_SM_CALL_WITHOUT_DELAY jiffies k1) c ->
  match last c with
  | SI_SM_TRANSACTION_COMPLETE =>
      exists w r bytes cut, since_start (io (machine c)) (w ++ r)
        /\ outs w = data_outs (removelast req) ++ [(1, KCS_WRITE_END); (0, List.last req 0)]
        /\ outs r = replicate (length bytes) (0, KCS_READ_BYTE) /\ acked 0 KCS_READ_BYTE r = bytes
        /\ (MAX_KCS_READ_SIZE < Z.of_nat (length bytes) -> cut = true)
        /\ (cut = true -> truncated k0 = true \/ MAX_KCS_READ_SIZE < acks (io (machine c)))
        /\ forall buf len, 3 <= len <= Z.of_nat (length buf) ->
           exists k2, get_kcs_result buf len (machine c)
             = Some ((response MAX_KCS_READ_SIZE bytes cut len buf).1, (response MAX_KCS_READ_SIZE bytes cut len buf).2, k2) /\ kcs_inv None k2
  | SI_SM_HOSED => kcs_inv None (machine c) /\ state (machine c) = KCS_IDLE
  | SI_SM_IDLE | SI_SM_ATTN => False
  | SI_SM_CALL_WITHOUT_DELAY | SI_SM_CALL_WITH_DELAY | SI_SM_CALL_WITH_TICK_DELAY =>
      forall time j, exists r k', kcs_event hw time j (machine c) = Some (r, k')
  end.
Proof.
  intros H0 Hb Es Hn. destruct (start_ok None req k0 H0 Hb) as (rv & k' & Es' & H1 & _). rewrite Es in Es'. injection Es' as <- <-.
  destruct (H1 eq_refl) as (_ & Hk1 & Ht1). destruct (polls_inv hw any_pace req n (Caller SI_SM_CALL_WITHOUT_DELAY jiffies k1) c Hk1 Hn) as (Hc & _ & Ht).
  cbn in Ht. rewrite Ht1 in Ht.
  destruct (last c); cbn in Hc; try by (intros time j; destruct (kcs_event_ok hw time j _ _ Hc) as (r & k' & E & _); eauto).
  - destruct Hc as (Hi & _ & Ha). destruct (Ha req eq_refl) as (w & r & bytes & Hs & Hw & Hor & Har & Hpos & Htake & Hcut).
    exists w, r, bytes, (truncated (machine c)). split; [done|]. split.
    { rewrite Hw. unfold frame. by rewrite removelast_firstn_len, Nat.sub_1_r. }
    do 4 (split; [done|]). intros buf len Hl.
    destruct (get_result_ok bytes buf len _ (proj1 Hi) Hl Hpos Htake) as (p & E & Hp). eexists. split; [exact E|]. by apply inv_result.
  - by destruct Hc.
  - done.
  - by destruct Hc.
Qed.

(** ** A device *)

(** It takes a request of two bytes and answers with three. *)
Definition example_bmc : hardware := fun h port =>
  let w := length (outs h) in
  if port =? 1 then
    if (w =? 0)%nat then 0 else if (w <? 4)%nat then 0x80 else if (w <? 7)%nat then 0x41 else 0
  else nth (w - 4) [0x1c; 0x01; 0x00] 0.

Definition example_kcs : si_sm_data :=
  init_kcs_data (Kcs KCS_HOSED [] (replicate 272 0) 0 0 0 (replicate 272 0) 0 false 0 0 0 0).
Definition example_request : list Z := [0x18; 0x01].
Definition example_started : si_sm_data :=
  match start_kcs_transaction example_request example_kcs with Some (_, k) => k | None => example_kcs end.
Definition example_begin : caller si_sm_data := Caller SI_SM_CALL_WITHOUT_DELAY 1000 example_started.
Definition example_end : caller si_sm_data :=
  Caller SI_SM_TRANSACTION_COMPLETE 1000 (machine (default example_begin (poll_run example_bmc (replicate 8 (0, 1000)) example_begin))).

Lemma example_inv : kcs_inv None example_kcs.
Proof. apply kcs_init_inv. unfold arrays. cbn. unfold MAX_KCS_READ_SIZE, MAX_KCS_WRITE_SIZE, IPMI_MAX_MSG_LENGTH. lia. Qed.

Lemma example_bytes : Forall byte example_request.
Proof. repeat constructor; unfold byte; lia. Qed.

Lemma example_polls : polls any_pace example_bmc 8 example_begin example_end.
Proof. apply (polls_any paced), (poll_run_polls example_bmc (replicate 8 (0, 1000))). vm_compute. reflexivity. Qed.

Example example_answer :
  fst <$> get_kcs_result (replicate 10 0) 10 (machine example_end) = Some (3, [0x1c; 0x01; 0x00; 0; 0; 0; 0; 0; 0; 0]).
Proof. vm_compute. reflexivity. Qed.

Lemma kcs_transaction_correct_witness :
  exists w r bytes cut, since_start (io (machine example_end)) (w ++ r)
    /\ outs w = [(0, 0x18); (1, KCS_WRITE_END); (0, 0x01)]
    /\ outs r = replicate (length bytes) (0, KCS_READ_BYTE) /\ acked 0 KCS_READ_BYTE r = bytes
    /\ (MAX_KCS_READ_SIZE < Z.of_nat (length bytes) -> cut = true)
    /\ (cut = true -> truncated example_kcs = true \/ MAX_KCS_READ_SIZE < acks (io (machine example_end)))
    /\ forall buf len, 3 <= len <= Z.of_nat (length buf) ->
       exists k2, get_kcs_result buf len (machine example_end)
         = Some ((response MAX_KCS_READ_SIZE bytes cut len buf).1, (response MAX_KCS_READ_SIZE bytes cut len buf).2, k2) /\ kcs_inv None k2.
Proof.
  refine (kcs_transaction_correct example_bmc 1000 example_request example_kcs example_started 8 example_end
    example_inv example_bytes _ example_polls).
  vm_compute. reflexivity.
Defined.
