(* ===== verification/KcsTime.v ===== *)
(** Timeouts of the KCS state machine: every transaction ends, unless the device
    goes on sending. *)

From S2P Require Import Prelude IpmiSm Kcs.
Local Open Scope Z_scope.

(** Machine states come in this order, and a step goes down; waiting for the last of
    them, the device may send [m] more bytes. *)
Definition rank (total : Z) (k : si_sm_data) : Z :=
  match state k with
  | KCS_ERROR0 => 600
  | KCS_ERROR1 => 599
  | KCS_ERROR2 => 598
  | KCS_ERROR3 => 597
  | KCS_START_OP => 500
  | KCS_WAIT_WRITE_START => 400
  | KCS_WAIT_WRITE => 100 + write_count k
  | KCS_WAIT_WRITE_END => 50
  | KCS_WAIT_READ | KCS_IDLE | KCS_HOSED => 0
  end + (total - acks (io k)).

Definition retries_left (k : si_sm_data) : Z := Z.max 0 (MAX_ERROR_RETRIES + 1 - error_retries k).

Definition max_retries (st : kcs_states) : Z :=
  match st with
  | KCS_ERROR0 | KCS_ERROR1 | KCS_ERROR2 => MAX_ERROR_RETRIES
  | KCS_ERROR3 => MAX_ERROR_RETRIES + 1
  | _ => MAX_ERROR_RETRIES + 2
  end.

Record timers (now : Z) (k : si_sm_data) : Prop := Timers {
  ti_retries : 0 <= error_retries k <= max_retries (state k);
  ti_ibf : 0 <= ibf_timeout k <= IBF_RETRY_TIMEOUT;
  ti_obf : - (error_retries k * MAX_TIME) <= obf_timeout k <= OBF_RETRY_TIMEOUT;
  ti_error0 : state k = KCS_ERROR0 -> 0 <= error0_timeout k <= now + ERROR0_OBF_WAIT_JIFFIES;
}.

Inductive progress (time jiffies : Z) (total : Z) (k : si_sm_data) : option si_sm_result -> si_sm_data -> Prop :=
| going k' :
    retries_left k' < retries_left k \/ retries_left k' <= retries_left k /\ rank total k' < rank total k ->
    progress time jiffies total k None k'
| delayed k' :
    state k' = state k -> error_retries k' = error_retries k -> rank total k' <= rank total k ->
    match state k with KCS_WAIT_READ | KCS_ERROR2 | KCS_ERROR3 => True | _ => False end ->
    obf_timeout k' = obf_timeout k - time -> 0 <= obf_timeout k' ->
    progress time jiffies total k (Some SI_SM_CALL_WITH_DELAY) k'
| ticking k' :
    state k' = state k -> error_retries k' = error_retries k -> rank total k' <= rank total k ->
    state k = KCS_ERROR0 -> error0_timeout k' = error0_timeout k -> jiffies < error0_timeout k ->
    progress time jiffies total k (Some SI_SM_CALL_WITH_TICK_DELAY) k'
| ended r k' : goes_on r = false -> progress time jiffies total k (Some r) k'
| hosed k' : state k' = KCS_HOSED -> progress time jiffies total k None k'.

Section p.
Context (hw : hardware).

Lemma acks_clear status k : acks (io (clear_obf hw status k)) = acks (io k).
Proof. unfold clear_obf. case_test; [apply acks_in|done]. Qed.

Lemma recovery_progress k0 total time jiffies k :
  0 <= error_retries k <= MAX_ERROR_RETRIES + 2 -> error_retries k0 = error_retries k ->
  progress time jiffies total k None (start_error_recovery jiffies k0).
Proof.
  intros He Ek. unfold start_error_recovery. rewrite Ek. unfold MAX_ERROR_RETRIES in *. rewrite wrap_small by lia. case_test.
  - by apply hosed.
  - apply going. left. unfold retries_left, MAX_ERROR_RETRIES. cbn. lia.
Qed.

Lemma going_down total time jiffies k k' : error_retries k' = error_retries k -> rank total k' < rank total k ->
  progress time jiffies total k None k'.
Proof. intros E H. apply going. right. unfold retries_left. rewrite E. lia. Qed.

Lemma clear_obf_fields status k : exists h, clear_obf hw status k = set_io h k /\ acks h = acks (io k).
Proof.
  unfold clear_obf. case_test; [|exists (io k); by rewrite set_io_same].
  eexists. split; [reflexivity|]. apply acks_in.
Qed.

Ltac clear_obf k :=
  let h := fresh "h" in let Hq := fresh "Hq" in let E := fresh "E" in
  match goal with |- context [clear_obf hw ?s k] =>
    destruct (clear_obf_fields s k) as (h & E & Hq); rewrite !E; clear E end.

(** The end of a case that writes to a port and goes to a lower state. *)
Ltac lower Es :=
  match goal with |- progress _ _ _ ?k _ _ =>
    apply going_down; [done|]; unfold rank; rewrite Es; cbn;
    repeat match goal with |- context [acks (outputb ?p ?b ?h)] =>
      lazymatch goal with _ : acks h <= acks (outputb p b h) |- _ => fail | _ => pose proof (acks_out p b h) end end end.

Lemma read_fields k k' : read_next_byte hw k = Some k' ->
  exists h d p t, k' = set_io h (set_read d p t k) /\ acks h = acks (io k) + 1.
Proof.
  unfold read_next_byte, read_data_reg. case_test.
  - intros [= <-]. eexists _, _, _, _. split; [reflexivity|]. apply acks_read.
  - destruct (write_at _ _ _) as [d|]; [|done]. intros [= <-]. eexists _, _, _, _. split; [reflexivity|]. apply acks_read.
Qed.

Lemma check_obf_cases status time jiffies k ok k' : 0 <= time <= MAX_TIME ->
  - ((MAX_ERROR_RETRIES + 2) * MAX_TIME) <= obf_timeout k <= OBF_RETRY_TIMEOUT ->
  check_obf status time jiffies k = (ok, k') ->
  ok = false /\ k' = set_timeouts (ibf_timeout k) (obf_timeout k - time) k /\ 0 <= obf_timeout k - time
  \/ ok = true /\ (k' = set_timeouts (ibf_timeout k) OBF_RETRY_TIMEOUT k
    \/ k' = start_error_recovery jiffies (set_timeouts (ibf_timeout k) (obf_timeout k - time) k)).
Proof.
  intros Ht Ho. unfold check_obf. rewrite sext_small by (unfold MAX_TIME, OBF_RETRY_TIMEOUT, MAX_ERROR_RETRIES in *; lia).
  repeat case_test; intros [= <- <-]; auto.
Qed.

Lemma recovery_fields jiffies k0 k : 0 <= error_retries k <= MAX_ERROR_RETRIES + 2 -> error_retries k0 = error_retries k ->
  exists st t, start_error_recovery jiffies k0 = set_state st (set_error (error_retries k + 1) t k0)
    /\ (error_retries k < MAX_ERROR_RETRIES /\ st = KCS_ERROR0 /\ t = u64 (jiffies + ERROR0_OBF_WAIT_JIFFIES) \/ MAX_ERROR_RETRIES <= error_retries k /\ st = KCS_HOSED).
Proof.
  intros He Ek. unfold start_error_recovery. rewrite Ek. unfold MAX_ERROR_RETRIES in *. rewrite wrap_small by lia.
  case_test; do 2 eexists; (split; [reflexivity|]); [right|left]; auto with lia.
Qed.

(** After a timeout the step is not delayed. *)
Lemma recovered_progress total time jiffies k k0 k' :
  0 <= error_retries k <= MAX_ERROR_RETRIES + 2 -> error_retries k0 = error_retries k ->
  error_retries k' = error_retries (start_error_recovery jiffies k0) ->
  state k' = state (start_error_recovery jiffies k0) \/ rank total k' < rank total k ->
  progress time jiffies total k None k'.
Proof.
  intros He E0 Ek Hs. destruct (recovery_fields jiffies k0 k He E0) as (st & t & E & Hst). rewrite E in *. cbn in *.
  destruct Hst as [(Hlt & -> & _)|[Hge ->]].
  - apply going. left. unfold retries_left. rewrite Ek. lia.
  - destruct Hs as [Hs|Hs]; [by apply hosed|]. apply going. right. split; [|done]. unfold retries_left. rewrite Ek. lia.
Qed.

(** One lemma for every state that looks at a timeout. *)
Section steps.
Context (total status time jiffies now : Z) (k : si_sm_data).
Context (He : 0 <= error_retries k <= MAX_ERROR_RETRIES + 2).
Context (Ho : - ((MAX_ERROR_RETRIES + 2) * MAX_TIME) <= obf_timeout k <= OBF_RETRY_TIMEOUT).
Context (Ht : 0 <= time <= MAX_TIME) (Hj : now <= jiffies < 2 ^ 62) (Hn : 0 <= now).

Lemma progress_wait_read o k' : state k = KCS_WAIT_READ ->
  kcs_case hw status time jiffies k = Some (o, k') -> progress time jiffies total k o k'.
Proof.
  intros Es. unfold kcs_case. rewrite Es. cbv zeta.
  case_test; [intros [= <- <-]; by apply recovery_progress|]. case_test; [|intros [= <- <-]; by apply ended].
  destruct (check_obf status time jiffies k) as [ok k1] eqn:Eo. apply check_obf_cases in Eo; [|done..].
  destruct Eo as [(-> & -> & Hpos)|[-> Hk1]]; cbn [negb].
  - intros [= <- <-]. apply delayed; [done..|by rewrite Es|done|done].
  - cbn. destruct (read_next_byte _ _) as [k2|] eqn:Er; [|done]. intros [= <- <-].
    apply read_fields in Er as (h & d & p & t & -> & Ha). destruct Hk1 as [->| ->].
    + apply going_down; [done|]. unfold rank. cbn in *. rewrite Es. lia.
    + eapply recovered_progress; [done|..]; [|reflexivity|by left]. done.
Qed.

Lemma progress_error0 o k' : state k = KCS_ERROR0 -> 0 <= error0_timeout k <= now + ERROR0_OBF_WAIT_JIFFIES ->
  kcs_case hw status time jiffies k = Some (o, k') -> progress time jiffies total k o k'.
Proof.
  intros Es T4. unfold kcs_case. rewrite Es. cbv zeta.
  clear_obf k. unfold read_status. destruct (inputb hw 1 _) as [v h1] eqn:Ei. cbn [fst snd].
  assert (acks h1 = acks h) as Hh by (rewrite <- (acks_inputb hw 1 h); cbn in Ei; by rewrite Ei).
  destruct (GET_STATUS_OBF v && time_before _ _) eqn:E; intros [= <- <-].
  - apply andb_prop in E as [_ E]. apply ticking; try done.
    + unfold rank. cbn. rewrite Es. lia.
    + unfold time_before in E. apply Z.ltb_lt in E. cbn in E.
      rewrite !(sext_small 64) in E; try done; unfold ERROR0_OBF_WAIT_JIFFIES, HZ in *; rewrite ?sext_small; lia.
  - lower Es. lia.
Qed.

Lemma progress_error2 o k' : state k = KCS_ERROR2 ->
  kcs_case hw status time jiffies k = Some (o, k') -> progress time jiffies total k o k'.
Proof.
  intros Es. unfold kcs_case. rewrite Es. cbv zeta. case_test; [intros [= <- <-]; by apply recovery_progress|].
  destruct (check_obf status time jiffies k) as [ok k1] eqn:Eo. apply check_obf_cases in Eo; [|done..].
  destruct Eo as [(-> & -> & Hpos)|[-> Hk1]]; cbn [negb].
  - intros [= <- <-]. apply delayed; [done..|by rewrite Es|done|done].
  - intros [= <- <-]. clear_obf k1. destruct Hk1 as [->| ->].
    + lower Es. cbn in Hq. lia.
    + eapply recovered_progress; [done| |reflexivity|]; [done|right]. unfold rank. cbn. rewrite Es.
      pose proof (acks_out 0 KCS_READ_BYTE h). rewrite (proj2 (recovery_state _ _)) in Hq. cbn in Hq. lia.
Qed.

Lemma progress_error3 o k' : state k = KCS_ERROR3 ->
  kcs_case hw status time jiffies k = Some (o, k') -> progress time jiffies total k o k'.
Proof.
  intros Es. unfold kcs_case. rewrite Es. cbv zeta. case_test; [intros [= <- <-]; by apply recovery_progress|].
  destruct (check_obf status time jiffies k) as [ok k1] eqn:Eo. apply check_obf_cases in Eo; [|done..].
  destruct Eo as [(-> & -> & Hpos)|[-> Hk1]]; cbn [negb].
  - intros [= <- <-]. apply delayed; [done..|by rewrite Es|done|done].
  - clear_obf k1. case_test; intros [= <- <-]; [|by apply ended]. pose proof (acks_out 1 KCS_WRITE_START h).
    destruct Hk1 as [->| ->].
    + apply going_down; [done|]. unfold rank. rewrite Es. cbn in *. lia.
    + eapply recovered_progress; [done| |reflexivity|]; [done|right]. unfold rank. cbn. rewrite Es.
      rewrite (proj2 (recovery_state _ _)) in Hq. cbn in *. lia.
Qed.
End steps.

Lemma case_progress total status time jiffies now k o k' :
  timers now k -> 0 <= time <= MAX_TIME -> now <= jiffies < 2 ^ 62 -> 0 <= now ->
  (state k = KCS_WAIT_WRITE_START -> 1 <= write_count k < 300) ->
  (state k = KCS_WAIT_WRITE -> 1 <= write_count k < 300) ->
  kcs_case hw status time jiffies k = Some (o, k') ->
  progress time jiffies total k o k'.
Proof.
  intros [T1 T2 T3 T4] Ht Hj Hn Hc0 Hc.
  assert (He : 0 <= error_retries k <= MAX_ERROR_RETRIES + 2) by (destruct (state k); cbn in T1; lia).
  assert (Ho : - ((MAX_ERROR_RETRIES + 2) * MAX_TIME) <= obf_timeout k <= OBF_RETRY_TIMEOUT)
    by (clear -He T3; unfold MAX_ERROR_RETRIES, MAX_TIME in *; lia).
  destruct (state k) eqn:Es; [| | | | |by apply progress_wait_read|by apply (progress_error0 _ _ _ _ now); auto| |by apply progress_error2|by apply progress_error3|].
  all: unfold kcs_case; rewrite Es; cbv zeta.
  - intros [= <- <-]. apply ended. by case_test.
  - case_test; intros [= <- <-]; [by apply recovery_progress|]. clear_obf k. lower Es. lia.
  - case_test; [intros [= <- <-]; by apply recovery_progress|]. specialize (Hc0 eq_refl). case_test.
    + intros [= <- <-]. lower Es. rewrite ?acks_inputb, ?acks_in in *. lia.
    + unfold write_next_byte. destruct (read_at _ _); intros [= <- <-]. lower Es. rewrite ?acks_inputb, ?acks_in in *. lia.
  - case_test; [intros [= <- <-]; by apply recovery_progress|]. specialize (Hc eq_refl). case_test.
    + intros [= <- <-]. clear_obf k. lower Es. lia.
    + clear_obf k. unfold write_next_byte. destruct (read_at _ _); intros [= <- <-]. lower Es. rewrite Es. lia.
  - case_test; [intros [= <- <-]; by apply recovery_progress|]. clear_obf k. unfold write_next_byte.
    destruct (read_at _ _); intros [= <- <-]. lower Es. lia.
  - intros [= <- <-]. clear_obf k. lower Es. lia.
  - intros [= <- <-]. by apply hosed.
Qed.

Lemma timers_recovery jiffies k0 k : 0 <= error_retries k <= MAX_ERROR_RETRIES + 2 -> error_retries k0 = error_retries k ->
  0 <= ibf_timeout k0 <= IBF_RETRY_TIMEOUT -> - ((error_retries k + 1) * MAX_TIME) <= obf_timeout k0 <= OBF_RETRY_TIMEOUT ->
  0 <= jiffies < 2 ^ 62 ->
  let k' := start_error_recovery jiffies k0 in
  0 <= error_retries k' <= error_retries k + 1 /\ 0 <= ibf_timeout k' <= IBF_RETRY_TIMEOUT
  /\ - (error_retries k' * MAX_TIME) <= obf_timeout k' <= OBF_RETRY_TIMEOUT
  /\ (state k' <> KCS_HOSED -> timers jiffies k').
Proof.
  intros He Ek Hi Ho Hj. unfold start_error_recovery. rewrite Ek. unfold MAX_ERROR_RETRIES in *. rewrite wrap_small by lia.
  case_test; cbn; (split; [lia|]); (split; [done|]); (split; [lia|]); intros Hs; try done.
  split; cbn; try done; [unfold MAX_ERROR_RETRIES; lia|]. intros _. rewrite wrap_small; unfold ERROR0_OBF_WAIT_JIFFIES, HZ; lia.
Qed.

Lemma check_obf_timers status time jiffies now k ok k' : timers now k -> 0 <= time <= MAX_TIME ->
  error_retries k <= MAX_ERROR_RETRIES + 2 -> 0 <= jiffies < 2 ^ 62 -> state k <> KCS_ERROR0 ->
  check_obf status time jiffies k = (ok, k') ->
  0 <= error_retries k' <= error_retries k + 1 /\ 0 <= ibf_timeout k' <= IBF_RETRY_TIMEOUT
  /\ - (error_retries k' * MAX_TIME) <= obf_timeout k' <= OBF_RETRY_TIMEOUT
  /\ (state k' <> KCS_HOSED -> timers jiffies k').
Proof.
  intros [T1 T2 T3 T4] Ht He Hj Hs Hc.
  apply check_obf_cases in Hc; [|done|unfold MAX_ERROR_RETRIES, MAX_TIME, OBF_RETRY_TIMEOUT in *; lia].
  assert (forall o, - (error_retries k * MAX_TIME) <= o <= OBF_RETRY_TIMEOUT ->
    timers jiffies (set_timeouts (ibf_timeout k) o k)) as Hset by (intros o ?; by split).
  destruct Hc as [(-> & -> & Hpos)|[-> [->| ->]]].
  - assert (- (error_retries k * MAX_TIME) <= obf_timeout k - time <= OBF_RETRY_TIMEOUT) by (unfold MAX_TIME, OBF_RETRY_TIMEOUT in *; lia).
    cbn. split; [lia|]. auto.
  - assert (- (error_retries k * MAX_TIME) <= OBF_RETRY_TIMEOUT <= OBF_RETRY_TIMEOUT) by (unfold MAX_TIME, OBF_RETRY_TIMEOUT in *; lia).
    cbn. split; [lia|]. auto.
  - refine (timers_recovery jiffies (set_timeouts (ibf_timeout k) (obf_timeout k - time) k) k _ eq_refl T2 _ Hj); cbn; [lia|].
    unfold MAX_ERROR_RETRIES, MAX_TIME, OBF_RETRY_TIMEOUT in *. lia.
Qed.

(** A case that leaves the counters alone. *)
Lemma timers_kept now jiffies k k' : timers now k -> now <= jiffies ->
  error_retries k' = error_retries k -> ibf_timeout k' = ibf_timeout k -> obf_timeout k' = obf_timeout k ->
  error0_timeout k' = error0_timeout k -> max_retries (state k) <= max_retries (state k') ->
  (state k' = KCS_ERROR0 -> state k = KCS_ERROR0) -> timers jiffies k'.
Proof.
  intros [T1 T2 T3 T4] Hj Er Ei Eo E0 Hm Hs. split; rewrite ?Er, ?Ei, ?Eo, ?E0; [lia|done|done|].
  intros H. specialize (T4 (Hs H)). lia.
Qed.

Ltac kept now k Es := apply (timers_kept now _ k); cbn; rewrite ?Es; (done || cbn; lia || auto with lia).

Lemma case_timers status time jiffies now k o k' :
  timers now k -> 0 <= time <= MAX_TIME -> now <= jiffies < 2 ^ 62 -> 0 <= now ->
  kcs_case hw status time jiffies k = Some (o, k') -> state k' <> KCS_HOSED -> timers jiffies k'.
Proof.
  intros HT Ht Hj Hn. pose proof HT as [T1 T2 T3 T4].
  assert (He : 0 <= error_retries k <= MAX_ERROR_RETRIES + 2) by (destruct (state k); cbn in T1; lia).
  assert (Hrec : forall k', start_error_recovery jiffies k = k' -> state k' <> KCS_HOSED -> timers jiffies k').
  { intros k1 <-. refine (proj2 (proj2 (proj2 (timers_recovery jiffies k k He eq_refl T2 _ _)))); [|lia].
    unfold MAX_TIME, OBF_RETRY_TIMEOUT in *. lia. }
  pose proof (fun ok k1 => check_obf_timers status time jiffies now k ok k1 HT Ht ltac:(lia) ltac:(lia)) as Hobf.
  unfold kcs_case. destruct (state k) eqn:Es; cbv zeta; cbn [max_retries] in *.
  - clear_obf k. intros [= <- <-] _. kept now k Es.
  - case_test; intros [= <- <-]; [by apply Hrec|]. clear_obf k. intros _. kept now k Es.
  - case_test; [intros [= <- <-]; by apply Hrec|]. case_test.
    + intros [= <- <-] _. kept now k Es.
    + unfold write_next_byte. destruct (read_at _ _); intros [= <- <-] _. kept now k Es.
  - case_test; [intros [= <- <-]; by apply Hrec|]. clear_obf k. case_test.
    + intros [= <- <-] _. kept now k Es.
    + unfold write_next_byte. destruct (read_at _ _); intros [= <- <-] _. kept now k Es.
  - case_test; [intros [= <- <-]; by apply Hrec|]. clear_obf k. unfold write_next_byte.
    destruct (read_at _ _); intros [= <- <-] _. kept now k Es.
  - case_test; [intros [= <- <-]; by apply Hrec|]. case_test;
      [|clear_obf k; intros [= <- <-] _; kept now k Es].
    destruct (check_obf status time jiffies k) as [ok k1] eqn:Eo. destruct (Hobf ok k1 ltac:(done) eq_refl) as (_ & _ & _ & H4).
    destruct ok; cbn [negb].
    + cbn. destruct (read_next_byte _ _) as [k2|] eqn:Er; [|done]. intros [= <- <-].
      apply read_fields in Er as (h & d & p & t & -> & _). cbn. intros Hs. kept jiffies k1 Es.
    + intros [= <- <-]. done.
  - clear_obf k. unfold read_status. case_test; intros [= <- <-] _; kept now k Es.
  - intros [= <- <-] _. clear_obf k. kept now k Es.
  - case_test; [intros [= <- <-]; by apply Hrec|].
    destruct (check_obf status time jiffies k) as [ok k1] eqn:Eo. destruct (Hobf ok k1 ltac:(done) eq_refl) as (H1 & H2 & H3 & H4).
    destruct ok; cbn [negb]; [clear_obf k1|]; intros [= <- <-]; [|done]. intros _. split; [|done..]. cbn. lia.
  - case_test; [intros [= <- <-]; by apply Hrec|].
    destruct (check_obf status time jiffies k) as [ok k1] eqn:Eo. destruct (Hobf ok k1 ltac:(done) eq_refl) as (H1 & H2 & H3 & H4).
    destruct ok; cbn [negb]; [clear_obf k1|intros [= <- <-]; done].
    case_test; intros [= <- <-] _; (split; cbn; [lia|done || lia| |done]).
    + unfold MAX_TIME, OBF_RETRY_TIMEOUT. lia.
    + done.
  - intros [= <- <-]. by rewrite Es.
Qed.

(** ** The measure *)

Definition wait (now : Z) (k : si_sm_data) : Z :=
  match state k with
  | KCS_ERROR0 => Z.max 0 (error0_timeout k - now)
  | KCS_ERROR2 | KCS_ERROR3 | KCS_WAIT_READ => Z.max 0 (obf_timeout k + 1)
  | _ => 0
  end.

Definition stage (total : Z) (k : si_sm_data) : Z := retries_left k * (total + 601) + rank total k.
Definition pause (c : caller si_sm_data) : Z :=
  2 * wait (now c) (machine c) + match last c with SI_SM_CALL_WITH_TICK_DELAY => 0 | _ => 1 end.
Definition slack (c : caller si_sm_data) : Z :=
  ibf_timeout (machine c) + match last c with SI_SM_CALL_WITHOUT_DELAY => 1 | _ => 0 end.

Definition measure (total : Z) (c : caller si_sm_data) : Z :=
  (stage total (machine c) * 2000004 + pause c) * 1000002 + slack c.

(** Enough events for a transaction in which at most [total] bytes were read:
    eleven attempts, in each of them a step for every stage, and for every stage
    both timeouts. *)
Definition kcs_bound (total : Z) : Z := 12 * (total + 601) * 2000004 * 1000002.

Record waiting (c : caller si_sm_data) : Prop := Waiting {
  wa_now : 0 <= now c;
  wa_timers : timers (now c) (machine c);
  wa_ibf : last c = SI_SM_CALL_WITHOUT_DELAY -> ibf_timeout (machine c) = IBF_RETRY_TIMEOUT;
  wa_tick : last c = SI_SM_CALL_WITH_TICK_DELAY ->
    state (machine c) = KCS_ERROR0 /\ now c < error0_timeout (machine c);
}.

Lemma pause_range c : waiting c -> 0 <= pause c < 2000004.
Proof.
  intros [Hn [_ _ To T0] _ _]. unfold pause, wait.
  assert (0 <= match last c with SI_SM_CALL_WITH_TICK_DELAY => 0 | _ => 1 end <= 1) by (destruct (last c); lia).
  unfold OBF_RETRY_TIMEOUT, ERROR0_OBF_WAIT_JIFFIES, HZ in *. destruct (state (machine c)); try lia. specialize (T0 eq_refl). lia.
Qed.

Lemma slack_range c : waiting c -> 0 <= slack c < 1000002.
Proof.
  intros [Hn [_ Ti _ _] _ _]. unfold slack. unfold IBF_RETRY_TIMEOUT in *. destruct (last c); lia.
Qed.

Lemma measure_lower total c c' : waiting c -> waiting c' ->
  stage total (machine c') < stage total (machine c)
  \/ stage total (machine c') <= stage total (machine c)
    /\ (pause c' < pause c \/ pause c' <= pause c /\ slack c' < slack c) ->
  measure total c' < measure total c.
Proof.
  intros Hc Hc' H. pose proof (pause_range _ Hc). pose proof (pause_range _ Hc'). pose proof (slack_range _ Hc).
  pose proof (slack_range _ Hc'). unfold measure. lia.
Qed.

Lemma rank_range total k : 0 <= acks (io k) <= total -> (state k = KCS_WAIT_WRITE -> 1 <= write_count k < 300) ->
  0 <= rank total k < total + 601.
Proof. intros Ha Hw. unfold rank. destruct (state k); try specialize (Hw eq_refl); lia. Qed.

(** The count of a request on its way is small. *)
Definition small_count (k : si_sm_data) : Prop :=
  (state k = KCS_WAIT_WRITE_START -> 1 <= write_count k < 300) /\ (state k = KCS_WAIT_WRITE -> 1 <= write_count k < 300).

Lemma inv_small_count req k : kcs_inv req k -> small_count k.
Proof.
  intros (_ & Hh & _). destruct req as [req|].
  - destruct Hh as (Ho & Hs & _ & _ & Hp). unfold phase, written, MAX_KCS_WRITE_SIZE, IPMI_MAX_MSG_LENGTH in *.
    split; intros E; rewrite E in Hp; lia.
  - destruct Hh as [_ Hm]. split; intros E; by rewrite E in Hm.
Qed.

(** A case entered with a full first timeout, as the result of the event tells. *)
Lemma case_measure total status time jiffies c k o k' r :
  waiting c -> goes_on (last c) = true -> paced (last c) (now c) time jiffies -> small_count k -> small_count k' -> acks (io k') <= total ->
  timers jiffies k -> ibf_timeout k = IBF_RETRY_TIMEOUT ->
  kcs_case hw status time jiffies k = Some (o, k') -> default SI_SM_CALL_WITHOUT_DELAY o = r ->
  goes_on r = true -> state k' <> KCS_HOSED ->
  stage total k < stage total (machine c)
  \/ stage total k <= stage total (machine c) /\ state k = state (machine c) /\ obf_timeout k = obf_timeout (machine c)
    /\ error0_timeout k = error0_timeout (machine c) ->
  waiting (Caller r jiffies k') /\ measure total (Caller r jiffies k') < measure total c.
Proof.
  intros Hc Hgl Hp [Hs1 Hs2] Hs' Ha Ht Hi Hk Hr Hgo Hh Hst. pose proof Hp as (Ht0 & Hj0 & Hd & Htick).
  pose proof (wa_now c Hc). destruct (case_io hw _ _ _ _ _ _ Hk) as (Hio & Hib & _).
  assert (Hj : jiffies <= jiffies < 2 ^ 62) by lia. assert (Hn : 0 <= jiffies) by lia.
  pose proof (case_timers _ _ _ jiffies _ _ _ Ht Ht0 Hj Hn Hk Hh) as Ht'.
  pose proof (case_progress total _ _ _ jiffies _ _ _ Ht Ht0 Hj Hn Hs1 Hs2 Hk) as Hg.
  assert (Hr1 : 0 <= acks (io k) <= total) by (unfold acks in *; lia).
  pose proof (rank_range total k Hr1 Hs2) as R1. pose proof (rank_range total k' ltac:(lia) (proj2 Hs')) as R2.
  assert (Hw : waiting (Caller r jiffies k')).
  { split; cbn; [lia|done|by destruct Hib; congruence|]. intros ->. inversion Hg; subst; cbn in *; subst; try done. split; congruence. }
  split; [done|]. apply measure_lower; [done..|]. cbn [machine].
  inversion Hg as [? Hl|? E1 E2 E3 E4 E5 E6|? E1 E2 E3 E4 E5 E6|? ? E1|? E1]; subst.
  - left. unfold stage in *. nia.
  - assert (stage total k' <= stage total k) as Hle by (unfold stage, retries_left; rewrite E2; lia).
    destruct Hst as [Hst|(Hst & Es & Eo & _)]; [left; lia|right]. split; [lia|].
    assert (last c <> SI_SM_CALL_WITH_TICK_DELAY) as Hnt by (intros HT; destruct (wa_tick c Hc HT); rewrite Es in E4; by destruct (state (machine c))).
    unfold pause, slack, wait. cbn. rewrite E1, Es in *. rewrite <- Eo.
    destruct (last c) eqn:El; try done; [right|left].
    + rewrite (wa_ibf c Hc El). destruct Hib; destruct (state (machine c)); try done; lia.
    + specialize (Hd eq_refl). destruct (state (machine c)); try done; lia.
  - assert (stage total k' <= stage total k) as Hle by (unfold stage, retries_left; rewrite E2; lia).
    destruct Hst as [Hst|(Hst & Es & _ & Ee)]; [left; lia|right]. split; [lia|]. left.
    unfold pause, wait. cbn. rewrite <- Es, E1, E4, E5, <- Ee.
    destruct (last c) eqn:El; try lia. destruct (Htick eq_refl). lia.
  - cbn in Hgo. congruence.
  - done.
Qed.

(** The part of [kcs_event] after the first timeout. *)
Lemma event_case status time jiffies k r k' :
  (r ← kcs_case hw status time jiffies k;
   match r.1 with
   | Some res => Some (res, r.2)
   | None => match state r.2 with KCS_HOSED => Some (SI_SM_HOSED, init_kcs_data r.2) | _ => Some (SI_SM_CALL_WITHOUT_DELAY, r.2) end
   end) = Some (r, k') -> goes_on r = true ->
  exists o, kcs_case hw status time jiffies k = Some (o, k') /\ default SI_SM_CALL_WITHOUT_DELAY o = r.
Proof.
  intros E Hr. destruct (kcs_case hw status time jiffies k) as [[[res|] k1]|]; cbn in E; [| |done].
  - injection E as <- <-. by exists (Some res).
  - exists None. destruct (state k1); by simplify_eq.
Qed.

Lemma event_measure total time jiffies req c r k' :
  waiting c -> goes_on (last c) = true -> paced (last c) (now c) time jiffies -> kcs_inv (Some req) (machine c) ->
  kcs_event hw time jiffies (machine c) = Some (r, k') -> goes_on r = true -> acks (io k') <= total ->
  waiting (Caller r jiffies k') /\ measure total (Caller r jiffies k') < measure total c.
Proof.
  intros Hc Hgl Hp Hk Ev Hgo Ha.
  destruct (kcs_event_ok hw time jiffies (Some req) _ Hk) as (r' & k'' & Ev' & Hres). rewrite Ev in Ev'. injection Ev' as <- <-.
  assert (Hk' : kcs_inv (Some req) k') by (by destruct r). clear Hres.
  pose proof Hc as [Hn [T1 T2 T3 T4] W1 W2]. pose proof Hp as (Ht & Hj & Hd & Htick).
  assert (Hnh : state k' <> KCS_HOSED) by apply Hk'.
  pose proof (inv_small_count _ _ Hk) as Hs. pose proof (inv_small_count _ _ Hk') as Hs'.
  unfold kcs_event, read_status in Ev. set (h := (inputb hw 1 (io (machine c))).2) in Ev. cbn [fst snd] in Ev.
  assert (Hh : acks h = acks (io (machine c))) by apply acks_inputb. clearbody h.
  set (k0 := set_io h (machine c)) in Ev. unfold check_ibf in Ev. destruct (GET_STATUS_IBF _).
  - change (ibf_timeout k0) with (ibf_timeout (machine c)) in Ev. change (obf_timeout k0) with (obf_timeout (machine c)) in Ev.
    rewrite sext_small in Ev by (unfold IBF_RETRY_TIMEOUT, MAX_TIME in *; lia).
    set (k1 := set_timeouts (_ - _) _ k0) in Ev. cbn [ibf_timeout k1 set_timeouts] in Ev. case_test; cbn [negb] in Ev.
    + assert (He : 0 <= error_retries (machine c) <= MAX_ERROR_RETRIES + 2) by (destruct (state (machine c)); cbn in T1; lia).
      destruct (recovery_fields jiffies k1 (machine c) He eq_refl) as (st & t & E1 & Hst). rewrite E1 in Ev.
      apply event_case in Ev as (o & Ec & Eo); [|done].
      destruct Hst as [(Hlt & -> & ->)|[_ ->]]; [|cbn in Ec; injection Ec as <- <-; done].
      pose proof (proj1 (case_io _ _ _ _ _ _ _ Ec)) as Hio. cbn in Hio.
      assert (Hr0 : 0 <= acks (io (machine c)) <= total) by (unfold acks in *; lia).
      pose proof (rank_range total (machine c) Hr0 (proj2 Hs)) as R0.
      apply (case_measure total _ time jiffies c _ o k' r Hc Hgl Hp) in Ec; try done.
      * split; cbn; unfold IBF_RETRY_TIMEOUT, MAX_TIME in *; try lia.
        intros _. unfold ERROR0_OBF_WAIT_JIFFIES, HZ. rewrite wrap_small; lia.
      * left. unfold stage. set (X := rank total (machine c)) in *. unfold retries_left, rank, MAX_ERROR_RETRIES in *. cbn. nia.
    + injection Ev as <- <-.
      assert (Hw : waiting (Caller SI_SM_CALL_WITH_DELAY jiffies k1)).
      { split; cbn; [lia| |done|done]. split; cbn; try done; [unfold MAX_TIME in *; lia|]. intros E4. specialize (T4 E4). lia. }
      split; [done|]. apply measure_lower; [done..|right]. split; [unfold stage, retries_left, rank; cbn; lia|].
      unfold pause, slack, wait. cbn. destruct (last c) eqn:El; try done; [right|right|left].
      * rewrite (W1 eq_refl). destruct (state (machine c)); lia.
      * specialize (Hd eq_refl). destruct (state (machine c)); lia.
      * destruct (W2 eq_refl) as [-> ?], (Htick eq_refl). lia.
  - cbn [negb] in Ev. apply event_case in Ev as (o & Ec & Eo); [|done].
    apply (case_measure total _ time jiffies c _ o k' r Hc Hgl Hp) in Ec; try done.
    + split; cbn; unfold IBF_RETRY_TIMEOUT; try done; try lia. intros E. specialize (T4 E). lia.
    + right. split; [|done]. unfold stage, retries_left, rank. cbn. lia.
Qed.
End p.

Lemma start_fields req k0 k1 : start_kcs_transaction req k0 = Some (0, k1) ->
  state k1 = KCS_START_OP /\ error_retries k1 = 0 /\ ibf_timeout k1 = IBF_RETRY_TIMEOUT /\ obf_timeout k1 = OBF_RETRY_TIMEOUT.
Proof.
  unfold start_kcs_transaction, mbind, option_bind. cbv zeta. intros H. repeat case_match; try done; by injection H as <-.
Qed.

Lemma start_waiting now req k0 k1 : 0 <= now -> start_kcs_transaction req k0 = Some (0, k1) ->
  waiting (Caller SI_SM_CALL_WITHOUT_DELAY now k1).
Proof.
  intros Hn (Es & Ee & Ei & Eo)%start_fields. split; cbn; [done| |done|done]. unfold OBF_RETRY_TIMEOUT, IBF_RETRY_TIMEOUT in *.
  split; rewrite ?Ee, ?Ei, ?Eo, ?Es; unfold OBF_RETRY_TIMEOUT, IBF_RETRY_TIMEOUT; cbn; unfold MAX_ERROR_RETRIES; done || lia.
Qed.

Lemma measure_bound total c : waiting c -> state (machine c) = KCS_START_OP -> error_retries (machine c) = 0 ->
  0 <= acks (io (machine c)) <= total -> measure total c < kcs_bound total.
Proof.
  intros Hc Hs He Ha. pose proof (pause_range c Hc). pose proof (slack_range c Hc).
  unfold measure, kcs_bound, stage, retries_left, rank, MAX_ERROR_RETRIES. rewrite Hs, He. lia.
Qed.

Lemma measure_nonneg total c : waiting c -> small_count (machine c) -> 0 <= acks (io (machine c)) <= total -> 0 <= measure total c.
Proof.
  intros Hw [_ Hs] Ha. pose proof (pause_range c Hw). pose proof (slack_range c Hw). pose proof (rank_range total _ Ha Hs).
  unfold measure, stage, retries_left. nia.
Qed.

Lemma polls_measure hw total req n c c' : waiting c -> result_ok (Some req) (last c) (machine c) -> polls paced hw n c c' ->
  goes_on (last c') = true -> acks (io (machine c')) <= total ->
  waiting c' /\ kcs_inv (Some req) (machine c') /\ measure total c' + Z.of_nat n <= measure total c.
Proof.
  intros Hw Hc Hn. induction Hn as [c|n c c' r time jiffies k' Hn IH Hgl Hp Ev]; intros Hgo Ha.
  - split; [done|]. split; [by destruct (last c)|lia].
  - destruct (polls_inv hw paced req n c c' Hc Hn) as [Hc' _]. assert (Hk : kcs_inv (Some req) (machine c')) by (by destruct (last c')).
    destruct (event_truncated hw _ _ _ _ _ _ Hk Ev) as [Hle _].
    destruct (IH Hw Hc Hgl) as (Hw' & _ & Hm); [cbn in Ha; lia|].
    destruct (event_measure hw total time jiffies req c' r k' Hw' Hgl Hp Hk Ev Hgo Ha) as [Hw2 Hm2].
    split; [done|]. split; [|lia]. destruct (kcs_event_ok hw time jiffies _ _ Hk) as (r1 & k1 & Ev1 & Hr).
    change (kcs_event hw time jiffies (machine c') = Some (r, k')) in Ev. rewrite Ev in Ev1. injection Ev1 as <- <-. by destruct r.
Qed.

(** C36: For every device, a transaction ends if its caller lets time pass where it
    is told to: it reports more than no time after [SI_SM_CALL_WITH_DELAY], also
    lets its clock go on after [SI_SM_CALL_WITH_TICK_DELAY], and reports no more
    than [MAX_TIME] at once ([paced]). As long as the device has sent at most
    [total] bytes that were acknowledged, the number of events that ask for
    another one stays below a bound that depends on [total] alone, so that only
    a device that sends without end keeps the machine going. A caller that
    always reports no time, as the thread of the interface does between two
    timers, can be kept busy by a device that is ([unpaced_polls]). *)
Theorem kcs_transaction_terminates hw now req k0 k1 n c total :
  kcs_inv None k0 -> Forall byte req -> start_kcs_transaction req k0 = Some (0, k1) -> 0 <= now ->
  polls paced hw n (Caller SI_SM_CALL_WITHOUT_DELAY now k1) c -> goes_on (last c) = true ->
  acks (io (machine c)) <= total -> Z.of_nat n < kcs_bound total.
Proof.
  intros H0 Hb Es Hn0 Hn Hgo Ha. destruct (start_ok None req k0 H0 Hb) as (rv & k' & Es' & H1 & _).
  rewrite Es in Es'. injection Es' as <- <-. destruct (H1 eq_refl) as (_ & Hk1 & _).
  set (c0 := Caller SI_SM_CALL_WITHOUT_DELAY now k1) in *. pose proof (start_waiting now req k0 k1 Hn0 Es) as Hw0.
  assert (acks (io k1) <= total) as Ha0 by (pose proof (proj1 (proj2 (polls_inv hw paced req n c0 c Hk1 Hn))); cbn in *; lia).
  assert (measure total c0 < kcs_bound total) as Hm.
  { destruct (start_fields _ _ _ Es) as (? & ? & _). apply measure_bound; [done..|]. cbn. unfold acks in *. lia. }
  destruct (polls_measure hw total req n c0 c Hw0 Hk1 Hn Hgo Ha) as (Hw & Hk & Hlt).
  pose proof (measure_nonneg total c Hw (inv_small_count _ _ Hk) ltac:(unfold acks in *; lia)). lia.
Qed.

Lemma kcs_transaction_terminates_witness :
  exists c, polls paced example_bmc 7 example_begin c /\ goes_on (last c) = true /\ Z.of_nat 7 < kcs_bound 3.
Proof.
  set (c := default example_begin (poll_run example_bmc (replicate 7 (0, 1000)) example_begin)).
  assert (polls paced example_bmc 7 example_begin c) as Hn by (apply (poll_run_polls example_bmc (replicate 7 (0, 1000))); vm_compute; reflexivity).
  exists c. split; [exact Hn|]. split; [vm_compute; reflexivity|].
  refine (kcs_transaction_terminates example_bmc 1000 example_request example_kcs example_started 7 c 3
    example_inv example_bytes _ _ Hn _ _); [vm_compute; reflexivity|lia|vm_compute; reflexivity|vm_compute; discriminate].
Defined.

(** A device that is always busy, and a caller that reports no time. *)
Definition busy_bmc : hardware := fun _ _ => 2.

Lemma unpaced_polls n : exists c, polls any_pace busy_bmc n example_begin c /\ goes_on (last c) = true.
Proof.
  cut (exists c, polls any_pace busy_bmc n example_begin c /\ goes_on (last c) = true
    /\ exists h, machine c = set_io h (machine example_begin)).
  { intros (c & H1 & H2 & _). by exists c. }
  induction n as [|n (c & H1 & H2 & h & Em)].
  - exists example_begin. split; [constructor|]. split; [done|]. by exists [].
  - exists (Caller SI_SM_CALL_WITH_DELAY 0 (set_io (inputb busy_bmc 1 h).2 (machine example_begin))).
    split; [|split; [done|by eexists]]. apply (polls_S _ _ n _ c SI_SM_CALL_WITH_DELAY 0); [done..|]. by rewrite Em.
Qed.
