(* ===== verification/Smi.v ===== *)
(** The IPMI system interface: the user of the state machines
    ([char/openipmi/ipmi_si_drv/ipmi_si_intf.c]).

    Threads run the operations of the interface, the timer, the interrupt
    handler and the kernel thread among them. A thread that holds [si_lock] runs a
    [block], up to the next place where the lock is given up or where the code
    jumps back; a step is one block. The lock is given up in the middle of
    [smi_event_handler] while the upper layer takes a message.

    The state carries a trace of what the upper layer sees, and of the counters
    for /proc; the code has none. *)

From S2P Require Import Prelude IpmiSm.
Local Open Scope Z_scope.

Definition SI_TIMEOUT_TIME_USEC : Z := 10000.
Definition SI_USEC_PER_JIFFY : Z := 1000000 / HZ.
Definition SI_TIMEOUT_JIFFIES : Z := SI_TIMEOUT_TIME_USEC / SI_USEC_PER_JIFFY.
Definition SI_SHORT_TIMEOUT_USEC : Z := 250.

Definition IPMI_BMC_RCV_MSG_INTR : Z := 0x01.
Definition IPMI_BMC_EVT_MSG_INTR : Z := 0x02.

Definition IPMI_NETFN_APP_REQUEST : Z := 0x06.
Definition IPMI_GET_DEVICE_ID_CMD : Z := 0x01.
Definition IPMI_CLEAR_MSG_FLAGS_CMD : Z := 0x30.
Definition IPMI_GET_MSG_FLAGS_CMD : Z := 0x31.
Definition IPMI_GET_MSG_CMD : Z := 0x33.
Definition IPMI_SET_BMC_GLOBAL_ENABLES_CMD : Z := 0x2e.
Definition IPMI_GET_BMC_GLOBAL_ENABLES_CMD : Z := 0x2f.
Definition IPMI_READ_EVENT_MSG_BUFFER_CMD : Z := 0x35.

Definition RECEIVE_MSG_AVAIL : Z := 0x01.
Definition EVENT_MSG_BUFFER_FULL : Z := 0x02.
Definition WDT_PRE_TIMEOUT_INT : Z := 0x08.
Definition OEM_DATA_AVAIL : Z := Z.lor (Z.lor 0x20 0x40) 0x80.

Definition CANNOT_RETURN_REQUESTED_LENGTH : Z := 0xCA.
Definition STORAGE_NETFN : Z := 0x0A.
Definition STORAGE_CMD_GET_SDR : Z := 0x23.

Inductive si_intf_state :=
| SI_NORMAL
| SI_GETTING_FLAGS
| SI_GETTING_EVENTS
| SI_CLEARING_FLAGS
| SI_CLEARING_FLAGS_THEN_SET_IRQ
| SI_GETTING_MESSAGES
| SI_ENABLE_INTERRUPTS1
| SI_ENABLE_INTERRUPTS2
| SI_DISABLE_INTERRUPTS1
| SI_DISABLE_INTERRUPTS2.

#[export] Instance si_intf_state_eq_dec : EqDecision si_intf_state.
Proof. solve_decision. Defined.

(** A message, known by its address. *)
Record ipmi_smi_msg := Msg {
  addr : nat;
  data : list Z;
  data_size : Z;
  rsp : list Z;
  rsp_size : Z;
  tagged : bool;
}.

Definition set_data (d : list Z) (n : Z) (m : ipmi_smi_msg) : ipmi_smi_msg := Msg (addr m) d n (rsp m) (rsp_size m) (tagged m).
Definition set_rsp (r : list Z) (n : Z) (m : ipmi_smi_msg) : ipmi_smi_msg := Msg (addr m) (data m) (data_size m) r n (tagged m).
Definition set_tagged (b : bool) (m : ipmi_smi_msg) : ipmi_smi_msg := Msg (addr m) (data m) (data_size m) (rsp m) (rsp_size m) b.

Inductive counter :=
| short_timeouts | long_timeouts | idles | interrupts | attentions | hosed_count | complete_transactions | events
| watchdog_pretimeouts | incoming_messages.

(** What the upper layer sees. *)
Inductive note :=
| Accepted (m : ipmi_smi_msg)      (* given to [sender] *)
| Allocated (m : ipmi_smi_msg)     (* ipmi_alloc_smi_msg *)
| Delivered (m : ipmi_smi_msg)     (* ipmi_smi_msg_received *)
| Done (m : ipmi_smi_msg)          (* msg->done *)
| Queued (high : bool) (m : ipmi_smi_msg)
| Started (high : bool) (m : ipmi_smi_msg)   (* taken off the queue *)
| Pretimeout                       (* ipmi_smi_watchdog_pretimeout *)
| Count (c : counter).

(** What an execution of a block meets: the clock, whether and what memory is
    free, and what is on the stack. *)
Record env := Env {
  jiffies : Z;
  alloc : option ipmi_smi_msg;
  stack : list Z;
}.

(** Whose call of [smi_event_handler] it is: of one that is done then, of a loop
    until the machine is idle, or of the timer at some clock. *)
Inductive user :=
| Once
| Loop
| Timer (jiffies_now : Z).

(** Where a thread with the lock is, or where it goes on when it gets the lock
    back. *)
Inductive block :=
| Handler (time : Z) (u : user)                  (* smi_event_handler *)
| After (u : user)                               (* its event after a transaction *)
| Tail (r : si_sm_result) (u : user)             (* its second half *)
| StartNext (u : option user)                    (* start_next_msg, of the handler or of [sender] *)
| StartOut (u : option user)                     (* its end after a message was returned *)
| Events (u : user)                              (* the end of the handler *)
| Return (r : si_sm_result) (u : user)
| Deliver (m : ipmi_smi_msg) (next : block)      (* deliver_recv_msg *)
| DeliverPretimeout (next : block)
| Kick                                           (* the end of [sender] *)
| SetRunToCompletion (b : bool)
| SmiTimeout
| Interrupt
| StopIrq                                        (* cleanup_one_si *)
| StopSender.                                    (* the end of [sender] when stopped *)

Section interface.
Context {D : Type} `{si_sm_handlers D}.
Context (hw : hardware).            (* the device *)
Context (irq : bool).               (* whether there is an interrupt *)
Context (oem_data_avail_handler : bool).   (* whether the Dell handler for OEM flags is set *)
Context (xaction_notifier : bool).  (* whether the Dell handler for transactions is registered *)

Record smi_info := Smi {
  si_sm : D;
  si_state : si_intf_state;
  curr_msg : option ipmi_smi_msg;
  xmit_msgs : list ipmi_smi_msg;
  hp_xmit_msgs : list ipmi_smi_msg;
  si_lock : bool;
  msg_lock : bool;
  msg_flags : Z;
  req_events : bool;
  run_to_completion : bool;
  stop_operation : bool;
  interrupt_disabled : bool;
  last_timeout_jiffies : Z;
  timer_expires : Z;
  pendingRequests : Z;
  trace : list note;
}.

Definition set_sm (d : D) (s : smi_info) : smi_info :=
  Smi d (si_state s) (curr_msg s) (xmit_msgs s) (hp_xmit_msgs s) (si_lock s) (msg_lock s) (msg_flags s)
    (req_events s) (run_to_completion s) (stop_operation s) (interrupt_disabled s) (last_timeout_jiffies s)
    (timer_expires s) (pendingRequests s) (trace s).
Definition set_state (st : si_intf_state) (s : smi_info) : smi_info :=
  Smi (si_sm s) st (curr_msg s) (xmit_msgs s) (hp_xmit_msgs s) (si_lock s) (msg_lock s) (msg_flags s) (req_events s)
    (run_to_completion s) (stop_operation s) (interrupt_disabled s) (last_timeout_jiffies s) (timer_expires s)
    (pendingRequests s) (trace s).
Definition set_curr (c : option ipmi_smi_msg) (s : smi_info) : smi_info :=
  Smi (si_sm s) (si_state s) c (xmit_msgs s) (hp_xmit_msgs s) (si_lock s) (msg_lock s) (msg_flags s) (req_events s)
    (run_to_completion s) (stop_operation s) (interrupt_disabled s) (last_timeout_jiffies s) (timer_expires s)
    (pendingRequests s) (trace s).
Definition set_queues (x hp : list ipmi_smi_msg) (s : smi_info) : smi_info :=
  Smi (si_sm s) (si_state s) (curr_msg s) x hp (si_lock s) (msg_lock s) (msg_flags s) (req_events s)
    (run_to_completion s) (stop_operation s) (interrupt_disabled s) (last_timeout_jiffies s) (timer_expires s)
    (pendingRequests s) (trace s).
Definition set_si_lock (b : bool) (s : smi_info) : smi_info :=
  Smi (si_sm s) (si_state s) (curr_msg s) (xmit_msgs s) (hp_xmit_msgs s) b (msg_lock s) (msg_flags s) (req_events s)
    (run_to_completion s) (stop_operation s) (interrupt_disabled s) (last_timeout_jiffies s) (timer_expires s)
    (pendingRequests s) (trace s).
Definition set_msg_lock (b : bool) (s : smi_info) : smi_info :=
  Smi (si_sm s) (si_state s) (curr_msg s) (xmit_msgs s) (hp_xmit_msgs s) (si_lock s) b (msg_flags s) (req_events s)
    (run_to_completion s) (stop_operation s) (interrupt_disabled s) (last_timeout_jiffies s) (timer_expires s)
    (pendingRequests s) (trace s).
Definition set_flags (f : Z) (s : smi_info) : smi_info :=
  Smi (si_sm s) (si_state s) (curr_msg s) (xmit_msgs s) (hp_xmit_msgs s) (si_lock s) (msg_lock s) f (req_events s)
    (run_to_completion s) (stop_operation s) (interrupt_disabled s) (last_timeout_jiffies s) (timer_expires s)
    (pendingRequests s) (trace s).
Definition set_req_events (b : bool) (s : smi_info) : smi_info :=
  Smi (si_sm s) (si_state s) (curr_msg s) (xmit_msgs s) (hp_xmit_msgs s) (si_lock s) (msg_lock s) (msg_flags s) b
    (run_to_completion s) (stop_operation s) (interrupt_disabled s) (last_timeout_jiffies s) (timer_expires s)
    (pendingRequests s) (trace s).
Definition set_rtc (b : bool) (s : smi_info) : smi_info :=
  Smi (si_sm s) (si_state s) (curr_msg s) (xmit_msgs s) (hp_xmit_msgs s) (si_lock s) (msg_lock s) (msg_flags s)
    (req_events s) b (stop_operation s) (interrupt_disabled s) (last_timeout_jiffies s) (timer_expires s)
    (pendingRequests s) (trace s).
Definition set_stop (b : bool) (s : smi_info) : smi_info :=
  Smi (si_sm s) (si_state s) (curr_msg s) (xmit_msgs s) (hp_xmit_msgs s) (si_lock s) (msg_lock s) (msg_flags s)
    (req_events s) (run_to_completion s) b (interrupt_disabled s) (last_timeout_jiffies s) (timer_expires s)
    (pendingRequests s) (trace s).
Definition set_irq (b : bool) (s : smi_info) : smi_info :=
  Smi (si_sm s) (si_state s) (curr_msg s) (xmit_msgs s) (hp_xmit_msgs s) (si_lock s) (msg_lock s) (msg_flags s)
    (req_events s) (run_to_completion s) (stop_operation s) b (last_timeout_jiffies s) (timer_expires s)
    (pendingRequests s) (trace s).
Definition set_timer (l e : Z) (s : smi_info) : smi_info :=
  Smi (si_sm s) (si_state s) (curr_msg s) (xmit_msgs s) (hp_xmit_msgs s) (si_lock s) (msg_lock s) (msg_flags s)
    (req_events s) (run_to_completion s) (stop_operation s) (interrupt_disabled s) l e (pendingRequests s) (trace s).
Definition set_pending (n : Z) (s : smi_info) : smi_info :=
  Smi (si_sm s) (si_state s) (curr_msg s) (xmit_msgs s) (hp_xmit_msgs s) (si_lock s) (msg_lock s) (msg_flags s)
    (req_events s) (run_to_completion s) (stop_operation s) (interrupt_disabled s) (last_timeout_jiffies s)
    (timer_expires s) n (trace s).
Definition add_note (n : note) (s : smi_info) : smi_info :=
  Smi (si_sm s) (si_state s) (curr_msg s) (xmit_msgs s) (hp_xmit_msgs s) (si_lock s) (msg_lock s) (msg_flags s)
    (req_events s) (run_to_completion s) (stop_operation s) (interrupt_disabled s) (last_timeout_jiffies s)
    (timer_expires s) (pendingRequests s) (trace s ++ [n]).

(** ** Requests *)

(** [start_transaction] on a message; the data must be in the array. *)
Definition request (m : ipmi_smi_msg) : option (list Z) :=
  if (0 <=? data_size m) && (data_size m <=? Z.of_nat (length (data m))) then Some (take (Z.to_nat (data_size m)) (data m))
  else None.

Definition start (req : list Z) (s : smi_info) : option (Z * smi_info) :=
  r ← start_transaction req (si_sm s); Some (r.1, set_sm r.2 s).

(** Most calls ignore the result. *)
Definition start_ (req : list Z) (s : smi_info) : option smi_info := snd <$> start req s.

Definition app_request (cmd : Z) : list Z := [Z.shiftl IPMI_NETFN_APP_REQUEST 2; cmd].

Definition start_enable_irq (s : smi_info) : option smi_info :=
  s ← start_ (app_request IPMI_GET_BMC_GLOBAL_ENABLES_CMD) s; Some (set_state SI_ENABLE_INTERRUPTS1 s).
Definition start_disable_irq (s : smi_info) : option smi_info :=
  s ← start_ (app_request IPMI_GET_BMC_GLOBAL_ENABLES_CMD) s; Some (set_state SI_DISABLE_INTERRUPTS1 s).
Definition start_clear_flags (s : smi_info) : option smi_info :=
  s ← start_ (app_request IPMI_CLEAR_MSG_FLAGS_CMD ++ [WDT_PRE_TIMEOUT_INT]) s; Some (set_state SI_CLEARING_FLAGS s).

Definition disable_si_irq (s : smi_info) : option smi_info :=
  if irq && negb (interrupt_disabled s) then s ← start_disable_irq s; Some (set_irq true s) else Some s.
Definition enable_si_irq (s : smi_info) : option smi_info :=
  if irq && interrupt_disabled s then s ← start_enable_irq s; Some (set_irq false s) else Some s.

(** ** Messages *)

(** The answer that the interface makes up. *)
Definition error_rsp (code : Z) (m : ipmi_smi_msg) : option ipmi_smi_msg :=
  d0 ← read_at (data m) 0;
  d1 ← read_at (data m) 1;
  r ← write_at (rsp m) 0 (Z.lor d0 4);
  r ← write_at r 1 d1;
  r ← write_at r 2 code;
  Some (set_rsp r 3 m).

Definition untag (m : ipmi_smi_msg) (s : smi_info) : ipmi_smi_msg * smi_info :=
  if tagged m then (set_tagged false m, set_pending (s32 (pendingRequests s - 1)) s) else (m, s).

Definition return_hosed_msg (cCode : Z) (next : block) (s : smi_info) : option (smi_info * block) :=
  msg ← curr_msg s;
  let '(msg, s) := untag msg s in
  let cCode := if (cCode <? 0) || (IPMI_ERR_UNSPECIFIED <? cCode) then IPMI_ERR_UNSPECIFIED else cCode in
  msg ← error_rsp cCode msg;
  Some (set_curr None s, Deliver msg next).

Definition return_hosed_msg_badsize (next : block) (s : smi_info) : option (smi_info * block) :=
  msg ← curr_msg s;
  msg ← error_rsp CANNOT_RETURN_REQUESTED_LENGTH msg;
  Some (set_curr None s, Deliver msg next).

(** Whether [dell_poweredge_bt_xaction_handler] returns the message. *)
Definition bt_xaction_stops (m : ipmi_smi_msg) : option bool :=
  if 8 <=? data_size m then
    d0 ← read_at (data m) 0; d1 ← read_at (data m) 1; d7 ← read_at (data m) 7;
    Some ((Z.shiftr d0 2 =? STORAGE_NETFN) && (d1 =? STORAGE_CMD_GET_SDR) && (d7 =? 0x3A))
  else Some false.

(** Calling the chain of notifiers. *)
Definition xaction_stops (m : ipmi_smi_msg) : option bool := if xaction_notifier then bt_xaction_stops m else Some false.

(** ** Starting the next message *)

(** The message to send next, and the queues without it. *)
Definition next_msg (s : smi_info) : option (ipmi_smi_msg * smi_info) :=
  match hp_xmit_msgs s, xmit_msgs s with
  | m :: hp, x => Some (m, add_note (Started true m) (set_queues x hp s))
  | [], m :: x => Some (m, add_note (Started false m) (set_queues x [] s))
  | [], [] => None
  end.

(** What follows [start_next_msg] that returns SI_SM_CALL_WITHOUT_DELAY: the
    handler starts again, [sender] is done. *)
Definition started (u : option user) : block :=
  match u with Some u => Handler 0 u | None => Return SI_SM_IDLE Once end.

(** A message that is returned is delivered with [msg_lock] held. *)
Definition start_next_msg (u : option user) (s : smi_info) : option (smi_info * block) :=
  match next_msg s with
  | None =>
      let s := set_curr None s in
      Some (s, match u with Some u => Events u | None => Return SI_SM_IDLE Once end)
  | Some (m, s) =>
      let s := set_curr (Some m) s in
      stop ← xaction_stops m;
      if stop : bool then return_hosed_msg_badsize (StartOut u) (set_msg_lock true s)
      else
        req ← request m;
        r ← start req s;
        if r.1 =? 0 then Some (r.2, started u) else return_hosed_msg r.1 (StartOut u) (set_msg_lock true r.2)
  end.

(** ** The answers of the state machine *)

(** A request that the interface makes itself, with memory for its answer. *)
Definition own_request (cmd : Z) (st : si_intf_state) (m : ipmi_smi_msg) (s : smi_info) : option smi_info :=
  d ← write_at (data m) 0 (Z.shiftl IPMI_NETFN_APP_REQUEST 2);
  d ← write_at d 1 cmd;
  let m := set_data d 2 m in
  req ← request m;
  s ← start_ req (set_curr (Some m) s);
  Some (set_state st s).

Section blocks.
Context (e : env).

Definition ipmi_alloc_smi_msg (s : smi_info) : option ipmi_smi_msg * smi_info :=
  match alloc e with
  | Some m => let m := set_tagged false m in (Some m, add_note (Allocated m) s)
  | None => (None, s)
  end.

(** The two cases of [handle_flags] that fetch something. *)
Definition fetch (cmd : Z) (st : si_intf_state) (s : smi_info) : option smi_info :=
  let '(m, s) := ipmi_alloc_smi_msg s in
  match m with
  | None => s ← disable_si_irq (set_curr None s); Some (set_state SI_NORMAL s)
  | Some m => s ← enable_si_irq (set_curr (Some m) s); own_request cmd st m s
  end.

Definition oem_data_avail_to_receive_msg_avail (s : smi_info) : smi_info :=
  set_flags (Z.lor (Z.land (msg_flags s) (Z.lnot OEM_DATA_AVAIL)) RECEIVE_MSG_AVAIL) s.

Definition flag (s : smi_info) (f : Z) : bool := negb (Z.land (msg_flags s) f =? 0).

(** [fuel] bounds the retries. *)
Fixpoint handle_flags (fuel : nat) (next : block) (s : smi_info) : option (smi_info * block) :=
  match fuel with
  | O => None
  | S fuel =>
      if flag s WDT_PRE_TIMEOUT_INT then
        s ← start_clear_flags (add_note (Count watchdog_pretimeouts) s);
        Some (set_flags (Z.land (msg_flags s) (Z.lnot WDT_PRE_TIMEOUT_INT)) s, DeliverPretimeout next)
      else if flag s RECEIVE_MSG_AVAIL then
        s ← fetch IPMI_GET_MSG_CMD SI_GETTING_MESSAGES s; Some (s, next)
      else if flag s EVENT_MSG_BUFFER_FULL then
        s ← fetch IPMI_READ_EVENT_MSG_BUFFER_CMD SI_GETTING_EVENTS s; Some (s, next)
      else if flag s OEM_DATA_AVAIL && oem_data_avail_handler then
        handle_flags fuel next (oem_data_avail_to_receive_msg_avail s)
      else Some (set_state SI_NORMAL s, next)
  end.

Definition handle_flags_fuel : nat := 2.

(** The answer of the machine, in the current message. *)
Definition answer (s : smi_info) : option (ipmi_smi_msg * smi_info) :=
  m ← curr_msg s;
  r ← get_result (rsp m) IPMI_MAX_MSG_LENGTH (si_sm s);
  Some (untag (set_rsp r.1.2 r.1.1 m) (set_curr None (set_sm r.2 s))).

(** The answer in an array of [n] bytes on the stack: the length and the array. *)
Definition answer_to_stack (n : Z) (s : smi_info) : option (Z * list Z * smi_info) :=
  r ← get_result (take (Z.to_nat n) (stack e)) n (si_sm s);
  Some (r.1.1, r.1.2, set_sm r.2 s).

(** SI_GETTING_EVENTS and SI_GETTING_MESSAGES. *)
Definition fetched (f : Z) (c : counter) (next : block) (s : smi_info) : option (smi_info * block) :=
  r ← answer s;
  let '(msg, s) := r in
  code ← read_at (rsp msg) 2;
  if negb (code =? 0) then
    let s := add_note (Done msg) s in
    handle_flags handle_flags_fuel next (set_flags (Z.land (msg_flags s) (Z.lnot f)) s)
  else handle_flags handle_flags_fuel (Deliver msg next) (add_note (Count c) s).

(** The first answer of the two transactions that change the interrupts. *)
Definition change_enables (f : Z -> Z) (st : si_intf_state) (s : smi_info) : option smi_info :=
  r ← answer_to_stack 4 s;
  let '(_, msg, s) := r in
  code ← read_at msg 2;
  if negb (code =? 0) then Some (set_state SI_NORMAL s)
  else
    m3 ← read_at msg 3;
    s ← start_ (app_request IPMI_SET_BMC_GLOBAL_ENABLES_CMD ++ [u8 (f m3)]) s;
    Some (set_state st s).

Definition handle_transaction_done (next : block) (s : smi_info) : option (smi_info * block) :=
  match si_state s with
  | SI_NORMAL =>
      match curr_msg s with
      | None => Some (s, next)
      | Some _ => r ← answer s; Some (r.2, Deliver r.1 next)
      end
  | SI_GETTING_FLAGS =>
      r ← answer_to_stack 4 s;
      let '(len, msg, s) := r in
      code ← read_at msg 2;
      if negb (code =? 0) then Some (set_state SI_NORMAL s, next)
      else if len <? 4 then Some (set_state SI_NORMAL s, next)
      else flags ← read_at msg 3; handle_flags handle_flags_fuel next (set_flags flags s)
  | SI_CLEARING_FLAGS => r ← answer_to_stack 3 s; Some (set_state SI_NORMAL r.2, next)
  | SI_CLEARING_FLAGS_THEN_SET_IRQ => r ← answer_to_stack 3 s; s ← start_enable_irq r.2; Some (s, next)
  | SI_GETTING_EVENTS => fetched EVENT_MSG_BUFFER_FULL events next s
  | SI_GETTING_MESSAGES => fetched RECEIVE_MSG_AVAIL incoming_messages next s
  | SI_ENABLE_INTERRUPTS1 =>
      s ← change_enables (fun b => Z.lor b (Z.lor IPMI_BMC_RCV_MSG_INTR IPMI_BMC_EVT_MSG_INTR)) SI_ENABLE_INTERRUPTS2 s;
      Some (s, next)
  | SI_DISABLE_INTERRUPTS1 =>
      s ← change_enables (fun b => Z.land b (Z.lnot (Z.lor IPMI_BMC_RCV_MSG_INTR IPMI_BMC_EVT_MSG_INTR)))
            SI_DISABLE_INTERRUPTS2 s;
      Some (s, next)
  | SI_ENABLE_INTERRUPTS2 | SI_DISABLE_INTERRUPTS2 =>
      r ← answer_to_stack 4 s; Some (set_state SI_NORMAL r.2, next)
  end.

(** ** smi_event_handler *)

Definition sm_event_ (time : Z) (s : smi_info) : option (si_sm_result * smi_info) :=
  r ← event hw time (jiffies e) (si_sm s); Some (r.1, set_sm r.2 s).

Definition handler (time : Z) (u : user) (s : smi_info) : option (smi_info * block) :=
  r ← sm_event_ time s;
  let '(r, s) := r in
  match r with
  | SI_SM_CALL_WITHOUT_DELAY => Some (s, Handler 0 u)
  | SI_SM_TRANSACTION_COMPLETE => handle_transaction_done (After u) (add_note (Count complete_transactions) s)
  | SI_SM_HOSED =>
      let s := set_state SI_NORMAL (add_note (Count hosed_count) s) in
      match curr_msg s with
      | Some _ => return_hosed_msg IPMI_ERR_UNSPECIFIED (After u) s
      | None => Some (s, After u)
      end
  | _ => Some (s, Tail r u)
  end.

(** The loop of events, [Handler 0 u], is resumed from its start. *)
Definition tail (r : si_sm_result) (u : user) (s : smi_info) : option (smi_info * block) :=
  match r with
  | SI_SM_ATTN =>
      s ← start_ (app_request IPMI_GET_MSG_FLAGS_CMD) (add_note (Count attentions) s);
      Some (set_state SI_GETTING_FLAGS s, Handler 0 u)
  | SI_SM_IDLE => Some (add_note (Count idles) s, StartNext (Some u))
  | _ => Some (s, Return r u)
  end.

Definition request_own_events (u : user) (s : smi_info) : option (smi_info * block) :=
  if req_events s then
    let '(m, s) := ipmi_alloc_smi_msg (set_req_events false s) in
    match m with
    | None => Some (set_curr None s, Return SI_SM_IDLE u)
    | Some m => s ← own_request IPMI_READ_EVENT_MSG_BUFFER_CMD SI_GETTING_EVENTS m s; Some (s, Handler 0 u)
    end
  else Some (s, Return SI_SM_IDLE u).

(** ** The users of the handler *)

(** The end of [smi_timeout], without the lock. *)
Definition set_si_timer (r : si_sm_result) (jiffies_now : Z) (s : smi_info) : smi_info :=
  if irq && negb (interrupt_disabled s) then
    add_note (Count long_timeouts) (set_timer jiffies_now (u64 (jiffies e + SI_TIMEOUT_JIFFIES)) s)
  else match r with
  | SI_SM_CALL_WITH_DELAY => add_note (Count short_timeouts) (set_timer jiffies_now (u64 (jiffies e + 1)) s)
  | _ => add_note (Count long_timeouts) (set_timer jiffies_now (u64 (jiffies e + SI_TIMEOUT_JIFFIES)) s)
  end.

(** What the thread does next: go on with the lock, give it up for the upper
    layer and take it again, or leave with or without it. *)
Inductive outcome :=
| Go (b : block)
| GiveUp (b : block)
| Leave
| LeaveTimer (r : si_sm_result) (jiffies_now : Z)
| LeaveLocked.

Definition return_ (r : si_sm_result) (u : user) (s : smi_info) : smi_info * outcome :=
  match u with
  | Once => (s, Leave)
  | Loop => match r with SI_SM_IDLE => (s, Leave) | _ => (s, Go (Handler SI_SHORT_TIMEOUT_USEC Loop)) end
  | Timer jiffies_now => (s, LeaveTimer r jiffies_now)
  end.

(** The end of [sender]. *)
Definition sender_kick (s : smi_info) : smi_info * outcome :=
  match si_state s, curr_msg s with
  | SI_NORMAL, None => (s, Go (StartNext None))
  | _, _ => (s, Leave)
  end.

Definition set_run_to_completion (b : bool) (s : smi_info) : smi_info * outcome :=
  if b then (set_rtc b s, Go (Handler 0 Loop)) else (set_rtc b s, Leave).

Definition smi_timeout (s : smi_info) : smi_info * outcome :=
  let time_diff := s64 (s64 (s64 (jiffies e) - s64 (last_timeout_jiffies s)) * SI_USEC_PER_JIFFY) in
  (s, Go (Handler (s32 time_diff) (Timer (jiffies e)))).

Definition si_irq_handler (s : smi_info) : smi_info * outcome := (add_note (Count interrupts) s, Go (Handler 0 Once)).

(** The round of [cleanup_one_si] in which the interface is found at rest
    disables the interrupts; the others only poll. *)
Definition cleanup_irq (s : smi_info) : option (smi_info * outcome) :=
  match si_state s, curr_msg s with
  | SI_NORMAL, None => s ← disable_si_irq s; Some (s, Leave)
  | _, _ => Some (s, Leave)
  end.

(** One block. *)
Definition exec (b : block) (s : smi_info) : option (smi_info * outcome) :=
  let go r := Some (r.1, Go r.2) in
  match b with
  | Handler time u => r ← handler time u s; go r
  | After u => r ← sm_event_ 0 s; go (r.2, Tail r.1 u)
  | Tail r u => r ← tail r u s; go r
  | StartNext u => r ← start_next_msg u s; go r
  | StartOut u => go (set_msg_lock false s, started u)
  | Events u => r ← request_own_events u s; go r
  | Return r u => Some (return_ r u s)
  | Deliver m b => Some (add_note (Delivered m) s, GiveUp b)
  | DeliverPretimeout b => Some (add_note Pretimeout s, GiveUp b)
  | Kick => Some (sender_kick s)
  | SetRunToCompletion b => Some (set_run_to_completion b s)
  | SmiTimeout => Some (smi_timeout s)
  | Interrupt => Some (si_irq_handler s)
  | StopIrq => cleanup_irq s
  | StopSender => Some (s, LeaveLocked)
  end.
End blocks.

(** The interface when [try_smi_init] has set it up and the timer runs. *)
Definition smi_init (d : D) (now expires : Z) : option smi_info :=
  s ← start_clear_flags (Smi d SI_NORMAL None [] [] false false 0 false false false false now expires 0 []);
  Some (if irq then set_state SI_CLEARING_FLAGS_THEN_SET_IRQ s else s).

(** ** Threads *)

Inductive pc :=
| Outside
| Sending (m : ipmi_smi_msg) (priority : Z)      (* [sender], about to take [msg_lock] *)
| Locking (b : block)
| Running (b : block)
| SettingTimer (r : si_sm_result) (jiffies_now : Z).

Record sys := Sys {
  info : smi_info;
  threads : list pc;
}.

Inductive call :=
| Sender (m : ipmi_smi_msg) (priority : Z)
| Poll
| Thread                                          (* ipmi_thread, one round *)
| Timeout                                         (* smi_timeout *)
| Irq                                             (* si_irq_handler *)
| SetRtc (b : bool)
| RequestEvents
| SetMaintenanceMode (enable : bool)
| Cleanup.                                        (* cleanup_one_si, one round *)

(** [sender] before it takes a lock. *)
Definition sender (m : ipmi_smi_msg) (priority : Z) (s : smi_info) : option (smi_info * pc) :=
  if stop_operation s then
    msg ← error_rsp IPMI_ERR_UNSPECIFIED m;
    Some (add_note (Delivered msg) (set_si_lock false (add_note (Accepted m) s)), Locking StopSender)
  else Some (add_note (Accepted m) s, Sending m priority).

Definition poll : block := Handler 10 Once.
Definition ipmi_thread : block := Handler 0 Once.

Definition request_events (s : smi_info) : smi_info := if stop_operation s then s else set_req_events true s.
Definition set_maintenance_mode (enable : bool) (s : smi_info) : smi_info := if enable then s else set_req_events false s.

Definition enter (c : call) (s : smi_info) : option (smi_info * pc) :=
  match c with
  | Sender m priority => sender m priority s
  | Poll => Some (s, Locking poll)
  | Thread => Some (s, Locking ipmi_thread)
  | Timeout => Some (s, Locking SmiTimeout)
  | Irq => Some (s, Locking Interrupt)
  | SetRtc b => Some (s, Locking (SetRunToCompletion b))
  | RequestEvents => Some (request_events s, Outside)
  | SetMaintenanceMode enable => Some (set_maintenance_mode enable s, Outside)
  | Cleanup => Some (set_stop true s, Locking StopIrq)
  end.

(** [sender] with [msg_lock]. *)
Definition enqueue (m : ipmi_smi_msg) (priority : Z) (s : smi_info) : smi_info * pc :=
  if run_to_completion s then
    (add_note (Queued false m) (set_queues (xmit_msgs s ++ [m]) (hp_xmit_msgs s) s), Locking (Handler 0 Loop))
  else
    let m := set_tagged true m in
    let s := set_pending (s32 (pendingRequests s + 1)) s in
    (if 0 <? priority then add_note (Queued true m) (set_queues (xmit_msgs s) (hp_xmit_msgs s ++ [m]) s)
     else add_note (Queued false m) (set_queues (xmit_msgs s ++ [m]) (hp_xmit_msgs s) s), Locking Kick).

(** A block that takes [msg_lock] waits for it. *)
Definition blocked (b : block) (s : smi_info) : bool :=
  match b with StartNext _ => msg_lock s | _ => false end.

Definition settle (o : outcome) (s : smi_info) : smi_info * pc :=
  match o with
  | Go b => (s, Running b)
  | GiveUp b => (set_si_lock false s, Locking b)
  | Leave => (set_si_lock false s, Outside)
  | LeaveTimer r jiffies_now => (set_si_lock false s, SettingTimer r jiffies_now)
  | LeaveLocked => (s, Outside)
  end.

(** The next step of thread [t]; a thread outside makes call [c]. *)
Definition thread_step (c : call) (e : env) (p : pc) (s : smi_info) : option (smi_info * pc) :=
  match p with
  | Outside => enter c s
  | Sending m priority => if msg_lock s then None else Some (enqueue m priority s)
  | Locking b => if si_lock s then None else Some (set_si_lock true s, Running b)
  | Running b => if blocked b s then None else r ← exec e b s; Some (settle r.2 r.1)
  | SettingTimer r jiffies_now => Some (set_si_timer e r jiffies_now s, Outside)
  end.

Record choice := Choice { who : nat; calls : call; meets : env }.

Definition sys_step (c : choice) (y : sys) : option sys :=
  p ← threads y !! who c;
  r ← thread_step (calls c) (meets c) p (info y);
  Some (Sys r.1 (<[who c := r.2]> (threads y))).

Fixpoint sys_run (cs : list choice) (y : sys) : option sys :=
  match cs with
  | [] => Some y
  | c :: cs => y ← sys_step c y; sys_run cs y
  end.
End interface.
