(* ===== verification/SmiInv.v ===== *)
(** The invariant of the IPMI system interface, for every state machine that
    keeps the promises of [SiSm]: no block fails, and every message is in one
    place. *)

From S2P Require Import Prelude IpmiSm Smi.
Local Open Scope Z_scope.


Lemma s32_add n k : s32 (s32 n + k) = s32 (n + k).
Proof.
  unfold sext. f_equal. replace ((n + 2 ^ (32 - 1)) mod 2 ^ 32 - 2 ^ (32 - 1) + k + 2 ^ (32 - 1)) with ((n + 2 ^ (32 - 1)) mod 2 ^ 32 + k) by lia.
  rewrite Zplus_mod_idemp_l. f_equal. lia.
Qed.

(** ** Accounts *)

Definition sum (w : ipmi_smi_msg -> Z) (l : list ipmi_smi_msg) : Z := foldr (fun m z => w m + z) 0 l.
Definition notes (f : note -> Z) (l : list note) : Z := foldr (fun n z => f n + z) 0 l.

Lemma sum_app w l l' : sum w (l ++ l') = sum w l + sum w l'.
Proof. unfold sum. induction l as [|m l IH]; cbn [app foldr]; [done|]. rewrite IH. lia. Qed.

Lemma notes_snoc f l n : notes f (l ++ [n]) = notes f l + f n.
Proof. unfold notes. induction l as [|m l IH]; cbn [app foldr]; [lia|]. rewrite IH. lia. Qed.

Lemma sum_cons w m l : sum w (m :: l) = w m + sum w l.
Proof. done. Qed.

Lemma sum_nil w : sum w [] = 0.
Proof. done. Qed.

Arguments sum : simpl never.
Arguments notes : simpl never.

(** Sums over lists put together. *)
Ltac sums := repeat first [rewrite sum_app | rewrite sum_cons | rewrite sum_nil | rewrite notes_snoc].

Definition occ (a : nat) (m : ipmi_smi_msg) : Z := if (addr m =? a)%nat then 1 else 0.
Definition tag (m : ipmi_smi_msg) : Z := if tagged m then 1 else 0.

(** How often the message at [a] was given to the interface, or allocated, and
    how often it was given back. *)
Definition enters (a : nat) (n : note) : Z := match n with Accepted m | Allocated m => occ a m | _ => 0 end.
Definition leaves (a : nat) (n : note) : Z := match n with Delivered m | Done m => occ a m | _ => 0 end.
Definition leaves_tag (n : note) : Z := match n with Delivered m | Done m => tag m | _ => 0 end.

(** The messages that a thread will give back. *)
Fixpoint block_msgs (b : block) : list ipmi_smi_msg :=
  match b with
  | Deliver m b => m :: block_msgs b
  | DeliverPretimeout b => block_msgs b
  | _ => []
  end.

Definition outcome_msgs (o : outcome) : list ipmi_smi_msg := match o with Go b | GiveUp b => block_msgs b | _ => [] end.

Definition pc_msgs (p : pc) : list ipmi_smi_msg :=
  match p with Sending m _ => [m] | Locking b | Running b => block_msgs b | Outside | SettingTimer _ _ => [] end.

(** The messages queued, and taken off the queues, in order. *)
Definition queued1 (h : bool) (n : note) : list nat := match n with Queued h' m => if Bool.eqb h h' then [addr m] else [] | _ => [] end.
Definition started1 (h : bool) (n : note) : list nat := match n with Started h' m => if Bool.eqb h h' then [addr m] else [] | _ => [] end.
Definition all_queued (h : bool) (l : list note) : list nat := l ≫= queued1 h.
Definition all_started (h : bool) (l : list note) : list nat := l ≫= started1 h.

(** A message of normal priority is taken only when every message of high
    priority queued before has been. *)
Definition high_first (l : list note) : Prop :=
  forall p m q, l = p ++ Started false m :: q -> all_started true p = all_queued true p.

Lemma high_first_snoc l n : high_first l ->
  (forall m, n = Started false m -> all_started true l = all_queued true l) -> high_first (l ++ [n]).
Proof.
  intros Hl Hn p m q E. destruct q as [|x q] using rev_ind.
  - apply app_inj_tail in E as [-> ->]. eauto.
  - rewrite app_comm_cons, app_assoc in E. apply app_inj_tail in E as [-> _]. eauto.
Qed.

(** ** The invariant *)

Definition fetching (st : si_intf_state) : bool := match st with SI_GETTING_EVENTS | SI_GETTING_MESSAGES => true | _ => false end.

(** The arrays of the source, and what the state machine works with. *)
Definition arrays_ok (m : ipmi_smi_msg) : Prop :=
  Z.of_nat (length (data m)) = IPMI_MAX_MSG_LENGTH /\ Z.of_nat (length (rsp m)) = IPMI_MAX_MSG_LENGTH.

Definition answer_ok (m : ipmi_smi_msg) : Prop :=
  Z.of_nat (length (rsp m)) = IPMI_MAX_MSG_LENGTH /\ 3 <= rsp_size m <= IPMI_MAX_MSG_LENGTH.

Definition answered (n : note) : Prop := match n with Delivered m => answer_ok m | _ => True end.

Definition env_ok (e : env) : Prop :=
  (forall m, alloc e = Some m -> arrays_ok m) /\ (4 <= length (stack e))%nat /\ Forall byte (stack e).

Section inv.
Context {D : Type} `{SiSm D}.
Context (hw : hardware) (irq oem_data_avail_handler xaction_notifier : bool).
Context (hw_ok : sm_hardware hw).

Implicit Types s : smi_info (D := D).

Definition msg_ok (m : ipmi_smi_msg) : Prop :=
  arrays_ok m /\ exists req, request m = Some req /\ sm_fits req.

Definition here s : list ipmi_smi_msg := option_list (curr_msg s) ++ xmit_msgs s ++ hp_xmit_msgs s.

Definition mach (d : D) : Prop := exists req, sm_inv req d.
Definition busy s : Prop := si_state s <> SI_NORMAL \/ curr_msg s <> None.

(** Which states go with a current message. *)
Definition msgs_inv s : Prop :=
  (fetching (si_state s) = true -> curr_msg s <> None) /\
  (fetching (si_state s) = false -> si_state s <> SI_NORMAL -> curr_msg s = None) /\
  Forall msg_ok (here s).

(** The machine works whenever the interface waits for it. *)
Definition core_inv s : Prop := mach (si_sm s) /\ (busy s -> ~ sm_idle (si_sm s)) /\ msgs_inv s.

(** No message is current. *)
Definition free_inv s : Prop := mach (si_sm s) /\ curr_msg s = None /\ Forall msg_ok (xmit_msgs s ++ hp_xmit_msgs s).

Fixpoint resumable (b : block) : Prop :=
  match b with
  | Tail _ _ | StartNext _ | Events _ | StopSender => False
  | Deliver m b => answer_ok m /\ resumable b
  | DeliverPretimeout b => resumable b
  | _ => True
  end.

Definition block_ok (b : block) s : Prop :=
  match b with
  | Tail r _ => r = SI_SM_IDLE \/ r = SI_SM_ATTN -> sm_idle (si_sm s)
  | StartNext (Some _) | Events _ => sm_idle (si_sm s)
  | StartNext None => si_state s = SI_NORMAL /\ curr_msg s = None
  | _ => resumable b
  end.

Definition outcome_ok (o : outcome) s : Prop :=
  match o with Go b => block_ok b s | GiveUp b => resumable b | LeaveLocked => False | _ => True end.

(** What the messages at hand, [ms] with the thread, add up to. *)
Definition owed (a : nat) s (ms : list ipmi_smi_msg) : Z :=
  notes (enters a) (trace s) - notes (leaves a) (trace s) - sum (occ a) (here s ++ ms).
Definition tags s (ms : list ipmi_smi_msg) : Z := sum tag (here s ++ ms) + notes leaves_tag (trace s).

Definition queue (h : bool) s : list ipmi_smi_msg := if h then hp_xmit_msgs s else xmit_msgs s.

(** First in, first out, high priority first. *)
Definition in_order s : Prop :=
  (forall h, all_started h (trace s) ++ (addr <$> queue h s) = all_queued h (trace s)) /\ high_first (trace s).

Record keeps s (ms : list ipmi_smi_msg) s' (ms' : list ipmi_smi_msg) : Prop := Keeps {
  keeps_owed a : owed a s' ms' = owed a s ms;
  keeps_tags n : pendingRequests s = s32 n -> pendingRequests s' = s32 (n + tags s' ms' - tags s ms);
  keeps_order : in_order s -> in_order s';
  keeps_answers : Forall answered (trace s) -> Forall answered (trace s');
  keeps_lock : si_lock s' = si_lock s;
  keeps_stop : stop_operation s' = stop_operation s;
}.

Lemma smi_keeps_trans s1 ms1 s2 ms2 s3 ms3 : keeps s1 ms1 s2 ms2 -> keeps s2 ms2 s3 ms3 -> keeps s1 ms1 s3 ms3.
Proof.
  intros [Ha1 Ht1 Ho1 Hd1 Hl1 Hs1] [Ha2 Ht2 Ho2 Hd2 Hl2 Hs2]. split; [intros a; rewrite Ha2; apply Ha1| |auto|auto|congruence..].
  intros n Hn. rewrite (Ht2 _ (Ht1 _ Hn)). f_equal. lia.
Qed.

(** A change of other fields. *)
Definition same_msgs s s' : Prop :=
  curr_msg s' = curr_msg s /\ xmit_msgs s' = xmit_msgs s /\ hp_xmit_msgs s' = hp_xmit_msgs s /\ trace s' = trace s /\
  pendingRequests s' = pendingRequests s /\ si_lock s' = si_lock s /\ stop_operation s' = stop_operation s.

Lemma keeps_same s s' ms : same_msgs s s' -> keeps s ms s' ms.
Proof.
  intros (E1 & E2 & E3 & E4 & E5 & E6 & E7). split; [intros a|intros n Hn| |by rewrite E4|done..].
  - unfold owed, here. by rewrite E1, E2, E3, E4.
  - unfold tags, here. rewrite E1, E2, E3, E4, E5, Hn. f_equal. lia.
  - unfold in_order. rewrite E4. intros [H1 H2]. split; [|done]. intros []; unfold queue; rewrite ?E2, ?E3; [apply (H1 true)|apply (H1 false)].
Qed.

Lemma smi_keeps_refl s ms : keeps s ms s ms.
Proof. by apply keeps_same. Qed.

Lemma order_note s n : (forall h m, n <> Queued h m) -> (forall h m, n <> Started h m) -> in_order s -> in_order (add_note n s).
Proof.
  intros Hq Hs [H1 H2]. split; cbn.
  - intros h. unfold all_started, all_queued in *. rewrite !bind_app. cbn. rewrite !app_nil_r.
    assert (queued1 h n = [] /\ started1 h n = []) as [-> ->] by (destruct n; try done; first [by edestruct Hq|by edestruct Hs]).
    rewrite !app_nil_r. destruct h; [apply (H1 true)|apply (H1 false)].
  - apply high_first_snoc; [done|]. intros m ->. by destruct (Hs false m).
Qed.

(** A note that is neither of entering, of leaving nor of a queue. *)
Lemma keeps_count s ms c : keeps s ms (add_note (Count c) s) ms.
Proof.
  split; [intros a|intros n Hn|by apply order_note|intros Hd; by apply Forall_app_2; [|constructor]|done..].
  - unfold owed. cbn. rewrite !notes_snoc. cbn. change (here (add_note (Count c) s)) with (here s). lia.
  - unfold tags. cbn. rewrite !notes_snoc, Hn. cbn. change (here (add_note (Count c) s)) with (here s). f_equal. lia.
Qed.

(** A message that changes hands. *)
Lemma keeps_moved s ms s' ms' :
  (forall a, sum (occ a) (here s' ++ ms') = sum (occ a) (here s ++ ms)) -> sum tag (here s' ++ ms') = sum tag (here s ++ ms) ->
  trace s' = trace s -> xmit_msgs s' = xmit_msgs s -> hp_xmit_msgs s' = hp_xmit_msgs s ->
  pendingRequests s' = pendingRequests s -> si_lock s' = si_lock s -> stop_operation s' = stop_operation s ->
  keeps s ms s' ms'.
Proof.
  intros Ha Ht Etr Ex Eh Ep El Es. split; [intros a|intros n Hn| |by rewrite Etr|done..].
  - unfold owed. by rewrite Ha, Etr.
  - unfold tags. rewrite Ht, Etr, Ep, Hn. f_equal. lia.
  - unfold in_order. rewrite Etr. intros [H1 H2]. split; [|done]. intros []; unfold queue; rewrite ?Ex, ?Eh; [apply (H1 true)|apply (H1 false)].
Qed.

Lemma keeps_alloc s ms m : tagged m = false -> keeps s ms (add_note (Allocated m) s) (m :: ms).
Proof.
  intros Hm. split; [intros a|intros n Hn|by apply order_note|intros Hd; by apply Forall_app_2; [|constructor]|done..].
  - unfold owed. cbn [trace add_note]. sums. change (here (add_note (Allocated m) s)) with (here s). cbn [enters leaves]. lia.
  - unfold tags. cbn [trace add_note]. sums. change (here (add_note (Allocated m) s)) with (here s). cbn [leaves_tag].
    unfold tag at 2. rewrite Hm. cbn [pendingRequests add_note]. rewrite Hn. f_equal. lia.
Qed.

Lemma keeps_given n s ms m : answered n -> n = Delivered m \/ n = Done m -> keeps s (m :: ms) (add_note n s) ms.
Proof.
  intros Hdn En. split; [intros a|intros z Hn| |intros Hd; by apply Forall_app_2; [|constructor]|done..].
  - unfold owed. cbn [trace add_note]. sums. change (here (add_note n s)) with (here s). destruct En; subst; cbn [enters leaves]; lia.
  - unfold tags. cbn [trace add_note]. sums. change (here (add_note n s)) with (here s). cbn [pendingRequests add_note].
    rewrite Hn. f_equal. destruct En; subst; cbn [leaves_tag]; lia.
  - apply order_note; by destruct En; subst.
Qed.

(** ** Requests of the interface's own *)

Definition small (req : list Z) : Prop := Forall byte req /\ (2 <= length req <= 3)%nat.

Lemma small_app cmd : byte cmd -> small (app_request cmd).
Proof. intros Hc. split; [|cbn; lia]. unfold app_request; cbn [app]. rewrite !Forall_cons, Forall_nil. change (byte 0x18 /\ byte cmd /\ True). by split. Qed.

Lemma small_app3 cmd b : byte cmd -> byte b -> small (app_request cmd ++ [b]).
Proof. intros Hc Hb. split; [|cbn; lia]. unfold app_request; cbn [app]. rewrite !Forall_cons, Forall_nil. change (byte 0x18 /\ byte cmd /\ byte b /\ True). by split. Qed.

(** A short request keeps the machine at work, whether or not it is taken. *)
Lemma start_small req s : mach (si_sm s) -> small req ->
  exists d, start_ req s = Some (set_sm d s) /\ mach d /\ ~ sm_idle d.
Proof.
  intros [r Hd] [Hb Hl]. destruct (sm_start r req (si_sm s) Hd) as (rv & d & E & H1 & H2 & H3); [apply sm_fits_small; [done|lia]|].
  exists d. unfold start_, start. rewrite E. split; [done|]. destruct (decide (rv = 0)) as [Hz|Hz].
  - destruct (H1 Hz) as [? ?]. split; [by eexists|done].
  - rewrite (H2 Hz). split; [by exists r|]. intros Hi. apply Hz, H3; [done|]. pose proof sm_size_3. lia.
Qed.

Lemma enables_small : small (app_request IPMI_GET_BMC_GLOBAL_ENABLES_CMD).
Proof. apply small_app. unfold byte. by cbn. Qed.

Lemma disable_ok s : mach (si_sm s) -> exists s', disable_si_irq irq s = Some s' /\ same_msgs s s' /\ mach (si_sm s').
Proof.
  intros Hm. unfold disable_si_irq, start_disable_irq. case_test; [|by exists s].
  destruct (start_small _ s Hm enables_small) as (d & E & Hd & _). rewrite E. cbn. by eexists.
Qed.

Lemma enable_ok s : mach (si_sm s) -> exists s', enable_si_irq irq s = Some s' /\ same_msgs s s' /\ mach (si_sm s').
Proof.
  intros Hm. unfold enable_si_irq, start_enable_irq. case_test; [|by exists s].
  destruct (start_small _ s Hm enables_small) as (d & E & Hd & _). rewrite E. cbn. by eexists.
Qed.

Lemma own_request_ok cmd st m s : mach (si_sm s) -> arrays_ok m -> byte cmd ->
  exists d m', own_request cmd st m s = Some (set_state st (set_sm d (set_curr (Some m') s)))
    /\ mach d /\ ~ sm_idle d /\ msg_ok m' /\ addr m' = addr m /\ tagged m' = tagged m.
Proof.
  intros Hm [Hd Hr] Hc. unfold own_request. unfold IPMI_MAX_MSG_LENGTH in *.
  destruct (data m) as [|x [|y l]] eqn:Ed; cbn [length] in Hd; [lia..|].
  rewrite write_at_Some by (cbn [length]; lia). cbn [mbind option_bind].
  rewrite write_at_Some by (rewrite length_insert; cbn [length]; lia). cbn [mbind option_bind].
  set (m' := set_data _ 2 m). assert (request m' = Some (app_request cmd)) as Er.
  { unfold request. subst m'. cbn [data_size data set_data]. rewrite !length_insert. cbn [length].
    rewrite (proj2 (Z.leb_le 2 _)) by lia. done. }
  rewrite Er. cbn [mbind option_bind].
  destruct (start_small (app_request cmd) (set_curr (Some m') s) Hm (small_app _ Hc)) as (d & E & Hd' & Hi).
  rewrite E. cbn [mbind option_bind]. exists d, m'. split; [done|]. split; [done|]. split; [done|]. split; [|done].
  split; [split; [|done]; subst m'; cbn [data set_data]; rewrite !length_insert; cbn [length]; unfold IPMI_MAX_MSG_LENGTH; lia|].
  exists (app_request cmd). split; [done|]. apply sm_fits_small; [apply small_app, Hc|cbn; lia].
Qed.

(** ** Fetching *)

Context (e : env) (e_ok : env_ok e).

Lemma fetched_curr cmd st m s ms : free_inv s -> arrays_ok m -> byte cmd -> fetching st = true ->
  exists s', own_request cmd st m (set_curr (Some m) s) = Some s' /\ core_inv s' /\ keeps s (m :: ms) s' ms.
Proof.
  intros (Hm & Hc & Hq) Ha Hb Hst.
  destruct (own_request_ok cmd st m (set_curr (Some m) s) Hm Ha Hb) as (d & m' & E & Hd & Hi & Hm' & Ea & Et).
  eexists. split; [exact E|]. split; [split; [done|]|].
  - split; [done|]. split; [done|]. split; [cbn; congruence|]. by constructor.
  - unfold here. apply keeps_moved; try done; [intros a|]; unfold here; cbn; rewrite Hc; cbn; sums.
    + assert (occ a m' = occ a m) as -> by (unfold occ; by rewrite Ea). lia.
    + assert (tag m' = tag m) as -> by (unfold tag; by rewrite Et). lia.
Qed.
Lemma fetch_ok cmd st s ms : free_inv s -> byte cmd -> fetching st = true ->
  exists s', fetch irq e cmd st s = Some s' /\ core_inv s' /\ keeps s ms s' ms.
Proof.
  intros (Hm & Hc & Hq) Hb Hst. unfold fetch, ipmi_alloc_smi_msg. destruct (alloc e) as [m|] eqn:Em.
  - set (m' := set_tagged false m). assert (arrays_ok m') as Ha by (by apply (proj1 e_ok) in Em).
    destruct (enable_ok (set_curr (Some m') (add_note (Allocated m') s)) Hm) as (s1 & E & Hs & Hm1). rewrite E. cbn [mbind option_bind].
    destruct Hs as (E1 & E2 & E3 & E4 & E5 & E6 & E7).
    destruct (own_request_ok cmd st m' s1 Hm1 Ha Hb) as (d & m2 & Eo & Hd & Hi & Hm2 & Ea & Et).
    eexists. split; [exact Eo|]. split; [split; [done|]|].
    + split; [done|]. split; [done|]. split; [cbn; congruence|]. constructor; [done|]. cbn. by rewrite E2, E3.
    + eapply smi_keeps_trans; [by apply (keeps_alloc _ _ m')|].
      apply keeps_moved; cbn; rewrite ?E2, ?E3, ?E4, ?E5, ?E6, ?E7; try done; [intros a|]; unfold here; cbn; rewrite ?E2, ?E3, ?Hc; cbn; sums.
      * assert (occ a m2 = occ a m') as -> by (unfold occ; by rewrite Ea). lia.
      * assert (tag m2 = tag m') as -> by (unfold tag; by rewrite Et). lia.
  - destruct (disable_ok (set_curr None s) Hm) as (s1 & E & Hs & Hm1). rewrite E. cbn [mbind option_bind].
    destruct Hs as (E1 & E2 & E3 & E4 & E5 & E6 & E7). eexists. split; [done|]. cbn in *. split; [split; [done|]|].
    + split; [intros [?|?]; cbn in *; congruence|]. split; [done|]. split; [done|]. unfold here. cbn. by rewrite E1, E2, E3.
    + apply keeps_same. unfold same_msgs. cbn. split_and!; congruence.
Qed.

(** ** Flags *)

Lemma core_normal s : mach (si_sm s) -> curr_msg s = None -> Forall msg_ok (xmit_msgs s ++ hp_xmit_msgs s) ->
  core_inv (set_state SI_NORMAL s).
Proof.
  intros Hm Hc Hq. split; [done|]. split; [by intros [?|?]|]. split; [done|]. split; [done|]. unfold here. cbn. by rewrite Hc.
Qed.

Lemma core_waiting st req s : small req -> fetching st = false -> st <> SI_NORMAL -> free_inv s ->
  exists d, start_ req s = Some (set_sm d s) /\ core_inv (set_state st (set_sm d s)).
Proof.
  intros Hr Hst Hn (Hm & Hc & Hq). destruct (start_small req s Hm Hr) as (d & E & Hd & Hi). exists d. split; [done|].
  split; [done|]. split; [done|]. split; [cbn; congruence|]. split; [done|]. unfold here. cbn. by rewrite Hc.
Qed.

Lemma handle_flags_ok fuel next s : free_inv s -> resumable next ->
  (flag s WDT_PRE_TIMEOUT_INT = true \/ flag s RECEIVE_MSG_AVAIL = true \/ 1 < fuel)%nat -> (0 < fuel)%nat ->
  exists s' b, handle_flags irq oem_data_avail_handler e fuel next s = Some (s', b) /\ core_inv s' /\ resumable b
    /\ keeps s (block_msgs next) s' (block_msgs b).
Proof.
  revert s. induction fuel as [|fuel IH]; intros s Hf Hn Hfuel Hpos; [lia|]. cbn [handle_flags].
  destruct (flag s WDT_PRE_TIMEOUT_INT) eqn:Ew; [|destruct (flag s RECEIVE_MSG_AVAIL) eqn:Er;
    [|destruct (flag s EVENT_MSG_BUFFER_FULL) eqn:Ee; [|destruct (_ && _) eqn:Eo]]].
  - destruct (core_waiting SI_CLEARING_FLAGS (app_request IPMI_CLEAR_MSG_FLAGS_CMD ++ [WDT_PRE_TIMEOUT_INT])
      (add_note (Count watchdog_pretimeouts) s)) as (d & E & Hi); [by apply small_app3|done|done|done|].
    unfold start_clear_flags. rewrite E. cbn [mbind option_bind]. eexists _, _. split; [done|].
    split; [exact Hi|]. split; [done|]. cbn [block_msgs].
    eapply smi_keeps_trans; [apply (keeps_count s _ watchdog_pretimeouts)|]. by apply keeps_same.
  - destruct (fetch_ok IPMI_GET_MSG_CMD SI_GETTING_MESSAGES s (block_msgs next) Hf) as (s' & E & Hc & Hk); [done..|].
    rewrite E. cbn. eauto 10.
  - destruct (fetch_ok IPMI_READ_EVENT_MSG_BUFFER_CMD SI_GETTING_EVENTS s (block_msgs next) Hf) as (s' & E & Hc & Hk); [done..|].
    rewrite E. cbn. eauto 10.
  - destruct (IH (oem_data_avail_to_receive_msg_avail s)) as (s' & b & E & Hc & Hb & Hk); [done|done| |lia|].
    + right; left. unfold flag, oem_data_avail_to_receive_msg_avail. cbn [msg_flags set_flags].
      apply negb_true_iff, Z.eqb_neq. intros Hz. apply (f_equal (fun z => Z.testbit z 0)) in Hz.
      rewrite Z.land_spec, Z.lor_spec in Hz. cbn in Hz. by rewrite orb_true_r in Hz.
    + rewrite E. exists s', b. split; [done|]. split; [done|]. split; [done|]. eapply smi_keeps_trans; [|exact Hk]. by apply keeps_same.
  - exists (set_state SI_NORMAL s), next. split; [done|]. destruct Hf as (? & ? & ?). split; [by apply core_normal|].
    split; [done|]. by apply keeps_same.
Qed.

(** ** Answers *)

Lemma Forall_here s m : curr_msg s = Some m -> Forall msg_ok (here s) ->
  msg_ok m /\ Forall msg_ok (xmit_msgs s ++ hp_xmit_msgs s).
Proof. unfold here. intros ->. cbn. by rewrite Forall_cons. Qed.

(** Taking the message in hand, untagged. *)
Lemma untag_ok m m' s ms : curr_msg s = Some m -> addr m' = addr m -> tagged m' = tagged m ->
  let r := untag m' (set_curr None s) in
  si_sm r.2 = si_sm s /\ si_state r.2 = si_state s /\ curr_msg r.2 = None /\ xmit_msgs r.2 = xmit_msgs s /\
  hp_xmit_msgs r.2 = hp_xmit_msgs s /\ msg_lock r.2 = msg_lock s /\ data r.1 = data m' /\ rsp r.1 = rsp m' /\ rsp_size r.1 = rsp_size m' /\ tagged r.1 = false /\
  addr r.1 = addr m' /\ keeps s ms r.2 (r.1 :: ms).
Proof.
  intros Hc Ea Et r. subst r. unfold untag. destruct (tagged m') eqn:Etm; cbn; split_and!; try done.
  - split; [intros a|intros n Hn| |done..].
    + unfold owed, here. cbn. rewrite Hc. cbn. sums. assert (occ a (set_tagged false m') = occ a m) as -> by (unfold occ; cbn; by rewrite Ea). lia.
    + cbn. rewrite Hn. unfold tags, here. cbn. rewrite Hc. cbn. sums.
      unfold Z.sub at 1. rewrite s32_add. f_equal. unfold tag. cbn. rewrite <- Et. lia.
    + unfold in_order. cbn. intros [H1 H2]. split; [|done]. intros []; [apply (H1 true)|apply (H1 false)].
  - apply keeps_moved; try done; [intros a|]; unfold here; cbn; rewrite Hc; cbn; sums.
    + assert (occ a m' = occ a m) as -> by (unfold occ; by rewrite Ea). lia.
    + assert (tag m' = tag m) as -> by (unfold tag; by rewrite Etm, <- Et). lia.
Qed.

Lemma answer_ok_ s m ms : sm_idle (si_sm s) -> curr_msg s = Some m -> Forall msg_ok (here s) ->
  exists m' s', answer s = Some (m', s') /\ free_inv s' /\ answer_ok m' /\ keeps s ms s' (m' :: ms)
    /\ si_state s' = si_state s.
Proof.
  intros Hi Hc Hq. destruct (Forall_here s m Hc Hq) as [[[Hd Hr] _] Hq'].
  destruct (sm_result (rsp m) IPMI_MAX_MSG_LENGTH (si_sm s) Hi) as (n & buf & d & E & Hn & Hl & Hd'); [rewrite Hr; unfold IPMI_MAX_MSG_LENGTH; lia|].
  unfold answer. rewrite Hc. cbn [mbind option_bind]. rewrite E. cbn [mbind option_bind fst snd].
  destruct (untag_ok m (set_rsp buf n m) (set_sm d s) ms) as (E1 & E2 & E3 & E4 & E5 & _ & _ & E6 & E7 & _ & _ & Hk); [done..|].
  rewrite (surjective_pairing (untag _ _)).
  eexists _, _. split; [done|]. split; [|split; [|split; [|done]]].
  - split; [rewrite E1; exists None; by apply sm_idle_inv|]. split; [done|]. by rewrite E4, E5.
  - unfold answer_ok. rewrite E6, E7. cbn. rewrite Hl. done.
  - eapply smi_keeps_trans; [|exact Hk]. by apply keeps_same.
Qed.

Lemma answer_to_stack_ok n s : sm_idle (si_sm s) -> 3 <= n <= 4 ->
  exists len buf d, answer_to_stack e n s = Some (len, buf, set_sm d s) /\ sm_idle d /\ Z.of_nat (length buf) = n.
Proof.
  intros Hi Hn. destruct e_ok as (_ & Hs & _).
  assert (Z.of_nat (length (take (Z.to_nat n) (stack e))) = n) as Hl by (rewrite length_take; lia).
  destruct (sm_result (take (Z.to_nat n) (stack e)) n (si_sm s) Hi) as (len & buf & d & E & _ & Hb & Hd); [lia|].
  exists len, buf, d. unfold answer_to_stack. rewrite E. cbn. split; [done|]. split; [done|]. lia.
Qed.

Lemma error_rsp_ok code m : arrays_ok m -> exists r, error_rsp code m = Some (set_rsp r 3 m) /\
  Z.of_nat (length r) = IPMI_MAX_MSG_LENGTH.
Proof.
  intros [Hd Hr]. unfold error_rsp, IPMI_MAX_MSG_LENGTH in *.
  destruct (read_at_Some (data m) 0) as (d0 & E0 & _); [lia|]. destruct (read_at_Some (data m) 1) as (d1 & E1 & _); [lia|].
  rewrite E0, E1. cbn [mbind option_bind].
  rewrite write_at_Some by lia. cbn [mbind option_bind].
  rewrite write_at_Some by (rewrite length_insert; lia). cbn [mbind option_bind].
  rewrite write_at_Some by (rewrite !length_insert; lia). cbn [mbind option_bind].
  eexists. split; [done|]. by rewrite !length_insert.
Qed.

(** A message that is returned leaves the interface free. *)
Lemma return_hosed_ok code next s m : curr_msg s = Some m -> Forall msg_ok (here s) -> mach (si_sm s) -> resumable next ->
  exists s' m', return_hosed_msg code next s = Some (s', Deliver m' next) /\ answer_ok m' /\ free_inv s' /\
    si_state s' = si_state s /\ keeps s (block_msgs next) s' (m' :: block_msgs next).
Proof.
  intros Hc Hq Hm Hn. destruct (Forall_here s m Hc Hq) as [[Ha _] Hq'].
  destruct (untag_ok m m s (block_msgs next) Hc eq_refl eq_refl) as (E1 & E2 & E3 & E4 & E5 & _ & E8 & E6 & E7 & _ & Ea & Hk).
  unfold return_hosed_msg. rewrite Hc. cbn [mbind option_bind].
  assert (untag m (set_curr None s) = ((untag m s).1, set_curr None (untag m s).2)) as Eu by (unfold untag; by destruct (tagged m)).
  rewrite Eu in *. cbn [fst snd] in *. destruct (untag m s) as [m1 s1]. cbn [fst snd] in *.
  assert (arrays_ok m1) as Ha1 by (unfold arrays_ok in *; congruence).
  set (c := if _ || _ then _ else code). destruct (error_rsp_ok c m1 Ha1) as (r & -> & Hr). cbn [mbind option_bind].
  eexists _, _. split; [done|]. split; [split; [done|cbn; unfold IPMI_MAX_MSG_LENGTH; lia]|]. split; [|split; [done|]].
  - split; [by rewrite E1|]. split; [done|]. by rewrite E4, E5.
  - eapply smi_keeps_trans; [exact Hk|]. apply keeps_moved; try done; [intros a|]; by sums.
Qed.

Lemma return_badsize_ok next s m : curr_msg s = Some m -> Forall msg_ok (here s) -> mach (si_sm s) -> resumable next ->
  exists s' m', return_hosed_msg_badsize next s = Some (s', Deliver m' next) /\ answer_ok m' /\ free_inv s' /\
    si_state s' = si_state s /\ keeps s (block_msgs next) s' (m' :: block_msgs next).
Proof.
  intros Hc Hq Hm Hn. destruct (Forall_here s m Hc Hq) as [[Ha _] Hq'].
  unfold return_hosed_msg_badsize. rewrite Hc. cbn [mbind option_bind].
  destruct (error_rsp_ok CANNOT_RETURN_REQUESTED_LENGTH m Ha) as (r & -> & Hr). cbn [mbind option_bind].
  eexists _, _. split; [done|]. split; [split; [done|cbn; unfold IPMI_MAX_MSG_LENGTH; lia]|]. split; [done|]. split; [done|].
  apply keeps_moved; try done; [intros a|]; unfold here; cbn; rewrite Hc; cbn; sums; unfold occ, tag; cbn; lia.
Qed.

(** Without a current message and in the normal state, nothing is waited for. *)
Lemma core_free s : free_inv s -> si_state s = SI_NORMAL -> core_inv s.
Proof.
  intros (Hm & Hc & Hq) Hs. split; [done|]. split; [by intros [?|?]|]. split; [by rewrite Hs|]. split; [done|]. unfold here. by rewrite Hc.
Qed.

(** What a part of a block must leave. *)
Definition good s (ms : list ipmi_smi_msg) (r : option (smi_info * block)) : Prop :=
  exists s' b, r = Some (s', b) /\ core_inv s' /\ block_ok b s' /\ keeps s ms s' (block_msgs b).

Lemma resumable_ok b s : resumable b -> block_ok b s.
Proof. by destruct b. Qed.

Lemma good_trans s1 ms1 s2 ms2 r : keeps s1 ms1 s2 ms2 -> good s2 ms2 r -> good s1 ms1 r.
Proof. intros Hk (s' & b & ? & ? & ? & ?). exists s', b. split_and!; [done..|]. by eapply smi_keeps_trans. Qed.

Lemma flags_good next s : free_inv s -> resumable next ->
  good s (block_msgs next) (handle_flags irq oem_data_avail_handler e handle_flags_fuel next s).
Proof.
  intros Hf Hn. destruct (handle_flags_ok handle_flags_fuel next s Hf Hn) as (s' & b & ? & ? & ? & ?); [unfold handle_flags_fuel; auto|unfold handle_flags_fuel; lia|].
  exists s', b. split_and!; try done. by apply resumable_ok.
Qed.

Lemma fetched_good f c next s : sm_idle (si_sm s) -> curr_msg s <> None -> Forall msg_ok (here s) -> resumable next ->
  block_msgs next = [] -> good s [] (fetched irq oem_data_avail_handler e f c next s).
Proof.
  intros Hi Hc Hq Hn Hb. destruct (curr_msg s) as [m|] eqn:Em; [|done].
  destruct (answer_ok_ s m [] Hi Em Hq) as (m' & s' & E & Hf & Ha & Hk & _). unfold fetched. rewrite E. cbn [mbind option_bind].
  destruct (read_at_Some (rsp m') 2) as (code & Ec & _); [destruct Ha as [-> _]; unfold IPMI_MAX_MSG_LENGTH; lia|].
  rewrite Ec. cbn [mbind option_bind]. destruct (negb (code =? 0)).
  - set (s1 := set_flags _ _). apply (good_trans s [] s1 []).
    + eapply smi_keeps_trans; [exact Hk|]. eapply smi_keeps_trans; [apply (keeps_given (Done m') s' [] m'); [done|auto]|]. by apply keeps_same.
    + rewrite <- Hb. by apply flags_good.
  - apply (good_trans s [] (add_note (Count c) s') [m']).
    + eapply smi_keeps_trans; [exact Hk|apply keeps_count].
    + assert (block_msgs (Deliver m' next) = [m']) as <- by (cbn; by rewrite Hb). by apply flags_good.
Qed.

Lemma change_enables_good f st next s : (forall b, byte b -> byte (u8 (f b))) -> fetching st = false -> st <> SI_NORMAL ->
  sm_idle (si_sm s) -> curr_msg s = None -> Forall msg_ok (here s) -> resumable next ->
  good s (block_msgs next) (s' ← change_enables e f st s; Some (s', next)).
Proof.
  intros Hf Hst Hsn Hi Hc Hq Hn. destruct (answer_to_stack_ok 4 s Hi) as (len & buf & d & E & Hd & Hl); [lia|].
  unfold change_enables. rewrite E. cbn [mbind option_bind].
  assert (free_inv (set_sm d s)) as Hfree.
  { split; [exists None; by apply sm_idle_inv|]. split; [done|]. unfold here in Hq. by rewrite Hc in Hq. }
  destruct (read_at_Some buf 2) as (code & Ec & _); [lia|]. rewrite Ec. cbn [mbind option_bind]. destruct (negb (code =? 0)).
  - eexists _, _. split; [done|]. destruct Hfree as (? & ? & ?). split; [by apply core_normal|]. split; [by apply resumable_ok|].
    by apply keeps_same.
  - destruct (read_at_Some buf 3) as (m3 & E3 & _); [lia|]. rewrite E3. cbn [mbind option_bind].
    destruct (core_waiting st (app_request IPMI_SET_BMC_GLOBAL_ENABLES_CMD ++ [u8 (f m3)]) (set_sm d s)) as (d' & E' & Hi');
      [apply small_app3; [done|]|done..|].
    + apply byte_of_u8.
    + rewrite E'. cbn. eexists _, _. split; [done|]. split; [done|]. split; [by apply resumable_ok|]. by apply keeps_same.
Qed.

(** After a transaction: the machine is at rest, the interface still has its
    state. *)
Lemma done_good next s : sm_idle (si_sm s) -> msgs_inv s -> resumable next -> block_msgs next = [] ->
  good s [] (handle_transaction_done irq oem_data_avail_handler e next s).
Proof.
  intros Hi (H1 & H2 & Hq) Hn Hb.
  assert (forall d, sm_idle d -> curr_msg s = None -> free_inv (set_sm d s)) as Hfree.
  { intros d Hd Hc. split; [exists None; by apply sm_idle_inv|]. split; [done|]. unfold here in Hq. by rewrite Hc in Hq. }
  assert (forall d s', sm_idle d -> curr_msg s = None -> s' = set_state SI_NORMAL (set_sm d s) -> good s [] (Some (s', next))) as Hnormal.
  { intros d s' Hd Hc ->. eexists _, _. split; [done|]. destruct (Hfree d Hd Hc) as (? & ? & ?). split; [by apply core_normal|].
    split; [by apply resumable_ok|]. rewrite Hb. by apply keeps_same. }
  unfold handle_transaction_done. destruct (si_state s) eqn:Es; cbn [fetching] in H1, H2; try (assert (curr_msg s = None) as Hc by auto).
  - destruct (curr_msg s) as [m|] eqn:Em.
    + destruct (answer_ok_ s m [] Hi Em Hq) as (m' & s' & E & Hf & Ha & Hk & Hst). rewrite E. cbn.
      eexists _, _. split; [done|]. split; [apply core_free; [done|congruence]|]. split; [done|]. cbn. by rewrite Hb.
    + eexists _, _. split; [done|]. split; [|split; [by apply resumable_ok|rewrite Hb; apply smi_keeps_refl]].
      apply core_free; [|done]. specialize (Hfree (si_sm s) Hi eq_refl). by destruct s.
  - destruct (answer_to_stack_ok 4 s Hi) as (len & buf & d & E & Hd & Hl); [lia|]. rewrite E. cbn [mbind option_bind].
    destruct (read_at_Some buf 2) as (code & Ec & _); [lia|]. rewrite Ec. cbn [mbind option_bind].
    destruct (negb _); [by apply (Hnormal d)|]. destruct (len <? 4); [by apply (Hnormal d)|].
    destruct (read_at_Some buf 3) as (m3 & E3 & _); [lia|]. rewrite E3. cbn [mbind option_bind].
    apply (good_trans s [] (set_flags m3 (set_sm d s)) []); [by apply keeps_same|]. rewrite <- Hb. apply flags_good; [|done]. by apply Hfree.
  - by apply fetched_good; auto.
  - destruct (answer_to_stack_ok 3 s Hi) as (len & buf & d & E & Hd & Hl); [lia|]. rewrite E. cbn. by apply (Hnormal d).
  - destruct (answer_to_stack_ok 3 s Hi) as (len & buf & d & E & Hd & Hl); [lia|]. rewrite E. cbn [mbind option_bind fst snd].
    destruct (core_waiting SI_ENABLE_INTERRUPTS1 _ (set_sm d s) enables_small) as (d' & E' & Hi'); [done..|by apply Hfree|].
    unfold start_enable_irq. rewrite E'. cbn [mbind option_bind]. eexists _, _. split; [done|]. split; [done|]. split; [by apply resumable_ok|].
    rewrite Hb. by apply keeps_same.
  - by apply fetched_good; auto.
  - rewrite <- Hb. apply change_enables_good; [intros; apply byte_of_u8|done..].
  - destruct (answer_to_stack_ok 4 s Hi) as (len & buf & d & E & Hd & Hl); [lia|]. rewrite E. cbn. by apply (Hnormal d).
  - rewrite <- Hb. apply change_enables_good; [intros; apply byte_of_u8|done..].
  - destruct (answer_to_stack_ok 4 s Hi) as (len & buf & d & E & Hd & Hl); [lia|]. rewrite E. cbn. by apply (Hnormal d).
Qed.

(** ** Starting the next message *)

Lemma idle_free s : core_inv s -> sm_idle (si_sm s) -> si_state s = SI_NORMAL /\ curr_msg s = None.
Proof.
  intros (_ & Hb & _) Hi. split.
  - destruct (decide (si_state s = SI_NORMAL)); [done|]. exfalso. apply Hb; [by left|done].
  - destruct (curr_msg s) eqn:E; [|done]. exfalso. apply Hb; [right; congruence|done].
Qed.

Lemma order_started h m s s1 : addr <$> queue h s = addr m :: (addr <$> queue h s1) -> queue (negb h) s1 = queue (negb h) s ->
  (h = false -> hp_xmit_msgs s = []) -> trace s1 = trace s ++ [Started h m] -> in_order s -> in_order s1.
Proof.
  intros Eq Eo Eh Et [H1 H2]. split; rewrite Et.
  - intros h'. unfold all_started, all_queued in *. rewrite !bind_app. cbn. rewrite !app_nil_r.
    destruct (decide (h' = h)) as [->|Hne].
    + rewrite <- (H1 h), Eq. rewrite (eqb_reflx h). by rewrite <- app_assoc.
    + assert (h' = negb h) as -> by (by destruct h', h). rewrite Eo, <- (H1 (negb h)). assert (Bool.eqb (negb h) h = false) as -> by (by destruct h).
      by rewrite app_nil_r.
  - apply high_first_snoc; [done|]. intros m' [= -> ->]. rewrite <- (H1 true). cbn. rewrite (Eh eq_refl). cbn. by rewrite app_nil_r.
Qed.

Lemma next_msg_ok s : curr_msg s = None -> Forall msg_ok (here s) ->
  match next_msg s with
  | None => xmit_msgs s = [] /\ hp_xmit_msgs s = []
  | Some (m, s1) => msg_ok m /\ Forall msg_ok (xmit_msgs s1 ++ hp_xmit_msgs s1) /\ si_sm s1 = si_sm s /\ si_state s1 = si_state s
      /\ curr_msg s1 = None /\ keeps s [] s1 [m]
  end.
Proof.
  intros Hc Hq. unfold here in Hq. rewrite Hc in Hq. cbn in Hq. unfold next_msg.
  destruct (hp_xmit_msgs s) as [|m hp] eqn:Eh; [destruct (xmit_msgs s) as [|m x] eqn:Ex; [done|]|]; cbn.
  - rewrite app_nil_r in Hq |- *. rewrite Forall_cons in Hq. destruct Hq as [Hm Hx]. split; [done|]. split; [done|]. split; [done|]. split; [done|]. split; [done|].
    split; [intros a|intros n Hn| |intros Hd; by apply Forall_app_2; [|constructor]|done..].
    + unfold owed, here. cbn. rewrite Hc, Eh, Ex. sums. cbn. sums. lia.
    + unfold tags, here. cbn. rewrite Hc, Eh, Ex. sums. cbn. sums. rewrite Hn. f_equal. lia.
    + apply (order_started false m); cbn; rewrite ?Ex, ?Eh; done.
  - rewrite Forall_app, Forall_cons in Hq. destruct Hq as (Hx & Hm & Hhp). split; [done|]. split; [by apply Forall_app|]. split; [done|]. split; [done|]. split; [done|].
    split; [intros a|intros n Hn| |intros Hd; by apply Forall_app_2; [|constructor]|done..].
    + unfold owed, here. cbn. rewrite Hc, Eh. sums. cbn. sums. lia.
    + unfold tags, here. cbn. rewrite Hc, Eh. sums. cbn. sums. rewrite Hn. f_equal. lia.
    + apply (order_started true m); cbn; rewrite ?Eh; done.
Qed.

Lemma xaction_ok m : msg_ok m -> exists b, xaction_stops xaction_notifier m = Some b.
Proof.
  intros [[Hd Hr] (req & Hreq & _)]. unfold xaction_stops, bt_xaction_stops. unfold request in Hreq.
  destruct xaction_notifier; [|by eexists]. destruct (Z.leb_spec 8 (data_size m)); [|by eexists].
  destruct (Z.leb_spec (data_size m) (Z.of_nat (length (data m)))); [|by rewrite andb_false_r in Hreq].
  destruct (read_at_Some (data m) 0) as (d0 & -> & _); [lia|]. destruct (read_at_Some (data m) 1) as (d1 & -> & _); [lia|].
  destruct (read_at_Some (data m) 7) as (d7 & -> & _); [lia|]. by eexists.
Qed.

Lemma started_ok u s : block_ok (started u) s.
Proof. by destruct u. Qed.

Lemma start_next_good u s : core_inv s -> block_ok (StartNext u) s -> good s [] (start_next_msg xaction_notifier u s).
Proof.
  intros Hi Hb. assert (si_state s = SI_NORMAL /\ curr_msg s = None) as [Hs Hc] by (destruct u; [exact (idle_free s Hi Hb)|exact Hb]).
  pose proof Hi as (Hm & _ & _ & _ & Hq). pose proof (next_msg_ok s Hc Hq) as Hn. unfold start_next_msg.
  destruct (next_msg s) as [[m s1]|]; cycle 1.
  { destruct Hn as [Ex Eh]. eexists _, _. split; [done|]. split.
    { apply core_free; [|done]. split; [done|]. split; [done|]. cbn. by rewrite Ex, Eh. }
    split; [by destruct u|].
    assert (block_msgs (match u with Some u => Events u | None => Return SI_SM_IDLE Once end) = []) as -> by (by destruct u).
    apply keeps_same. by unfold same_msgs. }
  destruct Hn as (Hmsg & Hq1 & Em & Es & Ec & Hk). destruct (xaction_ok m Hmsg) as [stop ->]. cbn [mbind option_bind].
  pose proof Hmsg as [Ha (req & Er & Hfits)].
  assert (forall b, Forall msg_ok (here (set_msg_lock b (set_curr (Some m) s1)))) as Hhere by (intros b; by constructor).
  assert (keeps s [] (set_curr (Some m) s1) []) as Hk2.
  { eapply smi_keeps_trans; [exact Hk|]. apply keeps_moved; try done; [intros a|]; unfold here; cbn; rewrite Ec; cbn; sums; lia. }
  destruct stop.
  - destruct (return_badsize_ok (StartOut u) (set_msg_lock true (set_curr (Some m) s1)) m) as (s2 & m' & E & Ham & Hf & Hst & Hk3); [done|done|by cbn; rewrite Em|done|].
    rewrite E. eexists _, _. split; [done|]. split; [apply core_free; [done|cbn in Hst; congruence]|]. split; [by split|].
    eapply smi_keeps_trans; [exact Hk2|]. eapply smi_keeps_trans; [|exact Hk3]. by apply keeps_same.
  - rewrite Er. cbn [mbind option_bind]. destruct Hm as [r Hd]. destruct (sm_start r req (si_sm s) Hd Hfits) as (rv & d & E & H1 & H2 & _).
    unfold start. cbn [si_sm set_curr]. rewrite Em, E. cbn [mbind option_bind fst snd]. destruct (Z.eqb_spec rv 0) as [Hz|Hz].
    + destruct (H1 Hz) as [Hd' Hni]. eexists _, _. split; [done|]. split.
      * split; [by eexists|]. split; [done|]. cbn. unfold msgs_inv. cbn. rewrite Es, Hs. split_and!; [done..|]. by constructor.
      * split; [by apply started_ok|]. assert (block_msgs (started u) = []) as -> by (by destruct u).
        eapply smi_keeps_trans; [exact Hk2|]. by apply keeps_same.
    + rewrite (H2 Hz). destruct (return_hosed_ok rv (StartOut u) (set_msg_lock true (set_sm (si_sm s) (set_curr (Some m) s1))) m) as (s2 & m' & E2 & Ham & Hf & Hst & Hk3); [done|by constructor|by exists r|done|].
      rewrite E2. eexists _, _. split; [done|]. split; [apply core_free; [done|cbn in Hst; congruence]|]. split; [by split|].
      eapply smi_keeps_trans; [exact Hk2|]. eapply smi_keeps_trans; [|exact Hk3]. by apply keeps_same.
Qed.

(** ** Blocks *)

Lemma event_ok time s : mach (si_sm s) -> exists r d, sm_event_ hw e time s = Some (r, set_sm d s) /\ mach d /\
  (sm_idle d -> goes_on r = true -> sm_idle (si_sm s)) /\ (goes_on r = false -> sm_idle d) /\
  (r = SI_SM_IDLE \/ r = SI_SM_ATTN -> sm_idle (si_sm s)).
Proof.
  intros [req Hd]. destruct (sm_event hw time (jiffies e) req (si_sm s) hw_ok Hd) as (r & d & E & H1 & H2 & H3 & H4).
  exists r, d. unfold sm_event_. rewrite E. split; [done|]. split; [by eexists|]. done.
Qed.

(** A machine that goes on, or that was at rest. *)
Lemma core_event r d s : core_inv s -> mach d -> (sm_idle d -> goes_on r = true -> sm_idle (si_sm s)) ->
  goes_on r = true \/ sm_idle (si_sm s) -> core_inv (set_sm d s).
Proof.
  intros Hi Hd Hg Hor. split; [done|]. split; [|apply Hi]. intros Hb Hid. pose proof Hi as (_ & Hb' & _).
  apply (Hb' Hb). destruct Hor; auto.
Qed.

Lemma tail_event_ok time s u : core_inv s -> exists r d, sm_event_ hw e time s = Some (r, set_sm d s) /\
  (goes_on r = true \/ r = SI_SM_IDLE \/ r = SI_SM_ATTN -> core_inv (set_sm d s) /\ block_ok (Tail r u) (set_sm d s)) /\
  (goes_on r = false -> sm_idle d).
Proof.
  intros Hi. destruct (event_ok time s (proj1 Hi)) as (r & d & E & Hd & H1 & H2 & H3). exists r, d. split; [done|]. split; [|done].
  intros Hr. split; [apply (core_event r d s Hi Hd H1); destruct Hr; auto|].
  intros Ho. apply H2. by destruct Ho as [->| ->].
Qed.

Lemma handler_good time u s : core_inv s -> good s [] (handler hw irq oem_data_avail_handler e time u s).
Proof.
  intros Hi. destruct (tail_event_ok time s u Hi) as (r & d & E & H1 & H2). unfold handler. rewrite E. cbn [mbind option_bind].
  assert (goes_on r = true \/ r = SI_SM_IDLE \/ r = SI_SM_ATTN -> forall b, b = Handler 0 u \/ b = Tail r u -> good s [] (Some (set_sm d s, b))) as Hgo.
  { intros Hr b Hb. destruct (H1 Hr). eexists _, _. split; [done|]. split; [done|]. split; [by destruct Hb; subst|].
    assert (block_msgs b = []) as -> by (by destruct Hb; subst). by apply keeps_same. }
  assert (sm_idle d -> mach d) as Hmach by (intros Hd; exists None; by apply sm_idle_inv).
  destruct r; try (apply Hgo; auto).
  - apply (good_trans s [] (add_note (Count complete_transactions) (set_sm d s)) []).
    + eapply smi_keeps_trans; [|apply keeps_count]. by apply keeps_same.
    + apply done_good; [by apply H2|apply Hi|done..].
  - assert (keeps s [] (set_state SI_NORMAL (add_note (Count hosed_count) (set_sm d s))) []) as Hk.
    { apply (smi_keeps_trans _ _ (add_note (Count hosed_count) (set_sm d s)) []); [|by apply keeps_same].
      eapply smi_keeps_trans; [|apply keeps_count]. by apply keeps_same. }
    pose proof Hi as (_ & _ & _ & _ & Hq). specialize (H2 eq_refl). cbn zeta. destruct (curr_msg (set_state _ _)) as [m|] eqn:Em.
    + destruct (return_hosed_ok IPMI_ERR_UNSPECIFIED (After u) _ m Em) as (s' & m' & E' & Ham & Hf & Hst & Hk'); [done|by apply Hmach|done|].
      rewrite E'. eexists _, _. split; [done|]. split; [by apply core_free|]. split; [done|]. eapply smi_keeps_trans; [exact Hk|exact Hk'].
    + eexists _, _. split; [done|]. split; [|split; [done|exact Hk]]. apply core_free; [|done]. split; [by apply Hmach|]. split; [done|].
      unfold here in Hq. cbn in Em |- *. by rewrite Em in Hq.
Qed.

Lemma tail_good r u s : core_inv s -> block_ok (Tail r u) s -> good s [] (tail r u s).
Proof.
  intros Hi Hb. pose proof Hi as (Hm & _ & _ & _ & Hq).
  assert (good s [] (Some (s, Return r u))) as Hret by (eexists _, _; split; [done|]; split; [done|]; split; [done|apply smi_keeps_refl]).
  destruct r; try done; cbn [tail].
  - eexists _, _. split; [done|]. split; [done|]. split; [apply Hb; auto|apply keeps_count].
  - destruct (idle_free s Hi (Hb (or_intror eq_refl))) as [Hs Hc].
    destruct (core_waiting SI_GETTING_FLAGS (app_request IPMI_GET_MSG_FLAGS_CMD) (add_note (Count attentions) s)) as (d & E & Hi');
      [by apply small_app|done|done|split; [done|]; split; [done|]; unfold here in Hq; by rewrite Hc in Hq|].
    rewrite E. cbn [mbind option_bind]. eexists _, _. split; [done|]. split; [done|]. split; [done|].
    eapply smi_keeps_trans; [apply (keeps_count s _ attentions)|]. by apply keeps_same.
Qed.

Lemma events_good u s : core_inv s -> sm_idle (si_sm s) -> good s [] (request_own_events e u s).
Proof.
  intros Hi Hid. destruct (idle_free s Hi Hid) as [Hs Hc]. pose proof Hi as (Hm & _ & _ & _ & Hq).
  assert (Forall msg_ok (xmit_msgs s ++ hp_xmit_msgs s)) as Hq' by (unfold here in Hq; by rewrite Hc in Hq).
  unfold request_own_events, ipmi_alloc_smi_msg. destruct (req_events s); cycle 1.
  { eexists _, _. split; [done|]. split; [done|]. split; [done|apply smi_keeps_refl]. }
  destruct (alloc e) as [m|] eqn:Em.
  - set (m' := set_tagged false m). set (s1 := add_note (Allocated m') (set_req_events false s)).
    assert (arrays_ok m') as Ha by (by apply (proj1 e_ok) in Em).
    destruct (own_request_ok IPMI_READ_EVENT_MSG_BUFFER_CMD SI_GETTING_EVENTS m' s1 Hm Ha) as (d & m2 & E & Hd & Hni & Hm2 & Ea & Et); [done|].
    rewrite E. cbn [mbind option_bind]. eexists _, _. split; [done|]. split; [|split; [done|]].
    + split; [done|]. split; [done|]. split; [cbn; congruence|]. split; [done|]. by constructor.
    + apply (smi_keeps_trans _ _ s1 [m']); [eapply smi_keeps_trans; [|by apply keeps_alloc]; by apply keeps_same|].
      apply keeps_moved; try done; [intros a|]; unfold here; cbn; rewrite Hc; cbn; sums.
      * assert (occ a m2 = occ a m') as -> by (unfold occ; by rewrite Ea). lia.
      * assert (tag m2 = tag m') as -> by (unfold tag; by rewrite Et). lia.
  - eexists _, _. split; [done|]. split; [apply core_free; done|]. split; [done|]. apply keeps_same. by unfold same_msgs.
Qed.

Definition done_well s b (r : option (smi_info * outcome)) : Prop :=
  exists s' o, r = Some (s', o) /\ core_inv s' /\ outcome_ok o s' /\ keeps s (block_msgs b) s' (outcome_msgs o).

Lemma good_go s b (r : option (smi_info * block)) : good s (block_msgs b) r -> done_well s b (p ← r; Some (p.1, Go p.2)).
Proof. intros (s' & b' & -> & ? & ? & ?). by exists s', (Go b'). Qed.

Lemma keeps_done s b s' o : core_inv s -> outcome_ok o s' -> same_msgs s s' -> si_sm s' = si_sm s -> si_state s' = si_state s ->
  outcome_msgs o = block_msgs b -> done_well s b (Some (s', o)).
Proof.
  intros Hi Ho Hs E1 E2 Em. pose proof Hs as (E3 & E4 & E5 & _). eexists _, _. split; [done|]. split; [|split; [done|rewrite Em; by apply keeps_same]].
  destruct Hi as (H1 & H2 & H3). unfold core_inv, busy, msgs_inv, here in *. by rewrite E1, E2, E3, E4, E5.
Qed.

(** The second event of the handler ends a transaction, which goes unnoticed:
    another thread has started one while the lock was given up. *)
Definition overlooked b s : Prop :=
  exists u r s', b = After u /\ sm_event_ hw e 0 s = Some (r, s') /\ (r = SI_SM_TRANSACTION_COMPLETE \/ r = SI_SM_HOSED).

(** Every other block that a thread may run does its work. *)
Lemma block_exec_ok b s : core_inv s -> block_ok b s -> ~ overlooked b s ->
  done_well s b (exec hw irq oem_data_avail_handler xaction_notifier e b s).
Proof.
  intros Hi Hb Hno. pose proof Hi as (Hm & _ & _ & _ & Hq). destruct b as [time u|u|r u|u|u|u|r u|m b|b| |b| | | |]; cbn [exec].
  - by apply good_go, handler_good.
  - destruct (tail_event_ok 0 s u Hi) as (r & d & E & H1 & H2). rewrite E. cbn [mbind option_bind fst snd].
    destruct H1 as [Hi' Hb']; [destruct r; auto; destruct Hno; exists u; eauto 10|].
    eexists _, _. split; [done|]. split; [done|]. split; [exact Hb'|]. by apply keeps_same.
  - by apply good_go, tail_good.
  - by apply good_go, start_next_good.
  - apply keeps_done; try done; [apply started_ok|by destruct u].
  - by apply good_go, events_good.
  - destruct u as [| |j]; cbn [return_]; [by apply keeps_done| |by apply keeps_done].
    by destruct r; apply keeps_done.
  - eexists _, _. split; [done|]. split; [done|]. split; [apply Hb|]. apply keeps_given; [apply Hb|auto].
  - eexists _, _. split; [done|]. split; [done|]. split; [apply Hb|]. cbn [outcome_msgs block_msgs].
    split; [intros a|intros n Hn|by apply order_note|intros Hd; by apply Forall_app_2; [|constructor]|done..].
    + unfold owed. cbn [trace add_note]. sums. change (here (add_note Pretimeout s)) with (here s). cbn. lia.
    + unfold tags. cbn [trace add_note]. sums. change (here (add_note Pretimeout s)) with (here s). cbn. rewrite Hn. f_equal. lia.
  - unfold sender_kick. destruct (si_state s) eqn:Es; try by apply keeps_done. destruct (curr_msg s) eqn:Ec; by apply keeps_done.
  - unfold set_run_to_completion. destruct b; by apply keeps_done.
  - by apply keeps_done.
  - eexists _, _. split; [done|]. split; [done|]. split; [done|]. apply keeps_count.
  - unfold cleanup_irq. destruct (si_state s) eqn:Es; try by apply keeps_done. destruct (curr_msg s) eqn:Ec; [by apply keeps_done|].
    unfold disable_si_irq. destruct (_ && _); cbn [mbind option_bind]; [|by apply keeps_done].
    destruct (core_waiting SI_DISABLE_INTERRUPTS1 _ s enables_small) as (d & E & Hi'); [done..|split; [done|]; split; [done|]; unfold here in Hq; by rewrite Ec in Hq|].
    unfold start_disable_irq. rewrite E. cbn [mbind option_bind]. eexists _, _. split; [done|]. split; [done|]. split; [done|]. by apply keeps_same.
  - done.
Qed.

End inv.
