(* ===== verification/SmiSpec.v ===== *)
(** The IPMI system interface under every interleaving of its threads. *)

From S2P Require Import Prelude IpmiSm Smi SmiInv.
Local Open Scope Z_scope.

Section threads.
Context {D : Type} `{SiSm D}.
Context (hw : hardware) (irq oem_data_avail_handler xaction_notifier : bool).
Context (hw_ok : sm_hardware hw).

Implicit Types s : smi_info (D := D).
Implicit Types y : sys (D := D).

Notation step := (sys_step hw irq oem_data_avail_handler xaction_notifier).

(** A message as [ipmi_alloc_smi_msg] and the upper layer make it. *)
Definition sendable (m : ipmi_smi_msg) : Prop := msg_ok m /\ tagged m = false.

(** What the upper layer, the memory and the schedule may do: messages fit, none
    is sent after the interface has been shut down, and the second event of the
    handler does not end a transaction. *)
Definition step_ok (c : choice) y : Prop :=
  env_ok (meets c) /\
  (forall m priority, calls c = Sender m priority -> threads y !! who c = Some Outside ->
    sendable m /\ stop_operation (info y) = false) /\
  (forall b, threads y !! who c = Some (Running b) -> ~ overlooked hw (meets c) b (info y)).

Inductive smi_reachable (n : nat) : sys -> Prop :=
| smi_start d now expires s : sm_idle d -> smi_init irq d now expires = Some s ->
    smi_reachable n (Sys s (replicate n Outside))
| smi_next y y' c : smi_reachable n y -> step_ok c y -> step c y = Some y' -> smi_reachable n y'.

(** A thread that waits for a lock. *)
Definition spins (p : pc) s : bool :=
  match p with
  | Sending _ _ => msg_lock s
  | Locking _ => si_lock s
  | Running b => blocked b s
  | _ => false
  end.

Definition thread_msgs (l : list pc) : list ipmi_smi_msg := l ≫= pc_msgs.

(** ** Accounts of all the threads *)

Record conserves s (ms : list ipmi_smi_msg) s' (ms' : list ipmi_smi_msg) : Prop := Conserves {
  conserves_owed a : owed a s' ms' = owed a s ms;
  conserves_tags n : pendingRequests s = s32 n -> pendingRequests s' = s32 (n + tags s' ms' - tags s ms);
  conserves_order : in_order s -> in_order s';
  conserves_answers : Forall answered (trace s) -> Forall answered (trace s');
}.

Lemma keeps_conserves s ms s' ms' : keeps s ms s' ms' -> conserves s ms s' ms'.
Proof. intros []. by split. Qed.

Lemma conserves_trans s1 ms1 s2 ms2 s3 ms3 : conserves s1 ms1 s2 ms2 -> conserves s2 ms2 s3 ms3 -> conserves s1 ms1 s3 ms3.
Proof.
  intros [Ha1 Ht1 Ho1 Hd1] [Ha2 Ht2 Ho2 Hd2]. split; [intros a; rewrite Ha2; apply Ha1| |auto..].
  intros n Hn. rewrite (Ht2 _ (Ht1 _ Hn)). f_equal. lia.
Qed.

(** The same messages, queues, counts and notes. *)
Definition same_accounts s s' : Prop :=
  curr_msg s' = curr_msg s /\ xmit_msgs s' = xmit_msgs s /\ hp_xmit_msgs s' = hp_xmit_msgs s /\ trace s' = trace s /\
  pendingRequests s' = pendingRequests s.

Lemma conserves_same s s' ms : same_accounts s s' -> conserves s ms s' ms.
Proof.
  intros (E1 & E2 & E3 & E4 & E5). split; [intros a|intros n Hn| |by rewrite E4].
  - unfold owed, here. by rewrite E1, E2, E3, E4.
  - unfold tags, here. rewrite E1, E2, E3, E4, E5, Hn. f_equal. lia.
  - unfold in_order. rewrite E4. intros [H1 H2]. split; [|done]. intros []; unfold queue; rewrite ?E2, ?E3; [apply (H1 true)|apply (H1 false)].
Qed.

Lemma thread_msgs_insert l t p p' w : l !! t = Some p ->
  sum w (thread_msgs (<[t := p']> l)) = sum w (thread_msgs l) - sum w (pc_msgs p) + sum w (pc_msgs p').
Proof.
  unfold thread_msgs. revert t. induction l as [|q l IH]; intros [|t] Ht; cbn in *; [done..| |].
  - simplify_eq. rewrite !sum_app. lia.
  - rewrite !sum_app, IH by done. lia.
Qed.

(** What one thread does is what all of them do. *)
Lemma conserves_threads l t p p' s s' : l !! t = Some p -> conserves s (pc_msgs p) s' (pc_msgs p') ->
  conserves s (thread_msgs l) s' (thread_msgs (<[t := p']> l)).
Proof.
  intros Ht [Ha Hp Ho Hd].
  assert (forall w, sum w (here s' ++ thread_msgs (<[t := p']> l)) - sum w (here s ++ thread_msgs l)
    = sum w (here s' ++ pc_msgs p') - sum w (here s ++ pc_msgs p)) as Hw.
  { intros w. rewrite !sum_app, (thread_msgs_insert l t p p' w Ht). lia. }
  split; [intros a|intros n Hn|done..].
  - specialize (Ha a). specialize (Hw (occ a)). unfold owed in *. lia.
  - rewrite (Hp n Hn). f_equal. specialize (Hw tag). unfold tags. lia.
Qed.

(** ** The invariant *)

Record sys_inv y : Prop := SysInv {
  inv_core : core_inv (info y);
  inv_running t b : threads y !! t = Some (Running b) -> si_lock (info y) = true /\ block_ok b (info y);
  inv_mutex t t' b b' : threads y !! t = Some (Running b) -> threads y !! t' = Some (Running b') -> t' = t;
  inv_locking t b : threads y !! t = Some (Locking b) -> resumable b;
  inv_sending t m priority : threads y !! t = Some (Sending m priority) -> sendable m;
  inv_owed a : owed a (info y) (thread_msgs (threads y)) = 0;
  inv_tags : pendingRequests (info y) = s32 (tags (info y) (thread_msgs (threads y)));
  inv_order : in_order (info y);
  inv_answers : Forall answered (trace (info y));
}.

(** The fields that the invariant of the interface and its blocks are about. *)
Lemma core_same s s' : si_sm s' = si_sm s -> si_state s' = si_state s -> curr_msg s' = curr_msg s ->
  Forall msg_ok (xmit_msgs s' ++ hp_xmit_msgs s') -> core_inv s -> core_inv s'.
Proof.
  intros E1 E2 E3 Hq (H1 & H2 & H3 & H4 & H5). unfold core_inv, busy, msgs_inv, here in *. rewrite E1, E2, E3.
  split_and!; [done..|]. apply Forall_app. split; [|done]. by apply Forall_app in H5 as [? _].
Qed.

Lemma block_same b s s' : si_sm s' = si_sm s -> si_state s' = si_state s -> curr_msg s' = curr_msg s ->
  block_ok b s -> block_ok b s'.
Proof. intros E1 E2 E3. unfold block_ok. by rewrite E1, E2, E3. Qed.

(** A step of a thread that is not at a block. *)
Lemma step_outside y t p s' p' : sys_inv y -> threads y !! t = Some p -> (forall b, p <> Running b) ->
  (forall b, p' = Running b -> si_lock (info y) = false /\ si_lock s' = true /\ block_ok b s') ->
  (forall b, p' = Locking b -> resumable b) -> (forall m priority, p' = Sending m priority -> sendable m) ->
  core_inv s' -> (forall b, block_ok b (info y) -> block_ok b s') -> (si_lock (info y) = true -> si_lock s' = true) ->
  conserves (info y) (pc_msgs p) s' (pc_msgs p') -> sys_inv (Sys s' (<[t := p']> (threads y))).
Proof.
  intros Hi Ht Hp Hr Hl Hs Hc Hb Hlock Hk. pose proof (conserves_threads _ _ _ _ _ _ Ht Hk) as [Ha Htg Ho Hd].
  assert (forall u q, <[t := p']> (threads y) !! u = Some q -> u = t /\ q = p' \/ u <> t /\ threads y !! u = Some q) as Hu.
  { intros u q. destruct (decide (u = t)) as [->|Hne]; [|rewrite list_lookup_insert_ne by done; auto].
    rewrite list_lookup_insert_eq by (by eapply lookup_lt_Some). intros [= <-]. auto. }
  split; cbn [info threads].
  - done.
  - intros u b [[-> E]|[Hne E]]%Hu; [by destruct (Hr b)|]. destruct (inv_running _ Hi _ _ E). auto.
  - intros u u' b b' [[-> E]|[Hne E]]%Hu [[-> E']|[Hne' E']]%Hu; [done| | |by eapply (inv_mutex _ Hi)].
    + destruct (Hr b) as [Hf _]; [done|]. destruct (inv_running _ Hi _ _ E'). congruence.
    + destruct (Hr b') as [Hf _]; [done|]. destruct (inv_running _ Hi _ _ E). congruence.
  - intros u b [[-> E]|[Hne E]]%Hu; [by apply Hl|by eapply (inv_locking _ Hi)].
  - intros u m pr [[-> E]|[Hne E]]%Hu; [by eapply Hs|by eapply (inv_sending _ Hi)].
  - intros a. rewrite Ha. apply (inv_owed _ Hi).
  - rewrite (Htg _ (inv_tags _ Hi)). f_equal. lia.
  - apply Ho, (inv_order _ Hi).
  - apply Hd, (inv_answers _ Hi).
Qed.
(** A step at a block. *)
Lemma step_block y t b s1 s' p' : sys_inv y -> threads y !! t = Some (Running b) ->
  core_inv s1 -> keeps (info y) (block_msgs b) s1 (pc_msgs p') ->
  s' = s1 /\ (exists b', p' = Running b' /\ block_ok b' s1) \/
  s' = set_si_lock false s1 /\ (forall b', p' <> Running b') /\ (forall b', p' = Locking b' -> resumable b') /\ (forall m priority, p' <> Sending m priority) ->
  sys_inv (Sys s' (<[t := p']> (threads y))).
Proof.
  intros Hi Ht Hc Hk Hor.
  assert (conserves (info y) (pc_msgs (Running b)) s' (pc_msgs p')) as Hk'.
  { eapply conserves_trans; [by apply keeps_conserves|]. by destruct Hor as [[-> _]|[-> _]]; apply conserves_same. }
  pose proof (conserves_threads _ _ _ _ _ _ Ht Hk') as [Ha Htg Ho Hd].
  assert (core_inv s') as Hc' by (destruct Hor as [[-> _]|[-> _]]; exact Hc).
  assert (forall u q, <[t := p']> (threads y) !! u = Some q -> u = t /\ q = p' \/ u <> t /\ threads y !! u = Some q /\ (forall b', q <> Running b')) as Hu.
  { intros u q. destruct (decide (u = t)) as [->|Hne].
    - rewrite list_lookup_insert_eq by (by eapply lookup_lt_Some). intros [= <-]. auto.
    - rewrite list_lookup_insert_ne by done. intros E. right. split; [done|]. split; [done|]. intros b' ->. by destruct Hne; eapply (inv_mutex _ Hi). }
  destruct (inv_running _ Hi _ _ Ht) as [Hlock _]. split; cbn [info threads].
  - done.
  - intros u b' [[-> E]|(Hne & _ & E)]%Hu; [|by destruct (E b')]. destruct Hor as [(-> & b2 & E2 & Hb2)|(_ & Hn & _)]; [|by destruct (Hn b')].
    split; [|congruence]. by rewrite (keeps_lock _ _ _ _ Hk).
  - intros u u' b1 b2 [[-> E]|(Hne & _ & E)]%Hu [[-> E']|(Hne' & _ & E')]%Hu; [done|by destruct (E' b2)|by destruct (E b1)..].
  - intros u b' [[-> E]|(Hne & E & _)]%Hu; [|by eapply (inv_locking _ Hi)]. destruct Hor as [(_ & b2 & E2 & Hb2)|(_ & _ & Hl & _)]; [congruence|by apply Hl].
  - intros u m pr [[-> E]|(Hne & E & _)]%Hu; [|by eapply (inv_sending _ Hi)]. destruct Hor as [(_ & b2 & E2 & Hb2)|(_ & _ & _ & Hs)]; [congruence|by destruct (Hs m pr)].
  - intros a. rewrite Ha. apply (inv_owed _ Hi).
  - rewrite (Htg _ (inv_tags _ Hi)). f_equal. lia.
  - apply Ho, (inv_order _ Hi).
  - apply Hd, (inv_answers _ Hi).
Qed.

Lemma order_queued h m s s1 : queue h s1 = queue h s ++ [m] -> queue (negb h) s1 = queue (negb h) s ->
  trace s1 = trace s ++ [Queued h m] -> in_order s -> in_order s1.
Proof.
  intros Eq Eo Et [H1 H2]. split; rewrite Et; [|by apply high_first_snoc].
  intros h'. unfold all_started, all_queued in *. rewrite !bind_app. cbn. rewrite !app_nil_r.
  destruct (decide (h' = h)) as [->|Hne].
  - by rewrite Eq, fmap_app, app_assoc, (H1 h), (eqb_reflx h).
  - assert (h' = negb h) as -> by (by destruct h', h). assert (Bool.eqb (negb h) h = false) as -> by (by destruct h).
    by rewrite Eo, app_nil_r.
Qed.

(** [sender] puts the message into a queue. *)
Lemma sender_queues m priority s : Forall msg_ok (here s) -> sendable m ->
  let r := enqueue m priority s in
  si_sm r.1 = si_sm s /\ si_state r.1 = si_state s /\ curr_msg r.1 = curr_msg s /\ si_lock r.1 = si_lock s /\
  Forall msg_ok (xmit_msgs r.1 ++ hp_xmit_msgs r.1) /\ conserves s [m] r.1 (pc_msgs r.2) /\
  (exists b, r.2 = Locking b /\ resumable b).
Proof.
  intros Hq [Hm Ht] r. subst r. unfold here in Hq. apply Forall_app in Hq as [_ [Hx Hh]%Forall_app]. unfold enqueue.
  assert (msg_ok (set_tagged true m)) as Hm' by done.
  assert (forall s' : smi_info (D := D), tags s' [m] = tags s' []) as Hts by (intros s'; unfold tags; sums; unfold tag at 2; rewrite Ht; lia).
  destruct (run_to_completion s); [|destruct (0 <? priority)]; cbn [fst snd];
    (split_and!; [done..| | |by eexists]; [apply Forall_app; by split; try (apply Forall_app_2; [|constructor])|]).
  - split; [intros a|intros n Hn| |intros Hd; by apply Forall_app_2; [|constructor]].
    + unfold owed, here. cbn. sums. cbn. lia.
    + rewrite Hts. unfold tags, here. cbn. sums. cbn. unfold tag at 3. rewrite Ht, Hn. f_equal. lia.
    + by apply (order_queued false m).
  - split; [intros a|intros n Hn| |intros Hd; by apply Forall_app_2; [|constructor]].
    + unfold owed, here. cbn. sums. cbn. change (occ a (set_tagged true m)) with (occ a m). lia.
    + rewrite Hts. unfold tags, here. cbn. sums. cbn. rewrite Hn, s32_add. f_equal. lia.
    + by apply (order_queued true (set_tagged true m)).
  - split; [intros a|intros n Hn| |intros Hd; by apply Forall_app_2; [|constructor]].
    + unfold owed, here. cbn. sums. cbn. change (occ a (set_tagged true m)) with (occ a m). lia.
    + rewrite Hts. unfold tags, here. cbn. sums. cbn. rewrite Hn, s32_add. f_equal. lia.
    + by apply (order_queued false (set_tagged true m)).
Qed.
(** A thread that goes on from outside, or to wait for a lock. *)
Lemma step_calm y t p s' p' : sys_inv y -> threads y !! t = Some p -> (forall b, p <> Running b) -> (forall b, p' <> Running b) ->
  (forall b, p' = Locking b -> resumable b) -> (forall m priority, p' = Sending m priority -> sendable m) ->
  si_sm s' = si_sm (info y) -> si_state s' = si_state (info y) -> curr_msg s' = curr_msg (info y) ->
  si_lock s' = si_lock (info y) -> Forall msg_ok (xmit_msgs s' ++ hp_xmit_msgs s') ->
  conserves (info y) (pc_msgs p) s' (pc_msgs p') -> sys_inv (Sys s' (<[t := p']> (threads y))).
Proof.
  intros Hi Ht Hp Hp' Hl Hs E1 E2 E3 E4 Hq Hk. apply (step_outside y t p s' p'); try done.
  - intros b E. by destruct (Hp' b).
  - apply (core_same (info y)); try done. apply (inv_core _ Hi).
  - intros b. by apply block_same.
  - by rewrite E4.
Qed.

Lemma inv_queues y : sys_inv y -> Forall msg_ok (xmit_msgs (info y) ++ hp_xmit_msgs (info y)).
Proof. intros Hi. pose proof (inv_core _ Hi) as (_ & _ & _ & _ & Hq). by apply Forall_app in Hq as [_ ?]. Qed.

Lemma conserves_note n s ms : (forall a, enters a n = 0 /\ leaves a n = 0) -> leaves_tag n = 0 -> answered n ->
  (forall h m, n <> Queued h m) -> (forall h m, n <> Started h m) -> conserves s ms (add_note n s) ms.
Proof.
  intros Ha Ht Hd Hq Hs. split; [intros a|intros z Hn|by apply order_note|intros ?; by apply Forall_app_2; [|constructor]].
  - unfold owed. cbn [trace add_note]. sums. change (here (add_note n s)) with (here s). destruct (Ha a) as [-> ->]. lia.
  - unfold tags. cbn [trace add_note]. sums. change (here (add_note n s)) with (here s). cbn [pendingRequests add_note].
    rewrite Hn, Ht. f_equal. lia.
Qed.

Lemma conserves_accepted m s : tagged m = false -> conserves s [] (add_note (Accepted m) s) [m].
Proof.
  intros Ht. split; [intros a|intros z Hn|by apply order_note|intros ?; by apply Forall_app_2; [|constructor]].
  - unfold owed. cbn [trace add_note]. sums. change (here (add_note (Accepted m) s)) with (here s). cbn. lia.
  - unfold tags. cbn [trace add_note]. sums. change (here (add_note (Accepted m) s)) with (here s). cbn [pendingRequests add_note].
    rewrite Hn. f_equal. cbn. assert (tag m = 0) as -> by (unfold tag; by rewrite Ht). lia.
Qed.

Lemma enter_inv y t c r : sys_inv y -> threads y !! t = Some Outside ->
  (forall m priority, c = Sender m priority -> sendable m /\ stop_operation (info y) = false) ->
  enter c (info y) = Some r -> sys_inv (Sys r.1 (<[t := r.2]> (threads y))).
Proof.
  intros Hi Ht Hc E. pose proof (inv_queues y Hi) as Hq.
  assert (forall b, resumable b -> block_msgs b = [] -> sys_inv (Sys (info y) (<[t := Locking b]> (threads y)))) as Hlocking.
  { intros b Hb Hm. apply (step_calm y t Outside); try done; [intros b' [= <-]; done|]. cbn [pc_msgs]. rewrite Hm. by apply conserves_same. }
  destruct c as [m priority| | | | |b| |b|]; cbn in E.
  - destruct (Hc m priority eq_refl) as [Hm Hst]. unfold sender in E. rewrite Hst in E. injection E as <-. cbn [fst snd].
    apply (step_calm y t Outside); try done; [intros m' pr [= <- <-]; done|]. by apply conserves_accepted, Hm.
  - injection E as <-. by apply Hlocking.
  - injection E as <-. by apply Hlocking.
  - injection E as <-. by apply Hlocking.
  - injection E as <-. by apply Hlocking.
  - injection E as <-. by apply Hlocking.
  - injection E as <-. cbn [fst snd]. apply (step_calm y t Outside); try done; unfold request_events; destruct (stop_operation _); try done; by apply conserves_same.
  - injection E as <-. cbn [fst snd]. apply (step_calm y t Outside); try done; unfold set_maintenance_mode; destruct b; try done; by apply conserves_same.
  - injection E as <-. cbn [fst snd]. apply (step_calm y t Outside); try done; [intros b [= <-]; done|by apply conserves_same].
Qed.

Lemma settle_block s1 o s' p' : settle o s1 = (s', p') -> outcome_ok o s1 ->
  s' = s1 /\ (exists b', p' = Running b' /\ block_ok b' s1) \/
  s' = set_si_lock false s1 /\ (forall b', p' <> Running b') /\ (forall b', p' = Locking b' -> resumable b') /\ (forall m priority, p' <> Sending m priority).
Proof.
  destruct o as [b|b| |r j|]; cbn; intros [= <- <-] Ho; [left; eauto|right..|done]; (split; [done|]; split; [done|]; split; [|done]); [by intros b' [= <-]|done..].
Qed.

Lemma settle_msgs s1 o s' p' : settle o s1 = (s', p') -> pc_msgs p' = outcome_msgs o.
Proof. by destruct o; intros [= <- <-]. Qed.

Lemma smi_step_inv c y y' : sys_inv y -> step_ok c y -> step c y = Some y' -> sys_inv y'.
Proof.
  intros Hi (He & Hc & Hno) E. unfold sys_step in E. destruct (threads y !! who c) as [p|] eqn:Ht; [|done]. cbn [mbind option_bind] in E.
  destruct (thread_step _ _ _ _ _ _ p (info y)) as [r|] eqn:Er; [|done]. injection E as <-.
  destruct p as [|m priority|b|b|res j]; cbn [thread_step] in Er.
  - apply (enter_inv y (who c) (calls c)); [done..| |done]. intros m priority Hm. by eapply Hc.
  - destruct (msg_lock (info y)); [done|]. injection Er as <-.
    pose proof (inv_core _ Hi) as (_ & _ & _ & _ & Hq).
    destruct (sender_queues m priority (info y) Hq (inv_sending _ Hi _ _ _ Ht)) as (E1 & E2 & E3 & E4 & Hq' & Hk & b & Eb & Hb).
    apply (step_calm y (who c) (Sending m priority)); try done; rewrite Eb; [done|by intros b' [= <-]|done].
  - destruct (si_lock (info y)) eqn:El; [done|]. injection Er as <-. cbn [fst snd].
    apply (step_outside y (who c) (Locking b)); try done.
    + intros b' [= <-]. split; [done|]. split; [done|]. apply resumable_ok, (inv_locking _ Hi _ _ Ht).
    + apply (inv_core _ Hi).
    + by apply conserves_same.
  - destruct (blocked b (info y)); [done|]. destruct (inv_running _ Hi _ _ Ht) as [_ Hb].
    destruct (block_exec_ok hw irq oem_data_avail_handler xaction_notifier hw_ok (meets c) He b (info y) (inv_core _ Hi) Hb (Hno b eq_refl))
      as (s1 & o & Ex & Hc1 & Ho & Hk). rewrite Ex in Er. cbn in Er. injection Er as <-.
    destruct (settle o s1) as [s' p'] eqn:Es. cbn [fst snd]. eapply (step_block y (who c) b s1); [done..| |by eapply settle_block].
    by rewrite (settle_msgs _ _ _ _ Es).
  - injection Er as <-. cbn [fst snd]. pose proof (inv_queues y Hi) as Hq.
    apply (step_calm y (who c) (SettingTimer res j)); try done; unfold set_si_timer; repeat case_match; try done.
    all: eapply conserves_trans; [|apply conserves_note; done]; by apply conserves_same.
Qed.

Lemma smi_init_inv n d now expires s : sm_idle d -> smi_init irq d now expires = Some s -> sys_inv (Sys s (replicate n Outside)).
Proof.
  intros Hd E. unfold smi_init, start_clear_flags in E. set (s0 := Smi _ _ _ _ _ _ _ _ _ _ _ _ _ _ _ _) in E.
  assert (free_inv s0) as Hf by (split; [exists None; by apply sm_idle_inv|done]).
  destruct (core_waiting SI_CLEARING_FLAGS (app_request IPMI_CLEAR_MSG_FLAGS_CMD ++ [WDT_PRE_TIMEOUT_INT]) s0) as (d' & E' & Hc);
    [by apply small_app3|done..|]. rewrite E' in E. cbn in E. injection E as <-.
  assert (forall t (p : pc), replicate n Outside !! t = Some p -> p = Outside) as Hout by (intros t p Hp; by apply lookup_replicate in Hp as [-> _]).
  assert (thread_msgs (replicate n Outside) = []) as Hm by (unfold thread_msgs; clear; induction n; done).
  assert (here (if irq then set_state SI_CLEARING_FLAGS_THEN_SET_IRQ (set_state SI_CLEARING_FLAGS (set_sm d' s0)) else set_state SI_CLEARING_FLAGS (set_sm d' s0)) = []) as Hh by (by destruct irq).
  split; cbn [info threads].
  - destruct irq; [|done]. destruct Hc as (H1 & H2 & H3 & H4 & H5). split; [done|]. split; [|done]. intros _. apply H2. by left.
  - intros t b Hb%Hout. done.
  - intros t t' b b' Hb%Hout. done.
  - intros t b Hb%Hout. done.
  - intros t m pr Hb%Hout. done.
  - intros a. unfold owed. rewrite Hm, Hh. by destruct irq.
  - unfold tags. rewrite Hm, Hh. by destruct irq.
  - destruct irq; (split; [by intros []|intros p m q E; by destruct p]).
  - by destruct irq.
Qed.

Lemma smi_reachable_inv n y : smi_reachable n y -> sys_inv y.
Proof. induction 1; [by eapply smi_init_inv|by eapply smi_step_inv]. Qed.
End threads.
