(* ===== verification/SmiKcs.v ===== *)
(** What the IPMI system interface keeps, with any state machine; and runs of it
    with the KCS machine and a device that answers every request. *)

From S2P Require Import Prelude IpmiSm Smi SmiInv SmiSpec.
From S2P Require Kcs.
#[local] Existing Instances Kcs.kcs_smi_handlers Kcs.kcs_si_sm.
Local Open Scope Z_scope.

(** ** A device *)

(** A BMC with a KCS interface: it takes a request, answers it with completion
    code 0 and one more byte, [code], and is busy once after that. *)
Inductive bmc :=
| BmcIdle
| BmcWrite (req : list Z) (last : bool)
| BmcRead (rsp : list Z)
| BmcBusy.

Definition bmc_answer (code : Z) (req : list Z) : list Z := [Z.lor (nth 0 req 0) 4; nth 1 req 0; 0; code].

Definition bmc_step (code : Z) (b : bmc) (a : act) : bmc :=
  match b, a with
  | BmcWrite l false, Out 1 v => if v =? Kcs.KCS_WRITE_END then BmcWrite l true else b
  | BmcWrite l false, Out 0 v => BmcWrite (l ++ [v]) false
  | BmcWrite l true, Out 0 v => BmcRead (bmc_answer code (l ++ [v]))
  | BmcRead (_ :: l), Out 0 _ => match l with [] => BmcBusy | _ => BmcRead l end
  | BmcBusy, In 1 _ => BmcIdle
  | BmcIdle, Out 1 v => if v =? Kcs.KCS_WRITE_START then BmcWrite [] false else b
  | _, _ => b
  end.

Definition bmc_state (code : Z) (h : history) : bmc := fold_left (bmc_step code) h BmcIdle.

Definition bmc_hw (code : Z) : hardware := fun h port =>
  match bmc_state code h with
  | BmcIdle => 0
  | BmcWrite _ _ => if port =? 1 then 0x80 else 0
  | BmcRead l => if port =? 1 then 0x41 else nth 0 l 0
  | BmcBusy => if port =? 1 then 0x02 else 0
  end.

(** ** Runs *)

Definition example_msg (a : nat) (req : list Z) : ipmi_smi_msg :=
  Msg a (req ++ replicate (272 - length req) 0) (Z.of_nat (length req)) (replicate 272 0) 0 false.

Definition example_env : env := Env 0 None [0; 0; 0; 0].

Definition thread (t n : nat) (c : call) : list choice := replicate n (Choice t c example_env).

Definition begin (irq : bool) (n : nat) : sys (D := Kcs.si_sm_data) :=
  match smi_init irq Kcs.example_kcs 0 1 with
  | Some s => Sys s (replicate n Outside)
  | None => Sys (Smi Kcs.example_kcs SI_NORMAL None [] [] false false 0 false false false false 0 0 0 []) []
  end.

#[export] Instance ipmi_smi_msg_eq_dec : EqDecision ipmi_smi_msg.
Proof. solve_decision. Defined.

(** A run that checks what [step_ok] asks for. *)
Section run.
Context (xaction : bool) (msgs : list ipmi_smi_msg).

Definition sys_step_kcs := sys_step (D := Kcs.si_sm_data) (bmc_hw 0) false false xaction.

Definition step_okb (c : choice) (y : sys (D := Kcs.si_sm_data)) : bool :=
  match threads y !! who c with
  | Some Outside => match calls c with Sender m _ => bool_decide (m ∈ msgs) && negb (stop_operation (info y)) | _ => true end
  | Some (Running (After _)) =>
      match sm_event_ (bmc_hw 0) example_env 0 (info y) with
      | Some (SI_SM_TRANSACTION_COMPLETE, _) | Some (SI_SM_HOSED, _) => false
      | _ => true
      end
  | _ => true
  end.

Fixpoint checked_run (cs : list choice) (y : sys (D := Kcs.si_sm_data)) : option sys :=
  match cs with
  | [] => Some y
  | c :: cs => if step_okb c y then y ← sys_step_kcs c y; checked_run cs y else None
  end.

Fixpoint run_kcs (cs : list choice) (y : sys (D := Kcs.si_sm_data)) : option sys :=
  match cs with
  | [] => Some y
  | c :: cs => y ← sys_step_kcs c y; run_kcs cs y
  end.

Lemma example_env_ok : env_ok example_env.
Proof. split; [done|]. split; [cbn; lia|]. repeat constructor; by cbn. Qed.

Lemma step_okb_ok c y : Forall sendable msgs -> meets c = example_env -> step_okb c y = true -> step_ok (bmc_hw 0) c y.
Proof.
  intros Hm He Hb. unfold step_ok, step_okb in *. rewrite He. split; [apply example_env_ok|]. split.
  - intros m priority Hc Ht. rewrite Hc, Ht in Hb. apply andb_prop in Hb as [Hin%bool_decide_eq_true Hs%negb_true_iff].
    split; [|done]. by eapply Forall_forall.
  - intros b Ht (u & r & s' & -> & E & Hr). rewrite Ht, E in Hb. by destruct Hr as [-> | ->].
Qed.

Lemma checked_run_reachable n cs y y' : Forall sendable msgs -> Forall (fun c => meets c = example_env) cs ->
  smi_reachable (bmc_hw 0) false false xaction n y -> checked_run cs y = Some y' -> smi_reachable (bmc_hw 0) false false xaction n y'.
Proof.
  intros Hm Hcs. revert y. induction Hcs as [|c cs Hc Hcs IH]; intros y Hy; cbn [checked_run]; [by intros [= <-]|].
  destruct (step_okb c y) eqn:Eb; [|done]. destruct (sys_step_kcs c y) as [y1|] eqn:E; [|done]. cbn. apply IH.
  eapply smi_next; [done| |done]. by apply step_okb_ok.
Qed.
End run.

Lemma begin_reachable xaction n : smi_reachable (bmc_hw 0) false false xaction n (begin false n).
Proof.
  unfold begin. destruct (smi_init false Kcs.example_kcs 0 1) as [s|] eqn:E; [|vm_compute in E; done].
  eapply (smi_start _ _ _ _ _ Kcs.example_kcs); [|exact E]. split; [apply Kcs.example_inv|done].
Qed.

Lemma example_sendable a req : Forall byte req -> (1 <= length req <= 272)%nat -> sendable (example_msg a req).
Proof.
  intros Hb Hl. split; [|done]. split.
  - unfold arrays_ok, example_msg, IPMI_MAX_MSG_LENGTH. cbn [data rsp]. rewrite length_app, !length_replicate. lia.
  - exists req. split; [|done]. unfold request. cbn [data data_size example_msg]. rewrite length_app, length_replicate.
    rewrite (proj2 (Z.leb_le 0 _)), (proj2 (Z.leb_le _ _)) by lia. cbn. by rewrite Nat2Z.id, take_app_length.
Qed.

(** ** What holds with every state machine *)

(** C14: Whatever the state machine, the device and the interleaving of the
    threads that call the interface, its timer and its interrupt handler: a
    thread takes its next step, without a fault, unless it waits for one of the
    two locks; one thread at most holds [si_lock]; the interface waits for an
    answer only while the machine is at work, and has a message at hand for the
    answers it fetches. This supposes that no transaction ends in the second event
    of the handler, and that nothing is sent after the interface was shut down. *)
Theorem smi_never_faults {D} `{SiSm D} hw irq oem xaction n (y : sys (D := D)) c p :
  sm_hardware hw -> smi_reachable hw irq oem xaction n y -> step_ok hw c y -> threads y !! who c = Some p ->
  (spins p (info y) = true \/ exists y', sys_step hw irq oem xaction c y = Some y') /\
  (forall t t' b b', threads y !! t = Some (Running b) -> threads y !! t' = Some (Running b') -> t' = t) /\
  (si_state (info y) <> SI_NORMAL \/ curr_msg (info y) <> None -> ~ sm_idle (si_sm (info y))) /\
  (si_state (info y) = SI_GETTING_EVENTS \/ si_state (info y) = SI_GETTING_MESSAGES -> curr_msg (info y) <> None).
Proof.
  intros Hhw Hy (He & Hc & Hno) Ht. pose proof (smi_reachable_inv _ _ _ _ Hhw n y Hy) as Hi. pose proof (inv_core _ Hi) as (H1 & H2 & H3 & _).
  split; [|split; [apply (inv_mutex _ Hi)|split; [done|intros Hor; apply H3; by destruct Hor as [-> | ->]]]].
  assert (forall r, thread_step hw irq oem xaction (calls c) (meets c) p (info y) = Some r ->
    spins p (info y) = true \/ exists y', sys_step hw irq oem xaction c y = Some y') as Hgo.
  { intros r Er. right. unfold sys_step. rewrite Ht. cbn [mbind option_bind]. rewrite Er. by eexists. }
  destruct p as [|m priority|b|b|r j]; cbn [spins thread_step] in *.
  - destruct (calls c) as [m priority| | | | |b| |b|] eqn:Ec; try (by eapply Hgo).
    destruct (Hc m priority eq_refl Ht) as [_ Hs]. eapply Hgo. cbn. unfold sender. by rewrite Hs.
  - destruct (msg_lock (info y)); [by left|by eapply Hgo].
  - destruct (si_lock (info y)); [by left|by eapply Hgo].
  - destruct (blocked b (info y)); [by left|]. destruct (inv_running _ Hi _ _ Ht) as [_ Hb].
    destruct (block_exec_ok hw irq oem xaction Hhw (meets c) He b (info y) (inv_core _ Hi) Hb (Hno b Ht)) as (s' & o & E & _).
    eapply Hgo. by rewrite E.
  - by eapply Hgo.
Qed.

(** C13: Under the same conditions no message is lost and none is doubled: a
    message was given to the interface, or allocated by it, as often as it was
    given back or is in a queue, current or in the hands of a thread. What is given
    back has an answer of 3 to 272 bytes, and [pendingRequests] is the number of
    tagged messages at hand and given back (those that the Dell handler
    returned). *)
Theorem smi_conserves {D} `{SiSm D} hw irq oem xaction n (y : sys (D := D)) :
  sm_hardware hw -> smi_reachable hw irq oem xaction n y ->
  (forall a, notes (enters a) (trace (info y))
    = notes (leaves a) (trace (info y)) + sum (occ a) (here (info y) ++ thread_msgs (threads y))) /\
  (forall m, Delivered m ∈ trace (info y) -> 3 <= rsp_size m <= IPMI_MAX_MSG_LENGTH /\ Z.of_nat (length (rsp m)) = IPMI_MAX_MSG_LENGTH) /\
  pendingRequests (info y) = s32 (sum tag (here (info y) ++ thread_msgs (threads y)) + notes leaves_tag (trace (info y))).
Proof.
  intros Hhw Hy. pose proof (smi_reachable_inv _ _ _ _ Hhw n y Hy) as Hi. split; [|split].
  - intros a. pose proof (inv_owed _ Hi a) as E. unfold owed in E. lia.
  - intros m Hm. pose proof (inv_answers _ Hi) as Ha. rewrite Forall_forall in Ha. by destruct (Ha _ Hm).
  - apply (inv_tags _ Hi).
Qed.

(** C16: Under the same conditions the messages of each priority are started in
    the order in which they were queued, and a message of normal priority only
    when every message of high priority queued before has been started. *)
Theorem smi_in_order {D} `{SiSm D} hw irq oem xaction n (y : sys (D := D)) :
  sm_hardware hw -> smi_reachable hw irq oem xaction n y ->
  (forall h, all_queued h (trace (info y))
    = all_started h (trace (info y)) ++ (addr <$> (if h : bool then hp_xmit_msgs (info y) else xmit_msgs (info y)))) /\
  (forall p m q, trace (info y) = p ++ Started false m :: q -> all_started true p = all_queued true p).
Proof.
  intros Hhw Hy. pose proof (inv_order _ (smi_reachable_inv _ _ _ _ Hhw n y Hy)) as [H1 H2]. split; [|exact H2].
  intros h. symmetry. exact (H1 h).
Qed.

(** A machine that has just taken a request takes no other one. *)
Lemma own_request_busy {D} `{SiSm D} cmd st m (s : smi_info (D := D)) req d0 d m' :
  start_transaction req d0 = Some (0, si_sm s) -> sm_inv (Some req) (si_sm s) ->
  own_request cmd st m s = Some (set_state st (set_sm d (set_curr (Some m') s))) ->
  msg_ok m' -> d = si_sm s.
Proof.
  intros Es Hd Eo [_ (r & Er & Hf)]. unfold own_request in Eo.
  destruct (write_at _ 0 _) as [l1|]; [|done]. cbn [mbind option_bind] in Eo. destruct (write_at l1 1 _) as [l2|]; [|done].
  cbn [mbind option_bind] in Eo. set (mm := set_data l2 2 m) in Eo. destruct (request mm) as [r'|] eqn:Er'; [|done].
  cbn [mbind option_bind] in Eo. unfold start_, start in Eo. cbn [si_sm set_curr] in Eo.
  destruct (start_transaction r' (si_sm s)) as [[rv d2]|] eqn:E2; [|done]. cbn in Eo. injection Eo as Ed Em.
  assert (mm = m') as Emm by (by subst mm m'). rewrite Emm, Er in Er'. injection Er' as <-.
  destruct (sm_start (Some req) r (si_sm s) Hd Hf) as (rv' & d' & E' & _ & H2 & _). rewrite E2 in E'. injection E' as -> ->.
  rewrite <- Ed. apply H2. by eapply sm_again.
Qed.

(** When memory is free again and messages are waiting, [handle_flags]
    starts to enable the interrupts and then overwrites the state it has just
    set: with every state machine, the request under way is the one for the
    global enables, the interface waits for a message (so that it will take the
    enables for one and never sets them), and it takes the interrupts for
    enabled. *)
Theorem enable_irq_forgotten {D} `{SiSm D} oem e m next (s : smi_info (D := D)) :
  env_ok e -> alloc e = Some m -> sm_idle (si_sm s) -> interrupt_disabled s = true ->
  flag s WDT_PRE_TIMEOUT_INT = false -> flag s RECEIVE_MSG_AVAIL = true ->
  exists s', handle_flags true oem e handle_flags_fuel next s = Some (s', next) /\
    sm_inv (Some (app_request IPMI_GET_BMC_GLOBAL_ENABLES_CMD)) (si_sm s') /\
    si_state s' = SI_GETTING_MESSAGES /\ interrupt_disabled s' = false.
Proof.
  intros He Em Hi Hd Hw Hr. destruct (He) as (Ha & _). specialize (Ha m Em).
  destruct enables_small as [Hb Hl].
  destruct (sm_start None _ (si_sm s) (sm_idle_inv _ Hi) (sm_fits_small _ Hb (proj2 Hl))) as (rv & d & E & H1 & _ & H3).
  assert (rv = 0) as -> by (apply H3; [done|pose proof sm_size_3; cbn; lia]). destruct (H1 eq_refl) as [Hd1 Hn].
  unfold handle_flags, handle_flags_fuel. rewrite Hw, Hr. unfold fetch, ipmi_alloc_smi_msg. rewrite Em.
  unfold enable_si_irq. cbn [interrupt_disabled set_curr add_note andb]. rewrite Hd. unfold start_enable_irq, start_, start.
  cbn [si_sm set_curr add_note]. rewrite E. cbn [mbind option_bind fst snd fmap option_fmap option_map].
  set (s1 := set_irq false _).
  destruct (own_request_ok IPMI_GET_MSG_CMD SI_GETTING_MESSAGES (set_tagged false m) s1) as (d' & m' & Eo & _ & _ & Hm' & _); [by eexists|done|done|].
  rewrite Eo. cbn [mbind option_bind]. eexists. split; [done|]. split; [|done].
  cbn [si_sm set_state set_sm]. rewrite (own_request_busy _ _ _ s1 _ _ _ _ E Hd1 Eo Hm'). exact Hd1.
Qed.

(** ** Runs *)

Definition msg1 : ipmi_smi_msg := example_msg 1 [0x18; 1].
Definition msg2 : ipmi_smi_msg := example_msg 2 [0x18; 2].

(** The flags are cleared; thread 0 has started a first message, thread 1 has
    queued a second one of high priority. *)
Definition two_messages : list choice :=
  thread 0 14 Poll ++ thread 0 8 Poll ++ thread 0 6 (Sender msg1 0) ++ thread 1 4 (Sender msg2 1).
Definition two_sent : sys (D := Kcs.si_sm_data) := default (begin false 2) (checked_run false [msg1; msg2] two_messages (begin false 2)).

Lemma messages_sendable : Forall sendable [msg1; msg2].
Proof.
  rewrite !Forall_cons, Forall_nil. split_and!; [..|done]; (apply example_sendable; [|cbn; lia]);
    rewrite !Forall_cons, Forall_nil; by unfold byte.
Qed.

Lemma two_sent_reachable : smi_reachable (bmc_hw 0) false false false 2 two_sent.
Proof.
  apply (checked_run_reachable false [msg1; msg2] 2 two_messages (begin false 2)); [apply messages_sendable| |apply begin_reachable|].
  - unfold two_messages, thread. rewrite !Forall_app. split_and!; by apply Forall_replicate.
  - unfold two_sent. destruct (checked_run _ _ _ _) eqn:E; [done|]. vm_compute in E. done.
Qed.

Example two_sent_state : (curr_msg (info two_sent), hp_xmit_msgs (info two_sent), threads two_sent)
  = (Some (set_tagged true msg1), [set_tagged true msg2], [Outside; Outside]).
Proof. vm_compute. reflexivity. Qed.

Lemma smi_never_faults_witness :
  (spins Outside (info two_sent) = true \/ exists y', sys_step (bmc_hw 0) false false false (Choice 0 Poll example_env) two_sent = Some y') /\
  (forall t t' b b', threads two_sent !! t = Some (Running b) -> threads two_sent !! t' = Some (Running b') -> t' = t) /\
  (si_state (info two_sent) <> SI_NORMAL \/ curr_msg (info two_sent) <> None -> ~ sm_idle (si_sm (info two_sent))) /\
  (si_state (info two_sent) = SI_GETTING_EVENTS \/ si_state (info two_sent) = SI_GETTING_MESSAGES -> curr_msg (info two_sent) <> None).
Proof.
  refine (smi_never_faults (bmc_hw 0) false false false 2 two_sent (Choice 0 Poll example_env) Outside I two_sent_reachable _ _).
  - apply (step_okb_ok [msg1; msg2]); [apply messages_sendable|reflexivity|vm_compute; reflexivity].
  - vm_compute. reflexivity.
Defined.

Lemma smi_conserves_witness :
  (forall a, notes (enters a) (trace (info two_sent))
    = notes (leaves a) (trace (info two_sent)) + sum (occ a) (here (info two_sent) ++ thread_msgs (threads two_sent))) /\
  (forall m, Delivered m ∈ trace (info two_sent) -> 3 <= rsp_size m <= IPMI_MAX_MSG_LENGTH /\ Z.of_nat (length (rsp m)) = IPMI_MAX_MSG_LENGTH) /\
  pendingRequests (info two_sent)
    = s32 (sum tag (here (info two_sent) ++ thread_msgs (threads two_sent)) + notes leaves_tag (trace (info two_sent))).
Proof. exact (smi_conserves (bmc_hw 0) false false false 2 two_sent I two_sent_reachable). Defined.

Lemma smi_in_order_witness :
  (forall h, all_queued h (trace (info two_sent))
    = all_started h (trace (info two_sent)) ++ (addr <$> (if h : bool then hp_xmit_msgs (info two_sent) else xmit_msgs (info two_sent)))) /\
  (forall p m q, trace (info two_sent) = p ++ Started false m :: q -> all_started true p = all_queued true p).
Proof. exact (smi_in_order (bmc_hw 0) false false false 2 two_sent I two_sent_reachable). Defined.

Definition irq_state : smi_info (D := Kcs.si_sm_data) :=
  set_flags RECEIVE_MSG_AVAIL (set_irq true (Smi Kcs.example_kcs SI_NORMAL None [] [] true false 0 false false false false 0 1 0 [])).
Definition irq_env : env := Env 0 (Some (example_msg 9 [])) [0; 0; 0; 0].

Lemma enable_irq_forgotten_witness :
  exists s', handle_flags true false irq_env handle_flags_fuel (After Once) irq_state = Some (s', After Once) /\
    sm_inv (Some (app_request IPMI_GET_BMC_GLOBAL_ENABLES_CMD)) (si_sm s') /\
    si_state s' = SI_GETTING_MESSAGES /\ interrupt_disabled s' = false.
Proof.
  refine (enable_irq_forgotten false irq_env (example_msg 9 []) (After Once) irq_state _ _ _ _ _ _); [|reflexivity| |reflexivity..].
  - split; [intros m [= <-]; split; reflexivity|]. split; [cbn; lia|repeat constructor; by cbn].
  - split; [apply Kcs.example_inv|reflexivity].
Defined.

(** ** What goes wrong *)

(** Thread 0 delivers the answer to the first message, without the lock. Thread 1
    meanwhile starts the second one, up to the point where it is told to wait.
    Thread 0 gets the lock back, and its event completes the transaction. *)
Definition lost_message : list choice :=
  thread 0 14 Poll ++ thread 0 8 Poll ++ thread 0 6 (Sender msg1 0) ++ thread 1 4 (Sender msg2 0) ++
  thread 0 13 Poll ++ thread 0 4 Poll ++ thread 1 16 Poll ++ thread 0 4 Poll ++ thread 0 7 Poll.

(** The handler overlooks a transaction that ends in its second event: with
    the KCS machine, a device that answers every request and two threads, a
    message is accepted and sent, and the device answers it; in the end every
    thread is outside the interface, the message is nowhere in it and the upper
    layer has never been given it back. *)
Theorem smi_loses_message :
  exists y, run_kcs false lost_message (begin false 2) = Some y /\ threads y = [Outside; Outside] /\
    here (info y) = [] /\ si_state (info y) = SI_NORMAL /\ si_lock (info y) = false /\ msg_lock (info y) = false /\
    notes (enters (addr msg2)) (trace (info y)) = 1 /\ notes (leaves (addr msg2)) (trace (info y)) = 0.
Proof.
  destruct (run_kcs false lost_message (begin false 2)) as [y|] eqn:E; [|vm_compute in E; done].
  exists y. split; [done|]. vm_compute in E. injection E as <-. by vm_compute.
Qed.

(** A Get SDR command that the Dell handler returns. *)
Definition sdr_msg : ipmi_smi_msg := example_msg 3 [0x28; 0x23; 0; 0; 0; 0; 0; 0x3a].

Lemma sdr_sendable : Forall sendable [sdr_msg].
Proof. constructor; [|done]. apply example_sendable; [|cbn; lia]. rewrite !Forall_cons, Forall_nil. by unfold byte. Qed.

(** Thread 0 has returned it to the upper layer, with [msg_lock] held. *)
Definition two_locks : list choice :=
  thread 0 14 Poll ++ thread 0 8 Poll ++ thread 0 6 (Sender sdr_msg 0) ++ thread 1 4 Poll.

(** [start_next_msg] gives up [si_lock] with [msg_lock] held when it returns
    a message, and takes it again: with two threads, the Dell handler and under
    the conditions of the other theorems, the interface reaches a state in which no thread can
    ever take a step, each having the lock that the other one waits for. *)
Theorem smi_deadlocks :
  exists y, smi_reachable (bmc_hw 0) false false true 2 y /\
    threads y = [Locking (StartOut None); Running (StartNext (Some Once))] /\
    si_lock (info y) = true /\ msg_lock (info y) = true /\
    forall c, sys_step (bmc_hw 0) false false true c y = None.
Proof.
  destruct (checked_run true [sdr_msg] two_locks (begin false 2)) as [y|] eqn:E; [|vm_compute in E; done].
  assert (threads y = [Locking (StartOut None); Running (StartNext (Some Once))] /\ si_lock (info y) = true /\ msg_lock (info y) = true)
    as (Ht & Hl & Hk) by (vm_compute in E; injection E as <-; by vm_compute).
  exists y. split; [|do 3 (split; [done|]); intros [[|[|t]] c e]; unfold sys_step; rewrite Ht; cbn; by rewrite ?Hl, ?Hk].
  apply (checked_run_reachable true [sdr_msg] 2 two_locks (begin false 2)); [apply sdr_sendable| |apply begin_reachable|exact E].
  clear. unfold two_locks, thread. rewrite !Forall_app. split_and!; by apply Forall_replicate.
Qed.

(** [sender] on an interface that is shut down releases a lock that it has not
    taken, and leaves with it. *)
Example smi_stop_keeps_lock :
  (fun y => (threads y, si_lock (info y))) <$>
    run_kcs false (thread 0 14 Poll ++ thread 0 8 Poll ++ thread 0 3 Cleanup ++ thread 1 3 (Sender msg1 0)) (begin false 2)
  = Some ([Outside; Outside], true).
Proof. vm_compute. reflexivity. Qed.

(** A message that the Dell handler returns stays counted in
    [pendingRequests]. *)
Example smi_badsize_pending :
  (fun y => (threads y, here (info y), pendingRequests (info y))) <$>
    run_kcs true (thread 0 14 Poll ++ thread 0 8 Poll ++ thread 0 6 (Sender sdr_msg 0) ++ thread 0 3 Poll)
      (begin false 2)
  = Some ([Outside; Outside], [], 1).
Proof. vm_compute. reflexivity. Qed.
