(* ===== verification/Smic.v ===== *)
(** The SMIC state machine of the IPMI driver:
    [char/openipmi/ipmi_si_drv/ipmi_smic_sm.c]. Debug output is left out. *)

From S2P Require Import Prelude IpmiSm.
Local Open Scope Z_scope.

Inductive smic_states :=
| SMIC_IDLE
| SMIC_START_OP
| SMIC_OP_OK
| SMIC_WRITE_START
| SMIC_WRITE_NEXT
| SMIC_WRITE_END
| SMIC_WRITE2READ
| SMIC_READ_START
| SMIC_READ_NEXT
| SMIC_READ_END
| SMIC_HOSED.

#[export] Instance smic_states_eq_dec : EqDecision smic_states.
Proof. solve_decision. Defined.

Definition MAX_SMIC_READ_SIZE : Z := 80.
Definition MAX_SMIC_WRITE_SIZE : Z := 80.
Definition SMIC_MAX_ERROR_RETRIES : Z := 3.
Definition SMIC_RETRY_TIMEOUT : Z := 2000000.

Definition SMIC_RX_DATA_READY : Z := 0x80.
Definition SMIC_TX_DATA_READY : Z := 0x40.
Definition SMIC_SMS_DATA_AVAIL : Z := 0x04.
Definition SMIC_FLAG_BSY : Z := 0x01.

Definition SMIC_GET_STATUS : Z := 0x00.
Definition SMIC_READY : Z := 0x00.
Definition SMIC_WR_START : Z := 0x01.
Definition SMIC_WR_NEXT : Z := 0x02.
Definition SMIC_WR_END : Z := 0x03.
Definition SMIC_RD_START : Z := 0x04.
Definition SMIC_RD_NEXT : Z := 0x05.
Definition SMIC_RD_END : Z := 0x06.

Definition SMIC_CONTROL : Z := 0x00.
Definition SMIC_STATUS : Z := 0x80.
Definition SMIC_SMS : Z := 0x40.

(** The control and status codes for system management software. *)
Definition SMIC_CC_SMS (code : Z) : Z := Z.lor (Z.lor SMIC_CONTROL SMIC_SMS) code.
Definition SMIC_SC_SMS (code : Z) : Z := Z.lor (Z.lor SMIC_STATUS SMIC_SMS) code.

(** [smic->io] is the history of the ports. *)
Record si_sm_data := Smic {
  state : smic_states;
  io : history;
  write_data : list Z;
  write_pos : Z;
  write_count : Z;
  orig_write_count : Z;
  read_data : list Z;
  read_pos : Z;
  truncated : bool;
  error_retries : Z;
  smic_timeout : Z;
}.

Definition set_state (st : smic_states) (k : si_sm_data) : si_sm_data :=
  Smic st (io k) (write_data k) (write_pos k) (write_count k) (orig_write_count k) (read_data k) (read_pos k)
    (truncated k) (error_retries k) (smic_timeout k).
Definition set_io (h : history) (k : si_sm_data) : si_sm_data :=
  Smic (state k) h (write_data k) (write_pos k) (write_count k) (orig_write_count k) (read_data k) (read_pos k)
    (truncated k) (error_retries k) (smic_timeout k).
Definition set_write (d : list Z) (p c o : Z) (k : si_sm_data) : si_sm_data :=
  Smic (state k) (io k) d p c o (read_data k) (read_pos k) (truncated k) (error_retries k) (smic_timeout k).
Definition set_read (d : list Z) (p : Z) (t : bool) (k : si_sm_data) : si_sm_data :=
  Smic (state k) (io k) (write_data k) (write_pos k) (write_count k) (orig_write_count k) d p
    t (error_retries k) (smic_timeout k).
Definition set_retries (n : Z) (k : si_sm_data) : si_sm_data :=
  Smic (state k) (io k) (write_data k) (write_pos k) (write_count k) (orig_write_count k) (read_data k) (read_pos k)
    (truncated k) n (smic_timeout k).
Definition set_timeout (t : Z) (k : si_sm_data) : si_sm_data :=
  Smic (state k) (io k) (write_data k) (write_pos k) (write_count k) (orig_write_count k) (read_data k) (read_pos k)
    (truncated k) (error_retries k) t.

Definition init_smic_data (k : si_sm_data) : si_sm_data :=
  Smic SMIC_IDLE (io k) (write_data k) 0 0 0 (read_data k) 0 false 0 SMIC_RETRY_TIMEOUT.

(** [size] is the length of [data]. *)
Definition start_smic_transaction (data : list Z) (k : si_sm_data) : option (Z * si_sm_data) :=
  let size := Z.of_nat (length data) in
  if size <? 2 then Some (IPMI_REQ_LEN_INVALID_ERR, k)
  else if MAX_SMIC_WRITE_SIZE <? size then Some (IPMI_REQ_LEN_EXCEEDED_ERR, k)
  else match state k with
  | SMIC_IDLE | SMIC_HOSED =>
      d ← memcpy (write_data k) data size;
      Some (0, set_timeout SMIC_RETRY_TIMEOUT
        (set_state SMIC_START_OP
          (set_read (read_data k) 0 (truncated k)
            (set_write d 0 size size (set_retries 0 k)))))
  | _ => Some (IPMI_NOT_IN_MY_STATE_ERR, k)
  end.

(** [data] is the caller's buffer, of which [length] bytes may be used. *)
Definition smic_get_result (data : list Z) (length : Z) (k : si_sm_data) : option (Z * list Z * si_sm_data) :=
  let k := if length <? read_pos k then set_read (read_data k) length true k else k in
  data ← memcpy data (read_data k) (read_pos k);
  r ← (if (3 <=? length) && (read_pos k <? 3) then
         data ← write_at data 2 IPMI_ERR_UNSPECIFIED;
         Some (data, set_read (read_data k) 3 (truncated k) k)
       else Some (data, k));
  r ← (if truncated r.2 then
         data ← write_at r.1 2 IPMI_ERR_MSG_TRUNCATED;
         Some (data, set_read (read_data r.2) (read_pos r.2) false r.2)
       else Some r);
  Some (read_pos r.2, r.1, r.2).

Definition start_error_recovery (k : si_sm_data) : si_sm_data :=
  let k := set_retries (u32 (error_retries k + 1)) k in
  if SMIC_MAX_ERROR_RETRIES <? error_retries k then set_state SMIC_HOSED k
  else set_timeout SMIC_RETRY_TIMEOUT
    (set_state SMIC_START_OP
      (set_read (read_data k) 0 (truncated k)
        (set_write (write_data k) 0 (orig_write_count k) (orig_write_count k) k))).

Section code.
Context (hw : hardware).

Definition read_smic_flags (k : si_sm_data) : Z * si_sm_data :=
  let r := inputb hw 2 (io k) in (r.1, set_io r.2 k).
Definition read_smic_status (k : si_sm_data) : Z * si_sm_data :=
  let r := inputb hw 1 (io k) in (r.1, set_io r.2 k).
Definition read_smic_data (k : si_sm_data) : Z * si_sm_data :=
  let r := inputb hw 0 (io k) in (r.1, set_io r.2 k).
Definition write_smic_flags (flags : Z) (k : si_sm_data) : si_sm_data := set_io (outputb 2 flags (io k)) k.
Definition write_smic_control (control : Z) (k : si_sm_data) : si_sm_data := set_io (outputb 1 control (io k)) k.
Definition write_si_sm_data (data : Z) (k : si_sm_data) : si_sm_data := set_io (outputb 0 data (io k)) k.

(** [None] outside the array. *)
Definition write_next_byte (k : si_sm_data) : option si_sm_data :=
  b ← read_at (write_data k) (write_pos k);
  Some (set_write (write_data k) (write_pos k + 1) (write_count k - 1) (orig_write_count k) (write_si_sm_data b k)).

Definition read_next_byte (k : si_sm_data) : option si_sm_data :=
  if MAX_SMIC_READ_SIZE <=? read_pos k then
    let k := (read_smic_data k).2 in Some (set_read (read_data k) (read_pos k) true k)
  else
    let r := read_smic_data k in
    d ← write_at (read_data r.2) (read_pos r.2) r.1;
    Some (set_read d (read_pos r.2 + 1) (truncated r.2) r.2).

(** The end of the cases that give the device something to do. *)
Definition go (flags : Z) (st : smic_states) (k : si_sm_data) : option si_sm_result * si_sm_data :=
  (None, set_state st (write_smic_flags (Z.lor flags SMIC_FLAG_BSY) k)).

(** SMIC_WRITE_START and SMIC_WRITE_NEXT with data ready. *)
Definition write_more (flags : Z) (k : si_sm_data) : option (option si_sm_result * si_sm_data) :=
  if write_count k =? 1 then
    k ← write_next_byte (write_smic_control (SMIC_CC_SMS SMIC_WR_END) k); Some (go flags SMIC_WRITE_END k)
  else
    k ← write_next_byte (write_smic_control (SMIC_CC_SMS SMIC_WR_NEXT) k); Some (go flags SMIC_WRITE_NEXT k).

(** A byte of the answer. *)
Definition read_more (flags control : Z) (st : smic_states) (k : si_sm_data) : option (option si_sm_result * si_sm_data) :=
  k ← read_next_byte k; Some (go flags st (write_smic_control control k)).

(** The cases of [smic_event]: a result that is returned at once, or none for a
    [break]. *)
Definition smic_case (flags status : Z) (k : si_sm_data) : option (option si_sm_result * si_sm_data) :=
  let return_ r k := Some (Some r, k) in
  let failed k := return_ SI_SM_CALL_WITH_DELAY (start_error_recovery k) in
  let set f := negb (Z.land flags f =? 0) in
  match state k with
  | SMIC_IDLE => return_ (if set SMIC_SMS_DATA_AVAIL then SI_SM_ATTN else SI_SM_IDLE) k
  | SMIC_START_OP => Some (go flags SMIC_OP_OK (write_smic_control (SMIC_CC_SMS SMIC_GET_STATUS) k))
  | SMIC_OP_OK =>
      if negb (status =? SMIC_SC_SMS SMIC_READY) then failed k
      else k ← write_next_byte (write_smic_control (SMIC_CC_SMS SMIC_WR_START) k); Some (go flags SMIC_WRITE_START k)
  | SMIC_WRITE_START =>
      if negb (status =? SMIC_SC_SMS SMIC_WR_START) then failed k
      else if set SMIC_TX_DATA_READY then write_more flags k
      else return_ SI_SM_CALL_WITH_DELAY k
  | SMIC_WRITE_NEXT =>
      if negb (status =? SMIC_SC_SMS SMIC_WR_NEXT) then failed k
      else if set SMIC_TX_DATA_READY then write_more flags k
      else return_ SI_SM_CALL_WITH_DELAY k
  | SMIC_WRITE_END =>
      if negb (status =? SMIC_SC_SMS SMIC_WR_END) then failed k
      else
        let '(data, k) := read_smic_data k in
        if negb (data =? 0) then failed k else Some (None, set_state SMIC_WRITE2READ k)
  | SMIC_WRITE2READ =>
      if set SMIC_RX_DATA_READY then Some (go flags SMIC_READ_START (write_smic_control (SMIC_CC_SMS SMIC_RD_START) k))
      else return_ SI_SM_CALL_WITH_DELAY k
  | SMIC_READ_START =>
      if negb (status =? SMIC_SC_SMS SMIC_RD_START) then failed k
      else if set SMIC_RX_DATA_READY then read_more flags (SMIC_CC_SMS SMIC_RD_NEXT) SMIC_READ_NEXT k
      else return_ SI_SM_CALL_WITH_DELAY k
  | SMIC_READ_NEXT =>
      if status =? SMIC_SC_SMS SMIC_RD_END then read_more flags (SMIC_CC_SMS SMIC_RD_END) SMIC_READ_END k
      else if status =? SMIC_SC_SMS SMIC_RD_NEXT then
        if set SMIC_RX_DATA_READY then read_more flags (SMIC_CC_SMS SMIC_RD_NEXT) SMIC_READ_NEXT k
        else return_ SI_SM_CALL_WITH_DELAY k
      else failed k
  | SMIC_READ_END =>
      if negb (status =? SMIC_SC_SMS SMIC_READY) then failed k
      else
        let '(data, k) := read_smic_data k in
        if negb (data =? 0) then failed k else return_ SI_SM_TRANSACTION_COMPLETE (set_state SMIC_IDLE k)
  | SMIC_HOSED => return_ SI_SM_HOSED (init_smic_data k)
  end.

(** The timeout: whether it has passed. *)
Definition check_timeout (time : Z) (k : si_sm_data) : bool * si_sm_data :=
  match state k with
  | SMIC_IDLE => (false, k)
  | _ =>
      if time <? SMIC_RETRY_TIMEOUT then
        let k := set_timeout (s64 (smic_timeout k - time)) k in
        if smic_timeout k <? 0 then (true, start_error_recovery k) else (false, k)
      else (false, k)
  end.

Definition smic_event (time : Z) (k : si_sm_data) : option (si_sm_result * si_sm_data) :=
  match state k with
  | SMIC_HOSED => Some (SI_SM_HOSED, init_smic_data k)
  | _ =>
      let '(over, k) := check_timeout time k in
      if over then Some (SI_SM_CALL_WITH_DELAY, k)
      else
        let '(flags, k) := read_smic_flags k in
        if negb (Z.land flags SMIC_FLAG_BSY =? 0) then Some (SI_SM_CALL_WITH_DELAY, k)
        else
          let '(status, k) := read_smic_status k in
          r ← smic_case flags status k;
          match r.1 with
          | Some res => Some (res, r.2)
          | None => Some (SI_SM_CALL_WITHOUT_DELAY, set_timeout SMIC_RETRY_TIMEOUT r.2)
          end
  end.

Definition smic_detect (k : si_sm_data) : Z * si_sm_data :=
  let '(flags, k) := read_smic_flags k in (if flags =? 0xff then 1 else 0, k).
End code.

#[export] Instance smic_smi_handlers : si_sm_handlers si_sm_data := {
  init_data k := (3, init_smic_data k);
  start_transaction := start_smic_transaction;
  get_result := smic_get_result;
  event hw time _ := smic_event hw time;
  detect := smic_detect;
}.

(** ** What goes over the wire *)

(** The bytes written to the control and the data register. *)
Definition wire (h : history) : list (Z * Z) := filter (fun x => x.1 <> 2) (outs h).

(** A request after the control code for the start: its first byte, and a control
    code before every other one. *)
Fixpoint frame_rest (l : list Z) : list (Z * Z) :=
  match l with
  | [] => []
  | [b] => [(1, SMIC_CC_SMS SMIC_WR_END); (0, b)]
  | b :: l => (1, SMIC_CC_SMS SMIC_WR_NEXT) :: (0, b) :: frame_rest l
  end.
Definition frame (req : list Z) : list (Z * Z) :=
  match req with [] => [] | b :: l => (0, b) :: frame_rest l end.

(** The same without the last byte, the machine being somewhere in between. *)
Definition frame_next (l : list Z) : list (Z * Z) := l ≫= fun b => [(1, SMIC_CC_SMS SMIC_WR_NEXT); (0, b)].
Definition frame_part (l : list Z) : list (Z * Z) :=
  match l with [] => [] | b :: l => (0, b) :: frame_next l end.

(** The bytes read from the data register that are followed by a request for the
    next one, or for the end. *)
Fixpoint taken (h : history) : list Z :=
  match h with
  | In p v :: (Out q w :: _) as t =>
      if (p =? 0) && (q =? 1) && ((w =? SMIC_CC_SMS SMIC_RD_NEXT) || (w =? SMIC_CC_SMS SMIC_RD_END)) then v :: taken t else taken t
  | _ :: t => taken t
  | [] => []
  end.

Definition since_start (h r : history) : Prop := exists h0, h = h0 ++ Out 1 (SMIC_CC_SMS SMIC_WR_START) :: r.
Definition on_wire (k : si_sm_data) (l : list (Z * Z)) : Prop := exists r, since_start (io k) r /\ wire r = l.

(** ** The invariant *)

Definition wired (h : history) (l : list (Z * Z)) : Prop := exists r, since_start h r /\ wire r = l.

(** The device was given the request, and then the control codes [ctrl], for
    which it gave [bytes]. *)
Definition receiving (req : list Z) (h : history) (ctrl : list (Z * Z)) (bytes : list Z) : Prop :=
  exists w r, since_start h (w ++ r) /\ wire w = frame req /\ wire r = ctrl /\ taken r = bytes.

(** [read_data] holds the bytes, as far as they fit. *)
Definition got (k : si_sm_data) (bytes : list Z) : Prop :=
  read_pos k = Z.min (Z.of_nat (length bytes)) MAX_SMIC_READ_SIZE
  /\ take (Z.to_nat (read_pos k)) (read_data k) = take (Z.to_nat (read_pos k)) bytes
  /\ (MAX_SMIC_READ_SIZE < Z.of_nat (length bytes) -> truncated k = true).

Definition rd (code : Z) : Z * Z := (1, SMIC_CC_SMS code).

(** The device gave the answer byte by byte. *)
Definition answered (req : list Z) (k : si_sm_data) : Prop :=
  exists bytes, receiving req (io k) (rd SMIC_RD_START :: replicate (length bytes - 1) (rd SMIC_RD_NEXT) ++ [rd SMIC_RD_END]) bytes
    /\ got k bytes.

Definition written (req : list Z) (k : si_sm_data) : Prop :=
  0 <= write_pos k /\ 1 <= write_count k /\ write_pos k + write_count k = Z.of_nat (length req) /\ read_pos k = 0.

Definition phase (req : list Z) (k : si_sm_data) : Prop :=
  match state k with
  | SMIC_IDLE => False
  | SMIC_START_OP | SMIC_OP_OK => written req k /\ write_pos k = 0
  | SMIC_WRITE_START | SMIC_WRITE_NEXT =>
      written req k /\ 1 <= write_pos k /\ wired (io k) (frame_part (take (Z.to_nat (write_pos k)) req))
  | SMIC_WRITE_END | SMIC_WRITE2READ => read_pos k = 0 /\ wired (io k) (frame req)
  | SMIC_READ_START => read_pos k = 0 /\ receiving req (io k) [rd SMIC_RD_START] []
  | SMIC_READ_NEXT =>
      exists bytes, receiving req (io k) (rd SMIC_RD_START :: replicate (length bytes) (rd SMIC_RD_NEXT)) bytes /\ got k bytes
  | SMIC_READ_END => answered req k
  | SMIC_HOSED => True
  end.

Definition held (req : option (list Z)) (k : si_sm_data) : Prop :=
  match req with
  | None => state k = SMIC_IDLE
  | Some req =>
      orig_write_count k = Z.of_nat (length req) /\ 2 <= Z.of_nat (length req) <= MAX_SMIC_WRITE_SIZE
      /\ Forall byte req /\ take (length req) (write_data k) = req /\ phase req k
  end.

Definition arrays (k : si_sm_data) : Prop :=
  Z.of_nat (length (write_data k)) = MAX_SMIC_WRITE_SIZE /\ Z.of_nat (length (read_data k)) = MAX_SMIC_READ_SIZE
  /\ 0 <= read_pos k <= MAX_SMIC_READ_SIZE.

Definition smic_inv (req : option (list Z)) (k : si_sm_data) : Prop := arrays k /\ held req k.

Definition result_ok (req : option (list Z)) (r : si_sm_result) (k : si_sm_data) : Prop :=
  match r with
  | SI_SM_TRANSACTION_COMPLETE => smic_inv None k /\ forall l, req = Some l -> answered l k
  | SI_SM_HOSED => smic_inv None k
  | SI_SM_IDLE | SI_SM_ATTN => smic_inv None k /\ req = None
  | _ => smic_inv req k
  end.

Arguments read_at : simpl never.
Arguments write_at : simpl never.
Arguments memcpy : simpl never.
Arguments Z.land : simpl never.
Arguments Z.lor : simpl never.
Arguments wrap : simpl never.
Arguments sext : simpl never.

Lemma wire_app h h' : wire (h ++ h') = wire h ++ wire h'.
Proof. unfold wire. by rewrite outs_app, filter_app. Qed.

Lemma taken_app h p v t : taken (h ++ In p v :: t) = taken h ++ taken (In p v :: t).
Proof.
  induction h as [|a h IH]; [done|]. cbn [app]. destruct a as [q w|q w].
  - destruct h as [|[q' w'|q' w'] h]; cbn [app] in *; [done|exact IH|].
    change (taken (In q w :: Out q' w' :: h ++ In p v :: t)) with
      (if (q =? 0) && (q' =? 1) && ((w' =? SMIC_CC_SMS SMIC_RD_NEXT) || (w' =? SMIC_CC_SMS SMIC_RD_END))
       then w :: taken (Out q' w' :: h ++ In p v :: t) else taken (Out q' w' :: h ++ In p v :: t)).
    rewrite IH. cbn [taken]. by destruct (_ && _).
  - exact IH.
Qed.

Lemma wired_app h l t : wired h l -> wired (h ++ t) (l ++ wire t).
Proof.
  intros (r & (h0 & ->) & <-). exists (r ++ t). split; [exists h0; by rewrite <- app_assoc|]. apply wire_app.
Qed.

Lemma wired_start h t : wired (h ++ Out 1 (SMIC_CC_SMS SMIC_WR_START) :: t) (wire t).
Proof. exists t. split; [by exists h|done]. Qed.

Lemma receiving_app req h ctrl bytes p v t : receiving req h ctrl bytes ->
  receiving req (h ++ In p v :: t) (ctrl ++ wire t) (bytes ++ taken (In p v :: t)).
Proof.
  intros (w & r & (h0 & ->) & Hw & <- & <-). exists w, (r ++ In p v :: t).
  split; [exists h0; rewrite <- app_assoc; cbn; by rewrite <- app_assoc|]. split; [done|]. split; [by rewrite wire_app|apply taken_app].
Qed.

Lemma wired_receiving req h t : wired h (frame req) -> receiving req (h ++ t) (wire t) (taken t).
Proof. intros (r & (h0 & ->) & Hr). exists r, t. split; [exists h0; by rewrite <- app_assoc|done]. Qed.

(** ** The cases *)

(** What a case leaves: a result that is returned, or a machine that goes on. *)
Definition case_ok (req : option (list Z)) (c : option (option si_sm_result * si_sm_data)) : Prop :=
  exists o k, c = Some (o, k) /\ result_ok req (default SI_SM_CALL_WITHOUT_DELAY o) k.

Lemma failed_ok req k : arrays k -> (exists l, req = Some l) ->
  (forall l, req = Some l -> orig_write_count k = Z.of_nat (length l) /\ 2 <= Z.of_nat (length l) <= MAX_SMIC_WRITE_SIZE
    /\ Forall byte l /\ take (length l) (write_data k) = l) ->
  smic_inv req (start_error_recovery k).
Proof.
  intros (Hw & Hr & Hp) [l ->] Hl. destruct (Hl l eq_refl) as (Ho & Hs & Hb & Ht). unfold start_error_recovery. cbv zeta.
  case_test; (split; [unfold arrays, MAX_SMIC_READ_SIZE in *; cbn; lia|]); cbn; (split; [done|]); (split; [done|]); (split; [done|]); (split; [done|]).
  - done.
  - unfold phase, written. cbn. lia.
Qed.

Lemma recovery_ok l k : smic_inv (Some l) k -> smic_inv (Some l) (start_error_recovery k).
Proof. intros [Ha (Ho & Hs & Hb & Ht & _)]. apply failed_ok; [done|eauto|]. by intros ? [= <-]. Qed.

(** Reading a register leaves everything else. *)
Lemma inv_in req p v k : smic_inv req k -> smic_inv req (set_io (io k ++ [In p v]) k).
Proof.
  intros [Ha Hh]. split; [done|]. destruct req as [l|]; [|done]. destruct Hh as (Ho & Hs & Hb & Ht & Hp).
  split; [done|]. split; [done|]. split; [done|]. split; [done|]. unfold phase in *. cbn. destruct (state k); try done.
  - destruct Hp as (? & ? & Hw). split; [done|]. split; [done|]. rewrite <- (app_nil_r (frame_part _)). by apply wired_app.
  - destruct Hp as (? & ? & Hw). split; [done|]. split; [done|]. rewrite <- (app_nil_r (frame_part _)). by apply wired_app.
  - destruct Hp as (? & Hw). split; [done|]. rewrite <- (app_nil_r (frame _)). by apply wired_app.
  - destruct Hp as (? & Hw). split; [done|]. rewrite <- (app_nil_r (frame _)). by apply wired_app.
  - destruct Hp as (? & Hw). split; [done|]. apply (receiving_app _ _ _ _ p v [] Hw).
  - destruct Hp as (bytes & Hw & Hg). exists bytes. split; [|done].
    pose proof (receiving_app _ _ _ _ p v [] Hw) as H. cbn in H. by rewrite !app_nil_r in H.
  - destruct Hp as (bytes & Hw & Hg). exists bytes. split; [|done].
    pose proof (receiving_app _ _ _ _ p v [] Hw) as H. cbn in H. by rewrite !app_nil_r in H.
Qed.

Lemma frame_part_snoc l b : l <> [] -> frame_part (l ++ [b]) = frame_part l ++ [(1, SMIC_CC_SMS SMIC_WR_NEXT); (0, b)].
Proof. destruct l as [|x l]; [done|]. intros _. cbn. unfold frame_next. by rewrite bind_app. Qed.

Lemma smic_frame_last l b : l <> [] -> frame (l ++ [b]) = frame_part l ++ [(1, SMIC_CC_SMS SMIC_WR_END); (0, b)].
Proof.
  destruct l as [|x l]; [done|]. intros _. cbn [app frame frame_part]. f_equal.
  induction l as [|y l IH]; [done|]. cbn [app frame_rest]. destruct (l ++ [b]) eqn:E; [by destruct l|].
  rewrite <- E in *. unfold frame_next in *. cbn. by rewrite IH.
Qed.

Section cases.
Context (hw : hardware).

(** The byte of the request that is sent next. *)
Lemma next_byte req k : take (length req) (write_data k) = req -> 0 <= write_pos k -> 1 <= write_count k ->
  write_pos k + write_count k = Z.of_nat (length req) ->
  exists b, read_at (write_data k) (write_pos k) = Some b
    /\ take (Z.to_nat (write_pos k + 1)) req = take (Z.to_nat (write_pos k)) req ++ [b] /\ b ∈ req.
Proof.
  intros Ht Hp Hc Hs. destruct (lookup_lt_is_Some_2 req (Z.to_nat (write_pos k))) as [b E]; [lia|].
  exists b. split; [|split].
  - rewrite read_at_lookup by done. rewrite <- Ht in E. by apply lookup_take_Some in E as [? _].
  - replace (Z.to_nat (write_pos k + 1)) with (S (Z.to_nat (write_pos k))) by lia. by apply take_S_r.
  - by eapply list_elem_of_lookup_2.
Qed.

Lemma case_op_ok flags status l k : smic_inv (Some l) k -> state k = SMIC_OP_OK -> case_ok (Some l) (smic_case hw flags status k).
Proof.
  intros Hk Es. unfold smic_case. rewrite Es. cbv zeta. case_test.
  - eexists _, _. split; [done|]. by apply recovery_ok.
  - destruct Hk as [Ha (Ho & Hs & Hb & Ht & Hp)]. unfold phase in Hp. rewrite Es in Hp. destruct Hp as ((H1 & H2 & H3 & H4) & Hz).
    destruct (next_byte l k Ht H1 H2 H3) as (b & Erd & Htake & Hin). unfold write_next_byte. cbn [write_smic_control write_data write_pos set_io].
    rewrite Erd. cbn [mbind option_bind]. eexists _, _. split; [done|]. cbn [default]. split; [done|].
    split; [done|]. split; [done|]. split; [done|]. split; [done|]. unfold phase, written. cbn. split; [lia|]. split; [lia|].
    rewrite Htake, Hz. change (take (Z.to_nat 0) l) with (@nil Z). cbn. unfold outputb. rewrite <- !app_assoc. cbn.
    assert (Hbyte : u8 b = b) by (apply u8_of_byte; by eapply Forall_forall in Hb).
    rewrite Hbyte. apply (wired_start (io k) [Out 0 b; Out 2 (u8 (Z.lor flags SMIC_FLAG_BSY))]).
Qed.

Lemma write_more_ok flags l k : smic_inv (Some l) k -> state k = SMIC_WRITE_START \/ state k = SMIC_WRITE_NEXT ->
  case_ok (Some l) (write_more flags k).
Proof.
  intros [Ha (Ho & Hs & Hb & Ht & Hp)] Es.
  assert (written l k /\ 1 <= write_pos k /\ wired (io k) (frame_part (take (Z.to_nat (write_pos k)) l))) as ((H1 & H2 & H3 & H4) & Hpos & Hwire)
    by (unfold phase in Hp; by destruct Es as [E|E]; rewrite E in Hp).
  destruct (next_byte l k Ht H1 H2 H3) as (b & E & Htake & Hin).
  assert (Hbyte : u8 b = b) by (apply u8_of_byte; by eapply Forall_forall in Hb).
  assert (take (Z.to_nat (write_pos k)) l <> []) as Hne.
  { intros Hn%(f_equal length). rewrite length_take in Hn. cbn in Hn. lia. }
  unfold write_more, write_next_byte. cbn [write_smic_control write_data write_pos set_io write_count].
  destruct (Z.eqb_spec (write_count k) 1) as [Hc|Hc]; rewrite E; cbn [mbind option_bind];
    (eexists _, _; split; [done|]); cbn [default]; (split; [done|]); (split; [done|]); (split; [done|]); (split; [done|]); (split; [done|]).
  - unfold phase. cbn. split; [done|]. unfold outputb. rewrite <- !app_assoc. cbn. rewrite Hbyte.
    assert (frame l = frame_part (take (Z.to_nat (write_pos k)) l) ++ [(1, SMIC_CC_SMS SMIC_WR_END); (0, b)]) as ->.
    { rewrite <- smic_frame_last, <- Htake by done. by rewrite take_ge by lia. }
    apply (wired_app _ _ [Out 1 (SMIC_CC_SMS SMIC_WR_END); Out 0 b; Out 2 (u8 (Z.lor flags SMIC_FLAG_BSY))] Hwire).
  - unfold phase, written. cbn. split; [lia|]. split; [lia|]. unfold outputb. rewrite <- !app_assoc. cbn. rewrite Hbyte, Htake, frame_part_snoc by done.
    apply (wired_app _ _ [Out 1 (SMIC_CC_SMS SMIC_WR_NEXT); Out 0 b; Out 2 (u8 (Z.lor flags SMIC_FLAG_BSY))] Hwire).
Qed.

(** A byte of the answer, and the control code for the next one. *)
Lemma read_more_ok flags code st ctrl bytes l k : code = SMIC_RD_NEXT \/ code = SMIC_RD_END ->
  arrays k -> receiving l (io k) ctrl bytes -> got k bytes ->
  exists v k', read_more hw flags (SMIC_CC_SMS code) st k = Some (None, k') /\ arrays k' /\ state k' = st
    /\ receiving l (io k') (ctrl ++ [rd code]) (bytes ++ [v]) /\ got k' (bytes ++ [v])
    /\ orig_write_count k' = orig_write_count k /\ write_data k' = write_data k.
Proof.
  intros Hcode (Hw & Hr & Hp) Hrec (Hpos & Htake & Hcut). set (v := u8 (hw (io k) 0)).
  assert (forall h, receiving l ((h ++ [In 0 v]) ++ [Out 1 (SMIC_CC_SMS code)] ++ [Out 2 (u8 (Z.lor flags SMIC_FLAG_BSY))]) (ctrl ++ [rd code]) (bytes ++ [v]) <-> 
    receiving l (h ++ In 0 v :: [Out 1 (SMIC_CC_SMS code); Out 2 (u8 (Z.lor flags SMIC_FLAG_BSY))]) (ctrl ++ [rd code]) (bytes ++ [v])) as Hio
    by (intros h; by rewrite <- app_assoc).
  assert (receiving l (io k ++ In 0 v :: [Out 1 (SMIC_CC_SMS code); Out 2 (u8 (Z.lor flags SMIC_FLAG_BSY))]) (ctrl ++ [rd code]) (bytes ++ [v])) as Hrec'.
  { pose proof (receiving_app _ _ _ _ 0 v [Out 1 (SMIC_CC_SMS code); Out 2 (u8 (Z.lor flags SMIC_FLAG_BSY))] Hrec) as H.
    by destruct Hcode as [-> | ->]. }
  assert (u8 (SMIC_CC_SMS code) = SMIC_CC_SMS code) as Hc by (by destruct Hcode as [-> | ->]).
  exists v. unfold read_more, read_next_byte, read_smic_data, inputb. fold v. cbn [fst snd read_pos set_io read_data].
  unfold MAX_SMIC_READ_SIZE in *. destruct (Z.leb_spec 80 (read_pos k)) as [Hfull|Hfull].
  - eexists. split; [done|]. split; [done|]. split; [done|]. cbn. unfold outputb. rewrite Hc.
    split; [by rewrite <- app_assoc; apply Hio|]. split; [|done].
    unfold got, MAX_SMIC_READ_SIZE. cbn. rewrite length_app. cbn. split; [lia|]. split; [|done].
    rewrite take_app_le by lia. done.
  - rewrite write_at_Some by lia. cbn [mbind option_bind]. eexists. split; [done|].
    split; [unfold arrays, MAX_SMIC_READ_SIZE; cbn; rewrite length_insert; lia|]. split; [done|]. cbn. unfold outputb. rewrite Hc.
    split; [by rewrite <- app_assoc; apply Hio|]. split; [|done].
    unfold got, MAX_SMIC_READ_SIZE. cbn. rewrite length_app. cbn. split; [lia|]. split; [|lia].
    assert (length bytes = Z.to_nat (read_pos k)) as Hlen by lia.
    replace (Z.to_nat (read_pos k + 1)) with (S (Z.to_nat (read_pos k))) by lia.
    rewrite (take_write _ _ _ (Z.to_nat (read_pos k))) by lia. rewrite Htake, <- Hlen, take_ge by lia.
    by rewrite take_ge by (rewrite length_app; cbn; lia).
Qed.
Lemma got_nil k : read_pos k = 0 -> got k [].
Proof. intros E. unfold got. rewrite E. by cbn. Qed.

(** A case that reads a byte of the answer. *)
Lemma case_read flags code st ctrl bytes l k : code = SMIC_RD_NEXT \/ code = SMIC_RD_END ->
  smic_inv (Some l) k -> receiving l (io k) ctrl bytes -> got k bytes ->
  (forall v k', receiving l (io k') (ctrl ++ [rd code]) (bytes ++ [v]) -> got k' (bytes ++ [v]) -> state k' = st -> phase l k') ->
  case_ok (Some l) (read_more hw flags (SMIC_CC_SMS code) st k).
Proof.
  intros Hcode [Ha (Ho & Hs & Hb & Ht & _)] Hrec Hgot Hph.
  destruct (read_more_ok flags code st ctrl bytes l k Hcode Ha Hrec Hgot) as (v & k' & -> & Ha' & Est & Hrec' & Hgot' & Eo & Ed).
  eexists _, _. split; [done|]. cbn. split; [done|]. cbn [held]. rewrite Eo, Ed. split; [done|]. split; [done|]. split; [done|]. split; [done|]. by eapply Hph.
Qed.

Lemma phase_next bytes v l k : receiving l (io k) ((rd SMIC_RD_START :: replicate (length bytes) (rd SMIC_RD_NEXT)) ++ [rd SMIC_RD_NEXT]) (bytes ++ [v]) ->
  got k (bytes ++ [v]) -> state k = SMIC_READ_NEXT -> phase l k.
Proof.
  intros Hrec Hg Es. unfold phase. rewrite Es. exists (bytes ++ [v]). split; [|done].
  rewrite length_app, Nat.add_comm. cbn [length plus replicate]. cbn [app] in Hrec. by rewrite replicate_cons_app.
Qed.

(** After a read of the data register. *)
Lemma read_data_ok l k : smic_inv (Some l) k -> exists v k', read_smic_data hw k = (v, k') /\ smic_inv (Some l) k' /\ state k' = state k
  /\ read_pos k' = read_pos k /\ io k' = io k ++ [In 0 v] /\ read_data k' = read_data k /\ truncated k' = truncated k.
Proof. intros Hk. eexists _, _. split; [reflexivity|]. split; [by apply inv_in|done]. Qed.

Lemma smic_case_ok flags status req k : smic_inv req k -> case_ok req (smic_case hw flags status k).
Proof.
  intros Hk. destruct req as [l|].
  2:{ pose proof Hk as [Ha Hh]. cbn in Hh. unfold smic_case. rewrite Hh. eexists _, _. split; [done|]. cbn. by case_test. }
  pose proof Hk as [Ha (Ho & Hs & Hb & Ht & Hp)].
  assert (forall r, (r = SI_SM_CALL_WITH_DELAY) -> forall k', smic_inv (Some l) k' -> case_ok (Some l) (Some (Some r, k'))) as Hret
    by (intros r -> k' Hk'; by eexists _, _).
  destruct (state k) eqn:Es.
  3: by apply case_op_ok.
  all: unfold smic_case; rewrite Es; cbv zeta; unfold phase in Hp; rewrite Es in Hp; try done.
  - eexists _, _. split; [done|]. cbn. by split.
  - case_test; [by apply Hret, recovery_ok|]. case_test; [apply write_more_ok; auto|by apply Hret].
  - case_test; [by apply Hret, recovery_ok|]. case_test; [apply write_more_ok; auto|by apply Hret].
  - case_test; [by apply Hret, recovery_ok|]. destruct (read_data_ok l k Hk) as (v & k' & E' & Hk' & Est & Er & Ei & _). rewrite E'.
    case_test; [by apply Hret, recovery_ok|]. eexists _, _. split; [done|]. cbn.
    destruct Hk' as [Ha' (Ho' & Hs' & Hb' & Ht' & Hp')]. split; [done|]. do 4 (split; [done|]). unfold phase in *. by rewrite Est, Es in Hp'.
  - case_test; [|by apply Hret]. destruct Hp as [Hr Hw]. eexists _, _. split; [done|]. cbn. split; [done|]. do 4 (split; [done|]).
    unfold phase. cbn. split; [done|]. unfold outputb. rewrite <- app_assoc. exact (wired_receiving l (io k) [Out 1 (SMIC_CC_SMS SMIC_RD_START); Out 2 (u8 (Z.lor flags SMIC_FLAG_BSY))] Hw).
  - case_test; [by apply Hret, recovery_ok|]. case_test; [|by apply Hret]. destruct Hp as [Hr Hw].
    apply (case_read flags SMIC_RD_NEXT SMIC_READ_NEXT [rd SMIC_RD_START] [] l k); auto using got_nil. intros v k'. by apply (phase_next []).
  - destruct Hp as (bytes & Hrec & Hg). case_test.
    + apply (case_read flags SMIC_RD_END SMIC_READ_END (rd SMIC_RD_START :: replicate (length bytes) (rd SMIC_RD_NEXT)) bytes l k); auto. intros v k' Hrec' Hg' Est. unfold phase. rewrite Est.
      exists (bytes ++ [v]). split; [|done]. rewrite length_app, Nat.add_sub. exact Hrec'.
    + case_test; [|by apply Hret, recovery_ok]. case_test; [|by apply Hret].
      apply (case_read flags SMIC_RD_NEXT SMIC_READ_NEXT (rd SMIC_RD_START :: replicate (length bytes) (rd SMIC_RD_NEXT)) bytes l k); auto. intros v k'. apply phase_next.
  - case_test; [by apply Hret, recovery_ok|]. destruct (read_data_ok l k Hk) as (v & k' & E' & Hk' & Est & Er & Ei & Ed & Et). rewrite E'.
    case_test; [by apply Hret, recovery_ok|]. eexists _, _. split; [done|]. cbn. destruct Hk' as [Ha' (_ & _ & _ & _ & Hp')].
    split; [by split|]. intros l' [= <-]. unfold phase in Hp'. rewrite Est, Es in Hp'. exact Hp'.
  - eexists _, _. split; [done|]. cbn. split; [|done]. destruct Ha as (? & ? & ?). split; [done|]. cbn. unfold MAX_SMIC_READ_SIZE in *. cbn. lia.
Qed.

Lemma init_inv_smic k : arrays k -> smic_inv None (init_smic_data k).
Proof. intros (? & ? & ?). split; [|done]. split; [done|]. split; [done|]. cbn. unfold MAX_SMIC_READ_SIZE. lia. Qed.

Lemma check_timeout_ok time req k : smic_inv req k -> state k <> SMIC_HOSED ->
  exists over k', check_timeout time k = (over, k') /\ smic_inv req k' /\ (over = false -> state k' = state k).
Proof.
  intros Hk Hn. unfold check_timeout.
  assert (exists over k', (if time <? SMIC_RETRY_TIMEOUT then
      let k := set_timeout (s64 (smic_timeout k - time)) k in if smic_timeout k <? 0 then (true, start_error_recovery k) else (false, k)
    else (false, k)) = (over, k') /\ (state k <> SMIC_IDLE -> smic_inv req k') /\ (over = false -> state k' = state k)) as Hgo.
  { case_test; [|by eexists _, _]. cbv zeta. case_test; [|eexists _, _; split; [done|]; split; [|done]; by intros _].
    eexists _, _. split; [done|]. split; [|done]. intros Hs. destruct req as [l|]; [by apply recovery_ok|by destruct Hk]. }
  destruct Hgo as (over & k' & E & Hk' & Hf). destruct (state k) eqn:Es; try (exists over, k'; split; [done|]; split; [by apply Hk'|done]).
  exists false, k. by rewrite Es.
Qed.

Lemma smic_event_ok time req k : smic_inv req k ->
  exists r k', smic_event hw time k = Some (r, k') /\ result_ok req r k'.
Proof.
  intros Hk. unfold smic_event. destruct (decide (state k = SMIC_HOSED)) as [Hh|Hn].
  { rewrite Hh. eexists _, _. split; [done|]. by apply init_inv_smic, Hk. }
  destruct (check_timeout_ok time req k Hk Hn) as (over & k1 & E & Hk1 & _). rewrite E.
  assert (forall b : bool, exists r k', (if over then Some (SI_SM_CALL_WITH_DELAY, k1) else
      let '(flags, k) := read_smic_flags hw k1 in
      if negb (Z.land flags SMIC_FLAG_BSY =? 0) then Some (SI_SM_CALL_WITH_DELAY, k) else
      let '(status, k) := read_smic_status hw k in
      r ← smic_case hw flags status k;
      match r.1 with Some res => Some (res, r.2) | None => Some (SI_SM_CALL_WITHOUT_DELAY, set_timeout SMIC_RETRY_TIMEOUT r.2) end)
    = Some (r, k') /\ result_ok req r k') as Hgo.
  { intros _. destruct over; [by eexists _, _|]. unfold read_smic_flags, read_smic_status, inputb. cbn [fst snd].
    set (f := u8 (hw (io k1) 2)). pose proof (inv_in req 2 f k1 Hk1) as Hk2. case_test; [by eexists _, _|].
    set (k2 := set_io _ k1) in *. set (st := u8 (hw (io k2) 1)). pose proof (inv_in req 1 st k2 Hk2) as Hk3.
    destruct (smic_case_ok f st req _ Hk3) as (o & k4 & -> & Ho). cbn. destruct o as [r|]; by eexists _, _. }
  destruct (Hgo true) as (r & k' & Eg & Hr). exists r, k'. split; [|done]. by destruct (state k).
Qed.

End cases.

(** ** The handlers *)

Lemma smic_copies data len k :
  smic_get_result data len k
  = r ← copy_result data (read_data k) (read_pos k) (truncated k) len;
    Some (r.1.1, r.1.2, set_read (read_data k) r.2 false k).
Proof.
  unfold smic_get_result, copy_result, mbind, option_bind. destruct k as [st h wd wp wc ow rdata rp tr er t]. cbn.
  destruct (len <? rp); cbn; (destruct (memcpy data rdata _) as [d|]; cbn; [|done]); destruct (_ && _); cbn;
    try (destruct (write_at d 2 IPMI_ERR_UNSPECIFIED) as [d'|]; cbn; [|done]); try destruct tr; cbn; try done;
    by destruct (write_at _ 2 IPMI_ERR_MSG_TRUNCATED).
Qed.

Lemma smic_result_ok bytes buf len k : arrays k -> 3 <= len <= Z.of_nat (length buf) -> got k bytes ->
  exists p, smic_get_result buf len k
      = Some ((response MAX_SMIC_READ_SIZE bytes (truncated k) len buf).1, (response MAX_SMIC_READ_SIZE bytes (truncated k) len buf).2,
          set_read (read_data k) p false k)
    /\ 0 <= p <= MAX_SMIC_READ_SIZE.
Proof.
  intros (_ & Hr & Hp) Hl (Hpos & Htake & _). rewrite smic_copies.
  destruct (copy_result_ok MAX_SMIC_READ_SIZE bytes buf (read_data k) (read_pos k) (truncated k) len) as (p & E & Hp');
    [done..|unfold MAX_SMIC_READ_SIZE; lia|]. rewrite E. by exists p.
Qed.

Lemma smic_start_state data k k' : start_smic_transaction data k = Some (0, k') -> state k' = SMIC_START_OP.
Proof.
  unfold start_smic_transaction. cbv zeta. repeat case_test; [done..|].
  destruct (state k); try done; (destruct (memcpy _ _ _); cbn; [by intros [= <-]|done]).
Qed.

Lemma smic_start_ok req data k : smic_inv req k -> Forall byte data ->
  exists rv k', start_smic_transaction data k = Some (rv, k')
    /\ (rv = 0 -> smic_inv (Some data) k' /\ state k' = SMIC_START_OP /\ truncated k' = truncated k) /\ (rv <> 0 -> k' = k)
    /\ (state k = SMIC_IDLE -> 2 <= Z.of_nat (length data) <= MAX_SMIC_WRITE_SIZE -> rv = 0).
Proof.
  intros ((Hw & Hr & Hp) & Hh) Hb. unfold start_smic_transaction. cbv zeta.
  destruct (Z.ltb_spec (Z.of_nat (length data)) 2); [exists IPMI_REQ_LEN_INVALID_ERR, k; split_and!; (done || lia)|].
  destruct (Z.ltb_spec MAX_SMIC_WRITE_SIZE (Z.of_nat (length data))); [exists IPMI_REQ_LEN_EXCEEDED_ERR, k; split_and!; (done || lia)|].
  destruct (state k) eqn:Es; try (by exists IPMI_NOT_IN_MY_STATE_ERR, k); rewrite memcpy_Some by lia; cbn;
    (eexists _, _; split; [reflexivity|]; split; [|done]; intros _; split; [|done]);
    rewrite Nat2Z.id, take_ge by lia;
    (split; [unfold arrays, MAX_SMIC_READ_SIZE in *; cbn; rewrite length_app, length_drop; lia|]);
    (split; [done|]; split; [done|]; split; [done|]; cbn; split; [by rewrite take_app_length|]); unfold phase, written; cbn; lia.
Qed.

Lemma write_more_state flags k o k' : write_more flags k = Some (o, k') -> o = None /\ state k' <> SMIC_IDLE.
Proof.
  unfold write_more. case_test; (destruct (write_next_byte _); cbn; [by intros [= <- <-]|done]).
Qed.

Lemma read_more_state hw flags c st k o k' : read_more hw flags c st k = Some (o, k') -> o = None /\ state k' = st.
Proof. unfold read_more. destruct (read_next_byte _ _); cbn; [by intros [= <- <-]|done]. Qed.

Lemma smic_recovery_state k : state (start_error_recovery k) <> SMIC_IDLE.
Proof. unfold start_error_recovery. cbv zeta. by case_test. Qed.

Lemma smic_case_at_rest hw flags status k o k' : state k <> SMIC_IDLE -> state k <> SMIC_HOSED ->
  smic_case hw flags status k = Some (o, k') ->
  o <> Some SI_SM_IDLE /\ o <> Some SI_SM_ATTN /\ o <> Some SI_SM_HOSED /\ (state k' = SMIC_IDLE -> o = Some SI_SM_TRANSACTION_COMPLETE).
Proof.
  intros Hn Hh. pose proof (smic_recovery_state k) as Hrec.
  assert (forall r, r = SI_SM_CALL_WITH_DELAY -> forall k1, state k1 <> SMIC_IDLE -> Some (Some r, k1) = Some (o, k') ->
    o <> Some SI_SM_IDLE /\ o <> Some SI_SM_ATTN /\ o <> Some SI_SM_HOSED /\ (state k' = SMIC_IDLE -> o = Some SI_SM_TRANSACTION_COMPLETE)) as Hret
    by (intros r -> k1 Hs [= <- <-]; by split_and!).
  assert (o = None /\ state k' <> SMIC_IDLE -> 
    o <> Some SI_SM_IDLE /\ o <> Some SI_SM_ATTN /\ o <> Some SI_SM_HOSED /\ (state k' = SMIC_IDLE -> o = Some SI_SM_TRANSACTION_COMPLETE)) as Hgo
    by (intros [-> Hs]; by split_and!).
  unfold smic_case. cbv zeta. destruct (state k) eqn:Es; try done; repeat case_test; try (apply (Hret _ eq_refl); first [exact Hrec|congruence]);
    try (intros Hm; apply Hgo; first [by eapply write_more_state in Hm|eapply read_more_state in Hm; by destruct Hm as [-> ->]]).
  - intros [= <- <-]. by apply Hgo.
  - destruct (write_next_byte _); cbn; [|done]. intros [= <- <-]. by apply Hgo.
  - cbn. case_test; [apply Hret; [done|apply smic_recovery_state]|]. intros [= <- <-]. by apply Hgo.
  - intros [= <- <-]. by apply Hgo.
  - cbn. case_test; [apply Hret; [done|apply smic_recovery_state]|]. intros [= <- <-]. by split_and!.
Qed.

(** A machine is idle after an event only if it was, or if a transaction has
    ended. *)
Lemma smic_at_rest hw time k r k' : smic_event hw time k = Some (r, k') ->
  (state k' = SMIC_IDLE -> goes_on r = true -> state k = SMIC_IDLE) /\
  (r = SI_SM_IDLE \/ r = SI_SM_ATTN -> state k = SMIC_IDLE).
Proof.
  intros Ev. destruct (decide (state k = SMIC_IDLE)) as [|Hi]; [done|].
  enough ((goes_on r = true -> state k' <> SMIC_IDLE) /\ r <> SI_SM_IDLE /\ r <> SI_SM_ATTN) as (H1 & H2 & H3)
    by (split; [intros ? ?; by destruct H1|by intros []]).
  unfold smic_event in Ev. destruct (decide (state k = SMIC_HOSED)) as [Hh|Hh].
  { rewrite Hh in Ev. by simplify_eq. }
  assert (exists over k1, check_timeout time k = (over, k1) /\ state k1 <> SMIC_IDLE /\ (over = false -> state k1 <> SMIC_HOSED)) as (over & k1 & E & Hk1 & Ho1).
  { unfold check_timeout. pose proof (smic_recovery_state (set_timeout (s64 (smic_timeout k - time)) k)).
    destruct (state k) eqn:Es; try done; repeat case_test; eexists _, _; (split; [reflexivity|]); split; try done; try congruence; cbn; congruence. }
  rewrite E in Ev.
  assert ((if over then Some (SI_SM_CALL_WITH_DELAY, k1) else
      let '(flags, k) := read_smic_flags hw k1 in
      if negb (Z.land flags SMIC_FLAG_BSY =? 0) then Some (SI_SM_CALL_WITH_DELAY, k) else
      let '(status, k) := read_smic_status hw k in
      r ← smic_case hw flags status k;
      match r.1 with Some res => Some (res, r.2) | None => Some (SI_SM_CALL_WITHOUT_DELAY, set_timeout SMIC_RETRY_TIMEOUT r.2) end)
    = Some (r, k')) as Ev' by (by destruct (state k)).
  clear Ev. destruct over; [by simplify_eq|]. unfold read_smic_flags, read_smic_status in Ev'. cbn [fst snd] in Ev'.
  case_test; [by simplify_eq|]. destruct (smic_case _ _ _ _) as [[o k2]|] eqn:Ec; [|done]. cbn in Ev'.
  apply smic_case_at_rest in Ec as (H1 & H2 & H3 & H4); [|done|by apply Ho1]. destruct o as [o|]; simplify_eq.
  - split; [|split; congruence]. intros Hg Hs. specialize (H4 Hs). by simplify_eq.
  - split; [|done]. intros _ Hs. by specialize (H4 Hs).
Qed.

Lemma event_rest hw time req k r k' : result_ok req r k' -> smic_event hw time k = Some (r, k') -> goes_on r = false -> smic_inv None k'.
Proof. intros Hr _ Hg. destruct r; try done; by destruct Hr. Qed.

#[export] Program Instance smic_si_sm : SiSm si_sm_data := {
  sm_hardware _ := True;
  sm_fits := Forall byte;
  sm_size := MAX_SMIC_WRITE_SIZE;
  sm_inv := smic_inv;
  sm_idle := smic_inv None;
}.
Next Obligation. done. Qed.
Next Obligation. done. Qed.
Next Obligation. done. Qed.
Next Obligation. intros req d [Ha _]. by apply init_inv_smic. Qed.
Next Obligation.
  intros req data d Hd Hb. destruct (smic_start_ok req data d Hd Hb) as (rv & k' & E & H1 & H2 & H3).
  exists rv, k'. split; [done|]. split; [|split; [done|]].
  - intros Hz. destruct (H1 Hz) as (Hk & Hs & _). split; [done|]. intros [_ Hi]. cbn in Hi. congruence.
  - intros [_ Hi]. by apply H3.
Qed.
Next Obligation.
  intros data data' d d' rv d'' E E'. apply smic_start_state in E. cbn in E'. unfold start_smic_transaction in E'. cbv zeta in E'.
  rewrite E in E'. repeat case_test; by simplify_eq.
Qed.
Next Obligation.
  intros hw time jiffies req d _ Hd. destruct (smic_event_ok hw time req d Hd) as (r & k' & E & Hr).
  destruct (smic_at_rest _ _ _ _ _ E) as [H1 H2].
  assert (state d = SMIC_IDLE -> smic_inv None d) as Hrest.
  { intros Hs. destruct Hd as [Ha Hh]. split; [done|]. exact Hs. }
  exists r, k'. split; [done|]. split; [by destruct r; try apply Hr|]. split; [|split].
  - intros [_ Hs] Hg. auto.
  - by apply (event_rest hw time req d).
  - auto.
Qed.
Next Obligation.
  intros buf len d Hd Hl. pose proof Hd as ((Hw & Hrd & Hp) & Hi).
  destruct (smic_result_ok (take (Z.to_nat (read_pos d)) (read_data d)) buf len d) as (p & E & Hp'); [apply Hd|done|..].
  - unfold got. rewrite length_take, take_take, Nat.min_id. split; [lia|]. split; [done|lia].
  - eexists _, _, _. split; [exact E|].
    destruct (response_range MAX_SMIC_READ_SIZE (take (Z.to_nat (read_pos d)) (read_data d)) (truncated d) len buf Hl).
    split; [done|]. split; [done|]. done.
Qed.

(** ** How often the device was asked for another byte, or for the end *)












(** ** A transaction *)






(** A caller that reports two seconds or more at every event never times out: a
    device that stays busy is waited for as long as it likes. *)
Lemma smic_never_times_out hw time k : (forall h p, hw h p = SMIC_FLAG_BSY) -> SMIC_RETRY_TIMEOUT <= time ->
  state k <> SMIC_IDLE -> state k <> SMIC_HOSED ->
  smic_event hw time k = Some (SI_SM_CALL_WITH_DELAY, set_io (io k ++ [In 2 SMIC_FLAG_BSY]) k).
Proof.
  intros Hhw Ht Hi Hh. unfold smic_event, check_timeout, read_smic_flags, inputb.
  rewrite (proj2 (Z.ltb_ge time SMIC_RETRY_TIMEOUT)) by done. destruct (state k); try done; cbn [fst snd io set_io]; by rewrite Hhw.
Qed.

(** ** A device *)

(** It takes a request of two bytes and answers with three; it is never busy. *)
Definition example_bmc : hardware := fun h port =>
  let w := length (wire h) in
  let status :=
    if (w <=? 1)%nat then SMIC_SC_SMS SMIC_READY
    else if (w =? 3)%nat then SMIC_SC_SMS SMIC_WR_START
    else if (w =? 5)%nat then SMIC_SC_SMS SMIC_WR_END
    else if (w =? 6)%nat then SMIC_SC_SMS SMIC_RD_START
    else if (w =? 7)%nat then SMIC_SC_SMS SMIC_RD_NEXT
    else if (w =? 8)%nat then SMIC_SC_SMS SMIC_RD_END
    else SMIC_SC_SMS SMIC_READY in
  if port =? 2 then Z.lor SMIC_RX_DATA_READY SMIC_TX_DATA_READY
  else if port =? 1 then status
  else nth (w - 6) [0x1c; 0x01; 0x00] 0 * (if (w =? 5)%nat then 0 else 1).

Definition example_smic : si_sm_data := init_smic_data (Smic SMIC_HOSED [] (replicate 80 0) 0 0 0 (replicate 80 0) 0 false 0 0).
Definition example_request : list Z := [0x18; 0x01].
Definition example_started : si_sm_data :=
  match start_smic_transaction example_request example_smic with Some (_, k) => k | None => example_smic end.
Definition example_begin : caller si_sm_data := Caller SI_SM_CALL_WITHOUT_DELAY 1000 example_started.
Definition example_end : caller si_sm_data :=
  Caller SI_SM_TRANSACTION_COMPLETE 1000 (machine (default example_begin (poll_run example_bmc (replicate 9 (0, 1000)) example_begin))).




Example example_smic_answer :
  fst <$> smic_get_result (replicate 10 0) 10 (machine example_end) = Some (3, [0x1c; 0x01; 0x00; 0; 0; 0; 0; 0; 0; 0]).
Proof. vm_compute. reflexivity. Qed.

