(* ===== verification/Workqueue.v ===== *)
(** Work queues: [vmware/linux_workqueue.c].

    Any number of threads run the code on one queue: the callers of queue_work,
    flush_workqueue, cancel_work_sync and destroy_workqueue, the helper worlds
    that run the posted requests and the work, and the handlers of the timers.
    A thread's program counter is the point where it continues next; what a
    thread does under [wqLock] is one step, and so is an access to the pending
    bit, to a timer, to the helper and to [wq_data] outside the lock. A failed
    assertion of the code is a fault.

    A work function that queues, flushes or cancels is another thread doing so;
    work is known to one queue only. A queue entry carries its number in the
    order of all entries; [started] and [cancelled] record where the entries
    went, for the statements only. *)

From S2P Require Import Prelude.
From stdpp Require Import countable gmap.
Local Open Scope Z_scope.

(** A caller's work, or the one a flushing thread has on its stack. *)
Inductive work := User (n : Z) | Plunger (t : nat).

#[global] Instance work_eq_dec : EqDecision work.
Proof. solve_decision. Defined.
#[global] Instance work_countable : Countable work.
Proof.
  refine (inj_countable' (fun w => match w with User n => inl n | Plunger t => inr t end)
    (fun s => match s with inl n => User n | inr t => Plunger t end) _).
  by intros [].
Defined.

Definition entry : Type := work * Z.

Record workqueue_struct := WQ {
  head : list entry;
  delayTimer : bool;                    (* armed *)
  qLen : Z;
  curPosted : Z;
  curDispatch : Z;
  maxDispatch : Z;
  waiting : Z;
  trackList : list (nat * entry);       (* trackers with the work they execute *)
  trackFlushList : list (nat * entry);
  trackFree : list nat;
  flushMutex : option nat;              (* its holder *)
  setExitFlag : bool;
}.

(** What a thread does when [vmklnx_workqueue_dispatch] is through: a caller of
    queue_work returns, a timer handler or a helper ends, a flush that began
    when [start] entries had been made waits for its plunger. *)
Inductive cont :=
| Return (r : Z)
| EndHandler (w : work)
| EndTimeout
| EndHelper
| Wait (start ticket : Z) (destroy : bool).

Inductive result :=
| Value (r : Z)
| Ended
| Flushed (start : Z)
| Destroyed.

Inductive pc :=
| QueueTest (w : work)                  (* vmklnx_queue_work: the exit flag *)
| QueueBit (w : work)                   (* the pending bit *)
| QueueLock (w : work)                  (* __queue_work *)
| DelayBit (w : work)                   (* queue_delayed_work *)
| DelayData (w : work)                  (* before wq_data is set *)
| DelayAdd (w : work)                   (* before add_timer *)
| Handler (w : work)                    (* delayed_work_timer_fn *)
| Timeout                               (* vmklnx_workqueue_timeout *)
| Submit (k : cont)                     (* dispatch: before the helper call *)
| SubmitFailed (k : cont)
| ArmTimer (k : cont)
| Redispatch (k : cont)
| Callout                               (* vmklnx_workqueue_callout *)
| Popped (tr : nat) (e : entry)         (* before the pending bit is cleared *)
| Calling (tr : nat) (e : entry)        (* in the work function *)
| Complete (tr : nat) (e : entry) (t : nat) (* plunger: before complete *)
| Done (tr : nat) (e : entry)           (* after the work function *)
| FlushMutex (start : Z) (destroy : bool)   (* flush_workqueue *)
| FlushLock (u : nat) (start : Z) (destroy : bool) (* __queue_work of the plunger *)
| FlushComp (start ticket : Z) (destroy : bool)
| FlushCheck (start ticket : Z) (destroy : bool)
| FlushSleep (start ticket : Z) (destroy : bool)
| FlushWoken (start ticket : Z) (destroy : bool)
| FlushUnlock (start : Z) (destroy : bool)
| CancelGrab (w : work) (timer : bool)  (* vmklnx_cancel_work_sync *)
| CancelTimer (w : work)
| CancelData (w : work) (timer grabbed : bool) (ret : Z)
| CancelLock (w : work) (timer grabbed : bool) (ret : Z)
| CancelSleep (w : work) (timer grabbed : bool) (ret : Z)
| CancelWoken (w : work) (timer grabbed : bool) (ret : Z)
| CancelPause (w : work) (timer : bool)
| CancelClear (w : work) (ret : Z)
| DestroyBit                            (* destroy_workqueue *)
| DestroyCheck
| DestroySleep
| DestroyTimer
| Returned (r : result).

Definition after (k : cont) : pc :=
  match k with
  | Return r => Returned (Value r)
  | EndHandler _ | EndTimeout | EndHelper => Returned Ended
  | Wait start p d => FlushComp start p d
  end.

(** ** The queue, under its lock *)

Definition set_queue (h : list entry) (n : Z) (q : workqueue_struct) : workqueue_struct :=
  WQ h (delayTimer q) n (curPosted q) (curDispatch q) (maxDispatch q) (waiting q)
    (trackList q) (trackFlushList q) (trackFree q) (flushMutex q) (setExitFlag q).
Definition set_timer (b : bool) (q : workqueue_struct) : workqueue_struct :=
  WQ (head q) b (qLen q) (curPosted q) (curDispatch q) (maxDispatch q) (waiting q)
    (trackList q) (trackFlushList q) (trackFree q) (flushMutex q) (setExitFlag q).
Definition set_posted (n : Z) (q : workqueue_struct) : workqueue_struct :=
  WQ (head q) (delayTimer q) (qLen q) n (curDispatch q) (maxDispatch q) (waiting q)
    (trackList q) (trackFlushList q) (trackFree q) (flushMutex q) (setExitFlag q).
Definition set_waiting (n : Z) (q : workqueue_struct) : workqueue_struct :=
  WQ (head q) (delayTimer q) (qLen q) (curPosted q) (curDispatch q) (maxDispatch q) n
    (trackList q) (trackFlushList q) (trackFree q) (flushMutex q) (setExitFlag q).
Definition set_track (n : Z) (tl tfl : list (nat * entry)) (tf : list nat) (q : workqueue_struct) : workqueue_struct :=
  WQ (head q) (delayTimer q) (qLen q) (curPosted q) n (maxDispatch q) (waiting q) tl tfl tf (flushMutex q) (setExitFlag q).
Definition set_mutex (m : option nat) (q : workqueue_struct) : workqueue_struct :=
  WQ (head q) (delayTimer q) (qLen q) (curPosted q) (curDispatch q) (maxDispatch q) (waiting q)
    (trackList q) (trackFlushList q) (trackFree q) m (setExitFlag q).
Definition set_exit (q : workqueue_struct) : workqueue_struct :=
  WQ (head q) (delayTimer q) (qLen q) (curPosted q) (curDispatch q) (maxDispatch q) (waiting q)
    (trackList q) (trackFlushList q) (trackFree q) (flushMutex q) true.

(** [singlethread], or as many as there are helper worlds. *)
Definition VMKLNX_MIN_QHELPERS : Z := 8.
Definition VMKLNX_MAX_QHELPERS : Z := 32.
Definition helper_worlds (pcpus : Z) : Z :=
  if pcpus <? VMKLNX_MIN_QHELPERS then VMKLNX_MIN_QHELPERS
  else if VMKLNX_MAX_QHELPERS <? pcpus then VMKLNX_MAX_QHELPERS else pcpus.
Definition __create_workqueue (singlethread : bool) (pcpus : Z) : workqueue_struct :=
  let max := if singlethread then 1 else helper_worlds pcpus in
  WQ [] false 0 0 0 max 0 [] [] (rev (seq 0 (Z.to_nat max))) None false.

(** The test of the loop of [vmklnx_workqueue_dispatch]; the request is posted
    without the lock. *)
Definition vmklnx_workqueue_dispatch (k : cont) (q : workqueue_struct) : workqueue_struct * pc :=
  if 0 <? Z.min (maxDispatch q - curDispatch q) (qLen q - curPosted q) then
    (set_posted (curPosted q + 1) q, Submit k)
  else (q, after k).

Definition works (l : list entry) : list work := l.*1.
Definition executing (q : workqueue_struct) : list (nat * entry) := trackList q ++ trackFlushList q.

(** Faults are [None]. *)
Definition assert (b : bool) : option unit := if b then Some tt else None.

Definition __queue_work (w : work) (ticket : Z) (is_pending : bool) (k : cont) (q : workqueue_struct)
    : option (workqueue_struct * pc) :=
  _ ← assert (negb (bool_decide (w ∈ works (head q))));
  _ ← assert is_pending;
  _ ← assert (Z.of_nat (length (head q)) =? qLen q);
  Some (vmklnx_workqueue_dispatch k (set_queue (head q ++ [(w, ticket)]) (qLen q + 1) q)).

(** The first part of [vmklnx_workqueue_callout]; the flag tells whether the
    waiting threads are woken. *)
Definition callout_pop (is_pending : work -> bool) (q : workqueue_struct)
    : option (workqueue_struct * pc * bool) :=
  _ ← assert (Z.of_nat (length (head q)) =? qLen q);
  _ ← assert (0 <? curPosted q);
  let q := set_posted (curPosted q - 1) q in
  match head q with
  | [] => Some (q, Returned Ended, curPosted q =? 0)
  | e :: rest =>
      if maxDispatch q <=? curDispatch q then Some (q, Returned Ended, curPosted q =? 0)
      else
        _ ← assert (is_pending e.1);
        _ ← assert (0 <? qLen q);
        let q := set_queue rest (qLen q - 1) q in
        _ ← assert (Z.of_nat (length (head q)) =? qLen q);
        match trackFree q with
        | [] => None
        | tr :: tf =>
            let q := set_track (curDispatch q + 1) ((tr, e) :: trackList q) (trackFlushList q) tf q in
            _ ← assert (Z.of_nat (length (trackList q)) + Z.of_nat (length (trackFlushList q)) =? curDispatch q);
            _ ← assert (Z.of_nat (length (trackFree q)) =? maxDispatch q - curDispatch q);
            Some (q, Popped tr e, false)
        end
  end.

(** [list_del_init] of the tracker, on whichever list it is. *)
Definition untrack (tr : nat) (l : list (nat * entry)) : list (nat * entry) := filter (fun x => x.1 <> tr) l.

(** The last part of [vmklnx_workqueue_callout]. *)
Definition callout_done (tr : nat) (q : workqueue_struct) : workqueue_struct * pc :=
  vmklnx_workqueue_dispatch EndHelper
    (set_track (curDispatch q - 1) (untrack tr (trackList q)) (untrack tr (trackFlushList q)) (tr :: trackFree q) q).

(** [vmklnx_plunger_complete], before [complete]. *)
Definition vmklnx_plunger_complete (q : workqueue_struct) : option workqueue_struct :=
  let q := set_track (curDispatch q) [] (trackList q ++ trackFlushList q) (trackFree q) q in
  _ ← assert (negb (bool_decide (trackFlushList q = [])));
  Some q.

Definition running (w : work) (q : workqueue_struct) : bool := bool_decide (w ∈ works (executing q).*2).

(** What [vmklnx_cancel_work_sync] does before it releases the lock, when it
    looks for the work among the executing ones: it sleeps, or goes on. *)
Definition cancel_scan (w : work) (timer grabbed slept : bool) (ret : Z) (q : workqueue_struct) : workqueue_struct * pc :=
  if running w q then (set_waiting (waiting q + 1) q, CancelSleep w timer grabbed ret)
  else (q, if grabbed then CancelClear w ret else if slept then CancelGrab w timer else CancelPause w timer).

Definition cancel_locked (w : work) (timer grabbed : bool) (ret : Z) (is_pending : bool) (q : workqueue_struct)
    : option (workqueue_struct * pc * list Z) :=
  if bool_decide (w ∈ works (head q)) && is_pending then
    let gone := filter (fun e => e.1 = w) (head q) in
    let q := set_queue (filter (fun e => e.1 <> w) (head q)) (qLen q - 1) q in
    _ ← assert (negb grabbed);
    _ ← assert (Z.of_nat (length (head q)) =? qLen q);
    Some (cancel_scan w timer true false 1 q, gone.*2)
  else Some (cancel_scan w timer grabbed false ret q, []).

(** ** The system *)

Record sys := Sys {
  wq : workqueue_struct;
  pending : gset work;        (* __WORK_PENDING *)
  wq_data : gset work;        (* wq_data is the queue *)
  armed : gset work;          (* timers of delayed work *)
  completed : gset nat;       (* completions of the plungers *)
  posted : nat;               (* requests the helper has not begun *)
  threads : list pc;
  next : Z;
  started : list Z;
  cancelled : list Z;
}.

Definition upd_wq (q : workqueue_struct) (s : sys) : sys :=
  Sys q (pending s) (wq_data s) (armed s) (completed s) (posted s) (threads s) (next s) (started s) (cancelled s).
Definition upd_pending (p : gset work) (s : sys) : sys :=
  Sys (wq s) p (wq_data s) (armed s) (completed s) (posted s) (threads s) (next s) (started s) (cancelled s).
Definition upd_data (d : gset work) (s : sys) : sys :=
  Sys (wq s) (pending s) d (armed s) (completed s) (posted s) (threads s) (next s) (started s) (cancelled s).
Definition upd_armed (a : gset work) (s : sys) : sys :=
  Sys (wq s) (pending s) (wq_data s) a (completed s) (posted s) (threads s) (next s) (started s) (cancelled s).
Definition upd_completed (c : gset nat) (s : sys) : sys :=
  Sys (wq s) (pending s) (wq_data s) (armed s) c (posted s) (threads s) (next s) (started s) (cancelled s).
Definition upd_posted (n : nat) (s : sys) : sys :=
  Sys (wq s) (pending s) (wq_data s) (armed s) (completed s) n (threads s) (next s) (started s) (cancelled s).
Definition upd_threads (ts : list pc) (s : sys) : sys :=
  Sys (wq s) (pending s) (wq_data s) (armed s) (completed s) (posted s) ts (next s) (started s) (cancelled s).
Definition go (t : nat) (p : pc) (s : sys) : sys := upd_threads (<[t := p]> (threads s)) s.
Definition begin (p : pc) (s : sys) : sys := upd_threads (threads s ++ [p]) s.

(** [vmk_WorldWakeup] on [waiting]. *)
Definition wake (p : pc) : pc :=
  match p with
  | FlushSleep a b c => FlushWoken a b c
  | CancelSleep a b c d => CancelWoken a b c d
  | DestroySleep => DestroyCheck
  | p => p
  end.
Definition vmk_WorldWakeup (s : sys) : sys := upd_threads (wake <$> threads s) s.

Definition enqueue (t : nat) (w : work) (k : cont) (s : sys) : option sys :=
  r ← __queue_work w (next s) (bool_decide (w ∈ pending s)) k (wq s);
  Some (Sys r.1 (pending s) ({[w]} ∪ wq_data s) (armed s) (completed s) (posted s) (<[t := r.2]> (threads s))
    (next s + 1) (started s) (cancelled s)).

(** Whether a thread is in the handler of the timer of [w]. *)
Definition in_handler (w : work) (p : pc) : bool :=
  match p with
  | Handler v | Submit (EndHandler v) | SubmitFailed (EndHandler v) | ArmTimer (EndHandler v) | Redispatch (EndHandler v) =>
      bool_decide (v = w)
  | _ => false
  end.

Definition in_timeout (p : pc) : bool :=
  match p with
  | Timeout | Submit EndTimeout | SubmitFailed EndTimeout | ArmTimer EndTimeout | Redispatch EndTimeout => true
  | _ => false
  end.

Definition dispatch (t : nat) (k : cont) (s : sys) : sys :=
  let r := vmklnx_workqueue_dispatch k (wq s) in go t r.2 (upd_wq r.1 s).

(** The functions of the code, each in terms of the points its threads are at.
    [None]: not at a point of the function, or waiting; [Some None]: a fault. *)
Definition vmklnx_queue_work (t : nat) (p : pc) (s : sys) : option (option sys) :=
  match p with
  | QueueTest w => Some (Some (go t (if setExitFlag (wq s) then Returned (Value 0) else QueueBit w) s))
  | QueueBit w =>
      Some (Some (if bool_decide (w ∈ pending s) then go t (Returned (Value 0)) s
                  else go t (QueueLock w) (upd_pending ({[w]} ∪ pending s) s)))
  | QueueLock w => Some (enqueue t w (Return 1) s)
  | _ => None
  end.

Definition queue_delayed_work (t : nat) (p : pc) (s : sys) : option (option sys) :=
  match p with
  | DelayBit w =>
      Some (Some (if bool_decide (w ∈ pending s) then go t (Returned (Value 0)) s
                  else go t (DelayData w) (upd_pending ({[w]} ∪ pending s) s)))
  | DelayData w =>
      Some (_ ← assert (negb (bool_decide (w ∈ armed s)));
            _ ← assert (negb (bool_decide (w ∈ works (head (wq s)))));
            Some (go t (DelayAdd w) (upd_data ({[w]} ∪ wq_data s) s)))
  | DelayAdd w => Some (Some (go t (Returned (Value 1)) (upd_armed ({[w]} ∪ armed s) s)))
  | _ => None
  end.

Definition delayed_work_timer_fn (t : nat) (p : pc) (s : sys) : option (option sys) :=
  match p with
  | Handler w => Some (_ ← assert (bool_decide (w ∈ wq_data s)); enqueue t w (EndHandler w) s)
  | _ => None
  end.

(** The rest of the loop of [vmklnx_workqueue_dispatch]: [ok] is the helper's
    answer. *)
Definition dispatch_loop (t : nat) (p : pc) (ok : bool) (s : sys) : option (option sys) :=
  match p with
  | Submit k =>
      Some (Some (if ok then
          go t (if maxDispatch (wq s) =? 1 then after k else Redispatch k) (upd_posted (S (posted s)) s)
        else go t (SubmitFailed k) s))
  | SubmitFailed k => Some (Some (go t (ArmTimer k) (upd_wq (set_posted (curPosted (wq s) - 1) (wq s)) s)))
  | ArmTimer k => Some (Some (go t (after k) (upd_wq (set_timer true (wq s)) s)))
  | Redispatch k => Some (Some (dispatch t k s))
  | _ => None
  end.

Definition vmklnx_workqueue_timeout (t : nat) (p : pc) (s : sys) : option (option sys) :=
  match p with Timeout => Some (Some (dispatch t EndTimeout s)) | _ => None end.

Definition popped (t : nat) (r : workqueue_struct * pc * bool) (s : sys) : sys :=
  let s' := Sys r.1.1 (pending s) (wq_data s) (armed s) (completed s) (posted s) (<[t := r.1.2]> (threads s)) (next s)
    (match r.1.2 with Popped _ e => started s ++ [e.2] | _ => started s end) (cancelled s) in
  if r.2 then vmk_WorldWakeup s' else s'.

Definition vmklnx_workqueue_callout (t : nat) (p : pc) (s : sys) : option (option sys) :=
  match p with
  | Callout =>
      Some (r ← callout_pop (fun w => bool_decide (w ∈ pending s)) (wq s); Some (popped t r s))
  | Popped tr e => Some (Some (go t (Calling tr e) (upd_pending (pending s ∖ {[e.1]}) s)))
  | Calling tr e =>
      match e.1 with
      | User _ => Some (Some (go t (Done tr e) s))
      | Plunger u => Some (q ← vmklnx_plunger_complete (wq s); Some (go t (Complete tr e u) (upd_wq q s)))
      end
  | Complete tr e u => Some (Some (go t (Done tr e) (upd_completed ({[u]} ∪ completed s) s)))
  | Done tr e =>
      let r := callout_done tr (wq s) in
      Some (Some (go t r.2 (upd_wq r.1 (vmk_WorldWakeup s))))
  | _ => None
  end.

Definition flush_workqueue (t : nat) (p : pc) (s : sys) : option (option sys) :=
  match p with
  | FlushMutex start d =>
      match flushMutex (wq s) with
      | Some _ => None
      | None =>
          Some (Some (go t (FlushLock t start d)
            (upd_completed (completed s ∖ {[t]})
              (upd_pending ({[Plunger t]} ∪ pending s) (upd_wq (set_mutex (Some t) (wq s)) s)))))
      end
  | FlushLock _ start d => Some (enqueue t (Plunger t) (Wait start (next s) d) s)
  | FlushComp start p d =>
      if bool_decide (t ∈ completed s) then Some (Some (go t (FlushCheck start p d) s)) else None
  | FlushCheck start p d =>
      Some (Some (if bool_decide (trackFlushList (wq s) = []) then go t (FlushUnlock start d) s
                  else go t (FlushSleep start p d) (upd_wq (set_waiting (waiting (wq s) + 1) (wq s)) s)))
  | FlushWoken start p d =>
      let q := set_waiting (waiting (wq s) - 1) (wq s) in
      Some (Some (if bool_decide (trackFlushList q = []) then go t (FlushUnlock start d) (upd_wq q s)
                  else go t (FlushSleep start p d) (upd_wq (set_waiting (waiting q + 1) q) s)))
  | FlushUnlock start d =>
      Some (Some (go t (if d then DestroyCheck else Returned (Flushed start)) (upd_wq (set_mutex None (wq s)) s)))
  | _ => None
  end.

Definition vmklnx_cancel_work_sync (t : nat) (p : pc) (s : sys) : option (option sys) :=
  match p with
  | CancelGrab w tm =>
      Some (Some (if bool_decide (w ∈ pending s) then go t (if tm then CancelTimer w else CancelData w tm false 0) s
                  else go t (CancelData w tm true 0) (upd_pending ({[w]} ∪ pending s) s)))
  | CancelTimer w =>
      if bool_decide (w ∈ armed s) then
        Some (_ ← assert (bool_decide (w ∈ pending s));
              Some (go t (CancelData w true true 1) (upd_armed (armed s ∖ {[w]}) s)))
      else if existsb (in_handler w) (threads s) then None
      else Some (Some (go t (CancelData w true false 0) s))
  | CancelData w tm g ret =>
      Some (Some (go t (if bool_decide (w ∈ wq_data s) then CancelLock w tm g ret
                        else if g then CancelClear w ret else CancelPause w tm) s))
  | CancelLock w tm g ret =>
      Some (r ← cancel_locked w tm g ret (bool_decide (w ∈ pending s)) (wq s);
            Some (Sys r.1.1 (pending s) (wq_data s) (armed s) (completed s) (posted s) (<[t := r.1.2]> (threads s))
              (next s) (started s) (cancelled s ++ r.2)))
  | CancelWoken w tm g ret =>
      let r := cancel_scan w tm g true ret (set_waiting (waiting (wq s) - 1) (wq s)) in
      Some (Some (go t r.2 (upd_wq r.1 s)))
  | CancelPause w tm => Some (Some (go t (CancelGrab w tm) s))
  | CancelClear w ret => Some (Some (go t (Returned (Value ret)) (upd_pending (pending s ∖ {[w]}) s)))
  | _ => None
  end.

Definition destroy_workqueue (t : nat) (p : pc) (s : sys) : option (option sys) :=
  match p with
  | DestroyBit =>
      Some (Some (if setExitFlag (wq s) then go t (Returned Ended) s
                  else go t (FlushMutex (next s) true) (upd_wq (set_exit (wq s)) s)))
  | DestroyCheck => Some (Some (go t (if 0 <? curPosted (wq s) then DestroySleep else DestroyTimer) s))
  | DestroyTimer =>
      if delayTimer (wq s) then Some (Some (go t (Returned Destroyed) (upd_wq (set_timer false (wq s)) s)))
      else if existsb in_timeout (threads s) then None
      else Some (Some (go t (Returned Destroyed) s))
  | _ => None
  end.

(** One step of thread [t] at [p]. *)
Definition thread_step (t : nat) (p : pc) (ok : bool) (s : sys) : option (option sys) :=
  match p with
  | QueueTest _ | QueueBit _ | QueueLock _ => vmklnx_queue_work t p s
  | DelayBit _ | DelayData _ | DelayAdd _ => queue_delayed_work t p s
  | Handler _ => delayed_work_timer_fn t p s
  | Timeout => vmklnx_workqueue_timeout t p s
  | Submit _ | SubmitFailed _ | ArmTimer _ | Redispatch _ => dispatch_loop t p ok s
  | Callout | Popped _ _ | Calling _ _ | Complete _ _ _ | Done _ _ => vmklnx_workqueue_callout t p s
  | FlushMutex _ _ | FlushLock _ _ _ | FlushComp _ _ _ | FlushCheck _ _ _ | FlushSleep _ _ _ | FlushWoken _ _ _
  | FlushUnlock _ _ => flush_workqueue t p s
  | CancelGrab _ _ | CancelTimer _ | CancelData _ _ _ _ | CancelLock _ _ _ _ | CancelSleep _ _ _ _
  | CancelWoken _ _ _ _ | CancelPause _ _ | CancelClear _ _ => vmklnx_cancel_work_sync t p s
  | DestroyBit | DestroyCheck | DestroySleep | DestroyTimer => destroy_workqueue t p s
  | Returned _ => None
  end.

(** The calls, and the moves of the helper and of the timers. A timer that goes
    off is no longer armed; a sleeping thread may wake up without reason. *)
Inductive call :=
| CallQueue (n : Z)
| CallDelayed (n : Z)
| CallCancel (n : Z) (timer : bool)
| CallFlush
| CallDestroy.

Inductive label :=
| Call (c : call)
| Request
| DelayTimer
| WorkTimer (w : work)
| Spurious (t : nat)
| Run (t : nat) (ok : bool).

Definition entry_point (c : call) (s : sys) : pc :=
  match c with
  | CallQueue n => QueueTest (User n)
  | CallDelayed n => DelayBit (User n)
  | CallCancel n tm => CancelGrab (User n) tm
  | CallFlush => FlushMutex (next s) false
  | CallDestroy => DestroyBit
  end.

Definition sleeps (p : pc) : bool :=
  match p with FlushSleep _ _ _ | CancelSleep _ _ _ _ | DestroySleep => true | _ => false end.

Definition step (s : sys) (l : label) : option (option sys) :=
  match l with
  | Call c => Some (Some (begin (entry_point c s) s))
  | Request => match posted s with O => None | S n => Some (Some (begin Callout (upd_posted n s))) end
  | DelayTimer =>
      if delayTimer (wq s) then Some (Some (begin Timeout (upd_wq (set_timer false (wq s)) s))) else None
  | WorkTimer w =>
      if bool_decide (w ∈ armed s) then Some (Some (begin (Handler w) (upd_armed (armed s ∖ {[w]}) s))) else None
  | Spurious t => p ← threads s !! t; if sleeps p then Some (Some (go t (wake p) s)) else None
  | Run t ok => p ← threads s !! t; thread_step t p ok s
  end.

Definition init (singlethread : bool) (pcpus : Z) : sys :=
  Sys (__create_workqueue singlethread pcpus) ∅ ∅ ∅ ∅ 0 [] 0 [] [].

Inductive reachable (s0 : sys) : sys -> Prop :=
| reach_refl : reachable s0 s0
| reach_step s l s' : reachable s0 s -> step s l = Some (Some s') -> reachable s0 s'.

(** ** Sums over the threads *)

Fixpoint total (f : pc -> Z) (ts : list pc) : Z :=
  match ts with [] => 0 | p :: ts => f p + total f ts end.

Lemma total_app f ts p : total f (ts ++ [p]) = total f ts + f p.
Proof. induction ts as [|q ts IH]; cbn in *; lia. Qed.

Lemma total_insert f ts t p p' : ts !! t = Some p -> total f (<[t := p']> ts) = total f ts - f p + f p'.
Proof.
  revert t. induction ts as [|q ts IH]; intros [|t] H; simplify_eq/=; [lia|]. specialize (IH t H). lia.
Qed.

Lemma total_wake f ts : (forall p, f (wake p) = f p) -> total f (wake <$> ts) = total f ts.
Proof. intros H. induction ts as [|q ts IH]; cbn; [done|]. by rewrite H, IH. Qed.

Lemma total_nonneg f ts : (forall p, 0 <= f p) -> 0 <= total f ts.
Proof. intros H. induction ts as [|q ts IH]; cbn; [lia|]. specialize (H q). lia. Qed.

Lemma total_pos f ts : (forall p, 0 <= f p) -> 0 < total f ts -> exists t p, ts !! t = Some p /\ 0 < f p.
Proof.
  intros H. induction ts as [|q ts IH]; cbn; [lia|]. intros Ht. pose proof (H q).
  destruct (decide (0 < f q)) as [Hq|Hq]; [by exists O, q|]. destruct IH as (t & p & ? & ?); [lia|]. by exists (S t), p.
Qed.

Lemma total_at f ts t p : (forall p, 0 <= f p) -> ts !! t = Some p -> f p <= total f ts.
Proof.
  intros H. revert t. induction ts as [|q ts IH]; intros [|t] E; simplify_eq/=.
  - pose proof (total_nonneg f ts H). lia.
  - pose proof (IH t E). specialize (H q). lia.
Qed.

(** Occurrences in a list. *)
Definition occ {A} `{EqDecision A} (x : A) (l : list A) : Z := Z.of_nat (length (filter (fun y => y = x) l)).

Section occ.
Context {A : Type} `{EqDecision A}.
Implicit Types (x y : A) (l : list A).

Lemma occ_nil x : occ x [] = 0.
Proof. done. Qed.
Lemma occ_cons x y l : occ x (y :: l) = (if decide (y = x) then 1 else 0) + occ x l.
Proof. unfold occ. rewrite filter_cons. destruct (decide (y = x)); cbn; lia. Qed.
Lemma occ_app x l l' : occ x (l ++ l') = occ x l + occ x l'.
Proof. unfold occ. rewrite filter_app, length_app. lia. Qed.
Lemma occ_nonneg x l : 0 <= occ x l.
Proof. unfold occ. lia. Qed.
Lemma occ_in x l : x ∈ l <-> 1 <= occ x l.
Proof.
  induction l as [|y l IH]; [rewrite occ_nil; split; [by intros ?%elem_of_nil|lia]|].
  rewrite elem_of_cons, occ_cons, IH. pose proof (occ_nonneg x l).
  destruct (decide (y = x)) as [->|Hn]; split; [intros; lia|auto|intros [->|?]; [done|lia]|right; lia].
Qed.
Lemma occ_notin x l : x ∉ l <-> occ x l = 0.
Proof. rewrite occ_in. pose proof (occ_nonneg x l). lia. Qed.
End occ.
