(* ===== verification/WqInv.v ===== *)
(** Invariants of the work queues: the counters and the pending bits. *)

From stdpp Require Import countable gmap.
From S2P Require Import Prelude Workqueue.
Local Open Scope Z_scope.

(** ** The cases of a step *)

Lemma assert_Some b u : assert b = Some u -> b = true.
Proof. by destruct b. Qed.

(** What an enqueuing leaves. *)
Lemma wq_enqueue_inv t w k s s' :
  enqueue t w k s = Some s' ->
  w ∉ works (head (wq s)) /\ exists r,
  r = vmklnx_workqueue_dispatch k (set_queue (head (wq s) ++ [(w, next s)]) (qLen (wq s) + 1) (wq s)) /\
  s' = Sys r.1 (pending s) ({[w]} ∪ wq_data s) (armed s) (completed s) (posted s) (<[t := r.2]> (threads s))
    (next s + 1) (started s) (cancelled s).
Proof.
  unfold enqueue, __queue_work. intros H.
  apply bind_Some in H as (r & (? & H1 & (? & H2 & (? & H3 & H)%bind_Some)%bind_Some)%bind_Some & E).
  apply assert_Some, negb_true_iff, bool_decide_eq_false in H1. simplify_eq. eauto.
Qed.

Lemma dispatch_cases k q :
  (vmklnx_workqueue_dispatch k q = (set_posted (curPosted q + 1) q, Submit k) /\
    0 < Z.min (maxDispatch q - curDispatch q) (qLen q - curPosted q)) \/
  (vmklnx_workqueue_dispatch k q = (q, after k) /\
    Z.min (maxDispatch q - curDispatch q) (qLen q - curPosted q) <= 0).
Proof. unfold vmklnx_workqueue_dispatch. case_match; unbool; auto. Qed.

(** The queue after an entry has been taken from it. *)
Definition popped_queue (rest : list entry) (tr : nat) (e : entry) (tf : list nat) (q : workqueue_struct) :=
  set_track (curDispatch q + 1) ((tr, e) :: trackList q) (trackFlushList q) tf
    (set_queue rest (qLen q - 1) (set_posted (curPosted q - 1) q)).

Lemma callout_pop_inv pend q r :
  callout_pop pend q = Some r ->
  (r = (set_posted (curPosted q - 1) q, Returned Ended, curPosted q - 1 =? 0) /\
    (head q = [] \/ maxDispatch q <= curDispatch q)) \/
  exists e rest tr tf, head q = e :: rest /\ trackFree q = tr :: tf /\ curDispatch q < maxDispatch q /\
    r = (popped_queue rest tr e tf q, Popped tr e, false).
Proof.
  unfold callout_pop. cbn zeta. intros (? & _ & (? & _ & H)%bind_Some)%bind_Some.
  case_match eqn:Hh; [cbn in *; simplify_eq; auto|]. cbn in Hh.
  case_match; unbool; [cbn in *; simplify_eq; auto|]. cbn in H.
  apply bind_Some in H as (? & _ & (? & _ & (? & _ & H)%bind_Some)%bind_Some).
  case_match; [done|]. apply bind_Some in H as (? & _ & (? & _ & H)%bind_Some). simplify_eq.
  right. eauto 10.
Qed.

Lemma cancel_locked_inv w tm g ret pend q r :
  cancel_locked w tm g ret pend q = Some r ->
  (w ∈ works (head q) /\ pend = true /\ g = false /\
    r = (cancel_scan w tm true false 1 (set_queue (filter (fun e => e.1 <> w) (head q)) (qLen q - 1) q),
      (filter (fun e => e.1 = w) (head q)).*2)) \/
  (~ (w ∈ works (head q) /\ pend = true) /\ r = (cancel_scan w tm g false ret q, [])).
Proof.
  unfold cancel_locked. intros H. destruct (bool_decide_reflect (w ∈ works (head q))), pend; cbn in H.
  2-4: simplify_eq; right; naive_solver.
  apply bind_Some in H as (? & ?%assert_Some & (? & _ & H)%bind_Some). destruct g; simplify_eq. auto.
Qed.

Lemma cancel_scan_cases w tm g slept ret q :
  (cancel_scan w tm g slept ret q = (set_waiting (waiting q + 1) q, CancelSleep w tm g ret) /\ running w q = true) \/
  (cancel_scan w tm g slept ret q =
    (q, if g then CancelClear w ret else if slept then CancelGrab w tm else CancelPause w tm) /\ running w q = false).
Proof. unfold cancel_scan. destruct (running w q); auto. Qed.

Lemma plunger_complete_inv q r :
  vmklnx_plunger_complete q = Some r ->
  r = set_track (curDispatch q) [] (trackList q ++ trackFlushList q) (trackFree q) q.
Proof. unfold vmklnx_plunger_complete. cbn zeta. intros (? & _ & H)%bind_Some. by simplify_eq. Qed.

Lemma insert_wake (t : nat) p (ts : list pc) : wake p = p -> <[t := p]> (wake <$> ts) = wake <$> <[t := p]> ts.
Proof. intros H. by rewrite list_fmap_insert, H. Qed.

#[global] Arguments vmklnx_workqueue_dispatch : simpl never.
#[global] Arguments cancel_scan : simpl never.
#[global] Arguments works : simpl never.
#[global] Arguments occ : simpl never.

Ltac split_ops :=
  repeat match goal with
  | |- context [vmklnx_workqueue_dispatch ?k ?q] =>
      let Hd := fresh "Hd" in destruct (dispatch_cases k q) as [[-> Hd]|[-> Hd]]; cbn [fst snd] in *
  | |- context [cancel_scan ?w ?tm ?g ?sl ?ret ?q] =>
      let Hrun := fresh "Hrun" in
      destruct (cancel_scan_cases w tm g sl ret q) as [[-> Hrun]|[-> Hrun]]; cbn [fst snd] in *
  end.

Ltac step_inv H :=
  match type of H with step ?s ?l = _ => destruct l; cbn [step] in H end;
  [match goal with c : call |- _ => destruct c end; cbn [entry_point] in H
  |case_match eqn:Hposted; [done|]
  |case_match eqn:Htimer; [|done]
  |case_match eqn:Harmed; [|done]
  |apply bind_Some in H as (p & Hp & H); destruct p; try done
  |apply bind_Some in H as (p & Hp & H);
   destruct p; cbn in H; try done; repeat (case_match; try done)];
  try match type of H with
  | Some (_ ← _; _) = _ =>
    apply (inj Some) in H; repeat (apply bind_Some in H as (? & ?%assert_Some & H))
  end;
  simplify_eq/=;
  repeat match goal with
  | H : enqueue _ _ _ _ = _ |- _ => apply wq_enqueue_inv in H as (Hfresh & ? & -> & ->)
  | H : (_ ≫= _) = Some _ |- _ =>
      let r := fresh "r" in let Hr := fresh "Hr" in apply bind_Some in H as (r & Hr & H)
  | H : callout_pop _ _ = Some _ |- _ =>
      apply callout_pop_inv in H as [[-> Hidle]|(e & rest & tr & tf & Hhead & Hfree & Hroom & ->)]
  | H : cancel_locked _ _ _ _ _ _ = Some _ |- _ =>
      apply cancel_locked_inv in H as [(Hin & Hpend & -> & ->)|[Hnot ->]]
  | H : vmklnx_plunger_complete _ = Some _ |- _ => apply plunger_complete_inv in H as ->
  | H : ?x = Some ?y, H' : Some _ = Some _ |- _ => simplify_eq
  end; subst; unfold dispatch, callout_done, popped; cbn zeta; split_ops; cbn [fst snd];
  try match goal with |- context [if ?b then vmk_WorldWakeup _ else _] => destruct b eqn:Hzero end;
  try match goal with |- context [if ?g then CancelClear _ _ else _] => destruct g end;
  repeat match goal with
  | u : unit |- _ => clear u
  | H : bool_decide _ = true |- _ => apply bool_decide_eq_true in H
  | H : bool_decide _ = false |- _ => apply bool_decide_eq_false in H
  | H : negb (bool_decide _) = true |- _ => apply negb_true_iff, bool_decide_eq_false in H
  end.

(** ** Statements on every thread, and on one thread *)

Definition each (P : nat -> pc -> Prop) (ts : list pc) : Prop := forall t p, ts !! t = Some p -> P t p.
Definition at_thread (Q : pc -> Prop) (ts : list pc) (u : nat) : Prop := exists p, ts !! u = Some p /\ Q p.

Lemma each_insert_ne (P : nat -> pc -> Prop) ts t p :
  (forall u q, u <> t -> ts !! u = Some q -> P u q) -> P t p -> each P (<[t := p]> ts).
Proof.
  intros HE HP u p' Hu. destruct (decide (u = t)) as [->|].
  - apply list_lookup_insert_Some in Hu as [(_ & -> & _)|[? _]]; done.
  - rewrite list_lookup_insert_ne in Hu by done. by apply HE.
Qed.
Lemma each_insert P ts t p : each P ts -> P t p -> each P (<[t := p]> ts).
Proof. intros HE. apply each_insert_ne. auto. Qed.
Lemma each_app P ts p : each P ts -> P (length ts) p -> each P (ts ++ [p]).
Proof.
  intros HE HP u p' [Hu|[? Hu]]%lookup_app_Some; [by apply HE|].
  apply list_lookup_singleton_Some in Hu as [Hl <-]. by replace u with (length ts) by lia.
Qed.
Lemma each_wake_to (P Q : nat -> pc -> Prop) ts : (forall t p, P t p -> Q t (wake p)) -> each P ts -> each Q (wake <$> ts).
Proof. intros HP HE u p' Hu. rewrite list_lookup_fmap in Hu. apply fmap_Some in Hu as (p & Hp & ->). auto. Qed.

Lemma each_wake (P : nat -> pc -> Prop) ts : (forall t p, P t p -> P t (wake p)) -> each P ts -> each P (wake <$> ts).
Proof. apply each_wake_to. Qed.
Lemma each_mono (P Q : nat -> pc -> Prop) ts : each P ts -> (forall t p, P t p -> Q t p) -> each Q ts.
Proof. intros HP HPQ t p ?%HP. auto. Qed.

Lemma at_insert (Q : pc -> Prop) ts t p p' u :
  ts !! t = Some p -> (Q p -> Q p') -> at_thread Q ts u -> at_thread Q (<[t := p']> ts) u.
Proof.
  intros Ht HQ (q & Hq & Qq). destruct (decide (t = u)) as [->|].
  - simplify_eq. exists p'. split; [apply list_lookup_insert_eq; by eapply lookup_lt_Some|auto].
  - exists q. by rewrite list_lookup_insert_ne.
Qed.
Lemma at_insert_eq (Q : pc -> Prop) ts t p p' : ts !! t = Some p -> Q p' -> at_thread Q (<[t := p']> ts) t.
Proof. intros Ht HQ. exists p'. split; [apply list_lookup_insert_eq; by eapply lookup_lt_Some|done]. Qed.
Lemma at_app Q ts p u : at_thread Q ts u -> at_thread Q (ts ++ [p]) u.
Proof. intros (q & Hq & ?). exists q. split; [by apply lookup_app_l_Some|done]. Qed.
Lemma at_wake (Q : pc -> Prop) ts u : (forall p, Q p -> Q (wake p)) -> at_thread Q ts u -> at_thread Q (wake <$> ts) u.
Proof. intros HQ (q & Hq & ?). exists (wake q). split; [by rewrite list_lookup_fmap, Hq|auto]. Qed.

(** ** Local facts *)

Definition user (w : work) : Prop := match w with User _ => True | Plunger _ => False end.

Definition local (t : nat) (p : pc) : Prop :=
  match p with
  | QueueTest w | QueueBit w | QueueLock w | DelayBit w | DelayData w | DelayAdd w | Handler w
  | CancelGrab w _ | CancelTimer w | CancelData w _ _ _ | CancelLock w _ _ _ | CancelSleep w _ _ _
  | CancelWoken w _ _ _ | CancelPause w _ | CancelClear w _ => user w
  | FlushLock u _ _ => u = t
  | Complete _ e u => e.1 = Plunger u
  | _ => True
  end.

(** A thread that may still come to [FlushMutex] has no plunger. *)
Definition begun (p : pc) : Prop := match p with FlushMutex _ _ | DestroyBit => False | _ => True end.

Definition locals (s : sys) : Prop :=
  each local (threads s) /\
  (forall w, w ∈ armed s -> user w) /\
  (forall u, Plunger u ∈ pending s -> at_thread begun (threads s) u).

Lemma local_after t k : local t (after k).
Proof. by destruct k. Qed.
Lemma local_wake t p : local t p -> local t (wake p).
Proof. by destruct p. Qed.
Lemma begun_wake p : begun p -> begun (wake p).
Proof. by destruct p. Qed.

(** Statements on the threads of the next state. *)
Ltac on_threads :=
  cbn; rewrite ?insert_wake by done;
  repeat first
  [ apply each_wake | apply each_insert | apply each_app
  | apply at_wake | eapply at_insert; [eassumption|cbn; auto|] | apply at_app ].

Lemma begun_after k : begun (after k).
Proof. by destruct k. Qed.
#[local] Hint Resolve local_after local_wake begun_wake begun_after : core.

Lemma locals_step s l s' : locals s -> step s l = Some (Some s') -> locals s'.
Proof.
  intros (L & LA & LP) H.
  assert (forall t p, threads s !! t = Some p -> local t p) as LT by exact L.
  step_inv H.
  all: try (specialize (LT _ _ Hp); cbn in LT).
  all: unfold locals; cbn; split_and!.
  all: on_threads; auto; try done.
  all: try (intros ? ?%LP; on_threads; auto; done).

  all: try set_solver.
  all: intros u; rewrite ?elem_of_difference, ?elem_of_union, ?elem_of_singleton.
  all: try (intros [?%LP ?]; on_threads; auto; done).
  all: intros [E|?%LP]; [subst; try done|on_threads; auto; done].
  injection E as <-. by eapply at_insert_eq.
Qed.

(** ** The pending bit

    The bit of a work is set when it is in the queue, its timer is armed or a
    thread holds it, and only one of these is the case. *)

Definition holder (p : pc) : option work :=
  match p with
  | QueueLock w | DelayData w | DelayAdd w | Handler w | CancelData w _ true _ | CancelLock w _ true _
  | CancelSleep w _ true _ | CancelWoken w _ true _ | CancelClear w _ => Some w
  | Popped _ e => Some e.1
  | FlushLock u _ _ => Some (Plunger u)
  | _ => None
  end.

Definition one (w v : work) : Z := if decide (w = v) then 1 else 0.
Definition holds (v : work) (p : pc) : Z := match holder p with Some w => one w v | None => 0 end.
Definition among (v : work) (X : gset work) : Z := if decide (v ∈ X) then 1 else 0.

Definition bits (s : sys) : Prop :=
  forall v, occ v (works (head (wq s))) + total (holds v) (threads s) + among v (armed s) = among v (pending s).

Lemma one_range w v : 0 <= one w v <= 1.
Proof. unfold one. case_decide; lia. Qed.
Lemma one_eq w : one w w = 1.
Proof. unfold one. by rewrite decide_True. Qed.
Lemma among_union v w X : w ∉ X -> among v ({[w]} ∪ X) = one w v + among v X.
Proof. unfold among, one. intros. repeat case_decide; set_solver by lia. Qed.
Lemma among_difference v w X : w ∈ X -> among v (X ∖ {[w]}) = among v X - one w v.
Proof. unfold among, one. intros. repeat case_decide; set_solver by lia. Qed.
Lemma holds_nonneg v p : 0 <= holds v p.
Proof. unfold holds. case_match; [apply one_range|lia]. Qed.
Lemma holds_wake v p : holds v (wake p) = holds v p.
Proof. by destruct p. Qed.
Lemma holds_after v k : holds v (after k) = 0.
Proof. by destruct k. Qed.
Lemma among_range v X : 0 <= among v X <= 1.
Proof. unfold among. case_decide; lia. Qed.

Lemma works_snoc l w n : works (l ++ [(w, n)]) = works l ++ [w].
Proof. unfold works. by rewrite fmap_app. Qed.
Lemma occ_snoc (v w : work) l : occ v (l ++ [w]) = occ v l + one w v.
Proof. rewrite occ_app, occ_cons, occ_nil. unfold one. case_decide; lia. Qed.
Lemma works_cons e l : works (e :: l) = e.1 :: works l.
Proof. done. Qed.
Lemma occ_cons_one (v w : work) l : occ v (w :: l) = one w v + occ v l.
Proof. by rewrite occ_cons. Qed.

(** Taking a work out of the queue. *)
Lemma occ_removed w v l : occ v (works (filter (fun e : entry => e.1 <> w) l)) = occ v (works l) - occ w (works l) * one w v.
Proof.
  induction l as [|e l IH]; [done|]. rewrite filter_cons. rewrite works_cons, !occ_cons_one. unfold one in *.
  destruct (decide (e.1 <> w)) as [Hn|He%dec_stable]; [rewrite works_cons, occ_cons_one, IH|rewrite IH]; unfold one;
    repeat case_decide; subst; try done; lia.
Qed.
Lemma length_removed w l :
  Z.of_nat (length (filter (fun e : entry => e.1 <> w) l)) = Z.of_nat (length l) - occ w (works l).
Proof.
  induction l as [|e l IH]; [done|]. rewrite filter_cons, works_cons, occ_cons_one. unfold one.
  destruct (decide (e.1 <> w)) as [Hn|He%dec_stable]; case_decide; cbn [length]; try done; lia.
Qed.

(** Who holds the bit of [w] excludes all others. *)
Lemma bits_held s t p w :
  bits s -> threads s !! t = Some p -> holder p = Some w ->
  w ∈ pending s /\ w ∉ works (head (wq s)) /\ w ∉ armed s /\ total (holds w) (threads s) = 1.
Proof.
  intros B Hp Hw. specialize (B w). pose proof (total_at (holds w) _ _ _ (holds_nonneg w) Hp) as Ht.
  unfold holds in Ht at 1. rewrite Hw, one_eq in Ht. pose proof (occ_nonneg w (works (head (wq s)))).
  pose proof (among_range w (armed s)). pose proof (among_range w (pending s)). rewrite occ_notin.
  unfold among in *. repeat case_decide; split_and!; auto; lia.
Qed.

Lemma bits_queued s w :
  bits s -> w ∈ works (head (wq s)) ->
  w ∈ pending s /\ occ w (works (head (wq s))) = 1 /\ w ∉ armed s /\ total (holds w) (threads s) = 0.
Proof.
  intros B Hw%occ_in. specialize (B w). pose proof (total_nonneg _ (threads s) (holds_nonneg w)).
  pose proof (among_range w (armed s)). pose proof (among_range w (pending s)).
  unfold among in *. repeat case_decide; split_and!; auto; lia.
Qed.

(** What is inserted, appended or woken among the threads is added up. *)
Ltac sums :=
  intros; cbn;
  rewrite ?insert_wake by done;
  repeat first
  [ erewrite !total_insert by eassumption
  | rewrite !total_app
  | rewrite !(total_wake _ _ (holds_wake _)) ];
  cbn; rewrite ?holds_after.

Lemma bits_step s l s' : locals s -> bits s -> step s l = Some (Some s') -> bits s'.
Proof.
  intros (L & _ & LP) B H.
  assert (forall t p, threads s !! t = Some p -> local t p) as LT by exact L.
  step_inv H.
  all: try (specialize (LT _ _ Hp); cbn in LT).
  all: try match type of Hp with _ = Some (_ _ _ ?g _) => is_var g; destruct g end.
  all: try (destruct (bits_held _ _ _ _ B Hp eq_refl) as (Hpw & _ & Haw & _)).
  all: intros v; pose proof (B v) as Bv; sums.
  all: rewrite ?works_snoc, ?occ_snoc, ?occ_removed, ?among_union, ?among_difference by done; try lia.
  - rewrite Hhead, works_cons, occ_cons_one in Bv. lia.
  - rewrite among_union; [lia|]. intros (p & Hu & Hb)%LP. by simplify_eq.
  - subst u. lia.
  - subst u. lia.
  - apply (bits_queued _ _ B) in Hin as (_ & -> & _). lia.
  - apply (bits_queued _ _ B) in Hin as (_ & -> & _). lia.
Qed.

(** ** The counters

    [n] requests are posted or about to be, and [f x] threads work on [x]. *)

Definition posting (p : pc) : Z := match p with Submit _ | SubmitFailed _ | Callout => 1 | _ => 0 end.

Definition works_on (x : nat * entry) (p : pc) : Z :=
  match p with
  | Popped tr e | Calling tr e | Complete tr e _ | Done tr e => if decide ((tr, e) = x) then 1 else 0
  | _ => 0
  end.

Definition counted (q : workqueue_struct) (n : Z) (f : nat * entry -> Z) : Prop :=
  qLen q = Z.of_nat (length (head q)) /\
  1 <= maxDispatch q /\
  curDispatch q = Z.of_nat (length (executing q)) /\
  Z.of_nat (length (trackFree q)) + curDispatch q = maxDispatch q /\
  NoDup ((executing q).*1 ++ trackFree q) /\
  curPosted q = n /\
  forall x, occ x (executing q) = f x.

Definition counters (s : sys) : Prop :=
  counted (wq s) (Z.of_nat (posted s) + total posting (threads s)) (fun x => total (works_on x) (threads s)).

Lemma counted_ext q n f n' f' : counted q n f -> n' = n -> (forall x, f' x = f x) -> counted q n' f'.
Proof. intros (? & ? & ? & ? & ? & ? & ?) -> Hf. split_and!; auto. intros x. by rewrite Hf. Qed.

Lemma posting_after k : posting (after k) = 0.
Proof. by destruct k. Qed.
Lemma works_on_after x k : works_on x (after k) = 0.
Proof. by destruct k. Qed.
Lemma posting_wake p : posting (wake p) = posting p.
Proof. by destruct p. Qed.
Lemma works_on_wake x p : works_on x (wake p) = works_on x p.
Proof. by destruct p. Qed.


Lemma untrack_app tr l l' : untrack tr (l ++ l') = untrack tr l ++ untrack tr l'.
Proof. apply filter_app. Qed.

Lemma untrack_id tr l : tr ∉ l.*1 -> untrack tr l = l.
Proof.
  induction l as [|x l IH]; [done|]. rewrite fmap_cons. intros [? ?]%not_elem_of_cons.
  unfold untrack in *. rewrite filter_cons_True by auto. by rewrite IH.
Qed.

(** The tracker of [x] goes back to the free list. *)
Lemma untrack_perm tr e l : NoDup l.*1 -> (tr, e) ∈ l -> l ≡ₚ (tr, e) :: untrack tr l.
Proof.
  induction l as [|[tr' e'] l IH]; [by intros _ ?%elem_of_nil|]. rewrite fmap_cons, NoDup_cons. cbn [fst].
  intros [Hn Hd] Hin. apply elem_of_cons in Hin as [?|Hin].
  - simplify_eq. unfold untrack. rewrite filter_cons_False by (cbn; auto). fold (untrack tr' l). by rewrite untrack_id.
  - assert (tr' <> tr) by (intros ->; apply Hn; by apply (list_elem_of_fmap_2 fst) in Hin).
    unfold untrack in *. rewrite filter_cons_True by done. rewrite (IH Hd Hin) at 1. apply Permutation_swap.
Qed.

Lemma occ_perm {X} `{EqDecision X} (x : X) l l' : l ≡ₚ l' -> occ x l = occ x l'.
Proof. unfold occ. by intros ->. Qed.

(** What is inserted, appended or woken among the threads is added up. *)
Ltac counts :=
  intros; cbn;
  rewrite ?insert_wake by done;
  repeat first
  [ erewrite !total_insert by eassumption
  | rewrite !total_app
  | rewrite !(total_wake _ _ posting_wake)
  | rewrite !(total_wake _ _ (works_on_wake _)) ];
  cbn; rewrite ?posting_after, ?works_on_after; try lia.

Lemma works_on_nonneg x p : 0 <= works_on x p.
Proof. destruct p; cbn; repeat case_decide; lia. Qed.

Lemma counted_at q n ts t p x :
  counted q n (fun x => total (works_on x) ts) -> ts !! t = Some p -> works_on x p = 1 -> x ∈ executing q.
Proof.
  intros (_ & _ & _ & _ & _ & _ & Ho) Hp Hw. apply occ_in. rewrite Ho, <- Hw.
  apply total_at with t; auto using works_on_nonneg.
Qed.

(** The end of [vmklnx_workqueue_callout]. *)
Lemma done_counted q n ts t tr e f p :
  counted q n (fun x => total (works_on x) ts) -> ts !! t = Some (Done tr e) -> (forall x, works_on x p = 0) ->
  f = (fun x => total (works_on x) (wake <$> <[t := p]> ts)) ->
  counted (set_track (curDispatch q - 1) (untrack tr (trackList q)) (untrack tr (trackFlushList q)) (tr :: trackFree q) q) n f.
Proof.
  intros C Hp Hz ->. assert ((tr, e) ∈ executing q) as Hx.
  { eapply counted_at; eauto. cbn. by rewrite decide_True. }
  destruct C as (Hq & Hmax & Hdis & Hfr & Hnd & Hpo & Hocc).
  assert (NoDup (executing q).*1) as Hnd1 by (by apply NoDup_app in Hnd as [? _]).
  pose proof (untrack_perm _ _ _ Hnd1 Hx) as HP. pose proof (Permutation_length HP) as HL. cbn in HL.
  unfold counted, executing in *; cbn. rewrite <- untrack_app. split_and!; auto; try lia.
  - eapply NoDup_Permutation_proper; [|exact Hnd]. rewrite HP at 2. cbn. by rewrite <- Permutation_middle.
  - intros x. rewrite total_wake by auto using works_on_wake. rewrite (total_insert _ _ _ _ _ Hp).
    pose proof (Hocc x) as Ho. rewrite (occ_perm x _ _ HP), occ_cons in Ho. cbn. rewrite Hz. lia.
Qed.

Lemma counters_step s l s' : bits s -> counters s -> step s l = Some (Some s') -> counters s'.
Proof.
  intros B C H. step_inv H.
  all: try solve [refine (counted_ext _ _ _ _ _ C _ _); counts].
  11: pose proof (done_counted _ _ _ _ _ _ _ (Submit EndHelper) C Hp (fun _ => eq_refl) eq_refl) as D.
  12: pose proof (done_counted _ _ _ _ _ _ _ (Returned Ended) C Hp (fun _ => eq_refl) eq_refl) as D.
  11: destruct D as (? & ? & ? & ? & ? & Hpo & ?); unfold counters, counted; cbn in Hpo |- *; rewrite insert_wake by done;
    split_and!; auto; counts.
  11: refine (counted_ext _ _ _ _ _ D _ _); counts.
  all: destruct C as (Hq & Hmax & Hdis & Hfr & Hnd & Hpo & Hocc); unfold counters, counted, executing in *; cbn in *.
  all: split_and!; auto; rewrite ?length_app in *; cbn [length]; try solve [counts].
  all: try solve [intros x; pose proof (Hocc x); counts].
  all: try solve [rewrite length_removed; apply (bits_queued _ _ B) in Hin as (_ & -> & _); lia].
  1-2: rewrite ?Hhead, ?Hfree in *; cbn [length] in *; lia.
  - rewrite Hfree in Hnd. eapply NoDup_Permutation_proper; [|exact Hnd]. apply Permutation_middle.
  - intros x. pose proof (Hocc x). rewrite occ_cons. counts.
Qed.
