(* ===== verification/WqFlush.v ===== *)
(** Work queues: the order of the entries, flushing and cancelling. *)

From stdpp Require Import countable gmap sorting.
From S2P Require Import Prelude Workqueue WqInv.
Local Open Scope Z_scope.

(** ** The order of the entries

    Every number below [next] has been started or cancelled or is in the queue,
    once; the entries start in order. *)

Definition tickets (q : workqueue_struct) (n : Z) (st ca : list Z) : Prop :=
  0 <= n /\
  st ++ ca ++ (head q).*2 ≡ₚ seqZ 0 n /\
  StronglySorted Z.lt (st ++ (head q).*2) /\
  forall x, x ∈ executing q -> x.2.2 ∈ st.

Definition numbered (s : sys) : Prop := tickets (wq s) (next s) (started s) (cancelled s).

Lemma seqZ_snoc n : 0 <= n -> seqZ 0 (n + 1) = seqZ 0 n ++ [n].
Proof. intros Hn. replace (n + 1) with (Z.of_nat (S (Z.to_nat n))) by lia. rewrite seqZ_S. f_equal; [f_equal|f_equal]; lia. Qed.

(** Numbers in use are below [next]. *)
Lemma tickets_bound q n st ca m :
  tickets q n st ca -> m ∈ st \/ m ∈ (head q).*2 -> 0 <= m < n.
Proof.
  intros (_ & HP & _) Hm. assert (m ∈ seqZ 0 n) as Hs%elem_of_seqZ; [|lia].
  rewrite <- HP. set_solver.
Qed.

Lemma tickets_enqueue q n st ca q' w :
  tickets q n st ca -> head q' = head q ++ [(w, n)] -> executing q' = executing q -> tickets q' (n + 1) st ca.
Proof.
  intros T Hh He. pose proof (fun m => tickets_bound _ _ _ _ m T) as Hb. destruct T as (Hn & HP & HS & HE).
  unfold tickets. rewrite Hh, He, fmap_app. cbn. split_and!; auto; [lia| |].
  - rewrite seqZ_snoc by done. rewrite <- HP. by rewrite !app_assoc.
  - rewrite app_assoc. apply StronglySorted_app_2; auto; [|apply StronglySorted_cons; split; constructor].
    intros m1 m2 Hm ->%list_elem_of_singleton. apply elem_of_app in Hm. specialize (Hb m1 Hm). lia.
Qed.

Lemma tickets_pop q n st ca q' e rest :
  tickets q n st ca -> head q = e :: rest -> head q' = rest ->
  (forall x, x ∈ executing q' -> x.2 = e \/ x ∈ executing q) -> tickets q' n (st ++ [e.2]) ca.
Proof.
  intros (Hn & HP & HS & HE) Hh Hh' He. unfold tickets. rewrite Hh in *. rewrite Hh'. cbn in *. split_and!; auto.
  - rewrite <- HP. rewrite <- !app_assoc. f_equiv. cbn. by rewrite <- Permutation_middle.
  - by rewrite <- app_assoc.
  - intros x [Ex|?%HE]%He; [subst e|]; set_solver.
Qed.

Lemma tickets_cancel q n st ca q' w :
  tickets q n st ca -> head q' = filter (fun e => e.1 <> w) (head q) -> executing q' = executing q ->
  tickets q' n st (ca ++ (filter (fun e => e.1 = w) (head q)).*2).
Proof.
  intros (Hn & HP & HS & HE) Hh He. unfold tickets. rewrite Hh, He. split_and!; auto.
  - rewrite <- HP, <- !app_assoc, <- fmap_app. do 2 f_equiv. apply fmap_Permutation, filter_app_complement.
  - apply StronglySorted_app in HS as (H12 & H1 & H2). apply StronglySorted_app; split_and!; auto.
    + intros m1 m2 Hm1 Hm2. apply H12; [done|]. apply list_elem_of_fmap in Hm2 as (e & -> & [_ ?]%list_elem_of_filter).
      by apply list_elem_of_fmap_2.
    + clear -H2. induction (head q) as [|e l IH]; [done|]. apply StronglySorted_cons in H2 as [Hf H2].
      rewrite filter_cons. case_decide; [|auto]. apply StronglySorted_cons. split; [|auto].
      apply Forall_forall. intros m (e' & -> & [_ ?]%list_elem_of_filter)%list_elem_of_fmap.
      rewrite Forall_forall in Hf. apply Hf. by apply list_elem_of_fmap_2.
Qed.

(** All other steps. *)
Lemma tickets_same q n st ca q' :
  tickets q n st ca -> head q' = head q -> (forall x, x ∈ executing q' -> x ∈ executing q) -> tickets q' n st ca.
Proof. intros (Hn & HP & HS & HE) Hh He. unfold tickets. rewrite Hh. split_and!; auto. Qed.

Lemma untrack_subset tr l x : x ∈ untrack tr l -> x ∈ l.
Proof. unfold untrack. by intros [_ ?]%list_elem_of_filter. Qed.

Lemma executing_done tr q x :
  x ∈ untrack tr (trackList q) ++ untrack tr (trackFlushList q) -> x ∈ executing q.
Proof. unfold executing. rewrite !elem_of_app. intros [?%untrack_subset|?%untrack_subset]; auto. Qed.

Lemma numbered_step s l s' : numbered s -> step s l = Some (Some s') -> numbered s'.
Proof.
  intros T H. unfold numbered in *. step_inv H.
  all: try exact T.
  all: try (eapply tickets_enqueue; [exact T|reflexivity..]).
  all: try (eapply tickets_cancel; [exact T|reflexivity..]).
  all: cbn; rewrite ?app_nil_r; try exact T.
  2-3: eapply tickets_same; [exact T|reflexivity|]; intros x; exact (executing_done tr (wq s) x).
  eapply tickets_pop; [exact T|exact Hhead|done|]. intros x. unfold executing. cbn.
  intros [->|?]%elem_of_cons; auto.
Qed.

(** ** Flushing

    A thread in [flush_workqueue] that waits for its plunger, with the number
    of entries when it began and the plunger's. *)

Definition waits_k (k : cont) : option (Z * Z) := match k with Wait st n _ => Some (st, n) | _ => None end.

Definition waits (p : pc) : option (Z * Z) :=
  match p with
  | Submit k | SubmitFailed k | ArmTimer k | Redispatch k => waits_k k
  | FlushComp st n _ | FlushCheck st n _ | FlushSleep st n _ | FlushWoken st n _ => Some (st, n)
  | _ => None
  end.

(** Between the two operations on [flushMutex]. *)
Definition locked (p : pc) : Prop :=
  match p with FlushLock _ _ _ | FlushUnlock _ _ => True | _ => is_Some (waits p) end.

Definition live (q : workqueue_struct) (e : entry) : Prop := e ∈ head q \/ exists tr, (tr, e) ∈ executing q.

(** Everything up to [n] has left the queue and [trackList]. *)
Definition spliced (n : Z) (q : workqueue_struct) : Prop :=
  (forall m, m ∈ (head q).*2 -> n < m) /\ (forall x, x ∈ trackList q -> n < x.2.2).

(** Everything before [b] is through. *)
Definition drained (b : Z) (q : workqueue_struct) : Prop := forall e, live q e -> b <= e.2.

Definition flush_at (q : workqueue_struct) (nx : Z) (comp : gset nat) (t : nat) (p : pc) : Prop :=
  match p with
  | FlushMutex st _ => st <= nx
  | FlushLock _ st _ => st <= nx /\ t ∉ comp
  | FlushCheck _ _ _ | FlushSleep _ _ _ | FlushWoken _ _ _ => t ∈ comp
  | FlushUnlock st _ | Returned (Flushed st) => st <= nx /\ drained st q
  | Complete _ e _ => e.2 < nx /\ spliced e.2 q
  | _ => True
  end /\
  forall st n, waits p = Some (st, n) -> st <= n < nx /\ (t ∈ comp -> spliced n q).

(** The mutex has one holder; the plungers have their threads. *)
Definition mutexes (s : sys) : Prop := each (fun t p => locked p -> flushMutex (wq s) = Some t) (threads s).
Definition waits_for (n : Z) (p : pc) : Prop := exists st, waits p = Some (st, n).
Definition plungers (s : sys) : Prop :=
  forall u n, live (wq s) (Plunger u, n) -> at_thread (waits_for n) (threads s) u.
Definition flushes (s : sys) : Prop := each (flush_at (wq s) (next s) (completed s)) (threads s).

(** The queue only loses entries, moves them on or gets new ones. *)
Definition onward (q : workqueue_struct) (nx : Z) (q' : workqueue_struct) (nx' : Z) : Prop :=
  nx <= nx' /\
  (forall e, e ∈ head q' -> e ∈ head q \/ nx <= e.2) /\
  (forall x, x ∈ trackList q' -> x ∈ trackList q \/ x.2 ∈ head q) /\
  (forall x, x ∈ executing q' -> x ∈ executing q \/ x.2 ∈ head q).

Lemma spliced_onward n q nx q' nx' : onward q nx q' nx' -> n < nx -> spliced n q -> spliced n q'.
Proof.
  intros (Hnx & Hh & Ht & He) Hn [S1 S2]. split.
  - intros m (e & -> & [Hin|?]%Hh)%list_elem_of_fmap; [apply S1; by apply list_elem_of_fmap_2|lia].
  - intros x [?|Hin]%Ht; [auto|apply S1; by apply list_elem_of_fmap_2].
Qed.

Lemma drained_onward b q nx q' nx' : onward q nx q' nx' -> b <= nx -> drained b q -> drained b q'.
Proof.
  intros (Hnx & Hh & Ht & He) Hb D e [[Hin|?]%Hh|[tr [Hin|Hin]%He]]; try lia; apply D; unfold live; eauto.
Qed.

Lemma flush_at_onward q nx comp q' nx' t p :
  onward q nx q' nx' -> flush_at q nx comp t p -> flush_at q' nx' comp t p.
Proof.
  intros Ho [F1 F2]. assert (nx <= nx') by apply Ho. split.
  - assert (forall b, b <= nx /\ drained b q -> b <= nx' /\ drained b q') as HD.
    { intros b [? ?]. split; [lia|]. eapply drained_onward; eauto. }
    assert (forall b, b < nx /\ spliced b q -> b < nx' /\ spliced b q') as HS.
    { intros b [? ?]. split; [lia|]. eapply spliced_onward; eauto. }
    destruct p; try match goal with r : result |- _ => destruct r end; cbn in *; auto; lia || naive_solver lia.
  - intros st n [Hst Hs]%F2. split; [lia|]. intros Hc. eapply (spliced_onward n q nx); eauto. lia.
Qed.

Lemma onward_same q nx : onward q nx q nx.
Proof. unfold onward. split_and!; auto. lia. Qed.

Lemma onward_enqueue q nx q' e :
  head q' = head q ++ [e] -> nx = e.2 -> trackList q' = trackList q -> trackFlushList q' = trackFlushList q ->
  onward q nx q' (nx + 1).
Proof.
  intros Hh -> Ht Hf. unfold onward, executing. rewrite Hh, Ht, Hf. split_and!; auto; [lia|].
  intros e' [?| ->%list_elem_of_singleton]%elem_of_app; auto. right. lia.
Qed.

Lemma onward_pop q nx e rest tr tf : head q = e :: rest -> onward q nx (popped_queue rest tr e tf q) nx.
Proof.
  intros Hh. unfold onward, executing. rewrite Hh. split_and!; cbn; try lia.
  - intros e' ?. left. by apply list_elem_of_further.
  - intros x [->|?]%elem_of_cons; [right; apply list_elem_of_here|auto].
  - intros x [->|?]%elem_of_cons; [right; apply list_elem_of_here|auto].
Qed.

Lemma onward_done q nx q' tr :
  head q' = head q -> trackList q' = untrack tr (trackList q) -> trackFlushList q' = untrack tr (trackFlushList q) ->
  onward q nx q' nx.
Proof.
  intros Hh Ht Hf. unfold onward. rewrite Hh, Ht. unfold executing at 1. rewrite Ht, Hf. split_and!; auto; [lia| |].
  - intros x ?%untrack_subset. auto.
  - intros x ?%executing_done. auto.
Qed.

Lemma onward_splice q nx :
  onward q nx (set_track (curDispatch q) [] (trackList q ++ trackFlushList q) (trackFree q) q) nx.
Proof. unfold onward. split_and!; auto; [lia|]. cbn. by intros x ?%elem_of_nil. Qed.

Lemma onward_cancel q nx q' w :
  head q' = filter (fun e => e.1 <> w) (head q) -> trackList q' = trackList q -> executing q' = executing q ->
  onward q nx q' nx.
Proof.
  intros Hh Ht He. unfold onward. rewrite Hh, Ht, He. split_and!; auto; [lia|].
  intros e [_ ?]%list_elem_of_filter. auto.
Qed.

Lemma waits_after k : waits (after k) = waits_k k.
Proof. by destruct k. Qed.
Lemma waits_wake p : waits (wake p) = waits p.
Proof. by destruct p. Qed.
Lemma locked_wake p : locked (wake p) <-> locked p.
Proof. by destruct p. Qed.
Lemma flush_at_wake q nx comp t p : flush_at q nx comp t p -> flush_at q nx comp t (wake p).
Proof. by destruct p. Qed.

Lemma locked_after k : locked (after k) -> is_Some (waits_k k).
Proof. by destruct k. Qed.

Lemma mutexes_step s l s' : mutexes s -> step s l = Some (Some s') -> mutexes s'.
Proof.
  intros M H. unfold mutexes in *.
  pose proof (fun t p (Hp : threads s !! t = Some p) => M t p Hp) as MT.
  step_inv H.
  all: try (specialize (MT _ _ Hp); cbn in MT); cbn; rewrite ?insert_wake by done.
  all: try match goal with |- each _ (wake <$> _) => apply each_wake; [intros ? ? HP Hl; apply HP; by apply locked_wake|] end.
  all: try (first [apply each_insert|apply each_app]; [exact M|cbn; try done; auto using locked_after; try by intros []]).
  all: apply each_insert_ne; [|try done; by intros []].
  - intros u q _ Hu Hl. specialize (M _ _ Hu Hl). congruence.
  - intros u q Hut Hu Hl. specialize (M _ _ Hu Hl). specialize (MT I). congruence.
  - intros u q Hut Hu Hl. specialize (M _ _ Hu Hl). specialize (MT I). congruence.
Qed.

Lemma live_onward q q' e : (forall nx, onward q nx q' nx) -> live q' e -> live q e.
Proof.
  intros Ho. destruct (Ho (e.2 + 1)) as (_ & Hh & _ & He).
  intros [[?|?]%Hh|[tr [?|?]%He]]; unfold live; eauto. lia.
Qed.

Lemma live_enqueue q q' e e' :
  live q' e -> head q' = head q ++ [e'] -> executing q' = executing q -> live q e \/ e = e'.
Proof. unfold live. intros Hl Hh He. revert Hl. rewrite Hh, He. rewrite elem_of_app, list_elem_of_singleton. naive_solver. Qed.

(** When everything up to the plunger has left [trackList] and nothing is on
    [trackFlushList], the plunger is gone too. *)
Lemma spliced_gone n q e : spliced n q -> trackFlushList q = [] -> live q e -> n < e.2.
Proof.
  intros [S1 S2] Hf [Hin|[tr Hin]]; [apply S1; by apply list_elem_of_fmap_2|].
  unfold executing in Hin. rewrite Hf, app_nil_r in Hin. by apply (S2 (tr, e)).
Qed.

Lemma waits_for_wake n p : waits_for n p -> waits_for n (wake p).
Proof. unfold waits_for. by rewrite waits_wake. Qed.
Lemma waits_for_after n k : waits_for n (Submit k) -> waits_for n (after k).
Proof. unfold waits_for. by rewrite waits_after. Qed.

(** At its end a flush has no plunger left. *)
Lemma flush_gone s t p st n :
  flushes s -> plungers s -> threads s !! t = Some p -> waits p = Some (st, n) -> t ∈ completed s ->
  trackFlushList (wq s) = [] -> st <= next s /\ drained st (wq s) /\ forall m, ~ live (wq s) (Plunger t, m).
Proof.
  intros F PL Hp Hw Hc Hf. destruct (F _ _ Hp) as [_ F2]. destruct (F2 _ _ Hw) as [Hn Hs]. split_and!.
  - lia.
  - intros e He. pose proof (spliced_gone _ _ _ (Hs Hc) Hf He). lia.
  - intros m Hl. pose proof (spliced_gone _ _ _ (Hs Hc) Hf Hl). apply PL in Hl as (p' & Hp' & st' & Hw').
    simplify_eq. cbn in *. lia.
Qed.

(** A thread leaves the wait for its plunger only when that is gone. *)
Lemma plungers_step s l s' :
  locals s -> numbered s -> flushes s -> plungers s -> step s l = Some (Some s') -> plungers s'.
Proof.
  intros (L & _ & _) T F PL H. unfold plungers in *.
  pose proof (fun t p (Hp : threads s !! t = Some p) => L t p Hp) as LT.
  step_inv H.
  all: try (specialize (LT _ _ Hp); cbn in LT); cbn; rewrite ?insert_wake by done.
  all: try solve [intros u n0 Hu%PL; on_threads; rewrite ?waits_after; auto; try (by intros [? ?])].
  all: intros v n Hv.
  all: try (destruct (live_enqueue (wq s) _ _ _ Hv eq_refl eq_refl) as [Hv'|Hv']; clear Hv; rename Hv' into Hv).
  all: try (apply (live_onward (wq s)) in Hv; [|intros nx; first
    [by apply onward_pop|by eapply (onward_done _ _ _ tr)|by eapply onward_cancel|by apply onward_same]]).
  all: try solve [apply PL in Hv; on_threads; auto using waits_for_wake, waits_for_after; by intros [? ?]].
  all: try solve [simplify_eq; cbn in *; done].
  1-2: injection Hv as -> ->; eapply at_insert_eq; [done|]; by eexists.
  all: destruct (decide (v = t)) as [->|Hvt]; [exfalso|].
  1,3: eapply (flush_gone s t _ _ _ F PL Hp eq_refl); [by apply (F _ _ Hp)|done|exact Hv].
  all: apply PL in Hv; destruct Hv as (p & ? & ?); exists p; by rewrite list_lookup_insert_ne.
Qed.

Lemma started_before q n st ca x :
  tickets q n st ca -> x ∈ executing q -> x.2.2 < n /\ forall m, m ∈ (head q).*2 -> x.2.2 < m.
Proof.
  intros T Hx. assert (x.2.2 ∈ st) as Hs by (by apply T). split.
  - apply (tickets_bound _ _ _ _ _ T). auto.
  - destruct T as (_ & _ & HS & _). intros m. by apply (StronglySorted_app_1_elem_of _ _ _ _ _ HS).
Qed.

Lemma flush_at_comp q nx comp comp' t p : (t ∈ comp <-> t ∈ comp') -> flush_at q nx comp t p -> flush_at q nx comp' t p.
Proof.
  intros Hc [F1 F2]. split; [|intros st n Hw; destruct (F2 st n Hw); rewrite <- Hc; auto].
  destruct p; rewrite <- ?Hc; done.
Qed.

(** The completion of the plunger [n] of thread [u]. *)
Lemma flush_at_complete q nx comp u n t p :
  flush_at q nx comp t p -> spliced n q -> (t = u -> waits_for n p) -> flush_at q nx ({[u]} ∪ comp) t p.
Proof.
  intros F Hs Hw. destruct (decide (t = u)) as [->|Htu].
  2: { refine (flush_at_comp _ _ _ _ _ _ _ F). rewrite elem_of_union, elem_of_singleton. naive_solver. }
  destruct (Hw eq_refl) as [st Hst], F as [F1 F2]. split.
  - destruct p; try exact F1; cbn in *; try done; apply elem_of_union; auto.
  - intros st' n' Hn. destruct (F2 _ _ Hn). simplify_eq. auto.
Qed.

Lemma flushes_step s l s' :
  locals s -> numbered s -> mutexes s -> plungers s -> counters s -> flushes s -> step s l = Some (Some s') -> flushes s'.
Proof.
  intros (L & _ & _) T M PL C F H.
  pose proof (fun t p (Hp : threads s !! t = Some p) => L t p Hp) as LT.
  pose proof (fun t p (Hp : threads s !! t = Some p) => F t p Hp) as FT.
  assert (forall q' nx', onward (wq s) (next s) q' nx' -> each (flush_at q' nx' (completed s)) (threads s)) as FO.
  { intros q' nx' Ho. eapply each_mono; [exact F|]. intros t p. by apply flush_at_onward. }
  unfold flushes. step_inv H.
  all: try (specialize (FT _ _ Hp); specialize (LT _ _ Hp); cbn in FT, LT); cbn; rewrite ?insert_wake by done.
  all: try match goal with |- each _ (wake <$> _) => apply each_wake; [intros ? ?; apply flush_at_wake|] end.
  all: try (first [apply each_insert|apply each_app]; [solve [apply FO; first
    [by apply onward_pop|by eapply (onward_done _ _ _ tr)|by eapply onward_cancel|exact (onward_same (wq s) (next s))
    |by eapply onward_enqueue|by apply onward_splice]]|]).
  all: try solve [split; cbn; done].
  all: try solve [exact FT|destruct k; exact FT].
  - assert ((tr, e) ∈ executing (wq s)) as Hx%(started_before _ _ _ _ _ T).
    { eapply counted_at; [exact C|exact Hp|]. cbn. by rewrite decide_True. }
    destruct Hx as [? ?]. split; [|done]. split; [done|]. split; [done|]. cbn. by intros x ?%elem_of_nil.
  - destruct FT as [[He Hs] _]. assert (live (wq s) (Plunger t0, e.2)) as (p & Hp0 & Hw)%PL.
    { right. exists tr. rewrite <- LT, <- surjective_pairing. eapply counted_at; [exact C|exact Hp|]. cbn. by rewrite decide_True. }
    apply each_insert_ne; [|by split]. intros u q Hu Hq. eapply flush_at_complete; [by apply F|done|].
    intros ->. by simplify_eq.
  - apply each_insert_ne; [|split; [|done]; split; [exact (proj1 FT)|by rewrite elem_of_difference, elem_of_singleton; intros []]].
    intros u q Hu Hq. eapply (flush_at_comp (wq s)); [|by apply F].
    rewrite elem_of_difference, elem_of_singleton. naive_solver.
  - destruct FT as [[? ?] _]. split; [done|]. cbn. intros st n ?. simplify_eq. split; [lia|done].
  - destruct FT as [[? ?] _]. split; [done|]. cbn. intros st n ?. simplify_eq. split; [lia|done].
  - destruct FT as [_ FT]. split; [done|]. exact FT.
  - destruct FT as [? _]. destruct (flush_gone s t _ _ _ F PL Hp eq_refl) as (? & ? & _); [done..|]. by split.
  - destruct FT as [? _]. destruct (flush_gone s t _ _ _ F PL Hp eq_refl) as (? & ? & _); [done..|]. by split.
Qed.
