(* ===== verification/WqLive.v ===== *)
(** Work queues: cancelling, and that no work is forgotten. *)

From stdpp Require Import countable gmap sorting.
From S2P Require Import Prelude Workqueue WqInv WqFlush.
Local Open Scope Z_scope.

(** ** Cancelling

    [wq_data] knows where a work is; a canceller sleeps while its work runs and
    has it no longer running when it gives the pending bit back. *)

Definition cancel_at (q : workqueue_struct) (data : gset work) (t : nat) (p : pc) : Prop :=
  match p with
  | DelayAdd w | Handler w => w ∈ data
  | CancelSleep w _ _ _ => running w q = true
  | CancelClear w _ => running w q = false
  | _ => True
  end.

Definition placed (s : sys) : Prop :=
  (forall w, w ∈ works (head (wq s)) -> w ∈ wq_data s) /\
  (forall w, running w (wq s) = true -> w ∈ wq_data s) /\
  (forall w, w ∈ armed s -> w ∈ wq_data s).

Definition cancels (s : sys) : Prop := each (cancel_at (wq s) (wq_data s)) (threads s).

Lemma running_true w q : running w q = true <-> exists tr n, (tr, (w, n)) ∈ executing q.
Proof.
  unfold running, works. rewrite bool_decide_eq_true, list_elem_of_fmap. split.
  - intros ([w' n] & -> & Hx). apply list_elem_of_fmap in Hx as ([tr e] & -> & Hx). cbn. destruct e. eauto.
  - intros (tr & n & Hx). exists (w, n). split; [done|]. by apply (list_elem_of_fmap_2 snd) in Hx.
Qed.

Lemma running_mono w q q' : (forall x, x ∈ executing q -> x ∈ executing q') -> running w q = true -> running w q' = true.
Proof. rewrite !running_true. intros He (tr & n & ?). eauto. Qed.

Lemma running_popped w q e rest tr tf :
  running w (popped_queue rest tr e tf q) = true -> w = e.1 \/ running w q = true.
Proof.
  rewrite !running_true. intros (tr' & n & [Hx|Hx]%elem_of_cons); [simplify_eq; auto|]. eauto.
Qed.

Lemma running_done w q q' tr :
  trackList q' = untrack tr (trackList q) -> trackFlushList q' = untrack tr (trackFlushList q) ->
  running w q' = true -> running w q = true.
Proof.
  intros Ht Hf. apply running_mono. unfold executing at 1. rewrite Ht, Hf. apply executing_done.
Qed.

Lemma works_filter w (P : entry -> Prop) `{!forall e, Decision (P e)} l : w ∈ works (filter P l) -> w ∈ works l.
Proof.
  unfold works. rewrite !list_elem_of_fmap. intros (e & -> & [_ ?]%list_elem_of_filter). eauto.
Qed.

Lemma placed_step s l s' : placed s -> step s l = Some (Some s') -> cancels s -> placed s'.
Proof.
  intros (DH & DE & DA) H C. unfold placed.
  pose proof (fun t p (Hp : threads s !! t = Some p) => C t p Hp) as CT.
  step_inv H; try (specialize (CT _ _ Hp); cbn in CT); cbn; split_and!; try exact DH; try exact DE; try exact DA.
  all: intros v Hv; try (apply elem_of_union; solve [right; exact (DE v Hv)|right; exact (DH v Hv)|right; exact (DA v Hv)]).
  all: try (rewrite works_snoc, elem_of_app, list_elem_of_singleton in Hv; apply elem_of_union;
    destruct Hv as [Hv| ->]; [auto|left; by apply elem_of_singleton]).
  all: try (apply elem_of_difference in Hv as [Hv _]); auto.
  - apply elem_of_union in Hv as [->%elem_of_singleton|?]; auto.
  - apply DH. rewrite Hhead. by apply list_elem_of_further.
  - apply running_popped in Hv as [->|?]; [|auto]. apply DH. rewrite Hhead. apply list_elem_of_here.
  - apply DE. by refine (running_done v (wq s) _ tr _ _ Hv).
  - apply DE. by refine (running_done v (wq s) _ tr _ _ Hv).
  - apply DH. by eapply works_filter.
  - apply DH. by eapply works_filter.
Qed.

Lemma cancel_at_data q data w t p : cancel_at q data t p -> cancel_at q ({[w]} ∪ data) t p.
Proof. destruct p; cbn; auto; intros; apply elem_of_union; auto. Qed.

Lemma cancel_at_done q data q' tr t p :
  trackList q' = untrack tr (trackList q) -> trackFlushList q' = untrack tr (trackFlushList q) ->
  cancel_at q data t p -> cancel_at q' data t (wake p).
Proof.
  intros Ht Hf. destruct p; cbn; auto. intros Hr. apply not_true_is_false. intros Hr'.
  by rewrite (running_done _ _ _ _ Ht Hf Hr') in Hr.
Qed.

Lemma cancels_step s l s' : bits s -> placed s -> cancels s -> step s l = Some (Some s') -> cancels s'.
Proof.
  intros B (DH & DE & DA) C H. unfold cancels in *.
  pose proof (fun t p (Hp : threads s !! t = Some p) => C t p Hp) as CT.
  step_inv H; try (specialize (CT _ _ Hp); cbn in CT); cbn; rewrite ?insert_wake by done.
  all: try solve [first [apply each_insert|apply each_app]; [exact C|cbn; auto; try exact Hrun]].
  all: try solve [apply each_insert; [eapply each_mono; [exact C|]; intros v p; exact (cancel_at_data (wq s) _ _ v p)
    |cbn; try done; apply elem_of_union; left; by apply elem_of_singleton]].
  all: try solve [apply each_insert; [exact C|by destruct k]].
  1: apply each_wake, each_insert; [by intros ? []|exact C|done].
  1: apply each_insert_ne; [|done]; intros u p Hut Hu; specialize (C _ _ Hu).
  - destruct p; cbn in *; try done.
    + eapply running_mono; [|exact C]. intros x ?. by apply list_elem_of_further.
    + apply not_true_is_false. intros [->|?]%running_popped; [|congruence].
      destruct (bits_held _ _ _ _ B Hu eq_refl) as (_ & Hn & _). apply Hn. rewrite Hhead. apply list_elem_of_here.
  - eapply (each_wake_to (cancel_at (wq s) (wq_data s))); [|by apply each_insert].
    intros v p. by apply (cancel_at_done _ _ _ tr).
  - eapply (each_wake_to (cancel_at (wq s) (wq_data s))); [|by apply each_insert].
    intros v p. by apply (cancel_at_done _ _ _ tr).
  - apply each_insert; [exact C|]. cbn. apply not_true_is_false. auto.
Qed.

(** ** No work is forgotten *)

(** A thread that will start work or dispatch; or the queue has been destroyed. *)
Definition busy (p : pc) : Prop :=
  match p with
  | Timeout | Submit _ | SubmitFailed _ | ArmTimer _ | Redispatch _
  | Callout | Popped _ _ | Calling _ _ | Complete _ _ _ | Done _ _ | Returned Destroyed => True
  | _ => False
  end.

Definition attended (s : sys) : Prop :=
  head (wq s) = [] \/ (0 < posted s)%nat \/ delayTimer (wq s) = true \/ exists t, at_thread busy (threads s) t.

(** The counters tell that someone is there when no request is needed. *)
Lemma counters_busy s :
  counters s -> Z.min (maxDispatch (wq s) - curDispatch (wq s)) (qLen (wq s) - curPosted (wq s)) <= 0 ->
  head (wq s) = [] \/ (0 < posted s)%nat \/ exists t, at_thread busy (threads s) t.
Proof.
  intros (Hq & Hmax & Hdis & Hfr & Hnd & Hpo & Hocc) Hmin.
  destruct (head (wq s)) as [|e l] eqn:Hh; [auto|right]. cbn [length] in Hq.
  destruct (decide (0 < posted s)%nat) as [|Hp0]; [auto|right].
  destruct (decide (0 < curPosted (wq s))) as [Hcp|Hcp].
  - destruct (total_pos posting (threads s)) as (t & p & Hp & Hpp); [by intros []|lia|].
    exists t, p. split; [done|]. by destruct p.
  - destruct (executing (wq s)) as [|x l'] eqn:He; [cbn in Hdis; lia|].
    specialize (Hocc x). rewrite occ_cons, decide_True in Hocc by done. pose proof (occ_nonneg x l').
    destruct (total_pos (works_on x) (threads s)) as (t & p & Hp & Hpp); [apply works_on_nonneg|lia|].
    exists t, p. split; [done|]. by destruct p.
Qed.

Lemma busy_wake p : busy p -> busy (wake p).
Proof. by destruct p. Qed.

(** The thread that was busy may be another one, or it is busy still. *)
Lemma attended_go s s' t p p' :
  attended s -> threads s !! t = Some p -> threads s' = <[t := p']> (threads s) -> (busy p -> busy p') ->
  (head (wq s) = [] -> head (wq s') = []) -> posted s' = posted s -> delayTimer (wq s') = delayTimer (wq s) -> attended s'.
Proof.
  intros A Hp Ht Hb Hh Hpo Hd. unfold attended. rewrite Ht, Hpo, Hd.
  destruct A as [?|[?|[?|[u Hu]]]]; auto. do 3 right. exists u. eapply at_insert; eauto.
Qed.

Lemma attended_begin s s' p :
  attended s -> threads s' = threads s ++ [p] -> wq s' = wq s -> posted s' = posted s -> attended s'.
Proof.
  intros A Ht Hq Hpo. unfold attended. rewrite Ht, Hpo, Hq.
  destruct A as [?|[?|[?|[u Hu]]]]; auto. do 3 right. exists u. by apply at_app.
Qed.

Lemma attended_counters s :
  counters s -> Z.min (maxDispatch (wq s) - curDispatch (wq s)) (qLen (wq s) - curPosted (wq s)) <= 0 -> attended s.
Proof. intros C [?|[?|?]]%counters_busy; unfold attended; auto. Qed.

Lemma attended_step s l s' : attended s -> step s l = Some (Some s') -> counters s' -> attended s'.
Proof.
  intros A H. step_inv H; intros C.
  all: try solve [eapply attended_go; [exact A|exact Hp|reflexivity|cbn; auto; try done|cbn; first [solve [auto]|intros Hnil; by rewrite Hnil]|done|done]].
  all: try solve [do 3 right; exists t; cbn; rewrite ?insert_wake by done;
    try (apply at_wake; [exact busy_wake|]); by eapply at_insert_eq].
  all: try solve [eapply attended_begin; [exact A|reflexivity..]].
  all: try solve [apply attended_counters; [exact C|exact Hd]].
  all: try solve [destruct Hidle; [left; assumption|apply attended_counters; [exact C|cbn; lia]]].
  - do 3 right. exists (length (threads s)), Callout. split; [|done]. cbn. by rewrite lookup_app_r, Nat.sub_diag.
  - do 3 right. exists (length (threads s)), Timeout. split; [|done]. cbn. by rewrite lookup_app_r, Nat.sub_diag.
  - right. left. cbn. lia.
  - right. right. by left.
Qed.

(** ** Nobody waits for nothing *)

Definition wait_at (q : workqueue_struct) (comp : gset nat) (t : nat) (p : pc) : Prop :=
  match p with
  | FlushSleep _ _ _ => trackFlushList q <> []
  | Done _ e => forall u, e.1 = Plunger u -> u ∈ comp
  | _ => True
  end /\
  forall st n, waits p = Some (st, n) -> t ∈ comp \/ live q (Plunger t, n).

Definition waited (s : sys) : Prop := each (wait_at (wq s) (completed s)) (threads s).

(** The mutex is held by a thread. *)
Definition held (s : sys) : Prop := forall t, flushMutex (wq s) = Some t -> at_thread locked (threads s) t.

Lemma held_step s l s' : held s -> step s l = Some (Some s') -> held s'.
Proof.
  intros HM H. unfold held in *. step_inv H; cbn; rewrite ?insert_wake by done.
  all: try solve [intros v Hv%HM; on_threads; auto;
    first [by intros [? ?]|by destruct k|intros ? ?; by apply locked_wake]].
  all: intros v Hv; simplify_eq. by eapply at_insert_eq.
Qed.

Lemma wait_at_wake q comp t p : wait_at q comp t p -> wait_at q comp t (wake p).
Proof. intros [? ?]. destruct p; by split. Qed.

Lemma wait_at_grows q q' comp t p :
  (forall u n, live q (Plunger u, n) -> live q' (Plunger u, n)) ->
  (trackFlushList q <> [] -> trackFlushList q' <> []) ->
  wait_at q comp t p -> wait_at q' comp t p.
Proof.
  intros Hl Hf [W1 W2]. split; [destruct p; auto|]. intros st n [?|?]%W2; auto.
Qed.

Lemma live_mono q q' e :
  (e ∈ head q -> e ∈ head q' \/ exists tr, (tr, e) ∈ executing q') ->
  (forall x, x ∈ executing q -> x ∈ executing q') -> live q e -> live q' e.
Proof. intros Hh He [?|[tr ?]]; [by apply Hh|right; eauto]. Qed.

(** The entry that is done with is the only one to go, and all are woken. *)
Lemma wait_at_done q q' comp e t p :
  (forall e', live q e' -> e' = e \/ live q' e') -> (forall u, e.1 = Plunger u -> u ∈ comp) ->
  wait_at q comp t p -> wait_at q' comp t (wake p).
Proof.
  intros Hl He [W1 W2]. split; [by destruct p|]. intros st n. rewrite waits_wake.
  intros [?|[Heq|?]%Hl]%W2; auto. left. apply He. by rewrite <- Heq.
Qed.

Lemma live_done n q f q' tr e e' :
  counted q n f -> (tr, e) ∈ executing q -> head q' = head q ->
  trackList q' = untrack tr (trackList q) -> trackFlushList q' = untrack tr (trackFlushList q) ->
  live q e' -> e' = e \/ live q' e'.
Proof.
  intros (_ & _ & _ & _ & Hnd & _) Hx Hh Ht Hf [Hin|[tr' Hin]]; [right; left; by rewrite Hh|].
  apply NoDup_app in Hnd as [Hnd _]. rewrite (untrack_perm _ _ _ Hnd Hx) in Hin.
  apply elem_of_cons in Hin as [?|Hin]; [simplify_eq; auto|]. right. right. exists tr'.
  unfold executing in *. by rewrite Ht, Hf, <- untrack_app.
Qed.

Lemma filter_plunger w q u n :
  user w -> (Plunger u, n) ∈ head q ->
  (Plunger u, n) ∈ filter (fun e => e.1 <> w) (head q).
Proof. intros Hw Hin. apply list_elem_of_filter. split; [|done]. by intros <-. Qed.

Lemma executing_at s t tr e : counters s -> threads s !! t = Some (Done tr e) -> (tr, e) ∈ executing (wq s).
Proof. intros C Hp. eapply counted_at; [exact C|exact Hp|]. cbn. by rewrite decide_True. Qed.

Lemma done_wait_at s q' t tr e v p :
  counters s -> waited s -> threads s !! t = Some (Done tr e) -> head q' = head (wq s) ->
  trackList q' = untrack tr (trackList (wq s)) -> trackFlushList q' = untrack tr (trackFlushList (wq s)) ->
  wait_at (wq s) (completed s) v p -> wait_at q' (completed s) v (wake p).
Proof.
  intros C W Hp Hh Ht Hf. apply (wait_at_done _ _ _ e); [|by apply (W _ _ Hp)].
  intros e'. eapply live_done; eauto using executing_at.
Qed.

Lemma waited_step s l s' :
  locals s -> counters s -> plungers s -> waited s -> step s l = Some (Some s') -> waited s'.
Proof.
  intros (L & _ & _) C PL W H. unfold waited in *.
  pose proof (fun t p (Hp : threads s !! t = Some p) => W t p Hp) as WT.
  pose proof (fun t p (Hp : threads s !! t = Some p) => L t p Hp) as LT.
  step_inv H; cbn; rewrite ?insert_wake by done.
  all: try (specialize (WT _ _ Hp); specialize (LT _ _ Hp); cbn in LT, WT).
  all: try solve [first [apply each_insert|apply each_app]; [exact W|split; [try done; by apply WT|cbn; try done; by apply WT]]].
  all: try solve [apply each_insert; [exact W|by destruct k]].
  all: try (apply each_insert; [eapply (each_mono _ _ _ W); intros u0 p; apply wait_at_grows;
    [intros ? ?; apply live_mono; [|done]; intros ?; left; cbn; by apply elem_of_app; left|done]|];
    first [by split|split; [done|]; cbn; intros st n ?; simplify_eq; right; left; cbn;
      apply elem_of_app; right; apply list_elem_of_here]).
  - apply each_wake; [intros ? ?; apply wait_at_wake|]. apply each_insert; [exact W|by split].
  - apply each_insert; [|by split]. eapply (each_mono _ _ _ W); intros u0 p; apply wait_at_grows; [|done].
    intros ? ?; apply live_mono; [|intros ? ?; by apply list_elem_of_further].
    rewrite Hhead. intros [->|?]%elem_of_cons; [right; exists tr; apply list_elem_of_here|by left].
  - apply each_insert; [exact W|]. split; [|done]. intros u. by rewrite H0.
  - apply each_insert; [|by split]. eapply (each_mono _ _ _ W); intros u0 p; apply wait_at_grows; [auto|].
    cbn. destruct (trackList (wq s)); [done|by intros].
  - assert (forall v, v ∈ completed s -> v ∈ {[t0]} ∪ completed s) as HS by (intros; apply elem_of_union; auto).
    apply each_insert.
    + eapply (each_mono _ _ _ W). intros v p [W1 W2]. split; [destruct p; auto|]. intros st n [?|?]%W2; auto.
    + split; [|done]. intros u. rewrite LT. intros [= ->]. apply elem_of_union. left. by apply elem_of_singleton.
  - eapply (each_wake_to (wait_at (wq s) (completed s))); [|by apply each_insert]. intros v p. eauto using done_wait_at.
  - eapply (each_wake_to (wait_at (wq s) (completed s))); [|by apply each_insert]. intros v p. eauto using done_wait_at.
  - apply each_insert_ne; [|by split]. intros v p Hvt Hv. destruct (W _ _ Hv) as [W1 W2]. split.
    + destruct p; try done. intros u Hu. apply elem_of_difference. split; [by apply W1|].
      intros ->%elem_of_singleton. assert (live (wq s) (Plunger t, e.2)) as (p & Hpt & st & Hw)%PL.
      { right. exists tr. rewrite <- Hu, <- surjective_pairing. by eapply executing_at. }
      by simplify_eq.
    + intros st n [?|?]%W2; [left|by right]. apply elem_of_difference. by rewrite elem_of_singleton.
  - apply each_insert; [|by split]. eapply (each_mono _ _ _ W). intros v p. apply wait_at_grows; [|done].
    intros u n. apply live_mono; [|done]. intros Hin'. left. by apply filter_plunger.
  - apply each_insert; [|by split]. eapply (each_mono _ _ _ W). intros v p. apply wait_at_grows; [|done].
    intros u n. apply live_mono; [|done]. intros Hin'. left. by apply filter_plunger.
Qed.
