(* ===== verification/WqSpec.v ===== *)
(** Work queues: what the code promises.

    The invariants of the other files hold in every reachable state; from them
    follow that no assertion fails, that every entry starts or is cancelled
    once and in order, what a flush and a cancel promise when they return, and
    that nothing is left in a queue where nobody can act. *)

From stdpp Require Import countable gmap sorting.
From S2P Require Import Prelude Workqueue WqInv WqFlush WqLive.
Local Open Scope Z_scope.

Definition sound (s : sys) : Prop :=
  locals s /\ bits s /\ counters s /\ numbered s /\ mutexes s /\ plungers s /\ flushes s /\
  placed s /\ cancels s /\ attended s /\ waited s /\ held s.

Lemma each_nil P : each P [].
Proof. by intros ? ?. Qed.

Lemma helper_worlds_pos n : 1 <= helper_worlds n.
Proof. unfold helper_worlds, VMKLNX_MIN_QHELPERS, VMKLNX_MAX_QHELPERS. repeat case_match; unbool; lia. Qed.

Lemma init_sound b n : sound (init b n).
Proof.
  assert (1 <= if b then 1 else helper_worlds n) as Hm by (destruct b; [lia|apply helper_worlds_pos]).
  unfold sound. repeat match goal with |- _ /\ _ => split end; try exact (each_nil _); try done.
  - unfold counters, counted, executing. cbn. split_and!; try done; try lia.
    + rewrite length_rev, length_seq. lia.
    + apply NoDup_ListNoDup, NoDup_rev, seq_NoDup.
  - unfold numbered, tickets. cbn. split_and!; try done; [constructor|by intros ? ?%elem_of_nil].
  - intros u m [?%elem_of_nil|[? ?%elem_of_nil]]; done.
  - split_and!; try (by intros w ?%elem_of_nil); [|by intros w ?%elem_of_empty].
    by intros w (? & ? & ?%elem_of_nil)%running_true.
  - by left.
Qed.

Lemma sound_step s l s' : sound s -> step s l = Some (Some s') -> sound s'.
Proof.
  intros (L & B & C & T & M & PL & F & P & K & A & W & HH) H. unfold sound.
  assert (counters s') by eauto using counters_step.
  repeat match goal with |- _ /\ _ => split end; eauto using locals_step, bits_step, numbered_step, mutexes_step, plungers_step, flushes_step,
    placed_step, cancels_step, attended_step, waited_step, held_step.
Qed.

Lemma reachable_sound b n s : reachable (init b n) s -> sound s.
Proof. induction 1; eauto using init_sound, sound_step. Qed.

Lemma reach_trans s0 s s' : reachable s0 s -> reachable s s' -> reachable s0 s'.
Proof. intros R. induction 1; [done|]. by eapply reach_step. Qed.

(** A run of given steps; a step that is not possible is left out. *)
Fixpoint run (s : sys) (ls : list label) : sys :=
  match ls with
  | [] => s
  | l :: ls => match step s l with Some (Some s') => run s' ls | _ => run s ls end
  end.

Lemma wq_run_reachable s ls : reachable s (run s ls).
Proof.
  assert (forall s', reachable s s' -> reachable s (run s' ls)) as H; [|apply H, reach_refl].
  induction ls as [|l ls IH]; cbn; [done|]. intros s' R. repeat case_match; eauto using reach_step.
Qed.

(** Two works are queued; the first runs while a flush and a canceller wait. *)
Definition R (t : nat) : label := Run t true.
Definition example_queued : sys :=
  run (init true 8) [Call (CallQueue 1); R 0; R 0; R 0; R 0; Call (CallQueue 2); R 1; R 1; R 1; R 1].
Definition example_cancel : sys :=
  run example_queued [Request; R 2; R 2; Call (CallCancel 2 false); R 3; R 3; R 3; Call (CallCancel 1 false); R 4; R 4; R 4; R 2; R 2; R 4].
Definition example_flush : sys := run example_queued [Call CallFlush].
Definition example_drained : sys :=
  run example_flush [R 2; R 2; R 2; Request; R 3; R 3; R 3; R 3; R 3; Request; R 4; R 4; R 4; R 4; R 4;
    Request; R 5; R 5; R 5; R 5; R 5; R 5; R 2; R 2; R 2; R 2].

Lemma example_queued_reachable : reachable (init true 8) example_queued.
Proof. apply wq_run_reachable. Qed.

(** ** No assertion fails *)

Lemma assert_true b : b = true -> assert b = Some tt.
Proof. by intros ->. Qed.

Lemma enqueue_ok t w k s : sound s -> w ∉ works (head (wq s)) -> w ∈ pending s -> is_Some (enqueue t w k s).
Proof.
  intros (_ & _ & (Hq & _) & _) Hw Hp. unfold enqueue, __queue_work.
  rewrite (bool_decide_eq_false_2 _ Hw), (bool_decide_eq_true_2 _ Hp), Hq, Z.eqb_refl. by eexists.
Qed.

Lemma callout_pop_ok s t :
  sound s -> threads s !! t = Some Callout -> is_Some (callout_pop (fun w => bool_decide (w ∈ pending s)) (wq s)).
Proof.
  intros (_ & B & (Hq & Hmax & Hdis & Hfr & Hnd & Hpo & Hocc) & _) Hp. unfold callout_pop.
  assert (0 < curPosted (wq s)) as Hc.
  { rewrite Hpo. assert (posting Callout <= total posting (threads s)) by (eapply total_at; [by intros []|exact Hp]).
    cbn in *. lia. }
  rewrite Hq, Z.eqb_refl. apply Z.ltb_lt in Hc as ->. cbn.
  destruct (head (wq s)) as [|e rest] eqn:Hh; [by eexists|]. case_match; [by eexists|]. unbool.
  assert (e.1 ∈ pending s) as He by (apply (bits_queued _ _ B); rewrite Hh; apply list_elem_of_here).
  rewrite (bool_decide_eq_true_2 _ He). cbn [length] in *. cbn.
  unfold executing in *. rewrite length_app in Hdis.
  destruct (trackFree (wq s)) as [|tr tf]; [cbn in *; lia|].
  rewrite !assert_true; [by eexists|rewrite ?Z.eqb_eq, ?Z.ltb_lt; cbn; rewrite ?length_app; cbn [length] in *; lia..].
Qed.

Lemma cancel_locked_ok s t w tm g ret :
  sound s -> threads s !! t = Some (CancelLock w tm g ret) ->
  is_Some (cancel_locked w tm g ret (bool_decide (w ∈ pending s)) (wq s)).
Proof.
  intros (_ & B & (Hq & _) & _) Hp. unfold cancel_locked.
  destruct (bool_decide_reflect (w ∈ works (head (wq s)))) as [Hin|], (bool_decide (w ∈ pending s)); cbn; eauto.
  destruct (bits_queued _ _ B Hin) as (_ & Ho & _ & Ht).
  destruct g; [by destruct (bits_held _ _ _ _ B Hp eq_refl) as (_ & Hn & _)|]. cbn.
  rewrite assert_true; [by eexists|]. apply Z.eqb_eq. rewrite length_removed, Ho. lia.
Qed.

Lemma bits_armed s w : bits s -> w ∈ armed s -> w ∈ pending s.
Proof.
  intros B Hw. specialize (B w). pose proof (occ_nonneg w (works (head (wq s)))).
  pose proof (total_nonneg _ (threads s) (holds_nonneg w)). unfold among in *.
  rewrite (decide_True _ _ Hw) in B. case_decide; [done|lia].
Qed.

Lemma wq_thread_step_ok s t p ok : sound s -> threads s !! t = Some p -> thread_step t p ok s <> Some None.
Proof.
  intros S Hp. pose proof S as (L & B & C & _ & _ & _ & _ & P & K & _).
  assert (forall w k, holder p = Some w -> is_Some (enqueue t w k s)) as E.
  { intros w k Hw. destruct (bits_held _ _ _ _ B Hp Hw) as (? & ? & _). by apply enqueue_ok. }
  pose proof (proj1 L _ _ Hp) as Lp. specialize (K _ _ Hp).
  destruct p; cbn in *; try done; repeat (case_match; try done).
  all: intros [= Hn].
  - by destruct (E w (Return 1) eq_refl) as [? ?]; simplify_eq.
  - destruct (bits_held _ _ _ _ B Hp eq_refl) as (_ & Hw & Ha & _).
    by rewrite (bool_decide_eq_false_2 _ Hw), (bool_decide_eq_false_2 _ Ha) in Hn.
  - rewrite (bool_decide_eq_true_2 _ K) in Hn. by destruct (E w (EndHandler w) eq_refl) as [? ?]; simplify_eq/=.
  - destruct (callout_pop_ok s t S Hp) as [r Hr]. by rewrite Hr in Hn.
  - assert ((tr, e) ∈ executing (wq s)) as Hx by (eapply counted_at; [exact C|exact Hp|]; cbn; by rewrite decide_True).
    unfold vmklnx_plunger_complete, executing in *. cbn in Hn.
    destruct (trackList (wq s) ++ trackFlushList (wq s)); [by apply elem_of_nil in Hx|done].
  - subst. by destruct (E (Plunger t) (Wait start (next s) destroy) eq_refl) as [? ?]; simplify_eq.
  - match goal with Ha : bool_decide (w ∈ armed s) = true |- _ => apply bool_decide_eq_true in Ha; apply (bits_armed _ _ B) in Ha end.
    by rewrite bool_decide_eq_true_2 in Hn.
  - destruct (cancel_locked_ok s t _ _ _ _ S Hp) as [r Hr]. by rewrite Hr in Hn.
  - destruct (cancel_locked_ok s t _ _ _ _ S Hp) as [r Hr]. by rewrite Hr in Hn.
Qed.

(** no assertion of the code fails: in every state the threads can
    reach, on queues of every width, none of their steps is a fault. In
    particular the counters agree with the lists, a helper always finds a
    tracker, and no work is queued or has its timer armed twice. *)
Theorem workqueue_asserts_hold (singlethread : bool) (pcpus : Z) (s : sys) (l : label) :
  reachable (init singlethread pcpus) s -> step s l <> Some None.
Proof.
  intros R%reachable_sound. destruct l; cbn; try (repeat case_match; done).
  - destruct (threads s !! t) as [p|] eqn:Hp; [|done]. cbn. by case_match.
  - destruct (threads s !! t) as [p|] eqn:Hp; [|done]. by apply wq_thread_step_ok.
Qed.

Lemma workqueue_asserts_hold_witness : step example_drained (R 5) <> Some None.
Proof.
  refine (workqueue_asserts_hold true 8 example_drained (R 5) _).
  apply (reach_trans _ example_queued); [apply example_queued_reachable|].
  apply (reach_trans _ example_flush); apply wq_run_reachable.
Defined.

(** C12: every entry goes its way once and in order. Of the entries made so
    far each has been started, or cancelled, or is still queued, and none is in
    two of these places; the entries have been started in the order of the
    queue, and what is queued is later than all of them; at most [maxDispatch]
    are executing, each on a tracker of its own. *)
Theorem workqueue_fifo_once (singlethread : bool) (pcpus : Z) (s : sys) :
  reachable (init singlethread pcpus) s ->
  started s ++ cancelled s ++ (head (wq s)).*2 ≡ₚ seqZ 0 (next s) /\
  StronglySorted Z.lt (started s ++ (head (wq s)).*2) /\
  (forall tr e, (tr, e) ∈ executing (wq s) -> e.2 ∈ started s) /\
  NoDup (executing (wq s)).*1 /\
  Z.of_nat (length (executing (wq s))) <= maxDispatch (wq s).
Proof.
  intros (_ & _ & (_ & _ & Hdis & Hfr & Hnd & _) & (_ & HP & HS & HE) & _)%reachable_sound. split_and!; auto; [| |lia].
  - intros tr e Hx. by apply (HE (tr, e)).
  - by apply NoDup_app in Hnd as [? _].
Qed.

Lemma workqueue_fifo_once_witness :
  (started example_cancel, cancelled example_cancel, next example_cancel) = ([0], [1], 2) /\
  NoDup (executing (wq example_cancel)).*1.
Proof.
  split; [vm_compute; reflexivity|].
  destruct (workqueue_fifo_once true 8 example_cancel) as (_ & _ & _ & H & _); [|exact H].
  apply (reach_trans _ example_queued); [apply example_queued_reachable|apply wq_run_reachable].
Defined.

(** C32: when cancel_work_sync gives the pending bit back, just before it
    returns, the work is not queued, not pending, its timer is not armed and
    its function is not running; and no other thread is about to queue it. *)
Theorem cancel_work_sync_idle (singlethread : bool) (pcpus : Z) (s s' : sys) (t : nat) (ok : bool) (w : work) (ret : Z) :
  reachable (init singlethread pcpus) s -> threads s !! t = Some (CancelClear w ret) ->
  step s (Run t ok) = Some (Some s') ->
  threads s' !! t = Some (Returned (Value ret)) /\
  w ∉ pending s' /\ w ∉ works (head (wq s')) /\ running w (wq s') = false /\ w ∉ armed s' /\
  (forall u p, threads s' !! u = Some p -> holder p <> Some w).
Proof.
  intros R Hp H. pose proof (reach_step _ _ _ _ R H) as (_ & B' & _)%reachable_sound.
  apply reachable_sound in R as (_ & B & _ & _ & _ & _ & _ & _ & K & _). specialize (K _ _ Hp).
  destruct (bits_held _ _ _ _ B Hp eq_refl) as (_ & Hn & Ha & _).
  cbn in H. rewrite Hp in H. cbn in H. simplify_eq/=. split_and!; auto.
  - apply list_lookup_insert_eq. by eapply lookup_lt_Some.
  - by intros [_ []%not_elem_of_singleton]%elem_of_difference.
  - intros u p Hu Hw. destruct (bits_held _ _ _ _ B' Hu Hw) as [Hin _]. cbn in Hin.
    by apply elem_of_difference in Hin as [_ []%not_elem_of_singleton].
Qed.

Lemma cancel_work_sync_idle_witness :
  threads example_cancel !! 4%nat = Some (CancelClear (User 1) 0) /\
  running (User 1) (wq (run example_cancel [R 4])) = false.
Proof.
  split; [vm_compute; reflexivity|].
  destruct (cancel_work_sync_idle true 8 example_cancel (run example_cancel [R 4]) 4 true (User 1) 0) as (_ & _ & _ & H & _).
  - apply (reach_trans _ example_queued); [apply example_queued_reachable|apply wq_run_reachable].
  - vm_compute. reflexivity.
  - vm_compute. reflexivity.
  - exact H.
Defined.

(** The flush that thread is in: the number of entries when it began. *)
Definition flush_k (k : cont) : option Z := match k with Wait st _ false => Some st | _ => None end.

Definition flush_of (p : pc) : option Z :=
  match p with
  | FlushMutex st false | FlushLock _ st false | FlushComp st _ false | FlushCheck st _ false
  | FlushSleep st _ false | FlushWoken st _ false | FlushUnlock st false | Returned (Flushed st) => Some st
  | Submit k | SubmitFailed k | ArmTimer k | Redispatch k => flush_k k
  | _ => None
  end.

Lemma flush_of_wake st p : flush_of p = Some st -> flush_of (wake p) = Some st.
Proof. by destruct p. Qed.
Lemma flush_of_after st k : flush_k k = Some st -> flush_of (after k) = Some st.
Proof. by destruct k as [| | | |? ? []]. Qed.

Lemma flush_of_step s l s' t st :
  step s l = Some (Some s') -> at_thread (fun p => flush_of p = Some st) (threads s) t ->
  at_thread (fun p => flush_of p = Some st) (threads s') t.
Proof.
  intros H HT. step_inv H; cbn; rewrite ?insert_wake by done.
  all: on_threads; auto using flush_of_wake, flush_of_after; try done; try (by destruct destroy).
Qed.

Lemma flush_of_reach s s' t st :
  reachable s s' -> at_thread (fun p => flush_of p = Some st) (threads s) t ->
  at_thread (fun p => flush_of p = Some st) (threads s') t.
Proof. induction 1; eauto using flush_of_step. Qed.

(** C23: flush_workqueue drains the queue: when the call returns, whatever
    other threads did meanwhile, every entry that had been made when it began
    has been started or cancelled, and of those started none is still
    executing. *)
Theorem flush_workqueue_drains (singlethread : bool) (pcpus : Z) (s1 s2 s3 : sys) (r : result) (n : Z) :
  reachable (init singlethread pcpus) s1 -> step s1 (Call CallFlush) = Some (Some s2) ->
  reachable s2 s3 -> threads s3 !! length (threads s1) = Some (Returned r) ->
  0 <= n < next s1 ->
  (n ∈ started s3 \/ n ∈ cancelled s3) /\ forall tr e, (tr, e) ∈ executing (wq s3) -> e.2 <> n.
Proof.
  intros R1 H R3 Hr Hn. cbn in H. simplify_eq.
  assert (at_thread (fun p => flush_of p = Some (next s1)) (threads s3) (length (threads s1))) as (p & Hp & Hf).
  { eapply flush_of_reach; [exact R3|]. exists (FlushMutex (next s1) false).
    split; [|done]. cbn. by rewrite lookup_app_r, Nat.sub_diag. }
  rewrite Hr in Hp. simplify_eq. destruct r; simplify_eq/=.
  assert (reachable (init singlethread pcpus) s3) as (_ & _ & _ & T & _ & _ & F & _)%reachable_sound.
  { eapply reach_trans; [|exact R3]. by apply (reach_step _ s1 (Call CallFlush)). }
  destruct (F _ _ Hr) as [[Hle HD] _]. split.
  - destruct T as (_ & HP & _). assert (n ∈ seqZ 0 (next s3)) as Hin by (apply elem_of_seqZ; lia).
    rewrite <- HP in Hin. rewrite !elem_of_app in Hin. destruct Hin as [?|[?|Hin]]; auto.
    apply list_elem_of_fmap in Hin as (e & -> & Hin). specialize (HD e (or_introl Hin)). lia.
  - intros tr e Hx. assert (next s1 <= e.2) by (apply HD; right; eauto). lia.
Qed.

Lemma flush_workqueue_drains_witness :
  threads example_drained !! 2%nat = Some (Returned (Flushed 2)) /\
  (1 ∈ started example_drained \/ 1 ∈ cancelled example_drained).
Proof.
  split; [vm_compute; reflexivity|].
  refine (proj1 (flush_workqueue_drains true 8 example_queued example_flush example_drained (Flushed 2) 1 _ _ _ _ _)).
  - apply example_queued_reachable.
  - reflexivity.
  - apply wq_run_reachable.
  - vm_compute. reflexivity.
  - vm_compute. split; [discriminate|reflexivity].
Defined.

(** ** Nothing is left behind *)

(** No thread can go on, and no request or timer is there to start one. *)
Definition stuck (s : sys) : Prop :=
  step s Request = None /\ step s DelayTimer = None /\ (forall w, step s (WorkTimer w) = None) /\
  forall t ok, step s (Run t ok) = None.

Lemma stuck_at s t p : stuck s -> threads s !! t = Some p -> thread_step t p true s = None.
Proof. intros (_ & _ & _ & Hs) Hp. specialize (Hs t true). cbn in Hs. by rewrite Hp in Hs. Qed.

Lemma stuck_busy s t p : stuck s -> threads s !! t = Some p -> busy p -> p = Returned Destroyed.
Proof.
  intros St Hp Hb. pose proof (stuck_at _ _ _ St Hp) as H.
  destruct p; try done; cbn in H; repeat (case_match; try done). by destruct r.
Qed.

Lemma existsb_at f (ts : list pc) : existsb f ts = true -> exists t p, ts !! t = Some p /\ f p = true.
Proof.
  intros (p & Hin & Hf)%existsb_exists. apply list_elem_of_In, list_elem_of_lookup in Hin as [t Ht]. eauto.
Qed.

Lemma decide_locked p : locked p \/ ~ locked p.
Proof. destruct p; try match goal with k : cont |- _ => destruct k end; first [by left|left; by eexists|right; by intros [? ?]]. Qed.

(** A flush does not wait when nothing is queued or executing. *)
Lemma idle_locked s t p :
  waited s -> stuck s -> (forall t p, threads s !! t = Some p -> ~ busy p) ->
  head (wq s) = [] -> executing (wq s) = [] -> threads s !! t = Some p -> ~ locked p.
Proof.
  intros W St NB HQ HX Hp Hl. destruct (W _ _ Hp) as [W1 W2]. pose proof (stuck_at _ _ _ St Hp) as H.
  destruct p; try done; cbn in *; try (by apply (NB _ _ Hp)); try (by destruct Hl); try (by case_match).
  - case_bool_decide as Hc; [done|]. destruct (W2 _ _ eq_refl) as [?|[Hin|[tr Hin]]]; [done| |].
    + rewrite HQ in Hin. by apply elem_of_nil in Hin.
    + rewrite HX in Hin. by apply elem_of_nil in Hin.
  - apply app_eq_nil in HX as [_ ?]. done.
Qed.

(** A test for it. *)
Definition stuckb (s : sys) : bool :=
  (posted s =? 0)%nat && negb (delayTimer (wq s)) && bool_decide (armed s = ∅) &&
  forallb (fun t => match step s (Run t true), step s (Run t false) with None, None => true | _, _ => false end)
    (seq 0 (length (threads s))).

Lemma stuckb_stuck s : stuckb s = true -> stuck s.
Proof.
  unfold stuckb. intros H. apply andb_prop in H as [H HT]. apply andb_prop in H as [H HA]. apply andb_prop in H as [HP HD].
  apply bool_decide_eq_true in HA. apply Nat.eqb_eq in HP. apply negb_true_iff in HD.
  split_and!; cbn [step]; rewrite ?HP, ?HD, ?HA; try done. intros t ok.
  destruct (decide (t < length (threads s))%nat) as [Ht|Ht].
  - rewrite forallb_forall in HT. assert (In t (seq 0 (length (threads s)))) as Hin by (apply in_seq; lia).
    specialize (HT t Hin). cbn [step] in HT. destruct ok; repeat case_match; try done.
  - by rewrite lookup_ge_None_2 by lia.
Qed.

(** C4: no work is forgotten and nobody waits in vain. When no thread can go
    on, nothing is posted to the helpers and no timer is armed, and the queue
    has not been destroyed, then the queue is empty, nothing is executing, and
    every thread has returned, but perhaps for callers of destroy_workqueue that
    wait for the last requests; no flush and no cancel is blocked. *)
Theorem workqueue_no_lost_work (singlethread : bool) (pcpus : Z) (s : sys) :
  reachable (init singlethread pcpus) s -> stuck s ->
  (forall t, threads s !! t <> Some (Returned Destroyed)) ->
  head (wq s) = [] /\ executing (wq s) = [] /\
  forall t p, threads s !! t = Some p -> p = DestroySleep \/ exists r, p = Returned r.
Proof.
  intros (L & B & C & T & M & PL & F & P & K & A & W & HH)%reachable_sound St ND.
  assert (forall t p, threads s !! t = Some p -> ~ busy p) as NB.
  { intros t p Hp Hb. apply (ND t). by rewrite <- (stuck_busy _ _ _ St Hp Hb). }
  assert (executing (wq s) = []) as HX.
  { destruct (executing (wq s)) as [|x l] eqn:Hx; [done|exfalso].
    destruct C as (_ & _ & _ & _ & _ & _ & Ho). specialize (Ho x). rewrite Hx, occ_cons, decide_True in Ho by done.
    pose proof (occ_nonneg x l). destruct (total_pos (works_on x) (threads s)) as (t & p & Hp & Hw);
      [apply works_on_nonneg|lia|]. apply (NB t p Hp). by destruct p. }
  assert (head (wq s) = []) as HQ.
  { destruct St as (S1 & S2 & _), A as [?|[Hp|[Ht|(t & p & Hp & Hb)]]]; [done|exfalso..].
    - cbn in S1. by destruct (posted s); [lia|].
    - cbn in S2. by rewrite Ht in S2.
    - by apply (NB t p). }
  split_and!; auto. intros t p Hp. pose proof (stuck_at _ _ _ St Hp) as H.
  destruct (decide_locked p) as [Hl|Hl]; [by destruct (idle_locked s t p)|].
  destruct p; try done; cbn in H, Hl; eauto; try (exfalso; apply Hl; by eexists); repeat (case_match; try done).
  - match goal with Hm : flushMutex _ = Some _ |- _ => apply HH in Hm as (p & Hp' & Hl') end. by destruct (idle_locked s _ p W St NB HQ HX Hp').
  - match goal with He : existsb _ _ = true |- _ => apply existsb_at in He as (u & p & Hu & Hin) end.
    destruct p; try done; try (by apply (NB u) in Hu). by pose proof (stuck_at _ _ _ St Hu).
  - specialize (K _ _ Hp). cbn in K. apply running_true in K as (? & ? & Hx). rewrite HX in Hx. by apply elem_of_nil in Hx.
  - match goal with He : existsb _ _ = true |- _ => apply existsb_at in He as (u & p & Hu & Hin) end.
    by apply (NB u) in Hu; destruct p.
Qed.

Lemma workqueue_no_lost_work_witness : length (threads example_drained) = 6%nat /\ head (wq example_drained) = [].
Proof.
  split; [vm_compute; reflexivity|].
  refine (proj1 (workqueue_no_lost_work true 8 example_drained _ _ _)).
  - apply (reach_trans _ example_queued); [apply example_queued_reachable|].
    apply (reach_trans _ example_flush); apply wq_run_reachable.
  - apply stuckb_stuck. vm_compute. reflexivity.
  - do 6 (intros [|t]; [vm_compute; discriminate|revert t]). vm_compute. intros; discriminate.
Defined.
