(* ===== verification/Sort.v ===== *)
(** The heap sort of vmkdrivers/src26/vmklinux26/linux/lib/sort.c, on a byte
    memory: the two swap routines, the sift-down loops with the offsets kept in
    ints and compared as size_t, and the refinement of "sorted permutation, in
    place". *)

From S2P Require Import Prelude.
From stdpp Require Import sorting.

Local Open Scope Z_scope.

(** ** Swaps *)

(** A little-endian u32. *)
Definition load_u32 (m : list Z) (p : Z) : option Z :=
  a ← read_at m p; b ← read_at m (p + 1); c ← read_at m (p + 2); d ← read_at m (p + 3);
  Some (a + 2 ^ 8 * (b + 2 ^ 8 * (c + 2 ^ 8 * d))).
Definition store_u32 (m : list Z) (p v : Z) : option (list Z) :=
  m ← write_at m p (u8 v); m ← write_at m (p + 1) (u8 (v / 2 ^ 8));
  m ← write_at m (p + 2) (u8 (v / 2 ^ 16)); write_at m (p + 3) (u8 (v / 2 ^ 24)).

Definition u32_swap (m : list Z) (a b size : Z) : option (list Z) :=
  t ← load_u32 m a;
  v ← load_u32 m b;
  m ← store_u32 m a v;
  store_u32 m b t.

Fixpoint generic_swap_loop (fuel : nat) (m : list Z) (a b size : Z) : option (list Z) :=
  match fuel with
  | O => None
  | S fuel =>
      t ← read_at m a;
      v ← read_at m b;
      m ← write_at m a v;
      m ← write_at m b t;
      let size := s32 (size - 1) in
      if 0 <? size then generic_swap_loop fuel m (a + 1) (b + 1) size else Some m
  end.
Definition generic_swap (m : list Z) (a b size : Z) : option (list Z) :=
  generic_swap_loop (S (Z.to_nat size)) m a b size.

(** ** Sorting *)

Section sort.
Context (cmp : list Z -> Z -> Z -> Z) (swap : list Z -> Z -> Z -> Z -> option (list Z)).
Context (base size : Z).

(** The for loop on r: [n] is the end of the heap, an int. *)
Fixpoint sift_down (fuel : nat) (m : list Z) (n r : Z) : option (list Z) :=
  match fuel with
  | O => None
  | S fuel =>
      if u64 (s32 (r * 2) + size) <? u64 n then
        let c := s32 (u64 (s32 (r * 2) + size)) in
        let c :=
          if (u64 c <? u64 (n - size)) && (cmp m (base + c) (base + c + size) <? 0)
          then s32 (u64 (c + size)) else c in
        if 0 <=? cmp m (base + r) (base + c) then Some m
        else
          m ← swap m (base + r) (base + c) (s32 size);
          sift_down fuel m n c
      else Some m
  end.

Fixpoint heapify (fuel : nat) (m : list Z) (n i : Z) : option (list Z) :=
  match fuel with
  | O => None
  | S fuel =>
      if 0 <=? i then
        m ← sift_down (S (Z.to_nat n)) m n i;
        heapify fuel m n (s32 (u64 (i - size)))
      else Some m
  end.

Fixpoint sort_loop (fuel : nat) (m : list Z) (i : Z) : option (list Z) :=
  match fuel with
  | O => None
  | S fuel =>
      if 0 <=? i then
        m ← swap m base (base + i) (s32 size);
        m ← sift_down (S (Z.to_nat i)) m i 0;
        sort_loop fuel m (s32 (u64 (i - size)))
      else Some m
  end.

Definition sort_with (m : list Z) (num : Z) : option (list Z) :=
  let i := s32 (u64 ((num / 2 - 1) * size)) in
  let n := s32 (u64 (num * size)) in
  m ← heapify (S (Z.to_nat num)) m n i;
  sort_loop (S (Z.to_nat num)) m (s32 (u64 (n - size))).
End sort.

(** [None] for the swap is NULL. *)
Definition sort (m : list Z) (base num size : Z) (cmp : list Z -> Z -> Z -> Z)
    (swap : option (list Z -> Z -> Z -> Z -> option (list Z))) : option (list Z) :=
  let swap := match swap with Some swap => swap | None => if size =? 4 then u32_swap else generic_swap end in
  sort_with cmp swap base size m num.

(** ** Elements of the memory *)

(** Where byte [k] of the memory comes from when the [n] bytes at [a] and at
    [b] change places. *)
Definition cross (a b n k : Z) : Z :=
  if (a <=? k) && (k <? a + n) then k - a + b
  else if (b <=? k) && (k <? b + n) then k - b + a else k.
Definition swapped (m : list Z) (a b n : Z) (m' : list Z) : Prop :=
  length m' = length m /\ forall k, 0 <= k -> m' !! Z.to_nat k = m !! Z.to_nat (cross a b n k).

Definition bytes (m : list Z) : Prop := Forall (λ v, 0 <= v < 256) m.

(** The [n] bytes at [p]. *)
Definition window (m : list Z) (p n : Z) : list Z := take (Z.to_nat n) (drop (Z.to_nat p) m).

(** What the code asks of a swap routine and of a comparison: a swap exchanges
    two elements that are equal or apart, and a comparison is that of a total
    preorder on the elements. *)
Class SwapLaw (size : Z) (swap : list Z -> Z -> Z -> Z -> option (list Z)) : Prop := swap_law : forall m a b,
  bytes m -> 0 <= a -> 0 <= b -> a + size <= Z.of_nat (length m) -> b + size <= Z.of_nat (length m) ->
  a = b \/ a + size <= b \/ b + size <= a ->
  exists m', swap m a b size = Some m' /\ swapped m a b size m'.

Class Comparison (size : Z) (cmp : list Z -> Z -> Z -> Z) := {
  order : list Z -> list Z -> Z;
  order_cmp : forall m a b, 0 <= a -> 0 <= b -> a + size <= Z.of_nat (length m) -> b + size <= Z.of_nat (length m) ->
    cmp m a b = order (window m a size) (window m b size);
  order_total : forall x y, 0 <= order x y \/ 0 <= order y x;
  order_trans : forall x y z, 0 <= order y x -> 0 <= order z y -> 0 <= order z x;
}.

Lemma lookup_window m p n i : 0 <= p -> 0 <= n -> 0 <= i < n ->
  window m p n !! Z.to_nat i = m !! Z.to_nat (p + i).
Proof.
  intros. unfold window. rewrite lookup_take_lt by lia. rewrite lookup_drop. f_equal. lia.
Qed.

Lemma length_window m p n : 0 <= p -> 0 <= n -> p + n <= Z.of_nat (length m) -> length (window m p n) = Z.to_nat n.
Proof. intros. unfold window. rewrite length_take, length_drop. lia. Qed.

Lemma window_ext m m' p p' n : 0 <= p -> 0 <= p' -> 0 <= n ->
  (forall i, 0 <= i < n -> m !! Z.to_nat (p + i) = m' !! Z.to_nat (p' + i)) -> window m p n = window m' p' n.
Proof.
  intros Hp Hp' Hn H. apply list_eq. intros j. destruct (decide (Z.of_nat j < n)).
  - rewrite <- (Nat2Z.id j), !lookup_window by lia. apply H. lia.
  - unfold window. by rewrite !lookup_take_ge by lia.
Qed.

Lemma swapped_bytes m a b n m' : 0 <= a -> 0 <= b -> swapped m a b n m' -> bytes m -> bytes m'.
Proof.
  intros Ha Hb [_ H] Hm. apply Forall_lookup. intros j v Hj.
  rewrite <- (Nat2Z.id j), H in Hj by lia. exact (Forall_lookup_1 _ _ _ _ Hm Hj).
Qed.

Lemma swapped_refl m a n : swapped m a a n m.
Proof.
  split; [done|]. intros k Hk. f_equal. unfold cross. repeat case_test; lia.
Qed.

(** ** The swap routines *)

Lemma cross_nonneg a b n k : 0 <= a -> 0 <= b -> 0 <= k -> 0 <= cross a b n k.
Proof. intros. unfold cross. repeat case_test; lia. Qed.

Lemma swapped_join m a b n n' m1 m2 :
  0 <= a -> 0 <= b -> 0 <= n -> 0 <= n' -> a = b \/ a + n + n' <= b \/ b + n + n' <= a ->
  swapped m a b n m1 -> swapped m1 (a + n) (b + n) n' m2 -> swapped m a b (n + n') m2.
Proof.
  intros Ha Hb Hn Hn' Hd [L1 H1] [L2 H2]. split; [congruence|]. intros k Hk.
  rewrite H2, H1 by (try apply cross_nonneg; lia). do 2 f_equal.
  unfold cross. repeat case_test; lia.
Qed.

(** One byte. *)
Lemma swap_byte m a b t v : 0 <= a -> 0 <= b -> m !! Z.to_nat a = Some t -> m !! Z.to_nat b = Some v ->
  exists m', (m ← write_at m a v; write_at m b t) = Some m' /\ swapped m a b 1 m'.
Proof.
  intros Ha Hb Et Ev. pose proof (lookup_lt_Some _ _ _ Et). pose proof (lookup_lt_Some _ _ _ Ev).
  rewrite write_at_Some by lia. cbn. rewrite write_at_Some by (rewrite length_insert; lia).
  eexists. split; [reflexivity|]. split; [by rewrite !length_insert|]. intros k Hk. unfold cross.
  destruct (decide (k = b)) as [->|].
  { rewrite list_lookup_insert_eq by (rewrite length_insert; lia). rewrite <- Et.
    f_equal. repeat case_test; lia. }
  rewrite list_lookup_insert_ne by lia. destruct (decide (k = a)) as [->|].
  { rewrite list_lookup_insert_eq by lia. rewrite <- Ev. f_equal. repeat case_test; lia. }
  rewrite list_lookup_insert_ne by lia. f_equal. repeat case_test; lia.
Qed.

Lemma generic_swap_ok fuel : forall m a b n, 0 < n < 2 ^ 31 -> n <= Z.of_nat fuel -> 0 <= a -> 0 <= b ->
  a + n <= Z.of_nat (length m) -> b + n <= Z.of_nat (length m) -> a = b \/ a + n <= b \/ b + n <= a ->
  exists m', generic_swap_loop fuel m a b n = Some m' /\ swapped m a b n m'.
Proof.
  induction fuel as [|fuel IH]; intros m a b n Hn Hf Ha Hb Hla Hlb Hd; [lia|]. cbn [generic_swap_loop].
  destruct (read_at_Some m a) as (t & -> & Et); [lia|]. destruct (read_at_Some m b) as (v & -> & Ev); [lia|].
  destruct (swap_byte m a b t v Ha Hb Et Ev) as (m1 & E1 & S1). cbn [mbind option_bind] in *.
  destruct (write_at m a v) as [m0|]; [|done]. cbn in E1 |- *. rewrite E1. cbn.
  rewrite sext_small by lia. destruct (Z.ltb_spec 0 (n - 1)).
  - destruct (IH m1 (a + 1) (b + 1) (n - 1)) as (m2 & E2 & S2); try (destruct S1; lia).
    rewrite E2. eexists. split; [done|]. replace n with (1 + (n - 1)) by lia.
    eapply swapped_join; try exact S1; try exact S2; lia.
  - replace n with 1 in * by lia. eauto.
Qed.

#[export] Instance generic_swap_law size : 0 < size < 2 ^ 31 -> SwapLaw size generic_swap.
Proof. intros Hs m a b Hm ? ? ? ? Hd. apply generic_swap_ok; lia. Qed.

(** A word is four bytes. *)
Lemma load_u32_bytes m p : 0 <= p -> p + 4 <= Z.of_nat (length m) -> bytes m ->
  exists b0 b1 b2 b3, load_u32 m p = Some (b0 + 2 ^ 8 * (b1 + 2 ^ 8 * (b2 + 2 ^ 8 * b3))) /\
    (m !! Z.to_nat p = Some b0 /\ m !! Z.to_nat (p + 1) = Some b1 /\ m !! Z.to_nat (p + 2) = Some b2 /\ m !! Z.to_nat (p + 3) = Some b3) /\
    0 <= b0 < 256 /\ 0 <= b1 < 256 /\ 0 <= b2 < 256 /\ 0 <= b3 < 256.
Proof.
  intros Hp Hl Hm. unfold load_u32.
  destruct (read_at_Some m p) as (b0 & -> & E0); [lia|]. destruct (read_at_Some m (p + 1)) as (b1 & -> & E1); [lia|].
  destruct (read_at_Some m (p + 2)) as (b2 & -> & E2); [lia|]. destruct (read_at_Some m (p + 3)) as (b3 & -> & E3); [lia|].
  exists b0, b1, b2, b3. split; [done|]. split; [done|].
  split_and!; by eapply (Forall_lookup_1 _ _ _ _ Hm).
Qed.

Lemma store_u32_bytes m p b0 b1 b2 b3 : 0 <= p -> p + 4 <= Z.of_nat (length m) ->
  0 <= b0 < 256 -> 0 <= b1 < 256 -> 0 <= b2 < 256 -> 0 <= b3 < 256 ->
  store_u32 m p (b0 + 2 ^ 8 * (b1 + 2 ^ 8 * (b2 + 2 ^ 8 * b3))) =
  Some (<[Z.to_nat (p + 3) := b3]> (<[Z.to_nat (p + 2) := b2]> (<[Z.to_nat (p + 1) := b1]> (<[Z.to_nat p := b0]> m)))).
Proof.
  intros Hp Hl ? ? ? ?. unfold store_u32.
  rewrite write_at_Some by lia. cbn [mbind option_bind].
  do 3 (rewrite write_at_Some by (rewrite ?length_insert; lia); cbn [mbind option_bind]).
  unfold wrap. repeat f_equal; arith.
Qed.

Ltac insert_look :=
  repeat first [rewrite list_lookup_insert_eq by (rewrite ?length_insert; lia) | rewrite list_lookup_insert_ne by lia]; try done.

#[export] Instance u32_swap_law : SwapLaw 4 u32_swap.
Proof.
  intros m a b Hm Ha Hb Hla Hlb Hd. unfold u32_swap.
  destruct (load_u32_bytes m a Ha Hla Hm) as (a0 & a1 & a2 & a3 & -> & (A0 & A1 & A2 & A3) & ? & ? & ? & ?).
  destruct (load_u32_bytes m b Hb Hlb Hm) as (b0 & b1 & b2 & b3 & -> & (B0 & B1 & B2 & B3) & ? & ? & ? & ?).
  cbn [mbind option_bind]. rewrite store_u32_bytes by lia. cbn [mbind option_bind].
  rewrite store_u32_bytes by (rewrite ?length_insert; lia).
  eexists. split; [reflexivity|]. split; [by rewrite !length_insert|]. intros k Hk. unfold cross.
  set (m' := <[_ := _]> _).
  assert (forall o x y, m !! Z.to_nat (a + o) = Some x -> m !! Z.to_nat (b + o) = Some y -> 0 <= o < 4 ->
    m' !! Z.to_nat (b + o) = Some x /\ m' !! Z.to_nat (a + o) = Some y) as Hin.
  { subst m'. intros o x y Hx Hy Ho.
    assert (o = 0 \/ o = 1 \/ o = 2 \/ o = 3) as [->|[->|[->| ->]]] by lia;
      rewrite ?Z.add_0_r in *; simplify_eq;
      destruct Hd as [->|Hd]; simplify_eq; split; insert_look. }
  assert (k < a \/ a + 4 <= k -> k < b \/ b + 4 <= k -> m' !! Z.to_nat k = m !! Z.to_nat k) as Hout.
  { intros ? ?. subst m'. insert_look. }
  assert (forall p, 0 <= p -> p + 4 <= Z.of_nat (length m) -> forall o, 0 <= o < 4 -> exists v, m !! Z.to_nat (p + o) = Some v) as Hw.
  { intros p ? ? o ?. destruct (read_at_Some m (p + o)) as (v & _ & ->); [lia|]. eauto. }
  repeat case_test.
  - destruct (Hw a Ha Hla (k - a)) as [x Hx]; [lia|]. destruct (Hw b Hb Hlb (k - a)) as [y Hy]; [lia|].
    destruct (Hin _ _ _ Hx Hy) as [_ E']; [lia|]. replace (k - a + b) with (b + (k - a)) by lia. rewrite Hy, <- E'.
    do 2 f_equal. lia.
  - destruct (Hw a Ha Hla (k - b)) as [x Hx]; [lia|]. destruct (Hw b Hb Hlb (k - b)) as [y Hy]; [lia|].
    destruct (Hin _ _ _ Hx Hy) as [E' _]; [lia|]. replace (k - b + a) with (a + (k - b)) by lia. rewrite Hx, <- E'.
    do 2 f_equal. lia.
  - apply Hout; lia.
Qed.

(** ** Heaps

    A heap of [n] elements, from index [lo] on: a parent is at least as large
    as its children, but for the [hole], whose parent is at least as large as
    the children of the hole. *)

Definition child (p c : Z) : Prop := c = 2 * p + 1 \/ c = 2 * p + 2.

Section heaps.
Context {A : Type} (le : A -> A -> Prop).
Context (le_total : forall x y, le x y \/ le y x) (le_trans : forall x y z, le x y -> le y z -> le x z).

Definition heap (lo n : Z) (f : Z -> A) : Prop :=
  forall p c, lo <= p -> child p c -> c < n -> le (f c) (f p).
Definition heap_but (lo n hole : Z) (f : Z -> A) : Prop :=
  (forall p c, lo <= p -> child p c -> c < n -> p <> hole -> le (f c) (f p)) /\
  (forall q c, lo <= q -> child q hole -> child hole c -> c < n -> le (f c) (f q)).

Definition exchanged (i j : Z) (f g : Z -> A) (n : Z) : Prop :=
  g i = f j /\ g j = f i /\ forall k, 0 <= k < n -> k <> i -> k <> j -> g k = f k.

Lemma exchanged_below i j f g n n' : n <= n' -> exchanged i j f g n' -> exchanged i j f g n.
Proof using. intros Hn (? & ? & H). split_and!; [done..|]. intros. apply H; lia. Qed.

(** The last element of the heap put at the root. *)
Lemma heap_but_swapped k f g n : 0 <= k < n -> heap 0 (k + 1) f -> exchanged 0 k f g n -> heap_but 0 k 0 g.
Proof using.
  intros Hk H (_ & _ & E). split.
  - intros p c Hp Hc Hck Hne. rewrite !E by (unfold child in *; lia). apply H; [done|done|lia].
  - unfold child. lia.
Qed.

Lemma le_refl x : le x x.
Proof using le_total. by destruct (le_total x x). Qed.

(** The root of a heap is its largest element. *)
Lemma heap_root n f : heap 0 n f -> forall k, 0 <= k < n -> le (f k) (f 0).
Proof using le_total le_trans.
  intros H k Hk. assert (0 <= k) as Hk0 by lia. revert Hk. pattern k. apply Z_lt_induction; [|done].
  clear k Hk0. intros k IH Hk. destruct (decide (k = 0)) as [->|]; [apply le_refl|].
  apply le_trans with (f ((k - 1) / 2)).
  - apply H; [arith| |lia]. unfold child. arith.
  - apply IH; arith.
Qed.

(** The heap grows by one element below, with the hole there. *)
Lemma heap_but_below lo n f : heap (lo + 1) n f -> 0 <= lo -> heap_but lo n lo f.
Proof using.
  intros H Hlo. split.
  - intros p c Hp Hc Hn Hne. apply H; auto. lia.
  - unfold child. lia.
Qed.

(** The hole is filled when no child is larger. *)
Lemma heap_but_done lo n r f :
  heap_but lo n r f -> (forall c, child r c -> c < n -> le (f c) (f r)) -> heap lo n f.
Proof using. intros [H _] Hr p c Hp Hc Hn. destruct (decide (p = r)) as [->|]; auto. Qed.

(** Exchanged with its largest child, the hole moves down. *)
Lemma heap_but_sift lo n r c f g :
  0 <= lo <= r -> child r c -> c < n -> heap_but lo n r f -> exchanged r c f g n ->
  (forall c', child r c' -> c' < n -> le (f c') (f c)) -> le (f r) (f c) ->
  heap_but lo n c g.
Proof using le_total.
  intros Hr Hc Hn [H1 H2] (E1 & E2 & E3) Hmax Hle. split.
  - intros p c' Hp Hc' Hn' Hne. destruct (decide (p = r)) as [->|].
    { rewrite E1. destruct (decide (c' = c)) as [->|]; [by rewrite E2|].
      rewrite E3 by (unfold child in *; lia). by apply Hmax. }
    rewrite (E3 p) by (unfold child in *; lia).
    destruct (decide (c' = r)) as [->|].
    { rewrite E1. by apply H2. }
    rewrite E3 by (unfold child in *; lia). by apply H1.
  - intros q c' Hq Hqc Hc' Hn'. replace q with r by (unfold child in *; lia).
    rewrite E1, E3 by (unfold child in *; lia). apply H1; unfold child in *; lia.
Qed.

(** An exchange permutes the elements. *)
Lemma exchanged_Permutation i j f g n : 0 <= i < n -> 0 <= j < n -> exchanged i j f g n ->
  g <$> seqZ 0 n ≡ₚ f <$> seqZ 0 n.
Proof using.
  intros Hi Hj (E1 & E2 & E3).
  set (t k := if decide (k = i) then j else if decide (k = j) then i else k).
  assert (t <$> seqZ 0 n ≡ₚ seqZ 0 n) as Ht.
  { apply NoDup_Permutation; [|apply NoDup_seqZ|].
    - apply (NoDup_fmap_2_strong t); [|apply NoDup_seqZ]. subst t. intros x y _ _. cbn. repeat case_decide; lia.
    - intros k. rewrite list_elem_of_fmap, elem_of_seqZ. subst t. split.
      + intros (y & -> & Hy%elem_of_seqZ). cbn. repeat case_decide; lia.
      + intros Hk. exists (if decide (k = i) then j else if decide (k = j) then i else k).
        rewrite elem_of_seqZ. cbn. repeat case_decide; lia. }
  transitivity (f <$> (t <$> seqZ 0 n)); [|by apply Permutation_map].
  rewrite <- list_fmap_compose.
  apply reflexive_eq, list_fmap_ext. intros m k Hk%list_elem_of_lookup_2%elem_of_seqZ. cbn. subst t. cbn.
  repeat case_decide; subst; auto.
Qed.
End heaps.

(** ** The offsets

    Twice an offset can pass the largest int; the comparison as size_t is still
    the one meant. *)
Lemma offset_test R size N : 0 <= R -> 0 < size -> R + size < 2 ^ 31 -> 0 <= N < 2 ^ 31 ->
  (u64 (s32 (R * 2) + size) <? u64 N) = (R * 2 + size <? N).
Proof.
  intros HR Hs HRs HN. rewrite (wrap_small 64 N) by lia. destruct (Z.ltb_spec (R * 2 + size) N).
  - rewrite sext_small by lia. rewrite wrap_small by lia. by apply Z.ltb_lt.
  - apply Z.ltb_ge. unfold sext, wrap. arith.
Qed.

Lemma offset_child R size N : 0 <= R -> 0 < size -> 0 <= N < 2 ^ 31 -> R * 2 + size < N ->
  s32 (u64 (s32 (R * 2) + size)) = R * 2 + size.
Proof. intros. rewrite (sext_small 32 (R * 2)), wrap_small, sext_small by lia. done. Qed.

Lemma mul_size_lt size a b : 0 < size -> a * size < b * size <-> a < b.
Proof. intros. by rewrite <- Z.mul_lt_mono_pos_r. Qed.
Lemma mul_size_le size a b : 0 < size -> a * size <= b * size <-> a <= b.
Proof. intros. by rewrite <- Z.mul_le_mono_pos_r. Qed.

Section correctness.
Context (cmp : list Z -> Z -> Z -> Z) (swap : list Z -> Z -> Z -> Z -> option (list Z)).
Context (base num size : Z) {Hcmp : Comparison size cmp} {Hswap : SwapLaw size swap}.
Context (base_nonneg : 0 <= base) (size_pos : 0 < size) (num_nonneg : 0 <= num) (size_int : size < 2 ^ 31) (fits : num * size < 2 ^ 31).

Definition el (m : list Z) (k : Z) : list Z := window m (base + k * size) size.
Definition le (x y : list Z) : Prop := 0 <= order y x.

(** The array lies in the memory. *)
Definition holds (m : list Z) : Prop := bytes m /\ base + num * size <= Z.of_nat (length m).
(** The first [n] elements are permuted and nothing else changes. *)
Definition permutes (n : Z) (m m' : list Z) : Prop :=
  length m' = length m /\ el m' <$> seqZ 0 n ≡ₚ el m <$> seqZ 0 n /\
  (forall j, 0 <= j -> j < base \/ base + n * size <= j -> m' !! Z.to_nat j = m !! Z.to_nat j).

Lemma le_total x y : le x y \/ le y x.
Proof using. unfold le. destruct (order_total x y); auto. Qed.
Lemma le_trans x y z : le x y -> le y z -> le x z.
Proof using. unfold le. intros. by apply order_trans with y. Qed.

Lemma lt_le x y : order x y < 0 -> le x y.
Proof using. intros ?. destruct (le_total x y) as [?|Hyx]; [done|]. unfold le in Hyx. lia. Qed.

Lemma el_range k : 0 <= k < num -> 0 <= k * size /\ k * size + size <= num * size.
Proof using size_pos. intros. split; [nia|]. replace (k * size + size) with ((k + 1) * size) by lia. apply mul_size_le; lia. Qed.

Lemma permutes_refl n m : permutes n m m.
Proof using. done. Qed.
Lemma permutes_trans n m1 m2 m3 : permutes n m1 m2 -> permutes n m2 m3 -> permutes n m1 m3.
Proof using.
  intros (L1 & P1 & F1) (L2 & P2 & F2). split; [congruence|]. split; [by rewrite P2|].
  intros j Hj Ho. rewrite F2, F1 by done. done.
Qed.

(** Elements outside the permuted ones stay. *)
Lemma permutes_el n m m' k : 0 <= n <= k -> permutes n m m' -> el m' k = el m k.
Proof using base_nonneg size_pos.
  intros Hk (_ & _ & F). assert (n * size <= k * size) by (apply mul_size_le; lia).
  apply window_ext; [nia|nia|lia|]. intros i Hi. apply F; [nia|]. lia.
Qed.

Lemma permutes_more n n' m m' : 0 <= n <= n' -> permutes n m m' -> permutes n' m m'.
Proof using base_nonneg size_pos.
  intros Hn H. pose proof H as (L & P & F). split; [done|]. split.
  - replace n' with (n + (n' - n)) by lia. rewrite seqZ_app, !fmap_app by lia. rewrite P. f_equiv.
    apply reflexive_eq, list_fmap_ext. intros i k Hk%list_elem_of_lookup_2%elem_of_seqZ.
    apply permutes_el with n; [lia|done].
  - intros j Hj Ho. apply F; [done|]. assert (n * size <= n' * size) by (apply mul_size_le; lia). lia.
Qed.

(** One of the permuted elements was among them before. *)
Lemma permutes_among n m m' k : 0 <= k < n -> permutes n m m' -> exists k', 0 <= k' < n /\ el m' k = el m k'.
Proof using.
  intros Hk (_ & P & _). assert (el m' k ∈ el m' <$> seqZ 0 n) as Hin.
  { apply list_elem_of_fmap. exists k. split; [done|]. apply elem_of_seqZ. lia. }
  rewrite P in Hin. apply list_elem_of_fmap in Hin as (k' & E & Hk'%elem_of_seqZ). exists k'. split; [lia|done].
Qed.

Lemma swap_step m i j n : holds m -> 0 <= i < n -> 0 <= j < n -> n <= num ->
  exists m', swap m (base + i * size) (base + j * size) (s32 size) = Some m' /\ holds m' /\ permutes n m m' /\
    exchanged i j (el m) (el m') num.
Proof using All.
  intros [Hb Hl] Hi Hj Hn.
  pose proof (el_range i ltac:(lia)). pose proof (el_range j ltac:(lia)).
  assert (i < j -> i * size + size <= j * size) as Hij.
  { intros. replace (i * size + size) with ((i + 1) * size) by lia. apply mul_size_le; lia. }
  assert (j < i -> j * size + size <= i * size) as Hji.
  { intros. replace (j * size + size) with ((j + 1) * size) by lia. apply mul_size_le; lia. }
  rewrite sext_small by lia.
  destruct (swap_law m (base + i * size) (base + j * size)) as (m' & E & S); try lia; try done.
  { destruct (Z.lt_trichotomy i j) as [|[->|]]; lia. }
  exists m'. split; [done|].
  assert (bytes m') as Hb' by (eapply swapped_bytes; [| |exact S|exact Hb]; lia).
  destruct S as [L S].
  assert (forall a b, 0 <= a < num -> 0 <= b < num ->
    (forall x, 0 <= x < size -> cross (base + i * size) (base + j * size) size (base + a * size + x) = base + b * size + x) ->
    el m' a = el m b) as Hel.
  { intros a b Ha Hb2 Hx. pose proof (el_range a Ha). pose proof (el_range b Hb2).
    apply window_ext; [lia..|]. intros x Hx'. by rewrite S, Hx by lia. }
  assert (exchanged i j (el m) (el m') num) as X.
  { split_and!.
    - apply Hel; [lia..|]. intros x Hx. unfold cross. repeat case_test; lia.
    - apply Hel; [lia..|]. intros x Hx. unfold cross. destruct (Z.lt_trichotomy i j) as [|[->|]]; repeat case_test; lia.
    - intros k Hk ? ?. apply Hel; [done..|]. intros x Hx. unfold cross.
      assert (k * size + size <= i * size \/ i * size + size <= k * size) by nia.
      assert (k * size + size <= j * size \/ j * size + size <= k * size) by nia.
      repeat case_test; lia. }
  split; [by split; [|lia]|]. split; [|done]. split; [done|]. split.
  - eapply exchanged_Permutation; [exact Hi|exact Hj|]. by apply exchanged_below with num.
  - intros k Hk Ho. rewrite S by done. f_equal. assert (n * size <= num * size) by (apply mul_size_le; lia).
    assert (i * size + size <= n * size) by nia. assert (j * size + size <= n * size) by nia.
    unfold cross. repeat case_test; lia.
Qed.

Lemma compare_el m i j : holds m -> 0 <= i < num -> 0 <= j < num ->
  cmp m (base + i * size) (base + j * size) = order (el m i) (el m j).
Proof using base_nonneg size_pos.
  intros [_ Hl] Hi Hj. pose proof (el_range i Hi). pose proof (el_range j Hj). apply order_cmp; lia.
Qed.

(** The sift-down loop fills the hole, whatever the fuel above the number of
    elements below it. *)
Lemma sift_down_ok fuel : forall m n r lo,
  holds m -> 0 <= lo <= r -> r < num -> 0 <= n <= num -> Z.max 0 (n - r) < Z.of_nat fuel ->
  heap_but le lo n r (el m) ->
  exists m', sift_down cmp swap base size fuel m (n * size) (r * size) = Some m' /\
    holds m' /\ permutes n m m' /\ heap le lo n (el m').
Proof using All.
  induction fuel as [|fuel IH]; intros m n r lo Hm Hlo Hr Hn Hf Hh; [lia|].
  cbn [sift_down]. pose proof (el_range r ltac:(lia)).
  assert (0 <= n * size < 2 ^ 31) as HN.
  { assert (n * size <= num * size) by (apply mul_size_le; lia). nia. }
  rewrite offset_test by lia. destruct (Z.ltb_spec (r * size * 2 + size) (n * size)) as [Hc|Hc].
  - rewrite (offset_child _ _ (n * size)) by lia.
    replace (r * size * 2 + size) with ((2 * r + 1) * size) in * by lia. apply mul_size_lt in Hc; [|done].
    set (c := if 2 * r + 2 <? n then if order (el m (2 * r + 1)) (el m (2 * r + 2)) <? 0 then 2 * r + 2 else 2 * r + 1 else 2 * r + 1).
    assert ((if (u64 ((2 * r + 1) * size) <? u64 (n * size - size)) &&
         (cmp m (base + (2 * r + 1) * size) (base + (2 * r + 1) * size + size) <? 0)
       then s32 (u64 ((2 * r + 1) * size + size)) else (2 * r + 1) * size) = c * size) as ->.
    { pose proof (el_range (2 * r + 1) ltac:(lia)). pose proof (el_range (n - 1) ltac:(lia)).
      replace (n * size - size) with ((n - 1) * size) by lia.
      replace (base + (2 * r + 1) * size + size) with (base + (2 * r + 2) * size) by lia.
      replace ((2 * r + 1) * size + size) with ((2 * r + 2) * size) in * by lia.
      subst c. rewrite (wrap_small 64 ((2 * r + 1) * size)), (wrap_small 64 ((n - 1) * size)), (wrap_small 64 ((2 * r + 2) * size)) by lia.
      destruct (Z.ltb_spec ((2 * r + 1) * size) ((n - 1) * size)) as [Hl|Hl].
      - apply mul_size_lt in Hl; [|done]. rewrite compare_el by (try done; lia).
        destruct (Z.ltb_spec (2 * r + 2) n); [|lia]. cbn. case_test; [|done]. apply sext_small; lia.
      - apply mul_size_le in Hl; [|done]. destruct (Z.ltb_spec (2 * r + 2) n); [lia|done]. }
    assert (child r c /\ c < n /\ forall c', child r c' -> c' < n -> le (el m c') (el m c)) as (Hrc & Hcn & Hmax).
    { unfold child. subst c. case_test; [case_test|]; (split_and!; [lia|lia|]); intros c' [->| ->] ?;
        try apply (le_refl _ le_total); try done; try lia; by apply lt_le. }
    clearbody c. assert (r < c) by (unfold child in Hrc; lia). rewrite compare_el by (try done; lia). case_test.
    + exists m. split_and!; [done..|]. apply heap_but_done with r; [done|]. intros c' Hc' Hn'.
      apply le_trans with (el m c); [by apply Hmax|done].
    + destruct (swap_step m r c n) as (m1 & -> & Hm1 & P1 & X); [done|unfold child in *; lia..|]. cbn [mbind option_bind].
      destruct (IH m1 n c lo) as (m2 & E2 & Hm2 & P2 & H2); [done|unfold child in *; lia..| |].
      * eapply (heap_but_sift _ le_total) with (r := r); try eassumption; [apply exchanged_below with num; [lia|done]|by apply lt_le].
      * exists m2. split_and!; [done..| |done]. by apply permutes_trans with m1.
  - exists m. split; [done|]. split; [done|]. split; [apply permutes_refl|].
    apply heap_but_done with r; [done|]. intros c Hch Hcn. exfalso.
    assert (n <= 2 * r + 1) by (apply (mul_size_le size); lia). unfold child in Hch. lia.
Qed.

Lemma offset_down k : 0 <= k < num -> s32 (u64 (k * size - size)) = (k - 1) * size.
Proof using size_pos size_int fits.
  intros Hk. pose proof (el_range k Hk). replace ((k - 1) * size) with (k * size - size) by lia. generalize dependent (k * size).
  intros i Hi. destruct (decide (size <= i)).
  - rewrite wrap_small, sext_small by lia. done.
  - replace (u64 (i - size)) with (i - size + 2 ^ 64) by (unfold wrap; arith).
    unfold sext. arith.
Qed.

Lemma offset_sign k : -1 <= k -> 0 <= k * size <-> 0 <= k.
Proof using size_pos. nia. Qed.

Lemma offset_fuel k : 0 <= k -> k <= k * size.
Proof using size_pos. nia. Qed.

Lemma heapify_ok fuel : forall m k,
  holds m -> -1 <= k < num -> k + 1 < Z.of_nat fuel -> heap le (k + 1) num (el m) ->
  exists m', heapify cmp swap base size fuel m (num * size) (k * size) = Some m' /\
    holds m' /\ permutes num m m' /\ heap le 0 num (el m').
Proof using All.
  induction fuel as [|fuel IH]; intros m k Hm Hk Hf Hh; [lia|]. cbn [heapify].
  destruct (Z.leb_spec 0 (k * size)) as [H|H].
  - rewrite offset_sign in H by lia. pose proof (offset_fuel num ltac:(lia)) as Fn. pose proof (offset_fuel k ltac:(lia)) as Fk.
    destruct (sift_down_ok (S (Z.to_nat (num * size))) m num k k) as (m1 & -> & Hm1 & P1 & H1); try done; try lia.
    { apply heap_but_below; [done|lia]. }
    cbn [mbind option_bind]. rewrite offset_down by lia.
    destruct (IH m1 (k - 1)) as (m2 & E2 & Hm2 & P2 & H2); try done; try lia.
    { by replace (k - 1 + 1) with k by lia. }
    exists m2. split_and!; [done..| |done]. by apply permutes_trans with m1.
  - exists m. replace k with (-1) in Hh by nia. split_and!; done.
Qed.

Definition sorted_from (k : Z) (f : Z -> list Z) : Prop := forall i j, k <= j < num -> 0 <= i <= j -> le (f i) (f j).

Lemma sort_loop_ok fuel : forall m k,
  holds m -> -1 <= k < num -> k + 1 < Z.of_nat fuel -> heap le 0 (k + 1) (el m) -> sorted_from (k + 1) (el m) ->
  exists m', sort_loop cmp swap base size fuel m (k * size) = Some m' /\
    holds m' /\ permutes num m m' /\ sorted_from 0 (el m').
Proof using All.
  induction fuel as [|fuel IH]; intros m k Hm Hk Hf Hh Hs; [lia|]. cbn [sort_loop].
  destruct (Z.leb_spec 0 (k * size)) as [H|H].
  - rewrite offset_sign in H by lia. pose proof (offset_fuel num ltac:(lia)) as Fn. pose proof (offset_fuel k ltac:(lia)) as Fk.
    destruct (swap_step m 0 k (k + 1)) as (m1 & E1 & Hm1 & P1 & X1); [done|lia..|].
    rewrite Z.mul_0_l, Z.add_0_r in E1. rewrite E1. cbn [mbind option_bind].
    destruct (sift_down_ok (S (Z.to_nat (k * size))) m1 k 0 0) as (m2 & E2 & Hm2 & P2 & H2); try done; try lia.
    { apply heap_but_swapped with (el m) num; [lia|done|done]. }
    rewrite Z.mul_0_l in E2. rewrite E2. cbn [mbind option_bind]. rewrite offset_down by lia.
    assert (permutes (k + 1) m m2) as P by (apply permutes_trans with m1; [done|]; apply permutes_more with k; [lia|done]).
    destruct (IH m2 (k - 1)) as (m3 & E3 & Hm3 & P3 & S3); try done; try lia.
    { by replace (k - 1 + 1) with k by lia. }
    { replace (k - 1 + 1) with k by lia. intros i j Hj Hi.
      assert (forall i, 0 <= i <= k -> exists i', 0 <= i' < k + 1 /\ el m2 i = el m i') as Hin by (intros; apply permutes_among; [lia|done]).
      assert (forall j, k < j -> el m2 j = el m j) as Hout by (intros; apply permutes_el with (k + 1); [lia|done]).
      destruct (decide (j = k)) as [->|].
      - rewrite (permutes_el k m1 m2 k) by (done || lia). destruct X1 as (_ & -> & _).
        destruct (Hin i) as (i' & Hi' & ->); [lia|]. apply (heap_root _ le_total le_trans (k + 1)); [done|lia].
      - rewrite (Hout j) by lia. destruct (decide (i <= k)).
        + destruct (Hin i) as (i' & Hi' & ->); [lia|]. apply Hs; lia.
        + rewrite (Hout i) by lia. apply Hs; lia. }
    exists m3. split_and!; [done..| |done]. apply permutes_trans with m2; [|done]. apply permutes_more with (k + 1); [lia|done].
  - exists m. replace k with (-1) in Hs by nia. split_and!; done.
Qed.

Lemma sorted_list n f : sorted_from 0 f -> 0 <= n <= num -> StronglySorted le (f <$> seqZ 0 n).
Proof using.
  intros Hs Hn. assert (0 <= n) as Hn0 by lia. revert Hn. pattern n. apply natlike_ind; [intros _; constructor| |exact Hn0].
  clear n Hn0. intros n Hn0 IH Hn. rewrite <- Z.add_1_r, seqZ_app, fmap_app by lia. apply StronglySorted_app_2.
  - intros x y (i & -> & Hi%elem_of_seqZ)%list_elem_of_fmap (j & -> & Hj%elem_of_seqZ)%list_elem_of_fmap. apply Hs; lia.
  - apply IH. lia.
  - repeat constructor.
Qed.

Lemma sort_with_ok m : holds m ->
  exists m', sort_with cmp swap base size m num = Some m' /\ holds m' /\ permutes num m m' /\
    StronglySorted le (el m' <$> seqZ 0 num).
Proof using All.
  intros Hm. unfold sort_with.
  assert (forall k, -1 <= k < num -> s32 (u64 (k * size)) = k * size) as Hoff.
  { intros k Hk. destruct (decide (k = -1)) as [->|].
    - unfold sext, wrap. arith.
    - pose proof (el_range k ltac:(lia)). rewrite wrap_small, sext_small by lia. done. }
  assert (0 <= num * size) by nia.
  rewrite (Hoff (num / 2 - 1)) by arith. rewrite (wrap_small 64 (num * size)), (sext_small 32 (num * size)) by lia.
  destruct (heapify_ok (S (Z.to_nat num)) m (num / 2 - 1)) as (m1 & -> & Hm1 & P1 & H1); [done|arith|arith| |].
  { intros p c Hp Hc Hcn. unfold child in Hc. arith. }
  cbn [mbind option_bind]. replace (num * size - size) with ((num - 1) * size) by lia. rewrite Hoff by lia.
  destruct (sort_loop_ok (S (Z.to_nat num)) m1 (num - 1)) as (m2 & -> & Hm2 & P2 & S2); [done|lia|lia| | |].
  { by replace (num - 1 + 1) with num by lia. }
  { intros i j Hj. lia. }
  exists m2. split_and!; [done..| |]; [by apply permutes_trans with m1|]. apply sorted_list; [done|lia].
Qed.
End correctness.

(** C19: sort always returns, with nothing accessed outside the array: the
    elements of the array are permuted into an order that the comparison
    accepts, and no other byte of the memory changes. It holds for any element
    size and count with a byte count that fits an int, for any comparison that
    is that of a total preorder on the elements, for both built-in swap
    routines and any caller's routine that exchanges two elements. *)
Theorem sort_correct m base num size cmp swap :
  forall (Hcmp : Comparison size cmp) (Hswap : forall f, swap = Some f -> SwapLaw size f),
  0 <= base -> 0 < size < 2 ^ 31 -> 0 <= num -> num * size < 2 ^ 31 ->
  holds base num size m ->
  exists m', sort m base num size cmp swap = Some m' /\ permutes base size num m m' /\
    StronglySorted (le cmp size) (el base size m' <$> seqZ 0 num).
Proof.
  intros Hcmp Hswap ? ? ? ? Hm. unfold sort.
  set (f := match swap with Some _ => _ | None => _ end).
  assert (SwapLaw size f) as Hf.
  { subst f. destruct swap as [f|]; [by apply Hswap|]. destruct (Z.eqb_spec size 4) as [->|]; [exact _|].
    by apply generic_swap_law. }
  destruct (sort_with_ok cmp f base num size) with (m := m) as (m' & E & _ & P & S); try done; try lia. eauto.
Qed.

(** Bytes in increasing order. *)
Definition byte_cmp (m : list Z) (a b : Z) : Z := default 0 (read_at m a) - default 0 (read_at m b).

#[export, refine] Instance byte_comparison : Comparison 1 byte_cmp :=
  {| order x y := default 0 (head x) - default 0 (head y) |}.
Proof.
  - intros m a b Ha Hb Hla Hlb. unfold byte_cmp.
    assert (forall p, 0 <= p -> p + 1 <= Z.of_nat (length m) -> default 0 (read_at m p) = default 0 (head (window m p 1))) as E.
    { intros p Hp Hl. rewrite read_at_lookup by done. rewrite <- (Z.add_0_r p) at 1. rewrite <- (lookup_window m p 1 0) by lia.
      by destruct (window m p 1). }
    by rewrite !E by lia.
  - intros. lia.
  - intros. lia.
Defined.

Lemma sort_correct_witness :
  let m := [9; 3; 1; 2; 8; 1; 7; 200; 0] in
  sort m 1 7 1 byte_cmp None = Some [9; 1; 1; 2; 3; 7; 8; 200; 0] /\
  exists m', sort m 1 7 1 byte_cmp None = Some m' /\ permutes 1 1 7 m m' /\
    StronglySorted (le byte_cmp 1) (el 1 1 m' <$> seqZ 0 7).
Proof.
  cbv zeta. split; [vm_compute; reflexivity|].
  apply (sort_correct [9; 3; 1; 2; 8; 1; 7; 200; 0] 1 7 1 byte_cmp None byte_comparison); try lia; try done.
  split; [|cbn; lia]. unfold bytes. repeat (constructor; [lia|]). constructor.
Defined.
