(* ===== verification/Task.v ===== *)
(** Tasks that sleep and are woken: [vmware/linux_task.c], [linux_task.h], and
    signals: [vmware/linux_signal.c].

    A task sleeps on the event LTE_RESUME, a bit that stays set until the task
    takes it; the task's [state] is written by the task alone. What the code
    does under [taskLock] is one step; [asleep] is the state of the world in the
    VMkernel, which vmk_WorldWaitIRQ sets when it releases the lock and
    vmk_WorldWakeup clears. *)

From S2P Require Import Prelude.
Local Open Scope Z_scope.

Definition TASK_RUNNING : Z := 0.
Definition TASK_INTERRUPTIBLE : Z := 1.
Definition TASK_UNINTERRUPTIBLE : Z := 2.
Definition LTE_RESUME : Z := 1.
Definition LT_TASK_SUSPENDED : Z := 4.
Definition LINUX_SIG_MAX : Z := 32.

(** The parts of LinuxTaskExt and its task_struct that decide about sleeping:
    [pending] and [blocked] are the only words of the two signal sets. *)
Record task_struct := Task {
  state : Z;
  events : Z;
  flags : Z;
  pending : Z;
  blocked : Z;
  asleep : bool;
}.

Definition set_state (s : Z) (t : task_struct) : task_struct :=
  Task s (events t) (flags t) (pending t) (blocked t) (asleep t).
Definition set_events (e : Z) (t : task_struct) : task_struct :=
  Task (state t) e (flags t) (pending t) (blocked t) (asleep t).
Definition set_flags (f : Z) (t : task_struct) : task_struct :=
  Task (state t) (events t) f (pending t) (blocked t) (asleep t).
Definition set_signals (p b : Z) (t : task_struct) : task_struct :=
  Task (state t) (events t) (flags t) p b (asleep t).
Definition set_asleep (b : bool) (t : task_struct) : task_struct :=
  Task (state t) (events t) (flags t) (pending t) (blocked t) b.

(** ** Waking *)

Definition LinuxTask_SendEvent (eventID : Z) (t : task_struct) : task_struct :=
  set_asleep false (set_events (Z.lor (events t) eventID) t).
Definition LinuxTask_Resume : task_struct -> task_struct := LinuxTask_SendEvent LTE_RESUME.
Definition wake_up_process : task_struct -> task_struct := LinuxTask_Resume.

(** ** Sleeping *)

(** The test of the loop of LinuxTask_WaitEvent: the task goes to sleep, or
    takes the event and is through. *)
Definition WaitEvent_test (eventID : Z) (t : task_struct) : task_struct * bool :=
  if Z.land (events t) eventID =? 0 then
    (set_asleep true (set_flags (Z.lor (flags t) LT_TASK_SUSPENDED) t), false)
  else (set_state TASK_RUNNING (set_events (Z.land (events t) (Z.lnot eventID)) t), true).

(** After vmk_WorldWaitIRQ. *)
Definition WaitEvent_resumed (eventID : Z) (t : task_struct) : task_struct * bool :=
  WaitEvent_test eventID (set_flags (Z.land (flags t) (Z.lnot LT_TASK_SUSPENDED)) t).

(** ** Signals *)

(** The result is an int. *)
Definition LinuxSignalPendingInt (t : task_struct) : Z := s32 (Z.land (pending t) (Z.lnot (blocked t))).
Definition signal_pending (t : task_struct) : bool := negb (LinuxSignalPendingInt t =? 0).
Definition flush_signals (t : task_struct) : task_struct := set_signals 0 (blocked t) t.
Definition siginitsetinv (mask : Z) (t : task_struct) : task_struct :=
  set_signals (pending t) (u64 (Z.lnot mask)) t.
(** The part of LinuxSignalSendByTask under the lock, with the value of [p]. *)
Definition signal_post (sig : Z) (t : task_struct) : task_struct * Z :=
  let t := set_signals (Z.lor (pending t) (u64 (Z.shiftl 1 (sig - 1)))) (blocked t) t in
  (t, LinuxSignalPendingInt t).

(** ** schedule

    The points where it gives up the processor or takes [taskLock]. *)
Inductive sched_pc :=
| Enter                    (* before signal_pending *)
| Suspend                  (* before LinuxTask_WaitEvent *)
| Suspended.               (* in vmk_WorldWaitIRQ *)

#[global] Instance sched_pc_eq_dec : EqDecision sched_pc.
Proof. solve_decision. Defined.

(** The next step of a task in schedule: nothing when it sleeps; the right
    component is where it is afterwards, [None] when schedule has returned. The
    state is read by its own task and only written by it, so that the tests of
    it belong to the step of signal_pending. *)
Definition schedule (p : sched_pc) (t : task_struct) : option (task_struct * option sched_pc) :=
  match p with
  | Enter =>
      if signal_pending t && ((state t =? TASK_INTERRUPTIBLE) || (state t =? TASK_RUNNING)) then Some (t, None)
      else if state t =? TASK_RUNNING then Some (t, None)              (* yield *)
      else Some (t, Some Suspend)
  | Suspend =>
      let r := WaitEvent_test LTE_RESUME t in Some (r.1, if r.2 then None else Some Suspended)
  | Suspended =>
      if asleep t then None
      else let r := WaitEvent_resumed LTE_RESUME t in Some (r.1, if r.2 then None else Some Suspended)
  end.

(** A task that runs and one that sleeps until it is woken. *)
Definition running_task : task_struct := Task TASK_RUNNING 0 0 0 0 false.
Definition sleeping_task : task_struct := Task TASK_UNINTERRUPTIBLE 0 LT_TASK_SUSPENDED 0 0 true.

(** The event is there, or the task sleeps until somebody sends it. *)
Definition resumed (t : task_struct) : bool := negb (Z.land (events t) LTE_RESUME =? 0).

Lemma SendEvent_fields e t :
  state (LinuxTask_SendEvent e t) = state t /\ flags (LinuxTask_SendEvent e t) = flags t /\
  pending (LinuxTask_SendEvent e t) = pending t /\ blocked (LinuxTask_SendEvent e t) = blocked t /\
  asleep (LinuxTask_SendEvent e t) = false.
Proof. done. Qed.

Lemma resume_resumed t : resumed (LinuxTask_Resume t) = true.
Proof.
  unfold resumed. cbn. apply negb_true_iff, Z.eqb_neq. intros E.
  assert (Z.testbit (Z.land (Z.lor (events t) LTE_RESUME) LTE_RESUME) 0 = false) as H by (rewrite E; apply Z.bits_0).
  rewrite Z.land_spec, Z.lor_spec in H. change (Z.testbit LTE_RESUME 0) with true in H.
  by rewrite orb_true_r in H.
Qed.

(** A task in the queue's sleep that has been sent the event gets through the
    suspension at its next step. *)
Lemma suspend_cases p t : p <> Enter ->
  schedule p t = None /\ p = Suspended /\ asleep t = true \/
  exists t', schedule p t = Some (t', if resumed t then None else Some Suspended) /\
    state t' = (if resumed t then TASK_RUNNING else state t) /\
    asleep t' = (if resumed t then asleep t else true) /\ resumed t' = false /\
    pending t' = pending t /\ blocked t' = blocked t.
Proof.
  intros Hp.
  assert (forall t, exists t', WaitEvent_test LTE_RESUME t = (t', resumed t) /\
    state t' = (if resumed t then TASK_RUNNING else state t) /\
    asleep t' = (if resumed t then asleep t else true) /\ resumed t' = false /\
    pending t' = pending t /\ blocked t' = blocked t) as H.
  { intros u. unfold WaitEvent_test, resumed. destruct (Z.eqb_spec (Z.land (events u) LTE_RESUME) 0) as [E|E]; cbn.
    - eexists. split; [reflexivity|]. cbn. rewrite E. done.
    - eexists. split; [reflexivity|]. cbn. split_and!; try done.
      apply negb_false_iff, Z.eqb_eq. rewrite <- Z.land_assoc. change (Z.land (Z.lnot LTE_RESUME) LTE_RESUME) with 0.
      apply Z.land_0_r. }
  destruct p; [done| |]; cbn [schedule].
  - right. destruct (H t) as (t' & -> & H'). eauto.
  - destruct (asleep t) eqn:Ea; [by left|]. right. unfold WaitEvent_resumed.
    destruct (H (set_flags (Z.land (flags t) (Z.lnot LT_TASK_SUSPENDED)) t)) as (t' & -> & H'). cbn in H'.
    rewrite Ea in H'. eauto.
Qed.

(** ** A task that waits for signals, and the senders

    The task sets its state to TASK_INTERRUPTIBLE and calls schedule, again and
    again; senders run LinuxSignalSendByTask, which looks at the state and at
    the flags of the task after it has released the lock. [posted] records that
    a signal that is not blocked was posted while the task was asleep, and that
    it has been asleep since. *)
Inductive sender_pc :=
| SendIdle
| SendState (p : Z)        (* before task->state is read *)
| SendFlags                (* before te->flags is read *)
| SendResume.              (* before LinuxTask_Resume *)

Record signal_state := Signals {
  sleeper : task_struct;
  sleeper_pc : option sched_pc;
  senders : list sender_pc;
  posted : bool;
}.

(** LinuxSignalSendByTask after its first section: the task is only written by
    the last step. *)
Definition LinuxSignalSendByTask (s : sender_pc) (t : task_struct) : task_struct * sender_pc :=
  match s with
  | SendIdle => (t, SendIdle)
  | SendState p => (t, if negb (p =? 0) && (state t =? TASK_INTERRUPTIBLE) then SendFlags else SendIdle)
  | SendFlags => (t, if negb (Z.land (flags t) LT_TASK_SUSPENDED =? 0) then SendResume else SendIdle)
  | SendResume => (LinuxTask_Resume t, SendIdle)
  end.

Inductive signal_step : signal_state -> signal_state -> Prop :=
| step_wait t l g :
    signal_step (Signals t None l g) (Signals (set_state TASK_INTERRUPTIBLE t) (Some Enter) l g)
| step_flush t l g :
    signal_step (Signals t None l g) (Signals (flush_signals t) None l g)
| step_schedule t p l g t' p' : schedule p t = Some (t', p') ->
    signal_step (Signals t (Some p) l g) (Signals t' p' l (g && asleep t'))
| step_post t p l g i sig : l !! i = Some SendIdle -> 0 < sig < LINUX_SIG_MAX ->
    signal_step (Signals t p l g)
      (Signals (signal_post sig t).1 p (<[i := SendState (signal_post sig t).2]> l)
        (g || (asleep t && negb ((signal_post sig t).2 =? 0))))
| step_send t p l g i s : l !! i = Some s -> s <> SendIdle ->
    signal_step (Signals t p l g)
      (Signals (LinuxSignalSendByTask s t).1 p (<[i := (LinuxSignalSendByTask s t).2]> l)
        (g && asleep (LinuxSignalSendByTask s t).1)).

Inductive signal_reachable : signal_state -> Prop :=
| signal_init blocked n :
    signal_reachable (Signals (Task TASK_RUNNING 0 0 0 blocked false) None (replicate n SendIdle) false)
| signal_next s s' : signal_reachable s -> signal_step s s' -> signal_reachable s'.

(** A sender that will still resume an interruptible, suspended task. *)
Definition will_resume (s : sender_pc) : Prop :=
  match s with
  | SendIdle => False
  | SendState p => p <> 0
  | SendFlags | SendResume => True
  end.

(** A task is asleep in its sleep only, with its state and its flag. *)
Definition signal_inv (s : signal_state) : Prop :=
  (asleep (sleeper s) = true -> sleeper_pc s = Some Suspended) /\
  (sleeper_pc s <> None -> state (sleeper s) = TASK_INTERRUPTIBLE) /\
  (asleep (sleeper s) = true -> Z.land (flags (sleeper s)) LT_TASK_SUSPENDED <> 0) /\
  (posted s = true -> asleep (sleeper s) = true /\ exists i x, senders s !! i = Some x /\ will_resume x).

Lemma suspended_flag f : Z.land (Z.lor f LT_TASK_SUSPENDED) LT_TASK_SUSPENDED <> 0.
Proof.
  intros E. assert (Z.testbit (Z.land (Z.lor f LT_TASK_SUSPENDED) LT_TASK_SUSPENDED) 2 = false) as H by (rewrite E; apply Z.bits_0).
  rewrite Z.land_spec, Z.lor_spec in H. change (Z.testbit LT_TASK_SUSPENDED 2) with true in H. by rewrite orb_true_r in H.
Qed.

Lemma test_flag e t t' b : asleep t = false -> WaitEvent_test e t = (t', b) ->
  asleep t' = true -> Z.land (flags t') LT_TASK_SUSPENDED <> 0.
Proof.
  unfold WaitEvent_test. intros Ha. case_test; intros [= <- <-]; cbn; intros; [apply suspended_flag|congruence].
Qed.

Lemma schedule_flag p t t' p' : asleep t = false -> schedule p t = Some (t', p') ->
  asleep t' = true -> Z.land (flags t') LT_TASK_SUSPENDED <> 0.
Proof.
  intros Ha Hs Ha'. destruct p; cbn [schedule] in Hs.
  - repeat case_test; simplify_eq; congruence.
  - destruct (WaitEvent_test LTE_RESUME t) as [u b] eqn:E. simplify_eq. by eapply test_flag.
  - rewrite Ha in Hs. unfold WaitEvent_resumed in Hs.
    destruct (WaitEvent_test _ _) as [u b] eqn:E in Hs. simplify_eq. eapply test_flag; [|exact E|exact Ha']. done.
Qed.

Lemma schedule_inv p t t' p' : (asleep t = true -> p = Suspended) -> state t = TASK_INTERRUPTIBLE ->
  schedule p t = Some (t', p') ->
  asleep t = false /\ (asleep t' = true -> p' = Some Suspended) /\ (p' <> None -> state t' = TASK_INTERRUPTIBLE).
Proof.
  intros Ha Hst Hs. destruct (decide (p = Enter)) as [->|Hp].
  - destruct (asleep t) eqn:E; [by specialize (Ha eq_refl)|]. cbn in Hs. rewrite Hst in Hs. cbn in Hs.
    split; [done|]. case_test; simplify_eq; split; try done; congruence.
  - destruct (suspend_cases p t Hp) as [(E & _)|(u & E & Hu & Hau & _)]; [congruence|]. rewrite E in Hs. simplify_eq.
    assert (asleep t = false) as Hf.
    { destruct (asleep t) eqn:E'; [|done]. rewrite (Ha eq_refl) in E. cbn in E. by rewrite E' in E. }
    rewrite Hau, Hu, Hf. destruct (resumed t); split_and!; try done; congruence.
Qed.

Lemma signal_reachable_inv s : signal_reachable s -> signal_inv s.
Proof.
  induction 1 as [b n|s s' _ IH Hst]; [by split_and!|].
  destruct IH as (H1 & H2 & H3 & H4). destruct Hst as [t l g|t l g|t p l g t' p' Hs|t p l g i sig Hi Hsig|t p l g i x Hi Hne];
    cbn in H1, H2, H3, H4.
  - split_and!; cbn; try done; intros E; by specialize (H1 E).
  - by split_and!.
  - assert (asleep t = true -> p = Suspended) as Hp by (intros E; specialize (H1 E); congruence).
    destruct (schedule_inv p t t' p' Hp (H2 ltac:(done)) Hs) as (Ha & Ha' & Hs').
    split_and!; cbn; try done; [by eapply schedule_flag|].
    intros [Hg Ht]%andb_prop. destruct (H4 Hg). congruence.
  - split_and!; cbn; try done. pose proof (lookup_lt_Some _ _ _ Hi). intros [Hg|[Hg Hp]%andb_prop]%orb_prop.
    + destruct (H4 Hg) as (Ha & j & x & Hj & Hx). split; [done|]. exists j, x. split; [|done].
      rewrite list_lookup_insert_ne; [done|]. intros ->. rewrite Hj in Hi. by simplify_eq.
    + split; [done|]. eexists i, _. rewrite list_lookup_insert_eq by done. split; [reflexivity|]. cbn.
      intros E. rewrite E in Hp. done.
  - pose proof (lookup_lt_Some _ _ _ Hi). destruct x as [|q| |]; [done| | |]; cbn.
    1,2: split_and!; cbn; try done; intros [Hg Ha]%andb_prop; split; [done|];
      destruct (H4 Hg) as (_ & j & y & Hj & Hy); destruct (decide (i = j)) as [->|];
        [|exists j, y; by rewrite list_lookup_insert_ne by done];
      rewrite Hj in Hi; simplify_eq; eexists j, _; rewrite list_lookup_insert_eq by done; (split; [reflexivity|]).
    + rewrite (H2 ltac:(by rewrite H1)). cbn in Hy. apply Z.eqb_neq in Hy. by rewrite Hy.
    + destruct (Z.eqb_spec (Z.land (flags t) LT_TASK_SUSPENDED) 0); [by destruct (H3 Ha)|done].
    + split_and!; cbn; try done. by rewrite andb_false_r.
Qed.

(** A signal that is not blocked, posted while the task is asleep, wakes
    it: when no sender is in the middle of LinuxSignalSendByTask, a task that
    is asleep has been sent nothing since it fell asleep. *)
Theorem signal_wakes_suspended s :
  signal_reachable s -> (forall i x, senders s !! i = Some x -> x = SendIdle) ->
  asleep (sleeper s) = true -> posted s = false.
Proof.
  intros Hr Hidle Ha. destruct (signal_reachable_inv s Hr) as (_ & _ & _ & H).
  destruct (posted s); [|done]. destruct H as (_ & i & x & Hi & Hx); [done|]. by rewrite (Hidle i x Hi) in Hx.
Qed.

(** The task after it has tested for signals, been sent signal 9 and gone to
    sleep. *)
Definition example_missed : signal_state :=
  Signals (Task TASK_INTERRUPTIBLE 0 LT_TASK_SUSPENDED (2 ^ 8) 0 true) (Some Suspended) [SendIdle] false.

Lemma example_missed_reachable : signal_reachable example_missed.
Proof.
  pose proof (signal_init 0 1) as H.
  apply signal_next with (2 := step_wait _ _ _) in H.
  eapply signal_next in H; [|eapply step_schedule; reflexivity].
  eapply signal_next in H; [|eapply (step_post _ _ _ _ 0 9); [reflexivity|done]].
  do 2 (eapply signal_next in H; [|eapply (step_send _ _ _ _ 0); [reflexivity|done]]).
  eapply signal_next in H; [exact H|eapply step_schedule; reflexivity].
Qed.

Lemma example_missed_idle i x : senders example_missed !! i = Some x -> x = SendIdle.
Proof. destruct i; cbn; intros; [congruence|done]. Qed.

(** But the test of schedule and the suspension are two sections, and a
    sender resumes a suspended task only: a signal posted between them does not
    wake the task. There are runs in which the task sleeps for ever, every
    sender has finished and the signal is pending. *)
Theorem schedule_misses_signal :
  exists s, signal_reachable s /\ (forall i x, senders s !! i = Some x -> x = SendIdle) /\
    asleep (sleeper s) = true /\ signal_pending (sleeper s) = true /\ schedule Suspended (sleeper s) = None.
Proof.
  exists example_missed. split; [apply example_missed_reachable|]. split; [apply example_missed_idle|by vm_compute].
Qed.

Lemma signal_wakes_suspended_witness : asleep (sleeper example_missed) = true /\ posted example_missed = false.
Proof.
  split; [reflexivity|].
  apply (signal_wakes_suspended example_missed example_missed_reachable example_missed_idle). reflexivity.
Defined.
