(* ===== verification/Waitq.v ===== *)
(** Wait queues: [include/linux/wait.h], [linux/kernel/wait.c] and the wake-up
    functions of [vmware/linux_waitqueue.c]; and threads that wait with
    wait_event.

    A wait queue is the list of its entries from the head on; an entry is known
    by the task it wakes, and a task has one entry in a queue at a time. What is
    done under the queue's lock is one step. *)

From S2P Require Import Prelude Task.
Local Open Scope Z_scope.

Definition WQ_FLAG_EXCLUSIVE : Z := 1.

(** The two wake functions the kernel provides. *)
Inductive wait_queue_func := default_wake | autoremove_wake.

Record wait_queue_t := Wait {
  wait_flags : Z;
  private : nat;                (* the task *)
  func : wait_queue_func;
}.

Definition exclusive (w : wait_queue_t) : bool := negb (Z.land (wait_flags w) WQ_FLAG_EXCLUSIVE =? 0).

Definition DECLARE_WAITQUEUE (t : nat) : wait_queue_t := Wait 0 t default_wake.
Definition DEFINE_WAIT (t : nat) : wait_queue_t := Wait 0 t autoremove_wake.
Definition set_exclusive (w : wait_queue_t) : wait_queue_t :=
  Wait (Z.lor (wait_flags w) WQ_FLAG_EXCLUSIVE) (private w) (func w).
Definition clear_exclusive (w : wait_queue_t) : wait_queue_t :=
  Wait (Z.land (wait_flags w) (Z.lnot WQ_FLAG_EXCLUSIVE)) (private w) (func w).

(** ** Entries *)

Definition __add_wait_queue (q : list wait_queue_t) (w : wait_queue_t) : list wait_queue_t := w :: q.
Definition __add_wait_queue_tail (q : list wait_queue_t) (w : wait_queue_t) : list wait_queue_t := q ++ [w].
Definition add_wait_queue_exclusive_locked (q : list wait_queue_t) (w : wait_queue_t) : list wait_queue_t :=
  __add_wait_queue_tail q (set_exclusive w).

Definition queued (t : nat) (q : list wait_queue_t) : bool := existsb (λ w, Nat.eqb (private w) t) q.
Definition unlink (t : nat) (q : list wait_queue_t) : list wait_queue_t := filter (λ w, private w <> t) q.

(** list_del of an entry that is in no list is a fault. *)
Definition __remove_wait_queue (t : nat) (q : list wait_queue_t) : option (list wait_queue_t) :=
  if queued t q then Some (unlink t q) else None.

(** ** Waking *)

Definition default_wake_function (w : wait_queue_t) (mode : Z) (ts : list task_struct) : Z * list task_struct :=
  match ts !! private w with
  | Some t => if Z.land (state t) mode =? 0 then (1, ts) else (1, <[private w := wake_up_process t]> ts)
  | None => (1, ts)
  end.

(** The entry's own [func]: whether the entry stays in its queue, the result
    and the tasks. *)
Definition call_func (w : wait_queue_t) (mode : Z) (ts : list task_struct) : bool * (Z * list task_struct) :=
  let r := default_wake_function w mode ts in
  match func w with
  | default_wake => (true, r)
  | autoremove_wake => (r.1 =? 0, r)
  end.

(** The entries that stay, and the tasks; [nr_exclusive] is decremented for
    exclusive entries whose function says yes. *)
Fixpoint __wake_up_common (q : list wait_queue_t) (mode nr_exclusive : Z) (ts : list task_struct) :
    list wait_queue_t * list task_struct :=
  match q with
  | [] => ([], ts)
  | curr :: next =>
      let c := call_func curr mode ts in
      let keep := if c.1 then [curr] else [] in
      if negb (c.2.1 =? 0) && exclusive curr then
        if s32 (nr_exclusive - 1) =? 0 then (keep ++ next, c.2.2)
        else let r := __wake_up_common next mode (s32 (nr_exclusive - 1)) c.2.2 in (keep ++ r.1, r.2)
      else let r := __wake_up_common next mode nr_exclusive c.2.2 in (keep ++ r.1, r.2)
  end.

Definition __wake_up_locked (q : list wait_queue_t) (mode : Z) (ts : list task_struct) := __wake_up_common q mode 1 ts.
Definition mode_all : Z := Z.lor TASK_UNINTERRUPTIBLE TASK_INTERRUPTIBLE.
Definition wake_up_locked (q : list wait_queue_t) (ts : list task_struct) := __wake_up_locked q mode_all ts.

(** __wake_up of a queue that is not polled by a character device. *)
Definition __wake_up (q : list wait_queue_t) (mode nr : Z) (ts : list task_struct) := __wake_up_common q mode nr ts.
Definition wake_up (q : list wait_queue_t) (ts : list task_struct) := __wake_up q mode_all 1 ts.
Definition wake_up_all (q : list wait_queue_t) (ts : list task_struct) := __wake_up q mode_all 0 ts.
Definition wake_up_interruptible (q : list wait_queue_t) (ts : list task_struct) := __wake_up q TASK_INTERRUPTIBLE 1 ts.

Definition wake_task (mode : Z) (t : task_struct) : task_struct :=
  if Z.land (state t) mode =? 0 then t else wake_up_process t.

(** ** Queues of exclusive waiters *)

Definition waiter (t : nat) : wait_queue_t := set_exclusive (DECLARE_WAITQUEUE t).
Definition waiters (ids : list nat) : list wait_queue_t := waiter <$> ids.

Definition wake_first (ids : list nat) (mode : Z) (ts : list task_struct) : list task_struct :=
  match ids with
  | [] => ts
  | t :: _ => alter (wake_task mode) t ts
  end.

Lemma alter_lookup {A} (f : A -> A) (l : list A) i x : l !! i = Some x -> alter f i l = <[i := f x]> l.
Proof.
  intros H. apply list_eq. intros j. destruct (decide (j = i)) as [->|].
  - rewrite list_lookup_alter_eq, list_lookup_insert_eq, H by (by eapply lookup_lt_Some). done.
  - by rewrite list_lookup_alter_ne, list_lookup_insert_ne.
Qed.

Lemma alter_none {A} (f : A -> A) (l : list A) i : l !! i = None -> alter f i l = l.
Proof.
  intros H. apply list_eq. intros j. destruct (decide (j = i)) as [->|].
  - by rewrite list_lookup_alter_eq, H.
  - by rewrite list_lookup_alter_ne.
Qed.

Lemma default_wake_alter w mode ts :
  default_wake_function w mode ts = (1, alter (wake_task mode) (private w) ts).
Proof.
  unfold default_wake_function. destruct (ts !! private w) as [t|] eqn:E; [|by rewrite alter_none].
  rewrite (alter_lookup _ _ _ _ E). unfold wake_task. destruct (Z.land (state t) mode =? 0); [|done].
  by rewrite list_insert_id.
Qed.

(** One exclusive waiter is served: the first, whatever its state. *)
Lemma wake_waiters ids mode ts :
  __wake_up_common (waiters ids) mode 1 ts = (waiters ids, wake_first ids mode ts).
Proof.
  destruct ids as [|t ids]; [done|]. unfold waiters. rewrite fmap_cons. cbn [__wake_up_common].
  unfold call_func. rewrite default_wake_alter. done.
Qed.

Lemma queued_waiters t ids : queued t (waiters ids) = true <-> t ∈ ids.
Proof.
  unfold queued. rewrite existsb_exists. unfold waiters. split.
  - intros (w & Hw%list_elem_of_In & E%Nat.eqb_eq). apply list_elem_of_fmap in Hw as (x & -> & Hx). cbn in E. by subst.
  - intros Ht. exists (waiter t). split; [|apply Nat.eqb_refl]. apply list_elem_of_In, list_elem_of_fmap. eauto.
Qed.

Definition without (t : nat) (ids : list nat) : list nat := filter (λ x, x <> t) ids.

Lemma remove_waiter t ids : t ∈ ids -> __remove_wait_queue t (waiters ids) = Some (waiters (without t ids)).
Proof.
  intros Ht%queued_waiters. unfold __remove_wait_queue. rewrite Ht. f_equal. unfold unlink, waiters, without.
  clear Ht. induction ids as [|x ids IH]; [done|]. rewrite fmap_cons, !filter_cons. cbn [waiter private set_exclusive DECLARE_WAITQUEUE].
  case_decide; [rewrite fmap_cons|]; by rewrite IH.
Qed.

Lemma add_waiter t ids : add_wait_queue_exclusive_locked (waiters ids) (DECLARE_WAITQUEUE t) = waiters (ids ++ [t]).
Proof. unfold waiters. by rewrite fmap_app. Qed.

Lemma elem_of_without t x ids : x ∈ without t ids <-> x <> t /\ x ∈ ids.
Proof. unfold without. by rewrite list_elem_of_filter. Qed.

Lemma NoDup_without t ids : NoDup ids -> NoDup (without t ids).
Proof. apply NoDup_filter. Qed.

Lemma wake_task_fields mode t :
  state (wake_task mode t) = state t /\ pending (wake_task mode t) = pending t /\ blocked (wake_task mode t) = blocked t /\
  (asleep (wake_task mode t) = true -> asleep t = true /\ wake_task mode t = t) /\
  (resumed t = true -> resumed (wake_task mode t) = true).
Proof.
  unfold wake_task. case_test; split_and!; try done. intros _. apply resume_resumed.
Qed.

Lemma wake_task_resumed mode t : Z.land (state t) mode <> 0 -> resumed (wake_task mode t) = true.
Proof. intros H. unfold wake_task. case_test; [done|]. apply resume_resumed. Qed.

(** ** Threads that wait in a queue

    What the users of a wait queue have in common: a thread outside has no
    entry in the queue; a waiting one is in schedule, in the state it has set,
    or back from it and about to take the lock. *)
Inductive position :=
| Outside
| Sched (mode : Z) (p : sched_pc)
| Back.

Section waiting.
Context {pc : Type} (view : pc -> position).
Context (view_mode : forall x mode p, view x = Sched mode p -> Z.land mode mode_all <> 0).

Definition waiting (x : pc) : Prop := view x <> Outside.

(** A thread that will run without being woken. *)
Definition awake (x : pc) (task : task_struct) : Prop :=
  match view x with
  | Outside => False
  | Sched _ _ => resumed task = true
  | Back => True
  end.

(** A task is asleep in schedule only, without the event, and in the state its
    waker looks for. *)
Definition task_ok (x : pc) (task : task_struct) : Prop :=
  (asleep task = true -> resumed task = false /\ exists mode, view x = Sched mode Suspended) /\
  (forall mode p, view x = Sched mode p -> state task = mode).

(** The queue and the threads, but for thread [except]. *)
Definition queue_ok (ids : list nat) (except : option nat) (ts : list task_struct) (l : list pc) : Prop :=
  length ts = length l /\ NoDup ids /\
  (forall t, except <> Some t -> t ∈ ids <-> exists x, l !! t = Some x /\ waiting x) /\
  (forall t x task, except <> Some t -> l !! t = Some x -> ts !! t = Some task -> task_ok x task).

Definition first_awake (ids : list nat) (ts : list task_struct) (l : list pc) : Prop :=
  match ids with
  | [] => False
  | h :: _ => exists x task, l !! h = Some x /\ ts !! h = Some task /\ awake x task
  end.

(** Waking the first waiter leaves it awake and the rest as it was. *)
Lemma wake_first_ok ids ex ts l :
  queue_ok ids ex ts l -> (forall t, ex = Some t -> t ∉ ids) ->
  queue_ok ids ex (wake_first ids mode_all ts) l /\ (ids <> [] -> first_awake ids (wake_first ids mode_all ts) l).
Proof using view_mode.
  intros (Hl & Hn & Hq & Ht) Hex. destruct ids as [|h ids]; [by split|]. cbn [wake_first].
  assert (ex <> Some h) as Hh by (intros E; apply (Hex h E); left).
  destruct (proj1 (Hq h Hh)) as (x & Hx & Hw); [left|].
  destruct (lookup_lt_is_Some_2 ts h) as [task Htask]; [rewrite Hl; by eapply lookup_lt_Some|].
  destruct (wake_task_fields mode_all task) as (Es & _ & _ & Ea & Er).
  destruct (Ht h x task Hh Hx Htask) as [Ok1 Ok2].
  assert (alter (wake_task mode_all) h ts !! h = Some (wake_task mode_all task)) as Hlook
    by (by rewrite list_lookup_alter_eq, Htask).
  split.
  - split; [by rewrite length_alter|]. split; [done|]. split; [done|].
    intros y x' task' Hy Hx' Htask'. destruct (decide (y = h)) as [->|].
    + rewrite Hlook in Htask'. simplify_eq. split.
      * intros [E1 E2]%Ea. rewrite E2. by apply Ok1.
      * intros mode p E. rewrite Es. by eapply Ok2.
    + rewrite list_lookup_alter_ne in Htask' by done. by eapply Ht.
  - intros _. exists x, (wake_task mode_all task). split_and!; [done..|]. unfold awake, waiting in *.
    destruct (view x) eqn:E; [done| |done]. apply wake_task_resumed. rewrite (Ok2 _ _ eq_refl). by eapply view_mode.
Qed.

Lemma queue_ok_task f t ids ts l : queue_ok ids (Some t) ts l -> queue_ok ids (Some t) (alter f t ts) l.
Proof using.
  intros (Hl & Hn & Hq & Ht). split; [by rewrite length_alter|]. split; [done|]. split; [done|].
  intros y x task Hy. rewrite list_lookup_alter_ne by congruence. by apply Ht.
Qed.

Lemma queue_ok_without t ids ts l : queue_ok ids (Some t) ts l -> queue_ok (without t ids) (Some t) ts l.
Proof using.
  intros (Hl & Hn & Hq & Ht). split_and!; [done|by apply NoDup_without| |done].
  intros x Hx. rewrite elem_of_without, <- Hq by done. split; [by intros []|]. split; [congruence|done].
Qed.

Lemma queue_ok_with t ids ts l : queue_ok ids (Some t) ts l -> t ∉ ids -> queue_ok (ids ++ [t]) (Some t) ts l.
Proof using.
  intros (Hl & Hn & Hq & Ht) Hnin. split_and!; [done| | |done].
  - apply NoDup_app. split; [done|]. split; [|apply NoDup_singleton].
    intros x Hx Hxt%list_elem_of_singleton. by subst.
  - intros x Hx. rewrite elem_of_app, list_elem_of_singleton, Hq by done. split; [|by left]. intros [H|H]; [done|by subst].
Qed.

Lemma queue_ok_open t ids ts l : queue_ok ids None ts l -> queue_ok ids (Some t) ts l.
Proof using. intros (Hl & Hn & Hq & Ht). split_and!; [done|done| |]; intros; [by apply Hq|by eapply Ht]. Qed.

Lemma queue_ok_close t x ids ts l :
  queue_ok ids (Some t) ts l -> (t < length l)%nat -> (t ∈ ids <-> waiting x) ->
  (forall task, ts !! t = Some task -> task_ok x task) ->
  queue_ok ids None ts (<[t := x]> l).
Proof using.
  intros (Hl & Hn & Hq & Ht) Hlt Hin Hok. split; [by rewrite length_insert|]. split; [done|]. split.
  - intros y _. destruct (decide (y = t)) as [->|Hy].
    + rewrite list_lookup_insert_eq by done. rewrite Hin. split; [eauto|]. intros (? & [= <-] & ?). done.
    + rewrite list_lookup_insert_ne by done. apply Hq. congruence.
  - intros y x' task _ Hx Htask. destruct (decide (y = t)) as [->|Hy].
    + rewrite list_lookup_insert_eq in Hx by done. simplify_eq. by apply Hok.
    + rewrite list_lookup_insert_ne in Hx by done. eapply Ht; [|done..]. congruence.
Qed.

Lemma queue_ok_move t x y ids ts l :
  l !! t = Some x -> view x = Outside -> view y = Outside -> queue_ok ids None ts l -> queue_ok ids None ts (<[t := y]> l).
Proof using.
  intros Hx Nx Ny Hq. pose proof Hq as (_ & _ & Hin & Hok). apply queue_ok_close.
  - by apply queue_ok_open.
  - by eapply lookup_lt_Some.
  - rewrite Hin by done. unfold waiting. split; [|done]. intros (z & Hz & Hw). by simplify_eq.
  - intros task Htask. destruct (Hok t x task) as [Ha _]; [done..|]. split.
    + intros (_ & mode & E)%Ha. congruence.
    + intros mode p E. congruence.
Qed.

Lemma queue_ok_alter f t ids ts l :
  (forall x task, task_ok x task -> task_ok x (f task)) ->
  queue_ok ids None ts l -> queue_ok ids None (alter f t ts) l.
Proof using.
  intros Hf (Hl & Hn & Hq & Ht). split; [by rewrite length_alter|]. split; [done|]. split; [done|].
  intros y x task _ Hx Htask. destruct (decide (y = t)) as [->|Hy].
  - rewrite list_lookup_alter_eq in Htask. destruct (ts !! t) as [u|] eqn:Hu; [|done]. injection Htask as <-.
    apply Hf. by apply (Ht t).
  - rewrite list_lookup_alter_ne in Htask by done. by apply (Ht y).
Qed.

Lemma resume_ok x task : task_ok x task -> task_ok x (LinuxTask_Resume task).
Proof using. intros [_ H]. by split. Qed.

(** Signals and wake-ups from elsewhere wake nobody up wrongly. *)
Lemma first_awake_alter f t ids ts l :
  (forall task, resumed task = true -> resumed (f task) = true) ->
  first_awake ids ts l -> first_awake ids (alter f t ts) l.
Proof using.
  intros Hf. destruct ids as [|h ids]; [done|]. intros (x & task & Hx & Htask & Haw).
  destruct (decide (h = t)) as [->|Hne].
  - exists x, (f task). rewrite list_lookup_alter_eq, Htask. split_and!; [done..|]. unfold awake in *. destruct (view x); auto.
  - exists x, task. by rewrite list_lookup_alter_ne.
Qed.

Lemma schedule_ok x mode p task task' p' y :
  view x = Sched mode p -> task_ok x task -> schedule p task = Some (task', p') ->
  view y = match p' with Some p' => Sched mode p' | None => Back end ->
  task_ok y task' /\ (resumed task = true -> awake y task').
Proof using.
  intros Hx [Ha Hst] Hs Hy. unfold task_ok, awake. rewrite Hy. destruct (decide (p = Enter)) as [->|Hp].
  - assert (asleep task = false) as Hf by (destruct (asleep task); [destruct Ha as (_ & ? & ?); [done|congruence]|done]).
    cbn in Hs. repeat case_test; simplify_eq; (split; [split; [congruence|]|done]); try done;
      intros ? ? [= <- <-]; by eapply Hst.
  - destruct (suspend_cases p task Hp) as [(E & _)|(u & E & Hu & Hau & Hr & _)]; [congruence|]. rewrite E in Hs. simplify_eq.
    assert (asleep task = false \/ resumed task = false) as Hor
      by (destruct (asleep task); [right; by apply Ha|by left]).
    destruct (resumed task) eqn:Er.
    + destruct Hor as [Hf|]; [|done]. split; [|done]. split; [congruence|done].
    + split; [|done]. split; [eauto|]. intros ? ? [= <- <-]. rewrite Hu. by eapply Hst.
Qed.

(** A step of schedule in the queue. *)
Lemma queue_ok_schedule ids ts l t x mode p task task' p' y :
  queue_ok ids None ts l -> l !! t = Some x -> ts !! t = Some task ->
  view x = Sched mode p -> schedule p task = Some (task', p') ->
  view y = match p' with Some p' => Sched mode p' | None => Back end ->
  queue_ok ids None (<[t := task']> ts) (<[t := y]> l) /\
  (first_awake ids ts l -> first_awake ids (<[t := task']> ts) (<[t := y]> l)).
Proof using.
  intros Hq Hx Htask Hv Hs Hy. pose proof Hq as (_ & _ & Hin & Hok).
  destruct (schedule_ok x mode p task task' p' y Hv) as [Hok' Haw]; [by apply (Hok t)|done..|].
  pose proof (lookup_lt_Some _ _ _ Hx). pose proof (lookup_lt_Some _ _ _ Htask).
  assert (waiting y) as Hwy by (unfold waiting; rewrite Hy; by destruct p').
  split.
  - apply queue_ok_close; [|done| |].
    + rewrite <- (alter_lookup (λ _, task') ts t task) by done. by apply queue_ok_task, queue_ok_open.
    + split; [done|]. intros _. apply Hin; [done|]. exists x. split; [done|]. unfold waiting. by rewrite Hv.
    + intros u Hu. rewrite list_lookup_insert_eq in Hu by done. by simplify_eq.
  - destruct ids as [|h ids]; [done|]. intros (z & u & Hz & Hu & Hzu). destruct (decide (h = t)) as [->|Hne].
    + simplify_eq. exists y, task'. rewrite !list_lookup_insert_eq by done. split_and!; [done..|].
      apply Haw. unfold awake in Hzu. by rewrite Hv in Hzu.
    + exists z, u. by rewrite !list_lookup_insert_ne.
Qed.

(** A thread outside schedule is not asleep. *)
Lemma running ids ts l t x :
  queue_ok ids None ts l -> l !! t = Some x -> (forall mode p, view x <> Sched mode p) ->
  exists task, ts !! t = Some task /\ asleep task = false /\ (t ∈ ids <-> waiting x).
Proof using.
  intros (Hl & _ & Hin & Hok) Ht Hx.
  destruct (lookup_lt_is_Some_2 ts t) as [task Htask]; [rewrite Hl; by eapply lookup_lt_Some|].
  exists task. destruct (Hok t x task ltac:(done) Ht Htask) as [Ha _]. split; [done|]. split.
  - destruct (asleep task); [|done]. destruct Ha as (_ & mode & E); [done|]. by destruct (Hx _ _ E).
  - rewrite Hin by done. split; [intros (x' & ? & ?); by simplify_eq|eauto].
Qed.

(** The tasks after [t] has left the queue and woken the next one. *)
Definition leave_tasks (t : nat) (ids : list nat) (ts : list task_struct) : list task_struct :=
  alter (set_state TASK_RUNNING) t (wake_first (without t ids) mode_all ts).

Lemma queue_ok_leave t x task ids ts l :
  queue_ok ids (Some t) ts l -> l !! t = Some x -> ts !! t = Some task -> asleep task = false ->
  forall y, view y = Outside ->
  queue_ok (without t ids) None (leave_tasks t ids ts) (<[t := y]> l) /\
  (without t ids <> [] -> first_awake (without t ids) (leave_tasks t ids ts) (<[t := y]> l)).
Proof using view_mode.
  intros Hq Hx Htask Has y Hy. apply queue_ok_without in Hq.
  destruct (wake_first_ok _ _ _ _ Hq) as [Hq' Haw]; [intros z [= <-]; rewrite elem_of_without; by intros []|].
  assert (forall h ids', without t ids = h :: ids' -> h <> t) as Hne.
  { intros h ids' E ->. assert (t ∈ without t ids) as [? _]%elem_of_without by (rewrite E; left). done. }
  split.
  - apply queue_ok_close; [by apply queue_ok_task|by eapply lookup_lt_Some| |].
    + rewrite elem_of_without. unfold waiting. rewrite Hy. by split; [intros []|].
    + intros u Hu. unfold leave_tasks in Hu. rewrite list_lookup_alter_eq in Hu. split; [|intros ? ?; congruence].
      intros Ea. exfalso. assert (wake_first (without t ids) mode_all ts !! t = Some task) as E.
      { destruct (without t ids) as [|h ids'] eqn:Ew; [done|]. cbn. by rewrite list_lookup_alter_ne by (by eapply Hne). }
      rewrite E in Hu. injection Hu as <-. cbn in Ea. congruence.
  - intros Hnil. specialize (Haw Hnil). unfold leave_tasks. destruct (without t ids) as [|h ids'] eqn:Ew; [done|].
    specialize (Hne h ids' eq_refl). destruct Haw as (z & u & Hz & Hu & Hzu). exists z, u.
    by rewrite list_lookup_insert_ne, list_lookup_alter_ne.
Qed.
End waiting.
