(* ===== verification/Semaphore.v ===== *)
(** Semaphores: [linux/lib/semaphore-sleepers.c] and the inline functions of
    [asm/semaphore.h].

    Any number of threads call down, down_interruptible, down_trylock and up on
    one semaphore. A step is one atomic operation on the count, what a thread
    does under the lock of the wait queue, or a step of schedule. Signals are
    posted and tasks resumed at any time. [avail] counts the permits that are
    not taken, for the statements only. *)

From S2P Require Import Prelude Task Waitq.
Local Open Scope Z_scope.

Record semaphore := Sem {
  count : Z;
  sleepers : Z;
  wait : list wait_queue_t;
}.

Inductive sem_pc :=
| Idle
| DownFailed (intr : bool)                  (* __down, __down_interruptible: before the lock *)
| DownSched (intr : bool) (p : sched_pc)    (* in schedule *)
| DownBack (intr : bool)                    (* before the lock is taken again *)
| TryFailed                                 (* __down_trylock: before the lock *)
| UpWake.                                   (* __up: before the lock *)

Definition sema_init (val : Z) : semaphore := Sem val 0 [].

(** LOCK addl, with its sign. *)
Definition atomic_add (i : Z) (s : semaphore) : semaphore := Sem (s32 (count s + i)) (sleepers s) (wait s).
Definition atomic_add_negative (i : Z) (s : semaphore) : semaphore * bool :=
  let s := atomic_add i s in (s, count s <? 0).

(** The inline functions: LOCK decl and js, LOCK incl and jle. The right
    component says whether the out-of-line function is called. *)
Definition down (s : semaphore) : semaphore * bool := atomic_add_negative (-1) s.
Definition down_interruptible (s : semaphore) : semaphore * bool := atomic_add_negative (-1) s.
Definition down_trylock (s : semaphore) : semaphore * bool := atomic_add_negative (-1) s.
Definition up (s : semaphore) : semaphore * bool :=
  let s := atomic_add 1 s in (s, count s <=? 0).

Definition set_sleepers (n : Z) (s : semaphore) : semaphore := Sem (count s) n (wait s).
Definition set_wait (q : list wait_queue_t) (s : semaphore) : semaphore := Sem (count s) (sleepers s) q.

Inductive down_result := Acquired | Interrupted | Again.

(** remove_wait_queue_locked, wake_up_locked and TASK_RUNNING. *)
Definition down_leave (t : nat) (r : down_result) (s : semaphore) (ts : list task_struct) :
    option (semaphore * list task_struct * down_result) :=
  q ← __remove_wait_queue t (wait s);
  let w := wake_up_locked q ts in
  Some (set_wait w.1 s, alter (set_state TASK_RUNNING) t w.2, r).

(** A turn of the loop, from the lock to schedule or to the return. *)
Definition down_turn (intr : bool) (t : nat) (s : semaphore) (ts : list task_struct) :
    option (semaphore * list task_struct * down_result) :=
  task ← ts !! t;
  if intr && signal_pending task then
    down_leave t Interrupted (atomic_add (sleepers s) (set_sleepers 0 s)) ts
  else
    let r := atomic_add_negative (sleepers s - 1) s in
    if r.2 then Some (set_sleepers 1 r.1, ts, Again)
    else down_leave t Acquired (set_sleepers 0 r.1) ts.

Definition sleep_mode (intr : bool) : Z := if intr then TASK_INTERRUPTIBLE else TASK_UNINTERRUPTIBLE.

(** __down and __down_interruptible up to the first schedule. *)
Definition __down (intr : bool) (t : nat) (s : semaphore) (ts : list task_struct) :=
  let ts := alter (set_state (sleep_mode intr)) t ts in
  let s := set_wait (add_wait_queue_exclusive_locked (wait s) (DECLARE_WAITQUEUE t)) s in
  down_turn intr t (set_sleepers (sleepers s + 1) s) ts.

(** And after it. *)
Definition __down_again (intr : bool) (t : nat) (s : semaphore) (ts : list task_struct) :=
  down_turn intr t s (alter (set_state (sleep_mode intr)) t ts).

Definition __down_trylock (s : semaphore) (ts : list task_struct) : semaphore * list task_struct :=
  let r := atomic_add_negative (sleepers s + 1) (set_sleepers 0 s) in
  if r.2 then (r.1, ts)
  else let w := wake_up_locked (wait r.1) ts in (set_wait w.1 r.1, w.2).

Definition __up (s : semaphore) (ts : list task_struct) : semaphore * list task_struct :=
  let w := wake_up (wait s) ts in (set_wait w.1 s, w.2).

(** ** The threads *)

Record sem_state := State {
  sem : semaphore;
  tasks : list task_struct;
  pcs : list sem_pc;
  avail : Z;
}.

Definition down_pc (intr : bool) (r : down_result) : sem_pc :=
  match r with
  | Acquired | Interrupted => Idle
  | Again => DownSched intr Enter
  end.
Definition down_avail (r : down_result) (a : Z) : Z :=
  match r with
  | Acquired => a - 1
  | Interrupted | Again => a
  end.

Inductive sem_step : sem_state -> sem_state -> Prop :=
| step_down s ts l a t (intr : bool) : l !! t = Some Idle ->
    sem_step (State s ts l a)
      (let r := if intr then down_interruptible s else down s in
       if r.2 then State r.1 ts (<[t := DownFailed intr]> l) a else State r.1 ts l (a - 1))
| step_trylock s ts l a t : l !! t = Some Idle ->
    sem_step (State s ts l a)
      (let r := down_trylock s in
       if r.2 then State r.1 ts (<[t := TryFailed]> l) a else State r.1 ts l (a - 1))
| step_up s ts l a t : l !! t = Some Idle -> a + 1 < 2 ^ 31 ->
    sem_step (State s ts l a)
      (let r := up s in
       if r.2 then State r.1 ts (<[t := UpWake]> l) (a + 1) else State r.1 ts l (a + 1))
| step_down_failed s ts l a t intr s' ts' r : l !! t = Some (DownFailed intr) ->
    __down intr t s ts = Some (s', ts', r) ->
    sem_step (State s ts l a) (State s' ts' (<[t := down_pc intr r]> l) (down_avail r a))
| step_down_again s ts l a t intr s' ts' r : l !! t = Some (DownBack intr) ->
    __down_again intr t s ts = Some (s', ts', r) ->
    sem_step (State s ts l a) (State s' ts' (<[t := down_pc intr r]> l) (down_avail r a))
| step_schedule s ts l a t intr p task task' p' : l !! t = Some (DownSched intr p) -> ts !! t = Some task ->
    schedule p task = Some (task', p') ->
    sem_step (State s ts l a)
      (State s (<[t := task']> ts) (<[t := match p' with Some p' => DownSched intr p' | None => DownBack intr end]> l) a)
| step_try_failed s ts l a t : l !! t = Some TryFailed ->
    sem_step (State s ts l a) (State (__down_trylock s ts).1 (__down_trylock s ts).2 (<[t := Idle]> l) a)
| step_up_wake s ts l a t : l !! t = Some UpWake ->
    sem_step (State s ts l a) (State (__up s ts).1 (__up s ts).2 (<[t := Idle]> l) a)
| step_signals s ts l a t p b :
    sem_step (State s ts l a) (State s (alter (set_signals p b) t ts) l a)
| step_resume s ts l a t :
    sem_step (State s ts l a) (State s (alter LinuxTask_Resume t ts) l a).

(** [n] threads. *)
Inductive sem_reachable (val : Z) (n : nat) : sem_state -> Prop :=
| sem_start : sem_reachable val n
    (State (sema_init val) (replicate n running_task) (replicate n Idle) val)
| sem_next s s' : sem_reachable val n s -> sem_step s s' -> sem_reachable val n s'.

(** Nothing moves: every thread is outside or asleep. *)
Definition stuck (s : sem_state) : Prop :=
  forall t pc, pcs s !! t = Some pc -> pc = Idle \/
    exists intr task, pc = DownSched intr Suspended /\ tasks s !! t = Some task /\ asleep task = true.

(** ** Accounting *)

(** A thread that has decremented the count and is not yet among the sleepers. *)
Definition weight (pc : sem_pc) : Z :=
  match pc with
  | DownFailed _ | TryFailed => 1
  | _ => 0
  end.
Fixpoint total (l : list sem_pc) : Z :=
  match l with
  | [] => 0
  | pc :: l => weight pc + total l
  end.

Lemma total_range l : 0 <= total l <= Z.of_nat (length l).
Proof. induction l as [|pc l IH]; cbn [total length]; [lia|]. destruct pc; cbn; lia. Qed.

Lemma weights_insert l t x y : l !! t = Some x -> total (<[t := y]> l) = total l - weight x + weight y.
Proof.
  revert t. induction l as [|z l IH]; intros [|t] H; cbn in H; try done.
  - simplify_eq. cbn. lia.
  - cbn [total insert list_insert]. change (list_insert t y l) with (<[t := y]> l). rewrite IH by done. lia.
Qed.

Lemma total_idle n : total (replicate n Idle) = 0.
Proof. induction n as [|n IH]; [done|]. exact IH. Qed.

Lemma total_zero l t pc : total l = 0 -> l !! t = Some pc -> weight pc = 0.
Proof.
  intros H Ht. pose proof (weights_insert l t pc Idle Ht) as E. pose proof (total_range (<[t := Idle]> l)).
  cbn in E. destruct pc; cbn in *; lia.
Qed.

Lemma total_weight l t pc : l !! t = Some pc -> weight pc <= total l.
Proof. intros H. pose proof (weights_insert l t pc Idle H). pose proof (total_range (<[t := Idle]> l)). cbn in *. lia. Qed.

Lemma total_weightless l : (forall t pc, l !! t = Some pc -> weight pc = 0) -> total l = 0.
Proof.
  induction l as [|pc l IH]; [done|]. intros H. cbn. rewrite IH by (intros t; apply (H (S t))).
  by rewrite (H O pc eq_refl).
Qed.

(** ** The invariant *)

Definition sem_view (pc : sem_pc) : position :=
  match pc with
  | DownSched intr p => Sched (sleep_mode intr) p
  | DownBack _ => Back
  | _ => Outside
  end.

Lemma sem_view_mode x mode p : sem_view x = Sched mode p -> Z.land mode mode_all <> 0.
Proof. destruct x as [| |[] q|[]| |]; cbn; intros [= <- <-]; done. Qed.

Notation sem_queue_ok := (queue_ok sem_view).

(** A thread that will see to the first waiter, or no permit to give. *)
Definition served (ids : list nat) (s : semaphore) (ts : list task_struct) (l : list sem_pc) : Prop :=
  match ids with
  | [] => sleepers s = 0
  | _ => first_awake sem_view ids ts l \/ 0 < total l \/ (exists t, l !! t = Some UpWake) \/ (sleepers s = 1 /\ count s < 0)
  end.

Definition sem_inv (n : nat) (s : sem_state) : Prop :=
  exists ids, wait (sem s) = waiters ids /\ sem_queue_ok ids None (tasks s) (pcs s) /\
    length (pcs s) = n /\ 0 <= avail s < 2 ^ 31 /\ 0 <= sleepers (sem s) <= 1 /\
    count (sem s) = avail s - total (pcs s) - sleepers (sem s) /\ served ids (sem s) (tasks s) (pcs s).

(** The outcomes of a turn of the loop. *)
Lemma down_turn_cases intr t c sl ids ts task :
  ts !! t = Some task -> t ∈ ids -> - 2 ^ 31 <= c + sl - 1 -> c + sl < 2 ^ 31 ->
  (c + sl - 1 < 0 /\ down_turn intr t (Sem c sl (waiters ids)) ts = Some (Sem (c + sl - 1) 1 (waiters ids), ts, Again)) \/
  (0 <= c + sl - 1 /\
    down_turn intr t (Sem c sl (waiters ids)) ts =
      Some (Sem (c + sl - 1) 0 (waiters (without t ids)), leave_tasks t ids ts, Acquired)) \/
  (intr = true /\ signal_pending task = true /\
    down_turn intr t (Sem c sl (waiters ids)) ts =
      Some (Sem (c + sl) 0 (waiters (without t ids)), leave_tasks t ids ts, Interrupted)).
Proof.
  intros Ht Hin H1 H2. unfold down_turn. rewrite Ht. cbn [mbind option_bind].
  assert (forall r c', down_leave t r (Sem c' 0 (waiters ids)) ts =
    Some (Sem c' 0 (waiters (without t ids)), leave_tasks t ids ts, r)) as Hleave.
  { intros r c'. unfold down_leave. cbn [wait]. rewrite remove_waiter by done. cbn [mbind option_bind].
    unfold wake_up_locked, __wake_up_locked. by rewrite wake_waiters. }
  destruct (intr && signal_pending task) eqn:E.
  - right. right. apply andb_prop in E as [-> E]. split_and!; [done..|].
    unfold atomic_add, set_sleepers. cbn. rewrite sext_small by lia. apply Hleave.
  - unfold atomic_add_negative, atomic_add, set_sleepers. cbn. rewrite Z.add_sub_assoc, sext_small by lia.
    destruct (Z.ltb_spec (c + sl - 1) 0).
    + left. done.
    + right. left. split; [done|]. apply Hleave.
Qed.

Lemma turn_ok n intr t c sl ids ts task l a s' ts' r pc0 :
  ts !! t = Some task -> asleep task = false -> state task = sleep_mode intr -> t ∈ ids ->
  sem_queue_ok ids (Some t) ts l -> length l = n -> l !! t = Some pc0 ->
  0 <= a < 2 ^ 31 -> 0 <= sl <= 2 -> c = a - (total l - weight pc0) - sl -> Z.of_nat n + 3 < 2 ^ 31 ->
  down_turn intr t (Sem c sl (waiters ids)) ts = Some (s', ts', r) ->
  sem_inv n (State s' ts' (<[t := down_pc intr r]> l) (down_avail r a)).
Proof.
  intros Htask Has Hst Hin Hq Hlen Hpc0 Ha Hsl Hc Hn Hturn.
  assert (forall pc, weight pc = 0 -> total (<[t := pc]> l) = total l - weight pc0) as Htot
    by (intros pc Hw; rewrite (weights_insert l t pc0) by done; lia).
  pose proof (total_range (<[t := Idle]> l)) as Hr. rewrite length_insert, (Htot Idle) in Hr by done.
  assert (forall r, r <> Again -> forall c', c' = down_avail r a - (total l - weight pc0) -> 0 <= down_avail r a ->
    sem_inv n (State (Sem c' 0 (waiters (without t ids))) (leave_tasks t ids ts) (<[t := down_pc intr r]> l) (down_avail r a)))
    as Hleave.
  { intros r0 Hr0 c' Hc' Ha'. assert (down_pc intr r0 = Idle) as -> by (by destruct r0).
    destruct (queue_ok_leave _ sem_view_mode t pc0 task ids ts l Hq Hpc0 Htask Has Idle eq_refl) as [Hq' Haw].
    exists (without t ids). cbn [sem wait tasks pcs sleepers count avail]. rewrite length_insert, (Htot Idle) by done.
    split; [done|]. split; [done|]. split_and!; try lia; [destruct r0; cbn in *; lia..|].
    destruct (without t ids) as [|h ids'] eqn:Ew; [done|]. left. by apply Haw. }
  destruct (down_turn_cases intr t c sl ids ts task Htask Hin) as [[Hneg E]|[[Hpos E]|(-> & _ & E)]]; [lia|lia| | |];
    rewrite E in Hturn; simplify_eq.
  - exists ids. cbn [sem wait tasks pcs sleepers count avail down_pc down_avail]. rewrite length_insert, Htot by done.
    split; [done|]. split; [|split_and!; try lia].
    + apply queue_ok_close; [done|by eapply lookup_lt_Some|done|]. intros u Hu. rewrite Htask in Hu. simplify_eq.
      split; [congruence|]. cbn. intros mode p [= <- <-]. done.
    + destruct ids as [|h ids]; [by apply not_elem_of_nil in Hin|]. right. right. right. cbn. lia.
  - apply Hleave; [done|cbn; lia|cbn; lia].
  - apply Hleave; [done|cbn; lia|cbn; lia].
Qed.

Lemma down_ok n ids c sl ts l a t pc :
  Z.of_nat n + 3 < 2 ^ 31 -> sem_queue_ok ids None ts l -> length l = n -> 0 <= a < 2 ^ 31 -> 0 <= sl <= 1 ->
  c = a - total l - sl -> served ids (Sem c sl (waiters ids)) ts l -> l !! t = Some Idle ->
  sem_view pc = Outside -> weight pc = 1 ->
  sem_inv n (let r := atomic_add_negative (-1) (Sem c sl (waiters ids)) in
    if r.2 then State r.1 ts (<[t := pc]> l) a else State r.1 ts l (a - 1)).
Proof.
  intros Hn Hq Hlen Ha Hsl Hc Hs Ht Hw Hwt. pose proof (total_range l).
  unfold atomic_add_negative, atomic_add. cbn. rewrite sext_small by lia.
  destruct (Z.ltb_spec (c + -1) 0); exists ids; cbn.
  - rewrite (weights_insert l t Idle), length_insert by done. cbn [weight]. split; [done|].
    split; [by apply queue_ok_move with Idle|]. split_and!; try lia.
    destruct ids as [|h ids]; [done|]. right. left. rewrite (weights_insert l t Idle) by done. cbn [weight]. lia.
  - split; [done|]. split; [done|]. split_and!; try lia.
    destruct ids as [|h ids]; [done|]. destruct Hs as [Hs|[Hs|[Hs|Hs]]]; cbn in *; [by left|right; by left|right; right; by left|lia].
Qed.

(** The turn after the thread has come to the end of the queue, or back to it. *)
Lemma down_failed_ok n ids c sl ts l a t intr s' ts' r :
  Z.of_nat n + 3 < 2 ^ 31 -> sem_queue_ok ids None ts l -> length l = n -> 0 <= a < 2 ^ 31 -> 0 <= sl <= 1 ->
  c = a - total l - sl -> l !! t = Some (DownFailed intr) ->
  __down intr t (Sem c sl (waiters ids)) ts = Some (s', ts', r) ->
  sem_inv n (State s' ts' (<[t := down_pc intr r]> l) (down_avail r a)).
Proof.
  intros Hn Hq Hlen Ha Hsl Hc Ht Hr. destruct (running _ _ _ _ _ _ Hq Ht) as (task & Htask & Has & Hnin); [done|].
  unfold __down, set_wait, set_sleepers in Hr. cbn [count sleepers wait] in Hr. rewrite add_waiter in Hr.
  eapply (turn_ok n intr t c (sl + 1) (ids ++ [t]) _ (set_state (sleep_mode intr) task) l a s' ts' r (DownFailed intr)); try done; try lia.
  - by rewrite list_lookup_alter_eq, Htask.
  - apply elem_of_app. right. left.
  - apply queue_ok_task, queue_ok_with; [by apply queue_ok_open|]. rewrite Hnin. by intros [].
  - cbn. lia.
Qed.

Lemma down_again_ok n ids c sl ts l a t intr s' ts' r :
  Z.of_nat n + 3 < 2 ^ 31 -> sem_queue_ok ids None ts l -> length l = n -> 0 <= a < 2 ^ 31 -> 0 <= sl <= 1 ->
  c = a - total l - sl -> l !! t = Some (DownBack intr) ->
  __down_again intr t (Sem c sl (waiters ids)) ts = Some (s', ts', r) ->
  sem_inv n (State s' ts' (<[t := down_pc intr r]> l) (down_avail r a)).
Proof.
  intros Hn Hq Hlen Ha Hsl Hc Ht Hr. destruct (running _ _ _ _ _ _ Hq Ht) as (task & Htask & Has & Hti); [done|].
  eapply (turn_ok n intr t c sl ids _ (set_state (sleep_mode intr) task) l a s' ts' r (DownBack intr)); try done; try lia.
  - by rewrite list_lookup_alter_eq, Htask.
  - by apply Hti.
  - by apply queue_ok_task, queue_ok_open.
  - cbn. lia.
Qed.

Lemma try_failed_ok n ids c sl ts l a t :
  Z.of_nat n + 3 < 2 ^ 31 -> sem_queue_ok ids None ts l -> length l = n -> 0 <= a < 2 ^ 31 -> 0 <= sl <= 1 ->
  c = a - total l - sl -> l !! t = Some TryFailed ->
  sem_inv n (State (__down_trylock (Sem c sl (waiters ids)) ts).1 (__down_trylock (Sem c sl (waiters ids)) ts).2 (<[t := Idle]> l) a).
Proof.
  intros Hn Hq Hlen Ha Hsl Hc Ht. pose proof (total_range l). pose proof (total_range (<[t := Idle]> l)) as Hr.
  unfold __down_trylock, atomic_add_negative, atomic_add, set_sleepers. cbn.
  rewrite (weights_insert l t TryFailed) in Hr by done. cbn [weight] in Hr. rewrite sext_small by lia.
  pose proof (queue_ok_move _ t TryFailed Idle ids ts l Ht eq_refl eq_refl Hq) as Hq'.
  exists ids. destruct (Z.ltb_spec (c + (sl + 1)) 0); cbn.
  - rewrite length_insert, (weights_insert l t TryFailed) by done. cbn [weight]. split; [done|]. split; [done|]. split_and!; try lia.
    destruct ids as [|h ids]; [done|]. right. left. rewrite (weights_insert l t TryFailed) by done. cbn [weight]. lia.
  - unfold wake_up_locked, __wake_up_locked. rewrite wake_waiters. cbn.
    destruct (wake_first_ok _ sem_view_mode _ _ _ _ Hq' ltac:(done)) as [Hq'' Haw].
    rewrite length_insert, (weights_insert l t TryFailed) by done. cbn [weight]. split; [done|]. split; [done|]. split_and!; try lia.
    destruct ids as [|h ids]; [done|]. left. by apply Haw.
Qed.

Lemma up_wake_ok n ids c sl ts l a t :
  sem_queue_ok ids None ts l -> length l = n -> 0 <= a < 2 ^ 31 -> 0 <= sl <= 1 -> (ids = [] -> sl = 0) ->
  c = a - total l - sl -> l !! t = Some UpWake ->
  sem_inv n (State (__up (Sem c sl (waiters ids)) ts).1 (__up (Sem c sl (waiters ids)) ts).2 (<[t := Idle]> l) a).
Proof.
  intros Hq Hlen Ha Hsl Hnil Hc Ht. unfold __up, wake_up, __wake_up. cbn [wait set_wait]. rewrite wake_waiters.
  pose proof (queue_ok_move _ t UpWake Idle ids ts l Ht eq_refl eq_refl Hq) as Hq'.
  destruct (wake_first_ok _ sem_view_mode _ _ _ _ Hq' ltac:(done)) as [Hq'' Haw].
  exists ids. cbn. rewrite length_insert, (weights_insert l t UpWake) by done. cbn [weight].
  split; [done|]. split; [done|]. split_and!; try lia. destruct ids as [|h ids]; [cbn; auto|]. left. by apply Haw.
Qed.

Lemma served_alter f t ids s ts l :
  (forall task, resumed task = true -> resumed (f task) = true) -> served ids s ts l -> served ids s (alter f t ts) l.
Proof.
  intros Hf. destruct ids as [|h ids]; [done|]. intros [H|H]; [left|by right]. by apply first_awake_alter.
Qed.

Lemma sem_step_inv n s s' : Z.of_nat n + 3 < 2 ^ 31 -> sem_inv n s -> sem_step s s' -> sem_inv n s'.
Proof.
  intros Hn (ids & Hw & Hq & Hlen & Ha & Hsl & Hc & Hs) Hstep.
  destruct Hstep as [s ts l a t intr Ht|s ts l a t Ht|s ts l a t Ht Hmax|s ts l a t intr s' ts' r Ht Hr|s ts l a t intr s' ts' r Ht Hr
    |s ts l a t intr p task task' p' Ht Htask Hp|s ts l a t Ht|s ts l a t Ht|s ts l a t p b|s ts l a t];
    cbn [sem tasks pcs avail] in *; destruct s as [c sl q]; cbn [wait sleepers count] in *; subst q;
    pose proof (total_range l) as Htot.
  - destruct intr; by eapply down_ok.
  - by eapply down_ok.
  - unfold up, atomic_add. cbn. rewrite sext_small by lia. exists ids. destruct (Z.leb_spec (c + 1) 0); cbn.
    + rewrite (weights_insert l t Idle), length_insert by done. cbn [weight].
      split; [done|]. split; [by apply queue_ok_move with Idle|]. split_and!; try lia.
      destruct ids as [|h ids]; [done|]. right. right. left. exists t.
      by rewrite list_lookup_insert_eq by (by eapply lookup_lt_Some).
    + split; [done|]. split; [done|]. split_and!; try lia.
      destruct ids as [|h ids]; [done|]. destruct Hs as [Hs|[Hs|[Hs|Hs]]]; cbn in *; [by left|right; by left|right; right; by left|lia].
  - by eapply down_failed_ok.
  - by eapply down_again_ok.
  - set (pc' := match p' with Some p' => DownSched intr p' | None => DownBack intr end).
    assert (weight pc' = 0) as Hwt by (by subst pc'; destruct p').
    destruct (queue_ok_schedule sem_view ids ts l t (DownSched intr p) (sleep_mode intr) p task task' p' pc') as [Hq' Haw];
      try done; [by subst pc'; destruct p'|].
    exists ids. cbn. rewrite (weights_insert l t (DownSched intr p)), length_insert by done. cbn [weight].
    split; [done|]. split; [done|]. split_and!; try lia. destruct ids as [|h ids]; [done|].
    destruct Hs as [Hs|[Hs|[[u Hu]|Hs]]]; [left; by apply Haw|right; left|right; right; left|right; right; by right].
    + rewrite (weights_insert l t (DownSched intr p)) by done. cbn [weight]. lia.
    + exists u. rewrite list_lookup_insert_ne; [done|]. intros ->. congruence.
  - by eapply try_failed_ok.
  - eapply up_wake_ok; try done. by intros ->.
  - exists ids. cbn. split; [done|]. split; [by apply queue_ok_alter|]. split_and!; try lia. by apply served_alter.
  - exists ids. cbn. split; [done|]. split; [apply queue_ok_alter; [apply resume_ok|done]|]. split_and!; try lia.
    apply served_alter; [|done]. intros. apply resume_resumed.
Qed.

Lemma sem_reachable_inv val n s : 0 <= val < 2 ^ 31 -> Z.of_nat n + 3 < 2 ^ 31 -> sem_reachable val n s -> sem_inv n s.
Proof.
  intros Hval Hn. induction 1 as [|s s' _ IH Hs]; [|by eapply sem_step_inv].
  exists []. cbn. rewrite total_idle. split; [done|]. split.
  { split; [by rewrite !length_replicate|]. split; [constructor|]. split.
    - intros t _. split; [by intros ?%not_elem_of_nil|]. intros (pc & [-> _]%lookup_replicate & Hw). by destruct Hw.
    - intros t pc task _ [-> _]%lookup_replicate [-> _]%lookup_replicate. done. }
  split; [apply length_replicate|]. split_and!; lia.
Qed.

(** C30: The semaphore never gives more permits than it has, whatever the
    interleaving, the signals and the failed attempts: a permit is taken only
    when one is left, the count and the sleepers fit their ints, no thread
    removes a wait queue entry that is not queued, and when every thread is
    outside again the count is the number of permits left. *)
Theorem semaphore_permits val n s :
  0 <= val < 2 ^ 31 -> Z.of_nat n + 3 < 2 ^ 31 -> sem_reachable val n s ->
  0 <= avail s /\ - 2 ^ 31 <= count (sem s) < 2 ^ 31 /\ 0 <= sleepers (sem s) <= 1 /\
  (forall t intr, pcs s !! t = Some (DownFailed intr) -> is_Some (__down intr t (sem s) (tasks s))) /\
  (forall t intr, pcs s !! t = Some (DownBack intr) -> is_Some (__down_again intr t (sem s) (tasks s))) /\
  ((forall t pc, pcs s !! t = Some pc -> pc = Idle) -> count (sem s) = avail s /\ wait (sem s) = []).
Proof.
  intros Hval Hn Hr. destruct (sem_reachable_inv _ _ _ Hval Hn Hr) as (ids & Hw & Hq & Hlen & Ha & Hsl & Hc & Hs).
  pose proof (total_range (pcs s)) as Ht. pose proof Hq as (Hl & _ & Hin & _).
  split; [lia|]. split; [lia|]. split; [done|]. split; [|split].
  - intros t intr Htp. destruct (running _ _ _ _ _ _ Hq Htp) as (task & Htask & _ & _); [done|].
    pose proof (total_weight _ _ _ Htp) as Hp. cbn in Hp. unfold __down, set_wait, set_sleepers. cbn [count sleepers wait]. rewrite Hw, add_waiter.
    destruct (down_turn_cases intr t (count (sem s)) (sleepers (sem s) + 1) (ids ++ [t])
      (alter (set_state (sleep_mode intr)) t (tasks s)) (set_state (sleep_mode intr) task))
      as [[_ E]|[[_ E]|(_ & _ & E)]]; try lia; try (rewrite E; eauto; done).
    + by rewrite list_lookup_alter_eq, Htask.
    + apply elem_of_app. right. left.
  - intros t intr Htp. destruct (running _ _ _ _ _ _ Hq Htp) as (task & Htask & _ & Hti); [done|].
    unfold __down_again. destruct (sem s) as [c sl q]. cbn in *. subst q.
    destruct (down_turn_cases intr t c sl ids
      (alter (set_state (sleep_mode intr)) t (tasks s)) (set_state (sleep_mode intr) task))
      as [[_ E]|[[_ E]|(_ & _ & E)]]; try lia; try (rewrite E; eauto; done).
    + by rewrite list_lookup_alter_eq, Htask.
    + by apply Hti.
  - intros Hidle. assert (ids = []) as ->.
    { destruct ids as [|h ids]; [done|]. destruct (proj1 (Hin h ltac:(done)) ltac:(left)) as (pc & Hpc & Hwt).
      rewrite (Hidle h pc Hpc) in Hwt. by destruct Hwt. }
    assert (total (pcs s) = 0) as E by (apply total_weightless; intros t pc H; by rewrite (Hidle t pc H)).
    split; [|done]. cbn in Hs. lia.
Qed.

(** C7: No wake-up is lost: when no thread can move, a thread that sleeps in
    down or down_interruptible sleeps because every permit is taken. *)
Theorem semaphore_no_lost_wakeup val n s t intr p :
  0 <= val < 2 ^ 31 -> Z.of_nat n + 3 < 2 ^ 31 -> sem_reachable val n s ->
  stuck s -> pcs s !! t = Some (DownSched intr p) -> avail s = 0.
Proof.
  intros Hval Hn Hr Hst Ht. destruct (sem_reachable_inv _ _ _ Hval Hn Hr) as (ids & Hw & Hq & Hlen & Ha & Hsl & Hc & Hs).
  pose proof Hq as (_ & _ & Hin & Hok). assert (t ∈ ids) as Hti by (apply Hin; [done|]; by exists (DownSched intr p)).
  assert (total (pcs s) = 0) as Htot.
  { apply total_weightless. intros u pc Hu. by destruct (Hst u pc Hu) as [->|(i & task & -> & _)]. }
  destruct ids as [|h ids]; [by apply not_elem_of_nil in Hti|].
  destruct Hs as [(pc & task & Hpc & Htask & Haw)|[Hs|[(u & Hu)|Hs]]]; [|lia| |lia].
  - destruct (Hst h pc Hpc) as [->|(i & task' & -> & Htask' & Has)]; [done|]. simplify_eq. cbn in Haw.
    destruct (Hok h _ _ ltac:(done) Hpc Htask) as [H _]. destruct (H Has). congruence.
  - destruct (Hst u UpWake Hu) as [|(i & task' & ? & _)]; done.
Qed.

(** One thread asleep on a semaphore without permits. *)
Definition example_asleep : sem_state :=
  State (Sem (-1) 1 [waiter 0]) [sleeping_task] [DownSched false Suspended] 0.

Lemma example_asleep_reachable : sem_reachable 0 1 example_asleep.
Proof.
  pose proof (sem_start 0 1) as H.
  eapply sem_next in H; [|eapply (step_down _ _ _ _ 0 false); reflexivity].
  eapply sem_next in H; [|eapply (step_down_failed _ _ _ _ 0 false); reflexivity].
  do 2 (eapply sem_next in H; [|eapply (step_schedule _ _ _ _ 0); reflexivity]). exact H.
Qed.

Lemma semaphore_permits_witness : sem_reachable 0 1 example_asleep /\ 0 <= avail example_asleep.
Proof.
  split; [exact example_asleep_reachable|].
  apply (semaphore_permits 0 1 example_asleep ltac:(lia) ltac:(lia) example_asleep_reachable).
Defined.

Lemma semaphore_no_lost_wakeup_witness : stuck example_asleep /\ avail example_asleep = 0.
Proof.
  assert (stuck example_asleep) as Hst.
  { intros [|t] pc Hpc; [|done]. cbn in Hpc. right. exists false, sleeping_task.
    split; [congruence|]. done. }
  split; [exact Hst|].
  apply (semaphore_no_lost_wakeup 0 1 example_asleep 0 false Suspended ltac:(lia) ltac:(lia) example_asleep_reachable Hst).
  reflexivity.
Defined.
