(* ===== verification/Completion.v ===== *)
(** Completions: [include/linux/completion.h] and [vmware/linux_waitqueue.c].

    Any number of threads wait, with and without a timeout, and complete. A step
    is what a thread does under the lock of the wait queue, or a step of
    schedule. Timers are part of the environment: a task can be resumed at any
    time, and schedule_timeout returns any number of jiffies or sleeps again.
    [given] counts the calls of complete and [taken] the successful waits, for
    the statements only. *)

From S2P Require Import Prelude Task Waitq.
Local Open Scope Z_scope.

Record completion := Comp {
  done : Z;
  wait : list wait_queue_t;
}.

Definition init_completion : completion := Comp 0 [].

(** wait_for_completion, _timeout and _interruptible_timeout. *)
Inductive wait_kind := Plain | Timeout | InterruptibleTimeout.

Definition kind_state (k : wait_kind) : Z :=
  match k with
  | InterruptibleTimeout => TASK_INTERRUPTIBLE
  | _ => TASK_UNINTERRUPTIBLE
  end.

Inductive comp_pc :=
| Idle
| InSched (k : wait_kind) (p : sched_pc)
| SchedBack (k : wait_kind) (timeout : Z).    (* before the lock is taken again *)

(** Returned, with success or not, or waiting. *)
Inductive wait_result := Completed | TimedOut | Restart | Waits.

(** The head of the do loop. *)
Definition wait_loop (k : wait_kind) (t : nat) (c : completion) (ts : list task_struct) :
    option (completion * list task_struct * wait_result) :=
  task ← ts !! t;
  match k with
  | InterruptibleTimeout =>
      if signal_pending task then
        q ← __remove_wait_queue t (wait c);
        Some (Comp (done c) q, ts, Restart)
      else Some (c, alter (set_state (kind_state k)) t ts, Waits)
  | _ => Some (c, alter (set_state (kind_state k)) t ts, Waits)
  end.

Definition wait_for_completion (k : wait_kind) (t : nat) (c : completion) (ts : list task_struct) :
    option (completion * list task_struct * wait_result) :=
  if done c =? 0 then
    wait_loop k t (Comp (done c) (__add_wait_queue_tail (wait c) (set_exclusive (DECLARE_WAITQUEUE t)))) ts
  else Some (Comp (u32 (done c - 1)) (wait c), ts, Completed).

(** After schedule or schedule_timeout, which returned [timeout]. *)
Definition wait_again (k : wait_kind) (timeout : Z) (t : nat) (c : completion) (ts : list task_struct) :
    option (completion * list task_struct * wait_result) :=
  let timed_out := match k with Plain => false | _ => timeout =? 0 end in
  if timed_out then
    q ← __remove_wait_queue t (wait c);
    Some (Comp (done c) q, ts, TimedOut)
  else if done c =? 0 then wait_loop k t c ts
  else
    q ← __remove_wait_queue t (wait c);
    Some (Comp (u32 (done c - 1)) q, ts, Completed).

Definition complete (c : completion) (ts : list task_struct) : completion * list task_struct :=
  let w := __wake_up_common (wait c) (Z.lor TASK_UNINTERRUPTIBLE TASK_INTERRUPTIBLE) 1 ts in
  (Comp (u32 (done c + 1)) w.1, w.2).

(** ** The threads *)

Record comp_state := State {
  comp : completion;
  tasks : list task_struct;
  pcs : list comp_pc;
  given : Z;
  taken : Z;
}.

Definition wait_pc (k : wait_kind) (r : wait_result) : comp_pc :=
  match r with
  | Waits => InSched k Enter
  | _ => Idle
  end.
Definition wait_taken (r : wait_result) (n : Z) : Z :=
  match r with
  | Completed => n + 1
  | _ => n
  end.

Inductive comp_step : comp_state -> comp_state -> Prop :=
| step_wait c ts l g n t k c' ts' r : l !! t = Some Idle -> wait_for_completion k t c ts = Some (c', ts', r) ->
    comp_step (State c ts l g n) (State c' ts' (<[t := wait_pc k r]> l) g (wait_taken r n))
| step_again c ts l g n t k timeout c' ts' r : l !! t = Some (SchedBack k timeout) ->
    wait_again k timeout t c ts = Some (c', ts', r) ->
    comp_step (State c ts l g n) (State c' ts' (<[t := wait_pc k r]> l) g (wait_taken r n))
| step_schedule c ts l g n t k p task task' p' timeout : l !! t = Some (InSched k p) -> ts !! t = Some task ->
    schedule p task = Some (task', p') -> 0 <= timeout ->
    comp_step (State c ts l g n)
      (State c (<[t := task']> ts) (<[t := match p' with Some p' => InSched k p' | None => SchedBack k timeout end]> l) g n)
| step_timer_again c ts l g n t k timeout : l !! t = Some (SchedBack k timeout) -> k <> Plain ->
    (* the loop of __schedule_timeout: the timer was early *)
    comp_step (State c ts l g n) (State c (alter (set_state (kind_state k)) t ts) (<[t := InSched k Enter]> l) g n)
| step_no_sleep c ts l g n t k : l !! t = Some (InSched k Enter) -> k <> Plain ->
    (* schedule_timeout of a negative number *)
    comp_step (State c ts l g n) (State c ts (<[t := SchedBack k 0]> l) g n)
| step_complete c ts l g n t : l !! t = Some Idle -> g + 1 - n < 2 ^ 32 ->
    comp_step (State c ts l g n) (State (complete c ts).1 (complete c ts).2 l (g + 1) n)
| step_signals c ts l g n t p b :
    comp_step (State c ts l g n) (State c (alter (set_signals p b) t ts) l g n)
| step_resume c ts l g n t :
    comp_step (State c ts l g n) (State c (alter LinuxTask_Resume t ts) l g n).

(** [n] threads, in states that are all [ok]. *)
Inductive comp_reachable (ok : comp_state -> Prop) (n : nat) : comp_state -> Prop :=
| comp_start : comp_reachable ok n
    (State init_completion (replicate n running_task) (replicate n Idle) 0 0)
| comp_next s s' : comp_reachable ok n s -> comp_step s s' -> ok s' -> comp_reachable ok n s'.

(** Nothing moves: every thread is outside or asleep. *)
Definition stuck (s : comp_state) : Prop :=
  forall t pc, pcs s !! t = Some pc -> pc = Idle \/
    exists k task, pc = InSched k Suspended /\ tasks s !! t = Some task /\ asleep task = true.

(** At most one thread waits at a time. *)
Definition one_waiter (s : comp_state) : Prop := (length (wait (comp s)) <= 1)%nat.

(** ** The invariant *)

Definition comp_view (pc : comp_pc) : position :=
  match pc with
  | Idle => Outside
  | InSched k p => Sched (kind_state k) p
  | SchedBack _ _ => Back
  end.

Lemma comp_view_mode x mode p : comp_view x = Sched mode p -> Z.land mode mode_all <> 0.
Proof. destruct x as [|[] q|]; cbn; intros [= <- <-]; done. Qed.

Definition comp_inv (s : comp_state) : Prop :=
  exists ids, wait (comp s) = waiters ids /\ queue_ok comp_view ids None (tasks s) (pcs s) /\
    done (comp s) = given s - taken s /\ 0 <= given s - taken s < 2 ^ 32 /\ 0 <= taken s.

(** A waiter without a timeout is awake when there is something to take. *)
Definition plain_served (s : comp_state) : Prop :=
  forall t p, pcs s !! t = Some (InSched Plain p) -> done (comp s) <> 0 ->
    exists task, tasks s !! t = Some task /\ resumed task = true.

Lemma wait_entry c ids t task ts l k r c' ts' pc0 :
  queue_ok comp_view ids (Some t) ts l -> t ∈ ids -> l !! t = Some pc0 -> ts !! t = Some task -> asleep task = false ->
  wait c = waiters ids ->
  (wait_loop k t c ts = Some (c', ts', r) \/
   exists d r0, r0 <> Waits /\ (q ← __remove_wait_queue t (wait c); Some (Comp d q, ts, r0)) = Some (c', ts', r)) ->
  exists ids', wait c' = waiters ids' /\ queue_ok comp_view ids' None ts' (<[t := wait_pc k r]> l) /\
    (forall x, x ∈ ids' -> x ∈ ids) /\
    (r = Waits -> c' = c /\ ts' = alter (set_state (kind_state k)) t ts) /\ (r <> Waits -> ts' = ts).
Proof.
  intros Hq Hin Hpc0 Htask Has Hw.
  assert (forall d r0, r0 <> Waits -> (q ← __remove_wait_queue t (wait c); Some (Comp d q, ts, r0)) = Some (c', ts', r) ->
    exists ids', wait c' = waiters ids' /\ queue_ok comp_view ids' None ts' (<[t := wait_pc k r]> l) /\
      (forall x, x ∈ ids' -> x ∈ ids) /\
      (r = Waits -> c' = c /\ ts' = alter (set_state (kind_state k)) t ts) /\ (r <> Waits -> ts' = ts)) as Hleave.
  { intros d r0 Hr0 E. rewrite Hw, remove_waiter in E by done. cbn in E. simplify_eq.
    exists (without t ids). split; [done|]. split; [|split_and!; try done; by intros x [_ ?]%elem_of_without].
    assert (wait_pc k r = Idle) as -> by (by destruct r).
    apply queue_ok_close; [by apply queue_ok_without|by eapply lookup_lt_Some| |].
    - rewrite elem_of_without. unfold waiting. by split; [intros []|].
    - intros u Hu. simplify_eq. split; [congruence|done]. }
  intros [E|(d & r0 & Hr0 & E)]; [|by eapply Hleave]. unfold wait_loop in E. rewrite Htask in E. cbn [mbind option_bind] in E.
  assert (forall c' ts' r, Some (c, alter (set_state (kind_state k)) t ts, Waits) = Some (c', ts', r) ->
    exists ids', wait c' = waiters ids' /\ queue_ok comp_view ids' None ts' (<[t := wait_pc k r]> l) /\
      (forall x, x ∈ ids' -> x ∈ ids) /\
      (r = Waits -> c' = c /\ ts' = alter (set_state (kind_state k)) t ts) /\ (r <> Waits -> ts' = ts)) as Hstay.
  { intros c1 ts1 r1 [= <- <- <-]. exists ids. split; [done|]. split; [|done]. cbn.
    apply queue_ok_close; [by apply queue_ok_task|by eapply lookup_lt_Some|done|].
    intros u Hu. rewrite list_lookup_alter_eq, Htask in Hu. injection Hu as <-.
    split; cbn; [congruence|]. by intros mode p [= <- <-]. }
  destruct k; [by apply Hstay|by apply Hstay|]. case_test; [by eapply (Hleave _ Restart)|by apply Hstay].
Qed.

Lemma removed_done X d (ts : list task_struct) (r0 : wait_result) c' ts' r :
  (q ← X; Some (Comp d q, ts, r0)) = Some (c', ts', r) -> done c' = d /\ r = r0.
Proof. destruct X; cbn; [|discriminate]. by intros [= <- _ <-]. Qed.

Lemma loop_done k t c ts c' ts' r : wait_loop k t c ts = Some (c', ts', r) -> done c' = done c /\ r <> Completed.
Proof.
  unfold wait_loop. destruct (ts !! t) as [task|]; cbn; [|discriminate].
  destruct k; [by intros [= <- _ <-]..|]. case_test; [|by intros [= <- _ <-]]. intros [-> ->]%removed_done. done.
Qed.

(** What the two sections do to the count. *)
Lemma wait_done k t c ts c' ts' r n : 0 <= done c < 2 ^ 32 ->
  wait_for_completion k t c ts = Some (c', ts', r) \/ (exists timeout, wait_again k timeout t c ts = Some (c', ts', r)) ->
  0 <= done c' /\ done c' + wait_taken r n = done c + n /\ (r = Waits -> done c = 0).
Proof.
  intros Hd [H|[timeout H]]; [unfold wait_for_completion in H|unfold wait_again in H].
  - destruct (Z.eqb_spec (done c) 0) as [E|E].
    + apply loop_done in H as [-> Hr]. cbn. destruct r; cbn; split_and!; try done; lia.
    + simplify_eq. cbn. rewrite wrap_small by lia. split_and!; try done; lia.
  - case_test; [|case_test].
    + apply removed_done in H as [-> ->]. cbn. split_and!; try done; lia.
    + apply loop_done in H as [-> Hr]. destruct r; cbn; split_and!; try done; lia.
    + apply removed_done in H as [-> ->]. cbn. rewrite wrap_small by lia. split_and!; try done; lia.
Qed.

(** And to the queue. *)
Lemma wait_queue k t c ts c' ts' r l ids :
  queue_ok comp_view ids None ts l -> wait c = waiters ids ->
  (l !! t = Some Idle /\ wait_for_completion k t c ts = Some (c', ts', r)) \/
  (exists timeout, l !! t = Some (SchedBack k timeout) /\ wait_again k timeout t c ts = Some (c', ts', r)) ->
  exists ids', wait c' = waiters ids' /\ queue_ok comp_view ids' None ts' (<[t := wait_pc k r]> l).
Proof.
  intros Hq Hw [[Ht H]|(timeout & Ht & H)]; [unfold wait_for_completion in H|unfold wait_again in H];
    destruct (running _ _ _ _ _ _ Hq Ht) as (task & Htask & Has & Hin); try done.
  - case_test.
    + rewrite Hw in H. change (__add_wait_queue_tail (waiters ids) (set_exclusive (DECLARE_WAITQUEUE t)))
        with (add_wait_queue_exclusive_locked (waiters ids) (DECLARE_WAITQUEUE t)) in H. rewrite add_waiter in H.
      destruct (wait_entry (Comp (done c) (waiters (ids ++ [t]))) (ids ++ [t]) t task ts l k r c' ts' Idle) as (ids' & ? & ? & _);
        try done; [| |by left|by eauto].
      * apply queue_ok_with; [by apply queue_ok_open|]. rewrite Hin. by intros [].
      * apply elem_of_app. right. left.
    + simplify_eq. cbn. exists ids. split; [done|]. by rewrite list_insert_id.
  - assert (t ∈ ids) as Hti by (by apply Hin).
    destruct (wait_entry c ids t task ts l k r c' ts' (SchedBack k timeout)) as (ids' & ? & ? & _);
      try done; [by apply queue_ok_open| |by eauto].
    case_test; [right|case_test; [by left|right]].
    + by exists (done c), TimedOut.
    + by exists (u32 (done c - 1)), Completed.
Qed.

Lemma comp_step_inv s s' : comp_inv s -> comp_step s s' -> comp_inv s'.
Proof.
  intros (ids & Hw & Hq & Hd & Hr & Hn) Hstep.
  destruct Hstep as [c ts l g n t k c' ts' r Ht H|c ts l g n t k timeout c' ts' r Ht H|c ts l g n t k p task task' p' timeout Ht Htask Hp Hto
    |c ts l g n t k timeout Ht Hk|c ts l g n t k Ht Hk|c ts l g n t Ht Hmax|c ts l g n t p b|c ts l g n t];
    cbn [comp tasks pcs given taken] in *.
  - destruct (wait_done k t c ts c' ts' r n) as (H1 & H2 & H3); [lia|by left|].
    destruct (wait_queue k t c ts c' ts' r l ids Hq Hw) as (ids' & ? & ?); [by left|].
    exists ids'. cbn. split_and!; try done; try lia; destruct r; cbn in *; lia.
  - destruct (wait_done k t c ts c' ts' r n) as (H1 & H2 & H3); [lia|by eauto|].
    destruct (wait_queue k t c ts c' ts' r l ids Hq Hw) as (ids' & ? & ?); [by eauto|].
    exists ids'. cbn. split_and!; try done; try lia; destruct r; cbn in *; lia.
  - destruct (queue_ok_schedule comp_view ids ts l t (InSched k p) (kind_state k) p task task' p'
      (match p' with Some p' => InSched k p' | None => SchedBack k timeout end)) as [Hq' _]; try done; [by destruct p'|].
    exists ids. cbn. done.
  - destruct (running _ _ _ _ _ _ Hq Ht) as (task & Htask & Has & Hin); [done|].
    exists ids. cbn. split; [done|]. split; [|done]. apply queue_ok_close.
    + by apply queue_ok_task, queue_ok_open.
    + by eapply lookup_lt_Some.
    + rewrite Hin. done.
    + intros u Hu. rewrite list_lookup_alter_eq, Htask in Hu. injection Hu as <-. split; cbn; [congruence|]. by intros mode p [= <- <-].
  - exists ids. cbn. split; [done|]. split; [|done]. pose proof Hq as (_ & _ & Hin & Hok). apply queue_ok_close.
    + by apply queue_ok_open.
    + by eapply lookup_lt_Some.
    + rewrite Hin by done. split; [done|]. intros _. by exists (InSched k Enter).
    + intros u Hu. destruct (Hok t _ u ltac:(done) Ht Hu) as [Ha _]. split; [|done].
      intros (_ & mode & E)%Ha. done.
  - unfold complete. rewrite Hw, wake_waiters. cbn.
    destruct (wake_first_ok _ comp_view_mode _ _ _ _ Hq ltac:(done)) as [Hq' _].
    exists ids. cbn. split; [done|]. split; [done|]. rewrite (wrap_small 32 (done c + 1)) by lia. lia.
  - exists ids. cbn. split; [done|]. by split; [apply queue_ok_alter|].
  - exists ids. cbn. split; [done|]. split; [|done]. apply queue_ok_alter; [apply resume_ok|done].
Qed.

Lemma comp_reachable_inv ok n s : comp_reachable ok n s -> comp_inv s.
Proof.
  induction 1 as [|s s' _ IH Hs _]; [|by eapply comp_step_inv].
  exists []. cbn. split; [done|]. split; [|lia].
  split; [by rewrite !length_replicate|]. split; [constructor|]. split.
  - intros t _. split; [by intros ?%not_elem_of_nil|]. intros (pc & [-> _]%lookup_replicate & Hw). by destruct Hw.
  - intros t pc task _ [-> _]%lookup_replicate [-> _]%lookup_replicate. done.
Qed.

(** C29: Every successful wait has taken one call of complete, and none is
    taken twice or forgotten: [done] is the number of calls that have not been
    taken, in every interleaving of waiters with and without timeouts; and no
    thread removes a wait queue entry that is not queued. *)
Theorem completion_conserves n s :
  comp_reachable (λ _, True) n s ->
  0 <= taken s <= given s /\ done (comp s) = given s - taken s /\
  (forall t k, pcs s !! t = Some Idle -> is_Some (wait_for_completion k t (comp s) (tasks s))) /\
  (forall t k timeout, pcs s !! t = Some (SchedBack k timeout) -> is_Some (wait_again k timeout t (comp s) (tasks s))).
Proof.
  intros Hr. pose proof (comp_reachable_inv _ _ _ Hr) as (ids & Hw & Hq & Hd & Hg & Hn).
  split; [lia|]. split; [done|]. split.
  - intros t k Ht. destruct (running _ _ _ _ _ _ Hq Ht) as (task & Htask & _ & _); [done|].
    unfold wait_for_completion. case_test; [|done]. unfold wait_loop. rewrite Htask. cbn [mbind option_bind].
    destruct k; [done|done|]. case_test; [|done]. cbn [wait]. rewrite Hw.
    change (is_Some (q ← __remove_wait_queue t (add_wait_queue_exclusive_locked (waiters ids) (DECLARE_WAITQUEUE t));
      Some (Comp (done (comp s)) q, tasks s, Restart))).
    rewrite add_waiter, remove_waiter; [done|]. apply elem_of_app. right. left.
  - intros t k timeout Ht. destruct (running _ _ _ _ _ _ Hq Ht) as (task & Htask & _ & Hin); [done|].
    assert (t ∈ ids) as Hti by (by apply Hin).
    unfold wait_again, wait_loop. rewrite Hw, remove_waiter, Htask by done. cbn [mbind option_bind].
    destruct k; repeat case_test; done.
Qed.


Lemma loop_tasks k t c ts c' ts' r x : x <> t -> wait_loop k t c ts = Some (c', ts', r) -> ts' !! x = ts !! x.
Proof.
  intros Hx. unfold wait_loop. destruct (ts !! t) as [task|]; cbn; [|discriminate].
  destruct k; [by intros [= _ <- _]; rewrite list_lookup_alter_ne..|].
  case_test; [|by intros [= _ <- _]; rewrite list_lookup_alter_ne].
  destruct (__remove_wait_queue t (wait c)); cbn; [by intros [= _ <- _]|discriminate].
Qed.

Lemma wait_tasks k t c ts c' ts' r x : x <> t ->
  wait_for_completion k t c ts = Some (c', ts', r) \/ (exists timeout, wait_again k timeout t c ts = Some (c', ts', r)) ->
  ts' !! x = ts !! x.
Proof.
  intros Hx [H|[timeout H]]; [unfold wait_for_completion in H|unfold wait_again in H].
  - case_test; [by eapply loop_tasks|by simplify_eq].
  - repeat case_test; [|by eapply loop_tasks|]; destruct (__remove_wait_queue t (wait c)); cbn in H; by simplify_eq.
Qed.

(** A section of thread [t] leaves a plain waiter as it was. *)
Lemma served_wait c ts l g n c' ts' t k r :
  (t < length l)%nat -> plain_served (State c ts l g n) ->
  (forall x, x <> t -> ts' !! x = ts !! x) ->
  0 <= done c' -> done c' + wait_taken r n = done c + n -> (r = Waits -> done c = 0) ->
  plain_served (State c' ts' (<[t := wait_pc k r]> l) g (wait_taken r n)).
Proof.
  intros Hlt Hs Hts H1 H2 H3 x p Hx Hd. cbn in *. destruct (decide (x = t)) as [->|Hne].
  - rewrite list_lookup_insert_eq in Hx by done. destruct r; cbn in *; try done. specialize (H3 eq_refl). lia.
  - rewrite list_lookup_insert_ne in Hx by done. rewrite Hts by done. apply (Hs x p Hx). cbn. destruct r; cbn in *; lia.
Qed.

Lemma plain_served_alter f t c ts l g n :
  (forall task, resumed task = true -> resumed (f task) = true) ->
  plain_served (State c ts l g n) -> plain_served (State c (alter f t ts) l g n).
Proof.
  intros Hf Hs x p Hx Hd. destruct (Hs x p Hx Hd) as (task & Htask & Hr). cbn in *. destruct (decide (x = t)) as [->|].
  - exists (f task). rewrite list_lookup_alter_eq, Htask. auto.
  - exists task. by rewrite list_lookup_alter_ne.
Qed.

Lemma served_insert y t c ts l g n :
  (t < length l)%nat -> (forall p, y <> InSched Plain p) ->
  plain_served (State c ts l g n) -> plain_served (State c ts (<[t := y]> l) g n).
Proof.
  intros Hlt Hy Hs x p Hx Hd. cbn in *. destruct (decide (x = t)) as [->|].
  - rewrite list_lookup_insert_eq in Hx by done. simplify_eq. by destruct (Hy p).
  - rewrite list_lookup_insert_ne in Hx by done. by apply (Hs x p).
Qed.

Lemma served_complete g n ids c ts l :
  wait c = waiters ids -> queue_ok comp_view ids None ts l -> (length ids <= 1)%nat ->
  plain_served (State (complete c ts).1 (complete c ts).2 l (g + 1) n).
Proof.
  intros Hw Hq Hlen x p Hx _. cbn in Hx. unfold complete. rewrite Hw, wake_waiters. cbn.
  destruct (wake_first_ok _ comp_view_mode _ _ _ _ Hq ltac:(done)) as [_ Haw].
  pose proof Hq as (_ & _ & Hin & _).
  assert (x ∈ ids) as Hxi by (apply Hin; [done|]; by exists (InSched Plain p)).
  destruct ids as [|h [|? ?]]; [by apply not_elem_of_nil in Hxi| |cbn in Hlen; lia].
  apply list_elem_of_singleton in Hxi as ->.
  destruct (Haw ltac:(done)) as (y & task & Hy & Htask & Hawk). simplify_eq. by exists task.
Qed.

Lemma one_waiter_served n s : comp_reachable one_waiter n s -> plain_served s.
Proof.
  induction 1 as [|s s' Hr IH Hs Hone].
  { intros t p Ht. cbn in Ht. apply lookup_replicate in Ht as [? _]. done. }
  pose proof (comp_reachable_inv _ _ _ Hr) as (ids & Hw & Hq & Hd & Hg & Hn).
  destruct Hs as [c ts l g m t k c' ts' r Ht H|c ts l g m t k timeout c' ts' r Ht H|c ts l g m t k p task task' p' timeout Ht Htask Hp Hto
    |c ts l g m t k timeout Ht Hk|c ts l g m t k Ht Hk|c ts l g m t Ht Hmax|c ts l g m t p b|c ts l g m t];
    cbn [comp tasks pcs given taken] in *.
  - destruct (wait_done k t c ts c' ts' r m) as (H1 & H2 & H3); [lia|by left|].
    apply served_wait with c ts; try done; [by eapply lookup_lt_Some|]. intros x Hx. eapply wait_tasks; eauto.
  - destruct (wait_done k t c ts c' ts' r m) as (H1 & H2 & H3); [lia|by eauto|].
    apply served_wait with c ts; try done; [by eapply lookup_lt_Some|]. intros x Hx. eapply wait_tasks; eauto.
  - intros x q Hx Hdone. cbn in *. pose proof (lookup_lt_Some _ _ _ Ht). pose proof (lookup_lt_Some _ _ _ Htask).
    destruct (decide (x = t)) as [->|].
    + rewrite list_lookup_insert_eq in Hx by done. destruct p' as [p'|]; [|done]. simplify_eq.
      exists task'. rewrite list_lookup_insert_eq by done. split; [done|].
      destruct (IH t p Ht Hdone) as (u & Hu & Hru). cbn in Hu. simplify_eq.
      pose proof Hq as (_ & _ & _ & Hok).
      destruct (schedule_ok comp_view (InSched Plain p) (kind_state Plain) p task task' (Some q) (InSched Plain q)) as [_ Haw];
        try done; [by apply (Hok t)|]. by apply Haw.
    + rewrite list_lookup_insert_ne in Hx by done. rewrite list_lookup_insert_ne by done. by apply (IH x q).
  - apply served_insert; [by eapply lookup_lt_Some|congruence|]. by apply plain_served_alter.
  - apply served_insert; [by eapply lookup_lt_Some|congruence|]. done.
  - eapply served_complete; [done|done|].
    unfold one_waiter in Hone. cbn in Hone. rewrite Hw, wake_waiters in Hone. cbn in Hone. unfold waiters in Hone.
    by rewrite length_fmap in Hone.
  - by apply plain_served_alter.
  - apply plain_served_alter; [|done]. intros. apply resume_resumed.
Qed.

(** With one waiter at a time no completion is lost: when no thread can
    move, a thread that sleeps in wait_for_completion sleeps because nothing is
    left to take. *)
Theorem completion_one_waiter n s t p :
  comp_reachable one_waiter n s -> stuck s -> pcs s !! t = Some (InSched Plain p) -> done (comp s) = 0.
Proof.
  intros Hr Hst Ht. destruct (decide (done (comp s) = 0)) as [|Hd]; [done|exfalso].
  destruct (one_waiter_served _ _ Hr t p Ht Hd) as (task & Htask & Hres).
  destruct (Hst t _ Ht) as [|(k & u & E & Hu & Ha)]; [done|]. simplify_eq.
  pose proof (comp_reachable_inv _ _ _ Hr) as (ids & _ & (_ & _ & _ & Hok) & _).
  destruct (Hok t _ _ ltac:(done) Ht Htask) as [H _]. destruct (H Ha). congruence.
Qed.


(** Two threads have waited, a third has called complete twice; the first has
    returned. *)
Definition example_lost : comp_state :=
  State (Comp 1 [waiter 1]) [running_task; sleeping_task; running_task] [Idle; InSched Plain Suspended; Idle] 2 1.

(** With two waiters a wake-up can be lost: both calls of complete wake
    the first waiter, since default_wake_function reports success for a task
    that was woken already, and when it has returned the second sleeps for
    ever although a completion is left. *)
Theorem completion_loses_wakeup :
  exists s t, comp_reachable (λ _, True) 3 s /\ stuck s /\ pcs s !! t = Some (InSched Plain Suspended) /\ done (comp s) = 1.
Proof.
  exists example_lost, 1%nat. split; [|split; [|done]].
  - pose proof (comp_start (λ _, True) 3) as H.
    eapply (comp_next (λ _, True) 3) in H; [|eapply (step_wait _ _ _ _ _ 0 Plain); reflexivity|done].
    eapply (comp_next (λ _, True) 3) in H; [|eapply (step_wait _ _ _ _ _ 1 Plain); reflexivity|done].
    do 2 (eapply (comp_next (λ _, True) 3) in H; [|eapply (step_schedule _ _ _ _ _ 0 Plain _ _ _ _ 0); reflexivity|done]).
    do 2 (eapply (comp_next (λ _, True) 3) in H; [|eapply (step_schedule _ _ _ _ _ 1 Plain _ _ _ _ 0); reflexivity|done]).
    do 2 (eapply (comp_next (λ _, True) 3) in H; [|eapply (step_complete _ _ _ _ _ 2); reflexivity|done]).
    eapply (comp_next (λ _, True) 3) in H; [|eapply (step_schedule _ _ _ _ _ 0 Plain _ _ _ _ 0); reflexivity|done].
    eapply (comp_next (λ _, True) 3) in H; [|eapply (step_again _ _ _ _ _ 0 Plain 0); reflexivity|done].
    exact H.
  - intros [|[|[|t]]] pc Hpc; cbn in Hpc; simplify_eq; [by left| |by left].
    right. by exists Plain, sleeping_task.
Qed.

Definition example_waits : comp_state := State (Comp 0 [waiter 0]) [sleeping_task] [InSched Plain Suspended] 0 0.

Lemma example_waits_reachable ok : (forall s, (length (wait (comp s)) <= 1)%nat -> ok s) -> comp_reachable ok 1 example_waits.
Proof.
  intros Hok. pose proof (comp_start ok 1) as H.
  eapply (comp_next ok 1) in H; [|eapply (step_wait _ _ _ _ _ 0 Plain); reflexivity|apply Hok; cbn; lia].
  do 2 (eapply (comp_next ok 1) in H; [|eapply (step_schedule _ _ _ _ _ 0 Plain _ _ _ _ 0); reflexivity|apply Hok; cbn; lia]).
  exact H.
Qed.

Lemma completion_conserves_witness : done (comp example_waits) = 0 /\ 0 <= taken example_waits <= given example_waits.
Proof. split; [reflexivity|]. apply (completion_conserves 1 example_waits (example_waits_reachable (λ _, True) ltac:(done))). Defined.

Lemma completion_one_waiter_witness : stuck example_waits /\ done (comp example_waits) = 0.
Proof.
  assert (stuck example_waits) as Hst.
  { intros [|t] pc Hpc; [|done]. right. exists Plain, sleeping_task. split; [cbn in Hpc; congruence|done]. }
  split; [exact Hst|].
  apply (completion_one_waiter 1 example_waits 0 Suspended (example_waits_reachable one_waiter ltac:(done)) Hst). reflexivity.
Defined.
