(* ===== verification/WaitEvent.v ===== *)
(** Waiting for a condition: prepare_to_wait, finish_wait and
    autoremove_wake_function of [linux/kernel/wait.c] and the wait_event macros
    of [include/linux/wait.h].

    Any number of threads wait for one condition on one queue; others set it,
    clear it, and wake the queue. The condition is read in one step. A step of
    finish_wait takes the entry off the queue when it is there: nobody else
    queues it, so that the test before the lock decides the same. *)

From S2P Require Import Prelude Task Waitq.
Local Open Scope Z_scope.

(** ** Entries that leave the queue when they are woken *)

(** prepare_to_wait of the current task [t]; DEFINE_WAIT binds the entry to the
    task, so that its state is always set. *)
Definition prepare_to_wait (t : nat) (mode : Z) (q : list wait_queue_t) (ts : list task_struct) :
    list wait_queue_t * list task_struct :=
  let w := clear_exclusive (DEFINE_WAIT t) in
  (if queued t q then q else __add_wait_queue q w, alter (set_state mode) t ts).

Definition finish_wait (t : nat) (q : list wait_queue_t) (ts : list task_struct) : list wait_queue_t * list task_struct :=
  let ts := alter (set_state TASK_RUNNING) t ts in
  (if queued t q then unlink t q else q, ts).

(** wait_event, _timeout, _interruptible and _interruptible_timeout. *)
Record event_kind := Kind {
  interruptible : bool;
  timed : bool;
}.

Definition event_mode (k : event_kind) : Z := if interruptible k then TASK_INTERRUPTIBLE else TASK_UNINTERRUPTIBLE.

Inductive event_pc :=
| Idle
| Prepare (k : event_kind)
| CheckCondition (k : event_kind)
| CheckSignal (k : event_kind)
| InSched (k : event_kind) (p : sched_pc)
| SchedBack (k : event_kind) (timeout : Z)
| Finish (k : event_kind)
| WakeUp (mode nr : Z).

Record event_state := State {
  queue : list wait_queue_t;
  tasks : list task_struct;
  pcs : list event_pc;
  condition : bool;
}.

(** What a waiter does next, on a condition and a task that has or has not a
    signal. *)
Definition after_condition (k : event_kind) (c : bool) : event_pc :=
  if c then Finish k else if interruptible k then CheckSignal k else InSched k Enter.
Definition after_signal (k : event_kind) (pending : bool) : event_pc :=
  if pending then Finish k else InSched k Enter.
Definition after_schedule (k : event_kind) (p : option sched_pc) (timeout : Z) : event_pc :=
  match p with
  | Some p => InSched k p
  | None => if timed k then SchedBack k timeout else Prepare k
  end.

Section steps.
Context (wakes : Z -> Z -> Prop).   (* the modes and numbers the queue is woken with *)

Inductive event_step : event_state -> event_state -> Prop :=
| step_wait_event q ts l c t k : l !! t = Some Idle ->
    event_step (State q ts l c) (State q ts (<[t := if c then Idle else Prepare k]> l) c)
| step_prepare q ts l c t k : l !! t = Some (Prepare k) ->
    event_step (State q ts l c)
      (State (prepare_to_wait t (event_mode k) q ts).1 (prepare_to_wait t (event_mode k) q ts).2 (<[t := CheckCondition k]> l) c)
| step_condition q ts l c t k : l !! t = Some (CheckCondition k) ->
    event_step (State q ts l c) (State q ts (<[t := after_condition k c]> l) c)
| step_signal q ts l c t k task : l !! t = Some (CheckSignal k) -> ts !! t = Some task ->
    event_step (State q ts l c) (State q ts (<[t := after_signal k (signal_pending task)]> l) c)
| step_schedule q ts l c t k p task task' p' timeout : l !! t = Some (InSched k p) -> ts !! t = Some task ->
    schedule p task = Some (task', p') ->
    event_step (State q ts l c) (State q (<[t := task']> ts) (<[t := after_schedule k p' timeout]> l) c)
| step_timeout q ts l c t k timeout : l !! t = Some (SchedBack k timeout) ->
    event_step (State q ts l c) (State q ts (<[t := if timeout =? 0 then Finish k else Prepare k]> l) c)
| step_timer_again q ts l c t k timeout : l !! t = Some (SchedBack k timeout) ->
    event_step (State q ts l c) (State q (alter (set_state (event_mode k)) t ts) (<[t := InSched k Enter]> l) c)
| step_no_sleep q ts l c t k : l !! t = Some (InSched k Enter) -> timed k = true ->
    event_step (State q ts l c) (State q ts (<[t := SchedBack k 0]> l) c)
| step_finish q ts l c t k : l !! t = Some (Finish k) ->
    event_step (State q ts l c) (State (finish_wait t q ts).1 (finish_wait t q ts).2 (<[t := Idle]> l) c)
| step_set q ts l c t mode nr c' : l !! t = Some Idle -> wakes mode nr ->
    event_step (State q ts l c) (State q ts (<[t := WakeUp mode nr]> l) (c || c'))
| step_wake_up q ts l c t mode nr : l !! t = Some (WakeUp mode nr) ->
    event_step (State q ts l c) (State (__wake_up q mode nr ts).1 (__wake_up q mode nr ts).2 (<[t := Idle]> l) c)
| step_clear q ts l c : event_step (State q ts l c) (State q ts l false)
| step_signals q ts l c t p b :
    event_step (State q ts l c) (State q (alter (set_signals p b) t ts) l c)
| step_resume q ts l c t :
    event_step (State q ts l c) (State q (alter LinuxTask_Resume t ts) l c).

Inductive event_reachable (n : nat) : event_state -> Prop :=
| event_start : event_reachable n
    (State [] (replicate n running_task) (replicate n Idle) false)
| event_next s s' : event_reachable n s -> event_step s s' -> event_reachable n s'.
End steps.

(** Nothing moves: every thread is outside or asleep. *)
Definition stuck (s : event_state) : Prop :=
  forall t pc, pcs s !! t = Some pc -> pc = Idle \/
    exists k task, pc = InSched k Suspended /\ tasks s !! t = Some task /\ asleep task = true.

(** wake_up, wake_up_nr and wake_up_all. *)
Definition wakes_all (mode nr : Z) : Prop := mode = mode_all.

(** ** Waking a queue of waiters *)

Definition event_waiters (ids : list nat) : list wait_queue_t := DEFINE_WAIT <$> ids.

Lemma wake_event_cons mode nr h q ts :
  __wake_up_common (DEFINE_WAIT h :: q) mode nr ts = __wake_up_common q mode nr (alter (wake_task mode) h ts).
Proof.
  cbn [__wake_up_common]. unfold call_func. rewrite default_wake_alter. cbn [func DEFINE_WAIT private fst snd app].
  change (negb (1 =? 0) && exclusive (DEFINE_WAIT h)) with false. cbn. by rewrite <- surjective_pairing.
Qed.

Lemma wake_event_waiters mode nr ids : forall ts,
  (__wake_up (event_waiters ids) mode nr ts).1 = [] /\
  length (__wake_up (event_waiters ids) mode nr ts).2 = length ts /\
  forall t task, ts !! t = Some task -> exists task',
    (__wake_up (event_waiters ids) mode nr ts).2 !! t = Some task' /\ state task' = state task /\
    (asleep task' = true -> asleep task = true /\ task' = task) /\
    (resumed task = true \/ (t ∈ ids /\ Z.land (state task) mode <> 0) -> resumed task' = true).
Proof.
  induction ids as [|h ids IH]; intros ts.
  { split; [done|]. split; [done|]. intros t task Ht. exists task. split_and!; try done. by intros [|[?%not_elem_of_nil _]]. }
  unfold __wake_up, event_waiters in *. rewrite fmap_cons, wake_event_cons.
  destruct (IH (alter (wake_task mode) h ts)) as (Hq & Hl & Ht). split; [done|].
  split; [by rewrite Hl, length_alter|]. intros t task Htask.
  destruct (wake_task_fields mode task) as (Es & _ & _ & Ea & Er).
  destruct (decide (t = h)) as [->|Hne].
  - destruct (Ht h (wake_task mode task)) as (task' & -> & Hs & Has & Hr); [by rewrite list_lookup_alter_eq, Htask|].
    exists task'. split; [done|]. split; [congruence|]. split.
    + intros [E1 ->]%Has. by apply Ea.
    + intros Hor. apply Hr. left. destruct Hor as [?|[_ ?]]; [by apply Er|by apply wake_task_resumed].
  - destruct (Ht t task) as (task' & -> & Hs & Has & Hr); [by rewrite list_lookup_alter_ne|].
    exists task'. split_and!; try done. intros [?|[Hin ?]]; apply Hr; [by left|right].
    split; [|done]. apply elem_of_cons in Hin as [|]; done.
Qed.

Lemma queued_event t ids : queued t (event_waiters ids) = true <-> t ∈ ids.
Proof.
  unfold queued. rewrite existsb_exists. unfold event_waiters. split.
  - intros (w & Hw%list_elem_of_In & E%Nat.eqb_eq). apply list_elem_of_fmap in Hw as (x & -> & Hx). cbn in E. by subst.
  - intros Ht. exists (DEFINE_WAIT t). split; [|apply Nat.eqb_refl]. apply list_elem_of_In, list_elem_of_fmap. eauto.
Qed.

Lemma unlink_event t ids : unlink t (event_waiters ids) = event_waiters (without t ids).
Proof.
  unfold unlink, event_waiters, without. induction ids as [|x ids IH]; [done|]. rewrite fmap_cons, !filter_cons.
  cbn [private DEFINE_WAIT]. case_decide; [rewrite fmap_cons|]; by rewrite IH.
Qed.

(** ** The invariant *)

(** Somebody is about to wake the queue. *)
Definition waking (l : list event_pc) : Prop := exists u mode nr, l !! u = Some (WakeUp mode nr).

(** A waiter is in the queue, in the state that its waker looks for, or has been
    woken. *)
Definition armed (ids : list nat) (t : nat) (k : event_kind) (task : task_struct) : Prop :=
  state task = event_mode k /\ (t ∈ ids \/ resumed task = true).

(** A waiter without a timeout that has seen the condition false will run, or
    the condition is still false, or the queue is woken soon. *)
Definition event_ok (ids : list nat) (c : bool) (w : Prop) (t : nat) (pc : event_pc) (task : task_struct) : Prop :=
  (asleep task = true -> resumed task = false /\ exists k, pc = InSched k Suspended) /\
  match pc with
  | CheckCondition k => timed k = false -> armed ids t k task
  | CheckSignal k | InSched k _ =>
      timed k = false -> armed ids t k task /\ (resumed task = true \/ c = false \/ w)
  | SchedBack k _ => timed k = true
  | WakeUp mode _ => mode = mode_all
  | _ => True
  end.

Definition event_inv (s : event_state) : Prop :=
  exists ids, queue s = event_waiters ids /\ length (tasks s) = length (pcs s) /\
    forall t pc task, pcs s !! t = Some pc -> tasks s !! t = Some task ->
      event_ok ids (condition s) (waking (pcs s)) t pc task.

Lemma event_ok_mono ids ids' c c' (w w' : Prop) t pc task :
  (t ∈ ids -> t ∈ ids') -> (c = false -> c' = false \/ w') -> (w -> w') ->
  event_ok ids c w t pc task -> event_ok ids' c' w' t pc task.
Proof.
  intros Hids Hc Hw [Ha H]. split; [done|]. unfold armed in *. destruct pc; try done; naive_solver.
Qed.

Lemma waking_insert l t y : (forall mode nr, l !! t <> Some (WakeUp mode nr)) -> waking l -> waking (<[t := y]> l).
Proof.
  intros Ht (u & mode & nr & Hu). exists u, mode, nr. rewrite list_lookup_insert_ne; [done|]. intros ->. by apply Ht in Hu.
Qed.

(** A step of thread [t] that is not the wake-up. *)
Lemma event_thread q ts l c q' ts' c' t x y ids ids' task' :
  q = event_waiters ids -> length ts = length l ->
  (forall t pc task, l !! t = Some pc -> ts !! t = Some task -> event_ok ids c (waking l) t pc task) ->
  l !! t = Some x -> (forall mode nr, x <> WakeUp mode nr) ->
  q' = event_waiters ids' -> length ts' = length ts -> ts' !! t = Some task' ->
  (forall u, u <> t -> ts' !! u = ts !! u) -> (forall u, u <> t -> u ∈ ids -> u ∈ ids') ->
  (c = false -> c' = false \/ waking (<[t := y]> l)) ->
  event_ok ids' c' (waking (<[t := y]> l)) t y task' ->
  event_inv (State q' ts' (<[t := y]> l) c').
Proof.
  intros -> Hl Hok Hx Hnw -> Hl' Htask' Hts Hids Hc Hy. exists ids'. cbn. rewrite length_insert. split; [done|].
  split; [congruence|]. intros u pc task Hpc Htask. destruct (decide (u = t)) as [->|Hne].
  - rewrite list_lookup_insert_eq in Hpc by (by eapply lookup_lt_Some). by simplify_eq.
  - rewrite list_lookup_insert_ne in Hpc by done. rewrite Hts in Htask by done.
    apply event_ok_mono with ids c (waking l); auto. apply waking_insert. intros mode nr. rewrite Hx. congruence.
Qed.

Lemma event_schedule ids c (w w' : Prop) t k p timeout task task' p' :
  (w -> w') -> event_ok ids c w t (InSched k p) task -> schedule p task = Some (task', p') ->
  event_ok ids c w' t (after_schedule k p' timeout) task'.
Proof.
  intros Hw [Ha H] Hs. destruct (decide (p = Enter)) as [->|Hp].
  - assert (asleep task = false) as Hf by (destruct (asleep task); [by destruct Ha as (_ & ? & ?)|done]).
    cbn in Hs. repeat case_test; simplify_eq; (split; [congruence|]); cbn; try (by destruct (timed k) eqn:?).
    intros Hk. destruct (H Hk) as [? [|[|]]]; auto.
  - destruct (suspend_cases p task Hp) as [(E & _)|(u & E & Hu & Hau & Hr & _)]; [congruence|]. rewrite E in Hs. simplify_eq.
    assert (asleep task = true -> resumed task = false) as Hf by (intros Has; by apply Ha).
    destruct (resumed task) eqn:Er; cbn.
    + split; [|by destruct (timed k) eqn:?]. rewrite Hau. by intros ?%Hf.
    + split; [eauto|]. intros Hk. destruct (H Hk) as [[Hst [|]] Hor]; [|congruence]. unfold armed. rewrite Hu.
      split; [auto|]. destruct Hor as [|[|]]; [congruence|auto..].
Qed.

Lemma event_mode_mask k : Z.land (event_mode k) mode_all <> 0.
Proof. by destruct k as [[] ?]. Qed.

Lemma event_ok_woken ids c w w' t pc task task' :
  event_ok ids c w t pc task -> state task' = state task ->
  (asleep task' = true -> asleep task = true /\ task' = task) ->
  (resumed task = true \/ (t ∈ ids /\ Z.land (state task) mode_all <> 0) -> resumed task' = true) ->
  event_ok [] c w' t pc task'.
Proof.
  intros [Ha H] Hs Has Hr. split; [intros [E ->]%Has; by apply Ha|].
  assert (forall k, armed ids t k task -> resumed task' = true /\ armed [] t k task') as Harm.
  { intros k [E Hor]. assert (resumed task' = true) as Hr'.
    { apply Hr. destruct Hor as [?|?]; [right|by left]. split; [done|]. rewrite E. apply event_mode_mask. }
    split; [done|]. split; [congruence|by right]. }
  destruct pc; try done; intros Hk.
  - by apply Harm, H.
  - destruct (Harm _ (proj1 (H Hk))). auto.
  - destruct (Harm _ (proj1 (H Hk))). auto.
Qed.

Lemma event_alter ids q ts l c t f :
  q = event_waiters ids -> length ts = length l ->
  (forall t pc task, l !! t = Some pc -> ts !! t = Some task -> event_ok ids c (waking l) t pc task) ->
  (forall pc task, event_ok ids c (waking l) t pc task -> event_ok ids c (waking l) t pc (f task)) ->
  event_inv (State q (alter f t ts) l c).
Proof.
  intros -> Hl Hok Hf. exists ids. cbn. rewrite length_alter. split; [done|]. split; [done|]. intros x pc task Hpc Hts.
  destruct (decide (x = t)) as [->|].
  - rewrite list_lookup_alter_eq in Hts. destruct (ts !! t) as [u|] eqn:Hu; [|done]. injection Hts as <-. auto.
  - rewrite list_lookup_alter_ne in Hts by done. auto.
Qed.

Lemma event_step_inv s s' : event_inv s -> event_step wakes_all s s' -> event_inv s'.
Proof.
  intros (ids & Hq & Hl & Hok) Hstep.
  assert (forall t pc, pcs s !! t = Some pc -> exists task, tasks s !! t = Some task /\ event_ok ids (condition s) (waking (pcs s)) t pc task) as Htask.
  { intros t pc Ht. destruct (lookup_lt_is_Some_2 (tasks s) t) as [task E]; [rewrite Hl; by eapply lookup_lt_Some|]. eauto. }
  destruct Hstep as [q ts l c t k Ht|q ts l c t k Ht|q ts l c t k Ht|q ts l c t k task Ht Hts|q ts l c t k p task task' p' timeout Ht Hts Hs
    |q ts l c t k timeout Ht|q ts l c t k timeout Ht|q ts l c t k Ht Hk|q ts l c t k Ht|q ts l c t mode nr c' Ht Hm|q ts l c t mode nr Ht
    |q ts l c|q ts l c t p b|q ts l c t];
    cbn [queue tasks pcs condition] in *; try (destruct (Htask t _ Ht) as (u & Hu & Hau & Hpu);
      try (assert (asleep u = false) as Has by (destruct (asleep u); [by destruct Hau as (_ & ? & ?)|done]))).
  - eapply event_thread; try done; [by left|]. split; [congruence|by destruct c].
  - unfold prepare_to_wait. cbn. change (clear_exclusive (DEFINE_WAIT t)) with (DEFINE_WAIT t). rewrite Hq.
    eapply event_thread with (task' := set_state (event_mode k) u)
      (ids' := if queued t (event_waiters ids) then ids else t :: ids); try done.
    + by destruct (queued t (event_waiters ids)).
    + by rewrite length_alter.
    + by rewrite list_lookup_alter_eq, Hu.
    + intros x Hx. by rewrite list_lookup_alter_ne.
    + intros x Hx Hin. destruct (queued _ _); [done|by right].
    + by left.
    + split; cbn; [congruence|]. intros _. split; [done|]. left.
      destruct (queued t (event_waiters ids)) eqn:E; [by apply queued_event|left].
  - eapply event_thread; try done; [by left|]. split; [congruence|].
    destruct c; cbn; [done|]. destruct (interruptible k); cbn; intros Hk; (split; [by apply Hpu|by right; left]).
  - eapply event_thread; try done; [by left|]. simplify_eq.
    split; [congruence|]. destruct (signal_pending task); [done|]. intros Hk. destruct (Hpu Hk) as [Harm Hor]. split; [done|].
    destruct Hor as [|[|Hw]]; auto. right. right. apply waking_insert; [|done]. by rewrite Ht.
  - simplify_eq. pose proof (lookup_lt_Some _ _ _ Hts).
    eapply event_thread; try done; [by rewrite length_insert|by rewrite list_lookup_insert_eq| |by left|].
    { intros x Hx. by rewrite list_lookup_insert_ne. }
    eapply event_schedule; [|by split|done]. apply waking_insert. by rewrite Ht.
  - eapply event_thread; try done; [by left|]. split; [congruence|by destruct (timeout =? 0)].
  - eapply event_thread; try done; [by rewrite length_alter|by rewrite list_lookup_alter_eq, Hu| |by left|].
    { intros x Hx. by rewrite list_lookup_alter_ne. }
    split; cbn; [congruence|]. by rewrite Hpu.
  - eapply event_thread; try done; [by left|]. split; [congruence|done].
  - unfold finish_wait. cbn. rewrite Hq.
    eapply event_thread with (ids' := if queued t (event_waiters ids) then without t ids else ids); try done.
    + destruct (queued t (event_waiters ids)); [apply unlink_event|done].
    + by rewrite length_alter.
    + by rewrite list_lookup_alter_eq, Hu.
    + intros x Hx. by rewrite list_lookup_alter_ne.
    + intros x Hx Hin. destruct (queued _ _); [by apply elem_of_without|done].
    + by left.
    + split; cbn; [congruence|done].
  - eapply event_thread; try done.
    + intros ->. right. exists t, mode, nr. by rewrite list_lookup_insert_eq by (by eapply lookup_lt_Some).
    + split; [congruence|]. exact Hm.
  - cbn in Hpu. subst mode q. destruct (wake_event_waiters mode_all nr ids ts) as (Eq & El & Et).
    exists []. cbn. rewrite length_insert. split; [done|]. split; [congruence|]. intros x pc task' Hpc Htask'.
    assert (exists task, ts !! x = Some task) as [task Hx].
    { apply lookup_lt_is_Some_2. rewrite <- El. by eapply lookup_lt_Some. }
    destruct (Et x task Hx) as (v & Hv & Hs & Has' & Hr). rewrite Hv in Htask'. simplify_eq.
    destruct (decide (x = t)) as [->|Hne].
    + rewrite list_lookup_insert_eq in Hpc by (by eapply lookup_lt_Some). simplify_eq.
      split; [|done]. intros [E _]%Has'. congruence.
    + rewrite list_lookup_insert_ne in Hpc by done. by eapply event_ok_woken; [by apply Hok|..].
  - exists ids. cbn. split; [done|]. split; [done|]. intros t pc task Hpc Hts.
    apply event_ok_mono with ids c (waking l); auto.
  - by eapply event_alter.
  - eapply event_alter; try done. intros pc task [Ha H]. split; [done|]. unfold armed in *.
    pose proof (resume_resumed task) as Hr. destruct pc; try done; intros Hk; specialize (H Hk).
    + destruct H. auto.
    + destruct H as [[] ?]. auto.
    + destruct H as [[] ?]. auto.
Qed.

Lemma event_reachable_inv n s : event_reachable wakes_all n s -> event_inv s.
Proof.
  induction 1 as [|s s' _ IH Hs]; [|by eapply event_step_inv]. exists []. cbn. split; [done|].
  split; [by rewrite !length_replicate|]. intros t pc task [-> _]%lookup_replicate [-> _]%lookup_replicate. done.
Qed.

(** C22: wait_event and wait_event_interruptible lose no wake-up: when the
    condition is set before the queue is woken with wake_up or wake_up_all, no
    interleaving of waiters, setters, signals and timeouts leaves a waiter
    asleep although nobody will wake it and the condition is true. *)
Theorem wait_event_no_lost_wakeup n s t k p :
  event_reachable wakes_all n s -> stuck s -> pcs s !! t = Some (InSched k p) -> timed k = false -> condition s = false.
Proof.
  intros Hr Hst Ht Hk. destruct (event_reachable_inv _ _ Hr) as (ids & _ & Hl & Hok).
  destruct (Hst t _ Ht) as [|(k' & u & E & Hu & Ha)]; [done|]. simplify_eq.
  destruct (Hok t _ u Ht Hu) as [Hs Hp]. destruct (Hs Ha) as [Hf _]. destruct (Hp Hk) as [_ [?|[?|(v & mode & nr & Hv)]]].
  - congruence.
  - done.
  - destruct (Hst v _ Hv) as [|(? & ? & ? & _)]; done.
Qed.

Definition event : event_kind := Kind false false.
Definition example_event_waits : event_state :=
  State [DEFINE_WAIT 0] [sleeping_task; running_task] [InSched event Suspended; Idle] false.
(** After wake_up_interruptible, and then the condition and wake_up_all. *)
Definition example_event_lost : event_state :=
  State [] [sleeping_task; running_task] [InSched event Suspended; Idle] true.

Lemma example_event_reachable wakes : event_reachable wakes 2 example_event_waits.
Proof.
  pose proof (event_start wakes 2) as H.
  eapply (event_next wakes 2) in H; [|eapply (step_wait_event _ _ _ _ _ 0 event); reflexivity].
  eapply (event_next wakes 2) in H; [|eapply (step_prepare _ _ _ _ _ 0 event); reflexivity].
  eapply (event_next wakes 2) in H; [|eapply (step_condition _ _ _ _ _ 0 event); reflexivity].
  do 2 (eapply (event_next wakes 2) in H; [|eapply (step_schedule _ _ _ _ _ 0 event _ _ _ _ 0); reflexivity]).
  exact H.
Qed.

Lemma example_event_stuck q c : stuck (State q [sleeping_task; running_task] [InSched event Suspended; Idle] c).
Proof.
  intros [|[|t]] pc Hpc; cbn in Hpc; simplify_eq; [|by left]. right. by exists event, sleeping_task.
Qed.

Lemma wait_event_no_lost_wakeup_witness : stuck example_event_waits /\ condition example_event_waits = false.
Proof.
  split; [apply example_event_stuck|].
  apply (wait_event_no_lost_wakeup 2 example_event_waits 0 event Suspended (example_event_reachable wakes_all)
    (example_event_stuck _ _)); reflexivity.
Defined.

(** wake_up_interruptible takes an uninterruptible waiter off the queue
    without waking it, since default_wake_function reports success whatever the
    state of the task; the waiter misses every later wake-up and sleeps for
    ever although the condition is true. *)
Theorem wake_up_interruptible_drops_waiter :
  exists s t, event_reachable (λ _ _, True) 2 s /\ stuck s /\ pcs s !! t = Some (InSched event Suspended) /\
    queue s = [] /\ condition s = true.
Proof.
  exists example_event_lost, 0%nat. split; [|split; [apply example_event_stuck|done]].
  pose proof (example_event_reachable (λ _ _, True)) as H.
  eapply (event_next _ 2) in H; [|eapply (step_set _ _ _ _ _ 1 TASK_INTERRUPTIBLE 1 false); [reflexivity|done]].
  eapply (event_next _ 2) in H; [|eapply (step_wake_up _ _ _ _ _ 1); reflexivity].
  eapply (event_next _ 2) in H; [|eapply (step_set _ _ _ _ _ 1 mode_all 0 true); [reflexivity|done]].
  eapply (event_next _ 2) in H; [|eapply (step_wake_up _ _ _ _ _ 1); reflexivity].
  exact H.
Qed.
