(* ===== verification/Ctype.v ===== *)
(** Character classes: [vmklinux26/vmware/linux_ctype.c] and
    [include/linux/ctype.h]. A character is the byte that the macros take of
    it, between 0 and 255. *)

From S2P Require Import Prelude.
Local Open Scope Z_scope.

Definition _U : Z := 0x01.
Definition _L : Z := 0x02.
Definition _D : Z := 0x04.
Definition _C : Z := 0x08.
Definition _P : Z := 0x10.
Definition _S : Z := 0x20.
Definition _X : Z := 0x40.
Definition _SP : Z := 0x80.

Definition _ctype : list Z := (
  [_C;_C;_C;_C;_C;_C;_C;_C;
   _C;_C |' _S;_C |' _S;_C |' _S;_C |' _S;_C |' _S;_C;_C;
   _C;_C;_C;_C;_C;_C;_C;_C;
   _C;_C;_C;_C;_C;_C;_C;_C;
   _S |' _SP;_P;_P;_P;_P;_P;_P;_P;
   _P;_P;_P;_P;_P;_P;_P;_P;
   _D;_D;_D;_D;_D;_D;_D;_D;
   _D;_D;_P;_P;_P;_P;_P;_P;
   _P;_U |' _X;_U |' _X;_U |' _X;_U |' _X;_U |' _X;_U |' _X;_U;
   _U;_U;_U;_U;_U;_U;_U;_U;
   _U;_U;_U;_U;_U;_U;_U;_U;
   _U;_U;_U;_P;_P;_P;_P;_P;
   _P;_L |' _X;_L |' _X;_L |' _X;_L |' _X;_L |' _X;_L |' _X;_L;
   _L;_L;_L;_L;_L;_L;_L;_L;
   _L;_L;_L;_L;_L;_L;_L;_L;
   _L;_L;_L;_P;_P;_P;_P;_C;
   0;0;0;0;0;0;0;0;0;0;0;0;0;0;0;0;
   0;0;0;0;0;0;0;0;0;0;0;0;0;0;0;0;
   _S |' _SP;_P;_P;_P;_P;_P;_P;_P;_P;_P;_P;_P;_P;_P;_P;_P;
   _P;_P;_P;_P;_P;_P;_P;_P;_P;_P;_P;_P;_P;_P;_P;_P;
   _U;_U;_U;_U;_U;_U;_U;_U;_U;_U;_U;_U;_U;_U;_U;_U;
   _U;_U;_U;_U;_U;_U;_U;_P;_U;_U;_U;_U;_U;_U;_U;_L;
   _L;_L;_L;_L;_L;_L;_L;_L;_L;_L;_L;_L;_L;_L;_L;_L;
   _L;_L;_L;_L;_L;_L;_L;_P;_L;_L;_L;_L;_L;_L;_L;_L])%cint.

(** The index is an unsigned char, so that it is always inside. *)
Definition __ismask (x : Z) : Z := nth (Z.to_nat (u8 x)) _ctype 0.

Definition ismask (mask c : Z) : bool := negb (Z.land (__ismask c) mask =? 0).
Definition isdigit (c : Z) : bool := ismask _D c.
Definition islower (c : Z) : bool := ismask _L c.
Definition isspace (c : Z) : bool := ismask _S c.
Definition isupper (c : Z) : bool := ismask _U c.
Definition isxdigit (c : Z) : bool := ismask (Z.lor _D _X) c.

Definition __tolower (c : Z) : Z := if isupper c then u8 (c - (65 - 97)) else u8 c.
Definition __toupper (c : Z) : Z := if islower c then u8 (c - (97 - 65)) else u8 c.

(** ** The ASCII characters *)

Definition between (a b c : Z) : bool := (a <=? c) && (c <=? b).

(** A fact about all bytes, by evaluation. *)
Ltac all_bytes c Hc :=
  revert c Hc; refine (forall_below 256 _ _); vm_compute; reflexivity.

Lemma isdigit_range c : 0 <= c < 256 -> isdigit c = between 48 57 c.
Proof. intros Hc. apply eqb_prop. all_bytes c Hc. Qed.

Lemma isxdigit_range c : 0 <= c < 256 -> isxdigit c = between 48 57 c || between 65 70 c || between 97 102 c.
Proof. intros Hc. apply eqb_prop. all_bytes c Hc. Qed.

Lemma isspace_range c : 0 <= c < 256 -> isspace c = between 9 13 c || (c =? 32) || (c =? 160).
Proof. intros Hc. apply eqb_prop. all_bytes c Hc. Qed.

Lemma islower_xdigit c : 0 <= c < 256 -> isxdigit c && islower c = between 97 102 c.
Proof. intros Hc. apply eqb_prop. all_bytes c Hc. Qed.

Lemma toupper_range c : 0 <= c < 256 -> 0 <= __toupper c < 256.
Proof. intros _. unfold __toupper. case_test; by apply wrap_range. Qed.

Lemma toupper_X c : 0 <= c < 256 -> (__toupper c =? 88) = (c =? 88) || (c =? 120).
Proof. intros Hc. apply eqb_prop. all_bytes c Hc. Qed.
