(* ===== verification/Strings.v ===== *)
(** The string routines of [vmklinux26/linux/lib/string.c] that are compiled
    for the hypervisor, on a byte memory: an access outside it, a [BUG_ON]
    and copying between areas that overlap are faults. A pointer that can be
    [NULL] is an option. The characters are bytes; [char] being signed makes no
    difference to comparisons for equality and to the character macros. *)

From S2P Require Import Prelude Ctype.
Local Open Scope Z_scope.

(** ** Length and copying *)

(** The for loop of [strlen], and the first while loop of the functions that
    append. *)
Fixpoint skip (fuel : nat) (m : list Z) (sc : Z) : option Z :=
  match fuel with
  | O => None
  | S fuel => c ← read_at m sc; if c =? 0 then Some sc else skip fuel m (sc + 1)
  end.
Definition strlen (m : list Z) (s : Z) : option Z :=
  sc ← skip (length m) m s; Some (sc - s).

Fixpoint copy_string (fuel : nat) (m : list Z) (dest src : Z) : option (list Z) :=
  match fuel with
  | O => None
  | S fuel =>
      c ← read_at m src;
      m ← write_at m dest c;
      if c =? 0 then Some m else copy_string fuel m (dest + 1) (src + 1)
  end.
Definition strcat (m : list Z) (dest src : Z) : option (list Z * Z) :=
  d ← skip (length m) m dest;
  m ← copy_string (length m) m d src;
  Some (m, dest).

(** [count] is not zero. *)
Fixpoint copy_bounded (fuel : nat) (m : list Z) (dest src count : Z) : option (list Z) :=
  match fuel with
  | O => None
  | S fuel =>
      c ← read_at m src;
      m ← write_at m dest c;
      if c =? 0 then Some m
      else if count - 1 =? 0 then write_at m (dest + 1) 0
      else copy_bounded fuel m (dest + 1) (src + 1) (count - 1)
  end.
Definition strncat (m : list Z) (dest src count : Z) : option (list Z * Z) :=
  if negb (count =? 0) then
    d ← skip (length m) m dest;
    m ← copy_bounded (length m) m d src count;
    Some (m, dest)
  else Some (m, dest).

(** [memcpy] of the C library: the areas are inside the memory and apart. *)
Definition memcpy (m : list Z) (dest src n : Z) : option (list Z) :=
  if (0 <=? n) && (0 <=? dest) && (dest + n <=? Z.of_nat (length m))
     && (0 <=? src) && (src + n <=? Z.of_nat (length m))
     && ((dest + n <=? src) || (src + n <=? dest)) then
    Some (take (Z.to_nat dest) m ++ take (Z.to_nat n) (drop (Z.to_nat src) m) ++ drop (Z.to_nat (dest + n)) m)
  else None.

Definition strlcat (m : list Z) (dest src count : Z) : option (list Z * Z) :=
  dsize ← strlen m dest;
  len ← strlen m src;
  let res := u64 (dsize + len) in
  if count <=? dsize then None
  else
    let dest := dest + dsize in
    let count := count - dsize in
    let len := if count <=? len then count - 1 else len in
    m ← memcpy m dest src len;
    m ← write_at m (dest + len) 0;
    Some (m, res).

(** ** Searching *)

(** The loop's bound is [count]; the inner option is the pointer returned. *)
Fixpoint strnchr_loop (count : nat) (m : list Z) (s c : Z) : option (option Z) :=
  match count with
  | O => Some None
  | S count =>
      b ← read_at m s;
      if b =? 0 then Some None
      else if b =? u8 c then Some (Some s)
      else strnchr_loop count m (s + 1) c
  end.
Definition strnchr (m : list Z) (s count c : Z) : option (option Z) := strnchr_loop (Z.to_nat count) m s c.

(** The inner loops of the functions that search for a set of characters: the
    pointer to the first character of the set that is [b], or to its end. *)
Fixpoint find_in (fuel : nat) (m : list Z) (b a : Z) : option (Z * Z) :=
  match fuel with
  | O => None
  | S fuel =>
      x ← read_at m a;
      if x =? 0 then Some (a, x)
      else if b =? x then Some (a, x)
      else find_in fuel m b (a + 1)
  end.

Fixpoint strspn_loop (fuel : nat) (m : list Z) (p accept count : Z) : option Z :=
  match fuel with
  | O => None
  | S fuel =>
      b ← read_at m p;
      if b =? 0 then Some count
      else
        r ← find_in (length m) m b accept;
        if r.2 =? 0 then Some count else strspn_loop fuel m (p + 1) accept (u64 (count + 1))
  end.
Definition strspn (m : list Z) (s accept : Z) : option Z := strspn_loop (length m) m s accept 0.

Fixpoint strcspn_loop (fuel : nat) (m : list Z) (p reject count : Z) : option Z :=
  match fuel with
  | O => None
  | S fuel =>
      b ← read_at m p;
      if b =? 0 then Some count
      else
        r ← find_in (length m) m b reject;
        if negb (r.2 =? 0) then Some count else strcspn_loop fuel m (p + 1) reject (u64 (count + 1))
  end.
Definition strcspn (m : list Z) (s reject : Z) : option Z := strcspn_loop (length m) m s reject 0.

Fixpoint strpbrk_loop (fuel : nat) (m : list Z) (sc1 ct : Z) : option (option Z) :=
  match fuel with
  | O => None
  | S fuel =>
      b ← read_at m sc1;
      if b =? 0 then Some None
      else
        r ← find_in (length m) m b ct;
        if negb (r.2 =? 0) then Some (Some sc1) else strpbrk_loop fuel m (sc1 + 1) ct
  end.
Definition strpbrk (m : list Z) (cs ct : Z) : option (option Z) := strpbrk_loop (length m) m cs ct.

(** The memory, the token and [*s] afterwards. *)
Definition strsep (m : list Z) (s : option Z) (ct : Z) : option (list Z * option Z * option Z) :=
  match s with
  | None => Some (m, None, None)
  | Some sbegin =>
      e ← strpbrk m sbegin ct;
      match e with
      | Some e => m ← write_at m e 0; Some (m, Some sbegin, Some (e + 1))
      | None => Some (m, Some sbegin, None)
      end
  end.

(** [c] is not converted to an unsigned char. *)
Fixpoint memscan_loop (size : nat) (m : list Z) (p c : Z) : option Z :=
  match size with
  | O => Some p
  | S size => b ← read_at m p; if b =? c then Some p else memscan_loop size m (p + 1) c
  end.
Definition memscan (m : list Z) (addr c size : Z) : option Z := memscan_loop (Z.to_nat size) m addr c.

Fixpoint memchr_loop (n : nat) (m : list Z) (p c : Z) : option (option Z) :=
  match n with
  | O => Some None
  | S n => b ← read_at m p; if u8 c =? b then Some (Some p) else memchr_loop n m (p + 1) c
  end.
Definition memchr (m : list Z) (s c n : Z) : option (option Z) := memchr_loop (Z.to_nat n) m s c.

(** ** Stripping *)

Fixpoint strip_end (fuel : nat) (m : list Z) (s e : Z) : option Z :=
  match fuel with
  | O => None
  | S fuel =>
      if e =? s then Some e
      else c ← read_at m e; if isspace c then strip_end fuel m s (e - 1) else Some e
  end.
Fixpoint strip_begin (fuel : nat) (m : list Z) (s : Z) : option Z :=
  match fuel with
  | O => None
  | S fuel =>
      c ← read_at m s;
      if negb (c =? 0) && isspace c then strip_begin fuel m (s + 1) else Some s
  end.
Definition strstrip (m : list Z) (s : Z) : option (list Z * Z) :=
  size ← strlen m s;
  if size =? 0 then Some (m, s)
  else
    e ← strip_end (length m) m s (s + size - 1);
    m ← write_at m (e + 1) 0;
    s ← strip_begin (length m) m s;
    Some (m, s).

(** ** Strings in memory *)

(** The string [s] is at [p], with its terminator. *)
Fixpoint cstr (m : list Z) (p : Z) (s : list Z) : Prop :=
  match s with
  | [] => read_at m p = Some 0
  | c :: s => c <> 0 /\ read_at m p = Some c /\ cstr m (p + 1) s
  end.

Lemma read_at_range m i c : read_at m i = Some c -> 0 <= i < Z.of_nat (length m).
Proof.
  unfold read_at. destruct (Z.ltb_spec i 0); [done|]. intros Hc%lookup_lt_Some. lia.
Qed.

Lemma write_at_range m i v m' : write_at m i v = Some m' -> 0 <= i < Z.of_nat (length m).
Proof. unfold write_at. case_test; [|done]. intros _. lia. Qed.

Lemma read_write m p v m' i : write_at m p v = Some m' -> read_at m' i = if i =? p then Some v else read_at m i.
Proof.
  intros Hw. pose proof (write_at_range _ _ _ _ Hw). rewrite write_at_Some in Hw by done. injection Hw as <-.
  unfold read_at. destruct (Z.ltb_spec i 0).
  - by destruct (Z.eqb_spec i p); [lia|].
  - destruct (Z.eqb_spec i p) as [->|Hne].
    + apply list_lookup_insert_eq. lia.
    + apply list_lookup_insert_ne. lia.
Qed.

(** The memories have the same size and agree outside of the bytes from [lo] to
    [hi]. *)
Definition unchanged (lo hi : Z) (m m' : list Z) : Prop :=
  length m' = length m /\ forall i, i < lo \/ hi < i -> read_at m' i = read_at m i.

Lemma unchanged_refl lo hi m : unchanged lo hi m m.
Proof. done. Qed.

Lemma unchanged_trans lo hi m m' m'' : unchanged lo hi m m' -> unchanged lo hi m' m'' -> unchanged lo hi m m''.
Proof. intros [L1 H1] [L2 H2]. split; [congruence|]. intros i Hi. by rewrite H2, H1. Qed.

Lemma unchanged_mono lo hi lo' hi' m m' : unchanged lo hi m m' -> lo' <= lo -> hi <= hi' -> unchanged lo' hi' m m'.
Proof. intros [L H] Hl Hh. split; [done|]. intros i Hi. apply H. lia. Qed.

Lemma unchanged_write p v m m' : write_at m p v = Some m' -> unchanged p p m m'.
Proof.
  intros Hw. split; [by eapply length_write_at|]. intros i Hi. rewrite (read_write _ _ _ _ _ Hw).
  by destruct (Z.eqb_spec i p); [lia|].
Qed.

Lemma cstr_range m p s : cstr m p s -> 0 <= p /\ p + Z.of_nat (length s) < Z.of_nat (length m).
Proof.
  revert p. induction s as [|c s IH]; intros p; cbn [cstr length].
  - intros Hr%read_at_range. lia.
  - intros (_ & Hr%read_at_range & Hs%IH). lia.
Qed.

Lemma cstr_agree m m' p s : cstr m p s ->
  (forall i, p <= i <= p + Z.of_nat (length s) -> read_at m' i = read_at m i) -> cstr m' p s.
Proof.
  revert p. induction s as [|c s IH]; intros p; cbn [cstr length].
  - intros Hr H. rewrite H; [done|lia].
  - intros (Hc & Hr & Hs) H. split; [done|]. rewrite H by lia. split; [done|]. apply IH; [done|]. intros i Hi. apply H. lia.
Qed.

Lemma cstr_unchanged lo hi m m' p s : unchanged lo hi m m' -> cstr m p s ->
  p + Z.of_nat (length s) < lo \/ hi < p -> cstr m' p s.
Proof. intros [_ H] Hs Hd. apply (cstr_agree m); [done|]. intros i Hi. apply H. lia. Qed.

Lemma cstr_app m p a b : cstr m p (a ++ b) -> cstr m (p + Z.of_nat (length a)) b.
Proof.
  revert p. induction a as [|c a IH]; intros p; cbn [app cstr length]; [by rewrite Z.add_0_r|].
  intros (_ & _ & H%IH). replace (p + Z.of_nat (S (length a))) with (p + 1 + Z.of_nat (length a)) by lia. done.
Qed.

(** A terminator written into a string cuts it there. *)
Lemma cstr_cut m m' p a b : cstr m p (a ++ b) -> write_at m (p + Z.of_nat (length a)) 0 = Some m' -> cstr m' p a.
Proof.
  intros Hs Hw. pose proof (fun i => read_write _ _ _ _ i Hw) as Hr. clear Hw. revert p Hs Hr.
  induction a as [|c a IH]; intros p; cbn [app cstr length].
  - intros _ Hr. rewrite Hr, Z.add_0_r. by rewrite Z.eqb_refl.
  - intros (Hc & Hp & Hs) Hr. split; [done|]. rewrite Hr. destruct (Z.eqb_spec p (p + Z.of_nat (S (length a)))); [lia|].
    split; [done|]. apply IH; [done|]. intros i. rewrite Hr. by replace (p + 1 + Z.of_nat (length a)) with (p + Z.of_nat (S (length a))) by lia.
Qed.

(** Appending to a string where its terminator was. *)
Lemma cstr_join m m' p a b : cstr m p a -> (forall i, p <= i < p + Z.of_nat (length a) -> read_at m' i = read_at m i) ->
  cstr m' (p + Z.of_nat (length a)) b -> cstr m' p (a ++ b).
Proof.
  revert p. induction a as [|c a IH]; intros p; cbn [app cstr length]; [by rewrite Z.add_0_r|].
  intros (Hc & Hr & Hs) H Hb. split; [done|]. rewrite H by lia. split; [done|]. apply IH; [done|..].
  - intros i Hi. apply H. lia.
  - by replace (p + 1 + Z.of_nat (length a)) with (p + Z.of_nat (S (length a))) by lia.
Qed.

(** ** Lengths and copies *)

Lemma skip_ok fuel m p s : cstr m p s -> (length s < fuel)%nat -> skip fuel m p = Some (p + Z.of_nat (length s)).
Proof.
  revert fuel p. induction s as [|c s IH]; intros [|fuel] p Hs Hf; cbn [length] in *; try lia; cbn.
  - rewrite Hs. cbn. by rewrite Z.add_0_r.
  - destruct Hs as (Hc & Hr & Hs). rewrite Hr. cbn. destruct (Z.eqb_spec c 0); [done|].
    rewrite IH by (done || lia). f_equal. lia.
Qed.

Lemma cstr_fuel m p s : cstr m p s -> (length s < length m)%nat.
Proof. intros H%cstr_range. lia. Qed.

Lemma strlen_ok m p s : cstr m p s -> strlen m p = Some (Z.of_nat (length s)).
Proof.
  intros Hs. unfold strlen. rewrite (skip_ok _ _ _ s) by (done || by eapply cstr_fuel). cbn. f_equal. lia.
Qed.

(** The source's bytes are read before anything is written there. *)
Lemma copy_string_ok fuel m d p s : cstr m p s -> (length s < fuel)%nat ->
  0 <= d -> d + Z.of_nat (length s) < Z.of_nat (length m) -> d + Z.of_nat (length s) < p \/ p + Z.of_nat (length s) < d ->
  exists m', copy_string fuel m d p = Some m' /\ cstr m' d s /\ unchanged d (d + Z.of_nat (length s)) m m'.
Proof.
  revert fuel m d p. induction s as [|c s IH]; intros [|fuel] m d p Hs Hf Hd Hm Ha; cbn [length] in *; try lia; cbn [copy_string].
  - cbn in Hs. rewrite Hs. cbn. destruct (write_at m d 0) as [m'|] eqn:Hw; [|by rewrite write_at_Some in Hw by lia].
    cbn. exists m'. split; [done|]. split; [by rewrite (read_write _ _ _ _ _ Hw), Z.eqb_refl|].
    rewrite Z.add_0_r. by apply unchanged_write in Hw.
  - destruct Hs as (Hc & Hr & Hs). rewrite Hr. cbn. destruct (write_at m d c) as [m1|] eqn:Hw; [|by rewrite write_at_Some in Hw by lia].
    cbn. destruct (Z.eqb_spec c 0); [done|]. pose proof (unchanged_write _ _ _ _ Hw) as Hf1.
    destruct (IH fuel m1 (d + 1) (p + 1)) as (m' & E & Hs' & Hf'); [..|lia|lia|rewrite (proj1 Hf1); lia|lia|].
    { apply (cstr_unchanged _ _ _ _ _ _ Hf1 Hs). lia. }
    exists m'. split; [done|]. split.
    + split; [done|]. split; [|done]. rewrite (proj2 Hf') by lia. by rewrite (read_write _ _ _ _ _ Hw), Z.eqb_refl.
    + eapply unchanged_trans; eapply unchanged_mono; try done; lia.
Qed.

(** [strcat] appends, given room and a source that is apart. *)
Lemma strcat_ok m d p a b : cstr m d a -> cstr m p b ->
  d + Z.of_nat (length a) + Z.of_nat (length b) < Z.of_nat (length m) ->
  d + Z.of_nat (length a) + Z.of_nat (length b) < p \/ p + Z.of_nat (length b) < d ->
  exists m', strcat m d p = Some (m', d) /\ cstr m' d (a ++ b)
    /\ unchanged (d + Z.of_nat (length a)) (d + Z.of_nat (length a) + Z.of_nat (length b)) m m'.
Proof.
  intros Hd Hp Hm Ha. pose proof (cstr_range _ _ _ Hd). unfold strcat.
  rewrite (skip_ok _ _ _ a) by (done || by eapply cstr_fuel). cbn [mbind option_bind].
  destruct (copy_string_ok (length m) m (d + Z.of_nat (length a)) p b) as (m' & E & Hs & Hf);
    [done|by eapply cstr_fuel|lia..|]. rewrite E. cbn. exists m'. split; [done|]. split; [|done].
  apply (cstr_join m); [done| |done]. intros i Hi. apply Hf. lia.
Qed.

Lemma copy_bounded_ok fuel m d p s count : cstr m p s -> (length s < fuel)%nat -> 0 < count ->
  let n := Z.min count (Z.of_nat (length s)) in
  0 <= d -> d + n < Z.of_nat (length m) -> d + n < p \/ p + Z.of_nat (length s) < d ->
  exists m', copy_bounded fuel m d p count = Some m' /\ cstr m' d (take (Z.to_nat count) s) /\ unchanged d (d + n) m m'.
Proof.
  revert fuel m d p count. induction s as [|c s IH]; intros [|fuel] m d p count Hs Hf Hcount n Hd Hm Ha;
    cbn [length] in *; try lia; cbn [copy_bounded].
  - cbn in Hs. rewrite Hs. cbn. destruct (write_at m d 0) as [m'|] eqn:Hw; [|by rewrite write_at_Some in Hw by lia].
    cbn. exists m'. split; [done|]. rewrite take_nil. split; [by cbn; rewrite (read_write _ _ _ _ _ Hw), Z.eqb_refl|].
    apply (unchanged_mono d d); [by apply unchanged_write in Hw|lia..].
  - destruct Hs as (Hc & Hr & Hs). rewrite Hr. cbn. destruct (write_at m d c) as [m1|] eqn:Hw; [|by rewrite write_at_Some in Hw by lia].
    cbn [mbind option_bind]. destruct (Z.eqb_spec c 0); [done|]. pose proof (unchanged_write _ _ _ _ Hw) as Hf1.
    replace (Z.to_nat count) with (S (Z.to_nat (count - 1))) by lia. cbn [take cstr].
    destruct (Z.eqb_spec (count - 1) 0) as [E1|E1].
    + destruct (write_at m1 (d + 1) 0) as [m'|] eqn:Hw'; [|by rewrite write_at_Some in Hw' by (rewrite (proj1 Hf1); lia)].
      exists m'. split; [done|]. rewrite E1. change (take (Z.to_nat 0) s) with (@nil Z). cbn [cstr].
      rewrite !(read_write _ _ _ _ _ Hw'), Z.eqb_refl. destruct (Z.eqb_spec d (d + 1)); [lia|].
      rewrite (read_write _ _ _ _ _ Hw), Z.eqb_refl. split; [done|].
      apply unchanged_write in Hw'. eapply unchanged_trans; eapply unchanged_mono; try done; lia.
    + destruct (IH fuel m1 (d + 1) (p + 1) (count - 1)) as (m' & E & Hs' & Hf'); [..|lia|lia|lia|rewrite (proj1 Hf1); lia|lia|].
      { apply (cstr_unchanged _ _ _ _ _ _ Hf1 Hs). lia. }
      exists m'. split; [done|]. split.
      * split; [done|]. split; [|done]. rewrite (proj2 Hf') by lia. by rewrite (read_write _ _ _ _ _ Hw), Z.eqb_refl.
      * eapply unchanged_trans; eapply unchanged_mono; try done; lia.
Qed.

(** [strncat] appends at most [count] bytes and a terminator: one byte more
    than [count] can be written. *)
Lemma strncat_ok m d p a b count : cstr m d a -> cstr m p b -> 0 <= count ->
  let n := Z.min count (Z.of_nat (length b)) in
  d + Z.of_nat (length a) + n < Z.of_nat (length m) ->
  d + Z.of_nat (length a) + n < p \/ p + Z.of_nat (length b) < d ->
  exists m', strncat m d p count = Some (m', d) /\ cstr m' d (a ++ take (Z.to_nat count) b)
    /\ unchanged (d + Z.of_nat (length a)) (d + Z.of_nat (length a) + n) m m'.
Proof.
  intros Hd Hp Hc n Hm Ha. pose proof (cstr_range _ _ _ Hd). unfold strncat. destruct (Z.eqb_spec count 0) as [->|Hne]; cbn [negb].
  { exists m. split; [done|]. rewrite take_0, app_nil_r. split; [done|]. apply unchanged_refl. }
  rewrite (skip_ok _ _ _ a) by (done || by eapply cstr_fuel). cbn [mbind option_bind].
  destruct (copy_bounded_ok (length m) m (d + Z.of_nat (length a)) p b count) as (m' & E & Hs & Hf);
    [done|by eapply cstr_fuel|lia..|]. rewrite E. cbn. exists m'. split; [done|]. split; [|done].
  apply (cstr_join m); [done| |done]. intros i Hi. apply Hf. lia.
Qed.

(** *** strlcat *)

Lemma memcpy_ok m d p n : 0 <= n -> 0 <= d -> d + n <= Z.of_nat (length m) ->
  0 <= p -> p + n <= Z.of_nat (length m) -> d + n <= p \/ p + n <= d ->
  exists m', memcpy m d p n = Some m' /\ length m' = length m
    /\ forall i, read_at m' i = if (d <=? i) && (i <? d + n) then read_at m (p + (i - d)) else read_at m i.
Proof.
  intros Hn Hd Hdm Hp Hpm Ha. unfold memcpy.
  assert ((0 <=? n) && (0 <=? d) && (d + n <=? Z.of_nat (length m)) && (0 <=? p) && (p + n <=? Z.of_nat (length m))
    && ((d + n <=? p) || (p + n <=? d)) = true) as -> by lia.
  eexists. split; [reflexivity|]. split; [rewrite !length_app, !length_take, !length_drop; lia|]. intros i.
  unfold read_at. destruct (Z.ltb_spec i 0).
  { rewrite (proj2 (Z.leb_gt d i)) by lia. done. }
  destruct (Z.leb_spec d i); cbn [andb].
  - rewrite lookup_app_r by (rewrite length_take; lia). rewrite length_take.
    destruct (Z.ltb_spec i (d + n)).
    + destruct (Z.ltb_spec (p + (i - d)) 0); [lia|].
      rewrite lookup_app_l by (rewrite length_take, length_drop; lia).
      rewrite lookup_take_lt by lia. rewrite lookup_drop. f_equal. lia.
    + rewrite lookup_app_r by (rewrite length_take, length_drop; lia). rewrite lookup_drop, length_take, length_drop. f_equal. lia.
  - rewrite lookup_app_l by (rewrite length_take; lia). rewrite lookup_take_lt by lia. done.
Qed.

Lemma cstr_copy m m' p q s n : cstr m p s -> 0 <= n <= Z.of_nat (length s) ->
  (forall i, 0 <= i < n -> read_at m' (q + i) = read_at m (p + i)) -> read_at m' (q + n) = Some 0 ->
  cstr m' q (take (Z.to_nat n) s).
Proof.
  revert p q n. induction s as [|c s IH]; intros p q n Hs Hn H Hz; cbn [length] in *.
  - rewrite take_nil. cbn. replace q with (q + n) by lia. done.
  - destruct Hs as (Hc & Hr & Hs). destruct (decide (n = 0)) as [->|Hne].
    { cbn. by rewrite Z.add_0_r in Hz. }
    replace (Z.to_nat n) with (S (Z.to_nat (n - 1))) by lia. cbn [take cstr]. split; [done|]. split.
    + rewrite <- (Z.add_0_r q), H by lia. by rewrite Z.add_0_r.
    + apply (IH (p + 1)); [done|lia|..].
      * intros i Hi. replace (q + 1 + i) with (q + (i + 1)) by lia. rewrite H by lia. f_equal. lia.
      * by replace (q + 1 + (n - 1)) with (q + n) by lia.
Qed.

(** [strlcat] with a buffer of [count] bytes and a source that lies
    outside of it: the buffer afterwards holds the old string followed by as much
    of the source as leaves room for the terminator, nothing outside of the
    buffer's free part is written, and the result is the length the whole would
    have had, so that it is below [count] exactly if nothing was cut. A string
    that already fills the buffer is a [BUG_ON]. *)
Theorem strlcat_in_bounds m d p a b count :
  cstr m d a -> cstr m p b -> Z.of_nat (length m) < 2 ^ 63 -> d + count <= Z.of_nat (length m) ->
  d + count <= p \/ p + Z.of_nat (length b) < d ->
  if count <=? Z.of_nat (length a) then strlcat m d p count = None
  else exists m' r, strlcat m d p count = Some (m', r)
    /\ cstr m' d (a ++ take (Z.to_nat (count - 1 - Z.of_nat (length a))) b)
    /\ unchanged (d + Z.of_nat (length a)) (d + count - 1) m m'
    /\ r = Z.of_nat (length (a ++ b))
    /\ (r < count <-> cstr m' d (a ++ b)).
Proof.
  intros Hd Hp Hm Hc Ha. pose proof (cstr_range _ _ _ Hd). pose proof (cstr_range _ _ _ Hp).
  unfold strlcat. rewrite (strlen_ok _ _ _ Hd), (strlen_ok _ _ _ Hp). cbn [mbind option_bind].
  destruct (Z.leb_spec count (Z.of_nat (length a))) as [|Hroom]; [done|].
  set (len := if _ <=? _ then _ else _).
  assert (len = Z.min (count - 1 - Z.of_nat (length a)) (Z.of_nat (length b))) as Hlen.
  { unfold len. destruct (Z.leb_spec (count - Z.of_nat (length a)) (Z.of_nat (length b))); lia. }
  clearbody len.
  destruct (memcpy_ok m (d + Z.of_nat (length a)) p len) as (m1 & E1 & L1 & R1); [lia..|]. rewrite E1. cbn [mbind option_bind].
  destruct (write_at m1 (d + Z.of_nat (length a) + len) 0) as [m'|] eqn:Hw; [|by rewrite write_at_Some in Hw by lia]. cbn [mbind option_bind].
  assert (forall i, read_at m' i = if i =? d + Z.of_nat (length a) + len then Some 0
    else if (d + Z.of_nat (length a) <=? i) && (i <? d + Z.of_nat (length a) + len) then read_at m (p + (i - (d + Z.of_nat (length a)))) else read_at m i) as R.
  { intros i. by rewrite (read_write _ _ _ _ _ Hw), R1. }
  assert (cstr m' d (a ++ take (Z.to_nat len) b)) as Hs.
  { apply (cstr_join m); [done| |].
    - intros i Hi. rewrite R. destruct (Z.eqb_spec i (d + Z.of_nat (length a) + len)); [lia|].
      by rewrite (proj2 (Z.leb_gt _ _)) by lia.
    - apply (cstr_copy m _ p); [done|lia|..].
      + intros i Hi. rewrite R. destruct (Z.eqb_spec (d + Z.of_nat (length a) + i) (d + Z.of_nat (length a) + len)); [lia|].
        rewrite (proj2 (Z.leb_le _ _)), (proj2 (Z.ltb_lt _ _)) by lia. cbn. f_equal. lia.
      + by rewrite R, Z.eqb_refl. }
  assert (take (Z.to_nat len) b = take (Z.to_nat (count - 1 - Z.of_nat (length a))) b) as Ht.
  { destruct (Z.le_ge_cases (count - 1 - Z.of_nat (length a)) (Z.of_nat (length b))).
    - by replace len with (count - 1 - Z.of_nat (length a)) by lia.
    - rewrite !take_ge by lia. done. }
  exists m', (Z.of_nat (length (a ++ b))). split.
  { rewrite length_app. do 2 f_equal. symmetry. rewrite Nat2Z.inj_add. symmetry. apply wrap_small. lia. }
  rewrite <- Ht. split; [done|]. split; [|split; [done|]].
  - split; [rewrite (length_write_at _ _ _ _ Hw); lia|]. intros i Hi. rewrite R.
    destruct (Z.eqb_spec i (d + Z.of_nat (length a) + len)); [lia|].
    destruct (Z.leb_spec (d + Z.of_nat (length a)) i); cbn; [|done].
    by rewrite (proj2 (Z.ltb_ge _ _)) by lia.
  - rewrite length_app. split; intros Hr.
    + by rewrite take_ge in Hs by lia.
    + pose proof (strlen_ok _ _ _ Hr) as L2. rewrite (strlen_ok _ _ _ Hs) in L2. injection L2 as L2.
      rewrite !length_app, length_take in L2. lia.
Qed.

Definition example_text : list Z := [104; 105; 0; 0; 0; 0; 120; 121; 122; 0].

Lemma strlcat_in_bounds_witness : exists m' r, strlcat example_text 0 6 5 = Some (m', r)
  /\ cstr m' 0 ([104; 105] ++ take (Z.to_nat (5 - 1 - 2)) [120; 121; 122])
  /\ unchanged (0 + 2) (0 + 5 - 1) example_text m'
  /\ r = Z.of_nat (length ([104; 105] ++ [120; 121; 122])) /\ (r < 5 <-> cstr m' 0 ([104; 105] ++ [120; 121; 122])).
Proof.
  apply (strlcat_in_bounds example_text 0 6 [104; 105] [120; 121; 122] 5); cbn; (lia || by split_and! || (right; lia) || (left; lia)).
Defined.

(** ** Searching *)

(** The longest prefix whose elements satisfy [P]. *)
Fixpoint prefix_of (P : Z -> bool) (s : list Z) : list Z :=
  match s with
  | [] => []
  | c :: s => if P c then c :: prefix_of P s else []
  end.

Definition member (set : list Z) (c : Z) : bool := bool_decide (c ∈ set).

Lemma length_prefix_of P s : (length (prefix_of P s) <= length s)%nat.
Proof. induction s as [|c s IH]; cbn; [done|]. destruct (P c); cbn; lia. Qed.

Lemma find_in_ok fuel m b a set : cstr m a set -> (length set < fuel)%nat ->
  exists a' x, find_in fuel m b a = Some (a', x) /\ (x =? 0) = negb (member set b).
Proof.
  revert fuel a. induction set as [|c set IH]; intros [|fuel] a Hs Hf; cbn [length] in *; try lia; cbn [find_in].
  - cbn in Hs. rewrite Hs. cbn. eauto.
  - destruct Hs as (Hc & Hr & Hs). rewrite Hr. cbn [mbind option_bind]. destruct (Z.eqb_spec c 0); [done|].
    destruct (Z.eqb_spec b c) as [->|Hne].
    + exists a, c. split; [done|]. unfold member. rewrite bool_decide_true by left. by apply Z.eqb_neq.
    + destruct (IH fuel (a + 1)) as (a' & x & E & Hx); [done|lia|]. exists a', x. split; [done|]. rewrite Hx. f_equal.
      apply bool_decide_ext. rewrite elem_of_cons. naive_solver.
Qed.

Lemma strspn_loop_ok fuel m p q s set n : cstr m p s -> cstr m q set -> (length s < fuel)%nat ->
  0 <= n -> n + Z.of_nat (length s) < 2 ^ 64 ->
  strspn_loop fuel m p q n = Some (n + Z.of_nat (length (prefix_of (member set) s))).
Proof.
  intros Hs Hq. revert fuel p n Hs. induction s as [|c s IH]; intros [|fuel] p n Hs Hf Hn Hb; cbn [length] in *; try lia; cbn [strspn_loop].
  - cbn in Hs. rewrite Hs. cbn. f_equal. lia.
  - destruct Hs as (Hc & Hr & Hs). rewrite Hr. cbn [mbind option_bind]. destruct (Z.eqb_spec c 0); [done|].
    destruct (find_in_ok (length m) m c q set) as (a & x & E & Hx); [done|by eapply cstr_fuel|]. rewrite E. cbn [mbind option_bind snd prefix_of].
    rewrite Hx. destruct (member set c); cbn [negb length].
    + rewrite wrap_small by lia. rewrite IH by (done || lia). f_equal. lia.
    + f_equal. lia.
Qed.

(** [strspn] counts the characters before the first one outside of the set. *)
Lemma strspn_ok m p q s set : cstr m p s -> cstr m q set -> Z.of_nat (length m) < 2 ^ 64 ->
  strspn m p q = Some (Z.of_nat (length (prefix_of (member set) s))).
Proof. intros Hs Hq Hm. pose proof (cstr_range _ _ _ Hs). exact (strspn_loop_ok (length m) m p q s set 0 Hs Hq ltac:(by eapply cstr_fuel) ltac:(lia) ltac:(lia)). Qed.

Lemma strcspn_loop_ok fuel m p q s set n : cstr m p s -> cstr m q set -> (length s < fuel)%nat ->
  0 <= n -> n + Z.of_nat (length s) < 2 ^ 64 ->
  strcspn_loop fuel m p q n = Some (n + Z.of_nat (length (prefix_of (fun c => negb (member set c)) s))).
Proof.
  intros Hs Hq. revert fuel p n Hs. induction s as [|c s IH]; intros [|fuel] p n Hs Hf Hn Hb; cbn [length] in *; try lia; cbn [strcspn_loop].
  - cbn in Hs. rewrite Hs. cbn. f_equal. lia.
  - destruct Hs as (Hc & Hr & Hs). rewrite Hr. cbn [mbind option_bind]. destruct (Z.eqb_spec c 0); [done|].
    destruct (find_in_ok (length m) m c q set) as (a & x & E & Hx); [done|by eapply cstr_fuel|]. rewrite E. cbn [mbind option_bind snd prefix_of].
    rewrite Hx. destruct (member set c); cbn [negb length].
    + f_equal. lia.
    + rewrite wrap_small by lia. rewrite IH by (done || lia). f_equal. lia.
Qed.

(** [strcspn] counts the characters before the first one of the set. *)
Lemma strcspn_ok m p q s set : cstr m p s -> cstr m q set -> Z.of_nat (length m) < 2 ^ 64 ->
  strcspn m p q = Some (Z.of_nat (length (prefix_of (fun c => negb (member set c)) s))).
Proof. intros Hs Hq Hm. pose proof (cstr_range _ _ _ Hs). exact (strcspn_loop_ok (length m) m p q s set 0 Hs Hq ltac:(by eapply cstr_fuel) ltac:(lia) ltac:(lia)). Qed.

Lemma strpbrk_loop_ok fuel m p q s set : cstr m p s -> cstr m q set -> (length s < fuel)%nat ->
  strpbrk_loop fuel m p q
  = Some (let t := prefix_of (fun c => negb (member set c)) s in
      if (length t <? length s)%nat then Some (p + Z.of_nat (length t)) else None).
Proof.
  intros Hs Hq. revert fuel p Hs. induction s as [|c s IH]; intros [|fuel] p Hs Hf; cbn [length] in *; try lia; cbn [strpbrk_loop].
  - cbn in Hs. rewrite Hs. done.
  - destruct Hs as (Hc & Hr & Hs). rewrite Hr. cbn [mbind option_bind]. destruct (Z.eqb_spec c 0); [done|].
    destruct (find_in_ok (length m) m c q set) as (a & x & E & Hx); [done|by eapply cstr_fuel|]. rewrite E. cbn [mbind option_bind snd prefix_of].
    rewrite Hx. destruct (member set c); cbn [negb length].
    + by rewrite Z.add_0_r.
    + rewrite IH by (done || lia). cbv zeta.
      change (S ?n <? S ?k)%nat with (n <? k)%nat. case_match; [|done]. do 2 f_equal. lia.
Qed.

(** [strpbrk] finds the first character of the set. *)
Lemma strpbrk_ok m p q s set : cstr m p s -> cstr m q set ->
  strpbrk m p q
  = Some (let t := prefix_of (fun c => negb (member set c)) s in
      if (length t <? length s)%nat then Some (p + Z.of_nat (length t)) else None).
Proof. intros Hs Hq. apply (strpbrk_loop_ok _ _ _ _ s set); [done..|by eapply cstr_fuel]. Qed.

(** The [n] bytes at [p]. *)
Definition area (m : list Z) (p : Z) (l : list Z) : Prop :=
  forall i, (i < length l)%nat -> read_at m (p + Z.of_nat i) = l !! i.

Lemma area_cons m p c l : area m p (c :: l) -> read_at m p = Some c /\ area m (p + 1) l.
Proof.
  intros H. split.
  - specialize (H 0%nat). cbn in H. rewrite Z.add_0_r in H. apply H. lia.
  - intros i Hi. replace (p + 1 + Z.of_nat i) with (p + Z.of_nat (S i)) by lia. apply H. cbn. lia.
Qed.

(** [memscan] finds the first byte that is the int [c], or the end of the area;
    a [c] that is negative, as a signed char can be, is never found. *)
Lemma memscan_ok m p l c : area m p l ->
  memscan m p c (Z.of_nat (length l)) = Some (p + Z.of_nat (length (prefix_of (fun b => negb (b =? c)) l))).
Proof.
  unfold memscan. rewrite Nat2Z.id. revert p. induction l as [|b l IH]; intros p Hl; cbn.
  - f_equal. lia.
  - apply area_cons in Hl as [-> Hl]. cbn. destruct (b =? c); cbn [negb length]; [f_equal; lia|]. rewrite IH by done. f_equal. lia.
Qed.

(** [memchr] finds the first byte that is [c] as an unsigned char. *)
Lemma memchr_ok m p l c : area m p l ->
  memchr m p c (Z.of_nat (length l)) = Some (let t := prefix_of (fun b => negb (u8 c =? b)) l in
    if (length t <? length l)%nat then Some (p + Z.of_nat (length t)) else None).
Proof.
  unfold memchr. rewrite Nat2Z.id. revert p. induction l as [|b l IH]; intros p Hl; cbn [memchr_loop length prefix_of]; [done|].
  apply area_cons in Hl as [-> Hl]. cbn [mbind option_bind]. destruct (u8 c =? b); cbn [negb length]; [by rewrite Z.add_0_r|].
  rewrite IH by done. cbv zeta. change (S ?n <? S ?k)%nat with (n <? k)%nat. case_match; [|done]. do 2 f_equal. lia.
Qed.

(** [strnchr] finds [c] among the first [count] characters; it does not find the
    terminator. *)
Lemma strnchr_ok m p s count c : cstr m p s -> 0 <= count ->
  strnchr m p count c = Some (let l := take (Z.to_nat count) s in let t := prefix_of (fun b => negb (b =? u8 c)) l in
    if (length t <? length l)%nat then Some (p + Z.of_nat (length t)) else None).
Proof.
  intros Hs Hc. unfold strnchr. cbv zeta. generalize (Z.to_nat count) as n. clear count Hc. intros n. revert n p Hs.
  induction s as [|b s IH]; intros [|n] p Hs; cbn [strnchr_loop take]; try done.
  - cbn in Hs. by rewrite Hs.
  - destruct Hs as (Hb & Hr & Hs). rewrite Hr. cbn [mbind option_bind]. destruct (Z.eqb_spec b 0); [done|].
    cbn [prefix_of]. destruct (b =? u8 c); cbn [negb length]; [by rewrite Z.add_0_r|]. rewrite IH by done.
    change (S ?n <? S ?k)%nat with (n <? k)%nat. case_match; [|done]. do 2 f_equal. lia.
Qed.

(** ** Tokens *)

(** [while ((key = strsep(&str, ct)))]: the tokens a caller gets. *)
Fixpoint strsep_all (fuel : nat) (m : list Z) (s : option Z) (ct : Z) : option (list Z * list Z) :=
  match fuel with
  | O => None
  | S fuel =>
      r ← strsep m s ct;
      let '(m, key, s) := r in
      match key with
      | None => Some (m, [])
      | Some key => r ← strsep_all fuel m s ct; Some (r.1, key :: r.2)
      end
  end.

(** The pieces between the delimiters. *)
Fixpoint split_on (set s : list Z) : list (list Z) :=
  match s with
  | [] => [[]]
  | c :: s =>
      if member set c then [] :: split_on set s
      else match split_on set s with
           | [] => [[c]]
           | t :: ts => (c :: t) :: ts
           end
  end.

(** The first piece, and whether there are more. *)
Lemma split_on_first set s : let t := prefix_of (fun c => negb (member set c)) s in
  (s = t /\ split_on set s = [t]) \/ (exists d r, s = t ++ d :: r /\ split_on set s = t :: split_on set r).
Proof.
  cbv zeta. induction s as [|c s IH]; [by left|]. cbn. destruct (member set c); cbn [negb].
  - right. by exists c, s.
  - destruct IH as [[E ->]|(d & r & E & ->)].
    + left. by rewrite <- E.
    + right. exists d, r. split; [exact (f_equal (cons c) E)|done].
Qed.

Lemma strsep_all_ok fuel m p q s set : cstr m p s -> cstr m q set -> (length s + 1 < fuel)%nat ->
  q + Z.of_nat (length set) < p \/ p + Z.of_nat (length s) < q ->
  exists m' ps, strsep_all fuel m (Some p) q = Some (m', ps)
    /\ Forall2 (cstr m') ps (split_on set s) /\ unchanged p (p + Z.of_nat (length s)) m m'.
Proof.
  revert m p s. induction fuel as [|fuel IH]; intros m p s Hs Hq Hf Hd; [lia|]. cbn [strsep_all strsep].
  rewrite (strpbrk_ok _ _ _ s set) by done. cbn [mbind option_bind]. set (t := prefix_of _ s).
  destruct (split_on_first set s) as [[E ->]|(d & r & E & ->)]; fold t in E |- *.
  - rewrite (proj2 (Nat.ltb_ge _ _)) by (rewrite <- E; done). destruct fuel as [|fuel]; [lia|]. cbn.
    exists m, [p]. split; [done|]. split; [|apply unchanged_refl]. rewrite <- E. by repeat constructor.
  - assert (length s = length t + S (length r))%nat as L by (rewrite E at 1; by rewrite length_app).
    rewrite (proj2 (Nat.ltb_lt _ _)) by lia. pose proof (cstr_range _ _ _ Hs).
    destruct (write_at m (p + Z.of_nat (length t)) 0) as [m1|] eqn:Hw; [|by rewrite write_at_Some in Hw by lia]. cbn [mbind option_bind].
    pose proof (unchanged_write _ _ _ _ Hw) as Hf1. rewrite E in Hs. pose proof (cstr_app _ _ _ _ Hs) as (_ & _ & Hr).
    destruct (IH m1 (p + Z.of_nat (length t) + 1) r) as (m' & ps & E' & Hps & Hf').
    { apply (cstr_unchanged _ _ _ _ _ _ Hf1 Hr). lia. }
    { apply (cstr_unchanged _ _ _ _ _ _ Hf1 Hq). lia. }
    { lia. }
    { lia. }
    rewrite E'. cbn. exists m', (p :: ps). split; [done|]. split.
    + constructor; [|done]. apply (cstr_unchanged _ _ _ _ _ _ Hf'); [|lia]. by apply (cstr_cut m _ p t (d :: r)).
    + eapply unchanged_trans; eapply unchanged_mono; try done; lia.
Qed.

(** C28: A loop over [strsep] gives the tokens of the string: it ends
    after as many calls as the string has pieces between delimiters, and one; the
    pointers it has returned are, in order, those pieces, empty ones included, all
    of them intact and terminated at the end; and no byte outside of the string has
    changed. The delimiters are any string that is apart from it. *)
Theorem strsep_tokens m p q s set : cstr m p s -> cstr m q set ->
  q + Z.of_nat (length set) < p \/ p + Z.of_nat (length s) < q ->
  exists m' ps, strsep_all (S (length m)) m (Some p) q = Some (m', ps)
    /\ Forall2 (cstr m') ps (split_on set s) /\ unchanged p (p + Z.of_nat (length s)) m m'.
Proof. intros Hs Hq Hd. apply strsep_all_ok; [done..| |done]. apply cstr_fuel in Hs. lia. Qed.

(** "a,,b" and the delimiters ",;". *)
Definition example_list : list Z := [97; 44; 44; 98; 0; 44; 59; 0].

Lemma strsep_tokens_witness : exists m' ps, strsep_all 9 example_list (Some 0) 5 = Some (m', ps)
  /\ Forall2 (cstr m') ps (split_on [44; 59] [97; 44; 44; 98]) /\ unchanged 0 (0 + 4) example_list m'.
Proof. apply (strsep_tokens example_list 0 5 [97; 44; 44; 98] [44; 59]); cbn; (lia || by split_and! || (right; lia)). Defined.

Example example_tokens : strsep_all 9 example_list (Some 0) 5 = Some ([97; 0; 0; 98; 0; 44; 59; 0], [0; 2; 3]).
Proof. reflexivity. Qed.

(** ** Stripping *)

Definition lstrip (s : list Z) : list Z := drop (length (prefix_of isspace s)) s.
Fixpoint rstrip (s : list Z) : list Z :=
  match s with
  | [] => []
  | c :: s =>
      match rstrip s with
      | [] => if isspace c then [] else [c]
      | t => c :: t
      end
  end.

Lemma rstrip_snoc s c : rstrip (s ++ [c]) = if isspace c then rstrip s else s ++ [c].
Proof.
  induction s as [|d s IH]; cbn; [done|]. rewrite IH. destruct (isspace c); [done|]. by destruct s.
Qed.

Lemma rstrip_prefix s : exists w, s = rstrip s ++ w.
Proof.
  induction s as [|c s [w IH]]; [by exists []|]. cbn. destruct (rstrip s) as [|d t].
  - destruct (isspace c); [by exists (c :: s)|by exists s].
  - exists w. cbn. by rewrite IH at 1.
Qed.

Lemma rstrip_nil_head c s : rstrip (c :: s) = [] -> isspace c = true.
Proof. cbn. destruct (rstrip s); [by destruct (isspace c)|done]. Qed.

(** Where the loop from the end stops: at the last character that is kept, or at
    the first one. *)
Lemma strip_end_ok m p s i fuel : cstr m p s -> (i < length s)%nat -> (i < fuel)%nat ->
  strip_end fuel m p (p + Z.of_nat i) = Some (p + Z.of_nat (length (rstrip (take (S i) s)) - 1)).
Proof.
  intros Hs. revert fuel. induction i as [|i IH]; intros [|fuel] Hi Hf; try lia; cbn [strip_end].
  - replace (p + Z.of_nat 0) with p by lia. rewrite Z.eqb_refl. f_equal. destruct s as [|c s]; cbn [length] in *; [lia|].
    cbn. rewrite take_0. cbn. destruct (isspace c); cbn; lia.
  - destruct (Z.eqb_spec (p + Z.of_nat (S i)) p); [lia|].
    destruct (lookup_lt_is_Some_2 s (S i) Hi) as [c Hc]. rewrite <- (take_drop_middle _ _ _ Hc) in Hs.
    apply cstr_app in Hs as (_ & Hr & _). rewrite length_take_le in Hr by lia. rewrite Hr. cbn [mbind option_bind].
    rewrite (take_S_r s (S i) c Hc), rstrip_snoc. destruct (isspace c).
    + replace (p + Z.of_nat (S i) - 1) with (p + Z.of_nat i) by lia. apply IH; lia.
    + rewrite length_app, length_take_le by lia. cbn. f_equal. lia.
Qed.

Lemma strip_begin_ok m p s fuel : cstr m p s -> (length s < fuel)%nat ->
  exists r, strip_begin fuel m p = Some r /\ cstr m r (lstrip s) /\ p <= r <= p + Z.of_nat (length s).
Proof.
  revert p fuel. induction s as [|c s IH]; intros p [|fuel] Hs Hf; cbn [length] in *; try lia; cbn [strip_begin].
  - cbn in Hs. rewrite Hs. cbn. exists p. split; [done|]. split; [done|lia].
  - pose proof Hs as (Hc & Hr & Hs'). rewrite Hr. cbn [mbind option_bind]. rewrite (proj2 (Z.eqb_neq c 0)) by done. cbn [negb andb].
    unfold lstrip. cbn [prefix_of]. destruct (isspace c); cbn [length drop].
    + destruct (IH (p + 1) fuel Hs') as (r & E & H & Hp); [lia|]. exists r. split; [done|]. split; [done|lia].
    + exists p. split; [done|]. split; [done|lia].
Qed.

(** [strstrip] gives the string without the white space at both
    ends, also when it is empty or nothing but white space, in place: the pointer
    returned is inside the string, and no byte outside of it has changed. *)
Theorem strstrip_trims m p s : cstr m p s ->
  exists m' r, strstrip m p = Some (m', r) /\ cstr m' r (lstrip (rstrip s))
    /\ p <= r <= p + Z.of_nat (length s) /\ unchanged p (p + Z.of_nat (length s)) m m'.
Proof.
  intros Hs. pose proof (cstr_range _ _ _ Hs) as Hrange. unfold strstrip. rewrite (strlen_ok _ _ _ Hs). cbn [mbind option_bind].
  destruct s as [|c s'] eqn:Es.
  { exists m, p. cbn. split; [done|]. split; [done|]. split; [lia|apply unchanged_refl]. }
  rewrite <- Es in *. assert (length s = S (length s')) as L by (by rewrite Es).
  destruct (Z.eqb_spec (Z.of_nat (length s)) 0); [lia|].
  replace (p + Z.of_nat (length s) - 1) with (p + Z.of_nat (length s')) by lia.
  rewrite (strip_end_ok m p s) by (done || lia). cbn [mbind option_bind]. rewrite take_ge by lia.
  set (j := (length (rstrip s) - 1)%nat). destruct (rstrip_prefix s) as [w Hw].
  assert (length s = length (rstrip s) + length w)%nat as Lw by (rewrite Hw at 1; by rewrite length_app).
  destruct (write_at m (p + Z.of_nat j + 1) 0) as [m'|] eqn:Ew; [|by rewrite write_at_Some in Ew by lia]. cbn [mbind option_bind].
  assert (cstr m' p (take (S j) s)) as Hcut.
  { apply (cstr_cut m _ _ _ (drop (S j) s)); [by rewrite take_drop|]. rewrite length_take_le by lia.
    by replace (p + Z.of_nat (S j)) with (p + Z.of_nat j + 1) by lia. }
  assert (lstrip (take (S j) s) = lstrip (rstrip s)) as El.
  { unfold j. destruct (rstrip s) as [|d t] eqn:Er.
    - rewrite Es in Er |- *. apply rstrip_nil_head in Er. cbn. rewrite take_0. unfold lstrip. cbn. by rewrite Er.
    - cbn [length]. rewrite Nat.sub_succ, Nat.sub_0_r, Hw. by rewrite (take_app_length' (d :: t)). }
  rewrite <- El. pose proof (unchanged_write _ _ _ _ Ew) as Hf.
  destruct (strip_begin_ok m' p (take (S j) s) (length m')) as (r & E & Hr & Hp); [done|rewrite length_take, (proj1 Hf); lia|].
  rewrite length_take in Hp. rewrite E. cbn. exists m', r. split; [done|]. split; [done|]. split; [lia|].
  eapply unchanged_mono; [done|lia..].
Qed.

Lemma strstrip_trims_witness : exists m' r, strstrip [32; 97; 32; 98; 9; 10; 0] 0 = Some (m', r)
  /\ cstr m' r (lstrip (rstrip [32; 97; 32; 98; 9; 10])) /\ 0 <= r <= 0 + 6 /\ unchanged 0 (0 + 6) [32; 97; 32; 98; 9; 10; 0] m'.
Proof. apply (strstrip_trims [32; 97; 32; 98; 9; 10; 0] 0 [32; 97; 32; 98; 9; 10]). cbn. by split_and!. Defined.

Example example_strip : strstrip [32; 97; 32; 98; 9; 10; 0] 0 = Some ([32; 97; 32; 98; 0; 10; 0], 1).
Proof. reflexivity. Qed.
