(* ===== verification/Strtoull.v ===== *)
(** Parsing numbers: [simple_strtoull] and [simple_strtoll] of
    [vmklinux26/linux/lib/vsprintf.c], against a printer of numbers. *)

From S2P Require Import Prelude Ctype Strings.
Local Open Scope Z_scope.

(** The value of a digit, for a hexadecimal digit. *)
Definition digit_value (c : Z) : Z :=
  if isdigit c then c - 48 else (if islower c then __toupper c else c) - 65 + 10.

(** The loop: the result, and where the digits end. *)
Fixpoint digits_loop (fuel : nat) (m : list Z) (base cp result : Z) : option (Z * Z) :=
  match fuel with
  | O => None
  | S fuel =>
      c ← read_at m cp;
      if isxdigit c && (digit_value c <? base) then
        digits_loop fuel m base (cp + 1) (u64 (result * base + digit_value c))
      else Some (result, cp)
  end.

(** The prefix that tells the base: where the digits begin, and their base. *)
Definition parse_prefix (m : list Z) (cp base : Z) : option (Z * Z) :=
  if base =? 0 then
    c ← read_at m cp;
    if c =? 48 then
      x ← read_at m (cp + 1);
      if __toupper x =? 88 then
        h ← read_at m (cp + 2);
        if isxdigit h then Some (cp + 2, 16) else Some (cp + 1, 8)
      else Some (cp + 1, 8)
    else Some (cp, 10)
  else if base =? 16 then
    c ← read_at m cp;
    if c =? 48 then
      x ← read_at m (cp + 1);
      if __toupper x =? 88 then Some (cp + 2, base) else Some (cp, base)
    else Some (cp, base)
  else Some (cp, base).

(** The number, and [*endp]. *)
Definition simple_strtoull (m : list Z) (cp base : Z) : option (Z * Z) :=
  r ← parse_prefix m cp base;
  digits_loop (length m) m r.2 r.1 0.

Definition simple_strtoll (m : list Z) (cp base : Z) : option (Z * Z) :=
  c ← read_at m cp;
  if c =? 45 then r ← simple_strtoull m (cp + 1) base; Some (s64 (u64 (- r.1)), r.2)
  else r ← simple_strtoull m cp base; Some (s64 r.1, r.2).

(** ** What is read *)

Definition is_digit (base c : Z) : bool := isxdigit c && (digit_value c <? base).

(** The same on the string itself: how many characters the prefix has, and the
    base; the digits after it; their value. *)
Definition radix (base : Z) (s : list Z) : nat * Z :=
  if base =? 0 then
    match s with
    | c :: s =>
        if c =? 48 then
          match s with
          | x :: h :: _ => if (__toupper x =? 88) && isxdigit h then (2%nat, 16) else (1%nat, 8)
          | _ => (1%nat, 8)
          end
        else (0%nat, 10)
    | [] => (0%nat, 10)
    end
  else if base =? 16 then
    match s with
    | c :: x :: _ => if (c =? 48) && (__toupper x =? 88) then (2%nat, 16) else (0%nat, 16)
    | _ => (0%nat, 16)
    end
  else (0%nat, base).

Definition digits_of (base : Z) (s : list Z) : list Z :=
  prefix_of (is_digit (radix base s).2) (drop (radix base s).1 s).

Definition value (base : Z) (ds : list Z) : Z := foldl (fun r c => r * base + digit_value c) 0 ds.

(** ** Printing *)

Definition digit_char (upper : bool) (d : Z) : Z := if d <? 10 then 48 + d else (if upper then 65 else 97) + (d - 10).

(** [fuel] digits are enough for numbers below [base] to the power [fuel]. *)
Fixpoint print (fuel : nat) (upper : bool) (base n : Z) : list Z :=
  match fuel with
  | O => []
  | S fuel => (if n <? base then [] else print fuel upper base (n / base)) ++ [digit_char upper (n mod base)]
  end.

(** The ways to write the number [n] for a call with [base]. *)
Inductive spells (n : Z) : Z -> list Z -> Prop :=
| spells_digits up base : 2 <= base <= 16 -> spells n base (print 64 up base n)
| spells_hex up x : x = 88 \/ x = 120 -> spells n 16 (48 :: x :: print 64 up 16 n)
| spells_auto_dec up : spells n 0 (print 64 up 10 n)
| spells_auto_oct up : spells n 0 (48 :: print 64 up 8 n)
| spells_auto_hex up x : x = 88 \/ x = 120 -> spells n 0 (48 :: x :: print 64 up 16 n).

(** ** The loop *)

Lemma is_digit_0 base : is_digit base 0 = false.
Proof. done. Qed.

Lemma digits_loop_ok fuel m base p s r : cstr m p s -> (length s < fuel)%nat ->
  digits_loop fuel m base p r
  = Some (let ds := prefix_of (is_digit base) s in
      (foldl (fun r c => u64 (r * base + digit_value c)) r ds, p + Z.of_nat (length ds))).
Proof.
  revert fuel p r. induction s as [|c s IH]; intros [|fuel] p r Hs Hf; cbn [length] in *; try lia; cbn [digits_loop].
  - cbn in Hs. rewrite Hs. cbn. by rewrite Z.add_0_r.
  - destruct Hs as (_ & Hr & Hs). rewrite Hr. cbn [mbind option_bind prefix_of]. fold (is_digit base c).
    destruct (is_digit base c); cbn [length foldl].
    + rewrite IH by (done || lia). cbv zeta. do 2 f_equal. lia.
    + by rewrite Z.add_0_r.
Qed.

(** Wrapping at every digit or once at the end is the same. *)
Lemma foldl_wrap base ds r : foldl (fun r c => u64 (r * base + digit_value c)) (u64 r) ds
  = u64 (foldl (fun r c => r * base + digit_value c) r ds).
Proof.
  revert r. induction ds as [|c ds IH]; intros r; cbn [foldl]; [done|]. rewrite <- IH. f_equal.
  rewrite <- wrap_add_l, wrap_mul_l, wrap_add_l. done.
Qed.

Lemma cstr_drop m p s n : cstr m p s -> (n <= length s)%nat -> cstr m (p + Z.of_nat n) (drop n s).
Proof.
  intros Hs Hn. rewrite <- (take_drop n s) in Hs. apply cstr_app in Hs. by rewrite length_take_le in Hs.
Qed.

Lemma radix_length base s : ((radix base s).1 <= length s)%nat.
Proof.
  unfold radix. destruct s as [|c [|x [|h s]]]; repeat case_test; cbn; lia.
Qed.

Lemma parse_prefix_ok m p s base : cstr m p s ->
  parse_prefix m p base = Some (p + Z.of_nat (radix base s).1, (radix base s).2).
Proof.
  intros Hs. unfold parse_prefix, radix. destruct (Z.eqb_spec base 0).
  - destruct s as [|c s]; cbn [cstr] in Hs; [rewrite Hs; cbn; by rewrite Z.add_0_r|].
    destruct Hs as (_ & -> & Hs). cbn [mbind option_bind]. destruct (c =? 48); [|cbn; by rewrite Z.add_0_r].
    destruct s as [|x s]; cbn [cstr] in Hs; [by rewrite Hs|].
    destruct Hs as (_ & -> & Hs). cbn [mbind option_bind]. replace (p + 1 + 1) with (p + 2) in Hs by lia.
    destruct s as [|h s]; cbn [cstr] in Hs; [rewrite Hs; by destruct (__toupper x =? 88)|].
    destruct Hs as (_ & -> & Hs). cbn [mbind option_bind]. destruct (__toupper x =? 88); [|done]. by destruct (isxdigit h).
  - destruct (Z.eqb_spec base 16) as [->|]; [|cbn; by rewrite Z.add_0_r].
    destruct s as [|c s]; cbn [cstr] in Hs; [rewrite Hs; cbn; by rewrite Z.add_0_r|].
    destruct Hs as (_ & -> & Hs). cbn [mbind option_bind].
    destruct s as [|x s]; cbn [cstr] in Hs.
    + rewrite Hs. destruct (c =? 48); cbn; by rewrite Z.add_0_r.
    + destruct Hs as (_ & -> & Hs). cbn [mbind option_bind]. destruct (c =? 48); [|cbn; by rewrite Z.add_0_r].
      destruct (__toupper x =? 88); cbn; by rewrite ?Z.add_0_r.
Qed.

(** [simple_strtoull] never fails: it gives the value of the longest run of
    digits after the prefix, modulo [2^64], and where that run ends. *)
Lemma simple_strtoull_ok m p s base : cstr m p s ->
  simple_strtoull m p base
  = Some (u64 (value (radix base s).2 (digits_of base s)),
      p + Z.of_nat ((radix base s).1 + length (digits_of base s))).
Proof.
  intros Hs. unfold simple_strtoull. rewrite (parse_prefix_ok _ _ s) by done. cbn [mbind option_bind fst snd].
  pose proof (radix_length base s) as Hn. pose proof (cstr_drop _ _ _ _ Hs Hn) as Hd.
  rewrite (digits_loop_ok _ _ _ _ _ _ Hd) by (by eapply cstr_fuel). cbv zeta. fold (digits_of base s).
  change 0 with (u64 0). rewrite foldl_wrap. unfold value. do 2 f_equal. lia.
Qed.

(** ** Printing and parsing *)

Lemma digit_char_ok up d : 0 <= d < 16 ->
  isxdigit (digit_char up d) && (digit_value (digit_char up d) =? d) && negb (__toupper (digit_char up d) =? 88)
  && (1 <=? digit_char up d) && Bool.eqb (digit_char up d =? 48) (d =? 0) && negb (digit_char up d =? 45) = true.
Proof. intros Hd. revert d Hd. destruct up; refine (forall_below 16 _ _); vm_compute; reflexivity. Qed.

Lemma digit_char_digit up base d : 0 <= d < base -> base <= 16 ->
  is_digit base (digit_char up d) = true /\ digit_value (digit_char up d) = d.
Proof.
  intros Hd Hb. pose proof (digit_char_ok up d ltac:(lia)) as H. unbool. unfold is_digit.
  match goal with E : digit_value _ = d |- _ => rewrite E; split; [|done] end.
  match goal with E : isxdigit _ = true |- _ => rewrite E end. apply Z.ltb_lt. lia.
Qed.

Definition digit_of (up : bool) (base c : Z) : Prop := exists d, 0 <= d < base /\ c = digit_char up d.

Lemma prefix_of_all P s : Forall (fun c => P c = true) s -> prefix_of P s = s.
Proof. induction 1 as [|c s Hc _ IH]; cbn; [done|]. by rewrite Hc, IH. Qed.

Section printed.
Context (up : bool) (base : Z) (Hbase : 2 <= base <= 16).

Lemma print_digits fuel n : 0 <= n -> Forall (digit_of up base) (print fuel up base n).
Proof.
  revert n. induction fuel as [|fuel IH]; intros n Hn; cbn [print]; [done|]. apply Forall_app. split.
  - case_test; [done|]. apply IH. by apply Z.div_pos; lia.
  - apply Forall_singleton. exists (n mod base). split; [apply Z.mod_pos_bound; lia|done].
Qed.

Lemma print_is_digit fuel n : 0 <= n -> Forall (fun c => is_digit base c = true) (print fuel up base n).
Proof.
  intros Hn. eapply Forall_impl; [by apply print_digits|]. intros c (d & Hd & ->). apply digit_char_digit; lia.
Qed.

Lemma value_snoc ds c : value base (ds ++ [c]) = value base ds * base + digit_value c.
Proof. unfold value. by rewrite foldl_app. Qed.

Lemma print_value fuel n : 0 <= n < base ^ Z.of_nat fuel -> value base (print fuel up base n) = n.
Proof.
  revert n. induction fuel as [|fuel IH]; intros n Hn; cbn [print]; [cbn in Hn; unfold value; cbn; lia|].
  rewrite value_snoc. pose proof (Z.mod_pos_bound n base ltac:(lia)). destruct (digit_char_digit up base (n mod base)) as [_ ->]; [lia|lia|].
  pose proof (Z.div_mod n base ltac:(lia)). destruct (Z.ltb_spec n base).
  - unfold value. cbn. rewrite Z.mod_small by lia. lia.
  - rewrite IH; [lia|]. split; [apply Z.div_pos; lia|]. apply Z.div_lt_upper_bound; [lia|].
    rewrite <- Z.pow_succ_r by lia. replace (Z.succ (Z.of_nat fuel)) with (Z.of_nat (S fuel)) by lia. lia.
Qed.

(** The first digit is a zero only in the number zero. *)
Lemma print_head fuel n : 0 <= n < base ^ Z.of_nat (S fuel) ->
  exists d ds, print (S fuel) up base n = digit_char up d :: ds /\ 0 <= d < base /\ (d = 0 -> n = 0 /\ ds = []).
Proof.
  revert n. induction fuel as [|fuel IH]; intros n Hn; cbn [print]; pose proof (Z.mod_pos_bound n base ltac:(lia)).
  - change (Z.of_nat 1) with 1 in Hn. rewrite Z.pow_1_r in Hn. rewrite (proj2 (Z.ltb_lt n base)) by lia.
    exists (n mod base), []. cbn. rewrite Z.mod_small by lia. split; [done|]. split; [lia|done].
  - destruct (Z.ltb_spec n base).
    + exists (n mod base), []. cbn. rewrite Z.mod_small by lia. split; [done|]. split; [lia|done].
    + destruct (IH (n / base)) as (d & ds & E & Hd & Hz0).
      { split; [apply Z.div_pos; lia|]. apply Z.div_lt_upper_bound; [lia|].
        rewrite <- Z.pow_succ_r by lia. replace (Z.succ (Z.of_nat (S fuel))) with (Z.of_nat (S (S fuel))) by lia. lia. }
      cbn [print] in E. rewrite E. exists d, (ds ++ [digit_char up (n mod base)]). split; [done|]. split; [done|].
      intros Hz. destruct (Hz0 Hz) as [H1 _]. pose proof (Z.div_str_pos n base ltac:(lia)). lia.
Qed.

Lemma below_64 n : 0 <= n < 2 ^ 64 -> 0 <= n < base ^ Z.of_nat 64.
Proof. intros Hn. split; [lia|]. apply (Z.lt_le_trans _ (2 ^ 64)); [lia|]. apply Z.pow_le_mono_l. lia. Qed.

Lemma print_spelled n : 0 <= n < 2 ^ 64 ->
  let s := print 64 up base n in prefix_of (is_digit base) s = s /\ value base s = n
  /\ exists d ds, s = digit_char up d :: ds /\ 0 <= d < base /\ (d = 0 -> n = 0 /\ ds = []).
Proof.
  intros Hn. split; [apply prefix_of_all, print_is_digit; lia|].
  split; [apply print_value, below_64; lia|]. by apply print_head, below_64.
Qed.
End printed.

Lemma not_prefix up d : 0 <= d < 16 -> (__toupper (digit_char up d) =? 88) = false.
Proof. intros Hd. pose proof (digit_char_ok up d Hd). unbool. by apply Z.eqb_neq. Qed.

Lemma digit_char_zero up d : 0 <= d < 16 -> (digit_char up d =? 48) = (d =? 0).
Proof. intros Hd. pose proof (digit_char_ok up d Hd). unbool. by apply eqb_prop. Qed.

Lemma digit_char_xdigit up d : 0 <= d < 16 -> isxdigit (digit_char up d) = true.
Proof. intros Hd. pose proof (digit_char_ok up d Hd). by unbool. Qed.

Lemma upper_X x : x = 88 \/ x = 120 -> (__toupper x =? 88) = true.
Proof. by intros [-> | ->]. Qed.

(** Every spelling is read back entirely. *)
Lemma spells_ok n base s : spells n base s -> 0 <= n < 2 ^ 64 ->
  value (radix base s).2 (digits_of base s) = n /\ ((radix base s).1 + length (digits_of base s) = length s)%nat.
Proof.
  intros Hs Hn. destruct Hs as [up base Hb|up x Hx|up|up|up x Hx]; unfold digits_of.
  - destruct (print_spelled up base Hb n Hn) as (Hp & Hv & d & ds & E & Hd & H0).
    assert (radix base (print 64 up base n) = (0%nat, base)) as ->; [|cbn [fst snd skipn]; rewrite ?drop_0, Hp; by split].
    pose proof (print_digits up base Hb 64 n ltac:(lia)) as Hall.
    unfold radix. rewrite E in Hall |- *. rewrite (proj2 (Z.eqb_neq base 0)) by lia. destruct (Z.eqb_spec base 16) as [->|]; [|done].
    destruct ds as [|c ds]; [done|]. inversion_clear Hall as [|? ? _ Hall']. inversion_clear Hall' as [|? ? (d2 & Hd2 & ->) _].
    by rewrite not_prefix, andb_false_r by lia.
  - destruct (print_spelled up 16 ltac:(lia) n Hn) as (Hp & Hv & _).
    assert (radix 16 (48 :: x :: print 64 up 16 n) = (2%nat, 16)) as ->; [|cbn [fst snd skipn]; rewrite ?drop_0, Hp; by split].
    unfold radix. cbn -[print Z.eqb __toupper]. by rewrite (upper_X _ Hx).
  - destruct (print_spelled up 10 ltac:(lia) n Hn) as (Hp & Hv & d & ds & E & Hd & H0).
    destruct (Z.eqb_spec d 0) as [Hz|Hz].
    + destruct (H0 Hz) as [-> ->]. rewrite E, Hz. by destruct up.
    + assert (radix 0 (print 64 up 10 n) = (0%nat, 10)) as ->; [|cbn [fst snd skipn]; rewrite ?drop_0, Hp; by split].
      unfold radix. rewrite E. cbn -[Z.eqb]. rewrite digit_char_zero by lia. by rewrite (proj2 (Z.eqb_neq d 0)).
  - destruct (print_spelled up 8 ltac:(lia) n Hn) as (Hp & Hv & d & ds & E & Hd & H0).
    assert (radix 0 (48 :: print 64 up 8 n) = (1%nat, 8)) as ->; [|cbn [fst snd skipn]; rewrite ?drop_0, Hp; by split].
    unfold radix. rewrite E. cbn -[Z.eqb __toupper]. destruct ds as [|h ds]; [done|]. by rewrite not_prefix by lia.
  - destruct (print_spelled up 16 ltac:(lia) n Hn) as (Hp & Hv & d & ds & E & Hd & H0).
    assert (radix 0 (48 :: x :: print 64 up 16 n) = (2%nat, 16)) as ->; [|cbn [fst snd skipn]; rewrite ?drop_0, Hp; by split].
    unfold radix. rewrite E. cbn -[Z.eqb __toupper]. by rewrite (upper_X _ Hx), digit_char_xdigit by lia.
Qed.

(** No spelling begins with a minus sign. *)
Lemma spells_head n base s : spells n base s -> 0 <= n < 2 ^ 64 -> exists c r, s = c :: r /\ c <> 45.
Proof.
  assert (forall up b, 2 <= b <= 16 -> 0 <= n < 2 ^ 64 -> exists c r, print 64 up b n = c :: r /\ c <> 45) as Hp.
  { intros up b Hb Hn. destruct (print_spelled up b Hb n Hn) as (_ & _ & d & ds & E & Hd & _). eexists _, _. split; [exact E|].
    pose proof (digit_char_ok up d ltac:(lia)). by unbool. }
  intros Hs Hn. destruct Hs; [by apply Hp|by eexists _, _|by apply Hp|by eexists _, _|by eexists _, _].
Qed.

(** C27: Whatever way a number is written, in its own base or with the
    prefix that tells base 0 or 16 what it is, with small or capital letters,
    parsing gives the number back and ends at the terminator: every number below
    [2^64] for [simple_strtoull], every number from [-2^63] to [2^63 - 1] for
    [simple_strtoll]. *)
Theorem strtoull_roundtrip n base s m p : spells n base s -> 0 <= n < 2 ^ 64 ->
  (cstr m p s -> simple_strtoull m p base = Some (n, p + Z.of_nat (length s)))
  /\ (cstr m p s -> n < 2 ^ 63 -> simple_strtoll m p base = Some (n, p + Z.of_nat (length s)))
  /\ (cstr m p (45 :: s) -> n <= 2 ^ 63 -> simple_strtoll m p base = Some (- n, p + Z.of_nat (length (45 :: s)))).
Proof.
  intros Hs Hn. destruct (spells_ok n base s Hs Hn) as [Hv Hl].
  assert (forall p, cstr m p s -> simple_strtoull m p base = Some (n, p + Z.of_nat (length s))) as Hull.
  { intros q Hq. rewrite (simple_strtoull_ok _ _ s) by done. by rewrite Hv, Hl, wrap_small. }
  split; [apply Hull|]. unfold simple_strtoll. split.
  - intros Hc H63. destruct (spells_head n base s Hs Hn) as (c & r & E & Hne).
    rewrite (Hull _ Hc). rewrite E in Hc. destruct Hc as (_ & -> & _). cbn [mbind option_bind fst snd].
    rewrite (proj2 (Z.eqb_neq c 45)) by done. by rewrite sext_small by lia.
  - intros (_ & -> & Hc) H63. cbn [mbind option_bind]. change (45 =? 45) with true. cbn iota. rewrite (Hull _ Hc). cbn [mbind option_bind fst snd].
    assert (s64 (u64 (- n)) = - n) as ->; [|do 2 f_equal; cbn [length]; lia].
    unfold sext, wrap. rewrite Zplus_mod_idemp_l. rewrite Z.mod_small; lia.
Qed.

(** "-0x8000000000000000". *)
Lemma strtoull_roundtrip_witness : simple_strtoll [45; 48; 120; 56; 48; 48; 48; 48; 48; 48; 48; 48; 48; 48; 48; 48; 48; 48; 48; 0] 0 0 = Some (- 2 ^ 63, 0 + 19).
Proof.
  refine (proj2 (proj2 (strtoull_roundtrip (2 ^ 63) 0 (48 :: 120 :: print 64 false 16 (2 ^ 63)) _ 0 (spells_auto_hex _ false 120 _) _)) _ _);
    [by right|lia|vm_compute; by split_and!|lia].
Defined.

(** A number that does not fit is cut without a sign of it, and base 16 takes
    "0x" for a prefix though no digit follows, which base 0 does not. *)
Example example_overflow : simple_strtoull [49; 56; 52; 52; 54; 55; 52; 52; 48; 55; 51; 55; 48; 57; 53; 53; 49; 54; 49; 55; 0] 0 10 = Some (1, 20).
Proof. reflexivity. Qed.
Example example_bare_prefix : simple_strtoull [48; 120; 122; 0] 0 16 = Some (0, 2) /\ simple_strtoull [48; 120; 122; 0] 0 0 = Some (0, 1).
Proof. done. Qed.
