(* ===== verification/Lro.v ===== *)
(** Large receive offload: [vmklinux26/linux/net/inet_lro.c] as it is compiled
    for the hypervisor, with the Ethernet header helpers of
    [include/linux/etherdevice.h].

    Header fields hold their values in host order, so that [ntohs] and the like
    are the identity; the checksum field alone is kept as it is in memory. What
    the code passes to the network stack is the list [delivered], a ghost. *)

From S2P Require Import Prelude Csum FastCsum.
Local Open Scope Z_scope.

Definition ETH_P_IP : Z := 0x0800.
Definition ETH_P_8021Q : Z := 0x8100.
Definition IPPROTO_TCP : Z := 6.
Definition IP_MF : Z := 0x2000.
Definition IP_OFFSET : Z := 0x1FFF.
Definition INET_ECN_CE : Z := 3.
Definition INET_ECN_MASK : Z := 3.
Definition TCPOPT_NOP : Z := 1.
Definition TCPOPT_TIMESTAMP : Z := 8.
Definition TCPOLEN_TIMESTAMP : Z := 10.
Definition CHECKSUM_UNNECESSARY : Z := 2.
Definition LRO_F_NAPI : Z := 1.
Definition LRO_IPV4 : Z := 1.
Definition LRO_TCP : Z := 2.
Definition IPH_LEN_WO_OPTIONS : Z := 5.
Definition TCPH_LEN_WO_OPTIONS : Z := 5.
Definition TCPH_LEN_W_TIMESTAMP : Z := 8.

(** ** Packets *)

(** The type fields of an Ethernet header, at their offsets: the type, the tag
    and the type behind a VLAN tag, the SNAP types of an 802.3 header without and
    with such a tag. *)
Record ethhdr := Eth {
  h_proto : Z;
  h_vlan_TCI : Z;
  h_vlan_encapsulated_proto : Z;
  h_llc_snap_type : Z;
  h_vlan_llc_snap_type : Z;
}.

Inductive eth_type :=
| ETH_HEADER_TYPE_DIX
| ETH_HEADER_TYPE_802_1PQ
| ETH_HEADER_TYPE_802_3
| ETH_HEADER_TYPE_802_1PQ_802_3.

Definition eth_header_type (eh : ethhdr) : eth_type :=
  if 1536 <=? h_proto eh then
    if negb (h_proto eh =? ETH_P_8021Q) then ETH_HEADER_TYPE_DIX
    else if 1536 <=? h_vlan_encapsulated_proto eh then ETH_HEADER_TYPE_802_1PQ
    else ETH_HEADER_TYPE_802_1PQ_802_3
  else ETH_HEADER_TYPE_802_3.

Definition eth_header_len (eh : ethhdr) : Z :=
  match eth_header_type eh with
  | ETH_HEADER_TYPE_DIX => 14
  | ETH_HEADER_TYPE_802_1PQ => 18
  | ETH_HEADER_TYPE_802_3 => 22
  | ETH_HEADER_TYPE_802_1PQ_802_3 => 26
  end.

Definition eth_header_frame_type (eh : ethhdr) : Z :=
  match eth_header_type eh with
  | ETH_HEADER_TYPE_DIX => h_proto eh
  | ETH_HEADER_TYPE_802_1PQ => h_vlan_encapsulated_proto eh
  | ETH_HEADER_TYPE_802_3 => h_llc_snap_type eh
  | ETH_HEADER_TYPE_802_1PQ_802_3 => h_vlan_llc_snap_type eh
  end.

Definition eth_header_is_ipv4 (eh : ethhdr) : bool := eth_header_frame_type eh =? ETH_P_IP.

Record iphdr := Ip {
  version : Z;
  ihl : Z;
  tos : Z;
  tot_len : Z;
  id : Z;
  frag_off : Z;
  ttl : Z;
  protocol : Z;
  check : Z;
  saddr : Z;
  daddr : Z;
}.

(** The header without options as it is in memory. *)
Definition be16 (v : Z) : list Z := [v / 2 ^ 8; v mod 2 ^ 8].
Definition be32 (v : Z) : list Z := be16 (v / 2 ^ 16) ++ be16 (v mod 2 ^ 16).
Definition ip_bytes (h : iphdr) : list Z :=
  [16 * version h + ihl h; tos h] ++ be16 (tot_len h) ++ be16 (id h) ++ be16 (frag_off h)
  ++ [ttl h; protocol h; check h mod 2 ^ 8; check h / 2 ^ 8] ++ be32 (saddr h) ++ be32 (daddr h).
Definition ip_memory (h : iphdr) (a : Z) : Z := nth (Z.to_nat a) (ip_bytes h) 0.

(** [topt] are the three words behind the fixed header. *)
Record tcphdr := Tcp {
  source : Z;
  dest : Z;
  seq : Z;
  ack_seq : Z;
  doff : Z;
  fin : bool;
  syn : bool;
  rst : bool;
  psh : bool;
  ack : bool;
  urg : bool;
  ece : bool;
  cwr : bool;
  window : Z;
  topt : Z * Z * Z;
}.

Definition topt0 (th : tcphdr) : Z := (topt th).1.1.
Definition topt1 (th : tcphdr) : Z := (topt th).1.2.
Definition topt2 (th : tcphdr) : Z := (topt th).2.

(** A packet: its headers, the TCP header 20 bytes behind the beginning of the
    IP header; [data], the bytes behind it; by how much [skb->data] has been moved
    ([pulled]); the tag in [skb->cb], if there is one ([cookie]); the segment size
    set in the VMkernel's packet ([large]). *)
Inductive sk_buff := Skb {
  eth : ethhdr;
  iph : iphdr;
  tcph : tcphdr;
  data : list Z;
  pulled : Z;
  len : Z;
  data_len : Z;
  truesize : Z;
  cookie : option Z;
  ip_summed : Z;
  lro_ready : bool;
  gso_size : Z;
  large : option Z;
  frag_list : list sk_buff;
}.

Definition set_headers (ih : iphdr) (th : tcphdr) (lg : option Z) (s : sk_buff) : sk_buff :=
  Skb (eth s) ih th (data s) (pulled s) (len s) (data_len s) (truesize s) (cookie s) (ip_summed s) (lro_ready s)
    (gso_size s) lg (frag_list s).
Definition set_lengths (p l d t : Z) (s : sk_buff) : sk_buff :=
  Skb (eth s) (iph s) (tcph s) (data s) p l d t (cookie s) (ip_summed s) (lro_ready s) (gso_size s) (large s) (frag_list s).
Definition set_ip_summed (c : Z) (s : sk_buff) : sk_buff :=
  Skb (eth s) (iph s) (tcph s) (data s) (pulled s) (len s) (data_len s) (truesize s) (cookie s) c (lro_ready s)
    (gso_size s) (large s) (frag_list s).
Definition set_ready (g : Z) (s : sk_buff) : sk_buff :=
  Skb (eth s) (iph s) (tcph s) (data s) (pulled s) (len s) (data_len s) (truesize s) (cookie s) (ip_summed s) true
    g (large s) (frag_list s).
Definition set_frag_list (l : list sk_buff) (s : sk_buff) : sk_buff :=
  Skb (eth s) (iph s) (tcph s) (data s) (pulled s) (len s) (data_len s) (truesize s) (cookie s) (ip_summed s) (lro_ready s)
    (gso_size s) (large s) l.

(** [skb_pull]: nothing if [n] is more than the packet's length; a fault if the
    linear part is shorter. *)
Definition skb_pull (n : Z) (s : sk_buff) : option sk_buff :=
  if len s <? n then Some s
  else if u32 (len s - n) <? data_len s then None
  else Some (set_lengths (pulled s + n) (u32 (len s - n)) (data_len s) (truesize s) s).

(** ** Descriptors *)

(** The pointers [iph] and [tcph] of a descriptor are those of [parent];
    [last_skb] tells whether the pointer of that name is set: it is then the end
    of the parent's [frag_list]. *)
Record net_lro_desc := Desc {
  parent : option sk_buff;
  last_skb : bool;
  vgrp : option Z;
  tcp_rcv_tsecr : Z;
  tcp_rcv_tsval : Z;
  tcp_ack : Z;
  tcp_next_seq : Z;
  ip_tot_len : Z;
  tcp_saw_tstamp : bool;
  tcp_window : Z;
  vlan_tag : Z;
  pkt_aggr_cnt : Z;
  mss : Z;
  active : bool;
}.

(** How a packet was passed on: to its VLAN group or directly, in NAPI context
    or not; the VLAN tag it was received with. *)
Record delivery := Delivery { group : option Z; napi : bool; tag : Z; packet : sk_buff }.

Record net_lro_mgr := Mgr {
  mtu : Z;
  aggregated : Z;
  flushed : Z;
  no_desc : Z;
  features : Z;
  mgr_ip_summed : Z;
  ip_summed_aggr : Z;
  max_desc : Z;
  max_aggr : Z;
  lro_arr : list net_lro_desc;
  delivered : list delivery;
}.

Definition set_stats (a f n : Z) (m : net_lro_mgr) : net_lro_mgr :=
  Mgr (mtu m) (u64 a) (u64 f) (u64 n) (features m) (mgr_ip_summed m) (ip_summed_aggr m) (max_desc m) (max_aggr m)
    (lro_arr m) (delivered m).
Definition set_arr (l : list net_lro_desc) (m : net_lro_mgr) : net_lro_mgr :=
  Mgr (mtu m) (aggregated m) (flushed m) (no_desc m) (features m) (mgr_ip_summed m) (ip_summed_aggr m) (max_desc m)
    (max_aggr m) l (delivered m).
Definition deliver (g : option Z) (t : Z) (s : sk_buff) (m : net_lro_mgr) : net_lro_mgr :=
  Mgr (mtu m) (aggregated m) (flushed m) (no_desc m) (features m) (mgr_ip_summed m) (ip_summed_aggr m) (max_desc m)
    (max_aggr m) (lro_arr m) (delivered m ++ [Delivery g (negb (Z.land (features m) LRO_F_NAPI =? 0)) t s]).

(** ** Checks *)

(** [tcp.h]: whether [seq1] is after [seq2], as 32-bit numbers that wrap. *)
Definition after (seq1 seq2 : Z) : bool := s32 (u32 (seq2 - seq1)) <? 0.

Definition TCP_PAYLOAD_LENGTH (ih : iphdr) (th : tcphdr) : Z :=
  tot_len ih - Z.shiftl (ihl ih) 2 - Z.shiftl (doff th) 2.

Definition INET_ECN_is_ce (dsfield : Z) : bool := Z.land dsfield INET_ECN_MASK =? INET_ECN_CE.

(** True if the packet can be aggregated (the code returns 0). *)
Definition lro_tcp_ip_check (ih : iphdr) (th : tcphdr) (length : Z) (lro_desc : option net_lro_desc) : bool :=
  if negb (tot_len ih =? length) then false
  else if negb (Z.land (frag_off ih) (Z.lor IP_OFFSET IP_MF) =? 0) then false
  else if TCP_PAYLOAD_LENGTH ih th =? 0 then false
  else if negb (ihl ih =? IPH_LEN_WO_OPTIONS) then false
  else if cwr th || ece th || urg th || negb (ack th) || rst th || syn th || fin th then false
  else if INET_ECN_is_ce (tos ih) then false
  else if negb (doff th =? TCPH_LEN_WO_OPTIONS) && negb (doff th =? TCPH_LEN_W_TIMESTAMP) then false
  else if doff th =? TCPH_LEN_W_TIMESTAMP then
    if negb (topt0 th =? Z.lor (Z.lor (Z.lor (Z.shiftl TCPOPT_NOP 24) (Z.shiftl TCPOPT_NOP 16)) (Z.shiftl TCPOPT_TIMESTAMP 8)) TCPOLEN_TIMESTAMP)
    then false
    else if match lro_desc with Some d => after (tcp_rcv_tsval d) (topt1 th) | None => false end then false
    else if topt2 th =? 0 then false
    else true
  else true.

(** ** A descriptor *)

Definition set_ip (l c : Z) (h : iphdr) : iphdr :=
  Ip (version h) (ihl h) (tos h) l (id h) (frag_off h) (ttl h) (protocol h) c (saddr h) (daddr h).
Definition set_tcp (a w : Z) (o : Z * Z * Z) (h : tcphdr) : tcphdr :=
  Tcp (source h) (dest h) (seq h) a (doff h) (fin h) (syn h) (rst h) (psh h) (ack h) (urg h) (ece h) (cwr h) w o.

(** The headers of the parent: the new ones. *)
Definition lro_update_tcp_ip_header (d : net_lro_desc) (ih : iphdr) (th : tcphdr) : iphdr * tcphdr :=
  let o := if tcp_saw_tstamp d then (topt0 th, topt1 th, tcp_rcv_tsecr d) else topt th in
  let th := set_tcp (tcp_ack d) (tcp_window d) o th in
  let ih := set_ip (u16 (ip_tot_len d)) 0 ih in
  (set_ip (tot_len ih) (ip_fast_csum (ip_memory ih) 0 (ihl ih)) ih, th).

Definition lro_clear_desc : net_lro_desc := Desc None false None 0 0 0 0 0 false 0 0 0 0 false.

(** The fields that are not set keep what they have. *)
Definition lro_init_desc (d : net_lro_desc) (s : sk_buff) (tg : Z) (g : option Z) : net_lro_desc :=
  let n := u32 (TCP_PAYLOAD_LENGTH (iph s) (tcph s)) in
  let saw := doff (tcph s) =? 8 in
  Desc (Some s) (last_skb d) g
    (if saw then topt2 (tcph s) else tcp_rcv_tsecr d) (if saw then topt1 (tcph s) else tcp_rcv_tsval d)
    (ack_seq (tcph s)) (u32 (seq (tcph s) + n)) (tot_len (iph s))
    (if saw then true else tcp_saw_tstamp d) (window (tcph s)) tg 1 (s32 n) true.

Definition lro_add_common (d : net_lro_desc) (p : sk_buff) (th : tcphdr) (n : Z) : net_lro_desc :=
  Desc (Some (set_lengths (pulled p) (u32 (len p + n)) (u32 (data_len p + n)) (truesize p) p))
    (last_skb d) (vgrp d)
    (if tcp_saw_tstamp d then topt2 th else tcp_rcv_tsecr d) (tcp_rcv_tsval d)
    (ack_seq th) (u32 (tcp_next_seq d + n)) (u16 (ip_tot_len d + n))
    (tcp_saw_tstamp d) (window th) (vlan_tag d) (s32 (pkt_aggr_cnt d + 1))
    (if mss d <? n then n else mss d) (active d).

Definition set_parent (p : sk_buff) (d : net_lro_desc) : net_lro_desc :=
  Desc (Some p) true (vgrp d) (tcp_rcv_tsecr d) (tcp_rcv_tsval d) (tcp_ack d) (tcp_next_seq d) (ip_tot_len d)
    (tcp_saw_tstamp d) (tcp_window d) (vlan_tag d) (pkt_aggr_cnt d) (mss d) (active d).

Definition lro_add_packet (d : net_lro_desc) (s : sk_buff) : option net_lro_desc :=
  p ← parent d;
  let n := TCP_PAYLOAD_LENGTH (iph s) (tcph s) in
  let d := lro_add_common d p (tcph s) n in
  s ← skb_pull (u32 (len s - n)) s;
  p ← parent d;
  let p := set_lengths (pulled p) (len p) (data_len p) (u32 (truesize p + truesize s)) p in
  let p := set_frag_list (if last_skb d then frag_list p ++ [s] else [s]) p in
  Some (set_parent p d).

(** True if the packet is of the descriptor's connection (the code returns
    0). *)
Definition lro_check_tcp_conn (d : net_lro_desc) (ih : iphdr) (th : tcphdr) : option bool :=
  p ← parent d;
  Some ((saddr (iph p) =? saddr ih) && (daddr (iph p) =? daddr ih)
        && (source (tcph p) =? source th) && (dest (tcph p) =? dest th)).

(** ** The manager *)

(** The two loops of [lro_get_desc], from index [i] on, [n] times. *)
Fixpoint find_conn (n : nat) (arr : list net_lro_desc) (i : nat) (tg : Z) (ih : iphdr) (th : tcphdr) : option (option nat) :=
  match n with
  | O => Some None
  | S n =>
      d ← arr !! i;
      if active d && (vlan_tag d =? tg) then
        same ← lro_check_tcp_conn d ih th;
        if same : bool then Some (Some i) else find_conn n arr (S i) tg ih th
      else find_conn n arr (S i) tg ih th
  end.
Fixpoint find_free (n : nat) (arr : list net_lro_desc) (i : nat) : option (option nat) :=
  match n with
  | O => Some None
  | S n => d ← arr !! i; if active d then find_free n arr (S i) else Some (Some i)
  end.

Definition lro_get_desc (m : net_lro_mgr) (tg : Z) (ih : iphdr) (th : tcphdr) : option (option nat * net_lro_mgr) :=
  let n := Z.to_nat (max_desc m) in
  r ← find_conn n (lro_arr m) 0 tg ih th;
  match r with
  | Some i => Some (Some i, m)
  | None =>
      r ← find_free n (lro_arr m) 0;
      match r with
      | Some i => Some (Some i, m)
      | None => Some (None, set_stats (aggregated m) (flushed m) (no_desc m + 1) m)
      end
  end.

Definition lro_flush (m : net_lro_mgr) (i : nat) : option net_lro_mgr :=
  d ← lro_arr m !! i;
  p ← parent d;
  let p :=
    if 1 <? pkt_aggr_cnt d then
      let '(ih, th) := lro_update_tcp_ip_header d (iph p) (tcph p) in set_headers ih th (Some (mss d)) p
    else p in
  let p := set_ready (u16 (mss d)) p in
  let m := deliver (vgrp d) (vlan_tag d) p m in
  let m := set_stats (aggregated m) (flushed m + 1) (no_desc m) m in
  Some (set_arr (<[i := lro_clear_desc]> (lro_arr m)) m).

(** The flags. *)
Definition vmklnx_net_lro_get_skb_header (s : sk_buff) : Z :=
  if eth_header_is_ipv4 (eth s) then
    if protocol (iph s) =? IPPROTO_TCP then Z.lor LRO_IPV4 LRO_TCP else LRO_IPV4
  else 0.

Section code.
Context (vmklnxLROEnabled : bool).

(** The result and the packet afterwards, which with result 1 has to be passed
    on by the caller. *)
Definition __lro_proc_skb (m : net_lro_mgr) (s : sk_buff) (g : option Z) (tg : Z) : option (Z * sk_buff * net_lro_mgr) :=
  let out m := Some (1, set_ip_summed (mgr_ip_summed m) s, m) in
  if negb vmklnxLROEnabled || negb (ip_summed s =? CHECKSUM_UNNECESSARY) then Some (1, s, m)
  else
    let flags := vmklnx_net_lro_get_skb_header s in
    if (Z.land flags LRO_IPV4 =? 0) || (Z.land flags LRO_TCP =? 0) then out m
    else
      r ← lro_get_desc m tg (iph s) (tcph s);
      let m := r.2 in
      match r.1 with
      | None => out m
      | Some i =>
          d ← lro_arr m !! i;
          let length := s32 (u32 (len s - eth_header_len (eth s))) in
          if negb (active d) then
            if negb (lro_tcp_ip_check (iph s) (tcph s) length None) then out m
            else
              let s := set_ip_summed (ip_summed_aggr m) s in
              let m := set_arr (<[i := lro_init_desc d s tg g]> (lro_arr m)) m in
              Some (0, s, set_stats (aggregated m + 1) (flushed m) (no_desc m) m)
          else if negb (tcp_next_seq d =? seq (tcph s)) || negb (lro_tcp_ip_check (iph s) (tcph s) length (Some d)) then
            m ← lro_flush m i; out m
          else
            d ← lro_add_packet d s;
            p ← parent d;
            let m := set_arr (<[i := d]> (lro_arr m)) m in
            let m := set_stats (aggregated m + 1) (flushed m) (no_desc m) m in
            if (max_aggr m <=? pkt_aggr_cnt d) || (u32 (0xFFFF - mtu m) <? len p) then
              m ← lro_flush m i; Some (0, s, m)
            else Some (0, s, m)
      end.

(** [__vlan_hwaccel_get_tag] and, if there is no tag, [__vlan_get_tag]. *)
Definition get_tag (s : sk_buff) : Z :=
  match cookie s with
  | Some t => t
  | None => if h_proto (eth s) =? ETH_P_8021Q then h_vlan_TCI (eth s) else 0
  end.

Definition lro_receive_skb (m : net_lro_mgr) (s : sk_buff) : option net_lro_mgr :=
  let tg := get_tag s in
  r ← __lro_proc_skb m s None tg;
  let '(rv, s, m) := r in
  if negb (rv =? 0) then Some (deliver None tg (set_ready (gso_size s) s) m) else Some m.

Definition lro_vlan_hwaccel_receive_skb (m : net_lro_mgr) (s : sk_buff) (g : option Z) (tg : Z) : option net_lro_mgr :=
  r ← __lro_proc_skb m s g tg;
  let '(rv, s, m) := r in
  if negb (rv =? 0) then Some (deliver g tg (set_ready (gso_size s) s) m) else Some m.
End code.

(** From index [i] on, [n] times. *)
Fixpoint flush_from (n : nat) (m : net_lro_mgr) (i : nat) : option net_lro_mgr :=
  match n with
  | O => Some m
  | S n =>
      d ← lro_arr m !! i;
      m ← (if active d then lro_flush m i else Some m);
      flush_from n m (S i)
  end.
Definition lro_flush_all (m : net_lro_mgr) : option net_lro_mgr := flush_from (Z.to_nat (max_desc m)) m 0.

(** What the callers of the engine do. *)
Inductive lro_op :=
| Receive (s : sk_buff)
| ReceiveVlan (s : sk_buff) (g : option Z) (tg : Z)
| FlushAll.

Definition lro_step (enabled : bool) (m : net_lro_mgr) (o : lro_op) : option net_lro_mgr :=
  match o with
  | Receive s => lro_receive_skb enabled m s
  | ReceiveVlan s g tg => lro_vlan_hwaccel_receive_skb enabled m s g tg
  | FlushAll => lro_flush_all m
  end.
Fixpoint lro_run (enabled : bool) (m : net_lro_mgr) (ops : list lro_op) : option net_lro_mgr :=
  match ops with
  | [] => Some m
  | o :: ops => m ← lro_step enabled m o; lro_run enabled m ops
  end.

(** As [linux_net.c] initialises the engine of a NAPI context. *)
Definition LRO_DEFAULT_MAX_DESC : Z := 8.
Definition lro_init (mtu max_aggr : Z) : net_lro_mgr :=
  Mgr mtu 0 0 0 LRO_F_NAPI CHECKSUM_UNNECESSARY CHECKSUM_UNNECESSARY LRO_DEFAULT_MAX_DESC max_aggr
    (replicate (Z.to_nat LRO_DEFAULT_MAX_DESC) lro_clear_desc) [].
