(* ===== verification/LroSpec.v ===== *)
(** What large receive offload promises to the network stack: every byte of a
    connection arrives once, in order and at its sequence number; the headers of
    an aggregated packet are those of the packet it stands for. *)

From S2P Require Import Prelude Csum FastCsum Lro.
Local Open Scope Z_scope.

(** ** The bytes of a connection *)

Definition hdr_len (s : sk_buff) : Z := eth_header_len (eth s) + 20 + 4 * doff (tcph s).

(** What the stack sees of a packet in a [frag_list]: the bytes from [skb->data]
    on. A byte of the headers, which should not be there, is shown as [-1]. *)
Definition content (s : sk_buff) : list Z :=
  replicate (Z.to_nat (hdr_len s - pulled s)) (-1) ++ drop (Z.to_nat (pulled s - hdr_len s)) (data s).

Definition payload (s : sk_buff) : list Z := data s ++ (frag_list s ≫= content).

(** The bytes with their sequence numbers. *)
Definition numbered (s : sk_buff) : list (Z * Z) :=
  imap (fun i b => (u32 (seq (tcph s) + Z.of_nat i), b)) (payload s).

(** The connection of a packet received with the tag [tg]. *)
Definition conn_id : Type := Z * Z * Z * Z * Z.
Definition is_tcp (s : sk_buff) : bool := eth_header_is_ipv4 (eth s) && (protocol (iph s) =? IPPROTO_TCP).
Definition conn (tg : Z) (s : sk_buff) : option conn_id :=
  if is_tcp s then Some (tg, saddr (iph s), daddr (iph s), source (tcph s), dest (tcph s)) else None.

(** The bytes of connection [c] in a list of tagged packets. *)
Definition piece (c : option conn_id) (x : Z * sk_buff) : list (Z * Z) :=
  if decide (conn x.1 x.2 = c) then numbered x.2 else [].
Definition stream (c : option conn_id) (l : list (Z * sk_buff)) : list (Z * Z) := l ≫= piece c.

Definition received (ops : list lro_op) : list (Z * sk_buff) :=
  ops ≫= fun o => match o with
    | Receive s => [(get_tag s, s)]
    | ReceiveVlan s _ tg => [(tg, s)]
    | FlushAll => []
    end.
Definition sent (m : net_lro_mgr) : list (Z * sk_buff) := (fun d => (tag d, packet d)) <$> delivered m.
Definition tagged (d : net_lro_desc) : list (Z * sk_buff) :=
  match parent d with Some p => [(vlan_tag d, p)] | None => [] end.
Definition held (m : net_lro_mgr) : list (Z * sk_buff) := lro_arr m ≫= tagged.

(** ** Packets as drivers give them *)

(** A packet as it comes from a driver: not moved, without a [frag_list], its
    checksum verified; the headers of a TCP packet are in it. *)
Record sound (s : sk_buff) : Prop := {
  sound_pulled : pulled s = 0;
  sound_frags : frag_list s = [];
  sound_summed : ip_summed s = CHECKSUM_UNNECESSARY;
  sound_len : 0 <= len s < 2 ^ 31;
  sound_data : 0 <= data_len s <= Z.of_nat (length (data s));
  sound_seq : 0 <= seq (tcph s) < 2 ^ 32;
  sound_complete : is_tcp s = true -> ihl (iph s) = 5 -> len s = hdr_len s + Z.of_nat (length (data s));
}.
Definition sound_op (o : lro_op) : Prop :=
  match o with Receive s | ReceiveVlan s _ _ => sound s | FlushAll => True end.

(** ** The invariant *)

(** A descriptor that is not in use is all zero. *)
Record desc_ok (d : net_lro_desc) (p : sk_buff) : Prop := {
  do_active : active d = true;
  do_tcp : is_tcp p = true;
  do_seq : tcp_next_seq d = u32 (seq (tcph p) + Z.of_nat (length (payload p)));
  do_frags : last_skb d = false -> frag_list p = [];
}.
Definition dinv (d : net_lro_desc) : Prop :=
  match parent d with None => d = lro_clear_desc | Some p => desc_ok d p end.

Definition key (d : net_lro_desc) : option conn_id := p ← parent d; conn (vlan_tag d) p.

Record lro_inv (enabled : bool) (m : net_lro_mgr) : Prop := {
  li_size : Z.of_nat (length (lro_arr m)) = max_desc m;
  li_descs : Forall dinv (lro_arr m);
  li_keys : NoDup (omap key (lro_arr m));
  li_enabled : enabled = false -> omap key (lro_arr m) = [];
}.

Lemma dinv_clear : dinv lro_clear_desc.
Proof. done. Qed.

Lemma key_clear : key lro_clear_desc = None.
Proof. done. Qed.

Lemma dinv_key d : dinv d -> (active d = true /\ exists p k, parent d = Some p /\ key d = Some k /\ conn (vlan_tag d) p = Some k)
  \/ (d = lro_clear_desc /\ key d = None).
Proof.
  unfold dinv. destruct (parent d) as [p|] eqn:Ep; [|intros ->; by right].
  intros [Ha Ht _ _]. left. split; [done|].
  assert (exists k, conn (vlan_tag d) p = Some k) as [k Ek] by (unfold conn; rewrite Ht; eauto).
  exists p, k. unfold key. rewrite Ep. by split_and!.
Qed.

(** *** Streams of the descriptors *)

Lemma stream_app c l l' : stream c (l ++ l') = stream c l ++ stream c l'.
Proof. apply bind_app. Qed.

Definition slots (c : option conn_id) (arr : list net_lro_desc) : list (Z * Z) := stream c (arr ≫= tagged).

#[local] Arguments slots : simpl never.
#[local] Arguments stream : simpl never.
#[local] Arguments piece : simpl never.
#[local] Arguments lro_clear_desc : simpl never.

Lemma slots_app c l l' : slots c (l ++ l') = slots c l ++ slots c l'.
Proof. unfold slots. by rewrite bind_app, stream_app. Qed.

Lemma slots_cons c d l : slots c (d :: l) = stream c (tagged d) ++ slots c l.
Proof. unfold slots. rewrite bind_cons. by rewrite stream_app. Qed.

(** A connection that no descriptor is for has nothing held. *)
Lemma tagged_other c d : dinv d -> key d <> c \/ c = None -> stream c (tagged d) = [].
Proof.
  intros Hd Hk. unfold tagged. destruct (dinv_key d Hd) as [(_ & p & k & Ep & Ek & Ec)|[-> _]]; [|done].
  rewrite Ep. unfold stream, piece. cbn. rewrite Ec. rewrite decide_False; [done|]. intros <-. destruct Hk as [Hk|Hk]; congruence.
Qed.

Lemma slots_absent c arr : Forall dinv arr -> (forall k, c = Some k -> k ∉ omap key arr) -> slots c arr = [].
Proof.
  induction 1 as [|d arr Hd _ IH]; [done|]. cbn [omap list_omap]. intros Hk. rewrite slots_cons, IH.
  - rewrite app_nil_r. apply tagged_other; [done|]. destruct c as [k|]; [left|by right]. intros E.
    apply (Hk k eq_refl). cbn. rewrite E. left.
  - intros k Hc Hin. apply (Hk k Hc). cbn. destruct (key d); [by right|done].
Qed.

Lemma tagged_key d k : key d = Some k -> exists p, parent d = Some p /\ stream (Some k) (tagged d) = numbered p.
Proof.
  unfold key, tagged. destruct (parent d) as [p|]; [|done]. cbn. intros E. exists p. split; [done|].
  unfold stream, piece. cbn. rewrite decide_True by done. apply app_nil_r.
Qed.

(** The stream of a connection is what the descriptor with its key holds. *)
Lemma slots_at c l1 d l2 : Forall dinv (l1 ++ d :: l2) -> NoDup (omap key (l1 ++ d :: l2)) ->
  slots c (l1 ++ d :: l2)
  = if decide (key d = c /\ c <> None) then stream c (tagged d) else slots c (l1 ++ l2).
Proof.
  intros Hd Hn. rewrite omap_app in Hn. cbn in Hn. apply Forall_app in Hd as [H1 H2]. inversion_clear H2 as [|? ? Hd H2'].
  rewrite slots_app, slots_cons. case_decide as Hk.
  - destruct Hk as [Hk Hc]. destruct c as [k|]; [|done]. rewrite Hk in Hn. apply NoDup_app in Hn as (_ & Hn & Hn2).
    rewrite (slots_absent _ l1 H1), (slots_absent _ l2 H2'); [by rewrite app_nil_r|..]; intros k' [= <-].
    + by apply NoDup_cons in Hn2 as [? _].
    + intros Hin. apply (Hn _ Hin). left.
  - rewrite tagged_other, slots_app; [done|done|]. destruct c; [left|by right]. intros E. by apply Hk.
Qed.

(** ** The array of descriptors *)

Definition good (arr : list net_lro_desc) : Prop := Forall dinv arr /\ NoDup (omap key arr).

Lemma keys_mid l1 d l2 k : k ∈ omap key (l1 ++ d :: l2) <-> key d = Some k \/ k ∈ omap key (l1 ++ l2).
Proof.
  rewrite !omap_app, !elem_of_app. cbn. destruct (key d) as [k'|]; [rewrite elem_of_cons|]; naive_solver.
Qed.

Lemma good_mid l1 d l2 : good (l1 ++ d :: l2) <->
  dinv d /\ good (l1 ++ l2) /\ forall k, key d = Some k -> k ∉ omap key (l1 ++ l2).
Proof.
  unfold good. rewrite !Forall_app, Forall_cons, !omap_app. cbn. destruct (key d) as [k|].
  - rewrite <- Permutation_middle, NoDup_cons. naive_solver.
  - naive_solver.
Qed.

(** The stream of the connections after descriptor [d] has become [d']. *)
Lemma slots_replace c l1 d d' l2 : good (l1 ++ d :: l2) -> good (l1 ++ d' :: l2) ->
  (key d' = key d -> stream (key d) (tagged d') = stream (key d) (tagged d) -> slots c (l1 ++ d' :: l2) = slots c (l1 ++ d :: l2)).
Proof.
  intros [H1 N1] [H2 N2] Hk Hs. rewrite !slots_at by done. rewrite Hk. case_decide as Hc; [|done].
  by destruct Hc as [<- _].
Qed.

Lemma slots_key l1 d l2 k : good (l1 ++ d :: l2) -> key d = Some k ->
  slots (Some k) (l1 ++ d :: l2) = stream (Some k) (tagged d).
Proof. intros [H N] Hk. rewrite slots_at by done. by rewrite decide_True by done. Qed.

Lemma slots_other l1 d l2 c : good (l1 ++ d :: l2) -> key d <> c \/ c = None -> slots c (l1 ++ d :: l2) = slots c (l1 ++ l2).
Proof. intros [H N] Hk. rewrite slots_at by done. rewrite decide_False; [done|]. intros [? ?]. by destruct Hk. Qed.

Lemma slots_none c arr : good arr -> (forall k, c = Some k -> k ∉ omap key arr) -> slots c arr = [].
Proof. intros [H _]. by apply slots_absent. Qed.

(** ** Packets that stand for the same bytes *)

Definition alike (s s' : sk_buff) : Prop := numbered s' = numbered s /\ forall tg, conn tg s' = conn tg s.

Lemma alike_refl s : alike s s.
Proof. done. Qed.

Lemma alike_trans s s' s'' : alike s s' -> alike s' s'' -> alike s s''.
Proof. intros [H1 C1] [H2 C2]. split; [congruence|]. intros tg. by rewrite C2, C1. Qed.

Lemma alike_ready g s : alike s (set_ready g s).
Proof. done. Qed.

Lemma alike_summed c s : alike s (set_ip_summed c s).
Proof. done. Qed.

Lemma alike_update d lg s : let h := lro_update_tcp_ip_header d (iph s) (tcph s) in alike s (set_headers h.1 h.2 lg s).
Proof. done. Qed.

Lemma piece_alike c tg s s' : alike s s' -> piece c (tg, s') = piece c (tg, s).
Proof. intros [H C]. unfold piece. cbn. by rewrite C, H. Qed.

(** ** Sequence numbers *)

Lemma u32_add_assoc a b c : u32 (u32 (a + b) + c) = u32 (a + (b + c)).
Proof. rewrite wrap_add_l. f_equal. lia. Qed.

(** Data that continues a packet continues its stream. *)
Lemma numbered_append p p' s : tcph p' = tcph p -> payload p' = payload p ++ payload s ->
  seq (tcph s) = u32 (seq (tcph p) + Z.of_nat (length (payload p))) -> numbered p' = numbered p ++ numbered s.
Proof.
  intros Ht Hp Hs. unfold numbered. rewrite Hp, imap_app, Ht. f_equal. apply imap_ext. intros i b _. cbn.
  f_equal. rewrite Hs, u32_add_assoc. f_equal. lia.
Qed.

(** ** Looking for a descriptor *)

Lemma check_conn_ok d p tg s : parent d = Some p -> desc_ok d p -> is_tcp s = true ->
  exists b, lro_check_tcp_conn d (iph s) (tcph s) = Some b /\ ((vlan_tag d =? tg) && b = true <-> key d = conn tg s).
Proof.
  intros Ep [_ Ht _ _] Hs. unfold lro_check_tcp_conn, key. rewrite Ep. cbn [mbind option_bind]. eexists. split; [reflexivity|].
  unfold conn. rewrite Ht, Hs, !andb_true_iff, !Z.eqb_eq. split; [|by intros [= -> -> -> -> ->]].
  by intros (-> & ((-> & ->) & ->) & ->).
Qed.

Lemma find_conn_ok n arr i tg s : Forall dinv arr -> (i + n <= length arr)%nat -> is_tcp s = true ->
  exists r, find_conn n arr i tg (iph s) (tcph s) = Some r
    /\ match r with
       | Some j => exists d, arr !! j = Some d /\ key d = conn tg s
       | None => forall j d, (i <= j < i + n)%nat -> arr !! j = Some d -> key d <> conn tg s
       end.
Proof.
  intros Hd Hn Hs. revert i Hn. induction n as [|n IH]; intros i Hn; cbn [find_conn].
  { exists None. split; [done|]. intros j d Hj. lia. }
  destruct (lookup_lt_is_Some_2 arr i) as [d Ed]; [lia|]. rewrite Ed. cbn [mbind option_bind].
  assert (dinv d) as Hdi by (by eapply Forall_lookup_1).
  assert (key d <> conn tg s -> exists r, find_conn n arr (S i) tg (iph s) (tcph s) = Some r
    /\ match r with
       | Some j => exists d, arr !! j = Some d /\ key d = conn tg s
       | None => forall j d, (i <= j < i + S n)%nat -> arr !! j = Some d -> key d <> conn tg s
       end) as Hnext.
  { intros Hne. destruct (IH (S i)) as (r & E & Hr); [lia|]. exists r. split; [done|]. destruct r as [j|]; [done|].
    intros j d' Hj Ej. destruct (decide (j = i)) as [->|]; [congruence|]. apply (Hr j); [lia|done]. }
  unfold dinv in Hdi. destruct (parent d) as [p|] eqn:Ep.
  - destruct (check_conn_ok d p tg s Ep Hdi Hs) as (b & Eb & Hb). rewrite (do_active _ _ Hdi), Eb. cbn [andb mbind option_bind].
    destruct (vlan_tag d =? tg); cbn [andb] in Hb; [|apply Hnext; intros E; by apply Hb in E].
    destruct b; [exists (Some i); split; [done|]; exists d; split; [done|by apply Hb]|apply Hnext; intros E; by apply Hb in E].
  - rewrite Hdi. cbn [active lro_clear_desc andb]. apply Hnext. rewrite Hdi. unfold key, conn. by rewrite Hs.
Qed.

Lemma find_free_ok n arr i : Forall dinv arr -> (i + n <= length arr)%nat ->
  exists r, find_free n arr i = Some r /\ match r with Some j => arr !! j = Some lro_clear_desc | None => True end.
Proof.
  intros Hd. revert i. induction n as [|n IH]; intros i Hn; cbn [find_free]; [by exists None|].
  destruct (lookup_lt_is_Some_2 arr i) as [d Ed]; [lia|]. rewrite Ed. cbn [mbind option_bind].
  assert (dinv d) as Hdi by (by eapply Forall_lookup_1). unfold dinv in Hdi. destruct (parent d) as [p|].
  - rewrite (do_active _ _ Hdi). apply IH. lia.
  - rewrite Hdi. cbn. exists (Some i). split; [done|]. by rewrite <- Hdi.
Qed.

(** ** The operations on the manager *)

Definition absent (tg : Z) (s : sk_buff) (arr : list net_lro_desc) : Prop :=
  forall k, conn tg s = Some k -> k ∉ omap key arr.

(** Everything but the statistics, the descriptors and what was delivered. *)
Definition same_config (m m' : net_lro_mgr) : Prop :=
  mtu m' = mtu m /\ max_desc m' = max_desc m /\ max_aggr m' = max_aggr m
  /\ mgr_ip_summed m' = mgr_ip_summed m /\ ip_summed_aggr m' = ip_summed_aggr m.

Lemma inv_good e m : lro_inv e m -> good (lro_arr m).
Proof. by intros [_ H N _]. Qed.

Lemma absent_keys tg s arr : (forall j d, arr !! j = Some d -> key d <> conn tg s) -> absent tg s arr.
Proof.
  intros H k Ek Hin. apply list_elem_of_omap in Hin as (d & Hd & Hk). apply list_elem_of_lookup in Hd as [j Hj].
  apply (H j d Hj). congruence.
Qed.

Lemma lro_get_desc_ok e m tg s : lro_inv e m -> is_tcp s = true ->
  exists r m', lro_get_desc m tg (iph s) (tcph s) = Some (r, m')
    /\ same_config m m' /\ lro_arr m' = lro_arr m /\ delivered m' = delivered m
    /\ match r with
       | Some i => m' = m /\ exists d, lro_arr m !! i = Some d /\ (key d = conn tg s \/ (d = lro_clear_desc /\ absent tg s (lro_arr m)))
       | None => absent tg s (lro_arr m)
       end.
Proof.
  intros [Hsize Hd Hn He] Hs. unfold lro_get_desc.
  destruct (find_conn_ok (Z.to_nat (max_desc m)) (lro_arr m) 0 tg s) as (r & E & Hr); [done|lia|done|].
  rewrite E. cbn [mbind option_bind]. destruct r as [i|].
  { destruct Hr as (d & Ed & Hk). exists (Some i), m. do 5 (split; [done|]). exists d. by split; [|left]. }
  assert (absent tg s (lro_arr m)) as Habs.
  { apply absent_keys. intros j d Hj. apply (Hr j d); [|done]. apply lookup_lt_Some in Hj. lia. }
  destruct (find_free_ok (Z.to_nat (max_desc m)) (lro_arr m) 0) as (r & E' & Hr'); [done|lia|]. rewrite E'. cbn [mbind option_bind].
  destruct r as [i|].
  - exists (Some i), m. do 5 (split; [done|]). exists lro_clear_desc. split; [done|]. by right.
  - eexists None, _. split; [reflexivity|]. by split_and!.
Qed.

Definition total (c : option conn_id) (m : net_lro_mgr) : list (Z * Z) := stream c (sent m) ++ slots c (lro_arr m).

Lemma sent_deliver g t s m : sent (deliver g t s m) = sent m ++ [(t, s)].
Proof. unfold sent, deliver. cbn. by rewrite fmap_app. Qed.

Lemma stream_one c x : stream c [x] = piece c x.
Proof. apply app_nil_r. Qed.

(** The array with another descriptor at an index. *)
Lemma split_at (arr : list net_lro_desc) i d : arr !! i = Some d ->
  exists l1 l2, arr = l1 ++ d :: l2 /\ forall d', <[i := d']> arr = l1 ++ d' :: l2.
Proof.
  intros Hi. exists (take i arr), (drop (S i) arr). split; [by rewrite take_drop_middle|]. intros d'.
  apply insert_take_drop. by eapply lookup_lt_Some.
Qed.

Lemma good_clear l1 d l2 : good (l1 ++ d :: l2) -> good (l1 ++ lro_clear_desc :: l2).
Proof. rewrite !good_mid. intros (_ & H & _). by split_and!. Qed.

(** A descriptor is passed on as one packet that stands for the same bytes. *)
Lemma lro_flush_ok e m i d p : lro_inv e m -> lro_arr m !! i = Some d -> parent d = Some p ->
  exists m' q, lro_flush m i = Some m' /\ lro_inv e m' /\ same_config m m'
    /\ alike p q /\ sent m' = sent m ++ [(vlan_tag d, q)] /\ lro_arr m' = <[i := lro_clear_desc]> (lro_arr m)
    /\ forall c, total c m' = total c m.
Proof.
  intros Hm Ed Ep. pose proof Hm as [Hsize Hd Hn He]. unfold lro_flush. rewrite Ed. cbn [mbind option_bind]. rewrite Ep. cbn [mbind option_bind].
  set (q := set_ready _ _).
  assert (alike p q) as Hq by (unfold q; destruct (1 <? pkt_aggr_cnt d); [apply (alike_update d)|done]).
  destruct (split_at _ _ _ Ed) as (l1 & l2 & El & Er). pose proof (inv_good e m Hm) as Hg.
  assert (good (l1 ++ lro_clear_desc :: l2)) as Hg' by (apply (good_clear l1 d); by rewrite <- El).
  eexists _, q. split; [reflexivity|]. split; [|split; [done|split; [done|split; [apply sent_deliver|split; [done|]]]]].
  - split; cbn; rewrite ?Er; [by rewrite <- Er, length_insert|apply Hg'|apply Hg'|].
    intros E. specialize (He E). rewrite El in He. rewrite !omap_app in He |- *. cbn in He |- *.
    by destruct (key d); [destruct (omap key l1)|].
  - intros c. unfold total. change (sent (set_arr _ _)) with (sent (deliver (vgrp d) (vlan_tag d) q m)).
    rewrite sent_deliver, stream_app, stream_one, (piece_alike c _ p q) by done. cbn. rewrite Er, <- app_assoc.
    f_equal. rewrite El in Hg |- *. rewrite (slots_other l1 lro_clear_desc) by (first [done|destruct c; [by left|by right]]).
    assert (dinv d) as Hdd by (apply good_mid in Hg; apply Hg).
    destruct (dinv_key d Hdd) as [(_ & p' & k & Ep' & Ek & Ec)|[-> _]]; [|done]. rewrite Ep in Ep'. injection Ep' as <-.
    destruct (decide (c = Some k)) as [->|Hc].
    + rewrite (slots_key _ _ _ _ Hg Ek), (slots_none _ (l1 ++ l2)).
      * unfold tagged. by rewrite Ep, stream_one, app_nil_r.
      * apply good_mid in Hg. apply Hg.
      * intros k' [= <-]. apply good_mid in Hg as (_ & _ & Hg). by apply Hg.
    + rewrite (slots_other l1 d l2) by (first [done|left; congruence]). unfold piece. cbn. rewrite Ec. by rewrite decide_False by congruence.
Qed.

(** ** Adding a packet *)

Lemma check_true ih th l o : lro_tcp_ip_check ih th l o = true ->
  tot_len ih = l /\ ihl ih = 5 /\ (doff th = 5 \/ doff th = 8).
Proof.
  unfold lro_tcp_ip_check. intros H.
  destruct (Z.eqb_spec (tot_len ih) l); [|done]. cbn [negb] in H.
  case_test; [done|]. case_test; [done|]. destruct (Z.eqb_spec (ihl ih) IPH_LEN_WO_OPTIONS) as [Ei|]; [|done]. cbn [negb] in H.
  case_test; [done|]. case_test; [done|].
  destruct (Z.eqb_spec (doff th) TCPH_LEN_WO_OPTIONS) as [E5|]; [by split_and!; [| |left]|].
  destruct (Z.eqb_spec (doff th) TCPH_LEN_W_TIMESTAMP) as [E8|]; [by split_and!; [| |right]|done].
Qed.

Lemma eth_len_range eh : 14 <= eth_header_len eh <= 26.
Proof. unfold eth_header_len. by destruct (eth_header_type eh). Qed.

(** The length that is checked. *)
Definition ip_length (s : sk_buff) : Z := s32 (u32 (len s - eth_header_len (eth s))).

Lemma ip_length_ok s : sound s -> is_tcp s = true -> ihl (iph s) = 5 -> 0 <= doff (tcph s) ->
  ip_length s = 20 + 4 * doff (tcph s) + Z.of_nat (length (data s)).
Proof.
  intros Hs Ht Hi Hd. pose proof (sound_complete s Hs Ht Hi) as L. unfold hdr_len in L.
  pose proof (eth_len_range (eth s)). pose proof (sound_len s Hs). unfold ip_length.
  rewrite wrap_small by lia. rewrite sext_small by lia. lia.
Qed.

(** A packet that can be aggregated. *)
Lemma check_sound s o : sound s -> is_tcp s = true -> lro_tcp_ip_check (iph s) (tcph s) (ip_length s) o = true ->
  ihl (iph s) = 5 /\ (doff (tcph s) = 5 \/ doff (tcph s) = 8)
  /\ tot_len (iph s) = 20 + 4 * doff (tcph s) + Z.of_nat (length (data s))
  /\ TCP_PAYLOAD_LENGTH (iph s) (tcph s) = Z.of_nat (length (data s))
  /\ len s = hdr_len s + Z.of_nat (length (data s)).
Proof.
  intros Hs Ht Hc. apply check_true in Hc as (Hl & Hi & Hd). rewrite ip_length_ok in Hl by (done || lia).
  do 3 (split; [done|]). split; [|by apply sound_complete].
  unfold TCP_PAYLOAD_LENGTH. rewrite !Z.shiftl_mul_pow2 by lia. lia.
Qed.

(** The packet in the parent's list, and the parent. *)
Definition chained (s : sk_buff) : sk_buff := set_lengths (hdr_len s) (Z.of_nat (length (data s))) (data_len s) (truesize s) s.
Definition extended (p s : sk_buff) : sk_buff :=
  let n := Z.of_nat (length (data s)) in
  set_frag_list (frag_list p ++ [chained s])
    (set_lengths (pulled p) (u32 (len p + n)) (u32 (data_len p + n)) (u32 (truesize p + truesize s)) p).

Lemma lro_add_eq d p s o : parent d = Some p -> desc_ok d p -> sound s -> is_tcp s = true ->
  lro_tcp_ip_check (iph s) (tcph s) (ip_length s) o = true ->
  lro_add_packet d s = Some (set_parent (extended p s) (lro_add_common d p (tcph s) (Z.of_nat (length (data s))))).
Proof.
  intros Ep Hd Hs Ht Hc. destruct (check_sound s o Hs Ht Hc) as (Hi & Hdo & _ & Hn & Hl).
  unfold lro_add_packet. rewrite Ep. cbn [mbind option_bind]. rewrite Hn.
  pose proof (sound_len s Hs). pose proof (sound_data s Hs). pose proof (eth_len_range (eth s)).
  unfold hdr_len in Hl. unfold skb_pull. rewrite (wrap_small _ (len s - _)) by lia.
  rewrite (proj2 (Z.ltb_ge _ _)) by lia.
  replace (len s - (len s - Z.of_nat (length (data s)))) with (Z.of_nat (length (data s))) by lia. rewrite wrap_small by lia.
  rewrite (proj2 (Z.ltb_ge _ _)) by lia. cbn [mbind option_bind parent lro_add_common]. do 3 f_equal.
  unfold extended, chained. cbn [last_skb lro_add_common frag_list set_lengths truesize].
  rewrite (sound_pulled s Hs). replace (0 + (len s - Z.of_nat (length (data s)))) with (hdr_len s) by (unfold hdr_len; lia).
  destruct (last_skb d) eqn:E; [done|]. by rewrite (do_frags _ _ Hd E).
Qed.

Lemma content_chained s : content (chained s) = data s.
Proof.
  unfold content. change (hdr_len (chained s)) with (hdr_len s). change (pulled (chained s)) with (hdr_len s).
  rewrite Z.sub_diag. apply drop_0.
Qed.

Lemma payload_extended p s : payload (extended p s) = payload p ++ data s.
Proof.
  unfold payload, extended. cbn. rewrite bind_app. cbn. by rewrite content_chained, app_nil_r, app_assoc.
Qed.

Lemma payload_sound s : sound s -> payload s = data s.
Proof. intros Hs. unfold payload. rewrite (sound_frags s Hs). apply app_nil_r. Qed.

Lemma numbered_extended p s : sound s -> seq (tcph s) = u32 (seq (tcph p) + Z.of_nat (length (payload p))) ->
  numbered (extended p s) = numbered p ++ numbered s.
Proof. intros Hs Hq. apply numbered_append; [done| |done]. by rewrite payload_extended, (payload_sound s Hs). Qed.

Lemma lro_add_ok d p s o : parent d = Some p -> desc_ok d p -> sound s -> is_tcp s = true ->
  lro_tcp_ip_check (iph s) (tcph s) (ip_length s) o = true -> tcp_next_seq d = seq (tcph s) ->
  exists d', lro_add_packet d s = Some d' /\ parent d' = Some (extended p s) /\ desc_ok d' (extended p s)
    /\ vlan_tag d' = vlan_tag d /\ pkt_aggr_cnt d' = s32 (pkt_aggr_cnt d + 1)
    /\ numbered (extended p s) = numbered p ++ numbered s.
Proof.
  intros Ep Hd Hs Ht Hc Hq. rewrite (lro_add_eq d p s o) by done. eexists. split; [reflexivity|]. split; [done|].
  split; [|split; [done|split; [done|apply numbered_extended; [done|]]]].
  - destruct Hd as [Ha Htp Hseq Hf]. split; [done|done| |done].
    rewrite payload_extended, length_app. cbn [tcp_next_seq set_parent lro_add_common]. rewrite Hseq, u32_add_assoc.
    change (tcph (extended p s)) with (tcph p). f_equal. lia.
  - rewrite <- Hq. apply Hd.
Qed.

Lemma lro_init_ok s tg g o c : sound s -> is_tcp s = true -> lro_tcp_ip_check (iph s) (tcph s) (ip_length s) o = true ->
  desc_ok (lro_init_desc lro_clear_desc (set_ip_summed c s) tg g) (set_ip_summed c s).
Proof.
  intros Hs Ht Hc. destruct (check_sound s o Hs Ht Hc) as (_ & _ & _ & Hn & _).
  split; [done|done| |intros _; exact (sound_frags s Hs)].
  change (payload (set_ip_summed c s)) with (payload s). cbn. rewrite Hn, (payload_sound s Hs), wrap_add_r. done.
Qed.

(** ** Receiving a packet *)

Lemma inv_stats e a f n m : lro_inv e m -> lro_inv e (set_stats a f n m).
Proof. by intros []. Qed.

Lemma inv_config e m m' : lro_inv e m -> same_config m m' -> lro_arr m' = lro_arr m -> lro_inv e m'.
Proof. intros [S D K E] (_ & C & _) A. split; rewrite ?A, ?C; done. Qed.

(** Another descriptor at an index. *)
Lemma inv_replace m i d d' : lro_inv true m -> lro_arr m !! i = Some d -> dinv d' ->
  (forall k, key d' = Some k -> key d = Some k \/ k ∉ omap key (lro_arr m)) ->
  lro_inv true (set_arr (<[i := d']> (lro_arr m)) m).
Proof.
  intros Hm Ed Hd Hk. destruct (split_at _ _ _ Ed) as (l1 & l2 & El & Er).
  pose proof (inv_good _ _ Hm) as Hg. rewrite El in Hg, Hk. pose proof (proj1 (good_mid _ _ _) Hg) as (_ & Hr & Hkd).
  assert (good (l1 ++ d' :: l2)) as [Hf Hn].
  { apply good_mid. split; [done|]. split; [done|]. intros k E. destruct (Hk k E) as [?|Hin]; [by apply Hkd|].
    intros ?. apply Hin, keys_mid. by right. }
  split; cbn; rewrite ?Er; [|done..]. rewrite <- Er, length_insert. by destruct Hm.
Qed.

(** A new descriptor holds its packet. *)
Lemma total_init m i d s tg : lro_inv true m -> lro_arr m !! i = Some lro_clear_desc -> absent tg s (lro_arr m) ->
  is_tcp s = true -> parent d = Some s -> vlan_tag d = tg -> dinv d ->
  lro_inv true (set_arr (<[i := d]> (lro_arr m)) m)
  /\ forall c, total c (set_arr (<[i := d]> (lro_arr m)) m) = total c m ++ piece c (tg, s).
Proof.
  intros Hm Ed Habs Ht Ep Ev Hd. assert (key d = conn tg s) as Ek by (unfold key; rewrite Ep; cbn; by rewrite Ev).
  assert (lro_inv true (set_arr (<[i := d]> (lro_arr m)) m)) as Hm'.
  { apply (inv_replace m i lro_clear_desc); [done..|]. intros k E. right. apply Habs. congruence. }
  split; [done|]. intros c. pose proof (inv_good _ _ Hm') as Hg'. pose proof (inv_good _ _ Hm) as Hg.
  unfold total. change (sent (set_arr _ m)) with (sent m). rewrite <- app_assoc. f_equal. cbn in Hg' |- *.
  destruct (split_at _ _ _ Ed) as (l1 & l2 & El & Er). rewrite Er in *. rewrite El in Hg, Habs |- *.
  rewrite (slots_other l1 lro_clear_desc) by (first [done|destruct c; [by left|by right]]).
  unfold piece. cbn. case_decide as Hc.
  - assert (exists k, conn tg s = Some k) as [k E] by (unfold conn; rewrite Ht; eauto). rewrite E in Hc, Ek. subst c.
    rewrite (slots_key _ _ _ _ Hg' Ek), (slots_none _ (l1 ++ l2)).
    + unfold tagged. rewrite Ep, stream_one. unfold piece. cbn. by rewrite Ev, E, decide_True.
    + apply good_mid in Hg. apply Hg.
    + intros k' [= <-] Hin. apply (Habs k E), keys_mid. by right.
  - rewrite app_nil_r. rewrite (slots_other l1 d l2); [done|done|]. left. congruence.
Qed.

(** A descriptor that gets another packet holds its bytes, too. *)
Lemma total_add m i d d' p s tg : lro_inv true m -> lro_arr m !! i = Some d -> key d = conn tg s -> is_tcp s = true ->
  parent d = Some p -> parent d' = Some (extended p s) -> vlan_tag d' = vlan_tag d -> dinv d' ->
  numbered (extended p s) = numbered p ++ numbered s ->
  lro_inv true (set_arr (<[i := d']> (lro_arr m)) m)
  /\ forall c, total c (set_arr (<[i := d']> (lro_arr m)) m) = total c m ++ piece c (tg, s).
Proof.
  intros Hm Ed Ek Ht Ep Ep' Ev Hd Hnum.
  assert (key d' = key d) as Ek' by (unfold key; rewrite Ep, Ep'; cbn; by rewrite Ev).
  assert (lro_inv true (set_arr (<[i := d']> (lro_arr m)) m)) as Hm'.
  { apply (inv_replace m i d); [done..|]. intros k E. left. congruence. }
  split; [done|]. intros c. pose proof (inv_good _ _ Hm') as Hg'. pose proof (inv_good _ _ Hm) as Hg.
  unfold total. change (sent (set_arr _ m)) with (sent m). rewrite <- app_assoc. f_equal. cbn in Hg' |- *.
  destruct (split_at _ _ _ Ed) as (l1 & l2 & El & Er). rewrite Er in *. rewrite El in Hg |- *.
  assert (exists k, conn tg s = Some k) as [k E] by (unfold conn; rewrite Ht; eauto). unfold piece. cbn. rewrite E in Ek |- *.
  case_decide as Hc.
  - subst c. rewrite (slots_key _ _ _ _ Hg Ek), (slots_key _ d' _ _ Hg') by congruence.
    destruct (tagged_key d k Ek) as (p1 & Ep1 & ->). destruct (tagged_key d' k) as (p2 & Ep2 & ->); [congruence|]. congruence.
  - rewrite app_nil_r. rewrite !slots_other; [done|done|left; congruence|done|left; congruence].
Qed.

Lemma absent_disabled m tg s : lro_inv false m -> absent tg s (lro_arr m).
Proof. intros [_ _ _ H] k _. rewrite (H eq_refl). by intros ?%elem_of_nil. Qed.

Lemma absent_flushed e m m' i d tg s : lro_inv e m -> lro_arr m !! i = Some d -> key d = conn tg s ->
  lro_arr m' = <[i := lro_clear_desc]> (lro_arr m) -> absent tg s (lro_arr m').
Proof.
  intros Hm Ed Ek Ea k E. destruct (split_at _ _ _ Ed) as (l1 & l2 & El & Er). rewrite Ea, Er.
  pose proof (inv_good _ _ Hm) as Hg. rewrite El in Hg. apply good_mid in Hg as (_ & _ & Hg). intros Hin.
  apply (Hg k); [congruence|]. apply keys_mid in Hin as [|]; done.
Qed.

(** What [__lro_proc_skb] does with a packet: nothing, but leave it to the
    caller; pass on what is held of the connection first; begin with the
    connection; add the packet to what is held, and pass that on or not. *)
Inductive outcome (e : bool) (m : net_lro_mgr) (s : sk_buff) (g : option Z) (tg : Z) : Z -> sk_buff -> net_lro_mgr -> Prop :=
| out_pass c m' : same_config m m' -> lro_arr m' = lro_arr m -> delivered m' = delivered m -> absent tg s (lro_arr m) ->
    outcome e m s g tg 1 (set_ip_summed c s) m'
| out_flush i d p c m' : lro_arr m !! i = Some d -> key d = conn tg s -> parent d = Some p -> lro_flush m i = Some m' ->
    outcome e m s g tg 1 (set_ip_summed c s) m'
| out_start i c : e = true -> lro_arr m !! i = Some lro_clear_desc -> absent tg s (lro_arr m) -> is_tcp s = true ->
    lro_tcp_ip_check (iph s) (tcph s) (ip_length s) None = true ->
    let s' := set_ip_summed c s in
    outcome e m s g tg 0 s' (set_stats (aggregated m + 1) (flushed m) (no_desc m)
      (set_arr (<[i := lro_init_desc lro_clear_desc s' tg g]> (lro_arr m)) m))
| out_add i d d' p m1 m' : e = true -> lro_arr m !! i = Some d -> key d = conn tg s -> is_tcp s = true -> parent d = Some p ->
    tcp_next_seq d = seq (tcph s) -> lro_tcp_ip_check (iph s) (tcph s) (ip_length s) (Some d) = true ->
    lro_add_packet d s = Some d' -> parent d' = Some (extended p s) ->
    m1 = set_stats (aggregated m + 1) (flushed m) (no_desc m) (set_arr (<[i := d']> (lro_arr m)) m) ->
    (if (max_aggr m <=? pkt_aggr_cnt d') || (u32 (0xFFFF - mtu m) <? len (extended p s)) then lro_flush m1 i = Some m' else m' = m1) ->
    outcome e m s g tg 0 s m'.

Lemma same_config_refl m : same_config m m.
Proof. done. Qed.

Lemma summed_same s : set_ip_summed (ip_summed s) s = s.
Proof. by destruct s. Qed.

Lemma flags_tcp s : (Z.land (vmklnx_net_lro_get_skb_header s) LRO_IPV4 =? 0) || (Z.land (vmklnx_net_lro_get_skb_header s) LRO_TCP =? 0)
  = negb (is_tcp s).
Proof.
  unfold vmklnx_net_lro_get_skb_header, is_tcp. destruct (eth_header_is_ipv4 (eth s)); [|done]. by destruct (protocol (iph s) =? IPPROTO_TCP).
Qed.

Lemma proc_outcome enabled m s g tg : lro_inv enabled m -> sound s ->
  exists rv s' m', __lro_proc_skb enabled m s g tg = Some (rv, s', m') /\ outcome enabled m s g tg rv s' m'.
Proof.
  intros Hm Hs. unfold __lro_proc_skb. rewrite flags_tcp, (sound_summed s Hs). fold (ip_length s).
  destruct enabled; cbn [negb orb].
  2: { exists 1, s, m. split; [done|]. rewrite <- (summed_same s) at 2. apply out_pass; [done..|by apply absent_disabled]. }
  change (negb (CHECKSUM_UNNECESSARY =? CHECKSUM_UNNECESSARY)) with false. cbn iota.
  destruct (is_tcp s) eqn:Ht; cbn [negb].
  2: { eexists _, _, _. split; [reflexivity|]. apply out_pass; [done..|]. intros k. unfold conn. by rewrite Ht. }
  destruct (lro_get_desc_ok true m tg s Hm Ht) as (r & m1 & E & Hc & Ha & Hdl & Hr). rewrite E. cbn [mbind option_bind fst snd].
  destruct r as [i|]; [|eexists _, _, _; split; [reflexivity|]; by apply out_pass].
  destruct Hr as (-> & d & Ed & Hr). rewrite Ed. cbn [mbind option_bind].
  destruct Hr as [Hk|[-> Habs]].
  - assert (dinv d) as Hd by (eapply Forall_lookup_1; [apply Hm|done]). 
    assert (exists p, parent d = Some p) as [p Ep].
    { destruct (parent d) as [p|] eqn:Ep; [by exists p|]. unfold key, conn in Hk. by rewrite Ep, Ht in Hk. }
    unfold dinv in Hd. rewrite Ep in Hd. rewrite (do_active _ _ Hd). cbn [negb].
    destruct (Z.eqb_spec (tcp_next_seq d) (seq (tcph s))) as [Hq|Hq]; cbn [negb orb].
    2: { destruct (lro_flush_ok true m i d p Hm Ed Ep) as (m' & q & Ef & _). rewrite Ef. cbn [mbind option_bind].
      eexists _, _, _. split; [reflexivity|]. by apply (out_flush _ _ _ _ _ i d p). }
    destruct (lro_tcp_ip_check (iph s) (tcph s) (ip_length s) (Some d)) eqn:Hck; cbn [negb].
    2: { destruct (lro_flush_ok true m i d p Hm Ed Ep) as (m' & q & Ef & _). rewrite Ef. cbn [mbind option_bind].
      eexists _, _, _. split; [reflexivity|]. by apply (out_flush _ _ _ _ _ i d p). }
    destruct (lro_add_ok d p s _ Ep Hd Hs Ht Hck Hq) as (d' & Ea & Ep' & Hd' & Ev & _ & Hnum). rewrite Ea. cbn [mbind option_bind].
    rewrite Ep'. cbn [mbind option_bind]. cbn [max_aggr mtu set_stats set_arr].
    set (m1 := set_stats _ _ _ _).
    assert (lro_inv true m1) as Hm1.
    { apply inv_stats, (inv_replace m i d); [done|done|by unfold dinv; rewrite Ep'|]. intros k E'. left.
      unfold key in E' |- *. rewrite Ep' in E'. rewrite Ep. cbn in E' |- *. by rewrite Ev in E'. }
    destruct (_ || _) eqn:Eb.
    + destruct (lro_flush_ok true m1 i d' (extended p s) Hm1) as (m' & q & Ef & _); [|done|].
      { cbn. apply list_lookup_insert_eq. by eapply lookup_lt_Some. }
      rewrite Ef. cbn [mbind option_bind]. eexists _, _, _. split; [reflexivity|].
      apply (out_add _ _ _ _ _ i d d' p m1); [done..|]. by rewrite Eb.
    + eexists _, _, _. split; [reflexivity|]. apply (out_add _ _ _ _ _ i d d' p m1); [done..|]. by rewrite Eb.
  - cbn [active lro_clear_desc negb]. destruct (lro_tcp_ip_check (iph s) (tcph s) (ip_length s) None) eqn:Hck; cbn [negb].
    + eexists _, _, _. split; [reflexivity|]. exact (out_start true m s g tg i (ip_summed_aggr m) eq_refl Ed Habs Ht Hck).
    + eexists _, _, _. split; [reflexivity|]. by apply out_pass.
Qed.

(** What a packet's passing through the engine does to the streams. *)
Lemma outcome_total e m s g tg rv s' m' : lro_inv e m -> sound s -> outcome e m s g tg rv s' m' ->
  lro_inv e m' /\ alike s s'
  /\ if rv =? 0 then forall c, total c m' = total c m ++ piece c (tg, s)
     else (forall c, total c m' = total c m) /\ absent tg s (lro_arr m').
Proof.
  intros Hm Hs Ho. destruct Ho as [c m' Hc Ha Hd Habs|i d p c m' Ed Ek Ep Ef|i c He Ed Habs Ht Hck s0|i d d' p m1 m' He Ed Ek Ht Ep Hq Hck Ea Ep' -> Ef].
  - split; [by apply (inv_config e m)|]. split; [apply alike_summed|]. cbn. rewrite Ha. split; [|done].
    intros c'. unfold total, sent. by rewrite Ha, Hd.
  - destruct (lro_flush_ok e m i d p Hm Ed Ep) as (m2 & q & Ef' & Hi & _ & _ & _ & Harr & Htot). rewrite Ef in Ef'. injection Ef' as <-.
    split; [done|]. split; [apply alike_summed|]. cbn. split; [done|]. by apply (absent_flushed e m _ i d).
  - subst e. destruct (total_init m i (lro_init_desc lro_clear_desc s0 tg g) s0 tg) as [Hi Htot]; [done..| |].
    { unfold dinv. cbn [parent lro_init_desc]. by apply (lro_init_ok s tg g None c). }
    split; [by apply inv_stats|]. split; [apply alike_summed|]. exact Htot.
  - subst e. destruct (dinv_key d) as [(Ha & _)|[-> _]]; [eapply Forall_lookup_1; [apply Hm|done]| |done].
    assert (desc_ok d p) as Hd.
    { assert (dinv d) as Hdi by (eapply Forall_lookup_1; [apply Hm|done]). unfold dinv in Hdi. by rewrite Ep in Hdi. }
    destruct (lro_add_ok d p s _ Ep Hd Hs Ht Hck Hq) as (d2 & Ea' & _ & Hd2 & Ev & _ & Hnum). rewrite Ea in Ea'. injection Ea' as <-.
    destruct (total_add m i d d' p s tg) as [Hi Htot]; [done..|unfold dinv; by rewrite Ep'|done|].
    apply (inv_stats _ (aggregated m + 1) (flushed m) (no_desc m)) in Hi. set (m1 := set_stats _ _ _ _) in *.
    change (forall c, total c m1 = total c m ++ piece c (tg, s)) in Htot. cbn.
    destruct (_ || _); [|subst m'; by split_and!].
    destruct (lro_flush_ok true m1 i d' (extended p s) Hi) as (m2 & q & Ef' & Hi' & _ & _ & _ & _ & Htot'); [|done|].
    { cbn. apply list_lookup_insert_eq. by eapply lookup_lt_Some. }
    rewrite Ef in Ef'. injection Ef' as <-. split; [done|]. split; [apply alike_refl|]. intros c. by rewrite Htot', Htot.
Qed.

(** The caller passes on what it is told to. *)
Lemma total_deliver c g tg s s' m : lro_inv false m \/ lro_inv true m -> alike s s' -> absent tg s (lro_arr m) ->
  total c (deliver g tg s' m) = total c m ++ piece c (tg, s).
Proof.
  intros Hm Hs Habs. unfold total. rewrite sent_deliver, stream_app, stream_one, (piece_alike c tg s s') by done. cbn.
  rewrite <- !app_assoc. f_equal. unfold piece. cbn. case_decide as Hc; [|by rewrite app_nil_r].
  rewrite slots_none; [by rewrite app_nil_r|destruct Hm as [Hm|Hm]; by apply inv_good in Hm|]. intros k ->. by apply Habs.
Qed.

Lemma inv_deliver e g tg s m : lro_inv e m -> lro_inv e (deliver g tg s m).
Proof. by intros []. Qed.

Lemma received_total e m s g tg : lro_inv e m -> sound s ->
  exists rv s' m', __lro_proc_skb e m s g tg = Some (rv, s', m')
    /\ let m2 := if negb (rv =? 0) then deliver g tg (set_ready (gso_size s') s') m' else m' in
       lro_inv e m2 /\ forall c, total c m2 = total c m ++ piece c (tg, s).
Proof.
  intros Hm Hs. destruct (proc_outcome e m s g tg Hm Hs) as (rv & s' & m' & E & Ho). exists rv, s', m'. split; [done|].
  destruct (outcome_total e m s g tg rv s' m' Hm Hs Ho) as (Hi & Hal & Hr). cbv zeta. destruct (rv =? 0); cbn [negb]; [done|].
  destruct Hr as [Htot Habs]. split; [by apply inv_deliver|]. intros c.
  rewrite (total_deliver c g tg s); [by rewrite Htot|destruct e; [by right|by left]| |done].
  eapply alike_trans; [done|apply alike_ready].
Qed.

(** Passing everything on leaves nothing. *)
Lemma flush_from_ok e n m i : lro_inv e m -> (i + n = length (lro_arr m))%nat ->
  exists m', flush_from n m i = Some m' /\ lro_inv e m' /\ (forall c, total c m' = total c m) /\ same_config m m'
    /\ take i (lro_arr m') = take i (lro_arr m) /\ drop i (lro_arr m') = replicate n lro_clear_desc.
Proof.
  revert m i. induction n as [|n IH]; intros m i Hm Hn; cbn [flush_from].
  { exists m. do 5 (split; [done|]). rewrite drop_ge by lia. done. }
  destruct (lookup_lt_is_Some_2 (lro_arr m) i) as [d Ed]; [lia|]. rewrite Ed. cbn [mbind option_bind].
  assert (dinv d) as Hd by (eapply Forall_lookup_1; [apply Hm|done]).
  assert (exists m1, (if active d then lro_flush m i else Some m) = Some m1 /\ lro_inv e m1 /\ (forall c, total c m1 = total c m)
    /\ same_config m m1 /\ lro_arr m1 = <[i := lro_clear_desc]> (lro_arr m)) as (m1 & E1 & Hi & Htot & Hcfg & Harr).
  { destruct (dinv_key d Hd) as [(-> & p & k & Ep & _)|[-> _]].
    - destruct (lro_flush_ok e m i d p Hm Ed Ep) as (m1 & q & Ef & Hi & Hc & _ & _ & Ha & Ht). by exists m1.
    - exists m. do 4 (split; [done|]). by rewrite list_insert_id. }
  rewrite E1. cbn [mbind option_bind]. destruct (IH m1 (S i) Hi) as (m' & E & Hi' & Htot' & Hcfg' & Ht & Hdr).
  { rewrite Harr, length_insert. lia. }
  exists m'. split; [done|]. split; [done|]. split; [intros c; by rewrite Htot', Htot|].
  assert (i < length (lro_arr m))%nat by lia.
  split; [unfold same_config in *; destruct_and!; split_and!; congruence|]. split.
  - assert (take i (take (S i) (lro_arr m')) = take i (take (S i) (lro_arr m1))) as Htt by (by rewrite Ht).
    rewrite !take_take, Nat.min_l in Htt by lia. rewrite Htt, Harr. by rewrite take_insert_ge.
  - assert (lro_arr m' !! i = Some lro_clear_desc) as Hl.
    { rewrite <- (lookup_take_lt (lro_arr m') (S i)), Ht, lookup_take_lt, Harr by lia. by apply list_lookup_insert_eq. }
    rewrite (drop_S _ _ _ Hl), Hdr. done.
Qed.

Lemma lro_step_ok e m o : lro_inv e m -> sound_op o ->
  exists m', lro_step e m o = Some m' /\ lro_inv e m' /\ (forall c, total c m' = total c m ++ stream c (received [o]))
    /\ (o = FlushAll -> held m' = []).
Proof.
  intros Hm Ho. destruct o as [s|s g tg|]; cbn [lro_step sound_op] in *; unfold received; cbn [mbind list_bind app].
  - unfold lro_receive_skb. destruct (received_total e m s None (get_tag s) Hm Ho) as (rv & s' & m' & E & Hi & Htot).
    rewrite E. cbn [mbind option_bind]. destruct (negb (rv =? 0)); (eexists; split; [reflexivity|]; split; [done|]; split; [|done]);
      intros c; by rewrite stream_one.
  - unfold lro_vlan_hwaccel_receive_skb. destruct (received_total e m s g tg Hm Ho) as (rv & s' & m' & E & Hi & Htot).
    rewrite E. cbn [mbind option_bind]. destruct (negb (rv =? 0)); (eexists; split; [reflexivity|]; split; [done|]; split; [|done]);
      intros c; by rewrite stream_one.
  - unfold lro_flush_all. destruct (flush_from_ok e (Z.to_nat (max_desc m)) m 0 Hm) as (m' & E & Hi & Htot & _ & _ & Hd).
    { destruct Hm as [Hs _ _ _]. lia. }
    exists m'. split; [done|]. split; [done|]. split; [intros c; by rewrite Htot, app_nil_r|]. intros _.
    unfold held. rewrite drop_0 in Hd. rewrite Hd. generalize (Z.to_nat (max_desc m)) as n. intros n. by induction n as [|n IH].
Qed.

Lemma lro_init_inv e mtu max_aggr : lro_inv e (lro_init mtu max_aggr).
Proof. split; [done|apply Forall_replicate, dinv_clear|apply NoDup_nil_2|done]. Qed.

Lemma received_cons o ops : received (o :: ops) = received [o] ++ received ops.
Proof. unfold received. rewrite (bind_cons _ o ops), (bind_cons _ o []). by rewrite app_nil_r. Qed.

Lemma lro_run_ok e ops m : lro_inv e m -> Forall sound_op ops ->
  exists m', lro_run e m ops = Some m' /\ lro_inv e m' /\ (forall c, total c m' = total c m ++ stream c (received ops))
    /\ (last ops = Some FlushAll -> held m' = []).
Proof.
  intros Hm Hops. revert m Hm. induction Hops as [|o ops Ho _ IH]; intros m Hm; cbn [lro_run].
  { exists m. split; [done|]. split; [done|]. split; [intros c; by rewrite app_nil_r|done]. }
  destruct (lro_step_ok e m o Hm Ho) as (m1 & E & Hi & Htot & Hfl). rewrite E. cbn [mbind option_bind].
  destruct (IH m1 Hi) as (m' & E' & Hi' & Htot' & Hfl'). exists m'. split; [done|]. split; [done|]. split.
  - intros c. rewrite (received_cons o ops), stream_app, Htot', Htot. by rewrite app_assoc.
  - destruct ops as [|o' ops]; [|exact Hfl']. cbn in E'. injection E' as <-. intros [= ->]. by apply Hfl.
Qed.

(** C2: Large receive offload is invisible to TCP. For every sequence
    of packets and flushes, whatever the connections, VLANs, segment sizes and
    gaps, the engine never fails, and for every connection the bytes that have been
    passed to the network stack, each with the sequence number it has in the packet
    the stack gets, followed by those held back, are exactly the bytes received, in
    the order in which they were received: none is lost, doubled, moved to another
    connection, another place or another sequence number. Packets that belong to no
    connection pass unchanged, and after a flush nothing is held back. The packets
    must be whole and their checksums verified. *)
Theorem lro_stream enabled mtu max_aggr ops : Forall sound_op ops ->
  exists m, lro_run enabled (lro_init mtu max_aggr) ops = Some m
    /\ (forall c, stream c (sent m) ++ stream c (held m) = stream c (received ops))
    /\ (last ops = Some FlushAll -> held m = []).
Proof.
  intros Hops. destruct (lro_run_ok enabled ops (lro_init mtu max_aggr) (lro_init_inv _ _ _) Hops) as (m & E & _ & Htot & Hf).
  exists m. split; [done|]. split; [|done]. intros c. exact (Htot c).
Qed.

(** ** An example *)

Definition example_eth : ethhdr := Eth ETH_P_IP 0 0 0 0.
Definition example_packet (seqno : Z) (summed : Z) (bytes : list Z) : sk_buff :=
  let n := Z.of_nat (length bytes) in
  Skb example_eth (Ip 4 5 0 (40 + n) 1 0 64 6 0 167772161 167772162)
    (Tcp 80 4000 seqno 7 5 false false false false true false false false 1000 (0, 0, 0))
    bytes 0 (54 + n) 0 512 None summed false 0 None [].

(** Three packets of a connection whose sequence numbers wrap, and a flush. *)
Definition example_ops : list lro_op :=
  [Receive (example_packet 4294967294 2 [1; 2; 3]); Receive (example_packet 1 2 [4]); Receive (example_packet 2 2 [5; 6]); FlushAll].

Lemma example_sound seqno bytes : 0 <= seqno < 2 ^ 32 -> Z.of_nat (length bytes) < 1000 -> sound (example_packet seqno 2 bytes).
Proof. intros H L. split; try done; cbn; lia. Qed.

Lemma lro_stream_witness : exists m, lro_run true (lro_init 1500 16) example_ops = Some m
  /\ (forall c, stream c (sent m) ++ stream c (held m) = stream c (received example_ops))
  /\ (last example_ops = Some FlushAll -> held m = []).
Proof.
  apply (lro_stream true 1500 16 example_ops).
  repeat first [apply Forall_cons; split|apply Forall_nil]; try exact I; apply example_sound; cbn; lia.
Defined.

Example example_one_packet :
  (fun m => (fun x => numbered x.2) <$> sent m) <$> lro_run true (lro_init 1500 16) example_ops
  = Some [[(4294967294, 1); (4294967295, 2); (0, 3); (1, 4); (2, 5); (3, 6)]].
Proof. vm_compute. reflexivity. Qed.
