(* ===== verification/LroHdr.v ===== *)
(** The headers of the packets that large receive offload passes on. *)

From S2P Require Import Prelude Csum FastCsum Lro LroSpec.
Local Open Scope Z_scope.

(** ** The header checksum *)

(** The fields are as wide as they are in memory. *)
Record fields_ok (h : iphdr) : Prop := {
  f_version : 0 <= version h < 16;
  f_ihl : 0 <= ihl h < 16;
  f_tos : 0 <= tos h < 256;
  f_tot_len : 0 <= tot_len h < 65536;
  f_id : 0 <= id h < 65536;
  f_frag_off : 0 <= frag_off h < 65536;
  f_ttl : 0 <= ttl h < 256;
  f_protocol : 0 <= protocol h < 256;
  f_check : 0 <= check h < 65536;
  f_saddr : 0 <= saddr h < 4294967296;
  f_daddr : 0 <= daddr h < 4294967296;
}.

Lemma ip_bytes_range h : fields_ok h -> Forall (fun b => 0 <= b < 256) (ip_bytes h).
Proof.
  intros []. unfold ip_bytes, be32, be16. cbn [app].
  change (2 ^ 8) with 256. change (2 ^ 16) with 65536. repeat constructor; arith.
Qed.

Lemma ip_memory_range h a : fields_ok h -> 0 <= ip_memory h a < 256.
Proof.
  intros H%ip_bytes_range. unfold ip_memory. destruct (decide (Z.to_nat a < length (ip_bytes h))%nat) as [Ha|Ha].
  - destruct (lookup_lt_is_Some_2 _ _ Ha) as [b Hb]. rewrite (nth_lookup_Some _ _ _ _ Hb). by eapply Forall_lookup_1 in H.
  - rewrite nth_overflow by lia. lia.
Qed.

(** [a] is one of [0], ..., [19]. *)
Ltac below_20 a Ha :=
  assert (a = 0 \/ a = 1 \/ a = 2 \/ a = 3 \/ a = 4 \/ a = 5 \/ a = 6 \/ a = 7 \/ a = 8 \/ a = 9 \/ a = 10 \/ a = 11
    \/ a = 12 \/ a = 13 \/ a = 14 \/ a = 15 \/ a = 16 \/ a = 17 \/ a = 18 \/ a = 19) as Hcases by lia;
  clear Ha; destruct_or! Hcases; subst a.

Lemma ip_memory_check l c h a : 0 <= a < 20 -> 0 <= c < 65536 ->
  ip_memory (set_ip l c h) a = store16 (ip_memory (set_ip l 0 h)) 10 c a.
Proof. intros Ha Hc. below_20 a Ha; reflexivity. Qed.

Lemma fields_set l c h : fields_ok h -> 0 <= l < 65536 -> 0 <= c < 65536 -> fields_ok (set_ip l c h).
Proof. intros [] Hl Hc. by split. Qed.

Lemma ip_fast_csum_range h : fields_ok h -> 0 <= ip_fast_csum (ip_memory h) 0 5 < 65536.
Proof.
  intros H. rewrite ip_fast_csum_ones by (done || (intros; by apply ip_memory_range)).
  pose proof (ones16_range _ (rfc_nonneg (ip_memory h) (fun a => ip_memory_range h a H) (Z.to_nat (4 * 5)) 0)). lia.
Qed.

(** The checksum of the new header verifies. *)
Lemma check_verifies l h : fields_ok h -> 0 <= l < 65536 ->
  ip_fast_csum (ip_memory (set_ip l (ip_fast_csum (ip_memory (set_ip l 0 h)) 0 5) h)) 0 5 = 0.
Proof.
  intros Hh Hl. assert (fields_ok (set_ip l 0 h)) as H0 by (by apply fields_set).
  pose proof (ip_fast_csum_range _ H0) as Hc. set (c := ip_fast_csum _ _ _) in *.
  assert (fields_ok (set_ip l c h)) as H1 by (by apply fields_set).
  assert (forall a, 0 <= store16 (ip_memory (set_ip l 0 h)) (0 + 2 * 5) c a < 256) as Hs.
  { intros a. unfold store16. repeat case_test; [arith|arith|by apply ip_memory_range]. }
  assert (ip_fast_csum (ip_memory (set_ip l c h)) 0 5 = ip_fast_csum (store16 (ip_memory (set_ip l 0 h)) (0 + 2 * 5) c) 0 5) as ->.
  { rewrite (ip_fast_csum_ones _ (fun a => ip_memory_range _ a H1)), (ip_fast_csum_ones _ Hs) by done. apply (f_equal (fun v => 0xffff - ones16 v)).
    apply rfc_sum_frame. intros a Ha. apply ip_memory_check; [|done]. change (Z.of_nat (Z.to_nat (4 * 5))) with 20 in Ha. lia. }
  apply (ip_fast_csum_verifies (ip_memory (set_ip l 0 h)) 0 5 5); [intros a; by apply ip_memory_range|lia|lia|lia|done|done].
Qed.

#[local] Opaque ip_fast_csum.

(** ** What is passed on *)

(** A packet received, unchanged but for the marks on it. *)
Definition same_packet (s q : sk_buff) : Prop :=
  eth q = eth s /\ iph q = iph s /\ tcph q = tcph s /\ data q = data s /\ len q = len s /\ frag_list q = [].

Definition last_packet (q : sk_buff) : sk_buff := default q (last (frag_list q)).

(** The largest segment in the packet. *)
Definition largest (q : sk_buff) : Z := foldr Z.max 0 ((fun s => Z.of_nat (length (data s))) <$> q :: frag_list q).

(** The time stamp that a segment echoes: one without options (of five words) has
    none, and what lies behind its header are bytes of its payload. *)
Definition time_stamp_echo (t : tcphdr) : option Z := if doff t =? 8 then Some (topt2 t) else None.

(** An aggregated packet of [max_aggr] segments or two at most: its lengths are
    those of its payload, its header checksum verifies, acknowledgement and window
    are those of the last segment; if both it and the last segment have a time
    stamp, they echo the same; the segment size is that of the largest segment. *)
Record aggregate_ok (max_aggr : Z) (q : sk_buff) : Prop := {
  ag_tot_len : tot_len (iph q) = 20 + 4 * doff (tcph q) + Z.of_nat (length (payload q));
  ag_16 : tot_len (iph q) < 65536;
  ag_len : len q = eth_header_len (eth q) + tot_len (iph q);
  ag_check : ip_fast_csum (ip_memory (iph q)) 0 5 = 0;
  ag_ihl : ihl (iph q) = 5;
  ag_ack : ack_seq (tcph q) = ack_seq (tcph (last_packet q));
  ag_window : window (tcph q) = window (tcph (last_packet q));
  ag_tsecr e e' : time_stamp_echo (tcph q) = Some e -> time_stamp_echo (tcph (last_packet q)) = Some e' -> e = e';
  ag_large : large q = Some (largest q);
  ag_gso : gso_size q = largest q;
  ag_count : Z.of_nat (length (frag_list q)) < Z.max 2 max_aggr;
}.

Definition delivered_ok (max_aggr : Z) (R : list (Z * sk_buff)) (q : sk_buff) : Prop :=
  (exists x, x ∈ R /\ same_packet x.2 q) \/ (frag_list q <> [] /\ aggregate_ok max_aggr q).

(** Packets that fit the interface. *)
Definition fitting (mtu : Z) (s : sk_buff) : Prop :=
  fields_ok (iph s) /\ (is_tcp s = true -> len s <= eth_header_len (eth s) + mtu).
Definition fitting_op (mtu : Z) (o : lro_op) : Prop :=
  match o with Receive s | ReceiveVlan s _ _ => fitting mtu s | FlushAll => True end.

(** ** What is held back *)

Section engine.
Context (MTU MAX : Z) (Hmtu : 0 <= MTU /\ 2 * MTU <= 65500) (Hmax : MAX < 2 ^ 31).

(** A descriptor in use, and its limits. *)
Record agg (R : list (Z * sk_buff)) (d : net_lro_desc) (p : sk_buff) : Prop := {
  a_fields : fields_ok (iph p);
  a_ihl : ihl (iph p) = 5;
  a_doff : doff (tcph p) = 5 \/ doff (tcph p) = 8;
  a_tot : ip_tot_len d = 20 + 4 * doff (tcph p) + Z.of_nat (length (payload p));
  a_16 : ip_tot_len d < 65536;
  a_len : len p = eth_header_len (eth p) + ip_tot_len d;
  a_cnt : pkt_aggr_cnt d = 1 + Z.of_nat (length (frag_list p));
  a_max : pkt_aggr_cnt d <= Z.max 2 MAX;
  a_ack : tcp_ack d = ack_seq (tcph (last_packet p));
  a_window : tcp_window d = window (tcph (last_packet p));
  a_saw : tcp_saw_tstamp d = (doff (tcph p) =? 8);
  a_tsecr : doff (tcph p) = 8 -> tcp_rcv_tsecr d = topt2 (tcph (last_packet p));
  a_mss : mss d = largest p;
  a_small : largest p < 65536;
  a_recv : frag_list p = [] -> exists x, x ∈ R /\ same_packet x.2 p;
}.
Definition limits (d : net_lro_desc) (p : sk_buff) : Prop :=
  (frag_list p = [] /\ ip_tot_len d <= MTU) \/ (pkt_aggr_cnt d < MAX /\ len p <= 65535 - MTU).

Record hinv (R : list (Z * sk_buff)) (m : net_lro_mgr) : Prop := {
  h_mtu : mtu m = MTU;
  h_max : max_aggr m = MAX;
  h_desc i d p : lro_arr m !! i = Some d -> parent d = Some p -> agg R d p /\ limits d p;
  h_sent : Forall (fun x => delivered_ok MAX R (packet x)) (delivered m);
}.

Lemma delivered_mono R R' q : R ⊆ R' -> delivered_ok MAX R q -> delivered_ok MAX R' q.
Proof. intros H [(x & Hx & Hs)|Ha]; [left; exists x; split; [by apply H|done]|by right]. Qed.

Lemma agg_mono R R' d p : R ⊆ R' -> agg R d p -> agg R' d p.
Proof. intros H []; split; try done. intros Hf. destruct (a_recv0 Hf) as (x & Hx & Hs). exists x. split; [by apply H|done]. Qed.

Lemma hinv_mono R R' m : R ⊆ R' -> hinv R m -> hinv R' m.
Proof.
  intros H [H1 H2 H3 H4]. split; [done|done| |].
  - intros i d p Ed Ep. destruct (H3 i d p Ed Ep). split; [by eapply agg_mono|done].
  - eapply Forall_impl; [done|]. intros x. by apply delivered_mono.
Qed.

(** What [lro_flush] makes of a descriptor. *)
Lemma agg_flushed R d p : agg R d p ->
  let q := if 1 <? pkt_aggr_cnt d then
      let '(ih, th) := lro_update_tcp_ip_header d (iph p) (tcph p) in set_headers ih th (Some (mss d)) p
    else p in
  delivered_ok MAX R (set_ready (u16 (mss d)) q).
Proof.
  intros [Hf Hi Hd Ht H16 Hl Hc Hm Ha Hw Hs Hts Hms Hsm Hr]. cbv zeta. destruct (Z.ltb_spec 1 (pkt_aggr_cnt d)) as [H1|H1].
  - right. unfold lro_update_tcp_ip_header. cbv zeta. set (q := set_ready _ _).
    assert (0 <= largest p) as H0 by (unfold largest; cbn; lia).
    assert (frag_list q = frag_list p) as Efr by done. assert (frag_list p <> []) as Hne by (intros E; rewrite E in Hc; cbn in Hc; lia).
    assert (tcph (last_packet q) = tcph (last_packet p)) as El.
    { unfold last_packet. rewrite Efr. destruct (last (frag_list p)) as [s|] eqn:E; [done|]. by apply last_None in E. }
    assert (u16 (ip_tot_len d) = ip_tot_len d) as E16 by (apply wrap_small; change (2 ^ 16) with 65536; lia).
    split; [done|]. split; try (rewrite El); try done; cbn -[payload Z.max].
    + by rewrite E16.
    + by rewrite E16.
    + by rewrite E16, Hl.
    + rewrite Hi, E16. exact (check_verifies (ip_tot_len d) (iph p) Hf ltac:(lia)).
    + intros e e'. unfold time_stamp_echo. cbn -[last_packet]. destruct (Z.eqb_spec (doff (tcph p)) 8) as [E8|]; [|done].
      rewrite Hs. destruct (doff (tcph (last_packet p)) =? 8); [|done]. intros [= <-] [= <-]. by apply Hts.
    + f_equal. exact Hms.
    + rewrite Hms. apply wrap_small. change (2 ^ 16) with 65536. split; [done|exact Hsm].
    + lia.
  - left. destruct Hr as (x & Hx & Hp); [destruct (frag_list p); [done|cbn in Hc; lia]|].
    exists x. split; [done|]. exact Hp.
Qed.

Lemma foldr_max_snoc l x : 0 <= x -> foldr Z.max 0 (l ++ [x]) = Z.max (foldr Z.max 0 l) x.
Proof. intros Hx. induction l as [|y l IH]; cbn [foldr app]; lia. Qed.

Lemma largest_extended p s : largest (extended p s) = Z.max (largest p) (Z.of_nat (length (data s))).
Proof.
  unfold largest, extended. cbn [frag_list set_frag_list]. rewrite app_comm_cons, fmap_app. apply (foldr_max_snoc _ (Z.of_nat (length (data s)))). lia.
Qed.

Lemma last_extended p s : last_packet (extended p s) = chained s.
Proof. unfold last_packet, extended. cbn. by rewrite last_snoc. Qed.

(** A descriptor gets another packet. *)
Lemma agg_added R d p s o d' : sound s -> fitting MTU s -> is_tcp s = true ->
  lro_tcp_ip_check (iph s) (tcph s) (ip_length s) o = true -> parent d = Some p -> desc_ok d p -> agg R d p -> limits d p ->
  lro_add_packet d s = Some d' -> agg R d' (extended p s).
Proof.
  intros Hs [_ Hfit] Ht Hck Ep Hdo [Hf Hi Hd Htot H16 Hl Hc Hm Ha Hw Hsaw Hts Hms Hsm Hr] Hlim Ead.
  destruct (check_sound s o Hs Ht Hck) as (_ & Hdoff & _ & _ & Hlen). specialize (Hfit Ht).
  rewrite (lro_add_eq d p s o) in Ead by done. injection Ead as <-. unfold hdr_len in Hlen.
  set (n := Z.of_nat (length (data s))) in *. pose proof (eth_len_range (eth p)). pose proof (eth_len_range (eth s)).
  assert (0 <= n <= MTU - 40) as Hn by (unfold n in *; lia).
  assert (0 <= Z.of_nat (length (payload p))) by lia.
  assert (ip_tot_len d + n < 65536 /\ (pkt_aggr_cnt d = 1 \/ pkt_aggr_cnt d < MAX)) as [Hnew Hcnt].
  { destruct Hlim as [[Hfr Hl1]|[Hc1 Hl1]]; [split; [lia|left; rewrite Hc, Hfr; done]|split; [lia|by right]]. }
  assert (u16 (ip_tot_len d + n) = ip_tot_len d + n) as E16 by (apply wrap_small; change (2 ^ 16) with 65536; lia).
  assert (u32 (len p + n) = len p + n) as E32 by (apply wrap_small; change (2 ^ 32) with 4294967296; lia).
  split; try done; rewrite ?payload_extended, ?last_extended, ?largest_extended, ?length_app; try done.
  - cbn [ip_tot_len set_parent lro_add_common tcph extended set_frag_list set_lengths]. rewrite E16. change (tcph (extended p s)) with (tcph p). lia.
  - cbn [ip_tot_len set_parent lro_add_common]. by rewrite E16.
  - change (len (extended p s)) with (u32 (len p + n)). change (eth (extended p s)) with (eth p).
    cbn [ip_tot_len set_parent lro_add_common]. rewrite E16, E32. lia.
  - cbn [pkt_aggr_cnt set_parent lro_add_common]. change (frag_list (extended p s)) with (frag_list p ++ [chained s]).
    rewrite length_app, Hc. cbn [length]. rewrite sext_small; lia.
  - cbn [pkt_aggr_cnt set_parent lro_add_common]. rewrite sext_small; lia.
  - intros E8. cbn [tcp_rcv_tsecr set_parent lro_add_common]. rewrite Hsaw. change (tcph (extended p s)) with (tcph p) in E8. by rewrite E8.
  - cbn [mss set_parent lro_add_common]. rewrite Hms. fold n. destruct (Z.ltb_spec (largest p) n); lia.
  - fold n. lia.
  - change (frag_list (extended p s)) with (frag_list p ++ [chained s]). intros E. by apply app_nil in E as [_ ?].
Qed.

(** A descriptor gets its first packet. *)
Lemma agg_started R s c tg g : sound s -> fitting MTU s -> is_tcp s = true ->
  lro_tcp_ip_check (iph s) (tcph s) (ip_length s) None = true -> (tg, s) ∈ R ->
  let s' := set_ip_summed c s in let d := lro_init_desc lro_clear_desc s' tg g in agg R d s' /\ limits d s'.
Proof.
  intros Hs [Hf Hfit] Ht Hck HR. destruct (check_sound s None Hs Ht Hck) as (Hi & Hd & Htl & Hn & Hlen). specialize (Hfit Ht).
  unfold hdr_len in Hlen. pose proof (sound_frags s Hs) as Hfr. pose proof (payload_sound s Hs) as Hpl. pose proof (eth_len_range (eth s)).
  cbv zeta. set (s' := set_ip_summed c s).
  assert (last_packet s' = s') as El by (unfold last_packet, s'; cbn; by rewrite Hfr).
  assert (largest s' = Z.of_nat (length (data s))) as Elg by (unfold largest, s'; cbn; rewrite Hfr; cbn; lia).
  split; [split|left]; rewrite ?El, ?Elg; try done.
  - change (payload s') with (payload s). rewrite Hpl. cbn. lia.
  - cbn. lia.
  - cbn. lia.
  - cbn. by rewrite Hfr.
  - cbn. lia.
  - cbn. by destruct (doff (tcph s) =? 8).
  - cbn. intros ->. done.
  - cbn -[TCP_PAYLOAD_LENGTH]. rewrite Hn, wrap_small by lia. apply sext_small; lia.
  - lia.
  - intros _. exists (tg, s). split; [done|]. by split_and!.
  - split; [by cbn|]. cbn. lia.
Qed.
(** ** The engine *)

(** The invariant, but for the limits of descriptor [i]. *)
Record hinv_but (R : list (Z * sk_buff)) (i : nat) (m : net_lro_mgr) : Prop := {
  hb_mtu : mtu m = MTU;
  hb_max : max_aggr m = MAX;
  hb_desc j d p : lro_arr m !! j = Some d -> parent d = Some p -> agg R d p /\ (j <> i -> limits d p);
  hb_sent : Forall (fun x => delivered_ok MAX R (packet x)) (delivered m);
}.

Lemma hinv_weaken R i m : hinv R m -> hinv_but R i m.
Proof. intros [H1 H2 H3 H4]. split; [done|done| |done]. intros j d p Ed Ep. destruct (H3 j d p Ed Ep). by split. Qed.

Lemma flush_hinv R m i d p m' : hinv_but R i m -> lro_arr m !! i = Some d -> parent d = Some p ->
  lro_flush m i = Some m' -> hinv R m'.
Proof.
  intros [H1 H2 H3 H4] Ed Ep. unfold lro_flush. rewrite Ed. cbn [mbind option_bind]. rewrite Ep. cbn [mbind option_bind].
  intros [= <-]. destruct (H3 i d p Ed Ep) as [Ha _]. split; [done|done| |].
  - cbn [lro_arr set_arr set_stats deliver]. intros j d' p' Ed' Ep'. destruct (decide (j = i)) as [->|Hne].
    + rewrite list_lookup_insert_eq in Ed' by (by eapply lookup_lt_Some). by simplify_eq.
    + rewrite list_lookup_insert_ne in Ed' by done. destruct (H3 j d' p' Ed' Ep') as [? Hl]. split; [done|by apply Hl].
  - cbn [delivered set_arr set_stats deliver]. apply Forall_app. split; [done|]. apply Forall_singleton. cbn [packet].
    by apply agg_flushed.
Qed.

(** Another descriptor at an index. *)
Lemma hinv_set R m i d' : hinv R m -> (forall p, parent d' = Some p -> agg R d' p) ->
  hinv_but R i (set_arr (<[i := d']> (lro_arr m)) m).
Proof.
  intros [H1 H2 H3 H4] Hd. split; [done|done| |done]. cbn. intros j d p Ed Ep. destruct (decide (j = i)) as [->|Hne].
  - destruct (decide (i < length (lro_arr m))%nat).
    + rewrite list_lookup_insert_eq in Ed by done. injection Ed as <-. by split; [apply Hd|].
    + rewrite list_insert_ge in Ed by lia. apply lookup_lt_Some in Ed. lia.
  - rewrite list_lookup_insert_ne in Ed by done. destruct (H3 j d p Ed Ep). by split.
Qed.

Lemma hinv_done R m i : hinv_but R i m ->
  (forall d p, lro_arr m !! i = Some d -> parent d = Some p -> limits d p) -> hinv R m.
Proof.
  intros [H1 H2 H3 H4] Hl. split; [done|done| |done]. intros j d p Ed Ep. destruct (H3 j d p Ed Ep) as [Ha Hj]. split; [done|].
  destruct (decide (j = i)) as [->|]; [by eapply Hl|by apply Hj].
Qed.

Lemma hinv_but_stats R i a f n m : hinv_but R i m -> hinv_but R i (set_stats a f n m).
Proof. by intros []. Qed.

Lemma set_lookup i (d : net_lro_desc) m d' : lro_arr m !! i = Some d -> lro_arr (set_arr (<[i := d']> (lro_arr m)) m) !! i = Some d'.
Proof. intros H%lookup_lt_Some. by apply list_lookup_insert_eq. Qed.

Lemma outcome_hinv R e m s g tg rv s' m' : lro_inv e m -> sound s -> fitting MTU s -> hinv R m -> (tg, s) ∈ R ->
  outcome e m s g tg rv s' m' -> hinv R m' /\ (rv <> 0 -> same_packet s s').
Proof.
  intros Hm Hs Hfit Hh HR Ho. assert (forall c, same_packet s (set_ip_summed c s)) as Hsame by (intros c; split_and!; (done || apply Hs)).
  destruct Ho as [c m' (C1 & _ & C2 & _) Ha Hd Habs|i d p c m' Ed Ek Ep Ef|i c He Ed Habs Ht Hck s0|i d d' p m1 m' He Ed Ek Ht Ep Hq Hck Ea Ep' -> Ef];
    (split; [|first [by intros _; apply Hsame|by intros []]]).
  - destruct Hh as [H1 H2 H3 H4]. split; rewrite ?Ha, ?Hd; [congruence|congruence|done|done].
  - eapply flush_hinv; [by apply hinv_weaken|done..].
  - destruct (agg_started R s c tg g Hs Hfit Ht Hck HR) as [Hag Hlim].
    apply (hinv_done _ _ i).
    + apply hinv_but_stats, hinv_set; [done|]. by intros p [= <-].
    + intros d p Ed'. pose proof (set_lookup i _ m (lro_init_desc lro_clear_desc s0 tg g) Ed) as E. cbn in E, Ed'.
      rewrite E in Ed'. injection Ed' as <-. by intros [= <-].
  - destruct Hh as [H1 H2 H3 H4] eqn:Eh. destruct (H3 i d p Ed Ep) as [Hag Hlim]. rewrite H1, H2 in Ef.
    assert (desc_ok d p) as Hd.
    { assert (dinv d) as Hdi by (eapply Forall_lookup_1; [apply Hm|done]). unfold dinv in Hdi. by rewrite Ep in Hdi. }
    pose proof (agg_added R d p s _ d' Hs Hfit Ht Hck Ep Hd Hag Hlim Ea) as Hag'. pose proof (a_cnt _ _ _ Hag').
    set (m1 := set_stats _ _ _ _) in *.
    assert (hinv_but R i m1) as Hb by (apply hinv_but_stats, hinv_set; [done|]; intros p'; rewrite Ep'; by intros [= <-]).
    assert (lro_arr m1 !! i = Some d') as E by (by apply (set_lookup i d)).
    destruct (_ || _) eqn:Eb; [by eapply flush_hinv|]. subst m'. apply (hinv_done _ _ i Hb). intros d1 p1 E1 Ep1.
    rewrite E in E1. injection E1 as <-. rewrite Ep' in Ep1. injection Ep1 as <-. right.
    apply orb_false_iff in Eb as [Eb1 Eb2]. unbool. rewrite wrap_small in Eb2 by (change (2 ^ 32) with 4294967296; lia). lia.
Qed.

Lemma step_hinv R e m o m' : lro_inv e m -> sound_op o -> fitting_op MTU o -> hinv R m -> received [o] ⊆ R ->
  lro_step e m o = Some m' -> hinv R m'.
Proof.
  intros Hm Hs Hf Hh HR. assert (forall s g tg rv s' m1, sound s -> fitting MTU s -> (tg, s) ∈ R ->
    __lro_proc_skb e m s g tg = Some (rv, s', m1) ->
    hinv R (if negb (rv =? 0) then deliver g tg (set_ready (gso_size s') s') m1 else m1)) as Hone.
  { intros s g tg rv s' m1 Hso Hfi HRs E. destruct (proc_outcome e m s g tg Hm Hso) as (rv0 & s0 & m0 & E0 & Ho).
    rewrite E in E0. injection E0 as <- <- <-. destruct (outcome_hinv R e m s g tg rv s' m1 Hm Hso Hfi Hh HRs Ho) as [Hh1 Hp].
    destruct (Z.eqb_spec rv 0) as [|Hrv]; cbn [negb]; [done|]. destruct Hh1 as [H1 H2 H3 H4]. split; [done|done|done|].
    cbn. apply Forall_app. split; [done|]. apply Forall_singleton. left. exists (tg, s). split; [done|]. exact (Hp Hrv). }
  destruct o as [s|s g tg|]; cbn [lro_step sound_op fitting_op] in *.
  - unfold lro_receive_skb. destruct (__lro_proc_skb _ _ _ _ _) as [[[rv s'] m1]|] eqn:E; [|done]. cbn [mbind option_bind]. intros Em.
    assert (hinv R (if negb (rv =? 0) then deliver None (get_tag s) (set_ready (gso_size s') s') m1 else m1)) as Hr.
    { apply (Hone s None (get_tag s)); [done|done| |done]. apply HR. left. }
    destruct (negb (rv =? 0)); by injection Em as <-.
  - unfold lro_vlan_hwaccel_receive_skb. destruct (__lro_proc_skb _ _ _ _ _) as [[[rv s'] m1]|] eqn:E; [|done]. cbn [mbind option_bind]. intros Em.
    assert (hinv R (if negb (rv =? 0) then deliver g tg (set_ready (gso_size s') s') m1 else m1)) as Hr.
    { apply (Hone s g tg); [done|done| |done]. apply HR. left. }
    destruct (negb (rv =? 0)); by injection Em as <-.
  - unfold lro_flush_all. generalize (Z.to_nat (max_desc m)) as n, 0%nat as i. intros n. clear Hone HR. revert m Hm Hh.
    induction n as [|n IH]; intros m Hm Hh i; cbn [flush_from]; [by intros [= <-]|].
    destruct (lro_arr m !! i) as [d|] eqn:Ed; [|done]. cbn [mbind option_bind]. destruct (active d) eqn:Ha.
    + assert (dinv d) as Hd by (eapply Forall_lookup_1; [apply Hm|done]).
      destruct (dinv_key d Hd) as [(_ & p & k & Ep & _)|[-> _]]; [|done].
      destruct (lro_flush_ok e m i d p Hm Ed Ep) as (m1 & q & Ef & Hi & _). rewrite Ef. cbn [mbind option_bind].
      apply IH; [done|]. eapply flush_hinv; [by apply hinv_weaken|done..].
    + cbn [mbind option_bind]. by apply IH.
Qed.

Lemma init_hinv R max_aggr : MAX = max_aggr -> hinv R (lro_init MTU max_aggr).
Proof.
  intros <-. split; [done|done| |constructor]. intros i d p Ed Ep. apply lookup_replicate in Ed as [-> _]. done.
Qed.

Lemma run_hinv R e m ops m' : lro_inv e m -> Forall sound_op ops -> Forall (fitting_op MTU) ops -> hinv R m ->
  received ops ⊆ R -> lro_run e m ops = Some m' -> hinv R m'.
Proof.
  intros Hm Hs. revert m Hm. induction Hs as [|o ops Ho Hs IH]; intros m Hm Hf Hh HR; cbn [lro_run]; [by intros [= <-]|].
  inversion_clear Hf as [|? ? Hfo Hf']. rewrite received_cons in HR.
  destruct (lro_step_ok e m o Hm Ho) as (m1 & E & Hi & _). rewrite E. cbn [mbind option_bind].
  apply IH; [done|done| |set_solver]. apply (step_hinv R e m o m1); [done..| |done]. set_solver.
Qed.
End engine.

(** C15: The headers tell the truth. When the packets fit the interface
    (and its MTU is below half of 65500), every packet that the engine passes on is
    either one of the packets received, with its headers as they were, or an
    aggregate whose IP length, packet length, IP header checksum, acknowledgement,
    window and segment size are those of the packet that the segments in it stand
    for; no 16-bit length overflows, and an aggregate never has more segments than
    the engine is configured for (or two). If it has a time stamp and so has the last
    segment, the time stamps echoed are the same; of a last segment that has none,
    bytes of the payload are echoed ([echo_from_payload]). *)
Theorem lro_headers enabled mtu max_aggr ops :
  0 <= mtu /\ 2 * mtu <= 65500 -> max_aggr < 2 ^ 31 -> Forall sound_op ops -> Forall (fitting_op mtu) ops ->
  exists m, lro_run enabled (lro_init mtu max_aggr) ops = Some m
    /\ Forall (fun d => delivered_ok max_aggr (received ops) (packet d)) (delivered m).
Proof.
  intros Hmtu Hmax Hs Hf. destruct (lro_run_ok enabled ops (lro_init mtu max_aggr) (lro_init_inv _ _ _) Hs) as (m & E & _).
  exists m. split; [done|].
  exact (h_sent _ _ _ _ (run_hinv mtu max_aggr Hmtu Hmax (received ops) enabled _ ops m (lro_init_inv _ _ _) Hs Hf
    (init_hinv _ _ _ _ eq_refl) ltac:(done) E)).
Qed.

Lemma example_fitting seqno bytes : Z.of_nat (length bytes) < 1000 -> fitting 1500 (example_packet seqno 2 bytes).
Proof. intros L. split; [split; cbn; lia|]. intros _. cbn. lia. Qed.

Lemma lro_headers_witness : exists m, lro_run true (lro_init 1500 16) example_ops = Some m
  /\ Forall (fun d => delivered_ok 16 (received example_ops) (packet d)) (delivered m).
Proof.
  apply (lro_headers true 1500 16 example_ops); [lia|lia| |];
    repeat first [apply Forall_cons; split|apply Forall_nil]; try exact I; (apply example_sound || apply example_fitting); cbn; lia.
Defined.

(** ** Where the engine is not invisible *)

(** A packet whose checksum the hardware did not verify is passed on at once,
    before those of its connection that are held back. *)
Example unverified_overtakes :
  (fun m => (fun x => numbered x.2) <$> sent m)
    <$> lro_run true (lro_init 1500 16) [Receive (example_packet 0 2 [1]); Receive (example_packet 1 0 [2]); FlushAll]
  = Some [[(1, 2)]; [(0, 1)]].
Proof. vm_compute. reflexivity. Qed.

(** The check refuses packets without payload, but not those whose IP length is
    less than their headers: this one of ten bytes has a payload of minus ten. *)
Definition truncated_packet : sk_buff :=
  Skb example_eth (Ip 4 5 0 30 1 0 64 6 0 167772161 167772162)
    (Tcp 80 4000 1 7 5 false false false false true false false false 1000 (0, 0, 0))
    [] 0 44 0 512 None 2 false 0 None [].
Example negative_payload : TCP_PAYLOAD_LENGTH (iph truncated_packet) (tcph truncated_packet) = -10
  /\ lro_tcp_ip_check (iph truncated_packet) (tcph truncated_packet) (ip_length truncated_packet) None = true.
Proof. by vm_compute. Qed.

(** A connection with time stamps gets a segment without: what would be its
    echoed time stamp are bytes of its payload, and they are put into the header of
    the aggregate. *)
Definition stamped_packet (doff seqno opt0 opt1 opt2 : Z) : sk_buff :=
  Skb example_eth (Ip 4 5 0 (20 + 4 * doff + 12) 1 0 64 6 0 167772161 167772162)
    (Tcp 80 4000 seqno 7 doff false false false false true false false false 1000 (opt0, opt1, opt2))
    (replicate 12 65) 0 (34 + 4 * doff + 12) 0 512 None 2 false 0 None [].
Example echo_from_payload :
  (fun m => (fun x => (doff (tcph x.2), topt2 (tcph x.2))) <$> sent m)
    <$> lro_run true (lro_init 1500 16)
      [Receive (stamped_packet 8 0 0x0101080a 1000 2000); Receive (stamped_packet 5 12 0x41414141 0x41414141 0x41414141); FlushAll]
  = Some [(8, 0x41414141)].
Proof. vm_compute. reflexivity. Qed.
