(* ===== verification/Tasklet.v ===== *)
(** Tasklets, softirqs and the bottom half they run in: [linux/kernel/softirq.c],
    [include/linux/interrupt.h] and [vmware/linux_stubs.c].

    The state has the per-CPU data of the two files and the tasklets. On each
    CPU the VMkernel runs [Linux_BHHandler], one instance at a time, after it has
    been asked to by [vmk_BottomHalfSchedulePCPU]; [bh_step] is the next thing
    that instance does. Any number of callers, threads and interrupt handlers on
    any CPU, and the tasklets' own functions, use the operations of the interface
    meanwhile. A step is a section with interrupts off, which only touches data of its
    own CPU and tasklets it owns, or one atomic access. Worlds are not preempted
    (see [yield] in [vmware/linux_task.c]), so that a caller stays on its CPU
    during [__tasklet_schedule] and [raise_softirq]. [held] and [soft] count the
    calls of [tasklet_disable] for the statements only. *)

From stdpp Require Import functions.
From S2P Require Import Prelude.
Local Open Scope Z_scope.

(** ** Data *)

(** A tasklet, known by its place in a table. Its function is opaque. *)
Record tasklet_struct := Tasklet {
  next : option nat;
  state : Z;
  count : Z;
}.

Definition TASKLET_STATE_SCHED : Z := 0.
Definition TASKLET_STATE_RUN : Z := 1.

Definition HI_SOFTIRQ : Z := 0.
Definition TASKLET_SOFTIRQ : Z := 5.
Definition MAX_SOFTIRQ : Z := 32.

Definition set_next (p : option nat) (t : tasklet_struct) : tasklet_struct := Tasklet p (state t) (count t).
Definition set_state (x : Z) (t : tasklet_struct) : tasklet_struct := Tasklet (next t) x (count t).
Definition set_count (n : Z) (t : tasklet_struct) : tasklet_struct := Tasklet (next t) (state t) n.

(** tasklet_init and DECLARE_TASKLET; DECLARE_TASKLET_DISABLED. *)
Definition tasklet_init : tasklet_struct := Tasklet None 0 0.
Definition DECLARE_TASKLET_DISABLED : tasklet_struct := Tasklet None 0 1.

Definition test_bit (nr : Z) (t : tasklet_struct) : bool := Z.testbit (state t) nr.
Definition set_bit (nr : Z) (t : tasklet_struct) : tasklet_struct := set_state (Z.lor (state t) (Z.shiftl 1 nr)) t.
Definition clear_bit (nr : Z) (t : tasklet_struct) : tasklet_struct := set_state (Z.ldiff (state t) (Z.shiftl 1 nr)) t.

(** Where [tasklet_action] is with its local [list]. *)
Inductive action_pc :=
| Next                    (* while (list) *)
| Locked (t : nat)        (* tasklet_trylock succeeded *)
| Clear (t : nat)         (* the count was zero *)
| Running (t : nat)       (* in t->func *)
| Unlock (t : nat)        (* before the tasklet_unlock that follows it *)
| UnlockBusy (t : nat)    (* the count was not zero *)
| Requeue (t : nat).      (* before the second local_irq_disable *)

#[export] Instance action_pc_eq_dec : EqDecision action_pc.
Proof. solve_decision. Defined.

(** Where [Linux_BHHandler] is; [nx] is its local [next]. *)
Inductive bh_pc :=
| Off                                             (* not running *)
| Loop (d : option nat)                           (* while (d != NULL) *)
| Call (nx : option nat)                          (* at the beginning of do_softirq *)
| Softirq (nx : option nat) (pending i : Z)       (* in its loop *)
| Action (nx : option nat) (pending i : Z) (list : option nat) (pc : action_pc).

(** vmkLinuxPCPU_t and the elements of the two vectors. [softirqLinuxBHData] has its
    routine and is known by its CPU, only its [next] changes. *)
Record pcpu := Pcpu {
  tasklet_vec : option nat;
  tasklet_hi_vec : option nat;
  softirq_pending : Z;
  linuxBHList : option nat;
  bh_next : option nat;
  bh_scheduled : bool;     (* what vmk_BottomHalfSchedulePCPU has asked for *)
  bh : bh_pc;
}.

Definition vec (hi : bool) (p : pcpu) : option nat := if hi then tasklet_hi_vec p else tasklet_vec p.
Definition set_vec (hi : bool) (l : option nat) (p : pcpu) : pcpu :=
  if hi then Pcpu (tasklet_vec p) l (softirq_pending p) (linuxBHList p) (bh_next p) (bh_scheduled p) (bh p)
  else Pcpu l (tasklet_hi_vec p) (softirq_pending p) (linuxBHList p) (bh_next p) (bh_scheduled p) (bh p).
Definition set_softirq_pending (x : Z) (p : pcpu) : pcpu :=
  Pcpu (tasklet_vec p) (tasklet_hi_vec p) x (linuxBHList p) (bh_next p) (bh_scheduled p) (bh p).
Definition set_BHList (l n : option nat) (b : bool) (p : pcpu) : pcpu :=
  Pcpu (tasklet_vec p) (tasklet_hi_vec p) (softirq_pending p) l n b (bh p).
Definition set_bh (x : bh_pc) (p : pcpu) : pcpu :=
  Pcpu (tasklet_vec p) (tasklet_hi_vec p) (softirq_pending p) (linuxBHList p) (bh_next p) (bh_scheduled p) x.

Definition init_pcpu : pcpu := Pcpu None None 0 None None false Off.

(** What a caller is in the middle of. *)
Inductive call :=
| Idle
| Schedule (hi : bool) (t cpu : nat)   (* __tasklet_schedule and __tasklet_hi_schedule *)
| Panicking (t : nat)                  (* in t->func, called by tasklet_schedule *)
| DisableWait (t : nat)                (* tasklet_unlock_wait of tasklet_disable *)
| KillTry (t : nat)                    (* the outer while of tasklet_kill *)
| KillYield (t : nat)                  (* the inner one *)
| KillWait (t : nat)                   (* its tasklet_unlock_wait *)
| KillClear (t : nat)                  (* its clear_bit *)
| RaiseBH (cpu : nat).                 (* raise_softirq before Linux_BH_static *)

Record sys := Sys {
  tasklets : list tasklet_struct;
  cpus : list pcpu;
  calls : list call;
  panic : bool;        (* vmklnx_is_panic *)
  held : nat -> Z;     (* the calls of tasklet_disable that have returned and are not undone *)
  soft : nat -> Z;     (* those of tasklet_disable_nosync *)
}.

Definition on_tasklet (t : nat) (f : tasklet_struct -> tasklet_struct) (s : sys) : sys :=
  Sys (alter f t (tasklets s)) (cpus s) (calls s) (panic s) (held s) (soft s).
Definition on_cpu (c : nat) (f : pcpu -> pcpu) (s : sys) : sys :=
  Sys (tasklets s) (alter f c (cpus s)) (calls s) (panic s) (held s) (soft s).
Definition set_call (k : nat) (a : call) (s : sys) : sys :=
  Sys (tasklets s) (cpus s) (<[k := a]> (calls s)) (panic s) (held s) (soft s).
Definition set_disabled (h w : nat -> Z) (s : sys) : sys :=
  Sys (tasklets s) (cpus s) (calls s) (panic s) h w.

(** ** Raising a softirq *)

(** Linux_BHInternal_static with the data of CPU [cpu], on that CPU. *)
Definition Linux_BHInternal_static (cpu : nat) (p : pcpu) : pcpu :=
  set_BHList (Some cpu) (linuxBHList p) true p.

(** LinuxAtomicFetchAndOrSoftirqFlag and LinuxAtomicReadWriteSoftirqFlag. *)
Definition LinuxAtomicFetchAndOrSoftirqFlag (val : Z) (p : pcpu) : Z * pcpu :=
  (softirq_pending p, set_softirq_pending (Z.lor (softirq_pending p) val) p).
Definition LinuxAtomicReadWriteSoftirqFlag (val : Z) (p : pcpu) : Z * pcpu :=
  (softirq_pending p, set_softirq_pending val p).

(** With interrupts off. *)
Definition __raise_softirq_irqoff (nr : Z) (cpu : nat) (p : pcpu) : pcpu :=
  let '(pending, p) := LinuxAtomicFetchAndOrSoftirqFlag (Z.shiftl 1 nr) p in
  if pending =? 0 then Linux_BHInternal_static cpu p else p.
Definition raise_softirq_irqoff : Z -> nat -> pcpu -> pcpu := __raise_softirq_irqoff.

(** ** Scheduling a tasklet *)

Definition vec_softirq (hi : bool) : Z := if hi then HI_SOFTIRQ else TASKLET_SOFTIRQ.

(** __tasklet_schedule and __tasklet_hi_schedule, and the second section of
    tasklet_action and tasklet_hi_action, with interrupts off. *)
Definition __tasklet_schedule (hi : bool) (t cpu : nat) (s : sys) : option sys :=
  p ← cpus s !! cpu;
  _ ← tasklets s !! t;
  Some (on_cpu cpu (fun p => raise_softirq_irqoff (vec_softirq hi) cpu (set_vec hi (Some t) p))
    (on_tasklet t (set_next (vec hi p)) s)).

(** ** The bottom half of a CPU *)

(** tasklet_trylock: the bit it found, negated, and its effect. *)
Definition tasklet_trylock (t : tasklet_struct) : bool * tasklet_struct :=
  (negb (test_bit TASKLET_STATE_RUN t), set_bit TASKLET_STATE_RUN t).
Definition tasklet_unlock (t : tasklet_struct) : tasklet_struct := clear_bit TASKLET_STATE_RUN t.

(** The vector of a softirq. *)
Definition softirq_action (i : Z) : option bool :=
  if i =? HI_SOFTIRQ then Some true else if i =? TASKLET_SOFTIRQ then Some false else None.

(** A step of tasklet_action or tasklet_hi_action on CPU [c] with [list], in a state
    where [go] says where the handler is; [None] is the BUG or a bad pointer. *)
Definition action_step (c : nat) (hi : bool) (list : option nat) (pc : action_pc)
    (go : option nat -> action_pc -> bh_pc) (out : bh_pc) (s : sys) : option sys :=
  let at_pc l pc := on_cpu c (set_bh (go l pc)) in
  match pc with
  | Next =>
      match list with
      | None => Some (on_cpu c (set_bh out) s)
      | Some t =>
          x ← tasklets s !! t;
          let list := next x in
          let '(ok, x) := tasklet_trylock x in
          let s := on_tasklet t (fun _ => x) s in
          Some (at_pc list (if ok then Locked t else Requeue t) s)
      end
  | Locked t =>
      x ← tasklets s !! t;
      Some (at_pc list (if count x =? 0 then Clear t else UnlockBusy t) s)
  | Clear t =>
      x ← tasklets s !! t;
      if test_bit TASKLET_STATE_SCHED x then
        Some (at_pc list (Running t) (on_tasklet t (clear_bit TASKLET_STATE_SCHED) s))
      else None
  | Running t => Some (at_pc list (Unlock t) s)
  | Unlock t => Some (at_pc list Next (on_tasklet t tasklet_unlock s))
  | UnlockBusy t => Some (at_pc list (Requeue t) (on_tasklet t tasklet_unlock s))
  | Requeue t => s ← __tasklet_schedule hi t c s; Some (at_pc list Next s)
  end.

(** The next step of Linux_BHHandler on CPU [c], which begins when it was
    scheduled. *)
Definition bh_step (c : nat) (s : sys) : option sys :=
  p ← cpus s !! c;
  match bh p with
  | Off =>
      if bh_scheduled p then
        (* d = Linux_GetBHList(); Linux_SetBHList(NULL) *)
        Some (on_cpu c (set_bh (Loop (linuxBHList p)) ∘ set_BHList None (bh_next p) false) s)
      else None
  | Loop None => Some (on_cpu c (set_bh Off) s)
  | Loop (Some d) =>
      q ← cpus s !! d;
      Some (on_cpu c (set_bh (Call (bh_next q))) s)
  | Call nx =>
      let '(pending, p) := LinuxAtomicReadWriteSoftirqFlag 0 p in
      Some (on_cpu c (fun _ => set_bh (Softirq nx pending 0) p) s)
  | Softirq nx pending i =>
      if i <? MAX_SOFTIRQ then
        if Z.land pending (Z.shiftl 1 i) =? 0 then Some (on_cpu c (set_bh (Softirq nx pending (i + 1))) s)
        else
          match softirq_action i with
          | Some hi =>
              Some (on_cpu c (set_bh (Action nx pending i (vec hi p) Next) ∘ set_vec hi None) s)
          | None => (* the action of another softirq *)
              Some (on_cpu c (set_bh (Softirq nx pending (i + 1))) s)
          end
      else Some (on_cpu c (set_bh (Loop nx)) s)
  | Action nx pending i list pc =>
      hi ← softirq_action i;
      action_step c hi list pc (Action nx pending i) (Softirq nx pending (i + 1)) s
  end.

(** ** The callers *)

Inductive request :=
| TaskletSchedule (hi : bool) (t cpu : nat)
| TaskletDisable (t : nat)
| TaskletDisableNosync (t : nat)
| TaskletEnable (sync : bool) (t : nat)   (* which of the two it undoes *)
| TaskletKill (t : nat)
| RaiseSoftirq (nr : Z) (cpu : nat).

(** tasklet_schedule, which calls the function itself after a panic, and
    tasklet_hi_schedule. *)
Definition tasklet_schedule (hi : bool) (t cpu : nat) (s : sys) : option (sys * call) :=
  x ← tasklets s !! t;
  if negb hi && panic s then Some (s, Panicking t)
  else
    Some (on_tasklet t (set_bit TASKLET_STATE_SCHED) s,
      if test_bit TASKLET_STATE_SCHED x then Idle else Schedule hi t cpu).

Definition atomic_add (i : Z) (x : tasklet_struct) : tasklet_struct := set_count (sext 32 (count x + i)) x.

Definition tasklet_disable_nosync (t : nat) (s : sys) : option sys :=
  _ ← tasklets s !! t;
  Some (on_tasklet t (atomic_add 1) s).

Definition tasklet_enable (t : nat) (s : sys) : option sys :=
  _ ← tasklets s !! t;
  Some (on_tasklet t (atomic_add (-1)) s).

(** raise_softirq, with interrupts on. *)
Definition raise_softirq (nr : Z) (cpu : nat) (s : sys) : option (sys * call) :=
  p ← cpus s !! cpu;
  let '(pending, p) := LinuxAtomicFetchAndOrSoftirqFlag (Z.shiftl 1 nr) p in
  Some (on_cpu cpu (fun _ => p) s, if pending =? 0 then RaiseBH cpu else Idle).

(** The first step of a request. *)
Definition begin (r : request) (s : sys) : option (sys * call) :=
  match r with
  | TaskletSchedule hi t cpu => tasklet_schedule hi t cpu s
  | TaskletDisable t => s ← tasklet_disable_nosync t s; Some (s, DisableWait t)
  | TaskletDisableNosync t =>
      s ← tasklet_disable_nosync t s;
      Some (set_disabled (held s) (<[t := soft s t + 1]> (soft s)) s, Idle)
  | TaskletEnable true t =>
      s ← tasklet_enable t s;
      Some (set_disabled (<[t := held s t - 1]> (held s)) (soft s) s, Idle)
  | TaskletEnable false t =>
      s ← tasklet_enable t s;
      Some (set_disabled (held s) (<[t := soft s t - 1]> (soft s)) s, Idle)
  | TaskletKill t => Some (s, KillTry t)
  | RaiseSoftirq nr cpu => raise_softirq nr cpu s
  end.

(** The next one; [None] while it waits. *)
Definition continue (a : call) (s : sys) : option (sys * call) :=
  match a with
  | Idle => None
  | Schedule hi t cpu => s ← __tasklet_schedule hi t cpu s; Some (s, Idle)
  | Panicking t => Some (s, Idle)
  | DisableWait t =>
      x ← tasklets s !! t;
      if test_bit TASKLET_STATE_RUN x then None
      else Some (set_disabled (<[t := held s t + 1]> (held s)) (soft s) s, Idle)
  | KillTry t =>
      x ← tasklets s !! t;
      Some (on_tasklet t (set_bit TASKLET_STATE_SCHED) s,
        if test_bit TASKLET_STATE_SCHED x then KillYield t else KillWait t)
  | KillYield t =>
      x ← tasklets s !! t;
      if test_bit TASKLET_STATE_SCHED x then None else Some (s, KillTry t)
  | KillWait t =>
      x ← tasklets s !! t;
      if test_bit TASKLET_STATE_RUN x then None else Some (s, KillClear t)
  | KillClear t =>
      _ ← tasklets s !! t;
      Some (on_tasklet t (clear_bit TASKLET_STATE_SCHED) s, Idle)
  | RaiseBH cpu =>
      _ ← cpus s !! cpu;
      Some (on_cpu cpu (Linux_BHInternal_static cpu) s, Idle)
  end.

(** What a caller may ask for: CPUs that exist, softirqs of the table, and to
    enable what is disabled. *)
Definition may (r : request) (s : sys) : Prop :=
  match r with
  | TaskletSchedule _ _ cpu => (cpu < length (cpus s))%nat
  | TaskletDisable t | TaskletDisableNosync t => forall x, tasklets s !! t = Some x -> count x < 2 ^ 31 - 1
  | TaskletEnable true t => 0 < held s t
  | TaskletEnable false t => 0 < soft s t
  | RaiseSoftirq nr cpu => 0 <= nr < MAX_SOFTIRQ
  | _ => True
  end.

Inductive step : sys -> sys -> Prop :=
| step_bh c s s' : bh_step c s = Some s' -> step s s'
| step_begin k r s s' a : calls s !! k = Some Idle -> may r s -> begin r s = Some (s', a) -> step s (set_call k a s')
| step_continue k a s s' a' : calls s !! k = Some a -> continue a s = Some (s', a') -> step s (set_call k a' s')
| step_panic s : step s (Sys (tasklets s) (cpus s) (calls s) true (held s) (soft s)).

(** [n] CPUs and [m] callers; the tasklets of [ds] are declared, disabled where it
    says so. *)
Definition init (n m : nat) (ds : list bool) : sys :=
  Sys ((fun d : bool => if d then DECLARE_TASKLET_DISABLED else tasklet_init) <$> ds) (replicate n init_pcpu) (replicate m Idle) false
    (fun t => if default false (ds !! t) then 1 else 0) (fun _ => 0).

Inductive reachable (n m : nat) (ds : list bool) : sys -> Prop :=
| reachable_init : reachable n m ds (init n m ds)
| reachable_step s s' : reachable n m ds s -> step s s' -> reachable n m ds s'.

(** The tasklet whose function runs on CPU [c]. *)
Definition running (s : sys) (c : nat) : option nat :=
  p ← cpus s !! c;
  match bh p with
  | Action _ _ _ _ (Running t) => Some t
  | _ => None
  end.

(** CPU [c] goes on alone for [n] steps. *)
Fixpoint bh_run (n : nat) (c : nat) (s : sys) : option sys :=
  match n with
  | O => Some s
  | S n => s ← bh_step c s; bh_run n c s
  end.
