(* ===== verification/TaskletInv.v ===== *)
(** The invariant of the tasklets: every scheduled tasklet has one owner, which is
    a list of a CPU, its bottom half or a caller; the RUN bit is a lock held by one
    bottom half; the bottom half of a CPU with something pending is scheduled. *)

From stdpp Require Import functions.
From S2P Require Import Prelude Tasklet.
Local Open Scope Z_scope.

(** ** Who owns what *)

(** Of a tasklet with the SCHED bit. *)
Inductive place :=
| Vec (c : nat) (hi : bool)    (* in a vector *)
| Private (c : nat)            (* in the list that tasklet_action has taken *)
| Hand (c : nat)               (* taken from that list *)
| Caller (k : nat).

#[export] Instance place_eq_dec : EqDecision place.
Proof. solve_decision. Defined.

(** Of the bottom-half data of a CPU with pending softirqs. *)
Inductive bh_place := InList | InHandler | InCaller (k : nat).

Record ghost := Ghost {
  own : nat -> option place;
  runner : nat -> option nat;
  bhown : nat -> option bh_place;
}.

Definition on_own (f : (nat -> option place) -> nat -> option place) (g : ghost) : ghost :=
  Ghost (f (own g)) (runner g) (bhown g).
Definition set_own (t : nat) (o : option place) : ghost -> ghost := on_own (<[t := o]>).
Definition set_runner (t : nat) (o : option nat) (g : ghost) : ghost := Ghost (own g) (<[t := o]> (runner g)) (bhown g).
Definition set_bhown (c : nat) (o : option bh_place) (g : ghost) : ghost := Ghost (own g) (runner g) (<[c := o]> (bhown g)).

Definition isS {A} (o : option A) : bool := match o with Some _ => true | None => false end.

Definition hand (pc : action_pc) : option nat :=
  match pc with Locked t | Clear t | UnlockBusy t | Requeue t => Some t | _ => None end.
Definition locked (pc : action_pc) : option nat :=
  match pc with Locked t | Clear t | Running t | Unlock t | UnlockBusy t => Some t | _ => None end.
Definition executing (pc : action_pc) : option nat :=
  match pc with Clear t | Running t | Unlock t => Some t | _ => None end.

Definition pc_of (b : bh_pc) : action_pc := match b with Action _ _ _ _ pc => pc | _ => Next end.
Definition list_of (b : bh_pc) : option nat := match b with Action _ _ _ l _ => l | _ => None end.

Definition caller_tasklet (a : call) : option nat :=
  match a with Schedule _ t _ | KillWait t | KillClear t => Some t | _ => None end.
Definition caller_bh (a : call) : option nat := match a with RaiseBH c => Some c | _ => None end.
Definition waits (t : nat) (a : call) : nat := match a with DisableWait u => if decide (u = t) then 1 else 0 | _ => 0 end.

(** The list at [p]. *)
Inductive chain (ts : list tasklet_struct) : option nat -> list nat -> Prop :=
| chain_nil : chain ts None []
| chain_cons t x l : ts !! t = Some x -> chain ts (next x) l -> chain ts (Some t) (t :: l).

Definition holds (ts : list tasklet_struct) (g : ghost) (p : option nat) (pl : place) : Prop :=
  exists l, chain ts p l /\ NoDup l /\ forall t, t ∈ l <-> own g t = Some pl.

(** A softirq of [p] whose vector is not empty will be handled. *)
Definition will (i : Z) (p : pcpu) : Prop :=
  Z.testbit (softirq_pending p) i = true \/
  match bh p with
  | Softirq _ pending j => Z.testbit pending i = true /\ j <= i
  | Action _ pending j _ _ => Z.testbit pending i = true /\ j < i
  | _ => False
  end.

(** The bottom half of CPU [c] and its data. *)
Definition bh_ok (o : option bh_place) (c : nat) (p : pcpu) : Prop :=
  linuxBHList p = (if o is Some InList then Some c else None) /\
  (o = Some InList -> bh_next p = None /\ bh_scheduled p = true) /\
  (o = Some InHandler <-> match bh p with Loop (Some _) | Call _ => True | _ => False end) /\
  (o = Some InHandler -> bh_next p = None) /\
  match bh p with
  | Off => True
  | Loop d => d = None \/ d = Some c
  | Call nx => nx = None
  | Softirq nx _ i => nx = None /\ 0 <= i
  | Action nx _ i _ _ => nx = None /\ exists hi, softirq_action i = Some hi
  end /\
  (softirq_pending p = 0 <-> o = None) /\ 0 <= softirq_pending p.

Record cpu_ok (ts : list tasklet_struct) (h : nat -> Z) (g : ghost) (c : nat) (p : pcpu) : Prop := {
  ok_vec : forall hi, holds ts g (vec hi p) (Vec c hi);
  ok_list : holds ts g (list_of (bh p)) (Private c);
  ok_hand : forall t, hand (pc_of (bh p)) = Some t <-> own g t = Some (Hand c);
  ok_locked : forall t, locked (pc_of (bh p)) = Some t <-> runner g t = Some c;
  ok_held : forall t, executing (pc_of (bh p)) = Some t -> h t = 0;
  ok_will : forall hi, vec hi p <> None -> will (vec_softirq hi) p;
  ok_bh : bh_ok (bhown g c) c p;
}.

Record caller_ok (n : nat) (g : ghost) (k : nat) (a : call) : Prop := {
  ok_tasklet : forall t, caller_tasklet a = Some t <-> own g t = Some (Caller k);
  ok_kill : forall t, a = KillClear t -> runner g t = None;
  ok_raise : forall c, caller_bh a = Some c <-> bhown g c = Some (InCaller k);
  ok_cpu : forall hi t c, a = Schedule hi t c -> (c < n)%nat;
}.

Record tasklet_ok (s : sys) (g : ghost) (t : nat) (x : tasklet_struct) : Prop := {
  ok_sched : test_bit TASKLET_STATE_SCHED x = isS (own g t);
  ok_run : test_bit TASKLET_STATE_RUN x = isS (runner g t);
  ok_count : count x = held s t + soft s t + Z.of_nat (sum_list_with (waits t) (calls s));
  ok_max : count x < 2 ^ 31;
  ok_held_nonneg : 0 <= held s t;
  ok_soft_nonneg : 0 <= soft s t;
}.

Definition valid (s : sys) (pl : place) : Prop :=
  match pl with
  | Vec c _ | Private c | Hand c => (c < length (cpus s))%nat
  | Caller k => (k < length (calls s))%nat
  end.

Record inv (g : ghost) (s : sys) : Prop := {
  inv_cpu : forall c p, cpus s !! c = Some p -> cpu_ok (tasklets s) (held s) g c p;
  inv_caller : forall k a, calls s !! k = Some a -> caller_ok (length (cpus s)) g k a;
  inv_tasklet : forall t x, tasklets s !! t = Some x -> tasklet_ok s g t x;
  inv_own : forall t pl, own g t = Some pl -> (t < length (tasklets s))%nat /\ valid s pl;
  inv_runner : forall t c, runner g t = Some c -> (t < length (tasklets s))%nat /\ (c < length (cpus s))%nat;
  inv_bhown : forall c k, bhown g c = Some (InCaller k) -> (k < length (calls s))%nat;
}.

(** ** What a step leaves alone *)

Definition place_cpu (pl : place) : option nat :=
  match pl with Vec c _ | Private c | Hand c => Some c | Caller _ => None end.

Record same_cpu (g g' : ghost) (c : nat) : Prop := {
  same_own : forall t pl, place_cpu pl = Some c -> own g' t = Some pl <-> own g t = Some pl;
  same_runner : forall t, runner g' t = Some c <-> runner g t = Some c;
  same_bhown : bhown g' c = bhown g c;
}.

Definition same_next (ts ts' : list tasklet_struct) (t : nat) : Prop :=
  forall x, ts !! t = Some x -> exists x', ts' !! t = Some x' /\ next x' = next x.

Lemma chain_frame ts ts' p l : chain ts p l -> (forall t, t ∈ l -> same_next ts ts' t) -> chain ts' p l.
Proof.
  induction 1 as [|t x l Ht _ IH]; intros Hs; [constructor|].
  destruct (Hs t ltac:(left) x Ht) as (x' & Hx' & E). econstructor; [done|]. rewrite E. apply IH. intros u Hu. apply Hs. by right.
Qed.

Lemma holds_frame ts ts' g g' p pl :
  holds ts g p pl -> (forall t, own g' t = Some pl <-> own g t = Some pl) ->
  (forall t, own g t = Some pl -> same_next ts ts' t) -> holds ts' g' p pl.
Proof.
  intros (l & Hl & Hn & Ho) Hg Hs. exists l. split; [|split; [done|]].
  - eapply chain_frame; [done|]. intros t Ht. by apply Hs, Ho.
  - intros t. by rewrite Ho, Hg.
Qed.

Lemma cpu_ok_frame ts ts' h h' g g' c p :
  cpu_ok ts h g c p -> same_cpu g g' c ->
  (forall t pl, own g t = Some pl -> place_cpu pl = Some c -> same_next ts ts' t) ->
  (forall t, runner g t = Some c -> h t = 0 -> h' t = 0) ->
  cpu_ok ts' h' g' c p.
Proof.
  intros [Hv Hl Hh Hk He Hw Hb] [So Sr Sb] Hn Hh'. split.
  - intros hi. eapply holds_frame; [done| |]; [intros t; by apply So|intros t Ht; by eapply Hn].
  - eapply holds_frame; [done| |]; [intros t; by apply So|intros t Ht; by eapply Hn].
  - intros t. rewrite Hh. symmetry. by apply So.
  - intros t. by rewrite Hk, Sr.
  - intros t Ht. apply Hh'; [|by apply He]. apply Hk. by destruct (pc_of (bh p)).
  - done.
  - by rewrite Sb.
Qed.

(** A list and its operations. *)
Lemma holds_nil ts g pl : holds ts g None pl <-> forall t, own g t <> Some pl.
Proof.
  split.
  - intros (l & Hl & _ & Ho) t Ht%Ho. inversion Hl. subst. by apply not_elem_of_nil in Ht.
  - intros H. exists []. split; [constructor|]. split; [constructor|]. intros t. split; [by intros ?%not_elem_of_nil|]. by intros ?%H.
Qed.

Lemma holds_empty ts g p pl : holds ts g p pl -> (forall t, own g t <> Some pl) -> p = None.
Proof. intros (l & Hl & _ & Ho) H. inversion Hl; [done|]. subst. destruct (H t). apply Ho. left. Qed.

Lemma holds_push ts g p pl t x :
  holds ts g p pl -> own g t <> Some pl -> ts !! t = Some x ->
  holds (<[t := set_next p x]> ts) (set_own t (Some pl) g) (Some t) pl.
Proof.
  intros (l & Hl & Hn & Ho) Ht Hx. assert (t ∉ l) as Hnt by (by rewrite Ho). exists (t :: l). split; [|split; [by constructor|]].
  - econstructor; [by apply list_lookup_insert_eq, (lookup_lt_Some _ _ _ Hx)|]. eapply chain_frame; [done|].
    intros u Hu y Hy. exists y. split; [|done]. rewrite list_lookup_insert_ne; [done|]. by intros ->.
  - intros u. cbn. rewrite elem_of_cons. destruct (decide (u = t)) as [->|Hne].
    + rewrite fn_lookup_insert. naive_solver.
    + rewrite fn_lookup_insert_ne, Ho by done. naive_solver.
Qed.

Lemma holds_pop ts g t x pl o :
  holds ts g (Some t) pl -> ts !! t = Some x -> o <> Some pl ->
  own g t = Some pl /\ holds ts (set_own t o g) (next x) pl.
Proof.
  intros (l & Hl & Hn & Ho) Hx Hpl. inversion Hl as [|u y l' Hy Hl']. subst. simplify_eq. apply NoDup_cons in Hn as [Hn1 Hn2].
  split; [apply Ho; left|]. exists l'. split; [done|]. split; [done|]. intros u. cbn. destruct (decide (u = t)) as [->|Hne].
  - rewrite fn_lookup_insert. naive_solver.
  - rewrite fn_lookup_insert_ne, <- Ho, elem_of_cons by done. naive_solver.
Qed.

(** A whole list changes hands. *)
Definition move (pl pl' : place) (o : nat -> option place) (t : nat) : option place :=
  if decide (o t = Some pl) then Some pl' else o t.

Lemma move_Some pl pl' o t q :
  move pl pl' o t = Some q <-> (o t = Some pl /\ q = pl') \/ (o t <> Some pl /\ o t = Some q).
Proof. unfold move. case_decide; naive_solver. Qed.

Lemma holds_move ts g p pl pl' :
  holds ts g p pl -> (forall t, own g t <> Some pl') -> pl <> pl' -> holds ts (on_own (move pl pl') g) p pl'.
Proof.
  intros (l & Hl & Hn & Ho) H Hne. exists l. split; [done|]. split; [done|]. intros t. cbn. rewrite move_Some, Ho.
  pose proof (H t). naive_solver.
Qed.

(** ** A step changes one tasklet, some CPUs and some callers *)

Definition untouched (s s' : sys) (g g' : ghost) (c : nat) : Prop :=
  cpus s' !! c = cpus s !! c /\ same_cpu g g' c /\
  (forall t pl, own g t = Some pl -> place_cpu pl = Some c -> same_next (tasklets s) (tasklets s') t) /\
  (forall t, runner g t = Some c -> held s t = 0 -> held s' t = 0).

Definition untouched_caller (s s' : sys) (g g' : ghost) (k : nat) : Prop :=
  calls s' !! k = calls s !! k /\ (forall t, own g' t = Some (Caller k) <-> own g t = Some (Caller k)) /\
  (forall t, own g t = Some (Caller k) -> runner g t = None -> runner g' t = None) /\
  (forall c, bhown g' c = Some (InCaller k) <-> bhown g c = Some (InCaller k)).

Lemma inv_change g s g' s' :
  inv g s ->
  length (tasklets s') = length (tasklets s) -> length (cpus s') = length (cpus s) -> length (calls s') = length (calls s) ->
  (forall c, untouched s s' g g' c \/ forall p, cpus s' !! c = Some p -> cpu_ok (tasklets s') (held s') g' c p) ->
  (forall k, untouched_caller s s' g g' k \/ forall a, calls s' !! k = Some a -> caller_ok (length (cpus s')) g' k a) ->
  (forall t x, tasklets s' !! t = Some x -> tasklet_ok s' g' t x) ->
  (forall t pl, own g' t = Some pl -> own g t = Some pl \/ ((t < length (tasklets s))%nat /\ valid s pl)) ->
  (forall t c, runner g' t = Some c -> runner g t = Some c \/ ((t < length (tasklets s))%nat /\ (c < length (cpus s))%nat)) ->
  (forall c k, bhown g' c = Some (InCaller k) -> bhown g c = Some (InCaller k) \/ (k < length (calls s))%nat) ->
  inv g' s'.
Proof.
  intros Hi L1 L2 L3 Hc Hk Ht Ho Hr Hb. split.
  - intros c p Hp. destruct (Hc c) as [(E & Hs & Hn & Hh)|H]; [|by apply H].
    rewrite E in Hp. eapply cpu_ok_frame; [by eapply inv_cpu|done..].
  - intros k a Ha. destruct (Hk k) as [(E & H1 & H2 & H3)|H]; [|by apply H].
    rewrite E in Ha. destruct (inv_caller _ _ Hi k a Ha) as [A B C D]. split.
    + intros t. by rewrite A, H1.
    + intros t ->. apply H2; [by apply A|by apply B].
    + intros c. by rewrite C, H3.
    + rewrite L2. done.
  - done.
  - intros t pl E. rewrite L1. destruct (Ho t pl E) as [?%(inv_own _ _ Hi)|?]; [|];
      destruct pl; unfold valid in *; rewrite ?L2, ?L3; done.
  - intros t c E. rewrite L1, L2. by destruct (Hr t c E) as [?%(inv_runner _ _ Hi)|?].
  - intros c k E. rewrite L3. by destruct (Hb c k E) as [?%(inv_bhown _ _ Hi)|?].
Qed.

(** A tasklet whose bits and counts are the same. *)
Lemma tasklet_ok_frame s s' g g' t x x' :
  tasklet_ok s g t x -> state x' = state x -> count x' = count x ->
  isS (own g' t) = isS (own g t) -> isS (runner g' t) = isS (runner g t) ->
  held s' t = held s t -> soft s' t = soft s t ->
  sum_list_with (waits t) (calls s') = sum_list_with (waits t) (calls s) ->
  tasklet_ok s' g' t x'.
Proof.
  intros [] E1 E2 E3 E4 E5 E6 E7. split; unfold test_bit in *; rewrite ?E1, ?E2, ?E3, ?E4, ?E5, ?E6, ?E7; done.
Qed.

Lemma sum_insert {A} (f : A -> nat) (l : list A) k a a' :
  l !! k = Some a -> (sum_list_with f (<[k := a']> l) + f a = sum_list_with f l + f a')%nat.
Proof.
  revert k. induction l as [|b l IH]; intros [|k] H; try done; simpl in *.
  - simplify_eq. lia.
  - specialize (IH k H). lia.
Qed.

(** The bits. *)
Lemma test_set_bit i x : 0 <= i -> test_bit i (set_bit i x) = true.
Proof. intros. unfold test_bit, set_bit. cbn. by rewrite Z.lor_spec, Z.shiftl_spec, Z.sub_diag, orb_true_r by lia. Qed.

Lemma testbit_one i : Z.testbit 1 i = (i =? 0).
Proof.
  destruct (Z.eqb_spec i 0) as [->|Hi]; [done|]. destruct (Z_lt_dec i 0) as [?|?]; [by apply Z.testbit_neg_r|].
  apply Z.bits_above_log2; cbn; lia.
Qed.

Lemma test_set_bit_ne i j x : 0 <= j -> i <> j -> test_bit j (set_bit i x) = test_bit j x.
Proof.
  intros Hj Hn. unfold test_bit, set_bit. cbn. rewrite Z.lor_spec, Z.shiftl_spec, testbit_one by done.
  destruct (Z.eqb_spec (j - i) 0); [lia|]. apply orb_false_r.
Qed.

Lemma test_clear_bit i x : 0 <= i -> test_bit i (clear_bit i x) = false.
Proof. intros. unfold test_bit, clear_bit. cbn. rewrite Z.ldiff_spec, Z.shiftl_spec, Z.sub_diag by lia. apply andb_false_r. Qed.

Lemma test_clear_bit_ne i j x : 0 <= j -> i <> j -> test_bit j (clear_bit i x) = test_bit j x.
Proof.
  intros Hj Hn. unfold test_bit, clear_bit. cbn. rewrite Z.ldiff_spec, Z.shiftl_spec, testbit_one by done.
  destruct (Z.eqb_spec (j - i) 0); [lia|]. apply andb_true_r.
Qed.

(** A step of the bottom half of CPU [c], on tasklet [t] only. *)
Definition mine (c : nat) (o : option place) : Prop := forall pl, o = Some pl -> place_cpu pl = Some c.

Lemma inv_bh g s c p p' t ts' g' :
  inv g s -> cpus s !! c = Some p ->
  length ts' = length (tasklets s) -> (forall u, u <> t -> ts' !! u = tasklets s !! u) ->
  (forall u, u <> t -> own g' u = own g u /\ runner g' u = runner g u) ->
  (own g' t = own g t /\ same_next (tasklets s) ts' t) \/ (mine c (own g t) /\ mine c (own g' t) /\ is_Some (tasklets s !! t)) ->
  runner g' t = runner g t \/ (forall c', runner g t = Some c' \/ runner g' t = Some c' -> c' = c /\ is_Some (tasklets s !! t)) ->
  (forall k, own g t = Some (Caller k) -> runner g t = None -> runner g' t = None) ->
  (forall c', c' <> c -> bhown g' c' = bhown g c') ->
  (forall k, bhown g' c = Some (InCaller k) <-> bhown g c = Some (InCaller k)) ->
  cpu_ok ts' (held s) g' c p' ->
  (forall x', ts' !! t = Some x' -> exists x, tasklets s !! t = Some x /\ count x' = count x /\
    test_bit TASKLET_STATE_SCHED x' = isS (own g' t) /\ test_bit TASKLET_STATE_RUN x' = isS (runner g' t)) ->
  inv g' (Sys ts' (alter (fun _ => p') c (cpus s)) (calls s) (panic s) (held s) (soft s)).
Proof.
  intros Hi Hp L Hu Hg Ho Hr Hk Hb Hb' Hc Hx.
  assert (c < length (cpus s))%nat as Hlt by (by eapply lookup_lt_Some).
  assert (forall u pl, place_cpu pl <> Some c -> own g' u = Some pl <-> own g u = Some pl) as Hown.
  { intros u pl Hpl. destruct (decide (u = t)) as [->|Hn]; [|by rewrite (proj1 (Hg u Hn))].
    destruct Ho as [[-> _]|(M1 & M2 & _)]; [done|]. split; [intros ?%M2|intros ?%M1]; done. }
  eapply inv_change; [done|done|by cbn; rewrite length_alter|done|..]; cbn [tasklets cpus calls held soft].
  - intros c'. destruct (decide (c' = c)) as [->|Hne].
    + right. intros q. rewrite list_lookup_alter_eq, Hp. intros [= <-]. done.
    + left. split; [by apply list_lookup_alter_ne|]. split; [split|split; [|done]].
      * intros u pl Hpl. apply Hown. congruence.
      * intros u. destruct (decide (u = t)) as [->|Hn]; [|by rewrite (proj2 (Hg u Hn))].
        destruct Hr as [->|Hr]; [done|]. split; intros E; (destruct (Hr c'); [by auto|congruence]).
      * by apply Hb.
      * intros u pl E Hpl. destruct (decide (u = t)) as [->|Hn]; [|intros x Hx'; exists x; by rewrite Hu].
        destruct Ho as [[_ ?]|(M1 & _ & _)]; [done|]. apply M1 in E. congruence.
  - intros k. left. split; [done|]. split; [by intros u; apply Hown|]. split.
    + intros u E. destruct (decide (u = t)) as [->|Hn]; [by apply (Hk k)|by rewrite (proj2 (Hg u Hn))].
    + intros c'. destruct (decide (c' = c)) as [->|Hne]; [apply Hb'|by rewrite Hb].
  - intros u x Hux. destruct (decide (u = t)) as [->|Hn].
    + destruct (Hx x Hux) as (x0 & Hx0 & E1 & E2 & E3). destruct (inv_tasklet _ _ Hi t x0 Hx0). split; cbn; rewrite ?E1; done.
    + rewrite Hu in Hux by done. destruct (Hg u Hn) as [E1 E2].
      eapply tasklet_ok_frame; [by eapply inv_tasklet|done..| | |done|done|done]; by rewrite ?E1, ?E2.
  - intros u pl E. destruct (decide (u = t)) as [->|Hn]; [|left; by rewrite <- (proj1 (Hg u Hn))].
    destruct Ho as [[Ho _]|(_ & M2 & [x Hx'])]; [left; congruence|right]. split; [by eapply lookup_lt_Some|].
    apply M2 in E. destruct pl; cbn in *; simplify_eq; done.
  - intros u c' E. destruct (decide (u = t)) as [->|Hn]; [|left; by rewrite <- (proj2 (Hg u Hn))].
    destruct Hr as [Hr|Hr]; [left; congruence|right]. destruct (Hr c') as [-> [x Hx']]; [by auto|].
    split; [by eapply lookup_lt_Some|done].
  - intros c' k E. left. destruct (decide (c' = c)) as [->|Hn]; [by apply Hb'|by rewrite <- Hb].
Qed.

(** ** The steps of the bottom half *)

Lemma vec_set_bh hi b p : vec hi (set_bh b p) = vec hi p.
Proof. by destruct hi. Qed.

(** In [tasklet_action], with the same list. *)
Lemma cpu_ok_pc ts ts' h g g' c p nx pending i l pc pc' :
  cpu_ok ts h g c p -> bh p = Action nx pending i l pc ->
  (forall t pl, own g t = Some pl -> place_cpu pl = Some c -> same_next ts ts' t) ->
  (forall t pl, pl <> Hand c -> place_cpu pl = Some c -> own g' t = Some pl <-> own g t = Some pl) ->
  bhown g' c = bhown g c ->
  (forall t, hand pc' = Some t <-> own g' t = Some (Hand c)) ->
  (forall t, locked pc' = Some t <-> runner g' t = Some c) ->
  (forall t, executing pc' = Some t -> h t = 0) ->
  cpu_ok ts' h g' c (set_bh (Action nx pending i l pc') p).
Proof.
  intros [Hv Hl Hh Hk He Hw Hb] E Hn Ho Hbo H1 H2 H3. rewrite E in Hl. split; try done.
  - intros hi. eapply (holds_frame ts _ g); [rewrite vec_set_bh; apply Hv|intros t; by apply Ho|intros t Ht; by eapply Hn].
  - eapply (holds_frame ts _ g); [done|intros t; by apply Ho|intros t Ht; by eapply Hn].
  - intros hi. rewrite vec_set_bh. intros Hne%Hw. unfold will in *. by rewrite E in Hne.
  - rewrite Hbo. unfold bh_ok in *. cbn in *. by rewrite E in Hb.
Qed.

Lemma same_next_refl ts t : same_next ts ts t.
Proof. intros x H. by exists x. Qed.

Lemma same_next_alter ts f t u : (forall x, next (f x) = next x) -> same_next ts (alter f t ts) u.
Proof.
  intros Hf x Hx. destruct (decide (u = t)) as [->|Hn].
  - exists (f x). by rewrite list_lookup_alter_eq, Hx.
  - exists x. by rewrite list_lookup_alter_ne.
Qed.
#[local] Hint Resolve same_next_refl : core.

(** The tasklet that a bottom half has is one that exists. *)
Lemma hand_own g s c p t :
  inv g s -> cpus s !! c = Some p -> hand (pc_of (bh p)) = Some t ->
  own g t = Some (Hand c) /\ exists x, tasklets s !! t = Some x.
Proof.
  intros Hi Hp Ht. apply (ok_hand _ _ _ _ _ (inv_cpu _ _ Hi c p Hp)) in Ht. split; [done|].
  apply lookup_lt_is_Some_2. by eapply inv_own.
Qed.

Lemma locked_runner g s c p t :
  inv g s -> cpus s !! c = Some p -> locked (pc_of (bh p)) = Some t ->
  runner g t = Some c /\ exists x, tasklets s !! t = Some x.
Proof.
  intros Hi Hp Ht. apply (ok_locked _ _ _ _ _ (inv_cpu _ _ Hi c p Hp)) in Ht. split; [done|].
  apply lookup_lt_is_Some_2. by eapply inv_runner.
Qed.

Lemma on_cpu_eq f s c p :
  cpus s !! c = Some p ->
  on_cpu c f s = Sys (tasklets s) (alter (fun _ => f p) c (cpus s)) (calls s) (panic s) (held s) (soft s).
Proof. intros Hp. unfold on_cpu. f_equal. apply list_alter_ext; [|done]. intros q Hq. congruence. Qed.

(** A step that only moves the program counter. *)
Lemma inv_pc g s c p nx pending i l pc pc' :
  inv g s -> cpus s !! c = Some p -> bh p = Action nx pending i l pc ->
  hand pc' = hand pc -> locked pc' = locked pc -> (forall t, executing pc' = Some t -> held s t = 0) ->
  inv g (on_cpu c (set_bh (Action nx pending i l pc')) s).
Proof.
  intros Hi Hp E H1 H2 H3. pose proof (inv_cpu _ _ Hi c p Hp) as Hc.
  rewrite (on_cpu_eq _ _ _ _ Hp). eapply (inv_bh g s c p _ 0); try done; auto.
  - eapply cpu_ok_pc; try done.
    + intros t. rewrite H1. pose proof (ok_hand _ _ _ _ _ Hc t) as H. by rewrite E in H.
    + intros t. rewrite H2. pose proof (ok_locked _ _ _ _ _ Hc t) as H. by rewrite E in H.
  - intros x Hx. exists x. destruct (inv_tasklet _ _ Hi _ _ Hx). done.
Qed.

(** The RUN bit is cleared: after the function, and when the tasklet is disabled. *)
Lemma inv_unlock g s c p nx pending i l pc pc' t :
  inv g s -> cpus s !! c = Some p -> bh p = Action nx pending i l pc ->
  locked pc = Some t -> hand pc' = hand pc -> locked pc' = None -> executing pc' = None ->
  inv (set_runner t None g) (on_cpu c (set_bh (Action nx pending i l pc')) (on_tasklet t tasklet_unlock s)).
Proof.
  intros Hi Hp E H0 H1 H2 H3. pose proof (inv_cpu _ _ Hi c p Hp) as Hc.
  destruct (locked_runner g s c p t Hi Hp) as [Hr [x Hx]]; [by rewrite E|].
  assert (forall u, locked pc = Some u -> u = t) as Hu by congruence.
  rewrite (on_cpu_eq _ _ _ p) by done. eapply (inv_bh g s c p _ t); cbn [tasklets on_tasklet own runner bhown set_runner]; try done.
  - apply length_alter.
  - intros u Hn. by apply list_lookup_alter_ne.
  - intros u Hn. by rewrite fn_lookup_insert_ne.
  - left. split; [done|]. by apply same_next_alter.
  - right. intros c'. rewrite fn_lookup_insert. intros [?|?]; [|done]. split; [congruence|eauto].
  - intros. by rewrite fn_lookup_insert.
  - eapply cpu_ok_pc; try done; cbn [own runner bhown set_runner].
    + intros u pl _ _. by apply same_next_alter.
    + intros u. rewrite H1. pose proof (ok_hand _ _ _ _ _ Hc u) as H. by rewrite E in H.
    + intros u. rewrite H2. pose proof (ok_locked _ _ _ _ _ Hc u) as H. rewrite E in H. cbn in H.
      destruct (decide (u = t)) as [->|Hn]; [by rewrite fn_lookup_insert|]. rewrite fn_lookup_insert_ne by done.
      rewrite <- H. split; [done|]. by intros ?%Hu.
    + by rewrite H3.
  - intros x'. rewrite list_lookup_alter_eq, Hx. intros [= <-]. exists x. destruct (inv_tasklet _ _ Hi _ _ Hx) as [S R _ _ _ _].
    unfold tasklet_unlock. rewrite test_clear_bit, test_clear_bit_ne, fn_lookup_insert by done. done.
Qed.

(** The function is about to run: SCHED is cleared. *)
Lemma inv_run_function g s c p nx pending i l t :
  inv g s -> cpus s !! c = Some p -> bh p = Action nx pending i l (Clear t) ->
  inv (set_own t None g)
    (on_cpu c (set_bh (Action nx pending i l (Running t))) (on_tasklet t (clear_bit TASKLET_STATE_SCHED) s)).
Proof.
  intros Hi Hp E. pose proof (inv_cpu _ _ Hi c p Hp) as Hc.
  destruct (hand_own g s c p t Hi Hp) as [Ho [x Hx]]; [by rewrite E|].
  assert (forall u, Some t = Some u -> u = t) as Hu by congruence.
  rewrite (on_cpu_eq _ _ _ p) by done. eapply (inv_bh g s c p _ t); cbn [tasklets on_tasklet own runner bhown set_own on_own]; try done.
  - apply length_alter.
  - intros u Hn. by apply list_lookup_alter_ne.
  - intros u Hn. by rewrite fn_lookup_insert_ne.
  - right. rewrite fn_lookup_insert. split; [|split; [done|eauto]]. intros pl E'. rewrite Ho in E'. by injection E' as <-.
  - by left.
  - eapply cpu_ok_pc; try done; cbn [own runner bhown set_own on_own].
    + intros u pl _ _. by apply same_next_alter.
    + intros u pl Hne Hpl. destruct (decide (u = t)) as [->|Hn]; [|by rewrite fn_lookup_insert_ne].
      rewrite fn_lookup_insert, Ho. split; [done|congruence].
    + intros u. pose proof (ok_hand _ _ _ _ _ Hc u) as H. rewrite E in H. cbn in *.
      destruct (decide (u = t)) as [->|Hn]; [by rewrite fn_lookup_insert|]. rewrite fn_lookup_insert_ne by done.
      rewrite <- H. split; [done|]. by intros ?%Hu.
    + intros u. pose proof (ok_locked _ _ _ _ _ Hc u) as H. by rewrite E in H.
    + intros u. pose proof (ok_held _ _ _ _ _ Hc u) as H. by rewrite E in H.
  - intros x'. rewrite list_lookup_alter_eq, Hx. intros [= <-]. exists x. destruct (inv_tasklet _ _ Hi _ _ Hx) as [S R _ _ _ _].
    rewrite test_clear_bit, test_clear_bit_ne, fn_lookup_insert by done. done.
Qed.

(** [tasklet_action] takes the next tasklet of its list. *)
Lemma inv_take g s c p nx pending i t x :
  inv g s -> cpus s !! c = Some p -> bh p = Action nx pending i (Some t) Next -> tasklets s !! t = Some x ->
  let free := negb (test_bit TASKLET_STATE_RUN x) in
  own g t = Some (Private c) /\
  inv (set_own t (Some (Hand c)) (if free then set_runner t (Some c) g else g))
    (on_cpu c (set_bh (Action nx pending i (next x) (if free then Locked t else Requeue t)))
      (on_tasklet t (fun _ => set_bit TASKLET_STATE_RUN x) s)).
Proof.
  intros Hi Hp E Hx free. pose proof (inv_cpu _ _ Hi c p Hp) as Hc.
  destruct (inv_tasklet _ _ Hi _ _ Hx) as [S R _ _ _ _].
  pose proof (ok_list _ _ _ _ _ Hc) as Hl. rewrite E in Hl. cbn in Hl.
  destruct (holds_pop _ _ _ _ _ (Some (Hand c)) Hl Hx) as [Ho Hl']; [done|]. split; [done|].
  assert (runner g t = None <-> free = true) as Hf.
  { subst free. rewrite R. by destruct (runner g t). }
  assert (forall u, u <> t -> runner (set_own t (Some (Hand c)) (if free then set_runner t (Some c) g else g)) u = runner g u) as Hru.
  { intros u Hn. cbn. destruct free; cbn; [by rewrite fn_lookup_insert_ne|done]. }
  assert (runner (set_own t (Some (Hand c)) (if free then set_runner t (Some c) g else g)) t = if free then Some c else runner g t) as Hrt.
  { cbn. destruct free; cbn; [by rewrite fn_lookup_insert|done]. }
  assert (forall u, own (set_own t (Some (Hand c)) (if free then set_runner t (Some c) g else g)) u =
    own (set_own t (Some (Hand c)) g) u) as Hou by (intros; by destruct free).
  rewrite (on_cpu_eq _ _ _ p) by done.
  eapply (inv_bh g s c p _ t); cbn [tasklets on_tasklet]; try done.
  - apply length_alter.
  - intros u Hn. by apply list_lookup_alter_ne.
  - intros u Hn. split; [|by apply Hru]. rewrite Hou. cbn. by rewrite fn_lookup_insert_ne.
  - right. rewrite Hou. cbn. rewrite fn_lookup_insert. split; [|split; [|eauto]]; intros pl E'; [rewrite Ho in E'|]; by injection E' as <-.
  - rewrite Hrt. destruct free eqn:F; [right|by left]. intros c' [E'|E']; [|split; [congruence|eauto]].
    rewrite (proj2 Hf eq_refl) in E'. done.
  - congruence.
  - by destruct free.
  - by destruct free.
  - assert (forall u, same_next (tasklets s) (alter (fun _ => set_bit TASKLET_STATE_RUN x) t (tasklets s)) u) as Hsn.
    { intros u y Hy. destruct (decide (u = t)) as [->|Hn].
      - exists (set_bit TASKLET_STATE_RUN x). rewrite list_lookup_alter_eq, Hx. split; [done|]. cbn. congruence.
      - exists y. by rewrite list_lookup_alter_ne. }
    split.
    + intros hi. rewrite vec_set_bh. eapply holds_frame; [apply (ok_vec _ _ _ _ _ Hc hi)| |done].
      intros u. rewrite Hou. cbn. destruct (decide (u = t)) as [->|Hn]; [|by rewrite fn_lookup_insert_ne].
      rewrite fn_lookup_insert, Ho. done.
    + cbn. eapply holds_frame; [exact Hl'| |done]. intros u. by rewrite Hou.
    + intros u. pose proof (ok_hand _ _ _ _ _ Hc u) as H. rewrite E in H. cbn in H. rewrite Hou. cbn.
      transitivity (Some t = Some u); [by destruct free|].
      destruct (decide (u = t)) as [->|Hn]; [by rewrite fn_lookup_insert|]. rewrite fn_lookup_insert_ne by done. rewrite <- H.
      split; congruence.
    + intros u. pose proof (ok_locked _ _ _ _ _ Hc u) as H. rewrite E in H. cbn in H. cbn [bh pc_of set_bh].
      destruct (decide (u = t)) as [->|Hn].
      * rewrite Hrt. destruct free eqn:F; cbn; [done|]. split; [done|]. intros ?%H. done.
      * rewrite Hru by done. rewrite <- H. destruct free; cbn; split; congruence.
    + intros u. cbn. by destruct free.
    + intros hi. rewrite vec_set_bh. intros Hne%(ok_will _ _ _ _ _ Hc). unfold will in *. by rewrite E in Hne.
    + pose proof (ok_bh _ _ _ _ _ Hc) as Hb. replace (bhown _ c) with (bhown g c) by (by destruct free).
      unfold bh_ok in *. cbn in *. by rewrite E in Hb.
  - intros x'. rewrite list_lookup_alter_eq, Hx. intros [= <-]. exists x. rewrite test_set_bit, test_set_bit_ne by done.
    rewrite Hrt, Hou. cbn [own set_own on_own]. rewrite fn_lookup_insert, S, Ho. split_and!; try done.
    destruct free eqn:F; [done|]. destruct (runner g t); [done|]. by apply proj1 in Hf; specialize (Hf eq_refl).
Qed.

(** ** Raising a softirq *)

Definition raised (c : nat) (p : pcpu) (g : ghost) : ghost :=
  if softirq_pending p =? 0 then set_bhown c (Some InList) g else g.

Lemma raised_own c p g : own (raised c p g) = own g.
Proof. unfold raised. by case_match. Qed.
Lemma raised_runner c p g : runner (raised c p g) = runner g.
Proof. unfold raised. by case_match. Qed.
Lemma raised_bhown c p g : bhown (raised c p g) c = if softirq_pending p =? 0 then Some InList else bhown g c.
Proof. unfold raised. case_match; [|done]. cbn. by rewrite fn_lookup_insert. Qed.
Lemma raised_bhown_ne c c' p g : c' <> c -> bhown (raised c p g) c' = bhown g c'.
Proof. intros. unfold raised. case_match; [|done]. cbn. by rewrite fn_lookup_insert_ne. Qed.

Lemma raise_vec nr c p hi : vec hi (raise_softirq_irqoff nr c p) = vec hi p.
Proof. unfold raise_softirq_irqoff, __raise_softirq_irqoff. cbn. destruct hi; by case_match. Qed.
Lemma raise_bh nr c p : bh (raise_softirq_irqoff nr c p) = bh p.
Proof. unfold raise_softirq_irqoff, __raise_softirq_irqoff. cbn. by case_match. Qed.
Lemma raise_pending nr c p : softirq_pending (raise_softirq_irqoff nr c p) = Z.lor (softirq_pending p) (Z.shiftl 1 nr).
Proof. unfold raise_softirq_irqoff, __raise_softirq_irqoff. cbn. by case_match. Qed.

Lemma testbit_raised x nr i : 0 <= i -> Z.testbit (Z.lor x (Z.shiftl 1 nr)) i = Z.testbit x i || (i =? nr).
Proof. intros. rewrite Z.lor_spec, Z.shiftl_spec, testbit_one by done. f_equal. apply eq_true_iff_eq. rewrite !Z.eqb_eq. lia. Qed.

Lemma raised_nonzero x nr : 0 <= x -> 0 <= nr -> Z.lor x (Z.shiftl 1 nr) <> 0 /\ 0 <= Z.lor x (Z.shiftl 1 nr).
Proof.
  intros Hx Hn. split.
  - intros E. pose proof (testbit_raised x nr nr Hn) as H. rewrite E, Z.bits_0, Z.eqb_refl, orb_true_r in H. done.
  - apply Z.lor_nonneg. split; [done|]. by apply Z.shiftl_nonneg.
Qed.

Lemma raise_bh_ok nr c p o :
  0 <= nr -> bh_ok o c p ->
  bh_ok (if softirq_pending p =? 0 then Some InList else o) c (raise_softirq_irqoff nr c p).
Proof.
  intros Hnr (H1 & H2 & H3 & H4 & H5 & H6 & H7). destruct (raised_nonzero _ _ H7 Hnr) as [N0 N1].
  unfold raise_softirq_irqoff, __raise_softirq_irqoff. cbn. destruct (Z.eqb_spec (softirq_pending p) 0) as [E|E].
  - apply H6 in E as ->. unfold bh_ok. cbn. split_and!; try done.
    split; [done|]. by intros H%H3.
  - unfold bh_ok. cbn. split_and!; try done. split; [done|]. intros ->. tauto.
Qed.

Lemma raise_will nr c p i : 0 <= i -> i = nr \/ will i p -> will i (raise_softirq_irqoff nr c p).
Proof.
  intros Hi H. unfold will in *. rewrite raise_pending, raise_bh, testbit_raised by done.
  destruct H as [->|[->|?]]; [rewrite Z.eqb_refl, orb_true_r|..]; auto.
Qed.

(** A tasklet is put into a vector, whose softirq is raised. *)
Definition link (hi : bool) (t c : nat) (p : pcpu) : pcpu :=
  raise_softirq_irqoff (vec_softirq hi) c (set_vec hi (Some t) p).

Definition linked (hi : bool) (t c : nat) (p : pcpu) (g : ghost) : ghost :=
  set_own t (Some (Vec c hi)) (raised c p g).

Lemma set_vec_bh_ok o c hi l p : bh_ok o c (set_vec hi l p) <-> bh_ok o c p.
Proof. by destruct hi. Qed.
Lemma set_vec_will i hi l p : will i (set_vec hi l p) <-> will i p.
Proof. by destruct hi. Qed.
Lemma set_vec_bh hi l p : bh (set_vec hi l p) = bh p.
Proof. by destruct hi. Qed.
Lemma set_vec_pending hi l p : softirq_pending (set_vec hi l p) = softirq_pending p.
Proof. by destruct hi. Qed.
Lemma vec_set_vec hi l p : vec hi (set_vec hi l p) = l.
Proof. by destruct hi. Qed.
Lemma vec_set_vec_ne hi hi' l p : hi' <> hi -> vec hi' (set_vec hi l p) = vec hi' p.
Proof. by destruct hi, hi'. Qed.
Lemma vec_softirq_nonneg hi : 0 <= vec_softirq hi.
Proof. by destruct hi. Qed.

Lemma link_cpu ts h g c p hi t x :
  cpu_ok ts h g c p -> ts !! t = Some x ->
  (forall pl, own g t = Some pl -> place_cpu pl = Some c -> pl = Hand c) ->
  hand (pc_of (bh p)) <> Some t ->
  cpu_ok (alter (set_next (vec hi p)) t ts) h (linked hi t c p g) c (link hi t c p).
Proof.
  intros [Hv Hl Hh Hk He Hw Hb] Hx Ho Hne.
  assert (forall pl, pl <> Hand c -> place_cpu pl = Some c -> own g t <> Some pl) as Hpl by (intros pl N P E; destruct N; by apply Ho).
  assert (alter (set_next (vec hi p)) t ts = <[t := set_next (vec hi p) x]> ts) as Ealt.
  { apply list_eq. intros u. destruct (decide (u = t)) as [->|Hn].
    - rewrite list_lookup_alter_eq, Hx, list_lookup_insert_eq; [done|by eapply lookup_lt_Some].
    - by rewrite list_lookup_alter_ne, list_lookup_insert_ne. }
  assert (forall u pl, own g u = Some pl -> pl <> Hand c -> place_cpu pl = Some c -> same_next ts (alter (set_next (vec hi p)) t ts) u) as Hsn.
  { intros u pl E N P y Hy. exists y. rewrite list_lookup_alter_ne; [done|]. intros ->. by apply (Hpl pl). }
  assert (forall u, u <> t -> own (linked hi t c p g) u = own g u) as Hou.
  { intros u Hn. cbn. by rewrite fn_lookup_insert_ne, raised_own. }
  assert (own (linked hi t c p g) t = Some (Vec c hi)) as Hot by (cbn; by rewrite fn_lookup_insert).
  assert (forall pl, pl <> Hand c -> pl <> Vec c hi -> place_cpu pl = Some c -> forall u, own (linked hi t c p g) u = Some pl <-> own g u = Some pl) as Hsame.
  { intros pl N1 N2 P u. destruct (decide (u = t)) as [->|Hn]; [|by rewrite Hou]. rewrite Hot. pose proof (Hpl pl N1 P). naive_solver. }
  unfold link. split; rewrite ?raise_vec, ?raise_bh, ?set_vec_bh; try done.
  - intros hi'. rewrite raise_vec. destruct (decide (hi' = hi)) as [->|Hn].
    + rewrite vec_set_vec, Ealt. unfold linked. destruct (holds_push ts (raised c p g) (vec hi p) (Vec c hi) t x) as (l & ? & ? & ?); try done.
      * eapply holds_frame; [apply Hv| |done]. intros u. by rewrite raised_own.
      * rewrite raised_own. by apply Hpl.
      * by exists l.
    + rewrite vec_set_vec_ne by done. eapply holds_frame; [apply Hv|apply Hsame; [done|congruence|done]|]. intros u Hu. by eapply Hsn.
  - eapply holds_frame; [apply Hl|by apply Hsame|]. intros u Hu. by eapply Hsn.
  - intros u. destruct (decide (u = t)) as [->|Hn]; [rewrite Hot; done|by rewrite Hou].
  - intros u. cbn. by rewrite raised_runner.
  - intros hi'. rewrite raise_vec. intros Hne'. apply raise_will; [apply vec_softirq_nonneg|].
    destruct (decide (hi' = hi)) as [->|Hn]; [by left|right]. rewrite vec_set_vec_ne in Hne' by done. apply set_vec_will. by apply Hw.
  - cbn [bhown linked set_own on_own]. rewrite raised_bhown. rewrite <- (set_vec_pending hi (Some t) p).
    apply raise_bh_ok; [apply vec_softirq_nonneg|]. by apply set_vec_bh_ok.
Qed.

(** [__tasklet_schedule] from [tasklet_action]. *)
Lemma inv_requeue g s c p nx pending i l t x hi :
  inv g s -> cpus s !! c = Some p -> bh p = Action nx pending i l (Requeue t) -> tasklets s !! t = Some x ->
  inv (linked hi t c (set_bh (Action nx pending i l Next) p) (set_own t None g))
    (on_cpu c (set_bh (Action nx pending i l Next))
      (on_cpu c (link hi t c) (on_tasklet t (set_next (vec hi p)) s))).
Proof.
  intros Hi Hp E Hx. pose proof (inv_cpu _ _ Hi c p Hp) as Hc.
  set (p1 := set_bh (Action nx pending i l Next) p). set (g1 := set_own t None g).
  destruct (hand_own g s c p t Hi Hp) as [Ho _]; [by rewrite E|].
  assert (cpu_ok (tasklets s) (held s) g1 c p1) as Hc1.
  { eapply cpu_ok_pc; try done.
    - intros u pl N P. cbn. destruct (decide (u = t)) as [->|Hn]; [|by rewrite fn_lookup_insert_ne].
      rewrite fn_lookup_insert, Ho. split; [done|congruence].
    - intros u. pose proof (ok_hand _ _ _ _ _ Hc u) as H. rewrite E in H. cbn in *.
      destruct (decide (u = t)) as [->|Hn]; [by rewrite fn_lookup_insert|]. rewrite fn_lookup_insert_ne by done.
      rewrite <- H. split; [done|congruence].
    - intros u. pose proof (ok_locked _ _ _ _ _ Hc u) as H. by rewrite E in H. }
  assert (set_bh (Action nx pending i l Next) (link hi t c p) = link hi t c p1) as El.
  { unfold link, raise_softirq_irqoff, __raise_softirq_irqoff, p1. destruct hi; cbn; by case_match. }
  assert (on_cpu c (set_bh (Action nx pending i l Next)) (on_cpu c (link hi t c) (on_tasklet t (set_next (vec hi p)) s)) =
    Sys (alter (set_next (vec hi p1)) t (tasklets s)) (alter (fun _ => link hi t c p1) c (cpus s)) (calls s) (panic s) (held s) (soft s)) as ->.
  { unfold on_cpu, on_tasklet. cbn [tasklets cpus calls panic held soft]. unfold p1. rewrite vec_set_bh. f_equal.
    rewrite list_alter_alter_eq. apply list_alter_ext; [|done]. intros q Hq.
    assert (q = p) as -> by congruence. exact El. }
  assert (forall u, own (linked hi t c p1 g1) u = <[t := Some (Vec c hi)]> (own g) u) as Hown.
  { intros u. cbn. rewrite raised_own. cbn. destruct (decide (u = t)) as [->|Hn];
      [by rewrite !fn_lookup_insert|by rewrite !fn_lookup_insert_ne]. }
  assert (forall u, runner (linked hi t c p1 g1) u = runner g u) as Hrun by (intros u; cbn; by rewrite raised_runner).
  eapply (inv_bh g s c p _ t); try done.
  - apply length_alter.
  - intros u Hn. by apply list_lookup_alter_ne.
  - intros u Hn. rewrite Hown, Hrun. by rewrite fn_lookup_insert_ne.
  - right. rewrite Hown, fn_lookup_insert. split; [|split; [|eauto]]; intros pl E'; [rewrite Ho in E'|]; by injection E' as <-.
  - left. by rewrite Hrun.
  - intros k E'. congruence.
  - intros c' Hn. cbn. by rewrite raised_bhown_ne.
  - intros k. cbn. rewrite raised_bhown. case_match eqn:Hpe; [|done]. apply Z.eqb_eq in Hpe. cbn in Hpe.
    pose proof (ok_bh _ _ _ _ _ Hc) as (_ & _ & _ & _ & _ & Hz & _). apply Hz in Hpe as ->. done.
  - apply (link_cpu _ _ _ _ _ _ _ x); [done|done| |done]. intros pl. unfold g1. cbn. by rewrite fn_lookup_insert.
  - intros x'. rewrite list_lookup_alter_eq, Hx. intros [= <-]. exists x. destruct (inv_tasklet _ _ Hi _ _ Hx) as [S R _ _ _ _].
    rewrite Hown, Hrun, fn_lookup_insert. change (test_bit ?a (set_next ?b ?d)) with (test_bit a d). by rewrite S, R, Ho.
Qed.

(** ** The rest of the bottom half *)

(** Outside [tasklet_action]. *)
Definition no_action (b : bh_pc) : Prop := list_of b = None /\ pc_of b = Next.

Lemma inv_handler g s c p p' o :
  inv g s -> cpus s !! c = Some p -> no_action (bh p) -> no_action (bh p') ->
  (forall hi, vec hi p' = vec hi p) ->
  (forall hi, will (vec_softirq hi) p -> will (vec_softirq hi) p') ->
  (forall k, o = Some (InCaller k) <-> bhown g c = Some (InCaller k)) ->
  bh_ok o c p' ->
  inv (set_bhown c o g) (on_cpu c (fun _ => p') s).
Proof.
  intros Hi Hp [N1 N2] [N3 N4] Hv Hw Ho Hb. pose proof (inv_cpu _ _ Hi c p Hp) as [Cv Cl Ch Ck Ce Cw _].
  rewrite N1 in Cl. rewrite N2 in Ch, Ck, Ce.
  eapply (inv_bh g s c p _ 0); cbn [own runner bhown set_bhown]; try done; auto.
  - intros c' Hn. by rewrite fn_lookup_insert_ne.
  - intros k. by rewrite fn_lookup_insert.
  - split; cbn [own runner bhown set_bhown]; rewrite ?N3, ?N4; try done.
    + intros hi. rewrite Hv. eapply holds_frame; [apply Cv|done..].
    + intros hi. rewrite Hv. intros ?%Cw. by apply Hw.
    + by rewrite fn_lookup_insert.
  - intros x Hx. exists x. destruct (inv_tasklet _ _ Hi _ _ Hx). done.
Qed.

(** The same when nothing happens to the data of the bottom half. *)
Lemma inv_handler_pc g s c p b :
  inv g s -> cpus s !! c = Some p -> no_action (bh p) -> no_action b ->
  (forall hi, will (vec_softirq hi) p -> will (vec_softirq hi) (set_bh b p)) ->
  bh_ok (bhown g c) c (set_bh b p) ->
  inv g (on_cpu c (set_bh b) s).
Proof.
  intros Hi Hp N1 N2 Hw Hb. pose proof (inv_handler g s c p (set_bh b p) (bhown g c) Hi Hp N1 N2) as H.
  rewrite (on_cpu_eq _ _ _ _ Hp). cbn [on_cpu] in H. unfold on_cpu in H.
  assert (inv (set_bhown c (bhown g c) g) (Sys (tasklets s) (alter (fun _ => set_bh b p) c (cpus s)) (calls s) (panic s) (held s) (soft s))) as Hi'
    by (apply H; try done; intros hi; apply vec_set_bh).
  clear -Hi'. destruct Hi' as [A B C D E F]. split; try done.
  - intros c' q Hq. eapply cpu_ok_frame; [by eapply A| |done..]. split; try done. cbn.
    destruct (decide (c' = c)) as [->|Hn]; [by rewrite fn_lookup_insert|by rewrite fn_lookup_insert_ne].
  - intros k a Ha. destruct (B k a Ha) as [B1 B2 B3 B4]. split; try done. intros c'. rewrite B3. cbn.
    destruct (decide (c' = c)) as [->|Hn]; [by rewrite fn_lookup_insert|by rewrite fn_lookup_insert_ne].
  - intros t x Ht. destruct (C t x Ht). by split.
  - intros c' k Hk. apply (F c'). cbn. destruct (decide (c' = c)) as [->|Hn]; [by rewrite fn_lookup_insert|by rewrite fn_lookup_insert_ne].
Qed.

(** Leaving [tasklet_action]. *)
Lemma inv_action_end g s c p nx pending i :
  inv g s -> cpus s !! c = Some p -> bh p = Action nx pending i None Next ->
  inv g (on_cpu c (set_bh (Softirq nx pending (i + 1))) s).
Proof.
  intros Hi Hp E. pose proof (ok_bh _ _ _ _ _ (inv_cpu _ _ Hi c p Hp)) as (H1 & H2 & H3 & H4 & H5 & H6 & H7).
  rewrite E in H3, H5. destruct H5 as [-> [hi Hhi]].
  eapply inv_handler_pc; try done; [by rewrite E| |].
  - intros hi'. unfold will. rewrite E. cbn. intros [?|[? ?]]; [by left|right]. split; [done|lia].
  - unfold bh_ok. cbn. split_and!; try done. unfold softirq_action in Hhi. unfold HI_SOFTIRQ, TASKLET_SOFTIRQ in *. repeat case_test; lia || done.
Qed.

(** A softirq that is not pending or not one of tasklets. *)
Lemma inv_softirq_skip g s c p nx pending i :
  inv g s -> cpus s !! c = Some p -> bh p = Softirq nx pending i ->
  (forall hi, i = vec_softirq hi -> Z.testbit pending i = false) ->
  inv g (on_cpu c (set_bh (Softirq nx pending (i + 1))) s).
Proof.
  intros Hi Hp E Hs. pose proof (ok_bh _ _ _ _ _ (inv_cpu _ _ Hi c p Hp)) as (H1 & H2 & H3 & H4 & H5 & H6 & H7).
  rewrite E in H3, H5. eapply inv_handler_pc; try done; [by rewrite E| |].
  - intros hi. unfold will. rewrite E. cbn. intros [?|[Hbit Hle]]; [by left|right]. split; [done|].
    destruct (decide (i = vec_softirq hi)) as [->|?]; [|lia]. by rewrite (Hs hi) in Hbit.
  - unfold bh_ok. cbn. split_and!; try done; lia || tauto.
Qed.

Lemma inv_softirq_end g s c p nx pending i :
  inv g s -> cpus s !! c = Some p -> bh p = Softirq nx pending i -> MAX_SOFTIRQ <= i ->
  inv g (on_cpu c (set_bh (Loop nx)) s).
Proof.
  intros Hi Hp E Hs. pose proof (ok_bh _ _ _ _ _ (inv_cpu _ _ Hi c p Hp)) as (H1 & H2 & H3 & H4 & H5 & H6 & H7).
  rewrite E in H3, H5. destruct H5 as [-> _]. eapply inv_handler_pc; try done; [by rewrite E| |].
  - intros hi. unfold will. rewrite E. cbn. intros [?|[Hbit Hle]]; [by left|]. unfold MAX_SOFTIRQ in Hs. destruct hi; cbn in Hle; unfold HI_SOFTIRQ, TASKLET_SOFTIRQ in Hle; lia.
  - unfold bh_ok. cbn. split_and!; try done. by left.
Qed.

Lemma inv_bh_start g s c p :
  inv g s -> cpus s !! c = Some p -> bh p = Off ->
  inv (set_bhown c (if bhown g c is Some InList then Some InHandler else bhown g c) g)
    (on_cpu c (set_bh (Loop (linuxBHList p)) ∘ set_BHList None (bh_next p) false) s).
Proof.
  intros Hi Hp E. pose proof (ok_bh _ _ _ _ _ (inv_cpu _ _ Hi c p Hp)) as (H1 & H2 & H3 & H4 & H5 & H6 & H7).
  rewrite E in H3. rewrite (on_cpu_eq _ _ _ _ Hp).
  eapply (inv_handler g s c p (set_bh (Loop (linuxBHList p)) (set_BHList None (bh_next p) false p))); try done; [by rewrite E|..].
  - intros hi. unfold will. rewrite E. cbn. intros [?|[]]. by left.
  - intros k. by destruct (bhown g c) as [[]|].
  - unfold bh_ok. cbn. rewrite H1. destruct (bhown g c) as [[| |k]|] eqn:Eo; cbn.
    + destruct (H2 eq_refl) as [Hn _]. split_and!; try done; [by right|].
      split; [|done]. intros H. by apply H6 in H.
    + exfalso. by apply H3.
    + split_and!; try done. by left.
    + split_and!; try done. by left.
Qed.

Lemma inv_loop_end g s c p :
  inv g s -> cpus s !! c = Some p -> bh p = Loop None -> inv g (on_cpu c (set_bh Off) s).
Proof.
  intros Hi Hp E. pose proof (ok_bh _ _ _ _ _ (inv_cpu _ _ Hi c p Hp)) as (H1 & H2 & H3 & H4 & H5 & H6 & H7).
  rewrite E in H3. eapply inv_handler_pc; try done; [by rewrite E|].
  intros hi. unfold will. rewrite E. cbn. intros [?|[]]. by left.
Qed.

Lemma inv_loop g s c p d :
  inv g s -> cpus s !! c = Some p -> bh p = Loop (Some d) ->
  d = c /\ bh_next p = None /\ inv g (on_cpu c (set_bh (Call None)) s).
Proof.
  intros Hi Hp E. pose proof (ok_bh _ _ _ _ _ (inv_cpu _ _ Hi c p Hp)) as (H1 & H2 & H3 & H4 & H5 & H6 & H7).
  rewrite E in H3, H5. destruct H5 as [?|[= ->]]; [done|]. split; [done|]. split; [by apply H4, H3|].
  eapply inv_handler_pc; try done; [by rewrite E|].
  intros hi. unfold will. rewrite E. cbn. intros [?|[]]. by left.
Qed.

Lemma inv_call g s c p nx :
  inv g s -> cpus s !! c = Some p -> bh p = Call nx ->
  inv (set_bhown c None g) (on_cpu c (fun _ => set_bh (Softirq nx (softirq_pending p) 0) (set_softirq_pending 0 p)) s).
Proof.
  intros Hi Hp E. pose proof (ok_bh _ _ _ _ _ (inv_cpu _ _ Hi c p Hp)) as (H1 & H2 & H3 & H4 & H5 & H6 & H7).
  rewrite E in H3, H5. assert (bhown g c = Some InHandler) as Ho by (by apply H3).
  eapply inv_handler; try done; [by rewrite E|..].
  - intros hi. unfold will. rewrite E. cbn. intros [?|[]]. right. split; [done|apply vec_softirq_nonneg].
  - intros k. by rewrite Ho.
  - unfold bh_ok. cbn. rewrite H1, Ho. done.
Qed.

(** [tasklet_action] takes the list of the vector. *)
Lemma inv_detach g s c p nx pending i hi :
  inv g s -> cpus s !! c = Some p -> bh p = Softirq nx pending i -> softirq_action i = Some hi ->
  inv (on_own (move (Vec c hi) (Private c)) g)
    (on_cpu c (set_bh (Action nx pending i (vec hi p) Next) ∘ set_vec hi None) s).
Proof.
  intros Hi Hp E Hhi. pose proof (inv_cpu _ _ Hi c p Hp) as [Cv Cl Ch Ck Ce Cw Cb].
  assert (i = vec_softirq hi) as Ei.
  { unfold softirq_action in Hhi. repeat case_test; simplify_eq; done. }
  rewrite E in Cl, Ch, Ck, Ce. cbn in Cl, Ch, Ck, Ce.
  pose proof (proj1 (holds_nil _ _ _) Cl) as Hnone.
  assert (forall t pl, pl <> Vec c hi -> pl <> Private c -> move (Vec c hi) (Private c) (own g) t = Some pl <-> own g t = Some pl) as Hmv.
  { intros t pl N1 N2. rewrite move_Some. naive_solver. }
  rewrite (on_cpu_eq _ _ _ _ Hp). cbn [compose].
  eapply inv_change; [done|done|by cbn; rewrite length_alter|done|..]; cbn [tasklets cpus calls held soft].
  - intros c'. destruct (decide (c' = c)) as [->|Hne].
    + right. intros q. rewrite list_lookup_alter_eq, Hp. intros [= <-]. split; cbn [bh set_bh list_of pc_of own runner bhown on_own hand locked executing].
      * intros hi'. rewrite vec_set_bh. destruct (decide (hi' = hi)) as [->|Hn].
        -- rewrite vec_set_vec. apply holds_nil. intros t. cbn. rewrite move_Some. naive_solver.
        -- rewrite vec_set_vec_ne by done. eapply holds_frame; [apply Cv| |done]. intros t. apply Hmv; congruence.
      * by apply holds_move.
      * intros t. rewrite Hmv by done. by rewrite Ch.
      * done.
      * done.
      * intros hi'. rewrite vec_set_bh. destruct (decide (hi' = hi)) as [->|Hn]; [by rewrite vec_set_vec|].
        rewrite vec_set_vec_ne by done. intros Hw%Cw. unfold will in *. cbn. rewrite E in Hw. rewrite set_vec_pending.
        destruct Hw as [?|[? Hle]]; [by left|right]. split; [done|]. subst i. destruct hi, hi'; try done; cbn in *; unfold HI_SOFTIRQ, TASKLET_SOFTIRQ in *; lia.
      * unfold bh_ok in *. rewrite E in Cb. destruct Cb as (H1 & H2 & H3 & H4 & H5 & H6 & H7). destruct hi; cbn; split_and!; try tauto; try apply H5; eauto.
    + left. split; [by apply list_lookup_alter_ne|]. split; [split|split; [|done]]; cbn; try done.
      intros t pl Hpl. apply Hmv; intros ->; cbn in Hpl; congruence.
  - intros k. left. split; [done|]. split; [|done]. intros t. cbn. by apply Hmv.
  - intros t x Hx. eapply tasklet_ok_frame; [by eapply inv_tasklet|try done..]. cbn. unfold move. by case_decide as D; [rewrite D|].
  - intros t pl. cbn. rewrite move_Some. intros [[E1 ->]|[_ ?]]; [right|by left]. by apply (inv_own g s Hi) in E1.
  - by left.
  - by left.
Qed.

Lemma vec_softirq_action i hi : softirq_action i = Some hi <-> i = vec_softirq hi.
Proof.
  unfold softirq_action, vec_softirq, HI_SOFTIRQ, TASKLET_SOFTIRQ. split.
  - repeat case_test; intros; simplify_eq; done.
  - intros ->. by destruct hi.
Qed.

Lemma land_bit x i : 0 <= i -> (Z.land x (Z.shiftl 1 i) =? 0) = negb (Z.testbit x i).
Proof.
  intros Hi. rewrite Z.shiftl_1_l. apply eq_true_iff_eq. rewrite Z.eqb_eq, negb_true_iff. split.
  - intros H. assert (Z.testbit (Z.land x (2 ^ i)) i = false) as E by (by rewrite H, Z.bits_0).
    by rewrite Z.land_spec, Z.pow2_bits_true, andb_true_r in E.
  - intros H. apply Z.bits_inj'. intros j Hj. rewrite Z.land_spec, Z.bits_0.
    destruct (Z.eq_dec j i) as [->|Hn]; [by rewrite H|]. rewrite Z.pow2_bits_false by lia. apply andb_false_r.
Qed.

(** Every step of [tasklet_action] keeps the invariant, and none fails. *)
Lemma action_step_inv g s c p nx pending i l pc hi :
  inv g s -> cpus s !! c = Some p -> bh p = Action nx pending i l pc -> softirq_action i = Some hi ->
  exists s' g', action_step c hi l pc (Action nx pending i) (Softirq nx pending (i + 1)) s = Some s' /\ inv g' s'.
Proof.
  intros Hi Hp E Hhi. pose proof (inv_cpu _ _ Hi c p Hp) as Hc. destruct pc as [|t|t|t|t|t|t]; cbn -[test_bit].
  - destruct l as [t|]; [|eexists _, g; split; [done|by eapply inv_action_end]].
    pose proof (ok_list _ _ _ _ _ Hc) as (l & Hl & _ & _). rewrite E in Hl. inversion Hl as [|? x ? Hx _]. subst.
    rewrite Hx. cbn -[test_bit]. destruct (inv_take g s c p nx pending i t x) as [_ Hi']; try done. eauto.
  - destruct (hand_own g s c p t Hi Hp) as [Ho [x Hx]]; [by rewrite E|]. rewrite Hx. cbn -[test_bit]. eexists _, g. split; [done|].
    eapply (inv_pc _ _ _ p); try done; try (by case_match). intros u. destruct (Z.eqb_spec (count x) 0) as [E0|]; [|done].
    cbn. intros [= <-]. destruct (inv_tasklet _ _ Hi t x Hx). lia.
  - destruct (hand_own g s c p t Hi Hp) as [Ho [x Hx]]; [by rewrite E|]. rewrite Hx. cbn -[test_bit].
    rewrite (ok_sched _ _ _ _ (inv_tasklet _ _ Hi t x Hx)), Ho. cbn -[test_bit]. eexists _, _. split; [done|]. by eapply inv_run_function.
  - eexists _, g. split; [done|]. eapply (inv_pc _ _ _ p); try done. intros u Hu.
    apply (ok_held _ _ _ _ _ Hc). by rewrite E.
  - eexists _, _. split; [done|]. by eapply (inv_unlock _ _ _ p).
  - eexists _, _. split; [done|]. by eapply (inv_unlock _ _ _ p).
  - destruct (hand_own g s c p t Hi Hp) as [Ho [x Hx]]; [by rewrite E|].
    unfold __tasklet_schedule. rewrite Hp, Hx. cbn. eexists _, _. split; [done|]. by eapply inv_requeue.
Qed.

Lemma bh_step_inv g s c p :
  inv g s -> cpus s !! c = Some p -> bh p <> Off \/ bh_scheduled p = true ->
  exists s' g', bh_step c s = Some s' /\ inv g' s'.
Proof.
  intros Hi Hp Hon. unfold bh_step. rewrite Hp. cbn. destruct (bh p) as [ | [d | ] | nx|nx pending i|nx pending i l pc] eqn:E.
  - destruct Hon as [? | ->]; [done|]. eexists _, _. split; [done|]. by apply inv_bh_start.
  - destruct (inv_loop g s c p d) as (-> & Hn & Hi'); try done. rewrite Hp. cbn. rewrite Hn. eauto.
  - eexists _, g. split; [done|]. by eapply inv_loop_end.
  - eexists _, _. split; [done|]. by eapply inv_call.
  - pose proof (ok_bh _ _ _ _ _ (inv_cpu _ _ Hi c p Hp)) as (_ & _ & _ & _ & H5 & _). rewrite E in H5. destruct H5 as [_ H5].
    case_test; [|eexists _, g; split; [done|by eapply inv_softirq_end]]. rewrite land_bit by done.
    destruct (Z.testbit pending i) eqn:Hbit; cbn.
    + destruct (softirq_action i) as [hi|] eqn:Hhi; [eexists _, _; split; [done|by eapply inv_detach]|].
      eexists _, g. split; [done|]. eapply inv_softirq_skip; try done. intros hi Hv%vec_softirq_action. congruence.
    + eexists _, g. split; [done|]. by eapply inv_softirq_skip.
  - pose proof (ok_bh _ _ _ _ _ (inv_cpu _ _ Hi c p Hp)) as (_ & _ & _ & _ & H5 & _). rewrite E in H5. destruct H5 as [_ [hi Hhi]].
    rewrite Hhi. cbn. by eapply action_step_inv.
Qed.

(** ** The steps of the callers *)

(** A step of caller [k] on tasklet [t] and on no CPU. *)
Lemma inv_client g s k a a' t ts' o h w :
  inv g s -> calls s !! k = Some a ->
  length ts' = length (tasklets s) -> (forall u, u <> t -> ts' !! u = tasklets s !! u) -> same_next (tasklets s) ts' t ->
  o = own g t \/ ((o = None \/ o = Some (Caller k)) /\ (own g t = None \/ own g t = Some (Caller k)) /\ is_Some (tasklets s !! t)) ->
  (forall u, u <> t -> h u = held s u /\ w u = soft s u /\ waits u a' = waits u a) ->
  (forall c, runner g t = Some c -> held s t = 0 -> h t = 0) ->
  caller_bh a = None -> caller_bh a' = None ->
  (forall u, caller_tasklet a' = Some u <-> (if decide (u = t) then o else own g u) = Some (Caller k)) ->
  (forall u, a' = KillClear u -> runner g u = None) ->
  (forall hi u c, a' = Schedule hi u c -> (c < length (cpus s))%nat) ->
  (forall x', ts' !! t = Some x' -> exists x, tasklets s !! t = Some x /\
    test_bit TASKLET_STATE_SCHED x' = isS o /\ test_bit TASKLET_STATE_RUN x' = test_bit TASKLET_STATE_RUN x /\
    count x' - h t - w t - Z.of_nat (waits t a') = count x - held s t - soft s t - Z.of_nat (waits t a) /\
    count x' < 2 ^ 31 /\ 0 <= h t /\ 0 <= w t) ->
  inv (set_own t o g) (Sys ts' (cpus s) (<[k := a']> (calls s)) (panic s) h w).
Proof.
  intros Hi Ha L Hu Hn Ho Hh Hrun B1 B2 Hk Hkc Hcpu Hx.
  pose proof (lookup_lt_Some _ _ _ Ha) as Hlt.
  assert (forall u, own (set_own t o g) u = if decide (u = t) then o else own g u) as Hown.
  { intros u. cbn. case_decide as D; [subst; apply fn_lookup_insert|by apply fn_lookup_insert_ne]. }
  assert (forall u pl, pl <> Caller k -> own (set_own t o g) u = Some pl <-> own g u = Some pl) as Hsame.
  { intros u pl Hpl. rewrite Hown. case_decide as D; [subst|done]. naive_solver. }
  eapply inv_change; [done|done|done|by cbn; rewrite length_insert|..]; cbn [tasklets cpus calls held soft].
  - intros c. left. split; [done|]. split; [split; try done; intros u pl Hpl; apply Hsame; by intros ->|]. split.
    + intros u pl _ _. destruct (decide (u = t)) as [->|D]; [done|]. intros x Hx'. exists x. by rewrite Hu.
    + intros u Hr. destruct (decide (u = t)) as [->|D]; [by eauto|]. cbn. by rewrite (proj1 (Hh u D)).
  - intros k'. destruct (decide (k' = k)) as [->|D].
    + right. intros b. rewrite list_lookup_insert_eq by done. intros [= <-]. split.
      * intros u. by rewrite Hown.
      * intros u E. cbn. by apply Hkc.
      * intros c. rewrite B2. split; [done|]. cbn. intros E%(ok_raise _ _ _ _ (inv_caller _ _ Hi k a Ha)). congruence.
      * done.
    + left. split; [by apply list_lookup_insert_ne|]. split; [|done]. intros u. apply Hsame. congruence.
  - intros u x Hux. pose proof (sum_insert (waits u) _ k a a' Ha) as Hsum. destruct (decide (u = t)) as [->|D].
    + destruct (Hx x Hux) as (x0 & Hx0 & S & R & C & M & P1 & P2). destruct (inv_tasklet _ _ Hi t x0 Hx0).
      split; cbn [held soft calls]; rewrite ?Hown, ?decide_True by done; try done; [by rewrite R|lia].
    + rewrite Hu in Hux by done. destruct (Hh u D) as (E1 & E2 & E3).
      eapply tasklet_ok_frame; [by eapply inv_tasklet|done|done|by rewrite Hown, decide_False|done|done|done|cbn [calls]; lia].
  - intros u pl. rewrite Hown. case_decide as D; [|by left]. subst. intros E. destruct Ho as [->|([->| ->] & _ & x & Hx')]; [by left|done|].
    right. injection E as <-. split; [by eapply lookup_lt_Some|done].
  - by left.
  - by left.
Qed.

(** A step of caller [k] and of the data of the bottom half of CPU [c]. *)
Lemma inv_client_bh g s k a a' c p p' o :
  inv g s -> calls s !! k = Some a -> cpus s !! c = Some p ->
  (forall u, waits u a' = waits u a) -> caller_tasklet a = None -> caller_tasklet a' = None ->
  (forall hi, vec hi p' = vec hi p) -> bh p' = bh p -> (forall hi, will (vec_softirq hi) p -> will (vec_softirq hi) p') ->
  (forall k', k' <> k -> o = Some (InCaller k') <-> bhown g c = Some (InCaller k')) ->
  (forall c', caller_bh a' = Some c' <-> (if decide (c' = c) then o else bhown g c') = Some (InCaller k)) ->
  bh_ok o c p' ->
  inv (set_bhown c o g) (Sys (tasklets s) (alter (fun _ => p') c (cpus s)) (<[k := a']> (calls s)) (panic s) (held s) (soft s)).
Proof.
  intros Hi Ha Hp Hw T1 T2 Hv Hb Hwill Ho Hk Hbh. pose proof (lookup_lt_Some _ _ _ Ha) as Hlt.
  pose proof (inv_cpu _ _ Hi c p Hp) as [Cv Cl Ch Ck Ce Cw _].
  assert (forall c', bhown (set_bhown c o g) c' = if decide (c' = c) then o else bhown g c') as Hown.
  { intros c'. cbn. case_decide as D; [subst; apply fn_lookup_insert|by apply fn_lookup_insert_ne]. }
  eapply inv_change; [done|done|by cbn; rewrite length_alter|by cbn; rewrite length_insert|..]; cbn [tasklets cpus calls held soft].
  - intros c'. destruct (decide (c' = c)) as [->|D].
    + right. intros q. rewrite list_lookup_alter_eq, Hp. intros [= <-]. split; rewrite ?Hb; try done.
      * intros hi. rewrite Hv. eapply holds_frame; [apply Cv|done..].
      * intros hi. rewrite Hv. intros ?%Cw. by apply Hwill.
      * by rewrite Hown, decide_True.
    + left. split; [by apply list_lookup_alter_ne|]. split; [split; try done; by rewrite Hown, decide_False|done].
  - intros k'. destruct (decide (k' = k)) as [->|D].
    + right. intros b. rewrite list_lookup_insert_eq by done. intros [= <-]. rewrite length_alter. split.
      * intros u. rewrite T2. cbn. rewrite <- (ok_tasklet _ _ _ _ (inv_caller _ _ Hi k a Ha)). by rewrite T1.
      * by intros u ->.
      * intros c'. by rewrite Hown.
      * by intros hi u c' ->.
    + left. split; [by apply list_lookup_insert_ne|]. split; [done|]. split; [done|]. intros c'. rewrite Hown. case_decide; [subst; by apply Ho|done].
  - intros u x Hux. pose proof (sum_insert (waits u) _ k a a' Ha) as Hsum. rewrite Hw in Hsum.
    eapply tasklet_ok_frame; [by eapply inv_tasklet|done..|cbn [calls]; lia].
  - by left.
  - by left.
  - intros c' k'. rewrite Hown. case_decide as D; [subst|by left]. intros E. destruct (decide (k' = k)) as [->|D]; [by right|].
    left. by apply Ho.
Qed.

(** [__tasklet_schedule] of a caller. *)
Lemma inv_schedule g s k hi t c p x :
  inv g s -> calls s !! k = Some (Schedule hi t c) -> cpus s !! c = Some p -> tasklets s !! t = Some x ->
  inv (linked hi t c p g)
    (set_call k Idle (on_cpu c (link hi t c) (on_tasklet t (set_next (vec hi p)) s))).
Proof.
  intros Hi Ha Hp Hx. pose proof (lookup_lt_Some _ _ _ Ha) as Hlt. pose proof (inv_cpu _ _ Hi c p Hp) as Hc.
  pose proof (inv_caller _ _ Hi k _ Ha) as [A1 A2 A3 A4].
  assert (own g t = Some (Caller k)) as Ho by (by apply A1).
  assert (forall u, own (linked hi t c p g) u = <[t := Some (Vec c hi)]> (own g) u) as Hown.
  { intros u. cbn. by rewrite raised_own. }
  assert (forall u pl, pl <> Caller k -> pl <> Vec c hi -> own (linked hi t c p g) u = Some pl <-> own g u = Some pl) as Hsame.
  { intros u pl N1 N2. rewrite Hown. destruct (decide (u = t)) as [->|D]; [|by rewrite fn_lookup_insert_ne].
    rewrite fn_lookup_insert, Ho. naive_solver. }
  assert (forall u, runner (linked hi t c p g) u = runner g u) as Hrun by (intros u; cbn; by rewrite raised_runner).
  assert (bhown g c = None \/ softirq_pending p <> 0) as Hbh.
  { pose proof (ok_bh _ _ _ _ _ Hc) as (_ & _ & _ & _ & _ & Hz & _). destruct (Z.eq_dec (softirq_pending p) 0); tauto. }
  assert (forall c' k', bhown (linked hi t c p g) c' = Some (InCaller k') <-> bhown g c' = Some (InCaller k')) as Hbo.
  { intros c' k'. cbn. destruct (decide (c' = c)) as [->|D]; [|by rewrite raised_bhown_ne].
    rewrite raised_bhown. case_match eqn:E; [|done]. apply Z.eqb_eq in E. destruct Hbh as [->|?]; done. }
  unfold set_call. rewrite (on_cpu_eq _ _ _ p) by done. cbn [tasklets cpus calls panic held soft on_tasklet].
  eapply inv_change; [done|by cbn; rewrite length_alter|by cbn; rewrite length_alter|by cbn; rewrite length_insert|..]; cbn [tasklets cpus calls held soft].
  - intros c'. destruct (decide (c' = c)) as [->|D].
    + right. intros q. rewrite list_lookup_alter_eq, Hp. intros [= <-]. eapply link_cpu; try done.
      * intros pl E P. rewrite Ho in E. by injection E as <-.
      * intros E%(ok_hand _ _ _ _ _ Hc). congruence.
    + left. split; [by apply list_lookup_alter_ne|]. split; [split|split; [|done]].
      * intros u pl Hpl. apply Hsame; [by intros ->|]. intros ->. cbn in Hpl. congruence.
      * intros u. by rewrite Hrun.
      * cbn. by apply raised_bhown_ne.
      * intros u pl Hu Hpl y Hy. exists y. cbn [tasklets]. rewrite list_lookup_alter_ne; [done|]. intros ->. rewrite Ho in Hu. by injection Hu as <-.
  - intros k'. destruct (decide (k' = k)) as [->|D].
    + right. intros b. rewrite list_lookup_insert_eq by done. intros [= <-]. split; try done.
      * intros u. rewrite Hown. destruct (decide (u = t)) as [->|D]; [by rewrite fn_lookup_insert|]. rewrite fn_lookup_insert_ne by done.
        rewrite <- A1. cbn. split; congruence.
      * intros c'. rewrite Hbo. rewrite <- A3. done.
    + left. split; [by apply list_lookup_insert_ne|]. split; [intros u; apply Hsame; congruence|]. split; [intros u; by rewrite Hrun|].
      intros c'. apply Hbo.
  - intros u y Hy. pose proof (sum_insert (waits u) _ k _ Idle Ha) as Hsum. cbn in Hsum.
    assert (exists y0, tasklets s !! u = Some y0 /\ state y = state y0 /\ count y = count y0) as (y0 & Hy0 & E1 & E2).
    { destruct (decide (u = t)) as [->|D]; [|exists y; by rewrite list_lookup_alter_ne in Hy].
      rewrite list_lookup_alter_eq, Hx in Hy. injection Hy as <-. by exists x. }
    eapply tasklet_ok_frame; [by eapply inv_tasklet|done|done| |by rewrite Hrun|done|done|cbn [calls]; lia].
    rewrite Hown. destruct (decide (u = t)) as [->|D]; [by rewrite fn_lookup_insert, Ho|by rewrite fn_lookup_insert_ne].
  - intros u pl. rewrite Hown. destruct (decide (u = t)) as [->|D]; [|rewrite fn_lookup_insert_ne by done; by left].
    rewrite fn_lookup_insert. intros [= <-]. right. split; eapply lookup_lt_Some; done.
  - intros u c'. rewrite Hrun. by left.
  - intros c' k' E%Hbo. by left.
Qed.

(** ** Every reachable state *)

Lemma set_own_id g s t : inv (set_own t (own g t) g) s -> inv g s.
Proof.
  assert (forall u, own (set_own t (own g t) g) u = own g u) as E.
  { intros u. cbn. destruct (decide (u = t)) as [->|D]; [by rewrite fn_lookup_insert|by rewrite fn_lookup_insert_ne]. }
  intros [A B C D F G]. split.
  - intros c p Hp. eapply cpu_ok_frame; [by apply A| |done..]. split; try done. intros u pl _. by rewrite E.
  - intros k a Ha. destruct (B k a Ha) as [B1 B2 B3 B4]. split; try done. intros u. by rewrite B1, E.
  - intros u x Hx. eapply tasklet_ok_frame; [by apply C|try done..]. by rewrite E.
  - intros u pl Hu. apply D. by rewrite E.
  - done.
  - done.
Qed.

(** A step of a caller that changes neither a tasklet nor who owns it. *)
Lemma inv_client_pc g s k a a' :
  inv g s -> calls s !! k = Some a -> caller_tasklet a' = caller_tasklet a -> caller_bh a = None -> caller_bh a' = None ->
  (forall u, waits u a' = waits u a) -> (forall u, a' = KillClear u -> runner g u = None) ->
  (forall hi u c, a' = Schedule hi u c -> (c < length (cpus s))%nat) ->
  inv g (set_call k a' s).
Proof.
  intros Hi Ha H1 H2 H3 H4 H5 H6. apply (set_own_id _ _ 0%nat).
  eapply inv_client; try done; auto.
  - intros u. rewrite H1, (ok_tasklet _ _ _ _ (inv_caller _ _ Hi k a Ha)). by case_decide; subst.
  - intros x Hx. exists x. destruct (inv_tasklet _ _ Hi _ _ Hx). rewrite H4. split_and!; try done; lia.
Qed.

Lemma atomic_add_count i x : - 2 ^ 31 <= count x + i < 2 ^ 31 -> count (atomic_add i x) = count x + i.
Proof. intros. cbn. by apply sext_small. Qed.

(** A step of a caller on tasklet [t]. *)
Lemma inv_client_alter g s k a a' t x f o h w :
  inv g s -> calls s !! k = Some a -> tasklets s !! t = Some x -> (forall x, next (f x) = next x) ->
  o = own g t \/ ((o = None \/ o = Some (Caller k)) /\ (own g t = None \/ own g t = Some (Caller k))) ->
  (forall u, u <> t -> h u = held s u /\ w u = soft s u /\ waits u a' = waits u a) ->
  (forall c, runner g t = Some c -> held s t = 0 -> h t = 0) ->
  caller_bh a = None -> caller_bh a' = None ->
  (forall u, caller_tasklet a' = Some u <-> (if decide (u = t) then o else own g u) = Some (Caller k)) ->
  (forall u, a' = KillClear u -> runner g u = None) ->
  (forall hi u c, a' = Schedule hi u c -> (c < length (cpus s))%nat) ->
  test_bit TASKLET_STATE_SCHED (f x) = isS o -> test_bit TASKLET_STATE_RUN (f x) = test_bit TASKLET_STATE_RUN x ->
  count (f x) - h t - w t - Z.of_nat (waits t a') = count x - held s t - soft s t - Z.of_nat (waits t a) ->
  count (f x) < 2 ^ 31 -> 0 <= h t -> 0 <= w t ->
  inv (set_own t o g) (Sys (alter f t (tasklets s)) (cpus s) (<[k := a']> (calls s)) (panic s) h w).
Proof.
  intros Hi Ha Hx Hf Ho Hh Hr B1 B2 Hk Hkc Hcpu S R C M P1 P2.
  eapply (inv_client g s k a a' t); try done.
  - apply length_alter.
  - intros u D. by apply list_lookup_alter_ne.
  - by apply same_next_alter.
  - destruct Ho as [?|[? ?]]; [by left|right]. eauto.
  - intros x'. rewrite list_lookup_alter_eq, Hx. intros [= <-]. exists x. auto 10.
Qed.

(** Who is idle owns nothing. *)
Lemma idle_own g s k a u : inv g s -> calls s !! k = Some a -> caller_tasklet a = None -> own g u <> Some (Caller k).
Proof. intros Hi Ha Hn E%(ok_tasklet _ _ _ _ (inv_caller _ _ Hi k a Ha)). congruence. Qed.

Lemma client_schedule_inv g s k hi t c s' a :
  inv g s -> calls s !! k = Some Idle -> (c < length (cpus s))%nat ->
  tasklet_schedule hi t c s = Some (s', a) -> exists g', inv g' (set_call k a s').
Proof.
  intros Hi Ha Hc. unfold tasklet_schedule. intros (x & Hx & H)%bind_Some.
  case_match; simplify_eq; [exists g; by eapply inv_client_pc|].
  destruct (inv_tasklet _ _ Hi t x Hx) as [S R C M P1 P2]. rewrite S in *.
  eexists. eapply (inv_client_alter g s k Idle _ t x _ (if isS (own g t) then own g t else Some (Caller k))); try done.
  - destruct (own g t); cbn; auto.
  - by destruct (own g t).
  - by destruct (own g t).
  - intros u. pose proof (idle_own g s k Idle u Hi Ha eq_refl) as Hu. case_decide as D.
    + subst. destruct (own g t); cbn; [|done]. naive_solver.
    + destruct (own g t); cbn; naive_solver.
  - by destruct (own g t).
  - destruct (own g t); cbn; naive_solver.
  - rewrite test_set_bit by done. by destruct (own g t).
  - by apply test_set_bit_ne.
  - cbn. destruct (own g t); cbn; lia.
Qed.

(** The count of a tasklet changes. *)
Lemma count_inv g s k a' t x i h w :
  inv g s -> calls s !! k = Some Idle -> tasklets s !! t = Some x ->
  caller_tasklet a' = None -> caller_bh a' = None -> (forall u, u <> t -> waits u a' = 0%nat) ->
  (forall u, u <> t -> h u = held s u /\ w u = soft s u) ->
  (forall c, runner g t = Some c -> held s t = 0 -> h t = 0) ->
  i = h t + w t + Z.of_nat (waits t a') - held s t - soft s t -> 0 <= count x + i < 2 ^ 31 -> 0 <= h t -> 0 <= w t ->
  inv g (Sys (alter (atomic_add i) t (tasklets s)) (cpus s) (<[k := a']> (calls s)) (panic s) h w).
Proof.
  intros Hi Ha Hx T B W Hh Hr Hn Hb P1 P2. destruct (inv_tasklet _ _ Hi t x Hx) as [S R C M Q1 Q2].
  apply (set_own_id _ _ t). eapply (inv_client_alter g s k Idle); try done; auto.
  - intros u D. rewrite W by done. by destruct (Hh u D).
  - intros u. rewrite T. pose proof (idle_own g s k Idle u Hi Ha eq_refl). by case_decide; subst.
  - by intros u ->.
  - by intros hi u c ->.
  - rewrite atomic_add_count by lia. cbn. lia.
  - rewrite atomic_add_count by lia. lia.
Qed.

Lemma raise_softirq_inv g s k nr c s' a :
  inv g s -> calls s !! k = Some Idle -> 0 <= nr ->
  raise_softirq nr c s = Some (s', a) -> exists g', inv g' (set_call k a s').
Proof.
  intros Hi Ha Hnr. unfold raise_softirq. intros (p & Hp & H)%bind_Some. cbn in H. simplify_eq.
  pose proof (ok_bh _ _ _ _ _ (inv_cpu _ _ Hi c p Hp)) as (H1 & H2 & H3 & H4 & H5 & H6 & H7).
  destruct (raised_nonzero _ _ H7 Hnr) as [N0 N1].
  pose proof (inv_caller _ _ Hi k _ Ha) as [A1 A2 A3 A4]. cbn in A3.
  exists (set_bhown c (if softirq_pending p =? 0 then Some (InCaller k) else bhown g c) g).
  eapply (inv_client_bh g s k Idle _ c p); try done.
  - intros u. by destruct (softirq_pending p =? 0).
  - by destruct (softirq_pending p =? 0).
  - intros hi [Hw|Hw]; [left|by right]. cbn. rewrite testbit_raised by apply vec_softirq_nonneg. by rewrite Hw.
  - intros k' D. destruct (Z.eqb_spec (softirq_pending p) 0) as [E|E]; [|done]. apply H6 in E. rewrite E. split; [|done].
    intros [= ->]. done.
  - intros c'. destruct (Z.eqb_spec (softirq_pending p) 0) as [E|E]; cbn.
    + case_decide as D; [subst; naive_solver|]. rewrite <- A3. split; [congruence|done].
    + rewrite A3. by case_decide; subst.
  - unfold bh_ok. cbn. destruct (Z.eqb_spec (softirq_pending p) 0) as [E|E].
    + apply H6 in E. rewrite E in *. split_and!; try done. split; [done|]. intros ?%H3. done.
    + split_and!; try done. split; [done|]. intros ?. tauto.
Qed.

Lemma begin_inv g s k r s' a :
  inv g s -> calls s !! k = Some Idle -> may r s -> begin r s = Some (s', a) -> exists g', inv g' (set_call k a s').
Proof.
  intros Hi Ha Hmay H. destruct r as [hi t c|t|t|[] t|t|nr c]; cbn in H, Hmay.
  - by eapply client_schedule_inv.
  - unfold tasklet_disable_nosync in H. destruct (tasklets s !! t) as [x|] eqn:Hx; [|done]. cbn in H. simplify_eq.
    destruct (inv_tasklet _ _ Hi t x Hx) as [S R C M P1 P2]. exists g. specialize (Hmay _ eq_refl).
    eapply (count_inv g s k (DisableWait t) t x 1); try done; cbn; rewrite ?decide_True by done; try done; try lia.
    intros u D. by rewrite decide_False.
  - unfold tasklet_disable_nosync in H. destruct (tasklets s !! t) as [x|] eqn:Hx; [|done]. cbn in H. simplify_eq.
    destruct (inv_tasklet _ _ Hi t x Hx) as [S R C M P1 P2]. exists g. specialize (Hmay _ eq_refl).
    eapply (count_inv g s k Idle t x 1); try done; cbn; rewrite ?fn_lookup_insert; try lia.
    intros u D. by rewrite fn_lookup_insert_ne.
  - unfold tasklet_enable in H. destruct (tasklets s !! t) as [x|] eqn:Hx; [|done]. cbn in H. simplify_eq.
    destruct (inv_tasklet _ _ Hi t x Hx) as [S R C M P1 P2]. exists g.
    eapply (count_inv g s k Idle t x (-1)); try done; cbn; rewrite ?fn_lookup_insert; try lia.
    intros u D. by rewrite fn_lookup_insert_ne.
  - unfold tasklet_enable in H. destruct (tasklets s !! t) as [x|] eqn:Hx; [|done]. cbn in H. simplify_eq.
    destruct (inv_tasklet _ _ Hi t x Hx) as [S R C M P1 P2]. exists g.
    eapply (count_inv g s k Idle t x (-1)); try done; cbn; rewrite ?fn_lookup_insert; try lia.
    intros u D. by rewrite fn_lookup_insert_ne.
  - simplify_eq. exists g. by eapply inv_client_pc.
  - eapply raise_softirq_inv; [done|done|by destruct Hmay|done].
Qed.

Lemma continue_inv g s k a s' a' :
  inv g s -> calls s !! k = Some a -> continue a s = Some (s', a') -> exists g', inv g' (set_call k a' s').
Proof.
  intros Hi Ha H. pose proof (inv_caller _ _ Hi k _ Ha) as [A1 A2 A3 A4].
  destruct a as [|hi t c|t|t|t|t|t|t|c]; cbn -[test_bit] in H.
  - done.
  - unfold __tasklet_schedule in H. destruct (cpus s !! c) as [p|] eqn:Hp; [|done]. destruct (tasklets s !! t) as [x|] eqn:Hx; [|done].
    cbn in H. simplify_eq. eexists. by eapply inv_schedule.
  - simplify_eq. exists g. by eapply inv_client_pc.
  - destruct (tasklets s !! t) as [x|] eqn:Hx; [|done]. cbn -[test_bit] in H. case_match eqn:Hr; [done|]. simplify_eq. exists g.
    destruct (inv_tasklet _ _ Hi t x Hx) as [S R C M P1 P2]. rewrite Hr in R.
    assert (runner g t = None) as Hn by (by destruct (runner g t)). apply (set_own_id _ _ t).
    eapply (inv_client g s k (DisableWait t) Idle t); try done; cbn; auto.
    + intros u D. rewrite fn_lookup_insert_ne, decide_False by done. done.
    + by rewrite Hn.
    + intros u. pose proof (idle_own g s k _ u Hi Ha eq_refl). by case_decide; subst.
    + intros x' Hx'. rewrite Hx in Hx'. injection Hx' as <-. exists x. rewrite fn_lookup_insert, decide_True by done. split_and!; try done; lia.
  - destruct (tasklets s !! t) as [x|] eqn:Hx; [|done]. cbn -[test_bit] in H. simplify_eq.
    destruct (inv_tasklet _ _ Hi t x Hx) as [S R C M P1 P2]. rewrite S in *.
    exists (set_own t (if isS (own g t) then own g t else Some (Caller k)) g).
    assert (forall u, own g u <> Some (Caller k)) as Hk by (intros u; by eapply idle_own).
    eapply (inv_client_alter g s k (KillTry t) _ t x); try done.
    + destruct (own g t); cbn; auto.
    + intros u D. by destruct (own g t).
    + by destruct (own g t).
    + intros u. specialize (Hk u). case_decide as D; [subst|]; destruct (own g t); cbn; naive_solver.
    + intros u. by destruct (own g t).
    + intros hi u c. by destruct (own g t).
    + rewrite test_set_bit by done. by destruct (own g t).
    + by apply test_set_bit_ne.
    + cbn. destruct (own g t); cbn; lia.
  - destruct (tasklets s !! t) as [x|] eqn:Hx; [|done]. cbn -[test_bit] in H. case_match; [done|]. simplify_eq. exists g. by eapply inv_client_pc.
  - destruct (tasklets s !! t) as [x|] eqn:Hx; [|done]. cbn -[test_bit] in H. case_match eqn:Hr; [done|]. simplify_eq. exists g.
    eapply inv_client_pc; try done. intros u [= <-]. destruct (inv_tasklet _ _ Hi t x Hx) as [S R _ _ _ _]. rewrite Hr in R.
    by destruct (runner g t).
  - destruct (tasklets s !! t) as [x|] eqn:Hx; [|done]. cbn in H. simplify_eq.
    destruct (inv_tasklet _ _ Hi t x Hx) as [S R C M P1 P2]. exists (set_own t None g).
    assert (own g t = Some (Caller k)) as Ho by (by apply A1).
    eapply (inv_client_alter g s k (KillClear t) _ t x); try done; auto.
    + intros u. case_decide as D; [done|]. rewrite <- A1. cbn. split; congruence.
    + by apply test_clear_bit.
    + by apply test_clear_bit_ne.
  - destruct (cpus s !! c) as [p|] eqn:Hp; [|done]. cbn in H. simplify_eq.
    pose proof (ok_bh _ _ _ _ _ (inv_cpu _ _ Hi c p Hp)) as (H1 & H2 & H3 & H4 & H5 & H6 & H7).
    assert (bhown g c = Some (InCaller k)) as Ho by (by apply A3).
    exists (set_bhown c (Some InList) g). unfold set_call. rewrite (on_cpu_eq _ _ _ p) by done.
    eapply (inv_client_bh g s k (RaiseBH c) Idle c p); try done.
    + intros k' D. rewrite Ho. split; [done|congruence].
    + intros c'. case_decide as D; [done|]. rewrite <- A3. cbn. split; congruence.
    + unfold bh_ok. cbn. rewrite H1, Ho. rewrite Ho in H6. split_and!; try done.
      * split; [done|]. intros E%H3. congruence.
      * split; [|done]. intros E%H6. done.
Qed.

Lemma tasklet_step_inv g s s' : inv g s -> step s s' -> exists g', inv g' s'.
Proof.
  intros Hi Hstep. destruct Hstep as [c s1 s2 H|k r s1 s2 a H1 H2 H3|k a s1 s2 a' H1 H2|s1].
  - destruct (cpus s1 !! c) as [p|] eqn:Hp; [|by unfold bh_step in H; rewrite Hp in H].
    destruct (bh_step_inv g s1 c p) as (s3 & g' & E & ?); try done.
    + unfold bh_step in H. rewrite Hp in H. cbn in H. destruct (bh p); try (by left). right. by destruct (bh_scheduled p).
    + exists g'. congruence.
  - by eapply begin_inv.
  - by eapply continue_inv.
  - exists g. destruct Hi. split; try done. intros t x Hx. by destruct (inv_tasklet0 t x Hx).
Qed.

Lemma tasklet_init_inv n m ds : inv (Ghost (fun _ => None) (fun _ => None) (fun _ => None)) (init n m ds).
Proof.
  split; cbn; try done.
  - intros c p [-> _]%lookup_replicate. split; cbn; try done.
    + intros []; by apply holds_nil.
    + by apply holds_nil.
    + by intros [].
  - intros k a [-> _]%lookup_replicate. by split.
  - intros t x. rewrite list_lookup_fmap. intros (d & Hd & ->)%fmap_Some.
    assert (sum_list_with (waits t) (replicate m Idle) = 0%nat) as E by (clear; induction m; done).
    split; cbn; rewrite ?E, ?Hd; by destruct d.
Qed.

Lemma tasklet_reachable_inv n m ds s : reachable n m ds s -> exists g, inv g s.
Proof.
  induction 1 as [|s s' _ [g IH] Hstep]; [eexists; apply tasklet_init_inv|]. by eapply tasklet_step_inv.
Qed.
