(* ===== verification/TaskletLive.v ===== *)
(** The bottom half of a CPU gets to the function of a tasklet in its lists. *)

From stdpp Require Import functions.
From S2P Require Import Prelude Tasklet TaskletInv.
Local Open Scope Z_scope.

(** How many tasklets [tasklet_action] still has in its list. *)
Definition left_in_list (g : ghost) (c n : nat) : Prop :=
  exists l, NoDup l /\ (forall t, t ∈ l <-> own g t = Some (Private c)) /\ length l = n.

Lemma left_same g g' c n :
  left_in_list g c n -> (forall t, own g' t = Some (Private c) <-> own g t = Some (Private c)) -> left_in_list g' c n.
Proof. intros (l & Hn & Ho & L) H. exists l. split; [done|]. split; [|done]. intros t. by rewrite Ho, H. Qed.

Lemma left_take g g' c n t :
  left_in_list g c n -> own g t = Some (Private c) -> own g' t <> Some (Private c) ->
  (forall u, u <> t -> own g' u = own g u) -> exists n', n = S n' /\ left_in_list g' c n'.
Proof.
  intros (l & Hn & Ho & L) Ht Ht' Hu. apply Ho in Ht. apply elem_of_Permutation in Ht as [l' Hl].
  rewrite Hl in Hn, L. apply NoDup_cons in Hn as [N1 N2]. exists (length l'). split; [done|]. exists l'. split; [done|]. split; [|done].
  intros u. destruct (decide (u = t)) as [->|D]; [tauto|]. rewrite Hu, <- Ho, Hl, elem_of_cons by done. naive_solver.
Qed.

Lemma left_exists g s c p : inv g s -> cpus s !! c = Some p -> exists n, left_in_list g c n.
Proof.
  intros Hi Hp. destruct (ok_list _ _ _ _ _ (inv_cpu _ _ Hi c p Hp)) as (l & _ & Hn & Ho). exists (length l), l. done.
Qed.

Definition rank (pc : action_pc) : nat :=
  match pc with
  | Next => 1 | Requeue _ => 2 | Unlock _ | UnlockBusy _ => 3 | Running _ => 4 | Clear _ => 5 | Locked _ => 6
  end.

Section target.
Context (c t : nat).

(** Tasklet [t] is at [pl] of CPU [c], is enabled and does not run, and no caller
    is in the way. *)
Record tracked (g : ghost) (s : sys) (pl : place) : Prop := {
  tr_inv : inv g s;
  tr_own : own g t = Some pl;
  tr_cpu : place_cpu pl = Some c;
  tr_runner : runner g t = None;
  tr_count : exists x, tasklets s !! t = Some x /\ count x = 0;
  tr_bh : forall k, bhown g c <> Some (InCaller k);
}.

(** CPU [c] gets to its function. *)
Definition leads (s : sys) : Prop := exists n s', bh_run n c s = Some s' /\ running s' c = Some t.

Lemma leads_step s s' : bh_step c s = Some s' -> leads s' -> leads s.
Proof. intros H (n & s2 & Hn & Hr). exists (S n), s2. split; [|done]. cbn. by rewrite H. Qed.

Lemma tracked_cpu g s pl : tracked g s pl -> exists p, cpus s !! c = Some p.
Proof.
  intros [Hi Ho Hpl _ _ _]. apply lookup_lt_is_Some_2. apply (inv_own _ _ Hi) in Ho as [_ Hv].
  destruct pl; cbn in *; simplify_eq; done.
Qed.

Lemma count_alter f s u :
  (forall x, count (f x) = count x) -> (exists x, tasklets s !! t = Some x /\ count x = 0) ->
  exists x, alter f u (tasklets s) !! t = Some x /\ count x = 0.
Proof.
  intros Hf (x & Hx & Hc). destruct (decide (u = t)) as [->|D].
  - exists (f x). rewrite list_lookup_alter_eq, Hx. by rewrite Hf.
  - exists x. by rewrite list_lookup_alter_ne.
Qed.

(** Where the step of a bottom half leads. *)
Lemma lookup_on_cpu f s p : cpus s !! c = Some p -> cpus (on_cpu c f s) !! c = Some (f p).
Proof. intros Hp. cbn. by rewrite list_lookup_alter_eq, Hp. Qed.

(** A step of [tasklet_action] on another tasklet. *)
Lemma act_other g s pl p nx pending i l pc n :
  tracked g s pl -> pl <> Hand c -> cpus s !! c = Some p -> bh p = Action nx pending i l pc ->
  (pc = Next -> l <> None /\ l <> Some t) -> left_in_list g c n ->
  exists g' s' p' l' pc' n', bh_step c s = Some s' /\ tracked g' s' pl /\ cpus s' !! c = Some p' /\
    bh p' = Action nx pending i l' pc' /\ left_in_list g' c n' /\ (8 * n' + rank pc' < 8 * n + rank pc)%nat.
Proof.
  intros [Hi Ho Hpl Hr Hcnt Hbo] Hne Hp E Hnext Hleft.
  pose proof (inv_cpu _ _ Hi c p Hp) as Hc.
  pose proof (ok_bh _ _ _ _ _ Hc) as (_ & _ & _ & _ & H5 & _). rewrite E in H5. destruct H5 as [_ [hi Hhi]].
  assert (hand pc <> Some t) as Hh. { pose proof (ok_hand _ _ _ _ _ Hc t) as H. rewrite E in H. intros H'%H. congruence. }
  assert (locked pc <> Some t) as Hk. { pose proof (ok_locked _ _ _ _ _ Hc t) as H. rewrite E in H. intros H'%H. congruence. }
  unfold bh_step. rewrite Hp. cbn [mbind option_bind]. rewrite E, Hhi. cbn [mbind option_bind].
  destruct pc as [|u|u|u|u|u|u]; cbn -[test_bit] in *.
  - destruct l as [u|]; [|by destruct (Hnext eq_refl)]. assert (u <> t) as D by (destruct (Hnext eq_refl); congruence).
    pose proof (ok_list _ _ _ _ _ Hc) as (l & Hl & _ & _). rewrite E in Hl. inversion Hl as [|? x ? Hx _]. subst.
    rewrite Hx. cbn -[test_bit]. destruct (inv_take g s c p nx pending i u x) as [Hou Hi']; try done.
    destruct (left_take g (set_own u (Some (Hand c)) g) c n u Hleft Hou) as (n' & -> & Hleft').
    { cbn. by rewrite fn_lookup_insert. } { intros v Hv. cbn. by rewrite fn_lookup_insert_ne. }
    eexists _, _, _, _, _, n'. split; [done|]. split; [|split; [by apply lookup_on_cpu|split; [done|split]]].
    + split; try done.
      * cbn. destruct (negb _); cbn; by rewrite fn_lookup_insert_ne.
      * cbn. destruct (negb _); cbn; [by rewrite fn_lookup_insert_ne|done].
      * cbn. destruct Hcnt as (y & Hy & Hcy). exists y. by rewrite list_lookup_alter_ne.
      * cbn. by destruct (negb _).
    + eapply left_same; [done|]. intros v. by destruct (negb _).
    + destruct (negb _); cbn; lia.
  - destruct (hand_own g s c p u Hi Hp) as [_ [x Hx]]; [by rewrite E|]. rewrite Hx. cbn.
    eexists g, _, _, _, _, n. split; [done|]. split; [|split; [by apply lookup_on_cpu|split; [done|split; [done|]]]].
    + split; try done. eapply (inv_pc _ _ _ p); try done; try (by case_match). intros v. destruct (Z.eqb_spec (count x) 0) as [E0|]; [|done].
      cbn. intros [= <-]. destruct (inv_tasklet _ _ Hi u x Hx). lia.
    + destruct (count x =? 0); cbn; lia.
  - destruct (hand_own g s c p u Hi Hp) as [Hou [x Hx]]; [by rewrite E|]. rewrite Hx. cbn -[test_bit].
    rewrite (ok_sched _ _ _ _ (inv_tasklet _ _ Hi u x Hx)), Hou. cbn. eexists _, _, _, _, _, n. split; [done|].
    split; [|split; [by apply lookup_on_cpu|split; [done|split; [|cbn; lia]]]].
    + split; [by eapply inv_run_function|..]; try done; [|by apply count_alter]. cbn. by rewrite fn_lookup_insert_ne by congruence.
    + eapply left_same; [done|]. intros v. cbn. destruct (decide (v = u)) as [->|D]; [|by rewrite fn_lookup_insert_ne].
      rewrite fn_lookup_insert, Hou. done.
  - eexists g, _, _, _, _, n. split; [done|]. split; [|split; [by apply lookup_on_cpu|split; [done|split; [done|cbn; lia]]]].
    split; try done. eapply (inv_pc _ _ _ p); try done. intros v Hv. apply (ok_held _ _ _ _ _ Hc). by rewrite E.
  - eexists (set_runner u None g), _, _, _, _, n. split; [done|]. split; [|split; [by apply lookup_on_cpu|split; [done|split; [by eapply left_same|cbn; lia]]]].
    split; [by eapply (inv_unlock _ _ _ p)|..]; try done; [|by apply count_alter]. cbn. by rewrite fn_lookup_insert_ne by congruence.
  - eexists (set_runner u None g), _, _, _, _, n. split; [done|]. split; [|split; [by apply lookup_on_cpu|split; [done|split; [by eapply left_same|cbn; lia]]]].
    split; [by eapply (inv_unlock _ _ _ p)|..]; try done; [|by apply count_alter]. cbn. by rewrite fn_lookup_insert_ne by congruence.
  - destruct (hand_own g s c p u Hi Hp) as [Hou [x Hx]]; [by rewrite E|].
    unfold __tasklet_schedule. rewrite Hp, Hx. cbn. eexists _, _, _, _, _, n. split; [done|].
    split; [|split; [by apply lookup_on_cpu, lookup_on_cpu|split; [done|split; [|cbn; lia]]]].
    + split; [by eapply inv_requeue|..]; try done; [..|by apply count_alter|]; cbn.
      * rewrite fn_lookup_insert_ne, raised_own by congruence. cbn. by rewrite fn_lookup_insert_ne by congruence.
      * by rewrite raised_runner.
      * intros k. rewrite raised_bhown. by case_match.
    + eapply left_same; [done|]. intros v. cbn. destruct (decide (v = u)) as [->|D].
      * rewrite fn_lookup_insert, Hou. done.
      * rewrite fn_lookup_insert_ne, raised_own by done. cbn. by rewrite fn_lookup_insert_ne.
Qed.

Lemma leads_running s p nx pending i l : cpus s !! c = Some p -> bh p = Action nx pending i l (Running t) -> leads s.
Proof. intros Hp E. exists 0%nat, s. split; [done|]. unfold running. rewrite Hp. cbn. by rewrite E. Qed.

(** The tasklet is the next one of the list. *)
Lemma act_now g s p nx pending i :
  tracked g s (Private c) -> cpus s !! c = Some p -> bh p = Action nx pending i (Some t) Next -> leads s.
Proof.
  intros [Hi Ho _ Hr (x & Hx & Hcx) _] Hp E. pose proof (inv_cpu _ _ Hi c p Hp) as Hc.
  pose proof (ok_bh _ _ _ _ _ Hc) as (_ & _ & _ & _ & H5 & _). rewrite E in H5. destruct H5 as [_ [hi Hhi]].
  pose proof (inv_tasklet _ _ Hi t x Hx) as [S R _ _ _ _]. rewrite Ho in S. rewrite Hr in R.
  assert (alter (fun _ => set_bit TASKLET_STATE_RUN x) t (tasklets s) !! t = Some (set_bit TASKLET_STATE_RUN x)) as Hx1
    by (by rewrite list_lookup_alter_eq, Hx).
  eapply leads_step.
  { unfold bh_step. rewrite Hp. cbn [mbind option_bind]. rewrite E, Hhi. cbn [mbind option_bind action_step].
    rewrite Hx. cbn [mbind option_bind tasklet_trylock]. rewrite R. cbn [negb isS]. reflexivity. }
  eapply leads_step.
  { unfold bh_step. rewrite (lookup_on_cpu _ _ p) by done. cbn [mbind option_bind bh set_bh]. rewrite Hhi.
    cbn [mbind option_bind action_step tasklets on_cpu on_tasklet]. rewrite Hx1. cbn [mbind option_bind]. cbn [count set_bit set_state]. rewrite Hcx, Z.eqb_refl. reflexivity. }
  eapply leads_step.
  { unfold bh_step. rewrite (lookup_on_cpu _ _ (set_bh (Action nx pending i (next x) (Locked t)) p)) by (by apply lookup_on_cpu).
    cbn [mbind option_bind bh set_bh]. rewrite Hhi. cbn [mbind option_bind action_step tasklets on_cpu on_tasklet]. rewrite Hx1. cbn [mbind option_bind].
    rewrite test_set_bit_ne, S by done. reflexivity. }
  eapply leads_running; [apply lookup_on_cpu; cbn; rewrite !list_lookup_alter_eq, Hp; done|done].
Qed.

Lemma act_private g s p nx pending i l pc :
  tracked g s (Private c) -> cpus s !! c = Some p -> bh p = Action nx pending i l pc -> leads s.
Proof.
  intros Ht Hp E. destruct (left_exists g s c p) as [n Hleft]; [by eapply tr_inv|done|].
  remember (8 * n + rank pc)%nat as m eqn:Hm. revert g s p l pc n Ht Hp E Hleft Hm.
  induction m as [m IH] using (well_founded_induction Nat.lt_wf_0). intros g s p l pc n Ht Hp E Hleft Hm.
  pose proof (ok_list _ _ _ _ _ (inv_cpu _ _ (tr_inv _ _ _ Ht) c p Hp)) as Hl. rewrite E in Hl. cbn in Hl.
  destruct (decide (l = Some t)) as [->|D].
  - destruct (decide (pc = Next)) as [->|D]; [by eapply act_now|].
    destruct (act_other g s (Private c) p nx pending i (Some t) pc n) as (g' & s' & p' & l' & pc' & n' & H1 & H2 & H3 & H4 & H5 & H6); try done.
    eapply leads_step; [done|]. eapply IH; try done. by rewrite Hm.
  - destruct (act_other g s (Private c) p nx pending i l pc n) as (g' & s' & p' & l' & pc' & n' & H1 & H2 & H3 & H4 & H5 & H6); try done.
    + intros _. split; [|done]. intros ->. apply (proj1 (holds_nil _ _ _) Hl t). by eapply tr_own.
    + eapply leads_step; [done|]. eapply IH; try done. by rewrite Hm.
Qed.

(** The tasklet is in a vector: [tasklet_action] comes to its end. *)
Lemma act_vec g s p nx pending i l pc hi :
  tracked g s (Vec c hi) -> cpus s !! c = Some p -> bh p = Action nx pending i l pc ->
  (forall g' s' p', tracked g' s' (Vec c hi) -> cpus s' !! c = Some p' -> bh p' = Softirq nx pending (i + 1) -> leads s') ->
  leads s.
Proof.
  intros Ht Hp E Hend. destruct (left_exists g s c p) as [n Hleft]; [by eapply tr_inv|done|].
  remember (8 * n + rank pc)%nat as m eqn:Hm. revert g s p l pc n Ht Hp E Hleft Hm.
  induction m as [m IH] using (well_founded_induction Nat.lt_wf_0). intros g s p l pc n Ht Hp E Hleft Hm.
  destruct Ht as [Hi Ho Hpl Hr Hcnt Hbo] eqn:HT.
  pose proof (ok_list _ _ _ _ _ (inv_cpu _ _ Hi c p Hp)) as Hl. rewrite E in Hl. cbn in Hl.
  destruct (decide (pc = Next /\ l = None)) as [[-> ->]|D].
  - pose proof (ok_bh _ _ _ _ _ (inv_cpu _ _ Hi c p Hp)) as (_ & _ & _ & _ & H5 & _). rewrite E in H5. destruct H5 as [_ [hi' Hhi]].
    eapply leads_step.
    { unfold bh_step. rewrite Hp. cbn [mbind option_bind]. rewrite E, Hhi. reflexivity. }
    eapply Hend; [|by apply lookup_on_cpu|done]. split; try done. by eapply inv_action_end.
  - destruct (act_other g s (Vec c hi) p nx pending i l pc n) as (g' & s' & p' & l' & pc' & n' & H1 & H2 & H3 & H4 & H5 & H6); try done.
    + intros ->. split; [naive_solver|]. intros ->. destruct Hl as (ll & Hch & _ & Hll). inversion Hch. subst.
      assert (own g t = Some (Private c)) by (apply Hll; left). congruence.
    + eapply leads_step; [done|]. eapply IH; try done. by rewrite Hm.
Qed.

(** The rest of the loop of [do_softirq]. It gets to the vector of the tasklet, or
    the handler ends. *)
Definition when_off (hi : bool) : Prop :=
  forall g s p, tracked g s (Vec c hi) -> cpus s !! c = Some p -> bh p = Off -> leads s.

Lemma loop_none_leads g s p hi :
  when_off hi -> tracked g s (Vec c hi) -> cpus s !! c = Some p -> bh p = Loop None -> leads s.
Proof.
  intros Hoff Ht Hp E. eapply leads_step; [unfold bh_step; rewrite Hp; cbn; rewrite E; done|].
  eapply (Hoff g); [|by apply lookup_on_cpu|done]. destruct Ht. split; try done. by eapply inv_loop_end.
Qed.

Lemma softirq_leads g s p nx pending i hi :
  tracked g s (Vec c hi) -> cpus s !! c = Some p -> bh p = Softirq nx pending i ->
  (Z.testbit pending (vec_softirq hi) = true /\ i <= vec_softirq hi) \/ when_off hi -> leads s.
Proof.
  intros Ht Hp E Hwhy. remember (Z.to_nat (MAX_SOFTIRQ - i)) as m eqn:Hm. revert g s p i Ht Hp E Hwhy Hm.
  induction m as [|m IH]; intros g s p i Ht Hp E Hwhy Hm; pose proof Ht as [Hi Ho Hpl Hr Hcnt Hbo];
    pose proof (ok_bh _ _ _ _ _ (inv_cpu _ _ Hi c p Hp)) as (_ & _ & _ & _ & H5 & _); rewrite E in H5; destruct H5 as [-> H0].
  - destruct Hwhy as [[_ Hle]|Hoff]; [unfold MAX_SOFTIRQ in Hm; destruct hi; cbn in Hle; unfold HI_SOFTIRQ, TASKLET_SOFTIRQ in Hle; lia|].
    eapply leads_step.
    { unfold bh_step. rewrite Hp. cbn. rewrite E. destruct (Z.ltb_spec i MAX_SOFTIRQ); [lia|]. reflexivity. }
    eapply (loop_none_leads g); [done| |by apply lookup_on_cpu|done]. split; try done. eapply inv_softirq_end; try done. lia.
  - assert (i < MAX_SOFTIRQ) as Hlt by lia. assert (m = Z.to_nat (MAX_SOFTIRQ - (i + 1))) as Hm' by lia.
    assert (Z.testbit pending i = false \/ softirq_action i = None ->
      tracked g (on_cpu c (set_bh (Softirq None pending (i + 1))) s) (Vec c hi) /\
      ((Z.testbit pending (vec_softirq hi) = true /\ i + 1 <= vec_softirq hi) \/ when_off hi)) as Hskip.
    { intros H. split.
      - split; try done. eapply inv_softirq_skip; try done. intros hi' ->. destruct H as [H|H]; [done|by destruct hi'].
      - destruct Hwhy as [[Hb Hle]|?]; [left|by right]. split; [done|]. destruct (decide (i = vec_softirq hi)) as [->|?]; [|lia].
        destruct H as [H|H]; [congruence|by destruct hi]. }
    destruct (Z.testbit pending i) eqn:Hb; [destruct (softirq_action i) as [hi'|] eqn:Hhi|].
    + eapply leads_step.
      { unfold bh_step. rewrite Hp. cbn -[Z.land]. rewrite E. destruct (Z.ltb_spec i MAX_SOFTIRQ); [|lia].
        rewrite land_bit, Hb by done. cbn. rewrite Hhi. reflexivity. }
      pose proof (inv_detach _ _ _ _ _ _ _ _ Hi Hp E Hhi) as Hi'. destruct (decide (hi' = hi)) as [->|D].
      * eapply act_private; [|by apply lookup_on_cpu|done]. split; [exact Hi'|cbn; by rewrite move_Some; left|done..].
      * eapply act_vec; [|by apply lookup_on_cpu|done|].
        -- split; [exact Hi'|cbn; rewrite move_Some; right; split; [congruence|done]|done..].
        -- intros g' s' p' Ht' Hp' E'. eapply IH; try done. destruct Hwhy as [[Hb' Hle]|?]; [left|by right].
           split; [done|]. apply vec_softirq_action in Hhi. destruct (decide (i = vec_softirq hi)) as [E2|?]; [|lia].
           rewrite Hhi in E2. by destruct hi, hi'.
    + destruct Hskip as [Ht' Hwhy']; [by right|]. eapply leads_step; [|eapply IH; [exact Ht'|by apply lookup_on_cpu|done|done|done]].
      unfold bh_step. rewrite Hp. cbn -[Z.land]. rewrite E. destruct (Z.ltb_spec i MAX_SOFTIRQ); [|lia].
      rewrite land_bit, Hb by done. cbn. by rewrite Hhi.
    + destruct Hskip as [Ht' Hwhy']; [by left|]. eapply leads_step; [|eapply IH; [exact Ht'|by apply lookup_on_cpu|done|done|done]].
      unfold bh_step. rewrite Hp. cbn -[Z.land]. rewrite E. destruct (Z.ltb_spec i MAX_SOFTIRQ); [|lia].
      by rewrite land_bit, Hb by done.
Qed.

(** The vector is not empty, so that its softirq is pending or being handled. *)
Lemma tracked_will g s p hi : tracked g s (Vec c hi) -> cpus s !! c = Some p -> will (vec_softirq hi) p.
Proof.
  intros [Hi Ho _ _ _ _] Hp. pose proof (inv_cpu _ _ Hi c p Hp) as Hc. apply (ok_will _ _ _ _ _ Hc). intros E.
  pose proof (ok_vec _ _ _ _ _ Hc hi) as H. rewrite E in H. by apply (proj1 (holds_nil _ _ _) H t).
Qed.

(** [Linux_BHHandler] has the data of CPU [c]. *)
Lemma loop_leads g s p hi :
  tracked g s (Vec c hi) -> cpus s !! c = Some p -> bh p = Loop (Some c) ->
  Z.testbit (softirq_pending p) (vec_softirq hi) = true \/ when_off hi -> leads s.
Proof.
  intros Ht Hp E Hwhy. pose proof Ht as [Hi Ho Hpl Hr Hcnt Hbo].
  destruct (inv_loop g s c p c) as (_ & Hn & Hi1); try done. eapply leads_step.
  { unfold bh_step. rewrite Hp. cbn. rewrite E, Hp. cbn. rewrite Hn. reflexivity. }
  pose proof (lookup_on_cpu (set_bh (Call None)) s p Hp) as Hp1. eapply leads_step.
  { unfold bh_step. rewrite Hp1. cbn. reflexivity. }
  eapply (softirq_leads (set_bhown c None g)); [|by apply lookup_on_cpu|done|].
  - split; try done; [by apply (inv_call g _ c _ None Hi1 Hp1)|]. intros k. cbn. by rewrite fn_lookup_insert.
  - cbn. destruct Hwhy as [?|?]; [left|by right]. split; [done|]. apply vec_softirq_nonneg.
Qed.

Lemma off_leads hi : when_off hi.
Proof.
  intros g s p Ht Hp E. pose proof Ht as [Hi Ho Hpl Hr Hcnt Hbo].
  pose proof (tracked_will _ _ _ _ Ht Hp) as Hw. unfold will in Hw. rewrite E in Hw. destruct Hw as [Hb|[]].
  pose proof (ok_bh _ _ _ _ _ (inv_cpu _ _ Hi c p Hp)) as (H1 & H2 & H3 & _ & _ & H6 & _). rewrite E in H3.
  assert (bhown g c = Some InList) as Eb.
  { destruct (bhown g c) as [[| |k]|] eqn:Eb; [done|by destruct (proj1 H3 eq_refl)|by destruct (Hbo k)|].
    rewrite (proj2 H6 eq_refl), Z.bits_0 in Hb. done. }
  rewrite Eb in H1. destruct (H2 Eb) as [_ Hs]. eapply leads_step.
  { unfold bh_step. rewrite Hp. cbn. rewrite E, Hs. reflexivity. }
  pose proof (inv_bh_start _ _ _ _ Hi Hp E) as Hi'. rewrite Eb, H1 in Hi'. rewrite H1.
  eapply loop_leads; [split; [exact Hi'|done..|]|by apply lookup_on_cpu|done|by left].
  intros k. cbn. by rewrite fn_lookup_insert.
Qed.

(** From any place of CPU [c]. *)
Lemma vec_leads g s hi : tracked g s (Vec c hi) -> leads s.
Proof.
  intros Ht. destruct (tracked_cpu _ _ _ Ht) as [p Hp]. pose proof Ht as [Hi Ho Hpl Hr Hcnt Hbo].
  destruct (bh p) as [ |[d| ]|nx|nx pending i|nx pending i l pc] eqn:E.
  - by eapply off_leads.
  - destruct (inv_loop g s c p d) as (-> & _ & _); try done. eapply loop_leads; try done. right. apply off_leads.
  - eapply loop_none_leads; try done. apply off_leads.
  - eapply leads_step.
    { unfold bh_step. rewrite Hp. cbn. rewrite E. reflexivity. }
    eapply (softirq_leads (set_bhown c None g)); [|by apply lookup_on_cpu|done|right; apply off_leads].
    split; try done; [by apply inv_call|]. intros k. cbn. by rewrite fn_lookup_insert.
  - eapply softirq_leads; try done. right. apply off_leads.
  - eapply act_vec; try done. intros g' s' p' Ht' Hp' E'. eapply softirq_leads; try done. right. apply off_leads.
Qed.

Lemma tracked_leads g s pl : tracked g s pl -> leads s.
Proof.
  intros Ht. pose proof Ht as [Hi Ho Hpl Hr Hcnt Hbo]. destruct (tracked_cpu _ _ _ Ht) as [p Hp].
  pose proof (inv_cpu _ _ Hi c p Hp) as Hc. destruct pl as [c' hi|c'|c'|k]; cbn in Hpl; simplify_eq.
  - by eapply vec_leads.
  - destruct (bh p) as [ |d|nx|nx pending i|nx pending i l pc] eqn:E; [..|by eapply act_private].
    all: pose proof (ok_list _ _ _ _ _ Hc) as Hl; rewrite E in Hl; by destruct (proj1 (holds_nil _ _ _) Hl t).
  - pose proof (ok_hand _ _ _ _ _ Hc t) as Hh. pose proof (ok_locked _ _ _ _ _ Hc t) as Hk. apply Hh in Ho as Hha.
    destruct (bh p) as [ |d|nx|nx pending i|nx pending i l pc] eqn:E; try done.
    assert (pc = Requeue t) as ->.
    { destruct pc; cbn in *; try done; simplify_eq; try done; by (rewrite (proj1 Hk eq_refl) in Hr). }
    pose proof (ok_bh _ _ _ _ _ Hc) as (_ & _ & _ & _ & H5 & _). rewrite E in H5. destruct H5 as [_ [hi Hhi]].
    destruct Hcnt as (x & Hx & Hcx). eapply leads_step.
    { unfold bh_step. rewrite Hp. cbn [mbind option_bind]. rewrite E, Hhi. cbn [mbind option_bind action_step].
      unfold __tasklet_schedule. rewrite Hp, Hx. reflexivity. }
    eapply (vec_leads (linked hi t c (set_bh (Action nx pending i l Next) p) (set_own t None g)) _ hi). split; cbn.
    + by eapply inv_requeue.
    + by rewrite fn_lookup_insert.
    + done.
    + by rewrite raised_runner.
    + rewrite list_lookup_alter_eq, Hx. eauto.
    + intros k. rewrite raised_bhown. case_match; [done|]. apply Hbo.
Qed.

End target.
