(* ===== verification/TaskletSpec.v ===== *)
(** What the users of tasklets rely on. *)

From stdpp Require Import functions.
From S2P Require Import Prelude Tasklet TaskletInv TaskletLive.
Local Open Scope Z_scope.

(** Tasklet [t] is in the list at [p]. *)
Inductive in_list (ts : list tasklet_struct) : option nat -> nat -> Prop :=
| in_list_here t : in_list ts (Some t) t
| in_list_next t x u : ts !! t = Some x -> in_list ts (next x) u -> in_list ts (Some t) u.

(** It waits on some CPU for its function to be called. *)
Definition queued (s : sys) (t : nat) : Prop :=
  exists c p, cpus s !! c = Some p /\
    ((exists hi, in_list (tasklets s) (vec hi p) t) \/ in_list (tasklets s) (list_of (bh p)) t \/ hand (pc_of (bh p)) = Some t).

(** Its function is running, in a bottom half or called by tasklet_schedule. *)
Definition in_function (s : sys) (who : nat + nat) (t : nat) : Prop :=
  match who with
  | inl c => running s c = Some t
  | inr k => calls s !! k = Some (Panicking t)
  end.

Lemma in_list_chain ts p l t : chain ts p l -> in_list ts p t -> t ∈ l.
Proof.
  intros Hc Hin. revert l Hc. induction Hin as [t|t x u Hx _ IH]; intros l Hc; inversion Hc; subst; [left|].
  right. apply IH. simplify_eq. done.
Qed.

Lemma in_list_own ts g p pl t : holds ts g p pl -> in_list ts p t -> own g t = Some pl.
Proof. intros (l & Hl & _ & Ho) Hin. apply Ho. by eapply in_list_chain. Qed.

Lemma queued_own g s t : inv g s -> queued s t -> exists pl, own g t = Some pl /\ place_cpu pl <> None.
Proof.
  intros Hi (c & p & Hp & H). pose proof (inv_cpu _ _ Hi c p Hp) as Hc. destruct H as [[hi H]|[H|H]].
  - exists (Vec c hi). split; [|done]. eapply in_list_own; [by apply (ok_vec _ _ _ _ _ Hc)|done].
  - exists (Private c). split; [|done]. eapply in_list_own; [by apply (ok_list _ _ _ _ _ Hc)|done].
  - exists (Hand c). split; [|done]. by apply (ok_hand _ _ _ _ _ Hc).
Qed.

Lemma running_inv g s c t :
  inv g s -> running s c = Some t -> runner g t = Some c /\ held s t = 0.
Proof.
  intros Hi H. unfold running in H. destruct (cpus s !! c) as [p|] eqn:Hp; [|done]. cbn in H.
  pose proof (inv_cpu _ _ Hi c p Hp) as Hc. destruct (bh p) as [| | | |nx pending i l pc] eqn:E; try done.
  destruct pc; try done. simplify_eq. split.
  - apply (ok_locked _ _ _ _ _ Hc). by rewrite E.
  - apply (ok_held _ _ _ _ _ Hc). by rewrite E.
Qed.

(** Only a panic makes tasklet_schedule call the function. *)
Definition same_callers (s s' : sys) : Prop := calls s' = calls s /\ panic s' = panic s.

Lemma tasklet_schedule_callers hi t c s s' : __tasklet_schedule hi t c s = Some s' -> same_callers s s'.
Proof. unfold __tasklet_schedule. intros (p & _ & (x & _ & [= <-])%bind_Some)%bind_Some. done. Qed.

Lemma bh_step_callers c s s' : bh_step c s = Some s' -> same_callers s s'.
Proof.
  unfold bh_step. intros (p & _ & H)%bind_Some. destruct (bh p) as [ |[d| ]|nx|nx pending i|nx pending i l pc].
  - case_match; by simplify_eq.
  - apply bind_Some in H as (q & _ & [= <-]). done.
  - by simplify_eq.
  - cbn in H. by simplify_eq.
  - repeat (case_match; try done); by simplify_eq.
  - apply bind_Some in H as (hi & _ & H). unfold action_step in H. destruct pc.
    + destruct l; [|by simplify_eq]. apply bind_Some in H as (x & _ & H). cbn in H. by simplify_eq.
    + apply bind_Some in H as (x & _ & [= <-]). done.
    + apply bind_Some in H as (x & _ & H). case_match; by simplify_eq.
    + by simplify_eq.
    + by simplify_eq.
    + by simplify_eq.
    + apply bind_Some in H as (s1 & H1%tasklet_schedule_callers & [= <-]). done.
Qed.

Definition no_panicking (a : call) : Prop := forall t, a <> Panicking t.

Lemma begin_callers r s s' a : begin r s = Some (s', a) -> same_callers s s' /\ (no_panicking a \/ panic s = true).
Proof.
  intros H. destruct r as [hi t c|t|t|[] t|t|nr c]; cbn in H.
  - unfold tasklet_schedule in H. apply bind_Some in H as (x & _ & H). case_match eqn:E; simplify_eq.
    + split; [done|right]. by apply andb_true_iff in E as [_ ?].
    + split; [done|left]. by case_match.
  - apply bind_Some in H as (s1 & (x & _ & [= <-])%bind_Some & [= <- <-]). split; [done|by left].
  - apply bind_Some in H as (s1 & (x & _ & [= <-])%bind_Some & [= <- <-]). split; [done|by left].
  - apply bind_Some in H as (s1 & (x & _ & [= <-])%bind_Some & [= <- <-]). split; [done|by left].
  - apply bind_Some in H as (s1 & (x & _ & [= <-])%bind_Some & [= <- <-]). split; [done|by left].
  - simplify_eq. split; [done|by left].
  - apply bind_Some in H as (p & _ & H). cbn in H. simplify_eq. split; [done|left]. by case_match.
Qed.

Lemma continue_callers a s s' a' : continue a s = Some (s', a') -> same_callers s s' /\ no_panicking a'.
Proof.
  intros H. destruct a as [|hi t c|t|t|t|t|t|t|c]; cbn -[test_bit] in H; [done|..].
  - apply bind_Some in H as (s1 & H1%tasklet_schedule_callers & [= <- <-]). done.
  - by simplify_eq.
  - apply bind_Some in H as (x & _ & H). case_match; by simplify_eq.
  - apply bind_Some in H as (x & _ & [= <- <-]). split; [done|]. by case_match.
  - apply bind_Some in H as (x & _ & H). case_match; by simplify_eq.
  - apply bind_Some in H as (x & _ & H). case_match; by simplify_eq.
  - apply bind_Some in H as (x & _ & [= <- <-]). done.
  - apply bind_Some in H as (x & _ & [= <- <-]). done.
Qed.

Lemma panicking_panic n m ds s k t : reachable n m ds s -> calls s !! k = Some (Panicking t) -> panic s = true.
Proof.
  intros Hr. revert k t. induction Hr as [|s s' _ IH Hstep]; intros k t Hk; [by cbn in Hk; apply lookup_replicate in Hk as [? _]|].
  destruct Hstep as [c s1 s2 H|k' r s1 s2 a H1 H2 H3|k' a s1 s2 a' H1 H2|s1].
  - destruct (bh_step_callers _ _ _ H) as [E1 E2]. rewrite E1 in Hk. rewrite E2. by eapply IH.
  - destruct (begin_callers _ _ _ _ H3) as [[E1 E2] Ha]. cbn in *. rewrite E1 in Hk. rewrite E2.
    apply list_lookup_insert_Some in Hk as [(_ & -> & _)|[_ Hk]]; [|by eapply IH]. by destruct Ha as [Ha|?]; [destruct (Ha t)|].
  - destruct (continue_callers _ _ _ _ H2) as [[E1 E2] Ha]. cbn in *. rewrite E1 in Hk. rewrite E2.
    apply list_lookup_insert_Some in Hk as [(_ & -> & _)|[_ Hk]]; [|by eapply IH]. by destruct (Ha t).
  - done.
Qed.

(** ** The theorems *)

(** C6: A tasklet is serialized with itself: in every reachable state before a panic its
    function runs at one place at most. It does not run in a bottom half while a
    call of tasklet_disable that has returned is not undone. When tasklet_kill is
    about to return the tasklet is in no list, its function does not run, and
    both bits but the one tasklet_kill itself has set are clear. The bottom half of a
    CPU never meets a bad pointer or the BUG of tasklet_action. *)
Theorem tasklet_exclusive n m ds s :
  reachable n m ds s ->
  (panic s = false -> forall a b t, in_function s a t -> in_function s b t -> a = b) /\
  (forall c t, running s c = Some t -> held s t = 0) /\
  (forall k t, calls s !! k = Some (KillClear t) ->
    ~ queued s t /\ (forall c, running s c <> Some t) /\
    (forall x, tasklets s !! t = Some x -> test_bit TASKLET_STATE_RUN x = false) /\
    (forall k' hi c, calls s !! k' <> Some (Schedule hi t c))) /\
  (forall c p, cpus s !! c = Some p -> bh p <> Off -> is_Some (bh_step c s)).
Proof.
  intros Hr. destruct (tasklet_reachable_inv _ _ _ _ Hr) as [g Hi]. split; [|split; [|split]].
  - intros Hpanic a b t.
    assert (forall k, calls s !! k <> Some (Panicking t)) as Hk by (intros k E%(panicking_panic _ _ _ _ _ _ Hr); congruence).
    destruct a as [c|k], b as [c'|k']; cbn; intros Ha Hb; try (by edestruct Hk).
    destruct (running_inv _ _ _ _ Hi Ha), (running_inv _ _ _ _ Hi Hb). congruence.
  - intros c t H. by eapply running_inv.
  - intros k t Hk. destruct (inv_caller _ _ Hi k _ Hk) as [A1 A2 _ _].
    assert (own g t = Some (Caller k)) as Ho by (by apply A1). assert (runner g t = None) as Hn by (by apply A2). split; [|split; [|split]].
    + intros Hq. destruct (queued_own _ _ _ Hi Hq) as (pl & E & Hpl). rewrite Ho in E. by injection E as <-.
    + intros c Hrun. destruct (running_inv _ _ _ _ Hi Hrun). congruence.
    + intros x Hx. by rewrite (ok_run _ _ _ _ (inv_tasklet _ _ Hi t x Hx)), Hn.
    + intros k' hi c Hk'. assert (own g t = Some (Caller k')) as E by (by apply (ok_tasklet _ _ _ _ (inv_caller _ _ Hi k' _ Hk'))).
      assert (k' = k) as -> by congruence. congruence.
  - intros c p Hp Hon. destruct (bh_step_inv g s c p Hi Hp) as (s' & _ & E & _); [by left|]. by rewrite E.
Qed.

(** C5: No scheduled tasklet is forgotten. In every reachable state, a tasklet that
    is scheduled, enabled and not running, and that no caller is just putting
    into a list or killing, is in the lists of a CPU whose bottom half, going on
    alone, calls its function, provided no caller is between the two halves of
    raise_softirq. *)
Theorem tasklet_runs n m ds s t x :
  reachable n m ds s ->
  tasklets s !! t = Some x ->
  test_bit TASKLET_STATE_SCHED x = true -> test_bit TASKLET_STATE_RUN x = false -> count x = 0 ->
  (forall k a, calls s !! k = Some a -> caller_tasklet a <> Some t /\ caller_bh a = None) ->
  exists c i s', (c < length (cpus s))%nat /\ bh_run i c s = Some s' /\ running s' c = Some t.
Proof.
  intros Hr Hx Hs Hrun Hc Hk. destruct (tasklet_reachable_inv _ _ _ _ Hr) as [g Hi].
  destruct (inv_tasklet _ _ Hi t x Hx) as [S R _ _ _ _]. rewrite Hs in S. rewrite Hrun in R.
  destruct (own g t) as [pl|] eqn:Ho; [|done]. destruct (inv_own _ _ Hi t pl Ho) as [_ Hv].
  assert (exists c, place_cpu pl = Some c /\ (c < length (cpus s))%nat) as (c & Hpl & Hlt).
  { destruct pl as [c hi|c|c|k]; try (by exists c). cbn in Hv. apply lookup_lt_is_Some in Hv as [a Ha].
    apply (ok_tasklet _ _ _ _ (inv_caller _ _ Hi k a Ha)) in Ho. by destruct (Hk k a Ha). }
  destruct (tracked_leads c t g s pl) as (i & s' & H1 & H2); [|by exists c, i, s'].
  split; try done; [by destruct (runner g t)|by exists x|].
  intros k Hb. destruct (bhown g c) as [[| |k']|] eqn:Eb; try done. injection Hb as ->.
  apply (inv_bhown _ _ Hi) in Eb as Hlk. apply lookup_lt_is_Some_2 in Hlk as [a Ha].
  apply (ok_raise _ _ _ _ (inv_caller _ _ Hi k a Ha)) in Eb. destruct (Hk k a Ha) as [_ Hn]. congruence.
Qed.

(** ** Runs *)

(** Caller [k] takes the first and the next step of a call. *)
Definition do_begin (k : nat) (r : request) (s : sys) : option sys := '(s, a) ← begin r s; Some (set_call k a s).
Definition do_continue (k : nat) (s : sys) : option sys :=
  a ← calls s !! k; '(s, a) ← continue a s; Some (set_call k a s).

Lemma reachable_begin n m ds k r s s' :
  reachable n m ds s -> calls s !! k = Some Idle -> may r s -> do_begin k r s = Some s' -> reachable n m ds s'.
Proof.
  intros Hr Hk Hm ([s1 a] & H & [= <-])%bind_Some. eapply reachable_step; [done|]. by eapply step_begin.
Qed.

Lemma reachable_continue n m ds k s s' : reachable n m ds s -> do_continue k s = Some s' -> reachable n m ds s'.
Proof.
  intros Hr (a & Ha & ([s1 a'] & H & [= <-])%bind_Some)%bind_Some. eapply reachable_step; [done|]. by eapply step_continue.
Qed.

Lemma reachable_bh n m ds i c s s' : reachable n m ds s -> bh_run i c s = Some s' -> reachable n m ds s'.
Proof.
  revert s. induction i as [|i IH]; intros s Hr; cbn; [by intros [= <-]|]. intros (s1 & H1 & H)%bind_Some.
  eapply IH; [|done]. eapply reachable_step; [done|]. by eapply step_bh.
Qed.

(** Two CPUs and two callers; the first schedules the tasklet on CPU 1. *)
Definition scheduled : sys :=
  default (init 2 2 [false]) (s ← do_begin 0 (TaskletSchedule false 0 1) (init 2 2 [false]); do_continue 0 s).

Lemma scheduled_reachable : reachable 2 2 [false] scheduled.
Proof.
  eapply reachable_continue; [eapply reachable_begin; [apply reachable_init|..]|].
  - by instantiate (1 := 0%nat).
  - instantiate (1 := TaskletSchedule false 0 1). cbn. lia.
  - reflexivity.
  - by instantiate (1 := 0%nat).
Qed.

(** Its function is running there, and the second kills it. *)
Definition started : sys := default scheduled (bh_run 12 1 scheduled).

Lemma started_reachable : reachable 2 2 [false] started.
Proof. eapply (reachable_bh _ _ _ 12 1); [apply scheduled_reachable|vm_compute; reflexivity]. Qed.

Lemma tasklet_exclusive_witness :
  running started 1 = Some 0%nat /\ panic started = false /\ held started 0 = 0 /\ ~ in_function started (inl 0%nat) 0.
Proof.
  destruct (tasklet_exclusive 2 2 [false] started started_reachable) as (H1 & H2 & _).
  assert (running started 1 = Some 0%nat) as Hrun by (vm_compute; reflexivity).
  assert (panic started = false) as Hp by (vm_compute; reflexivity).
  split; [exact Hrun|]. split; [exact Hp|]. split; [exact (H2 1%nat 0%nat Hrun)|].
  intros H. discriminate (H1 Hp (inl 0%nat) (inl 1%nat) 0%nat H Hrun).
Defined.

Lemma tasklet_runs_witness : exists c i s', (c < 2)%nat /\ bh_run i c scheduled = Some s' /\ running s' c = Some 0%nat.
Proof.
  apply (tasklet_runs 2 2 [false] scheduled 0 (Tasklet None 1 0) scheduled_reachable); [vm_compute; reflexivity..|].
  intros [|[|k]] a H; vm_compute in H; [injection H as <-; split; [discriminate|reflexivity]..|discriminate H].
Defined.

(** After a panic tasklet_schedule calls the function even where it runs. *)
Definition panicked : sys := Sys (tasklets started) (cpus started) (calls started) true (held started) (soft started).

Example panic_not_serialized :
  exists s, reachable 2 2 [false] s /\ panic s = true /\ in_function s (inl 1%nat) 0 /\ in_function s (inr 0%nat) 0.
Proof.
  exists (default panicked (do_begin 0 (TaskletSchedule false 0 0) panicked)). split; [|vm_compute; done].
  apply (reachable_begin _ _ _ 0 (TaskletSchedule false 0 0) panicked);
    [|vm_compute; reflexivity|apply Nat.ltb_lt; vm_compute; reflexivity|vm_compute; reflexivity].
  eapply reachable_step; [apply started_reachable|]. apply step_panic.
Qed.

(** A tasklet that is disabled keeps its CPU busy: the bottom half comes back to where
    it was, with the softirq raised again. *)
Definition scheduled_disabled : sys :=
  default (init 1 1 [true]) (s ← do_begin 0 (TaskletSchedule false 0 0) (init 1 1 [true]); do_continue 0 s).

Example disabled_is_polled :
  exists s', reachable 1 1 [true] scheduled_disabled /\ bh_run 42 0 scheduled_disabled = Some s' /\
    cpus s' = cpus scheduled_disabled /\ tasklets s' = tasklets scheduled_disabled.
Proof.
  exists (default scheduled_disabled (bh_run 42 0 scheduled_disabled)). split; [|vm_compute; done].
  apply (reachable_continue _ _ _ 0 (default (init 1 1 [true]) (do_begin 0 (TaskletSchedule false 0 0) (init 1 1 [true]))));
    [|vm_compute; reflexivity].
  apply (reachable_begin _ _ _ 0 (TaskletSchedule false 0 0) (init 1 1 [true])); [apply reachable_init|vm_compute; reflexivity|cbn; lia|vm_compute; reflexivity].
Qed.
