(* ===== verification/Jiffies.v ===== *)
(** Time in jiffies: the conversions of [include/linux/jiffies.h], and what
    [vmware/linux_time.c] does with them. The constants are those of the build:
    100 jiffies a second and the timer chip's rate of [asm/8253pit.h]. *)

From S2P Require Import Prelude.
Local Open Scope Z_scope.

Definition HZ : Z := 100.
Definition USER_HZ : Z := 100.
Definition CLOCK_TICK_RATE : Z := 1193182.
Definition MSEC_PER_SEC : Z := 1000.
Definition USEC_PER_SEC : Z := 1000000.
Definition NSEC_PER_USEC : Z := 1000.
Definition NSEC_PER_SEC : Z := 1000000000.
Definition INT_MAX : Z := 2 ^ 31 - 1.

(** ** The constants of jiffies.h *)

(** The branch of the #if for a HZ between 96 and 192. *)
Definition SHIFT_HZ : Z := 7.
Definition LATCH : Z := (CLOCK_TICK_RATE + HZ / 2) / HZ.
Definition SH_DIV (NOM DEN LSH : Z) : Z :=
  Z.shiftl (NOM / DEN) LSH + (Z.shiftl (NOM mod DEN) LSH + DEN / 2) / DEN.
Definition ACTHZ : Z := SH_DIV CLOCK_TICK_RATE LATCH 8.
Definition TICK_NSEC : Z := SH_DIV NSEC_PER_SEC ACTHZ 8.
Definition MAX_JIFFY_OFFSET : Z := Z.shiftr (2 ^ 64 - 1) 1 - 1.
Definition SEC_JIFFIE_SC : Z :=
  if Z.land (Z.shiftl (Z.shiftl NSEC_PER_SEC 2 / TICK_NSEC) (31 - SHIFT_HZ - 2)) 0x80000000 =? 0
  then 32 - SHIFT_HZ else 31 - SHIFT_HZ.
Definition NSEC_JIFFIE_SC : Z := SEC_JIFFIE_SC + 29.
Definition USEC_JIFFIE_SC : Z := SEC_JIFFIE_SC + 19.
Definition SEC_CONVERSION : Z := (Z.shiftl NSEC_PER_SEC SEC_JIFFIE_SC + TICK_NSEC - 1) / TICK_NSEC.
Definition NSEC_CONVERSION : Z := (Z.shiftl 1 NSEC_JIFFIE_SC + TICK_NSEC - 1) / TICK_NSEC.
Definition USEC_CONVERSION : Z := (Z.shiftl NSEC_PER_USEC USEC_JIFFIE_SC + TICK_NSEC - 1) / TICK_NSEC.
Definition USEC_ROUND : Z := Z.shiftl 1 USEC_JIFFIE_SC - 1.
Definition MAX_SEC_IN_JIFFIES : Z := SH_DIV (Z.shiftr MAX_JIFFY_OFFSET SEC_JIFFIE_SC * TICK_NSEC) NSEC_PER_SEC 1 - 1.

(** ** Conversions *)

(** The results are unsigned ints. *)
Definition jiffies_to_msecs (j : Z) : Z := u32 (u64 (MSEC_PER_SEC / HZ * j)).
Definition jiffies_to_usecs (j : Z) : Z := u32 (u64 (USEC_PER_SEC / HZ * j)).

(** [m] and [u] are unsigned ints; the constants are longs, so that the sums are
    in 64 bits. *)
Definition msecs_to_jiffies (m : Z) : Z :=
  if jiffies_to_msecs MAX_JIFFY_OFFSET <? m then MAX_JIFFY_OFFSET
  else u64 (m + MSEC_PER_SEC / HZ - 1) / (MSEC_PER_SEC / HZ).
Definition usecs_to_jiffies (u : Z) : Z :=
  if jiffies_to_usecs MAX_JIFFY_OFFSET <? u then MAX_JIFFY_OFFSET
  else u64 (u + USEC_PER_SEC / HZ - 1) / (USEC_PER_SEC / HZ).

Record timespec := Timespec { tv_sec : Z; tv_nsec : Z }.
Record timeval := Timeval { tv_sec' : Z; tv_usec : Z }.

Definition timespec_to_jiffies (value : timespec) : Z :=
  let sec := u64 (tv_sec value) in
  let nsec := s64 (tv_nsec value + TICK_NSEC - 1) in
  let '(sec, nsec) := if MAX_SEC_IN_JIFFIES <=? sec then (MAX_SEC_IN_JIFFIES, 0) else (sec, nsec) in
  Z.shiftr (u64 (u64 (sec * SEC_CONVERSION) + Z.shiftr (u64 (u64 nsec * NSEC_CONVERSION)) (NSEC_JIFFIE_SC - SEC_JIFFIE_SC)))
    SEC_JIFFIE_SC.

Definition jiffies_to_timespec (jiffies : Z) : timespec :=
  let nsec := u64 (jiffies * TICK_NSEC) in
  Timespec (nsec / NSEC_PER_SEC) (nsec mod NSEC_PER_SEC).

Definition timeval_to_jiffies (value : timeval) : Z :=
  let sec := u64 (tv_sec' value) in
  let '(sec, usec) := if MAX_SEC_IN_JIFFIES <=? sec then (MAX_SEC_IN_JIFFIES, 0) else (sec, tv_usec value) in
  Z.shiftr (u64 (u64 (sec * SEC_CONVERSION) +
      Z.shiftr (u64 (u64 (u64 usec * USEC_CONVERSION) + USEC_ROUND)) (USEC_JIFFIE_SC - SEC_JIFFIE_SC)))
    SEC_JIFFIE_SC.

Definition jiffies_to_timeval (jiffies : Z) : timeval :=
  let nsec := u64 (jiffies * TICK_NSEC) in
  Timeval (nsec / NSEC_PER_SEC) (nsec mod NSEC_PER_SEC / NSEC_PER_USEC).

(** time_after and its kin; the difference of two longs wraps. *)
Definition time_after (a b : Z) : bool := s64 (s64 b - s64 a) <? 0.
Definition time_before (a b : Z) : bool := time_after b a.
Definition time_after_eq (a b : Z) : bool := 0 <=? s64 (s64 a - s64 b).
Definition time_before_eq (a b : Z) : bool := time_after_eq b a.

(** ** Timers *)

Definition JIFFIES_TO_USEC (j : Z) : Z := u64 (j * 10000).

(** The timeout that __add_timer and __mod_timer give to the VMkernel. *)
Definition timer_timeout (expires jiffies : Z) : Z :=
  let timeout := if expires <=? jiffies then JIFFIES_TO_USEC 1 else JIFFIES_TO_USEC (u64 (expires - jiffies)) in
  if INT_MAX <? timeout then INT_MAX else timeout.

(** [cpu * 3] is an int. *)
Definition __round_jiffies (jiffies j cpu : Z) : Z :=
  let original := j in
  let j := u64 (j + s32 (cpu * 3)) in
  let rem := s32 (j mod HZ) in
  let j := if rem <? HZ / 4 then u64 (j - rem) else u64 (u64 (j - rem) + HZ) in
  let j := u64 (j - s32 (cpu * 3)) in
  if j <=? jiffies then original else j.

Definition __round_jiffies_relative (jiffies j cpu : Z) : Z :=
  u64 (__round_jiffies jiffies (u64 (j + jiffies)) cpu - jiffies).

(** ** The constants, evaluated *)

Lemma TICK_NSEC_eq : TICK_NSEC = 10000000.
Proof. reflexivity. Qed.
Lemma SEC_JIFFIE_SC_eq : SEC_JIFFIE_SC = 25.
Proof. reflexivity. Qed.
Lemma SEC_CONVERSION_eq : SEC_CONVERSION = 3355443200.
Proof. reflexivity. Qed.
Lemma NSEC_CONVERSION_eq : NSEC_CONVERSION = 1801439851.
Proof. reflexivity. Qed.
Lemma USEC_CONVERSION_eq : USEC_CONVERSION = 1759218605.
Proof. reflexivity. Qed.
Lemma MAX_SEC_eq : MAX_SEC_IN_JIFFIES = 5497558138.
Proof. reflexivity. Qed.
Lemma max_msecs : jiffies_to_msecs MAX_JIFFY_OFFSET = 2 ^ 32 - 20.
Proof. reflexivity. Qed.
Lemma max_usecs : jiffies_to_usecs MAX_JIFFY_OFFSET = 2 ^ 32 - 20000.
Proof. reflexivity. Qed.
#[local] Opaque TICK_NSEC SEC_JIFFIE_SC SEC_CONVERSION NSEC_CONVERSION USEC_CONVERSION MAX_SEC_IN_JIFFIES
  jiffies_to_msecs jiffies_to_usecs.

(** ** Conversions round up *)

(** [j] jiffies are at least [ns] nanoseconds, and less than a jiffy more. *)
Definition rounds_up (ns j : Z) : Prop := ns <= j * TICK_NSEC < ns + TICK_NSEC.

Lemma rounds_up_unique ns i j : rounds_up ns i -> rounds_up ns j -> i = j.
Proof. unfold rounds_up. rewrite TICK_NSEC_eq. lia. Qed.

Lemma msecs_to_jiffies_up m : 0 <= m <= 2 ^ 32 - 20 -> rounds_up (m * 1000000) (msecs_to_jiffies m).
Proof.
  intros Hm. unfold rounds_up, msecs_to_jiffies, MSEC_PER_SEC, HZ. rewrite max_msecs, TICK_NSEC_eq.
  destruct (Z.ltb_spec (2 ^ 32 - 20) m); [lia|].
  change (1000 / 100) with 10. rewrite wrap_small by lia. arith.
Qed.

Lemma usecs_to_jiffies_up u : 0 <= u <= 2 ^ 32 - 20000 -> rounds_up (u * 1000) (usecs_to_jiffies u).
Proof.
  intros Hm. unfold rounds_up, usecs_to_jiffies, USEC_PER_SEC, HZ. rewrite max_usecs, TICK_NSEC_eq.
  destruct (Z.ltb_spec (2 ^ 32 - 20000) u); [lia|].
  change (1000000 / 100) with 10000. rewrite wrap_small by lia. arith.
Qed.

(** The shifts of the scaled arithmetic: whole seconds are exact, and the
    error of the rest is shifted out. *)
Lemma scaled_shift sec f :
  0 <= sec -> 0 <= f -> Z.shiftr (sec * 3355443200 + f) 25 = sec * 100 + f / 2 ^ 25.
Proof. intros. rewrite shiftr_div by done. change 3355443200 with (100 * 2 ^ 25). rewrite Z.mul_assoc, Z.add_comm, Z.div_add by done. lia. Qed.

Lemma scaled_nsec n : 0 <= n < 1000000000 + 10000000 -> n * 1801439851 / 2 ^ 54 = n / 10000000.
Proof.
  intros Hn. symmetry. pose proof (Z.div_mod n 10000000 ltac:(lia)). pose proof (Z.mod_pos_bound n 10000000 ltac:(lia)).
  apply Z.div_unique with (r := n * 1801439851 - n / 10000000 * 2 ^ 54); [left|]; lia.
Qed.

Lemma scaled_usec u :
  0 <= u < 1000000 ->
  (u * 1759218605 + (2 ^ 44 - 1)) / 2 ^ 44 = (u + 9999) / 10000 + (if (0 <? u) && (u mod 10000 =? 0) then 1 else 0).
Proof.
  intros Hu. symmetry. pose proof (Z.div_mod u 10000 ltac:(lia)) as E. pose proof (Z.mod_pos_bound u 10000 ltac:(lia)) as B.
  set (q := u / 10000) in *. set (r := u mod 10000) in *.
  assert ((u + 9999) / 10000 = q + (if r =? 0 then 0 else 1)) as ->.
  { symmetry. destruct (Z.eqb_spec r 0); apply Z.div_unique with (r := if r =? 0 then 9999 else r - 1); destruct (Z.eqb_spec r 0); lia. }
  destruct (Z.eqb_spec r 0) as [Er|Er], (Z.ltb_spec 0 u) as [Hp|Hp]; cbn [andb];
    match goal with |- ?x = _ => apply (Z.div_unique _ _ x (u * 1759218605 + (2 ^ 44 - 1) - x * 2 ^ 44)); [left|]; lia end.
Qed.

Definition timespec_valid (v : timespec) : Prop := 0 <= tv_sec v /\ 0 <= tv_nsec v < NSEC_PER_SEC.
Definition timeval_valid (v : timeval) : Prop := 0 <= tv_sec' v /\ 0 <= tv_usec v < USEC_PER_SEC.

Lemma timespec_to_jiffies_up v :
  timespec_valid v -> tv_sec v < MAX_SEC_IN_JIFFIES ->
  rounds_up (tv_sec v * NSEC_PER_SEC + tv_nsec v) (timespec_to_jiffies v).
Proof.
  destruct v as [sec nsec]. unfold timespec_valid, NSEC_PER_SEC. cbn [tv_sec tv_nsec]. rewrite MAX_SEC_eq. intros [Hs Hn] Hmax.
  unfold timespec_to_jiffies, rounds_up. cbn [tv_sec tv_nsec]. unfold NSEC_JIFFIE_SC.
  rewrite MAX_SEC_eq, SEC_JIFFIE_SC_eq, SEC_CONVERSION_eq, NSEC_CONVERSION_eq, TICK_NSEC_eq.
  rewrite (wrap_small 64 sec) by lia.
  rewrite (sext_small 64) by (change (64 - 1) with 63; lia). destruct (Z.leb_spec 5497558138 sec); [lia|]. change (25 + 29 - 25) with 29.
  rewrite (wrap_small 64 (nsec + 10000000 - 1)) by lia. rewrite (wrap_small 64 (_ * 1801439851)), (wrap_small 64 (sec * _)) by lia.
  rewrite (shiftr_div _ 29) by done. set (f := (nsec + 10000000 - 1) * 1801439851 / 2 ^ 29).
  assert (0 <= f < 2 ^ 32) as Hf by (unfold f; arith). rewrite wrap_small by lia.
  rewrite scaled_shift by lia. unfold f. rewrite Z.div_div by lia. change (2 ^ 29 * 2 ^ 25) with (2 ^ 54).
  rewrite scaled_nsec by lia. arith.
Qed.

(** A timeval of whole jiffies gets one too many. *)
Definition usec_extra (v : timeval) : Z := if (0 <? tv_usec v) && (tv_usec v mod 10000 =? 0) then 1 else 0.

Lemma timeval_to_jiffies_up v :
  timeval_valid v -> tv_sec' v < MAX_SEC_IN_JIFFIES ->
  rounds_up (tv_sec' v * NSEC_PER_SEC + tv_usec v * NSEC_PER_USEC) (timeval_to_jiffies v - usec_extra v).
Proof.
  destruct v as [sec usec]. unfold timeval_valid, USEC_PER_SEC, NSEC_PER_USEC, NSEC_PER_SEC, usec_extra. cbn [tv_sec' tv_usec].
  rewrite MAX_SEC_eq. intros [Hs Hn] Hmax. unfold timeval_to_jiffies, rounds_up. cbn [tv_sec' tv_usec]. unfold USEC_ROUND, USEC_JIFFIE_SC.
  rewrite MAX_SEC_eq, SEC_JIFFIE_SC_eq, SEC_CONVERSION_eq, USEC_CONVERSION_eq, TICK_NSEC_eq. rewrite (wrap_small 64 sec) by lia.
  destruct (Z.leb_spec 5497558138 sec); [lia|]. change (25 + 19 - 25) with 19. change (Z.shiftl 1 (25 + 19) - 1) with (2 ^ 44 - 1).
  rewrite (wrap_small 64 usec) by lia. rewrite (wrap_small 64 (usec * _)) by lia.
  rewrite (wrap_small 64 (usec * _ + _)), (wrap_small 64 (sec * _)) by lia.
  rewrite (shiftr_div _ 19) by done. set (f := (usec * 1759218605 + (2 ^ 44 - 1)) / 2 ^ 19).
  assert (0 <= f < 2 ^ 32) as Hf by (unfold f; arith). rewrite wrap_small by lia.
  rewrite scaled_shift by lia. unfold f. rewrite Z.div_div by lia. change (2 ^ 19 * 2 ^ 25) with (2 ^ 44).
  rewrite scaled_usec by lia. arith.
Qed.

(** Longer times, and negative ones, give the longest that is distinguished. *)
Lemma timespec_to_jiffies_max v :
  MAX_SEC_IN_JIFFIES <= u64 (tv_sec v) -> timespec_to_jiffies v = MAX_SEC_IN_JIFFIES * HZ.
Proof.
  intros H. unfold timespec_to_jiffies. destruct (Z.leb_spec MAX_SEC_IN_JIFFIES (u64 (tv_sec v))); [|lia].
  vm_compute. reflexivity.
Qed.

Lemma timeval_to_jiffies_max v :
  MAX_SEC_IN_JIFFIES <= u64 (tv_sec' v) -> timeval_to_jiffies v = MAX_SEC_IN_JIFFIES * HZ.
Proof.
  intros H. unfold timeval_to_jiffies. destruct (Z.leb_spec MAX_SEC_IN_JIFFIES (u64 (tv_sec' v))); [|lia].
  vm_compute. reflexivity.
Qed.

(** There and back. *)
Lemma jiffies_to_timespec_valid j :
  0 <= j < MAX_SEC_IN_JIFFIES * HZ ->
  timespec_valid (jiffies_to_timespec j) /\ tv_sec (jiffies_to_timespec j) < MAX_SEC_IN_JIFFIES /\
  tv_sec (jiffies_to_timespec j) * NSEC_PER_SEC + tv_nsec (jiffies_to_timespec j) = j * TICK_NSEC.
Proof.
  unfold timespec_valid, jiffies_to_timespec, HZ, NSEC_PER_SEC. cbn [tv_sec tv_nsec]. rewrite MAX_SEC_eq, TICK_NSEC_eq. intros Hj.
  rewrite wrap_small by lia. arith.
Qed.

Lemma timespec_roundtrip j : 0 <= j < MAX_SEC_IN_JIFFIES * HZ -> timespec_to_jiffies (jiffies_to_timespec j) = j.
Proof.
  intros Hj. destruct (jiffies_to_timespec_valid j Hj) as (Hv & Hmax & E).
  eapply rounds_up_unique; [by apply timespec_to_jiffies_up|]. rewrite E. unfold rounds_up. rewrite TICK_NSEC_eq. lia.
Qed.

Lemma timeval_roundtrip j :
  0 <= j < MAX_SEC_IN_JIFFIES * HZ ->
  timeval_to_jiffies (jiffies_to_timeval j) = j + (if j mod HZ =? 0 then 0 else 1).
Proof.
  intros Hj. destruct (jiffies_to_timespec_valid j Hj) as ([H1 H2] & Hmax & E).
  unfold jiffies_to_timespec, NSEC_PER_SEC in *. cbn [tv_sec tv_nsec] in *. rewrite TICK_NSEC_eq, MAX_SEC_eq in *. unfold HZ in *.
  rewrite wrap_small in * by lia.
  assert (j * 10000000 mod 1000000000 = j mod 100 * 10000000) as Em by (change 1000000000 with (100 * 10000000); by rewrite Z.mul_mod_distr_r by lia).
  pose proof (timeval_to_jiffies_up (jiffies_to_timeval j)) as Hup. unfold jiffies_to_timeval, timeval_valid, usec_extra in *.
  cbn [tv_sec' tv_usec] in *. unfold NSEC_PER_SEC, NSEC_PER_USEC, USEC_PER_SEC in *. rewrite TICK_NSEC_eq, MAX_SEC_eq in *.
  rewrite wrap_small in * by lia. rewrite Em in *.
  replace (j mod 100 * 10000000 / 1000) with (j mod 100 * 10000) in * by (rewrite <- (Z.div_mul (j mod 100 * 10000) 1000) by lia; f_equal; lia).
  rewrite Z.mod_mul, Z.eqb_refl, andb_true_r in Hup by lia. specialize (Hup ltac:(arith) ltac:(lia)).
  unfold rounds_up in Hup. rewrite TICK_NSEC_eq in Hup. set (x := timeval_to_jiffies _) in *.
  destruct (Z.ltb_spec 0 (j mod 100 * 10000)), (Z.eqb_spec (j mod 100) 0); lia.
Qed.

(** C26: A time converted to jiffies is never cut short and never more than a jiffy
    longer, for every count of milliseconds and microseconds and every valid
    timespec; counts that a 32-bit count of milliseconds cannot reach become
    MAX_JIFFY_OFFSET, later times and negative ones the longest time that is
    distinguished, and nothing overflows. Jiffies converted to a timespec come back as they
    were. A timeval is rounded up in the same way, but gets one jiffy more when
    its microseconds are whole jiffies, so that a timeval made from jiffies
    comes back longer unless it is whole seconds. *)
Theorem jiffies_conversions :
  (forall m, 0 <= m <= 2 ^ 32 - 20 -> rounds_up (m * 1000000) (msecs_to_jiffies m)) /\
  (forall u, 0 <= u <= 2 ^ 32 - 20000 -> rounds_up (u * 1000) (usecs_to_jiffies u)) /\
  (forall m, 2 ^ 32 - 20 < m < 2 ^ 32 -> msecs_to_jiffies m = MAX_JIFFY_OFFSET) /\
  (forall u, 2 ^ 32 - 20000 < u < 2 ^ 32 -> usecs_to_jiffies u = MAX_JIFFY_OFFSET) /\
  (forall v, timespec_valid v -> tv_sec v < MAX_SEC_IN_JIFFIES ->
    rounds_up (tv_sec v * NSEC_PER_SEC + tv_nsec v) (timespec_to_jiffies v)) /\
  (forall v, - 2 ^ 63 <= tv_sec v < 0 \/ MAX_SEC_IN_JIFFIES <= tv_sec v < 2 ^ 63 -> timespec_to_jiffies v = MAX_SEC_IN_JIFFIES * HZ) /\
  (forall v, timeval_valid v -> tv_sec' v < MAX_SEC_IN_JIFFIES ->
    rounds_up (tv_sec' v * NSEC_PER_SEC + tv_usec v * NSEC_PER_USEC) (timeval_to_jiffies v - usec_extra v)) /\
  (forall j, 0 <= j < MAX_SEC_IN_JIFFIES * HZ ->
    timespec_to_jiffies (jiffies_to_timespec j) = j /\
    timeval_to_jiffies (jiffies_to_timeval j) = j + (if j mod HZ =? 0 then 0 else 1)).
Proof.
  split; [exact msecs_to_jiffies_up|]. split; [exact usecs_to_jiffies_up|]. split; [|split; [|split; [exact timespec_to_jiffies_up|split; [|split]]]].
  - intros m Hm. unfold msecs_to_jiffies. rewrite max_msecs. destruct (Z.ltb_spec (2 ^ 32 - 20) m); [done|lia].
  - intros u Hu. unfold usecs_to_jiffies. rewrite max_usecs. destruct (Z.ltb_spec (2 ^ 32 - 20000) u); [done|lia].
  - intros v Hv. apply timespec_to_jiffies_max. rewrite MAX_SEC_eq in *. unfold wrap. arith.
  - exact timeval_to_jiffies_up.
  - intros j Hj. split; [by apply timespec_roundtrip|by apply timeval_roundtrip].
Qed.

Lemma jiffies_conversions_witness :
  rounds_up 15000000 (msecs_to_jiffies 15) /\ rounds_up 3000000001 (timespec_to_jiffies (Timespec 3 1)) /\
  timespec_to_jiffies (Timespec 3 1) = 301 /\ timeval_to_jiffies (jiffies_to_timeval 7) = 8.
Proof.
  destruct jiffies_conversions as (H1 & _ & _ & _ & H5 & _ & _ & H8).
  split; [apply (H1 15); lia|]. split; [apply (H5 (Timespec 3 1)); [split; vm_compute; intuition discriminate|reflexivity]|].
  split; [reflexivity|]. apply (H8 7). split; [lia|reflexivity].
Defined.

Lemma timer_timeout_range expires jiffies : 0 <= jiffies -> expires < jiffies + 2 ^ 50 -> 10000 <= timer_timeout expires jiffies <= INT_MAX.
Proof.
  intros Hj He. unfold timer_timeout, JIFFIES_TO_USEC, INT_MAX. destruct (Z.leb_spec expires jiffies).
  - rewrite wrap_small by lia. case_test; lia.
  - rewrite (wrap_small 64 (expires - jiffies)), wrap_small by lia. case_test; lia.
Qed.

(** A timer that a driver arms for [m] milliseconds from now is given to the
    VMkernel with a timeout of at least a jiffy and at most INT_MAX microseconds. Up to
    that, 35 minutes and 47 seconds, it is not shorter than asked for and
    less than a jiffy longer (but a jiffy at least); a longer one goes off after INT_MAX
    microseconds, too early. *)
Lemma timer_delay jiffies m :
  0 <= jiffies < 2 ^ 63 -> 0 <= m <= 2 ^ 32 - 20 ->
  let t := timer_timeout (u64 (jiffies + msecs_to_jiffies m)) jiffies in
  10000 <= t <= INT_MAX /\
  (m <= 2147480 -> m * 1000 <= t <= Z.max 10000 (m * 1000 + 9999)) /\
  (2147480 < m -> t = INT_MAX) /\
  (2147483 < m -> t < m * 1000).
Proof.
  intros Hj Hm t. pose proof (msecs_to_jiffies_up m Hm) as Hup. unfold rounds_up in Hup. rewrite TICK_NSEC_eq in Hup.
  assert (t = if msecs_to_jiffies m =? 0 then 10000 else Z.min INT_MAX (10000 * msecs_to_jiffies m)) as ->.
  { unfold t, timer_timeout, JIFFIES_TO_USEC, INT_MAX. rewrite (wrap_small 64 (jiffies + _)) by lia.
    destruct (Z.eqb_spec (msecs_to_jiffies m) 0) as [E|E], (Z.leb_spec (jiffies + msecs_to_jiffies m) jiffies); try lia.
    - rewrite wrap_small by lia. case_test; lia.
    - rewrite (wrap_small 64 (_ - _)), wrap_small by lia. case_test; lia. }
  unfold INT_MAX. destruct (Z.eqb_spec (msecs_to_jiffies m) 0) as [E|E]; lia.
Qed.

Example timer_hour : timer_timeout (u64 (1000 + msecs_to_jiffies 3600000)) 1000 = INT_MAX /\ INT_MAX < 3600000 * 1000.
Proof. split; reflexivity. Qed.

(** The product with the length of a jiffy wraps: a timer a few thousand million
    years ahead goes off at once. *)
Example timeout_wraps : timer_timeout (1000 + 2 ^ 60) 1000 = 0.
Proof. reflexivity. Qed.

(** Rounded to the second: up to a quarter of a second earlier or three quarters later, in the
    future, and a whole second but for the CPU's skew unless it was left. *)
Lemma round_jiffies_bounds jiffies j cpu :
  0 <= cpu < 2 ^ 16 -> 0 <= jiffies < j -> HZ / 4 <= j -> j + 2 ^ 20 < 2 ^ 64 ->
  let r := __round_jiffies jiffies j cpu in
  j - HZ / 4 < r <= j + 3 * HZ / 4 /\ jiffies < r /\ (r = j \/ (r + 3 * cpu) mod HZ = 0).
Proof.
  intros Hcpu Hj Hq Hmax r. unfold r, __round_jiffies, HZ in *. change (100 / 4) with 25 in *. change (3 * 100 / 4) with 75.
  rewrite (sext_small 32 (cpu * 3)) by (change (32 - 1) with 31; lia). rewrite (wrap_small 64 (j + cpu * 3)) by lia.
  pose proof (Z.mod_pos_bound (j + cpu * 3) 100 ltac:(lia)) as Hb. pose proof (Z.div_mod (j + cpu * 3) 100 ltac:(lia)) as Hd.
  set (q := (j + cpu * 3) / 100) in *. set (m := (j + cpu * 3) mod 100) in *.
  rewrite (sext_small 32 m) by (change (32 - 1) with 31; lia).
  destruct (Z.ltb_spec m 25).
  - rewrite (wrap_small 64 (j + cpu * 3 - m)), wrap_small by lia. case_test; [lia|]. split; [lia|]. split; [lia|]. right.
    replace (j + cpu * 3 - m - cpu * 3 + 3 * cpu) with (q * 100) by lia. by apply Z.mod_mul.
  - rewrite (wrap_small 64 (j + cpu * 3 - m)), (wrap_small 64 (_ + 100)), wrap_small by lia. case_test; [lia|]. split; [lia|]. split; [lia|]. right.
    replace (j + cpu * 3 - m + 100 - cpu * 3 + 3 * cpu) with ((q + 1) * 100) by lia. by apply Z.mod_mul.
Qed.

(** A time compares by the shorter way around. *)
Lemma time_after_spec a b :
  0 <= a < 2 ^ 64 -> 0 <= b < 2 ^ 64 -> time_after a b = true <-> 0 < u64 (a - b) <= 2 ^ 63.
Proof.
  intros Ha Hb. unfold time_after. rewrite Z.ltb_lt. unfold sext, wrap. change (64 - 1) with 63. arith.
Qed.
