(* ===== verification/ScsiCmd.v ===== *)
(** The commands of the SCSI layer over the hypervisor, [vmware/linux_scsi.c]: the
    structure a driver gets, its initialisation from a command of the VMkernel,
    and the translation of what the driver answers. The way of a command through
    the layer is in [ScsiLife].

    A function of this file is the part of a function of the code that works on
    the command alone; the memory it came from may hold anything before. *)

From S2P Require Import Prelude.
Local Open Scope Z_scope.

(** ** Constants *)

(** enum VMKLinux_Flags *)
Definition VMK_FLAGS_NEED_CMDDONE : Z := 0x8.
Definition VMK_FLAGS_DELAY_CMDDONE : Z := 0x10.
Definition VMK_FLAGS_CMDDONE_ATTEMPTED : Z := 0x20.
Definition VMK_FLAGS_TMF_REQUEST : Z := 0x40.
Definition VMK_FLAGS_IO_TIMEOUT : Z := 0x100.
Definition VMK_FLAGS_INTERNAL_COMMAND : Z := 0x200.

Definition DID_OK : Z := 0x0.
Definition DID_NO_CONNECT : Z := 0x1.
Definition DID_TIME_OUT : Z := 0x3.
Definition DID_ABORT : Z := 0x5.
Definition DID_ERROR : Z := 0x7.
Definition SAM_STAT_GOOD : Z := 0x0.
Definition SAM_STAT_BUSY : Z := 0x8.
Definition DRIVER_OK : Z := 0x0.
Definition DRIVER_BUSY : Z := 0x1.
Definition DRIVER_SOFT : Z := 0x2.
Definition DRIVER_MEDIA : Z := 0x3.
Definition DRIVER_ERROR : Z := 0x4.
Definition DRIVER_INVALID : Z := 0x5.
Definition DRIVER_TIMEOUT : Z := 0x6.
Definition DRIVER_HARD : Z := 0x7.
Definition DRIVER_SENSE : Z := 0x8.

Definition VMK_SCSI_HOST_OK : Z := 0x0.
Definition VMK_SCSI_HOST_TIMEOUT : Z := 0x3.
Definition VMK_SCSI_HOST_ERROR : Z := 0x7.
Definition VMK_SCSI_DEVICE_GOOD : Z := 0x0.
Definition VMK_SCSI_DEVICE_BUSY : Z := 0x8.

Definition SIMPLE_QUEUE_TAG : Z := 0x20.
Definition ORDERED_QUEUE_TAG : Z := 0x22.

(** ** Data *)

Inductive vmk_ScsiCommandDirection := DirUnknown | DirWrite | DirRead | DirNone.
Inductive dma_data_direction := DMA_BIDIRECTIONAL | DMA_TO_DEVICE | DMA_FROM_DEVICE | DMA_NONE.
Inductive sg_type := SG_LINUX | SG_VMK.

(** What the layer reads of a vmk_ScsiCommand: its CDB ([cdbLen] bytes), the lengths
    of its scatter-gather elements, the least transfer that counts as a success,
    the direction and the tag it asks for. *)
Record vmk_ScsiCommand := VmkCmd {
  cdb : list Z;
  sg_lengths : list Z;
  requiredDataLen : Z;
  dataDirection : vmk_ScsiCommandDirection;
  ordered_tag : bool;
}.

(** struct scsi_cmnd; [device] is the place of the device in a table and [vmkCmdPtr]
    that of the command of the VMkernel, [eh_function] says whether
    [eh_timeout.function] is set. *)
Record scsi_cmnd := Cmnd {
  device : nat;
  serial_number : Z;
  vmkflags : Z;
  result : Z;
  resid : Z;
  request_bufflen : Z;
  underflow : Z;
  sense_buffer : list Z;
  cmnd : list Z;
  cmd_len : Z;
  sc_data_direction : dma_data_direction;
  tag : Z;
  sgArray : option sg_type;
  eh_function : bool;
  vmkCmdPtr : nat;
}.

Definition set_device (d : nat) (x : scsi_cmnd) : scsi_cmnd :=
  Cmnd d (serial_number x) (vmkflags x) (result x) (resid x) (request_bufflen x) (underflow x)
    (sense_buffer x) (cmnd x) (cmd_len x) (sc_data_direction x) (tag x) (sgArray x) (eh_function x) (vmkCmdPtr x).
Definition set_serial_number (n : Z) (x : scsi_cmnd) : scsi_cmnd :=
  Cmnd (device x) n (vmkflags x) (result x) (resid x) (request_bufflen x) (underflow x)
    (sense_buffer x) (cmnd x) (cmd_len x) (sc_data_direction x) (tag x) (sgArray x) (eh_function x) (vmkCmdPtr x).
Definition set_vmkflags (f : Z) (x : scsi_cmnd) : scsi_cmnd :=
  Cmnd (device x) (serial_number x) f (result x) (resid x) (request_bufflen x) (underflow x)
    (sense_buffer x) (cmnd x) (cmd_len x) (sc_data_direction x) (tag x) (sgArray x) (eh_function x) (vmkCmdPtr x).
Definition set_result (r : Z) (x : scsi_cmnd) : scsi_cmnd :=
  Cmnd (device x) (serial_number x) (vmkflags x) r (resid x) (request_bufflen x) (underflow x)
    (sense_buffer x) (cmnd x) (cmd_len x) (sc_data_direction x) (tag x) (sgArray x) (eh_function x) (vmkCmdPtr x).
Definition set_answer (r n : Z) (sense : list Z) (x : scsi_cmnd) : scsi_cmnd :=
  Cmnd (device x) (serial_number x) (vmkflags x) r n (request_bufflen x) (underflow x)
    sense (cmnd x) (cmd_len x) (sc_data_direction x) (tag x) (sgArray x) (eh_function x) (vmkCmdPtr x).
Definition set_sgArray (a : option sg_type) (x : scsi_cmnd) : scsi_cmnd :=
  Cmnd (device x) (serial_number x) (vmkflags x) (result x) (resid x) (request_bufflen x) (underflow x)
    (sense_buffer x) (cmnd x) (cmd_len x) (sc_data_direction x) (tag x) a (eh_function x) (vmkCmdPtr x).
Definition set_eh_function (b : bool) (x : scsi_cmnd) : scsi_cmnd :=
  Cmnd (device x) (serial_number x) (vmkflags x) (result x) (resid x) (request_bufflen x) (underflow x)
    (sense_buffer x) (cmnd x) (cmd_len x) (sc_data_direction x) (tag x) (sgArray x) b (vmkCmdPtr x).

(** *** Flags *)

Definition test_flag (f : Z) (x : scsi_cmnd) : bool := negb (Z.land (vmkflags x) f =? 0).
Definition set_flag (f : Z) (x : scsi_cmnd) : scsi_cmnd := set_vmkflags (Z.lor (vmkflags x) f) x.
Definition clear_flag (f : Z) (x : scsi_cmnd) : scsi_cmnd := set_vmkflags (Z.land (vmkflags x) (Z.lnot f)) x.

(** ** The direction of a command *)

Definition one_of (l : list Z) (c : Z) : bool := existsb (Z.eqb c) l.

Definition to_device_commands : list Z :=
  [0x04; 0x07; 0x0a; 0x0b; 0x15; 0x18; 0x1d; 0x24; 0x2a; 0x2e; 0x30; 0x31; 0x32; 0x38; 0x39; 0x3a; 0x3b; 0x3d;
   0x3f; 0x40; 0x41; 0x4c; 0x55; 0x56; 0x5d; 0x5f; 0xaa; 0xae; 0xb0; 0xb1; 0xb2; 0xb6; 0xbf].
Definition from_device_commands : list Z :=
  [0x03; 0x05; 0x08; 0x0f; 0x12; 0x14; 0x1a; 0x1c; 0x25; 0x28; 0x29; 0x2d; 0x34; 0x37; 0x3c; 0x3e; 0x42; 0x46;
   0x43; 0x44; 0x4a; 0x4d; 0x51; 0x52; 0x5a; 0x5c; 0x5e; 0x9e; 0xa0; 0xa8; 0xad; 0xb7; 0xb8; 0xb9; 0xbc; 0xbd; 0xbe].
Definition no_data_commands : list Z :=
  [0x00; 0x01; 0x16; 0x17; 0x19; 0x1b; 0x1e; 0x2b; 0x2f; 0x33; 0x35; 0x36; 0x45; 0x47; 0x48; 0x49; 0x4b; 0x4e;
   0x53; 0x57; 0x5b; 0xa1; 0xa5; 0xa6; 0xa9; 0xac; 0xaf; 0xb3; 0xb5; 0xba; 0xbb].
Definition vendor_from_device_commands : list Z := [0x02; 0x06; 0x09; 0x0c; 0x0d; 0x0e; 0x13; 0x20; 0x21; 0x23; 0x27].
(** The subcommands of MDACIOCTL_DIRECT_CMD that write. *)
Definition mdacioctl_writes : list Z := [0x2c; 0xa6; 0xac; 0xad; 0xc0; 0xc4; 0xc6; 0xc8; 0xcf; 0xd1; 0xd4; 0xd5].
Definition MDACIOCTL_DIRECT_CMD : Z := 0x22.
Definition MDACIOCTL_PASS_THRU_INITIATE : Z := 0xae.

(** [optical]: the device is of the class OPTICAL, CDROM or WORM. *)
Definition SCSILinuxGetDataDirection (optical : bool) (x : scsi_cmnd) (guest : vmk_ScsiCommandDirection) : dma_data_direction :=
  let cmd := nth 0 (cmnd x) 0 in
  let data d := if request_bufflen x =? 0 then DMA_NONE else d in
  match guest with
  | DirRead => DMA_FROM_DEVICE
  | DirWrite => DMA_TO_DEVICE
  | DirNone => DMA_NONE
  | DirUnknown =>
      if one_of to_device_commands cmd then DMA_TO_DEVICE
      else if one_of from_device_commands cmd then DMA_FROM_DEVICE
      else if one_of no_data_commands cmd then DMA_NONE
      else if cmd =? 0xa4 then if optical then DMA_FROM_DEVICE else DMA_TO_DEVICE
      else if cmd =? 0xa3 then if optical then DMA_TO_DEVICE else DMA_FROM_DEVICE
      else if one_of vendor_from_device_commands cmd then DMA_FROM_DEVICE
      else if cmd =? MDACIOCTL_DIRECT_CMD then
        let sub := nth 2 (cmnd x) 0 in
        if one_of mdacioctl_writes sub then DMA_TO_DEVICE
        else if sub =? MDACIOCTL_PASS_THRU_INITIATE then
          if Z.land (nth 3 (cmnd x) 0) 0x80 =? 0 then DMA_FROM_DEVICE else DMA_TO_DEVICE
        else DMA_FROM_DEVICE
      else if one_of [0x50; 0x54] cmd then DMA_TO_DEVICE
      else if one_of [0x59; 0xb4] cmd then DMA_FROM_DEVICE
      else if cmd =? 0x58 then DMA_NONE
      else if cmd =? 0xee then DMA_TO_DEVICE
      else if cmd =? 0xef then DMA_FROM_DEVICE
      else if cmd =? 0xff then DMA_BIDIRECTIONAL
      else if one_of [0x26; 0x2c] cmd then data DMA_TO_DEVICE
      else if one_of [0x10; 0x11] cmd then
        (* 0x10 and 0x11 fall through to 0xe6 *)
        data DMA_FROM_DEVICE
      else if cmd =? 0xe6 then DMA_NONE
      else if cmd =? 0xe9 then DMA_TO_DEVICE
      else if cmd =? 0xeb then DMA_FROM_DEVICE
      else DMA_BIDIRECTIONAL
  end.

(** ** Making a command *)

(** The fields a command from the allocator must not keep. *)
Definition vmklnx_clear_scmd (x : scsi_cmnd) : scsi_cmnd :=
  Cmnd (device x) (serial_number x) 0 0 0 0 (underflow x)
    (replicate 24 0 ++ drop 24 (sense_buffer x)) (cmnd x) (cmd_len x) (sc_data_direction x) (tag x) None false (vmkCmdPtr x).

(** [vmkSgArray] is the adapter's, [alloc] whether scsi_alloc_sgtable succeeds. *)
Definition SCSILinuxComputeSGArray (vmkSgArray alloc : bool) (v : vmk_ScsiCommand) (x : scsi_cmnd) : option scsi_cmnd :=
  let with_sg a :=
    Cmnd (device x) (serial_number x) (vmkflags x) (result x) (resid x)
      (fold_left (fun n e => u32 (n + e)) (sg_lengths v) (request_bufflen x)) (underflow x)
      (sense_buffer x) (cmnd x) (cmd_len x) (sc_data_direction x) (tag x) (Some a) (eh_function x) (vmkCmdPtr x) in
  match sg_lengths v with
  | [] => Some x
  | _ => if vmkSgArray then Some (with_sg SG_VMK) else if alloc then Some (with_sg SG_LINUX) else None
  end.

(** The counter and the serial number it gives, which is not zero. *)
Definition SCSILinuxGetSerialNumber (counter : Z) : Z * Z :=
  let counter' := u64 (counter + 1) in
  if counter =? 0 then (counter', u64 (counter' + 1)) else (counter, counter').

(** SCSILinuxInitScmd and what SCSILinuxQueueCommand fills in after it, for the
    command [r] of the VMkernel and a serial number [sn]. *)
Definition prepare_scmd (tagged optical : bool) (r : nat) (v : vmk_ScsiCommand) (sn : Z) (x : scsi_cmnd) : scsi_cmnd :=
  let t := if tagged then if ordered_tag v then ORDERED_QUEUE_TAG else SIMPLE_QUEUE_TAG else 0 in
  let bytes := cdb v ++ drop (length (cdb v)) (cmnd x) in
  let filled d :=
    Cmnd (device x) sn (vmkflags x) (result x) (resid x) (request_bufflen x) (requiredDataLen v)
      (sense_buffer x) bytes (u8 (Z.of_nat (length (cdb v)))) d t (sgArray x) (eh_function x) r in
  filled (SCSILinuxGetDataDirection optical (filled DMA_NONE) (dataDirection v)).

(** ** What the driver answers *)

Definition driver_byte (r : Z) : Z := Z.land (Z.shiftr r 24) 0xff.
Definition VMKLNX_SCSI_HOST_STATUS (r : Z) : Z := Z.land (Z.shiftr r 16) 0xff.
Definition VMKLNX_SCSI_DEVICE_STATUS (r : Z) : Z := Z.land r 0xff.
Definition VMKLNX_SCSI_STATUS_NO_SUGGEST (r : Z) : Z := Z.land r 0x0fffffff.

(** The check for an underflow in SCSILinuxCmdDone. *)
Definition check_underflow (x : scsi_cmnd) : scsi_cmnd :=
  if result x =? DID_OK then
    if resid x <? 0 then set_result (Z.shiftl DID_ERROR 16) x
    else if u32 (request_bufflen x - resid x) <? underflow x then set_result (Z.shiftl DID_ERROR 16) x
    else x
  else x.

(** The switch of SCSILinuxBH on the driver byte. *)
Definition translate_status (r : Z) : Z * Z :=
  let d := driver_byte (VMKLNX_SCSI_STATUS_NO_SUGGEST r) in
  let own := (VMKLNX_SCSI_HOST_STATUS r, VMKLNX_SCSI_DEVICE_STATUS r) in
  if d =? DRIVER_OK then own
  else if one_of [DRIVER_BUSY; DRIVER_SOFT] d then (VMK_SCSI_HOST_OK, VMK_SCSI_DEVICE_BUSY)
  else if one_of [DRIVER_MEDIA; DRIVER_ERROR; DRIVER_HARD; DRIVER_INVALID] d then (VMK_SCSI_HOST_ERROR, VMK_SCSI_DEVICE_GOOD)
  else if d =? DRIVER_TIMEOUT then (VMK_SCSI_HOST_TIMEOUT, VMK_SCSI_DEVICE_GOOD)
  else if d =? DRIVER_SENSE then own
  else own.

(** What the VMkernel gets back. *)
Record completion := Completion {
  hostStatus : Z;
  deviceStatus : Z;
  bytesXferred : Z;
  senseData : option (list Z);
}.

Definition sizeof_vmk_ScsiSenseData : nat := 64.

Definition good (host dev : Z) : bool := (host =? VMK_SCSI_HOST_OK) && (dev =? VMK_SCSI_DEVICE_GOOD).

Definition complete_status (x : scsi_cmnd) : completion :=
  let '(host, dev) := translate_status (result x) in
  let n := u32 (request_bufflen x - resid x) in
  let '(host, dev, n) :=
    if request_bufflen x <? n then
      if good host dev then (VMK_SCSI_HOST_ERROR, VMK_SCSI_DEVICE_GOOD, 0) else (host, dev, 0)
    else (host, dev, n) in
  Completion host dev n (if good host dev then None else Some (take sizeof_vmk_ScsiSenseData (sense_buffer x))).

(** ** Their properties *)

(** *** Flags *)

Lemma test_set f g x : test_flag f (set_flag g x) = test_flag f x || negb (Z.land g f =? 0).
Proof.
  unfold test_flag, set_flag. cbn [vmkflags set_vmkflags]. rewrite Z.land_lor_distr_l.
  destruct (Z.eqb_spec (Z.lor (Z.land (vmkflags x) f) (Z.land g f)) 0) as [E|E];
    destruct (Z.eqb_spec (Z.land (vmkflags x) f) 0) as [E1|E1]; destruct (Z.eqb_spec (Z.land g f) 0) as [E2|E2]; try reflexivity.
  all: try (apply Z.lor_eq_0_iff in E; tauto).
  exfalso. apply E. now rewrite E1, E2.
Qed.

Lemma test_clear f g x : test_flag f (clear_flag g x) = negb (Z.land (vmkflags x) (Z.land (Z.lnot g) f) =? 0).
Proof. unfold test_flag, clear_flag. cbn [vmkflags set_vmkflags]. now rewrite Z.land_assoc. Qed.

(** The two operations change the flag they name and no other. *)
Lemma test_set_same f x : Z.land f f <> 0 -> test_flag f (set_flag f x) = true.
Proof. intros H. rewrite test_set. apply orb_true_iff. right. now destruct (Z.eqb_spec (Z.land f f) 0). Qed.
Lemma test_set_other f g x : Z.land g f = 0 -> test_flag f (set_flag g x) = test_flag f x.
Proof. intros H. rewrite test_set, H. apply orb_false_r. Qed.
Lemma test_clear_same f x : test_flag f (clear_flag f x) = false.
Proof. rewrite test_clear, Z.land_comm. cbn. now rewrite (Z.land_comm (Z.lnot f)), Z.land_lnot_diag, Z.land_0_l. Qed.
Lemma test_clear_other f g x : Z.land (Z.lnot g) f = f -> test_flag f (clear_flag g x) = test_flag f x.
Proof. intros H. now rewrite test_clear, H. Qed.

#[global] Create Rewrite HintDb scsi_flags.
#[export] Hint Rewrite test_set_same test_clear_same test_set_other test_clear_other using (vm_compute; congruence) : scsi_flags.

(** *** Preparing *)

Lemma SCSILinuxGetSerialNumber_nonzero n :
  0 <= n < 2 ^ 64 -> fst (SCSILinuxGetSerialNumber n) <> 0 /\ 0 <= snd (SCSILinuxGetSerialNumber n) < 2 ^ 64.
Proof.
  intros Hn. unfold SCSILinuxGetSerialNumber. destruct (Z.eqb_spec n 0) as [->|Hz]; cbn [fst snd].
  - split; [now vm_compute|]. now vm_compute.
  - split; [easy|]. apply wrap_range; lia.
Qed.

Lemma fold_lengths l n : fold_left (fun n e => u32 (n + e)) l (u32 n) = u32 (fold_left Z.add l n).
Proof. revert n. induction l as [|a l IH]; intros n; cbn [fold_left]; [easy|]. now rewrite wrap_add_l, IH. Qed.

(** A command that comes from the allocator asks for the sum of its elements. *)
Lemma ComputeSGArray_bufflen b alloc v x x' :
  SCSILinuxComputeSGArray b alloc v (vmklnx_clear_scmd x) = Some x' ->
  request_bufflen x' = u32 (fold_left Z.add (sg_lengths v) 0) /\ vmkflags x' = 0 /\ device x' = device x.
Proof.
  unfold SCSILinuxComputeSGArray. destruct (sg_lengths v) as [|a l] eqn:E.
  - intros [= <-]. now repeat split.
  - rewrite <- E. destruct b; [|destruct alloc; [|easy]]; intros [= <-]; cbn; (repeat split);
      exact (fold_lengths (sg_lengths v) 0).
Qed.

(** *** Statuses *)

Lemma translate_ok : translate_status 0 = (VMK_SCSI_HOST_OK, VMK_SCSI_DEVICE_GOOD).
Proof. reflexivity. Qed.

Lemma translate_error : translate_status (Z.shiftl DID_ERROR 16) = (VMK_SCSI_HOST_ERROR, VMK_SCSI_DEVICE_GOOD).
Proof. reflexivity. Qed.

Lemma good_spec h d : good h d = true <-> h = 0 /\ d = 0.
Proof. unfold good, VMK_SCSI_HOST_OK, VMK_SCSI_DEVICE_GOOD. rewrite andb_true_iff, !Z.eqb_eq. tauto. Qed.

(** The number of bytes that were not transferred is between 0 and what was asked for. *)
Definition resid_ok (x : scsi_cmnd) : Prop := 0 <= resid x <= request_bufflen x.

Lemma u32_transfer x :
  0 <= request_bufflen x < 2 ^ 32 -> - 2 ^ 31 <= resid x < 2 ^ 31 ->
  (u32 (request_bufflen x - resid x) <= request_bufflen x <-> 0 <= resid x /\ request_bufflen x - resid x >= 0 \/
     resid x < 0 /\ request_bufflen x - resid x >= 2 ^ 32) /\
  (resid_ok x -> u32 (request_bufflen x - resid x) = request_bufflen x - resid x).
Proof.
  intros Hb Hr. unfold resid_ok, wrap. split; [|intros; apply Z.mod_small; lia].
  destruct (Z.lt_ge_cases (request_bufflen x - resid x) 0) as [H|H].
  - replace ((request_bufflen x - resid x) mod 2 ^ 32) with (request_bufflen x - resid x + 2 ^ 32);
      [lia|]. rewrite <- (Z.mod_small (request_bufflen x - resid x + 2 ^ 32) (2 ^ 32)) by lia.
    rewrite <- (Z_mod_plus_full (request_bufflen x - resid x) 1 (2 ^ 32)). f_equal; lia.
  - destruct (Z.lt_ge_cases (request_bufflen x - resid x) (2 ^ 32)) as [H'|H'].
    + rewrite Z.mod_small by lia. lia.
    + replace ((request_bufflen x - resid x) mod 2 ^ 32) with (request_bufflen x - resid x - 2 ^ 32); [lia|].
      rewrite <- (Z.mod_small (request_bufflen x - resid x - 2 ^ 32) (2 ^ 32)) by lia.
      rewrite <- (Z_mod_plus_full (request_bufflen x - resid x) (-1) (2 ^ 32)). f_equal; lia.
Qed.

(** What a driver answers reaches the VMkernel unchanged in everything but the
    status when it says that it succeeded. *)
Lemma check_underflow_keeps x :
  let y := check_underflow x in
  request_bufflen y = request_bufflen x /\ resid y = resid x /\ sense_buffer y = sense_buffer x /\
  vmkflags y = vmkflags x /\ device y = device x /\ vmkCmdPtr y = vmkCmdPtr x /\ (result x <> 0 -> result y = result x).
Proof.
  unfold check_underflow, DID_OK. destruct (Z.eqb_spec (result x) 0) as [E|E];
    [destruct (resid x <? 0); [|destruct (_ <? _)]|]; now repeat split.
Qed.

Lemma check_underflow_result x :
  result x = 0 ->
  result (check_underflow x) =
    (if (resid x <? 0) || (u32 (request_bufflen x - resid x) <? underflow x) then Z.shiftl DID_ERROR 16 else 0).
Proof.
  intros E. unfold check_underflow. rewrite E. cbn [Z.eqb DID_OK].
  destruct (resid x <? 0); [easy|]. now destruct (_ <? underflow x).
Qed.

(** What the VMkernel is told of a command that a driver has completed with a
    result, a number of bytes that were not transferred, and sense data. The
    number of bytes transferred never exceeds the length of the command, and is
    what the driver said unless that was impossible. A result of zero is
    reported as a success exactly if the residue is possible and no less was
    transferred than the VMkernel requires, and is an error of the host
    otherwise. Another result is reported as the driver's byte of it says, and
    the sense data is handed over unless the command succeeded. *)
Theorem scsi_completion_status (x : scsi_cmnd) :
  0 <= request_bufflen x < 2 ^ 32 -> - 2 ^ 31 <= resid x < 2 ^ 31 -> 0 <= underflow x < 2 ^ 32 ->
  let c := complete_status (check_underflow x) in
  let ok := resid x <= request_bufflen x /\ underflow x <= request_bufflen x - resid x in
  0 <= bytesXferred c <= request_bufflen x /\
  (resid_ok x -> bytesXferred c = request_bufflen x - resid x) /\
  (result x = 0 -> 0 <= resid x /\ ok -> good (hostStatus c) (deviceStatus c) = true) /\
  (result x = 0 -> ~ (0 <= resid x /\ ok) -> hostStatus c = VMK_SCSI_HOST_ERROR /\ deviceStatus c = VMK_SCSI_DEVICE_GOOD) /\
  (result x <> 0 -> resid_ok x -> (hostStatus c, deviceStatus c) = translate_status (result x)) /\
  senseData c = (if good (hostStatus c) (deviceStatus c) then None else Some (take 64 (sense_buffer x))).
Proof.
  intros Hb Hr Hu c ok. destruct (u32_transfer x Hb Hr) as [HB HT].
  pose proof (wrap_range 32 (request_bufflen x - resid x) ltac:(lia)) as HW.
  destruct (check_underflow_keeps x) as (K1 & K2 & K3 & _).
  subst c. unfold complete_status. rewrite K1, K2, K3.
  destruct (Z.eqb_spec (result x) 0) as [E|E].
  - rewrite (check_underflow_result x E). unfold ok, resid_ok in *.
    destruct (Z.ltb_spec (resid x) 0) as [N|N]; cbn [orb];
      [|destruct (Z.ltb_spec (u32 (request_bufflen x - resid x)) (underflow x)) as [U|U]];
      rewrite ?translate_ok, ?translate_error;
      destruct (Z.ltb_spec (request_bufflen x) (u32 (request_bufflen x - resid x))) as [L|L]; cbn -[wrap Z.pow take];
      repeat split; try lia; auto; intros; exfalso; lia.
  - replace (result (check_underflow x)) with (result x) by (symmetry; now apply check_underflow_keeps).
    destruct (translate_status (result x)) as [h d] eqn:Et.
    destruct (Z.ltb_spec (request_bufflen x) (u32 (request_bufflen x - resid x))) as [L|L];
      [destruct (good h d)|]; cbn [bytesXferred hostStatus deviceStatus senseData];
      repeat split; try lia; try (intros HO; pose proof (HT HO); unfold resid_ok in HO; lia); intros HO; try easy; auto.
    intros HO'. pose proof (HT HO'). unfold resid_ok in HO'. lia.
Qed.

(** The answer to a read of eight sectors that the device cut short by one: the
    driver calls it a success, the VMkernel gets an error. *)
Definition short_read : scsi_cmnd :=
  Cmnd 0 7 (Z.lor VMK_FLAGS_NEED_CMDDONE 0) DID_OK 512 4096 4096 (replicate 96 0) [0x28] 10 DMA_FROM_DEVICE 0 None false 0.

Lemma scsi_completion_status_witness :
  (0 <= request_bufflen short_read < 2 ^ 32 /\ - 2 ^ 31 <= resid short_read < 2 ^ 31 /\ 0 <= underflow short_read < 2 ^ 32) /\
  hostStatus (complete_status (check_underflow short_read)) = VMK_SCSI_HOST_ERROR.
Proof.
  assert (Hb : 0 <= request_bufflen short_read < 2 ^ 32) by (cbn; lia).
  assert (Hr : - 2 ^ 31 <= resid short_read < 2 ^ 31) by (cbn; lia).
  assert (Hu : 0 <= underflow short_read < 2 ^ 32) by (cbn; lia).
  split; [easy|].
  apply (proj1 (proj2 (proj2 (proj2 (scsi_completion_status short_read Hb Hr Hu))))); [reflexivity|].
  cbn. lia.
Defined.

(** A suggestion in the result hides a short transfer: it makes the result
    different from zero, and the check is for zero. *)
Example suggestion_hides_underflow :
  let x := set_result (Z.shiftl 0x10 24) short_read in
  complete_status (check_underflow x) = Completion VMK_SCSI_HOST_OK VMK_SCSI_DEVICE_GOOD 3584 None.
Proof. reflexivity. Qed.
