(* ===== verification/ScsiLife.v ===== *)
(** The way of a SCSI command through the layer over the hypervisor:
    [vmware/linux_scsi.c], the commands of [vmware/linux_scsi_lld_if.c] and the timer
    of [linux/drivers/scsi/scsi_error.c].

    The VMkernel queues commands ([SCSILinuxQueueCommand]) and aborts them
    ([SCSILinuxAbortCommands]); a driver accepts or refuses a command and completes
    it later, from any CPU ([SCSILinuxCmdDone]); a bottom half of each CPU hands
    completed commands to the VMkernel ([SCSILinuxBH]). Hosts of Fibre Channel may
    set a timer for a command, whose function aborts it from a work queue
    ([SCSILinuxCmdTimedOut], [SCSIProcessCmdTimedOut]).

    A step is a section under a lock or with interrupts off, an access to shared
    data outside of them, or what its caller does on data that it alone can
    reach. A lock that is held over several steps names its holder, and a section
    under it waits; the lock of a command ([vmklock]) is never held over a step. A
    driver is any program that has the commands it was given ([driver]),
    completes each of them at most once and none that it refuses. The debug options
    of the code are off, nobody makes internal commands, and the processing of an INQUIRY
    answer is left out. [reqs] and [log] are for the statements only. *)

From stdpp Require Import gmap.
From S2P Require Import Prelude ScsiCmd.
Local Open Scope Z_scope.

(** ** Results of a step *)

(** [Wait]: it cannot be taken now; [Bug]: it is an access to a command that is not
    there, or a check of the code that fails. *)
Inductive outcome (A : Type) := Go (a : A) | Wait | Bug.
Arguments Go {A} a.
Arguments Wait {A}.
Arguments Bug {A}.

#[export] Instance outcome_bind : MBind outcome :=
  fun A B f o => match o with Go a => f a | Wait => Wait | Bug => Bug end.

Definition get {A} (o : option A) : outcome A := match o with Some a => Go a | None => Bug end.
Definition check (b : bool) : outcome unit := if b then Go tt else Bug.
(** spin_lock *)
Definition unlocked (l : option nat) : outcome unit := match l with None => Go tt | Some _ => Wait end.

(** ** Data *)

Inductive VMK_ReturnStatus := VMK_OK | VMK_FAILURE | VMK_WOULD_BLOCK | VMK_NO_MEMORY.
Inductive scsi_host_state :=
| SHOST_CREATED | SHOST_RUNNING | SHOST_CANCEL | SHOST_DEL | SHOST_RECOVERY | SHOST_CANCEL_RECOVERY | SHOST_DEL_RECOVERY.
Inductive scsi_device_state :=
| SDEV_CREATED | SDEV_RUNNING | SDEV_CANCEL | SDEV_DEL | SDEV_QUIESCE | SDEV_OFFLINE | SDEV_BLOCK.

#[export] Instance VMK_ReturnStatus_eq_dec : EqDecision VMK_ReturnStatus.
Proof. solve_decision. Defined.
#[export] Instance scsi_host_state_eq_dec : EqDecision scsi_host_state.
Proof. solve_decision. Defined.
#[export] Instance scsi_device_state_eq_dec : EqDecision scsi_device_state.
Proof. solve_decision. Defined.

(** [fc_ioTimeout]: the host is of Fibre Channel and has a time-out;
    [eh_abort_handler]: its driver can abort. [free_list] has the commands of
    the host's reserve, with what they contain. *)
Record Scsi_Host := Host {
  host_lock : option nat;
  host_busy : Z;
  can_queue : Z;
  host_self_blocked : bool;
  shost_state : scsi_host_state;
  max_cmd_len : Z;
  free_list : list (nat * scsi_cmnd);
  vmkSgArray : bool;
  fc_ioTimeout : bool;
  eh_abort_handler : bool;
}.

Record scsi_device := Device {
  host : nat;
  device_busy : Z;
  queue_depth : Z;
  sdev_state : scsi_device_state;
  tagged_supported : bool;
  optical : bool;
  cmd_list : list nat;
  list_lock : option nat;
}.

Definition set_host_lock (l : option nat) (h : Scsi_Host) : Scsi_Host :=
  Host l (host_busy h) (can_queue h) (host_self_blocked h) (shost_state h) (max_cmd_len h) (free_list h)
    (vmkSgArray h) (fc_ioTimeout h) (eh_abort_handler h).
Definition add_host_busy (n : Z) (h : Scsi_Host) : Scsi_Host :=
  Host (host_lock h) (u32 (host_busy h + n)) (can_queue h) (host_self_blocked h) (shost_state h) (max_cmd_len h) (free_list h)
    (vmkSgArray h) (fc_ioTimeout h) (eh_abort_handler h).
Definition set_free_list (l : list (nat * scsi_cmnd)) (h : Scsi_Host) : Scsi_Host :=
  Host (host_lock h) (host_busy h) (can_queue h) (host_self_blocked h) (shost_state h) (max_cmd_len h) l
    (vmkSgArray h) (fc_ioTimeout h) (eh_abort_handler h).
Definition set_host_state (n : Z) (b : bool) (st : scsi_host_state) (h : Scsi_Host) : Scsi_Host :=
  Host (host_lock h) (host_busy h) n b st (max_cmd_len h) (free_list h) (vmkSgArray h) (fc_ioTimeout h) (eh_abort_handler h).
Definition add_device_busy (n : Z) (v : scsi_device) : scsi_device :=
  Device (host v) (u32 (device_busy v + n)) (queue_depth v) (sdev_state v) (tagged_supported v) (optical v) (cmd_list v) (list_lock v).
Definition set_cmd_list (l : list nat) (v : scsi_device) : scsi_device :=
  Device (host v) (device_busy v) (queue_depth v) (sdev_state v) (tagged_supported v) (optical v) l (list_lock v).
Definition set_list_lock (l : option nat) (v : scsi_device) : scsi_device :=
  Device (host v) (device_busy v) (queue_depth v) (sdev_state v) (tagged_supported v) (optical v) (cmd_list v) l.
Definition set_device_state (n : Z) (st : scsi_device_state) (v : scsi_device) : scsi_device :=
  Device (host v) (device_busy v) n st (tagged_supported v) (optical v) (cmd_list v) (list_lock v).

(** Where SCSILinuxBH is; [yield] is when it should stop. *)
Inductive bh_pc :=
| BhOff
| BhLoop (now yield : Z)
| BhBusy (c r : nat) (st : completion) (yield : Z)    (* before it decrements the counts *)
| BhPut (c r : nat) (st : completion) (yield : Z)     (* at scsi_put_command *)
| BhFree (c r : nat) (st : completion) (yield : Z)    (* in it, after list_del_init *)
| BhComplete (r : nat) (st : completion) (yield : Z). (* at SCSILinuxCompleteCommand *)

(** scsiLinuxTLS_t; [scheduled] is what vmk_BottomHalfSchedulePCPU has asked for. *)
Record scsiLinuxTLS := TLS {
  isrDoneCmds : list nat;
  bhDoneCmds : list nat;
  runningBH : bool;
  scheduled : bool;
  bh : bh_pc;
}.

Definition set_bh (pc : bh_pc) (p : scsiLinuxTLS) : scsiLinuxTLS :=
  TLS (isrDoneCmds p) (bhDoneCmds p) (runningBH p) (scheduled p) pc.

(** Where the callers are. [SCSILinuxAbortCommand] is called for a command of the list
    that SCSILinuxAbortCommands has made, with the commands that follow and the whole
    list, or from the work queue. *)
Inductive abort_ctx :=
| InAbort (d : nat) (todo sel : list nat) (retval : VMK_ReturnStatus)
| InWork.

(** Who has called SCSILinuxCmdDone. *)
Inductive cont :=
| ToDriver
| ToQueue (r : nat)
| ToAbort (d : nat) (rest sel : list nat) (retval : VMK_ReturnStatus)
| ToWork.

Inductive done_pc := DoneEnter | DoneTimer | DoneDecide | DoneSchedule.

Inductive queue_pc :=
| QGet                                        (* at scsi_get_command *)
| QList (c : nat)                             (* in it, before list_add_tail *)
| QPrepare (c : nat)
| QBusy (c : nat)                             (* a command that is failed at once *)
| QLock (c : nat)                             (* at spin_lock_irqsave(host_lock) *)
| QTimeoutRead (c : nat)                      (* vmkflags |= VMK_FLAGS_IO_TIMEOUT reads *)
| QTimeoutWrite (c : nat) (f : Z)             (* and writes *)
| QTimeoutArm (c : nat)
| QCall (c : nat)                             (* at queuecommand *)
| QCalling (c : nat)                          (* in it *)
| QFailed (c : nat)
| QCheck (c : nat)                            (* tests VMK_FLAGS_NEED_CMDDONE after that *)
| QPut (c : nat) (st : VMK_ReturnStatus)      (* at scsi_put_command, to return [st] *)
| QFree (c : nat) (st : VMK_ReturnStatus).

Inductive call :=
| Idle
| Queue (r d : nat) (pc : queue_pc)
| Done (c cpu : nat) (pc : done_pc) (k : cont)
| AbortLock (d : nat)
| Select (d : nat) (rest sel : list nat)                          (* its first loop, with list_lock *)
| AbortLoop (d : nat) (todo sel : list nat) (retval : VMK_ReturnStatus)
| AbortTry (x : abort_ctx) (c : nat)
| AbortHandler (x : abort_ctx) (c : nat)                          (* in eh_abort_handler *)
| AbortStatus (x : abort_ctx) (c : nat) (success : bool)
| Finish (d : nat) (rest sel : list nat) (retval : VMK_ReturnStatus) (* its last loop, with list_lock *)
| TimedOut (c : nat)
| TimedOutQueue (c : nat)
| WorkFinish (c : nat).

Inductive event :=
| Returned (r : nat) (st : VMK_ReturnStatus)
| Completed (r : nat) (st : completion)
| Aborted (sel : list nat) (st : VMK_ReturnStatus).

(** [cmds] are the commands in use. [timers] are those whose timer is set, [work] is
    the data of the one work item for time-outs while it is queued. *)
Record sys := Sys {
  cmds : gmap nat scsi_cmnd;
  hosts : list Scsi_Host;
  devs : list scsi_device;
  cpus : list scsiLinuxTLS;
  calls : list call;
  driver : gset nat;
  timers : gset nat;
  linuxSCSIIO_work : option nat;
  SCSILinuxSerialNumber : Z;
  reqs : list vmk_ScsiCommand;
  log : list event;
}.

Definition set_cmds (m : gmap nat scsi_cmnd) (s : sys) : sys :=
  Sys m (hosts s) (devs s) (cpus s) (calls s) (driver s) (timers s) (linuxSCSIIO_work s) (SCSILinuxSerialNumber s) (reqs s) (log s).
Definition set_cmd (c : nat) (x : scsi_cmnd) (s : sys) : sys := set_cmds (<[c := x]> (cmds s)) s.
Definition on_host (h : nat) (f : Scsi_Host -> Scsi_Host) (s : sys) : sys :=
  Sys (cmds s) (alter f h (hosts s)) (devs s) (cpus s) (calls s) (driver s) (timers s) (linuxSCSIIO_work s) (SCSILinuxSerialNumber s) (reqs s) (log s).
Definition on_dev (d : nat) (f : scsi_device -> scsi_device) (s : sys) : sys :=
  Sys (cmds s) (hosts s) (alter f d (devs s)) (cpus s) (calls s) (driver s) (timers s) (linuxSCSIIO_work s) (SCSILinuxSerialNumber s) (reqs s) (log s).
Definition on_cpu (i : nat) (f : scsiLinuxTLS -> scsiLinuxTLS) (s : sys) : sys :=
  Sys (cmds s) (hosts s) (devs s) (alter f i (cpus s)) (calls s) (driver s) (timers s) (linuxSCSIIO_work s) (SCSILinuxSerialNumber s) (reqs s) (log s).
Definition set_call (k : nat) (a : call) (s : sys) : sys :=
  Sys (cmds s) (hosts s) (devs s) (cpus s) (<[k := a]> (calls s)) (driver s) (timers s) (linuxSCSIIO_work s) (SCSILinuxSerialNumber s) (reqs s) (log s).
Definition set_driver (o : gset nat) (s : sys) : sys :=
  Sys (cmds s) (hosts s) (devs s) (cpus s) (calls s) o (timers s) (linuxSCSIIO_work s) (SCSILinuxSerialNumber s) (reqs s) (log s).
Definition set_timers (t : gset nat) (s : sys) : sys :=
  Sys (cmds s) (hosts s) (devs s) (cpus s) (calls s) (driver s) t (linuxSCSIIO_work s) (SCSILinuxSerialNumber s) (reqs s) (log s).
Definition set_work (w : option nat) (s : sys) : sys :=
  Sys (cmds s) (hosts s) (devs s) (cpus s) (calls s) (driver s) (timers s) w (SCSILinuxSerialNumber s) (reqs s) (log s).
Definition set_serial (n : Z) (s : sys) : sys :=
  Sys (cmds s) (hosts s) (devs s) (cpus s) (calls s) (driver s) (timers s) (linuxSCSIIO_work s) n (reqs s) (log s).
Definition add_req (v : vmk_ScsiCommand) (s : sys) : sys :=
  Sys (cmds s) (hosts s) (devs s) (cpus s) (calls s) (driver s) (timers s) (linuxSCSIIO_work s) (SCSILinuxSerialNumber s) (reqs s ++ [v]) (log s).
Definition add_log (e : event) (s : sys) : sys :=
  Sys (cmds s) (hosts s) (devs s) (cpus s) (calls s) (driver s) (timers s) (linuxSCSIIO_work s) (SCSILinuxSerialNumber s) (reqs s) (log s ++ [e]).

(** What is decided outside of the code: the memory the slab gives (or that it has
    none), whether a scatter-gather table can be had, what vmk_ScsiQueryTaskMgmt
    says, what a call of the driver returns, the CPU and the clock. *)
Record env := Env {
  slab : option (nat * scsi_cmnd);
  sg_alloc : bool;
  query : bool;
  drv_ok : bool;
  cpu : nat;
  clock : Z;
}.

(** ** Allocating and freeing a command *)

(** __scsi_get_command: the command it finds, with what it contains. *)
Definition __scsi_get_command (h : nat) (e : env) (s : sys) : outcome (option (nat * scsi_cmnd) * sys) :=
  hst ← get (hosts s !! h);
  match slab e with
  | Some p => Go (Some p, s)
  | None =>
      match free_list hst with
      | p :: l => Go (Some p, on_host h (set_free_list l) s)
      | [] => Go (None, s)
      end
  end.

(** The rest of scsi_get_command: until the command is on the list of its device, and
    that. *)
Definition scsi_get_command_clear (d c : nat) (x : scsi_cmnd) (s : sys) : sys :=
  set_cmd c (set_device d (vmklnx_clear_scmd x)) s.
Definition scsi_get_command_list (d c : nat) (s : sys) : outcome sys :=
  v ← get (devs s !! d);
  unlocked (list_lock v) ≫= fun _ =>
  Go (on_dev d (set_cmd_list (cmd_list v ++ [c])) s).

(** What scsi_put_command does with the scatter-gather table: one of its own is
    given to the pool, and the pointer to it stays. *)
Definition free_sgArray (x : scsi_cmnd) : scsi_cmnd :=
  match sgArray x with Some SG_VMK => set_sgArray None x | _ => x end.

(** scsi_put_command: its section under the lock of the list (a command that is on no
    list, or on the list of somebody who aborts it, is a bug), and the rest. *)
Definition scsi_put_command_list (c : nat) (s : sys) : outcome sys :=
  x ← get (cmds s !! c);
  v ← get (devs s !! device x);
  unlocked (list_lock v) ≫= fun _ =>
  check (bool_decide (c ∈ cmd_list v)) ≫= fun _ =>
  Go (on_dev (device x) (set_cmd_list (filter (fun c' => c' <> c) (cmd_list v))) s).
Definition scsi_put_command_free (c : nat) (s : sys) : outcome sys :=
  x ← get (cmds s !! c);
  v ← get (devs s !! device x);
  hst ← get (hosts s !! host v);
  let x := free_sgArray x in
  let s := set_cmds (delete c (cmds s)) s in
  Go (match free_list hst with
      | [] => on_host (host v) (set_free_list [(c, x)]) s
      | _ => s (* kmem_cache_free *)
      end).

(** ** Timers *)

Definition scsi_add_timer (c : nat) (s : sys) : outcome sys :=
  x ← get (cmds s !! c);
  let s := if eh_function x then set_timers (timers s ∖ {[c]}) s else s in
  Go (set_timers (timers s ∪ {[c]}) (set_cmd c (set_eh_function true x) s)).

Definition scsi_delete_timer (c : nat) (s : sys) : outcome sys :=
  x ← get (cmds s !! c);
  if eh_function x then Go (set_timers (timers s ∖ {[c]}) (set_cmd c (set_eh_function false x) s))
  else Go s.

(** ** Completing a command *)

(** SCSILinuxSignalBH and SCSILinuxScheduleCompletion, on the data of their CPU. *)
Definition SCSILinuxSignalBH (p : scsiLinuxTLS) : scsiLinuxTLS :=
  if runningBH p then p else TLS (isrDoneCmds p) (bhDoneCmds p) true true (bh p).
Definition SCSILinuxScheduleCompletion (c : nat) (p : scsiLinuxTLS) : scsiLinuxTLS :=
  SCSILinuxSignalBH (TLS (isrDoneCmds p ++ [c]) (bhDoneCmds p) (runningBH p) (scheduled p) (bh p)).

(** What SCSILinuxCmdDone returns to. *)
Definition return_from_done (k : cont) (s : sys) : sys * call :=
  match k with
  | ToDriver | ToWork => (s, Idle)
  | ToQueue r => (add_log (Returned r VMK_OK) s, Idle)
  | ToAbort d rest sel retval => (s, Finish d rest sel retval)
  end.

(** Its section under the lock of the command, after the test of the time-out. *)
Definition SCSILinuxCmdDone_decide (c cpu : nat) (k : cont) (s : sys) : outcome (sys * call) :=
  x ← get (cmds s !! c);
  if test_flag VMK_FLAGS_TMF_REQUEST x then Go (return_from_done k s)
  else if negb (test_flag VMK_FLAGS_NEED_CMDDONE x) then Bug
  else if test_flag VMK_FLAGS_DELAY_CMDDONE x then
    Go (return_from_done k (set_cmd c (set_flag VMK_FLAGS_CMDDONE_ATTEMPTED x) s))
  else Go (set_cmd c (clear_flag VMK_FLAGS_NEED_CMDDONE x) s, Done c cpu DoneSchedule k).

Definition SCSILinuxCmdDone (c cpu : nat) (pc : done_pc) (k : cont) (s : sys) : outcome (sys * call) :=
  match pc with
  | DoneEnter =>
      x ← get (cmds s !! c);
      if test_flag VMK_FLAGS_IO_TIMEOUT x then Go (s, Done c cpu DoneTimer k) else SCSILinuxCmdDone_decide c cpu k s
  | DoneTimer => s ← scsi_delete_timer c s; Go (s, Done c cpu DoneDecide k)
  | DoneDecide => SCSILinuxCmdDone_decide c cpu k s
  | DoneSchedule =>
      x ← get (cmds s !! c);
      _ ← get (cpus s !! cpu);
      Go (return_from_done k
        (on_cpu cpu (SCSILinuxScheduleCompletion c) (set_cmd c (check_underflow (set_serial_number 0 x)) s)))
  end.

(** ** Queueing a command *)

(** The states in which a command is sent back. *)
Definition would_block (hst : Scsi_Host) (v : scsi_device) : bool :=
  host_self_blocked hst || bool_decide (sdev_state v = SDEV_BLOCK) || bool_decide (sdev_state v = SDEV_QUIESCE)
  || bool_decide (shost_state hst = SHOST_RECOVERY) || (queue_depth v <=? device_busy v) || (u32 (can_queue hst) <=? host_busy hst).

Definition did (host dev : Z) : Z := Z.lor (Z.shiftl host 16) dev.

(** The two counts of the host [h] and the device [d]. *)
Definition add_busy (h d : nat) (n : Z) (s : sys) : sys := on_dev d (add_device_busy n) (on_host h (add_host_busy n) s).

Definition SCSILinuxQueueCommand (k : nat) (e : env) (r d : nat) (pc : queue_pc) (s : sys) : outcome (sys * call) :=
  v ← get (devs s !! d);
  hst ← get (hosts s !! host v);
  let h := host v in
  let at_ pc := Queue r d pc in
  match pc with
  | QGet =>
      '(o, s) ← __scsi_get_command h e s;
      match o with
      | Some (c, x) => Go (scsi_get_command_clear d c x s, at_ (QList c))
      | None => Go (add_log (Returned r VMK_NO_MEMORY) s, Idle)
      end
  | QList c => s ← scsi_get_command_list d c s; Go (s, at_ (QPrepare c))
  | QPrepare c =>
      x ← get (cmds s !! c);
      q ← get (reqs s !! r);
      match SCSILinuxComputeSGArray (vmkSgArray hst) (sg_alloc e) q x with
      | None => Go (s, at_ (QPut c VMK_NO_MEMORY))
      | Some x =>
          let '(sn, n) := SCSILinuxGetSerialNumber (SCSILinuxSerialNumber s) in
          let x := prepare_scmd (tagged_supported v) (optical v) r q sn x in
          let s := set_serial n s in
          if max_cmd_len hst <? cmd_len x then
            Go (set_cmd c (set_result (did DID_ABORT SAM_STAT_GOOD) x) s, at_ (QBusy c))
          else if decide (shost_state hst = SHOST_CANCEL) then
            Go (set_cmd c (set_result (did DID_NO_CONNECT SAM_STAT_GOOD) x) s, at_ (QBusy c))
          else Go (set_cmd c x s, at_ (QLock c))
      end
  | QBusy c =>
      unlocked (host_lock hst) ≫= fun _ =>
      x ← get (cmds s !! c);
      Go (set_cmd c (set_flag VMK_FLAGS_NEED_CMDDONE x) (add_busy h d 1 s), Done c (cpu e) DoneEnter (ToQueue r))
  | QLock c =>
      unlocked (host_lock hst) ≫= fun _ =>
      if would_block hst v then Go (s, at_ (QPut c VMK_WOULD_BLOCK))
      else
        x ← get (cmds s !! c);
        let x := set_flag VMK_FLAGS_NEED_CMDDONE x in
        let s := add_busy h d 1 s in
        if decide (sdev_state v = SDEV_DEL \/ sdev_state v = SDEV_OFFLINE) then
          Go (set_cmd c (set_result (did DID_NO_CONNECT SAM_STAT_GOOD) x) s, Done c (cpu e) DoneEnter (ToQueue r))
        else
          Go (on_host h (set_host_lock (Some k)) (set_cmd c x s),
            at_ (if fc_ioTimeout hst && eh_abort_handler hst then QTimeoutRead c else QCall c))
  | QTimeoutRead c => x ← get (cmds s !! c); Go (s, at_ (QTimeoutWrite c (Z.lor (vmkflags x) VMK_FLAGS_IO_TIMEOUT)))
  | QTimeoutWrite c f => x ← get (cmds s !! c); Go (set_cmd c (set_vmkflags f x) s, at_ (QTimeoutArm c))
  | QTimeoutArm c => s ← scsi_add_timer c s; Go (s, at_ (QCall c))
  | QCall c => _ ← get (cmds s !! c); Go (set_driver (driver s ∪ {[c]}) s, at_ (QCalling c))
  | QCalling c =>
      let s := on_host h (set_host_lock None) s in
      if drv_ok e then Go (add_log (Returned r VMK_OK) s, Idle)
      else Go (set_driver (driver s ∖ {[c]}) s, at_ (QFailed c))
  | QFailed c =>
      x ← get (cmds s !! c);
      s ← (if test_flag VMK_FLAGS_IO_TIMEOUT x then scsi_delete_timer c s else Go s);
      x ← get (cmds s !! c);
      Go (set_cmd c (set_result (did DID_OK SAM_STAT_BUSY) x) s, at_ (QCheck c))
  | QCheck c =>
      x ← get (cmds s !! c);
      if test_flag VMK_FLAGS_NEED_CMDDONE x then Go (s, Done c (cpu e) DoneEnter (ToQueue r))
      else Go (add_log (Returned r VMK_OK) s, Idle)
  | QPut c st => s ← scsi_put_command_list c s; Go (s, at_ (QFree c st))
  | QFree c st => s ← scsi_put_command_free c s; Go (add_log (Returned r st) s, Idle)
  end.

(** ** Aborting commands *)

(** SCSILinuxTryAbortCommand until it calls the driver. *)
Definition SCSILinuxTryAbortCommand (x : abort_ctx) (c : nat) (s : sys) : outcome call :=
  y ← get (cmds s !! c);
  v ← get (devs s !! device y);
  hst ← get (hosts s !! host v);
  if negb (eh_abort_handler hst) then Go (AbortStatus x c false)
  else if serial_number y =? 0 then Go (AbortStatus x c true)
  else Go (AbortHandler x c).

(** The rest of SCSILinuxAbortCommand, with the status of the attempt. *)
Definition SCSILinuxAbortCommand_status (c : nat) (success : bool) (s : sys) : outcome (sys * VMK_ReturnStatus) :=
  y ← get (cmds s !! c);
  if success && test_flag VMK_FLAGS_INTERNAL_COMMAND y then
    Go (set_cmd c (set_serial_number 0 (set_result (Z.shiftl DID_TIME_OUT 16) y)) s, VMK_OK)
  else Go (s, if test_flag VMK_FLAGS_CMDDONE_ATTEMPTED y then VMK_OK else VMK_FAILURE).

(** What its callers do with its result. *)
Definition return_from_abort (x : abort_ctx) (c : nat) (status : VMK_ReturnStatus) : call :=
  match x with
  | InAbort d todo sel retval => AbortLoop d todo sel (if decide (status = VMK_FAILURE) then VMK_FAILURE else retval)
  | InWork => WorkFinish c
  end.

(** The first loop of SCSILinuxAbortCommands, for one command; [query] is what the
    VMkernel says of it. *)
Definition abort_select (d c : nat) (rest sel : list nat) (e : env) (s : sys) : outcome (sys * call) :=
  x ← get (cmds s !! c);
  if test_flag VMK_FLAGS_NEED_CMDDONE x && negb (test_flag VMK_FLAGS_CMDDONE_ATTEMPTED x) && query e
     && negb (test_flag VMK_FLAGS_DELAY_CMDDONE x)
  then
    Go (on_dev d (fun v => set_cmd_list (filter (fun c' => c' <> c) (cmd_list v)) v)
          (set_cmd c (set_flag VMK_FLAGS_DELAY_CMDDONE x) s), Select d rest (sel ++ [c]))
  else Go (s, Select d rest sel).

(** Its last loop, for one command. *)
Definition abort_finish (d c : nat) (rest sel : list nat) (retval : VMK_ReturnStatus) (e : env) (s : sys) : outcome (sys * call) :=
  x ← get (cmds s !! c);
  let x := clear_flag VMK_FLAGS_DELAY_CMDDONE x in
  let s := on_dev d (fun v => set_cmd_list (cmd_list v ++ [c]) v) (set_cmd c x s) in
  Go (s, if test_flag VMK_FLAGS_CMDDONE_ATTEMPTED x then Done c (cpu e) DoneEnter (ToAbort d rest sel retval)
         else Finish d rest sel retval).

(** ** Time-outs *)

(** SCSILinuxCmdTimedOut until it queues the work. *)
Definition SCSILinuxCmdTimedOut (c : nat) (s : sys) : outcome (sys * call) :=
  x ← get (cmds s !! c);
  let x := clear_flag VMK_FLAGS_IO_TIMEOUT x in
  if test_flag VMK_FLAGS_NEED_CMDDONE x then
    if test_flag VMK_FLAGS_DELAY_CMDDONE x then Go (set_cmd c x s, Idle)
    else
      let x := set_flag VMK_FLAGS_DELAY_CMDDONE x in
      let x := if test_flag VMK_FLAGS_INTERNAL_COMMAND x
               then set_serial_number 0 (clear_flag VMK_FLAGS_NEED_CMDDONE x) else x in
      Go (set_cmd c x s, TimedOutQueue c)
  else Go (set_cmd c x s, Idle).

(** INIT_WORK and queue_work of the one work item: to initialise it while it is on the
    queue unlinks it from one side. *)
Definition SCSILinuxCmdTimedOut_queue (c : nat) (s : sys) : outcome sys :=
  check (bool_decide (linuxSCSIIO_work s = None)) ≫= fun _ =>
  Go (set_work (Some c) s).

(** The end of SCSIProcessCmdTimedOut. *)
Definition SCSIProcessCmdTimedOut_finish (c : nat) (e : env) (s : sys) : outcome (sys * call) :=
  x ← get (cmds s !! c);
  let x := clear_flag VMK_FLAGS_DELAY_CMDDONE x in
  Go (set_cmd c x s, if test_flag VMK_FLAGS_CMDDONE_ATTEMPTED x then Done c (cpu e) DoneEnter ToWork else Idle).

(** ** The steps of a caller *)

Definition call_step (k : nat) (e : env) (a : call) (s : sys) : outcome (sys * call) :=
  match a with
  | Idle => Wait
  | Queue r d pc => SCSILinuxQueueCommand k e r d pc s
  | Done c i pc q => SCSILinuxCmdDone c i pc q s
  | AbortLock d =>
      v ← get (devs s !! d);
      unlocked (list_lock v) ≫= fun _ =>
      Go (on_dev d (set_list_lock (Some k)) s, Select d (cmd_list v) [])
  | Select d (c :: rest) sel => abort_select d c rest sel e s
  | Select d [] sel => Go (on_dev d (set_list_lock None) s, AbortLoop d sel sel VMK_OK)
  | AbortLoop d (c :: todo) sel retval => Go (s, AbortTry (InAbort d todo sel retval) c)
  | AbortLoop d [] sel retval =>
      v ← get (devs s !! d);
      unlocked (list_lock v) ≫= fun _ =>
      Go (on_dev d (set_list_lock (Some k)) s, Finish d sel sel retval)
  | AbortTry x c => a ← SCSILinuxTryAbortCommand x c s; Go (s, a)
  | AbortHandler x c => _ ← get (cmds s !! c); Go (s, AbortStatus x c (drv_ok e))
  | AbortStatus x c success =>
      '(s, status) ← SCSILinuxAbortCommand_status c success s;
      Go (s, return_from_abort x c status)
  | Finish d (c :: rest) sel retval => abort_finish d c rest sel retval e s
  | Finish d [] sel retval => Go (add_log (Aborted sel retval) (on_dev d (set_list_lock None) s), Idle)
  | TimedOut c => SCSILinuxCmdTimedOut c s
  | TimedOutQueue c => s ← SCSILinuxCmdTimedOut_queue c s; Go (s, Idle)
  | WorkFinish c => SCSIProcessCmdTimedOut_finish c e s
  end.

(** What an idle caller may begin: to queue or abort commands for a device; to complete
    a command that its driver has, with its answer; to be the timer of a
    command, or the worker. *)
Inductive request :=
| QueueCommand (v : vmk_ScsiCommand) (d : nat)
| AbortCommands (d : nat)
| DriverDone (c : nat) (res n : Z) (sense : list Z)
| TimerFires (c : nat)
| Work.

Definition begin (q : request) (e : env) (s : sys) : outcome (sys * call) :=
  match q with
  | QueueCommand v d => Go (add_req v s, Queue (length (reqs s)) d QGet)
  | AbortCommands d => Go (s, AbortLock d)
  | DriverDone c res n sense =>
      x ← get (cmds s !! c);
      Go (set_driver (driver s ∖ {[c]}) (set_cmd c (set_answer res n sense x) s), Done c (cpu e) DoneEnter ToDriver)
  | TimerFires c => Go (set_timers (timers s ∖ {[c]}) s, TimedOut c)
  | Work =>
      match linuxSCSIIO_work s with
      | Some c => Go (set_work None s, AbortTry InWork c)
      | None => Wait
      end
  end.

Definition in_work (a : call) : bool :=
  match a with
  | AbortTry InWork _ | AbortHandler InWork _ | AbortStatus InWork _ _ | WorkFinish _ | Done _ _ _ ToWork => true
  | _ => false
  end.

Definition may (q : request) (s : sys) : Prop :=
  match q with
  | QueueCommand _ d | AbortCommands d => (d < length (devs s))%nat
  | DriverDone c _ _ _ => c ∈ driver s
  | TimerFires c => c ∈ timers s
  | Work => forall k a, calls s !! k = Some a -> in_work a = false (* one thread *)
  end.

(** ** The bottom half *)

(** vmk_TimerUSToTC(5000) *)
Section bottom_half.
Variable slice : Z.

Definition SCSILinuxBH (i : nat) (e : env) (s : sys) : outcome sys :=
  p ← get (cpus s !! i);
  let goto pc := on_cpu i (set_bh pc) in
  match bh p with
  | BhOff =>
      if scheduled p then
        Go (on_cpu i (fun _ => TLS [] (isrDoneCmds p ++ bhDoneCmds p) (runningBH p) false (BhLoop 0 (u64 (clock e + slice)))) s)
      else Wait
  | BhLoop now yield =>
      match bhDoneCmds p with
      | c :: l =>
          if now <? yield then
            x ← get (cmds s !! c);
            let s := on_cpu i (fun p => TLS (isrDoneCmds p) l (runningBH p) (scheduled p) (bh p)) s in
            if test_flag VMK_FLAGS_INTERNAL_COMMAND x then
              (* scmd->done(scmd) *) Go (goto (BhLoop (clock e) yield) s)
            else Go (goto (BhBusy c (vmkCmdPtr x) (complete_status x) yield) s)
          else if yield <? now then
            Go (on_cpu i (fun p => TLS (isrDoneCmds p) (bhDoneCmds p) (runningBH p) true BhOff) s)
          else
            match isrDoneCmds p with
            | [] => Go (on_cpu i (fun p => TLS [] (bhDoneCmds p) false (scheduled p) BhOff) s)
            | isr => Go (on_cpu i (fun p => TLS [] (isr ++ bhDoneCmds p) (runningBH p) (scheduled p) (bh p)) s)
            end
      | [] =>
          match isrDoneCmds p with
          | [] => Go (on_cpu i (fun p => TLS [] [] false (scheduled p) BhOff) s)
          | isr =>
              if yield <? now then Go (on_cpu i (fun p => TLS isr [] (runningBH p) true BhOff) s)
              else (* replenish *) Go (on_cpu i (fun p => TLS [] isr (runningBH p) (scheduled p) (bh p)) s)
          end
      end
  | BhBusy c r st yield =>
      x ← get (cmds s !! c);
      v ← get (devs s !! device x);
      hst ← get (hosts s !! host v);
      unlocked (host_lock hst) ≫= fun _ =>
      Go (goto (BhPut c r st yield) (add_busy (host v) (device x) (-1) s))
  | BhPut c r st yield => s ← scsi_put_command_list c s; Go (goto (BhFree c r st yield) s)
  | BhFree c r st yield => s ← scsi_put_command_free c s; Go (goto (BhComplete r st yield) s)
  | BhComplete r st yield => Go (goto (BhLoop (clock e) yield) (add_log (Completed r st) s))
  end.

(** ** The system *)

(** The slab gives memory that is not in use, and a driver refuses only a command that it has. *)
Definition ok_env (e : env) (a : call) (s : sys) : Prop :=
  (cpu e < length (cpus s))%nat /\
  (forall c x, slab e = Some (c, x) -> cmds s !! c = None /\ forall h hst, hosts s !! h = Some hst -> c ∉ (free_list hst).*1) /\
  (forall r d c, a = Queue r d (QCalling c) -> drv_ok e = false -> c ∈ driver s).

Inductive step : sys -> sys -> Prop :=
| step_begin k q e s s' a :
    calls s !! k = Some Idle -> may q s -> ok_env e Idle s -> begin q e s = Go (s', a) -> step s (set_call k a s')
| step_call k e a s s' a' :
    calls s !! k = Some a -> ok_env e a s -> call_step k e a s = Go (s', a') -> step s (set_call k a' s')
| step_bh i e s s' : SCSILinuxBH i e s = Go s' -> step s s'
| step_host h n b st s : step s (on_host h (set_host_state n b st) s)
| step_dev d n st s : step s (on_dev d (set_device_state n st) s).

(** Hosts and devices when they are registered, and the system then; [n] callers and [m]
    CPUs. *)
Definition init_cpu : scsiLinuxTLS := TLS [] [] false false BhOff.
Definition init (hs : list Scsi_Host) (ds : list scsi_device) (n m : nat) : sys :=
  Sys ∅ hs ds (replicate m init_cpu) (replicate n Idle) ∅ ∅ None 1 [] [].

Record registered (hs : list Scsi_Host) (ds : list scsi_device) : Prop := Registered {
  reg_host h : h ∈ hs -> host_lock h = None /\ host_busy h = 0;
  reg_free : NoDup (hs ≫= fun h => (free_list h).*1);
  reg_dev d : d ∈ ds -> list_lock d = None /\ device_busy d = 0 /\ cmd_list d = [] /\ (host d < length hs)%nat;
}.

(** No host of Fibre Channel with a time-out. *)
Definition no_timeouts (hs : list Scsi_Host) : Prop := Forall (fun h => fc_ioTimeout h && eh_abort_handler h = false) hs.

Inductive reachable : sys -> Prop :=
| reach_init hs ds n m : registered hs ds -> no_timeouts hs -> reachable (init hs ds n m)
| reach_step s s' : reachable s -> step s s' -> reachable s'.

(** The clock is never read at the very moment at which a bottom half should stop:
    there it goes, and leaves the commands that are done where they are. *)
Definition timely (s : sys) : Prop := forall i p now, cpus s !! i = Some p -> bh p <> BhLoop now now.

Inductive timely_reachable : sys -> Prop :=
| timely_init hs ds n m : registered hs ds -> no_timeouts hs -> timely_reachable (init hs ds n m)
| timely_step s s' : timely_reachable s -> step s s' -> timely s' -> timely_reachable s'.

(** Nobody can go on, and no driver has a command. *)
Definition at_rest (s : sys) : Prop :=
  (forall k a e, calls s !! k = Some a -> ok_env e a s -> call_step k e a s = Wait) /\
  (forall i e, (i < length (cpus s))%nat -> SCSILinuxBH i e s = Wait) /\ driver s = ∅.

End bottom_half.
