(* ===== verification/ScsiInv.v ===== *)
(** The invariant of [ScsiLife]: where every command is.

    [pl] gives the place of each command: the caller, bottom half or driver that
    has it now ([agent]), and how far it is ([role]); a command that was completed
    while it was being aborted is in nobody's hands ([Parking]). [ab] gives the
    caller that aborts it. The flags of a command follow from the two. *)

From stdpp Require Import gmap.
From S2P Require Import Prelude ScsiCmd ScsiLife.
Local Open Scope Z_scope.

(** ** Places *)

Inductive agent := Caller (k : nat) | Cpu (i : nat) | Driver | Parking | Reserve (h : nat).

(** [New], [Fresh]: not accepted yet, off and on the list of its device; [Owned]:
    accepted; [Retry], [Parked]: completed by the driver, to be completed again by
    the caller that aborted it; [Cleared]: completed; [Finished], [Gone]: no longer
    counted, on and off the list; [Free]: in the reserve of a host. *)
Inductive role := New | Fresh | Owned | Retry | Parked | Cleared | Finished | Gone | Free.

#[export] Instance agent_eq_dec : EqDecision agent.
Proof. solve_decision. Defined.
#[export] Instance role_eq_dec : EqDecision role.
Proof. solve_decision. Defined.

Definition queue_tokens (pc : queue_pc) : list (nat * role) :=
  match pc with
  | QGet | QCalling _ => []
  | QList c => [(c, New)]
  | QFree c _ => [(c, Gone)]
  | QPrepare c | QBusy c | QLock c | QPut c _ => [(c, Fresh)]
  | QTimeoutRead c | QTimeoutWrite c _ | QTimeoutArm c | QCall c | QFailed c | QCheck c => [(c, Owned)]
  end.

Definition cont_role (k : cont) : role := match k with ToAbort _ _ _ _ => Retry | _ => Owned end.

Definition call_tokens (a : call) : list (nat * role) :=
  match a with
  | Queue _ _ pc => queue_tokens pc
  | Done c _ DoneSchedule _ => [(c, Cleared)]
  | Done c _ _ k => [(c, cont_role k)]
  | _ => []
  end.

Definition bh_tokens (pc : bh_pc) : list (nat * role) :=
  match pc with
  | BhOff | BhLoop _ _ | BhComplete _ _ _ => []
  | BhBusy c _ _ _ => [(c, Cleared)]
  | BhPut c _ _ _ => [(c, Finished)]
  | BhFree c _ _ _ => [(c, Gone)]
  end.

Definition cpu_tokens (p : scsiLinuxTLS) : list (nat * role) :=
  bh_tokens (bh p) ++ ((fun c => (c, Cleared)) <$> (isrDoneCmds p ++ bhDoneCmds p)).

Definition free_tokens (h : Scsi_Host) : list (nat * role) := (fun p => (fst p, Free)) <$> free_list h.

Definition tokens (s : sys) (g : agent) : list (nat * role) :=
  match g with
  | Caller k => from_option call_tokens [] (calls s !! k)
  | Cpu i => from_option cpu_tokens [] (cpus s !! i)
  | Driver => (fun c => (c, Owned)) <$> elements (driver s)
  | Parking => []
  | Reserve h => from_option free_tokens [] (hosts s !! h)
  end.

Notation places := (gmap nat (agent * role)).

(** [pl] says of each agent what it has. *)
Record own (s : sys) (pl : places) : Prop := Own {
  own_spec g c ro : g <> Parking -> (c, ro) ∈ tokens s g <-> pl !! c = Some (g, ro);
  own_NoDup g : NoDup (tokens s g).*1;
  own_parking c ro : pl !! c = Some (Parking, ro) -> ro = Parked;
}.

(** What the command [c] at the place [o] is among the tokens of [g]. *)
Definition token_at (o : option (agent * role)) (c : nat) (g : agent) : list (nat * role) :=
  match o with
  | Some (g', ro) => if decide (g' = g) then [(c, ro)] else []
  | None => []
  end.

Lemma own_ext s s' pl : own s pl -> (forall g, tokens s' g ≡ₚ tokens s g) -> own s' pl.
Proof.
  intros [H1 H2 H3] E. split; [|intros g; now rewrite E|done].
  intros g c ro Hg. rewrite E. now apply H1.
Qed.

Lemma own_absent s pl g c : own s pl -> g <> Parking -> (forall ro, pl !! c <> Some (g, ro)) -> c ∉ (tokens s g).*1.
Proof.
  intros H Hg Hn Hin. apply list_elem_of_fmap in Hin as ([c' ro] & E & Hin). cbn in E. subst c'.
  now apply (Hn ro), (own_spec _ _ H).
Qed.

(** One command moves. *)
Lemma own_move s s' pl c o :
  own s pl ->
  (forall g, g <> Parking -> exists l, tokens s g ≡ₚ token_at (pl !! c) c g ++ l /\ tokens s' g ≡ₚ token_at o c g ++ l) ->
  (forall ro, o = Some (Parking, ro) -> ro = Parked) ->
  own s' (partial_alter (fun _ => o) c pl).
Proof.
  intros H Hm Ho.
  assert (Hl : forall g l, g <> Parking -> tokens s g ≡ₚ token_at (pl !! c) c g ++ l -> c ∉ l.*1 /\ NoDup l.*1).
  { intros g l Hg E. pose proof (own_NoDup _ _ H g) as HN. rewrite E, fmap_app in HN.
    apply NoDup_app in HN as (_ & Hd & HN). split; [|done]. intros Hin.
    unfold token_at in *. destruct (pl !! c) as [[g' ro]|] eqn:Ec; [case_decide as D|].
    - apply (Hd c); [cbn; set_solver|done].
    - apply (own_absent _ _ g c H Hg); [congruence|]. rewrite E. done.
    - apply (own_absent _ _ g c H Hg); [congruence|]. rewrite E. done. }
  split.
  - intros g c' ro Hg. destruct (Hm g Hg) as (l & E & E'). destruct (Hl g l Hg E) as [Hc _].
    rewrite E', elem_of_app. destruct (decide (c' = c)) as [->|Hne].
    + rewrite lookup_partial_alter_eq. assert ((c, ro) ∉ l) by (intros Hin; apply Hc; now apply (list_elem_of_fmap_2 fst) in Hin).
      unfold token_at. destruct o as [[g' ro']|]; [case_decide|]; subst; set_solver.
    + rewrite lookup_partial_alter_ne by done. rewrite <- (own_spec _ _ H g c' ro Hg), E, elem_of_app.
      unfold token_at. destruct o as [[g' ro']|]; destruct (pl !! c) as [[g2 ro2]|]; repeat case_decide; set_solver.
  - intros g. destruct (decide (g = Parking)) as [->|Hg]; [constructor|].
    destruct (Hm g Hg) as (l & E & E'). destruct (Hl g l Hg E) as [Hc HN]. rewrite E', fmap_app.
    unfold token_at. destruct o as [[g' ro']|]; [case_decide|]; cbn; [constructor|..]; done.
  - intros c' ro. destruct (decide (c' = c)) as [->|Hne].
    + rewrite lookup_partial_alter_eq. apply Ho.
    + rewrite lookup_partial_alter_ne by done. apply (own_parking _ _ H).
Qed.

Section moves.
Context (s s' : sys) (pl : places) (c : nat) (Hown : own s pl).

Lemma token_at_ne o g : (forall ro, o <> Some (g, ro)) -> token_at o c g = [].
Proof. unfold token_at. destruct o as [[g' ro]|]; [|done]. case_decide; [|done]. subst. intros H. now destruct (H ro). Qed.

Lemma token_at_eq g ro : token_at (Some (g, ro)) c g = [(c, ro)].
Proof. unfold token_at. now rewrite decide_True. Qed.

Lemma own_elem g ro l : g <> Parking -> tokens s g ≡ₚ (c, ro) :: l -> pl !! c = Some (g, ro).
Proof. intros Hg E. apply (own_spec _ _ Hown); [done|]. rewrite E. constructor. Qed.

(** Its agent keeps it. *)
Lemma own_role g r1 r2 l :
  g <> Parking -> tokens s g ≡ₚ (c, r1) :: l -> tokens s' g ≡ₚ (c, r2) :: l ->
  (forall g', g' <> g -> tokens s' g' = tokens s g') -> own s' (<[c := (g, r2)]> pl).
Proof using Hown.
  intros Hg E E' Ho. pose proof (own_elem g r1 l Hg E) as Hc.
  apply (own_move s s' pl c (Some (g, r2)) Hown); [|congruence].
  intros g' Hg'. rewrite Hc. destruct (decide (g' = g)) as [->|Hne].
  - exists l. now rewrite !token_at_eq, E, E'.
  - exists (tokens s g'). now rewrite (Ho g' Hne), !token_at_ne by congruence.
Qed.

(** It passes from one to another. *)
Lemma own_give g1 g2 r1 r2 :
  g1 <> Parking -> g2 <> Parking -> g1 <> g2 ->
  tokens s g1 ≡ₚ (c, r1) :: tokens s' g1 -> tokens s' g2 ≡ₚ (c, r2) :: tokens s g2 ->
  (forall g', g' <> g1 -> g' <> g2 -> tokens s' g' = tokens s g') -> own s' (<[c := (g2, r2)]> pl).
Proof using Hown.
  intros Hg1 Hg2 Hne E1 E2 Ho. pose proof (own_elem g1 r1 _ Hg1 E1) as Hc.
  apply (own_move s s' pl c (Some (g2, r2)) Hown); [|congruence].
  intros g' Hg'. rewrite Hc. destruct (decide (g' = g1)) as [->|N1]; [|destruct (decide (g' = g2)) as [->|N2]].
  - exists (tokens s' g1). now rewrite token_at_eq, token_at_ne, E1 by congruence.
  - exists (tokens s g2). now rewrite token_at_eq, token_at_ne, E2 by congruence.
  - exists (tokens s g'). now rewrite (Ho g' N1 N2), !token_at_ne by congruence.
Qed.

(** It passes to nobody, or is freed. *)
Lemma own_drop g1 r1 o :
  g1 <> Parking -> (o = None \/ o = Some (Parking, Parked)) ->
  tokens s g1 ≡ₚ (c, r1) :: tokens s' g1 ->
  (forall g', g' <> g1 -> tokens s' g' = tokens s g') -> own s' (partial_alter (fun _ => o) c pl).
Proof using Hown.
  intros Hg1 Hor E1 Ho. pose proof (own_elem g1 r1 _ Hg1 E1) as Hc.
  apply (own_move s s' pl c o Hown); [|destruct Hor; congruence].
  intros g' Hg'. rewrite Hc. rewrite (token_at_ne o) by (destruct Hor; congruence).
  destruct (decide (g' = g1)) as [->|N1].
  - exists (tokens s' g1). now rewrite token_at_eq, E1.
  - exists (tokens s g'). now rewrite (Ho g' N1), token_at_ne by congruence.
Qed.

(** It comes from nobody. *)
Lemma own_new g2 r2 :
  g2 <> Parking -> (pl !! c = None \/ exists ro, pl !! c = Some (Parking, ro)) ->
  tokens s' g2 ≡ₚ (c, r2) :: tokens s g2 ->
  (forall g', g' <> g2 -> tokens s' g' = tokens s g') -> own s' (<[c := (g2, r2)]> pl).
Proof using Hown.
  intros Hg2 Hor E2 Ho.
  apply (own_move s s' pl c (Some (g2, r2)) Hown); [|congruence].
  intros g' Hg'. rewrite (token_at_ne (pl !! c)) by (destruct Hor as [->|[? ->]]; congruence).
  destruct (decide (g' = g2)) as [->|N1].
  - exists (tokens s g2). now rewrite token_at_eq, E2.
  - exists (tokens s g'). now rewrite (Ho g' N1), token_at_ne by congruence.
Qed.

End moves.

(** *** The tokens after an update *)

Lemma tokens_set_call k a s g :
  (k < length (calls s))%nat -> tokens (set_call k a s) g = if decide (g = Caller k) then call_tokens a else tokens s g.
Proof.
  intros Hk. case_decide as D; [subst|destruct g]; cbn; try done.
  - now rewrite list_lookup_insert_eq.
  - rewrite list_lookup_insert_ne; congruence.
Qed.

Lemma tokens_on_cpu i f s p g :
  cpus s !! i = Some p -> tokens (on_cpu i f s) g = if decide (g = Cpu i) then cpu_tokens (f p) else tokens s g.
Proof.
  intros Hp. case_decide as D; [subst|destruct g]; cbn; try done.
  - now rewrite list_lookup_alter_eq, Hp.
  - rewrite list_lookup_alter_ne; congruence.
Qed.

Lemma tokens_on_host h f s x g :
  hosts s !! h = Some x -> tokens (on_host h f s) g = if decide (g = Reserve h) then free_tokens (f x) else tokens s g.
Proof.
  intros Hp. case_decide as D; [subst|destruct g]; cbn; try done.
  - now rewrite list_lookup_alter_eq, Hp.
  - rewrite list_lookup_alter_ne; congruence.
Qed.

(** An update of a host that leaves its reserve alone. *)
Lemma tokens_on_host_same h f s g : (forall x, free_list (f x) = free_list x) -> tokens (on_host h f s) g = tokens s g.
Proof.
  intros Hf. destruct (hosts s !! h) as [x|] eqn:Hh.
  - rewrite (tokens_on_host h f s x g Hh). case_decide; [subst|done]. cbn. rewrite Hh. cbn. unfold free_tokens. now rewrite Hf.
  - destruct g; cbn; try done. destruct (decide (h = h0)) as [<-|]; [|now rewrite list_lookup_alter_ne].
    now rewrite list_lookup_alter_eq, Hh.
Qed.

Lemma tokens_set_driver o s g :
  tokens (set_driver o s) g = if decide (g = Driver) then (fun c => (c, Owned)) <$> elements o else tokens s g.
Proof. case_decide; [now subst|]. now destruct g. Qed.

(** ** Commands *)

Definition flags_ok (ro : role) (x : scsi_cmnd) : Prop :=
  test_flag VMK_FLAGS_IO_TIMEOUT x = false /\ test_flag VMK_FLAGS_TMF_REQUEST x = false /\
  test_flag VMK_FLAGS_INTERNAL_COMMAND x = false /\
  match ro with
  | New | Fresh =>
      test_flag VMK_FLAGS_NEED_CMDDONE x = false /\ test_flag VMK_FLAGS_DELAY_CMDDONE x = false /\
      test_flag VMK_FLAGS_CMDDONE_ATTEMPTED x = false
  | Cleared | Finished | Gone => test_flag VMK_FLAGS_NEED_CMDDONE x = false /\ test_flag VMK_FLAGS_DELAY_CMDDONE x = false
  | Owned => test_flag VMK_FLAGS_NEED_CMDDONE x = true /\ test_flag VMK_FLAGS_CMDDONE_ATTEMPTED x = false
  | Retry =>
      test_flag VMK_FLAGS_NEED_CMDDONE x = true /\ test_flag VMK_FLAGS_CMDDONE_ATTEMPTED x = true /\
      test_flag VMK_FLAGS_DELAY_CMDDONE x = false
  | Parked =>
      test_flag VMK_FLAGS_NEED_CMDDONE x = true /\ test_flag VMK_FLAGS_CMDDONE_ATTEMPTED x = true /\
      test_flag VMK_FLAGS_DELAY_CMDDONE x = true
  | Free => False
  end.

(** One command: what it contains, where it is, and who aborts it; [n] devices. *)
Definition cmd_ok (n : nat) (ox : option scsi_cmnd) (op : option (agent * role)) (oa : option nat) : Prop :=
  match ox, op with
  | Some x, Some (_, ro) =>
      flags_ok ro x /\ test_flag VMK_FLAGS_DELAY_CMDDONE x = bool_decide (is_Some oa) /\ (device x < n)%nat
  | None, Some (_, ro) => ro = Free /\ oa = None
  | None, None => oa = None
  | Some _, None => False
  end.

Definition cmds_ok (n : nat) (m : gmap nat scsi_cmnd) (pl : places) (ab : gmap nat nat) : Prop :=
  forall c, cmd_ok n (m !! c) (pl !! c) (ab !! c).

Lemma cmds_ok_alter n m pl ab c ox op oa :
  cmds_ok n m pl ab -> cmd_ok n ox op oa ->
  cmds_ok n (partial_alter (fun _ => ox) c m) (partial_alter (fun _ => op) c pl) (partial_alter (fun _ => oa) c ab).
Proof.
  intros H Hc c'. destruct (decide (c' = c)) as [->|Hne].
  - now rewrite !lookup_partial_alter_eq.
  - rewrite !lookup_partial_alter_ne by done. apply H.
Qed.

(** ** The lists of the devices *)

Definition listed (ro : role) : bool := match ro with New | Gone | Free => false | _ => true end.

Definition on_list (d : nat) (ox : option scsi_cmnd) (op : option (agent * role)) (oa : option nat) : Prop :=
  exists x g ro, ox = Some x /\ device x = d /\ op = Some (g, ro) /\ listed ro = true /\ oa = None.

Definition lists_ok (ds : list scsi_device) (m : gmap nat scsi_cmnd) (pl : places) (ab : gmap nat nat) : Prop :=
  forall d v, ds !! d = Some v ->
    NoDup (cmd_list v) /\ forall c, c ∈ cmd_list v <-> on_list d (m !! c) (pl !! c) (ab !! c).

Lemma lists_ok_alter ds ds' m pl ab c ox op oa :
  lists_ok ds m pl ab ->
  (forall d v', ds' !! d = Some v' -> exists v, ds !! d = Some v /\
     (NoDup (cmd_list v) -> NoDup (cmd_list v')) /\ (forall c', c' <> c -> c' ∈ cmd_list v' <-> c' ∈ cmd_list v) /\
     (c ∈ cmd_list v' <-> on_list d ox op oa)) ->
  lists_ok ds' (partial_alter (fun _ => ox) c m) (partial_alter (fun _ => op) c pl) (partial_alter (fun _ => oa) c ab).
Proof.
  intros H Hd d v' Hv'. destruct (Hd d v' Hv') as (v & Hv & HN & Hne & Hc). destruct (H d v Hv) as [N L].
  split; [now apply HN|]. intros c'. destruct (decide (c' = c)) as [->|Hneq].
  - now rewrite !lookup_partial_alter_eq.
  - rewrite !lookup_partial_alter_ne by done. rewrite Hne by done. apply L.
Qed.

(** The lists do not change when the command was and is on the same one. *)
Lemma lists_ok_same ds ds' m pl ab c ox op oa :
  lists_ok ds m pl ab ->
  (forall d v', ds' !! d = Some v' -> exists v, ds !! d = Some v /\ cmd_list v' = cmd_list v) ->
  (forall d, on_list d ox op oa <-> on_list d (m !! c) (pl !! c) (ab !! c)) ->
  lists_ok ds' (partial_alter (fun _ => ox) c m) (partial_alter (fun _ => op) c pl) (partial_alter (fun _ => oa) c ab).
Proof.
  intros H Hd Hc. apply (lists_ok_alter ds); [done|]. intros d v' Hv'. destruct (Hd d v' Hv') as (v & Hv & E).
  exists v. rewrite E. destruct (H d v Hv) as [_ L]. repeat split; try done; rewrite Hc; apply L.
Qed.

(** ** The lists of the callers that abort *)

Definition ctx_list (x : abort_ctx) : list nat := match x with InAbort _ _ sel _ => sel | InWork => [] end.
Definition alist (a : call) : list nat :=
  match a with
  | Select _ _ sel | AbortLoop _ _ sel _ => sel
  | AbortTry x _ | AbortHandler x _ | AbortStatus x _ _ => ctx_list x
  | Finish _ rest _ _ | Done _ _ _ (ToAbort _ rest _ _) => rest
  | _ => []
  end.
Definition ctx_dev (x : abort_ctx) : option nat := match x with InAbort d _ _ _ => Some d | InWork => None end.
Definition adev (a : call) : option nat :=
  match a with
  | AbortLock d | Select d _ _ | AbortLoop d _ _ _ | Finish d _ _ _ | Done _ _ _ (ToAbort d _ _ _) => Some d
  | AbortTry x _ | AbortHandler x _ | AbortStatus x _ _ => ctx_dev x
  | _ => None
  end.
Definition device_of (m : gmap nat scsi_cmnd) (c : nat) : option nat := device <$> m !! c.

Definition abort_ok (m : gmap nat scsi_cmnd) (ab : gmap nat nat) (k : nat) (a : call) : Prop :=
  NoDup (alist a) /\ (forall c, c ∈ alist a <-> ab !! c = Some k) /\ (forall c, c ∈ alist a -> device_of m c = adev a).

Record aborts_ok (cs : list call) (m : gmap nat scsi_cmnd) (ab : gmap nat nat) : Prop := AbortsOk {
  aborts_call k a : cs !! k = Some a -> abort_ok m ab k a;
  aborts_who c k : ab !! c = Some k -> (k < length cs)%nat;
}.

Lemma aborts_ok_mono cs m m' ab :
  aborts_ok cs m ab -> (forall c, is_Some (ab !! c) -> device_of m' c = device_of m c) -> aborts_ok cs m' ab.
Proof.
  intros [H W] Hm. split; [|done]. intros k a Ha. destruct (H k a Ha) as (N & L & D). split; [done|]. split; [done|].
  intros c Hc. rewrite Hm; [now apply D|]. exists k. now apply L.
Qed.

Lemma aborts_ok_same cs m m' ab k a a' :
  aborts_ok cs m ab -> cs !! k = Some a -> alist a' = alist a -> (alist a = [] \/ adev a' = adev a) ->
  (forall c, is_Some (ab !! c) -> device_of m' c = device_of m c) -> aborts_ok (<[k := a']> cs) m' ab.
Proof.
  intros H Ha El Ed Hm. apply (aborts_ok_mono _ m m') in H as [H W]; [|done]. split; [|now rewrite length_insert].
  intros j b Hj. apply list_lookup_insert_Some in Hj as [(<- & <- & _)|(Hne & Hj)]; [|now apply H].
  destruct (H k a Ha) as (N & L & D). unfold abort_ok. rewrite El. split; [done|]. split; [done|].
  intros c Hc. destruct Ed as [E0|E0]; [|rewrite E0; now apply D]. rewrite E0 in Hc. set_solver.
Qed.

Lemma aborts_ok_add cs m m' ab k a a' c :
  aborts_ok cs m ab -> cs !! k = Some a -> alist a' = alist a ++ [c] -> adev a' = adev a -> ab !! c = None ->
  (forall c, device_of m' c = device_of m c) -> device_of m c = adev a ->
  aborts_ok (<[k := a']> cs) m' (<[c := k]> ab).
Proof.
  intros H Ha El Ed Hc Hm Hd. apply (aborts_ok_mono _ m m') in H as [H W]; [|auto]. split.
  2:{ intros c' j. rewrite length_insert. destruct (decide (c' = c)) as [->|Hne].
      - rewrite lookup_insert_eq. intros [= <-]. now apply lookup_lt_Some in Ha.
      - rewrite lookup_insert_ne by done. apply W. }
  intros j b Hj. apply list_lookup_insert_Some in Hj as [(<- & <- & _)|(Hne & Hj)].
  - destruct (H k a Ha) as (N & L & D). unfold abort_ok. rewrite El, Ed. split; [|split].
    + apply NoDup_app. split; [done|]. split; [|apply NoDup_singleton]. intros c' Hc' ->%list_elem_of_singleton.
      apply L in Hc'. congruence.
    + intros c'. rewrite elem_of_app, list_elem_of_singleton, L. destruct (decide (c' = c)) as [->|Hne].
      * rewrite lookup_insert_eq. naive_solver.
      * rewrite lookup_insert_ne by done. naive_solver.
    + intros c' Hc'. apply elem_of_app in Hc' as [Hc'|Hc']; [now apply D|].
      apply list_elem_of_singleton in Hc' as ->. now rewrite Hm.
  - destruct (H j b Hj) as (N & L & D). split; [done|]. split; [|done].
    intros c'. rewrite L. destruct (decide (c' = c)) as [->|Hne'].
    + rewrite lookup_insert_eq. split; [congruence|]. intros [= ->]. done.
    + now rewrite lookup_insert_ne by done.
Qed.

Lemma aborts_ok_rem cs m m' ab k a a' c :
  aborts_ok cs m ab -> cs !! k = Some a -> alist a = c :: alist a' -> adev a' = adev a ->
  (forall c, device_of m' c = device_of m c) ->
  aborts_ok (<[k := a']> cs) m' (delete c ab).
Proof.
  intros H Ha El Ed Hm. apply (aborts_ok_mono _ m m') in H as [H W]; [|auto]. split.
  2:{ intros c' j. rewrite length_insert. rewrite lookup_delete_Some. intros [_ ?]. now apply (W c'). }
  destruct (H k a Ha) as (N & L & D). rewrite El in N, L, D. apply NoDup_cons in N as [N1 N2].
  intros j b Hj. apply list_lookup_insert_Some in Hj as [(<- & <- & _)|(Hne & Hj)].
  - unfold abort_ok. rewrite Ed. split; [done|]. split.
    + intros c'. rewrite lookup_delete_Some, <- L, elem_of_cons. naive_solver.
    + intros c' Hc'. apply D. now right.
  - destruct (H j b Hj) as (N' & L' & D'). split; [done|]. split; [|done].
    intros c'. rewrite L', lookup_delete_Some. split; [|tauto]. intros Hc'. split; [|done].
    intros <-. assert (ab !! c = Some k) as E by (apply L; left). congruence.
Qed.

(** ** The callers *)

Definition attempted (m : gmap nat scsi_cmnd) (c : nat) : Prop :=
  exists x, m !! c = Some x /\ test_flag VMK_FLAGS_CMDDONE_ATTEMPTED x = true.

(** Those that an abort has gone through were completed, if it does not say that it
    failed. *)
Definition all_attempted (m : gmap nat scsi_cmnd) (retval : VMK_ReturnStatus) (l : list nat) : Prop :=
  retval <> VMK_FAILURE -> forall c, c ∈ l -> attempted m c.

Definition progress (m : gmap nat scsi_cmnd) (retval : VMK_ReturnStatus) (sel todo : list nat) : Prop :=
  exists past, sel = past ++ todo /\ all_attempted m retval past.

Definition ctx_ok (m : gmap nat scsi_cmnd) (n : nat) (x : abort_ctx) (c : nat) : Prop :=
  match x with
  | InAbort d todo sel retval => (d < n)%nat /\ progress m retval sel (c :: todo)
  | InWork => False
  end.

Definition call_ok (ds : list scsi_device) (ncpu : nat) (m : gmap nat scsi_cmnd) (a : call) : Prop :=
  match a with
  | Idle => True
  | Queue r d pc =>
      (d < length ds)%nat /\ (forall c ro, (c, ro) ∈ queue_tokens pc -> ro <> Owned -> device_of m c = Some d) /\
      match pc with
      | QTimeoutRead _ | QTimeoutWrite _ _ | QTimeoutArm _ => False
      | QPut _ st | QFree _ st => st <> VMK_OK
      | _ => True
      end
  | Done c i pc k =>
      (i < ncpu)%nat /\ match pc with DoneTimer | DoneDecide => False | _ => True end /\
      match k with
      | ToWork => False
      | ToAbort d rest _ retval => (d < length ds)%nat /\ all_attempted m retval rest
      | _ => True
      end
  | AbortLock d => (d < length ds)%nat
  | Select d rest sel => (d < length ds)%nat /\ NoDup rest /\ forall v c, ds !! d = Some v -> c ∈ rest -> c ∈ cmd_list v
  | AbortLoop d todo sel retval => (d < length ds)%nat /\ progress m retval sel todo
  | AbortTry x c | AbortHandler x c | AbortStatus x c _ => ctx_ok m (length ds) x c
  | Finish d rest sel retval => (d < length ds)%nat /\ all_attempted m retval rest
  | TimedOut _ | TimedOutQueue _ | WorkFinish _ => False
  end.

(** The commands a caller knows. *)
Definition known (a : call) : list nat := (call_tokens a).*1 ++ alist a.

(** What the other steps do to them. *)
Definition grows (m m' : gmap nat scsi_cmnd) (c : nat) : Prop :=
  device_of m' c = device_of m c /\ (attempted m c -> attempted m' c).

Lemma all_attempted_mono m m' retval l :
  all_attempted m retval l -> (forall c, c ∈ l -> grows m m' c) -> all_attempted m' retval l.
Proof. intros H Hg Hr c Hc. apply Hg; [done|]. now apply H. Qed.

Lemma progress_mono m m' retval sel todo :
  progress m retval sel todo -> (forall c, c ∈ sel -> grows m m' c) -> progress m' retval sel todo.
Proof.
  intros (past & -> & H) Hg. exists past. split; [done|]. apply (all_attempted_mono m); [done|].
  intros c Hc. apply Hg. apply elem_of_app. now left.
Qed.

Lemma call_ok_mono ds ds' ncpu m m' a :
  call_ok ds ncpu m a -> length ds' = length ds -> (forall c, c ∈ known a -> grows m m' c) ->
  (forall d rest sel, a = Select d rest sel -> forall v', ds' !! d = Some v' -> exists v, ds !! d = Some v /\ cmd_list v' = cmd_list v) ->
  call_ok ds' ncpu m' a.
Proof.
  intros H Hn Hg Hs.
  assert (Hctx : forall x c, (forall c', c' ∈ ctx_list x -> grows m m' c') -> ctx_ok m (length ds) x c -> ctx_ok m' (length ds') x c).
  { intros [d todo sel retval|] c HG; [|done]. intros [H1 H2]. cbn. split; [lia|]. now apply (progress_mono m). }
  unfold known in Hg.
  destruct a as [|r d pc|c i pc k|d|d rest sel|d todo sel retval|x c|x c|x c b|d rest sel retval|c|c|c]; cbn in *; try done.
  - destruct H as (H1 & H2 & H3). split; [lia|]. split; [|done]. intros c ro Hc Hro.
    destruct (Hg c) as [-> _]; [|now apply (H2 c ro)]. apply elem_of_app. left. now apply (list_elem_of_fmap_2 fst) in Hc.
  - destruct H as (H1 & Hp & H2). split; [done|]. split; [done|]. destruct k as [| |d rest sel retval|]; try done. destruct H2 as [H2 H3].
    split; [lia|]. apply (all_attempted_mono m); [done|]. intros c' Hc'. apply Hg, elem_of_app. now right.
  - lia.
  - destruct H as (H1 & H2 & H3). split; [lia|]. split; [done|]. intros v' c Hv' Hc.
    destruct (Hs d rest sel eq_refl v' Hv') as (v & Hv & ->). now apply (H3 v).
  - destruct H as [H1 H2]. split; [lia|]. now apply (progress_mono m).
  - now apply Hctx.
  - now apply Hctx.
  - now apply Hctx.
  - destruct H as [H1 H2]. split; [lia|]. now apply (all_attempted_mono m).
Qed.

(** ** Locks *)

Definition holds_host (ds : list scsi_device) (a : call) : option nat :=
  match a with
  | Queue _ d (QTimeoutRead _ | QTimeoutWrite _ _ | QTimeoutArm _ | QCall _ | QCalling _) => host <$> ds !! d
  | _ => None
  end.
Definition holds_list (a : call) : option nat :=
  match a with
  | Select d _ _ | Finish d _ _ _ | Done _ _ _ (ToAbort d _ _ _) => Some d
  | _ => None
  end.

(** [l i] is the lock of the object [i], [o a] what the caller [a] holds. *)
Definition lock_ok (o : call -> option nat) (cs : list call) (l : nat -> option (option nat)) : Prop :=
  forall i k, l i = Some (Some k) <-> is_Some (l i) /\ exists a, cs !! k = Some a /\ o a = Some i.

(** A step of the caller [k]: it keeps, takes or releases a lock. *)
Definition lock_change (k : nat) (i : nat) (o o' : option nat) (l l' : option (option nat)) : Prop :=
  l' = l /\ (o = Some i <-> o' = Some i) \/
  l = Some None /\ l' = Some (Some k) /\ o' = Some i \/
  l' = Some None /\ is_Some l /\ o = Some i /\ o' <> Some i.

Lemma lock_ok_step o o' cs l l' k a a' :
  lock_ok o cs l -> cs !! k = Some a -> (forall b, o' b = o b) ->
  (forall i, lock_change k i (o a) (o a') (l i) (l' i)) -> lock_ok o' (<[k := a']> cs) l'.
Proof.
  intros H Ha Eo Hc i j. pose proof (H i j) as Hij. pose proof (H i k) as Hik.
  assert (Hk : (exists b, <[k := a']> cs !! j = Some b /\ o' b = Some i) <->
               (j = k /\ o a' = Some i \/ j <> k /\ exists b, cs !! j = Some b /\ o b = Some i)).
  { destruct (decide (j = k)) as [->|Hne].
    - rewrite list_lookup_insert_eq by now apply lookup_lt_Some in Ha. setoid_rewrite Eo. naive_solver.
    - rewrite list_lookup_insert_ne by done. setoid_rewrite Eo. naive_solver. }
  rewrite Hk. destruct (Hc i) as [(-> & E)|[(E1 & E2 & E3)|(E1 & E2 & E3 & E4)]].
  - rewrite Hij. destruct (decide (j = k)) as [->|Hne]; [|naive_solver]. split.
    + intros (HS & b & Hb & Hob). split; [done|]. left. split; [done|]. apply E. congruence.
    + intros (HS & [(_ & Hb)|(? & _)]); [|done]. split; [done|]. exists a. split; [done|]. now apply E.
  - rewrite E2. split.
    + intros [= ->]. split; [eauto|]. now left.
    + intros (_ & [(-> & _)|(Hne & Hb)]); [done|]. exfalso.
      assert (l i = Some (Some j)) by (apply Hij; rewrite E1; eauto). congruence.
  - rewrite E1. split; [done|]. intros (_ & [(-> & Hb)|(Hne & Hb)]); [done|]. exfalso.
    assert (l i = Some (Some j)) by (apply Hij; eauto). assert (l i = Some (Some k)) by (apply Hik; eauto). congruence.
Qed.

Definition host_locks (hs : list Scsi_Host) (i : nat) : option (option nat) := host_lock <$> hs !! i.
Definition list_locks (ds : list scsi_device) (i : nat) : option (option nat) := list_lock <$> ds !! i.

(** ** Counts *)

(** Accepted and not completed to the VMkernel yet. *)
Definition counted (ro : role) : bool := match ro with Owned | Retry | Parked | Cleared => true | _ => false end.

Definition tally (f : scsi_cmnd -> nat) (ox : option scsi_cmnd) (op : option (agent * role)) : option nat :=
  match ox, op with
  | Some x, Some (_, ro) => if counted ro then Some (f x) else None
  | _, _ => None
  end.

(** The accepted commands with their devices, or with their requests. *)
Definition accepted (f : scsi_cmnd -> nat) (m : gmap nat scsi_cmnd) (pl : places) : gmap nat nat := merge (tally f) m pl.

Lemma lookup_accepted f m pl c : accepted f m pl !! c = tally f (m !! c) (pl !! c).
Proof. unfold accepted. rewrite lookup_merge. unfold diag_None. now destruct (m !! c), (pl !! c). Qed.

Lemma accepted_alter f m pl c ox op :
  accepted f (partial_alter (fun _ => ox) c m) (partial_alter (fun _ => op) c pl) =
  partial_alter (fun _ => tally f ox op) c (accepted f m pl).
Proof.
  apply map_eq. intros c'. rewrite lookup_accepted. destruct (decide (c' = c)) as [->|Hne].
  - now rewrite !lookup_partial_alter_eq.
  - now rewrite !lookup_partial_alter_ne, lookup_accepted by done.
Qed.

Lemma accepted_same f m pl c ox op :
  tally f ox op = tally f (m !! c) (pl !! c) ->
  accepted f (partial_alter (fun _ => ox) c m) (partial_alter (fun _ => op) c pl) = accepted f m pl.
Proof. intros E. rewrite accepted_alter, E, <- lookup_accepted. apply partial_alter_self. Qed.

Definition count (P : nat -> bool) (M : gmap nat nat) : Z := Z.of_nat (size (filter (fun p => P p.2 = true) M)).

Lemma count_insert P M c d : M !! c = None -> count P (<[c := d]> M) = count P M + (if P d then 1 else 0).
Proof.
  intros Hc. unfold count. destruct (P d) eqn:E.
  - rewrite map_filter_insert_True by done. rewrite map_size_insert_None; [lia|].
    now rewrite map_lookup_filter, Hc.
  - rewrite map_filter_insert_False by (cbn; congruence). rewrite delete_id by done. lia.
Qed.

Lemma count_delete P M c d : M !! c = Some d -> count P (delete c M) = count P M - (if P d then 1 else 0).
Proof.
  intros Hc. rewrite <- (insert_delete_id M c d Hc) at 2. rewrite count_insert by apply lookup_delete_eq. lia.
Qed.

Lemma count_ext P Q M : (forall d, P d = Q d) -> count P M = count Q M.
Proof. intros H. unfold count. do 2 f_equal. apply map_filter_ext. intros c d _. cbn. now rewrite H. Qed.

Definition is_dev (d : nat) (d' : nat) : bool := bool_decide (d' = d).
Definition is_host (ds : list scsi_device) (h : nat) (d' : nat) : bool := bool_decide (host <$> ds !! d' = Some h).

Record busy_ok (hs : list Scsi_Host) (ds : list scsi_device) (M : gmap nat nat) : Prop := BusyOk {
  busy_dev d v : ds !! d = Some v -> device_busy v = u32 (count (is_dev d) M);
  busy_host h x : hs !! h = Some x -> host_busy x = u32 (count (is_host ds h) M);
}.

Lemma busy_ok_same hs ds hs' ds' M :
  busy_ok hs ds M -> (forall d, host <$> ds' !! d = host <$> ds !! d) ->
  (forall d, device_busy <$> ds' !! d = device_busy <$> ds !! d) -> (forall h, host_busy <$> hs' !! h = host_busy <$> hs !! h) ->
  busy_ok hs' ds' M.
Proof.
  intros [H1 H2] E1 E2 E3. split.
  - intros d v Hv. pose proof (E2 d) as E. rewrite Hv in E. destruct (ds !! d) as [v0|] eqn:E0; [|done].
    cbn in E. injection E as ->. now apply H1.
  - intros h x Hx. pose proof (E3 h) as E. rewrite Hx in E. destruct (hs !! h) as [x0|] eqn:E0; [|done].
    cbn in E. injection E as ->. rewrite (H2 h x0 E0). f_equal. apply count_ext. intros d. unfold is_host. now rewrite E1.
Qed.

(** A command is accepted ([n] is 1) or completed ([n] is -1). *)
Lemma busy_ok_add hs ds M M' d v h n :
  busy_ok hs ds M -> ds !! d = Some v -> host v = h ->
  (forall P, count P M' = count P M + (if P d then n else 0)) ->
  busy_ok (alter (add_host_busy n) h hs) (alter (add_device_busy n) d ds) M'.
Proof.
  intros [H1 H2] Hd Hh HM.
  assert (Eh : forall d', host <$> alter (add_device_busy n) d ds !! d' = host <$> ds !! d').
  { intros d'. destruct (decide (d = d')) as [<-|Hne]; [|now rewrite list_lookup_alter_ne].
    rewrite list_lookup_alter_eq. now destruct (ds !! d). }
  split.
  - intros d' v' Hv'. rewrite HM. unfold is_dev at 2. destruct (decide (d = d')) as [<-|Hne].
    + rewrite list_lookup_alter_eq, Hd in Hv'. injection Hv' as <-. rewrite bool_decide_true by done.
      cbn [device_busy add_device_busy]. now rewrite (H1 d v Hd), wrap_add_l.
    + rewrite list_lookup_alter_ne in Hv' by done. rewrite bool_decide_false by done. rewrite Z.add_0_r. now apply H1.
  - intros h' x' Hx'. rewrite HM, (count_ext _ (is_host ds h')) by (intros d'; unfold is_host; now rewrite Eh).
    unfold is_host at 2. rewrite Eh, Hd. cbn [fmap option_fmap option_map]. rewrite Hh. destruct (decide (h = h')) as [<-|Hne].
    + rewrite list_lookup_alter_eq in Hx'. destruct (hs !! h) as [x|] eqn:Hx; [|done]. injection Hx' as <-.
      rewrite bool_decide_true by done. cbn [host_busy add_host_busy]. now rewrite (H2 h x Hx), wrap_add_l.
    + rewrite list_lookup_alter_ne in Hx' by done. rewrite bool_decide_false by congruence. rewrite Z.add_0_r. now apply H2.
Qed.

(** ** Requests *)

(** What has become of a request: it is being queued, was accepted as a command, is
    about to be completed by a bottom half, is completed, or was sent back. *)
Inductive phase := PNew (k : nat) | PLive (c : nat) | PBh (i : nat) | PCompleted | PRefused.

Definition before_accept (pc : queue_pc) : bool :=
  match pc with QGet | QList _ | QPrepare _ | QBusy _ | QLock _ | QPut _ _ | QFree _ _ => true | _ => false end.

Definition new_request (a : call) : option nat :=
  match a with Queue r _ pc => if before_accept pc then Some r else None | _ => None end.
(** The requests whose acceptance is still to be reported. *)
Definition open_request (a : call) : option nat :=
  match a with
  | Queue r _ pc => if before_accept pc then None else Some r
  | Done _ _ _ (ToQueue r) => Some r
  | _ => None
  end.
Definition bh_request (pc : bh_pc) : option nat :=
  match pc with BhPut _ r _ _ | BhFree _ r _ _ | BhComplete r _ _ => Some r | _ => None end.

Definition completed_request (e : event) : option nat := match e with Completed r _ => Some r | _ => None end.
Definition completions (l : list event) : list nat := omap completed_request l.
Definition refused (l : list event) (r : nat) : Prop := exists st, st <> VMK_OK /\ Returned r st ∈ l.

Definition claim (cs : list call) (ps : list scsiLinuxTLS) (L : gmap nat nat) (l : list event) (ph : phase) (r : nat) : Prop :=
  match ph with
  | PNew k => (cs !! k) ≫= new_request = Some r
  | PLive c => L !! c = Some r
  | PBh i => (ps !! i) ≫= (fun p => bh_request (bh p)) = Some r
  | PCompleted => r ∈ completions l
  | PRefused => refused l r
  end.

Definition taken (o : option phase) : Prop := match o with Some (PLive _ | PBh _ | PCompleted) => True | _ => False end.

Definition all_requests (n : nat) (rq : gmap nat phase) : Prop := forall r, is_Some (rq !! r) <-> (r < n)%nat.

Record requests_ok (cs : list call) (ps : list scsiLinuxTLS) (L : gmap nat nat) (n : nat) (l : list event)
    (rq : gmap nat phase) : Prop := RequestsOk {
  rq_claim ph r : claim cs ps L l ph r <-> rq !! r = Some ph;
  rq_NoDup : NoDup (completions l);
  rq_open k r : (cs !! k) ≫= open_request = Some r -> taken (rq !! r);
  rq_ok r : Returned r VMK_OK ∈ l -> taken (rq !! r);
  rq_all : all_requests n rq;
}.

Lemma requests_ok_ext cs ps L n l rq cs' ps' L' :
  requests_ok cs ps L n l rq ->
  (forall k, (cs' !! k) ≫= new_request = (cs !! k) ≫= new_request) ->
  (forall k r, (cs' !! k) ≫= open_request = Some r -> (cs !! k) ≫= open_request = Some r) ->
  (forall i, (ps' !! i) ≫= (fun p => bh_request (bh p)) = (ps !! i) ≫= (fun p => bh_request (bh p))) ->
  L' = L -> requests_ok cs' ps' L' n l rq.
Proof.
  intros [H1 H2 H3 H4 H5] E1 E2 E3 ->. split; try done.
  - intros ph r. rewrite <- H1. destruct ph; cbn [claim]; rewrite ?E1, ?E3; done.
  - intros k r Hk. apply (H3 k). auto.
Qed.

(** One request gets on. *)
Lemma requests_ok_move cs ps L n l rq cs' ps' L' n' l' r o :
  requests_ok cs ps L n l rq ->
  (forall ph r', claim cs' ps' L' l' ph r' <-> (r' <> r /\ claim cs ps L l ph r') \/ (r' = r /\ o = Some ph)) ->
  NoDup (completions l') ->
  (taken (rq !! r) -> taken o) ->
  (forall k r', (cs' !! k) ≫= open_request = Some r' -> (cs !! k) ≫= open_request = Some r' \/ (r' = r /\ taken o)) ->
  (forall r', Returned r' VMK_OK ∈ l' -> Returned r' VMK_OK ∈ l) ->
  all_requests n' (partial_alter (fun _ => o) r rq) ->
  requests_ok cs' ps' L' n' l' (partial_alter (fun _ => o) r rq).
Proof.
  intros [H1 H2 H3 H4 H5] Hc HN Ht Ho Hl Hn.
  assert (HT : forall r', taken (rq !! r') -> taken (partial_alter (fun _ => o) r rq !! r')).
  { intros r' Hr'. destruct (decide (r' = r)) as [->|Hne].
    - rewrite lookup_partial_alter_eq. auto.
    - now rewrite lookup_partial_alter_ne. }
  split; try done.
  - intros ph r'. rewrite Hc. destruct (decide (r' = r)) as [->|Hne].
    + rewrite lookup_partial_alter_eq. naive_solver.
    + rewrite lookup_partial_alter_ne, H1 by done. naive_solver.
  - intros k r' Hk. destruct (Ho k r' Hk) as [Hk'|[-> Hk']]; [apply HT; now apply (H3 k)|].
    now rewrite lookup_partial_alter_eq.
  - intros r' Hr'. apply HT, H4, Hl, Hr'.
Qed.

(** A call of the log that says nothing new. *)
Lemma requests_ok_log cs ps L n l rq e :
  requests_ok cs ps L n l rq ->
  match e with Returned r st => st = VMK_OK /\ taken (rq !! r) | Completed _ _ => False | Aborted _ _ => True end ->
  requests_ok cs ps L n (l ++ [e]) rq.
Proof.
  intros [H1 H2 H3 H4 H5] He.
  assert (Ec : completions (l ++ [e]) = completions l).
  { unfold completions. rewrite omap_app. cbn. destruct e; [|done|]; cbn; apply app_nil_r. }
  split; try done.
  - intros ph r. rewrite <- H1. destruct ph; cbn [claim]; try done.
    + now rewrite Ec.
    + unfold refused. setoid_rewrite elem_of_app. setoid_rewrite list_elem_of_singleton.
      destruct e; naive_solver.
  - now rewrite Ec.
  - intros r Hr. apply elem_of_app in Hr as [Hr|Hr]; [now apply H4|]. apply list_elem_of_singleton in Hr as <-. tauto.
Qed.
