(* ===== verification/ScsiStep.v ===== *)
(** The invariant of [ScsiLife] is kept by every step, and no step is a fault: the
    clauses of [ScsiInv] together, the kinds of update that keep them, and the steps
    composed of these. *)

From stdpp Require Import gmap.
From S2P Require Import Prelude ScsiCmd ScsiLife ScsiInv.
Local Open Scope Z_scope.

(** ** The invariant *)

(** The command that a caller is about to accept, or a bottom half to complete, with
    the request it is for. *)
Definition knows (a : call) : option (nat * nat) :=
  match a with Queue r _ (QBusy c) | Queue r _ (QLock c) => Some (c, r) | _ => None end.
Definition bh_knows (pc : bh_pc) : option (nat * nat) :=
  match pc with BhBusy c r _ _ => Some (c, r) | _ => None end.

Record inv (s : sys) (pl : places) (ab : gmap nat nat) (rq : gmap nat phase) : Prop := Inv {
  i_own : own s pl;
  i_cmds : cmds_ok (length (devs s)) (cmds s) pl ab;
  i_lists : lists_ok (devs s) (cmds s) pl ab;
  i_aborts : aborts_ok (calls s) (cmds s) ab;
  i_calls k a : calls s !! k = Some a -> call_ok (devs s) (length (cpus s)) (cmds s) a;
  i_hlock : lock_ok (holds_host (devs s)) (calls s) (host_locks (hosts s));
  i_llock : lock_ok holds_list (calls s) (list_locks (devs s));
  i_busy : busy_ok (hosts s) (devs s) (accepted device (cmds s) pl);
  i_reqs : requests_ok (calls s) (cpus s) (accepted vmkCmdPtr (cmds s) pl) (length (reqs s)) (log s) rq;
  i_knows k c r : (calls s !! k) ≫= knows = Some (c, r) -> vmkCmdPtr <$> cmds s !! c = Some r;
  i_bh_knows i c r : (cpus s !! i) ≫= (fun p => bh_knows (bh p)) = Some (c, r) -> vmkCmdPtr <$> cmds s !! c = Some r;
  i_timers : timers s = ∅ /\ linuxSCSIIO_work s = None;
  i_hosts : no_timeouts (hosts s) /\ forall d v, devs s !! d = Some v -> (host v < length (hosts s))%nat;
}.

(** ** Frames *)

(** Maps that differ at [c] at most. *)
Definition agree {A} (c : nat) (m m' : gmap nat A) : Prop := forall c', c' <> c -> m' !! c' = m !! c'.

Lemma agree_refl {A} c (m : gmap nat A) : agree c m m.
Proof. done. Qed.
Lemma agree_insert {A} c (m : gmap nat A) x : agree c m (<[c := x]> m).
Proof. intros c' Hc. now apply lookup_insert_ne. Qed.
Lemma agree_delete {A} c (m : gmap nat A) : agree c m (delete c m).
Proof. intros c' Hc. now apply lookup_delete_ne. Qed.
Hint Resolve agree_refl agree_insert agree_delete : core.

Section at_one.
Context {n : nat} {m m' : gmap nat scsi_cmnd} {pl pl' : places} {ab ab' : gmap nat nat} {c : nat}.
Context (Am : agree c m m') (Ap : agree c pl pl') (Aa : agree c ab ab').

Lemma cmds_ok_at : cmds_ok n m pl ab -> cmd_ok n (m' !! c) (pl' !! c) (ab' !! c) -> cmds_ok n m' pl' ab'.
Proof using Am Ap Aa. intros H Hc c'. destruct (decide (c' = c)) as [->|Hne]; [done|]. now rewrite Am, Ap, Aa. Qed.

Lemma lists_ok_at ds ds' : lists_ok ds m pl ab ->
  (forall d v', ds' !! d = Some v' -> exists v, ds !! d = Some v /\
     (NoDup (cmd_list v) -> NoDup (cmd_list v')) /\ (forall c', c' <> c -> c' ∈ cmd_list v' <-> c' ∈ cmd_list v) /\
     ((c ∈ cmd_list v <-> on_list d (m !! c) (pl !! c) (ab !! c)) -> c ∈ cmd_list v' <-> on_list d (m' !! c) (pl' !! c) (ab' !! c))) ->
  lists_ok ds' m' pl' ab'.
Proof using Am Ap Aa.
  intros H Hd d v' Hv'. destruct (Hd d v' Hv') as (v & Hv & HN & Hne & Hc). destruct (H d v Hv) as [N L].
  split; [now apply HN|]. intros c'. destruct (decide (c' = c)) as [->|Hneq]; [apply Hc, L|].
  rewrite Hne, Am, Ap, Aa by done. apply L.
Qed.

Lemma lists_ok_keep ds ds' : lists_ok ds m pl ab ->
  (forall d v', ds' !! d = Some v' -> exists v, ds !! d = Some v /\ cmd_list v' = cmd_list v) ->
  (forall d, on_list d (m' !! c) (pl' !! c) (ab' !! c) <-> on_list d (m !! c) (pl !! c) (ab !! c)) ->
  lists_ok ds' m' pl' ab'.
Proof using Am Ap Aa.
  intros H Hd Hc. apply (lists_ok_at ds); [done|]. intros d v' Hv'. destruct (Hd d v' Hv') as (v & Hv & E).
  exists v. rewrite E. repeat split; try done; rewrite Hc; tauto.
Qed.

Lemma accepted_eq f : tally f (m' !! c) (pl' !! c) = tally f (m !! c) (pl !! c) -> accepted f m' pl' = accepted f m pl.
Proof using Am Ap.
  intros E. apply map_eq. intros c'. rewrite !lookup_accepted. destruct (decide (c' = c)) as [->|Hne]; [done|].
  now rewrite Am, Ap.
Qed.

Lemma accepted_add f d : tally f (m' !! c) (pl' !! c) = Some d -> accepted f m' pl' = <[c := d]> (accepted f m pl).
Proof using Am Ap.
  intros E. apply map_eq. intros c'. rewrite lookup_accepted. destruct (decide (c' = c)) as [->|Hne].
  - now rewrite lookup_insert_eq.
  - now rewrite lookup_insert_ne, lookup_accepted, Am, Ap.
Qed.

Lemma accepted_rem f : tally f (m' !! c) (pl' !! c) = None -> accepted f m' pl' = delete c (accepted f m pl).
Proof using Am Ap.
  intros E. apply map_eq. intros c'. rewrite lookup_accepted. destruct (decide (c' = c)) as [->|Hne].
  - now rewrite lookup_delete_eq.
  - now rewrite lookup_delete_ne, lookup_accepted, Am, Ap.
Qed.
End at_one.

(** ** What the invariant says of a command *)

Section facts.
Context {s : sys} {pl : places} {ab : gmap nat nat} {rq : gmap nat phase} (H : inv s pl ab rq).

Lemma inv_token g c ro : g <> Parking -> (c, ro) ∈ tokens s g -> pl !! c = Some (g, ro).
Proof using H. intros Hg. apply (own_spec _ _ (i_own _ _ _ _ H)); done. Qed.

Lemma inv_call_token k a c ro : calls s !! k = Some a -> (c, ro) ∈ call_tokens a -> pl !! c = Some (Caller k, ro).
Proof using H. intros Ha Hc. apply inv_token; [done|]. cbn. now rewrite Ha. Qed.

Lemma inv_place c g ro : pl !! c = Some (g, ro) -> ro <> Free ->
  exists x, cmds s !! c = Some x /\ flags_ok ro x /\ test_flag VMK_FLAGS_DELAY_CMDDONE x = bool_decide (is_Some (ab !! c))
    /\ (device x < length (devs s))%nat.
Proof using H.
  intros Hc Hf. pose proof (i_cmds _ _ _ _ H c) as Hk. rewrite Hc in Hk. unfold cmd_ok in Hk.
  destruct (cmds s !! c) as [x|]; [|now destruct Hk]. exists x. tauto.
Qed.

(** Only the reserves have commands that are not in use. *)
Lemma inv_free c g : pl !! c = Some (g, Free) -> exists h, g = Reserve h.
Proof using H.
  intros Hc. destruct (decide (g = Parking)) as [->|Hg]; [now apply (own_parking _ _ (i_own _ _ _ _ H)) in Hc|].
  apply (own_spec _ _ (i_own _ _ _ _ H)) in Hc; [|done]. destruct g as [k|i| | |h]; cbn in Hc; [| | |done|now eexists].
  - destruct (calls s !! k) as [a|]; [|set_solver]. cbn in Hc. exfalso. revert Hc.
    destruct a as [|r d pc|c1 i pc k1|d|d rest sel|d todo sel retval|x c1|x c1|x c1 b|d rest sel retval|c1|c1|c1]; cbn; try set_solver.
    + destruct pc; cbn; set_solver.
    + destruct pc, k1; cbn; set_solver.
  - destruct (cpus s !! i) as [p|]; [|set_solver]. cbn in Hc. exfalso. unfold cpu_tokens in Hc. apply elem_of_app in Hc as [Hc|Hc].
    + destruct (bh p); cbn in Hc; set_solver.
    + apply list_elem_of_fmap in Hc as (c1 & E & _). congruence.
  - exfalso. apply list_elem_of_fmap in Hc as (c1 & E & _). congruence.
Qed.

Lemma inv_known k a c : calls s !! k = Some a -> c ∈ known a -> (exists ro, pl !! c = Some (Caller k, ro)) \/ ab !! c = Some k.
Proof using H.
  intros Ha Hc. unfold known in Hc. apply elem_of_app in Hc as [Hc|Hc].
  - left. apply list_elem_of_fmap in Hc as ([c1 ro] & -> & Hc). exists ro. now apply (inv_call_token k a).
  - right. now apply (aborts_call _ _ _ (i_aborts _ _ _ _ H) k a Ha).
Qed.

(** A command that is being aborted was accepted. *)
Lemma inv_aborted c k : ab !! c = Some k -> exists x g ro, cmds s !! c = Some x /\ pl !! c = Some (g, ro) /\ (ro = Owned \/ ro = Parked)
  /\ flags_ok ro x /\ (device x < length (devs s))%nat.
Proof using H.
  intros Hc. pose proof (i_cmds _ _ _ _ H c) as Hk. rewrite Hc in Hk. unfold cmd_ok in Hk.
  destruct (cmds s !! c) as [x|], (pl !! c) as [[g ro]|]; [|done|now destruct Hk|done].
  destruct Hk as (Hf & Hd & Hv). exists x, g, ro. split; [done|]. split; [done|]. split; [|done].
  rewrite bool_decide_true in Hd by eauto. destruct Hf as (_ & _ & _ & Hf). destruct ro; try (now left); try (now right); exfalso; cbn in Hf; intuition congruence.
Qed.

Lemma inv_fresh_unaborted c g ro : pl !! c = Some (g, ro) -> ro <> Owned -> ro <> Parked -> ab !! c = None.
Proof using H.
  intros Hc H1 H2. destruct (ab !! c) as [k|] eqn:E; [|done]. apply inv_aborted in E as (x & g' & ro' & _ & E & [->| ->] & _); congruence.
Qed.

(** The other callers do not mind what happens to a command of [g]. *)
Lemma inv_others k a m' ds' c g ro :
  calls s !! k = Some a -> pl !! c = Some (g, ro) -> g <> Caller k -> ab !! c <> Some k ->
  agree c (cmds s) m' -> length ds' = length (devs s) ->
  (forall d rest sel, a = Select d rest sel -> forall v', ds' !! d = Some v' -> exists v, devs s !! d = Some v /\ cmd_list v' = cmd_list v) ->
  call_ok ds' (length (cpus s)) m' a.
Proof using H.
  intros Ha Hc Hg Hab Hm Hn Hs. apply (call_ok_mono (devs s) ds' _ (cmds s) m'); [now apply (i_calls _ _ _ _ H k)|done| |done].
  intros c' Hk. assert (c' <> c) as Hne.
  { intros ->. destruct (inv_known k a c Ha Hk) as [[ro' E]|E]; congruence. }
  unfold grows, device_of, attempted. now rewrite (Hm c' Hne).
Qed.
End facts.

(** ** Updates *)

(** What the invariant reads of a host and a device, but for the locks. *)
Definition hkey (x : Scsi_Host) := (free_list x, host_busy x, fc_ioTimeout x && eh_abort_handler x).
Definition dkey (v : scsi_device) := (host v, device_busy v, cmd_list v).

Lemma key_fmap {A B C} (f : A -> B) (g : B -> C) (o o' : option A) :
  f <$> o' = f <$> o -> (fun x => g (f x)) <$> o' = (fun x => g (f x)) <$> o.
Proof. intros E. destruct o, o'; cbn in *; congruence. Qed.

Lemma dkey_lookup (ds ds' : list scsi_device) d v' : dkey <$> ds' !! d = dkey <$> ds !! d -> ds' !! d = Some v' ->
  exists v, ds !! d = Some v /\ host v' = host v /\ device_busy v' = device_busy v /\ cmd_list v' = cmd_list v.
Proof. intros E Hv. rewrite Hv in E. destruct (ds !! d) as [v|]; [|done]. injection E as -> -> ->. now exists v. Qed.

Lemma same_length {A B} (f : A -> B) (l l' : list A) : (forall i, f <$> l' !! i = f <$> l !! i) -> length l' = length l.
Proof.
  intros E. assert (f <$> l' = f <$> l) as El by (apply list_eq; intros i; rewrite !list_lookup_fmap; apply E).
  apply (f_equal length) in El. now rewrite !length_fmap in El.
Qed.

Lemma no_timeouts_lookup hs : no_timeouts hs <-> forall h x, hs !! h = Some x -> fc_ioTimeout x && eh_abort_handler x = false.
Proof. unfold no_timeouts. rewrite Forall_lookup. done. Qed.

(** Calls and locks change; no command does. *)
Lemma inv_update s s' pl ab rq :
  inv s pl ab rq ->
  (cmds s', cpus s', driver s', timers s', linuxSCSIIO_work s', reqs s', log s')
    = (cmds s, cpus s, driver s, timers s, linuxSCSIIO_work s, reqs s, log s) ->
  (forall h, hkey <$> hosts s' !! h = hkey <$> hosts s !! h) -> (forall d, dkey <$> devs s' !! d = dkey <$> devs s !! d) ->
  (forall j, from_option call_tokens [] (calls s' !! j) = from_option call_tokens [] (calls s !! j)) ->
  aborts_ok (calls s') (cmds s) ab ->
  (forall j a, calls s' !! j = Some a -> call_ok (devs s') (length (cpus s)) (cmds s) a) ->
  lock_ok (holds_host (devs s')) (calls s') (host_locks (hosts s')) ->
  lock_ok holds_list (calls s') (list_locks (devs s')) ->
  (forall j, (calls s' !! j) ≫= new_request = (calls s !! j) ≫= new_request) ->
  (forall j r, (calls s' !! j) ≫= open_request = Some r -> (calls s !! j) ≫= open_request = Some r) ->
  (forall j c r, (calls s' !! j) ≫= knows = Some (c, r) -> vmkCmdPtr <$> cmds s !! c = Some r) ->
  inv s' pl ab rq.
Proof.
  intros [Ho Hc Hl Ha Hk Hh Hll Hb Hr Hn Hbn Ht Hs] E EH ED ET Hab Hok Hhl Hlo EN EO EK. injection E as E1 E2 E3 E4 E5 E6 E7.
  pose proof (same_length dkey _ _ ED) as Ln. pose proof (same_length hkey _ _ EH) as Lh.
  split; rewrite ?E1, ?E2, ?E4, ?E5, ?E6, ?E7, ?Ln, ?Lh; try done.
  - apply (own_ext s); [done|]. intros [k|i| | |h]; cbn; rewrite ?E2, ?E3, ?ET; try done. specialize (EH h).
    destruct (hosts s' !! h), (hosts s !! h); cbn in *; try done. unfold free_tokens. now injection EH as ->.
  - intros d v' Hv'. destruct (dkey_lookup _ _ _ _ (ED d) Hv') as (v & Hv & _ & _ & ->). now apply Hl.
  - apply (busy_ok_same (hosts s) (devs s)); [done|..].
    + intros d. apply (key_fmap dkey (fun p => p.1.1)), ED.
    + intros d. apply (key_fmap dkey (fun p => p.1.2)), ED.
    + intros h. apply (key_fmap hkey (fun p => p.1.2)), EH.
  - now apply (requests_ok_ext (calls s) (cpus s) _ _ _ _ _ _ _ Hr).
  - destruct Hs as [Hs1 Hs2]. split.
    + rewrite no_timeouts_lookup in *. intros h x Hx. pose proof (key_fmap hkey (fun p => p.2) _ _ (EH h)) as E.
      rewrite Hx in E. destruct (hosts s !! h) as [y|] eqn:Ey; [|done]. injection E as ->. now apply (Hs1 h).
    + intros d v' Hv'. destruct (dkey_lookup _ _ _ _ (ED d) Hv') as (v & Hv & -> & _). now apply (Hs2 d).
Qed.

Lemma bind_insert {A B} (f : A -> option B) (l : list A) k a a' j : l !! k = Some a ->
  (<[k := a']> l !! j) ≫= f = if decide (j = k) then f a' else (l !! j) ≫= f.
Proof.
  intros Ha. destruct (decide (j = k)) as [->|Hne].
  - now rewrite list_lookup_insert_eq by now apply lookup_lt_Some in Ha.
  - now rewrite list_lookup_insert_ne by congruence.
Qed.

(** A caller goes on with the same commands, and may take or release a lock. *)
Lemma inv_caller s pl ab rq k a a' hs ds :
  inv s pl ab rq -> calls s !! k = Some a ->
  call_tokens a' = call_tokens a -> alist a' = alist a -> (alist a = [] \/ adev a' = adev a) ->
  call_ok ds (length (cpus s)) (cmds s) a' ->
  (forall h, hkey <$> hs !! h = hkey <$> hosts s !! h) -> (forall d, dkey <$> ds !! d = dkey <$> devs s !! d) ->
  (forall i, lock_change k i (holds_host (devs s) a) (holds_host (devs s) a') (host_locks (hosts s) i) (host_locks hs i)) ->
  (forall i, lock_change k i (holds_list a) (holds_list a') (list_locks (devs s) i) (list_locks ds i)) ->
  new_request a' = new_request a -> (open_request a' = None \/ open_request a' = open_request a) ->
  (forall c r, knows a' = Some (c, r) -> vmkCmdPtr <$> cmds s !! c = Some r) ->
  inv (Sys (cmds s) hs ds (cpus s) (<[k := a']> (calls s)) (driver s) (timers s) (linuxSCSIIO_work s) (SCSILinuxSerialNumber s) (reqs s) (log s))
    pl ab rq.
Proof.
  intros H Ha ET El Ed Hok EH ED Lh Ll EN EO EK. pose proof (same_length dkey _ _ ED) as Ln.
  assert (Eh : forall b, holds_host ds b = holds_host (devs s) b).
  { intros b. destruct b as [|r d pc| | | | | | | | | | |]; try done. cbn.
    assert (host <$> ds !! d = host <$> devs s !! d) as -> by apply (key_fmap dkey (fun p => p.1.1)), ED. done. }
  apply (inv_update s); cbn [cmds hosts devs cpus calls driver timers linuxSCSIIO_work reqs log]; try done.
  - intros j. destruct (decide (j = k)) as [->|Hne].
    + rewrite list_lookup_insert_eq by now apply lookup_lt_Some in Ha. now rewrite Ha.
    + now rewrite list_lookup_insert_ne by congruence.
  - apply (aborts_ok_same (calls s) (cmds s) _ _ k a); try done. apply (i_aborts _ _ _ _ H).
  - intros j b Hb. apply list_lookup_insert_Some in Hb as [(<- & <- & _)|(Hne & Hb)]; [done|].
    apply (call_ok_mono (devs s) ds _ (cmds s)); [now apply (i_calls _ _ _ _ H j)|done|done|].
    intros d rest sel _ v' Hv'. destruct (dkey_lookup _ _ _ _ (ED d) Hv') as (v & Hv & _ & _ & E). now exists v.
  - apply (lock_ok_step (holds_host (devs s)) _ (calls s) (host_locks (hosts s)) _ k a); [apply (i_hlock _ _ _ _ H)|done|exact Eh|].
    exact Lh.
  - apply (lock_ok_step holds_list _ (calls s) (list_locks (devs s)) _ k a); [apply (i_llock _ _ _ _ H)|done|done|done].
  - intros j. rewrite (bind_insert _ _ k a) by done. case_decide; [|done]. subst. now rewrite Ha.
  - intros j r. rewrite (bind_insert _ _ k a) by done. case_decide; [|done]. subst. rewrite Ha. cbn. destruct EO; congruence.
  - intros j c r. rewrite (bind_insert _ _ k a) by done. case_decide; [apply EK|apply (i_knows _ _ _ _ H)].
Qed.

Lemma lock_same k i o l : lock_change k i o o l l.
Proof. now left. Qed.

(** It takes and releases none. *)
Lemma inv_goto s pl ab rq k a a' :
  inv s pl ab rq -> calls s !! k = Some a ->
  call_tokens a' = call_tokens a -> alist a' = alist a -> (alist a = [] \/ adev a' = adev a) ->
  call_ok (devs s) (length (cpus s)) (cmds s) a' ->
  holds_host (devs s) a' = holds_host (devs s) a -> holds_list a' = holds_list a ->
  new_request a' = new_request a -> (open_request a' = None \/ open_request a' = open_request a) ->
  (forall c r, knows a' = Some (c, r) -> vmkCmdPtr <$> cmds s !! c = Some r) ->
  inv (set_call k a' s) pl ab rq.
Proof.
  intros H Ha ET El Ed Hok Eh Ell EN EO EK. apply (inv_caller s pl ab rq k a a' (hosts s) (devs s)); try done.
  - intros i. rewrite Eh. apply lock_same.
  - intros i. rewrite Ell. apply lock_same.
Qed.

(** *** Who knows a command *)

Section knowledge.
Context {s : sys} {pl : places} {ab : gmap nat nat} {rq : gmap nat phase} (H : inv s pl ab rq).

Lemma knows_place k c r : (calls s !! k) ≫= knows = Some (c, r) -> pl !! c = Some (Caller k, Fresh).
Proof using H.
  destruct (calls s !! k) as [a|] eqn:Ha; [|done]. cbn. intros E. apply (inv_call_token H k a); [done|].
  destruct a as [|r' d pc| | | | | | | | | | |]; try done. destruct pc; try done; injection E as -> _; cbn; set_solver.
Qed.

Lemma bh_knows_place i c r : (cpus s !! i) ≫= (fun p => bh_knows (bh p)) = Some (c, r) -> pl !! c = Some (Cpu i, Cleared).
Proof using H.
  destruct (cpus s !! i) as [p|] eqn:Hp; [|done]. cbn. intros E. apply (inv_token H); [done|]. cbn. rewrite Hp.
  unfold cpu_tokens. apply elem_of_app. left. destruct (bh p); try done. injection E as -> _. cbn. set_solver.
Qed.

(** The caller [k] alone knows [c]. *)
Definition known_by (k : option nat) (c : nat) : Prop := forall j a, calls s !! j = Some a -> c ∈ known a -> Some j = k.

Lemma known_by_place k c ro : pl !! c = Some (Caller k, ro) -> (ab !! c = None \/ ab !! c = Some k) -> known_by (Some k) c.
Proof using H. intros Hc Ha j a Hj Hk. destruct (inv_known H j a c Hj Hk) as [[ro' E]|E]; [congruence|]. destruct Ha; congruence. Qed.

Lemma known_by_none c : (forall k ro, pl !! c <> Some (Caller k, ro)) -> ab !! c = None -> known_by None c.
Proof using H. intros Hc Ha j a Hj Hk. destruct (inv_known H j a c Hj Hk) as [[ro' E]|E]; [|congruence]. now apply Hc in E. Qed.

Lemma known_by_weaken k c : known_by None c -> known_by (Some k) c.
Proof using Type. intros Hn j a Hj Hk. now specialize (Hn j a Hj Hk). Qed.

(** The lists of the devices whose lock nobody else holds change. *)
Definition lists_frame (k : option nat) (ds' : list scsi_device) : Prop :=
  length ds' = length (devs s) /\
  forall d v', ds' !! d = Some v' -> exists v, devs s !! d = Some v /\
    (cmd_list v' = cmd_list v \/ forall j, list_lock v = Some j -> Some j = k).

Lemma call_ok_others k c j a m' ds' :
  known_by k c -> agree c (cmds s) m' -> lists_frame k ds' -> calls s !! j = Some a -> Some j <> k ->
  call_ok ds' (length (cpus s)) m' a.
Proof using H.
  intros Hk Hm [Ln Hl] Ha Hj. apply (call_ok_mono (devs s) ds' _ (cmds s) m'); [now apply (i_calls _ _ _ _ H j)|done| |].
  - intros c' Hc'. assert (c' <> c) as Hne by (intros ->; now apply Hj, (Hk j a)).
    unfold grows, device_of, attempted. now rewrite (Hm c' Hne).
  - intros d rest sel -> v' Hv'. destruct (Hl d v' Hv') as (v & Hv & [E|E]); [now exists v|].
    assert (list_lock v = Some j) as El; [|now apply E in El].
    assert (list_locks (devs s) d = Some (Some j)) as E'; [|unfold list_locks in E'; rewrite Hv in E'; now injection E'].
    apply (i_llock _ _ _ _ H). split; [unfold list_locks; rewrite Hv; eauto|]. exists (Select d rest sel). now split.
Qed.

Lemma calls_at k c a' m' ds' :
  known_by (Some k) c -> agree c (cmds s) m' -> lists_frame (Some k) ds' ->
  call_ok ds' (length (cpus s)) m' a' ->
  forall j b, <[k := a']> (calls s) !! j = Some b -> call_ok ds' (length (cpus s)) m' b.
Proof using H.
  intros Hk Hm Hl Ha j b Hb. apply list_lookup_insert_Some in Hb as [(_ & <- & _)|(Hne & Hb)]; [done|].
  apply (call_ok_others (Some k) c j); try done; congruence.
Qed.

Lemma calls_bh c m' ds' : known_by None c -> agree c (cmds s) m' -> lists_frame None ds' ->
  forall j b, calls s !! j = Some b -> call_ok ds' (length (cpus s)) m' b.
Proof using H. intros Hk Hm Hl j b Hb. now apply (call_ok_others None c j). Qed.

Lemma knows_at k c a' m' :
  agree c (cmds s) m' -> (forall j, j <> k -> pl !! c <> Some (Caller j, Fresh)) ->
  (forall c' r, knows a' = Some (c', r) -> vmkCmdPtr <$> m' !! c' = Some r) -> (k < length (calls s))%nat ->
  forall j c' r, (<[k := a']> (calls s) !! j) ≫= knows = Some (c', r) -> vmkCmdPtr <$> m' !! c' = Some r.
Proof using H.
  intros Hm Hc Ha Hk j c' r. destruct (decide (j = k)) as [->|Hne].
  - rewrite list_lookup_insert_eq by done. apply Ha.
  - rewrite list_lookup_insert_ne by done. intros E. rewrite Hm; [now apply (i_knows _ _ _ _ H j)|].
    intros ->. now apply (Hc j Hne), (knows_place j c r).
Qed.

Lemma bh_knows_at c m' : agree c (cmds s) m' -> (forall i, pl !! c <> Some (Cpu i, Cleared)) ->
  forall i c' r, (cpus s !! i) ≫= (fun p => bh_knows (bh p)) = Some (c', r) -> vmkCmdPtr <$> m' !! c' = Some r.
Proof using H.
  intros Hm Hc i c' r E. rewrite Hm; [now apply (i_bh_knows _ _ _ _ H i)|]. intros ->. now apply (Hc i), (bh_knows_place i c r).
Qed.
End knowledge.
Arguments known_by s k c : clear implicits.
Arguments lists_frame s k ds' : clear implicits.

(** *** Lists *)

(** The list of one device changes, for [c] alone, by one that may. *)
Record relist (k : option nat) (c : nat) (before after : nat -> Prop) (ds ds' : list scsi_device) : Prop := Relist {
  rl_key i : (fun v => (host v, device_busy v, list_lock v)) <$> ds' !! i = (fun v => (host v, device_busy v, list_lock v)) <$> ds !! i;
  rl_list i v' : ds' !! i = Some v' -> exists v, ds !! i = Some v /\
    (NoDup (cmd_list v) /\ (c ∈ cmd_list v <-> before i) -> NoDup (cmd_list v') /\ (c ∈ cmd_list v' <-> after i)) /\
    (forall c', c' <> c -> c' ∈ cmd_list v' <-> c' ∈ cmd_list v) /\
    (cmd_list v' = cmd_list v \/ forall j, list_lock v = Some j -> Some j = k);
}.

Lemma relist_refl k c (before after : nat -> Prop) ds : (forall i, before i <-> after i) -> relist k c before after ds ds.
Proof. intros E. split; [done|]. intros i v Hv. exists v. split; [done|]. rewrite E. tauto. Qed.

Lemma relist_alter k c (before after : nat -> Prop) ds d v l :
  ds !! d = Some v -> (forall j, list_lock v = Some j -> Some j = k) ->
  (forall i, i <> d -> before i <-> after i) ->
  (NoDup (cmd_list v) /\ (c ∈ cmd_list v <-> before d) -> NoDup l /\ (c ∈ l <-> after d)) ->
  (forall c', c' <> c -> c' ∈ l <-> c' ∈ cmd_list v) ->
  relist k c before after ds (alter (set_cmd_list l) d ds).
Proof.
  intros Hd Hl Ho Hc Hne. split.
  - intros i. destruct (decide (i = d)) as [->|Hi]; [|now rewrite list_lookup_alter_ne]. now rewrite list_lookup_alter_eq, Hd.
  - intros i v' Hv'. destruct (decide (i = d)) as [->|Hi].
    + rewrite list_lookup_alter_eq, Hd in Hv'. injection Hv' as <-. exists v. tauto.
    + rewrite list_lookup_alter_ne in Hv' by done. exists v'. rewrite (Ho i Hi). tauto.
Qed.

Lemma relist_add k c (before after : nat -> Prop) ds d v :
  ds !! d = Some v -> (forall j, list_lock v = Some j -> Some j = k) ->
  (forall i, ~ before i) -> (forall i, after i <-> i = d) ->
  relist k c before after ds (alter (set_cmd_list (cmd_list v ++ [c])) d ds).
Proof.
  intros Hd Hl Hb Ha. apply (relist_alter k c _ _ _ _ v); [done|done| | |].
  - intros i Hi. rewrite Ha. now pose proof (Hb i).
  - intros [HN Hc]. assert (c ∉ cmd_list v) by (rewrite Hc; apply Hb). split.
    + apply NoDup_app. split; [done|]. split; [set_solver|apply NoDup_singleton].
    + rewrite Ha. set_solver.
  - set_solver.
Qed.

Lemma relist_rem k c (before after : nat -> Prop) ds d v :
  ds !! d = Some v -> (forall j, list_lock v = Some j -> Some j = k) ->
  (forall i, before i <-> i = d) -> (forall i, ~ after i) ->
  relist k c before after ds (alter (set_cmd_list (filter (fun c' => c' <> c) (cmd_list v))) d ds).
Proof.
  intros Hd Hl Hb Ha. apply (relist_alter k c _ _ _ _ v); [done|done| | |].
  - intros i Hi. rewrite Hb. now pose proof (Ha i).
  - intros [HN Hc]. split; [now apply NoDup_filter|]. rewrite list_elem_of_filter. now pose proof (Ha d).
  - intros c' Hne. rewrite list_elem_of_filter. tauto.
Qed.

Section relisted.
Context {s : sys} {k : option nat} {c : nat} {before after : nat -> Prop} {ds' : list scsi_device}.
Context (R : relist k c before after (devs s) ds').

Lemma relist_length : length ds' = length (devs s).
Proof using R. exact (same_length _ (devs s) ds' (rl_key _ _ _ _ _ _ R)). Qed.
Lemma relist_host i : host <$> ds' !! i = host <$> devs s !! i.
Proof using R. exact (key_fmap _ (fun p => p.1.1) _ _ (rl_key _ _ _ _ _ _ R i)). Qed.
Lemma relist_busy i : device_busy <$> ds' !! i = device_busy <$> devs s !! i.
Proof using R. exact (key_fmap _ (fun p => p.1.2) _ _ (rl_key _ _ _ _ _ _ R i)). Qed.
Lemma relist_lock i : list_locks ds' i = list_locks (devs s) i.
Proof using R. exact (key_fmap _ (fun p => p.2) _ _ (rl_key _ _ _ _ _ _ R i)). Qed.
Lemma relist_frame : lists_frame s k ds'.
Proof using R.
  split; [apply relist_length|]. intros d v' Hv'. destruct (rl_list _ _ _ _ _ _ R d v' Hv') as (v & Hv & _ & _ & E). now exists v.
Qed.
Lemma relist_holds a : holds_host ds' a = holds_host (devs s) a.
Proof using R. destruct a as [|r d pc| | | | | | | | | | |]; try done. cbn. now rewrite relist_host. Qed.

Lemma relist_lists m' pl pl' ab ab' :
  agree c (cmds s) m' -> agree c pl pl' -> agree c ab ab' -> lists_ok (devs s) (cmds s) pl ab ->
  (forall d, before d <-> on_list d (cmds s !! c) (pl !! c) (ab !! c)) ->
  (forall d, after d <-> on_list d (m' !! c) (pl' !! c) (ab' !! c)) ->
  lists_ok ds' m' pl' ab'.
Proof using R.
  intros Am Ap Aa H Hb Ha d v' Hv'. destruct (rl_list _ _ _ _ _ _ R d v' Hv') as (v & Hv & Hc & Hne & _).
  destruct (H d v Hv) as [N L]. destruct Hc as [N' Hc]; [now rewrite Hb, L|]. split; [done|].
  intros c'. destruct (decide (c' = c)) as [->|Hn]; [now rewrite Hc, Ha|]. rewrite Hne, Am, Ap, Aa by done. apply L.
Qed.

Lemma relist_hosts (hs : list Scsi_Host) : (forall d v, devs s !! d = Some v -> (host v < length hs)%nat) ->
  forall d v, ds' !! d = Some v -> (host v < length hs)%nat.
Proof using R.
  intros Hs d v Hv. pose proof (relist_host d) as E. rewrite Hv in E. destruct (devs s !! d) as [v0|] eqn:E0; [|done].
  injection E as ->. now apply (Hs d).
Qed.
End relisted.

(** *** One command *)

(** The caller [k] or nobody knows [c], which changes. *)
Lemma inv_content s pl ab rq c x x' g ro :
  inv s pl ab rq -> cmds s !! c = Some x -> pl !! c = Some (g, ro) ->
  vmkflags x' = vmkflags x -> device x' = device x ->
  (vmkCmdPtr x' = vmkCmdPtr x \/ (counted ro = false /\
     (forall k r, (calls s !! k) ≫= knows <> Some (c, r)) /\ forall i r, (cpus s !! i) ≫= (fun p => bh_knows (bh p)) <> Some (c, r))) ->
  inv (set_cmd c x' s) pl ab rq.
Proof.
  intros H Hx Hc Ef Ed Hp. pose proof H as [Ho Hcm Hl Ha Hk Hh Hll Hb Hr Hn Hbn Ht Hs].
  assert (forall c', device_of (<[c := x']> (cmds s)) c' = device_of (cmds s) c') as Edev.
  { intros c'. unfold device_of. destruct (decide (c' = c)) as [->|Hne]; [rewrite lookup_insert_eq, Hx; cbn; now rewrite Ed|].
    now rewrite lookup_insert_ne. }
  assert (forall f, test_flag f x' = test_flag f x) as Etest by (intros f; unfold test_flag; now rewrite Ef).
  pose proof (Hcm c) as Hcc. rewrite Hx, Hc in Hcc.
  split; cbn [set_cmd set_cmds cmds hosts devs cpus calls driver timers linuxSCSIIO_work reqs log]; try done.
  - apply (own_ext s); [done|]. now intros [].
  - apply (cmds_ok_at (agree_insert c _ x') (agree_refl c pl) (agree_refl c ab)); [done|]. rewrite lookup_insert_eq, Hc.
    cbn in *. unfold flags_ok in *. now rewrite !Etest, Ed.
  - apply (lists_ok_keep (agree_insert c _ x') (agree_refl c pl) (agree_refl c ab) (devs s)); [done|eauto|].
    intros d. rewrite lookup_insert_eq, Hx, Hc. unfold on_list. split; intros (y & g' & ro' & [= <-] & E & ?);
      eexists _, g', ro'; (split; [done|]); (split; [congruence|done]).
  - now apply (aborts_ok_mono _ (cmds s)).
  - intros k a Hka. apply (call_ok_mono (devs s) _ _ (cmds s)); [now apply (Hk k)|done| |eauto].
    intros c' _. split; [apply Edev|]. unfold attempted. destruct (decide (c' = c)) as [->|Hne]; [|now rewrite lookup_insert_ne].
    rewrite lookup_insert_eq, Hx. intros (y & [= <-] & E). exists x'. now rewrite Etest.
  - now rewrite (accepted_eq (agree_insert c _ x') (agree_refl c pl)) by (rewrite lookup_insert_eq, Hx; cbn; now rewrite Hc, Ed).
  - rewrite (accepted_eq (agree_insert c _ x') (agree_refl c pl)); [done|]. rewrite lookup_insert_eq, Hx, Hc. cbn.
    destruct Hp as [->|[-> _]]; done.
  - intros k c' r E. pose proof (Hn k c' r E) as E'. destruct (decide (c' = c)) as [->|Hne]; [|now rewrite lookup_insert_ne].
    rewrite lookup_insert_eq. rewrite Hx in E'. destruct Hp as [Hp|(_ & Hp & _)]; [|now apply Hp in E]. cbn in *. congruence.
  - intros i c' r E. pose proof (Hbn i c' r E) as E'. destruct (decide (c' = c)) as [->|Hne]; [|now rewrite lookup_insert_ne].
    rewrite lookup_insert_eq. rewrite Hx in E'. destruct Hp as [Hp|(_ & _ & Hp)]; [|now apply Hp in E]. cbn in *. congruence.
Qed.

(** A caller takes its command, which nobody aborts, from one role to another. *)
Lemma inv_role s pl ab rq k a a' c r1 r2 x x' ds' :
  inv s pl ab rq -> calls s !! k = Some a -> call_tokens a = [(c, r1)] -> call_tokens a' = [(c, r2)] ->
  cmds s !! c = Some x -> ab !! c = None -> flags_ok r2 x' -> test_flag VMK_FLAGS_DELAY_CMDDONE x' = false ->
  device x' = device x -> vmkCmdPtr x' = vmkCmdPtr x -> counted r2 = counted r1 ->
  alist a' = alist a -> (alist a = [] \/ adev a' = adev a) ->
  call_ok ds' (length (cpus s)) (<[c := x']> (cmds s)) a' ->
  holds_host (devs s) a' = holds_host (devs s) a -> holds_list a' = holds_list a ->
  new_request a' = new_request a -> (open_request a' = None \/ open_request a' = open_request a) -> knows a' = None ->
  relist (Some k) c (fun i => device x = i /\ listed r1 = true) (fun i => device x = i /\ listed r2 = true) (devs s) ds' ->
  inv (Sys (<[c := x']> (cmds s)) (hosts s) ds' (cpus s) (<[k := a']> (calls s)) (driver s) (timers s) (linuxSCSIIO_work s)
         (SCSILinuxSerialNumber s) (reqs s) (log s)) (<[c := (Caller k, r2)]> pl) ab rq.
Proof.
  intros H Ha Et Et' Hx Hab Hfl Hdl Ed Ep Ec El Eld Hok Eh Ell EN EO EK R. pose proof H as [Ho Hcm Hl Hb Hk Hh Hll Hbu Hr Hn Hbn Ht [Hs1 Hs2]].
  assert (pl !! c = Some (Caller k, r1)) as Hc by (apply (inv_call_token H k a); [done|rewrite Et; set_solver]).
  assert (known_by s (Some k) c) as Hkn by (eapply (known_by_place H); eauto).
  assert (k < length (calls s))%nat as Lk by now apply lookup_lt_Some in Ha.
  pose proof (Hcm c) as Hcc. rewrite Hx, Hc in Hcc. cbn in Hcc.
  split; cbn [cmds hosts devs cpus calls driver timers linuxSCSIIO_work reqs log]; try done.
  - apply (own_role s _ pl c Ho (Caller k) r1 r2 []); [done|..]; cbn.
    + now rewrite Ha; cbn; rewrite Et.
    + rewrite list_lookup_insert_eq by done. cbn. now rewrite Et'.
    + intros [j| | | |] Hg; cbn; try done. now rewrite list_lookup_insert_ne by congruence.
  - rewrite (relist_length R). apply (cmds_ok_at (agree_insert c _ x') (agree_insert c _ _) (agree_refl c ab)); [done|].
    rewrite !lookup_insert_eq, Hab. cbn. rewrite Ed, Hdl. tauto.
  - apply (relist_lists R (<[c := x']> (cmds s)) pl _ ab ab); auto; intros d; rewrite ?lookup_insert_eq, ?Hx, ?Hc, Hab; unfold on_list; naive_solver.
  - apply (aborts_ok_same (calls s) (cmds s) _ _ k a); try done. intros c' [j Hj]. unfold device_of.
    rewrite lookup_insert_ne; congruence.
  - now apply (calls_at H k c); [..|exact (relist_frame R)|].
  - apply (lock_ok_step (holds_host (devs s)) _ (calls s) (host_locks (hosts s)) _ k a); try done; [apply (relist_holds R)|].
    intros i. left. rewrite Eh. done.
  - apply (lock_ok_step holds_list _ (calls s) (list_locks (devs s)) _ k a); try done.
    intros i. left. rewrite Ell. split; [apply (relist_lock R)|done].
  - rewrite (accepted_eq (agree_insert c _ x') (agree_insert c _ _)) by (rewrite !lookup_insert_eq, Hx, Hc; cbn; now rewrite Ec, Ed).
    apply (busy_ok_same (hosts s) (devs s)); [done|apply (relist_host R)|apply (relist_busy R)|done].
  - rewrite (accepted_eq (agree_insert c _ x') (agree_insert c _ _)) by (rewrite !lookup_insert_eq, Hx, Hc; cbn; now rewrite Ec, Ep).
    apply (requests_ok_ext (calls s) (cpus s) _ _ _ _ _ _ _ Hr); try done.
    + intros j. rewrite (bind_insert _ _ k a) by done. case_decide; [|done]. subst. now rewrite Ha.
    + intros j r. rewrite (bind_insert _ _ k a) by done. case_decide; [|done]. subst. rewrite Ha. cbn. destruct EO; congruence.
  - apply (knows_at H k c); [done|congruence|intros c' r; now rewrite EK|done].
  - apply (bh_knows_at H c); [done|congruence].
  - split; [done|]. now apply (relist_hosts R).
Qed.

(** *** Making and freeing a command *)

Lemma free_place s pl ab rq c h y x0 l :
  inv s pl ab rq -> hosts s !! h = Some y -> free_list y = (c, x0) :: l ->
  pl !! c = Some (Reserve h, Free) /\ cmds s !! c = None /\ ab !! c = None.
Proof.
  intros H Hy Hl. assert (pl !! c = Some (Reserve h, Free)) as Hc.
  { apply (inv_token H); [done|]. cbn. rewrite Hy. cbn. unfold free_tokens. rewrite Hl. cbn. set_solver. }
  split; [done|]. pose proof (i_cmds _ _ _ _ H c) as Hcc. rewrite Hc in Hcc. unfold cmd_ok in Hcc.
  destruct (cmds s !! c) as [x|]; [|tauto]. destruct Hcc as ((_ & _ & _ & []) & _).
Qed.

Lemma absent_place s pl ab rq c :
  inv s pl ab rq -> cmds s !! c = None -> (forall h y, hosts s !! h = Some y -> c ∉ (free_list y).*1) -> pl !! c = None /\ ab !! c = None.
Proof.
  intros H Hc Hf. pose proof (i_cmds _ _ _ _ H c) as Hcc. rewrite Hc in Hcc. unfold cmd_ok in Hcc.
  destruct (pl !! c) as [[g ro]|] eqn:Hp; [|tauto]. destruct Hcc as [-> Ha]. destruct (inv_free H c g Hp) as [h ->].
  apply (own_spec _ _ (i_own _ _ _ _ H)) in Hp; [|done]. cbn in Hp. destruct (hosts s !! h) as [y|] eqn:Hy; [|set_solver].
  cbn in Hp. apply list_elem_of_fmap in Hp as ([c' x0] & [= ->] & Hp). exfalso. apply (Hf h y Hy). now apply (list_elem_of_fmap_2 fst) in Hp.
Qed.

(** Where the memory comes from: the slab or the reserve of a host. *)
Definition provided (s : sys) (pl : places) (ab : gmap nat nat) (c : nat) (hs : list Scsi_Host) : Prop :=
  cmds s !! c = None /\ ab !! c = None /\
  (hs = hosts s /\ pl !! c = None \/
   exists h y x0 l, hosts s !! h = Some y /\ free_list y = (c, x0) :: l /\ pl !! c = Some (Reserve h, Free)
     /\ hs = alter (set_free_list l) h (hosts s)).

Lemma reserve_keys (hs : list Scsi_Host) l h :
  (forall i, (fun x => (host_lock x, host_busy x, fc_ioTimeout x && eh_abort_handler x)) <$> alter (set_free_list l) h hs !! i
    = (fun x => (host_lock x, host_busy x, fc_ioTimeout x && eh_abort_handler x)) <$> hs !! i).
Proof.
  intros i. destruct (decide (i = h)) as [->|Hne]; [|now rewrite list_lookup_alter_ne].
  rewrite list_lookup_alter_eq. now destruct (hs !! h).
Qed.

Lemma provided_keys s pl ab c hs i : provided s pl ab c hs ->
  (fun x => (host_lock x, host_busy x, fc_ioTimeout x && eh_abort_handler x)) <$> hs !! i
    = (fun x => (host_lock x, host_busy x, fc_ioTimeout x && eh_abort_handler x)) <$> hosts s !! i.
Proof. intros (_ & _ & [[-> _]|(h & y & x0 & l & _ & _ & _ & ->)]); [done|apply reserve_keys]. Qed.

Lemma inv_get s pl ab rq k r d c x hs :
  inv s pl ab rq -> calls s !! k = Some (Queue r d QGet) -> provided s pl ab c hs -> vmkflags x = 0 -> device x = d ->
  inv (Sys (<[c := x]> (cmds s)) hs (devs s) (cpus s) (<[k := Queue r d (QList c)]> (calls s)) (driver s) (timers s)
         (linuxSCSIIO_work s) (SCSILinuxSerialNumber s) (reqs s) (log s)) (<[c := (Caller k, New)]> pl) ab rq.
Proof.
  intros H Ha Hp Hf Hd. pose proof H as [Ho Hcm Hl Hb Hk Hh Hll Hbu Hr Hn Hbn Ht [Hs1 Hs2]].
  pose proof (provided_keys s pl ab c hs) as EH. pose proof Hp as (Hc & Hab & Hpl). specialize (fun i => EH i Hp).
  assert (k < length (calls s))%nat as Lk by now apply lookup_lt_Some in Ha.
  assert (forall j, pl !! c <> Some (Caller j, Fresh)) as N1 by (intros j E; destruct Hpl as [[_ ?]|(? & ? & ? & ? & _ & _ & ? & _)]; congruence).
  assert (forall i ro, pl !! c = Some (Cpu i, ro) -> False) as N2 by (intros j ro E; destruct Hpl as [[_ ?]|(? & ? & ? & ? & _ & _ & ? & _)]; congruence).
  assert (known_by s None c) as Hkn.
  { apply (known_by_none H); [|done]. intros j ro E. destruct Hpl as [[_ ?]|(? & ? & ? & ? & _ & _ & ? & _)]; congruence. }
  pose proof (Hk k _ Ha) as (Hdd & _). assert (length hs = length (hosts s)) as Lh by exact (same_length _ _ _ EH).
  assert (forall f, test_flag f x = false) as Et by (intros f; unfold test_flag; now rewrite Hf).
  assert (forall f, tally f (<[c := x]> (cmds s) !! c) (<[c := (Caller k, New)]> pl !! c) = tally f (cmds s !! c) (pl !! c)) as Etl.
  { intros f. rewrite !lookup_insert_eq, Hc. cbn. done. }
  split; cbn [cmds hosts devs cpus calls driver timers linuxSCSIIO_work reqs log]; try done.
  - destruct Hpl as [[-> Hpc]|(h & y & x0 & l & Hy & Hfl & Hpc & ->)].
    + apply (own_new s _ pl c Ho (Caller k) New); [done|now left|..]; cbn.
      * rewrite list_lookup_insert_eq, Ha by done. done.
      * intros [j| | | |] Hg; cbn; try done. now rewrite list_lookup_insert_ne by congruence.
    + apply (own_give s _ pl c Ho (Reserve h) (Caller k) Free New); [done..|cbn|cbn|].
      * rewrite list_lookup_alter_eq, Hy. cbn. unfold free_tokens. now rewrite Hfl.
      * rewrite list_lookup_insert_eq, Ha by done. done.
      * intros [j| | | |j] Hg1 Hg2; cbn; try done; [now rewrite list_lookup_insert_ne by congruence|].
        now rewrite list_lookup_alter_ne by congruence.
  - apply (cmds_ok_at (agree_insert c _ x) (agree_insert c _ _) (agree_refl c ab)); [done|].
    rewrite !lookup_insert_eq, Hab. cbn. unfold flags_ok. rewrite !Et, Hd. tauto.
  - apply (lists_ok_keep (agree_insert c _ x) (agree_insert c _ _) (agree_refl c ab) (devs s)); [done|eauto|].
    intros i. rewrite !lookup_insert_eq, Hc. unfold on_list. split; [intros (? & ? & ? & _ & _ & [= <- <-] & ? & _); done|intros (? & ? & ? & ? & _); done].
  - apply (aborts_ok_same (calls s) (cmds s) _ _ k (Queue r d QGet)); try done; [now left|]. intros c' [j Hj]. unfold device_of.
    rewrite lookup_insert_ne; congruence.
  - apply (calls_at H k c); [now apply known_by_weaken|done|split; eauto|]. cbn. split; [done|]. split; [|done].
    intros c' ro E _. unfold device_of. assert (c' = c) as -> by set_solver. rewrite lookup_insert_eq. cbn. now rewrite Hd.
  - apply (lock_ok_step (holds_host (devs s)) _ (calls s) (host_locks (hosts s)) _ k (Queue r d QGet)); try done.
    intros i. left. split; [|done]. exact (key_fmap _ (fun p => p.1.1) _ _ (EH i)).
  - apply (lock_ok_step holds_list _ (calls s) (list_locks (devs s)) _ k (Queue r d QGet)); try done. intros i. now left.
  - rewrite (accepted_eq (agree_insert c _ x) (agree_insert c _ _)) by apply Etl.
    apply (busy_ok_same (hosts s) (devs s)); try done. intros i. exact (key_fmap _ (fun p => p.1.2) _ _ (EH i)).
  - rewrite (accepted_eq (agree_insert c _ x) (agree_insert c _ _)) by apply Etl.
    apply (requests_ok_ext (calls s) (cpus s) _ _ _ _ _ _ _ Hr); try done.
    + intros j. rewrite (bind_insert _ _ k _) by done. case_decide; [|done]. subst. now rewrite Ha.
    + intros j r'. rewrite (bind_insert _ _ k _) by done. case_decide; [|done]. subst. now rewrite Ha.
  - apply (knows_at H k c); done.
  - apply (bh_knows_at H c); [done|]. intros i E. now apply N2 in E.
  - rewrite Lh. split; [|done]. rewrite no_timeouts_lookup in *. intros h y Hy.
    pose proof (key_fmap _ (fun p => p.2) _ _ (EH h)) as E. rewrite Hy in E. destruct (hosts s !! h) as [y'|] eqn:Ey; [|done].
    injection E as ->. now apply (Hs1 h).
Qed.

(** A command is freed: the last of its device, or into the reserve of its host. *)
Definition received (s : sys) (c : nat) (hs : list Scsi_Host) (o : option (agent * role)) : Prop :=
  hs = hosts s /\ o = None \/
  exists h y x, hosts s !! h = Some y /\ free_list y = [] /\ hs = alter (set_free_list [(c, x)]) h (hosts s) /\ o = Some (Reserve h, Free).

Lemma received_keys s c hs o i : received s c hs o ->
  (fun x => (host_lock x, host_busy x, fc_ioTimeout x && eh_abort_handler x)) <$> hs !! i
    = (fun x => (host_lock x, host_busy x, fc_ioTimeout x && eh_abort_handler x)) <$> hosts s !! i.
Proof. intros [[-> _]|(h & y & x & _ & _ & -> & _)]; [done|apply reserve_keys]. Qed.

Lemma received_own s s' pl c hs o g :
  own s pl -> received s c hs o -> g <> Parking -> (forall h, g <> Reserve h) ->
  tokens s g ≡ₚ (c, Gone) :: tokens s' g -> hosts s' = hs ->
  (forall g', g' <> g -> (forall h, g' <> Reserve h) -> tokens s' g' = tokens s g') ->
  own s' (partial_alter (fun _ => o) c pl).
Proof.
  intros Ho Hr Hg Hgr E <- Hs'. destruct Hr as [[Eh ->]|(h & y & x & Hy & Hf & Eh & ->)].
  - apply (own_drop s s' pl c Ho g Gone); [done|now left|done|]. intros [j|i| | |j] Hne; try (now apply Hs'). cbn. now rewrite Eh.
  - apply (own_give s s' pl c Ho g (Reserve h) Gone Free); [done|done|apply Hgr|done|..].
    + cbn. rewrite Eh, list_lookup_alter_eq, Hy. cbn. unfold free_tokens. now rewrite Hf.
    + intros [j|i| | |j] H1 H2; try (now apply Hs'). cbn. rewrite Eh. now rewrite list_lookup_alter_ne by congruence.
Qed.

(** What freeing a command needs of the invariant, whoever frees it. *)
Section freeing.
Context {s : sys} {pl : places} {ab : gmap nat nat} {rq : gmap nat phase} (H : inv s pl ab rq).
Context {c : nat} {g : agent} (Hc : pl !! c = Some (g, Gone)) {hs : list Scsi_Host} {o : option (agent * role)} (R : received s c hs o).

Lemma freed_unaborted : ab !! c = None.
Proof using H Hc. now apply (inv_fresh_unaborted H c g Gone). Qed.

Lemma freed_tally f : tally f (delete c (cmds s) !! c) (partial_alter (fun _ => o) c pl !! c) = tally f (cmds s !! c) (pl !! c).
Proof using H Hc. rewrite lookup_delete_eq, Hc. now destruct (cmds s !! c). Qed.

Lemma agree_alter : agree c pl (partial_alter (fun _ => o) c pl).
Proof using Type. intros c' Hne. now apply lookup_partial_alter_ne. Qed.

Lemma freed_cmds : cmds_ok (length (devs s)) (delete c (cmds s)) (partial_alter (fun _ => o) c pl) ab.
Proof using H Hc R.
  apply (cmds_ok_at (agree_delete c _) agree_alter (agree_refl c ab)); [apply (i_cmds _ _ _ _ H)|].
  rewrite lookup_delete_eq, lookup_partial_alter_eq, freed_unaborted. destruct R as [[_ ->]|(h & y & x & _ & _ & _ & ->)]; done.
Qed.

Lemma freed_lists : lists_ok (devs s) (delete c (cmds s)) (partial_alter (fun _ => o) c pl) ab.
Proof using H Hc.
  apply (lists_ok_keep (agree_delete c _) agree_alter (agree_refl c ab) (devs s)); [apply (i_lists _ _ _ _ H)|eauto|].
  intros d. rewrite lookup_delete_eq, Hc. unfold on_list.
  split; [intros (? & ? & ? & ? & _); done|intros (? & ? & ? & _ & _ & [= <- <-] & ? & _); done].
Qed.

Lemma freed_busy : busy_ok hs (devs s) (accepted device (delete c (cmds s)) (partial_alter (fun _ => o) c pl)).
Proof using H Hc R.
  rewrite (accepted_eq (agree_delete c _) agree_alter) by apply freed_tally.
  apply (busy_ok_same (hosts s) (devs s)); [apply (i_busy _ _ _ _ H)|done|done|].
  intros i. exact (key_fmap _ (fun p => p.1.2) _ _ (received_keys s c hs o i R)).
Qed.

Lemma freed_hosts : no_timeouts hs /\ forall d v, devs s !! d = Some v -> (host v < length hs)%nat.
Proof using H R.
  destruct (i_hosts _ _ _ _ H) as [Hs1 Hs2]. rewrite (same_length _ (hosts s) hs (fun i => received_keys s c hs o i R)).
  split; [|done]. rewrite no_timeouts_lookup in *. intros h y Hy.
  pose proof (key_fmap _ (fun p => p.2) _ _ (received_keys s c hs o h R)) as E. rewrite Hy in E.
  destruct (hosts s !! h) as [y'|] eqn:Ey; [|done]. injection E as ->. now apply (Hs1 h).
Qed.

Lemma freed_requests : accepted vmkCmdPtr (delete c (cmds s)) (partial_alter (fun _ => o) c pl) = accepted vmkCmdPtr (cmds s) pl.
Proof using H Hc. apply (accepted_eq (agree_delete c _) agree_alter), freed_tally. Qed.

Lemma freed_device c' : is_Some (ab !! c') -> device_of (delete c (cmds s)) c' = device_of (cmds s) c'.
Proof using H Hc. intros [j Hj]. unfold device_of. rewrite lookup_delete_ne; [done|]. intros <-. now rewrite freed_unaborted in Hj. Qed.
End freeing.

(** [scsi_put_command] of a caller ends. *)
Lemma inv_put_call s pl ab rq k r d c st hs o :
  inv s pl ab rq -> calls s !! k = Some (Queue r d (QFree c st)) -> received s c hs o ->
  inv (Sys (delete c (cmds s)) hs (devs s) (cpus s) (<[k := Queue r d QGet]> (calls s)) (driver s) (timers s)
         (linuxSCSIIO_work s) (SCSILinuxSerialNumber s) (reqs s) (log s)) (partial_alter (fun _ => o) c pl) ab rq.
Proof.
  intros H Ha R. pose proof H as [Ho Hcm Hl Hb Hk Hh Hll Hbu Hr Hn Hbn Ht Hs].
  assert (pl !! c = Some (Caller k, Gone)) as Hc by (apply (inv_call_token H k _ c Gone Ha); cbn; set_solver).
  assert (k < length (calls s))%nat as Lk by now apply lookup_lt_Some in Ha.
  assert (known_by s (Some k) c) as Hkn by (eapply (known_by_place H); [done|left; now apply (freed_unaborted H Hc)]).
  destruct (Hk k _ Ha) as (Hd & _).
  split; cbn [cmds hosts devs cpus calls driver timers linuxSCSIIO_work reqs log]; try done.
  - apply (received_own s _ pl c hs o (Caller k)); try done; cbn.
    + rewrite list_lookup_insert_eq, Ha by done. done.
    + intros [j| | | |j] H1 H2; cbn; try done; [now rewrite list_lookup_insert_ne by congruence|now destruct (H2 j)].
  - exact (freed_cmds H Hc R).
  - exact (freed_lists H Hc).
  - apply (aborts_ok_same (calls s) (cmds s) _ _ k (Queue r d (QFree c st))); try done; [now left|]. intros c' Hc'.
    now apply (freed_device H Hc).
  - apply (calls_at H k c); [done|done|split; eauto|]. cbn. split; [done|]. split; [|done]. intros c' ro E. set_solver.
  - apply (lock_ok_step (holds_host (devs s)) _ (calls s) (host_locks (hosts s)) _ k (Queue r d (QFree c st))); try done.
    intros i. left. split; [|done]. exact (key_fmap _ (fun p => p.1.1) _ _ (received_keys s c hs o i R)).
  - apply (lock_ok_step holds_list _ (calls s) (list_locks (devs s)) _ k (Queue r d (QFree c st))); try done. intros i. now left.
  - exact (freed_busy H Hc R).
  - rewrite (freed_requests H Hc). apply (requests_ok_ext (calls s) (cpus s) _ _ _ _ _ _ _ Hr); try done.
    + intros j. rewrite (bind_insert _ _ k _) by done. case_decide; [|done]. subst. now rewrite Ha.
    + intros j r'. rewrite (bind_insert _ _ k _) by done. case_decide; [|done]. subst. now rewrite Ha.
  - apply (knows_at H k c); try done. congruence.
  - apply (bh_knows_at H c); [done|congruence].
  - exact (freed_hosts H R).
Qed.

(** A request is sent back. *)
Lemma inv_refuse s pl ab rq k r d st :
  inv s pl ab rq -> calls s !! k = Some (Queue r d QGet) -> st <> VMK_OK ->
  inv (set_call k Idle (add_log (Returned r st) s)) pl ab (<[r := PRefused]> rq).
Proof.
  intros H Ha Hst. pose proof H as [Ho Hcm Hl Hb Hk Hh Hll Hbu Hr Hn Hbn Ht Hs].
  assert (k < length (calls s))%nat as Lk by now apply lookup_lt_Some in Ha.
  assert (rq !! r = Some (PNew k)) as Hrq by (apply (rq_claim _ _ _ _ _ _ Hr); cbn; now rewrite Ha).
  split; cbn [set_call add_log cmds hosts devs cpus calls driver timers linuxSCSIIO_work reqs log]; try done.
  - apply (own_ext s); [done|]. intros [j| | | |]; cbn; try done. destruct (decide (j = k)) as [->|Hne].
    + now rewrite list_lookup_insert_eq, Ha by done.
    + now rewrite list_lookup_insert_ne by congruence.
  - apply (aborts_ok_same (calls s) (cmds s) _ _ k (Queue r d QGet)); try done. now left.
  - intros j b Hj. apply list_lookup_insert_Some in Hj as [(_ & <- & _)|(_ & Hj)]; [done|now apply (Hk j)].
  - apply (lock_ok_step (holds_host (devs s)) _ (calls s) (host_locks (hosts s)) _ k (Queue r d QGet)); try done. intros i. now left.
  - apply (lock_ok_step holds_list _ (calls s) (list_locks (devs s)) _ k (Queue r d QGet)); try done. intros i. now left.
  - apply (requests_ok_move (calls s) (cpus s) (accepted vmkCmdPtr (cmds s) pl) (length (reqs s)) (log s) rq); try done.
    + assert (forall ph r', claim (calls s) (cpus s) (accepted vmkCmdPtr (cmds s) pl) (log s) ph r' -> r' = r -> ph = PNew k) as Hu.
      { intros ph r' Hcl ->. apply (rq_claim _ _ _ _ _ _ Hr) in Hcl. congruence. }
      assert (completions (log s ++ [Returned r st]) = completions (log s)) as Ec by (unfold completions; rewrite omap_app; cbn; apply app_nil_r).
      intros ph r'. destruct ph as [j|c|i| |]; cbn [claim]; rewrite ?Ec.
      * rewrite (bind_insert _ _ k _) by done. split.
        -- case_decide as D; [done|]. intros E. left. split; [|done]. intros ->. specialize (Hu (PNew j) r E eq_refl). congruence.
        -- intros [[Hne E]|[-> ?]]; [|done]. case_decide as D; [|done]. subst. rewrite Ha in E. cbn in E. congruence.
      * split; [intros E; left; split; [|done]; intros ->; now specialize (Hu (PLive c) r E eq_refl)|now intros [[_ E]|[_ ?]]].
      * split; [intros E; left; split; [|done]; intros ->; now specialize (Hu (PBh i) r E eq_refl)|now intros [[_ E]|[_ ?]]].
      * split; [intros E; left; split; [|done]; intros ->; now specialize (Hu PCompleted r E eq_refl)|now intros [[_ E]|[_ ?]]].
      * unfold refused. setoid_rewrite elem_of_app. setoid_rewrite list_elem_of_singleton. split.
        -- intros (st' & Hs' & [E|E]).
           ++ left. split; [|now exists st']. intros ->. assert (refused (log s) r) as Hre by now exists st'. now specialize (Hu PRefused r Hre eq_refl).
           ++ injection E as -> ->. now right.
        -- intros [(_ & st' & Hs' & E)|[-> _]]; [exists st'; tauto|exists st; tauto].
    + unfold completions. rewrite omap_app. cbn. rewrite app_nil_r. apply (rq_NoDup _ _ _ _ _ _ Hr).
    + now rewrite Hrq.
    + intros j r'. rewrite (bind_insert _ _ k _) by done. case_decide; [done|]. now left.
    + intros r' E. apply elem_of_app in E as [E|E]; [done|]. apply list_elem_of_singleton in E. congruence.
    + intros r'. rewrite <-(rq_all _ _ _ _ _ _ Hr r'). destruct (decide (r' = r)) as [->|Hne].
      * rewrite lookup_partial_alter_eq, Hrq. split; eauto.
      * now rewrite lookup_partial_alter_ne by done.
  - intros j c r'. rewrite (bind_insert _ _ k _) by done. case_decide; [done|]. apply Hn.
Qed.

(** *** Accepting and completing a command *)

(** A request goes from one phase to the next. *)
Lemma requests_next cs ps L n l rq cs' ps' L' l' r ph0 ph1 :
  requests_ok cs ps L n l rq -> rq !! r = Some ph0 ->
  (forall ph r', r' <> r -> claim cs' ps' L' l' ph r' <-> claim cs ps L l ph r') ->
  (forall ph, (claim cs ps L l ph r -> ph = ph0) -> claim cs' ps' L' l' ph r <-> ph = ph1) ->
  NoDup (completions l') -> taken (Some ph1) ->
  (forall k r', (cs' !! k) ≫= open_request = Some r' -> (cs !! k) ≫= open_request = Some r' \/ r' = r) ->
  (forall r', Returned r' VMK_OK ∈ l' -> Returned r' VMK_OK ∈ l) ->
  requests_ok cs' ps' L' n l' (<[r := ph1]> rq).
Proof.
  intros Hr H0 Ho Hc HN Ht Hop Hl. apply (requests_ok_move cs ps L n l rq); try done.
  - intros ph r'. destruct (decide (r' = r)) as [->|Hne].
    + rewrite Hc by (intros E; apply (rq_claim _ _ _ _ _ _ Hr) in E; congruence). naive_solver.
    + rewrite Ho by done. naive_solver.
  - intros j r' E. destruct (Hop j r' E) as [?| ->]; [now left|now right].
  - intros r'. rewrite <-(rq_all _ _ _ _ _ _ Hr r'). destruct (decide (r' = r)) as [->|Hne].
    + rewrite lookup_partial_alter_eq, H0. split; eauto.
    + now rewrite lookup_partial_alter_ne by done.
Qed.

Lemma busy_keys (hs : list Scsi_Host) n h i :
  (fun x => (host_lock x, free_list x, fc_ioTimeout x && eh_abort_handler x)) <$> alter (add_host_busy n) h hs !! i
    = (fun x => (host_lock x, free_list x, fc_ioTimeout x && eh_abort_handler x)) <$> hs !! i.
Proof.
  destruct (decide (i = h)) as [->|Hne]; [|now rewrite list_lookup_alter_ne].
  rewrite list_lookup_alter_eq. now destruct (hs !! h).
Qed.

Lemma busy_dkeys (ds : list scsi_device) n d i :
  (fun v => (host v, cmd_list v, list_lock v)) <$> alter (add_device_busy n) d ds !! i
    = (fun v => (host v, cmd_list v, list_lock v)) <$> ds !! i.
Proof.
  destruct (decide (i = d)) as [->|Hne]; [|now rewrite list_lookup_alter_ne].
  rewrite list_lookup_alter_eq. now destruct (ds !! d).
Qed.

(** The counts of a host and a device change. *)
Section counting.
Context {s : sys} (n : Z) (h d : nat).
Let hs := alter (add_host_busy n) h (hosts s).
Let ds := alter (add_device_busy n) d (devs s).

Lemma busy_frame k : lists_frame s k ds.
Proof using Type.
  split; [apply length_alter|]. intros i v' Hv'. pose proof (key_fmap _ (fun p => p.1.2) _ _ (busy_dkeys (devs s) n d i)) as E.
  fold ds in E. cbn in E. rewrite Hv' in E. destruct (devs s !! i) as [v|]; [|done]. injection E as E. exists v. auto.
Qed.

Lemma busy_holds a : holds_host ds a = holds_host (devs s) a.
Proof using Type.
  destruct a as [|r d' pc| | | | | | | | | | |]; try done. cbn.
  assert (host <$> ds !! d' = host <$> devs s !! d') as -> by exact (key_fmap _ (fun p => p.1.1) _ _ (busy_dkeys (devs s) n d d')). done.
Qed.

Lemma busy_hlocks i : host_locks hs i = host_locks (hosts s) i.
Proof using Type. exact (key_fmap _ (fun p => p.1.1) _ _ (busy_keys (hosts s) n h i)). Qed.
Lemma busy_llocks i : list_locks ds i = list_locks (devs s) i.
Proof using Type. exact (key_fmap _ (fun p => p.2) _ _ (busy_dkeys (devs s) n d i)). Qed.

Lemma busy_lists i v' : ds !! i = Some v' -> exists v, devs s !! i = Some v /\ cmd_list v' = cmd_list v.
Proof using Type.
  intros Hv'. pose proof (key_fmap _ (fun p => p.1.2) _ _ (busy_dkeys (devs s) n d i)) as E.
  fold ds in E. cbn in E. rewrite Hv' in E. destruct (devs s !! i) as [v|]; [|done]. injection E as E. now exists v.
Qed.

Lemma busy_hosts : no_timeouts (hosts s) /\ (forall i v, devs s !! i = Some v -> (host v < length (hosts s))%nat) ->
  no_timeouts hs /\ forall i v, ds !! i = Some v -> (host v < length hs)%nat.
Proof using Type.
  intros [H1 H2]. unfold hs. rewrite length_alter. split.
  - rewrite no_timeouts_lookup in *. intros i y Hy. pose proof (key_fmap _ (fun p => p.2) _ _ (busy_keys (hosts s) n h i)) as E.
    rewrite Hy in E. destruct (hosts s !! i) as [y'|] eqn:Ey; [|done]. injection E as ->. now apply (H1 i).
  - intros i v Hv. pose proof (key_fmap _ (fun p => p.1.1) _ _ (busy_dkeys (devs s) n d i)) as E. fold ds in E. rewrite Hv in E.
    destruct (devs s !! i) as [v0|] eqn:E0; [|done]. injection E as ->. now apply (H2 i).
Qed.

Lemma busy_free g : tokens (Sys (cmds s) hs ds (cpus s) (calls s) (driver s) (timers s) (linuxSCSIIO_work s)
  (SCSILinuxSerialNumber s) (reqs s) (log s)) g = tokens s g.
Proof using Type.
  destruct g as [j|i| | |i]; cbn; try done. pose proof (key_fmap _ (fun p => p.1.2) _ _ (busy_keys (hosts s) n h i)) as E. fold hs in E.
  destruct (hs !! i), (hosts s !! i); cbn in *; try done. unfold free_tokens. now injection E as ->.
Qed.
End counting.

Definition accepting (a : call) (r d c : nat) : Prop := a = Queue r d (QBusy c) \/ a = Queue r d (QLock c).

Lemma inv_accept s pl ab rq k r d c x x' v a a' :
  inv s pl ab rq -> calls s !! k = Some a -> accepting a r d c -> cmds s !! c = Some x -> devs s !! d = Some v ->
  flags_ok Owned x' -> test_flag VMK_FLAGS_DELAY_CMDDONE x' = false -> device x' = device x -> vmkCmdPtr x' = vmkCmdPtr x ->
  call_tokens a' = [(c, Owned)] -> alist a' = [] -> new_request a' = None -> open_request a' = Some r -> knows a' = None ->
  holds_host (devs s) a' = None -> holds_list a' = None ->
  call_ok (alter (add_device_busy 1) d (devs s)) (length (cpus s)) (<[c := x']> (cmds s)) a' ->
  inv (Sys (<[c := x']> (cmds s)) (alter (add_host_busy 1) (host v) (hosts s)) (alter (add_device_busy 1) d (devs s)) (cpus s)
         (<[k := a']> (calls s)) (driver s) (timers s) (linuxSCSIIO_work s) (SCSILinuxSerialNumber s) (reqs s) (log s))
    (<[c := (Caller k, Owned)]> pl) ab (<[r := PLive c]> rq).
Proof.
  intros H Ha Hacc Hx Hv Hf Hdl Ed Ep Et' El' EN' EO' EK' Eh' Ell' Hok.
  pose proof H as [Ho Hcm Hl Hb Hk Hh Hll Hbu Hr Hn Hbn Ht Hs].
  assert (call_tokens a = [(c, Fresh)] /\ knows a = Some (c, r) /\ new_request a = Some r /\ alist a = [] /\
    holds_host (devs s) a = None /\ holds_list a = None /\ open_request a = None) as (Et & EK & EN & El & Eh & Ell & EO)
    by (destruct Hacc as [->| ->]; done).
  assert (k < length (calls s))%nat as Lk by now apply lookup_lt_Some in Ha.
  assert (pl !! c = Some (Caller k, Fresh)) as Hc by (apply (inv_call_token H k a); [done|rewrite Et; set_solver]).
  assert (ab !! c = None) as Hab by now apply (inv_fresh_unaborted H c _ _ Hc).
  assert (known_by s (Some k) c) as Hkn by (eapply (known_by_place H); eauto).
  assert (device x = d) as Hxd.
  { specialize (Hk k a Ha). destruct Hacc as [->| ->]; cbn in Hk; destruct Hk as (_ & Hk & _); specialize (Hk c Fresh ltac:(set_solver));
      unfold device_of in Hk; rewrite Hx in Hk; now injection Hk. }
  assert (vmkCmdPtr x = r) as Hxr by (pose proof (Hn k c r) as E; rewrite Ha, Hx in E; cbn in E; specialize (E EK); congruence).
  assert (rq !! r = Some (PNew k)) as Hrq by (apply (rq_claim _ _ _ _ _ _ Hr); cbn; now rewrite Ha).
  assert (tally vmkCmdPtr (cmds s !! c) (pl !! c) = None) as Etl by now rewrite Hx, Hc.
  pose proof (Hcm c) as Hcc. rewrite Hx, Hc in Hcc. cbn in Hcc.
  split; cbn [cmds hosts devs cpus calls driver timers linuxSCSIIO_work reqs log]; try done.
  - apply (own_role s _ pl c Ho (Caller k) Fresh Owned []); [done|..]; cbn.
    + rewrite Ha. cbn. now rewrite Et.
    + rewrite list_lookup_insert_eq by done. cbn. now rewrite Et'.
    + intros g Hg. rewrite <-(busy_free (s := s) 1 (host v) d g). destruct g as [j| | | |]; [|reflexivity..]. cbn. rewrite list_lookup_insert_ne by congruence. reflexivity.
  - rewrite length_alter. apply (cmds_ok_at (agree_insert c _ x') (agree_insert c _ _) (agree_refl c ab)); [done|].
    rewrite !lookup_insert_eq, Hab. cbn. rewrite Ed, Hdl. tauto.
  - apply (lists_ok_keep (agree_insert c _ x') (agree_insert c _ _) (agree_refl c ab) (devs s)); [done|apply busy_lists|].
    intros i. rewrite !lookup_insert_eq, Hx, Hc, Hab. unfold on_list. naive_solver.
  - apply (aborts_ok_same (calls s) (cmds s) _ _ k a); try done; [congruence|now left|]. intros c' [j Hj]. unfold device_of.
    rewrite lookup_insert_ne; congruence.
  - apply (calls_at H k c); [done|done|apply busy_frame|done].
  - apply (lock_ok_step (holds_host (devs s)) _ (calls s) (host_locks (hosts s)) _ k a); try done; [apply busy_holds|].
    intros i. left. rewrite Eh, Eh'. split; [apply busy_hlocks|done].
  - apply (lock_ok_step holds_list _ (calls s) (list_locks (devs s)) _ k a); try done.
    intros i. left. rewrite Ell, Ell'. split; [apply busy_llocks|done].
  - apply (busy_ok_add (hosts s) (devs s) (accepted device (cmds s) pl) _ d v); [done|done|done|]. intros P.
    rewrite (accepted_add (agree_insert c _ x') (agree_insert c _ (Caller k, Owned)) device d); [|rewrite !lookup_insert_eq; cbn; congruence].
    apply count_insert. now rewrite lookup_accepted, Hx, Hc.
  - rewrite (accepted_add (agree_insert c _ x') (agree_insert c _ (Caller k, Owned)) vmkCmdPtr r) by (rewrite !lookup_insert_eq; cbn; congruence).
    set (L := accepted vmkCmdPtr (cmds s) pl) in *. assert (L !! c = None) as HLc by (unfold L; now rewrite lookup_accepted).
    apply (requests_next (calls s) (cpus s) L _ (log s) rq _ _ _ _ r (PNew k) (PLive c)); try done.
    + intros ph r' Hne. destruct ph as [j|c'|i| |]; cbn [claim]; try done.
      * rewrite (bind_insert _ _ k a) by done. case_decide as D; [subst j; rewrite Ha; cbn; split; congruence|done].
      * destruct (decide (c' = c)) as [->|Hnc]; [rewrite lookup_insert_eq; split; congruence|now rewrite lookup_insert_ne].
    + intros ph Hu. destruct ph as [j|c'|i| |]; cbn [claim] in *.
      * rewrite (bind_insert _ _ k a) by done. case_decide as D; [split; congruence|]. split; [intros E; specialize (Hu E); congruence|done].
      * destruct (decide (c' = c)) as [->|Hnc]; [rewrite lookup_insert_eq; split; congruence|].
        rewrite lookup_insert_ne by done. split; [intros E; now specialize (Hu E)|congruence].
      * split; [intros E; now specialize (Hu E)|done].
      * split; [intros E; now specialize (Hu E)|done].
      * split; [intros E; now specialize (Hu E)|done].
    + apply (rq_NoDup _ _ _ _ _ _ Hr).
    + intros j r'. rewrite (bind_insert _ _ k a) by done. case_decide; [right; congruence|now left].
  - apply (knows_at H k c); [done|congruence|intros c' r'; now rewrite EK'|done].
  - apply (bh_knows_at H c); [done|congruence].
  - now apply busy_hosts.
Qed.

(** *** Commands that change hands *)

Lemma bh_same {s} {ps' : list scsiLinuxTLS} {i : nat} {A} (f : bh_pc -> option A) :
  (forall i : nat, bh <$> ps' !! i = bh <$> cpus s !! i) ->
  (ps' !! i) ≫= (fun p => f (bh p)) = (cpus s !! i) ≫= (fun p => f (bh p)).
Proof. intros E. specialize (E i). destruct (ps' !! i), (cpus s !! i); cbn in *; congruence. Qed.

(** From one agent to another, in its role. *)
Lemma inv_handover s pl ab rq k a a' c g g' ro ps' o' :
  inv s pl ab rq -> calls s !! k = Some a -> pl !! c = Some (g, ro) -> (g' = Parking -> ro = Parked) ->
  (forall i : nat, bh <$> ps' !! i = bh <$> cpus s !! i) ->
  let s' := Sys (cmds s) (hosts s) (devs s) ps' (<[k := a']> (calls s)) o' (timers s) (linuxSCSIIO_work s)
              (SCSILinuxSerialNumber s) (reqs s) (log s) in
  own s' (<[c := (g', ro)]> pl) ->
  alist a' = alist a -> (alist a = [] \/ adev a' = adev a) -> call_ok (devs s) (length (cpus s)) (cmds s) a' ->
  holds_host (devs s) a' = holds_host (devs s) a -> holds_list a' = holds_list a ->
  new_request a' = new_request a ->
  (forall r, open_request a' = Some r -> open_request a = Some r \/ taken (rq !! r)) -> knows a' = None ->
  inv s' (<[c := (g', ro)]> pl) ab rq.
Proof.
  intros H Ha Hc Hpk Eb s' Ho' El Ed Hok Eh Ell EN EO EK. pose proof H as [Ho Hcm Hl Hb Hk Hh Hll Hbu Hr Hn Hbn Ht Hs].
  assert (length ps' = length (cpus s)) as Lp by exact (same_length _ _ _ Eb).
  assert (forall f, tally f (cmds s !! c) (<[c := (g', ro)]> pl !! c) = tally f (cmds s !! c) (pl !! c)) as Etl
    by (intros f; now rewrite lookup_insert_eq, Hc).
  split; subst s'; cbn [cmds hosts devs cpus calls driver timers linuxSCSIIO_work reqs log]; try done.
  - apply (cmds_ok_at (agree_refl c _) (agree_insert c pl _) (agree_refl c ab)); [done|]. rewrite lookup_insert_eq.
    pose proof (Hcm c) as Hcc. rewrite Hc in Hcc. exact Hcc.
  - apply (lists_ok_keep (agree_refl c _) (agree_insert c pl (g', ro)) (agree_refl c ab) (devs s)); [done|eauto|].
    intros d. rewrite lookup_insert_eq, Hc. unfold on_list. naive_solver.
  - now apply (aborts_ok_same (calls s) (cmds s) _ _ k a).
  - intros j b Hj. rewrite Lp. apply list_lookup_insert_Some in Hj as [(_ & <- & _)|(_ & Hj)]; [done|now apply (Hk j)].
  - apply (lock_ok_step (holds_host (devs s)) _ (calls s) (host_locks (hosts s)) _ k a); try done. intros i. left. now rewrite Eh.
  - apply (lock_ok_step holds_list _ (calls s) (list_locks (devs s)) _ k a); try done. intros i. left. now rewrite Ell.
  - now rewrite (accepted_eq (agree_refl c _) (agree_insert c pl _)).
  - rewrite (accepted_eq (agree_refl c _) (agree_insert c pl _)) by done.
    assert (forall j, (<[k := a']> (calls s) !! j) ≫= new_request = (calls s !! j) ≫= new_request) as E1.
    { intros j. rewrite (bind_insert _ _ k a) by done. case_decide; [|done]. subst. now rewrite Ha. }
    assert (forall i, (ps' !! i) ≫= (fun p => bh_request (bh p)) = (cpus s !! i) ≫= (fun p => bh_request (bh p))) as E2
      by (intros i; now apply bh_same).
    destruct Hr as [R1 R2 R3 R4 R5]. split; try done.
    + intros ph r. rewrite <-R1. destruct ph; cbn [claim]; rewrite ?E1, ?E2; done.
    + intros j r. rewrite (bind_insert _ _ k a) by done. case_decide; [|apply R3]. intros E. destruct (EO r E) as [E'|?]; [|done].
      apply (R3 k). now rewrite Ha.
  - intros j c' r. rewrite (bind_insert _ _ k a) by done. case_decide; [congruence|apply Hn].
  - intros i c' r. rewrite (bh_same _ Eb). apply Hbn.
Qed.

(** The driver gets a command. *)
Lemma inv_give s pl ab rq k r d c :
  inv s pl ab rq -> calls s !! k = Some (Queue r d (QCall c)) ->
  inv (set_call k (Queue r d (QCalling c)) (set_driver (driver s ∪ {[c]}) s)) (<[c := (Driver, Owned)]> pl) ab rq.
Proof.
  intros H Ha. assert (k < length (calls s))%nat as Lk by now apply lookup_lt_Some in Ha.
  assert (pl !! c = Some (Caller k, Owned)) as Hc by (apply (inv_call_token H k _ c Owned Ha); cbn; set_solver).
  assert (c ∉ driver s) as Hd.
  { intros Hin. assert (pl !! c = Some (Driver, Owned)); [|congruence]. apply (inv_token H); [done|]. cbn.
    apply list_elem_of_fmap. exists c. split; [done|]. now apply elem_of_elements. }
  destruct (i_calls _ _ _ _ H k _ Ha) as (Hdl & _).
  apply (inv_handover s pl ab rq k _ _ c (Caller k) Driver Owned (cpus s) _ H Ha Hc); try done; [|now left| |auto].
  - apply (own_give s _ pl c (i_own _ _ _ _ H) (Caller k) Driver Owned Owned); [done..| | |]; cbn.
    + rewrite list_lookup_insert_eq, Ha by done. done.
    + rewrite (comm_L (∪) _ {[c]}), elements_union_singleton by done. done.
    + intros [j| | | |] H1 H2; cbn; try done. now rewrite list_lookup_insert_ne by congruence.
  - cbn. split; [done|]. split; [|done]. intros c' ro E. set_solver.
Qed.

(** It gives one back, by completing it or by refusing it. *)
Lemma inv_taken s pl ab rq k a a' c :
  inv s pl ab rq -> calls s !! k = Some a -> c ∈ driver s -> call_tokens a = [] -> call_tokens a' = [(c, Owned)] ->
  alist a' = alist a -> (alist a = [] \/ adev a' = adev a) -> call_ok (devs s) (length (cpus s)) (cmds s) a' ->
  holds_host (devs s) a' = holds_host (devs s) a -> holds_list a' = holds_list a ->
  new_request a' = new_request a -> (open_request a' = None \/ open_request a' = open_request a) -> knows a' = None ->
  inv (set_call k a' (set_driver (driver s ∖ {[c]}) s)) (<[c := (Caller k, Owned)]> pl) ab rq.
Proof.
  intros H Ha Hd Et Et' El Ed Hok Eh Ell EN EO EK. assert (k < length (calls s))%nat as Lk by now apply lookup_lt_Some in Ha.
  assert (pl !! c = Some (Driver, Owned)) as Hc.
  { apply (inv_token H); [done|]. cbn. apply list_elem_of_fmap. exists c. split; [done|]. now apply elem_of_elements. }
  apply (inv_handover s pl ab rq k a _ c Driver (Caller k) Owned (cpus s) _ H Ha Hc); try done.
  - apply (own_give s _ pl c (i_own _ _ _ _ H) Driver (Caller k) Owned Owned); [done..| | |]; cbn.
    + assert (driver s = {[c]} ∪ (driver s ∖ {[c]})) as E by (apply union_difference_singleton_L; done).
      rewrite E at 1. rewrite elements_union_singleton by set_solver. done.
    + rewrite list_lookup_insert_eq, Ha by done. cbn. now rewrite Et, Et'.
    + intros [j| | | |] H1 H2; cbn; try done. now rewrite list_lookup_insert_ne by congruence.
  - intros r E. left. destruct EO; congruence.
Qed.

(** A completed command goes to the bottom half of a CPU. *)
Lemma inv_scheduled s pl ab rq k a a' c i p :
  inv s pl ab rq -> calls s !! k = Some a -> cpus s !! i = Some p -> call_tokens a = [(c, Cleared)] -> call_tokens a' = [] ->
  alist a' = alist a -> (alist a = [] \/ adev a' = adev a) -> call_ok (devs s) (length (cpus s)) (cmds s) a' ->
  holds_host (devs s) a' = holds_host (devs s) a -> holds_list a' = holds_list a ->
  new_request a' = new_request a -> (open_request a' = None \/ open_request a' = open_request a) -> knows a' = None ->
  inv (set_call k a' (on_cpu i (SCSILinuxScheduleCompletion c) s)) (<[c := (Cpu i, Cleared)]> pl) ab rq.
Proof.
  intros H Ha Hp Et Et' El Ed Hok Eh Ell EN EO EK. assert (k < length (calls s))%nat as Lk by now apply lookup_lt_Some in Ha.
  assert (pl !! c = Some (Caller k, Cleared)) as Hc by (apply (inv_call_token H k a); [done|rewrite Et; set_solver]).
  assert (forall q, bh (SCSILinuxScheduleCompletion c q) = bh q) as Eb.
  { intros q. unfold SCSILinuxScheduleCompletion, SCSILinuxSignalBH. cbn. now destruct (runningBH q). }
  apply (inv_handover s pl ab rq k a _ c (Caller k) (Cpu i) Cleared (alter (SCSILinuxScheduleCompletion c) i (cpus s)) (driver s) H Ha Hc); try done.
  - intros j. destruct (decide (j = i)) as [->|Hne]; [|now rewrite list_lookup_alter_ne].
    rewrite list_lookup_alter_eq, Hp. cbn. now rewrite Eb.
  - apply (own_give s _ pl c (i_own _ _ _ _ H) (Caller k) (Cpu i) Cleared Cleared); [done..| | |].
    + cbn. rewrite list_lookup_insert_eq, Ha by done. cbn. now rewrite Et, Et'.
    + cbn. rewrite list_lookup_alter_eq, Hp. cbn. unfold cpu_tokens. rewrite Eb.
      assert (isrDoneCmds (SCSILinuxScheduleCompletion c p) = isrDoneCmds p ++ [c]) as -> by
        (unfold SCSILinuxScheduleCompletion, SCSILinuxSignalBH; cbn; now destruct (runningBH p)).
      assert (bhDoneCmds (SCSILinuxScheduleCompletion c p) = bhDoneCmds p) as -> by
        (unfold SCSILinuxScheduleCompletion, SCSILinuxSignalBH; cbn; now destruct (runningBH p)).
      rewrite !fmap_app. cbn. solve_Permutation.
    + intros [j|j| | |] H1 H2; cbn; try done; [now rewrite list_lookup_insert_ne by congruence|now rewrite list_lookup_alter_ne by congruence].
  - intros r E. left. destruct EO; congruence.
Qed.

(** *** Aborting *)

(** The flags of a command change, perhaps in the hands of another: it keeps its
    device and its request, and has been completed if it had. *)
Section flagging.
Context {s : sys} {pl : places} {ab : gmap nat nat} {rq : gmap nat phase} (H : inv s pl ab rq).
Context {c : nat} {x x' : scsi_cmnd} (Hx : cmds s !! c = Some x).
Context (Ed : device x' = device x) (Ep : vmkCmdPtr x' = vmkCmdPtr x).
Context (Eat : test_flag VMK_FLAGS_CMDDONE_ATTEMPTED x = true -> test_flag VMK_FLAGS_CMDDONE_ATTEMPTED x' = true).

Lemma flag_grows c' : grows (cmds s) (<[c := x']> (cmds s)) c'.
Proof using Hx Ed Eat.
  unfold grows, device_of, attempted. destruct (decide (c' = c)) as [->|Hne]; [|now rewrite lookup_insert_ne].
  rewrite lookup_insert_eq, Hx. cbn. split; [congruence|]. intros (y & [= <-] & E). eauto.
Qed.

Lemma flag_ptr c' : vmkCmdPtr <$> <[c := x']> (cmds s) !! c' = vmkCmdPtr <$> cmds s !! c'.
Proof using Hx Ep.
  destruct (decide (c' = c)) as [->|Hne]; [|now rewrite lookup_insert_ne]. rewrite lookup_insert_eq, Hx. cbn. congruence.
Qed.

Lemma flag_calls k ds' a' : lists_frame s (Some k) ds' -> call_ok ds' (length (cpus s)) (<[c := x']> (cmds s)) a' ->
  forall j b, <[k := a']> (calls s) !! j = Some b -> call_ok ds' (length (cpus s)) (<[c := x']> (cmds s)) b.
Proof using H Hx Ed Eat.
  intros [Ln Hl] Ha j b Hb. apply list_lookup_insert_Some in Hb as [(_ & <- & _)|(Hne & Hb)]; [done|].
  apply (call_ok_mono (devs s) ds' _ (cmds s)); [now apply (i_calls _ _ _ _ H j)|done|intros; apply flag_grows|].
  intros d rest sel -> v' Hv'. destruct (Hl d v' Hv') as (v & Hv & [E|E]); [now exists v|].
  assert (list_locks (devs s) d = Some (Some j)) as E'.
  { apply (i_llock _ _ _ _ H). split; [unfold list_locks; rewrite Hv; eauto|]. exists (Select d rest sel). now split. }
  unfold list_locks in E'. rewrite Hv in E'. injection E' as E'. specialize (E j E'). congruence.
Qed.

Lemma flag_knows k a' : knows a' = None -> (k < length (calls s))%nat ->
  forall j c' r, (<[k := a']> (calls s) !! j) ≫= knows = Some (c', r) -> vmkCmdPtr <$> <[c := x']> (cmds s) !! c' = Some r.
Proof using H Hx Ep.
  intros EK Lk j c' r. rewrite flag_ptr. destruct (decide (j = k)) as [->|Hne].
  - rewrite list_lookup_insert_eq by done. cbn. congruence.
  - rewrite list_lookup_insert_ne by done. apply (i_knows _ _ _ _ H).
Qed.

Lemma flag_bh_knows i c' r : (cpus s !! i) ≫= (fun p => bh_knows (bh p)) = Some (c', r) ->
  vmkCmdPtr <$> <[c := x']> (cmds s) !! c' = Some r.
Proof using H Hx Ep. rewrite flag_ptr. apply (i_bh_knows _ _ _ _ H). Qed.
End flagging.

(** A caller [k] that has [a] flags [c]: everything but the places. *)
Lemma inv_flag s pl ab rq k a a' c x x' g ro pl' ro' oab before after ds' :
  inv s pl ab rq -> calls s !! k = Some a -> cmds s !! c = Some x -> pl !! c = Some (g, ro) -> counted ro = true ->
  device x' = device x -> vmkCmdPtr x' = vmkCmdPtr x ->
  (test_flag VMK_FLAGS_CMDDONE_ATTEMPTED x = true -> test_flag VMK_FLAGS_CMDDONE_ATTEMPTED x' = true) ->
  agree c pl pl' -> (exists g', pl' !! c = Some (g', ro')) -> counted ro' = true ->
  flags_ok ro' x' -> test_flag VMK_FLAGS_DELAY_CMDDONE x' = bool_decide (is_Some oab) ->
  let ab' := partial_alter (fun _ => oab) c ab in
  relist (Some k) c before after (devs s) ds' ->
  (forall d, before d <-> d = device x /\ ab !! c = None) -> (forall d, after d <-> d = device x /\ oab = None) ->
  let s' := Sys (<[c := x']> (cmds s)) (hosts s) ds' (cpus s) (<[k := a']> (calls s)) (driver s) (timers s) (linuxSCSIIO_work s)
              (SCSILinuxSerialNumber s) (reqs s) (log s) in
  own s' pl' -> aborts_ok (<[k := a']> (calls s)) (<[c := x']> (cmds s)) ab' ->
  call_ok ds' (length (cpus s)) (<[c := x']> (cmds s)) a' ->
  holds_host (devs s) a' = holds_host (devs s) a -> holds_list a' = holds_list a -> new_request a' = new_request a ->
  (open_request a' = None \/ open_request a' = open_request a) -> knows a' = None ->
  inv s' pl' ab' rq.
Proof.
  intros H Ha Hx Hc Hcnt Ed Ep Eat Ap (g' & Hc') Hcnt' Hf Hdl ab' R Hbe Haf s' Ho' Hab' Hok Eh Ell EN EO EK.
  pose proof H as [Ho Hcm Hl Hb Hk Hh Hll Hbu Hr Hn Hbn Ht [Hs1 Hs2]].
  assert (k < length (calls s))%nat as Lk by now apply lookup_lt_Some in Ha.
  assert (agree c ab ab') as Aa by (intros c1 Hne; now apply lookup_partial_alter_ne).
  pose proof (Hcm c) as Hcc. rewrite Hx, Hc in Hcc. cbn in Hcc.
  assert (listed ro = true /\ listed ro' = true) as [Hli Hli'] by (destruct ro, ro'; done).
  split; subst s'; cbn [cmds hosts devs cpus calls driver timers linuxSCSIIO_work reqs log]; try done.
  - rewrite (relist_length R). apply (cmds_ok_at (agree_insert c _ x') Ap Aa); [done|].
    rewrite lookup_insert_eq, Hc'. subst ab'. rewrite lookup_partial_alter_eq. cbn. rewrite Ed. tauto.
  - apply (relist_lists R _ pl pl' ab ab'); auto.
    + intros d. rewrite Hbe, Hx, Hc. unfold on_list. naive_solver.
    + intros d. rewrite Haf, lookup_insert_eq, Hc'. subst ab'. rewrite lookup_partial_alter_eq. unfold on_list. naive_solver.
  - apply (flag_calls H Hx Ed Eat); [exact (relist_frame R)|done].
  - apply (lock_ok_step (holds_host (devs s)) _ (calls s) (host_locks (hosts s)) _ k a); try done; [apply (relist_holds R)|].
    intros i. left. rewrite Eh. done.
  - apply (lock_ok_step holds_list _ (calls s) (list_locks (devs s)) _ k a); try done.
    intros i. left. rewrite Ell. split; [apply (relist_lock R)|done].
  - rewrite (accepted_eq (agree_insert c _ x') Ap) by (rewrite lookup_insert_eq, Hx, Hc, Hc'; cbn; now rewrite Hcnt, Hcnt', Ed).
    apply (busy_ok_same (hosts s) (devs s)); [done|apply (relist_host R)|apply (relist_busy R)|done].
  - rewrite (accepted_eq (agree_insert c _ x') Ap) by (rewrite lookup_insert_eq, Hx, Hc, Hc'; cbn; now rewrite Hcnt, Hcnt', Ep).
    apply (requests_ok_ext (calls s) (cpus s) _ _ _ _ _ _ _ Hr); try done.
    + intros j. rewrite (bind_insert _ _ k a) by done. case_decide; [|done]. subst. now rewrite Ha.
    + intros j r. rewrite (bind_insert _ _ k a) by done. case_decide; [|done]. subst. rewrite Ha. cbn. destruct EO; congruence.
  - now apply (flag_knows H Hx Ep).
  - apply (flag_bh_knows H Hx Ep).
  - split; [done|]. now apply (relist_hosts R).
Qed.

Ltac flags := unfold flags_ok in *; autorewrite with scsi_flags; intuition congruence.

Lemma same_places {A} (m : gmap nat A) c : partial_alter (fun _ => m !! c) c m = m.
Proof. apply partial_alter_self. Qed.

(** A command that is completed while it is being aborted is left to who aborts it. *)
Lemma inv_park s pl ab rq k a a' c x j :
  inv s pl ab rq -> calls s !! k = Some a -> call_tokens a = [(c, Owned)] -> call_tokens a' = [] -> cmds s !! c = Some x ->
  ab !! c = Some j -> alist a' = alist a -> (alist a = [] \/ adev a' = adev a) ->
  call_ok (devs s) (length (cpus s)) (<[c := set_flag VMK_FLAGS_CMDDONE_ATTEMPTED x]> (cmds s)) a' ->
  holds_host (devs s) a' = holds_host (devs s) a -> holds_list a' = holds_list a -> new_request a' = new_request a ->
  (open_request a' = None \/ open_request a' = open_request a) -> knows a' = None ->
  inv (set_call k a' (set_cmd c (set_flag VMK_FLAGS_CMDDONE_ATTEMPTED x) s)) (<[c := (Parking, Parked)]> pl) ab rq.
Proof.
  intros H Ha Et Et' Hx Hj El Eld Hok Eh Ell EN EO EK. assert (k < length (calls s))%nat as Lk by now apply lookup_lt_Some in Ha.
  assert (pl !! c = Some (Caller k, Owned)) as Hc by (apply (inv_call_token H k a); [done|rewrite Et; set_solver]).
  destruct (inv_place H c _ _ Hc) as (y & Hy & Hf & Hdl & Hv); [done|]. rewrite Hx in Hy. injection Hy as <-.
  rewrite Hj in Hdl. rewrite bool_decide_true in Hdl by eauto.
  rewrite <-(same_places ab c).
  apply (inv_flag s pl ab rq k a a' c x (set_flag VMK_FLAGS_CMDDONE_ATTEMPTED x) (Caller k) Owned _ Parked (ab !! c)
    (fun d => d = device x /\ ab !! c = None) (fun d => d = device x /\ ab !! c = None) (devs s)); try done; try (now flags).
  - rewrite lookup_insert_eq. now eexists.
  - autorewrite with scsi_flags. rewrite Hj, Hdl. now rewrite bool_decide_true by eauto.
  - now apply relist_refl.
  - apply (own_drop s _ pl c (i_own _ _ _ _ H) (Caller k) Owned (Some (Parking, Parked))); [done|now right|..]; cbn.
    + rewrite list_lookup_insert_eq, Ha by done. cbn. now rewrite Et, Et'.
    + intros [i| | | |] Hne; cbn; try done. now rewrite list_lookup_insert_ne by congruence.
  - rewrite same_places. apply (aborts_ok_same (calls s) (cmds s) _ _ k a); try done; [apply (i_aborts _ _ _ _ H)|].
    intros c' _. apply (flag_grows Hx); [done|]. intros _. now autorewrite with scsi_flags.
Qed.

(** A command is selected for an abort. *)
Lemma inv_select s pl ab rq k d c rest sel x v :
  inv s pl ab rq -> calls s !! k = Some (Select d (c :: rest) sel) -> cmds s !! c = Some x -> devs s !! d = Some v ->
  test_flag VMK_FLAGS_NEED_CMDDONE x = true -> test_flag VMK_FLAGS_CMDDONE_ATTEMPTED x = false ->
  inv (set_call k (Select d rest (sel ++ [c]))
         (on_dev d (set_cmd_list (filter (fun c' => c' <> c) (cmd_list v))) (set_cmd c (set_flag VMK_FLAGS_DELAY_CMDDONE x) s)))
    pl (<[c := k]> ab) rq.
Proof.
  intros H Ha Hx Hv Hn Hat. assert (k < length (calls s))%nat as Lk by now apply lookup_lt_Some in Ha.
  destruct (i_calls _ _ _ _ H k _ Ha) as (Hd & HN & Hin). assert (c ∈ cmd_list v) as Hcl by (apply (Hin v c Hv); left).
  apply (i_lists _ _ _ _ H d v Hv) in Hcl as (y & g & ro & Hy & Hyd & Hc & Hli & Hab). rewrite Hx in Hy. injection Hy as <-.
  destruct (inv_place H c _ _ Hc) as (y & Hy & Hf & Hdl & _); [now destruct ro|]. rewrite Hx in Hy. injection Hy as <-.
  assert (ro = Owned) as -> by (destruct ro; try done; exfalso; unfold flags_ok in Hf; intuition congruence).
  assert (list_lock v = Some k) as Hlk.
  { assert (list_locks (devs s) d = Some (Some k)) as E; [|unfold list_locks in E; rewrite Hv in E; now injection E].
    apply (i_llock _ _ _ _ H). split; [unfold list_locks; rewrite Hv; eauto|]. eexists. split; [exact Ha|done]. }
  apply (inv_flag s pl ab rq k (Select d (c :: rest) sel) (Select d rest (sel ++ [c])) c x (set_flag VMK_FLAGS_DELAY_CMDDONE x) g Owned pl Owned (Some k)
    (fun i => i = device x /\ ab !! c = None) (fun i => i = device x /\ Some k = None)
    (alter (set_cmd_list (filter (fun c' => c' <> c) (cmd_list v))) d (devs s))); try done; try (now flags); [eauto| | | |].
  - apply (relist_rem _ c _ _ _ _ v); [done|congruence|naive_solver|naive_solver].
  - apply (own_ext s); [apply (i_own _ _ _ _ H)|]. intros [i| | | |]; cbn; try done. destruct (decide (i = k)) as [->|Hne].
    + now rewrite list_lookup_insert_eq, Ha by done.
    + now rewrite list_lookup_insert_ne by congruence.
  - apply (aborts_ok_add (calls s) (cmds s) _ _ k _ _ c (i_aborts _ _ _ _ H) Ha); try done.
    + intros c'. apply (flag_grows Hx); [done|]. now autorewrite with scsi_flags.
    + unfold device_of. rewrite Hx. cbn. congruence.
  - cbn. rewrite length_alter. split; [done|]. apply NoDup_cons in HN as [HN1 HN2]. split; [done|].
    intros v' c' Hv' Hc'. rewrite list_lookup_alter_eq, Hv in Hv'. injection Hv' as <-. cbn. apply list_elem_of_filter.
    split; [congruence|]. apply (Hin v c' Hv). now right.
Qed.

(** An abort is over for a command: it goes back to the list of its device. If it was
    completed meanwhile, who aborted it completes it. *)
Lemma inv_finish s pl ab rq k d c rest sel retval x v i a' :
  inv s pl ab rq -> calls s !! k = Some (Finish d (c :: rest) sel retval) -> cmds s !! c = Some x -> devs s !! d = Some v ->
  (i < length (cpus s))%nat ->
  a' = (if test_flag VMK_FLAGS_CMDDONE_ATTEMPTED x then Done c i DoneEnter (ToAbort d rest sel retval) else Finish d rest sel retval) ->
  exists pl', inv (set_call k a' (on_dev d (set_cmd_list (cmd_list v ++ [c])) (set_cmd c (clear_flag VMK_FLAGS_DELAY_CMDDONE x) s)))
    pl' (delete c ab) rq.
Proof.
  intros H Ha Hx Hv Hi Ea. assert (k < length (calls s))%nat as Lk by now apply lookup_lt_Some in Ha.
  destruct (i_calls _ _ _ _ H k _ Ha) as (Hd & Hat).
  destruct (aborts_call _ _ _ (i_aborts _ _ _ _ H) k _ Ha) as (HN & HL & HD). cbn in HN, HL, HD.
  assert (ab !! c = Some k) as Hab by (apply HL; left).
  destruct (inv_aborted H c k Hab) as (y & g & ro & Hy & Hc & Hro & Hf & _). rewrite Hx in Hy. injection Hy as <-.
  assert (device x = d) as Hxd by (specialize (HD c ltac:(left)); unfold device_of in HD; rewrite Hx in HD; now injection HD).
  assert (list_lock v = Some k) as Hlk.
  { assert (list_locks (devs s) d = Some (Some k)) as E; [|unfold list_locks in E; rewrite Hv in E; now injection E].
    apply (i_llock _ _ _ _ H). split; [unfold list_locks; rewrite Hv; eauto|]. eexists. split; [exact Ha|done]. }
  assert (forall a, adev a = Some d -> alist a = rest ->
    aborts_ok (<[k := a]> (calls s)) (<[c := clear_flag VMK_FLAGS_DELAY_CMDDONE x]> (cmds s)) (delete c ab)) as Hao.
  { intros b Hb1 Hb2. apply (aborts_ok_rem (calls s) (cmds s) _ _ k _ _ c (i_aborts _ _ _ _ H) Ha); [cbn; congruence|done|].
    intros c'. apply (flag_grows Hx); [done|]. now autorewrite with scsi_flags. }
  assert (relist (Some k) c (fun i => i = device x /\ ab !! c = None) (fun i => i = device x /\ @None nat = None) (devs s)
    (alter (set_cmd_list (cmd_list v ++ [c])) d (devs s))) as R.
  { apply (relist_add _ c _ _ _ _ v); [done|congruence|intros j [_ ?]; congruence|naive_solver]. }
  assert (all_attempted (<[c := clear_flag VMK_FLAGS_DELAY_CMDDONE x]> (cmds s)) retval rest) as Hat'.
  { apply (all_attempted_mono (cmds s)); [intros Hr c' Hc'; apply Hat; [done|now right]|]. intros c' _. apply (flag_grows Hx); [done|].
    now autorewrite with scsi_flags. }
  destruct (test_flag VMK_FLAGS_CMDDONE_ATTEMPTED x) eqn:Eat; subst a'.
  - assert (ro = Parked) as -> by (destruct Hro as [->| ->]; [|done]; unfold flags_ok in Hf; intuition congruence).
    assert (g = Parking) as ->.
    { destruct (decide (g = Parking)) as [|Hg]; [done|]. exfalso. apply (own_spec _ _ (i_own _ _ _ _ H)) in Hc; [|done].
      destruct g as [j|j| | |j]; cbn in Hc; [| | |done|].
      - destruct (calls s !! j) as [[|? ? []| ? ? [] []| | | | | | | | | |]|]; cbn in Hc; set_solver.
      - destruct (cpus s !! j) as [p|]; [|set_solver]. unfold cpu_tokens in Hc. cbn in Hc. destruct (bh p); cbn in Hc; set_solver.
      - apply list_elem_of_fmap in Hc as (? & ? & _). congruence.
      - destruct (hosts s !! j); cbn in Hc; [|set_solver]. apply list_elem_of_fmap in Hc as (? & ? & _). congruence. }
    exists (<[c := (Caller k, Retry)]> pl).
    apply (inv_flag s pl ab rq k (Finish d (c :: rest) sel retval) (Done c i DoneEnter (ToAbort d rest sel retval)) c x (clear_flag VMK_FLAGS_DELAY_CMDDONE x) Parking Parked _ Retry None
      (fun i => i = device x /\ ab !! c = None) (fun i => i = device x /\ @None nat = None)
      (alter (set_cmd_list (cmd_list v ++ [c])) d (devs s)) H Ha); try done; try (now flags).
    + rewrite lookup_insert_eq. now eexists.
    + apply (own_new s _ pl c (i_own _ _ _ _ H) (Caller k) Retry); [done|right; eauto|..]; cbn.
      * rewrite list_lookup_insert_eq, Ha by done. done.
      * intros [j| | | |] Hne; cbn; try done. now rewrite list_lookup_insert_ne by congruence.
    + now apply Hao.
    + cbn. rewrite length_alter. tauto.
  - assert (ro = Owned) as -> by (destruct Hro as [->| ->]; [done|]; unfold flags_ok in Hf; intuition congruence).
    exists pl.
    apply (inv_flag s pl ab rq k (Finish d (c :: rest) sel retval) (Finish d rest sel retval) c x (clear_flag VMK_FLAGS_DELAY_CMDDONE x) g Owned pl Owned None
      (fun i => i = device x /\ ab !! c = None) (fun i => i = device x /\ @None nat = None)
      (alter (set_cmd_list (cmd_list v ++ [c])) d (devs s)) H Ha); try done; try (now flags); [eauto|..].
    + apply (own_ext s); [apply (i_own _ _ _ _ H)|]. intros [j| | | |]; cbn; try done. destruct (decide (j = k)) as [->|Hne].
      * now rewrite list_lookup_insert_eq, Ha by done.
      * now rewrite list_lookup_insert_ne by congruence.
    + now apply Hao.
    + cbn. rewrite length_alter. tauto.
Qed.

(** *** The bottom half *)

Lemma bind_alter {A B} (f : A -> option B) (g : A -> A) (l : list A) i p j : l !! i = Some p ->
  (alter g i l !! j) ≫= f = if decide (j = i) then f (g p) else (l !! j) ≫= f.
Proof.
  intros Hp. destruct (decide (j = i)) as [->|Hne].
  - now rewrite list_lookup_alter_eq, Hp.
  - now rewrite list_lookup_alter_ne by congruence.
Qed.

(** It goes on with the same commands. *)
Lemma inv_bottom s pl ab rq i p f :
  inv s pl ab rq -> cpus s !! i = Some p -> cpu_tokens (f p) ≡ₚ cpu_tokens p -> bh_request (bh (f p)) = bh_request (bh p) ->
  (forall c r, bh_knows (bh (f p)) = Some (c, r) -> vmkCmdPtr <$> cmds s !! c = Some r) -> inv (on_cpu i f s) pl ab rq.
Proof.
  intros H Hp Et ER EK. pose proof H as [Ho Hcm Hl Hb Hk Hh Hll Hbu Hr Hn Hbn Ht Hs].
  split; cbn [on_cpu cmds hosts devs cpus calls driver timers linuxSCSIIO_work reqs log]; try done.
  - apply (own_ext s); [done|]. intros [j|j| | |j]; cbn; try done. destruct (decide (j = i)) as [->|Hne].
    + now rewrite list_lookup_alter_eq, Hp.
    + now rewrite list_lookup_alter_ne by congruence.
  - intros j a Ha. rewrite length_alter. now apply (Hk j).
  - apply (requests_ok_ext (calls s) (cpus s) _ _ _ _ _ _ _ Hr); try done.
    intros j. rewrite (bind_alter _ _ _ _ p) by done. case_decide; [|done]. subst. now rewrite Hp.
  - intros j c r. rewrite (bind_alter _ _ _ _ p) by done. case_decide; [apply EK|apply Hbn].
Qed.

Lemma tokens_bh s i p pc : cpus s !! i = Some p -> tokens s (Cpu i) = cpu_tokens p /\
  tokens (on_cpu i (set_bh pc) s) (Cpu i) = bh_tokens pc ++ ((fun c => (c, Cleared)) <$> (isrDoneCmds p ++ bhDoneCmds p)).
Proof. intros Hp. cbn. rewrite list_lookup_alter_eq, Hp. done. Qed.

(** It counts a command down. *)
Lemma inv_uncount s pl ab rq i p c r st y x v :
  inv s pl ab rq -> cpus s !! i = Some p -> bh p = BhBusy c r st y -> cmds s !! c = Some x -> devs s !! device x = Some v ->
  inv (on_cpu i (set_bh (BhPut c r st y)) (add_busy (host v) (device x) (-1) s)) (<[c := (Cpu i, Finished)]> pl) ab (<[r := PBh i]> rq).
Proof.
  intros H Hp Eb Hx Hv. pose proof H as [Ho Hcm Hl Hb Hk Hh Hll Hbu Hr Hn Hbn Ht Hs].
  assert (pl !! c = Some (Cpu i, Cleared)) as Hc.
  { apply (inv_token H); [done|]. destruct (tokens_bh s i p BhOff Hp) as [-> _]. unfold cpu_tokens. rewrite Eb. cbn. left. }
  assert (ab !! c = None) as Hab by now apply (inv_fresh_unaborted H c _ _ Hc).
  assert (known_by s None c) as Hkn by (apply (known_by_none H); congruence).
  assert (vmkCmdPtr x = r) as Hxr by (pose proof (Hbn i c r) as E; rewrite Hp in E; cbn in E; rewrite Eb, Hx in E; cbn in E; specialize (E eq_refl); congruence).
  assert (rq !! r = Some (PLive c)) as Hrq.
  { apply (rq_claim _ _ _ _ _ _ Hr). cbn. rewrite lookup_accepted, Hx, Hc. cbn. congruence. }
  pose proof (Hcm c) as Hcc. rewrite Hx, Hc in Hcc. cbn in Hcc.
  split; cbn [on_cpu add_busy on_dev on_host cmds hosts devs cpus calls driver timers linuxSCSIIO_work reqs log]; try done.
  - apply (own_role s _ pl c Ho (Cpu i) Cleared Finished ((fun c => (c, Cleared)) <$> (isrDoneCmds p ++ bhDoneCmds p))); [done|..].
    + destruct (tokens_bh s i p BhOff Hp) as [-> _]. unfold cpu_tokens. now rewrite Eb.
    + cbn. now rewrite list_lookup_alter_eq, Hp.
    + intros g Hg. rewrite <-(busy_free (s := s) (-1) (host v) (device x) g). destruct g as [j|j| | |]; try reflexivity.
      cbn. now rewrite list_lookup_alter_ne by congruence.
  - rewrite length_alter. apply (cmds_ok_at (agree_refl c _) (agree_insert c pl _) (agree_refl c ab)); [done|].
    rewrite lookup_insert_eq, Hx, Hab. rewrite Hab in Hcc. exact Hcc.
  - apply (lists_ok_keep (agree_refl c _) (agree_insert c pl (Cpu i, Finished)) (agree_refl c ab) (devs s)); [done|apply busy_lists|].
    intros d. rewrite lookup_insert_eq, Hc. unfold on_list. naive_solver.
  - intros j a Ha. rewrite length_alter. apply (calls_bh H c (cmds s) _ Hkn (agree_refl c _) (busy_frame (-1) (device x) None) j a Ha).
  - intros j k. rewrite busy_hlocks. setoid_rewrite busy_holds. apply Hh.
  - intros j k. rewrite busy_llocks. apply Hll.
  - apply (busy_ok_add (hosts s) (devs s) (accepted device (cmds s) pl) _ (device x) v); [done|done|done|]. intros P.
    rewrite (accepted_rem (agree_refl c _) (agree_insert c pl (Cpu i, Finished)) device) by now rewrite lookup_insert_eq, Hx.
    rewrite (count_delete P _ c (device x)) by now rewrite lookup_accepted, Hx, Hc. destruct (P (device x)); lia.
  - rewrite (accepted_rem (agree_refl c _) (agree_insert c pl (Cpu i, Finished)) vmkCmdPtr) by now rewrite lookup_insert_eq, Hx.
    set (L := accepted vmkCmdPtr (cmds s) pl) in *. assert (L !! c = Some r) as HLc by (unfold L; rewrite lookup_accepted, Hx, Hc; cbn; congruence).
    apply (requests_next (calls s) (cpus s) L _ (log s) rq _ _ _ _ r (PLive c) (PBh i)); try done.
    + intros ph r' Hne. destruct ph as [j|c'|j| |]; cbn [claim]; try done.
      * destruct (decide (c' = c)) as [->|Hnc]; [rewrite lookup_delete_eq; split; congruence|now rewrite lookup_delete_ne].
      * rewrite (bind_alter _ _ _ _ p) by done. case_decide; [|done]. subst. rewrite Hp. cbn. rewrite Eb. split; [congruence|done].
    + intros ph Hu. destruct ph as [j|c'|j| |]; cbn [claim] in *.
      * split; [intros E; now specialize (Hu E)|done].
      * destruct (decide (c' = c)) as [->|Hnc]; [now rewrite lookup_delete_eq|]. rewrite lookup_delete_ne by done.
        split; [intros E; specialize (Hu E); congruence|done].
      * rewrite (bind_alter _ _ _ _ p) by done. case_decide; [subst; done|]. split; [intros E; now specialize (Hu E)|congruence].
      * split; [intros E; now specialize (Hu E)|done].
      * split; [intros E; now specialize (Hu E)|done].
    + apply (rq_NoDup _ _ _ _ _ _ Hr).
    + auto.
  - intros j c' r'. rewrite (bind_alter _ _ _ _ p) by done. case_decide; [done|apply Hbn].
  - apply busy_hosts, Hs.
Qed.

(** It takes it off the list of its device. *)
Lemma inv_bh_put s pl ab rq i p c r st y x v :
  inv s pl ab rq -> cpus s !! i = Some p -> bh p = BhPut c r st y -> cmds s !! c = Some x -> devs s !! device x = Some v ->
  list_lock v = None ->
  inv (on_cpu i (set_bh (BhFree c r st y)) (on_dev (device x) (set_cmd_list (filter (fun c' => c' <> c) (cmd_list v))) s))
    (<[c := (Cpu i, Gone)]> pl) ab rq.
Proof.
  intros H Hp Eb Hx Hv Hlk. pose proof H as [Ho Hcm Hl Hb Hk Hh Hll Hbu Hr Hn Hbn Ht [Hs1 Hs2]].
  assert (pl !! c = Some (Cpu i, Finished)) as Hc.
  { apply (inv_token H); [done|]. destruct (tokens_bh s i p BhOff Hp) as [-> _]. unfold cpu_tokens. rewrite Eb. cbn. left. }
  assert (ab !! c = None) as Hab by now apply (inv_fresh_unaborted H c _ _ Hc).
  assert (known_by s None c) as Hkn by (apply (known_by_none H); congruence).
  pose proof (Hcm c) as Hcc. rewrite Hx, Hc in Hcc. cbn in Hcc.
  assert (relist None c (fun d => d = device x) (fun _ => False) (devs s)
    (alter (set_cmd_list (filter (fun c' => c' <> c) (cmd_list v))) (device x) (devs s))) as R
    by (apply (relist_rem _ c _ _ _ _ v); [done|congruence|done|tauto]).
  split; cbn [on_cpu on_dev cmds hosts devs cpus calls driver timers linuxSCSIIO_work reqs log]; try done.
  - apply (own_role s _ pl c Ho (Cpu i) Finished Gone ((fun c => (c, Cleared)) <$> (isrDoneCmds p ++ bhDoneCmds p))); [done|..].
    + destruct (tokens_bh s i p BhOff Hp) as [-> _]. unfold cpu_tokens. now rewrite Eb.
    + cbn. now rewrite list_lookup_alter_eq, Hp.
    + intros [j|j| | |] Hg; cbn; try done. now rewrite list_lookup_alter_ne by congruence.
  - rewrite length_alter. apply (cmds_ok_at (agree_refl c _) (agree_insert c pl _) (agree_refl c ab)); [done|].
    rewrite lookup_insert_eq, Hx, Hab. rewrite Hab in Hcc. exact Hcc.
  - apply (relist_lists R (cmds s) pl _ ab ab); auto; intros d; rewrite ?lookup_insert_eq, Hx, ?Hc, Hab; unfold on_list; naive_solver.
  - intros j a Ha. rewrite length_alter. apply (calls_bh H c (cmds s) _ Hkn (agree_refl c _) (relist_frame R) j a Ha).
  - intros j k. setoid_rewrite (relist_holds R). apply Hh.
  - intros j k. rewrite (relist_lock R). apply Hll.
  - rewrite (accepted_eq (agree_refl c _) (agree_insert c pl _)) by now rewrite lookup_insert_eq, Hx, Hc.
    apply (busy_ok_same (hosts s) (devs s)); [done|apply (relist_host R)|apply (relist_busy R)|done].
  - rewrite (accepted_eq (agree_refl c _) (agree_insert c pl _)) by now rewrite lookup_insert_eq, Hx, Hc.
    apply (requests_ok_ext (calls s) (cpus s) _ _ _ _ _ _ _ Hr); try done.
    intros j. rewrite (bind_alter _ _ _ _ p) by done. case_decide; [|done]. subst. rewrite Hp. cbn. now rewrite Eb.
  - intros j c' r'. rewrite (bind_alter _ _ _ _ p) by done. case_decide; [done|apply Hbn].
  - split; [done|]. now apply (relist_hosts R).
Qed.

(** It frees it. *)
Lemma inv_bh_free s pl ab rq i p c r st y hs o :
  inv s pl ab rq -> cpus s !! i = Some p -> bh p = BhFree c r st y -> received s c hs o ->
  inv (on_cpu i (set_bh (BhComplete r st y)) (Sys (delete c (cmds s)) hs (devs s) (cpus s) (calls s) (driver s) (timers s)
         (linuxSCSIIO_work s) (SCSILinuxSerialNumber s) (reqs s) (log s))) (partial_alter (fun _ => o) c pl) ab rq.
Proof.
  intros H Hp Eb R. pose proof H as [Ho Hcm Hl Hb Hk Hh Hll Hbu Hr Hn Hbn Ht Hs].
  assert (pl !! c = Some (Cpu i, Gone)) as Hc.
  { apply (inv_token H); [done|]. destruct (tokens_bh s i p BhOff Hp) as [-> _]. unfold cpu_tokens. rewrite Eb. cbn. left. }
  assert (known_by s None c) as Hkn by (apply (known_by_none H); [congruence|now apply (freed_unaborted H Hc)]).
  split; cbn [on_cpu cmds hosts devs cpus calls driver timers linuxSCSIIO_work reqs log]; try done.
  - apply (received_own s _ pl c hs o (Cpu i)); try done; cbn.
    + rewrite list_lookup_alter_eq, Hp. cbn. unfold cpu_tokens. now rewrite Eb.
    + intros [j|j| | |j] H1 H2; cbn; try done; [now rewrite list_lookup_alter_ne by congruence|now destruct (H2 j)].
  - exact (freed_cmds H Hc R).
  - exact (freed_lists H Hc).
  - apply (aborts_ok_mono _ (cmds s)); [done|]. intros c' Hc'. now apply (freed_device H Hc).
  - intros j a Ha. rewrite length_alter. apply (calls_bh H c _ (devs s) Hkn (agree_delete c _)) with j; [|done]. split; eauto.
  - intros j k. assert (host_locks hs j = host_locks (hosts s) j) as -> by exact (key_fmap _ (fun p => p.1.1) _ _ (received_keys s c hs o j R)).
    apply Hh.
  - exact (freed_busy H Hc R).
  - rewrite (freed_requests H Hc). apply (requests_ok_ext (calls s) (cpus s) _ _ _ _ _ _ _ Hr); try done.
    intros j. rewrite (bind_alter _ _ _ _ p) by done. case_decide; [|done]. subst. rewrite Hp. cbn. now rewrite Eb.
  - intros j c' r' E. pose proof (Hn j c' r' E) as E'. rewrite lookup_delete_ne; [done|]. intros <-.
    apply (knows_place H) in E. congruence.
  - intros j c' r'. rewrite (bind_alter _ _ _ _ p) by done. case_decide; [done|]. intros E. pose proof (Hbn j c' r' E) as E'.
    rewrite lookup_delete_ne; [done|]. intros <-. apply (bh_knows_place H) in E. congruence.
  - exact (freed_hosts H R).
Qed.

(** It tells the VMkernel. *)
Lemma inv_complete s pl ab rq i p r st y pc :
  inv s pl ab rq -> cpus s !! i = Some p -> bh p = BhComplete r st y -> bh_tokens pc = [] -> bh_request pc = None -> bh_knows pc = None ->
  inv (on_cpu i (set_bh pc) (add_log (Completed r st) s)) pl ab (<[r := PCompleted]> rq).
Proof.
  intros H Hp Eb Epc ER EK. pose proof H as [Ho Hcm Hl Hb Hk Hh Hll Hbu Hr Hn Hbn Ht Hs].
  assert (rq !! r = Some (PBh i)) as Hrq by (apply (rq_claim _ _ _ _ _ _ Hr); cbn; rewrite Hp; cbn; now rewrite Eb).
  assert (r ∉ completions (log s)) as Hnc.
  { intros E. assert (rq !! r = Some PCompleted); [|congruence]. now apply (rq_claim _ _ _ _ _ _ Hr). }
  assert (completions (log s ++ [Completed r st]) = completions (log s) ++ [r]) as Ec by (unfold completions; now rewrite omap_app).
  split; cbn [on_cpu add_log cmds hosts devs cpus calls driver timers linuxSCSIIO_work reqs log]; try done.
  - apply (own_ext s); [done|]. intros [j|j| | |j]; cbn; try done. destruct (decide (j = i)) as [->|Hne].
    + rewrite list_lookup_alter_eq, Hp. cbn. unfold cpu_tokens. cbn. now rewrite Epc, Eb.
    + now rewrite list_lookup_alter_ne by congruence.
  - intros j a Ha. rewrite length_alter. now apply (Hk j).
  - apply (requests_next (calls s) (cpus s) (accepted vmkCmdPtr (cmds s) pl) _ (log s) rq _ _ _ _ r (PBh i) PCompleted); try done.
    + intros ph r' Hne. destruct ph as [j|c'|j| |]; cbn [claim]; try done.
      * rewrite (bind_alter _ _ _ _ p) by done. case_decide; [|done]. subst. rewrite Hp. cbn. rewrite ER, Eb. split; [done|cbn; congruence].
      * rewrite Ec, elem_of_app, list_elem_of_singleton. tauto.
      * unfold refused. setoid_rewrite elem_of_app. setoid_rewrite list_elem_of_singleton. naive_solver.
    + intros ph Hu. destruct ph as [j|c'|j| |]; cbn [claim] in *.
      * split; [intros E; now specialize (Hu E)|done].
      * split; [intros E; now specialize (Hu E)|done].
      * rewrite (bind_alter _ _ _ _ p) by done. case_decide; [cbn; rewrite ER; done|]. split; [intros E; specialize (Hu E); congruence|done].
      * rewrite Ec, elem_of_app, list_elem_of_singleton. tauto.
      * unfold refused in *. setoid_rewrite elem_of_app. setoid_rewrite list_elem_of_singleton.
        split; [|done]. intros (st' & Hs' & [E|E]); [|done]. assert (PRefused = PBh i); [|done]. apply Hu. eauto.
    + rewrite Ec. apply NoDup_app. split; [apply (rq_NoDup _ _ _ _ _ _ Hr)|]. split; [|apply NoDup_singleton]. set_solver.
    + auto.
    + intros r'. rewrite elem_of_app, list_elem_of_singleton. naive_solver.
  - intros j c' r'. rewrite (bind_alter _ _ _ _ p) by done. case_decide; [cbn; congruence|apply Hbn].
Qed.
