(* ===== verification/ScsiRun.v ===== *)
(** Every step of [ScsiLife] is composed of the updates of [ScsiStep]: the invariant
    holds in every reachable state, and no step there is a fault. *)

From stdpp Require Import gmap.
From S2P Require Import Prelude ScsiCmd ScsiLife ScsiInv ScsiStep.
Local Open Scope Z_scope.

Definition invariant (s : sys) : Prop := exists pl ab rq, inv s pl ab rq.

(** A step of the caller [k] is no fault and keeps the invariant. *)
Definition sound_call (k : nat) (o : outcome (sys * call)) : Prop :=
  match o with Go (s', a') => invariant (set_call k a' s') | Wait => True | Bug => False end.

(** ** Small updates *)

Lemma inv_log s pl ab rq e : inv s pl ab rq ->
  match e with Returned r st => st = VMK_OK /\ taken (rq !! r) | Completed _ _ => False | Aborted _ _ => True end ->
  inv (add_log e s) pl ab rq.
Proof.
  intros [Ho Hcm Hl Hb Hk Hh Hll Hbu Hr Hn Hbn Ht Hs] He. split; try done.
  - apply (own_ext s); [done|]. now intros [].
  - now apply requests_ok_log.
Qed.

Lemma inv_serial s pl ab rq n : inv s pl ab rq -> inv (set_serial n s) pl ab rq.
Proof. intros [Ho Hcm Hl Hb Hk Hh Hll Hbu Hr Hn Hbn Ht Hs]. split; try done. apply (own_ext s); [done|]. now intros []. Qed.

Lemma inv_host s pl ab rq h f : inv s pl ab rq -> (forall x, hkey (f x) = hkey x /\ host_lock (f x) = host_lock x) ->
  inv (on_host h f s) pl ab rq.
Proof.
  intros H Hf. assert (forall i, hkey <$> hosts (on_host h f s) !! i = hkey <$> hosts s !! i) as EH.
  { intros i. cbn. destruct (decide (i = h)) as [->|Hne]; [|now rewrite list_lookup_alter_ne].
    rewrite list_lookup_alter_eq. destruct (hosts s !! h) as [x|]; [|done]. cbn. now destruct (Hf x) as [-> _]. }
  apply (inv_update s); try done; try apply H.
  - intros j k. cbn. assert (host_locks (alter f h (hosts s)) j = host_locks (hosts s) j) as ->; [|apply H].
    unfold host_locks. destruct (decide (j = h)) as [->|Hne]; [|now rewrite list_lookup_alter_ne].
    rewrite list_lookup_alter_eq. destruct (hosts s !! h) as [x|]; [|done]. cbn. now destruct (Hf x) as [_ ->].
Qed.

Lemma alter_dkeys (ds : list scsi_device) d f i : (forall v, dkey (f v) = dkey v) -> dkey <$> alter f d ds !! i = dkey <$> ds !! i.
Proof.
  intros Hf. destruct (decide (i = d)) as [->|Hne]; [|now rewrite list_lookup_alter_ne].
  rewrite list_lookup_alter_eq. destruct (ds !! d) as [v|]; [|done]. cbn. now rewrite Hf.
Qed.

Lemma alter_hkeys (hs : list Scsi_Host) h f i : (forall x, hkey (f x) = hkey x) -> hkey <$> alter f h hs !! i = hkey <$> hs !! i.
Proof.
  intros Hf. destruct (decide (i = h)) as [->|Hne]; [|now rewrite list_lookup_alter_ne].
  rewrite list_lookup_alter_eq. destruct (hs !! h) as [x|]; [|done]. cbn. now rewrite Hf.
Qed.

Lemma inv_device s pl ab rq d f : inv s pl ab rq -> (forall v, dkey (f v) = dkey v /\ list_lock (f v) = list_lock v) ->
  inv (on_dev d f s) pl ab rq.
Proof.
  intros H Hf. assert (forall i, dkey <$> alter f d (devs s) !! i = dkey <$> devs s !! i) as ED by (intros i; apply alter_dkeys; apply Hf).
  assert (forall i, host <$> alter f d (devs s) !! i = host <$> devs s !! i) as EH by (intros i; exact (key_fmap dkey (fun p => p.1.1) _ _ (ED i))).
  apply (inv_update s); try done; try apply H.
  - intros j a Ha. cbn. apply (call_ok_mono (devs s) _ _ (cmds s)); [now apply (i_calls _ _ _ _ H j)|apply length_alter|done|].
    intros d' rest sel _ v' Hv'. destruct (dkey_lookup _ _ _ _ (ED d') Hv') as (v & Hv & _ & _ & E). now exists v.
  - intros j k. cbn. assert (forall a, holds_host (alter f d (devs s)) a = holds_host (devs s) a) as E.
    { intros a. destruct a as [|r d' pc| | | | | | | | | | |]; try done. cbn. now rewrite EH. }
    setoid_rewrite E. apply H.
  - intros j k. cbn. assert (list_locks (alter f d (devs s)) j = list_locks (devs s) j) as ->; [|apply H].
    unfold list_locks. destruct (decide (j = d)) as [->|Hne]; [|now rewrite list_lookup_alter_ne].
    rewrite list_lookup_alter_eq. destruct (devs s !! d) as [v|]; [|done]. cbn. now destruct (Hf v) as [_ ->].
Qed.

(** A caller takes or releases the lock of a list, or of a host. *)
Lemma inv_list_lock s pl ab rq k a a' d v l :
  inv s pl ab rq -> calls s !! k = Some a -> devs s !! d = Some v ->
  (l = Some k /\ list_lock v = None /\ holds_list a = None /\ holds_list a' = Some d \/
   l = None /\ holds_list a = Some d /\ holds_list a' = None) ->
  call_tokens a' = call_tokens a -> alist a' = alist a -> (alist a = [] \/ adev a' = adev a) ->
  call_ok (alter (set_list_lock l) d (devs s)) (length (cpus s)) (cmds s) a' ->
  holds_host (devs s) a' = holds_host (devs s) a ->
  new_request a' = new_request a -> (open_request a' = None \/ open_request a' = open_request a) -> knows a' = None ->
  inv (set_call k a' (on_dev d (set_list_lock l) s)) pl ab rq.
Proof.
  intros H Ha Hv Hl Et El Ed Hok Eh EN EO EK.
  apply (inv_caller s pl ab rq k a a' (hosts s) (alter (set_list_lock l) d (devs s))); try done; [| | |congruence].
  - intros i. now apply alter_dkeys.
  - intros i. left. split; [done|]. now rewrite Eh.
  - intros i. unfold list_locks, lock_change. destruct (decide (i = d)) as [->|Hne].
    + rewrite list_lookup_alter_eq, Hv. cbn. destruct Hl as [(-> & -> & _ & E2)|(-> & E1 & E2)]; [now right; left|].
      right. right. rewrite E1, E2. split; [done|]. split; [eauto|done].
    + rewrite list_lookup_alter_ne by done. left. split; [done|]. destruct Hl as [(_ & _ & -> & ->)|(_ & -> & ->)]; split; congruence.
Qed.

Lemma inv_host_lock s pl ab rq k a a' h y l :
  inv s pl ab rq -> calls s !! k = Some a -> hosts s !! h = Some y ->
  (l = Some k /\ host_lock y = None /\ holds_host (devs s) a = None /\ holds_host (devs s) a' = Some h \/
   l = None /\ holds_host (devs s) a = Some h /\ holds_host (devs s) a' = None) ->
  call_tokens a' = call_tokens a -> alist a' = alist a -> (alist a = [] \/ adev a' = adev a) ->
  call_ok (devs s) (length (cpus s)) (cmds s) a' -> holds_list a' = holds_list a ->
  new_request a' = new_request a -> (open_request a' = None \/ open_request a' = open_request a) -> knows a' = None ->
  inv (set_call k a' (on_host h (set_host_lock l) s)) pl ab rq.
Proof.
  intros H Ha Hy Hl Et El Ed Hok Eh EN EO EK.
  apply (inv_caller s pl ab rq k a a' (alter (set_host_lock l) h (hosts s)) (devs s)); try done; [| | |congruence].
  - intros i. now apply alter_hkeys.
  - intros i. unfold host_locks, lock_change. destruct (decide (i = h)) as [->|Hne].
    + rewrite list_lookup_alter_eq, Hy. cbn. destruct Hl as [(-> & -> & _ & E2)|(-> & E1 & E2)]; [now right; left|].
      right. right. rewrite E1, E2. split; [done|]. split; [eauto|done].
    + rewrite list_lookup_alter_ne by done. left. split; [done|]. destruct Hl as [(_ & _ & -> & ->)|(_ & -> & ->)]; split; congruence.
  - intros i. left. split; [done|]. now rewrite Eh.
Qed.

Lemma set_call_twice k a a' s : set_call k a' (set_call k a s) = set_call k a' s.
Proof. unfold set_call. cbn. now rewrite list_insert_insert_eq. Qed.

Lemma lookup_call k a s b : calls s !! k = Some b -> calls (set_call k a s) !! k = Some a.
Proof. intros Hb. cbn. rewrite list_lookup_insert_eq; [done|]. now apply lookup_lt_Some in Hb. Qed.

Lemma on_dev_eq d f g s v : devs s !! d = Some v -> f v = g v -> on_dev d f s = on_dev d g s.
Proof.
  intros Hv E. unfold on_dev. assert (alter f d (devs s) = alter g d (devs s)) as ->; [|done]. apply list_eq. intros i. destruct (decide (i = d)) as [->|Hne].
  - rewrite !list_lookup_alter_eq, Hv. cbn. now rewrite E.
  - now rewrite !list_lookup_alter_ne.
Qed.

Lemma set_cmd_id c x s : cmds s !! c = Some x -> set_cmd c x s = s.
Proof. intros Hx. unfold set_cmd, set_cmds. rewrite insert_id by done. now destruct s. Qed.

(** ** What a caller needs is there *)

Section there.
Context {s : sys} {pl : places} {ab : gmap nat nat} {rq : gmap nat phase} (H : inv s pl ab rq).

Lemma dev_there d : (d < length (devs s))%nat -> exists v y, devs s !! d = Some v /\ hosts s !! host v = Some y /\
  fc_ioTimeout y && eh_abort_handler y = false.
Proof using H.
  intros Hd. destruct (lookup_lt_is_Some_2 _ _ Hd) as [v Hv]. destruct (i_hosts _ _ _ _ H) as [H1 H2].
  destruct (lookup_lt_is_Some_2 _ _ (H2 d v Hv)) as [y Hy]. exists v, y. split; [done|]. split; [done|].
  rewrite no_timeouts_lookup in H1. now apply (H1 (host v)).
Qed.

Lemma token_there k a c ro : calls s !! k = Some a -> (c, ro) ∈ call_tokens a -> ro <> Free ->
  exists x, cmds s !! c = Some x /\ flags_ok ro x /\ test_flag VMK_FLAGS_DELAY_CMDDONE x = bool_decide (is_Some (ab !! c))
    /\ (device x < length (devs s))%nat /\ pl !! c = Some (Caller k, ro).
Proof using H.
  intros Ha Hc Hf. pose proof (inv_call_token H k a c ro Ha Hc) as Hp. destruct (inv_place H c _ _ Hp Hf) as (x & ? & ? & ? & ?). now exists x.
Qed.

Lemma bh_token_there i p c ro : cpus s !! i = Some p -> (c, ro) ∈ cpu_tokens p -> ro <> Free ->
  exists x, cmds s !! c = Some x /\ flags_ok ro x /\ (device x < length (devs s))%nat /\ pl !! c = Some (Cpu i, ro).
Proof using H.
  intros Hp Hc Hf. assert (pl !! c = Some (Cpu i, ro)) as Hpl by (apply (inv_token H); [done|cbn; now rewrite Hp]).
  destruct (inv_place H c _ _ Hpl Hf) as (x & ? & ? & ? & ?). now exists x.
Qed.

(** The command of a caller that queues one is for its device. *)
Lemma queue_device k r d pc c ro x : calls s !! k = Some (Queue r d pc) -> (c, ro) ∈ queue_tokens pc -> ro <> Owned -> cmds s !! c = Some x -> device x = d.
Proof using H.
  intros Ha Hc Hro Hx. destruct (i_calls _ _ _ _ H k _ Ha) as (_ & Hd & _). specialize (Hd c ro Hc Hro). unfold device_of in Hd.
  rewrite Hx in Hd. now injection Hd.
Qed.

Lemma reqs_there k r d pc : calls s !! k = Some (Queue r d pc) -> before_accept pc = true -> exists q, reqs s !! r = Some q.
Proof using H.
  intros Ha Hb. apply lookup_lt_is_Some_2, (rq_all _ _ _ _ _ _ (i_reqs _ _ _ _ H)). exists (PNew k).
  apply (rq_claim _ _ _ _ _ _ (i_reqs _ _ _ _ H)). cbn. rewrite Ha. cbn. now rewrite Hb.
Qed.

Lemma open_taken k a r : calls s !! k = Some a -> open_request a = Some r -> taken (rq !! r).
Proof using H. intros Ha Hr. apply (rq_open _ _ _ _ _ _ (i_reqs _ _ _ _ H) k). now rewrite Ha. Qed.

Lemma list_holder k a d : calls s !! k = Some a -> holds_list a = Some d -> (d < length (devs s))%nat ->
  exists v, devs s !! d = Some v /\ list_lock v = Some k.
Proof using H.
  intros Ha Hd Hn. destruct (lookup_lt_is_Some_2 _ _ Hn) as [v Hv]. exists v. split; [done|].
  assert (list_locks (devs s) d = Some (Some k)) as E; [|unfold list_locks in E; rewrite Hv in E; now injection E].
  apply (i_llock _ _ _ _ H). split; [unfold list_locks; rewrite Hv; eauto|]. now exists a.
Qed.
End there.

(** ** Queueing *)

Section queue.
Context {s : sys} {pl : places} {ab : gmap nat nat} {rq : gmap nat phase} (H : inv s pl ab rq).
Context {k r d : nat} {e : env} {v : scsi_device} {hst : Scsi_Host}.
Context (Hv : devs s !! d = Some v) (Hh : hosts s !! host v = Some hst).

Lemma d_there : (d < length (devs s))%nat.
Proof using Hv. now apply lookup_lt_Some in Hv. Qed.

(** Between its steps a caller may be anywhere with the command in its role. *)
Lemma queue_goto pc pc' :
  calls s !! k = Some (Queue r d pc) -> queue_tokens pc' = queue_tokens pc -> before_accept pc' = before_accept pc ->
  holds_host (devs s) (Queue r d pc') = holds_host (devs s) (Queue r d pc) ->
  (match pc' with
   | QTimeoutRead _ | QTimeoutWrite _ _ | QTimeoutArm _ => False
   | QPut _ st | QFree _ st => st <> VMK_OK
   | _ => True end) ->
  (forall c r', knows (Queue r d pc') = Some (c, r') -> vmkCmdPtr <$> cmds s !! c = Some r') ->
  invariant (set_call k (Queue r d pc') s).
Proof using H Hv.
  intros Ha Et Eb Eh Hok Hk. exists pl, ab, rq. destruct (i_calls _ _ _ _ H k _ Ha) as (Hd & Hdev & _).
  apply (inv_goto s pl ab rq k (Queue r d pc)); try done; [now left|..|].
  - cbn. rewrite Et. done.
  - cbn. now rewrite Eb.
  - right. cbn. now rewrite Eb.
Qed.

Lemma refuse_sound st : calls s !! k = Some (Queue r d QGet) -> st <> VMK_OK -> sound_call k (Go (add_log (Returned r st) s, Idle)).
Proof using H. intros Ha Hst. do 3 eexists. now apply (inv_refuse s pl ab rq k r d st). Qed.

Lemma get_sound : calls s !! k = Some (Queue r d QGet) -> ok_env e (Queue r d QGet) s ->
  sound_call k (SCSILinuxQueueCommand k e r d QGet s).
Proof using H Hv Hh.
  intros Ha (_ & Hsl & _). unfold SCSILinuxQueueCommand. rewrite Hv. cbn. rewrite Hh. cbn. unfold __scsi_get_command. rewrite Hh. cbn.
  destruct (slab e) as [[c x]|] eqn:Es; cbn.
  - destruct (Hsl c x eq_refl) as [Hc Hf]. destruct (absent_place s pl ab rq c H Hc Hf) as [Hp Hab].
    do 3 eexists. apply (inv_get s pl ab rq k r d c (set_device d (vmklnx_clear_scmd x)) (hosts s)); try done. split; [done|]. split; [done|]. now left.
  - destruct (free_list hst) as [|[c x] l] eqn:Ef; cbn; [now apply refuse_sound|].
    destruct (free_place s pl ab rq c _ _ _ _ H Hh Ef) as (Hp & Hc & Hab).
    do 3 eexists. apply (inv_get s pl ab rq k r d c (set_device d (vmklnx_clear_scmd x)) (alter (set_free_list l) (host v) (hosts s))); try done.
    split; [done|]. split; [done|]. right. exists (host v), hst, x, l. done.
Qed.

Lemma list_sound c : calls s !! k = Some (Queue r d (QList c)) -> sound_call k (SCSILinuxQueueCommand k e r d (QList c) s).
Proof using H Hv Hh.
  intros Ha. unfold SCSILinuxQueueCommand. rewrite Hv. cbn. rewrite Hh. cbn. unfold scsi_get_command_list. rewrite Hv. cbn.
  destruct (list_lock v) eqn:El; cbn; [done|]. destruct (token_there H k _ c New Ha) as (x & Hx & Hf & Hdl & _ & Hc); [cbn; set_solver|done|].
  assert (ab !! c = None) as Hab by now apply (inv_fresh_unaborted H c _ _ Hc).
  assert (device x = d) as Hxd by (apply (queue_device H k r d (QList c) c New); [done|cbn; set_solver|done|done]).
  exists (<[c := (Caller k, Fresh)]> pl), ab, rq. rewrite <-(set_cmd_id c x s Hx) at 1.
  apply (inv_role s pl ab rq k (Queue r d (QList c)) (Queue r d (QPrepare c)) c New Fresh x x); try done.
  - rewrite Hab in Hdl. exact Hdl.
  - now left.
  - cbn. rewrite length_alter. split; [apply d_there|]. split; [|done]. intros c' ro E _. assert (c' = c) as -> by set_solver.
    unfold device_of. rewrite lookup_insert_eq. cbn. congruence.
  - now right.
  - apply (relist_add _ c _ _ _ _ v); [done|congruence|naive_solver|naive_solver].
Qed.

Lemma prepare_same b al q x x' t o sn : SCSILinuxComputeSGArray b al q x = Some x' ->
  vmkflags (prepare_scmd t o r q sn x') = vmkflags x /\ device (prepare_scmd t o r q sn x') = device x /\ vmkCmdPtr (prepare_scmd t o r q sn x') = r.
Proof using Type.
  intros E. cbn. unfold SCSILinuxComputeSGArray in E. destruct (sg_lengths q); [injection E as <-; done|].
  destruct b; [injection E as <-; done|]. destruct al; [injection E as <-; done|done].
Qed.

Lemma prepare_sound c : calls s !! k = Some (Queue r d (QPrepare c)) -> sound_call k (SCSILinuxQueueCommand k e r d (QPrepare c) s).
Proof using H Hv Hh.
  intros Ha. unfold SCSILinuxQueueCommand. rewrite Hv. cbn. rewrite Hh. cbn -[SCSILinuxComputeSGArray SCSILinuxGetSerialNumber].
  destruct (token_there H k _ c Fresh Ha) as (x & Hx & Hf & Hdl & _ & Hc); [cbn; set_solver|done|].
  destruct (reqs_there H k r d _ Ha eq_refl) as [q Hq]. rewrite Hx. cbn -[SCSILinuxComputeSGArray SCSILinuxGetSerialNumber].
  rewrite Hq. cbn -[SCSILinuxComputeSGArray SCSILinuxGetSerialNumber].
  destruct (SCSILinuxComputeSGArray _ _ q x) as [x1|] eqn:Esg; [|now apply (queue_goto (QPrepare c))].
  destruct (SCSILinuxGetSerialNumber _) as [sn n]. cbv zeta.
  destruct (prepare_same _ _ _ _ _ (tagged_supported v) (optical v) sn Esg) as (E1 & E2 & E3).
  set (x2 := prepare_scmd _ _ _ _ _ _) in *.
  assert (forall x3 pc', vmkflags x3 = vmkflags x2 -> device x3 = device x2 -> vmkCmdPtr x3 = r -> (pc' = QBusy c \/ pc' = QLock c) ->
    sound_call k (Go (set_cmd c x3 (set_serial n s), Queue r d pc'))) as Hgo.
  { intros x3 pc' F1 F2 F3 Hpc. assert (inv (set_cmd c x3 (set_serial n s)) pl ab rq) as H'.
    { apply (inv_content _ pl ab rq c x x3 (Caller k) Fresh); [now apply inv_serial|done|done|congruence|congruence|]. right. split; [done|]. split.
      - intros j r' E. pose proof (knows_place H j c r' E) as E'. rewrite Hc in E'. injection E' as <-. cbn in E. rewrite Ha in E. done.
      - intros i r' E. pose proof (bh_knows_place H i c r' E). congruence. }
    exists pl, ab, rq. destruct (i_calls _ _ _ _ H' k _ Ha) as (Hd & Hdev & _).
    apply (inv_goto _ pl ab rq k (Queue r d (QPrepare c))); try done; destruct Hpc as [->| ->]; try done; try (now left).
    - cbn. intros c' r' [= <- <-]. rewrite lookup_insert_eq. cbn. congruence.
    - cbn. intros c' r' [= <- <-]. rewrite lookup_insert_eq. cbn. congruence. }
  case_match; [apply Hgo; auto|]. case_decide; apply Hgo; auto.
Qed.

Lemma fresh_needs x : flags_ok Fresh x -> flags_ok Owned (set_flag VMK_FLAGS_NEED_CMDDONE x) /\
  test_flag VMK_FLAGS_DELAY_CMDDONE (set_flag VMK_FLAGS_NEED_CMDDONE x) = false.
Proof using Type. unfold flags_ok. intros Hf. autorewrite with scsi_flags. intuition congruence. Qed.

Lemma accepted_sound a c x x' a' :
  calls s !! k = Some a -> accepting a r d c -> cmds s !! c = Some x -> flags_ok Fresh x ->
  vmkflags x' = vmkflags (set_flag VMK_FLAGS_NEED_CMDDONE x) -> device x' = device x -> vmkCmdPtr x' = vmkCmdPtr x ->
  (cpu e < length (cpus s))%nat -> (a' = Done c (cpu e) DoneEnter (ToQueue r) \/ a' = Queue r d (QCheck c)) ->
  exists pl' rq', inv (set_call k a' (set_cmd c x' (add_busy (host v) d 1 s))) pl' ab rq' /\ pl' !! c = Some (Caller k, Owned).
Proof using H Hv Hh.
  intros Ha Hacc Hx Hf Ef Ed Ep Hcpu Ha'. destruct (fresh_needs x Hf) as [Hf1 Hf2].
  assert (forall f, test_flag f x' = test_flag f (set_flag VMK_FLAGS_NEED_CMDDONE x)) as Et by (intros f; unfold test_flag; now rewrite Ef).
  exists (<[c := (Caller k, Owned)]> pl), (<[r := PLive c]> rq). split; [|apply lookup_insert_eq].
  apply (inv_accept s pl ab rq k r d c x x' v a a'); try done.
  - unfold flags_ok in *. now rewrite !Et.
  - now rewrite Et.
  - destruct Ha' as [->| ->]; done.
  - destruct Ha' as [->| ->]; done.
  - destruct Ha' as [->| ->]; done.
  - destruct Ha' as [->| ->]; done.
  - destruct Ha' as [->| ->]; done.
  - destruct Ha' as [->| ->]; done.
  - destruct Ha' as [->| ->]; done.
  - destruct Ha' as [->| ->]; cbn; [done|]. rewrite length_alter. split; [apply d_there|]. split; [|done].
    intros c' ro E Hro. exfalso. apply Hro. set_solver.
Qed.

Lemma busy_sound c : calls s !! k = Some (Queue r d (QBusy c)) -> (cpu e < length (cpus s))%nat ->
  sound_call k (SCSILinuxQueueCommand k e r d (QBusy c) s).
Proof using H Hv Hh.
  intros Ha Hcpu. unfold SCSILinuxQueueCommand. rewrite Hv. cbn. rewrite Hh. cbn.
  destruct (host_lock hst); cbn; [done|]. destruct (token_there H k _ c Fresh Ha) as (x & Hx & Hf & _); [cbn; set_solver|done|].
  rewrite Hx. cbn. destruct (accepted_sound _ c x (set_flag VMK_FLAGS_NEED_CMDDONE x) (Done c (cpu e) DoneEnter (ToQueue r)) Ha)
    as (pl' & rq' & Hi & _); try done; [now left|now left|]. now exists pl', ab, rq'.
Qed.

Lemma lock_sound c : calls s !! k = Some (Queue r d (QLock c)) -> (cpu e < length (cpus s))%nat ->
  sound_call k (SCSILinuxQueueCommand k e r d (QLock c) s).
Proof using H Hv Hh.
  intros Ha Hcpu. unfold SCSILinuxQueueCommand. rewrite Hv. cbn. rewrite Hh. cbn -[would_block].
  destruct (host_lock hst) eqn:Elk; cbn -[would_block]; [done|].
  destruct (would_block hst v); [now apply (queue_goto (QLock c))|].
  destruct (token_there H k _ c Fresh Ha) as (x & Hx & Hf & _); [cbn; set_solver|done|]. rewrite Hx. cbn.
  case_decide as Dst.
  - destruct (accepted_sound _ c x (set_result (did DID_NO_CONNECT SAM_STAT_GOOD) (set_flag VMK_FLAGS_NEED_CMDDONE x))
      (Done c (cpu e) DoneEnter (ToQueue r)) Ha) as (pl' & rq' & Hi & _); try done; [now right|now left|]. now exists pl', ab, rq'.
  - destruct (accepted_sound _ c x (set_flag VMK_FLAGS_NEED_CMDDONE x) (Queue r d (QCheck c)) Ha) as (pl' & rq' & Hi & Hc);
      try done; [now right|now right|].
    destruct (dev_there H d d_there) as (v' & y & Hv' & Hy & Hno). rewrite Hv in Hv'. injection Hv' as <-. rewrite Hh in Hy. injection Hy as <-.
    rewrite Hno. exists pl', ab, rq'. set (s1 := set_call _ _ _) in Hi.
    assert (calls s1 !! k = Some (Queue r d (QCheck c))) as Ha1 by now apply (lookup_call k _ _ (Queue r d (QLock c))).
    pose proof (inv_host_lock s1 pl' ab rq' k _ (Queue r d (QCall c)) (host v) (add_host_busy 1 hst) (Some k) Hi Ha1) as Hi2.
    unfold s1 in Hi2. rewrite <-(set_call_twice k (Queue r d (QCheck c))). apply Hi2; clear Hi2; try done.
    + cbn. now rewrite list_lookup_alter_eq, Hh.
    + left. cbn. rewrite list_lookup_alter_eq, Hv. cbn. done.
    + now left.
    + destruct (i_calls _ _ _ _ Hi k _ Ha1) as (Hd & Hdev & _). cbn. done.
    + now right.
Qed.

Lemma call_sound c : calls s !! k = Some (Queue r d (QCall c)) -> sound_call k (SCSILinuxQueueCommand k e r d (QCall c) s).
Proof using H Hv Hh.
  intros Ha. unfold SCSILinuxQueueCommand. rewrite Hv. cbn. rewrite Hh. cbn.
  destruct (token_there H k _ c Owned Ha) as (x & Hx & _); [cbn; set_solver|done|]. rewrite Hx. cbn.
  do 3 eexists. now apply (inv_give s pl ab rq k r d c).
Qed.

Lemma calling_sound c : calls s !! k = Some (Queue r d (QCalling c)) -> ok_env e (Queue r d (QCalling c)) s ->
  sound_call k (SCSILinuxQueueCommand k e r d (QCalling c) s).
Proof using H Hv Hh.
  intros Ha (_ & _ & Hdr). unfold SCSILinuxQueueCommand. rewrite Hv. cbn. rewrite Hh. cbn.
  destruct (i_calls _ _ _ _ H k _ Ha) as (Hd & Hdev & _).
  assert (holds_host (devs s) (Queue r d (QCalling c)) = Some (host v)) as Eh by (cbn; now rewrite Hv).
  destruct (drv_ok e) eqn:Ed.
  - exists pl, ab, rq. assert (inv (add_log (Returned r VMK_OK) s) pl ab rq) as H1.
    { apply inv_log; [done|]. split; [done|]. now apply (open_taken H k (Queue r d (QCalling c))). }
    apply (inv_host_lock _ pl ab rq k (Queue r d (QCalling c)) Idle (host v) hst None H1 Ha Hh); try done; [|now left|now left].
    right. split; [done|]. split; [exact Eh|done].
  - specialize (Hdr r d c eq_refl eq_refl). exists (<[c := (Caller k, Owned)]> pl), ab, rq.
    assert (inv (set_call k (Queue r d (QCall c)) (set_driver (driver s ∖ {[c]}) s)) (<[c := (Caller k, Owned)]> pl) ab rq) as H1.
    { apply (inv_taken s pl ab rq k (Queue r d (QCalling c))); try done; [now left| |now right]. cbn. split; [done|]. split; [|done].
      intros c' ro E Hro. exfalso. apply Hro. set_solver. }
    set (s1 := set_call _ _ _) in H1.
    assert (calls s1 !! k = Some (Queue r d (QCall c))) as Ha1 by now apply (lookup_call k _ _ (Queue r d (QCalling c))).
    pose proof (inv_host_lock s1 _ ab rq k _ (Queue r d (QFailed c)) (host v) hst None H1 Ha1 Hh) as H2.
    unfold s1 in H2. rewrite <-(set_call_twice k (Queue r d (QCall c))). apply H2; clear H2; try done.
    + right. split; [done|]. split; [|done]. cbn. now rewrite Hv.
    + now left.
    + cbn. split; [done|]. split; [|done]. intros c' ro E Hro. exfalso. apply Hro. set_solver.
    + now right.
Qed.

Lemma failed_sound c : calls s !! k = Some (Queue r d (QFailed c)) -> sound_call k (SCSILinuxQueueCommand k e r d (QFailed c) s).
Proof using H Hv Hh.
  intros Ha. unfold SCSILinuxQueueCommand. rewrite Hv. cbn. rewrite Hh. cbn.
  destruct (token_there H k _ c Owned Ha) as (x & Hx & Hf & _ & _ & Hc); [cbn; set_solver|done|]. rewrite Hx. cbn.
  destruct Hf as (-> & _). cbn. rewrite Hx. cbn.
  assert (inv (set_cmd c (set_result (did DID_OK SAM_STAT_BUSY) x) s) pl ab rq) as H1
    by (apply (inv_content s pl ab rq c x _ (Caller k) Owned); try done; now left).
  exists pl, ab, rq. destruct (i_calls _ _ _ _ H1 k _ Ha) as (Hd & Hdev & _).
  apply (inv_goto _ pl ab rq k (Queue r d (QFailed c)) (Queue r d (QCheck c)) H1 Ha); try done; [now left|now right].
Qed.

Lemma queue_check_sound c : calls s !! k = Some (Queue r d (QCheck c)) -> (cpu e < length (cpus s))%nat ->
  sound_call k (SCSILinuxQueueCommand k e r d (QCheck c) s).
Proof using H Hv Hh.
  intros Ha Hcpu. unfold SCSILinuxQueueCommand. rewrite Hv. cbn. rewrite Hh. cbn.
  destruct (token_there H k _ c Owned Ha) as (x & Hx & Hf & _); [cbn; set_solver|done|]. rewrite Hx. cbn.
  destruct Hf as (_ & _ & _ & -> & _). exists pl, ab, rq.
  apply (inv_goto _ pl ab rq k (Queue r d (QCheck c)) _ H Ha); try done; [now left|now right].
Qed.

(** scsi_put_command. *)
Lemma put_sound c st : calls s !! k = Some (Queue r d (QPut c st)) -> sound_call k (SCSILinuxQueueCommand k e r d (QPut c st) s).
Proof using H Hv Hh.
  intros Ha. unfold SCSILinuxQueueCommand. rewrite Hv. cbn. rewrite Hh. cbn. unfold scsi_put_command_list.
  destruct (token_there H k _ c Fresh Ha) as (x & Hx & Hf & Hdl & _ & Hc); [cbn; set_solver|done|]. rewrite Hx. cbn.
  assert (device x = d) as Hxd by (apply (queue_device H k r d (QPut c st) c Fresh); [done|cbn; set_solver|done|done]).
  rewrite Hxd, Hv. cbn. destruct (list_lock v) eqn:El; cbn; [done|].
  assert (ab !! c = None) as Hab by now apply (inv_fresh_unaborted H c _ _ Hc).
  rewrite bool_decide_true by (apply (i_lists _ _ _ _ H d v Hv); exists x, (Caller k), Fresh; done). cbn.
  exists (<[c := (Caller k, Gone)]> pl), ab, rq. rewrite <-(set_cmd_id c x s Hx) at 1.
  destruct (i_calls _ _ _ _ H k _ Ha) as (Hd & Hdev & Hst).
  apply (inv_role s pl ab rq k (Queue r d (QPut c st)) (Queue r d (QFree c st)) c Fresh Gone x x); try done.
  - unfold flags_ok in *. tauto.
  - rewrite Hab in Hdl. exact Hdl.
  - now left.
  - cbn. rewrite length_alter. split; [done|]. split; [|done]. intros c' ro E _. assert (c' = c) as -> by set_solver.
    unfold device_of. rewrite lookup_insert_eq. cbn. congruence.
  - now left.
  - apply (relist_rem _ c _ _ _ _ v); [done|congruence|naive_solver|naive_solver].
Qed.

Lemma free_sound c st : calls s !! k = Some (Queue r d (QFree c st)) -> sound_call k (SCSILinuxQueueCommand k e r d (QFree c st) s).
Proof using H Hv Hh.
  intros Ha. unfold SCSILinuxQueueCommand. rewrite Hv. cbn. rewrite Hh. cbn. unfold scsi_put_command_free.
  destruct (token_there H k _ c Gone Ha) as (x & Hx & _); [cbn; set_solver|done|]. rewrite Hx. cbn.
  assert (device x = d) as Hxd by (apply (queue_device H k r d (QFree c st) c Gone); [done|cbn; set_solver|done|done]).
  rewrite Hxd, Hv. cbn. rewrite Hh. cbn. destruct (i_calls _ _ _ _ H k _ Ha) as (_ & _ & Hst).
  assert (forall hs o, received s c hs o -> sound_call k (Go (add_log (Returned r st)
    (Sys (delete c (cmds s)) hs (devs s) (cpus s) (calls s) (driver s) (timers s) (linuxSCSIIO_work s) (SCSILinuxSerialNumber s) (reqs s) (log s)), Idle)))
    as Hgo.
  { intros hs o R. pose proof (inv_put_call s pl ab rq k r d c st hs o H Ha R) as H1.
    match type of H1 with inv ?x _ _ _ => set (s1 := x) in H1 end.
    assert (calls s1 !! k = Some (Queue r d QGet)) as Ha1 by (cbn; apply list_lookup_insert_eq; now apply lookup_lt_Some in Ha).
    pose proof (inv_refuse s1 _ ab rq k r d st H1 Ha1 Hst) as H2. do 3 eexists. unfold s1 in H2.
    unfold set_call, add_log in H2. cbn in H2. rewrite list_insert_insert_eq in H2. exact H2. }
  destruct (free_list hst) eqn:Ef.
  - apply (Hgo _ (Some (Reserve (host v), Free))). right. exists (host v), hst, (free_sgArray x). done.
  - apply (Hgo _ None). now left.
Qed.
End queue.

(** ** Completing *)

Definition ret_call (q : cont) : call := match q with ToAbort d rest sel retval => Finish d rest sel retval | _ => Idle end.
Definition ret_log (q : cont) (s : sys) : sys := match q with ToQueue r => add_log (Returned r VMK_OK) s | _ => s end.

Lemma return_eq q s : return_from_done q s = (ret_log q s, ret_call q).
Proof. now destruct q. Qed.

Section done.
Context {s : sys} {pl : places} {ab : gmap nat nat} {rq : gmap nat phase} (H : inv s pl ab rq).
Context {k c i : nat} {q : cont}.

Lemma log_returned pc : calls s !! k = Some (Done c i pc q) -> inv (ret_log q s) pl ab rq.
Proof using H.
  intros Ha. destruct q; try done. apply inv_log; [done|]. split; [done|]. now apply (open_taken H k (Done c i pc (ToQueue r))).
Qed.

(** What SCSILinuxCmdDone returns to is as far as it was. *)
Lemma return_ok pc m : calls s !! k = Some (Done c i pc q) -> (forall c', grows (cmds s) m c') ->
  call_ok (devs s) (length (cpus s)) m (ret_call q).
Proof using H.
  intros Ha Hg. destruct (i_calls _ _ _ _ H k _ Ha) as (_ & _ & Hq). destruct q; try done. destruct Hq as [Hd Hat]. cbn. split; [done|].
  now apply (all_attempted_mono (cmds s)).
Qed.

Lemma return_same pc : calls s !! k = Some (Done c i pc q) ->
  alist (ret_call q) = alist (Done c i pc q) /\ adev (ret_call q) = adev (Done c i pc q) /\
  holds_host (devs s) (ret_call q) = holds_host (devs s) (Done c i pc q) /\ holds_list (ret_call q) = holds_list (Done c i pc q) /\
  new_request (ret_call q) = new_request (Done c i pc q) /\ open_request (ret_call q) = None /\ knows (ret_call q) = None /\
  call_tokens (ret_call q) = [].
Proof using Type. intros _. now destruct q. Qed.

Lemma enter_sound : calls s !! k = Some (Done c i DoneEnter q) -> sound_call k (SCSILinuxCmdDone c i DoneEnter q s).
Proof using H.
  intros Ha. assert (cont_role q = Owned \/ cont_role q = Retry) as Hro by (destruct q; auto).
  destruct (token_there H k _ c (cont_role q) Ha) as (x & Hx & Hf & Hdl & _ & Hc); [cbn; set_solver|now destruct q|].
  unfold SCSILinuxCmdDone. rewrite Hx. cbn [get mbind outcome_bind].
  assert (test_flag VMK_FLAGS_IO_TIMEOUT x = false) as -> by apply Hf.
  unfold SCSILinuxCmdDone_decide. rewrite Hx. cbn [get mbind outcome_bind].
  assert (test_flag VMK_FLAGS_TMF_REQUEST x = false) as -> by apply Hf.
  assert (test_flag VMK_FLAGS_NEED_CMDDONE x = true) as -> by (unfold flags_ok in Hf; destruct Hro as [E|E]; rewrite E in Hf; tauto).
  destruct (return_same DoneEnter Ha) as (E1 & E2 & E3 & E4 & E5 & E6 & E7 & E8). cbn [negb].
  destruct (test_flag VMK_FLAGS_DELAY_CMDDONE x) eqn:Ed.
  - rewrite return_eq. destruct (ab !! c) as [j|] eqn:Hab; [|done].
    assert (cont_role q = Owned) as Er by (destruct Hro as [E|E]; [done|]; unfold flags_ok in Hf; rewrite E in Hf; intuition congruence).
    exists (<[c := (Parking, Parked)]> pl), ab, rq.
    assert (inv (set_call k (ret_call q) (set_cmd c (set_flag VMK_FLAGS_CMDDONE_ATTEMPTED x) (ret_log q s)))
      (<[c := (Parking, Parked)]> pl) ab rq) as H1; [|destruct q; exact H1].
    pose proof (log_returned DoneEnter Ha) as H0.
    apply (inv_park _ pl ab rq k (Done c i DoneEnter q) _ c x j H0); try done; try (now destruct q); [now right|now left].
  - assert (ab !! c = None) as Hab by (destruct (ab !! c); [done|done]).
    destruct (i_calls _ _ _ _ H k _ Ha) as (Hi & _ & Hq).
    exists (<[c := (Caller k, Cleared)]> pl), ab, rq.
    apply (inv_role s pl ab rq k (Done c i DoneEnter q) (Done c i DoneSchedule q) c (cont_role q) Cleared x
      (clear_flag VMK_FLAGS_NEED_CMDDONE x) (devs s)); try done.
    + unfold flags_ok in *. autorewrite with scsi_flags. destruct (cont_role q); intuition congruence.
    + now autorewrite with scsi_flags.
    + now destruct q.
    + now right.
    + cbn. split; [done|]. split; [done|]. destruct q; try done. destruct Hq as [Hd Hat]. split; [done|].
      apply (all_attempted_mono (cmds s)); [done|]. intros c' _. apply (flag_grows Hx); [done|]. now autorewrite with scsi_flags.
    + now right.
    + apply relist_refl. intros d. destruct Hro as [->| ->]; done.
Qed.

Lemma schedule_sound : calls s !! k = Some (Done c i DoneSchedule q) -> sound_call k (SCSILinuxCmdDone c i DoneSchedule q s).
Proof using H.
  intros Ha. destruct (token_there H k _ c Cleared Ha) as (x & Hx & Hf & _ & _ & Hc); [cbn; set_solver|done|].
  destruct (i_calls _ _ _ _ H k _ Ha) as (Hi & _ & Hq). destruct (lookup_lt_is_Some_2 _ _ Hi) as [p Hp].
  unfold SCSILinuxCmdDone. rewrite Hx. cbn [get mbind outcome_bind]. rewrite Hp. cbn [get mbind outcome_bind]. rewrite return_eq.
  set (x' := check_underflow (set_serial_number 0 x)).
  assert (vmkflags x' = vmkflags x /\ device x' = device x /\ vmkCmdPtr x' = vmkCmdPtr x) as (F1 & F2 & F3)
    by (unfold x', check_underflow; repeat case_match; done).
  pose proof (log_returned DoneSchedule Ha) as H0.
  assert (inv (set_cmd c x' (ret_log q s)) pl ab rq) as H1.
  { apply (inv_content _ pl ab rq c x x' (Caller k) Cleared H0); try done; [now destruct q|now left]. }
  destruct (return_same DoneSchedule Ha) as (E1 & E2 & E3 & E4 & E5 & E6 & E7 & E8).
  exists (<[c := (Cpu i, Cleared)]> pl), ab, rq.
  assert (inv (set_call k (ret_call q) (on_cpu i (SCSILinuxScheduleCompletion c) (set_cmd c x' (ret_log q s)))) (<[c := (Cpu i, Cleared)]> pl) ab rq)
    as H2; [|destruct q; exact H2].
  apply (inv_scheduled _ pl ab rq k (Done c i DoneSchedule q) _ c i p H1); try done; try (now destruct q); [now right| |now left].
  assert (call_ok (devs s) (length (cpus s)) (<[c := x']> (cmds s)) (ret_call q)) as Hok; [|destruct q; exact Hok].
  apply (return_ok DoneSchedule); [done|]. intros c'. apply (flag_grows Hx); [done|]. unfold test_flag. now rewrite F1.
Qed.
End done.

Lemma done_sound s pl ab rq k c i pc q : inv s pl ab rq -> calls s !! k = Some (Done c i pc q) -> sound_call k (SCSILinuxCmdDone c i pc q s).
Proof.
  intros H Ha. destruct pc; [now apply (enter_sound H)| | |now apply (schedule_sound H)]; exfalso;
    now destruct (i_calls _ _ _ _ H k _ Ha) as (_ & [] & _).
Qed.

(** ** Aborting *)

Section abort.
Context {s : sys} {pl : places} {ab : gmap nat nat} {rq : gmap nat phase} (H : inv s pl ab rq).
Context {k : nat} {e : env}.

Lemma abort_goto a a' :
  calls s !! k = Some a -> call_tokens a' = [] -> call_tokens a = [] -> alist a' = alist a -> (alist a = [] \/ adev a' = adev a) ->
  call_ok (devs s) (length (cpus s)) (cmds s) a' -> holds_host (devs s) a' = holds_host (devs s) a -> holds_list a' = holds_list a ->
  new_request a' = new_request a -> open_request a' = None -> knows a' = None -> invariant (set_call k a' s).
Proof using H.
  intros Ha E1 E2 E3 E4 E5 E6 E7 E8 E9 E10. exists pl, ab, rq. apply (inv_goto s pl ab rq k a); try done; [congruence|now left|congruence].
Qed.

Lemma abort_lock_sound d : calls s !! k = Some (AbortLock d) -> sound_call k (call_step k e (AbortLock d) s).
Proof using H.
  intros Ha. pose proof (i_calls _ _ _ _ H k _ Ha) as Hd. cbn in Hd. destruct (lookup_lt_is_Some_2 _ _ Hd) as [v Hv].
  cbn. rewrite Hv. cbn. destruct (list_lock v) eqn:El; cbn; [done|]. exists pl, ab, rq.
  apply (inv_list_lock s pl ab rq k _ _ d v _ H Ha Hv); try done; [now left|now left| |now left].
  cbn. rewrite length_alter. split; [done|]. split; [apply (i_lists _ _ _ _ H d v Hv)|]. intros v' c Hv' Hc.
  rewrite list_lookup_alter_eq, Hv in Hv'. now injection Hv' as <-.
Qed.

Lemma select_sound d c rest sel : calls s !! k = Some (Select d (c :: rest) sel) -> sound_call k (abort_select d c rest sel e s).
Proof using H.
  intros Ha. destruct (i_calls _ _ _ _ H k _ Ha) as (Hd & HN & Hin).
  destruct (list_holder H k _ d Ha eq_refl Hd) as (v & Hv & Hlk).
  assert (c ∈ cmd_list v) as Hcl by (apply (Hin v c Hv); left).
  apply (i_lists _ _ _ _ H d v Hv) in Hcl as (x & g & ro & Hx & _). unfold abort_select. rewrite Hx. cbn [get mbind outcome_bind].
  destruct (test_flag VMK_FLAGS_NEED_CMDDONE x) eqn:E1; cbn [andb].
  2: { apply (abort_goto _ _ Ha); try done; [now right|]. cbn. apply NoDup_cons in HN as [_ HN]. split; [done|]. split; [done|].
       intros v' c' Hv' Hc'. apply (Hin v' c' Hv'). now right. }
  destruct (negb (test_flag VMK_FLAGS_CMDDONE_ATTEMPTED x) && query e && negb (test_flag VMK_FLAGS_DELAY_CMDDONE x)) eqn:E2; cbn [andb].
  - rewrite !andb_true_iff, !negb_true_iff in E2. destruct E2 as [[E2 _] _].
    rewrite (on_dev_eq d _ (set_cmd_list (filter (fun c' => c' <> c) (cmd_list v))) _ v); [|done|done].
    do 3 eexists. now apply (inv_select s pl ab rq k d c rest sel x v).
  - apply (abort_goto _ _ Ha); try done; [now right|]. cbn. apply NoDup_cons in HN as [_ HN]. split; [done|]. split; [done|].
    intros v' c' Hv' Hc'. apply (Hin v' c' Hv'). now right.
Qed.

Lemma selected_sound d sel : calls s !! k = Some (Select d [] sel) -> sound_call k (call_step k e (Select d [] sel) s).
Proof using H.
  intros Ha. destruct (i_calls _ _ _ _ H k _ Ha) as (Hd & _). destruct (list_holder H k _ d Ha eq_refl Hd) as (v & Hv & Hlk).
  cbn. exists pl, ab, rq. apply (inv_list_lock s pl ab rq k _ _ d v None H Ha Hv); try done; [now right|now right| |now left].
  cbn. rewrite length_alter. split; [done|]. exists []. split; [done|]. intros _ c Hc. set_solver.
Qed.

Lemma loop_sound d todo sel retval : calls s !! k = Some (AbortLoop d todo sel retval) -> sound_call k (call_step k e (AbortLoop d todo sel retval) s).
Proof using H.
  intros Ha. destruct (i_calls _ _ _ _ H k _ Ha) as (Hd & Hpr). destruct todo as [|c todo]; cbn.
  - destruct (lookup_lt_is_Some_2 _ _ Hd) as [v Hv]. rewrite Hv. cbn. destruct (list_lock v) eqn:El; cbn; [done|]. exists pl, ab, rq.
    apply (inv_list_lock s pl ab rq k _ _ d v _ H Ha Hv); try done; [now left|now right| |now left].
    cbn. rewrite length_alter. split; [done|]. destruct Hpr as (past & -> & Hat). now rewrite app_nil_r.
  - apply (abort_goto _ _ Ha); try done. now right.
Qed.

Lemma ctx_there x c : (exists a, calls s !! k = Some a /\ alist a = ctx_list x) -> ctx_ok (cmds s) (length (devs s)) x c ->
  exists y, cmds s !! c = Some y /\ (device y < length (devs s))%nat /\ test_flag VMK_FLAGS_INTERNAL_COMMAND y = false.
Proof using H.
  intros (a & Ha & El) Hx. destruct x as [d todo sel retval|]; [|done]. destruct Hx as (_ & past & -> & _).
  assert (ab !! c = Some k) as Hab.
  { apply (aborts_call _ _ _ (i_aborts _ _ _ _ H) k a Ha). rewrite El. cbn. apply elem_of_app. right. left. }
  destruct (inv_aborted H c k Hab) as (y & g & ro & Hy & _ & _ & Hf & Hd). exists y. split; [done|]. split; [done|]. apply Hf.
Qed.

Lemma try_sound x c : calls s !! k = Some (AbortTry x c) -> sound_call k (call_step k e (AbortTry x c) s).
Proof using H.
  intros Ha. pose proof (i_calls _ _ _ _ H k _ Ha) as Hok. destruct (ctx_there x c) as (y & Hy & Hd & _); [now exists (AbortTry x c)|done|].
  cbn. unfold SCSILinuxTryAbortCommand. rewrite Hy. cbn. destruct (dev_there H _ Hd) as (v & z & -> & Hz & _). cbn. rewrite Hz. cbn.
  destruct (negb (eh_abort_handler z)); [|destruct (serial_number y =? 0)]; cbn; apply (abort_goto _ _ Ha); try done; now right.
Qed.

Lemma handler_sound x c : calls s !! k = Some (AbortHandler x c) -> sound_call k (call_step k e (AbortHandler x c) s).
Proof using H.
  intros Ha. pose proof (i_calls _ _ _ _ H k _ Ha) as Hok. destruct (ctx_there x c) as (y & Hy & Hd & _); [now exists (AbortHandler x c)|done|].
  cbn. rewrite Hy. cbn. apply (abort_goto _ _ Ha); try done. now right.
Qed.

Lemma status_sound x c b : calls s !! k = Some (AbortStatus x c b) -> sound_call k (call_step k e (AbortStatus x c b) s).
Proof using H.
  intros Ha. pose proof (i_calls _ _ _ _ H k _ Ha) as Hok. destruct (ctx_there x c) as (y & Hy & Hd & Hni); [now exists (AbortStatus x c b)|done|].
  cbn. unfold SCSILinuxAbortCommand_status. rewrite Hy. cbn. rewrite Hni, andb_false_r. cbn.
  destruct x as [d todo sel retval|]; [|done]. cbn in Hok. destruct Hok as (Hdd & past & -> & Hat).
  apply (abort_goto _ _ Ha); try done; [now right|]. cbn. split; [done|]. exists (past ++ [c]). split; [now rewrite <-app_assoc|].
  destruct (test_flag VMK_FLAGS_CMDDONE_ATTEMPTED y) eqn:Eat.
  - rewrite decide_False by done. intros Hr c' Hc'. apply elem_of_app in Hc' as [Hc'|Hc']; [now apply Hat|].
    apply list_elem_of_singleton in Hc' as ->. now exists y.
  - rewrite decide_True by done. by intros [].
Qed.

Lemma finish_sound d c rest sel retval : calls s !! k = Some (Finish d (c :: rest) sel retval) -> (cpu e < length (cpus s))%nat ->
  sound_call k (abort_finish d c rest sel retval e s).
Proof using H.
  intros Ha Hcpu. destruct (i_calls _ _ _ _ H k _ Ha) as (Hd & _). destruct (list_holder H k _ d Ha eq_refl Hd) as (v & Hv & _).
  assert (ab !! c = Some k) as Hab by (apply (aborts_call _ _ _ (i_aborts _ _ _ _ H) k _ Ha); left).
  destruct (inv_aborted H c k Hab) as (x & _ & _ & Hx & _). unfold abort_finish. rewrite Hx. cbn [get mbind outcome_bind].
  rewrite (on_dev_eq d _ (set_cmd_list (cmd_list v ++ [c])) _ v) by done. autorewrite with scsi_flags.
  edestruct (inv_finish s pl ab rq k d c rest sel retval x v (cpu e)) as (pl' & Hi); try done. now exists pl', (delete c ab), rq.
Qed.

Lemma finished_sound d sel retval : calls s !! k = Some (Finish d [] sel retval) -> sound_call k (call_step k e (Finish d [] sel retval) s).
Proof using H.
  intros Ha. destruct (i_calls _ _ _ _ H k _ Ha) as (Hd & _). destruct (list_holder H k _ d Ha eq_refl Hd) as (v & Hv & Hlk).
  cbn. exists pl, ab, rq. assert (inv (add_log (Aborted sel retval) s) pl ab rq) as H1 by now apply inv_log.
  apply (inv_list_lock _ pl ab rq k _ Idle d v None H1 Ha Hv); try done; [now right|now left|now left].
Qed.
End abort.

(** ** Every step *)

Lemma call_sound_all s k e a : invariant s -> calls s !! k = Some a -> ok_env e a s -> sound_call k (call_step k e a s).
Proof.
  intros (pl & ab & rq & H) Ha Hok. pose proof (proj1 Hok) as Hcpu.
  destruct a as [|r d pc|c i pc q|d|d [|c rest] sel|d todo sel retval|x c|x c|x c b|d [|c rest] sel retval|c|c|c]; [done| | | | | | | | | | | | | |].
  - destruct (i_calls _ _ _ _ H k _ Ha) as (Hd & _ & Hpc). destruct (dev_there H d Hd) as (v & y & Hv & Hy & _). cbn [call_step].
    destruct pc; try done; [by apply (get_sound H Hv Hy)|by apply (list_sound H Hv Hy)|by apply (prepare_sound H Hv Hy)|by apply (busy_sound H Hv Hy)
      |by apply (lock_sound H Hv Hy)|by apply (call_sound H Hv Hy)|by apply (calling_sound H Hv Hy)|by apply (failed_sound H Hv Hy)|by apply (queue_check_sound H Hv Hy)
      |by apply (put_sound H Hv Hy)|by apply (free_sound H Hv Hy)].
  - now apply (done_sound s pl ab rq).
  - now apply (abort_lock_sound H).
  - now apply (selected_sound H).
  - now apply (select_sound H).
  - now apply (loop_sound H).
  - now apply (try_sound H).
  - now apply (handler_sound H).
  - now apply (status_sound H).
  - now apply (finished_sound H).
  - now apply (finish_sound H).
  - now apply (i_calls _ _ _ _ H k) in Ha.
  - now apply (i_calls _ _ _ _ H k) in Ha.
  - now apply (i_calls _ _ _ _ H k) in Ha.
Qed.

(** A request is made. *)
Lemma inv_request s pl ab rq k d v : inv s pl ab rq -> calls s !! k = Some Idle -> (d < length (devs s))%nat ->
  inv (set_call k (Queue (length (reqs s)) d QGet) (add_req v s)) pl ab (<[length (reqs s) := PNew k]> rq).
Proof.
  intros H Ha Hd. pose proof H as [Ho Hcm Hl Hb Hk Hh Hll Hbu Hr Hn Hbn Ht Hs]. set (r := length (reqs s)) in *.
  assert (k < length (calls s))%nat as Lk by now apply lookup_lt_Some in Ha.
  assert (rq !! r = None) as Hrq.
  { destruct (rq !! r) as [ph|] eqn:E; [|done]. assert (is_Some (rq !! r)) as E' by eauto. apply (rq_all _ _ _ _ _ _ Hr) in E'. unfold r in E'. lia. }
  split; cbn [set_call add_req cmds hosts devs cpus calls driver timers linuxSCSIIO_work reqs log]; try done.
  - apply (own_ext s); [done|]. intros [j| | | |]; cbn; try done. destruct (decide (j = k)) as [->|Hne].
    + now rewrite list_lookup_insert_eq, Ha by done.
    + now rewrite list_lookup_insert_ne by congruence.
  - apply (aborts_ok_same (calls s) (cmds s) _ _ k Idle); try done. now left.
  - intros j b Hj. apply list_lookup_insert_Some in Hj as [(_ & <- & _)|(_ & Hj)]; [|now apply (Hk j)].
    cbn. split; [done|]. split; [|done]. intros c ro E. set_solver.
  - apply (lock_ok_step (holds_host (devs s)) _ (calls s) (host_locks (hosts s)) _ k Idle); try done. intros i. now left.
  - apply (lock_ok_step holds_list _ (calls s) (list_locks (devs s)) _ k Idle); try done. intros i. now left.
  - assert (forall ph, claim (calls s) (cpus s) (accepted vmkCmdPtr (cmds s) pl) (log s) ph r -> False) as Hu
      by (intros ph E; apply (rq_claim _ _ _ _ _ _ Hr) in E; congruence).
    apply (requests_ok_move (calls s) (cpus s) (accepted vmkCmdPtr (cmds s) pl) (length (reqs s)) (log s) rq _ _ _ _ _ r (Some (PNew k))); try done.
    + intros ph r'. assert (forall b : Prop, (claim (calls s) (cpus s) (accepted vmkCmdPtr (cmds s) pl) (log s) ph r' <->
        (r' <> r /\ claim (calls s) (cpus s) (accepted vmkCmdPtr (cmds s) pl) (log s) ph r') \/ r' = r /\ False)) as Hsame.
      { intros _. split; [|tauto]. intros E. left. split; [|done]. intros ->. now apply (Hu ph). }
      destruct ph as [j|c|i| |]; cbn [claim] in *; try (rewrite (Hsame True); intuition congruence).
      rewrite (bind_insert _ _ k Idle) by done. case_decide as D; [|rewrite (Hsame True); intuition congruence]. subst j. cbn.
      rewrite Ha. cbn. intuition congruence.
    + apply (rq_NoDup _ _ _ _ _ _ Hr).
    + now rewrite Hrq.
    + intros j r'. rewrite (bind_insert _ _ k Idle) by done. case_decide; [done|]. now left.
    + intros r'. rewrite length_app. cbn. destruct (decide (r' = r)) as [->|Hne].
      * rewrite lookup_partial_alter_eq. unfold r. split; [lia|eauto].
      * rewrite lookup_partial_alter_ne by done. rewrite (rq_all _ _ _ _ _ _ Hr r'). unfold r in Hne. lia.
  - intros j c r'. rewrite (bind_insert _ _ k Idle) by done. case_decide; [done|apply Hn].
Qed.

Lemma begin_sound s k q e : invariant s -> calls s !! k = Some Idle -> may q s -> (cpu e < length (cpus s))%nat -> sound_call k (begin q e s).
Proof.
  intros (pl & ab & rq & H) Ha Hm Hcpu. destruct q as [v d|d|c res n sense|c|]; cbn in Hm |- *.
  - do 3 eexists. now apply (inv_request s pl ab rq).
  - exists pl, ab, rq. apply (inv_goto s pl ab rq k Idle); try done; now left.
  - assert (pl !! c = Some (Driver, Owned)) as Hc.
    { apply (inv_token H); [done|]. cbn. apply list_elem_of_fmap. exists c. split; [done|]. now apply elem_of_elements. }
    destruct (inv_place H c _ _ Hc) as (x & Hx & _); [done|]. rewrite Hx. cbn.
    assert (inv (set_cmd c (set_answer res n sense x) s) pl ab rq) as H1
      by (apply (inv_content s pl ab rq c x _ Driver Owned); try done; now left).
    do 3 eexists. apply (inv_taken _ pl ab rq k Idle (Done c (cpu e) DoneEnter ToDriver) c H1); try done; now left.
  - destruct (i_timers _ _ _ _ H) as [E _]. rewrite E in Hm. set_solver.
  - destruct (i_timers _ _ _ _ H) as [_ ->]. done.
Qed.

Definition sound_bh (o : outcome sys) : Prop := match o with Go s' => invariant s' | Wait => True | Bug => False end.

Lemma tokens_shift (a b : list nat) : ((fun c => (c, Cleared)) <$> (a ++ b)) ≡ₚ ((fun c => (c, Cleared)) <$> (b ++ a)).
Proof. now rewrite (Permutation_app_comm a b). Qed.

Lemma on_cpu_twice i f g s : on_cpu i f (on_cpu i g s) = on_cpu i (fun p => f (g p)) s.
Proof.
  unfold on_cpu. cbn. f_equal. apply list_eq. intros j. destruct (decide (j = i)) as [->|Hne].
  - rewrite !list_lookup_alter_eq. now destruct (cpus s !! i).
  - now rewrite !list_lookup_alter_ne.
Qed.

Section bottom.
Context {slice : Z} {s : sys} {pl : places} {ab : gmap nat nat} {rq : gmap nat phase} (H : inv s pl ab rq).
Context {i : nat} {e : env} {p : scsiLinuxTLS} (Hp : cpus s !! i = Some p).

Lemma bh_goto f : cpu_tokens (f p) ≡ₚ cpu_tokens p -> bh_request (bh (f p)) = bh_request (bh p) ->
  (forall c r, bh_knows (bh (f p)) = Some (c, r) -> vmkCmdPtr <$> cmds s !! c = Some r) -> sound_bh (Go (on_cpu i f s)).
Proof using H Hp. intros. exists pl, ab, rq. now apply (inv_bottom s pl ab rq i p). Qed.

Lemma loop_bh_sound now yield : bh p = BhLoop now yield -> sound_bh (SCSILinuxBH slice i e s).
Proof using H Hp.
  intros Eb. unfold SCSILinuxBH. rewrite Hp. cbn [get mbind outcome_bind]. rewrite Eb. destruct (bhDoneCmds p) as [|c l] eqn:El.
  - destruct (isrDoneCmds p) as [|c l] eqn:Ei.
    + apply bh_goto; cbn; rewrite ?Eb; try done. unfold cpu_tokens. cbn. now rewrite Eb, Ei, El.
    + destruct (yield <? now); (apply bh_goto; cbn; rewrite ?Eb; try done); unfold cpu_tokens; cbn; rewrite ?Eb, Ei, El; cbn; now rewrite ?app_nil_r.
  - destruct (now <? yield).
    + destruct (bh_token_there H i p c Cleared Hp) as (x & Hx & Hf & _); [|done|].
      { unfold cpu_tokens. rewrite El. apply elem_of_app. right. apply list_elem_of_fmap. exists c. split; [done|]. set_solver. }
      rewrite Hx. cbn [get mbind outcome_bind]. assert (test_flag VMK_FLAGS_INTERNAL_COMMAND x = false) as -> by apply Hf.
      rewrite on_cpu_twice. apply bh_goto.
      * unfold cpu_tokens. cbn. rewrite Eb, El. cbn. rewrite !fmap_app. cbn. solve_Permutation.
      * cbn. now rewrite Eb.
      * cbn. intros c' r [= <- <-]. now rewrite Hx.
    + destruct (yield <? now); [|destruct (isrDoneCmds p) as [|c1 l1] eqn:Ei]; (apply bh_goto; cbn; rewrite ?Eb; try done);
        unfold cpu_tokens; cbn; rewrite ?Eb, ?Ei, El; cbn; done.
Qed.

Lemma busy_bh_sound c r st y : bh p = BhBusy c r st y -> sound_bh (SCSILinuxBH slice i e s).
Proof using H Hp.
  intros Eb. unfold SCSILinuxBH. rewrite Hp. cbn [get mbind outcome_bind]. rewrite Eb.
  destruct (bh_token_there H i p c Cleared Hp) as (x & Hx & Hf & Hd & _); [unfold cpu_tokens; rewrite Eb; left|done|].
  rewrite Hx. cbn [get mbind outcome_bind]. destruct (dev_there H _ Hd) as (v & z & Hv & Hz & _). rewrite Hv. cbn [get mbind outcome_bind].
  rewrite Hz. cbn [get mbind outcome_bind]. destruct (host_lock z); cbn [unlocked mbind outcome_bind]; [done|].
  do 3 eexists. now apply (inv_uncount s pl ab rq i p c r st y x v).
Qed.

Lemma put_bh_sound c r st y : bh p = BhPut c r st y -> sound_bh (SCSILinuxBH slice i e s).
Proof using H Hp.
  intros Eb. unfold SCSILinuxBH. rewrite Hp. cbn [get mbind outcome_bind]. rewrite Eb. unfold scsi_put_command_list.
  destruct (bh_token_there H i p c Finished Hp) as (x & Hx & Hf & Hd & Hc); [unfold cpu_tokens; rewrite Eb; left|done|].
  rewrite Hx. cbn [get mbind outcome_bind]. destruct (dev_there H _ Hd) as (v & z & Hv & Hz & _). rewrite Hv. cbn [get mbind outcome_bind].
  destruct (list_lock v) eqn:Elk; cbn [unlocked mbind outcome_bind]; [done|].
  assert (ab !! c = None) as Hab by now apply (inv_fresh_unaborted H c _ _ Hc).
  rewrite bool_decide_true by (apply (i_lists _ _ _ _ H _ v Hv); exists x, (Cpu i), Finished; done). cbn.
  do 3 eexists. now apply (inv_bh_put s pl ab rq i p c r st y x v).
Qed.

Lemma free_bh_sound c r st y : bh p = BhFree c r st y -> sound_bh (SCSILinuxBH slice i e s).
Proof using H Hp.
  intros Eb. unfold SCSILinuxBH. rewrite Hp. cbn [get mbind outcome_bind]. rewrite Eb. unfold scsi_put_command_free.
  destruct (bh_token_there H i p c Gone Hp) as (x & Hx & Hf & Hd & Hc); [unfold cpu_tokens; rewrite Eb; left|done|].
  rewrite Hx. cbn [get mbind outcome_bind]. destruct (dev_there H _ Hd) as (v & z & Hv & Hz & _). rewrite Hv. cbn [get mbind outcome_bind].
  rewrite Hz. cbn [get mbind outcome_bind]. destruct (free_list z) eqn:Ef; cbn [mbind outcome_bind].
  - do 3 eexists. apply (inv_bh_free s pl ab rq i p c r st y _ (Some (Reserve (host v), Free)) H Hp Eb).
    right. exists (host v), z, (free_sgArray x). done.
  - do 3 eexists. apply (inv_bh_free s pl ab rq i p c r st y _ None H Hp Eb). now left.
Qed.

Lemma bh_sound : sound_bh (SCSILinuxBH slice i e s).
Proof using H Hp.
  destruct (bh p) as [|now yield|c r st y|c r st y|c r st y|r st y] eqn:Eb;
    [|now apply (loop_bh_sound now yield)|now apply (busy_bh_sound c r st y)|now apply (put_bh_sound c r st y)|now apply (free_bh_sound c r st y)|];
    unfold SCSILinuxBH; rewrite Hp; cbn [get mbind outcome_bind]; rewrite Eb.
  - destruct (scheduled p); [|done]. apply bh_goto; cbn; rewrite ?Eb; try done. unfold cpu_tokens. cbn. now rewrite Eb.
  - do 3 eexists. now apply (inv_complete s pl ab rq i p r st y).
Qed.
End bottom.
