(* ===== verification/ScsiSpec.v ===== *)
(** What [ScsiLife] promises: no fault, every request completed at most once and
    none that was refused; and when the drivers have completed their commands and
    nobody can go on, every request has been completed or refused, and nothing is
    left. *)

From stdpp Require Import gmap.
From S2P Require Import Prelude ScsiCmd ScsiLife ScsiInv ScsiStep ScsiRun.
Local Open Scope Z_scope.

(** ** The system when it starts *)

Definition reserves (hs : list Scsi_Host) : list (nat * (agent * role)) :=
  mjoin (imap (fun h x => (fun p => (fst p, (Reserve h, Free))) <$> free_list x) hs).

Lemma elem_of_reserves hs c g ro : (c, (g, ro)) ∈ reserves hs <->
  exists h x p, hs !! h = Some x /\ p ∈ free_list x /\ c = fst p /\ g = Reserve h /\ ro = Free.
Proof.
  unfold reserves. rewrite list_elem_of_join. setoid_rewrite elem_of_lookup_imap. split.
  - intros (l & Hc & h & x & -> & Hx). apply list_elem_of_fmap in Hc as (p & [= -> -> ->] & Hp). now exists h, x, p.
  - intros (h & x & p & Hx & Hp & -> & -> & ->). eexists. split; [|now exists h, x]. apply list_elem_of_fmap. now exists p.
Qed.

Lemma reserves_keys hs : (reserves hs).*1 = hs ≫= fun h => (free_list h).*1.
Proof.
  unfold reserves. enough (forall f, (forall h x, (f h x : list (nat * (agent * role))).*1 = (free_list x).*1) ->
    (mjoin (imap f hs)).*1 = hs ≫= fun h => (free_list h).*1) as E.
  { apply E. intros h x. rewrite <-list_fmap_compose. apply list_fmap_ext. now intros i [? ?]. }
  induction hs as [|x hs IH]; intros f Hf; [done|]. cbn. rewrite fmap_app, Hf. f_equal. apply IH. intros h y. apply Hf.
Qed.

Lemma NoDup_bind_at {A B} (f : A -> list B) l i x : NoDup (l ≫= f) -> l !! i = Some x -> NoDup (f x).
Proof.
  intros HN Hx. rewrite <-(take_drop_middle l i x Hx), bind_app in HN. apply NoDup_app in HN as (_ & _ & HN).
  cbn in HN. now apply NoDup_app in HN as (HN & _).
Qed.

Lemma lookup_init_call n k a : replicate n Idle !! k = Some a -> a = Idle.
Proof. intros E. now apply lookup_replicate in E as [-> _]. Qed.

Lemma init_tokens hs ds n m g : match g with Reserve _ => True | _ => tokens (init hs ds n m) g = [] end.
Proof.
  destruct g as [k|i| | |h]; try done; cbn.
  - destruct (replicate n Idle !! k) as [a|] eqn:E; [|done]. now apply lookup_init_call in E as ->.
  - destruct (replicate m init_cpu !! i) as [p|] eqn:E; [|done]. now apply lookup_replicate in E as [-> _].
Qed.

Lemma init_own hs ds n m : NoDup (hs ≫= fun h => (free_list h).*1) -> own (init hs ds n m) (list_to_map (reserves hs)).
Proof.
  intros HN. assert (NoDup (reserves hs).*1) as HN' by now rewrite reserves_keys.
  assert (forall c v, (list_to_map (reserves hs) : places) !! c = Some v <-> (c, v) ∈ reserves hs) as EL
    by (intros c v; symmetry; now apply elem_of_list_to_map).
  split.
  - intros g c ro Hg. rewrite EL, elem_of_reserves. pose proof (init_tokens hs ds n m g) as E.
    destruct g as [k|i| | |h]; try (rewrite E); try done; try (split; [set_solver|intros (? & ? & ? & _ & _ & _ & ? & _); done]).
    cbn. destruct (hs !! h) as [x|] eqn:Hx; cbn.
    + unfold free_tokens. rewrite list_elem_of_fmap. split.
      * intros (p & [= -> ->] & Hp). now exists h, x, p.
      * intros (h' & x' & p & Hx' & Hp & -> & [= <-] & ->). rewrite Hx in Hx'. injection Hx' as <-. now exists p.
    + split; [set_solver|]. intros (h' & x' & p & Hx' & _ & _ & [= <-] & _). congruence.
  - intros g. pose proof (init_tokens hs ds n m g) as E. destruct g as [k|i| | |h]; try (rewrite E); try constructor.
    cbn. destruct (hs !! h) as [x|] eqn:Hx; [|constructor]. cbn. unfold free_tokens. rewrite <-list_fmap_compose.
    pose proof (NoDup_bind_at _ _ _ _ HN Hx) as Hd. erewrite list_fmap_ext; [exact Hd|]. now intros i [? ?].
  - intros c ro E. apply EL, elem_of_reserves in E as (? & ? & ? & _ & _ & _ & ? & _). done.
Qed.

Lemma accepted_empty f pl : accepted f ∅ pl = ∅.
Proof. apply map_eq. intros c. now rewrite lookup_accepted, !lookup_empty. Qed.

Lemma scsi_init_inv hs ds n m : registered hs ds -> no_timeouts hs -> inv (init hs ds n m) (list_to_map (reserves hs)) ∅ ∅.
Proof.
  intros [Hh HN Hd] Ht. pose proof (init_own hs ds n m HN) as Ho.
  assert (forall k a, replicate n Idle !! k = Some a -> a = Idle) as HI by (intros k a; apply lookup_init_call).
  assert (forall d v, ds !! d = Some v -> list_lock v = None /\ device_busy v = 0 /\ cmd_list v = [] /\ (host v < length hs)%nat) as HD
    by (intros d v Hv; apply Hd; now apply list_elem_of_lookup_2 in Hv).
  assert (forall h x, hs !! h = Some x -> host_lock x = None /\ host_busy x = 0) as HH
    by (intros h x Hx; apply Hh; now apply list_elem_of_lookup_2 in Hx).
  split; cbn [init cmds hosts devs cpus calls driver timers linuxSCSIIO_work reqs log]; try done.
  - intros c. rewrite !lookup_empty. destruct (list_to_map (reserves hs) !! c) as [[g ro]|] eqn:E; [|done]. split; [|done].
    apply elem_of_list_to_map in E; [|now rewrite reserves_keys]. apply elem_of_reserves in E as (? & ? & ? & _ & _ & _ & _ & ?). done.
  - intros d v Hv. destruct (HD d v Hv) as (_ & _ & -> & _). split; [constructor|]. intros c. rewrite lookup_empty. unfold on_list. set_solver.
  - split; [|intros c k; now rewrite lookup_empty]. intros k a Ha. apply HI in Ha as ->. split; [constructor|].
    split; [intros c; rewrite lookup_empty; cbn; set_solver|cbn; set_solver].
  - intros k a Ha. now apply HI in Ha as ->.
  - intros i k. split.
    + intros E. unfold host_locks in E. destruct (hs !! i) as [x|] eqn:Hx; [|done]. cbn in E. destruct (HH i x Hx). congruence.
    + intros (_ & a & Ha & E). apply HI in Ha as ->. done.
  - intros i k. split.
    + intros E. unfold list_locks in E. destruct (ds !! i) as [x|] eqn:Hx; [|done]. cbn in E. destruct (HD i x Hx). congruence.
    + intros (_ & a & Ha & E). apply HI in Ha as ->. done.
  - rewrite accepted_empty. split; [intros d v Hv; now destruct (HD d v Hv) as (_ & -> & _)|intros h x Hx; now destruct (HH h x Hx) as (_ & ->)].
  - rewrite accepted_empty. split.
    + intros ph r. rewrite lookup_empty. split; [|done]. destruct ph as [k|c|i| |]; cbn.
      * destruct (replicate n Idle !! k) eqn:E; [|done]. now apply HI in E as ->.
      * now rewrite lookup_empty.
      * destruct (replicate m init_cpu !! i) eqn:E; [|done]. now apply lookup_replicate in E as [-> _].
      * set_solver.
      * intros (st & _ & ?). set_solver.
    + constructor.
    + intros k r. destruct (replicate n Idle !! k) eqn:E; [|done]. now apply HI in E as ->.
    + set_solver.
    + intros r. rewrite lookup_empty. cbn. split; [now intros []|lia].
  - intros k c r. destruct (replicate n Idle !! k) eqn:E; [|done]. now apply HI in E as ->.
  - intros i c r. destruct (replicate m init_cpu !! i) eqn:E; [|done]. now apply lookup_replicate in E as [-> _].
  - split; [done|]. intros d v Hv. apply (HD d v Hv).
Qed.

(** ** Every reachable state *)

Lemma step_invariant slice s s' : invariant s -> step slice s s' -> invariant s'.
Proof.
  intros Hi Hs. revert Hi.
  destruct Hs as [k q e s1 s2 a Ha Hm (Hcpu & _) Hb|k e a s1 s2 a' Ha Hok Hc|i e s1 s2 Hb|h n b st s1|d n st s1]; intros Hi.
  - pose proof (begin_sound s1 k q e Hi Ha Hm Hcpu) as HS. now rewrite Hb in HS.
  - pose proof (call_sound_all s1 k e a Hi Ha Hok) as HS. now rewrite Hc in HS.
  - destruct Hi as (pl & ab & rq & H). destruct (cpus s1 !! i) as [p|] eqn:Hp.
    + pose proof (bh_sound (slice := slice) (e := e) H Hp) as HS. now rewrite Hb in HS.
    + unfold SCSILinuxBH in Hb. now rewrite Hp in Hb.
  - destruct Hi as (pl & ab & rq & H). exists pl, ab, rq. now apply inv_host.
  - destruct Hi as (pl & ab & rq & H). exists pl, ab, rq. now apply inv_device.
Qed.

Lemma reachable_invariant slice s : reachable slice s -> invariant s.
Proof.
  induction 1 as [hs ds n m Hr Ht|s s' _ IH Hs]; [do 3 eexists; now apply scsi_init_inv|now apply (step_invariant slice s)].
Qed.

Lemma timely_is_reachable slice s : timely_reachable slice s -> reachable slice s.
Proof. induction 1 as [hs ds n m Hr Ht|s s' _ IH Hs _]; [now apply reach_init|now apply (reach_step slice s)]. Qed.

(** ** What the bottom halves have *)

Definition cpu_fine (p : scsiLinuxTLS) : Prop :=
  match bh p with
  | BhOff => scheduled p = runningBH p /\ (runningBH p = false -> isrDoneCmds p = [] /\ bhDoneCmds p = [])
  | _ => runningBH p = true /\ scheduled p = false
  end.
Definition cpus_fine (s : sys) : Prop := forall i p, cpus s !! i = Some p -> cpu_fine p.

Lemma schedule_fine c p : cpu_fine p -> cpu_fine (SCSILinuxScheduleCompletion c p).
Proof.
  unfold cpu_fine, SCSILinuxScheduleCompletion, SCSILinuxSignalBH. cbn. destruct (runningBH p) eqn:Er; cbn.
  - destruct (bh p); rewrite ?Er; try done. intros [? _]. split; [done|]. done.
  - destruct (bh p); intros [? ?]; try done.
Qed.

(** A caller changes those of a CPU only when it schedules a completion. *)
Ltac unbind :=
  repeat match goal with
    | H : Go _ = Go _ |- _ => injection H as <- <- || injection H as <- || injection H as -> ->
    | H : context [mbind ?f ?o] |- _ => destruct o eqn:?; cbn [mbind outcome_bind] in H; try discriminate H
    | H : get ?o = Go _ |- _ => destruct o eqn:?; [injection H as ->|discriminate H]
    end.

Lemma put_list_cpus c s s' : scsi_put_command_list c s = Go s' -> cpus s' = cpus s.
Proof. unfold scsi_put_command_list. intros E. unbind. done. Qed.

Lemma put_free_cpus c s s' : scsi_put_command_free c s = Go s' -> cpus s' = cpus s.
Proof. unfold scsi_put_command_free. intros E. unbind. now case_match. Qed.

Lemma delete_timer_cpus c s s' : scsi_delete_timer c s = Go s' -> cpus s' = cpus s.
Proof. unfold scsi_delete_timer. intros E. unbind. case_match; unbind; done. Qed.

Lemma return_cpus q s : cpus (fst (return_from_done q s)) = cpus s.
Proof. now destruct q. Qed.

Lemma get_command_cpus h e s o s' : __scsi_get_command h e s = Go (o, s') -> cpus s' = cpus s.
Proof. unfold __scsi_get_command. intros E. unbind. repeat case_match; now simplify_eq. Qed.

Lemma get_list_cpus d c s s' : scsi_get_command_list d c s = Go s' -> cpus s' = cpus s.
Proof. unfold scsi_get_command_list. intros E. unbind. done. Qed.

Lemma add_timer_cpus c s s' : scsi_add_timer c s = Go s' -> cpus s' = cpus s.
Proof. unfold scsi_add_timer. intros E. unbind. now case_match. Qed.

Lemma queue_cpus k e r d pc s s' a' : SCSILinuxQueueCommand k e r d pc s = Go (s', a') -> cpus s' = cpus s.
Proof.
  unfold SCSILinuxQueueCommand. intros E.
  destruct (devs s !! d) as [v|]; [|done]. cbn [get mbind outcome_bind] in E. destruct (hosts s !! host v) as [hst|]; [|done].
  destruct pc; cbn -[SCSILinuxComputeSGArray SCSILinuxGetSerialNumber] in E; unbind; try (repeat case_match; unbind; done).
  - destruct a as [[[c x]|] s1]; unbind; apply (get_command_cpus _ _ _ _ _ Heqo).
  - by apply (get_list_cpus d c).
  - by apply (add_timer_cpus c).
  - transitivity (cpus a0); [done|]. case_match; unbind; [by apply (delete_timer_cpus c)|done].
  - by apply (put_list_cpus c).
  - transitivity (cpus a); [done|]. by apply (put_free_cpus c).
Qed.

Lemma done_cpus c i pc q s s' a' : SCSILinuxCmdDone c i pc q s = Go (s', a') ->
  cpus s' = cpus s \/ cpus s' = alter (SCSILinuxScheduleCompletion c) i (cpus s).
Proof.
  assert (SCSILinuxCmdDone_decide c i q s = Go (s', a') -> cpus s' = cpus s) as Hd.
  { unfold SCSILinuxCmdDone_decide. intros E. unbind. repeat case_match; unbind; try done; by destruct q; injection E as <- <-. }
  destruct pc; cbn [SCSILinuxCmdDone]; intros E.
  - left. unbind. case_match; unbind; [done|auto].
  - left. unbind. by apply (delete_timer_cpus c).
  - auto.
  - right. unbind. by destruct q; injection E as <- <-.
Qed.

(** A caller changes those of a CPU only when it schedules a completion. *)
Lemma call_cpus k e a s s' a' : call_step k e a s = Go (s', a') ->
  cpus s' = cpus s \/ exists c i, cpus s' = alter (SCSILinuxScheduleCompletion c) i (cpus s).
Proof.
  destruct a as [|r d pc|c i pc q|d|d [|c rest] sel|d [|c todo] sel retval|x c|x c|x c b|d [|c rest] sel retval|c|c|c]; cbn [call_step]; intros E.
  2: left; by apply (queue_cpus k e r d pc _ _ a').
  2: destruct (done_cpus _ _ _ _ _ _ _ E); eauto.
  all: try done; left.
  all: unfold abort_select, abort_finish, SCSILinuxCmdTimedOut, SCSILinuxCmdTimedOut_queue, SCSIProcessCmdTimedOut_finish,
    SCSILinuxAbortCommand_status in E; unbind; try done;
    repeat case_match; unbind; done.
Qed.

Lemma begin_cpus q e s s' a : begin q e s = Go (s', a) -> cpus s' = cpus s.
Proof. destruct q; cbn [begin]; intros E; unbind; try done. case_match; unbind; done. Qed.

Lemma cpus_fine_alter i f s s' : cpus_fine s -> cpus s' = alter f i (cpus s) ->
  (forall p, cpus s !! i = Some p -> cpu_fine p -> cpu_fine (f p)) -> cpus_fine s'.
Proof.
  intros HF E Hf j p. rewrite E. destruct (decide (j = i)) as [->|Hne].
  - rewrite list_lookup_alter_eq. intros (p0 & Hp0 & ->)%fmap_Some. apply (Hf p0 Hp0), (HF i p0 Hp0).
  - rewrite list_lookup_alter_ne by done. apply HF.
Qed.

(** Where a bottom half goes, unless it stops with commands left. *)
Lemma bh_fine slice i e s s' : cpus_fine s -> timely s -> SCSILinuxBH slice i e s = Go s' -> cpus_fine s'.
Proof.
  intros HF HT E. unfold SCSILinuxBH in E. destruct (cpus s !! i) as [p|] eqn:Hp; [|done]. cbn [get mbind outcome_bind] in E.
  pose proof (HF i p Hp) as Hfp. unfold cpu_fine in Hfp.
  assert (forall f s1, cpus s1 = cpus s -> cpu_fine (f p) -> cpus_fine (on_cpu i f s1)) as Hon.
  { intros f s1 E1 Hf. apply (cpus_fine_alter i f s); [done|cbn; now rewrite E1|]. intros p' Hp' _. congruence. }
  destruct (bh p) as [|now yield|c r st y|c r st y|c r st y|r st y] eqn:Epc.
  - destruct (scheduled p) eqn:Es; [|done]. unbind. apply Hon; [done|]. cbn. split; [|done]. symmetry. apply Hfp.
  - destruct Hfp as [Hr Hs]. destruct (bhDoneCmds p) as [|c l].
    + destruct (isrDoneCmds p) as [|c l] eqn:Ei; [|destruct (Z.ltb_spec yield now)]; unbind; apply Hon; try done; unfold cpu_fine; cbn; rewrite ?Epc, ?Hr, ?Hs; done.
    + destruct (Z.ltb_spec now yield); [|destruct (Z.ltb_spec yield now)].
      * unbind. case_match; unbind; rewrite on_cpu_twice; apply Hon; done.
      * unbind. apply Hon; [done|]. cbn. now rewrite Hr.
      * exfalso. apply (HT i p now Hp). rewrite Epc. f_equal. lia.
  - unbind. by apply Hon.
  - unbind. apply Hon; [by apply (put_list_cpus c)|done].
  - unbind. apply Hon; [by apply (put_free_cpus c)|done].
  - unbind. by apply Hon.
Qed.

Lemma timely_fine slice s : timely_reachable slice s -> cpus_fine s.
Proof.
  intros Hr. enough (cpus_fine s /\ timely s) by tauto. induction Hr as [hs ds n m Hr Ht|s s' _ [HF HT] Hs HT'].
  - split; intros i p; cbn; [intros [-> _]%lookup_replicate|intros now [-> _]%lookup_replicate]; done.
  - split; [|done]. destruct Hs as [k q e s s' a Ha _ _ Hb|k e a s s' a' Ha _ Hc|i e s s' Hb| |].
    + intros i p. cbn. rewrite (begin_cpus _ _ _ _ _ Hb). apply HF.
    + intros i p. cbn. destruct (call_cpus _ _ _ _ _ _ Hc) as [->|(c & j & E)]; [apply HF|].
      apply (cpus_fine_alter j (SCSILinuxScheduleCompletion c) s); [done|done|]. intros p' _. apply schedule_fine.
    + by apply (bh_fine slice i e s).
    + done.
    + done.
Qed.

(** ** Nobody can go on *)

Definition goes_on {A} (o : outcome A) : Prop := o <> Wait.

Lemma goes_on_bind {A B} (o : outcome A) (f : A -> outcome B) :
  goes_on o -> (forall a, o = Go a -> goes_on (f a)) -> goes_on (o ≫= f).
Proof. destruct o as [a| |]; cbn; [|done|done]. intros _ H. now apply H. Qed.

Lemma goes_on_get {A} (o : option A) : goes_on (get o).
Proof. now destruct o. Qed.

Lemma goes_on_check b : goes_on (check b).
Proof. now destruct b. Qed.

Lemma goes_on_unlocked l : l = None -> goes_on (unlocked l).
Proof. now intros ->. Qed.

#[local] Hint Resolve goes_on_get goes_on_check goes_on_unlocked : core.

Ltac goes :=
  repeat first
    [ done | apply goes_on_get | apply goes_on_check | apply goes_on_bind; [|intros ? ?] | case_match
    | progress cbn -[SCSILinuxComputeSGArray SCSILinuxGetSerialNumber] ].

Lemma delete_timer_goes c s : goes_on (scsi_delete_timer c s).
Proof. unfold scsi_delete_timer. goes. Qed.

Lemma done_goes c i pc q s : goes_on (SCSILinuxCmdDone c i pc q s).
Proof.
  assert (forall q, goes_on (SCSILinuxCmdDone_decide c i q s)) as Hd.
  { intros q'. unfold SCSILinuxCmdDone_decide. goes. }
  destruct pc; cbn [SCSILinuxCmdDone]; [goes; apply Hd| |apply Hd|goes].
  apply goes_on_bind; [apply delete_timer_goes|done].
Qed.

(** Who holds a lock does not wait. *)
Lemma list_holder_goes k e a d s : holds_list a = Some d -> goes_on (call_step k e a s).
Proof.
  destruct a as [| |c i pc q| |d' [|c rest] sel| | | | |d' [|c rest] sel retval| | |]; cbn [holds_list call_step]; intros E; try done.
  - apply done_goes.
  - unfold abort_select. goes.
  - unfold abort_finish. goes.
Qed.

Lemma host_holder_goes k e a h s : holds_host (devs s) a = Some h -> goes_on (call_step k e a s).
Proof.
  destruct a as [|r d pc| | | | | | | | | | |]; cbn [holds_host call_step]; intros E; try done.
  unfold SCSILinuxQueueCommand. destruct pc; try done; goes.
Qed.

(** Nobody waits when no lock is held. *)
Definition no_locks (s : sys) : Prop :=
  (forall d v, devs s !! d = Some v -> list_lock v = None) /\ (forall h x, hosts s !! h = Some x -> host_lock x = None).

Lemma get_Go {A} (o : option A) a : get o = Go a -> o = Some a.
Proof. destruct o; [now intros [= ->]|done]. Qed.

Lemma unlocked_goes k e a s : no_locks s -> a <> Idle -> goes_on (call_step k e a s).
Proof.
  intros [Hd Hh] Hne.
  assert (forall d v, get (devs s !! d) = Go v -> goes_on (unlocked (list_lock v))) as Hl
    by (intros d v Hv; apply goes_on_unlocked, (Hd d); now apply get_Go).
  assert (forall h x, get (hosts s !! h) = Go x -> goes_on (unlocked (host_lock x))) as Hx
    by (intros h x Hy; apply goes_on_unlocked, (Hh h); now apply get_Go).
  assert (forall c, goes_on (scsi_put_command_list c s)) as Hput.
  { intros c. unfold scsi_put_command_list. do 2 (apply goes_on_bind; [apply goes_on_get|intros ? ?]).
    apply goes_on_bind; [by eapply Hl|intros ? ?; goes]. }
  assert (forall c, goes_on (scsi_put_command_free c s)) as Hfree by (intros c; unfold scsi_put_command_free; goes).
  destruct a as [|r d pc|c i pc q|d|d [|c rest] sel|d [|c todo] sel retval|x c|x c|x c b|d [|c rest] sel retval|c|c|c];
    cbn [call_step]; try done.
  - unfold SCSILinuxQueueCommand. do 2 (apply goes_on_bind; [apply goes_on_get|intros ? ?]).
    destruct pc; try (goes; fail).
    + apply goes_on_bind; [|done]. unfold scsi_get_command_list. apply goes_on_bind; [goes|intros ? ?].
      apply goes_on_bind; [by eapply Hl|done].
    + apply goes_on_bind; [by eapply Hx|intros ? ?; goes].
    + apply goes_on_bind; [by eapply Hx|intros ? ?; goes].
  - apply done_goes.
  - apply goes_on_bind; [goes|intros ? ?]. apply goes_on_bind; [by eapply Hl|done].
  - unfold abort_select. goes.
  - apply goes_on_bind; [goes|intros ? ?]. apply goes_on_bind; [by eapply Hl|done].
  - unfold SCSILinuxTryAbortCommand. goes.
  - goes.
  - unfold SCSILinuxAbortCommand_status. goes.
  - unfold abort_finish. goes.
  - unfold SCSILinuxCmdTimedOut. goes.
  - unfold SCSILinuxCmdTimedOut_queue. goes.
  - unfold SCSIProcessCmdTimedOut_finish. goes.
Qed.

(** Then nobody holds a lock, no caller is on its way and no bottom half has
    anything left. *)
Definition calm (e : Z) : env := Env None true true true 0 e.

Lemma calm_ok t a s : cpus s <> [] -> ok_env (calm t) a s.
Proof. intros Hc. split; [|split; done]. cbn. destruct (cpus s); [done|cbn; lia]. Qed.

Lemma count_empty P : count P ∅ = 0.
Proof. unfold count. by rewrite map_filter_empty, map_size_empty. Qed.

Section rest.
Context {slice : Z} {s : sys} {pl : places} {ab : gmap nat nat} {rq : gmap nat phase}.
Context (H : inv s pl ab rq) (HF : cpus_fine s) (Hr : at_rest slice s) (Hc : cpus s <> []).

Lemma rest_locks : no_locks s.
Proof using H Hr Hc.
  destruct Hr as (Hw & _). split.
  - intros d v Hv. destruct (list_lock v) as [k|] eqn:E; [|done]. exfalso.
    destruct (proj1 (i_llock _ _ _ _ H d k)) as (_ & a & Ha & Hh); [unfold list_locks; rewrite Hv; cbn; congruence|].
    exact (list_holder_goes k (calm 0) a d s Hh (Hw k a _ Ha (calm_ok 0 a s Hc))).
  - intros h x Hx. destruct (host_lock x) as [k|] eqn:E; [|done]. exfalso.
    destruct (proj1 (i_hlock _ _ _ _ H h k)) as (_ & a & Ha & Hh); [unfold host_locks; rewrite Hx; cbn; congruence|].
    exact (host_holder_goes k (calm 0) a h s Hh (Hw k a _ Ha (calm_ok 0 a s Hc))).
Qed.

Lemma rest_calls k a : calls s !! k = Some a -> a = Idle.
Proof using H Hr Hc.
  intros Ha. assert (a = Idle \/ a <> Idle) as [E|E] by (destruct a; auto); [done|]. exfalso.
  exact (unlocked_goes k (calm 0) a s rest_locks E (proj1 Hr k a _ Ha (calm_ok 0 a s Hc))).
Qed.

Lemma rest_cpus i p : cpus s !! i = Some p -> bh p = BhOff /\ isrDoneCmds p = [] /\ bhDoneCmds p = [].
Proof using H HF Hr Hc.
  intros Hp. pose proof (HF i p Hp) as Hf. destruct Hr as (_ & Hw & _).
  assert (SCSILinuxBH slice i (calm 0) s = Wait) as E by (apply Hw; now apply lookup_lt_Some in Hp). revert E.
  unfold SCSILinuxBH, cpu_fine in *. rewrite Hp. cbn [get mbind outcome_bind]. destruct (bh p) as [|now yield|c r st y|c r st y|c r st y|r st y].
  - destruct (scheduled p); [done|]. intros _. destruct Hf as [E Hf]. split; [done|]. now apply Hf.
  - repeat case_match; try done. destruct (cmds s !! n); cbn; [case_match; done|done].
  - intros E. exfalso. revert E. change (goes_on (x ← get (cmds s !! c); v ← get (devs s !! device x); hst ← get (hosts s !! host v);
      unlocked (host_lock hst) ≫= fun _ => Go (on_cpu i (set_bh (BhPut c r st y)) (add_busy (host v) (device x) (-1) s)))).
    do 3 (apply goes_on_bind; [goes|intros ? ?]). apply goes_on_bind; [|done]. apply goes_on_unlocked.
    eapply (proj2 rest_locks). by eapply get_Go.
  - intros E. exfalso. revert E. change (goes_on (s ← scsi_put_command_list c s; Go (on_cpu i (set_bh (BhFree c r st y)) s))).
    apply goes_on_bind; [|done]. unfold scsi_put_command_list. do 2 (apply goes_on_bind; [goes|intros ? ?]).
    apply goes_on_bind; [|intros ? ?; goes]. apply goes_on_unlocked. eapply (proj1 rest_locks). by eapply get_Go.
  - intros E. exfalso. revert E. change (goes_on (s ← scsi_put_command_free c s; Go (on_cpu i (set_bh (BhComplete r st y)) s))).
    apply goes_on_bind; [unfold scsi_put_command_free; goes|done].
  - done.
Qed.

Lemma rest_tokens g : match g with Reserve _ => True | _ => tokens s g = [] end.
Proof using H HF Hr Hc.
  destruct g as [k|i| | |h]; try done; cbn.
  - destruct (calls s !! k) as [a|] eqn:E; [|done]. now rewrite (rest_calls k a E).
  - destruct (cpus s !! i) as [p|] eqn:E; [|done]. destruct (rest_cpus i p E) as (E1 & E2 & E3). cbn. unfold cpu_tokens. now rewrite E1, E2, E3.
  - destruct Hr as (_ & _ & ->). by rewrite elements_empty.
Qed.

Lemma rest_aborts : ab = ∅.
Proof using H HF Hr Hc.
  apply map_eq. intros c. rewrite lookup_empty. destruct (ab !! c) as [k|] eqn:E; [|done]. exfalso.
  destruct (i_aborts _ _ _ _ H) as [HA HW]. destruct (lookup_lt_is_Some_2 _ _ (HW c k E)) as [a Ha].
  destruct (HA k a Ha) as (_ & HL & _). apply HL in E. rewrite (rest_calls k a Ha) in E. cbn in E. set_solver.
Qed.

Lemma rest_cmds : cmds s = ∅.
Proof using H HF Hr Hc.
  apply map_eq. intros c. rewrite lookup_empty. destruct (cmds s !! c) as [x|] eqn:E; [|done]. exfalso.
  pose proof (i_cmds _ _ _ _ H c) as HC. rewrite E, rest_aborts, lookup_empty in HC. cbn in HC.
  destruct (pl !! c) as [[g ro]|] eqn:Ep; [|done]. destruct HC as (Hf & Hd & _).
  destruct (decide (g = Parking)) as [->|Hg].
  - rewrite (own_parking _ _ (i_own _ _ _ _ H) c ro Ep) in Hf. destruct Hf as (_ & _ & _ & _ & _ & Hf). rewrite Hf in Hd. done.
  - pose proof (rest_tokens g) as HT. pose proof (proj2 (own_spec _ _ (i_own _ _ _ _ H) g c ro Hg) Ep) as Hin.
    destruct g as [k|i| | |h]; try (rewrite HT in Hin; set_solver).
    cbn in Hin. destruct (hosts s !! h) as [y|]; [|set_solver]. cbn in Hin. unfold free_tokens in Hin.
    apply list_elem_of_fmap in Hin as (q & [= _ ->] & _). now destruct Hf as (_ & _ & _ & ?).
Qed.

Lemma rest_accepted f : accepted f (cmds s) pl = ∅.
Proof using H HF Hr Hc. rewrite rest_cmds. apply accepted_empty. Qed.

Lemma rest_host h x : hosts s !! h = Some x -> host_busy x = 0.
Proof using H HF Hr Hc.
  intros Hx. rewrite (busy_host _ _ _ (i_busy _ _ _ _ H) h x Hx), rest_accepted, count_empty. done.
Qed.

Lemma rest_dev d v : devs s !! d = Some v -> device_busy v = 0 /\ cmd_list v = [].
Proof using H HF Hr Hc.
  intros Hv. split; [by rewrite (busy_dev _ _ _ (i_busy _ _ _ _ H) d v Hv), rest_accepted, count_empty|].
  destruct (cmd_list v) as [|c l] eqn:E; [done|]. exfalso. destruct (i_lists _ _ _ _ H d v Hv) as [_ HL].
  destruct (proj1 (HL c)) as (x & g & ro & Hx & _); [rewrite E; left|]. rewrite rest_cmds, lookup_empty in Hx. done.
Qed.

Lemma rest_request r : (r < length (reqs s))%nat -> r ∈ completions (log s) \/ refused (log s) r.
Proof using H HF Hr Hc.
  intros Hlt. pose proof (i_reqs _ _ _ _ H) as HR. destruct (proj2 (rq_all _ _ _ _ _ _ HR r) Hlt) as [ph Hph].
  apply (rq_claim _ _ _ _ _ _ HR) in Hph. destruct ph as [k|c|i| |]; cbn [claim] in Hph; auto; exfalso.
  - destruct (calls s !! k) as [a|] eqn:Ha; [|done]. cbn in Hph. by rewrite (rest_calls k a Ha) in Hph.
  - by rewrite rest_accepted, lookup_empty in Hph.
  - destruct (cpus s !! i) as [p|] eqn:Hp; [|done]. cbn in Hph. destruct (rest_cpus i p Hp) as (E & _). by rewrite E in Hph.
Qed.
End rest.

(** A request that was completed was not sent back. *)
Lemma completed_not_refused s pl ab rq r : inv s pl ab rq -> r ∈ completions (log s) -> ~ refused (log s) r.
Proof.
  intros H Hc Hf. pose proof (rq_claim _ _ _ _ _ _ (i_reqs _ _ _ _ H)) as HC.
  pose proof (proj1 (HC PCompleted r) Hc). pose proof (proj1 (HC PRefused r) Hf). congruence.
Qed.

Lemma completed_known s pl ab rq r : inv s pl ab rq -> r ∈ completions (log s) -> (r < length (reqs s))%nat.
Proof.
  intros H Hc. apply (rq_all _ _ _ _ _ _ (i_reqs _ _ _ _ H)). exists PCompleted.
  by apply (rq_claim _ _ _ _ _ _ (i_reqs _ _ _ _ H)).
Qed.

(** The request [r] has a command, or a bottom half is completing it. *)
Definition in_progress (s : sys) (r : nat) : Prop :=
  (exists c x, cmds s !! c = Some x /\ vmkCmdPtr x = r) \/ (exists i p, cpus s !! i = Some p /\ bh_request (bh p) = Some r).

Lemma accepted_progress s pl ab rq r : inv s pl ab rq -> Returned r VMK_OK ∈ log s -> r ∈ completions (log s) \/ in_progress s r.
Proof.
  intros H Hr. pose proof (i_reqs _ _ _ _ H) as HR. pose proof (rq_ok _ _ _ _ _ _ HR r Hr) as HT.
  destruct (rq !! r) as [ph|] eqn:E; [|done]. apply (rq_claim _ _ _ _ _ _ HR) in E. destruct ph as [k|c|i| |]; cbn in HT, E; try done.
  - right. left. rewrite lookup_accepted in E. unfold tally in E. destruct (cmds s !! c) as [x|] eqn:Hx; [|done].
    exists c, x. split; [done|]. destruct (pl !! c) as [[g ro]|]; [|done]. destruct (counted ro); [|done]. by injection E.
  - right. right. destruct (cpus s !! i) as [p|] eqn:Hp; [|done]. by exists i, p.
  - by left.
Qed.

(** An abort that succeeded completes its commands. *)
Lemma finish_completes s pl ab rq k d c rest sel retval e : inv s pl ab rq -> calls s !! k = Some (Finish d (c :: rest) sel retval) ->
  retval <> VMK_FAILURE -> exists s', call_step k e (Finish d (c :: rest) sel retval) s = Go (s', Done c (cpu e) DoneEnter (ToAbort d rest sel retval)).
Proof.
  intros H Ha Hr. destruct (i_calls _ _ _ _ H k _ Ha) as [_ HA]. destruct (HA Hr c ltac:(left)) as (x & Hx & Hf).
  cbn [call_step]. unfold abort_finish. rewrite Hx. cbn [get mbind outcome_bind].
  rewrite test_clear_other by done. rewrite Hf. by eexists.
Qed.

(** ** A run *)

(** Choices of who goes on, where every outside answer is the favourable one and the
    memory is the reserve's. *)
Inductive move := Begin (k : nat) (q : request) | Continue (k : nat) | Bottom (i : nat).

Definition allowed (q : request) (s : sys) : bool :=
  match q with
  | QueueCommand _ d | AbortCommands d => bool_decide (d < length (devs s))%nat
  | DriverDone c _ _ _ => bool_decide (c ∈ driver s)
  | TimerFires _ | Work => false
  end.

Definition on_time (p : scsiLinuxTLS) : bool := match bh p with BhLoop now y => negb (now =? y) | _ => true end.

Definition moved (slice : Z) (m : move) (s : sys) : option sys :=
  match m with
  | Begin k q =>
      match calls s !! k with
      | Some Idle =>
          if allowed q s then
            match begin q (calm 0) s with Go (s', a) => Some (set_call k a s') | _ => None end
          else None
      | _ => None
      end
  | Continue k =>
      match calls s !! k with
      | Some a => match call_step k (calm 0) a s with Go (s', a') => Some (set_call k a' s') | _ => None end
      | None => None
      end
  | Bottom i => match SCSILinuxBH slice i (calm 0) s with Go s' => Some s' | _ => None end
  end.

Fixpoint run (slice : Z) (l : list move) (s : sys) : option sys :=
  match l with
  | [] => Some s
  | m :: l =>
      s ← moved slice m s;
      if forallb on_time (cpus s) && negb (bool_decide (cpus s = [])) then run slice l s else None
  end.

Lemma moved_step slice m s s' : cpus s <> [] -> moved slice m s = Some s' -> step slice s s'.
Proof.
  intros Hc. destruct m as [k q|k|i]; cbn [moved].
  - destruct (calls s !! k) as [[| | | | | | | | | | | |]|] eqn:Ha; try done. destruct (allowed q s) eqn:Eq; [|done].
    destruct (begin q (calm 0) s) as [[s1 a]| |] eqn:Eb; [|done|done]. intros [= <-].
    apply (step_begin slice k q (calm 0)); [done| |by apply calm_ok|done].
    destruct q; cbn in Eq |- *; try done; by apply bool_decide_eq_true in Eq.
  - destruct (calls s !! k) as [a|] eqn:Ha; [|done]. destruct (call_step k (calm 0) a s) as [[s1 a']| |] eqn:Eb; [|done|done].
    intros [= <-]. apply (step_call slice k (calm 0) a); [done|by apply calm_ok|done].
  - destruct (SCSILinuxBH slice i (calm 0) s) eqn:Eb; [|done|done]. intros [= <-]. by apply (step_bh slice i (calm 0)).
Qed.

Lemma on_time_timely s : forallb on_time (cpus s) = true -> timely s.
Proof.
  intros H i p now Hp E. rewrite forallb_forall in H. specialize (H p). rewrite <-list_elem_of_In in H.
  specialize (H (list_elem_of_lookup_2 _ _ _ Hp)). unfold on_time in H. rewrite E, Z.eqb_refl in H. done.
Qed.

Lemma run_timely slice l s s' : cpus s <> [] -> timely_reachable slice s -> run slice l s = Some s' -> timely_reachable slice s'.
Proof.
  revert s. induction l as [|m l IH]; intros s Hc Hs E; cbn in E; [congruence|].
  destruct (moved slice m s) as [s1|] eqn:Em; [|done]. cbn in E.
  destruct (forallb on_time (cpus s1)) eqn:E1; [|done]. destruct (bool_decide (cpus s1 = [])) eqn:E2; [done|]. cbn in E.
  apply bool_decide_eq_false in E2. apply (IH s1); [done| |done].
  apply (timely_step slice s); [done|by apply (moved_step slice m)|by apply on_time_timely].
Qed.

(** Nobody is on its way. *)
Definition rested (s : sys) : bool :=
  forallb (fun a => match a with Idle => true | _ => false end) (calls s) &&
  forallb (fun p => match bh p with BhOff => negb (scheduled p) | _ => false end) (cpus s) && bool_decide (driver s = ∅).

Lemma rested_at_rest slice s : rested s = true -> at_rest slice s.
Proof.
  unfold rested. rewrite !andb_true_iff, !forallb_forall, bool_decide_eq_true. intros [[H1 H2] H3].
  split; [|split; [|done]].
  - intros k a e Ha _. specialize (H1 a). rewrite <-list_elem_of_In in H1.
    specialize (H1 (list_elem_of_lookup_2 _ _ _ Ha)). now destruct a.
  - intros i e Hi. destruct (lookup_lt_is_Some_2 _ _ Hi) as [p Hp]. specialize (H2 p). rewrite <-list_elem_of_In in H2.
    specialize (H2 (list_elem_of_lookup_2 _ _ _ Hp)). unfold SCSILinuxBH. rewrite Hp. cbn [get mbind outcome_bind].
    destruct (bh p); try done. by destruct (scheduled p).
Qed.

(** A read is queued, aborted, and completed by the driver while it is being aborted. *)
Definition hba : Scsi_Host :=
  Host None 0 4 false SHOST_RUNNING 16 [(7%nat, Cmnd 0 0 0 0 0 0 0 (replicate 96 0) (replicate 16 0) 0 DMA_NONE 0 None false 0)]
    true false true.
Definition disk : scsi_device := Device 0 0 2 SDEV_RUNNING false false [] None.
Definition read8 : vmk_ScsiCommand := VmkCmd [0x28; 0; 0; 0; 0; 0; 0; 0; 8; 0] [4096] 4096 DirRead false.

Definition until_finish : list move :=
  Begin 0 (QueueCommand read8 0) :: replicate 6 (Continue 0) ++
  Begin 0 (AbortCommands 0) :: replicate 5 (Continue 0) ++
  Begin 1 (DriverDone 7 0 0 (replicate 96 0)) :: Continue 1 :: replicate 3 (Continue 0).
Definition from_finish : list move := replicate 4 (Continue 0) ++ replicate 7 (Bottom 0).

Definition before (l : list move) : sys := default (init [] [] 0 0) (run 5000 l (init [hba] [disk] 2 1)).

Lemma before_reachable l : is_Some (run 5000 l (init [hba] [disk] 2 1)) -> timely_reachable 5000 (before l).
Proof.
  intros [s E]. unfold before. rewrite E. cbn. apply (run_timely 5000 l (init [hba] [disk] 2 1)); [done| |done].
  apply timely_init; [|by repeat constructor]. split.
  - by intros h ->%list_elem_of_singleton.
  - apply (bool_decide_unpack _). by vm_compute.
  - intros d ->%list_elem_of_singleton. cbn. repeat split; lia.
Qed.

(** ** The theorems *)

(** C25: the SCSI commands of the VMkernel. In every state that any callers, drivers,
    bottom halves and aborts can reach, on hosts without time-outs: no step accesses
    a command that was freed, frees one that is not on the list of its device or
    completes one that was completed. A request is completed to the VMkernel at most
    once, only if it was made and never if it was refused; one that was accepted was
    completed or is in progress. An abort that has not failed when it comes to its
    last loop completes every command of its list there itself. *)
Theorem scsi_commands_safe (slice : Z) (s : sys) : reachable slice s ->
  (forall k a e, calls s !! k = Some a -> ok_env e a s -> call_step k e a s <> Bug) /\
  (forall k q e, calls s !! k = Some Idle -> may q s -> ok_env e Idle s -> begin q e s <> Bug) /\
  (forall i e, (i < length (cpus s))%nat -> SCSILinuxBH slice i e s <> Bug) /\
  NoDup (completions (log s)) /\
  (forall r, r ∈ completions (log s) -> (r < length (reqs s))%nat /\ ~ refused (log s) r) /\
  (forall r, Returned r VMK_OK ∈ log s -> r ∈ completions (log s) \/ in_progress s r) /\
  (forall k d c rest sel retval e, calls s !! k = Some (Finish d (c :: rest) sel retval) -> retval <> VMK_FAILURE ->
     exists s', call_step k e (Finish d (c :: rest) sel retval) s = Go (s', Done c (cpu e) DoneEnter (ToAbort d rest sel retval))).
Proof.
  intros Hr. pose proof (reachable_invariant slice s Hr) as Hi. pose proof Hi as (pl & ab & rq & H). repeat split.
  - intros k a e Ha He E. pose proof (call_sound_all s k e a Hi Ha He) as HS. by rewrite E in HS.
  - intros k q e Ha Hm He E. pose proof (begin_sound s k q e Hi Ha Hm (proj1 He)) as HS. by rewrite E in HS.
  - intros i e Hlt E. destruct (lookup_lt_is_Some_2 _ _ Hlt) as [p Hp].
    pose proof (bh_sound (slice := slice) (e := e) H Hp) as HS. by rewrite E in HS.
  - apply (rq_NoDup _ _ _ _ _ _ (i_reqs _ _ _ _ H)).
  - by apply (completed_known s pl ab rq).
  - by apply (completed_not_refused s pl ab rq).
  - intros r. by apply (accepted_progress s pl ab rq).
  - intros k d c rest sel retval e. by apply (finish_completes s pl ab rq).
Qed.

Lemma scsi_commands_safe_witness :
  (exists s', call_step 0 (calm 0) (Finish 0 [7%nat] [7%nat] VMK_OK) (before until_finish) =
     Go (s', Done 7 0 DoneEnter (ToAbort 0 [] [7%nat] VMK_OK))) /\
  (0%nat ∈ completions (log (before until_finish)) \/ in_progress (before until_finish) 0).
Proof.
  assert (reachable 5000 (before until_finish)) as Hr.
  { apply timely_is_reachable, before_reachable. exists (before until_finish). by vm_compute. }
  destruct (scsi_commands_safe 5000 (before until_finish) Hr) as (_ & _ & _ & _ & _ & HA & HF). split.
  - apply (HF 0%nat 0%nat 7%nat [] [7%nat] VMK_OK (calm 0)); [by vm_compute|done].
  - apply HA. assert (log (before until_finish) = [Returned 0 VMK_OK]) as -> by (by vm_compute). left.
Defined.

(** C40: nothing is lost. When no driver has a command and no caller and no bottom half
    can go on, provided that no bottom half read the clock at the very moment at which
    its time was over: every request was completed to the VMkernel or refused, and not
    both; no command is in use or on the list of a device, and the counts of all
    hosts and devices are zero. *)
Theorem scsi_drains (slice : Z) (s : sys) : timely_reachable slice s -> at_rest slice s -> cpus s <> [] ->
  (forall r, (r < length (reqs s))%nat ->
     r ∈ completions (log s) /\ ~ refused (log s) r \/ refused (log s) r /\ r ∉ completions (log s)) /\
  cmds s = ∅ /\ (forall k a, calls s !! k = Some a -> a = Idle) /\
  (forall h x, hosts s !! h = Some x -> host_busy x = 0 /\ host_lock x = None) /\
  (forall d v, devs s !! d = Some v -> device_busy v = 0 /\ cmd_list v = [] /\ list_lock v = None).
Proof.
  intros Hr Hq Hc. pose proof (timely_fine slice s Hr) as HF.
  destruct (reachable_invariant slice s (timely_is_reachable slice s Hr)) as (pl & ab & rq & H).
  pose proof (rest_locks H Hq Hc) as [HL1 HL2]. repeat split.
  - intros r Hlt. destruct (rest_request H HF Hq Hc r Hlt) as [HR|HR]; [left|right]; (split; [done|]).
    + by apply (completed_not_refused s pl ab rq).
    + intros HR'. by apply (completed_not_refused s pl ab rq r).
  - by apply (rest_cmds H HF Hq Hc).
  - by apply (rest_calls H Hq Hc).
  - by apply (rest_host H HF Hq Hc h).
  - by apply (HL2 h).
  - by apply (rest_dev H HF Hq Hc d).
  - by apply (rest_dev H HF Hq Hc d).
  - by apply (HL1 d).
Qed.

Lemma scsi_drains_witness : 0%nat ∈ completions (log (before (until_finish ++ from_finish))).
Proof.
  set (s := before (until_finish ++ from_finish)).
  assert (timely_reachable 5000 s) as Hr by (apply before_reachable; exists s; by vm_compute).
  assert (at_rest 5000 s) as Hq by (apply rested_at_rest; by vm_compute).
  assert (cpus s <> []) as Hc by (by vm_compute).
  destruct (scsi_drains 5000 s Hr Hq Hc) as (HR & _). destruct (HR 0%nat) as [[HC _]|[(st & Hst & Hl) _]].
  - apply (bool_decide_unpack _). by vm_compute.
  - done.
  - exfalso. assert (log s = [Returned 0 VMK_OK; Aborted [7%nat] VMK_OK;
      Completed 0 (Completion 0 0 4096 None)]) as El by (by vm_compute).
    rewrite El in Hl. rewrite !elem_of_cons in Hl. destruct Hl as [E|[E|[E|E]]]; [by injection E|done|done|]. by apply elem_of_nil in E.
Defined.
